(* ===== verification/_CoqProject ===== *)
-Q . S2P
Prelude.v
VarintSpec.v
Memory.v
MemFacts.v
PbTypes.v
PbCommon.v
PbIStream.v
PbDecode.v
PbEncode.v
PbFields.v
Cct.v
FirebaseCore.v
WireSpec.v
Varint.v
EncSpec.v
EncMsg.v
EncRefine.v
CctClient.v
Base64.v
CctImage.v
EncodeThms.v
IterFacts.v
WireThms.v
DecSafe.v
DecStatic.v
Required.v
DecodeThms.v
TableThms.v
Transfer.v
TransferMsg.v
TransferLoop.v
RoundTrip.v
SizeThms.v
Base64Thms.v
Base64RT.v
LdbSlice.v
LdbCoding.v
LdbCrc.v
LdbBloom.v
LdbFilterBlock.v
LdbFormat.v
LdbFormatThms.v
LdbIterator.v
LdbBlock.v
LdbBlockThms.v
LdbBlockBuild.v
LdbLog.v
LdbLogThms.v
LdbTwoLevel.v
LdbMerger.v
LdbTableFormat.v
LdbTableBuilder.v
LdbTableBuild.v
LdbTable.v
LdbTableThms.v
LdbWriteBatch.v
LdbSkipList.v
LdbSkipListThms.v
LdbSkipIter.v
LdbArena.v
LdbMemTable.v
LdbMemThms.v
LdbVersionEdit.v
LdbVersionEditThms.v
LdbFilename.v
LdbFilenameThms.v
LdbCache.v
LdbCacheThms.v
LdbCacheRun.v
LdbVersion.v
LdbVersionThms.v
LdbVersionSet.v
LdbVersionSetThms.v
LdbManifest.v
LdbDB.v
LdbDBThms.v
LdbDBIter.v
LdbDBIterThms.v
LdbDBWrite.v
LdbRepair.v
