(* ===== verification/Prelude.v ===== *)
(** * Verification of the C and C++ code of BetweenUS

    BetweenUS is an iOS application; its C and C++ code is the
    protocol-buffer runtime nanopb, the generated message tables of the
    telemetry and diagnostics libraries that use it, the base-64 routine of
    the web-socket handshake, and the storage engine leveldb under the
    database client.  This library models that code and proves it correct:
    nanopb and base-64 over a byte memory, leveldb as functions on its
    objects.  Build configuration: PB_FIELD_32BIT, PB_NO_PACKED_STRUCTS and
    PB_ENABLE_MALLOC; LEVELDB_IS_BIG_ENDIAN=0, no HAVE_CRC32C, no
    HAVE_SNAPPY; little endian, LP64.

    ** The program and its models: messages

    - Memory.v: flat byte memory and heap.  A computation returns, is
      undefined ([Ub]: access to an unmapped byte, bad free, missing table
      entry) or runs out of fuel ([NoFuel]); [M] is the memory monad, [C S] a
      C function that threads a stream of type [S] and returns [bool].
    - PbTypes.v: the declarations of pb.h, pb_encode.h, pb_decode.h; user
      callbacks, the allocator's choices and the linker's table addresses are
      the fields of the class [PbEnv].
    - PbCommon.v: pb_common.c, the field iterator over a descriptor array.
    - PbIStream.v and PbDecode.v: pb_decode.c.  Streams, varints, tags,
      skipping, substreams and fixed-width values; then static, pointer,
      callback, oneof and extension fields, default values, release and the
      loop [pb_decode_noinit] under the entry points [pb_decode],
      [pb_decode_delimited] and [pb_decode_nullterminated].
    - PbEncode.v: pb_encode.c.  Streams, writers, the field encoders, the
      proto3 zero test, submessages, extensions, the entry points.
    - PbFields.v: the PB_FIELD macros of pb.h over a model of C structure
      layout ([ctype], [sizeof], [offsetof]).
    - Cct.v and FirebaseCore.v: cct.nanopb.[hc] and firebasecore.nanopb.[hc],
      the enumerations, structures, tables, tags, initializers and sizes.
    - CctClient.v: the two functions of GDTCCTNanopbHelpers.m that call the
      codec, [GDTCCTEncodeBatchedLogRequest] and [GDTCCTDecodeLogResponse].
    - Base64.v: fbase64.c, [f_b64_ntop] and [f_b64_pton].

    Functions that call each other recursively through submessages take the
    next nesting level as an argument, and the knot is tied by recursion on
    fuel.

    ** The program and its models: storage

    Under Pods/leveldb-library.  A slice or string is the list of its bytes,
    an object is a record of its members, a method returns the new object; an
    interface of the code (files, comparators, filter policies, handlers,
    environments, the allocator) is a class or a record of operations whose
    documented contract is a class of laws, so the theorems hold for every
    implementation.

    - LdbSlice.v: slice.h, status.h, status.cc; three-way comparisons.
    - LdbCoding.v: coding.h, coding.cc, fixed-width integers and varints.
    - LdbCrc.v: crc32c.h, crc32c.cc.
    - LdbBloom.v: hash.cc, filter_policy.h, bloom.cc; LdbFilterBlock.v:
      filter_block.h, filter_block.cc.
    - LdbFormat.v: comparator.h, comparator.cc, dbformat.h, dbformat.cc, the internal keys.
    - LdbLog.v: log_format.h, log_writer.cc, log_reader.cc, the write-ahead
      log and the manifest's container.
    - LdbWriteBatch.v: write_batch.h, write_batch.cc.
    - LdbSkipList.v: skiplist.h, random.h; a pointer is an index into the
      growing list of nodes.
    - LdbArena.v: arena.h, arena.cc, addresses as numbers.
    - LdbMemTable.v: memtable.h, memtable.cc and the inserter of
      write_batch.cc: a batch is applied to the memtable through [Iterate],
      an entry goes into an allocation of the arena and a node of the skip
      list, a lookup seeks in the skip list with the internal comparator.
    - LdbIterator.v: iterator.h, iterator.cc, iterator_wrapper.h; LdbBlock.v:
      block_builder.cc, block.cc, prefix-compressed blocks; LdbTwoLevel.v:
      two_level_iterator.cc, an index over blocks; LdbMerger.v: merger.cc,
      several iterators as one.
    - LdbTableFormat.v: format.h, format.cc; LdbTableBuilder.v:
      table_builder.cc; LdbTable.v: table.cc and the interface of cache.h.  A
      table is written block by block through the file interface, opened from
      its footer, and read through the index, the filter block and the block
      cache.
    - LdbCache.v: cache.cc, the LRU cache with its hash table and circular
      lists at pointer level over a heap, and the sharded cache.
    - LdbVersionEdit.v: logging.cc, version_edit.h,
      version_edit.cc, the records of the manifest.
    - LdbFilename.v: filename.h, filename.cc, env.cc and the part of env.h
      they use.
    - LdbVersion.v: version_set.cc, the part that looks at one version: its
      files by level, lookups and seek statistics, overlaps, the level
      iterator, the inputs of compactions, [Finalize]; the table cache of
      table_cache.h is the class [TableCache].
    - LdbVersionSet.v: version_set.cc, the part that changes versions: the
      builder, the list of live versions and the reference counts of versions
      and files, file numbers, [LogAndApply], [WriteSnapshot], [Recover].
    - LdbDBIter.v: db_iter.cc, the iterator over user keys.
    - LdbDB.v: snapshot.h, builder.cc, db_impl.h, db_impl.cc.  [DBImpl] has
      the version set, the memtables by address, the log, the queue of
      writers, the snapshots and the state of the background work.  A write
      joins the queue, the front writer makes room, gathers a group, appends
      it to the log and inserts it into the memtable; a full memtable becomes
      a table of level 0 or deeper ([CompactMemTable]), tables are merged
      downwards ([DoCompactionWork]), both install a version edit through
      [LogAndApply] and then delete obsolete files; a read asks the two
      memtables and the current version; [Open] recovers the manifest and
      replays the logs.
    - LdbRepair.v: repair.cc, which rebuilds the manifest of a damaged
      database: [FindFiles], [ConvertLogFilesToTables], [ExtractMetaData] and
      [WriteDescriptor] in turn ([Run]), on the same environment and tables.

    The mutex of the database is not a value.  Where the code releases it,
    the argument [others] is what the other threads do to the whole database
    in between, any function; a theorem says what it asks of it.

    ** Specifications

    - WireSpec.v: [parses c p], the reader [c] implements the parser [p] on
      lists of bytes, on every buffer stream.
    - EncSpec.v, EncMsg.v: [emits c e], the encoder [c] puts the
      bytes of the specification [e] on the wire, on sizing streams and on
      buffers of any size; [emessage] is the wire form of a message
      structure, without streams, sizing passes or substreams.
    - DecSafe.v: [dsafe W c Q], on every input [c] reaches no undefined
      behaviour and changes nothing outside [W].
    - Transfer.v: [holds m R e v], the bytes of region [R] determine that the
      structure has wire form [v]; [decodes R P c v Q], the decoder [c]
      consumes exactly [v] and establishes [Q].
    - IterFacts.v: [field_offsets], the place of every field, and [iter_at].

    ** Theorems

    - Encoding (Varint.v, EncRefine.v, EncodeThms.v): [pb_encode] writes the
      wire form or reports that it does not fit, [pb_get_encoded_size]
      measures it, delimited and null-terminated framing, the uploader's two
      passes return the complete request.
    - Round trip (Transfer.v, TransferMsg.v, TransferLoop.v, RoundTrip.v):
      decoding what was encoded rebuilds the structure, for message types
      whose fields are single static values (at any nesting depth); the order
      of the fields and unknown fields in between do not matter.
    - Safety (DecSafe.v, DecStatic.v, DecodeThms.v): on any input whatsoever,
      decoding a static message type terminates and writes only inside the
      destination structure.
    - Wire format (Varint.v, WireThms.v): round
      trips of varints, zigzag, tags and fixed-width values, the exact
      behaviour of the varint readers, skipping, substreams.
    - Bookkeeping and tables (Required.v, IterFacts.v, TableThms.v,
      SizeThms.v): required fields, field search, the generated
      tables agree with the layout of their structures, the size constants,
      two corner cases of array counts.
    - Base 64 (Base64Thms.v, Base64RT.v): encoding, decoding of
      exactly the base-64 texts, round trip.

    - Log (LdbLogThms.v): what was appended is read back; a log
      cut off anywhere yields exactly the complete records.
    - Keys and filters (LdbFormatThms.v): the internal comparator keeps the
      comparator contract, filter blocks have no false negatives.
    - Skip list (LdbSkipListThms.v, LdbSkipIter.v):
      [skip_inv], every level is a sorted chain of pointers inside the level
      below, holds after every single store of an insertion, of the two that
      link a level too; the iterator walks the sorted keys.
    - Memtable (LdbMemThms.v): a memtable refines the history of what was
      added; batches extend it, lookups answer with the newest visible entry.
    - Arena (LdbArena.v), codings (LdbCoding.v, VarintSpec.v), checksums
      (LdbCrc.v): disjoint allocations, round trips, equality with the
      bit-wise CRC-32C.
    - Blocks and tables (LdbBlockThms.v, LdbBlockBuild.v, LdbTwoLevel.v,
      LdbTableBuild.v, LdbTableThms.v): [Cursor], the contract
      of iterator.h, an iterator is a position in a sorted list.  A finished
      block, a two-level iterator over blocks and a finished table are
      cursors in the list of their entries; lookups in a table find every
      entry, whatever its filter and the cache do; a damaged length is
      detected unless the 32-bit sum wraps.
    - Manifest and files (LdbVersionEditThms.v, LdbFilenameThms.v): edits survive writing and reading, any bytes decode to a
      well-formed edit, file names parse back, CURRENT changes entirely or
      not at all.
    - Merging and database iterators (LdbMerger.v, LdbDBIterThms.v): a merger
      over cursors is a cursor in the merged list; the database iterator is,
      under every program of moves, an iterator over the newest visible value
      of every user key.
    - Cache (LdbCacheThms.v, LdbCacheRun.v): [LruSpec], a cache as two lists
      of entries; every program of a client that releases only what it holds
      runs on the pointers as on [LruSpec], and every entry goes to its
      deleter exactly once.
    - Versions (LdbVersionThms.v): a lookup answers with the newest visible
      entry over all files; the files that meet a range, and the inputs of a
      compaction, which are complete: on level 0 with every file that shares
      a user key with them, above it with every file that continues their
      last user key, and with the files of the next level that they overlap;
      the level iterator is a cursor in the concatenated files.
    - Version set (LdbVersionSetThms.v): [set_ok], the reference counts of
      versions and files and the files of the current version, holds after
      [LogAndApply] on every environment, when the other threads leave the
      current version and the manifest alone; OK installs exactly the edited
      version, an error leaves the current one.
    - Manifest (LdbManifest.v): on a disk without failures the synced
      manifest holds every applied edit, a new one after a snapshot of the
      version that was current, and [Recover] on any prefix of it rebuilds the
      version of the edits that are complete.
    - Compactions (LdbDBThms.v): the output tables of a compaction are
      written and keep every read at a snapshot that is still held; which
      files are deleted; the snapshots.
    - Writes and reads (LdbDBWrite.v): a group of writers is committed to the
      log and to the memtable, recovery turns a log cut off anywhere into
      tables of level 0 and a memtable with exactly the entries of its
      complete batches, flushing whenever the write buffer is full, a read
      answers with the newest entry over memtables and version, the front
      writer does not wait for ever; the memtable's iterator is a cursor, and
      the table written from it holds its entries, at a level above 0 only
      when no older file with its keys is at that level or before it; manual
      compactions leave no pointer behind; the clipping of options.
    - Repair (LdbRepair.v): what a log still has becomes a table, a damaged
      table is replaced by the entries that its iterator shows and kept in the
      archive, and the new manifest recovers to exactly the tables that were
      scanned.

    CctImage.v is a linked image of the telemetry tables on which the
    theorems are evaluated.

    ** Bounds

    Fuel is never a hypothesis on a run: the theorems state the amount that
    is enough.  Loops that consume input take the number of bytes left;
    64-bit varints at most eleven rounds; searches over a table its length;
    recursion the nesting depth of the message type, at most the [depth] of
    the table checks; C strings and extension lists the [fuel] of
    [emessage].  Lengths of delimited values are below 2^32, the range of the
    32-bit length reader.  The searches of the skip list take the number of
    nodes plus the twelve levels, since a round moves forward or down; the
    loops of the log reader the length of the file; the loops that parse a
    batch or an edit the length of the input; a scan in a block the number
    of its bytes and a table iterator the number of bytes of its index, since
    an entry takes at least three.  Blocks and table files are below 4 GiB,
    the range of their 32-bit offsets.  Iterators of the database take one
    round for every internal entry; the cache's loops the number of entries;
    the search for overlapping inputs, which starts again when a file of
    level 0 widens the range, the product of [overlapping_rounds]; the
    boundary files the number of files; recovery the length of the manifest
    or log and one; writing a memtable the number of its entries; a
    compaction the number of input entries; [MakeRoomForWrite] four rounds
    more than the background work that is left.

    ** Not modelled

    The Swift and Objective-C code of the application and of its libraries,
    except the two helper functions above; binary frameworks.  Of leveldb:
    the iterators that open tables while they share one table cache with
    other iterators ([AddIterators], [MakeInputIterator],
    [NewInternalIterator], hence [NewIterator] and the approximate sizes): a
    compaction is stated over any input iterator, and LdbMerger.v,
    LdbVersion.v and LdbDBIter.v over their children; the implementation of
    the table cache behind its interface; dumpfile.cc, c.cc; the
    POSIX environment; statistics and messages; ownership and release of
    block memory; memory orders of the skip list's atomics (a store is one
    step of a sequence, and the invariant holds between any two).  Threads
    are modelled by their effect between two holds of the mutex.  The debug
    branches of pb.h for other configurations (PB_BUFFER_ONLY, PB_NO_ERRMSG,
    8- and 16-bit fields) are not compiled in.

    ** Open ends

    Round trips for repeated fields, strings and pointer fields; safety of
    decoding with pointers, oneofs and extensions, with release of every
    block on failure, hence of [GDTCCTDecodeLogResponse].  The table cache
    over LdbCache.v and LdbTable.v, and with it the iterators named above. *)

From stdpp Require Export base gmap strings list numbers.
From Stdlib Require Export ZArith Lia.

#[global] Open Scope Z_scope.

(** ** Machine integers

    An [n]-bit C integer is a [Z]; the conversions below are the C casts. *)

Definition u8 (x : Z) : Z := x mod 2 ^ 8.
Definition u16 (x : Z) : Z := x mod 2 ^ 16.
Definition u32 (x : Z) : Z := x mod 2 ^ 32.
Definition u64 (x : Z) : Z := x mod 2 ^ 64.

(** Two's-complement conversion to a signed integer of [w] bits. *)
Definition swrap (w x : Z) : Z := (x + 2 ^ (w - 1)) mod 2 ^ w - 2 ^ (w - 1).

Definition s8 (x : Z) : Z := swrap 8 x.
Definition s16 (x : Z) : Z := swrap 16 x.
Definition s32 (x : Z) : Z := swrap 32 x.
Definition s64 (x : Z) : Z := swrap 64 x.

Definition is_u8 (x : Z) : Prop := 0 <= x < 2 ^ 8.
Definition is_u32 (x : Z) : Prop := 0 <= x < 2 ^ 32.
Definition is_u64 (x : Z) : Prop := 0 <= x < 2 ^ 64.
Definition is_s64 (x : Z) : Prop := - 2 ^ 63 <= x < 2 ^ 63.

Lemma u8_small x : 0 <= x < 2 ^ 8 -> u8 x = x.
Proof. apply Z.mod_small. Qed.

Lemma u32_small x : 0 <= x < 2 ^ 32 -> u32 x = x.
Proof. apply Z.mod_small. Qed.

Lemma u64_small x : 0 <= x < 2 ^ 64 -> u64 x = x.
Proof. apply Z.mod_small. Qed.

(** Tests the code writes as [x & mask]. *)
Definition bit_set (x mask : Z) : bool := negb (Z.land x mask =? 0).

(** ** Tactics of the development *)

(** Turn every boolean comparison in sight into a proposition. *)
Ltac bool_to_prop :=
  repeat match goal with
  | H : (_ =? _) = true |- _ => apply Z.eqb_eq in H
  | H : (_ =? _) = false |- _ => apply Z.eqb_neq in H
  | H : (_ <? _) = true |- _ => apply Z.ltb_lt in H
  | H : (_ <? _) = false |- _ => apply Z.ltb_ge in H
  | H : (_ <=? _) = true |- _ => apply Z.leb_le in H
  | H : (_ <=? _) = false |- _ => apply Z.leb_gt in H
  | H : negb _ = true |- _ => apply negb_true_iff in H
  | H : negb _ = false |- _ => apply negb_false_iff in H
  | H : andb _ _ = true |- _ => apply andb_true_iff in H as [? ?]
  | H : orb _ _ = false |- _ => apply orb_false_iff in H as [? ?]
  end.

(** Linear arithmetic with division and remainder by constants. *)
Ltac dlia := Z.to_euclidean_division_equations; lia.

(** Case analysis on the condition of an [if] of the goal. *)
Ltac case_if :=
  match goal with
  | |- context [if ?b then _ else _] => destruct b eqn:?; bool_to_prop
  end.

(** ** Little-endian byte lists *)

Fixpoint le_combine (bs : list Z) : Z :=
  match bs with
  | [] => 0
  | b :: bs => b + 2 ^ 8 * le_combine bs
  end.

Fixpoint le_split (n : nat) (v : Z) : list Z :=
  match n with
  | O => []
  | S n => v mod 2 ^ 8 :: le_split n (v / 2 ^ 8)
  end.

Lemma length_le_split n v : length (le_split n v) = n.
Proof. revert v; induction n as [|n IH]; intros v; simpl; [done|]. by rewrite IH. Qed.

Lemma le_split_bytes n v : Forall is_u8 (le_split n v).
Proof.
  revert v; induction n as [|n IH]; intros v; simpl; constructor; [|done].
  apply Z.mod_pos_bound. lia.
Qed.

Lemma le_combine_split n v : le_combine (le_split n v) = v mod 2 ^ (8 * Z.of_nat n).
Proof.
  revert v; induction n as [|n IH]; intros v; [by rewrite Z.mod_1_r|].
  cbn [le_split le_combine]. rewrite IH.
  replace (8 * Z.of_nat (S n)) with (8 + 8 * Z.of_nat n) by lia.
  rewrite Z.pow_add_r by lia.
  rewrite Z.rem_mul_r; [done|lia|]. apply Z.pow_pos_nonneg; lia.
Qed.

Lemma le_combine_bound bs :
  Forall is_u8 bs -> 0 <= le_combine bs < 2 ^ (8 * Z.of_nat (length bs)).
Proof.
  induction 1 as [|b bs Hb _ IH]; [simpl; lia|].
  cbn [le_combine length]. unfold is_u8 in Hb.
  replace (8 * Z.of_nat (S (length bs))) with (8 + 8 * Z.of_nat (length bs)) by lia.
  rewrite Z.pow_add_r by lia. nia.
Qed.

Lemma le_split_combine bs :
  Forall is_u8 bs -> le_split (length bs) (le_combine bs) = bs.
Proof.
  induction 1 as [|b bs Hb _ IH]; [done|].
  cbn [le_combine length le_split]. unfold is_u8 in Hb.
  rewrite (Z.mul_comm (2 ^ 8)), Z.mod_add, Z.div_add by lia.
  rewrite Z.mod_small, Z.div_small, Z.add_0_l by lia. by rewrite IH.
Qed.

(** ** Bit operations on small numbers *)

(** A decidable statement on bytes is checked on all of them. *)
Lemma u8_forall (P : Z -> bool) :
  forallb P (Z.of_nat <$> seq 0 256) = true -> ∀ b, is_u8 b -> P b = true.
Proof.
  intros H b Hb. unfold is_u8 in Hb. rewrite forallb_forall in H. apply H.
  apply list_elem_of_In, list_elem_of_fmap. exists (Z.to_nat b).
  rewrite elem_of_seq. lia.
Qed.

Lemma land_127 x : Z.land x 0x7F = x mod 128.
Proof. apply (Z.land_ones x 7). lia. Qed.

Lemma land_255 x : Z.land x 0xFF = x mod 256.
Proof. apply (Z.land_ones x 8). lia. Qed.

Lemma bit_set_128 b : is_u8 b -> bit_set b 0x80 = (128 <=? b).
Proof.
  intros Hb. apply Bool.eqb_true_iff. revert b Hb.
  apply (u8_forall (fun b => Bool.eqb (bit_set b 0x80) (128 <=? b))). by vm_compute.
Qed.

(** Disjoint bits add up. *)
Lemma lor_shift r x n : 0 <= n -> 0 <= r < 2 ^ n -> Z.lor r (x * 2 ^ n) = r + x * 2 ^ n.
Proof.
  intros Hn Hr.
  assert (Z.land r (x * 2 ^ n) = 0) as Hl.
  { apply Z.bits_inj'. intros i Hi. rewrite Z.land_spec, Z.bits_0.
    destruct (decide (i < n)).
    - rewrite Z.mul_pow2_bits_low, andb_false_r by lia. done.
    - rewrite <- (Z.mod_small r (2 ^ n)) by lia.
      rewrite Z.mod_pow2_bits_high by lia. done. }
  rewrite <- Z.lxor_lor by done. symmetry. by apply Z.add_nocarry_lxor.
Qed.

(** [r | (uintW_t)(x << n)], with the high bits of [x] lost. *)
Lemma lor_shiftl_wrap r x n w :
  0 <= n <= w -> 0 <= r < 2 ^ n ->
  Z.lor r (Z.shiftl x n mod 2 ^ w) = (r + x * 2 ^ n) mod 2 ^ w.
Proof.
  intros Hn Hr. rewrite Z.shiftl_mul_pow2 by lia.
  assert (2 ^ w = 2 ^ (w - n) * 2 ^ n) as Hw.
  { rewrite <- Z.pow_add_r by lia. by replace (w - n + n) with w by lia. }
  assert (0 < 2 ^ n) by (apply Z.pow_pos_nonneg; lia).
  assert (0 < 2 ^ (w - n)) by (apply Z.pow_pos_nonneg; lia).
  rewrite Hw, Z.mul_mod_distr_r by lia.
  rewrite lor_shift by lia.
  rewrite (Z.mul_comm (2 ^ (w - n))), Z.rem_mul_r by lia.
  rewrite Z.mod_add, Z.div_add by lia. rewrite (Z.mod_small r), (Z.div_small r) by lia.
  rewrite Z.add_0_l, (Z.mul_comm (2 ^ n)). done.
Qed.

Lemma lor_bound n a b :
  0 <= n -> 0 <= a < 2 ^ n -> 0 <= b < 2 ^ n -> 0 <= Z.lor a b < 2 ^ n.
Proof.
  intros Hn Ha Hb. assert (0 <= Z.lor a b) by (apply Z.lor_nonneg; lia).
  split; [done|]. destruct (decide (Z.lor a b = 0)) as [->|Hne]; [lia|].
  apply Z.log2_lt_pow2; [lia|]. rewrite Z.log2_lor by lia.
  assert (∀ x, 0 <= x < 2 ^ n -> 0 < n -> Z.log2 x < n) as L.
  { intros x Hx Hn0. destruct (decide (x = 0)) as [->|]; [done|].
    apply Z.log2_lt_pow2; lia. }
  assert (0 < n). { destruct (decide (n = 0)) as [->|]; [|lia]. simpl in *.
    replace a with 0 in Hne by lia. replace b with 0 in Hne by lia. done. }
  apply Z.max_lub_lt; by apply L.
Qed.

Lemma land_lxor a b c : Z.land (Z.lxor a b) c = Z.lxor (Z.land a c) (Z.land b c).
Proof.
  apply Z.bits_inj'. intros n Hn. rewrite Z.land_spec, !Z.lxor_spec, !Z.land_spec.
  by destruct (Z.testbit a n), (Z.testbit b n), (Z.testbit c n).
Qed.

Lemma lxor_u32 a b : is_u32 a -> is_u32 b -> is_u32 (Z.lxor a b).
Proof.
  unfold is_u32. intros Ha Hb.
  rewrite <- (Z.mod_small a (2 ^ 32)), <- (Z.mod_small b (2 ^ 32)) by done.
  rewrite <- !Z.land_ones by lia. rewrite <- land_lxor, Z.land_ones by lia.
  by apply Z.mod_pos_bound.
Qed.

Lemma shiftr_u32 x n : 0 <= n -> is_u32 x -> is_u32 (Z.shiftr x n).
Proof.
  unfold is_u32. intros Hn Hx. rewrite Z.shiftr_div_pow2 by lia.
  assert (0 < 2 ^ n) by (apply Z.pow_pos_nonneg; lia).
  split; [apply Z.div_pos; lia|]. apply Z.div_lt_upper_bound; nia.
Qed.

Lemma u32_is_u32 x : is_u32 (u32 x).
Proof. apply Z.mod_pos_bound. lia. Qed.

(** ** Two's complement *)

Lemma swrap_small w x : 0 < w -> - 2 ^ (w - 1) <= x < 2 ^ (w - 1) -> swrap w x = x.
Proof.
  intros Hw Hx. unfold swrap.
  assert (2 ^ w = 2 * 2 ^ (w - 1)) as E by (rewrite <- Z.pow_succ_r by lia; f_equal; lia).
  rewrite Z.mod_small by lia. lia.
Qed.

Lemma swrap_mod w x : 0 < w -> swrap w (x mod 2 ^ w) = swrap w x.
Proof. intros Hw. unfold swrap. by rewrite Zplus_mod_idemp_l. Qed.

Lemma swrap_bound w x : 0 < w -> - 2 ^ (w - 1) <= swrap w x < 2 ^ (w - 1).
Proof.
  intros Hw. unfold swrap.
  assert (2 ^ w = 2 * 2 ^ (w - 1)) as E by (rewrite <- Z.pow_succ_r by lia; f_equal; lia).
  pose proof (Z.mod_pos_bound (x + 2 ^ (w - 1)) (2 ^ w)).
  assert (0 < 2 ^ (w - 1)) by (apply Z.pow_pos_nonneg; lia). lia.
Qed.
