(* ===== verification/VarintSpec.v ===== *)
(** * Base-128 varints: the encoding shared by nanopb and leveldb

    The canonical bytes of a number, the value and the length of a group of
    bytes, without reference to either implementation. *)

From S2P Require Import Prelude.

(** ** The encoding, declaratively *)

(** The value of a group of varint bytes: seven bits each, low bits first. *)
Fixpoint varint_value (bs : list Z) : Z :=
  match bs with
  | [] => 0
  | b :: bs => b mod 128 + 128 * varint_value bs
  end.

(** Length of the varint that starts a byte list: up to the first byte with a
    clear top bit. *)
Fixpoint varint_len (bs : list Z) : option nat :=
  match bs with
  | [] => None
  | b :: bs => if 128 <=? b then S <$> varint_len bs else Some 1%nat
  end.

(** The canonical encoding; ten groups hold 64 bits. *)
Fixpoint varint_groups (n : nat) (v : Z) : list Z :=
  match n with
  | O => []
  | S n => if v <? 128 then [v] else v mod 128 + 128 :: varint_groups n (v / 128)
  end.

Definition varint_bytes (v : Z) : list Z := varint_groups 10 v.

(** ** Facts on the encoding *)

Lemma varint_groups_value n v :
  0 <= v < 128 ^ Z.of_nat n -> (0 < n)%nat -> varint_value (varint_groups n v) = v.
Proof.
  revert v; induction n as [|n IH]; intros v Hv Hn; [lia|].
  cbn [varint_groups]. destruct (v <? 128) eqn:E; bool_to_prop; cbn [varint_value].
  { rewrite Z.mod_small by lia. lia. }
  destruct n as [|n]; [simpl in Hv; lia|].
  rewrite IH; [|split|lia].
  - dlia.
  - apply Z.div_pos; lia.
  - apply Z.div_lt_upper_bound; [lia|].
    replace (Z.of_nat (S (S n))) with (1 + Z.of_nat (S n)) in Hv by lia.
    rewrite Z.pow_add_r in Hv by lia. lia.
Qed.

Lemma varint_groups_len n v rest :
  0 <= v < 128 ^ Z.of_nat n -> (0 < n)%nat ->
  varint_len (varint_groups n v ++ rest) = Some (length (varint_groups n v)).
Proof.
  revert v; induction n as [|n IH]; intros v Hv Hn; [lia|].
  cbn [varint_groups]. destruct (v <? 128) eqn:E; bool_to_prop; cbn [varint_len app].
  { destruct (128 <=? v) eqn:E'; bool_to_prop; [lia|done]. }
  destruct n as [|n]; [simpl in Hv; lia|].
  assert (0 <= v mod 128) by (apply Z.mod_pos_bound; lia).
  destruct (128 <=? v mod 128 + 128) eqn:E'; bool_to_prop; [|lia].
  rewrite IH; [done| |lia]. split; [apply Z.div_pos; lia|].
  apply Z.div_lt_upper_bound; [lia|].
  replace (Z.of_nat (S (S n))) with (1 + Z.of_nat (S n)) in Hv by lia.
  rewrite Z.pow_add_r in Hv by lia. lia.
Qed.

Lemma length_varint_groups n v : (length (varint_groups n v) <= n)%nat.
Proof.
  revert v; induction n as [|n IH]; intros v; simpl; [done|].
  destruct (v <? 128); simpl; [lia|]. specialize (IH (v / 128)). lia.
Qed.

Lemma varint_groups_u8 n v : 0 <= v -> Forall is_u8 (varint_groups n v).
Proof.
  revert v; induction n as [|n IH]; intros v Hv; simpl; [done|].
  unfold is_u8. destruct (v <? 128) eqn:E; bool_to_prop.
  - repeat constructor; lia.
  - constructor; [|apply IH, Z.div_pos; lia].
    pose proof (Z.mod_pos_bound v 128 ltac:(lia)). lia.
Qed.

Lemma varint_bytes_u8 v : 0 <= v -> Forall is_u8 (varint_bytes v).
Proof. apply varint_groups_u8. Qed.

Lemma length_varint_bytes v : (1 <= length (varint_bytes v) <= 10)%nat.
Proof.
  split; [|apply length_varint_groups]. unfold varint_bytes. simpl.
  destruct (v <? 128); simpl; lia.
Qed.

Lemma varint_bytes_value v : is_u64 v -> varint_value (varint_bytes v) = v.
Proof. unfold is_u64. intros Hv. apply varint_groups_value; [|lia]. simpl. lia. Qed.

Lemma varint_bytes_len v rest :
  is_u64 v -> varint_len (varint_bytes v ++ rest) = Some (length (varint_bytes v)).
Proof. unfold is_u64. intros Hv. apply varint_groups_len; [|lia]. simpl. lia. Qed.
