(* ===== verification/Memory.v ===== *)
(** * Byte memory, the heap, and the effect monads

    The C programs of this development run on a flat byte-addressed memory.
    An address is mapped when it belongs to a live object; every access to an
    unmapped address is undefined behaviour and is a distinct outcome of the
    model, so that memory safety is a theorem and not an assumption.  The
    heap blocks handed out by [realloc] are recorded with their sizes, which
    makes a bad [free] an undefined behaviour too. *)

From S2P Require Import Prelude.

(** [mem]: the mapped addresses with their bytes.
    [heap]: the live blocks of the allocator, base address to size. *)
Record mstate := MState { mem : gmap Z Z; heap : gmap Z Z }.

(** ** Raw accesses *)

Fixpoint mread (m : gmap Z Z) (a : Z) (n : nat) : option (list Z) :=
  match n with
  | O => Some []
  | S n =>
      match m !! a with
      | Some b => match mread m (a + 1) n with
                  | Some bs => Some (b :: bs)
                  | None => None
                  end
      | None => None
      end
  end.

Fixpoint mwrite (m : gmap Z Z) (a : Z) (bs : list Z) : option (gmap Z Z) :=
  match bs with
  | [] => Some m
  | b :: bs =>
      match m !! a with
      | Some _ => mwrite (<[a := b]> m) (a + 1) bs
      | None => None
      end
  end.

(** Map [n] fresh addresses from [a] on, and unmap them again. *)
Fixpoint mmap (m : gmap Z Z) (a : Z) (bs : list Z) : gmap Z Z :=
  match bs with
  | [] => m
  | b :: bs => <[a := b]> (mmap m (a + 1) bs)
  end.

Fixpoint munmap (m : gmap Z Z) (a : Z) (n : nat) : gmap Z Z :=
  match n with
  | O => m
  | S n => delete a (munmap m (a + 1) n)
  end.

(** ** Outcomes and the memory monad *)

(** A computation returns, runs into undefined behaviour, or exhausts the
    fuel of a loop or recursion. *)
Inductive outcome (A : Type) : Type :=
| Ret (a : A) (m : mstate)
| Ub
| NoFuel.
Arguments Ret {A} a m.
Arguments Ub {A}.
Arguments NoFuel {A}.

Definition M (A : Type) : Type := mstate -> outcome A.

#[export] Instance M_ret : MRet M := fun A a m => Ret a m.
#[export] Instance M_bind : MBind M := fun A B f c m =>
  match c m with
  | Ret a m => f a m
  | Ub => Ub
  | NoFuel => NoFuel
  end.

Definition M_nofuel {A} : M A := fun _ => NoFuel.

(** ** Computations on a stream

    A C function that takes a stream pointer and returns [bool] is a
    computation that threads the stream, and either succeeds with its result
    ([return true]) or fails ([return false]); the stream it leaves behind is
    kept in both cases. *)
Definition C (S A : Type) : Type := S -> mstate -> outcome (option A * S).

#[export] Instance C_ret S : MRet (C S) := fun A a s m => Ret (Some a, s) m.
#[export] Instance C_bind S : MBind (C S) := fun A B f c s m =>
  match c s m with
  | Ret (Some a, s) m => f a s m
  | Ret (None, s) m => Ret (None, s) m
  | Ub => Ub
  | NoFuel => NoFuel
  end.

Section Computations.
Context {S : Type}.

(** [return false] without touching the error message. *)
Definition cfail {A} : C S A := fun s m => Ret (None, s) m.
Definition cub {A} : C S A := fun _ _ => Ub.
Definition cnofuel {A} : C S A := fun _ _ => NoFuel.
Definition cget : C S S := fun s m => Ret (Some s, s) m.
Definition cput (s : S) : C S unit := fun _ m => Ret (Some tt, s) m.
Definition cmodify (f : S -> S) : C S unit := fun s m => Ret (Some tt, f s) m.

(** Observe the [bool] a function returns instead of propagating it. *)
Definition ctry {A} (c : C S A) : C S (option A) := fun s m =>
  match c s m with
  | Ret (r, s) m => Ret (Some r, s) m
  | Ub => Ub
  | NoFuel => NoFuel
  end.

(** Turn an observed result back into success or failure. *)
Definition cres {A} (r : option A) : C S A :=
  match r with Some a => mret a | None => cfail end.

(** A memory operation inside a stream function. *)
Definition clift {A} (c : M A) : C S A := fun s m =>
  match c m with
  | Ret a m => Ret (Some a, s) m
  | Ub => Ub
  | NoFuel => NoFuel
  end.

(** Run a function on another stream variable (a substream). *)
Definition con {S' A} (s' : S') (c : C S' A) : C S (option A * S') := fun s m =>
  match c s' m with
  | Ret (r, s') m => Ret (Some (r, s'), s) m
  | Ub => Ub
  | NoFuel => NoFuel
  end.
End Computations.

(** A definedness check: [None] is undefined behaviour. *)
Definition defined {S A} (o : option A) : C S A :=
  match o with Some a => mret a | None => cub end.

Definition mdefined {A} (o : option A) : M A := fun m =>
  match o with Some a => Ret a m | None => Ub end.

(** Functions through which the error message of a stream is read and set. *)
Class HasErr (S : Type) := {
  get_errmsg : S -> option string;
  put_errmsg : option string -> S -> S;
}.

(** ** Typed accesses *)

Definition load_bytes (a : Z) (n : nat) : M (list Z) := fun m =>
  match mread (mem m) a n with
  | Some bs => Ret bs m
  | None => Ub
  end.

Definition store_bytes (a : Z) (bs : list Z) : M unit := fun m =>
  match mwrite (mem m) a bs with
  | Some mm => Ret tt (MState mm (heap m))
  | None => Ub
  end.

(** [*(uintN_t* )a], little endian, [n] bytes. *)
Definition load_u (n : nat) (a : Z) : M Z :=
  bs ← load_bytes a n; mret (le_combine bs).

(** [*(intN_t* )a]. *)
Definition load_s (n : nat) (a : Z) : M Z :=
  v ← load_u n a; mret (swrap (8 * Z.of_nat n) v).

Definition store_u (n : nat) (a v : Z) : M unit := store_bytes a (le_split n v).

(** Pointers are 8 bytes on the targets of the build (arm64, x86_64). *)
Definition sizeof_ptr : nat := 8.
Definition load_ptr (a : Z) : M Z := load_u sizeof_ptr a.
Definition store_ptr (a v : Z) : M unit := store_u sizeof_ptr a v.

(** [memset(a, 0, n)] and [memcpy(dst, src, n)]. *)
Definition memset0 (a n : Z) : M unit := store_bytes a (replicate (Z.to_nat n) 0).
Definition memcpy (dst src n : Z) : M unit :=
  bs ← load_bytes src (Z.to_nat n); store_bytes dst bs.

(** ** realloc and free

    [choice] is what the C library decides for this call: [None] when it is
    out of memory, otherwise the address of the block it returns and the
    indeterminate bytes found there. *)
Definition realloc (choice : option (Z * (Z -> Z))) (p n : Z) : M Z := fun m =>
  match (if p =? 0 then Some 0 else heap m !! p) with
  | None => Ub
  | Some old =>
      match choice with
      | None => Ret 0 m
      | Some (a, fill) =>
          match mread (mem m) p (Z.to_nat (Z.min old n)) with
          | None => Ub
          | Some kept =>
              let fresh := (fun i => u8 (fill (Z.of_nat i))) <$>
                             seq (length kept) (Z.to_nat n - length kept) in
              let mm := munmap (mem m) p (Z.to_nat old) in
              let hh := if p =? 0 then heap m else delete p (heap m) in
              Ret a (MState (mmap mm a (kept ++ fresh)) (<[a := n]> hh))
          end
      end
  end.

Definition free (p : Z) : M unit := fun m =>
  if p =? 0 then Ret tt m
  else match heap m !! p with
       | None => Ub
       | Some n => Ret tt (MState (munmap (mem m) p (Z.to_nat n)) (delete p (heap m)))
       end.
