(* ===== verification/MemFacts.v ===== *)
(** * Facts on memory and a weakest-precondition calculus for computations *)

From S2P Require Import Prelude.
From S2P Require Import Memory.

(** ** Reads *)

Lemma length_mread m a n bs : mread m a n = Some bs -> length bs = n.
Proof.
  revert a bs; induction n as [|n IH]; intros a bs; simpl; [by intros [= <-]|].
  destruct (m !! a); [|done]. destruct (mread m (a + 1) n) eqn:E; [|done].
  intros [= <-]. simpl. f_equal. by eapply IH.
Qed.

Lemma mread_lookup m a n :
  (∃ bs, mread m a n = Some bs) <-> ∀ i, 0 <= i < Z.of_nat n -> is_Some (m !! (a + i)).
Proof.
  revert a; induction n as [|n IH]; intros a; simpl.
  { split; [intros; lia|intros; by exists []]. }
  split.
  - intros [bs H] i Hi. destruct (m !! a) as [b|] eqn:Ea; [|done].
    destruct (mread m (a + 1) n) as [bs'|] eqn:E; [|done].
    destruct (decide (i = 0)) as [->|Hne]; [rewrite Z.add_0_r; eauto|].
    replace (a + i) with (a + 1 + (i - 1)) by lia.
    apply (proj1 (IH (a + 1))); [eauto|lia].
  - intros H. destruct (H 0) as [b Hb]; [lia|]. rewrite Z.add_0_r in Hb. rewrite Hb.
    destruct (proj2 (IH (a + 1))) as [bs Hbs].
    { intros i Hi. replace (a + 1 + i) with (a + (i + 1)) by lia. apply H. lia. }
    rewrite Hbs. eauto.
Qed.

Lemma mread_app m a bs1 bs2 :
  mread m a (length (bs1 ++ bs2)) = Some (bs1 ++ bs2) <->
  mread m a (length bs1) = Some bs1 ∧
  mread m (a + Z.of_nat (length bs1)) (length bs2) = Some bs2.
Proof.
  revert a; induction bs1 as [|b bs1 IH]; intros a; simpl.
  { rewrite Z.add_0_r. tauto. }
  replace (a + Z.of_nat (S (length bs1))) with (a + 1 + Z.of_nat (length bs1)) by lia.
  destruct (m !! a) as [b'|]; [|split; [done|by intros [? _]]].
  specialize (IH (a + 1)).
  assert (∀ (o : option (list Z)) l,
    match o with Some bs => Some (b' :: bs) | None => None end = Some (b :: l) <->
    b' = b ∧ o = Some l) as G.
  { intros [o|] l; split; [by intros [= -> ->]|by intros [-> [= ->]]|done|by intros [_ ?]]. }
  rewrite !G. tauto.
Qed.

Lemma mread_drop m a bs k :
  mread m a (length bs) = Some bs -> (k <= length bs)%nat ->
  mread m (a + Z.of_nat k) (length (drop k bs)) = Some (drop k bs).
Proof.
  intros H Hk. rewrite <- (take_drop k bs) in H at 1 2. apply mread_app in H as [_ H].
  by rewrite length_take_le in H.
Qed.

Lemma mread_take m a bs k :
  mread m a (length bs) = Some bs -> mread m a (length (take k bs)) = Some (take k bs).
Proof. intros H. rewrite <- (take_drop k bs) in H at 1 2. by apply mread_app in H as [H _]. Qed.

Lemma mread_mono m m' a n bs : m ⊆ m' -> mread m a n = Some bs -> mread m' a n = Some bs.
Proof.
  intros Hsub. revert a bs; induction n as [|n IH]; intros a bs; simpl; [done|].
  destruct (m !! a) as [b|] eqn:Eb; [|done].
  rewrite (lookup_weaken _ _ _ _ Eb Hsub).
  destruct (mread m (a + 1) n) as [l|] eqn:E; [|done]. by rewrite (IH _ _ E).
Qed.

Lemma mread_forall (P : Z -> Prop) m a n bs :
  map_Forall (fun _ => P) m -> mread m a n = Some bs -> Forall P bs.
Proof.
  intros Hm. revert a bs; induction n as [|n IH]; intros a bs; simpl; [by intros [= <-]|].
  destruct (m !! a) as [b|] eqn:Ea; [|done].
  destruct (mread m (a + 1) n) as [l|] eqn:E; [|done]. intros [= <-].
  constructor; [by apply (Hm a)|by eapply IH].
Qed.

(** ** Writes *)

Lemma mwrite_lookup m a bs m' x :
  mwrite m a bs = Some m' ->
  m' !! x = if decide (a <= x < a + Z.of_nat (length bs))
            then bs !! Z.to_nat (x - a) else m !! x.
Proof.
  revert m a; induction bs as [|b bs IH]; intros m a; simpl.
  { intros [= <-]. destruct (decide _); [lia|done]. }
  destruct (m !! a) eqn:Ea; [|done]. intros H. rewrite (IH _ _ H).
  repeat case_decide; try lia.
  - replace (Z.to_nat (x - a)) with (S (Z.to_nat (x - (a + 1)))) by lia. done.
  - assert (x = a) as -> by lia. rewrite lookup_insert_eq, Z.sub_diag. done.
  - by rewrite lookup_insert_ne by lia.
Qed.

Lemma mwrite_total m a bs :
  (∀ i, 0 <= i < Z.of_nat (length bs) -> is_Some (m !! (a + i))) ->
  ∃ m', mwrite m a bs = Some m'.
Proof.
  revert m a; induction bs as [|b bs IH]; intros m a H; simpl; [eauto|].
  simpl in H. destruct (H 0) as [b' Hb]; [lia|]. rewrite Z.add_0_r in Hb. rewrite Hb.
  apply IH. intros i Hi. replace (a + 1 + i) with (a + (i + 1)) by lia.
  rewrite lookup_insert_ne by lia. apply H. lia.
Qed.

Lemma mwrite_mapped m a bs m' i :
  mwrite m a bs = Some m' -> 0 <= i < Z.of_nat (length bs) -> is_Some (m !! (a + i)).
Proof.
  revert m a i; induction bs as [|b bs IH]; intros m a i; simpl; [intros; lia|].
  destruct (m !! a) as [b'|] eqn:Ea; [|done]. intros H Hi.
  destruct (decide (i = 0)) as [->|Hne]; [rewrite Z.add_0_r; eauto|].
  destruct (IH _ _ (i - 1) H) as [x Hx]; [lia|].
  rewrite lookup_insert_ne in Hx by lia. exists x. rewrite <- Hx. f_equal. lia.
Qed.

Lemma mwrite_same_dom m a bs m' :
  mwrite m a bs = Some m' -> ∀ x, is_Some (m' !! x) <-> is_Some (m !! x).
Proof.
  intros H x. rewrite (mwrite_lookup _ _ _ _ x H). case_decide; [|done].
  assert (is_Some (bs !! Z.to_nat (x - a))) by (apply lookup_lt_is_Some; lia).
  split; [|done]. intros _. replace x with (a + (x - a)) by lia.
  eapply mwrite_mapped; [done|lia].
Qed.

Lemma mread_ext m m' a n :
  (∀ i, 0 <= i < Z.of_nat n -> m' !! (a + i) = m !! (a + i)) -> mread m' a n = mread m a n.
Proof.
  revert a; induction n as [|n IH]; intros a H; simpl; [done|].
  pose proof (H 0 ltac:(lia)) as H0. rewrite Z.add_0_r in H0. rewrite H0.
  rewrite IH; [done|]. intros i Hi.
  replace (a + 1 + i) with (a + (i + 1)) by lia. apply H. lia.
Qed.

(** Reading what was just written. *)
Lemma mread_mwrite_eq m a bs m' :
  mwrite m a bs = Some m' -> mread m' a (length bs) = Some bs.
Proof.
  intros H.
  assert (∀ k (l : list Z), l = drop k bs -> (k <= length bs)%nat ->
    mread m' (a + Z.of_nat k) (length l) = Some l) as G.
  { intros k l. revert k. induction l as [|b l IH]; intros k Hl Hk; [done|].
    assert (bs !! k = Some b) as Hb.
    { replace k with (k + 0)%nat by lia. rewrite <- lookup_drop, <- Hl. done. }
    assert (k < length bs)%nat by (by eapply lookup_lt_Some).
    cbn [length mread]. rewrite (mwrite_lookup _ _ _ _ _ H), decide_True by lia.
    replace (Z.to_nat (a + Z.of_nat k - a)) with k by lia. rewrite Hb.
    replace (a + Z.of_nat k + 1) with (a + Z.of_nat (S k)) by lia.
    rewrite IH; [done| |lia]. rewrite (drop_S _ _ _ Hb) in Hl. naive_solver. }
  specialize (G 0%nat bs eq_refl ltac:(lia)). by rewrite Z.add_0_r in G.
Qed.

(** Reading elsewhere. *)
Lemma mread_mwrite_ne m a bs m' x n :
  mwrite m a bs = Some m' ->
  x + Z.of_nat n <= a \/ a + Z.of_nat (length bs) <= x ->
  mread m' x n = mread m x n.
Proof.
  intros H Hd. apply mread_ext. intros i Hi.
  rewrite (mwrite_lookup _ _ _ _ _ H). case_decide; [lia|done].
Qed.

(** Writing in two steps. *)
Lemma mwrite_app m a bs1 bs2 m1 :
  mwrite m a bs1 = Some m1 ->
  mwrite m a (bs1 ++ bs2) = mwrite m1 (a + Z.of_nat (length bs1)) bs2.
Proof.
  revert m a; induction bs1 as [|b bs1 IH]; intros m a; simpl.
  { intros [= ->]. by rewrite Z.add_0_r. }
  destruct (m !! a); [|done]. intros H. rewrite (IH _ _ H).
  f_equal. lia.
Qed.

(** A write outside the domain of [m0] keeps [m0] included. *)
Lemma mwrite_frame m0 m a bs m' :
  m0 ⊆ m -> mwrite m a bs = Some m' ->
  (∀ i, 0 <= i < Z.of_nat (length bs) -> m0 !! (a + i) = None) ->
  m0 ⊆ m'.
Proof.
  intros Hsub H Hout. apply map_subseteq_spec. intros x b Hx.
  rewrite (mwrite_lookup _ _ _ _ _ H). case_decide as Hc.
  - specialize (Hout (x - a) ltac:(lia)). replace (a + (x - a)) with x in Hout by lia.
    congruence.
  - by eapply lookup_weaken.
Qed.

(** ** Single bytes *)

Lemma load_byte m a b : mem m !! a = Some b -> load_u 1 a m = Ret b m.
Proof.
  intros E. unfold load_u, mbind, M_bind, load_bytes. simpl. rewrite E. simpl.
  by rewrite Z.add_0_r.
Qed.

Lemma lookup_src m src (bs : list Z) i b :
  mread (mem m) src (length bs) = Some bs -> bs !! i = Some b ->
  mem m !! (src + Z.of_nat i) = Some b.
Proof.
  intros Hr Hb. pose proof (lookup_lt_Some _ _ _ Hb) as Hi.
  pose proof (mread_drop _ _ _ i Hr ltac:(lia)) as Hd. rewrite (drop_S _ _ _ Hb) in Hd.
  clear Hr. simpl in Hd. repeat case_match; by simplify_eq/=.
Qed.

(** ** Mapped ranges *)

(** [n] mapped bytes at [a]. *)
Definition mapped (m : mstate) (a : Z) (n : nat) : Prop :=
  ∀ i, 0 <= i < Z.of_nat n -> is_Some (mem m !! (a + i)).

Definition mappedb (m : mstate) (a : Z) (n : nat) : bool :=
  forallb (fun i => bool_decide (is_Some (mem m !! (a + Z.of_nat i)))) (seq 0 n).

Lemma mappedb_ok m a n : mappedb m a n = true -> mapped m a n.
Proof.
  unfold mappedb. rewrite forallb_forall. intros Hf i Hi.
  specialize (Hf (Z.to_nat i)). rewrite Z2Nat.id in Hf by lia.
  rewrite <- list_elem_of_In, elem_of_seq in Hf. specialize (Hf ltac:(lia)).
  by eapply bool_decide_eq_true.
Qed.

Lemma mapped_le m a n k : (k <= n)%nat -> mapped m a n -> mapped m a k.
Proof. intros Hk Hm i Hi. apply Hm. lia. Qed.

(** ** Weakest preconditions

    [wp c s m Q]: the computation neither runs into undefined behaviour nor
    out of fuel, and its result, stream and memory satisfy [Q]. *)

Definition wp {S A} (c : C S A) (s : S) (m : mstate)
    (Q : option A -> S -> mstate -> Prop) : Prop :=
  match c s m with Ret (r, s') m' => Q r s' m' | _ => False end.

Definition mwp {A} (c : M A) (m : mstate) (Q : A -> mstate -> Prop) : Prop :=
  match c m with Ret a m' => Q a m' | _ => False end.

Section WP.
Context {S : Type}.
Implicit Types (s : S) (m : mstate).

Lemma wp_elim {A} (c : C S A) s m Q :
  wp c s m Q -> ∃ r s' m', c s m = Ret (r, s') m' ∧ Q r s' m'.
Proof. unfold wp. destruct (c s m) as [[r s'] m'| |]; naive_solver. Qed.

Lemma wp_mono {A} (c : C S A) s m Q Q' :
  wp c s m Q -> (∀ r s' m', Q r s' m' -> Q' r s' m') -> wp c s m Q'.
Proof. unfold wp. destruct (c s m) as [[r s'] m'| |]; naive_solver. Qed.

Lemma wp_bind {A B} (c : C S A) (f : A -> C S B) s m Q :
  wp c s m (fun r s' m' =>
    match r with Some a => wp (f a) s' m' Q | None => Q None s' m' end) ->
  wp (mbind f c) s m Q.
Proof.
  unfold wp at 1 3, mbind, C_bind. destruct (c s m) as [[[a|] s'] m'| |]; done.
Qed.

Lemma wp_ret {A} (a : A) s m (Q : option A -> S -> mstate -> Prop) :
  Q (Some a) s m -> wp (mret a) s m Q.
Proof. done. Qed.

Lemma wp_get s m (Q : option S -> S -> mstate -> Prop) : Q (Some s) s m -> wp cget s m Q.
Proof. done. Qed.

Lemma wp_modify f s m (Q : option unit -> S -> mstate -> Prop) :
  Q (Some tt) (f s) m -> wp (cmodify f) s m Q.
Proof. done. Qed.

Lemma wp_fail {A} s m (Q : option A -> S -> mstate -> Prop) : Q None s m -> wp cfail s m Q.
Proof. done. Qed.

Lemma wp_lift {A} (c : M A) s m (Q : option A -> S -> mstate -> Prop) :
  mwp c m (fun a m' => Q (Some a) s m') -> wp (clift c) s m Q.
Proof. unfold mwp, wp, clift. by destruct (c m). Qed.

Lemma wp_try {A} (c : C S A) s m (Q : option (option A) -> S -> mstate -> Prop) :
  wp c s m (fun r s' m' => Q (Some r) s' m') -> wp (ctry c) s m Q.
Proof. unfold wp, ctry. by destruct (c s m) as [[r s'] m'| |]. Qed.

Lemma wp_con {T A} (c : C T A) (sub : T) s m
    (Q : option (option A * T) -> S -> mstate -> Prop) :
  wp c sub m (fun r sub' m' => Q (Some (r, sub')) s m') -> wp (con sub c) s m Q.
Proof. unfold wp, con. by destruct (c sub m) as [[r sub'] m'| |]. Qed.

Lemma wp_defined {A} (o : option A) a s m (Q : option A -> S -> mstate -> Prop) :
  o = Some a -> Q (Some a) s m -> wp (defined o) s m Q.
Proof. by intros ->. Qed.
End WP.

Lemma mwp_bind {A B} (c : M A) (f : A -> M B) m (Q : B -> mstate -> Prop) :
  mwp c m (fun a m' => mwp (f a) m' Q) -> mwp (mbind f c) m Q.
Proof. unfold mwp at 1 3, mbind, M_bind. by destruct (c m). Qed.

Lemma mwp_ret {A} (a : A) m (Q : A -> mstate -> Prop) : Q a m -> mwp (mret a) m Q.
Proof. done. Qed.

(** ** Equational rules, for computations whose result is known *)

Section Eqns.
Context {S : Type}.

Lemma bind_some {A B} (c : C S A) (f : A -> C S B) s m a s' m' :
  c s m = Ret (Some a, s') m' -> mbind f c s m = f a s' m'.
Proof. unfold mbind, C_bind. by intros ->. Qed.

Lemma bind_none {A B} (c : C S A) (f : A -> C S B) s m s' m' :
  c s m = Ret (None, s') m' -> mbind f c s m = Ret (None, s') m'.
Proof. unfold mbind, C_bind. by intros ->. Qed.

Lemma bind_get {B} (f : S -> C S B) s m : mbind f cget s m = f s s m.
Proof. done. Qed.

Lemma bind_modify {B} (g : S -> S) (f : unit -> C S B) s m :
  mbind f (cmodify g) s m = f tt (g s) m.
Proof. done. Qed.

Lemma bind_ret {A B} (a : A) (f : A -> C S B) s m : mbind f (mret a) s m = f a s m.
Proof. done. Qed.

Lemma bind_try {A B} (c : C S A) (f : option A -> C S B) s m r s' m' :
  c s m = Ret (r, s') m' -> mbind f (ctry c) s m = f r s' m'.
Proof. unfold mbind, C_bind, ctry. by intros ->. Qed.

Lemma bind_lift {A B} (c : M A) (f : A -> C S B) s m a m' :
  c m = Ret a m' -> mbind f (clift c) s m = f a s m'.
Proof. unfold mbind, C_bind, clift. by intros ->. Qed.

Lemma bind_con {S' A B} (c : C S' A) s0 (f : option A * S' -> C S B) s m r s1 m' :
  c s0 m = Ret (r, s1) m' -> mbind f (con s0 c) s m = f (r, s1) s m'.
Proof. unfold mbind, C_bind, con. by intros ->. Qed.

Lemma bind_defined {A B} (o : option A) (f : A -> C S B) s m a :
  o = Some a -> mbind f (defined o) s m = f a s m.
Proof. by intros ->. Qed.
End Eqns.

Lemma mbind_ret {A B} (c : M A) (f : A -> M B) m a m' :
  c m = Ret a m' -> mbind f c m = f a m'.
Proof. unfold mbind, M_bind. by intros ->. Qed.
