(* ===== verification/PbTypes.v ===== *)
(** * The declarations of pb.h, pb_decode.h, pb_encode.h and pb_common.h

    The build defines PB_FIELD_32BIT, PB_NO_PACKED_STRUCTS and
    PB_ENABLE_MALLOC (the xcconfig files of the pods), and nothing else, so
    [pb_size_t] is [uint32_t], streams carry callbacks and error messages,
    and 64-bit integers are available. *)

From S2P Require Import Prelude.
From S2P Require Import Memory.

(** ** Compile-time constants *)

Definition PB_MAX_REQUIRED_FIELDS : Z := 64.

Definition PB_LTYPE_BOOL : Z := 0x00.
Definition PB_LTYPE_VARINT : Z := 0x01.
Definition PB_LTYPE_UVARINT : Z := 0x02.
Definition PB_LTYPE_SVARINT : Z := 0x03.
Definition PB_LTYPE_FIXED32 : Z := 0x04.
Definition PB_LTYPE_FIXED64 : Z := 0x05.
Definition PB_LTYPE_LAST_PACKABLE : Z := 0x05.
Definition PB_LTYPE_BYTES : Z := 0x06.
Definition PB_LTYPE_STRING : Z := 0x07.
Definition PB_LTYPE_SUBMESSAGE : Z := 0x08.
Definition PB_LTYPE_EXTENSION : Z := 0x09.
Definition PB_LTYPE_FIXED_LENGTH_BYTES : Z := 0x0A.
Definition PB_LTYPES_COUNT : Z := 0x0B.
Definition PB_LTYPE_MASK : Z := 0x0F.

Definition PB_HTYPE_REQUIRED : Z := 0x00.
Definition PB_HTYPE_OPTIONAL : Z := 0x10.
Definition PB_HTYPE_REPEATED : Z := 0x20.
Definition PB_HTYPE_ONEOF : Z := 0x30.
Definition PB_HTYPE_MASK : Z := 0x30.

Definition PB_ATYPE_STATIC : Z := 0x00.
Definition PB_ATYPE_POINTER : Z := 0x80.
Definition PB_ATYPE_CALLBACK : Z := 0x40.
Definition PB_ATYPE_MASK : Z := 0xC0.

Definition PB_ATYPE (x : Z) : Z := Z.land x PB_ATYPE_MASK.
Definition PB_HTYPE (x : Z) : Z := Z.land x PB_HTYPE_MASK.
Definition PB_LTYPE (x : Z) : Z := Z.land x PB_LTYPE_MASK.

(** [PB_SIZE_MAX], with [pb_size_t = uint32_t]. *)
Definition PB_SIZE_MAX : Z := u32 (-1).

(** ** Field descriptors *)

(** [struct pb_field_s]. [ptr] is the address of the field descriptions of a
    submessage, or of the default value of any other field; 0 is NULL. *)
Record pb_field_t := mk_pb_field {
  ftag : Z;          (* tag *)
  ftype : Z;         (* type *)
  data_offset : Z;
  size_offset : Z;
  data_size : Z;
  array_size : Z;
  ptr : Z;
}.

Definition PB_LAST_FIELD : pb_field_t := mk_pb_field 0 0 0 0 0 0 0.

#[export] Instance pb_field_t_eq_dec : EqDecision pb_field_t.
Proof. solve_decision. Defined.

(** [struct pb_bytes_array_s]: a [pb_size_t] followed by the bytes. *)
Definition sizeof_pb_size_t : nat := 4.
Definition offsetof_bytes : Z := 4.
Definition PB_BYTES_ARRAY_T_ALLOCSIZE (n : Z) : Z := u64 (n + offsetof_bytes).

(** ** Wire types *)

Definition PB_WT_VARINT : Z := 0.
Definition PB_WT_64BIT : Z := 1.
Definition PB_WT_STRING : Z := 2.
Definition PB_WT_32BIT : Z := 5.

(** ** Streams *)

(** Where the bytes of an input stream come from: [IMem a] is [state = a], an
    address of the memory; [ILocal bs] is [state] pointing into an array of
    the stack frame that holds [bs] from there on (the copy of a scalar that
    [decode_callback_field] makes). *)
Inductive istate_t := IMem (a : Z) | ILocal (bs : list Z).

(** The [callback] of an input stream: the built-in [buf_read], or a user
    function, named by its address. *)
Inductive icallback_t := ICb_buf_read | ICb_user (f : Z).

(** [struct pb_istream_s]. *)
Record pb_istream_t := mk_istream {
  icallback : icallback_t;
  istate : istate_t;
  bytes_left : Z;
  ierrmsg : option string;
}.

(** The [callback] of an output stream; [OCb_null] marks a sizing stream. *)
Inductive ocallback_t := OCb_null | OCb_buf_write | OCb_user (f : Z).

(** [struct pb_ostream_s]. *)
Record pb_ostream_t := mk_ostream {
  ocallback : ocallback_t;
  ostate : Z;
  max_size : Z;
  bytes_written : Z;
  oerrmsg : option string;
}.

Definition PB_OSTREAM_SIZING : pb_ostream_t := mk_ostream OCb_null 0 0 0 None.

#[export] Instance icallback_t_eq_dec : EqDecision icallback_t.
Proof. solve_decision. Defined.
#[export] Instance ocallback_t_eq_dec : EqDecision ocallback_t.
Proof. solve_decision. Defined.

#[export] Instance istream_err : HasErr pb_istream_t := {
  get_errmsg := ierrmsg;
  put_errmsg e s := mk_istream (icallback s) (istate s) (bytes_left s) e;
}.
#[export] Instance ostream_err : HasErr pb_ostream_t := {
  get_errmsg := oerrmsg;
  put_errmsg e s := mk_ostream (ocallback s) (ostate s) (max_size s) (bytes_written s) e;
}.

(** ** Error macros *)

(** [PB_SET_ERROR]: the first message wins. *)
Definition PB_SET_ERROR {S} `{HasErr S} (s : S) (msg : string) : S :=
  put_errmsg (match get_errmsg s with Some e => Some e | None => Some msg end) s.

Definition PB_GET_ERROR {S} `{HasErr S} (s : S) : string :=
  match get_errmsg s with Some e => e | None => "(none)"%string end.

(** [PB_RETURN_ERROR]: set the message and [return false]. *)
Definition PB_RETURN_ERROR {S} `{HasErr S} {A} (msg : string) : C S A :=
  fun s m => Ret (None, PB_SET_ERROR s msg) m.

(** ** Layouts of the structures the library itself reads

    [pb_callback_t]: the function pointer, then [arg].
    [pb_extension_t]: [type], [dest], [next], [found].
    [pb_extension_type_t]: [decode], [encode], [arg]. *)
Definition off_callback_funcs : Z := 0.
Definition off_callback_arg : Z := 8.
Definition off_ext_type : Z := 0.
Definition off_ext_dest : Z := 8.
Definition off_ext_next : Z := 16.
Definition off_ext_found : Z := 24.
Definition off_exttype_decode : Z := 0.
Definition off_exttype_encode : Z := 8.
Definition off_exttype_arg : Z := 16.

(** ** The environment of the library

    Everything the code calls or reads that is not part of it: the constant
    descriptor arrays of the program, the functions the user installs behind
    the callback pointers (named by their addresses), and the decisions of
    the allocator. *)
Class PbEnv := {
  (** the [pb_field_t] array that starts at an address, terminator included *)
  fields_at : Z -> option (list pb_field_t);
  (** stream callbacks: the bytes stored into [buf], and the returned bool *)
  user_read : Z -> pb_istream_t -> Z -> M (bool * list Z * pb_istream_t);
  user_write : Z -> pb_ostream_t -> list Z -> M (bool * pb_ostream_t);
  (** field callbacks: function, field, address of [arg] *)
  user_field_decode : Z -> pb_field_t -> Z -> C pb_istream_t unit;
  user_field_encode : Z -> pb_field_t -> Z -> C pb_ostream_t unit;
  (** extension callbacks: function, extension, and for decoding tag and wire type *)
  user_ext_decode : Z -> Z -> Z -> Z -> C pb_istream_t unit;
  user_ext_encode : Z -> Z -> C pb_ostream_t unit;
  (** the block [realloc p n] returns in a state, [None] for NULL *)
  realloc_choice : mstate -> Z -> Z -> option (Z * (Z -> Z));
}.

Definition pb_realloc `{PbEnv} (p n : Z) : M Z := fun m => realloc (realloc_choice m p n) p n m.
Definition pb_free (p : Z) : M unit := free p.
