(* ===== verification/PbCommon.v ===== *)
(** * pb_common.c: the field iterator

    [pb_field_iter_t] walks a message structure along its descriptor array.
    The array is a list of descriptors, the position a list index; looking at
    an index that does not exist is undefined behaviour ([None]). *)

From S2P Require Import Prelude.
From S2P Require Import Memory.
From S2P Require Import PbTypes.

(** Where a count or has-flag lives: at an address, or in the local variable
    [fixed_count_size] of [pb_decode_noinit]. *)
Inductive psize_t := SAddr (a : Z) | SLocal.

#[export] Instance psize_t_eq_dec : EqDecision psize_t.
Proof. solve_decision. Defined.

(** [struct pb_field_iter_s]. *)
Record pb_field_iter_t := mk_iter {
  start : list pb_field_t;
  pos : nat;
  required_field_index : Z;
  dest_struct : Z;
  pData : Z;
  pSize : psize_t;
}.

(** [*iter->pos]. *)
Definition iter_field (it : pb_field_iter_t) : option pb_field_t := start it !! pos it.

(** [iter->pSize == iter->pData]. *)
Definition psize_is_data (it : pb_field_iter_t) : bool :=
  match pSize it with SAddr a => a =? pData it | SLocal => false end.

Definition set_pSize (p : psize_t) (it : pb_field_iter_t) : pb_field_iter_t :=
  mk_iter (start it) (pos it) (required_field_index it) (dest_struct it) (pData it) p.

Definition pb_field_iter_begin (fields : list pb_field_t) (dest : Z)
    : option (bool * pb_field_iter_t) :=
  f ← fields !! 0%nat;
  let (pd, ps) :=
    if dest =? 0 then (0, 0)
    else (dest + data_offset f, dest + data_offset f + size_offset f) in
  Some (negb (ftag f =? 0), mk_iter fields 0 0 dest pd (SAddr ps)).

Definition pb_field_iter_next (it : pb_field_iter_t) : option (bool * pb_field_iter_t) :=
  prev_field ← iter_field it;
  if ftag prev_field =? 0 then Some (false, it)
  else
    f ← start it !! S (pos it);
    if ftag f =? 0 then
      (* wrapped back to the beginning, reinitialize *)
      r ← pb_field_iter_begin (start it) (dest_struct it);
      Some (false, r.2)
    else
      if (PB_HTYPE (ftype prev_field) =? PB_HTYPE_ONEOF)
         && (PB_HTYPE (ftype f) =? PB_HTYPE_ONEOF)
         && (data_offset f =? PB_SIZE_MAX)
      then
        (* don't advance pointers inside unions *)
        Some (true, mk_iter (start it) (S (pos it)) (required_field_index it)
                            (dest_struct it) (pData it) (pSize it))
      else
        let prev_size :=
          if (PB_ATYPE (ftype prev_field) =? PB_ATYPE_STATIC)
             && (PB_HTYPE (ftype prev_field) =? PB_HTYPE_REPEATED)
          then u64 (data_size prev_field * array_size prev_field)
          else if PB_ATYPE (ftype prev_field) =? PB_ATYPE_POINTER
          then Z.of_nat sizeof_ptr
          else data_size prev_field in
        let rfi :=
          if PB_HTYPE (ftype prev_field) =? PB_HTYPE_REQUIRED
          then u32 (required_field_index it + 1)
          else required_field_index it in
        let pd := pData it + prev_size + data_offset f in
        Some (true, mk_iter (start it) (S (pos it)) rfi (dest_struct it)
                            pd (SAddr (pd + size_offset f))).

(** The [do ... while (iter->pos != start)] loop of [pb_field_iter_find]. *)
Fixpoint iter_find_loop (fuel : nat) (start_pos : nat) (tag : Z) (it : pb_field_iter_t)
    : option (bool * pb_field_iter_t) :=
  match fuel with
  | O => None
  | S fuel =>
      f ← iter_field it;
      if (ftag f =? tag) && negb (PB_LTYPE (ftype f) =? PB_LTYPE_EXTENSION)
      then Some (true, it)
      else
        r ← pb_field_iter_next it;
        if Nat.eqb (pos r.2) start_pos then Some (false, r.2)
        else iter_find_loop fuel start_pos tag r.2
  end.

(** One round of the array visits every position once, so the length of the
    array bounds the iterations (proved in IterFacts). *)
Definition pb_field_iter_find (it : pb_field_iter_t) (tag : Z)
    : option (bool * pb_field_iter_t) :=
  iter_find_loop (length (start it)) (pos it) tag it.
