(* ===== verification/PbIStream.v ===== *)
(** * pb_decode.c, first half: input streams and the wire format

    [pb_read] and everything that reads tags, integers, strings and
    substreams, before any message structure is involved. *)

From S2P Require Import Prelude.
From S2P Require Import Memory.
From S2P Require Import PbTypes.

(** The [buf] argument of a read: NULL, an array of the caller's stack frame
    whose contents are the result, or an address. *)
Inductive rbuf := RNull | RLocal | RMem (a : Z).

(** [(pb_byte_t* )stream->state + count]. *)
Definition istate_advance (st : istate_t) (count : Z) : istate_t :=
  match st with
  | IMem a => IMem (a + count)
  | ILocal bs => ILocal (drop (Z.to_nat count) bs)
  end.

(** [source[i]]. *)
Definition istate_byte (st : istate_t) (i : Z) : M Z :=
  match st with
  | IMem a => bs ← load_bytes (a + i) 1; mdefined (bs !! 0%nat)
  | ILocal bs => mdefined (bs !! Z.to_nat i)
  end.

(** [for (i = 0; i < count; i++) buf[i] = source[i];], the bytes returned. *)
Fixpoint copy_loop (n : nat) (i : Z) (src : istate_t) (buf : rbuf) : M (list Z) :=
  match n with
  | O => mret []
  | S n =>
      b ← istate_byte src i;
      _ ← (match buf with RMem a => store_bytes (a + i) [b] | _ => mret tt end : M unit);
      bs ← copy_loop n (i + 1) src buf;
      mret (b :: bs)
  end.

Definition set_istate (st : istate_t) (s : pb_istream_t) : pb_istream_t :=
  mk_istream (icallback s) st (bytes_left s) (ierrmsg s).
Definition set_bytes_left (n : Z) (s : pb_istream_t) : pb_istream_t :=
  mk_istream (icallback s) (istate s) n (ierrmsg s).

Definition buf_read (buf : rbuf) (count : Z) : C pb_istream_t (list Z) :=
  s ← cget;
  let source := istate s in
  _ ← cmodify (set_istate (istate_advance source count));
  match buf with
  | RNull => mret []
  | _ => clift (copy_loop (Z.to_nat count) 0 source buf)
  end.

(** [stream->callback(stream, buf, count)]: a user function reports the bytes
    it stored into [buf], which may be fewer than [count] when it fails; one
    that reports success without filling [buf] leaves indeterminate bytes. *)
Definition run_icallback `{PbEnv} (buf : rbuf) (count : Z) : C pb_istream_t (list Z) :=
  s ← cget;
  match icallback s with
  | ICb_buf_read => buf_read buf count
  | ICb_user f =>
      r ← clift (user_read f s count);
      let '(ok, bs, s') := r in
      _ ← cput s';
      _ ← clift (match buf with RMem a => store_bytes a bs | _ => mret tt end);
      if (ok : bool)
      then (if Z.of_nat (length bs) =? count then mret bs else cub)
      else cfail
  end.

(** The part of [pb_read] after the NULL-buffer case. *)
Definition pb_read_direct `{PbEnv} (buf : rbuf) (count : Z) : C pb_istream_t (list Z) :=
  if count =? 0 then mret []
  else
    s ← cget;
    if bytes_left s <? count then PB_RETURN_ERROR "end-of-stream"
    else
      r ← ctry (run_icallback buf count);
      match r with
      | None => PB_RETURN_ERROR "io error"
      | Some bs =>
          _ ← cmodify (fun s => set_bytes_left (u64 (bytes_left s - count)) s);
          mret bs
      end.

(** [while (count > 16) { pb_read(stream, tmp, 16); count -= 16; }] and the
    final read of the rest. *)
Fixpoint skip_input_loop `{PbEnv} (fuel : nat) (count : Z) : C pb_istream_t (list Z) :=
  match fuel with
  | O => cnofuel
  | S fuel =>
      if 16 <? count then
        _ ← pb_read_direct RLocal 16;
        skip_input_loop fuel (count - 16)
      else pb_read_direct RLocal count
  end.

Definition is_rnull (b : rbuf) : bool := match b with RNull => true | _ => false end.

Definition pb_read `{PbEnv} (buf : rbuf) (count : Z) : C pb_istream_t (list Z) :=
  if count =? 0 then mret []
  else
    s ← cget;
    if is_rnull buf && negb (bool_decide (icallback s = ICb_buf_read))
    then skip_input_loop (S (Z.to_nat (count / 16))) count
    else pb_read_direct buf count.

Definition pb_readbyte `{PbEnv} : C pb_istream_t Z :=
  s ← cget;
  if bytes_left s =? 0 then PB_RETURN_ERROR "end-of-stream"
  else
    r ← ctry (run_icallback RLocal 1);
    match r with
    | None => PB_RETURN_ERROR "io error"
    | Some bs =>
        byte ← defined (bs !! 0%nat);
        _ ← cmodify (fun s => set_bytes_left (u64 (bytes_left s - 1)) s);
        mret byte
    end.

Definition pb_istream_from_buffer (buf : istate_t) (bufsize : Z) : pb_istream_t :=
  mk_istream ICb_buf_read buf bufsize None.

(** ** Varints *)

(** The multibyte loop of [pb_decode_varint32_eof]. [bitpos] is a
    [uint_fast8_t], eight bits wide on Apple platforms. Every iteration takes
    a byte, so [bytes_left] bounds them. *)
Fixpoint varint32_loop `{PbEnv} (fuel : nat) (bitpos result : Z) : C pb_istream_t Z :=
  match fuel with
  | O => cnofuel
  | S fuel =>
      byte ← pb_readbyte;
      result ←
        (if 32 <=? bitpos then
           let sign_extension := if bitpos <? 63 then 0xFF else 0x01 in
           if bit_set byte 0x7F
              && ((Z.shiftr result 31 =? 0) || negb (byte =? sign_extension))
           then PB_RETURN_ERROR "varint overflow"
           else mret result
         else mret (Z.lor result (u32 (Z.shiftl (Z.land byte 0x7F) bitpos)))
         : C pb_istream_t Z);
      let bitpos := u8 (bitpos + 7) in
      if bit_set byte 0x80 then varint32_loop fuel bitpos result
      else if (bitpos =? 35) && bit_set byte 0x70
      then PB_RETURN_ERROR "varint overflow"
      else mret result
  end.

(** The result: [*dest] on [return true] ([None] on [return false]), and
    whether [*eof] was set. *)
Definition pb_decode_varint32_eof `{PbEnv} : C pb_istream_t (option Z * bool) :=
  r ← ctry pb_readbyte;
  match r with
  | None => s ← cget; mret (None, bytes_left s =? 0)
  | Some byte =>
      if negb (bit_set byte 0x80) then mret (Some byte, false)
      else
        s ← cget;
        v ← ctry (varint32_loop (S (Z.to_nat (bytes_left s))) 7 (Z.land byte 0x7F));
        mret (v, false)
  end.

Definition pb_decode_varint32 `{PbEnv} : C pb_istream_t Z :=
  r ← pb_decode_varint32_eof; cres r.1.

(** Eleven iterations reach [bitpos >= 64] and stop. *)
Fixpoint varint_loop `{PbEnv} (fuel : nat) (bitpos result : Z) : C pb_istream_t Z :=
  match fuel with
  | O => cnofuel
  | S fuel =>
      if 64 <=? bitpos then PB_RETURN_ERROR "varint overflow"
      else
        byte ← pb_readbyte;
        let result := Z.lor result (u64 (Z.shiftl (Z.land byte 0x7F) bitpos)) in
        let bitpos := u8 (bitpos + 7) in
        if bit_set byte 0x80 then varint_loop fuel bitpos result else mret result
  end.

Definition pb_decode_varint `{PbEnv} : C pb_istream_t Z := varint_loop 11 0 0.

Fixpoint skip_varint_loop `{PbEnv} (fuel : nat) : C pb_istream_t unit :=
  match fuel with
  | O => cnofuel
  | S fuel =>
      bs ← pb_read RLocal 1;
      byte ← defined (bs !! 0%nat);
      if bit_set byte 0x80 then skip_varint_loop fuel else mret tt
  end.

Definition pb_skip_varint `{PbEnv} : C pb_istream_t unit :=
  s ← cget; skip_varint_loop (S (Z.to_nat (bytes_left s))).

Definition pb_skip_string `{PbEnv} : C pb_istream_t unit :=
  length ← pb_decode_varint32;
  _ ← pb_read RNull length;
  mret tt.

(** [pb_decode_tag]: the returned bool, [*wire_type], [*tag] and [*eof]. *)
Record tag_result := mk_tag_result {
  tr_ok : bool; tr_wire_type : Z; tr_tag : Z; tr_eof : bool }.

Definition pb_decode_tag `{PbEnv} : C pb_istream_t tag_result :=
  r ← pb_decode_varint32_eof;
  match r.1 with
  | None => mret (mk_tag_result false 0 0 r.2)
  | Some temp =>
      if temp =? 0 then mret (mk_tag_result false 0 0 true)
      else mret (mk_tag_result true (Z.land temp 7) (Z.shiftr temp 3) r.2)
  end.

Definition pb_skip_field `{PbEnv} (wire_type : Z) : C pb_istream_t unit :=
  if wire_type =? PB_WT_VARINT then pb_skip_varint
  else if wire_type =? PB_WT_64BIT then _ ← pb_read RNull 8; mret tt
  else if wire_type =? PB_WT_STRING then pb_skip_string
  else if wire_type =? PB_WT_32BIT then _ ← pb_read RNull 4; mret tt
  else PB_RETURN_ERROR "invalid wire_type".

(** The PB_WT_VARINT case of [read_raw_value]: [size] counts the bytes, the
    array has room for [max_size] of them. *)
Fixpoint raw_varint_loop `{PbEnv} (fuel : nat) (size max_size : Z) : C pb_istream_t (list Z) :=
  match fuel with
  | O => cnofuel
  | S fuel =>
      let size := size + 1 in
      if max_size <? size then cfail
      else
        bs ← pb_read RLocal 1;
        byte ← defined (bs !! 0%nat);
        if bit_set byte 0x80 then
          rest ← raw_varint_loop fuel size max_size;
          mret (byte :: rest)
        else mret [byte]
  end.

(** The raw bytes stand for [buf] and [*size]. *)
Definition read_raw_value `{PbEnv} (wire_type max_size : Z) : C pb_istream_t (list Z) :=
  if wire_type =? PB_WT_VARINT then raw_varint_loop (S (Z.to_nat max_size)) 0 max_size
  else if wire_type =? PB_WT_64BIT then pb_read RLocal 8
  else if wire_type =? PB_WT_32BIT then pb_read RLocal 4
  else PB_RETURN_ERROR "invalid wire_type".

(** ** Substreams *)

Definition pb_make_string_substream `{PbEnv} : C pb_istream_t pb_istream_t :=
  size ← pb_decode_varint32;
  s ← cget;
  if bytes_left s <? size then PB_RETURN_ERROR "parent stream too short"
  else
    _ ← cmodify (set_bytes_left (u64 (bytes_left s - size)));
    mret (set_bytes_left size s).

(** Skips what is left of the substream; the read runs on the substream. *)
Definition pb_close_string_substream `{PbEnv} (substream : pb_istream_t)
    : C pb_istream_t unit :=
  r ← con substream
        (if bytes_left substream =? 0 then mret []
         else pb_read RNull (bytes_left substream));
  match r with
  | (None, _) => cfail
  | (Some _, sub) =>
      cmodify (fun s => mk_istream (icallback s) (istate sub) (bytes_left s) (ierrmsg sub))
  end.

(** ** Scalars *)

(** Zigzag decoding. *)
Definition pb_decode_svarint `{PbEnv} : C pb_istream_t Z :=
  value ← pb_decode_varint;
  if bit_set value 1
  then mret (s64 (u64 (Z.lnot (Z.shiftr value 1))))
  else mret (s64 (Z.shiftr value 1)).

Definition byte_at (bs : list Z) (i : nat) : Z := default 0 (bs !! i).

(** [pb_decode_fixed32]: the value stored through [dest]. *)
Definition pb_decode_fixed32 `{PbEnv} (dest : Z) : C pb_istream_t unit :=
  bytes ← pb_read RLocal 4;
  let v := Z.lor (Z.lor (Z.lor (Z.shiftl (byte_at bytes 0) 0)
                               (Z.shiftl (byte_at bytes 1) 8))
                        (Z.shiftl (byte_at bytes 2) 16))
                 (Z.shiftl (byte_at bytes 3) 24) in
  clift (store_u 4 dest v).

Definition pb_decode_fixed64 `{PbEnv} (dest : Z) : C pb_istream_t unit :=
  bytes ← pb_read RLocal 8;
  let sh i := Z.shiftl (byte_at bytes i) (8 * Z.of_nat i) in
  let v := Z.lor (Z.lor (Z.lor (Z.lor (Z.lor (Z.lor (Z.lor
             (sh 0%nat) (sh 1%nat)) (sh 2%nat)) (sh 3%nat)) (sh 4%nat)) (sh 5%nat))
             (sh 6%nat)) (sh 7%nat) in
  clift (store_u 8 dest v).
