(* ===== verification/PbDecode.v ===== *)
(** * pb_decode.c, second half: decoding into message structures

    Field decoders, allocation, default values, release, extensions and the
    main loop [pb_decode_noinit].  The functions of the source that call each
    other recursively are written against the decoder of the next nesting
    level, [noinit], and the knot is tied by recursion on fuel. *)

From S2P Require Import Prelude.
From S2P Require Import Memory.
From S2P Require Import PbTypes.
From S2P Require Import PbCommon.
From S2P Require Import PbIStream.

(** ** Access to counts and has-flags

    [local] is the value of the variable [fixed_count_size]. *)

Definition read_size (ps : psize_t) (local : Z) : M Z :=
  match ps with SAddr a => load_u sizeof_pb_size_t a | SLocal => mret local end.

(** Store a [pb_size_t] through [pSize]; the new value of the local. *)
Definition write_size (ps : psize_t) (local v : Z) : M Z :=
  match ps with
  | SAddr a => _ ← store_u sizeof_pb_size_t a v; mret local
  | SLocal => mret v
  end.

(** [*(bool* )iter->pSize = b]. *)
Definition write_has (ps : psize_t) (local b : Z) : M Z :=
  match ps with
  | SAddr a => _ ← store_u 1 a b; mret local
  | SLocal => mret b
  end.

(** [pItem = base + data_size * index]: the product of two [pb_size_t] wraps
    at 32 bits. *)
Definition item_addr (base size index : Z) : Z := base + u32 (size * index).

(** ** Extensions as iterators *)

Definition iter_from_extension `{PbEnv} (extension : Z) : M pb_field_iter_t :=
  ty ← load_ptr (extension + off_ext_type);
  arg ← load_ptr (ty + off_exttype_arg);
  fields ← mdefined (fields_at arg);
  field ← mdefined (fields !! 0%nat);
  dest ← load_ptr (extension + off_ext_dest);
  r ← mdefined (pb_field_iter_begin [field] dest);
  let pd := if PB_ATYPE (ftype field) =? PB_ATYPE_POINTER
            then extension + off_ext_dest else dest in
  mret (mk_iter (start r.2) (pos r.2) (required_field_index r.2) (dest_struct r.2)
                pd (SAddr (extension + off_ext_found))).

(** ** Default values *)

(** The extension list of [pb_field_set_to_default] and of
    [pb_release_single_field]: visit every [pb_extension_t] until NULL. *)
Fixpoint ext_list_loop (fuel : nat) (visit : Z -> M unit) (ext : Z) : M unit :=
  if ext =? 0 then mret tt
  else
    match fuel with
    | O => M_nofuel
    | S fuel =>
        _ ← visit ext;
        next ← load_ptr (ext + off_ext_next);
        ext_list_loop fuel visit next
    end.

(** [do { visit(&iter); } while (pb_field_iter_next(&iter));] *)
Fixpoint iter_loop (fuel : nat) (visit : pb_field_iter_t -> M unit)
    (it : pb_field_iter_t) : M unit :=
  match fuel with
  | O => M_nofuel
  | S fuel =>
      _ ← visit it;
      r ← mdefined (pb_field_iter_next it);
      if (r.1 : bool) then iter_loop fuel visit r.2 else mret tt
  end.

(** The whole message: nothing for an empty message type. *)
Definition for_each_field (visit : pb_field_iter_t -> M unit)
    (fields : list pb_field_t) (dest : Z) : M unit :=
  r ← mdefined (pb_field_iter_begin fields dest);
  if (r.1 : bool) then iter_loop (length fields) visit r.2 else mret tt.

(** [pb_message_set_to_defaults((const pb_field_t* )ptr, dest)]. *)
Definition set_submessage `{PbEnv} (set_field : pb_field_iter_t -> M unit)
    (p dest : Z) : M unit :=
  fields ← mdefined (fields_at p);
  for_each_field set_field fields dest.

Fixpoint pb_field_set_to_default `{PbEnv} (fuel : nat) (it : pb_field_iter_t) : M unit :=
  match fuel with
  | O => M_nofuel
  | S fuel =>
      f ← mdefined (iter_field it);
      let type := ftype f in
      if PB_LTYPE type =? PB_LTYPE_EXTENSION then
        ext ← load_ptr (pData it);
        ext_list_loop fuel (fun ext =>
          _ ← store_u 1 (ext + off_ext_found) 0;
          ext_iter ← iter_from_extension ext;
          pb_field_set_to_default fuel ext_iter) ext
      else if PB_ATYPE type =? PB_ATYPE_STATIC then
        init_data ←
          (if (PB_HTYPE type =? PB_HTYPE_OPTIONAL) && negb (psize_is_data it) then
             (* set has_field to false, still initialize the field itself *)
             _ ← write_has (pSize it) 0 0; mret true
           else if (PB_HTYPE type =? PB_HTYPE_REPEATED)
                   || (PB_HTYPE type =? PB_HTYPE_ONEOF) then
             _ ← write_size (pSize it) 0 0; mret false
           else mret true : M bool);
        if (init_data : bool) then
          if PB_LTYPE type =? PB_LTYPE_SUBMESSAGE then
            set_submessage (pb_field_set_to_default fuel) (ptr f) (pData it)
          else if negb (ptr f =? 0) then memcpy (pData it) (ptr f) (data_size f)
          else memset0 (pData it) (data_size f)
        else mret tt
      else if PB_ATYPE type =? PB_ATYPE_POINTER then
        _ ← store_ptr (pData it) 0;
        if (PB_HTYPE type =? PB_HTYPE_REPEATED) || (PB_HTYPE type =? PB_HTYPE_ONEOF)
        then _ ← write_size (pSize it) 0 0; mret tt
        else mret tt
      else (* callback: don't overwrite *) mret tt
  end.

Definition pb_message_set_to_defaults `{PbEnv} (fuel : nat)
    (fields : list pb_field_t) (dest : Z) : M unit :=
  for_each_field (pb_field_set_to_default fuel) fields dest.

(** ** Release *)

(** [for (; count > 0; count--) { release(pItem); pItem += data_size; }] *)
Fixpoint release_items (n : nat) (release : Z -> M unit) (item size : Z) : M unit :=
  match n with
  | O => mret tt
  | S n => _ ← release item; release_items n release (item + size) size
  end.

(** [pb_release(fields, dest)] given how to release one field. *)
Definition release_message (release_field : pb_field_iter_t -> M unit)
    (fields : list pb_field_t) (dest : Z) : M unit :=
  if dest =? 0 then mret tt else for_each_field release_field fields dest.

(** The entries of a repeated string or bytes array: free and clear each. *)
Definition release_entry (p : Z) : M unit :=
  q ← load_ptr p;
  _ ← pb_free q;
  store_ptr p 0.

Fixpoint pb_release_single_field `{PbEnv} (fuel : nat) (it : pb_field_iter_t) : M unit :=
  match fuel with
  | O => M_nofuel
  | S fuel =>
      f ← mdefined (iter_field it);
      let type := ftype f in
      current ←
        (if PB_HTYPE type =? PB_HTYPE_ONEOF
         then which ← read_size (pSize it) 0; mret (which =? ftag f)
         else mret true : M bool);
      if negb current then mret tt
      else
        _ ←
          (if PB_LTYPE type =? PB_LTYPE_EXTENSION then
             ext ← load_ptr (pData it);
             ext_list_loop fuel (fun ext =>
               ext_iter ← iter_from_extension ext;
               pb_release_single_field fuel ext_iter) ext
           else if (PB_LTYPE type =? PB_LTYPE_SUBMESSAGE)
                   && negb (PB_ATYPE type =? PB_ATYPE_CALLBACK) then
             pItem ← (if PB_ATYPE type =? PB_ATYPE_POINTER
                      then load_ptr (pData it) else mret (pData it) : M Z);
             count ←
               (if PB_HTYPE type =? PB_HTYPE_REPEATED then
                  count ← (if (PB_ATYPE type =? PB_ATYPE_STATIC) && psize_is_data it
                           then mret (array_size f)
                           else read_size (pSize it) 0 : M Z);
                  if (PB_ATYPE type =? PB_ATYPE_STATIC) && (array_size f <? count)
                  then mret (array_size f) else mret count
                else mret 1 : M Z);
             if negb (pItem =? 0) then
               release_items (Z.to_nat count)
                 (fun item => fields ← mdefined (fields_at (ptr f));
                              release_message (pb_release_single_field fuel) fields item)
                 pItem (data_size f)
             else mret tt
           else mret tt : M unit);
        if PB_ATYPE type =? PB_ATYPE_POINTER then
          _ ←
            (if (PB_HTYPE type =? PB_HTYPE_REPEATED)
                && ((PB_LTYPE type =? PB_LTYPE_STRING) || (PB_LTYPE type =? PB_LTYPE_BYTES))
             then
               pItem ← load_ptr (pData it);
               count ← read_size (pSize it) 0;
               release_items (Z.to_nat count) release_entry pItem (Z.of_nat sizeof_ptr)
             else mret tt : M unit);
          _ ← (if PB_HTYPE type =? PB_HTYPE_REPEATED
               then _ ← write_size (pSize it) 0 0; mret tt
               else mret tt : M unit);
          p ← load_ptr (pData it);
          _ ← pb_free p;
          store_ptr (pData it) 0
        else mret tt
  end.

Definition pb_release `{PbEnv} (fuel : nat) (fields : list pb_field_t) (dest : Z) : M unit :=
  release_message (pb_release_single_field fuel) fields dest.

(** Switching the member of a oneof releases the old one; the iterator comes
    back at the new member. *)
Definition pb_release_union_field `{PbEnv} (fuel : nat) (it : pb_field_iter_t)
    : C pb_istream_t pb_field_iter_t :=
  f ← defined (iter_field it);
  old_tag ← clift (read_size (pSize it) 0);
  let new_tag := ftag f in
  if old_tag =? 0 then mret it
  else if old_tag =? new_tag then mret it
  else
    r ← defined (pb_field_iter_find it old_tag);
    if negb (r.1 : bool) then PB_RETURN_ERROR "invalid union tag"
    else
      _ ← clift (pb_release_single_field fuel r.2);
      r' ← defined (pb_field_iter_find r.2 new_tag);
      if negb (r'.1 : bool) then PB_RETURN_ERROR "iterator error"
      else
        f' ← defined (iter_field r'.2);
        _ ← (if PB_ATYPE (ftype f') =? PB_ATYPE_POINTER
             then clift (store_ptr (pData r'.2) 0) else mret tt);
        mret r'.2.

(** ** Allocation *)

Definition allocate_field `{PbEnv} (pData data_size array_size : Z) : C pb_istream_t unit :=
  p ← clift (load_ptr pData);
  if (data_size =? 0) || (array_size =? 0) then PB_RETURN_ERROR "invalid size"
  else
    let check_limit := 2 ^ 32 in
    let size_max := u64 (-1) in
    if ((check_limit <=? data_size) || (check_limit <=? array_size))
       && (size_max / array_size <? data_size)
    then PB_RETURN_ERROR "size too large"
    else
      p ← clift (pb_realloc p (u64 (array_size * data_size)));
      if p =? 0 then PB_RETURN_ERROR "realloc failed"
      else clift (store_ptr pData p).

Definition initialize_pointer_field `{PbEnv} (fuel : nat) (pItem : Z) (f : pb_field_t)
    : M unit :=
  let l := PB_LTYPE (ftype f) in
  if (l =? PB_LTYPE_STRING) || (l =? PB_LTYPE_BYTES) then store_ptr pItem 0
  else if l =? PB_LTYPE_SUBMESSAGE then
    _ ← memset0 pItem (data_size f);
    set_submessage (pb_field_set_to_default fuel) (ptr f) pItem
  else mret tt.

(** ** Scalar field decoders *)

(** Signature of the entries of [PB_DECODERS]. *)
Definition pb_decoder_t : Type := pb_field_t -> Z -> C pb_istream_t unit.

Definition pb_dec_bool `{PbEnv} : pb_decoder_t := fun _ dest =>
  value ← pb_decode_varint32;
  clift (store_u 1 dest (if value =? 0 then 0 else 1)).

Definition pb_decode_bool `{PbEnv} (dest : Z) : C pb_istream_t unit :=
  pb_dec_bool PB_LAST_FIELD dest.

(** Store [v] in a field of [n] bytes and require that it fits. *)
Definition store_clamped (n : nat) (dest v clamped : Z) : C pb_istream_t unit :=
  _ ← clift (store_u n dest v);
  if negb (clamped =? v) then PB_RETURN_ERROR "integer too large" else mret tt.

Definition pb_dec_varint `{PbEnv} : pb_decoder_t := fun f dest =>
  value ← pb_decode_varint;
  let svalue := if data_size f =? 8 then s64 value else s32 value in
  if data_size f =? 8 then store_clamped 8 dest svalue svalue
  else if data_size f =? 4 then store_clamped 4 dest svalue (s32 svalue)
  else if data_size f =? 2 then store_clamped 2 dest svalue (s16 svalue)
  else if data_size f =? 1 then store_clamped 1 dest svalue (s8 svalue)
  else PB_RETURN_ERROR "invalid data_size".

Definition pb_dec_uvarint `{PbEnv} : pb_decoder_t := fun f dest =>
  value ← pb_decode_varint;
  if data_size f =? 8 then store_clamped 8 dest value value
  else if data_size f =? 4 then store_clamped 4 dest value (u32 value)
  else if data_size f =? 2 then store_clamped 2 dest value (u16 value)
  else if data_size f =? 1 then store_clamped 1 dest value (u8 value)
  else PB_RETURN_ERROR "invalid data_size".

Definition pb_dec_svarint `{PbEnv} : pb_decoder_t := fun f dest =>
  value ← pb_decode_svarint;
  if data_size f =? 8 then store_clamped 8 dest value value
  else if data_size f =? 4 then store_clamped 4 dest value (s32 value)
  else if data_size f =? 2 then store_clamped 2 dest value (s16 value)
  else if data_size f =? 1 then store_clamped 1 dest value (s8 value)
  else PB_RETURN_ERROR "invalid data_size".

Definition pb_dec_fixed32 `{PbEnv} : pb_decoder_t := fun _ dest => pb_decode_fixed32 dest.
Definition pb_dec_fixed64 `{PbEnv} : pb_decoder_t := fun _ dest => pb_decode_fixed64 dest.

Definition pb_dec_bytes `{PbEnv} : pb_decoder_t := fun f dest =>
  size ← pb_decode_varint32;
  if PB_SIZE_MAX <? size then PB_RETURN_ERROR "bytes overflow"
  else
    let alloc_size := PB_BYTES_ARRAY_T_ALLOCSIZE size in
    if alloc_size <? size then PB_RETURN_ERROR "size too large"
    else
      bdest ←
        (if PB_ATYPE (ftype f) =? PB_ATYPE_POINTER then
           s ← cget;
           if bytes_left s <? size then PB_RETURN_ERROR "end-of-stream"
           else
             _ ← allocate_field dest alloc_size 1;
             clift (load_ptr dest)
         else if data_size f <? alloc_size then PB_RETURN_ERROR "bytes overflow"
         else mret dest : C pb_istream_t Z);
      _ ← clift (store_u sizeof_pb_size_t bdest size);
      _ ← pb_read (RMem (bdest + offsetof_bytes)) size;
      mret tt.

Definition pb_dec_string `{PbEnv} : pb_decoder_t := fun f dest =>
  size ← pb_decode_varint32;
  (* size + 1 is computed in uint32_t *)
  let alloc_size := u32 (size + 1) in
  if alloc_size <? size then PB_RETURN_ERROR "size too large"
  else
    dest ←
      (if PB_ATYPE (ftype f) =? PB_ATYPE_POINTER then
         s ← cget;
         if bytes_left s <? size then PB_RETURN_ERROR "end-of-stream"
         else
           _ ← allocate_field dest alloc_size 1;
           clift (load_ptr dest)
       else if data_size f <? alloc_size then PB_RETURN_ERROR "string overflow"
       else mret dest : C pb_istream_t Z);
    status ← ctry (pb_read (RMem dest) size);
    _ ← clift (store_u 1 (dest + size) 0);
    _ ← cres status;
    mret tt.

Definition pb_dec_fixed_length_bytes `{PbEnv} : pb_decoder_t := fun f dest =>
  size ← pb_decode_varint32;
  if PB_SIZE_MAX <? size then PB_RETURN_ERROR "bytes overflow"
  else if size =? 0 then clift (memset0 dest (data_size f))
  else if negb (size =? data_size f)
  then PB_RETURN_ERROR "incorrect fixed length bytes size"
  else _ ← pb_read (RMem dest) (data_size f); mret tt.

(** ** Fields that may recurse into submessages

    [noinit fields dest] is [pb_decode_noinit] for the next nesting level;
    [fuel] bounds the recursion over structures and the callback loop. *)

Section Nested.
Context `{PbEnv} (fuel : nat).
Context (noinit : list pb_field_t -> Z -> C pb_istream_t unit).

(** [pb_decode] in terms of [pb_decode_noinit]. *)
Definition decode_with (fields : list pb_field_t) (dest : Z) : C pb_istream_t unit :=
  _ ← clift (pb_message_set_to_defaults fuel fields dest);
  status ← ctry (noinit fields dest);
  match status with
  | Some _ => mret tt
  | None => _ ← clift (pb_release fuel fields dest); cfail
  end.

Definition pb_dec_submessage : pb_decoder_t := fun f dest =>
  substream ← pb_make_string_substream;
  if ptr f =? 0 then PB_RETURN_ERROR "invalid field descriptor"
  else
    submsg_fields ← defined (fields_at (ptr f));
    r ← con substream
          (if PB_HTYPE (ftype f) =? PB_HTYPE_REPEATED
           then decode_with submsg_fields dest
           else noinit submsg_fields dest);
    _ ← pb_close_string_substream r.2;
    cres r.1.

(** The table, in LTYPE order; the extension slot is NULL. *)
Definition PB_DECODERS : list (option pb_decoder_t) :=
  [ Some pb_dec_bool; Some pb_dec_varint; Some pb_dec_uvarint; Some pb_dec_svarint;
    Some pb_dec_fixed32; Some pb_dec_fixed64;
    Some pb_dec_bytes; Some pb_dec_string; Some pb_dec_submessage;
    None; Some pb_dec_fixed_length_bytes ].

(** Calling through the table: no entry, or a NULL one, is undefined. *)
Definition call_decoder (type : Z) : pb_decoder_t := fun f dest =>
  match PB_DECODERS !! Z.to_nat (PB_LTYPE type) with
  | Some (Some func) => func f dest
  | _ => cub
  end.

(** The packed array of a static field, on the substream: the returned
    status is [false] when an element could not be decoded. *)
Fixpoint static_packed_loop (n : nat) (f : pb_field_t) (pData : Z) (ps : psize_t)
    (local : Z) : C pb_istream_t (bool * Z) :=
  s ← cget;
  size ← clift (read_size ps local);
  if (0 <? bytes_left s) && (size <? array_size f) then
    match n with
    | O => cnofuel
    | S n =>
        r ← ctry (call_decoder (ftype f) f (item_addr pData (data_size f) size));
        match r with
        | None => mret (false, local)
        | Some _ =>
            size ← clift (read_size ps local);
            local ← clift (write_size ps local (u32 (size + 1)));
            static_packed_loop n f pData ps local
        end
    end
  else mret (true, local).

(** [decode_static_field]; the result is the new [fixed_count_size]. *)
Definition decode_static_field (wire_type : Z) (it : pb_field_iter_t) (local : Z)
    : C pb_istream_t Z :=
  f ← defined (iter_field it);
  let type := ftype f in
  if PB_HTYPE type =? PB_HTYPE_REQUIRED then
    _ ← call_decoder type f (pData it); mret local
  else if PB_HTYPE type =? PB_HTYPE_OPTIONAL then
    local ← (if negb (psize_is_data it) then clift (write_has (pSize it) local 1)
             else mret local : C pb_istream_t Z);
    _ ← call_decoder type f (pData it); mret local
  else if PB_HTYPE type =? PB_HTYPE_REPEATED then
    if (wire_type =? PB_WT_STRING) && (PB_LTYPE type <=? PB_LTYPE_LAST_PACKABLE) then
      (* packed array *)
      substream ← pb_make_string_substream;
      r ← con substream
            (static_packed_loop (Z.to_nat (bytes_left substream)) f (pData it)
                                (pSize it) local);
      res ← defined r.1;
      if negb (bytes_left r.2 =? 0) then PB_RETURN_ERROR "array overflow"
      else
        _ ← pb_close_string_substream r.2;
        if (res.1 : bool) then mret res.2 else cfail
    else
      (* repeated field, one entry *)
      size ← clift (read_size (pSize it) local);
      let pItem := item_addr (pData it) (data_size f) size in
      local ← clift (write_size (pSize it) local (u32 (size + 1)));
      if array_size f <=? size then PB_RETURN_ERROR "array overflow"
      else _ ← call_decoder type f pItem; mret local
  else if PB_HTYPE type =? PB_HTYPE_ONEOF then
    _ ←
      (if PB_LTYPE type =? PB_LTYPE_SUBMESSAGE then
         which ← clift (read_size (pSize it) local);
         if negb (which =? ftag f) then
           _ ← clift (memset0 (pData it) (data_size f));
           clift (set_submessage (pb_field_set_to_default fuel) (ptr f) (pData it))
         else mret tt
       else mret tt : C pb_istream_t unit);
    local ← clift (write_size (pSize it) local (ftag f));
    _ ← call_decoder type f (pData it); mret local
  else PB_RETURN_ERROR "invalid field type".

(** The packed array of a pointer field, on the substream: the status, the
    local, and whether the loop stored its message into the parent stream. *)
Fixpoint pointer_packed_loop (n : nat) (f : pb_field_t) (pData : Z) (ps : psize_t)
    (local allocated_size : Z) : C pb_istream_t (bool * Z * bool) :=
  s ← cget;
  if bytes_left s =? 0 then mret (true, local, false)
  else
    match n with
    | O => cnofuel
    | S n =>
        size ← clift (read_size ps local);
        if size =? PB_SIZE_MAX then mret (false, local, true)
        else
          let grow := allocated_size <? size + 1 in
          (* the guess divides by data_size *)
          if grow && (data_size f =? 0) then cub
          else
            let remain := (bytes_left s - 1) / data_size f + 1 in
            let allocated_size :=
              if grow then
                if remain <? u64 (PB_SIZE_MAX - allocated_size)
                then u64 (allocated_size + remain) else u64 (allocated_size + 1)
              else allocated_size in
            ok ← (if grow then ctry (allocate_field pData (data_size f) allocated_size)
                  else mret (Some tt) : C pb_istream_t (option unit));
            match ok with
            | None => mret (false, local, false)
            | Some _ =>
                base ← clift (load_ptr pData);
                size ← clift (read_size ps local);
                let pItem := item_addr base (data_size f) size in
                if pItem =? 0 then mret (false, local, false)
                else
                  _ ← clift (initialize_pointer_field fuel pItem f);
                  r ← ctry (call_decoder (ftype f) f pItem);
                  match r with
                  | None => mret (false, local, false)
                  | Some _ =>
                      size ← clift (read_size ps local);
                      local ← clift (write_size ps local (u32 (size + 1)));
                      pointer_packed_loop n f pData ps local allocated_size
                  end
            end
    end.

Definition decode_pointer_field (wire_type : Z) (it : pb_field_iter_t) (local : Z)
    : C pb_istream_t Z :=
  f ← defined (iter_field it);
  let type := ftype f in
  let h := PB_HTYPE type in
  let l := PB_LTYPE type in
  if (h =? PB_HTYPE_REQUIRED) || (h =? PB_HTYPE_OPTIONAL) || (h =? PB_HTYPE_ONEOF) then
    _ ←
      (if l =? PB_LTYPE_SUBMESSAGE then
         p ← clift (load_ptr (pData it));
         if negb (p =? 0) then clift (pb_release_single_field fuel it) else mret tt
       else mret tt : C pb_istream_t unit);
    local ← (if h =? PB_HTYPE_ONEOF then clift (write_size (pSize it) local (ftag f))
             else mret local : C pb_istream_t Z);
    if (l =? PB_LTYPE_STRING) || (l =? PB_LTYPE_BYTES) then
      _ ← call_decoder type f (pData it); mret local
    else
      _ ← allocate_field (pData it) (data_size f) 1;
      p ← clift (load_ptr (pData it));
      _ ← clift (initialize_pointer_field fuel p f);
      p ← clift (load_ptr (pData it));
      _ ← call_decoder type f p; mret local
  else if h =? PB_HTYPE_REPEATED then
    if (wire_type =? PB_WT_STRING) && (l <=? PB_LTYPE_LAST_PACKABLE) then
      allocated_size ← clift (read_size (pSize it) local);
      substream ← pb_make_string_substream;
      r ← con substream
            (pointer_packed_loop (Z.to_nat (bytes_left substream)) f (pData it)
                                 (pSize it) local allocated_size);
      res ← defined r.1;
      let '(status, local, too_many) := res in
      _ ← (if (too_many : bool)
           then cmodify (put_errmsg (Some "too many array entries"%string)) else mret tt);
      _ ← pb_close_string_substream r.2;
      if (status : bool) then mret local else cfail
    else
      size ← clift (read_size (pSize it) local);
      if size =? PB_SIZE_MAX then PB_RETURN_ERROR "too many array entries"
      else
        _ ← allocate_field (pData it) (data_size f) (size + 1);
        base ← clift (load_ptr (pData it));
        size ← clift (read_size (pSize it) local);
        let pItem := item_addr base (data_size f) size in
        local ← clift (write_size (pSize it) local (u32 (size + 1)));
        _ ← clift (initialize_pointer_field fuel pItem f);
        _ ← call_decoder type f pItem; mret local
  else PB_RETURN_ERROR "invalid field type".

(** [do { decode(&substream, ...) } while (substream.bytes_left);] on the
    substream. *)
Fixpoint callback_loop (n : nat) (func : Z) (f : pb_field_t) (arg : Z)
    : C pb_istream_t unit :=
  match n with
  | O => cnofuel
  | S n =>
      _ ← user_field_decode func f arg;
      s ← cget;
      if bytes_left s =? 0 then mret tt else callback_loop n func f arg
  end.

Definition decode_callback_field (wire_type : Z) (it : pb_field_iter_t)
    : C pb_istream_t unit :=
  f ← defined (iter_field it);
  func ← (if pData it =? 0 then mret 0
          else clift (load_ptr (pData it + off_callback_funcs)) : C pb_istream_t Z);
  if func =? 0 then pb_skip_field wire_type
  else
    let arg := pData it + off_callback_arg in
    if wire_type =? PB_WT_STRING then
      substream ← pb_make_string_substream;
      r ← con substream (callback_loop fuel func f arg);
      match r.1 with
      | None => PB_RETURN_ERROR "callback failed"
      | Some _ => pb_close_string_substream r.2
      end
    else
      buffer ← read_raw_value wire_type 10;
      let substream :=
        pb_istream_from_buffer (ILocal buffer) (Z.of_nat (length buffer)) in
      r ← con substream (user_field_decode func f arg);
      cres r.1.

(** [decode_field]; the iterator may have moved and comes back with it. *)
Definition decode_field (wire_type : Z) (it : pb_field_iter_t) (local : Z)
    : C pb_istream_t (Z * pb_field_iter_t) :=
  f ← defined (iter_field it);
  it ← (if PB_HTYPE (ftype f) =? PB_HTYPE_ONEOF then pb_release_union_field fuel it
        else mret it : C pb_istream_t pb_field_iter_t);
  f ← defined (iter_field it);
  let a := PB_ATYPE (ftype f) in
  if a =? PB_ATYPE_STATIC then
    local ← decode_static_field wire_type it local; mret (local, it)
  else if a =? PB_ATYPE_POINTER then
    local ← decode_pointer_field wire_type it local; mret (local, it)
  else if a =? PB_ATYPE_CALLBACK then
    _ ← decode_callback_field wire_type it; mret (local, it)
  else PB_RETURN_ERROR "invalid field type".

Definition default_extension_decoder (extension tag wire_type : Z) : C pb_istream_t unit :=
  ty ← clift (load_ptr (extension + off_ext_type));
  arg ← clift (load_ptr (ty + off_exttype_arg));
  fields ← defined (fields_at arg);
  field ← defined (fields !! 0%nat);
  if negb (ftag field =? tag) then mret tt
  else
    it ← clift (iter_from_extension extension);
    _ ← clift (store_u 1 (extension + off_ext_found) 1);
    _ ← decode_field wire_type it 0;
    mret tt.

(** [while (extension != NULL && pos == stream->bytes_left)]. *)
Fixpoint decode_extension_loop (n : nat) (pos_ extension tag wire_type : Z)
    : C pb_istream_t unit :=
  s ← cget;
  if (extension =? 0) || negb (pos_ =? bytes_left s) then mret tt
  else
    match n with
    | O => cnofuel
    | S n =>
        ty ← clift (load_ptr (extension + off_ext_type));
        decode ← clift (load_ptr (ty + off_exttype_decode));
        _ ← (if negb (decode =? 0) then user_ext_decode decode extension tag wire_type
             else default_extension_decoder extension tag wire_type);
        next ← clift (load_ptr (extension + off_ext_next));
        decode_extension_loop n pos_ next tag wire_type
    end.

Definition decode_extension (tag wire_type : Z) (it : pb_field_iter_t)
    : C pb_istream_t unit :=
  extension ← clift (load_ptr (pData it));
  s ← cget;
  decode_extension_loop fuel (bytes_left s) extension tag wire_type.
End Nested.

(** Advance to the extension field, at most one round. *)
Fixpoint find_extension_loop (fuel : nat) (start_pos : nat) (it : pb_field_iter_t)
    : option (bool * pb_field_iter_t) :=
  match fuel with
  | O => None
  | S fuel =>
      f ← iter_field it;
      if PB_LTYPE (ftype f) =? PB_LTYPE_EXTENSION then Some (true, it)
      else
        r ← pb_field_iter_next it;
        if Nat.eqb (pos r.2) start_pos then Some (false, r.2)
        else find_extension_loop fuel start_pos r.2
  end.

Definition find_extension_field (it : pb_field_iter_t) : option (bool * pb_field_iter_t) :=
  find_extension_loop (length (start it)) (pos it) it.

(** ** The main loop *)

(** The local variables of [pb_decode_noinit]. *)
Record noinit_locals := mk_locals {
  l_iter : pb_field_iter_t;
  fields_seen : list Z;
  extension_range_start : Z;
  fixed_count_field : option nat;
  fixed_count_size : Z;
}.

Definition allbits : Z := u32 (Z.lnot 0).

(** [fixed_count_field != NULL && fixed_count_size != fixed_count_field->array_size] *)
Definition fixed_count_incomplete (l : noinit_locals) : option bool :=
  match fixed_count_field l with
  | None => Some false
  | Some p =>
      f ← start (l_iter l) !! p;
      Some (negb (fixed_count_size l =? array_size f))
  end.

(** A repeated field without a count in the structure counts in
    [fixed_count_size]; starting another one requires the last to be full. *)
Definition enter_fixed_count (l : noinit_locals) : C pb_istream_t noinit_locals :=
  let it := l_iter l in
  f ← defined (iter_field it);
  if (PB_HTYPE (ftype f) =? PB_HTYPE_REPEATED) && psize_is_data it then
    l ← (if bool_decide (fixed_count_field l = Some (pos it)) then mret l
         else
           bad ← defined (fixed_count_incomplete l);
           if (bad : bool) then PB_RETURN_ERROR "wrong size for fixed count field"
           else mret (mk_locals it (fields_seen l) (extension_range_start l)
                                (Some (pos it)) 0) : C pb_istream_t noinit_locals);
    mret (mk_locals (set_pSize SLocal it) (fields_seen l) (extension_range_start l)
                    (fixed_count_field l) (fixed_count_size l))
  else mret l.

(** [fields_seen[i >> 5] |= (uint32_t)1 << (i & 31)]. *)
Definition set_seen (seen : list Z) (i : Z) : option (list Z) :=
  let tmp := u32 (Z.shiftl 1 (Z.land i 31)) in
  let w := Z.to_nat (Z.shiftr i 5) in
  old ← seen !! w;
  Some (<[w := Z.lor old tmp]> seen).

(** A required field was found. *)
Definition mark_seen (l : noinit_locals) : C pb_istream_t noinit_locals :=
  f ← defined (iter_field (l_iter l));
  let i := required_field_index (l_iter l) in
  if (PB_HTYPE (ftype f) =? PB_HTYPE_REQUIRED) && (i <? PB_MAX_REQUIRED_FIELDS) then
    seen ← defined (set_seen (fields_seen l) i);
    mret (mk_locals (l_iter l) seen
                    (extension_range_start l) (fixed_count_field l) (fixed_count_size l))
  else mret l.

Section NoInit.
Context `{PbEnv} (fuel : nat).
Context (noinit : list pb_field_t -> Z -> C pb_istream_t unit).

(** A tag without a field: offer it to the extensions, else skip it. *)
Definition decode_unknown (tag wire_type : Z) (l : noinit_locals)
    : C pb_istream_t noinit_locals :=
  r ←
    (if extension_range_start l <=? tag then
       e ← defined (find_extension_field (l_iter l));
       ers ← (if negb (e.1 : bool) then mret (u32 (-1))
              else f ← defined (iter_field e.2); mret (ftag f) : C pb_istream_t Z);
       let l := mk_locals e.2 (fields_seen l) ers (fixed_count_field l)
                          (fixed_count_size l) in
       if ers <=? tag then
         s ← cget;
         _ ← decode_extension fuel noinit tag wire_type e.2;
         s' ← cget;
         mret (l, negb (bytes_left s =? bytes_left s'))
       else mret (l, false)
     else mret (l, false) : C pb_istream_t (noinit_locals * bool));
  if (r.2 : bool) then mret r.1
  else _ ← pb_skip_field wire_type; mret r.1.

(** A tag with a field. *)
Definition decode_known (wire_type : Z) (l : noinit_locals)
    : C pb_istream_t noinit_locals :=
  l ← enter_fixed_count l;
  l ← mark_seen l;
  r ← decode_field fuel noinit wire_type (l_iter l) (fixed_count_size l);
  mret (mk_locals r.2 (fields_seen l) (extension_range_start l)
                  (fixed_count_field l) r.1).

(** [while (stream->bytes_left)]. *)
Fixpoint noinit_loop (n : nat) (l : noinit_locals) : C pb_istream_t noinit_locals :=
  s ← cget;
  if bytes_left s =? 0 then mret l
  else
    match n with
    | O => cnofuel
    | S n =>
        t ← pb_decode_tag;
        if negb (tr_ok t) then (if tr_eof t then mret l else cfail)
        else
          r ← defined (pb_field_iter_find (l_iter l) (tr_tag t));
          let l := mk_locals r.2 (fields_seen l) (extension_range_start l)
                             (fixed_count_field l) (fixed_count_size l) in
          l ← (if (r.1 : bool) then decode_known (tr_wire_type t) l
               else decode_unknown (tr_tag t) (tr_wire_type t) l);
          noinit_loop n l
    end.
End NoInit.

(** [do { req_field_count = ...; last_type = ...; } while (pb_field_iter_next)]:
    the count and type of the last field, and the wrapped iterator. *)
Fixpoint last_field_loop (fuel : nat) (it : pb_field_iter_t)
    : option (Z * Z * pb_field_iter_t) :=
  match fuel with
  | O => None
  | S fuel =>
      f ← iter_field it;
      r ← pb_field_iter_next it;
      if (r.1 : bool) then last_field_loop fuel r.2
      else Some (required_field_index it, ftype f, r.2)
  end.

(** The number of required fields the decoder tracks. *)
Definition tracked_required (it : pb_field_iter_t) : option Z :=
  r ← last_field_loop (length (start it)) it;
  let '(count, last_type, it') := r in
  f ← iter_field it';
  let count := if (PB_HTYPE last_type =? PB_HTYPE_REQUIRED) && negb (ftag f =? 0)
               then count + 1 else count in
  Some (if PB_MAX_REQUIRED_FIELDS <? count then PB_MAX_REQUIRED_FIELDS else count).

(** The whole words, then the remaining bits. *)
Definition required_present (seen : list Z) (req_field_count : Z) : option bool :=
  if 0 <? req_field_count then
    let words := Z.to_nat (Z.shiftr req_field_count 5) in
    if negb (forallb (fun w => w =? allbits) (take words seen)) then Some false
    else if negb (Z.land req_field_count 31 =? 0) then
      w ← seen !! words;
      Some (w =? Z.shiftr allbits (32 - Z.land req_field_count 31))
    else Some true
  else Some true.

Section Decode.
Context `{PbEnv}.

Definition noinit_body (fuel : nat) (noinit : list pb_field_t -> Z -> C pb_istream_t unit)
    (fields : list pb_field_t) (dest : Z) : C pb_istream_t unit :=
  b ← defined (pb_field_iter_begin fields dest);
  s ← cget;
  l ← noinit_loop fuel noinit (Z.to_nat (bytes_left s))
        (mk_locals b.2 [0; 0] 0 None 0);
  bad ← defined (fixed_count_incomplete l);
  if (bad : bool) then PB_RETURN_ERROR "wrong size for fixed count field"
  else
    count ← defined (tracked_required (l_iter l));
    ok ← defined (required_present (fields_seen l) count);
    if (ok : bool) then mret tt else PB_RETURN_ERROR "missing required field".

Fixpoint pb_decode_noinit (fuel : nat) (fields : list pb_field_t) (dest : Z)
    {struct fuel} : C pb_istream_t unit :=
  match fuel with
  | O => cnofuel
  | S fuel => noinit_body fuel (pb_decode_noinit fuel) fields dest
  end.

Definition pb_decode (fuel : nat) (fields : list pb_field_t) (dest : Z)
    : C pb_istream_t unit :=
  _ ← clift (pb_message_set_to_defaults fuel fields dest);
  status ← ctry (pb_decode_noinit fuel fields dest);
  match status with
  | Some _ => mret tt
  | None => _ ← clift (pb_release fuel fields dest); cfail
  end.

Definition pb_decode_delimited_noinit (fuel : nat) (fields : list pb_field_t) (dest : Z)
    : C pb_istream_t unit :=
  substream ← pb_make_string_substream;
  r ← con substream (pb_decode_noinit fuel fields dest);
  _ ← pb_close_string_substream r.2;
  cres r.1.

Definition pb_decode_delimited (fuel : nat) (fields : list pb_field_t) (dest : Z)
    : C pb_istream_t unit :=
  substream ← pb_make_string_substream;
  r ← con substream (pb_decode fuel fields dest);
  _ ← pb_close_string_substream r.2;
  cres r.1.

Definition pb_decode_nullterminated (fuel : nat) (fields : list pb_field_t) (dest : Z)
    : C pb_istream_t unit := pb_decode fuel fields dest.
End Decode.
