(* ===== verification/PbEncode.v ===== *)
(** * pb_encode.c: encoding message structures

    Output streams, the wire-format writers, the field encoders and the
    message loop [pb_encode].  As in the decoder, the functions that recurse
    into submessages take the encoder of the next level as an argument and
    the knot is tied by recursion on fuel. *)

From S2P Require Import Prelude.
From S2P Require Import Memory.
From S2P Require Import PbTypes.
From S2P Require Import PbCommon.

(** ** Output streams *)

Definition set_ostate (st : Z) (s : pb_ostream_t) : pb_ostream_t :=
  mk_ostream (ocallback s) st (max_size s) (bytes_written s) (oerrmsg s).
Definition set_bytes_written (n : Z) (s : pb_ostream_t) : pb_ostream_t :=
  mk_ostream (ocallback s) (ostate s) (max_size s) n (oerrmsg s).

(** The bytes handed to a writer: an array of the stack frame, an address of
    the memory, or NULL (only sizing streams get it). *)
Inductive wbuf := WLocal (bs : list Z) | WMem (a : Z) | WNull.

(** [buf[i]]. *)
Definition wbuf_byte (buf : wbuf) (i : Z) : M Z :=
  match buf with
  | WLocal bs => mdefined (bs !! Z.to_nat i)
  | WMem a => load_u 1 (a + i)
  | WNull => fun _ => Ub
  end.

(** [for (i = 0; i < count; i++) dest[i] = buf[i];] *)
Fixpoint write_loop (n : nat) (i dest : Z) (buf : wbuf) : M unit :=
  match n with
  | O => mret tt
  | S n =>
      b ← wbuf_byte buf i;
      _ ← store_u 1 (dest + i) b;
      write_loop n (i + 1) dest buf
  end.

Definition buf_write (buf : wbuf) (count : Z) : C pb_ostream_t unit :=
  s ← cget;
  let dest := ostate s in
  _ ← cmodify (set_ostate (dest + count));
  clift (write_loop (Z.to_nat count) 0 dest buf).

Definition pb_ostream_from_buffer (buf bufsize : Z) : pb_ostream_t :=
  mk_ostream OCb_buf_write buf bufsize 0 None.

(** The contents of [buf], for a user callback. *)
Fixpoint wbuf_bytes (n : nat) (i : Z) (buf : wbuf) : M (list Z) :=
  match n with
  | O => mret []
  | S n => b ← wbuf_byte buf i; bs ← wbuf_bytes n (i + 1) buf; mret (b :: bs)
  end.

Definition run_ocallback `{PbEnv} (buf : wbuf) (count : Z) : C pb_ostream_t unit :=
  s ← cget;
  match ocallback s with
  | OCb_null => cub
  | OCb_buf_write => buf_write buf count
  | OCb_user f =>
      bs ← clift (wbuf_bytes (Z.to_nat count) 0 buf);
      r ← clift (user_write f s bs);
      _ ← cput r.2;
      if (r.1 : bool) then mret tt else cfail
  end.

Definition is_sizing (s : pb_ostream_t) : bool :=
  match ocallback s with OCb_null => true | _ => false end.

Definition pb_write `{PbEnv} (buf : wbuf) (count : Z) : C pb_ostream_t unit :=
  s ← cget;
  _ ←
    (if (0 <? count) && negb (is_sizing s) then
       if (u64 (bytes_written s + count) <? bytes_written s)
          || (max_size s <? u64 (bytes_written s + count))
       then PB_RETURN_ERROR "stream full"
       else
         r ← ctry (run_ocallback buf count);
         match r with None => PB_RETURN_ERROR "io error" | Some _ => mret tt end
     else mret tt : C pb_ostream_t unit);
  cmodify (fun s => set_bytes_written (u64 (bytes_written s + count)) s).

(** ** Writers of the wire format *)

(** [while (value) { buffer[i] = (value & 0x7F) | 0x80; value >>= 7; i++; }]:
    the filled part of [buffer]. A 64-bit value needs at most ten rounds. *)
Fixpoint varint_buffer (fuel : nat) (value : Z) : list Z :=
  match fuel with
  | O => []
  | S fuel =>
      if value =? 0 then []
      else u8 (Z.lor (Z.land value 0x7F) 0x80) :: varint_buffer fuel (Z.shiftr value 7)
  end.

(** [buffer[i-1] &= 0x7F]. *)
Fixpoint unset_top_bit (buffer : list Z) : list Z :=
  match buffer with
  | [] => []
  | [b] => [Z.land b 0x7F]
  | b :: rest => b :: unset_top_bit rest
  end.

Definition pb_encode_varint `{PbEnv} (value : Z) : C pb_ostream_t unit :=
  if value <=? 0x7F then pb_write (WLocal [u8 value]) 1
  else
    let buffer := unset_top_bit (varint_buffer 10 value) in
    pb_write (WLocal buffer) (Z.of_nat (length buffer)).

Definition pb_encode_svarint `{PbEnv} (value : Z) : C pb_ostream_t unit :=
  let zigzagged :=
    if value <? 0 then u64 (Z.lnot (u64 (Z.shiftl (u64 value) 1)))
    else u64 (Z.shiftl (u64 value) 1) in
  pb_encode_varint zigzagged.

Definition pb_encode_fixed32 `{PbEnv} (value : Z) : C pb_ostream_t unit :=
  val ← clift (load_u 4 value);
  pb_write (WLocal [ Z.land val 0xFF;
                     Z.land (Z.shiftr val 8) 0xFF;
                     Z.land (Z.shiftr val 16) 0xFF;
                     Z.land (Z.shiftr val 24) 0xFF ]) 4.

Definition pb_encode_fixed64 `{PbEnv} (value : Z) : C pb_ostream_t unit :=
  val ← clift (load_u 8 value);
  pb_write (WLocal [ Z.land val 0xFF;
                     Z.land (Z.shiftr val 8) 0xFF;
                     Z.land (Z.shiftr val 16) 0xFF;
                     Z.land (Z.shiftr val 24) 0xFF;
                     Z.land (Z.shiftr val 32) 0xFF;
                     Z.land (Z.shiftr val 40) 0xFF;
                     Z.land (Z.shiftr val 48) 0xFF;
                     Z.land (Z.shiftr val 56) 0xFF ]) 8.

Definition pb_encode_tag `{PbEnv} (wiretype field_number : Z) : C pb_ostream_t unit :=
  pb_encode_varint (Z.lor (u64 (Z.shiftl field_number 3)) wiretype).

Definition pb_encode_tag_for_field `{PbEnv} (f : pb_field_t) : C pb_ostream_t unit :=
  let l := PB_LTYPE (ftype f) in
  if (l =? PB_LTYPE_BOOL) || (l =? PB_LTYPE_VARINT)
     || (l =? PB_LTYPE_UVARINT) || (l =? PB_LTYPE_SVARINT)
  then pb_encode_tag PB_WT_VARINT (ftag f)
  else if l =? PB_LTYPE_FIXED32 then pb_encode_tag PB_WT_32BIT (ftag f)
  else if l =? PB_LTYPE_FIXED64 then pb_encode_tag PB_WT_64BIT (ftag f)
  else if (l =? PB_LTYPE_BYTES) || (l =? PB_LTYPE_STRING)
          || (l =? PB_LTYPE_SUBMESSAGE) || (l =? PB_LTYPE_FIXED_LENGTH_BYTES)
  then pb_encode_tag PB_WT_STRING (ftag f)
  else PB_RETURN_ERROR "invalid field type".

Definition pb_encode_string `{PbEnv} (buffer : wbuf) (size : Z) : C pb_ostream_t unit :=
  _ ← pb_encode_varint size;
  pb_write buffer size.

(** ** Scalar field encoders *)

Definition pb_encoder_t : Type := pb_field_t -> Z -> C pb_ostream_t unit.

(** [sizeof(bool) == 1]. *)
Definition safe_read_bool (pSize : Z) : M bool :=
  b ← load_u 1 pSize; mret (negb (b =? 0)).

Definition pb_enc_bool `{PbEnv} : pb_encoder_t := fun _ src =>
  b ← clift (safe_read_bool src);
  pb_encode_varint (if (b : bool) then 1 else 0).

Definition pb_enc_varint `{PbEnv} : pb_encoder_t := fun f src =>
  if data_size f =? 1 then v ← clift (load_s 1 src); pb_encode_varint (u64 v)
  else if data_size f =? 2 then v ← clift (load_s 2 src); pb_encode_varint (u64 v)
  else if data_size f =? 4 then v ← clift (load_s 4 src); pb_encode_varint (u64 v)
  else if data_size f =? 8 then v ← clift (load_s 8 src); pb_encode_varint (u64 v)
  else PB_RETURN_ERROR "invalid data_size".

Definition pb_enc_uvarint `{PbEnv} : pb_encoder_t := fun f src =>
  if data_size f =? 1 then v ← clift (load_u 1 src); pb_encode_varint v
  else if data_size f =? 2 then v ← clift (load_u 2 src); pb_encode_varint v
  else if data_size f =? 4 then v ← clift (load_u 4 src); pb_encode_varint v
  else if data_size f =? 8 then v ← clift (load_u 8 src); pb_encode_varint v
  else PB_RETURN_ERROR "invalid data_size".

Definition pb_enc_svarint `{PbEnv} : pb_encoder_t := fun f src =>
  if data_size f =? 1 then v ← clift (load_s 1 src); pb_encode_svarint v
  else if data_size f =? 2 then v ← clift (load_s 2 src); pb_encode_svarint v
  else if data_size f =? 4 then v ← clift (load_s 4 src); pb_encode_svarint v
  else if data_size f =? 8 then v ← clift (load_s 8 src); pb_encode_svarint v
  else PB_RETURN_ERROR "invalid data_size".

Definition pb_enc_fixed64 `{PbEnv} : pb_encoder_t := fun _ src => pb_encode_fixed64 src.
Definition pb_enc_fixed32 `{PbEnv} : pb_encoder_t := fun _ src => pb_encode_fixed32 src.

Definition pb_enc_bytes `{PbEnv} : pb_encoder_t := fun f src =>
  if src =? 0 then pb_encode_string WNull 0
  else
    size ← clift (load_u sizeof_pb_size_t src);
    if (PB_ATYPE (ftype f) =? PB_ATYPE_STATIC)
       && (u64 (data_size f - offsetof_bytes) <? size)
    then PB_RETURN_ERROR "bytes size exceeded"
    else pb_encode_string (WMem (src + offsetof_bytes)) size.

(** [while (size < max_size && *p != '\0') { size++; p++; }]; the bound of a
    pointer field is SIZE_MAX, so the loop runs to the terminator and [fuel]
    bounds the length of the string. *)
Fixpoint strnlen_loop (fuel : nat) (p size max_size : Z) : M Z :=
  if size <? max_size then
    b ← load_u 1 p;
    (if b =? 0 then mret size
     else match fuel with
          | O => M_nofuel
          | S fuel => strnlen_loop fuel (p + 1) (size + 1) max_size
          end : M Z)
  else mret size.

Definition pb_enc_string `{PbEnv} (fuel : nat) : pb_encoder_t := fun f src =>
  if src =? 0 then pb_encode_string WNull 0
  else
    let pointer := PB_ATYPE (ftype f) =? PB_ATYPE_POINTER in
    let max_size := if pointer then u64 (-1) else data_size f in
    size ← clift (strnlen_loop (if pointer then fuel else Z.to_nat (data_size f))
                               src 0 max_size);
    pb_encode_string (WMem src) size.

Definition pb_enc_fixed_length_bytes `{PbEnv} : pb_encoder_t := fun f src =>
  pb_encode_string (WMem src) (data_size f).

(** ** The proto3 zero-value test *)

(** The byte-per-byte comparison of the catch-all branch. *)
Fixpoint all_zero_loop (n : nat) (p : Z) : M bool :=
  match n with
  | O => mret true
  | S n => b ← load_u 1 p; if negb (b =? 0) then mret false else all_zero_loop n (p + 1)
  end.

(** [do { if (!check(iter.pos, iter.pData)) return false; } while (next);] *)
Fixpoint all_default_loop (fuel : nat) (check : pb_field_t -> Z -> M bool)
    (it : pb_field_iter_t) : M bool :=
  match fuel with
  | O => M_nofuel
  | S fuel =>
      f ← mdefined (iter_field it);
      ok ← check f (pData it);
      if negb ok then mret false
      else
        r ← mdefined (pb_field_iter_next it);
        if (r.1 : bool) then all_default_loop fuel check r.2 else mret true
  end.

(** The early tests on the repetition rule: [Some r] is [return r]. *)
Definition proto3_rule (f : pb_field_t) (pData : Z) : M (option bool) :=
  let type := ftype f in
  let pSize := pData + size_offset f in
  if PB_HTYPE type =? PB_HTYPE_REQUIRED then mret (Some false)
  else if PB_HTYPE type =? PB_HTYPE_REPEATED then
    if negb (size_offset f =? 0)
    then count ← load_u sizeof_pb_size_t pSize; mret (Some (count =? 0))
    else if PB_ATYPE type =? PB_ATYPE_STATIC then mret (Some false)
    else mret None
  else if PB_HTYPE type =? PB_HTYPE_ONEOF then
    which ← load_u sizeof_pb_size_t pSize; mret (Some (which =? 0))
  else if (PB_HTYPE type =? PB_HTYPE_OPTIONAL) && negb (size_offset f =? 0) then
    has ← safe_read_bool pSize; mret (Some (negb has))
  else mret None.

Fixpoint pb_check_proto3_default_value `{PbEnv} (fuel : nat) (f : pb_field_t) (pData : Z)
    : M bool :=
  match fuel with
  | O => M_nofuel
  | S fuel =>
      let type := ftype f in
      let l := PB_LTYPE type in
      early ← proto3_rule f pData;
      match early with
      | Some r => mret r
      | None =>
          let static := PB_ATYPE type =? PB_ATYPE_STATIC in
          if static && (l =? PB_LTYPE_BYTES) then
            size ← load_u sizeof_pb_size_t pData; mret (size =? 0)
          else if static && (l =? PB_LTYPE_STRING) then
            c ← load_u 1 pData; mret (c =? 0)
          else if static && (l =? PB_LTYPE_FIXED_LENGTH_BYTES) then
            mret (data_size f =? 0)
          else if static && (l =? PB_LTYPE_SUBMESSAGE) then
            fields ← mdefined (fields_at (ptr f));
            r ← mdefined (pb_field_iter_begin fields pData);
            if (r.1 : bool)
            then all_default_loop (length fields) (pb_check_proto3_default_value fuel) r.2
            else mret true
          else if (PB_ATYPE type =? PB_ATYPE_POINTER) && (PB_LTYPE_LAST_PACKABLE <? l) then
            p ← load_ptr pData; mret (p =? 0)
          else all_zero_loop (Z.to_nat (data_size f)) pData
      end
  end.

(** ** Fields that may recurse into submessages

    [encode fields src] is [pb_encode] for the next nesting level. *)

Section Nested.
Context `{PbEnv} (fuel : nat).
Context (encode : list pb_field_t -> Z -> C pb_ostream_t unit).

Definition pb_encode_submessage_with (fields : list pb_field_t) (src : Z)
    : C pb_ostream_t unit :=
  (* first calculate the message size using a non-writing substream *)
  r ← con PB_OSTREAM_SIZING (encode fields src);
  match r with
  | (None, sub) => _ ← cmodify (put_errmsg (oerrmsg sub)); cfail
  | (Some _, sub) =>
      let size := bytes_written sub in
      _ ← pb_encode_varint size;
      s ← cget;
      if is_sizing s then pb_write WNull size
      else if max_size s <? u64 (bytes_written s + size)
      then PB_RETURN_ERROR "stream full"
      else
        (* a substream verifies that a callback doesn't write more than
           what it did the first time *)
        let substream := mk_ostream (ocallback s) (ostate s) size 0 None in
        r ← con substream (encode fields src);
        let sub := r.2 in
        _ ← cmodify (fun s =>
              mk_ostream (ocallback s) (ostate sub) (max_size s)
                         (u64 (bytes_written s + bytes_written sub)) (oerrmsg sub));
        if negb (bytes_written sub =? size)
        then PB_RETURN_ERROR "submsg size changed"
        else cres r.1
  end.

Definition pb_enc_submessage : pb_encoder_t := fun f src =>
  if ptr f =? 0 then PB_RETURN_ERROR "invalid field descriptor"
  else
    fields ← defined (fields_at (ptr f));
    pb_encode_submessage_with fields src.

(** The table, in LTYPE order; the extension slot is NULL. *)
Definition PB_ENCODERS : list (option pb_encoder_t) :=
  [ Some pb_enc_bool; Some pb_enc_varint; Some pb_enc_uvarint; Some pb_enc_svarint;
    Some pb_enc_fixed32; Some pb_enc_fixed64;
    Some pb_enc_bytes; Some (pb_enc_string fuel); Some pb_enc_submessage;
    None; Some pb_enc_fixed_length_bytes ].

Definition call_encoder (type : Z) : pb_encoder_t := fun f src =>
  match PB_ENCODERS !! Z.to_nat (PB_LTYPE type) with
  | Some (Some func) => func f src
  | _ => cub
  end.

(** [for (i = 0; i < count; i++) { each(p); p += data_size; }] *)
Fixpoint array_loop (n : nat) (each : Z -> C pb_ostream_t unit) (p size : Z)
    : C pb_ostream_t unit :=
  match n with
  | O => mret tt
  | S n => _ ← each p; array_loop n each (p + size) size
  end.

Definition encode_array (f : pb_field_t) (pData count : Z) : C pb_ostream_t unit :=
  let func := call_encoder (ftype f) f in
  let l := PB_LTYPE (ftype f) in
  let loop := array_loop (Z.to_nat count) in
  if count =? 0 then mret tt
  else if negb (PB_ATYPE (ftype f) =? PB_ATYPE_POINTER) && (array_size f <? count)
  then PB_RETURN_ERROR "array max size exceeded"
  else if l <=? PB_LTYPE_LAST_PACKABLE then
    _ ← pb_encode_tag PB_WT_STRING (ftag f);
    size ←
      (if l =? PB_LTYPE_FIXED32 then mret (u64 (4 * count))
       else if l =? PB_LTYPE_FIXED64 then mret (u64 (8 * count))
       else
         r ← con PB_OSTREAM_SIZING (loop func pData (data_size f));
         _ ← cres r.1;
         mret (bytes_written r.2) : C pb_ostream_t Z);
    _ ← pb_encode_varint size;
    s ← cget;
    if is_sizing s then pb_write WNull size
    else loop func pData (data_size f)
  else
    loop (fun p =>
      _ ← pb_encode_tag_for_field f;
      if (PB_ATYPE (ftype f) =? PB_ATYPE_POINTER)
         && ((l =? PB_LTYPE_STRING) || (l =? PB_LTYPE_BYTES))
      then q ← clift (load_ptr p); func q
      else func p) pData (data_size f).

(** The has-flag or count of [encode_basic_field]: behind [pSize] when the
    descriptor has an offset, the local [implicit_has] otherwise. *)
Definition encode_basic_field (f : pb_field_t) (pData0 : Z) : C pb_ostream_t unit :=
  let type := ftype f in
  let h := PB_HTYPE type in
  let pSize := pData0 + size_offset f in
  let func := call_encoder type f in
  implicit_has ← clift
    (if negb (size_offset f =? 0) then mret false
     else if h =? PB_HTYPE_OPTIONAL then
       d ← pb_check_proto3_default_value fuel f pData0; mret (negb d)
     else mret true : M bool);
  pd ← clift (if PB_ATYPE type =? PB_ATYPE_POINTER then load_ptr pData0
              else mret pData0 : M Z);
  let implicit_has :=
    if PB_ATYPE type =? PB_ATYPE_POINTER then negb (pd =? 0) else implicit_has in
  if h =? PB_HTYPE_REQUIRED then
    if pd =? 0 then PB_RETURN_ERROR "missing required field"
    else _ ← pb_encode_tag_for_field f; func pd
  else if h =? PB_HTYPE_OPTIONAL then
    has ← clift (if size_offset f =? 0 then mret implicit_has
                 else safe_read_bool pSize : M bool);
    if (has : bool) then _ ← pb_encode_tag_for_field f; func pd else mret tt
  else if h =? PB_HTYPE_REPEATED then
    count ← clift (if negb (size_offset f =? 0) then load_u sizeof_pb_size_t pSize
                   else mret (array_size f) : M Z);
    encode_array f pd count
  else if h =? PB_HTYPE_ONEOF then
    which ← clift (if size_offset f =? 0 then mdefined None
                   else load_u sizeof_pb_size_t pSize : M Z);
    if which =? ftag f then _ ← pb_encode_tag_for_field f; func pd else mret tt
  else PB_RETURN_ERROR "invalid field type".

Definition encode_callback_field (f : pb_field_t) (pData : Z) : C pb_ostream_t unit :=
  encode_fn ← clift (load_ptr (pData + off_callback_funcs));
  if negb (encode_fn =? 0) then
    r ← ctry (user_field_encode encode_fn f (pData + off_callback_arg));
    match r with None => PB_RETURN_ERROR "callback error" | Some _ => mret tt end
  else mret tt.

Definition encode_field (f : pb_field_t) (pData : Z) : C pb_ostream_t unit :=
  let a := PB_ATYPE (ftype f) in
  if (a =? PB_ATYPE_STATIC) || (a =? PB_ATYPE_POINTER) then encode_basic_field f pData
  else if a =? PB_ATYPE_CALLBACK then encode_callback_field f pData
  else PB_RETURN_ERROR "invalid field type".

Definition default_extension_encoder (extension : Z) : C pb_ostream_t unit :=
  ty ← clift (load_ptr (extension + off_ext_type));
  arg ← clift (load_ptr (ty + off_exttype_arg));
  fields ← defined (fields_at arg);
  field ← defined (fields !! 0%nat);
  if PB_ATYPE (ftype field) =? PB_ATYPE_POINTER
  then encode_field field (extension + off_ext_dest)
  else
    dest ← clift (load_ptr (extension + off_ext_dest));
    encode_field field dest.

(** [while (extension) { ...; extension = extension->next; }] *)
Fixpoint encode_extension_loop (n : nat) (extension : Z) : C pb_ostream_t unit :=
  if extension =? 0 then mret tt
  else
    match n with
    | O => cnofuel
    | S n =>
        ty ← clift (load_ptr (extension + off_ext_type));
        enc ← clift (load_ptr (ty + off_exttype_encode));
        _ ← (if negb (enc =? 0) then user_ext_encode enc extension
             else default_extension_encoder extension);
        next ← clift (load_ptr (extension + off_ext_next));
        encode_extension_loop n next
    end.

Definition encode_extension_field (pData : Z) : C pb_ostream_t unit :=
  extension ← clift (load_ptr pData);
  encode_extension_loop fuel extension.

(** [do { ... } while (pb_field_iter_next(&iter));] of [pb_encode]. *)
Fixpoint encode_loop (n : nat) (it : pb_field_iter_t) : C pb_ostream_t unit :=
  match n with
  | O => cnofuel
  | S n =>
      f ← defined (iter_field it);
      _ ← (if PB_LTYPE (ftype f) =? PB_LTYPE_EXTENSION
           then encode_extension_field (pData it)
           else encode_field f (pData it));
      r ← defined (pb_field_iter_next it);
      if (r.1 : bool) then encode_loop n r.2 else mret tt
  end.

Definition encode_body (fields : list pb_field_t) (src : Z) : C pb_ostream_t unit :=
  b ← defined (pb_field_iter_begin fields src);
  if (b.1 : bool) then encode_loop (length fields) b.2 else mret tt.
End Nested.

(** ** Messages *)

Section Encode.
Context `{PbEnv}.

Fixpoint pb_encode (fuel : nat) (fields : list pb_field_t) (src : Z) {struct fuel}
    : C pb_ostream_t unit :=
  match fuel with
  | O => cnofuel
  | S fuel => encode_body fuel (pb_encode fuel) fields src
  end.

Definition pb_encode_submessage (fuel : nat) (fields : list pb_field_t) (src : Z)
    : C pb_ostream_t unit :=
  pb_encode_submessage_with (pb_encode fuel) fields src.

Definition pb_encode_delimited (fuel : nat) (fields : list pb_field_t) (src : Z)
    : C pb_ostream_t unit := pb_encode_submessage fuel fields src.

Definition pb_encode_nullterminated (fuel : nat) (fields : list pb_field_t) (src : Z)
    : C pb_ostream_t unit :=
  _ ← pb_encode fuel fields src;
  pb_write (WLocal [0]) 1.

(** [*size] when the sizing run succeeds. *)
Definition pb_get_encoded_size (fuel : nat) (fields : list pb_field_t) (src : Z)
    : M (option Z) := fun m =>
  match pb_encode fuel fields src PB_OSTREAM_SIZING m with
  | Ret (Some _, s) m => Ret (Some (bytes_written s)) m
  | Ret (None, _) m => Ret None m
  | Ub => Ub
  | NoFuel => NoFuel
  end.
End Encode.
