(* ===== verification/PbFields.v ===== *)
(** * The field-description macros of pb.h and C structure layout

    The generated files describe a structure with [PB_FIELD] lines; the
    macros compute offsets and sizes with [offsetof] and [sizeof].  Here a C
    structure type is a list of named members, laid out with the natural
    alignment of the build targets, and the macros are functions of it. *)

From S2P Require Import Prelude.
From S2P Require Import Memory.
From S2P Require Import PbTypes.

(** ** C types *)

Inductive ctype :=
| TInt (bytes : Z)                        (* bool, intN_t, enums *)
| TPtr (pointee : ctype)
| TStruct (members : list (string * ctype))
| TUnion (members : list (string * ctype))
| TArray (elem : ctype) (count : Z).

Definition round_up (n a : Z) : Z := (n + a - 1) / a * a.

Fixpoint alignof (t : ctype) : Z :=
  match t with
  | TInt n => n
  | TPtr _ => Z.of_nat sizeof_ptr
  | TStruct ms => foldr (fun m a => Z.max (alignof m.2) a) 1 ms
  | TUnion ms => foldr (fun m a => Z.max (alignof m.2) a) 1 ms
  | TArray t _ => alignof t
  end.

Fixpoint sizeof (t : ctype) : Z :=
  match t with
  | TInt n => n
  | TPtr _ => Z.of_nat sizeof_ptr
  | TStruct ms =>
      round_up
        ((fix go (off : Z) (ms : list (string * ctype)) : Z :=
            match ms with
            | [] => off
            | m :: ms => go (round_up off (alignof m.2) + sizeof m.2) ms
            end) 0 ms)
        (foldr (fun m a => Z.max (alignof m.2) a) 1 ms)
  | TUnion ms =>
      round_up (foldr (fun m a => Z.max (sizeof m.2) a) 0 ms)
        (foldr (fun m a => Z.max (alignof m.2) a) 1 ms)
  | TArray t n => sizeof t * n
  end.

(** The type of [u.m]; the members of an anonymous union, whose name is
    empty, are named without a prefix. *)
Definition union_member (u : string) (t : ctype) (m : string) : option ctype :=
  match t with
  | TUnion ms =>
      let full x := if bool_decide (u = EmptyString) then x
                    else String.append u (String.append "." x) in
      match list_find (fun p => full p.1 = m) ms with
      | Some (_, p) => Some p.2
      | None => None
      end
  | _ => None
  end.

(** The offset and type of a member, scanning from [off]. *)
Fixpoint member_from (off : Z) (ms : list (string * ctype)) (m : string)
    : option (Z * ctype) :=
  match ms with
  | [] => None
  | (x, t) :: ms =>
      let o := round_up off (alignof t) in
      if bool_decide (x = m) then Some (o, t)
      else
        match union_member x t m with
        | Some t' => Some (o, t')
        | None => member_from (o + sizeof t) ms m
        end
  end.

Definition member (st : ctype) (m : string) : option (Z * ctype) :=
  match st with TStruct ms => member_from 0 ms m | _ => None end.

Definition offsetof (st : ctype) (m : string) : Z :=
  match member st m with Some (o, _) => o | None => 0 end.

Definition pb_membersize (st : ctype) (m : string) : Z :=
  match member st m with Some (_, t) => sizeof t | None => 0 end.

(** [pb_membersize(st, m[0])]: the size of what an array holds or a pointer
    points to. *)
Definition pb_membersize0 (st : ctype) (m : string) : Z :=
  match member st m with
  | Some (_, TPtr t) => sizeof t
  | Some (_, TArray t _) => sizeof t
  | _ => 0
  end.

Definition pb_arraysize (st : ctype) (m : string) : Z :=
  pb_membersize st m / pb_membersize0 st m.

Definition pb_delta (st : ctype) (m1 m2 : string) : Z :=
  s32 (offsetof st m1) - s32 (offsetof st m2).

(** ** Data offsets *)

Inductive placement := FIRST | OTHER | UNION | CHOOSE.

(** Computed in [size_t]; [CHOOSE] casts to [int]. *)
Definition PB_DATAOFFSET (p : placement) (st : ctype) (m1 m2 : string) : Z :=
  let other := u64 (offsetof st m1 - offsetof st m2 - pb_membersize st m2) in
  match p with
  | FIRST => offsetof st m1
  | OTHER => other
  | UNION => PB_SIZE_MAX
  | CHOOSE => s32 (if offsetof st m1 =? offsetof st m2 then offsetof st m1 else other)
  end.

(** ** Field rules, allocation and types *)

Inductive rules := REQUIRED | OPTIONAL | SINGULAR | REPEATED | OPTEXT.
Inductive allocation := STATIC | POINTER | CALLBACK.

Inductive proto_type :=
| BOOL | BYTES | DOUBLE | ENUM | UENUM | FIXED32 | FIXED64 | FLOAT | INT32 | INT64
| MESSAGE | SFIXED32 | SFIXED64 | SINT32 | SINT64 | STRING | UINT32 | UINT64
| EXTENSION | FIXED_LENGTH_BYTES.

Definition PB_LTYPE_MAP (t : proto_type) : Z :=
  match t with
  | BOOL => PB_LTYPE_BOOL
  | BYTES => PB_LTYPE_BYTES
  | DOUBLE => PB_LTYPE_FIXED64
  | ENUM => PB_LTYPE_VARINT
  | UENUM => PB_LTYPE_UVARINT
  | FIXED32 => PB_LTYPE_FIXED32
  | FIXED64 => PB_LTYPE_FIXED64
  | FLOAT => PB_LTYPE_FIXED32
  | INT32 => PB_LTYPE_VARINT
  | INT64 => PB_LTYPE_VARINT
  | MESSAGE => PB_LTYPE_SUBMESSAGE
  | SFIXED32 => PB_LTYPE_FIXED32
  | SFIXED64 => PB_LTYPE_FIXED64
  | SINT32 => PB_LTYPE_SVARINT
  | SINT64 => PB_LTYPE_SVARINT
  | STRING => PB_LTYPE_STRING
  | UINT32 => PB_LTYPE_UVARINT
  | UINT64 => PB_LTYPE_UVARINT
  | EXTENSION => PB_LTYPE_EXTENSION
  | FIXED_LENGTH_BYTES => PB_LTYPE_FIXED_LENGTH_BYTES
  end.

(** [PB_ATYPE_x | PB_HTYPE_y | ltype]; the initializer converts the offsets to
    [pb_size_t]. *)
Definition field_type (a h l : Z) : Z := Z.lor (Z.lor a h) l.

Definition PB_REQUIRED_STATIC (tag : Z) (st : ctype) (m : string) (fd ltype ptr : Z) :=
  mk_pb_field tag (field_type PB_ATYPE_STATIC PB_HTYPE_REQUIRED ltype)
    (u32 fd) 0 (pb_membersize st m) 0 ptr.

Definition PB_OPTIONAL_STATIC (tag : Z) (st : ctype) (m : string) (fd ltype ptr : Z) :=
  mk_pb_field tag (field_type PB_ATYPE_STATIC PB_HTYPE_OPTIONAL ltype)
    (u32 fd) (pb_delta st (String.append "has_" m) m) (pb_membersize st m) 0 ptr.

Definition PB_SINGULAR_STATIC (tag : Z) (st : ctype) (m : string) (fd ltype ptr : Z) :=
  mk_pb_field tag (field_type PB_ATYPE_STATIC PB_HTYPE_OPTIONAL ltype)
    (u32 fd) 0 (pb_membersize st m) 0 ptr.

Definition PB_REPEATED_STATIC (tag : Z) (st : ctype) (m : string) (fd ltype ptr : Z) :=
  mk_pb_field tag (field_type PB_ATYPE_STATIC PB_HTYPE_REPEATED ltype)
    (u32 fd) (pb_delta st (String.append m "_count") m)
    (pb_membersize0 st m) (pb_arraysize st m) ptr.

Definition PB_REQUIRED_POINTER (tag : Z) (st : ctype) (m : string) (fd ltype ptr : Z) :=
  mk_pb_field tag (field_type PB_ATYPE_POINTER PB_HTYPE_REQUIRED ltype)
    (u32 fd) 0 (pb_membersize0 st m) 0 ptr.

Definition PB_OPTIONAL_POINTER (tag : Z) (st : ctype) (m : string) (fd ltype ptr : Z) :=
  mk_pb_field tag (field_type PB_ATYPE_POINTER PB_HTYPE_OPTIONAL ltype)
    (u32 fd) 0 (pb_membersize0 st m) 0 ptr.

Definition PB_SINGULAR_POINTER (tag : Z) (st : ctype) (m : string) (fd ltype ptr : Z) :=
  mk_pb_field tag (field_type PB_ATYPE_POINTER PB_HTYPE_OPTIONAL ltype)
    (u32 fd) 0 (pb_membersize0 st m) 0 ptr.

Definition PB_REPEATED_POINTER (tag : Z) (st : ctype) (m : string) (fd ltype ptr : Z) :=
  mk_pb_field tag (field_type PB_ATYPE_POINTER PB_HTYPE_REPEATED ltype)
    (u32 fd) (pb_delta st (String.append m "_count") m) (pb_membersize0 st m) 0 ptr.

Definition PB_REQUIRED_CALLBACK (tag : Z) (st : ctype) (m : string) (fd ltype ptr : Z) :=
  mk_pb_field tag (field_type PB_ATYPE_CALLBACK PB_HTYPE_REQUIRED ltype)
    (u32 fd) 0 (pb_membersize st m) 0 ptr.

Definition PB_OPTIONAL_CALLBACK (tag : Z) (st : ctype) (m : string) (fd ltype ptr : Z) :=
  mk_pb_field tag (field_type PB_ATYPE_CALLBACK PB_HTYPE_OPTIONAL ltype)
    (u32 fd) 0 (pb_membersize st m) 0 ptr.

Definition PB_SINGULAR_CALLBACK (tag : Z) (st : ctype) (m : string) (fd ltype ptr : Z) :=
  mk_pb_field tag (field_type PB_ATYPE_CALLBACK PB_HTYPE_OPTIONAL ltype)
    (u32 fd) 0 (pb_membersize st m) 0 ptr.

Definition PB_REPEATED_CALLBACK (tag : Z) (st : ctype) (m : string) (fd ltype ptr : Z) :=
  mk_pb_field tag (field_type PB_ATYPE_CALLBACK PB_HTYPE_REPEATED ltype)
    (u32 fd) 0 (pb_membersize st m) 0 ptr.

(** Extensions: no offset, and REQUIRED when static. *)
Definition PB_OPTEXT_STATIC (tag : Z) (st : ctype) (m : string) (fd ltype ptr : Z) :=
  mk_pb_field tag (field_type PB_ATYPE_STATIC PB_HTYPE_REQUIRED ltype)
    0 0 (pb_membersize st m) 0 ptr.

Definition PB_OPTEXT_POINTER (tag : Z) (st : ctype) (m : string) (fd ltype ptr : Z) :=
  PB_OPTIONAL_POINTER tag st m fd ltype ptr.

Definition PB_OPTEXT_CALLBACK (tag : Z) (st : ctype) (m : string) (fd ltype ptr : Z) :=
  PB_OPTIONAL_CALLBACK tag st m fd ltype ptr.

(** [PB_FIELD]: token pasting selects one of the macros above. *)
Definition PB_FIELD (tag : Z) (type : proto_type) (r : rules) (a : allocation)
    (p : placement) (message : ctype) (field prevfield : string) (ptr : Z) : pb_field_t :=
  let mk :=
    match r, a with
    | REQUIRED, STATIC => PB_REQUIRED_STATIC
    | OPTIONAL, STATIC => PB_OPTIONAL_STATIC
    | SINGULAR, STATIC => PB_SINGULAR_STATIC
    | REPEATED, STATIC => PB_REPEATED_STATIC
    | REQUIRED, POINTER => PB_REQUIRED_POINTER
    | OPTIONAL, POINTER => PB_OPTIONAL_POINTER
    | SINGULAR, POINTER => PB_SINGULAR_POINTER
    | REPEATED, POINTER => PB_REPEATED_POINTER
    | REQUIRED, CALLBACK => PB_REQUIRED_CALLBACK
    | OPTIONAL, CALLBACK => PB_OPTIONAL_CALLBACK
    | SINGULAR, CALLBACK => PB_SINGULAR_CALLBACK
    | REPEATED, CALLBACK => PB_REPEATED_CALLBACK
    | OPTEXT, STATIC => PB_OPTEXT_STATIC
    | OPTEXT, POINTER => PB_OPTEXT_POINTER
    | OPTEXT, CALLBACK => PB_OPTEXT_CALLBACK
    end in
  mk tag message field (PB_DATAOFFSET p message field prevfield) (PB_LTYPE_MAP type) ptr.

(** [PB_REPEATED_FIXED_COUNT]: no count member in the structure. *)
Definition PB_REPEATED_FIXED_COUNT (tag : Z) (type : proto_type) (p : placement)
    (message : ctype) (field prevfield : string) (ptr : Z) : pb_field_t :=
  mk_pb_field tag
    (field_type PB_ATYPE_STATIC PB_HTYPE_REPEATED (PB_LTYPE_MAP type))
    (u32 (PB_DATAOFFSET p message field prevfield)) 0
    (pb_membersize0 message field) (pb_arraysize message field) ptr.

(** ** Members of a oneof

    [m] is the member's name as seen from the structure: [u.m], or just [m]
    in an anonymous union.  There is no CALLBACK variant. *)

Definition oneof_static (u : string) (tag : Z) (st : ctype) (m : string) (fd ltype ptr : Z) :=
  mk_pb_field tag (field_type PB_ATYPE_STATIC PB_HTYPE_ONEOF ltype)
    (u32 fd) (pb_delta st (String.append "which_" u) m) (pb_membersize st m) 0 ptr.

Definition oneof_pointer (u : string) (tag : Z) (st : ctype) (m : string) (fd ltype ptr : Z) :=
  mk_pb_field tag (field_type PB_ATYPE_POINTER PB_HTYPE_ONEOF ltype)
    (u32 fd) (pb_delta st (String.append "which_" u) m) (pb_membersize0 st m) 0 ptr.

Definition in_union (u m : string) : string := String.append u (String.append "." m).

Definition PB_ONEOF_STATIC (u : string) (tag : Z) (st : ctype) (m : string) (fd ltype ptr : Z) :=
  oneof_static u tag st (in_union u m) fd ltype ptr.

Definition PB_ONEOF_POINTER (u : string) (tag : Z) (st : ctype) (m : string) (fd ltype ptr : Z) :=
  oneof_pointer u tag st (in_union u m) fd ltype ptr.

Definition PB_ANONYMOUS_ONEOF_STATIC (u : string) (tag : Z) (st : ctype) (m : string)
    (fd ltype ptr : Z) := oneof_static u tag st m fd ltype ptr.

Definition PB_ANONYMOUS_ONEOF_POINTER (u : string) (tag : Z) (st : ctype) (m : string)
    (fd ltype ptr : Z) := oneof_pointer u tag st m fd ltype ptr.

Definition PB_ONEOF_FIELD (u : string) (tag : Z) (type : proto_type) (a : allocation)
    (p : placement) (message : ctype) (field prevfield : string) (ptr : Z)
    : option pb_field_t :=
  let fd := PB_DATAOFFSET p message (in_union u field) prevfield in
  match a with
  | STATIC => Some (PB_ONEOF_STATIC u tag message field fd (PB_LTYPE_MAP type) ptr)
  | POINTER => Some (PB_ONEOF_POINTER u tag message field fd (PB_LTYPE_MAP type) ptr)
  | CALLBACK => None
  end.

Definition PB_ANONYMOUS_ONEOF_FIELD (u : string) (tag : Z) (type : proto_type) (a : allocation)
    (p : placement) (message : ctype) (field prevfield : string) (ptr : Z)
    : option pb_field_t :=
  let fd := PB_DATAOFFSET p message field prevfield in
  match a with
  | STATIC => Some (PB_ANONYMOUS_ONEOF_STATIC u tag message field fd (PB_LTYPE_MAP type) ptr)
  | POINTER => Some (PB_ANONYMOUS_ONEOF_POINTER u tag message field fd (PB_LTYPE_MAP type) ptr)
  | CALLBACK => None
  end.
