(* ===== verification/Cct.v ===== *)
(** * cct.nanopb.h and cct.nanopb.c: the messages of Google Data Transport

    The structures the telemetry upload encodes and decodes, with their field
    tables written with the macros of pb.h.  The addresses of the constant
    tables and default values are chosen by the linker: [addr]. *)

From S2P Require Import Prelude.
From S2P Require Import Memory.
From S2P Require Import PbTypes.
From S2P Require Import PbFields.
#[local] Open Scope string_scope.

(** ** Enumerations *)

Definition gdt_cct_NetworkConnectionInfo_NetworkType : list (string * Z) :=
  [ ("NONE", -1); ("MOBILE", 0); ("WIFI", 1); ("MOBILE_MMS", 2); ("MOBILE_SUPL", 3);
    ("MOBILE_DUN", 4); ("MOBILE_HIPRI", 5); ("WIMAX", 6); ("BLUETOOTH", 7); ("DUMMY", 8);
    ("ETHERNET", 9); ("MOBILE_FOTA", 10); ("MOBILE_IMS", 11); ("MOBILE_CBS", 12);
    ("WIFI_P2P", 13); ("MOBILE_IA", 14); ("MOBILE_EMERGENCY", 15); ("PROXY", 16);
    ("VPN", 17) ].

Definition gdt_cct_NetworkConnectionInfo_MobileSubtype : list (string * Z) :=
  [ ("UNKNOWN_MOBILE_SUBTYPE", 0); ("GPRS", 1); ("EDGE", 2); ("UMTS", 3); ("CDMA", 4);
    ("EVDO_0", 5); ("EVDO_A", 6); ("RTT", 7); ("HSDPA", 8); ("HSUPA", 9); ("HSPA", 10);
    ("IDEN", 11); ("EVDO_B", 12); ("LTE", 13); ("EHRPD", 14); ("HSPAP", 15); ("GSM", 16);
    ("TD_SCDMA", 17); ("IWLAN", 18); ("LTE_CA", 19); ("COMBINED", 100) ].

Definition gdt_cct_ClientInfo_ClientType : list (string * Z) :=
  [ ("CLIENT_UNKNOWN", 0); ("IOS_FIREBASE", 15) ].

Definition gdt_cct_QosTierConfiguration_QosTier : list (string * Z) :=
  [ ("DEFAULT", 0); ("UNMETERED_ONLY", 1); ("UNMETERED_OR_DAILY", 2);
    ("FAST_IF_RADIO_AWAKE", 3); ("NEVER", 4) ].

(** The value of an enumerator. *)
Definition enum_value (e : list (string * Z)) (name : string) : Z :=
  match list_find (fun p => p.1 = name) e with Some (_, p) => p.2 | None => 0 end.

(** ** Structures *)

Definition c_bool : ctype := TInt 1.
Definition c_int32 : ctype := TInt 4.
Definition c_int64 : ctype := TInt 8.
Definition c_enum : ctype := TInt 4.
Definition c_pb_size_t : ctype := TInt 4.

(** [struct pb_bytes_array_s], with its one-byte array. *)
Definition pb_bytes_array_t : ctype :=
  TStruct [("size", c_pb_size_t); ("bytes", TArray (TInt 1) 1)].

Definition gdt_cct_NetworkConnectionInfo : ctype :=
  TStruct [ ("has_network_type", c_bool); ("network_type", c_enum);
            ("has_mobile_subtype", c_bool); ("mobile_subtype", c_enum) ].

Definition gdt_cct_IosClientInfo : ctype :=
  TStruct [ ("os_major_version", TPtr pb_bytes_array_t);
            ("os_full_version", TPtr pb_bytes_array_t);
            ("application_build", TPtr pb_bytes_array_t);
            ("country", TPtr pb_bytes_array_t);
            ("model", TPtr pb_bytes_array_t);
            ("language_code", TPtr pb_bytes_array_t);
            ("application_bundle_id", TPtr pb_bytes_array_t) ].

Definition gdt_cct_ClientInfo : ctype :=
  TStruct [ ("has_client_type", c_bool); ("client_type", c_enum);
            ("has_ios_client_info", c_bool); ("ios_client_info", gdt_cct_IosClientInfo) ].

Definition gdt_cct_QosTierConfiguration : ctype :=
  TStruct [ ("has_qos_tier", c_bool); ("qos_tier", c_enum);
            ("has_log_source", c_bool); ("log_source", c_int32) ].

Definition gdt_cct_QosTiersOverride : ctype :=
  TStruct [ ("qos_tier_configuration_count", c_pb_size_t);
            ("qos_tier_configuration", TPtr gdt_cct_QosTierConfiguration);
            ("has_qos_tier_fingerprint", c_bool); ("qos_tier_fingerprint", c_int64) ].

Definition gdt_cct_LogEvent : ctype :=
  TStruct [ ("has_event_time_ms", c_bool); ("event_time_ms", c_int64);
            ("source_extension", TPtr pb_bytes_array_t);
            ("has_event_code", c_bool); ("event_code", c_int32);
            ("has_timezone_offset_seconds", c_bool); ("timezone_offset_seconds", c_int64);
            ("has_event_uptime_ms", c_bool); ("event_uptime_ms", c_int64);
            ("has_network_connection_info", c_bool);
            ("network_connection_info", gdt_cct_NetworkConnectionInfo) ].

Definition gdt_cct_LogRequest : ctype :=
  TStruct [ ("has_client_info", c_bool); ("client_info", gdt_cct_ClientInfo);
            ("has_log_source", c_bool); ("log_source", c_int32);
            ("log_event_count", c_pb_size_t); ("log_event", TPtr gdt_cct_LogEvent);
            ("has_request_time_ms", c_bool); ("request_time_ms", c_int64);
            ("has_request_uptime_ms", c_bool); ("request_uptime_ms", c_int64);
            ("has_qos_tier", c_bool); ("qos_tier", c_enum) ].

Definition gdt_cct_BatchedLogRequest : ctype :=
  TStruct [ ("log_request_count", c_pb_size_t); ("log_request", TPtr gdt_cct_LogRequest) ].

Definition gdt_cct_LogResponse : ctype :=
  TStruct [ ("has_next_request_wait_millis", c_bool); ("next_request_wait_millis", c_int64);
            ("has_qos_tier", c_bool); ("qos_tier", gdt_cct_QosTiersOverride) ].

(** ** Constants *)

(** The symbols of cct.nanopb.c. *)
Inductive cct_symbol :=
| network_type_default | mobile_subtype_default | qos_tier_default | log_source_default
| LogEvent_fields | NetworkConnectionInfo_fields | IosClientInfo_fields
| ClientInfo_fields | BatchedLogRequest_fields | LogRequest_fields
| QosTierConfiguration_fields | QosTiersOverride_fields | LogResponse_fields.

#[export] Instance cct_symbol_eq_dec : EqDecision cct_symbol.
Proof. solve_decision. Defined.

(** The bytes of the four default values (all four-byte integers). *)
Definition cct_default (s : cct_symbol) : option Z :=
  match s with
  | network_type_default =>
      Some (enum_value gdt_cct_NetworkConnectionInfo_NetworkType "NONE")
  | mobile_subtype_default =>
      Some (enum_value gdt_cct_NetworkConnectionInfo_MobileSubtype "UNKNOWN_MOBILE_SUBTYPE")
  | qos_tier_default => Some (enum_value gdt_cct_QosTierConfiguration_QosTier "DEFAULT")
  | log_source_default => Some 0
  | _ => None
  end.

Section Tables.
Context (addr : cct_symbol -> Z).

Definition gdt_cct_LogEvent_fields : list pb_field_t :=
  let T := gdt_cct_LogEvent in
  [ PB_FIELD 1 INT64 OPTIONAL STATIC FIRST T "event_time_ms" "event_time_ms" 0;
    PB_FIELD 6 BYTES OPTIONAL POINTER OTHER T "source_extension" "event_time_ms" 0;
    PB_FIELD 11 INT32 OPTIONAL STATIC OTHER T "event_code" "source_extension" 0;
    PB_FIELD 15 SINT64 OPTIONAL STATIC OTHER T "timezone_offset_seconds" "event_code" 0;
    PB_FIELD 17 INT64 OPTIONAL STATIC OTHER T "event_uptime_ms" "timezone_offset_seconds" 0;
    PB_FIELD 23 MESSAGE OPTIONAL STATIC OTHER T "network_connection_info" "event_uptime_ms"
      (addr NetworkConnectionInfo_fields);
    PB_LAST_FIELD ].

Definition gdt_cct_NetworkConnectionInfo_fields : list pb_field_t :=
  let T := gdt_cct_NetworkConnectionInfo in
  [ PB_FIELD 1 ENUM OPTIONAL STATIC FIRST T "network_type" "network_type"
      (addr network_type_default);
    PB_FIELD 2 UENUM OPTIONAL STATIC OTHER T "mobile_subtype" "network_type"
      (addr mobile_subtype_default);
    PB_LAST_FIELD ].

Definition gdt_cct_IosClientInfo_fields : list pb_field_t :=
  let T := gdt_cct_IosClientInfo in
  [ PB_FIELD 3 BYTES OPTIONAL POINTER FIRST T "os_major_version" "os_major_version" 0;
    PB_FIELD 4 BYTES OPTIONAL POINTER OTHER T "os_full_version" "os_major_version" 0;
    PB_FIELD 5 BYTES OPTIONAL POINTER OTHER T "application_build" "os_full_version" 0;
    PB_FIELD 6 BYTES OPTIONAL POINTER OTHER T "country" "application_build" 0;
    PB_FIELD 7 BYTES OPTIONAL POINTER OTHER T "model" "country" 0;
    PB_FIELD 8 BYTES OPTIONAL POINTER OTHER T "language_code" "model" 0;
    PB_FIELD 11 BYTES OPTIONAL POINTER OTHER T "application_bundle_id" "language_code" 0;
    PB_LAST_FIELD ].

Definition gdt_cct_ClientInfo_fields : list pb_field_t :=
  let T := gdt_cct_ClientInfo in
  [ PB_FIELD 1 UENUM OPTIONAL STATIC FIRST T "client_type" "client_type" 0;
    PB_FIELD 4 MESSAGE OPTIONAL STATIC OTHER T "ios_client_info" "client_type"
      (addr IosClientInfo_fields);
    PB_LAST_FIELD ].

Definition gdt_cct_BatchedLogRequest_fields : list pb_field_t :=
  let T := gdt_cct_BatchedLogRequest in
  [ PB_FIELD 1 MESSAGE REPEATED POINTER FIRST T "log_request" "log_request"
      (addr LogRequest_fields);
    PB_LAST_FIELD ].

Definition gdt_cct_LogRequest_fields : list pb_field_t :=
  let T := gdt_cct_LogRequest in
  [ PB_FIELD 1 MESSAGE OPTIONAL STATIC FIRST T "client_info" "client_info"
      (addr ClientInfo_fields);
    PB_FIELD 2 INT32 OPTIONAL STATIC OTHER T "log_source" "client_info" 0;
    PB_FIELD 3 MESSAGE REPEATED POINTER OTHER T "log_event" "log_source"
      (addr LogEvent_fields);
    PB_FIELD 4 INT64 OPTIONAL STATIC OTHER T "request_time_ms" "log_event" 0;
    PB_FIELD 8 INT64 OPTIONAL STATIC OTHER T "request_uptime_ms" "request_time_ms" 0;
    PB_FIELD 9 UENUM OPTIONAL STATIC OTHER T "qos_tier" "request_uptime_ms"
      (addr qos_tier_default);
    PB_LAST_FIELD ].

Definition gdt_cct_QosTierConfiguration_fields : list pb_field_t :=
  let T := gdt_cct_QosTierConfiguration in
  [ PB_FIELD 2 UENUM OPTIONAL STATIC FIRST T "qos_tier" "qos_tier" 0;
    PB_FIELD 3 INT32 OPTIONAL STATIC OTHER T "log_source" "qos_tier"
      (addr log_source_default);
    PB_LAST_FIELD ].

Definition gdt_cct_QosTiersOverride_fields : list pb_field_t :=
  let T := gdt_cct_QosTiersOverride in
  [ PB_FIELD 1 MESSAGE REPEATED POINTER FIRST T "qos_tier_configuration"
      "qos_tier_configuration" (addr QosTierConfiguration_fields);
    PB_FIELD 2 INT64 OPTIONAL STATIC OTHER T "qos_tier_fingerprint"
      "qos_tier_configuration" 0;
    PB_LAST_FIELD ].

Definition gdt_cct_LogResponse_fields : list pb_field_t :=
  let T := gdt_cct_LogResponse in
  [ PB_FIELD 1 INT64 OPTIONAL STATIC FIRST T "next_request_wait_millis"
      "next_request_wait_millis" 0;
    PB_FIELD 3 MESSAGE OPTIONAL STATIC OTHER T "qos_tier" "next_request_wait_millis"
      (addr QosTiersOverride_fields);
    PB_LAST_FIELD ].

(** The table behind a symbol. *)
Definition cct_table (s : cct_symbol) : option (list pb_field_t) :=
  match s with
  | LogEvent_fields => Some gdt_cct_LogEvent_fields
  | NetworkConnectionInfo_fields => Some gdt_cct_NetworkConnectionInfo_fields
  | IosClientInfo_fields => Some gdt_cct_IosClientInfo_fields
  | ClientInfo_fields => Some gdt_cct_ClientInfo_fields
  | BatchedLogRequest_fields => Some gdt_cct_BatchedLogRequest_fields
  | LogRequest_fields => Some gdt_cct_LogRequest_fields
  | QosTierConfiguration_fields => Some gdt_cct_QosTierConfiguration_fields
  | QosTiersOverride_fields => Some gdt_cct_QosTiersOverride_fields
  | LogResponse_fields => Some gdt_cct_LogResponse_fields
  | _ => None
  end.
End Tables.

(** The tag constants of the header, by message and field name. *)
Definition cct_tags (s : cct_symbol) : list (string * Z) :=
  match s with
  | BatchedLogRequest_fields =>
      [ ("log_request", 1) ]
  | IosClientInfo_fields =>
      [ ("os_major_version", 3); ("os_full_version", 4); ("application_build", 5);
        ("country", 6); ("model", 7); ("language_code", 8);
        ("application_bundle_id", 11) ]
  | ClientInfo_fields =>
      [ ("client_type", 1); ("ios_client_info", 4) ]
  | NetworkConnectionInfo_fields =>
      [ ("network_type", 1); ("mobile_subtype", 2) ]
  | QosTierConfiguration_fields =>
      [ ("qos_tier", 2); ("log_source", 3) ]
  | QosTiersOverride_fields =>
      [ ("qos_tier_configuration", 1); ("qos_tier_fingerprint", 2) ]
  | LogEvent_fields =>
      [ ("event_time_ms", 1); ("event_code", 11); ("event_uptime_ms", 17);
        ("source_extension", 6); ("timezone_offset_seconds", 15);
        ("network_connection_info", 23) ]
  | LogRequest_fields =>
      [ ("request_time_ms", 4); ("request_uptime_ms", 8); ("client_info", 1);
        ("log_source", 2); ("log_event", 3); ("qos_tier", 9) ]
  | LogResponse_fields =>
      [ ("next_request_wait_millis", 1); ("qos_tier", 3) ]
  | _ => []
  end.

(** The structure behind a symbol. *)
Definition cct_struct (s : cct_symbol) : option ctype :=
  match s with
  | LogEvent_fields => Some gdt_cct_LogEvent
  | NetworkConnectionInfo_fields => Some gdt_cct_NetworkConnectionInfo
  | IosClientInfo_fields => Some gdt_cct_IosClientInfo
  | ClientInfo_fields => Some gdt_cct_ClientInfo
  | BatchedLogRequest_fields => Some gdt_cct_BatchedLogRequest
  | LogRequest_fields => Some gdt_cct_LogRequest
  | QosTierConfiguration_fields => Some gdt_cct_QosTierConfiguration
  | QosTiersOverride_fields => Some gdt_cct_QosTiersOverride
  | LogResponse_fields => Some gdt_cct_LogResponse
  | _ => None
  end.

(** ** Initializers *)

(** The [_MIN], [_MAX] and [_ARRAYSIZE] macros of an enumeration. *)
Definition enum_MIN (e : list (string * Z)) : Z :=
  match e with (_, v) :: _ => v | [] => 0 end.
Definition enum_MAX (e : list (string * Z)) : Z :=
  match reverse e with (_, v) :: _ => v | [] => 0 end.
Definition enum_ARRAYSIZE (e : list (string * Z)) : Z := enum_MAX e + 1.

(** A brace initializer; [false] and [NULL] are zero. *)
Inductive cinit := I (v : Z) | IStruct (vs : list cinit).

(** What an initializer stores in a structure at offset [off]: the bytes of
    every scalar member, padding left out. *)
Fixpoint init_bytes (t : ctype) (v : cinit) (off : Z) : list (Z * list Z) :=
  match t, v with
  | TInt n, I z => [(off, le_split (Z.to_nat n) z)]
  | TPtr _, I z => [(off, le_split sizeof_ptr z)]
  | TStruct ms, IStruct vs =>
      (fix go (pos : Z) (ms : list (string * ctype)) (vs : list cinit) :=
         match ms, vs with
         | m :: ms, v :: vs =>
             let o := round_up pos (alignof m.2) in
             app (init_bytes m.2 v (off + o)) (go (o + sizeof m.2) ms vs)
         | _, _ => []
         end) 0 ms vs
  | _, _ => []
  end.

Definition gdt_cct_NetworkConnectionInfo_init_default : cinit :=
  IStruct [I 0; I (enum_value gdt_cct_NetworkConnectionInfo_NetworkType "NONE"); I 0;
    I (enum_value gdt_cct_NetworkConnectionInfo_MobileSubtype "UNKNOWN_MOBILE_SUBTYPE")].
Definition gdt_cct_LogEvent_init_default : cinit :=
  IStruct [I 0; I 0; I 0; I 0; I 0; I 0; I 0; I 0; I 0; I 0;
    gdt_cct_NetworkConnectionInfo_init_default].
Definition gdt_cct_IosClientInfo_init_default : cinit :=
  IStruct [I 0; I 0; I 0; I 0; I 0; I 0; I 0].
Definition gdt_cct_ClientInfo_init_default : cinit :=
  IStruct [I 0; I (enum_MIN gdt_cct_ClientInfo_ClientType); I 0;
    gdt_cct_IosClientInfo_init_default].
Definition gdt_cct_BatchedLogRequest_init_default : cinit := IStruct [I 0; I 0].
Definition gdt_cct_LogRequest_init_default : cinit :=
  IStruct [I 0; gdt_cct_ClientInfo_init_default; I 0; I 0; I 0; I 0; I 0; I 0; I 0; I 0; I 0;
    I (enum_value gdt_cct_QosTierConfiguration_QosTier "DEFAULT")].
Definition gdt_cct_QosTierConfiguration_init_default : cinit :=
  IStruct [I 0; I (enum_MIN gdt_cct_QosTierConfiguration_QosTier); I 0; I 0].
Definition gdt_cct_QosTiersOverride_init_default : cinit := IStruct [I 0; I 0; I 0; I 0].
Definition gdt_cct_LogResponse_init_default : cinit :=
  IStruct [I 0; I 0; I 0; gdt_cct_QosTiersOverride_init_default].

Definition gdt_cct_NetworkConnectionInfo_init_zero : cinit :=
  IStruct [I 0; I (enum_MIN gdt_cct_NetworkConnectionInfo_NetworkType); I 0;
    I (enum_MIN gdt_cct_NetworkConnectionInfo_MobileSubtype)].
Definition gdt_cct_LogEvent_init_zero : cinit :=
  IStruct [I 0; I 0; I 0; I 0; I 0; I 0; I 0; I 0; I 0; I 0;
    gdt_cct_NetworkConnectionInfo_init_zero].
Definition gdt_cct_IosClientInfo_init_zero : cinit :=
  IStruct [I 0; I 0; I 0; I 0; I 0; I 0; I 0].
Definition gdt_cct_ClientInfo_init_zero : cinit :=
  IStruct [I 0; I (enum_MIN gdt_cct_ClientInfo_ClientType); I 0;
    gdt_cct_IosClientInfo_init_zero].
Definition gdt_cct_BatchedLogRequest_init_zero : cinit := IStruct [I 0; I 0].
Definition gdt_cct_LogRequest_init_zero : cinit :=
  IStruct [I 0; gdt_cct_ClientInfo_init_zero; I 0; I 0; I 0; I 0; I 0; I 0; I 0; I 0; I 0;
    I (enum_MIN gdt_cct_QosTierConfiguration_QosTier)].
Definition gdt_cct_QosTierConfiguration_init_zero : cinit :=
  IStruct [I 0; I (enum_MIN gdt_cct_QosTierConfiguration_QosTier); I 0; I 0].
Definition gdt_cct_QosTiersOverride_init_zero : cinit := IStruct [I 0; I 0; I 0; I 0].
Definition gdt_cct_LogResponse_init_zero : cinit :=
  IStruct [I 0; I 0; I 0; gdt_cct_QosTiersOverride_init_zero].

(** The initializers behind a symbol: default, zero. *)
Definition cct_init (s : cct_symbol) : option (cinit * cinit) :=
  match s with
  | LogEvent_fields => Some (gdt_cct_LogEvent_init_default, gdt_cct_LogEvent_init_zero)
  | NetworkConnectionInfo_fields =>
      Some (gdt_cct_NetworkConnectionInfo_init_default, gdt_cct_NetworkConnectionInfo_init_zero)
  | IosClientInfo_fields =>
      Some (gdt_cct_IosClientInfo_init_default, gdt_cct_IosClientInfo_init_zero)
  | ClientInfo_fields => Some (gdt_cct_ClientInfo_init_default, gdt_cct_ClientInfo_init_zero)
  | BatchedLogRequest_fields =>
      Some (gdt_cct_BatchedLogRequest_init_default, gdt_cct_BatchedLogRequest_init_zero)
  | LogRequest_fields => Some (gdt_cct_LogRequest_init_default, gdt_cct_LogRequest_init_zero)
  | QosTierConfiguration_fields =>
      Some (gdt_cct_QosTierConfiguration_init_default, gdt_cct_QosTierConfiguration_init_zero)
  | QosTiersOverride_fields =>
      Some (gdt_cct_QosTiersOverride_init_default, gdt_cct_QosTiersOverride_init_zero)
  | LogResponse_fields => Some (gdt_cct_LogResponse_init_default, gdt_cct_LogResponse_init_zero)
  | _ => None
  end.

(** The maximum encoded sizes the header states. *)
Definition gdt_cct_NetworkConnectionInfo_size : Z := 13.
Definition gdt_cct_QosTierConfiguration_size : Z := 13.
