(* ===== verification/FirebaseCore.v ===== *)
(** * firebasecore.nanopb.h and firebasecore.nanopb.c: the diagnostics message

    The structure the core diagnostics encode into a log event, with its
    enumerations, its field table and the tag constants of the header. *)

From S2P Require Import Prelude.
From S2P Require Import Memory.
From S2P Require Import PbTypes.
From S2P Require Import PbFields.
From S2P Require Import Cct.
#[local] Open Scope string_scope.

(** ** Enumerations *)

Definition logs_proto_mobilesdk_ios_ICoreConfiguration_ConfigurationType : list (string * Z) :=
  [ ("UNKNOWN_CONFIGURATION_TYPE", 0); ("CORE", 1); ("SDK", 2) ].

Definition logs_proto_mobilesdk_ios_ICoreConfiguration_BuildType : list (string * Z) :=
  [ ("UNKNOWN_BUILD_TYPE", 0); ("INTERNAL", 1); ("EAP", 2); ("PROD", 3) ].

Definition logs_proto_mobilesdk_ios_ICoreConfiguration_ServiceType : list (string * Z) :=
  [ ("UNKNOWN_SDK_SERVICE", 0); ("ICORE", 1); ("ADMOB", 2); ("APP_INVITE", 3);
    ("SIGN_IN", 5); ("GCM", 6); ("MAPS", 7); ("SCION", 8); ("ANALYTICS", 9);
    ("APP_INDEXING", 10); ("CONFIG", 11); ("DURABLE_DEEP_LINKS", 12); ("CRASH", 13);
    ("AUTH", 14); ("DATABASE", 15); ("STORAGE", 16); ("MESSAGING", 17);
    ("MEASUREMENT", 18); ("REMOTE_CONFIG", 19); ("DYNAMIC_LINKS", 20); ("INVITES", 21);
    ("AUTH_UI", 22); ("FIRESTORE", 23); ("PERFORMANCE", 24);
    ("ML_VISION_ON_DEVICE_FACE", 26); ("ML_VISION_ON_DEVICE_BARCODE", 27);
    ("ML_VISION_ON_DEVICE_TEXT", 28); ("ML_VISION_ON_DEVICE_LABEL", 29);
    ("ML_MODEL_INTERPRETER", 30); ("IN_APP_MESSAGING", 31); ("FUNCTIONS", 32);
    ("ML_NATURAL_LANGUAGE", 33); ("ML_VISION_ON_DEVICE_AUTOML", 34);
    ("ML_VISION_ON_DEVICE_OBJECT_DETECTION", 35) ].

Definition logs_proto_mobilesdk_ios_ICoreConfiguration_PodName : list (string * Z) :=
  [ ("UNKNOWN_POD_NAME", 0); ("GOOGLE", 1); ("FIREBASE", 2) ].

Definition logs_proto_mobilesdk_ios_ICoreConfiguration_DeploymentType : list (string * Z) :=
  [ ("UNKNOWN", 0); ("COCOAPODS", 1); ("ZIP_FILE", 2); ("CARTHAGE", 3); ("SPM", 4) ].

(** ** The structure *)

Definition logs_proto_mobilesdk_ios_ICoreConfiguration : ctype :=
  TStruct
    [ ("has_configuration_type", c_bool); ("configuration_type", c_enum);
      ("sdk_service_installed_count", c_pb_size_t);
      ("sdk_service_installed", TPtr c_enum); ("device_model", TPtr pb_bytes_array_t);
      ("app_id", TPtr pb_bytes_array_t); ("bundle_id", TPtr pb_bytes_array_t);
      ("has_pod_name", c_bool); ("pod_name", c_enum);
      ("icore_version", TPtr pb_bytes_array_t); ("sdk_version", TPtr pb_bytes_array_t);
      ("has_sdk_name", c_bool); ("sdk_name", c_enum); ("has_app_count", c_bool);
      ("app_count", c_int32); ("os_version", TPtr pb_bytes_array_t);
      ("min_supported_ios_version", TPtr pb_bytes_array_t);
      ("has_use_default_app", c_bool); ("use_default_app", c_bool);
      ("has_deployed_in_app_store", c_bool); ("deployed_in_app_store", c_bool);
      ("has_dynamic_framework_count", c_bool); ("dynamic_framework_count", c_int32);
      ("apple_framework_version", TPtr pb_bytes_array_t);
      ("has_using_zip_file", c_bool); ("using_zip_file", c_bool);
      ("has_deployment_type", c_bool); ("deployment_type", c_enum);
      ("platform_info", TPtr pb_bytes_array_t); ("has_swizzling_enabled", c_bool);
      ("swizzling_enabled", c_bool); ("has_using_gdt", c_bool); ("using_gdt", c_bool) ].

(** ** The field table *)

Definition logs_proto_mobilesdk_ios_ICoreConfiguration_fields : list pb_field_t :=
  let T := logs_proto_mobilesdk_ios_ICoreConfiguration in
  [ PB_FIELD 1 UENUM OPTIONAL STATIC FIRST T "configuration_type" "configuration_type" 0;
    PB_FIELD 7 UENUM REPEATED POINTER OTHER T "sdk_service_installed" "configuration_type" 0;
    PB_FIELD 9 BYTES OPTIONAL POINTER OTHER T "device_model" "sdk_service_installed" 0;
    PB_FIELD 10 BYTES OPTIONAL POINTER OTHER T "app_id" "device_model" 0;
    PB_FIELD 12 BYTES OPTIONAL POINTER OTHER T "bundle_id" "app_id" 0;
    PB_FIELD 16 UENUM OPTIONAL STATIC OTHER T "pod_name" "bundle_id" 0;
    PB_FIELD 18 BYTES OPTIONAL POINTER OTHER T "icore_version" "pod_name" 0;
    PB_FIELD 19 BYTES OPTIONAL POINTER OTHER T "sdk_version" "icore_version" 0;
    PB_FIELD 20 UENUM OPTIONAL STATIC OTHER T "sdk_name" "sdk_version" 0;
    PB_FIELD 21 INT32 OPTIONAL STATIC OTHER T "app_count" "sdk_name" 0;
    PB_FIELD 22 BYTES OPTIONAL POINTER OTHER T "os_version" "app_count" 0;
    PB_FIELD 24 BYTES OPTIONAL POINTER OTHER T "min_supported_ios_version" "os_version" 0;
    PB_FIELD 25 BOOL OPTIONAL STATIC OTHER T "use_default_app" "min_supported_ios_version" 0;
    PB_FIELD 26 BOOL OPTIONAL STATIC OTHER T "deployed_in_app_store" "use_default_app" 0;
    PB_FIELD 27 INT32 OPTIONAL STATIC OTHER T "dynamic_framework_count"
      "deployed_in_app_store" 0;
    PB_FIELD 28 BYTES OPTIONAL POINTER OTHER T "apple_framework_version"
      "dynamic_framework_count" 0;
    PB_FIELD 29 BOOL OPTIONAL STATIC OTHER T "using_zip_file" "apple_framework_version" 0;
    PB_FIELD 30 UENUM OPTIONAL STATIC OTHER T "deployment_type" "using_zip_file" 0;
    PB_FIELD 31 BYTES OPTIONAL POINTER OTHER T "platform_info" "deployment_type" 0;
    PB_FIELD 33 BOOL OPTIONAL STATIC OTHER T "swizzling_enabled" "platform_info" 0;
    PB_FIELD 36 BOOL OPTIONAL STATIC OTHER T "using_gdt" "swizzling_enabled" 0;
    PB_LAST_FIELD ].

(** The tag constants, by field name. *)
Definition logs_proto_mobilesdk_ios_ICoreConfiguration_tags : list (string * Z) :=
  [ ("pod_name", 16); ("configuration_type", 1); ("icore_version", 18);
    ("sdk_version", 19); ("sdk_service_installed", 7); ("sdk_name", 20);
    ("device_model", 9); ("os_version", 22); ("app_id", 10); ("bundle_id", 12);
    ("min_supported_ios_version", 24); ("use_default_app", 25); ("app_count", 21);
    ("deployed_in_app_store", 26); ("dynamic_framework_count", 27);
    ("apple_framework_version", 28); ("using_zip_file", 29); ("deployment_type", 30);
    ("platform_info", 31); ("swizzling_enabled", 33); ("using_gdt", 36) ].

(** [init_default] and [init_zero] are the same list of values: false,
    NULL, zero counts, and the [_MIN] of each enumeration. *)
Definition logs_proto_mobilesdk_ios_ICoreConfiguration_init_default : cinit :=
  IStruct
    [ I 0; I (enum_MIN logs_proto_mobilesdk_ios_ICoreConfiguration_ConfigurationType);
      I 0; I 0; I 0; I 0; I 0; I 0;
      I (enum_MIN logs_proto_mobilesdk_ios_ICoreConfiguration_PodName); I 0; I 0; I 0;
      I (enum_MIN logs_proto_mobilesdk_ios_ICoreConfiguration_ServiceType); I 0; I 0;
      I 0; I 0; I 0; I 0; I 0; I 0; I 0; I 0; I 0; I 0; I 0; I 0;
      I (enum_MIN logs_proto_mobilesdk_ios_ICoreConfiguration_DeploymentType); I 0; I 0;
      I 0; I 0; I 0 ].

Definition logs_proto_mobilesdk_ios_ICoreConfiguration_init_zero : cinit :=
  logs_proto_mobilesdk_ios_ICoreConfiguration_init_default.
