(* ===== verification/WireSpec.v ===== *)
(** * Specification of the wire-level readers

    A reader of the wire format, run on a buffer stream, depends on the bytes
    ahead of it and on nothing else.  Its specification is a parser on lists
    of bytes; [parses c p] says that the C function [c] implements [p] on
    every buffer stream: same result, same number of bytes consumed, same
    error message, memory untouched. *)

From S2P Require Import Prelude.
From S2P Require Import Memory.
From S2P Require Import MemFacts.
From S2P Require Import PbTypes.
From S2P Require Import PbIStream.

(** ** Parsers *)

(** [POk a k]: result [a] after [k] bytes. [PFail e k]: [return false] after
    [k] bytes, with the error message [e] if one is set. *)
Inductive presult (A : Type) :=
| POk (a : A) (k : nat)
| PFail (e : option string) (k : nat).
Arguments POk {A}.
Arguments PFail {A}.

Definition parser (A : Type) : Type := list Z -> presult A.

(** Continue [k] bytes further. *)
Definition pshift {A} (k : nat) (r : presult A) : presult A :=
  match r with POk a j => POk a (k + j) | PFail e j => PFail e (k + j) end.

Definition pret {A} (a : A) : parser A := fun _ => POk a 0.
Definition pfail {A} (msg : string) : parser A := fun _ => PFail (Some msg) 0.
Definition pbind {A B} (p : parser A) (f : A -> parser B) : parser B := fun bs =>
  match p bs with
  | POk a k => pshift k (f a (drop k bs))
  | PFail e k => PFail e k
  end.

(** ** Buffer streams *)

(** [bs] is found from the read position on. *)
Definition content (m : mstate) (st : istate_t) (bs : list Z) : Prop :=
  match st with
  | IMem a => mread (mem m) a (length bs) = Some bs
  | ILocal l => bs `prefix_of` l
  end.

(** The stream has exactly the bytes [bs] ahead. *)
Record reads (s : pb_istream_t) (m : mstate) (bs : list Z) : Prop := {
  reads_cb : icallback s = ICb_buf_read;
  reads_left : bytes_left s = Z.of_nat (length bs);
  reads_max : bytes_left s < 2 ^ 64;
  reads_bytes : Forall is_u8 bs;
  reads_content : content m (istate s) bs;
}.

(** The stream after [k] bytes. *)
Definition adv (s : pb_istream_t) (k : nat) : pb_istream_t :=
  mk_istream (icallback s) (istate_advance (istate s) (Z.of_nat k))
             (bytes_left s - Z.of_nat k) (ierrmsg s).

#[global] Arguments adv : simpl never.
#[global] Arguments PB_SET_ERROR : simpl never.

Definition perr (e : option string) (s : pb_istream_t) : pb_istream_t :=
  match e with Some msg => PB_SET_ERROR s msg | None => s end.

Definition poutcome {A} (s : pb_istream_t) (m : mstate) (r : presult A)
    : outcome (option A * pb_istream_t) :=
  match r with
  | POk a k => Ret (Some a, adv s k) m
  | PFail e k => Ret (None, perr e (adv s k)) m
  end.

Definition pconsumed {A} (r : presult A) : nat :=
  match r with POk _ k => k | PFail _ k => k end.

Definition parses {A} (c : C pb_istream_t A) (p : parser A) : Prop :=
  ∀ s m bs, reads s m bs ->
    c s m = poutcome s m (p bs) ∧ (pconsumed (p bs) <= length bs)%nat.

(** ** Basic facts *)

Lemma content_drop m st bs k :
  content m st bs -> (k <= length bs)%nat ->
  content m (istate_advance st (Z.of_nat k)) (drop k bs).
Proof.
  destruct st as [a|l]; simpl; intros H Hk; [by apply mread_drop|].
  destruct H as [l' ->]. exists l'. rewrite Nat2Z.id. by apply drop_app_le.
Qed.

Lemma reads_adv s m bs k :
  reads s m bs -> (k <= length bs)%nat -> reads (adv s k) m (drop k bs).
Proof.
  intros [Hcb Hl Hmax Hb Hc] Hk. split; simpl.
  - done.
  - rewrite length_drop. lia.
  - lia.
  - by apply Forall_drop.
  - by apply content_drop.
Qed.

Lemma istate_advance_add st j k :
  istate_advance (istate_advance st (Z.of_nat j)) (Z.of_nat k) =
  istate_advance st (Z.of_nat (j + k)).
Proof.
  destruct st as [a|l]; simpl; f_equal; [lia|].
  rewrite drop_drop. f_equal. lia.
Qed.

Lemma adv_adv s j k : adv (adv s j) k = adv s (j + k).
Proof. unfold adv; simpl. rewrite istate_advance_add. f_equal. lia. Qed.

Lemma adv_0 s : adv s 0 = s.
Proof.
  destruct s as [cb st l e]. unfold adv; simpl. f_equal; [|lia].
  destruct st; simpl; f_equal. lia.
Qed.

Lemma poutcome_shift {A} s m k (r : presult A) :
  poutcome (adv s k) m r = poutcome s m (pshift k r).
Proof. destruct r; simpl; by rewrite adv_adv. Qed.

Lemma parses_ext {A} (c c' : C pb_istream_t A) p p' :
  (∀ s m, c s m = c' s m) -> (∀ bs, p bs = p' bs) -> parses c' p' -> parses c p.
Proof. intros Hc Hp H s m bs Hr. rewrite Hc, Hp. by apply H. Qed.

Lemma parses_ret {A} (a : A) : parses (mret a) (pret a).
Proof. intros s m bs Hr. simpl. rewrite adv_0. split; [done|lia]. Qed.

Lemma parses_fail {A} msg : parses (A := A) (PB_RETURN_ERROR msg) (pfail msg).
Proof. intros s m bs Hr. simpl. rewrite adv_0. split; [done|lia]. Qed.

(** The continuation may rely on what the first parser returns. *)
Lemma parses_bind_post {A B} (P : A -> Prop) (c : C pb_istream_t A) p
    (f : A -> C pb_istream_t B) q :
  parses c p -> (∀ bs a k, Forall is_u8 bs -> p bs = POk a k -> P a) ->
  (∀ a, P a -> parses (f a) (q a)) -> parses (mbind f c) (pbind p q).
Proof.
  intros Hc HP Hf s m bs Hr. destruct (Hc s m bs Hr) as [E Hk]. unfold pbind.
  destruct (p bs) as [a k|e k] eqn:Ep; simpl in *.
  - rewrite (bind_some _ _ _ _ _ _ _ E).
    specialize (HP _ _ _ (reads_bytes _ _ _ Hr) Ep).
    destruct (Hf a HP _ _ _ (reads_adv _ _ _ _ Hr Hk)) as [E' Hk'].
    rewrite E', poutcome_shift. split; [done|]. rewrite length_drop in Hk'.
    destruct (q a (drop k bs)); simpl in *; lia.
  - by rewrite (bind_none _ _ _ _ _ _ E).
Qed.

Lemma parses_bind {A B} (c : C pb_istream_t A) p (f : A -> C pb_istream_t B) q :
  parses c p -> (∀ a, parses (f a) (q a)) -> parses (mbind f c) (pbind p q).
Proof. intros Hc Hf. by apply (parses_bind_post (fun _ => True)). Qed.

(** ** Reading bytes *)

Section Readers.
Context `{PbEnv}.

Lemma istate_byte_spec m st bs i b :
  content m st bs -> bs !! i = Some b -> istate_byte st (Z.of_nat i) m = Ret b m.
Proof.
  intros Hc Hb. assert (i < length bs)%nat by (by eapply lookup_lt_Some).
  destruct st as [a|l]; simpl in *.
  - apply mread_drop with (k := i) in Hc; [|lia].
    rewrite (drop_S _ _ _ Hb) in Hc. cbn in Hc.
    unfold mbind, M_bind, load_bytes; cbn.
    destruct (mem m !! (a + Z.of_nat i)); [|done].
    destruct (mread _ (a + Z.of_nat i + 1) (length _)); naive_solver.
  - destruct Hc as [l' ->]. rewrite Nat2Z.id, lookup_app_l by lia.
    rewrite Hb. done.
Qed.

Lemma copy_loop_local m st bs n i :
  content m st bs -> (i + n <= length bs)%nat ->
  copy_loop n (Z.of_nat i) st RLocal m = Ret (take n (drop i bs)) m.
Proof.
  intros Hc. revert i; induction n as [|n IH]; intros i Hi; [done|].
  destruct (lookup_lt_is_Some_2 bs i) as [b Hb]; [lia|].
  cbn [copy_loop]. rewrite (mbind_ret _ _ _ _ _ (istate_byte_spec _ _ _ _ _ Hc Hb)).
  replace (Z.of_nat i + 1) with (Z.of_nat (S i)) by lia.
  unfold mbind, M_bind, mret, M_ret. rewrite IH by lia.
  by rewrite (drop_S _ _ _ Hb).
Qed.

Lemma run_icallback_local s m bs k :
  reads s m bs -> (k <= length bs)%nat ->
  run_icallback RLocal (Z.of_nat k) s m =
    Ret (Some (take k bs), set_istate (istate_advance (istate s) (Z.of_nat k)) s) m.
Proof.
  intros [Hcb _ _ _ Hc] Hk. unfold run_icallback. rewrite bind_get, Hcb.
  unfold buf_read. rewrite bind_get, bind_modify. unfold clift. rewrite Nat2Z.id.
  change 0 with (Z.of_nat 0). rewrite (copy_loop_local m _ bs) by (done || lia). done.
Qed.

Lemma run_icallback_null s m k :
  icallback s = ICb_buf_read ->
  run_icallback RNull (Z.of_nat k) s m =
    Ret (Some [], set_istate (istate_advance (istate s) (Z.of_nat k)) s) m.
Proof. intros Hcb. unfold run_icallback. by rewrite bind_get, Hcb. Qed.

(** The bytes a read of [k] returns: none are kept for a NULL buffer. *)
Definition p_read (null : bool) (count : Z) : parser (list Z) := fun bs =>
  if count =? 0 then POk [] 0
  else if Z.of_nat (length bs) <? count then PFail (Some "end-of-stream"%string) 0
  else POk (if null then [] else take (Z.to_nat count) bs) (Z.to_nat count).

Lemma parses_read_direct (null : bool) count :
  0 <= count ->
  parses (pb_read_direct (if null then RNull else RLocal) count) (p_read null count).
Proof.
  intros Hcount s m bs Hr. unfold pb_read_direct, p_read.
  destruct (count =? 0) eqn:E0.
  { simpl. rewrite adv_0. split; [done|lia]. }
  rewrite bind_get. rewrite (reads_left _ _ _ Hr).
  destruct (Z.of_nat (length bs) <? count) eqn:El; bool_to_prop.
  { simpl. rewrite adv_0. split; [done|lia]. }
  assert (run_icallback (if null then RNull else RLocal) count s m =
    Ret (Some (if null then [] else take (Z.to_nat count) bs),
         set_istate (istate_advance (istate s) count) s) m) as E.
  { rewrite <- (Z2Nat.id count) at 1 3 by lia. destruct null.
    - apply run_icallback_null, Hr.
    - apply run_icallback_local; [done|lia]. }
  rewrite (bind_try _ _ _ _ _ _ _ E), bind_modify. simpl. split; [|lia].
  unfold mret, C_ret, set_bytes_left, adv; simpl. pose proof (reads_left _ _ _ Hr).
  pose proof (reads_max _ _ _ Hr). unfold u64.
  rewrite Z.mod_small, Z2Nat.id by lia. done.
Qed.

Lemma parses_read (null : bool) count :
  0 <= count -> parses (pb_read (if null then RNull else RLocal) count) (p_read null count).
Proof.
  intros Hcount s m bs Hr. unfold pb_read. destruct (count =? 0) eqn:E0.
  { unfold p_read. rewrite E0. simpl. rewrite adv_0. split; [done|lia]. }
  rewrite bind_get, bool_decide_true by apply Hr. rewrite andb_false_r.
  by apply parses_read_direct.
Qed.

Definition p_byte : parser Z := fun bs =>
  match bs with [] => PFail (Some "end-of-stream"%string) 0 | b :: _ => POk b 1 end.

Lemma parses_readbyte : parses pb_readbyte p_byte.
Proof.
  intros s m bs Hr. unfold pb_readbyte. rewrite bind_get. rewrite (reads_left _ _ _ Hr).
  destruct bs as [|b bs]; simpl.
  { rewrite adv_0. split; [done|lia]. }
  assert (run_icallback RLocal 1 s m = Ret (Some [b], set_istate
    (istate_advance (istate s) 1) s) m) as E.
  { change 1 with (Z.of_nat 1). erewrite run_icallback_local; [|done|simpl; lia]. done. }
  rewrite (bind_try _ _ _ _ _ _ _ E). simpl. split; [|lia].
  unfold mret, C_ret, mbind, C_bind, defined, cmodify, set_bytes_left, adv; simpl.
  pose proof (reads_left _ _ _ Hr) as Hl. pose proof (reads_max _ _ _ Hr). simpl in Hl.
  unfold u64. rewrite Z.mod_small by lia. done.
Qed.
End Readers.
