(* ===== verification/Varint.v ===== *)
(** * Varints: the nanopb readers and writer that implement the encoding *)

From S2P Require Import Prelude.
From S2P Require Import VarintSpec.
From S2P Require Import Memory.
From S2P Require Import MemFacts.
From S2P Require Import PbTypes.
From S2P Require Import PbIStream.
From S2P Require Import PbEncode.
From S2P Require Import WireSpec.

(** ** What the reader must do *)

Definition overflow : option string := Some "varint overflow"%string.
Definition eos : option string := Some "end-of-stream"%string.

(** What [pb_decode_varint] must do: at most ten bytes, the value modulo
    2^64. *)
Definition spec_varint : parser Z := fun bs =>
  match varint_len (take 10 bs) with
  | Some k => POk (u64 (varint_value (take k bs))) k
  | None => if (length bs <? 10)%nat then PFail eos (length bs) else PFail overflow 10
  end.

(** [pb_decode_varint]'s specification reads back what was encoded. *)
Lemma spec_varint_bytes v rest :
  is_u64 v -> spec_varint (varint_bytes v ++ rest) = POk v (length (varint_bytes v)).
Proof.
  intros Hv. unfold spec_varint.
  pose proof (length_varint_bytes v) as [_ Hl].
  rewrite take_app_ge by done. rewrite varint_bytes_len by done.
  rewrite take_app_length, varint_bytes_value by done.
  unfold u64. by rewrite Z.mod_small.
Qed.

(** ** [pb_decode_varint] *)

(** The loop, on lists. *)
Fixpoint p_varint (n : nat) (bitpos result : Z) (bs : list Z) : presult Z :=
  match n with
  | O => PFail overflow 0
  | S n =>
      match bs with
      | [] => PFail eos 0
      | b :: bs =>
          let result := u64 (result + (b mod 128) * 2 ^ bitpos) in
          if 128 <=? b then pshift 1 (p_varint n (bitpos + 7) result bs)
          else POk result 1
      end
  end.

Section Varint.
Context `{PbEnv}.

Lemma varint_loop_S n bitpos result :
  varint_loop (S n) bitpos result =
  (if 64 <=? bitpos then PB_RETURN_ERROR "varint overflow"
   else
     byte ← pb_readbyte;
     let result := Z.lor result (u64 (Z.shiftl (Z.land byte 0x7F) bitpos)) in
     let bitpos := u8 (bitpos + 7) in
     if bit_set byte 0x80 then varint_loop n bitpos result else mret result).
Proof. done. Qed.

Lemma parses_varint_loop n k result :
  (n + k = 10)%nat -> 0 <= result < 2 ^ (7 * Z.of_nat k) -> result < 2 ^ 64 ->
  parses (varint_loop (S n) (7 * Z.of_nat k) result) (p_varint n (7 * Z.of_nat k) result).
Proof.
  revert k result; induction n as [|n IH]; intros k result Hnk Hr Hr64 s m bs Hreads;
    rewrite varint_loop_S; cbn [p_varint].
  { destruct (64 <=? 7 * Z.of_nat k) eqn:E; bool_to_prop; [|lia].
    by apply (parses_fail "varint overflow"). }
  destruct (64 <=? 7 * Z.of_nat k) eqn:E; bool_to_prop; [lia|].
  destruct (parses_readbyte s m bs Hreads) as [Eb _].
  destruct bs as [|b bs]; simpl in Eb.
  { rewrite (bind_none _ _ _ _ _ _ Eb). simpl. split; [done|lia]. }
  pose proof (reads_bytes _ _ _ Hreads) as Hb8. apply Forall_inv in Hb8.
  rewrite (bind_some _ _ _ _ _ _ _ Eb). rewrite bit_set_128, land_127 by done.
  assert (Z.lor result (u64 (Z.shiftl (b mod 128) (7 * Z.of_nat k))) =
          u64 (result + b mod 128 * 2 ^ (7 * Z.of_nat k))) as ->
    by (apply lor_shiftl_wrap; lia).
  destruct (128 <=? b) eqn:E128; bool_to_prop.
  - assert (reads (adv s 1) m bs) as Hreads' by (apply (reads_adv _ _ _ 1 Hreads); simpl; lia).
    replace (u8 (7 * Z.of_nat k + 7)) with (7 * Z.of_nat (S k)).
    2: { unfold u8. rewrite Z.mod_small; lia. }
    replace (7 * Z.of_nat k + 7) with (7 * Z.of_nat (S k)) by lia.
    set (result' := u64 _).
    assert (0 <= result' < 2 ^ 64) by (by apply Z.mod_pos_bound).
    assert (result' < 2 ^ (7 * Z.of_nat (S k))).
    { pose proof (Z.mod_pos_bound b 128 ltac:(lia)).
      replace (7 * Z.of_nat (S k)) with (7 + 7 * Z.of_nat k) by lia.
      rewrite Z.pow_add_r by lia.
      eapply Z.le_lt_trans; [apply Z.mod_le; nia|]. nia. }
    destruct (IH (S k) result' ltac:(lia) ltac:(lia) ltac:(lia) _ _ _ Hreads') as [E' Hk'].
    rewrite E', poutcome_shift. split; [done|].
    destruct (p_varint n _ _ bs); simpl in *; lia.
  - simpl. split; [done|lia].
Qed.

(** The list loop computes the declarative specification. *)
Lemma p_varint_spec n k result bs :
  (n + k = 10)%nat -> 0 <= result ->
  p_varint n (7 * Z.of_nat k) result bs =
  match varint_len (take n bs) with
  | Some j => POk (u64 (result + varint_value (take j bs) * 2 ^ (7 * Z.of_nat k))) j
  | None => if (length bs <? n)%nat then PFail eos (length bs) else PFail overflow n
  end.
Proof.
  revert k result bs; induction n as [|n IH]; intros k result bs Hnk Hr; [done|].
  destruct bs as [|b bs]; [done|]. cbn [p_varint take varint_len].
  destruct (128 <=? b) eqn:E.
  - replace (7 * Z.of_nat k + 7) with (7 * Z.of_nat (S k)) by lia.
    rewrite IH by (try lia; by apply Z.mod_pos_bound).
    destruct (varint_len (take n bs)) as [j|]; cbn [fmap option_fmap option_map pshift].
    + f_equal. cbn [take varint_value]. unfold u64.
      rewrite Zplus_mod_idemp_l. f_equal.
      replace (7 * Z.of_nat (S k)) with (7 + 7 * Z.of_nat k) by lia.
      rewrite Z.pow_add_r by lia. change (2 ^ 7) with 128. ring.
    + change (length (b :: bs) <? S n)%nat with (length bs <? n)%nat.
      by destruct (length bs <? n)%nat.
  - cbn. f_equal. destruct bs; cbn; rewrite Z.add_0_r; done.
Qed.

Lemma parses_varint : parses pb_decode_varint spec_varint.
Proof.
  eapply parses_ext; [done| |apply (parses_varint_loop 10 0 0); simpl; lia].
  intros bs. rewrite p_varint_spec by lia. unfold spec_varint.
  destruct (varint_len (take 10 bs)) as [j|]; [|done].
  f_equal. f_equal. simpl. lia.
Qed.
End Varint.

(** ** The writer *)

Lemma varint_buffer_groups n v :
  0 < v < 128 ^ Z.of_nat n ->
  unset_top_bit (varint_buffer n v) = varint_groups n v.
Proof.
  revert v; induction n as [|n IH]; intros v Hv; [simpl in *; lia|].
  cbn [varint_buffer varint_groups].
  destruct (v =? 0) eqn:E0; bool_to_prop; [lia|].
  assert (u8 (Z.lor (Z.land v 0x7F) 0x80) = v mod 128 + 128) as ->.
  { rewrite land_127. pose proof (Z.mod_pos_bound v 128 ltac:(lia)).
    pose proof (lor_shift (v mod 128) 1 7 ltac:(lia) ltac:(lia)) as L.
    change (1 * 2 ^ 7) with 128 in L. rewrite L. unfold u8. rewrite Z.mod_small; lia. }
  rewrite Z.shiftr_div_pow2 by lia. change (2 ^ 7) with 128.
  destruct (v <? 128) eqn:E; bool_to_prop.
  - rewrite Z.div_small by lia. destruct n; cbn [varint_buffer Z.eqb unset_top_bit];
      rewrite land_127; f_equal; dlia.
  - assert (0 < v / 128) by (apply Z.div_str_pos; lia).
    assert (v / 128 < 128 ^ Z.of_nat n).
    { apply Z.div_lt_upper_bound; [lia|].
      replace (Z.of_nat (S n)) with (1 + Z.of_nat n) in Hv by lia.
      rewrite Z.pow_add_r in Hv by lia. lia. }
    rewrite <- IH by lia.
    destruct (varint_buffer n (v / 128)) eqn:Eb; [|done].
    destruct n as [|n]; [simpl in *; lia|]. cbn [varint_buffer] in Eb.
    destruct (v / 128 =? 0) eqn:E'; bool_to_prop; [lia|done].
Qed.

Section Writer.
Context `{PbEnv}.

(** [pb_encode_varint] is one [pb_write] of the canonical encoding. *)
Lemma pb_encode_varint_bytes v :
  is_u64 v ->
  pb_encode_varint v =
  pb_write (WLocal (varint_bytes v)) (Z.of_nat (length (varint_bytes v))).
Proof.
  unfold is_u64. intros Hv. unfold pb_encode_varint.
  destruct (v <=? 0x7F) eqn:E; bool_to_prop.
  - unfold varint_bytes. cbn [varint_groups].
    destruct (v <? 128) eqn:E'; bool_to_prop; [|lia].
    unfold u8. rewrite Z.mod_small by lia. done.
  - rewrite varint_buffer_groups by (simpl; lia). done.
Qed.
End Writer.

(** * [pb_decode_varint32], tags, skipping and substreams *)

(** ** The 32-bit reader, on lists *)

(** The extension bytes after bit 31 must repeat the sign. *)
Definition bad_extension (bitpos result b : Z) : bool :=
  (32 <=? bitpos) && (bit_set b 0x7F
    && ((Z.shiftr result 31 =? 0) || negb (b =? (if bitpos <? 63 then 0xFF else 0x01)))).

Definition varint32_add (bitpos result b : Z) : Z :=
  if 32 <=? bitpos then result
  else Z.lor result (u32 (Z.shiftl (Z.land b 0x7F) bitpos)).

Fixpoint p_varint32_loop (bitpos result : Z) (bs : list Z) : presult Z :=
  match bs with
  | [] => PFail eos 0
  | b :: bs =>
      if bad_extension bitpos result b then PFail overflow 1
      else
        let result := varint32_add bitpos result b in
        let bitpos := u8 (bitpos + 7) in
        if bit_set b 0x80 then pshift 1 (p_varint32_loop bitpos result bs)
        else if (bitpos =? 35) && bit_set b 0x70 then PFail overflow 1
        else POk result 1
  end.

Definition p_varint32 : parser Z := fun bs =>
  match bs with
  | [] => PFail eos 0
  | b :: bs =>
      if bit_set b 0x80 then pshift 1 (p_varint32_loop 7 (Z.land b 0x7F) bs) else POk b 1
  end.

Section Varint32.
Context `{PbEnv}.

Lemma varint32_loop_S n bitpos result :
  varint32_loop (S n) bitpos result =
  (byte ← pb_readbyte;
   result ←
     (if 32 <=? bitpos then
        let sign_extension := if bitpos <? 63 then 0xFF else 0x01 in
        if bit_set byte 0x7F
           && ((Z.shiftr result 31 =? 0) || negb (byte =? sign_extension))
        then PB_RETURN_ERROR "varint overflow"
        else mret result
      else mret (Z.lor result (u32 (Z.shiftl (Z.land byte 0x7F) bitpos)))
      : C pb_istream_t Z);
   let bitpos := u8 (bitpos + 7) in
   if bit_set byte 0x80 then varint32_loop n bitpos result
   else if (bitpos =? 35) && bit_set byte 0x70
   then PB_RETURN_ERROR "varint overflow"
   else mret result).
Proof. done. Qed.

(** One step: the inner conditional is the check and the update. *)
Lemma varint32_step {B} bitpos result b (k : Z -> C pb_istream_t B) s m :
  (result ←
     (if 32 <=? bitpos then
        if bit_set b 0x7F
           && ((Z.shiftr result 31 =? 0) || negb (b =? (if bitpos <? 63 then 0xFF else 0x01)))
        then PB_RETURN_ERROR "varint overflow"
        else mret result
      else mret (Z.lor result (u32 (Z.shiftl (Z.land b 0x7F) bitpos)))
      : C pb_istream_t Z); k result) s m =
  (if bad_extension bitpos result b then Ret (None, PB_SET_ERROR s "varint overflow") m
   else k (varint32_add bitpos result b) s m).
Proof.
  unfold bad_extension, varint32_add. destruct (32 <=? bitpos); [|done].
  destruct (bit_set b 0x7F && _); done.
Qed.

Lemma parses_varint32_loop n bitpos result s m bs :
  reads s m bs -> (length bs < n)%nat ->
  varint32_loop n bitpos result s m = poutcome s m (p_varint32_loop bitpos result bs) ∧
  (pconsumed (p_varint32_loop bitpos result bs) <= length bs)%nat.
Proof.
  revert bitpos result s bs; induction n as [|n IH];
    intros bitpos result s bs Hr Hn; [lia|]. rewrite varint32_loop_S.
  destruct (parses_readbyte s m bs Hr) as [Eb _].
  destruct bs as [|b bs]; simpl in Eb.
  { rewrite (bind_none _ _ _ _ _ _ Eb). simpl. split; [done|lia]. }
  rewrite (bind_some _ _ _ _ _ _ _ Eb). cbv zeta. rewrite varint32_step.
  cbn [p_varint32_loop].
  destruct (bad_extension bitpos result b); [simpl; split; [done|lia]|].
  set (result' := varint32_add _ _ _). destruct (bit_set b 0x80).
  - assert (reads (adv s 1) m bs) as Hr' by (apply (reads_adv _ _ _ 1 Hr); simpl; lia).
    simpl in Hn. destruct (IH (u8 (bitpos + 7)) result' _ _ Hr' ltac:(lia)) as [-> Hk].
    rewrite poutcome_shift. split; [done|].
    destruct (p_varint32_loop _ _ bs); simpl in *; lia.
  - destruct (_ && _); simpl; (split; [done|lia]).
Qed.

(** The [eof] variant: it never fails as a computation. *)
Lemma varint32_eof_spec s m bs :
  reads s m bs ->
  pb_decode_varint32_eof s m =
    match p_varint32 bs with
    | POk v k => Ret (Some (Some v, false), adv s k) m
    | PFail e k => Ret (Some (None, bool_decide (bs = [])), perr e (adv s k)) m
    end ∧ (pconsumed (p_varint32 bs) <= length bs)%nat.
Proof.
  intros Hr. unfold pb_decode_varint32_eof.
  destruct (parses_readbyte s m bs Hr) as [Eb _]. unfold poutcome in Eb.
  rewrite (bind_try _ _ _ _
    (match bs with [] => None | b :: _ => Some b end)
    (match bs with [] => perr eos (adv s 0) | _ => adv s 1 end) m).
  2: { rewrite Eb. by destruct bs. }
  destruct bs as [|b bs]; cbn [p_varint32].
  { rewrite bind_get. simpl. split; [|lia]. rewrite adv_0. unfold PB_SET_ERROR; simpl.
    pose proof (reads_left _ _ _ Hr) as ->. done. }
  destruct (bit_set b 0x80); simpl; [|split; [done|lia]].
  assert (reads (adv s 1) m bs) as Hr' by (apply (reads_adv _ _ _ 1 Hr); simpl; lia).
  rewrite bind_get.
  destruct (parses_varint32_loop (S (Z.to_nat (bytes_left (adv s 1)))) 7 (Z.land b 0x7F)
    _ m bs Hr') as [E Hk]; [rewrite (reads_left _ _ _ Hr'); lia|].
  destruct (p_varint32_loop 7 (Z.land b 0x7F) bs) as [v k|e k]; simpl in *;
    rewrite (bind_try _ _ _ _ _ _ _ E); unfold mret, C_ret; rewrite adv_adv;
    (split; [done|lia]).
Qed.

Lemma parses_varint32 : parses pb_decode_varint32 p_varint32.
Proof.
  intros s m bs Hr. destruct (varint32_eof_spec s m bs Hr) as [E Hk]. split; [|done].
  unfold pb_decode_varint32.
  destruct (p_varint32 bs) as [v k|e k]; by rewrite (bind_some _ _ _ _ _ _ _ E).
Qed.
End Varint32.

(** ** The 32-bit reader inverts the encoder on 32-bit values *)

Lemma p_varint32_loop_groups n k result w rest :
  (1 <= k <= 4)%nat -> 0 <= result < 2 ^ (7 * Z.of_nat k) ->
  0 <= w < 128 ^ Z.of_nat n -> (0 < n)%nat ->
  result + w * 2 ^ (7 * Z.of_nat k) < 2 ^ 32 ->
  p_varint32_loop (7 * Z.of_nat k) result (varint_groups n w ++ rest) =
  POk (result + w * 2 ^ (7 * Z.of_nat k)) (length (varint_groups n w)).
Proof.
  revert k result w; induction n as [|n IH]; intros k result w Hk Hres Hw Hn Hv; [lia|].
  assert (0 < 2 ^ (7 * Z.of_nat k)) by (apply Z.pow_pos_nonneg; lia).
  assert (∀ b, bad_extension (7 * Z.of_nat k) result b = false) as Hbad.
  { intros b. unfold bad_extension. destruct (32 <=? _) eqn:E; [bool_to_prop; lia|done]. }
  assert (∀ b x, b mod 128 = x -> 0 <= x -> result + x * 2 ^ (7 * Z.of_nat k) < 2 ^ 32 ->
    varint32_add (7 * Z.of_nat k) result b = result + x * 2 ^ (7 * Z.of_nat k)) as Hadd.
  { intros b x Hb Hx Hlt. unfold varint32_add. destruct (32 <=? _) eqn:E; bool_to_prop; [lia|].
    rewrite land_127, Hb. unfold u32. rewrite lor_shiftl_wrap by lia.
    apply Z.mod_small. nia. }
  cbn [varint_groups]. destruct (w <? 128) eqn:E; bool_to_prop; cbn [app p_varint32_loop].
  - rewrite Hbad, bit_set_128 by (unfold is_u8; lia).
    destruct (128 <=? w) eqn:E'; bool_to_prop; [lia|].
    rewrite (Hadd w w) by (try (apply Z.mod_small); lia).
    rewrite u8_small by lia.
    assert ((7 * Z.of_nat k + 7 =? 35) && bit_set w 0x70 = false) as ->; [|done].
    destruct (7 * Z.of_nat k + 7 =? 35) eqn:E5; bool_to_prop; [|done].
    assert (k = 4%nat) as -> by lia. simpl in Hv.
    assert (Hb : Bool.eqb (bit_set w 0x70 && (w <? 16)) false = true).
    { apply (u8_forall (fun w => Bool.eqb (bit_set w 0x70 && (w <? 16)) false));
        [by vm_compute|unfold is_u8; lia]. }
    apply Bool.eqb_prop in Hb. destruct (w <? 16) eqn:E16; bool_to_prop; [|lia].
    rewrite andb_true_r in Hb. simpl. done.
  - destruct n as [|n]; [simpl in Hw; lia|].
    pose proof (Z.mod_pos_bound w 128 ltac:(lia)).
    assert (k <> 4)%nat by (intros ->; simpl in Hv; lia).
    rewrite Hbad, bit_set_128 by (unfold is_u8; lia).
    destruct (128 <=? w mod 128 + 128) eqn:E'; bool_to_prop; [|lia].
    rewrite (Hadd _ (w mod 128)).
    2: dlia. 2: lia.
    2: { eapply Z.le_lt_trans; [|exact Hv].
         pose proof (Z.mod_le w 128 ltac:(lia) ltac:(lia)). nia. }
    rewrite u8_small by lia.
    replace (7 * Z.of_nat k + 7) with (7 * Z.of_nat (S k)) by lia.
    assert (2 ^ (7 * Z.of_nat (S k)) = 128 * 2 ^ (7 * Z.of_nat k)) as Hp.
    { replace (7 * Z.of_nat (S k)) with (7 + 7 * Z.of_nat k) by lia.
      rewrite Z.pow_add_r by lia. done. }
    assert (w mod 128 * 2 ^ (7 * Z.of_nat k) + w / 128 * (128 * 2 ^ (7 * Z.of_nat k)) =
            w * 2 ^ (7 * Z.of_nat k)) as Hsum.
    { rewrite (Z.div_mod w 128) at 3 by lia. ring. }
    rewrite IH.
    + cbn [pshift length]. f_equal. rewrite Hp. lia.
    + lia.
    + rewrite Hp. nia.
    + split; [apply Z.div_pos; lia|]. apply Z.div_lt_upper_bound; [lia|].
      replace (Z.of_nat (S (S n))) with (1 + Z.of_nat (S n)) in Hw by lia.
      rewrite Z.pow_add_r in Hw by lia. lia.
    + lia.
    + rewrite Hp. lia.
Qed.

Lemma p_varint32_bytes v rest :
  is_u32 v -> p_varint32 (varint_bytes v ++ rest) = POk v (length (varint_bytes v)).
Proof.
  unfold is_u32. intros Hv. unfold varint_bytes. cbn [varint_groups].
  destruct (v <? 128) eqn:E; bool_to_prop; cbn [app p_varint32].
  - rewrite bit_set_128 by (unfold is_u8; lia).
    destruct (128 <=? v) eqn:E'; bool_to_prop; [lia|done].
  - pose proof (Z.mod_pos_bound v 128 ltac:(lia)).
    rewrite bit_set_128 by (unfold is_u8; lia).
    destruct (128 <=? v mod 128 + 128) eqn:E'; bool_to_prop; [|lia].
    rewrite land_127. replace ((v mod 128 + 128) mod 128) with (v mod 128) by dlia.
    change 7 with (7 * Z.of_nat 1).
    pose proof (p_varint32_loop_groups 9 1 (v mod 128) (v / 128) rest) as L.
    cbn [varint_groups] in L. rewrite L; clear L.
    + cbn [pshift length]. f_equal. simpl (2 ^ _). dlia.
    + lia.
    + simpl. lia.
    + split; [apply Z.div_pos; lia|]. apply Z.div_lt_upper_bound; simpl; lia.
    + lia.
    + simpl (2 ^ (7 * _)). dlia.
Qed.

(** * Tags, skipping, substreams and scalar readers *)

(** ** The 32-bit reader returns 32-bit values *)

Lemma p_varint32_loop_u32 bs bitpos result v k :
  0 <= bitpos -> is_u32 result ->
  p_varint32_loop bitpos result bs = POk v k -> is_u32 v.
Proof.
  unfold is_u32. revert bitpos result k; induction bs as [|b bs IH];
    intros bitpos result k Hbp Hr; simpl; [done|].
  destruct (bad_extension _ _ _); [done|].
  assert (0 <= varint32_add bitpos result b < 2 ^ 32) as Hadd.
  { unfold varint32_add. destruct (32 <=? bitpos); [done|].
    apply lor_bound; [lia|done|]. by apply Z.mod_pos_bound. }
  destruct (bit_set b 0x80).
  - destruct (p_varint32_loop _ _ bs) as [v' k'|] eqn:E; simpl; [|done].
    intros [= <- <-]. eapply IH; [|exact Hadd|exact E]. by apply Z.mod_pos_bound.
  - destruct (_ && _); [done|]. by intros [= <- <-].
Qed.

Lemma p_varint32_u32 bs v k :
  Forall is_u8 bs -> p_varint32 bs = POk v k -> is_u32 v.
Proof.
  intros Hb. destruct bs as [|b bs]; simpl; [done|].
  assert (is_u8 b) as Hb8 by (by inversion Hb). destruct (bit_set b 0x80).
  - destruct (p_varint32_loop _ _ bs) as [v' k'|] eqn:E; simpl; [|done].
    intros [= <- <-]. eapply p_varint32_loop_u32; [| |exact E]; [lia|].
    rewrite land_127. unfold is_u32. pose proof (Z.mod_pos_bound b 128 ltac:(lia)). lia.
  - intros [= <- <-]. unfold is_u8, is_u32 in *. lia.
Qed.

(** ** Skipping *)

Definition p_skip_varint : parser unit := fun bs =>
  match varint_len bs with Some k => POk tt k | None => PFail eos (length bs) end.

Definition p_skip (count : Z) : parser unit := pbind (p_read true count) (fun _ => pret tt).

Definition p_skip_string : parser unit := pbind p_varint32 p_skip.

Definition p_skip_field (wire_type : Z) : parser unit :=
  if wire_type =? PB_WT_VARINT then p_skip_varint
  else if wire_type =? PB_WT_64BIT then p_skip 8
  else if wire_type =? PB_WT_STRING then p_skip_string
  else if wire_type =? PB_WT_32BIT then p_skip 4
  else pfail "invalid wire_type".

Section Skip.
Context `{PbEnv}.

Lemma parses_skip_varint_loop n s m bs :
  reads s m bs -> (length bs < n)%nat ->
  skip_varint_loop n s m = poutcome s m (p_skip_varint bs) ∧
  (pconsumed (p_skip_varint bs) <= length bs)%nat.
Proof.
  unfold p_skip_varint.
  revert s bs; induction n as [|n IH]; intros s bs Hr Hn; [lia|]. cbn [skip_varint_loop].
  destruct (parses_read false 1 ltac:(lia) s m bs Hr) as [E _]. unfold p_read in E.
  change (1 =? 0) with false in E.
  destruct bs as [|b bs].
  { rewrite (bind_none _ _ _ _ _ _ E). simpl. split; [done|lia]. }
  destruct (Z.of_nat (length (b :: bs)) <? 1) eqn:El; bool_to_prop; [simpl in El; lia|].
  rewrite (bind_some _ _ _ _ _ _ _ E). change (Z.to_nat 1) with 1%nat. cbn [take].
  rewrite (bind_defined _ _ _ _ b) by done.
  rewrite bit_set_128 by exact (Forall_inv (reads_bytes _ _ _ Hr)).
  cbn [varint_len]. destruct (128 <=? b); [|simpl; split; [done|lia]].
  assert (reads (adv s 1) m bs) as Hr' by (apply (reads_adv _ _ _ 1 Hr); simpl; lia).
  simpl in Hn. destruct (IH _ _ Hr' ltac:(lia)) as [-> Hk].
  destruct (varint_len bs) as [k|]; simpl in *; rewrite adv_adv; (split; [done|lia]).
Qed.

Lemma parses_skip_varint : parses pb_skip_varint p_skip_varint.
Proof.
  intros s m bs Hr. unfold pb_skip_varint. rewrite bind_get.
  apply parses_skip_varint_loop; [done|]. rewrite (reads_left _ _ _ Hr). lia.
Qed.

Lemma parses_skip count :
  0 <= count -> parses (_ ← pb_read RNull count; mret tt) (p_skip count).
Proof.
  intros Hc. apply parses_bind; [|intros _; apply parses_ret].
  by apply (parses_read true).
Qed.

Lemma parses_skip_string : parses pb_skip_string p_skip_string.
Proof.
  apply (parses_bind_post is_u32); [apply parses_varint32|apply p_varint32_u32|].
  intros n Hn. apply parses_skip. apply Hn.
Qed.

Lemma parses_skip_field wt : parses (pb_skip_field wt) (p_skip_field wt).
Proof.
  unfold pb_skip_field, p_skip_field. repeat case_if.
  - apply parses_skip_varint.
  - by apply parses_skip.
  - apply parses_skip_string.
  - by apply parses_skip.
  - apply parses_fail.
Qed.
End Skip.

(** ** Tags *)

(** [pb_decode_tag] on a buffer stream, all branches. *)
Definition tag_outcome (s : pb_istream_t) (m : mstate) (bs : list Z)
    : outcome (option tag_result * pb_istream_t) :=
  match p_varint32 bs with
  | POk t k =>
      if t =? 0 then Ret (Some (mk_tag_result false 0 0 true), adv s k) m
      else Ret (Some (mk_tag_result true (t mod 8) (t / 8) false), adv s k) m
  | PFail e k => Ret (Some (mk_tag_result false 0 0 (bool_decide (bs = []))), perr e (adv s k)) m
  end.

Lemma pb_decode_tag_spec `{PbEnv} s m bs :
  reads s m bs -> pb_decode_tag s m = tag_outcome s m bs.
Proof.
  intros Hr. destruct (varint32_eof_spec s m bs Hr) as [E _].
  unfold pb_decode_tag, tag_outcome.
  destruct (p_varint32 bs) as [t k|e k]; rewrite (bind_some _ _ _ _ _ _ _ E); cbn [fst snd].
  - destruct (t =? 0); [done|]. rewrite Z.shiftr_div_pow2 by lia.
    change 7 with (Z.ones 3). by rewrite Z.land_ones by lia.
  - done.
Qed.

(** ** Substreams *)

(** The substream and the parent after [pb_make_string_substream] at [k]
    bytes into [s], for a string of [n] bytes. *)
Definition sub_stream (s : pb_istream_t) (k n : nat) : pb_istream_t :=
  set_bytes_left (Z.of_nat n) (adv s k).
Definition parent_stream (s : pb_istream_t) (k n : nat) : pb_istream_t :=
  set_bytes_left (bytes_left s - Z.of_nat (k + n)) (adv s k).

Section Substreams.
Context `{PbEnv}.

Lemma reads_sub s m bs k n :
  reads s m bs -> (k + n <= length bs)%nat ->
  reads (sub_stream s k n) m (take n (drop k bs)).
Proof.
  intros Hr Hk. assert (reads (adv s k) m (drop k bs)) as [Hcb Hl Hm Hb Hc]
    by (apply reads_adv; [done|lia]).
  rewrite length_drop in Hl.
  split; simpl; [done|rewrite length_take, length_drop; lia|lia|by apply Forall_take|].
  unfold content in *. simpl in Hc |- *.
  destruct (istate_advance (istate s) (Z.of_nat k)) as [a|l].
  - by apply mread_take.
  - etrans; [|exact Hc]. exists (drop n (drop k bs)). by rewrite take_drop.
Qed.

Lemma make_substream_ok s m bs n k :
  reads s m bs -> p_varint32 bs = POk n k -> n <= Z.of_nat (length bs - k) ->
  pb_make_string_substream s m =
    Ret (Some (sub_stream s k (Z.to_nat n)), parent_stream s k (Z.to_nat n)) m.
Proof.
  intros Hr Hp Hn. destruct (parses_varint32 s m bs Hr) as [E Hk]. rewrite Hp in E, Hk.
  simpl in E, Hk. pose proof (p_varint32_u32 _ _ _ (reads_bytes _ _ _ Hr) Hp) as Hu.
  unfold is_u32 in Hu. pose proof (reads_left _ _ _ Hr) as Hl.
  pose proof (reads_max _ _ _ Hr) as Hm.
  unfold pb_make_string_substream. rewrite (bind_some _ _ _ _ _ _ _ E), bind_get.
  change (bytes_left (adv s k)) with (bytes_left s - Z.of_nat k).
  destruct (bytes_left s - Z.of_nat k <? n) eqn:El; bool_to_prop; [lia|].
  rewrite bind_modify. unfold mret, C_ret, sub_stream, parent_stream, u64.
  rewrite Z.mod_small by lia. rewrite Z2Nat.id by lia.
  do 2 f_equal. unfold set_bytes_left; simpl. f_equal. lia.
Qed.

Lemma make_substream_short s m bs n k :
  reads s m bs -> p_varint32 bs = POk n k -> Z.of_nat (length bs - k) < n ->
  pb_make_string_substream s m =
    Ret (None, PB_SET_ERROR (adv s k) "parent stream too short") m.
Proof.
  intros Hr Hp Hn. destruct (parses_varint32 s m bs Hr) as [E Hk]. rewrite Hp in E, Hk.
  simpl in E, Hk. pose proof (reads_left _ _ _ Hr) as Hl.
  unfold pb_make_string_substream. rewrite (bind_some _ _ _ _ _ _ _ E), bind_get.
  change (bytes_left (adv s k)) with (bytes_left s - Z.of_nat k).
  destruct (bytes_left s - Z.of_nat k <? n) eqn:El; bool_to_prop; [done|lia].
Qed.

Lemma make_substream_bad s m bs e k :
  reads s m bs -> p_varint32 bs = PFail e k ->
  pb_make_string_substream s m = Ret (None, perr e (adv s k)) m.
Proof.
  intros Hr Hp. destruct (parses_varint32 s m bs Hr) as [E Hk]. rewrite Hp in E.
  unfold pb_make_string_substream. by rewrite (bind_none _ _ _ _ _ _ E).
Qed.

(** Closing a substream that was read up to byte [j], with error message
    [e]: the parent continues after the string. *)
Lemma close_substream s m bs k n j e :
  reads s m bs -> (k + n <= length bs)%nat -> (j <= n)%nat ->
  pb_close_string_substream (put_errmsg e (adv (sub_stream s k n) j))
      (parent_stream s k n) m =
    Ret (Some tt, put_errmsg e (adv s (k + n))) m.
Proof.
  intros Hr Hk Hj. pose proof (reads_sub _ _ _ _ _ Hr Hk) as Hsub.
  set (sub := put_errmsg e _).
  assert (reads sub m (drop j (take n (drop k bs)))) as Hr'.
  { destruct (reads_adv _ _ _ j Hsub) as [? ? ? ? ?]; [|done].
    rewrite length_take, length_drop. lia. }
  pose proof (reads_left _ _ _ Hr') as Hleft.
  rewrite length_drop, length_take, length_drop in Hleft.
  replace (n `min` (length bs - k) - j)%nat with (n - j)%nat in Hleft by lia.
  unfold pb_close_string_substream.
  assert ((if bytes_left sub =? 0 then mret [] else pb_read RNull (bytes_left sub)) sub m =
    Ret (Some [], adv sub (n - j)) m) as E.
  { rewrite Hleft. destruct (Z.of_nat (n - j) =? 0) eqn:E0; bool_to_prop.
    - replace (n - j)%nat with 0%nat by lia. by rewrite adv_0.
    - destruct (parses_read true (Z.of_nat (n - j)) ltac:(lia) _ _ _ Hr') as [E _].
      rewrite E. unfold p_read.
      destruct (Z.of_nat (n - j) =? 0) eqn:E1; bool_to_prop; [lia|].
      destruct (Z.of_nat (length (drop j (take n (drop k bs)))) <? Z.of_nat (n - j)) eqn:E2;
        bool_to_prop.
      + rewrite length_drop, length_take, length_drop in E2. lia.
      + by rewrite Nat2Z.id. }
  rewrite (bind_con _ _ _ _ _ _ _ _ E). unfold cmodify.
  do 3 f_equal. unfold adv, parent_stream, sub, sub_stream; simpl. f_equal.
  rewrite !istate_advance_add. do 2 f_equal. lia.
Qed.
End Substreams.

(** ** Zigzag and fixed-width scalars *)

Definition zigzag (x : Z) : Z := if x <? 0 then -2 * x - 1 else 2 * x.
Definition unzigzag (v : Z) : Z := if v mod 2 =? 1 then - (v / 2) - 1 else v / 2.

Lemma unzigzag_zigzag x : unzigzag (zigzag x) = x.
Proof.
  unfold unzigzag, zigzag. destruct (x <? 0) eqn:E; bool_to_prop.
  - replace ((-2 * x - 1) mod 2) with 1 by dlia. simpl. dlia.
  - replace ((2 * x) mod 2) with 0 by dlia. simpl. dlia.
Qed.

Lemma zigzag_u64 x : is_s64 x -> is_u64 (zigzag x).
Proof. unfold is_s64, is_u64, zigzag. case_if; lia. Qed.

Lemma parses_svarint `{PbEnv} :
  parses pb_decode_svarint (pbind spec_varint (fun v => pret (unzigzag v))).
Proof.
  apply (parses_bind_post is_u64); [apply parses_varint| |].
  - intros bs v k _. unfold spec_varint. destruct (varint_len _); [|by destruct (_ <? _)%nat].
    intros [= <- _]. by apply Z.mod_pos_bound.
  - intros v Hv. unfold is_u64 in Hv. unfold bit_set, unzigzag.
    assert (Z.land v 1 = v mod 2) as -> by (apply (Z.land_ones v 1); lia).
    assert (Z.shiftr v 1 = v / 2) as -> by (apply (Z.shiftr_div_pow2 v 1); lia).
    pose proof (Z.mod_pos_bound v 2 ltac:(lia)).
    assert (s64 (v / 2) = v / 2 ∧ s64 (u64 (Z.lnot (v / 2))) = - (v / 2) - 1) as [E1 E2].
    { assert (0 <= v / 2 < 2 ^ 63) by dlia.
      unfold s64, u64. rewrite swrap_mod by lia.
      split; rewrite swrap_small; unfold Z.lnot, Z.pred; simpl in *; lia. }
    destruct (v mod 2 =? 1) eqn:E; bool_to_prop.
    + rewrite E. simpl (negb _). rewrite E2. apply parses_ret.
    + replace (v mod 2) with 0 by lia. simpl (negb _). rewrite E1. apply parses_ret.
Qed.
