(* ===== verification/EncSpec.v ===== *)
(** * Specification of encoders

    The specification of an encoder is the list of bytes it puts on the wire,
    computed by reading the source structure: no streams, no sizing pass, no
    substreams.  [emits c e] says that the C encoder [c] implements the
    specification [e]: on a sizing stream it counts the bytes and touches
    nothing, on a buffer stream with enough room it writes exactly these
    bytes, on a buffer stream without enough room it returns false and stays
    inside the room, and where the specification fails it returns false. *)

From S2P Require Import Prelude.
From S2P Require Import Memory.
From S2P Require Import MemFacts.
From S2P Require Import PbTypes.
From S2P Require Import PbEncode.
From S2P Require Import VarintSpec.
From S2P Require Import Varint.

(** ** Read-only computations *)

Definition bytes_ok (m : mstate) : Prop := map_Forall (fun _ b => is_u8 b) (mem m).

(** [m] extends the source memory [m0] (by the output buffer). *)
Definition extends (m0 m : mstate) : Prop := mem m0 ⊆ mem m ∧ heap m0 = heap m.

(** A memory computation that only reads, and reads the same in extensions. *)
Definition mro {A} (c : M A) : Prop :=
  ∀ m0 m a m1, extends m0 m -> c m0 = Ret a m1 -> m1 = m0 ∧ c m = Ret a m.

Lemma mro_ret {A} (a : A) : mro (mret a).
Proof. intros m0 m a' m1 _. unfold mret, M_ret. by intros [= <- <-]. Qed.

Lemma mro_bind {A B} (c : M A) (f : A -> M B) :
  mro c -> (∀ a, mro (f a)) -> mro (mbind f c).
Proof.
  intros Hc Hf m0 m b m1 He. unfold mbind, M_bind.
  destruct (c m0) as [a m'| |] eqn:E; [|done|done]. intros E'.
  destruct (Hc _ _ _ _ He E) as [-> ->]. by apply (Hf a m0 m b m1 He).
Qed.

Lemma mro_load_bytes a n : mro (load_bytes a n).
Proof.
  intros m0 m bs m1 [Hs Hh]. unfold load_bytes.
  destruct (mread (mem m0) a n) as [l|] eqn:E; [|done]. intros [= -> <-].
  by rewrite (mread_mono _ _ _ _ _ Hs E).
Qed.

Lemma mro_load_u n a : mro (load_u n a).
Proof. apply mro_bind; [apply mro_load_bytes|intros; apply mro_ret]. Qed.

Lemma mro_load_s n a : mro (load_s n a).
Proof. apply mro_bind; [apply mro_load_u|intros; apply mro_ret]. Qed.

Lemma mro_load_ptr a : mro (load_ptr a).
Proof. apply mro_load_u. Qed.

Lemma mro_defined {A} (o : option A) : mro (mdefined o).
Proof. intros m0 m a m1 _. unfold mdefined. destruct o; [by intros [= -> <-]|done]. Qed.

Lemma mro_nofuel {A} : mro (M_nofuel (A := A)).
Proof. by intros m0 m a m1 _. Qed.

Lemma mro_safe_read_bool p : mro (safe_read_bool p).
Proof. apply mro_bind; [apply mro_load_u|intros; apply mro_ret]. Qed.

Create HintDb ro.
#[export] Hint Resolve mro_ret mro_load_bytes mro_load_u mro_load_s mro_load_ptr
  mro_defined mro_nofuel mro_safe_read_bool : ro.

(** Decompose binds, conditionals and matches of a read-only computation. *)
Ltac solve_mro :=
  repeat match goal with
  | |- mro (mbind _ _) => apply mro_bind; [|intros ?]
  | |- mro (if ?b then _ else _) => destruct b
  | |- mro (match ?x with Some _ => _ | None => _ end) => destruct x
  | |- mro (let _ := _ in _) => cbv zeta
  | |- _ => solve [eauto with ro]
  end.

(** ** The relation *)

(** The stream after [n] bytes were written. *)
Definition oadv (s : pb_ostream_t) (n : nat) : pb_ostream_t :=
  mk_ostream (ocallback s) (ostate s + Z.of_nat n) (max_size s)
             (bytes_written s + Z.of_nat n) (oerrmsg s).

(** The same on a sizing stream, whose [state] stays; the counter is a
    [size_t] and wraps. *)
Definition ocount (s : pb_ostream_t) (n : nat) : pb_ostream_t :=
  set_bytes_written (u64 (bytes_written s + Z.of_nat n)) s.

(** [n] bytes from the write position are mapped and not part of the source. *)
Definition fits (s : pb_ostream_t) (m0 m : mstate) (n : nat) : Prop :=
  ∀ i, 0 <= i < Z.of_nat n ->
    is_Some (mem m !! (ostate s + i)) ∧ mem m0 !! (ostate s + i) = None.

Definition counts (c : C pb_ostream_t unit) (m : mstate) (bs : list Z) : Prop :=
  ∀ s, ocallback s = OCb_null -> is_u64 (bytes_written s) ->
    c s m = Ret (Some tt, ocount s (length bs)) m.

(** A buffer stream on which nothing went wrong yet. *)
Definition obuf (s : pb_ostream_t) : Prop := ocallback s = OCb_buf_write ∧ oerrmsg s = None.

Definition writes (c : C pb_ostream_t unit) (m0 m : mstate) (bs : list Z) : Prop :=
  ∀ s, obuf s -> 0 <= bytes_written s ->
    bytes_written s + Z.of_nat (length bs) <= max_size s -> max_size s < 2 ^ 64 ->
    fits s m0 m (length bs) ->
    ∃ mm, mwrite (mem m) (ostate s) bs = Some mm ∧
          c s m = Ret (Some tt, oadv s (length bs)) (MState mm (heap m)).

(** A buffer stream without room for the bytes: the encoder returns false and
    has written nothing outside the room there was. *)
Definition oroom (s : pb_ostream_t) : Z := max_size s - bytes_written s.

Definition overflows (c : C pb_ostream_t unit) (m0 m : mstate) (bs : list Z) : Prop :=
  ∀ s, obuf s -> 0 <= bytes_written s <= max_size s -> oroom s < Z.of_nat (length bs) ->
    bytes_written s + Z.of_nat (length bs) < 2 ^ 64 ->
    fits s m0 m (Z.to_nat (oroom s)) ->
    ∃ s' mm, c s m = Ret (None, s') (MState mm (heap m)) ∧
      ∀ x, x < ostate s \/ ostate s + oroom s <= x -> mm !! x = mem m !! x.

(** The failure of an encoder, on a sizing stream. *)
Definition rejects (c : C pb_ostream_t unit) (m : mstate) : Prop :=
  ∀ s, ocallback s = OCb_null -> is_u64 (bytes_written s) ->
    ∃ s', c s m = Ret (None, s') m.

Record emits (c : C pb_ostream_t unit) (e : C unit (list Z)) : Prop := {
  emits_ro : ∀ m0 r m1, bytes_ok m0 -> e tt m0 = Ret (r, tt) m1 ->
    m1 = m0 ∧ ∀ bs, r = Some bs -> Forall is_u8 bs;
  emits_counts : ∀ m0 m bs, bytes_ok m0 -> extends m0 m ->
    e tt m0 = Ret (Some bs, tt) m0 -> counts c m bs;
  emits_writes : ∀ m0 m bs, bytes_ok m0 -> extends m0 m ->
    e tt m0 = Ret (Some bs, tt) m0 -> writes c m0 m bs;
  emits_overflows : ∀ m0 m bs, bytes_ok m0 -> extends m0 m ->
    e tt m0 = Ret (Some bs, tt) m0 -> overflows c m0 m bs;
  emits_rejects : ∀ m0 m, bytes_ok m0 -> extends m0 m ->
    e tt m0 = Ret (None, tt) m0 -> rejects c m;
}.

(** ** [pb_write] *)

Lemma store_u1 a b m : is_u8 b -> store_u 1 a b m = store_bytes a [b] m.
Proof.
  intros Hb. unfold is_u8 in Hb. unfold store_u. cbn [le_split].
  by rewrite Z.mod_small by lia.
Qed.

Lemma write_loop_spec m0 dest buf bs n k m mm :
  (k + n = length bs)%nat -> Forall is_u8 bs ->
  (∀ i b m', mem m0 ⊆ mem m' -> bs !! i = Some b -> wbuf_byte buf (Z.of_nat i) m' = Ret b m') ->
  mem m0 ⊆ mem m ->
  (∀ i, 0 <= i < Z.of_nat (length bs) -> mem m0 !! (dest + i) = None) ->
  mwrite (mem m) (dest + Z.of_nat k) (drop k bs) = Some mm ->
  write_loop n (Z.of_nat k) dest buf m = Ret tt (MState mm (heap m)).
Proof.
  intros Hk Hb8 Hbuf. revert k m Hk; induction n as [|n IH]; intros k m Hk Hs Hout Hw.
  { rewrite drop_ge in Hw by lia. injection Hw as <-. by destruct m. }
  destruct (lookup_lt_is_Some_2 bs k) as [b Hb]; [lia|].
  rewrite (drop_S _ _ _ Hb) in Hw. cbn [mwrite] in Hw.
  destruct (mem m !! (dest + Z.of_nat k)) eqn:Ed; [|done].
  cbn [write_loop]. rewrite (mbind_ret _ _ _ _ _ (Hbuf k b m Hs Hb)).
  set (m' := MState (<[dest + Z.of_nat k := b]> (mem m)) (heap m)).
  assert (store_u 1 (dest + Z.of_nat k) b m = Ret tt m') as Est.
  { rewrite store_u1 by (by eapply Forall_lookup_1). unfold store_bytes; cbn. by rewrite Ed. }
  rewrite (mbind_ret _ _ _ _ _ Est).
  replace (Z.of_nat k + 1) with (Z.of_nat (S k)) by lia.
  rewrite (IH (S k) m'); [done|lia| |done|].
  - apply map_subseteq_spec. intros x v Hx. simpl.
    rewrite lookup_insert_ne; [by eapply lookup_weaken|].
    intros <-. rewrite Hout in Hx by lia. done.
  - rewrite <- Hw. simpl. f_equal. lia.
Qed.

(** A source of bytes that does not depend on the output buffer. *)
Definition wbuf_holds (m0 : mstate) (buf : wbuf) (bs : list Z) : Prop :=
  match buf with
  | WLocal l => l = bs
  | WMem a => mread (mem m0) a (length bs) = Some bs
  | WNull => bs = []
  end.

Lemma wbuf_holds_byte m0 buf bs i b m :
  wbuf_holds m0 buf bs -> Forall is_u8 bs -> mem m0 ⊆ mem m -> bs !! i = Some b ->
  wbuf_byte buf (Z.of_nat i) m = Ret b m.
Proof.
  intros Hh Hb8 Hs Hb. destruct buf as [l|a|]; simpl in *.
  - subst l. rewrite Nat2Z.id, Hb. done.
  - assert (i < length bs)%nat by (by eapply lookup_lt_Some).
    apply mread_drop with (k := i) in Hh; [|lia].
    rewrite (drop_S _ _ _ Hb) in Hh. apply (mread_mono _ _ _ _ _ Hs) in Hh.
    cbn in Hh. unfold load_u, load_bytes, mbind, M_bind; cbn.
    destruct (mem m !! (a + Z.of_nat i)) as [b'|]; [|done].
    destruct (mread (mem m) _ _); [|done]. injection Hh as -> _. cbn.
    unfold mret, M_ret. f_equal. lia.
  - by subst bs.
Qed.

Section Write.
Context `{PbEnv}.

(** [pb_write] on sizing and buffer streams. *)
Lemma pb_write_counts m buf bs : counts (pb_write buf (Z.of_nat (length bs))) m bs.
Proof.
  intros s Hcb Hbw. unfold pb_write. rewrite bind_get.
  unfold is_sizing at 1. by rewrite Hcb, andb_false_r, bind_ret.
Qed.

Lemma pb_write_writes m0 m buf bs :
  extends m0 m -> wbuf_holds m0 buf bs -> Forall is_u8 bs ->
  writes (pb_write buf (Z.of_nat (length bs))) m0 m bs.
Proof.
  intros [Hs _] Hbuf Hb8 s [Hcb _] Hbw Hmax H64 Hfit.
  destruct (mwrite_total (mem m) (ostate s) bs) as [mm Hw]; [intros; by apply Hfit|].
  exists mm. split; [done|]. unfold pb_write. rewrite bind_get.
  unfold is_sizing at 1. rewrite Hcb. rewrite andb_true_r.
  unfold u64. destruct (0 <? Z.of_nat (length bs)) eqn:E0; bool_to_prop.
  - rewrite !Z.mod_small by lia.
    destruct (bytes_written s + Z.of_nat (length bs) <? bytes_written s) eqn:E1;
      bool_to_prop; [lia|].
    destruct (max_size s <? bytes_written s + Z.of_nat (length bs)) eqn:E2;
      bool_to_prop; [lia|]. simpl orb. cbv iota.
    assert (run_ocallback buf (Z.of_nat (length bs)) s m =
      Ret (Some tt, set_ostate (ostate s + Z.of_nat (length bs)) s)
          (MState mm (heap m))) as Er.
    { unfold run_ocallback. rewrite bind_get, Hcb. unfold buf_write.
      rewrite bind_get, bind_modify. unfold clift. rewrite Nat2Z.id.
      change 0 with (Z.of_nat 0).
      rewrite (write_loop_spec m0 _ _ bs _ 0 m mm); [done|lia|done| |done| |].
      - intros i b m' Hs' Hb. by eapply wbuf_holds_byte.
      - intros i Hi. by apply Hfit.
      - by rewrite drop_0, Z.add_0_r. }
    erewrite bind_some.
    2: { erewrite bind_try; [|exact Er]. done. }
    unfold cmodify, oadv. simpl. rewrite Z.mod_small by lia. done.
  - assert (bs = []) as -> by (apply nil_length_inv; lia).
    injection Hw as <-. simpl. rewrite bind_ret. unfold cmodify, oadv. simpl.
    rewrite Z.mod_small by (simpl in *; lia).
    destruct s, m; simpl. unfold set_bytes_written; simpl. do 3 f_equal; lia.
Qed.

(** The length check comes before any byte is written. *)
Lemma pb_write_overflows m0 m buf bs :
  overflows (pb_write buf (Z.of_nat (length bs))) m0 m bs.
Proof.
  intros s [Hcb _] Hbw Hroom H64 _. unfold oroom in Hroom.
  eexists _, (mem m). split; [|done]. unfold pb_write. rewrite bind_get.
  unfold is_sizing at 1. rewrite Hcb, andb_true_r.
  destruct (0 <? Z.of_nat (length bs)) eqn:E0; bool_to_prop; [|lia].
  unfold u64. rewrite Z.mod_small by lia.
  destruct (max_size s <? _) eqn:E1; bool_to_prop; [|lia].
  rewrite orb_true_r. by destruct m.
Qed.
End Write.

(** ** Composition *)

Section Compose.
Context `{PbEnv}.

Lemma ocount_ocount s j k : ocount (ocount s j) k = ocount s (j + k).
Proof.
  unfold ocount, set_bytes_written, u64; simpl. f_equal.
  rewrite Zplus_mod_idemp_l. f_equal. lia.
Qed.

Lemma ocount_0 s : is_u64 (bytes_written s) -> ocount s 0 = s.
Proof.
  intros Hs. unfold is_u64 in Hs. unfold ocount, set_bytes_written, u64.
  rewrite Z.add_0_r, Z.mod_small by lia. by destruct s.
Qed.

Lemma ocount_u64 s n : is_u64 (bytes_written (ocount s n)).
Proof. by apply Z.mod_pos_bound. Qed.

Lemma oadv_oadv s j k : oadv (oadv s j) k = oadv s (j + k).
Proof. unfold oadv; simpl. f_equal; lia. Qed.

Lemma oadv_0 s : oadv s 0 = s.
Proof. destruct s. unfold oadv; simpl. f_equal; lia. Qed.

Lemma counts_seq c1 (c2 : C pb_ostream_t unit) m bs1 bs2 :
  counts c1 m bs1 -> counts c2 m bs2 -> counts (_ ← c1; c2) m (bs1 ++ bs2).
Proof.
  intros H1 H2 s Hcb Hbw. rewrite length_app.
  erewrite bind_some; [|by apply H1].
  rewrite H2; [by rewrite ocount_ocount|done|apply ocount_u64].
Qed.

(** Writing leaves the source memory in place. *)
Lemma extends_mwrite m0 m s bs mm :
  extends m0 m -> fits s m0 m (length bs) -> mwrite (mem m) (ostate s) bs = Some mm ->
  extends m0 (MState mm (heap m)).
Proof.
  intros [Hs Hh] Hfit Hw. split; [|done]. simpl.
  eapply mwrite_frame; [exact Hs|exact Hw|]. intros i Hi. by apply Hfit.
Qed.

(** The room left after the first part. *)
Lemma fits_drop s m0 m n1 n2 bs mm :
  length bs = n1 -> fits s m0 m (n1 + n2) -> mwrite (mem m) (ostate s) bs = Some mm ->
  fits (oadv s n1) m0 (MState mm (heap m)) n2.
Proof.
  intros <- Hfit Hw i Hi. simpl.
  replace (ostate s + Z.of_nat (length bs) + i)
    with (ostate s + (Z.of_nat (length bs) + i)) by lia.
  destruct (Hfit (Z.of_nat (length bs) + i)) as [Ha Hb]; [lia|]. split; [|done].
  by apply (mwrite_same_dom _ _ _ _ Hw).
Qed.

Lemma fits_le s m0 m n1 n2 : (n1 <= n2)%nat -> fits s m0 m n2 -> fits s m0 m n1.
Proof. intros Hn Hfit i Hi. apply Hfit. lia. Qed.

Lemma writes_seq c1 (c2 : C pb_ostream_t unit) m0 m bs1 bs2 :
  extends m0 m ->
  writes c1 m0 m bs1 -> (∀ m', extends m0 m' -> writes c2 m0 m' bs2) ->
  writes (_ ← c1; c2) m0 m (bs1 ++ bs2).
Proof.
  intros He H1 H2 s Hcb Hbw Hmax H64 Hfit. rewrite length_app in *.
  assert (fits s m0 m (length bs1)) as Hfit1 by (eapply fits_le, Hfit; lia).
  destruct (H1 s) as [mm [Hw E]]; [done|done|lia|done|done|].
  pose proof (extends_mwrite _ _ _ _ _ He Hfit1 Hw) as He'.
  destruct (H2 _ He' (oadv s (length bs1))) as [mm' [Hw' E']];
    [done|simpl; lia|simpl; lia|done|by eapply fits_drop|].
  exists mm'. rewrite (bind_some _ _ _ _ _ _ _ E), (mwrite_app _ _ _ _ _ Hw), E'.
  split; [done|]. by rewrite oadv_oadv.
Qed.

Lemma overflows_seq c1 (c2 : C pb_ostream_t unit) m0 m bs1 bs2 :
  extends m0 m -> writes c1 m0 m bs1 -> overflows c1 m0 m bs1 ->
  (∀ m', extends m0 m' -> overflows c2 m0 m' bs2) ->
  overflows (_ ← c1; c2) m0 m (bs1 ++ bs2).
Proof.
  intros He W1 O1 O2 s Hcb Hbw Hroom H64 Hfit. rewrite length_app in *.
  unfold oroom in *. destruct (decide (Z.of_nat (length bs1) <= oroom s)) as [Hle|Hgt];
    unfold oroom in *.
  - assert (fits s m0 m (length bs1)) as Hfit1 by (eapply fits_le, Hfit; lia).
    destruct (W1 s) as [mm [Hw E]]; [done|lia|lia|lia|done|].
    pose proof (extends_mwrite _ _ _ _ _ He Hfit1 Hw) as He'.
    destruct (O2 _ He' (oadv s (length bs1))) as (s' & mm' & E' & Hout);
      [done|simpl; lia|unfold oroom; simpl; lia|simpl; lia| |].
    { unfold oroom; simpl. eapply fits_drop; [done| |exact Hw].
      eapply fits_le, Hfit. lia. }
    exists s', mm'. rewrite (bind_some _ _ _ _ _ _ _ E). split; [done|]. intros x Hx.
    rewrite Hout by (unfold oroom; simpl; lia). simpl.
    rewrite (mwrite_lookup _ _ _ _ x Hw), decide_False by lia. done.
  - destruct (O1 s) as (s' & mm & E & Hout); [done|lia|unfold oroom; lia|lia|done|].
    exists s', mm. by rewrite (bind_none _ _ _ _ _ _ E).
Qed.

Lemma rejects_seq1 c1 (c2 : C pb_ostream_t unit) m :
  rejects c1 m -> rejects (_ ← c1; c2) m.
Proof.
  intros H1 s Hcb Hbw. destruct (H1 s Hcb Hbw) as [s' E]. exists s'.
  by rewrite (bind_none _ _ _ _ _ _ E).
Qed.

Lemma rejects_seq2 c1 (c2 : C pb_ostream_t unit) m bs :
  counts c1 m bs -> rejects c2 m -> rejects (_ ← c1; c2) m.
Proof.
  intros H1 H2 s Hcb Hbw. destruct (H2 (ocount s (length bs)) Hcb) as [s' E];
    [apply ocount_u64|]. exists s'. by erewrite bind_some; [|by apply H1].
Qed.

(** The bytes of two encoders in sequence. *)
Definition eseq (e1 e2 : C unit (list Z)) : C unit (list Z) :=
  l1 ← e1; l2 ← e2; mret (l1 ++ l2).

Lemma eseq_inv e1 e2 m r m' :
  eseq e1 e2 tt m = Ret (r, tt) m' ->
  (e1 tt m = Ret (None, tt) m' ∧ r = None) \/
  ∃ l1 m1, e1 tt m = Ret (Some l1, tt) m1 ∧
    ((e2 tt m1 = Ret (None, tt) m' ∧ r = None) \/
     ∃ l2, e2 tt m1 = Ret (Some l2, tt) m' ∧ r = Some (l1 ++ l2)).
Proof.
  unfold eseq, mbind, C_bind. destruct (e1 tt m) as [[[l1|] []] m1| |]; [|naive_solver..].
  intros E. right. exists l1, m1. split; [done|].
  destruct (e2 tt m1) as [[[l2|] []] m2| |]; [|naive_solver..].
  right. exists l2. injection E as <- <-. done.
Qed.

Lemma emits_seq c1 c2 e1 e2 :
  emits c1 e1 -> emits c2 e2 -> emits (_ ← c1; c2) (eseq e1 e2).
Proof.
  intros H1 H2. split.
  - intros m0 r m1 Hok E. apply eseq_inv in E as [[E ->]|(l1 & m' & E & E')].
    { apply (emits_ro _ _ H1) in E as [-> _]; [|done]. by split. }
    apply (emits_ro _ _ H1) in E as [-> Hl1]; [|done].
    destruct E' as [[E' ->]|(l2 & E' & ->)];
      apply (emits_ro _ _ H2) in E' as [-> Hl2]; try done.
    split; [done|]. intros bs [= <-]. apply Forall_app. eauto.
  - intros m0 m bs Hok He E. apply eseq_inv in E as [[_ ?]|(l1 & m' & E & E')]; [done|].
    destruct (emits_ro _ _ H1 _ _ _ Hok E) as [-> _].
    destruct E' as [[_ ?]|(l2 & E' & [= ->])]; [done|].
    apply counts_seq; by eapply emits_counts.
  - intros m0 m bs Hok He E. apply eseq_inv in E as [[_ ?]|(l1 & m' & E & E')]; [done|].
    destruct (emits_ro _ _ H1 _ _ _ Hok E) as [-> _].
    destruct E' as [[_ ?]|(l2 & E' & [= ->])]; [done|].
    apply writes_seq; [done|by eapply emits_writes|]. intros m' He'.
    by eapply emits_writes.
  - intros m0 m bs Hok He E. apply eseq_inv in E as [[_ ?]|(l1 & m' & E & E')]; [done|].
    destruct (emits_ro _ _ H1 _ _ _ Hok E) as [-> _].
    destruct E' as [[_ ?]|(l2 & E' & [= ->])]; [done|].
    apply overflows_seq; [done|by eapply emits_writes|by eapply emits_overflows|].
    intros m' He'. by eapply emits_overflows.
  - intros m0 m Hok He E. apply eseq_inv in E as [[E _]|(l1 & m' & E & E')].
    { apply rejects_seq1. by eapply emits_rejects. }
    destruct (emits_ro _ _ H1 _ _ _ Hok E) as [-> _].
    destruct E' as [[E' _]|(l2 & _ & ?)]; [|done].
    eapply rejects_seq2; [by eapply emits_counts|by eapply emits_rejects].
Qed.

(** A read of the source in front of an encoder. [P] is what the read
    guarantees of its result. *)
Lemma emits_lift_post {A} (P : A -> Prop) (c : M A) (f : A -> C pb_ostream_t unit) g :
  mro c -> (∀ m0 a, bytes_ok m0 -> c m0 = Ret a m0 -> P a) ->
  (∀ a, P a -> emits (f a) (g a)) -> emits (a ← clift c; f a) (a ← clift c; g a).
Proof.
  intros Hro HP Hf.
  assert (∀ m0 r m1, bytes_ok m0 -> (a ← clift c; g a) tt m0 = Ret (r, tt) m1 ->
    ∃ a, c m0 = Ret a m0 ∧ P a ∧ g a tt m0 = Ret (r, tt) m1) as Inv.
  { intros m0 r m1 Hok. unfold mbind, C_bind, clift.
    destruct (c m0) as [a m'| |] eqn:E; [|done|done]. intros E'.
    destruct (Hro m0 m0 a m') as [-> _]; [by split|done|]. exists a. eauto. }
  assert (∀ a m0 m s, extends m0 m -> c m0 = Ret a m0 ->
    (a ← clift c; f a) s m = f a s m) as Run.
  { intros a m0 m s He E. destruct (Hro _ _ _ _ He E) as [_ E'].
    by rewrite (bind_lift _ _ _ _ _ _ E'). }
  split.
  - intros m0 r m1 Hok E. destruct (Inv _ _ _ Hok E) as (a & _ & HPa & E').
    by eapply (emits_ro _ _ (Hf a HPa)).
  - intros m0 m bs Hok He E s Hcb Hbw. destruct (Inv _ _ _ Hok E) as (a & Ea & HPa & E').
    rewrite (Run a m0) by done. by eapply (emits_counts _ _ (Hf a HPa)).
  - intros m0 m bs Hok He E s Hcb Hbw Hmax H64 Hfit.
    destruct (Inv _ _ _ Hok E) as (a & Ea & HPa & E').
    rewrite (Run a m0) by done. by eapply (emits_writes _ _ (Hf a HPa)).
  - intros m0 m bs Hok He E s Hcb Hbw Hroom H64 Hfit.
    destruct (Inv _ _ _ Hok E) as (a & Ea & HPa & E').
    rewrite (Run a m0) by done. by eapply (emits_overflows _ _ (Hf a HPa)).
  - intros m0 m Hok He E s Hcb Hbw. destruct (Inv _ _ _ Hok E) as (a & Ea & HPa & E').
    rewrite (Run a m0) by done. by eapply (emits_rejects _ _ (Hf a HPa)).
Qed.

Lemma emits_lift {A} (c : M A) (f : A -> C pb_ostream_t unit) g :
  mro c -> (∀ a, emits (f a) (g a)) -> emits (a ← clift c; f a) (a ← clift c; g a).
Proof. intros Hro Hf. by apply (emits_lift_post (fun _ => True)). Qed.

Lemma emits_defined {A} (o : option A) (f : A -> C pb_ostream_t unit) g :
  (∀ a, o = Some a -> emits (f a) (g a)) ->
  emits (a ← defined o; f a) (a ← defined o; g a).
Proof. intros Hf. destruct o as [a|]; [by apply Hf|]. by split. Qed.

(** Nothing to write. *)
Lemma emits_nil : emits (mret tt) (mret []).
Proof.
  split; unfold mret, C_ret.
  - intros m0 r m1 _ [= <- <-]. split; [done|]. intros bs [= <-]. constructor.
  - intros m0 m bs _ _ [= <-] s _ Hbw. by rewrite ocount_0.
  - intros m0 m bs _ _ [= <-] s _ _ _ _ _. exists (mem m). split; [done|].
    rewrite oadv_0. by destruct m.
  - intros m0 m bs _ _ [= <-] s _ Hbw Hroom. unfold oroom in Hroom. simpl in Hroom. lia.
  - done.
Qed.

Lemma emits_fail msg : emits (PB_RETURN_ERROR msg) cfail.
Proof.
  split; unfold cfail; try done.
  - intros m0 r m1 _ [= <- <-]. done.
  - intros m0 m _ _ _ s _ _. unfold PB_RETURN_ERROR. eauto.
Qed.

Lemma emits_ub : emits cub cub.
Proof. by split. Qed.

Lemma emits_nofuel : emits cnofuel cnofuel.
Proof. by split. Qed.

(** Bytes computed by the caller. *)
Lemma emits_local bs :
  Forall is_u8 bs -> emits (pb_write (WLocal bs) (Z.of_nat (length bs))) (mret bs).
Proof.
  intros Hb. split; unfold mret, C_ret.
  - intros m0 r m1 _ [= <- <-]. split; [done|]. by intros ? [= <-].
  - intros m0 m bs' _ _ [= <-]. apply pb_write_counts.
  - intros m0 m bs' _ He [= <-]. by apply pb_write_writes.
  - intros m0 m bs' _ He [= <-]. apply pb_write_overflows.
  - done.
Qed.

(** Bytes of the source structure. *)
Lemma emits_mem a count :
  0 <= count ->
  emits (pb_write (WMem a) count) (clift (load_bytes a (Z.to_nat count))).
Proof.
  intros Hc.
  assert (∀ m0 r m1, clift (S := unit) (load_bytes a (Z.to_nat count)) tt m0 =
    Ret (r, tt) m1 -> m1 = m0 ∧ ∃ bs, r = Some bs ∧
      mread (mem m0) a (Z.to_nat count) = Some bs) as Inv.
  { intros m0 r m1. unfold clift, load_bytes.
    destruct (mread _ _ _) as [bs|] eqn:E; [|done]. intros [= <- <-]. eauto. }
  assert (∀ m0 bs, bytes_ok m0 -> mread (mem m0) a (Z.to_nat count) = Some bs ->
    Forall is_u8 bs ∧ count = Z.of_nat (length bs)) as Bytes.
  { intros m0 bs Hok E. pose proof (length_mread _ _ _ _ E). split; [|lia].
    by eapply mread_forall. }
  split.
  - intros m0 r m1 Hok E. destruct (Inv _ _ _ E) as [-> (bs & -> & E')].
    split; [done|]. intros ? [= <-]. by eapply Bytes.
  - intros m0 m bs Hok He E. destruct (Inv _ _ _ E) as [_ (? & [= <-] & E')].
    destruct (Bytes _ _ Hok E') as [_ ->]. apply pb_write_counts.
  - intros m0 m bs Hok He E. destruct (Inv _ _ _ E) as [_ (? & [= <-] & E')].
    destruct (Bytes _ _ Hok E') as [Hb ->]. apply pb_write_writes; [done| |done].
    simpl. by rewrite Nat2Z.id in E'.
  - intros m0 m bs Hok He E. destruct (Inv _ _ _ E) as [_ (? & [= <-] & E')].
    destruct (Bytes _ _ Hok E') as [Hb ->]. apply pb_write_overflows.
  - intros m0 m Hok He E. destruct (Inv _ _ _ E) as [_ (? & ? & _)]. done.
Qed.
End Compose.
