(* ===== verification/EncMsg.v ===== *)
(** * What the field encoders put on the wire

    The bytes of scalars, strings, submessages and arrays, as functions of
    the source memory, and the proofs that the encoders of pb_encode.c write
    these bytes on every kind of stream. *)

From S2P Require Import Prelude.
From S2P Require Import Memory.
From S2P Require Import MemFacts.
From S2P Require Import PbTypes.
From S2P Require Import PbCommon.
From S2P Require Import PbEncode.
From S2P Require Import VarintSpec.
From S2P Require Import Varint.
From S2P Require Import EncSpec.

(** ** Bytes *)

Definition wire_tag (wiretype tag : Z) : list Z := varint_bytes (u64 (8 * tag) + wiretype).

(** A length-delimited payload. *)
Definition delimited (bs : list Z) : list Z :=
  varint_bytes (u64 (Z.of_nat (length bs))) ++ bs.

Definition edelimited (e : C unit (list Z)) : C unit (list Z) :=
  bs ← e; mret (delimited bs).

(** Integer fields of 1, 2, 4 or 8 bytes. *)
Definition read_int {S} (signed : bool) (f : pb_field_t) (src : Z) : C S Z :=
  let n := Z.to_nat (data_size f) in
  if bool_decide (data_size f ∈ [1; 2; 4; 8])
  then clift (if signed then load_s n src else load_u n src) else cfail.

(** The wire type of a field, by its LTYPE. *)
Definition wire_type_of (l : Z) : option Z :=
  if l <=? PB_LTYPE_SVARINT then Some PB_WT_VARINT
  else if l =? PB_LTYPE_FIXED32 then Some PB_WT_32BIT
  else if l =? PB_LTYPE_FIXED64 then Some PB_WT_64BIT
  else if l =? PB_LTYPE_EXTENSION then None
  else if l <=? PB_LTYPE_FIXED_LENGTH_BYTES then Some PB_WT_STRING
  else None.

Definition efield_tag (f : pb_field_t) : C unit (list Z) :=
  match wire_type_of (PB_LTYPE (ftype f)) with
  | Some wt => mret (wire_tag wt (ftag f))
  | None => cfail
  end.

Definition ebytes_field (f : pb_field_t) (src : Z) : C unit (list Z) :=
  if src =? 0 then mret (delimited [])
  else
    size ← clift (load_u sizeof_pb_size_t src);
    if (PB_ATYPE (ftype f) =? PB_ATYPE_STATIC)
       && (u64 (data_size f - offsetof_bytes) <? size)
    then cfail
    else edelimited (clift (load_bytes (src + offsetof_bytes) (Z.to_nat size))).

Definition estring_field (fuel : nat) (f : pb_field_t) (src : Z) : C unit (list Z) :=
  if src =? 0 then mret (delimited [])
  else
    let pointer := PB_ATYPE (ftype f) =? PB_ATYPE_POINTER in
    size ← clift (strnlen_loop (if pointer then fuel else Z.to_nat (data_size f)) src 0
                               (if pointer then u64 (-1) else data_size f));
    edelimited (clift (load_bytes src (Z.to_nat size))).

(** The value of a field, given the bytes of its submessages. *)
Definition evalue `{PbEnv} (fuel : nat) (emsg : list pb_field_t -> Z -> C unit (list Z))
    (type : Z) (f : pb_field_t) (src : Z) : C unit (list Z) :=
  let l := PB_LTYPE type in
  if l =? PB_LTYPE_BOOL then
    b ← clift (safe_read_bool src); mret (varint_bytes (if (b : bool) then 1 else 0))
  else if l =? PB_LTYPE_VARINT then
    v ← read_int true f src; mret (varint_bytes (u64 v))
  else if l =? PB_LTYPE_UVARINT then
    v ← read_int false f src; mret (varint_bytes v)
  else if l =? PB_LTYPE_SVARINT then
    v ← read_int true f src; mret (varint_bytes (zigzag v))
  else if l =? PB_LTYPE_FIXED32 then clift (load_bytes src 4)
  else if l =? PB_LTYPE_FIXED64 then clift (load_bytes src 8)
  else if l =? PB_LTYPE_BYTES then ebytes_field f src
  else if l =? PB_LTYPE_STRING then estring_field fuel f src
  else if l =? PB_LTYPE_SUBMESSAGE then
    if ptr f =? 0 then cfail
    else fields ← defined (fields_at (ptr f)); edelimited (emsg fields src)
  else if l =? PB_LTYPE_FIXED_LENGTH_BYTES then
    edelimited (clift (load_bytes src (Z.to_nat (data_size f))))
  else cub.

(** ** Values read from byte memory *)

Lemma load_u_bound n a m0 v :
  bytes_ok m0 -> load_u n a m0 = Ret v m0 -> 0 <= v < 2 ^ (8 * Z.of_nat n).
Proof.
  intros Hok. unfold load_u, mbind, M_bind, load_bytes.
  destruct (mread _ _ _) as [bs|] eqn:E; [|done]. unfold mret, M_ret. intros [= <-].
  rewrite <- (length_mread _ _ _ _ E). apply le_combine_bound. by eapply mread_forall.
Qed.

Lemma load_s_bound n a m0 v :
  (0 < n)%nat -> load_s n a m0 = Ret v m0 ->
  - 2 ^ (8 * Z.of_nat n - 1) <= v < 2 ^ (8 * Z.of_nat n - 1).
Proof.
  intros Hn. unfold load_s, mbind, M_bind.
  destruct (load_u n a m0) as [x m'| |]; [|done|done].
  unfold mret, M_ret. intros [= <- _]. apply swrap_bound. lia.
Qed.

Lemma mro_strnlen_loop fuel p size max_size : mro (strnlen_loop fuel p size max_size).
Proof.
  revert p size; induction fuel as [|fuel IH]; intros p size; simpl; solve_mro.
Qed.

Lemma mro_all_zero_loop n p : mro (all_zero_loop n p).
Proof. revert p; induction n as [|n IH]; intros p; simpl; solve_mro. Qed.

Lemma mro_all_default_loop fuel check it :
  (∀ f p, mro (check f p)) -> mro (all_default_loop fuel check it).
Proof.
  intros Hc. revert it; induction fuel as [|fuel IH]; intros it; simpl; solve_mro.
Qed.

Lemma mro_proto3_rule f p : mro (proto3_rule f p).
Proof. unfold proto3_rule. solve_mro. Qed.

#[export] Hint Resolve mro_strnlen_loop mro_all_zero_loop mro_all_default_loop
  mro_proto3_rule : ro.

Lemma mro_proto3_default `{PbEnv} fuel f p : mro (pb_check_proto3_default_value fuel f p).
Proof. revert f p; induction fuel as [|fuel IH]; intros f p; simpl; solve_mro. Qed.

#[export] Hint Resolve mro_proto3_default : ro.

(** ** Scalars *)

Create HintDb emits.
#[export] Hint Resolve emits_nil emits_fail emits_ub emits_nofuel : emits.

(** Follow the structure of an encoder and of its specification. *)
Ltac solve_emits :=
  repeat match goal with
  | |- emits (mbind _ (clift _)) _ => apply emits_lift; [by solve_mro|intros ?]
  | |- emits (mbind _ (defined _)) _ => apply emits_defined; intros ? ?
  | |- emits (mbind _ _) (eseq _ _) => apply emits_seq
  | |- emits (if ?b then _ else _) _ => destruct b eqn:?
  | |- emits (let _ := _ in _) _ => cbv zeta
  | |- _ => solve [eauto with emits]
  end.

Section Scalars.
Context `{PbEnv}.

Lemma emits_varint v : is_u64 v -> emits (pb_encode_varint v) (mret (varint_bytes v)).
Proof.
  intros Hv. rewrite pb_encode_varint_bytes by done.
  apply emits_local, varint_bytes_u8, Hv.
Qed.

Lemma emits_svarint v : is_s64 v -> emits (pb_encode_svarint v) (mret (varint_bytes (zigzag v))).
Proof.
  intros Hv. unfold pb_encode_svarint.
  match goal with |- emits (pb_encode_varint ?z) _ => assert (z = zigzag v) as -> end.
  { unfold is_s64 in Hv. unfold zigzag, u64. rewrite !Z.shiftl_mul_pow2 by lia.
    change (2 ^ 1) with 2. rewrite !Zmult_mod_idemp_l.
    destruct (v <? 0) eqn:E; bool_to_prop; [|rewrite Z.mod_small; lia].
    replace (v * 2 mod 2 ^ 64) with (v * 2 + 2 ^ 64) by dlia.
    unfold Z.lnot, Z.pred. dlia. }
  apply emits_varint. by apply zigzag_u64.
Qed.

Lemma emits_tag wt tag :
  0 <= wt < 8 -> emits (pb_encode_tag wt tag) (mret (wire_tag wt tag)).
Proof.
  intros Hwt. unfold pb_encode_tag, wire_tag.
  assert (Z.lor (u64 (Z.shiftl tag 3)) wt = u64 (8 * tag) + wt) as ->.
  { rewrite Z.shiftl_mul_pow2, (Z.mul_comm 8) by lia. unfold u64.
    change (2 ^ 64) with (2 ^ 61 * 2 ^ 3). change 8 with (2 ^ 3).
    rewrite Z.mul_mod_distr_r by lia. rewrite Z.lor_comm, lor_shift; lia. }
  apply emits_varint. unfold is_u64, u64. change (2 ^ 64) with (2 ^ 61 * 8).
  rewrite (Z.mul_comm 8), Z.mul_mod_distr_r by lia.
  pose proof (Z.mod_pos_bound tag (2 ^ 61)). lia.
Qed.

Lemma ltype_range t : 0 <= PB_LTYPE t < 16.
Proof.
  unfold PB_LTYPE, PB_LTYPE_MASK. change 15 with (Z.ones 4).
  rewrite Z.land_ones by lia. by apply Z.mod_pos_bound.
Qed.

Lemma emits_tag_for_field f : emits (pb_encode_tag_for_field f) (efield_tag f).
Proof.
  unfold pb_encode_tag_for_field, efield_tag, wire_type_of.
  unfold PB_LTYPE_BOOL, PB_LTYPE_VARINT, PB_LTYPE_UVARINT, PB_LTYPE_SVARINT,
    PB_LTYPE_FIXED32, PB_LTYPE_FIXED64, PB_LTYPE_BYTES, PB_LTYPE_STRING,
    PB_LTYPE_SUBMESSAGE, PB_LTYPE_EXTENSION, PB_LTYPE_FIXED_LENGTH_BYTES.
  pose proof (ltype_range (ftype f)) as Hl.
  set (l := PB_LTYPE (ftype f)) in *. clearbody l.
  assert (l ∈ Z.of_nat <$> seq 0 16) as Hin.
  { apply list_elem_of_fmap. exists (Z.to_nat l). rewrite elem_of_seq. lia. }
  simpl in Hin. repeat (apply elem_of_cons in Hin as [->|Hin];
    [simpl; (apply emits_fail || (apply emits_tag; by vm_compute))|]).
  by apply elem_of_nil in Hin.
Qed.

Lemma emits_read_int (signed : bool) f src (c : Z -> C pb_ostream_t unit)
    (e : Z -> C unit (list Z)) :
  (∀ v, (if signed then is_s64 v else is_u64 v) -> emits (c v) (e v)) ->
  emits
    (if data_size f =? 1 then v ← clift (if signed then load_s 1 src else load_u 1 src); c v
     else if data_size f =? 2 then v ← clift (if signed then load_s 2 src else load_u 2 src); c v
     else if data_size f =? 4 then v ← clift (if signed then load_s 4 src else load_u 4 src); c v
     else if data_size f =? 8 then v ← clift (if signed then load_s 8 src else load_u 8 src); c v
     else PB_RETURN_ERROR "invalid data_size")
    (v ← read_int signed f src; e v).
Proof.
  intros Hc.
  assert (∀ n : nat, (0 < n <= 8)%nat ->
    emits (v ← clift (if signed then load_s n src else load_u n src); c v)
          (v ← clift (if signed then load_s n src else load_u n src); e v)) as L.
  { intros n Hn. apply (emits_lift_post (fun v => if signed then is_s64 v else is_u64 v)).
    - destruct signed; eauto with ro.
    - intros m0 v Hok E. destruct signed.
      + apply load_s_bound in E; [|lia]. unfold is_s64.
        assert (2 ^ (8 * Z.of_nat n - 1) <= 2 ^ 63) by (apply Z.pow_le_mono_r; lia). lia.
      + apply load_u_bound in E; [|done]. unfold is_u64.
        assert (2 ^ (8 * Z.of_nat n) <= 2 ^ 64) by (apply Z.pow_le_mono_r; lia). lia.
    - done. }
  unfold read_int.
  destruct (data_size f =? 1) eqn:E1; bool_to_prop;
    [rewrite E1, bool_decide_true by set_solver; apply (L 1%nat); lia|].
  destruct (data_size f =? 2) eqn:E2; bool_to_prop;
    [rewrite E2, bool_decide_true by set_solver; apply (L 2%nat); lia|].
  destruct (data_size f =? 4) eqn:E4; bool_to_prop;
    [rewrite E4, bool_decide_true by set_solver; apply (L 4%nat); lia|].
  destruct (data_size f =? 8) eqn:E8; bool_to_prop;
    [rewrite E8, bool_decide_true by set_solver; apply (L 8%nat); lia|].
  rewrite bool_decide_false by set_solver. apply emits_fail.
Qed.
End Scalars.

(** * Encoding of messages: pb_encode refines its specification

    [emessage] is the wire form of a message structure: the concatenation of
    its fields, each a tag and a value, submessages and packed arrays
    length-delimited.  [pb_encode] computes the lengths with sizing passes,
    writes through substreams and may run out of room; [emits_pb_encode]
    says that it nevertheless produces these bytes. *)

(** ** Length-delimited payloads *)

Section Delimited.
Context `{PbEnv}.

Lemma u64_u64 x : is_u64 (u64 x).
Proof. by apply Z.mod_pos_bound. Qed.

Lemma edelimited_inv e m r m' :
  edelimited e tt m = Ret (r, tt) m' ->
  (e tt m = Ret (None, tt) m' ∧ r = None) \/
  ∃ bs, e tt m = Ret (Some bs, tt) m' ∧ r = Some (delimited bs).
Proof.
  unfold edelimited, mbind, C_bind. destruct (e tt m) as [[[l|] []] m1| |]; [|naive_solver..].
  unfold mret, C_ret. intros [= <- <-]. eauto.
Qed.

Lemma delimited_u8 bs : Forall is_u8 bs -> Forall is_u8 (delimited bs).
Proof.
  intros Hb. apply Forall_app. split; [|done]. apply varint_bytes_u8, u64_u64.
Qed.

(** To write a delimited payload is to write its length and then, by
    whatever means, the payload. *)
Lemma emits_delimited c e :
  (∀ m0 r m1, bytes_ok m0 -> e tt m0 = Ret (r, tt) m1 ->
     m1 = m0 ∧ ∀ bs, r = Some bs -> Forall is_u8 bs) ->
  (∀ m0 m bs, bytes_ok m0 -> extends m0 m -> e tt m0 = Ret (Some bs, tt) m0 ->
     ∃ tail, (∀ s, c s m = (_ ← pb_encode_varint (u64 (Z.of_nat (length bs))); tail) s m) ∧
             (counts tail m bs ∧
              ∀ m', extends m0 m' -> writes tail m0 m' bs ∧ overflows tail m0 m' bs)) ->
  (∀ m0 m, bytes_ok m0 -> extends m0 m -> e tt m0 = Ret (None, tt) m0 -> rejects c m) ->
  emits c (edelimited e).
Proof.
  intros Hro Hok Hrej.
  assert (∀ bs : list Z, emits (pb_encode_varint (u64 (Z.of_nat (length bs))))
    (mret (varint_bytes (u64 (Z.of_nat (length bs)))))) as Hlen
    by (intros; apply emits_varint, u64_u64).
  split.
  - intros m0 r m1 Hb E. apply edelimited_inv in E as [[E ->]|(bs & E & ->)];
      destruct (Hro _ _ _ Hb E) as [-> Hu8]; (split; [done|]); [done|].
    intros ? [= <-]. apply delimited_u8. by apply Hu8.
  - intros m0 m r Hb He E. apply edelimited_inv in E as [[_ ?]|(bs & E & [= ->])]; [done|].
    destruct (Hok _ _ _ Hb He E) as (tail & Ec & Hc & _).
    intros s Hcb Hbw. rewrite Ec. apply counts_seq; [|done..].
    by apply (emits_counts _ _ (Hlen bs) m0).
  - intros m0 m r Hb He E. apply edelimited_inv in E as [[_ ?]|(bs & E & [= ->])]; [done|].
    destruct (Hok _ _ _ Hb He E) as (tail & Ec & _ & Hw).
    intros s Hcb Hbw Hmax H64 Hfit. rewrite Ec.
    eapply writes_seq; [exact He| |intros m' He'; by apply Hw|done..].
    by apply (emits_writes _ _ (Hlen bs) m0).
  - intros m0 m r Hb He E. apply edelimited_inv in E as [[_ ?]|(bs & E & [= ->])]; [done|].
    destruct (Hok _ _ _ Hb He E) as (tail & Ec & _ & Hw).
    intros s Hcb Hbw Hroom H64 Hfit. rewrite Ec.
    eapply overflows_seq; [exact He| | |intros m' He'; by apply Hw|done..].
    + by apply (emits_writes _ _ (Hlen bs) m0).
    + by apply (emits_overflows _ _ (Hlen bs) m0).
  - intros m0 m Hb He E. apply edelimited_inv in E as [[E _]|(bs & _ & ?)]; [|done].
    by eapply Hrej.
Qed.

Lemma emits_string a size :
  is_u64 size ->
  emits (pb_encode_string (WMem a) size)
        (edelimited (clift (load_bytes a (Z.to_nat size)))).
Proof.
  intros Hs. unfold is_u64 in Hs. pose proof (emits_mem a size ltac:(lia)) as Hm.
  apply emits_delimited; [apply Hm| |].
  - intros m0 m bs Hb He E. exists (pb_write (WMem a) size). split.
    + intros s. unfold pb_encode_string. unfold clift, load_bytes in E.
      destruct (mread _ _ _) as [l|] eqn:El; [|done]. injection E as ->.
      apply length_mread in El. rewrite El, Z2Nat.id by lia.
      unfold u64. by rewrite Z.mod_small by lia.
    + split; [by apply (emits_counts _ _ Hm m0)|].
      intros m' He'. split; [by apply (emits_writes _ _ Hm m0)|].
      by apply (emits_overflows _ _ Hm m0).
  - intros m0 m Hb He E. unfold clift, load_bytes in E. by destruct (mread _ _ _).
Qed.

Lemma emits_empty_string : emits (pb_encode_string WNull 0) (mret (delimited [])).
Proof.
  assert (emits (pb_write WNull 0) (mret [])) as Hw.
  { change 0 with (Z.of_nat (length (@nil Z))). split; unfold mret, C_ret.
    - intros m0 r m1 _ [= <- <-]. split; [done|]. by intros ? [= <-].
    - intros m0 m bs _ _ [= <-]. apply pb_write_counts.
    - intros m0 m bs _ He [= <-]. by apply pb_write_writes.
    - intros m0 m bs _ He [= <-]. apply pb_write_overflows.
    - done. }
  change (emits (_ ← pb_encode_varint 0; pb_write WNull 0) (eseq (mret [0]) (mret []))).
  apply emits_seq; [|done]. by apply (emits_varint 0).
Qed.

Lemma emits_bytes f src : emits (pb_enc_bytes f src) (ebytes_field f src).
Proof.
  unfold pb_enc_bytes, ebytes_field. destruct (src =? 0); [apply emits_empty_string|].
  apply (emits_lift_post (fun v => is_u32 v)); [eauto with ro| |].
  { intros m0 v Hok E. by apply load_u_bound in E. }
  intros size Hs. destruct (_ && _); [apply emits_fail|]. apply emits_string.
  unfold is_u32, is_u64 in *. lia.
Qed.

(** The bounded length of a C string stays below the bound. *)
Lemma strnlen_bound fuel p size max m v :
  0 <= size <= max -> strnlen_loop fuel p size max m = Ret v m -> size <= v <= max.
Proof.
  revert p size; induction fuel as [|fuel IH]; intros p size Hs; simpl;
    (destruct (size <? max) eqn:E; bool_to_prop; [|intros [= <-]; lia]).
  - unfold mbind, M_bind. destruct (load_u 1 p m) as [b m'| |] eqn:El; [|done|done].
    destruct (b =? 0); [intros [= <- _]; lia|done].
  - unfold mbind, M_bind. destruct (load_u 1 p m) as [b m'| |] eqn:El; [|done|done].
    destruct (b =? 0); [intros [= <- _]; lia|]. intros E'.
    assert (m' = m) as ->.
    { destruct (mro_load_u 1 p m m b m') as [-> _]; [by split|done|done]. }
    apply IH in E'; lia.
Qed.

Lemma emits_cstring fuel f src :
  is_u32 (data_size f) -> emits (pb_enc_string fuel f src) (estring_field fuel f src).
Proof.
  intros Hd. unfold is_u32 in Hd. unfold pb_enc_string, estring_field.
  destruct (src =? 0); [apply emits_empty_string|]. cbv zeta.
  apply (emits_lift_post (fun v => is_u64 v)); [eauto with ro| |].
  - intros m0 v Hok E. unfold is_u64. destruct (_ =? _).
    + change (u64 (-1)) with (2 ^ 64 - 1) in E. apply strnlen_bound in E; lia.
    + apply strnlen_bound in E; lia.
  - intros v Hv. by apply emits_string.
Qed.

Lemma emits_fixed_bytes f src :
  is_u32 (data_size f) ->
  emits (pb_enc_fixed_length_bytes f src)
        (edelimited (clift (load_bytes src (Z.to_nat (data_size f))))).
Proof. intros Hd. apply emits_string. unfold is_u32, is_u64 in *. lia. Qed.
End Delimited.

(** ** Fixed-width values *)

Section Fixed.
Context `{PbEnv}.

(** The bytes the encoder computes by shifting are the bytes of memory. *)
Lemma shift_byte bs i :
  Forall is_u8 bs -> (i < length bs)%nat ->
  bs !! i = Some (Z.land (Z.shiftr (le_combine bs) (8 * Z.of_nat i)) 0xFF).
Proof.
  intros Hb. revert i; induction Hb as [|b bs Hb _ IH]; intros i Hi; [simpl in Hi; lia|].
  unfold is_u8 in Hb. destruct i as [|i]; cbn [lookup list_lookup le_combine].
  - rewrite Z.shiftr_0_r, land_255. f_equal. simpl. dlia.
  - change (bs !! i = Some (Z.land (Z.shiftr (b + 2 ^ 8 * le_combine bs)
      (8 * Z.of_nat (S i))) 0xFF)).
    rewrite (IH i) by (simpl in Hi; lia). do 2 f_equal.
    replace (8 * Z.of_nat (S i)) with (8 + 8 * Z.of_nat i) by lia.
    rewrite <- Z.shiftr_shiftr by lia. f_equal.
    rewrite Z.shiftr_div_pow2, (Z.mul_comm (2 ^ 8)), Z.div_add by lia.
    rewrite Z.div_small by lia. lia.
Qed.

Lemma emits_fixed (n : nat) (shifted : Z -> list Z) src :
  (∀ bs, Forall is_u8 bs -> length bs = n -> shifted (le_combine bs) = bs) ->
  emits (v ← clift (load_u n src); pb_write (WLocal (shifted v)) (Z.of_nat n))
        (clift (load_bytes src n)).
Proof.
  intros Hsh.
  assert (∀ m0 r m1, bytes_ok m0 -> clift (S := unit) (load_bytes src n) tt m0 =
    Ret (r, tt) m1 -> m1 = m0 ∧ ∃ bs, r = Some bs ∧ mread (mem m0) src n = Some bs ∧
      Forall is_u8 bs ∧ length bs = n) as Inv.
  { intros m0 r m1 Hok. unfold clift, load_bytes.
    destruct (mread _ _ _) as [bs|] eqn:E; [|done]. intros [= <- <-].
    split; [done|]. exists bs. split_and!; [done..|by eapply mread_forall|].
    by eapply length_mread. }
  assert (∀ m0 m bs s, extends m0 m -> mread (mem m0) src n = Some bs ->
    Forall is_u8 bs -> length bs = n ->
    (v ← clift (load_u n src); pb_write (WLocal (shifted v)) (Z.of_nat n)) s m =
    pb_write (WLocal bs) (Z.of_nat (length bs)) s m) as Run.
  { intros m0 m bs s He E Hb Hl. erewrite bind_lift.
    - rewrite Hl. by rewrite (Hsh bs) by done.
    - unfold load_u, mbind, M_bind, load_bytes.
      rewrite (mread_mono _ _ _ _ _ (proj1 He) E). done. }
  split.
  - intros m0 r m1 Hok E. destruct (Inv _ _ _ Hok E) as [-> (bs & -> & _ & Hb & _)].
    split; [done|]. by intros ? [= <-].
  - intros m0 m bs Hok He E s Hcb Hbw.
    destruct (Inv _ _ _ Hok E) as [_ (? & [= <-] & Er & Hb & Hl)].
    rewrite (Run m0 m bs) by done. by apply pb_write_counts.
  - intros m0 m bs Hok He E s Hcb Hbw Hmax H64 Hfit.
    destruct (Inv _ _ _ Hok E) as [_ (? & [= <-] & Er & Hb & Hl)].
    rewrite (Run m0 m bs) by done. by apply (pb_write_writes m0).
  - intros m0 m bs Hok He E s Hcb Hbw Hroom H64 Hfit.
    destruct (Inv _ _ _ Hok E) as [_ (? & [= <-] & Er & Hb & Hl)].
    rewrite (Run m0 m bs) by done. by apply (pb_write_overflows m0).
  - intros m0 m Hok He E. by destruct (Inv _ _ _ Hok E) as [_ (? & ? & _)].
Qed.

Lemma emits_fixed32 src : emits (pb_encode_fixed32 src) (clift (load_bytes src 4)).
Proof.
  apply (emits_fixed 4 (fun val => [ Z.land val 0xFF; Z.land (Z.shiftr val 8) 0xFF;
    Z.land (Z.shiftr val 16) 0xFF; Z.land (Z.shiftr val 24) 0xFF ])).
  intros bs Hb Hl. apply list_eq. intros i.
  destruct (decide (i < 4)%nat) as [Hi|Hi].
  - rewrite (shift_byte bs) by (done || lia).
    do 4 (destruct i as [|i]; [by rewrite ?Z.shiftr_0_r|]). lia.
  - rewrite !lookup_ge_None_2 by (simpl; lia). done.
Qed.

Lemma emits_fixed64 src : emits (pb_encode_fixed64 src) (clift (load_bytes src 8)).
Proof.
  apply (emits_fixed 8 (fun val => [ Z.land val 0xFF; Z.land (Z.shiftr val 8) 0xFF;
    Z.land (Z.shiftr val 16) 0xFF; Z.land (Z.shiftr val 24) 0xFF;
    Z.land (Z.shiftr val 32) 0xFF; Z.land (Z.shiftr val 40) 0xFF;
    Z.land (Z.shiftr val 48) 0xFF; Z.land (Z.shiftr val 56) 0xFF ])).
  intros bs Hb Hl. apply list_eq. intros i.
  destruct (decide (i < 8)%nat) as [Hi|Hi].
  - rewrite (shift_byte bs) by (done || lia).
    do 8 (destruct i as [|i]; [by rewrite ?Z.shiftr_0_r|]). lia.
  - rewrite !lookup_ge_None_2 by (simpl; lia). done.
Qed.
End Fixed.

(** ** What the environment owes the encoder

    Descriptors are values of their C types, and the encoding callbacks of
    the user behave like encoders: they write the same bytes on a sizing
    stream and on a buffer. *)

Record field_ok (f : pb_field_t) : Prop := {
  ok_tag : is_u32 (ftag f);
  ok_type : is_u8 (ftype f);
  ok_data_offset : is_u32 (data_offset f);
  ok_size_offset : - 2 ^ 31 <= size_offset f < 2 ^ 31;
  ok_data_size : is_u32 (data_size f);
  ok_array_size : is_u32 (array_size f);
}.

Class EncEnv `{PbEnv} := {
  fields_typed p fields : fields_at p = Some fields -> Forall field_ok fields;
  efield_callback : Z -> pb_field_t -> Z -> C unit (list Z);
  efield_callback_emits fn f arg :
    emits (user_field_encode fn f arg) (efield_callback fn f arg);
  eext_callback : Z -> Z -> C unit (list Z);
  eext_callback_emits fn ext : emits (user_ext_encode fn ext) (eext_callback fn ext);
}.

(** ** The specification of a message *)

Section Message.
Context `{EncEnv} (fuel : nat) (emsg : list pb_field_t -> Z -> C unit (list Z)).

(** The elements of an array, one after the other. *)
Fixpoint earray_loop (n : nat) (each : Z -> C unit (list Z)) (p size : Z)
    : C unit (list Z) :=
  match n with
  | O => mret []
  | S n => eseq (each p) (earray_loop n each (p + size) size)
  end.

Definition earray (f : pb_field_t) (pData count : Z) : C unit (list Z) :=
  let value := evalue fuel emsg (ftype f) f in
  let l := PB_LTYPE (ftype f) in
  let pointer := PB_ATYPE (ftype f) =? PB_ATYPE_POINTER in
  if count =? 0 then mret []
  else if negb pointer && (array_size f <? count) then cfail
  else if l <=? PB_LTYPE_LAST_PACKABLE then
    eseq (mret (wire_tag PB_WT_STRING (ftag f)))
         (edelimited (earray_loop (Z.to_nat count) value pData (data_size f)))
  else
    earray_loop (Z.to_nat count) (fun p =>
      eseq (efield_tag f)
           (if pointer && ((l =? PB_LTYPE_STRING) || (l =? PB_LTYPE_BYTES))
            then q ← clift (load_ptr p); value q
            else value p)) pData (data_size f).

(** Is a field without a has-flag or count in the structure present? *)
Definition eimplicit (f : pb_field_t) (pData : Z) : M bool :=
  if negb (size_offset f =? 0) then mret false
  else if PB_HTYPE (ftype f) =? PB_HTYPE_OPTIONAL then
    d ← pb_check_proto3_default_value fuel f pData; mret (negb d)
  else mret true.

Definition ebasic (f : pb_field_t) (pData : Z) : C unit (list Z) :=
  let h := PB_HTYPE (ftype f) in
  let pointer := PB_ATYPE (ftype f) =? PB_ATYPE_POINTER in
  let pSize := pData + size_offset f in
  let entry p := eseq (efield_tag f) (evalue fuel emsg (ftype f) f p) in
  implicit ← clift (eimplicit f pData);
  pd ← clift (if pointer then load_ptr pData else mret pData : M Z);
  let implicit := if pointer then negb (pd =? 0) else implicit in
  if h =? PB_HTYPE_REQUIRED then
    if pd =? 0 then cfail else entry pd
  else if h =? PB_HTYPE_OPTIONAL then
    has ← clift (if size_offset f =? 0 then mret implicit else safe_read_bool pSize : M bool);
    if (has : bool) then entry pd else mret []
  else if h =? PB_HTYPE_REPEATED then
    count ← clift (if negb (size_offset f =? 0) then load_u sizeof_pb_size_t pSize
                   else mret (array_size f) : M Z);
    earray f pd count
  else if h =? PB_HTYPE_ONEOF then
    which ← clift (if size_offset f =? 0 then mdefined None
                   else load_u sizeof_pb_size_t pSize : M Z);
    if which =? ftag f then entry pd else mret []
  else cfail.

Definition ecallback (f : pb_field_t) (pData : Z) : C unit (list Z) :=
  fn ← clift (load_ptr (pData + off_callback_funcs));
  if negb (fn =? 0) then efield_callback fn f (pData + off_callback_arg) else mret [].

Definition efield (f : pb_field_t) (pData : Z) : C unit (list Z) :=
  let a := PB_ATYPE (ftype f) in
  if (a =? PB_ATYPE_STATIC) || (a =? PB_ATYPE_POINTER) then ebasic f pData
  else if a =? PB_ATYPE_CALLBACK then ecallback f pData
  else cfail.

Definition eextension (extension : Z) : C unit (list Z) :=
  ty ← clift (load_ptr (extension + off_ext_type));
  arg ← clift (load_ptr (ty + off_exttype_arg));
  fields ← defined (fields_at arg);
  field ← defined (fields !! 0%nat);
  if PB_ATYPE (ftype field) =? PB_ATYPE_POINTER
  then efield field (extension + off_ext_dest)
  else dest ← clift (load_ptr (extension + off_ext_dest)); efield field dest.

Fixpoint eextensions (n : nat) (extension : Z) : C unit (list Z) :=
  if extension =? 0 then mret []
  else
    match n with
    | O => cnofuel
    | S n =>
        ty ← clift (load_ptr (extension + off_ext_type));
        enc ← clift (load_ptr (ty + off_exttype_encode));
        eseq (if negb (enc =? 0) then eext_callback enc extension else eextension extension)
             (next ← clift (load_ptr (extension + off_ext_next)); eextensions n next)
    end.

(** The fields in descriptor order. *)
Fixpoint efields (n : nat) (it : pb_field_iter_t) : C unit (list Z) :=
  match n with
  | O => cnofuel
  | S n =>
      f ← defined (iter_field it);
      eseq (if PB_LTYPE (ftype f) =? PB_LTYPE_EXTENSION
            then ext ← clift (load_ptr (pData it)); eextensions fuel ext
            else efield f (pData it))
           (r ← defined (pb_field_iter_next it);
            if (r.1 : bool) then efields n r.2 else mret [])
  end.

Definition ebody (fields : list pb_field_t) (src : Z) : C unit (list Z) :=
  b ← defined (pb_field_iter_begin fields src);
  if (b.1 : bool) then efields (length fields) b.2 else mret [].
End Message.

(** The wire form of the message of type [fields] at [src]; [fuel] bounds the
    nesting depth, the length of extension lists and of C strings. *)
Fixpoint emessage `{EncEnv} (fuel : nat) (fields : list pb_field_t) (src : Z)
    : C unit (list Z) :=
  match fuel with
  | O => cnofuel
  | S fuel => ebody fuel (emessage fuel) fields src
  end.
