(* ===== verification/EncRefine.v ===== *)
(** * pb_encode implements the message specification *)

From S2P Require Import Prelude.
From S2P Require Import Memory.
From S2P Require Import MemFacts.
From S2P Require Import PbTypes.
From S2P Require Import PbCommon.
From S2P Require Import PbEncode.
From S2P Require Import VarintSpec.
From S2P Require Import Varint.
From S2P Require Import EncSpec.
From S2P Require Import EncMsg.

(** ** Submessages: the sizing pass and the substream *)

Section Submessage.
Context `{PbEnv}.
Context (encode : list pb_field_t -> Z -> C pb_ostream_t unit).

(** [pb_encode_submessage] after the length was written. *)
Definition submsg_tail (fields : list pb_field_t) (src size : Z) : C pb_ostream_t unit :=
  s ← cget;
  if is_sizing s then pb_write WNull size
  else if max_size s <? u64 (bytes_written s + size)
  then PB_RETURN_ERROR "stream full"
  else
    let substream := mk_ostream (ocallback s) (ostate s) size 0 None in
    r ← con substream (encode fields src);
    let sub := r.2 in
    _ ← cmodify (fun s =>
          mk_ostream (ocallback s) (ostate sub) (max_size s)
                     (u64 (bytes_written s + bytes_written sub)) (oerrmsg sub));
    if negb (bytes_written sub =? size)
    then PB_RETURN_ERROR "submsg size changed"
    else cres r.1.

(** A sizing stream takes any count. *)
Lemma pb_write_null_counts (bs : list Z) m :
  counts (pb_write WNull (u64 (Z.of_nat (length bs)))) m bs.
Proof.
  intros s Hcb Hbw. unfold pb_write. rewrite bind_get. unfold is_sizing at 1.
  rewrite Hcb, andb_false_r, bind_ret. unfold cmodify, ocount, u64.
  by rewrite Zplus_mod_idemp_r.
Qed.

Lemma submsg_tail_counts fields src m (bs : list Z) :
  counts (submsg_tail fields src (u64 (Z.of_nat (length bs)))) m bs.
Proof.
  intros s Hcb Hbw. unfold submsg_tail. rewrite bind_get. unfold is_sizing at 1.
  rewrite Hcb. by apply pb_write_null_counts.
Qed.

Lemma submsg_tail_writes fields src m0 m bs :
  writes (encode fields src) m0 m bs ->
  writes (submsg_tail fields src (u64 (Z.of_nat (length bs)))) m0 m bs.
Proof.
  intros Hw s [Hcb Herr] Hbw Hmax H64 Hfit.
  assert (u64 (Z.of_nat (length bs)) = Z.of_nat (length bs)) as ->
    by (apply Z.mod_small; lia).
  set (sub := mk_ostream (ocallback s) (ostate s) (Z.of_nat (length bs)) 0 None).
  destruct (Hw sub) as [mm [Hm E]]; [by split|simpl; lia..|exact Hfit|].
  exists mm. split; [done|]. unfold submsg_tail. rewrite bind_get.
  unfold is_sizing at 1. rewrite Hcb.
  unfold u64. rewrite Z.mod_small by lia.
  destruct (max_size s <? _) eqn:Em; bool_to_prop; [lia|].
  unfold sub in E. rewrite Hcb in E. cbv zeta. rewrite (bind_con _ _ _ _ _ _ _ _ E).
  rewrite bind_modify. simpl. rewrite Z.eqb_refl. simpl.
  unfold mret, C_ret, oadv. rewrite Hcb, Herr, Z.mod_small by lia. done.
Qed.

(** The room is checked before the substream is opened. *)
Lemma submsg_tail_overflows fields src m0 m (bs : list Z) :
  overflows (submsg_tail fields src (u64 (Z.of_nat (length bs)))) m0 m bs.
Proof.
  intros s [Hcb _] Hbw Hroom H64 _. unfold oroom in Hroom.
  eexists _, (mem m). split; [|done]. unfold submsg_tail. rewrite bind_get.
  unfold is_sizing at 1. rewrite Hcb. unfold u64. rewrite Zplus_mod_idemp_r.
  rewrite (Z.mod_small (bytes_written s + _)) by lia.
  destruct (max_size s <? _) eqn:E1; bool_to_prop; [|lia]. by destruct m.
Qed.

Lemma emits_submessage fields src e :
  emits (encode fields src) e ->
  emits (pb_encode_submessage_with encode fields src) (edelimited e).
Proof.
  intros Hf. apply emits_delimited; [apply Hf| |].
  - intros m0 m bs Hb He E.
    exists (submsg_tail fields src (u64 (Z.of_nat (length bs)))). split_and!.
    + intros s. unfold pb_encode_submessage_with.
      erewrite bind_con; [|by apply (emits_counts _ _ Hf m0 m bs)].
      by replace (bytes_written (ocount PB_OSTREAM_SIZING (length bs)))
        with (u64 (Z.of_nat (length bs))).
    + apply submsg_tail_counts.
    + intros m' He'. split; [|apply submsg_tail_overflows].
      apply submsg_tail_writes. by apply (emits_writes _ _ Hf m0).
  - intros m0 m Hb He E s Hcb Hbw. unfold pb_encode_submessage_with.
    destruct (emits_rejects _ _ Hf _ _ Hb He E PB_OSTREAM_SIZING) as [s' E'];
      [done|by vm_compute|].
    erewrite bind_con; [|exact E']. unfold mbind, C_bind, cmodify, cfail. eauto.
Qed.
End Submessage.

(** ** Values *)

Section Values.
Context `{EncEnv} (fuel : nat).
Context (encode : list pb_field_t -> Z -> C pb_ostream_t unit).
Context (emsg : list pb_field_t -> Z -> C unit (list Z)).
Hypothesis encode_emits : ∀ fields src,
  Forall field_ok fields -> emits (encode fields src) (emsg fields src).

Lemma emits_enc_submessage f src :
  emits (pb_enc_submessage encode f src)
    (if ptr f =? 0 then cfail
     else fields ← defined (fields_at (ptr f)); edelimited (emsg fields src)).
Proof.
  unfold pb_enc_submessage. destruct (ptr f =? 0); [apply emits_fail|].
  apply emits_defined. intros fields Hp. apply emits_submessage, encode_emits.
  by eapply fields_typed.
Qed.

Lemma emits_enc_bool f src :
  emits (pb_enc_bool f src)
    (b ← clift (safe_read_bool src); mret (varint_bytes (if (b : bool) then 1 else 0))).
Proof.
  apply emits_lift; [eauto with ro|]. intros b. apply emits_varint.
  unfold is_u64. destruct b; lia.
Qed.

(** Calling through the table [PB_ENCODERS]. *)
Lemma emits_call type f src :
  field_ok f ->
  emits (call_encoder fuel encode type f src) (evalue fuel emsg type f src).
Proof.
  intros Hf. pose proof (ok_data_size _ Hf) as Hd.
  unfold call_encoder, evalue. pose proof (ltype_range type) as Hl.
  set (l := PB_LTYPE type) in *. clearbody l.
  assert (l ∈ Z.of_nat <$> seq 0 16) as Hin.
  { apply list_elem_of_fmap. exists (Z.to_nat l). rewrite elem_of_seq. lia. }
  simpl in Hin.
  apply elem_of_cons in Hin as [->|Hin]; [apply emits_enc_bool|].
  apply elem_of_cons in Hin as [->|Hin].
  { apply (emits_read_int true). intros v _. apply emits_varint, u64_u64. }
  apply elem_of_cons in Hin as [->|Hin].
  { apply (emits_read_int false). intros v Hv. by apply emits_varint. }
  apply elem_of_cons in Hin as [->|Hin].
  { apply (emits_read_int true). intros v Hv. by apply emits_svarint. }
  apply elem_of_cons in Hin as [->|Hin]; [apply emits_fixed32|].
  apply elem_of_cons in Hin as [->|Hin]; [apply emits_fixed64|].
  apply elem_of_cons in Hin as [->|Hin]; [apply emits_bytes|].
  apply elem_of_cons in Hin as [->|Hin]; [by apply emits_cstring|].
  apply elem_of_cons in Hin as [->|Hin]; [apply emits_enc_submessage|].
  apply elem_of_cons in Hin as [->|Hin]; [apply emits_ub|].
  apply elem_of_cons in Hin as [->|Hin]; [by apply emits_fixed_bytes|].
  repeat (apply elem_of_cons in Hin as [->|Hin]; [apply emits_ub|]).
  by apply elem_of_nil in Hin.
Qed.

(** ** Arrays *)

Lemma emits_array_loop n each e p size :
  (∀ p, emits (each p) (e p)) ->
  emits (array_loop n each p size) (earray_loop n e p size).
Proof.
  intros He. revert p; induction n as [|n IH]; intros p; simpl; [apply emits_nil|].
  by apply emits_seq.
Qed.

(** The payload of a packed array of fixed-width elements. *)
Lemma earray_loop_length n e p size k m m' bs :
  (∀ p m m' bs, e p tt m = Ret (Some bs, tt) m' -> length bs = k) ->
  earray_loop n e p size tt m = Ret (Some bs, tt) m' -> length bs = (n * k)%nat.
Proof.
  intros He. revert p m bs; induction n as [|n IH]; intros p m bs; simpl.
  { intros E. injection E as <- _. done. }
  intros E. apply eseq_inv in E as [[_ ?]|(l1 & m1 & E1 & [[_ ?]|(l2 & E2 & [= ->])])];
    [done..|].
  rewrite length_app. by rewrite (He _ _ _ _ E1), (IH _ _ _ E2).
Qed.

Lemma evalue_fixed_length type f k :
  PB_LTYPE type = PB_LTYPE_FIXED32 ∧ k = 4%nat \/
  PB_LTYPE type = PB_LTYPE_FIXED64 ∧ k = 8%nat ->
  ∀ p m m' bs, evalue fuel emsg type f p tt m = Ret (Some bs, tt) m' -> length bs = k.
Proof.
  intros Hk p m m' bs. unfold evalue.
  assert (∀ n, clift (S := unit) (load_bytes p n) tt m = Ret (Some bs, tt) m' ->
    length bs = n) as L.
  { intros n. unfold clift, load_bytes. destruct (mread _ _ _) as [l|] eqn:E; [|done].
    intros [= -> _]. by eapply length_mread. }
  destruct Hk as [[-> ->]|[-> ->]]; simpl; apply L.
Qed.

(** The size [encode_array] computes for a packed field. *)
Definition packed_size (f : pb_field_t) (pData count : Z) : C pb_ostream_t Z :=
  let l := PB_LTYPE (ftype f) in
  if l =? PB_LTYPE_FIXED32 then mret (u64 (4 * count))
  else if l =? PB_LTYPE_FIXED64 then mret (u64 (8 * count))
  else
    r ← con PB_OSTREAM_SIZING
          (array_loop (Z.to_nat count) (call_encoder fuel encode (ftype f) f)
                      pData (data_size f));
    _ ← cres r.1;
    mret (bytes_written r.2).

Lemma packed_size_ok f pData count m0 m bs s :
  field_ok f -> 0 <= count -> bytes_ok m0 -> extends m0 m ->
  earray_loop (Z.to_nat count) (evalue fuel emsg (ftype f) f) pData (data_size f) tt m0 =
    Ret (Some bs, tt) m0 ->
  packed_size f pData count s m = Ret (Some (u64 (Z.of_nat (length bs))), s) m.
Proof.
  intros Hf Hc Hb He E. unfold packed_size.
  destruct (PB_LTYPE (ftype f) =? PB_LTYPE_FIXED32) eqn:E4; bool_to_prop.
  { eapply earray_loop_length in E; [|eapply evalue_fixed_length; left; done].
    rewrite E. unfold mret, C_ret. do 4 f_equal. lia. }
  destruct (PB_LTYPE (ftype f) =? PB_LTYPE_FIXED64) eqn:E8; bool_to_prop.
  { eapply earray_loop_length in E; [|eapply evalue_fixed_length; right; done].
    rewrite E. unfold mret, C_ret. do 4 f_equal. lia. }
  pose proof (emits_array_loop (Z.to_nat count) _ _ pData (data_size f)
    (fun p => emits_call (ftype f) f p Hf)) as Hl.
  erewrite bind_con; [|by apply (emits_counts _ _ Hl m0 m bs)]. done.
Qed.

Lemma packed_size_rejects f pData count m0 m s :
  field_ok f -> bytes_ok m0 -> extends m0 m ->
  earray_loop (Z.to_nat count) (evalue fuel emsg (ftype f) f) pData (data_size f) tt m0 =
    Ret (None, tt) m0 ->
  ∃ s', packed_size f pData count s m = Ret (None, s') m.
Proof.
  intros Hf Hb He E. unfold packed_size.
  assert (∀ n e p sz m m', (∀ p m m', e p tt m <> Ret (None, tt) m') ->
    earray_loop n e p sz tt m <> Ret (None, tt) m') as Never.
  { intros n e p sz m1 m1' Hne. revert p m1. induction n as [|n IH]; intros p m1; simpl; [done|].
    intros E1. apply eseq_inv in E1 as [[E1 _]|(l1 & m2 & _ & [[E2 _]|(? & _ & ?)])];
      [by eapply Hne|by eapply IH|done]. }
  assert (∀ l p m m', PB_LTYPE (ftype f) = l -> l = PB_LTYPE_FIXED32 \/ l = PB_LTYPE_FIXED64 ->
    evalue fuel emsg (ftype f) f p tt m <> Ret (None, tt) m') as Fixed.
  { intros l p m1 m1' Hl Hl'. unfold evalue. rewrite Hl.
    destruct Hl' as [-> | ->]; simpl; unfold clift, load_bytes; by destruct (mread _ _ _). }
  destruct (PB_LTYPE (ftype f) =? PB_LTYPE_FIXED32) eqn:E4; bool_to_prop.
  { exfalso. eapply Never, E. intros. eapply Fixed; eauto. }
  destruct (PB_LTYPE (ftype f) =? PB_LTYPE_FIXED64) eqn:E8; bool_to_prop.
  { exfalso. eapply Never, E. intros. eapply Fixed; eauto. }
  pose proof (emits_array_loop (Z.to_nat count) _ _ pData (data_size f)
    (fun p => emits_call (ftype f) f p Hf)) as Hl.
  destruct (emits_rejects _ _ Hl _ _ Hb He E PB_OSTREAM_SIZING) as [s' E'];
    [done|by vm_compute|].
  exists s. erewrite bind_con; [|exact E']. done.
Qed.

Lemma emits_packed f pData count :
  field_ok f -> 0 <= count ->
  emits
    (size ← packed_size f pData count;
     _ ← pb_encode_varint size;
     s ← cget;
     if is_sizing s then pb_write WNull size
     else array_loop (Z.to_nat count) (call_encoder fuel encode (ftype f) f)
                     pData (data_size f))
    (edelimited (earray_loop (Z.to_nat count) (evalue fuel emsg (ftype f) f)
                             pData (data_size f))).
Proof.
  intros Hf Hc.
  pose proof (emits_array_loop (Z.to_nat count) _ _ pData (data_size f)
    (fun p => emits_call (ftype f) f p Hf)) as Hl.
  apply emits_delimited; [apply Hl| |].
  - intros m0 m bs Hb He E.
    exists (s ← cget;
            if is_sizing s then pb_write WNull (u64 (Z.of_nat (length bs)))
            else array_loop (Z.to_nat count) (call_encoder fuel encode (ftype f) f)
                            pData (data_size f)).
    split_and!.
    + intros s. by erewrite bind_some; [|by eapply packed_size_ok].
    + intros s Hcb Hbw. rewrite bind_get. unfold is_sizing at 1. rewrite Hcb.
      by apply pb_write_null_counts.
    + intros m' He'. split; intros s [Hcb Her] Hbw Hmax H64 Hfit; rewrite bind_get;
        unfold is_sizing at 1; rewrite Hcb.
      * by apply (emits_writes _ _ Hl m0).
      * by eapply (emits_overflows _ _ Hl m0).
  - intros m0 m Hb He E s Hcb Hbw.
    destruct (packed_size_rejects f pData count m0 m s) as [s' E']; [done..|].
    exists s'. by rewrite (bind_none _ _ _ _ _ _ E').
Qed.

Lemma emits_array f pData count :
  field_ok f -> 0 <= count ->
  emits (encode_array fuel encode f pData count) (earray fuel emsg f pData count).
Proof.
  intros Hf Hc. unfold encode_array, earray. cbv zeta.
  destruct (count =? 0); [apply emits_nil|].
  destruct (_ && _); [apply emits_fail|].
  destruct (_ <=? _).
  - apply emits_seq; [by apply emits_tag|]. by apply emits_packed.
  - apply emits_array_loop. intros p. apply emits_seq; [apply emits_tag_for_field|].
    destruct (_ && _); [|by apply emits_call].
    apply emits_lift; [eauto with ro|]. intros q. by apply emits_call.
Qed.
End Values.

(** ** Fields and messages *)

Section Fields.
Context `{EncEnv} (fuel : nat).
Context (encode : list pb_field_t -> Z -> C pb_ostream_t unit).
Context (emsg : list pb_field_t -> Z -> C unit (list Z)).
Hypothesis encode_emits : ∀ fields src,
  Forall field_ok fields -> emits (encode fields src) (emsg fields src).

Lemma emits_entry f p :
  field_ok f ->
  emits (_ ← pb_encode_tag_for_field f; call_encoder fuel encode (ftype f) f p)
        (eseq (efield_tag f) (evalue fuel emsg (ftype f) f p)).
Proof. intros Hf. apply emits_seq; [apply emits_tag_for_field|by apply emits_call]. Qed.

Lemma emits_basic f pData :
  field_ok f -> emits (encode_basic_field fuel encode f pData) (ebasic fuel emsg f pData).
Proof.
  intros Hf. pose proof (emits_entry f) as He. unfold encode_basic_field, ebasic. cbv zeta.
  apply emits_lift; [unfold eimplicit; solve_mro|]. intros implicit.
  apply emits_lift; [solve_mro|]. intros pd.
  case_if; [case_if; [apply emits_fail|by apply He]|].
  case_if.
  { apply emits_lift; [solve_mro|]. intros has. destruct has; [by apply He|apply emits_nil]. }
  case_if.
  { apply (emits_lift_post (fun c => 0 <= c)); [solve_mro| |].
    - intros m0 c Hok E. destruct (negb _); [by apply load_u_bound in E as [? _]|].
      injection E as <-. apply Hf.
    - intros c Hc. by apply emits_array. }
  case_if; [|apply emits_fail].
  apply emits_lift; [solve_mro|]. intros which.
  case_if; [by apply He|apply emits_nil].
Qed.

Lemma emits_callback f pData : emits (encode_callback_field f pData) (ecallback f pData).
Proof.
  unfold encode_callback_field, ecallback. apply emits_lift; [eauto with ro|].
  intros fn. destruct (negb (fn =? 0)); [|apply emits_nil].
  pose proof (efield_callback_emits fn f (pData + off_callback_arg)) as He.
  set (u := user_field_encode _ _ _) in *. set (e := efield_callback _ _ _) in *.
  split; [apply He|..].
  - intros m0 m bs Hb Hx E s Hcb Hbw. erewrite bind_try; [|by apply (emits_counts _ _ He m0 m bs)].
    done.
  - intros m0 m bs Hb Hx E s Hcb Hbw Hmax H64 Hfit.
    destruct (emits_writes _ _ He m0 m bs Hb Hx E s) as [mm [Hw E']]; [done..|].
    exists mm. split; [done|]. by erewrite bind_try; [|exact E'].
  - intros m0 m bs Hb Hx E s Hcb Hbw Hroom H64 Hfit.
    destruct (emits_overflows _ _ He m0 m bs Hb Hx E s) as (s' & mm & E' & Hout); [done..|].
    eexists _, mm. split; [|done]. by erewrite bind_try; [|exact E'].
  - intros m0 m Hb Hx E s Hcb Hbw.
    destruct (emits_rejects _ _ He m0 m Hb Hx E s) as [s' E']; [done..|].
    erewrite bind_try; [|exact E']. unfold PB_RETURN_ERROR. eauto.
Qed.

Lemma emits_field f pData :
  field_ok f -> emits (encode_field fuel encode f pData) (efield fuel emsg f pData).
Proof.
  intros Hf. unfold encode_field, efield. cbv zeta.
  case_if; [by apply emits_basic|]. case_if; [apply emits_callback|apply emits_fail].
Qed.

Lemma emits_extension ext :
  emits (default_extension_encoder fuel encode ext) (eextension fuel emsg ext).
Proof.
  unfold default_extension_encoder, eextension.
  apply emits_lift; [eauto with ro|]. intros ty.
  apply emits_lift; [eauto with ro|]. intros arg.
  apply emits_defined. intros fields Hfs. apply emits_defined. intros f Hf.
  assert (field_ok f) as Hok.
  { eapply Forall_lookup_1; [by eapply fields_typed|exact Hf]. }
  case_if; [by apply emits_field|].
  apply emits_lift; [eauto with ro|]. intros dest. by apply emits_field.
Qed.

Lemma emits_extensions n ext :
  emits (encode_extension_loop fuel encode n ext) (eextensions fuel emsg n ext).
Proof.
  revert ext; induction n as [|n IH]; intros ext; simpl;
    (destruct (ext =? 0); [apply emits_nil|]); [apply emits_nofuel|].
  apply emits_lift; [eauto with ro|]. intros ty.
  apply emits_lift; [eauto with ro|]. intros enc.
  apply emits_seq; [case_if; [apply eext_callback_emits|apply emits_extension]|].
  apply emits_lift; [eauto with ro|]. intros next. apply IH.
Qed.

Lemma iter_next_start it r : pb_field_iter_next it = Some r -> start r.2 = start it.
Proof.
  unfold pb_field_iter_next, pb_field_iter_begin.
  destruct (iter_field it) as [pf|]; simpl; [|done].
  destruct (ftag pf =? 0); [by intros [= <-]|].
  destruct (start it !! S (pos it)) as [f|]; simpl; [|done].
  destruct (ftag f =? 0).
  { destruct (start it !! 0%nat); simpl; [|done].
    destruct (dest_struct it =? 0); by intros [= <-]. }
  destruct (_ && _); by intros [= <-].
Qed.

Lemma emits_fields n it :
  Forall field_ok (start it) ->
  emits (encode_loop fuel encode n it) (efields fuel emsg n it).
Proof.
  revert it; induction n as [|n IH]; intros it Hok; simpl; [apply emits_nofuel|].
  apply emits_defined. intros f Hf.
  assert (field_ok f) as Hfok by (eapply Forall_lookup_1; [exact Hok|exact Hf]).
  apply emits_seq.
  - case_if; [|by apply emits_field].
    apply emits_lift; [eauto with ro|]. intros ext. apply emits_extensions.
  - apply emits_defined. intros r Hr. destruct (r.1); [|apply emits_nil].
    apply IH. by rewrite (iter_next_start _ _ Hr).
Qed.

Lemma emits_body fields src :
  Forall field_ok fields -> emits (encode_body fuel encode fields src) (ebody fuel emsg fields src).
Proof.
  intros Hok. apply emits_defined. intros b Hb. destruct (b.1); [|apply emits_nil].
  apply emits_fields. unfold pb_field_iter_begin in Hb.
  destruct (fields !! 0%nat); simpl in Hb; [|done].
  by destruct (src =? 0); injection Hb as <-.
Qed.
End Fields.

Lemma emits_pb_encode `{EncEnv} fuel fields src :
  Forall field_ok fields -> emits (pb_encode fuel fields src) (emessage fuel fields src).
Proof.
  revert fields src; induction fuel as [|fuel IH]; intros fields src Hok; simpl;
    [apply emits_nofuel|].
  by apply emits_body.
Qed.
