(* ===== verification/CctClient.v ===== *)
(** * GDTCCTNanopbHelpers.m: the uploader's use of the codec

    The two C-level entry points of the telemetry uploader: encoding a batch
    of log requests into a fresh data object, and decoding the response. *)

From S2P Require Import Prelude.
From S2P Require Import Memory.
From S2P Require Import PbTypes.
From S2P Require Import PbCommon.
From S2P Require Import PbIStream.
From S2P Require Import PbDecode.
From S2P Require Import PbEncode.
From S2P Require Import PbFields.
From S2P Require Import Cct.

Section Client.
Context `{PbEnv} (addr : cct_symbol -> Z).
(** Where Core Foundation places a data object of [n] bytes. *)
Context (CFDataCreateMutable : mstate -> Z -> Z).

(** [CFDataCreateMutable] and [CFDataSetLength]: [n] zero bytes. *)
Definition new_data (n : Z) : M Z := fun m =>
  let a := CFDataCreateMutable m n in
  Ret a (MState (mmap (mem m) a (replicate (Z.to_nat n) 0)) (heap m)).

(** Run [pb_encode] on a stream, whatever it returns: the errors are only
    logged. *)
Definition encode_on (fuel : nat) (s : pb_ostream_t) (request : Z) : M pb_ostream_t := fun m =>
  match pb_encode fuel (gdt_cct_BatchedLogRequest_fields addr) request s m with
  | Ret (_, s) m => Ret s m
  | Ub => Ub
  | NoFuel => NoFuel
  end.

Definition GDTCCTEncodeBatchedLogRequest (fuel : nat) (request : Z) : M (list Z) :=
  sizestream ← encode_on fuel PB_OSTREAM_SIZING request;
  let bufferSize := bytes_written sizestream in
  dataRef ← new_data bufferSize;
  _ ← encode_on fuel (pb_ostream_from_buffer dataRef bufferSize) request;
  load_bytes dataRef (Z.to_nat bufferSize).

(** The response structure is at [response]; [init_default] is all zero
    except for the pointer fields, which are NULL, hence zero too. The
    result is the error message, if any. *)
Definition GDTCCTDecodeLogResponse (fuel : nat) (data length response : Z)
    : M (option string) := fun m =>
  match memset0 response (sizeof gdt_cct_LogResponse) m with
  | Ret _ m =>
      match pb_decode fuel (gdt_cct_LogResponse_fields addr) response
              (pb_istream_from_buffer (IMem data) length) m with
      | Ret (Some _, _) m => Ret None m
      | Ret (None, s) m =>
          match memset0 response (sizeof gdt_cct_LogResponse) m with
          | Ret _ m => Ret (Some (PB_GET_ERROR s)) m
          | Ub => Ub
          | NoFuel => NoFuel
          end
      | Ub => Ub
      | NoFuel => NoFuel
      end
  | Ub => Ub
  | NoFuel => NoFuel
  end.
End Client.
