(* ===== verification/Base64.v ===== *)
(** * fbase64.c: base-64 conversion in the web-socket handshake

    [f_b64_ntop] and [f_b64_pton], over the byte memory.  [char] is signed on
    the targets; [isspace] is that of the C locale and undefined on a negative
    argument other than [EOF]. *)

From S2P Require Import Prelude.
From S2P Require Import Memory.

(** ** Characters *)

(** The bytes of a string constant. *)
Definition chars (s : string) : list Z :=
  (fun c => Z.of_N (Ascii.N_of_ascii c)) <$> String.list_ascii_of_string s.

Definition Base64 : list Z :=
  chars "ABCDEFGHIJKLMNOPQRSTUVWXYZabcdefghijklmnopqrstuvwxyz0123456789+/".

Definition Pad64 : Z := 61.

(** [isspace] of the C locale: space, \t, \n, \v, \f, \r. *)
Definition isspace (ch : Z) : option bool :=
  if (-1 <=? ch) && (ch <=? 255) then Some ((ch =? 32) || ((9 <=? ch) && (ch <=? 13)))
  else None.

(** [strchr(Base64, ch) - Base64], for [ch] other than NUL. *)
Definition strchr_Base64 (ch : Z) : option Z :=
  match list_find (fun c => c = ch) Base64 with
  | Some (i, _) => Some (Z.of_nat i)
  | None => None
  end.

(** ** f_b64_ntop *)

(** [Base64[output]]; the array has a NUL at its end. *)
Definition digit (output : Z) : M Z := mdefined ((Base64 ++ [0]) !! Z.to_nat output).

(** The four [output] values of an input group; the results are [u_char]. *)
Definition output0 (i0 : Z) : Z := Z.shiftr i0 2.
Definition output1 (i0 i1 : Z) : Z :=
  u8 (Z.shiftl (Z.land i0 0x03) 4 + Z.shiftr i1 4).
Definition output2 (i1 i2 : Z) : Z :=
  u8 (Z.shiftl (Z.land i1 0x0f) 2 + Z.shiftr i2 6).
Definition output3 (i2 : Z) : Z := Z.land i2 0x3f.

(** [target[datalength++] = c] for each of the characters. *)
Fixpoint put_chars (target datalength : Z) (cs : list Z) : M Z :=
  match cs with
  | [] => mret datalength
  | c :: cs =>
      _ ← store_u 1 (target + datalength) c;
      put_chars target (u64 (datalength + 1)) cs
  end.

(** [while (2 < srclength)]: the new [src], [srclength] and [datalength], or
    [None] for [return (-1)]. *)
Fixpoint ntop_loop (fuel : nat) (src srclength target targsize datalength : Z)
    : M (option (Z * Z * Z)) :=
  if 2 <? srclength then
    match fuel with
    | O => M_nofuel
    | S fuel =>
        i0 ← load_u 1 src;
        i1 ← load_u 1 (src + 1);
        i2 ← load_u 1 (src + 2);
        if targsize <? u64 (datalength + 4) then mret None
        else
          c0 ← digit (output0 i0);
          c1 ← digit (output1 i0 i1);
          c2 ← digit (output2 i1 i2);
          c3 ← digit (output3 i2);
          datalength ← put_chars target datalength [c0; c1; c2; c3];
          ntop_loop fuel (src + 3) (srclength - 3) target targsize datalength
    end
  else mret (Some (src, srclength, datalength)).

(** The padding: [None] for [return (-1)]. *)
Definition ntop_padding (src srclength target targsize datalength : Z) : M (option Z) :=
  if srclength =? 0 then mret (Some datalength)
  else
    i0 ← load_u 1 src;
    i1 ← (if 1 <? srclength then load_u 1 (src + 1) else mret 0 : M Z);
    let i2 := 0 in
    if targsize <? u64 (datalength + 4) then mret None
    else
      c0 ← digit (output0 i0);
      c1 ← digit (output1 i0 i1);
      c2 ← (if srclength =? 1 then mret Pad64 else digit (output2 i1 i2) : M Z);
      datalength ← put_chars target datalength [c0; c1; c2; Pad64];
      mret (Some datalength).

Definition f_b64_ntop (src srclength target targsize : Z) : M Z :=
  r ← ntop_loop (Z.to_nat srclength) src srclength target targsize 0;
  match r with
  | None => mret (-1)
  | Some (src, srclength, datalength) =>
      r ← ntop_padding src srclength target targsize datalength;
      match r with
      | None => mret (-1)
      | Some datalength =>
          if targsize <=? datalength then mret (-1)
          else
            _ ← store_u 1 (target + datalength) 0;
            mret (s32 datalength)
      end
  end.

(** ** f_b64_pton *)

(** [ch = *src++] through a [char const *]. *)
Definition load_char (src : Z) : M Z := load_s 1 src.

(** [target[i] = v] and [target[i] |= v]. *)
Definition set_target (target i v : Z) : M unit := store_u 1 (target + i) v.
Definition or_target (target i v : Z) : M unit :=
  old ← load_u 1 (target + i);
  store_u 1 (target + i) (Z.lor old v).

(** One arm of the [switch (state)] of the loop for the digit [v]:
    [None] for [return (-1)], else the new [tarindex] and [state]. *)
Definition pton_digit (target targsize tarindex state v : Z) : M (option (Z * Z)) :=
  if state =? 0 then
    if target =? 0 then mret (Some (tarindex, 1))
    else if targsize <=? tarindex then mret None
    else
      _ ← set_target target tarindex (Z.shiftl v 2);
      mret (Some (tarindex, 1))
  else if state =? 1 then
    if target =? 0 then mret (Some (u32 (tarindex + 1), 2))
    else if targsize <=? u32 (tarindex + 1) then mret None
    else
      _ ← or_target target tarindex (Z.shiftr v 4);
      _ ← set_target target (u32 (tarindex + 1)) (Z.shiftl (Z.land v 0x0f) 4);
      mret (Some (u32 (tarindex + 1), 2))
  else if state =? 2 then
    if target =? 0 then mret (Some (u32 (tarindex + 1), 3))
    else if targsize <=? u32 (tarindex + 1) then mret None
    else
      _ ← or_target target tarindex (Z.shiftr v 2);
      _ ← set_target target (u32 (tarindex + 1)) (Z.shiftl (Z.land v 0x03) 6);
      mret (Some (u32 (tarindex + 1), 3))
  else
    if target =? 0 then mret (Some (u32 (tarindex + 1), 0))
    else if targsize <=? tarindex then mret None
    else
      _ ← or_target target tarindex v;
      mret (Some (u32 (tarindex + 1), 0)).

(** The main loop: the last [ch] (NUL or the pad), [src] after it, [tarindex]
    and [state], or [None] for [return (-1)]. *)
Fixpoint pton_loop (fuel : nat) (src target targsize tarindex state : Z)
    : M (option (Z * Z * Z * Z)) :=
  match fuel with
  | O => M_nofuel
  | S fuel =>
      ch ← load_char src;
      let src := src + 1 in
      if ch =? 0 then mret (Some (ch, src, tarindex, state))
      else
        space ← mdefined (isspace ch);
        if (space : bool) then pton_loop fuel src target targsize tarindex state
        else if ch =? Pad64 then mret (Some (ch, src, tarindex, state))
        else
          match strchr_Base64 ch with
          | None => mret None
          | Some v =>
              r ← pton_digit target targsize tarindex state v;
              match r with
              | None => mret None
              | Some (tarindex, state) => pton_loop fuel src target targsize tarindex state
              end
          end
  end.

(** [for (; ch != '\0'; ch = *src++) if (!isspace(ch)) break;]: the character
    it stops at and the [src] after it. *)
Fixpoint skip_spaces (fuel : nat) (ch src : Z) : M (Z * Z) :=
  if ch =? 0 then mret (ch, src)
  else
    match fuel with
    | O => M_nofuel
    | S fuel =>
        space ← mdefined (isspace ch);
        if negb (space : bool) then mret (ch, src)
        else
          ch ← load_char src;
          skip_spaces fuel ch (src + 1)
    end.

(** What follows a valid pad: only spaces, and no bits left over. *)
Definition pton_tail (fuel : nat) (ch src target tarindex : Z) : M Z :=
  r ← skip_spaces fuel ch src;
  if negb (r.1 =? 0) then mret (-1)
  else if target =? 0 then mret (s32 tarindex)
  else
    extra ← load_u 1 (target + tarindex);
    if negb (extra =? 0) then mret (-1) else mret (s32 tarindex).

(** After the loop, by the state it ended in. *)
Definition pton_end (fuel : nat) (ch src target tarindex state : Z) : M Z :=
  if ch =? Pad64 then
    ch ← load_char src;
    let src := src + 1 in
    if (state =? 0) || (state =? 1) then mret (-1)
    else if state =? 2 then
      r ← skip_spaces fuel ch src;
      if negb (r.1 =? Pad64) then mret (-1)
      else
        ch ← load_char r.2;
        pton_tail fuel ch (r.2 + 1) target tarindex
    else pton_tail fuel ch src target tarindex
  else if negb (state =? 0) then mret (-1)
  else mret (s32 tarindex).

(** [fuel]: more than the length of the string at [src]. *)
Definition f_b64_pton (fuel : nat) (src target targsize : Z) : M Z :=
  r ← pton_loop fuel src target targsize 0 0;
  match r with
  | None => mret (-1)
  | Some (ch, src, tarindex, state) => pton_end fuel ch src target tarindex state
  end.

(** ** Reference definitions *)

(** The digits of the groups of a byte string, and the padding. *)
Fixpoint sextets (bs : list Z) : list Z :=
  match bs with
  | i0 :: i1 :: i2 :: bs =>
      i0 / 4 :: i0 mod 4 * 16 + i1 / 16 :: i1 mod 16 * 4 + i2 / 64 :: i2 mod 64 :: sextets bs
  | [i0; i1] => [i0 / 4; i0 mod 4 * 16 + i1 / 16; i1 mod 16 * 4]
  | [i0] => [i0 / 4; i0 mod 4 * 16]
  | [] => []
  end.

Definition pads (n : nat) : nat :=
  match (n mod 3)%nat with 1%nat => 2%nat | 2%nat => 1%nat | _ => 0%nat end.

Definition digit_char (v : Z) : Z := default 0 (Base64 !! Z.to_nat v).

(** The base-64 text of RFC 1521. *)
Definition b64_encode (bs : list Z) : list Z :=
  (digit_char <$> sextets bs) ++ replicate (pads (length bs)) Pad64.

(** The text without its white space. *)
Definition is_space (c : Z) : Prop := isspace c = Some true.
#[export] Instance is_space_dec c : Decision (is_space c).
Proof. unfold is_space. apply _. Defined.

Definition strip (cs : list Z) : list Z := filter (fun c => ~ is_space c) cs.
