(* ===== verification/CctImage.v ===== *)
(** * A linked image of the telemetry messages

    A concrete address for every constant of cct.nanopb.c, the environment
    that goes with it, and structures in memory: the inputs on which the
    theorems of the development are evaluated. *)

From S2P Require Import Prelude.
From S2P Require Import Memory.
From S2P Require Import PbTypes.
From S2P Require Import PbCommon.
From S2P Require Import PbEncode.
From S2P Require Import PbFields.
From S2P Require Import Cct.
From S2P Require Import EncSpec.
From S2P Require Import EncMsg.

Definition cct_addr (s : cct_symbol) : Z :=
  match s with
  | network_type_default => 0x1000 | mobile_subtype_default => 0x1004
  | qos_tier_default => 0x1008 | log_source_default => 0x100C
  | LogEvent_fields => 0x2000 | NetworkConnectionInfo_fields => 0x2100
  | IosClientInfo_fields => 0x2200 | ClientInfo_fields => 0x2300
  | BatchedLogRequest_fields => 0x2400 | LogRequest_fields => 0x2500
  | QosTierConfiguration_fields => 0x2600 | QosTiersOverride_fields => 0x2700
  | LogResponse_fields => 0x2800
  end.

Definition cct_tables : list cct_symbol :=
  [ LogEvent_fields; NetworkConnectionInfo_fields; IosClientInfo_fields;
    ClientInfo_fields; BatchedLogRequest_fields; LogRequest_fields;
    QosTierConfiguration_fields; QosTiersOverride_fields; LogResponse_fields ].

(** The table found at an address. *)
Definition cct_fields_at (a : Z) : option (list pb_field_t) :=
  match list_find (fun s => cct_addr s = a) cct_tables with
  | Some (_, s) => cct_table cct_addr s
  | None => None
  end.

(** No user callbacks; an allocator that hands out fresh addresses. *)
Definition cct_env : PbEnv := {|
  fields_at := cct_fields_at;
  user_read _ _ _ := mdefined None;
  user_write _ _ _ := mdefined None;
  user_field_decode _ _ _ := cub;
  user_field_encode _ _ _ := cub;
  user_ext_decode _ _ _ _ := cub;
  user_ext_encode _ _ := cub;
  realloc_choice m p n :=
    Some (map_fold (fun k _ acc => Z.max acc (k + 16)) 0x100000 (mem m), fun _ => 0xAA);
|}.

(** ** Decidability of the side conditions *)

#[export] Instance is_u8_dec x : Decision (is_u8 x).
Proof. unfold is_u8. apply _. Defined.
#[export] Instance is_u32_dec x : Decision (is_u32 x).
Proof. unfold is_u32. apply _. Defined.
#[export] Instance is_u64_dec x : Decision (is_u64 x).
Proof. unfold is_u64. apply _. Defined.
#[export] Instance bytes_ok_dec m : Decision (bytes_ok m).
Proof. unfold bytes_ok. apply _. Defined.
#[export] Instance extends_dec m0 m : Decision (extends m0 m).
Proof. unfold extends. apply _. Defined.

Definition field_okb (f : pb_field_t) : bool :=
  bool_decide (is_u32 (ftag f)) && bool_decide (is_u8 (ftype f))
  && bool_decide (is_u32 (data_offset f))
  && (-2 ^ 31 <=? size_offset f) && (size_offset f <? 2 ^ 31)
  && bool_decide (is_u32 (data_size f)) && bool_decide (is_u32 (array_size f)).

Lemma field_okb_ok fields : forallb field_okb fields = true -> Forall field_ok fields.
Proof.
  intros Hf. apply Is_true_true, forallb_True in Hf. revert Hf. apply Forall_impl.
  intros f Hb. apply Is_true_true in Hb. unfold field_okb in Hb. bool_to_prop.
  repeat match goal with H : bool_decide _ = true |- _ => apply bool_decide_eq_true in H end.
  by split.
Qed.

(** [n] mapped addresses outside the source. *)
Definition fitsb (a : Z) (m0 m : mstate) (n : nat) : bool :=
  forallb (fun i => let x := a + Z.of_nat i in
    bool_decide (is_Some (mem m !! x)) && bool_decide (mem m0 !! x = None)) (seq 0 n).

Lemma fitsb_ok a m0 m n :
  fitsb a m0 m n = true ->
  ∀ i, 0 <= i < Z.of_nat n -> is_Some (mem m !! (a + i)) ∧ mem m0 !! (a + i) = None.
Proof.
  unfold fitsb. rewrite forallb_forall. intros Hf i Hi.
  specialize (Hf (Z.to_nat i)). rewrite Z2Nat.id in Hf by lia.
  rewrite <- list_elem_of_In, elem_of_seq in Hf. specialize (Hf ltac:(lia)).
  bool_to_prop. split; by eapply bool_decide_eq_true.
Qed.

Lemma cct_fields_typed p fields : cct_fields_at p = Some fields -> Forall field_ok fields.
Proof.
  unfold cct_fields_at. destruct (list_find _ _) as [[i s]|] eqn:E; [|done].
  intros Ht. apply field_okb_ok.
  destruct s; simpl in Ht; try discriminate Ht; injection Ht as <-; by vm_compute.
Qed.

#[local] Existing Instance cct_env.

Definition cct_enc_env : EncEnv := {|
  fields_typed := cct_fields_typed;
  efield_callback _ _ _ := cub;
  efield_callback_emits _ _ _ := emits_ub;
  eext_callback _ _ := cub;
  eext_callback_emits _ _ := emits_ub;
|}.

(** ** A structure to encode

    At 0x9000 a [gdt_cct_LogResponse] with [next_request_wait_millis = 1234]
    and a [qos_tier] of one configuration, (UNMETERED_ONLY, 99), at 0x9100,
    fingerprint 300.  At 0x1000 the default values. *)

Definition response_config : list Z :=
  [1;0;0;0] ++ le_split 4 1 ++ [1;0;0;0] ++ le_split 4 99.

Definition response_struct : list Z :=
  [1;0;0;0;0;0;0;0] ++ le_split 8 1234 ++
  [1;0;0;0;0;0;0;0] ++
  le_split 4 1 ++ [0;0;0;0] ++ le_split 8 0x9100 ++
  [1;0;0;0;0;0;0;0] ++ le_split 8 300.

Definition cct_constants : gmap Z Z := mmap ∅ 0x1000 (le_split 4 (-1) ++ replicate 12 0).

Definition response_mem : mstate :=
  MState (mmap (mmap cct_constants 0x9000 response_struct) 0x9100 response_config)
         {[ 0x9100 := 16 ]}.

(** The same with an output buffer of [n] bytes at 0xA000. *)
Definition response_out (n : nat) : mstate :=
  MState (mmap (mem response_mem) 0xA000 (replicate n 0)) (heap response_mem).

Definition response_bytes : list Z :=
  [0x08; 0xD2; 0x09; 0x1A; 0x09; 0x0A; 0x04; 0x10; 0x01; 0x18; 0x63; 0x10; 0xAC; 0x02].

(** Evaluate the side conditions of a theorem on the image. *)
Ltac cct_eval :=
  match goal with
  | |- Forall field_ok _ => apply field_okb_ok; vm_compute; reflexivity
  | |- bytes_ok _ => eapply bool_decide_eq_true; vm_compute; reflexivity
  | |- extends _ _ => eapply bool_decide_eq_true; vm_compute; reflexivity
  | |- _ = _ => vm_compute; reflexivity
  | |- _ => refine (fitsb_ok _ _ _ _ _); vm_compute; reflexivity
  | |- _ => vm_compute; split; congruence
  end.
