(* ===== verification/EncodeThms.v ===== *)
(** * Theorems on pb_encode

    The refinement of EncRefine.v, stated for the entry points of the
    library, and the two-pass encoding of the uploader. *)

From S2P Require Import Prelude.
From S2P Require Import Memory.
From S2P Require Import MemFacts.
From S2P Require Import PbTypes.
From S2P Require Import PbCommon.
From S2P Require Import PbEncode.
From S2P Require Import Cct.
From S2P Require Import CctClient.
From S2P Require Import VarintSpec.
From S2P Require Import Varint.
From S2P Require Import EncSpec.
From S2P Require Import EncMsg.
From S2P Require Import EncRefine.
From S2P Require Import CctImage.

(** The bytes [emessage] specifies, for a memory it does not change. *)
Definition wire_form `{EncEnv} (fuel : nat) (fields : list pb_field_t) (src : Z) (m : mstate)
    (r : option (list Z)) : Prop :=
  emessage fuel fields src tt m = Ret (r, tt) m.

(** A buffer of [size] bytes at [buf] that is not part of the source [m0]. *)
Definition buffer_at (m0 m : mstate) (buf : Z) (size : nat) : Prop :=
  ∀ i, 0 <= i < Z.of_nat size ->
    is_Some (mem m !! (buf + i)) ∧ mem m0 !! (buf + i) = None.

(** C29. [pb_encode] into a buffer of any size.  When the wire form of the
    structure fits, the call returns true, the buffer starts with exactly
    these bytes, [bytes_written] is their number and nothing else in memory
    changed; when it does not fit, the call returns false and no byte outside
    the buffer was written. *)
Theorem pb_encode_buffer_exact `{EncEnv} fuel fields src m0 m buf (size : nat) bs :
  Forall field_ok fields -> bytes_ok m0 -> extends m0 m ->
  wire_form fuel fields src m0 (Some bs) ->
  Z.of_nat size < 2 ^ 64 -> Z.of_nat (length bs) < 2 ^ 64 ->
  buffer_at m0 m buf size ->
  if (length bs <=? size)%nat then
    ∃ mm, mwrite (mem m) buf bs = Some mm ∧
      pb_encode fuel fields src (pb_ostream_from_buffer buf (Z.of_nat size)) m =
        Ret (Some tt, mk_ostream OCb_buf_write (buf + Z.of_nat (length bs)) (Z.of_nat size)
                                 (Z.of_nat (length bs)) None) (MState mm (heap m))
  else
    ∃ s mm, pb_encode fuel fields src (pb_ostream_from_buffer buf (Z.of_nat size)) m =
        Ret (None, s) (MState mm (heap m)) ∧
      ∀ x, x < buf \/ buf + Z.of_nat size <= x -> mm !! x = mem m !! x.
Proof.
  intros Hf Hb He Hw Hs Hl Hbuf. pose proof (emits_pb_encode fuel fields src Hf) as Hem.
  destruct (_ <=? _)%nat eqn:E; [apply Nat.leb_le in E|apply Nat.leb_gt in E].
  - destruct (emits_writes _ _ Hem m0 m bs Hb He Hw (pb_ostream_from_buffer buf (Z.of_nat size)))
      as [mm [Hmw Hrun]]; [done|simpl; lia..| |].
    { intros i Hi. apply Hbuf. lia. }
    exists mm. split; [done|]. exact Hrun.
  - destruct (emits_overflows _ _ Hem m0 m bs Hb He Hw
      (pb_ostream_from_buffer buf (Z.of_nat size))) as (s & mm & Hrun & Hout);
      [done|simpl; lia|unfold oroom; simpl; lia|simpl; lia| |].
    { intros i Hi. apply Hbuf. unfold oroom in Hi; simpl in Hi. lia. }
    exists s, mm. split; [done|]. intros x Hx. apply Hout. unfold oroom; simpl. lia.
Qed.

Lemma pb_encode_buffer_exact_witness :
  (∃ mm, mwrite (mem (response_out 20)) 0xA000 response_bytes = Some mm ∧
    @pb_encode cct_env 5 (gdt_cct_LogResponse_fields cct_addr) 0x9000
      (pb_ostream_from_buffer 0xA000 20) (response_out 20) =
      Ret (Some tt, mk_ostream OCb_buf_write 0xA00E 20 14 None)
          (MState mm (heap (response_out 20)))) ∧
  (∃ s mm, @pb_encode cct_env 5 (gdt_cct_LogResponse_fields cct_addr) 0x9000
      (pb_ostream_from_buffer 0xA000 13) (response_out 13) =
      Ret (None, s) (MState mm (heap (response_out 13))) ∧
      ∀ x, x < 0xA000 \/ 0xA00D <= x -> mm !! x = mem (response_out 13) !! x).
Proof.
  split.
  - apply (@pb_encode_buffer_exact cct_env cct_enc_env 5
      (gdt_cct_LogResponse_fields cct_addr) 0x9000 response_mem (response_out 20)
      0xA000 20 response_bytes); cct_eval.
  - apply (@pb_encode_buffer_exact cct_env cct_enc_env 5
      (gdt_cct_LogResponse_fields cct_addr) 0x9000 response_mem (response_out 13)
      0xA000 13 response_bytes); cct_eval.
Defined.

(** [pb_get_encoded_size] returns the length of the wire form without
    touching memory, and returns false exactly when the structure has no wire
    form (an array count over its bound, a missing required pointer, a bad
    descriptor). *)
Lemma pb_get_encoded_size_exact `{EncEnv} fuel fields src m r :
  Forall field_ok fields -> bytes_ok m -> wire_form fuel fields src m r ->
  pb_get_encoded_size fuel fields src m =
    Ret ((fun bs => u64 (Z.of_nat (length bs))) <$> r) m.
Proof.
  intros Hf Hb Hw. pose proof (emits_pb_encode fuel fields src Hf) as Hem.
  assert (extends m m) as He by done. unfold pb_get_encoded_size.
  destruct r as [bs|].
  - erewrite (emits_counts _ _ Hem m m bs) by done. done.
  - destruct (emits_rejects _ _ Hem m m Hb He Hw PB_OSTREAM_SIZING) as [s E]; [done|by vm_compute|].
    by rewrite E.
Qed.

(** [pb_encode_delimited] writes the length of the message as a varint in
    front of it, and [pb_encode_nullterminated] a zero byte after it. *)
Lemma pb_encode_framed_exact `{EncEnv} fuel fields src m0 m bs :
  Forall field_ok fields -> bytes_ok m0 -> extends m0 m ->
  wire_form fuel fields src m0 (Some bs) ->
  writes (pb_encode_delimited fuel fields src) m0 m
    (varint_bytes (u64 (Z.of_nat (length bs))) ++ bs) ∧
  writes (pb_encode_nullterminated fuel fields src) m0 m (bs ++ [0]).
Proof.
  intros Hf Hb He Hw. pose proof (emits_pb_encode fuel fields src Hf) as Hem. split.
  - eapply (emits_writes _ _ (emits_submessage _ _ _ _ Hem)); [done..|].
    unfold edelimited. by rewrite (bind_some _ _ _ _ _ _ _ Hw).
  - eapply writes_seq; [done|by eapply emits_writes|]. intros m' He'.
    apply (pb_write_writes m0 m' (WLocal [0]) [0]); [done..|]. by repeat constructor.
Qed.

(** ** The uploader *)

Lemma mmap_lookup m a bs x :
  mmap m a bs !! x =
  if decide (a <= x < a + Z.of_nat (length bs)) then bs !! Z.to_nat (x - a) else m !! x.
Proof.
  revert a; induction bs as [|b bs IH]; intros a; simpl; [case_decide; [lia|done]|].
  destruct (decide (x = a)) as [->|Hne].
  - rewrite lookup_insert_eq, decide_True, Z.sub_diag by lia. done.
  - rewrite lookup_insert_ne, IH by done. repeat case_decide; try lia; try done.
    replace (Z.to_nat (x - a)) with (S (Z.to_nat (x - (a + 1)))) by lia. done.
Qed.

(** C32. The two passes of the uploader agree: encoding a batch of log requests
    returns the complete wire form of the batch, whatever fresh block Core
    Foundation hands out, because the buffer pass writes exactly as many
    bytes as the sizing pass counted. *)
Theorem GDTCCTEncodeBatchedLogRequest_complete `{EncEnv} addr cf fuel request m bs :
  Forall field_ok (gdt_cct_BatchedLogRequest_fields addr) -> bytes_ok m ->
  wire_form fuel (gdt_cct_BatchedLogRequest_fields addr) request m (Some bs) ->
  Z.of_nat (length bs) < 2 ^ 64 ->
  (∀ i, 0 <= i < Z.of_nat (length bs) ->
     mem m !! (cf m (Z.of_nat (length bs)) + i) = None) ->
  ∃ m', GDTCCTEncodeBatchedLogRequest addr cf fuel request m = Ret bs m' ∧
        extends m m'.
Proof.
  intros Hf Hb Hw Hl Hfresh. pose proof (emits_pb_encode fuel _ request Hf) as Hem.
  set (n := Z.of_nat (length bs)) in *. set (buf := cf m n).
  set (m1 := MState (mmap (mem m) buf (replicate (Z.to_nat n) 0)) (heap m)).
  assert (extends m m1) as He1.
  { split; [|done]. apply map_subseteq_spec. intros x b Hx. simpl.
    rewrite mmap_lookup, length_replicate. case_decide; [|done].
    pose proof (Hfresh (x - buf) ltac:(lia)) as Hn. unfold buf in *.
    replace (cf m n + (x - cf m n)) with x in Hn by lia. congruence. }
  assert (fits (pb_ostream_from_buffer buf n) m m1 (length bs)) as Hfit.
  { intros i Hi. split; [|by apply Hfresh]. simpl.
    rewrite mmap_lookup, length_replicate, decide_True by lia.
    apply lookup_lt_is_Some. rewrite length_replicate. lia. }
  destruct (emits_writes _ _ Hem m m1 bs Hb He1 Hw (pb_ostream_from_buffer buf n))
    as [mm [Hmw Hrun]]; [done|simpl; lia..|done|].
  exists (MState mm (heap m1)). split; [|by eapply extends_mwrite].
  unfold GDTCCTEncodeBatchedLogRequest.
  erewrite mbind_ret.
  2: { unfold encode_on. erewrite (emits_counts _ _ Hem m m bs) by done. reflexivity. }
  cbn [bytes_written ocount set_bytes_written PB_OSTREAM_SIZING]. rewrite Z.add_0_l.
  unfold u64. rewrite Z.mod_small by lia. fold n.
  erewrite mbind_ret; [|reflexivity]. fold buf. fold m1.
  erewrite mbind_ret; [|unfold encode_on; rewrite Hrun; reflexivity].
  unfold load_bytes, n. rewrite Nat2Z.id. apply mread_mwrite_eq in Hmw. simpl in *.
  by rewrite Hmw.
Qed.

(** A batch of one request: log source 42, no events, QoS tier NEVER. *)
Definition batch_mem : mstate :=
  let request :=
    replicate 80 0 ++ [1;0;0;0] ++ le_split 4 42 ++ replicate 48 0 ++ [1;0;0;0] ++ le_split 4 4 in
  MState (mmap (mmap cct_constants 0x9000 (le_split 4 1 ++ replicate 4 0 ++ le_split 8 0x9100))
               0x9100 request) ∅.

Lemma GDTCCTEncodeBatchedLogRequest_complete_witness :
  ∃ m', @GDTCCTEncodeBatchedLogRequest cct_env cct_addr (fun _ _ => 0xA000) 5 0x9000 batch_mem =
    Ret [0x0A; 0x04; 0x10; 0x2A; 0x48; 0x04] m' ∧ extends batch_mem m'.
Proof.
  apply (@GDTCCTEncodeBatchedLogRequest_complete cct_env cct_enc_env cct_addr
    (fun _ _ => 0xA000) 5 0x9000 batch_mem [0x0A; 0x04; 0x10; 0x2A; 0x48; 0x04]);
    [cct_eval..|].
  intros i Hi. by apply (fitsb_ok 0xA000 batch_mem
    (MState (mmap (mem batch_mem) 0xA000 (replicate 6 0)) ∅) 6); [vm_compute|].
Defined.
