(* ===== verification/IterFacts.v ===== *)
(** * The field iterator of pb_common.c is correct

    A descriptor array stores offsets relative to the previous field.  Here
    the absolute offsets are computed once, [field_offset], and the iterator
    is shown to stand at them, to visit every field of a message in turn and
    to find the field of a tag if and only if there is one. *)

From S2P Require Import Prelude.
From S2P Require Import Memory.
From S2P Require Import PbTypes.
From S2P Require Import PbCommon.

(** ** Absolute positions *)

(** The size of the C object of a field, as [pb_field_iter_next] skips it. *)
Definition field_extent (f : pb_field_t) : Z :=
  if (PB_ATYPE (ftype f) =? PB_ATYPE_STATIC) && (PB_HTYPE (ftype f) =? PB_HTYPE_REPEATED)
  then u64 (data_size f * array_size f)
  else if PB_ATYPE (ftype f) =? PB_ATYPE_POINTER then Z.of_nat sizeof_ptr
  else data_size f.

(** Members of one union share their place. *)
Definition same_union (prev f : pb_field_t) : bool :=
  (PB_HTYPE (ftype prev) =? PB_HTYPE_ONEOF) && (PB_HTYPE (ftype f) =? PB_HTYPE_ONEOF)
  && (data_offset f =? PB_SIZE_MAX).

(** Offsets of the data and of the count or has-flag of the fields [fs],
    after the field [prev] that lies at [off]. *)
Fixpoint offsets_from (prev : pb_field_t) (off : Z * Z) (fs : list pb_field_t)
    : list (Z * Z) :=
  match fs with
  | [] => []
  | f :: fs =>
      let off' :=
        if same_union prev f then off
        else let pd := off.1 + field_extent prev + data_offset f in (pd, pd + size_offset f) in
      off' :: offsets_from f off' fs
  end.

Definition field_offsets (fields : list pb_field_t) : list (Z * Z) :=
  match fields with
  | [] => []
  | f :: fs =>
      let off := (data_offset f, data_offset f + size_offset f) in
      off :: offsets_from f off fs
  end.

Definition is_required (f : pb_field_t) : bool := PB_HTYPE (ftype f) =? PB_HTYPE_REQUIRED.

(** How many of the first [i] fields are required. *)
Definition required_before (fields : list pb_field_t) (i : nat) : Z :=
  Z.of_nat (length (filter (fun f => is_required f = true) (take i fields))).

(** ** Descriptor tables *)

(** At least one field, and a terminator at the end and nowhere else. *)
Record table_ok (fields : list pb_field_t) (n : nat) : Prop := {
  table_length : length fields = S n;
  table_some : (0 < n)%nat;
  table_fields i f : (i < n)%nat -> fields !! i = Some f -> ftag f <> 0;
  table_last f : fields !! n = Some f -> ftag f = 0;
  table_small : Z.of_nat n < 2 ^ 32;
}.

Definition table_okb (fields : list pb_field_t) : bool :=
  let n := (length fields - 1)%nat in
  (1 <? length fields)%nat && (Z.of_nat n <? 2 ^ 32)
  && forallb (fun f => negb (ftag f =? 0)) (take n fields)
  && forallb (fun f => ftag f =? 0) (drop n fields).

Lemma table_okb_ok fields : table_okb fields = true -> table_ok fields (length fields - 1).
Proof.
  unfold table_okb. intros Ht. bool_to_prop.
  repeat match goal with H : (_ <? _)%nat = true |- _ => apply Nat.ltb_lt in H end.
  split; [lia|lia| | |lia].
  - intros i f Hi Hf. eapply forallb_forall in H1.
    + by apply negb_true_iff, Z.eqb_neq in H1.
    + apply list_elem_of_In. eapply list_elem_of_lookup_2.
      rewrite lookup_take_lt by exact Hi. exact Hf.
  - intros f Hf. eapply forallb_forall in H0.
    + by apply Z.eqb_eq in H0.
    + apply list_elem_of_In. eapply list_elem_of_lookup_2 with (i := 0%nat).
      rewrite lookup_drop, Nat.add_0_r. exact Hf.
Qed.

(** ** Facts on the positions *)

Lemma length_offsets_from prev off fs : length (offsets_from prev off fs) = length fs.
Proof. revert prev off; induction fs as [|f fs IH]; intros prev off; simpl; [done|]. by rewrite IH. Qed.

Lemma length_field_offsets fields : length (field_offsets fields) = length fields.
Proof. destruct fields; simpl; [done|]. by rewrite length_offsets_from. Qed.

Lemma offsets_from_S prev off fs i p f o :
  (prev :: fs) !! i = Some p -> fs !! i = Some f ->
  (off :: offsets_from prev off fs) !! i = Some o ->
  offsets_from prev off fs !! i =
    Some (if same_union p f then o
          else let pd := o.1 + field_extent p + data_offset f in (pd, pd + size_offset f)).
Proof.
  revert prev off i; induction fs as [|g fs IH]; intros prev off i; simpl; [done|].
  destruct i as [|i]; simpl; [by intros [= ->] [= ->] [= ->]|].
  intros Hp Hf Ho. by apply IH.
Qed.

Lemma field_offsets_S fields i p f o :
  fields !! i = Some p -> fields !! S i = Some f -> field_offsets fields !! i = Some o ->
  field_offsets fields !! S i =
    Some (if same_union p f then o
          else let pd := o.1 + field_extent p + data_offset f in (pd, pd + size_offset f)).
Proof. destruct fields as [|g fs]; [done|]. simpl. apply offsets_from_S. Qed.

Lemma required_before_S fields i f :
  fields !! i = Some f ->
  required_before fields (S i) = required_before fields i + (if is_required f then 1 else 0).
Proof.
  intros Hf. unfold required_before. rewrite (take_S_r _ _ _ Hf), list.filter_app, length_app.
  destruct (is_required f) eqn:Er.
  - rewrite filter_cons_True by done. simpl. lia.
  - rewrite filter_cons_False by congruence. simpl. lia.
Qed.

Lemma required_before_le fields i : (required_before fields i <= Z.of_nat i).
Proof.
  unfold required_before.
  assert (length (filter (fun f => is_required f = true) (take i fields)) <= i)%nat; [|lia].
  etrans; [apply list.length_filter|]. rewrite length_take. lia.
Qed.

(** ** The iterator stands at a field *)

Section Iter.
Context (fields : list pb_field_t) (n : nat) (dest : Z).
Hypothesis Htab : table_ok fields n.

(** The iterator is at field [i]. While a fixed-count array is decoded its
    [pSize] points to the local counter instead. *)
Record iter_at (i : nat) (it : pb_field_iter_t) : Prop := {
  at_lt : (i < n)%nat;
  at_start : start it = fields;
  at_pos : pos it = i;
  at_index : required_field_index it = required_before fields i;
  at_dest : dest_struct it = dest;
  at_data : ∃ o, field_offsets fields !! i = Some o ∧ pData it = dest + o.1 ∧
    (pSize it = SAddr (dest + o.2) \/
     pSize it = SLocal ∧ ∃ f, fields !! i = Some f ∧ PB_HTYPE (ftype f) = PB_HTYPE_REPEATED);
}.

Lemma iter_at_field i it : iter_at i it -> ∃ f, iter_field it = Some f ∧ fields !! i = Some f ∧ ftag f <> 0.
Proof.
  intros Hi. destruct (lookup_lt_is_Some_2 fields i) as [f Hf].
  { rewrite (table_length _ _ Htab). pose proof (at_lt _ _ Hi). lia. }
  exists f. unfold iter_field. rewrite (at_start _ _ Hi), (at_pos _ _ Hi). split_and!; [done..|].
  eapply table_fields; [done| |done]. apply Hi.
Qed.

Lemma iter_begin_at :
  dest <> 0 -> ∃ it, pb_field_iter_begin fields dest = Some (true, it) ∧ iter_at 0 it.
Proof.
  intros Hd. pose proof (table_length _ _ Htab) as Hl. pose proof (table_some _ _ Htab).
  destruct (lookup_lt_is_Some_2 fields 0) as [f Hf]; [lia|].
  assert (ftag f <> 0) by (by eapply (table_fields _ _ Htab 0)).
  unfold pb_field_iter_begin. rewrite Hf. simpl.
  destruct (dest =? 0) eqn:E0; bool_to_prop; [done|].
  destruct (ftag f =? 0) eqn:E; bool_to_prop; [done|]. eexists. split; [done|].
  split; simpl; [lia|done..|]. exists (data_offset f, data_offset f + size_offset f).
  split_and!; [by destruct fields; simplify_eq/=|done|]. left. f_equal. simpl. lia.
Qed.

Lemma iter_next_at i it :
  dest <> 0 -> iter_at i it ->
  ∃ it', pb_field_iter_next it = Some ((S i <? n)%nat, it') ∧
         iter_at (if (S i <? n)%nat then S i else 0%nat) it'.
Proof.
  intros Hd Hi. destruct (iter_at_field _ _ Hi) as (p & Hp & Hp' & Htag).
  pose proof (at_lt _ _ Hi). pose proof (table_length _ _ Htab) as Hl.
  destruct (lookup_lt_is_Some_2 fields (S i)) as [f Hf]; [lia|].
  unfold pb_field_iter_next. rewrite Hp. simpl.
  destruct (ftag p =? 0) eqn:E; bool_to_prop; [done|].
  rewrite (at_start _ _ Hi), (at_pos _ _ Hi), Hf. simpl.
  destruct (S i <? n)%nat eqn:En; [apply Nat.ltb_lt in En|apply Nat.ltb_ge in En].
  - assert (ftag f <> 0) by (eapply table_fields; [exact Htab|exact En|done]).
    destruct (ftag f =? 0) eqn:Ef; bool_to_prop; [done|].
    destruct (at_data _ _ Hi) as (o & Ho & Hpd & Hps).
    pose proof (field_offsets_S _ _ _ _ _ Hp' Hf Ho) as Ho'.
    fold (same_union p f). fold (field_extent p). fold (is_required p).
    pose proof (required_before_S _ _ _ Hp') as Hrb.
    destruct (same_union p f) eqn:Eu.
    + eexists. split; [done|]. unfold same_union in Eu. bool_to_prop.
      split; simpl; [done|done|done| |by apply Hi|].
      * rewrite (at_index _ _ Hi), Hrb. unfold is_required. rewrite H1. simpl. lia.
      * exists o. split_and!; [done..|]. destruct Hps as [Hps|[_ (f' & Hf' & Hh)]].
        -- left. by rewrite Hps.
        -- rewrite Hp' in Hf'. injection Hf' as <-. rewrite H1 in Hh. done.
    + eexists. split; [done|]. split; simpl; [done|done|done| |by apply Hi|].
      * rewrite (at_index _ _ Hi), Hrb.
        pose proof (required_before_le fields i). pose proof (table_small _ _ Htab).
        assert (0 <= required_before fields i) by (unfold required_before; lia).
        destruct (is_required p); [|lia]. unfold u32. rewrite Z.mod_small; lia.
      * eexists. split_and!; [exact Ho'|simpl; lia|]. left. f_equal. simpl. lia.
  - assert (ftag f = 0) as Hz.
    { eapply table_last; [exact Htab|]. by replace n with (S i) by lia. }
    rewrite Hz, (at_dest _ _ Hi). simpl.
    destruct (iter_begin_at Hd) as (it0 & E0 & H0). rewrite E0. simpl. eauto.
Qed.

(** ** Searching *)

Definition matches (tag : Z) (f : pb_field_t) : bool :=
  (ftag f =? tag) && negb (PB_LTYPE (ftype f) =? PB_LTYPE_EXTENSION).

(** A cyclic search loop over the iterator, as in [pb_field_iter_find] and
    [find_extension_field]: it stops at the first match, or back at the
    start. *)
Definition search_step (P : pb_field_t -> bool)
    (loop : nat -> nat -> pb_field_iter_t -> option (bool * pb_field_iter_t)) : Prop :=
  ∀ fuel start_pos it f, iter_field it = Some f ->
    loop (S fuel) start_pos it =
      if P f then Some (true, it)
      else r ← pb_field_iter_next it;
           if Nat.eqb (pos r.2) start_pos then Some (false, r.2)
           else loop fuel start_pos r.2.

(** The position [d] steps after [i]. *)
Definition cyc (i d : nat) : nat := if (i + d <? n)%nat then (i + d)%nat else (i + d - n)%nat.

Lemma cyc_S i d :
  (i < n)%nat -> (d < n)%nat -> cyc i (S d) =
  if (S (cyc i d) <? n)%nat then S (cyc i d) else 0%nat.
Proof.
  intros Hi Hd. unfold cyc.
  destruct (i + d <? n)%nat eqn:E1; destruct (i + S d <? n)%nat eqn:E2;
    repeat match goal with
    | H : (_ <? _)%nat = true |- _ => apply Nat.ltb_lt in H
    | H : (_ <? _)%nat = false |- _ => apply Nat.ltb_ge in H
    end; try lia.
  - destruct (S (i + d) <? n)%nat eqn:E3; [lia|apply Nat.ltb_ge in E3; lia].
  - destruct (S (i + d) <? n)%nat eqn:E3; [apply Nat.ltb_lt in E3; lia|]. lia.
  - destruct (S (i + d - n) <? n)%nat eqn:E3; [lia|apply Nat.ltb_ge in E3; lia].
Qed.

Lemma search_loop_ok P loop i d it fuel :
  search_step P loop -> dest <> 0 -> (d < n)%nat -> (n - d <= fuel)%nat ->
  iter_at (cyc i d) it -> (i < n)%nat ->
  (∀ e f, (e < d)%nat -> fields !! cyc i e = Some f -> P f = false) ->
  ∃ b it' j, loop fuel i it = Some (b, it') ∧ iter_at j it' ∧
    if (b : bool) then ∃ f, fields !! j = Some f ∧ P f = true
    else j = i ∧ ∀ e f, (e < n)%nat -> fields !! cyc i e = Some f -> P f = false.
Proof.
  intros Hstep Hd0. revert d it; induction fuel as [|fuel IH]; intros d it Hd Hfuel Hit Hi Hno;
    [lia|].
  destruct (iter_at_field _ _ Hit) as (f & Hf & Hf' & _). rewrite (Hstep _ _ _ _ Hf).
  destruct (P f) eqn:EP.
  { exists true, it, (cyc i d). eauto. }
  destruct (iter_next_at _ _ Hd0 Hit) as (it' & En & Hit'). rewrite En. simpl.
  rewrite (at_pos _ _ Hit'). rewrite <- cyc_S in * by done.
  assert (∀ e f, (e < S d)%nat -> fields !! cyc i e = Some f -> P f = false) as Hno'.
  { intros e g He Hg. destruct (decide (e = d)) as [->|]; [congruence|]. eapply Hno; [|done]. lia. }
  destruct (Nat.eqb (cyc i (S d)) i) eqn:Eq.
  - apply Nat.eqb_eq in Eq. exists false, it', i. split; [done|].
    assert (S d = n) as Hn.
    { unfold cyc in Eq. destruct (i + S d <? n)%nat eqn:E;
        [apply Nat.ltb_lt in E|apply Nat.ltb_ge in E]; lia. }
    split; [by rewrite Eq in Hit'|]. split; [done|]. by rewrite <- Hn.
  - apply Nat.eqb_neq in Eq. assert (S d < n)%nat.
    { destruct (decide (S d = n)) as [Hn|]; [|lia]. exfalso. apply Eq. unfold cyc.
      destruct (i + S d <? n)%nat eqn:E; [apply Nat.ltb_lt in E|apply Nat.ltb_ge in E]; lia. }
    apply (IH (S d)); [done|lia|done..].
Qed.

Lemma cyc_onto i j : (i < n)%nat -> (j < n)%nat -> ∃ e, (e < n)%nat ∧ cyc i e = j.
Proof.
  intros Hi Hj. exists (if (i <=? j)%nat then j - i else j + n - i)%nat. unfold cyc.
  destruct (i <=? j)%nat eqn:E; [apply Nat.leb_le in E|apply Nat.leb_gt in E].
  - destruct (i + (j - i) <? n)%nat eqn:E2; [apply Nat.ltb_lt in E2|apply Nat.ltb_ge in E2]; lia.
  - destruct (i + (j + n - i) <? n)%nat eqn:E2; [apply Nat.ltb_lt in E2|apply Nat.ltb_ge in E2]; lia.
Qed.

Lemma search_ok P loop i it :
  search_step P loop -> dest <> 0 -> iter_at i it ->
  ∃ b it' j, loop (length fields) i it = Some (b, it') ∧ iter_at j it' ∧
    if (b : bool) then ∃ f, fields !! j = Some f ∧ P f = true
    else j = i ∧ ∀ k f, (k < n)%nat -> fields !! k = Some f -> P f = false.
Proof.
  intros Hstep Hd Hit. pose proof (at_lt _ _ Hit) as Hi.
  assert (cyc i 0 = i) as H0.
  { unfold cyc. rewrite Nat.add_0_r. destruct (i <? n)%nat eqn:E; [done|apply Nat.ltb_ge in E; lia]. }
  destruct (search_loop_ok P loop i 0 it (length fields)) as (b & it' & j & E & Hj & Hb);
    [done|done|lia|rewrite (table_length _ _ Htab); lia|by rewrite H0|done|intros; lia|].
  exists b, it', j. split_and!; [done..|]. destruct b; [done|]. destruct Hb as [-> Hb].
  split; [done|]. intros k f Hk Hf. destruct (cyc_onto i k Hi Hk) as (e & He & <-). by eapply Hb.
Qed.

Lemma iter_find_step tag : search_step (matches tag) (fun fuel sp it => iter_find_loop fuel sp tag it).
Proof. intros fuel sp it f Hf. simpl. rewrite Hf. simpl. by unfold matches; destruct (_ && _). Qed.

Lemma iter_find_ok i it tag :
  dest <> 0 -> iter_at i it ->
  ∃ b it' j, pb_field_iter_find it tag = Some (b, it') ∧ iter_at j it' ∧
    if (b : bool) then ∃ f, fields !! j = Some f ∧ matches tag f = true
    else j = i ∧ ∀ k f, (k < n)%nat -> fields !! k = Some f -> matches tag f = false.
Proof.
  intros Hd Hit. unfold pb_field_iter_find. rewrite (at_start _ _ Hit), (at_pos _ _ Hit).
  exact (search_ok _ _ _ _ (iter_find_step tag) Hd Hit).
Qed.
End Iter.
