(* ===== verification/WireThms.v ===== *)
(** * Theorems on the wire format

    What the encoder writes the decoder reads back, value by value; what the
    decoder does not know it skips. *)

From S2P Require Import Prelude.
From S2P Require Import Memory.
From S2P Require Import MemFacts.
From S2P Require Import PbTypes.
From S2P Require Import PbCommon.
From S2P Require Import PbIStream.
From S2P Require Import PbEncode.
From S2P Require Import WireSpec.
From S2P Require Import VarintSpec.
From S2P Require Import Varint.
From S2P Require Import EncSpec.
From S2P Require Import EncMsg.
From S2P Require Import PbFields.
From S2P Require Import Cct.
From S2P Require Import CctImage.

(** ** Round trips *)

Definition empty_mem : mstate := MState ∅ ∅.

(** Encode into a buffer, decode from it. *)
Definition encode_decode {A} `{PbEnv} (enc : C pb_ostream_t unit) (dec : C pb_istream_t A)
    (buf : Z) (size : nat) (m : mstate) (v : A) (n : nat) : Prop :=
  ∃ so m', enc (pb_ostream_from_buffer buf (Z.of_nat size)) m = Ret (Some tt, so) m' ∧
    bytes_written so = Z.of_nat n ∧
    dec (pb_istream_from_buffer (IMem buf) (bytes_written so)) m' =
      Ret (Some v, mk_istream ICb_buf_read (IMem (buf + Z.of_nat n)) 0 None) m'.

Lemma reads_buffer m buf bs :
  Forall is_u8 bs -> Z.of_nat (length bs) < 2 ^ 64 -> mread (mem m) buf (length bs) = Some bs ->
  reads (pb_istream_from_buffer (IMem buf) (Z.of_nat (length bs))) m bs.
Proof. intros Hb Hl Hr. by split. Qed.

Lemma encode_decode_intro {A} `{PbEnv} enc (dec : C pb_istream_t A) p buf size m v bs :
  emits enc (mret bs) -> parses dec p -> p bs = POk v (length bs) -> Forall is_u8 bs ->
  (length bs <= size)%nat -> Z.of_nat size < 2 ^ 64 -> mapped m buf size ->
  encode_decode enc dec buf size m v (length bs).
Proof.
  intros Henc Hdec Hp Hb Hl Hs Hm.
  assert (extends (MState ∅ (heap m)) m) as He by (split; [apply map_empty_subseteq|done]).
  destruct (emits_writes _ _ Henc (MState ∅ (heap m)) m bs)
    with (s := pb_ostream_from_buffer buf (Z.of_nat size)) as [mm [Hw E]];
    [by apply map_Forall_empty|done|done|done|simpl; lia..| |].
  { intros i Hi. split; [|apply lookup_empty]. apply Hm. simpl in *. lia. }
  eexists _, (MState mm (heap m)). split_and!; [exact E|done|].
  destruct (Hdec (pb_istream_from_buffer (IMem buf) (Z.of_nat (length bs)))
    (MState mm (heap m)) bs) as [E' _].
  { apply reads_buffer; [done|lia|]. by eapply mread_mwrite_eq. }
  change (bytes_written _) with (Z.of_nat (length bs)). rewrite E', Hp.
  unfold poutcome, adv; simpl. do 3 f_equal. f_equal. lia.
Qed.

Definition scratch : mstate := MState (mmap ∅ 0x100 (replicate 16 0)) ∅.

(** Every 64-bit value survives [pb_encode_varint] followed by
    [pb_decode_varint], through the buffer in memory; the encoding takes at
    most ten bytes and the decoder stops exactly at its end. *)
Lemma varint_roundtrip `{PbEnv} v buf size m :
  is_u64 v -> (10 <= size)%nat -> Z.of_nat size < 2 ^ 64 -> mapped m buf size ->
  (length (varint_bytes v) <= 10)%nat ∧
  encode_decode (pb_encode_varint v) pb_decode_varint buf size m v (length (varint_bytes v)).
Proof.
  intros Hv H10 Hs Hm. pose proof (length_varint_bytes v). split; [lia|].
  eapply encode_decode_intro; [by apply emits_varint|apply parses_varint| | | |done|done].
  - rewrite <- (app_nil_r (varint_bytes v)) at 1. by apply spec_varint_bytes.
  - apply varint_bytes_u8, Hv.
  - lia.
Qed.

(** Every signed 64-bit value survives [pb_encode_svarint] followed by
    [pb_decode_svarint], and values of small magnitude have short encodings:
    the zigzag code of [v] is [2v] or [-2v - 1]. *)
Lemma svarint_roundtrip `{PbEnv} v buf size m :
  is_s64 v -> (10 <= size)%nat -> Z.of_nat size < 2 ^ 64 -> mapped m buf size ->
  encode_decode (pb_encode_svarint v) pb_decode_svarint buf size m v
    (length (varint_bytes (if v <? 0 then -2 * v - 1 else 2 * v))).
Proof.
  intros Hv H10 Hs Hm. change (if v <? 0 then _ else _) with (zigzag v).
  pose proof (length_varint_bytes (zigzag v)). pose proof (zigzag_u64 v Hv) as Hz.
  eapply encode_decode_intro; [by apply emits_svarint|apply parses_svarint| | | |done|done].
  - unfold pbind. rewrite <- (app_nil_r (varint_bytes (zigzag v))) at 1.
    rewrite spec_varint_bytes by done. unfold pret; simpl. rewrite unzigzag_zigzag. f_equal. lia.
  - apply varint_bytes_u8, Hz.
  - lia.
Qed.

Lemma svarint_roundtrip_witness :
  @encode_decode Z cct_env (@pb_encode_svarint cct_env (- 2 ^ 63))
    (@pb_decode_svarint cct_env) 0x100 16 scratch (- 2 ^ 63) 10.
Proof.
  apply (@svarint_roundtrip cct_env (- 2 ^ 63) 0x100 16 scratch).
  - vm_compute. split; congruence.
  - lia.
  - done.
  - apply mappedb_ok. by vm_compute.
Defined.

(** A field header survives the trip: reading what [pb_encode_tag] wrote,
    [pb_decode_tag] returns the wire type and the field number and leaves the
    stream at the value, for every field number that fits in a 32-bit key. *)
Lemma tag_roundtrip `{PbEnv} wt tag s m rest :
  0 <= wt < 8 -> 0 < tag < 2 ^ 29 ->
  reads s m (wire_tag wt tag ++ rest) ->
  emits (pb_encode_tag wt tag) (mret (wire_tag wt tag)) ∧
  pb_decode_tag s m =
    Ret (Some (mk_tag_result true wt tag false), adv s (length (wire_tag wt tag))) m.
Proof.
  intros Hwt Htag Hr. split; [by apply emits_tag|].
  rewrite (pb_decode_tag_spec s m _ Hr). unfold tag_outcome, wire_tag.
  unfold u64. rewrite (Z.mod_small (8 * tag)) by lia.
  rewrite p_varint32_bytes by (unfold is_u32; lia).
  destruct (8 * tag + wt =? 0) eqn:E; bool_to_prop; [lia|].
  replace ((8 * tag + wt) mod 8) with wt by dlia.
  replace ((8 * tag + wt) / 8) with tag by dlia. done.
Qed.

(** [pb_decode_varint] on any input: it consumes up to the first byte
    with a clear top bit, at most ten bytes, and returns the groups of seven
    bits, low bits first, modulo 2^64; ten continuation bytes are a "varint
    overflow", running out of input is an "end-of-stream" error. *)
Lemma pb_decode_varint_functional `{PbEnv} s m bs :
  reads s m bs ->
  pb_decode_varint s m =
    match varint_len (take 10 bs) with
    | Some k => Ret (Some (varint_value (take k bs) mod 2 ^ 64), adv s k) m
    | None =>
        if (length bs <? 10)%nat
        then Ret (None, PB_SET_ERROR (adv s (length bs)) "end-of-stream") m
        else Ret (None, PB_SET_ERROR (adv s 10) "varint overflow") m
    end.
Proof.
  intros Hr. destruct (parses_varint s m bs Hr) as [-> _]. unfold spec_varint.
  destruct (varint_len (take 10 bs)); [done|]. by destruct (length bs <? 10)%nat.
Qed.

Lemma reads_local bs rest :
  forallb (fun b => bool_decide (is_u8 b)) bs = true -> Z.of_nat (length bs) < 2 ^ 64 ->
  reads (pb_istream_from_buffer (ILocal (bs ++ rest)) (Z.of_nat (length bs))) empty_mem bs.
Proof.
  intros Hb Hl. split; [done|done|done| |by exists rest].
  apply Is_true_true, forallb_True in Hb. revert Hb. apply Forall_impl. intros b Hb.
  by eapply bool_decide_unpack.
Qed.

(** ** Skipping *)

Lemma skip_varint_bytes v rest :
  is_u64 v -> p_skip_varint (varint_bytes v ++ rest) = POk tt (length (varint_bytes v)).
Proof. intros Hv. unfold p_skip_varint. by rewrite varint_bytes_len by done. Qed.

Lemma skip_fixed n bs rest :
  length bs = n -> (0 < n)%nat -> p_skip (Z.of_nat n) (bs ++ rest) = POk tt n.
Proof.
  intros Hl Hn. unfold p_skip, pbind, p_read, pret.
  destruct (Z.of_nat n =? 0) eqn:E; bool_to_prop; [lia|]. rewrite length_app.
  destruct (_ <? _) eqn:E1; bool_to_prop; [lia|]. simpl. rewrite Nat2Z.id. f_equal. lia.
Qed.

Lemma skip_delimited bs rest :
  is_u32 (Z.of_nat (length bs)) ->
  p_skip_string (delimited bs ++ rest) = POk tt (length (delimited bs)).
Proof.
  unfold is_u32. intros Hl. unfold p_skip_string, pbind, delimited.
  assert (u64 (Z.of_nat (length bs)) = Z.of_nat (length bs)) as ->
    by (apply Z.mod_small; lia).
  rewrite <- app_assoc, p_varint32_bytes by (unfold is_u32; lia).
  rewrite drop_app_length, length_app. destruct bs as [|b bs].
  - done.
  - rewrite skip_fixed by (simpl; lia). done.
Qed.

(** What [evalue] produces, by wire type. *)
Inductive value_shape : Z -> list Z -> Prop :=
| shape_varint v : is_u64 v -> value_shape PB_WT_VARINT (varint_bytes v)
| shape_32 bs : length bs = 4%nat -> value_shape PB_WT_32BIT bs
| shape_64 bs : length bs = 8%nat -> value_shape PB_WT_64BIT bs
| shape_string bs : value_shape PB_WT_STRING (delimited bs).

Lemma skip_shape wt bs rest :
  value_shape wt bs -> Z.of_nat (length bs) < 2 ^ 32 ->
  p_skip_field wt (bs ++ rest) = POk tt (length bs).
Proof.
  intros [v Hv|l Hl|l Hl|l] Hb.
  - by apply (skip_varint_bytes v).
  - rewrite Hl. apply (skip_fixed 4 l); [done|lia].
  - rewrite Hl. apply (skip_fixed 8 l); [done|lia].
  - apply (skip_delimited l). unfold is_u32. unfold delimited in Hb.
    rewrite length_app in Hb. lia.
Qed.

Lemma read_int_bound signed f src m v m' :
  bytes_ok m -> read_int (S := unit) signed f src tt m = Ret (Some v, tt) m' ->
  if signed then is_s64 v else is_u64 v.
Proof.
  intros Hok. unfold read_int. case_bool_decide as Hd; [|done]. unfold clift.
  assert (1 <= data_size f <= 8) by set_solver by lia.
  assert (∀ n a, ∀ v m', load_u n a m = Ret v m' -> m' = m) as Lu.
  { intros n a v0 m0 E. by destruct (mro_load_u n a m m v0 m0) as [-> _]. }
  destruct signed.
  - destruct (load_s _ src m) as [x mx| |] eqn:E; [|done|done]. intros [= <- <-].
    assert (mx = m) as -> by (by destruct (mro_load_s (Z.to_nat (data_size f)) src m m x mx)).
    apply load_s_bound in E; [|lia]. unfold is_s64.
    assert (2 ^ (8 * Z.of_nat (Z.to_nat (data_size f)) - 1) <= 2 ^ 63)
      by (apply Z.pow_le_mono_r; lia). lia.
  - destruct (load_u _ src m) as [x mx| |] eqn:E; [|done|done]. intros [= <- <-].
    assert (mx = m) as -> by (by eapply Lu).
    apply load_u_bound in E; [|done]. unfold is_u64.
    assert (2 ^ (8 * Z.of_nat (Z.to_nat (data_size f))) <= 2 ^ 64)
      by (apply Z.pow_le_mono_r; lia). lia.
Qed.

Lemma bind_inv {A B} (c : C unit A) (f : A -> C unit B) m b m' :
  mbind f c tt m = Ret (Some b, tt) m' ->
  ∃ a m1, c tt m = Ret (Some a, tt) m1 ∧ f a tt m1 = Ret (Some b, tt) m'.
Proof.
  unfold mbind, C_bind. destruct (c tt m) as [[[a|] []] m1| |]; [eauto|done..].
Qed.

Lemma read_int_shape (signed : bool) f src (g : Z -> Z) m bs m' :
  bytes_ok m -> (∀ v, (if signed then is_s64 v else is_u64 v) -> is_u64 (g v)) ->
  (v ← read_int (S := unit) signed f src; mret (varint_bytes (g v))) tt m = Ret (Some bs, tt) m' ->
  value_shape PB_WT_VARINT bs.
Proof.
  intros Hok Hg E. apply bind_inv in E as (v & m1 & Ev & E). injection E as <- _.
  constructor. apply Hg. by eapply read_int_bound.
Qed.

Lemma load_bytes_length n src m bs m' :
  clift (S := unit) (load_bytes src n) tt m = Ret (Some bs, tt) m' -> length bs = n.
Proof.
  unfold clift, load_bytes. destruct (mread _ _ _) as [l|] eqn:E; [|done].
  intros [= -> _]. by eapply length_mread.
Qed.

Lemma delimited_shape e m bs m' :
  edelimited e tt m = Ret (Some bs, tt) m' -> value_shape PB_WT_STRING bs.
Proof.
  intros E. apply edelimited_inv in E as [[_ ?]|(l & _ & [= ->])]; [done|]. constructor.
Qed.

Lemma evalue_shape `{PbEnv} fuel emsg type f src m bs m' wt :
  bytes_ok m -> wire_type_of (PB_LTYPE type) = Some wt ->
  evalue fuel emsg type f src tt m = Ret (Some bs, tt) m' -> value_shape wt bs.
Proof.
  intros Hok. unfold wire_type_of, evalue, ebytes_field, estring_field.
  unfold PB_LTYPE_BOOL, PB_LTYPE_VARINT, PB_LTYPE_UVARINT, PB_LTYPE_SVARINT,
    PB_LTYPE_FIXED32, PB_LTYPE_FIXED64, PB_LTYPE_BYTES, PB_LTYPE_STRING,
    PB_LTYPE_SUBMESSAGE, PB_LTYPE_EXTENSION, PB_LTYPE_FIXED_LENGTH_BYTES.
  pose proof (ltype_range type) as Hl. set (l := PB_LTYPE type) in *. clearbody l.
  assert (l ∈ Z.of_nat <$> seq 0 16) as Hin.
  { apply list_elem_of_fmap. exists (Z.to_nat l). rewrite elem_of_seq. lia. }
  simpl in Hin.
  repeat (apply elem_of_cons in Hin as [->|Hin];
    [simpl; intros [= <-] E|]); [..|by apply elem_of_nil in Hin].
  - apply bind_inv in E as (b & m1 & _ & E). injection E as <- _. constructor.
    unfold is_u64. destruct b; lia.
  - eapply (read_int_shape true _ _ u64); [done| |exact E]. intros v _. apply u64_u64.
  - by eapply (read_int_shape false _ _ (fun v => v)); [done| |exact E].
  - eapply (read_int_shape true _ _ zigzag); [done| |exact E]. apply zigzag_u64.
  - constructor. by eapply load_bytes_length.
  - constructor. by eapply load_bytes_length.
  - destruct (src =? 0); [injection E as <- _; constructor|].
    apply bind_inv in E as (n & m1 & _ & E). destruct (_ && _); [done|].
    by eapply delimited_shape.
  - destruct (src =? 0); [injection E as <- _; constructor|].
    apply bind_inv in E as (n & m1 & _ & E). by eapply delimited_shape.
  - destruct (ptr f =? 0); [done|].
    apply bind_inv in E as (n & m1 & _ & E). by eapply delimited_shape.
  - by eapply delimited_shape.
Qed.

(** Forward compatibility: whatever the type of a field, [pb_skip_field]
    with the wire type of its tag consumes exactly the value bytes the
    encoder writes for it, and the stream stands at the next field. *)
Lemma skip_encoded_value `{PbEnv} fuel emsg f src m0 bs m1 wt s m rest :
  bytes_ok m0 -> wire_type_of (PB_LTYPE (ftype f)) = Some wt ->
  evalue fuel emsg (ftype f) f src tt m0 = Ret (Some bs, tt) m1 ->
  Z.of_nat (length bs) < 2 ^ 32 -> reads s m (bs ++ rest) ->
  pb_skip_field wt s m = Ret (Some tt, adv s (length bs)) m.
Proof.
  intros Hok Hwt E Hl Hr. destruct (parses_skip_field wt s m _ Hr) as [-> _].
  rewrite skip_shape; [done| |done]. by eapply evalue_shape.
Qed.

(** The response of the image, as the [qos_tier] submessage field. *)

(** * Fixed-width scalars, substreams and the limits of the 32-bit reader *)

(** ** Fixed-width scalars *)

(** Assembling bytes with shifts. *)
Fixpoint lor_bytes (acc : Z) (i : nat) (bs : list Z) : Z :=
  match bs with
  | [] => acc
  | b :: bs => lor_bytes (Z.lor acc (Z.shiftl b (8 * Z.of_nat i))) (S i) bs
  end.

Lemma lor_bytes_combine acc i bs :
  Forall is_u8 bs -> 0 <= acc < 2 ^ (8 * Z.of_nat i) ->
  lor_bytes acc i bs = acc + 2 ^ (8 * Z.of_nat i) * le_combine bs.
Proof.
  intros Hb. revert acc i; induction Hb as [|b bs Hb _ IH]; intros acc i Hacc; simpl; [lia|].
  unfold is_u8 in Hb. rewrite Z.shiftl_mul_pow2, lor_shift by lia.
  assert (2 ^ (8 * Z.of_nat (S i)) = 2 ^ 8 * 2 ^ (8 * Z.of_nat i)) as Hp.
  { rewrite <- Z.pow_add_r by lia. f_equal. lia. }
  rewrite IH, Hp; [ring|]. rewrite Hp. nia.
Qed.

Lemma store_le_combine n dest bs m :
  Forall is_u8 bs -> length bs = n -> store_u n dest (le_combine bs) m = store_bytes dest bs m.
Proof. intros Hb <-. unfold store_u. by rewrite le_split_combine. Qed.

Section Fixed.
Context `{PbEnv}.

Lemma read_exact n s m bs rest :
  reads s m (bs ++ rest) -> length bs = n -> (0 < n)%nat ->
  pb_read RLocal (Z.of_nat n) s m = Ret (Some bs, adv s n) m.
Proof.
  intros Hr Hl Hn. destruct (parses_read false (Z.of_nat n) ltac:(lia) s m _ Hr) as [E _].
  rewrite E. unfold p_read. destruct (Z.of_nat n =? 0) eqn:E0; bool_to_prop; [lia|].
  rewrite length_app. destruct (_ <? _) eqn:E1; bool_to_prop; [lia|].
  rewrite Nat2Z.id, <- Hl, take_app_length. done.
Qed.

Lemma decode_fixed_exact n (dec : Z -> C pb_istream_t unit) s m bs rest dest :
  (∀ l, length l = n -> pb_read RLocal (Z.of_nat n) s m = Ret (Some l, adv s n) m ->
     dec dest s m = clift (store_u n dest (lor_bytes 0 0 l)) (adv s n) m) ->
  reads s m (bs ++ rest) -> length bs = n -> (0 < n)%nat -> mapped m dest n ->
  ∃ mm, mwrite (mem m) dest bs = Some mm ∧
    dec dest s m = Ret (Some tt, adv s n) (MState mm (heap m)).
Proof.
  intros Hdec Hr Hl Hn Hm.
  pose proof (reads_bytes _ _ _ Hr) as Hb. apply Forall_app in Hb as [Hb _].
  destruct (mwrite_total (mem m) dest bs) as [mm Hw]; [by rewrite Hl|].
  exists mm. split; [done|]. rewrite (Hdec bs Hl) by (by eapply read_exact).
  rewrite lor_bytes_combine by (done || simpl; lia). unfold clift.
  change (2 ^ (8 * Z.of_nat 0)) with 1. rewrite Z.add_0_l, Z.mul_1_l.
  rewrite store_le_combine by done. unfold store_bytes. by rewrite Hw.
Qed.

Lemma fixed32_run dest s m l :
  length l = 4%nat -> pb_read RLocal 4 s m = Ret (Some l, adv s 4) m ->
  pb_decode_fixed32 dest s m = clift (store_u 4 dest (lor_bytes 0 0 l)) (adv s 4) m.
Proof.
  intros Hl E. unfold pb_decode_fixed32. rewrite (bind_some _ _ _ _ _ _ _ E).
  destruct l as [|b0 [|b1 [|b2 [|b3 [|]]]]]; try discriminate Hl. done.
Qed.

Lemma fixed64_run dest s m l :
  length l = 8%nat -> pb_read RLocal 8 s m = Ret (Some l, adv s 8) m ->
  pb_decode_fixed64 dest s m = clift (store_u 8 dest (lor_bytes 0 0 l)) (adv s 8) m.
Proof.
  intros Hl E. unfold pb_decode_fixed64. rewrite (bind_some _ _ _ _ _ _ _ E).
  destruct l as [|b0 [|b1 [|b2 [|b3 [|b4 [|b5 [|b6 [|b7 [|]]]]]]]]]; try discriminate Hl.
  done.
Qed.
End Fixed.

(** Fixed-width values cross the wire as the bytes of the C object: what
    [pb_encode_fixed32] (64) emits for the object at [src] is its memory
    representation, and [pb_decode_fixed32] (64) stores exactly these bytes
    at its destination. *)
Lemma fixed_roundtrip `{PbEnv} src dest s m m1 bs rest n :
  n = 4%nat \/ n = 8%nat -> bytes_ok m ->
  load_bytes src n m = Ret bs m1 -> reads s m (bs ++ rest) -> mapped m dest n ->
  emits (if (n =? 4)%nat then pb_encode_fixed32 src else pb_encode_fixed64 src)
        (clift (load_bytes src n)) ∧
  ∃ mm, mwrite (mem m) dest bs = Some mm ∧
    (if (n =? 4)%nat then pb_decode_fixed32 dest else pb_decode_fixed64 dest) s m =
      Ret (Some tt, adv s n) (MState mm (heap m)).
Proof.
  intros Hn Hok Hl Hr Hm.
  assert (length bs = n) as Hlen.
  { unfold load_bytes in Hl. destruct (mread _ _ _) as [l|] eqn:E; [|done].
    injection Hl as -> _. by eapply length_mread. }
  destruct Hn as [-> | ->]; simpl; (split; [apply emits_fixed32 || apply emits_fixed64|]).
  - eapply (decode_fixed_exact 4 pb_decode_fixed32); [|done..|lia|done].
    intros l. apply fixed32_run.
  - eapply (decode_fixed_exact 8 pb_decode_fixed64); [|done..|lia|done].
    intros l. apply fixed64_run.
Qed.

(** 0x40490FDB, the single-precision number pi, at 0x100; scratch above it. *)
Definition pi_mem : mstate :=
  MState (mmap ∅ 0x100 ([0xDB; 0x0F; 0x49; 0x40] ++ replicate 12 0)) ∅.

(** ** Substreams *)

(** Substream isolation: [pb_make_string_substream] hands out a stream
    with exactly the bytes of the string, or refuses a length that exceeds
    the parent; wherever the reader of the substream stops, and whatever
    error it leaves behind, [pb_close_string_substream] continues the parent
    right after the string. *)
Lemma substream_isolation `{PbEnv} s m bs rest e j :
  Z.of_nat (length bs) < 2 ^ 32 ->
  reads s m (delimited bs ++ rest) -> (j <= length bs)%nat ->
  ∃ sub parent,
    pb_make_string_substream s m = Ret (Some sub, parent) m ∧
    reads sub m bs ∧
    pb_close_string_substream (put_errmsg e (adv sub j)) parent m =
      Ret (Some tt, put_errmsg e (adv s (length (delimited bs)))) m.
Proof.
  intros Hl Hr Hj. set (k := length (varint_bytes (u64 (Z.of_nat (length bs))))).
  assert (u64 (Z.of_nat (length bs)) = Z.of_nat (length bs)) as Hu by (apply Z.mod_small; lia).
  assert (p_varint32 (delimited bs ++ rest) = POk (Z.of_nat (length bs)) k) as Hp.
  { unfold delimited, k. rewrite Hu, <- app_assoc. apply p_varint32_bytes.
    unfold is_u32. lia. }
  assert (length (delimited bs) = (k + length bs)%nat) as Hd
    by (unfold delimited; by rewrite length_app).
  exists (sub_stream s k (length bs)), (parent_stream s k (length bs)). split_and!.
  - rewrite (make_substream_ok s m _ _ _ Hr Hp) by (rewrite length_app; lia).
    by rewrite Nat2Z.id.
  - pose proof (reads_sub s m _ k (length bs) Hr ltac:(rewrite length_app; lia)) as Hs.
    unfold delimited in Hs. rewrite <- app_assoc in Hs. fold k in Hs.
    by rewrite (drop_app_length' _ _ k), take_app_length in Hs by done.
  - rewrite Hd. eapply close_substream; [exact Hr|rewrite length_app; lia|done].
Qed.

(** ** The 32-bit reader *)

(** On canonical encodings the 32-bit reader agrees with the 64-bit one:
    every value below 2^32 is read back exactly, and the stream stops at the
    end of the varint. *)
Lemma varint32_canonical `{PbEnv} v s m rest :
  is_u32 v -> reads s m (varint_bytes v ++ rest) ->
  pb_decode_varint32 s m = Ret (Some v, adv s (length (varint_bytes v))) m ∧
  pb_decode_varint s m = Ret (Some v, adv s (length (varint_bytes v))) m.
Proof.
  intros Hv Hr. split.
  - destruct (parses_varint32 s m _ Hr) as [-> _]. by rewrite p_varint32_bytes.
  - destruct (parses_varint s m _ Hr) as [-> _]. rewrite spec_varint_bytes; [done|].
    unfold is_u32, is_u64 in *. lia.
Qed.

Lemma varint32_canonical_witness :
  @pb_decode_varint32 cct_env
    (pb_istream_from_buffer (ILocal [0xFF; 0xFF; 0xFF; 0xFF; 0x0F]) 5) empty_mem =
    Ret (Some 0xFFFFFFFF, mk_istream ICb_buf_read (ILocal []) 0 None) empty_mem ∧
  @pb_decode_varint cct_env
    (pb_istream_from_buffer (ILocal [0xFF; 0xFF; 0xFF; 0xFF; 0x0F]) 5) empty_mem =
    Ret (Some 0xFFFFFFFF, mk_istream ICb_buf_read (ILocal []) 0 None) empty_mem.
Proof.
  apply (@varint32_canonical cct_env 0xFFFFFFFF
    (pb_istream_from_buffer (ILocal [0xFF; 0xFF; 0xFF; 0xFF; 0x0F]) 5) empty_mem []).
  - vm_compute. split; congruence.
  - apply (reads_local [0xFF; 0xFF; 0xFF; 0xFF; 0x0F] []); [by vm_compute|done].
Defined.

(** The two readers disagree on overlong encodings: the bit position of
    the 32-bit reader is an 8-bit counter that wraps after 37 groups, so a
    varint of 37 continuation bytes and a final 1 is accepted as 8, where the
    64-bit reader reports an overflow; and a sixth byte hides the overflow
    test of the fifth, so 2^32 is read as 0. *)
Lemma varint32_accepts_overlong `{PbEnv} m :
  let long := replicate 37 0x80 ++ [0x01] in
  let hidden := [0x80; 0x80; 0x80; 0x80; 0x90; 0x00] in
  let on bs := pb_istream_from_buffer (ILocal bs) (Z.of_nat (length bs)) in
  (∃ s, pb_decode_varint32 (on long) m = Ret (Some 8, s) m ∧ bytes_left s = 0) ∧
  (∃ s, pb_decode_varint (on long) m = Ret (None, s) m ∧
        ierrmsg s = Some "varint overflow"%string) ∧
  (∃ s, pb_decode_varint32 (on hidden) m = Ret (Some 0, s) m ∧ bytes_left s = 0) ∧
  (∃ s, pb_decode_varint (on hidden) m = Ret (Some (2 ^ 32), s) m ∧ bytes_left s = 0).
Proof.
  assert (∀ bs, forallb (fun b => bool_decide (is_u8 b)) bs = true ->
    Z.of_nat (length bs) < 2 ^ 64 ->
    reads (pb_istream_from_buffer (ILocal bs) (Z.of_nat (length bs))) m bs) as Hr.
  { intros bs Hb Hl. pose proof (reads_local bs [] Hb Hl) as [? ? ? ? _].
    split; [done..|]. by exists []; rewrite app_nil_r. }
  cbv zeta. split_and!.
  - destruct (parses_varint32 _ _ _ (Hr (replicate 37 0x80 ++ [0x01])
      ltac:(by vm_compute) ltac:(done))) as [-> _]. eexists. by split.
  - destruct (parses_varint _ _ _ (Hr (replicate 37 0x80 ++ [0x01])
      ltac:(by vm_compute) ltac:(done))) as [-> _]. eexists. by split.
  - destruct (parses_varint32 _ _ _ (Hr [0x80; 0x80; 0x80; 0x80; 0x90; 0x00]
      ltac:(by vm_compute) ltac:(done))) as [-> _]. eexists. by split.
  - destruct (parses_varint _ _ _ (Hr [0x80; 0x80; 0x80; 0x80; 0x90; 0x00]
      ltac:(by vm_compute) ltac:(done))) as [-> _]. eexists. by split.
Qed.
