(* ===== verification/DecSafe.v ===== *)
(** * Memory safety of decoding: the logic

    [dsafe W c Q]: on every readable input stream the computation [c] runs
    into no undefined behaviour and no fuel limit, stays inside its stream,
    changes no byte outside [W], and its result satisfies [Q].  Nothing is
    assumed of the contents of the input. *)

From S2P Require Import Prelude.
From S2P Require Import Memory.
From S2P Require Import MemFacts.
From S2P Require Import PbTypes.
From S2P Require Import PbCommon.
From S2P Require Import PbIStream.
From S2P Require Import PbDecode.
From S2P Require Import WireSpec.
From S2P Require Import VarintSpec.
From S2P Require Import Varint.
From S2P Require Import EncSpec.
From S2P Require Import EncMsg.

(** ** States *)

(** Addresses [a .. a + n - 1]. *)
Definition rng (a n : Z) : Z -> Prop := fun x => a <= x < a + n.

Definition covers (W : Z -> Prop) (m : mstate) : Prop := ∀ x, W x -> is_Some (mem m !! x).

Lemma mapped_covers m a n : mapped m a (Z.to_nat n) -> covers (rng a n) m.
Proof.
  intros Hm x Hx. unfold rng in Hx. replace x with (a + (x - a)) by lia. apply Hm. lia.
Qed.

(** [m'] differs from [m] at most in the bytes of [W]. *)
Record upd (W : Z -> Prop) (m m' : mstate) : Prop := {
  upd_dom x : is_Some (mem m' !! x) <-> is_Some (mem m !! x);
  upd_heap : heap m' = heap m;
  upd_bytes : bytes_ok m -> bytes_ok m';
  upd_out x : ~ W x -> mem m' !! x = mem m !! x;
}.

Lemma upd_refl W m : upd W m m.
Proof. by split. Qed.

Lemma upd_trans W m1 m2 m3 : upd W m1 m2 -> upd W m2 m3 -> upd W m1 m3.
Proof.
  intros [D1 H1 B1 O1] [D2 H2 B2 O2]. split.
  - intros x. by rewrite D2.
  - congruence.
  - auto.
  - intros x Hx. by rewrite O2, O1.
Qed.

Lemma upd_mono (W W' : Z -> Prop) m m' : (∀ x, W x -> W' x) -> upd W m m' -> upd W' m m'.
Proof. intros Hs [D H B O]. split; [done..|]. auto. Qed.

Lemma covers_upd V W m m' : upd W m m' -> covers V m -> covers V m'.
Proof. intros U Hc x Hx. apply U. by apply Hc. Qed.

(** ** Streams *)

Definition readable (s : pb_istream_t) (m : mstate) : Prop := ∃ bs, reads s m bs.

(** [s'] is [s] after some bytes, perhaps with another error message. *)
Definition moved (s s' : pb_istream_t) : Prop :=
  ∃ (k : nat) e, s' = put_errmsg e (adv s k) ∧ Z.of_nat k <= bytes_left s.

Lemma moved_refl s : 0 <= bytes_left s -> moved s s.
Proof. intros Hs. exists 0%nat, (ierrmsg s). rewrite adv_0. split; [by destruct s|lia]. Qed.

Lemma moved_trans s1 s2 s3 : moved s1 s2 -> moved s2 s3 -> moved s1 s3.
Proof.
  intros (j & e & -> & Hj) (k & e' & -> & Hk). exists (j + k)%nat, e'.
  simpl in Hk. split; [|lia]. rewrite <- adv_adv. done.
Qed.

Lemma moved_left s s' : moved s s' -> bytes_left s' <= bytes_left s.
Proof. intros (k & e & -> & Hk). simpl. lia. Qed.

(** A function that fails between opening and closing a substream leaves its
    stream behind: [bytes_left] already excludes the string, the read position
    does not. *)
Definition lagging (s s' : pb_istream_t) : Prop :=
  ∃ (j k : nat) e, s' = put_errmsg e (set_bytes_left (bytes_left s - Z.of_nat k) (adv s j)) ∧
    (j <= k)%nat ∧ Z.of_nat k <= bytes_left s.

(** Where a failing computation may leave its stream. *)
Definition fallen (strict : bool) (s s' : pb_istream_t) : Prop :=
  if strict then moved s s' else lagging s s'.

Lemma moved_lagging s s' : moved s s' -> lagging s s'.
Proof. intros (k & e & -> & Hk). by exists k, k, e. Qed.

Lemma moved_fallen b s s' : moved s s' -> fallen b s s'.
Proof. destruct b; [done|apply moved_lagging]. Qed.

Lemma moved_fallen_trans b s1 s2 s3 : moved s1 s2 -> fallen b s2 s3 -> fallen b s1 s3.
Proof.
  destruct b; [apply moved_trans|].
  intros (i & e & -> & Hi) (j & k & e' & -> & Hj & Hk). simpl in Hk.
  exists (i + j)%nat, (i + k)%nat, e'. split; [|lia].
  unfold set_bytes_left, adv; simpl. rewrite istate_advance_add. f_equal. lia.
Qed.

Lemma reads_errmsg s m bs e : reads s m bs -> reads (put_errmsg e s) m bs.
Proof. intros [? ? ? ? ?]. by split. Qed.

Lemma readable_moved s s' m : readable s m -> moved s s' -> readable s' m.
Proof.
  intros [bs Hr] (k & e & -> & Hk). exists (drop k bs). apply reads_errmsg, reads_adv; [done|].
  rewrite (reads_left _ _ _ Hr) in Hk. lia.
Qed.

Lemma readable_upd W s m m' : bytes_ok m -> upd W m m' -> readable s m -> readable s m'.
Proof.
  intros Hok U [bs Hr]. destruct Hr as [Hcb Hl Hmax Hb Hc].
  destruct (istate s) as [a|l] eqn:Es; unfold content in Hc.
  - destruct (proj2 (mread_lookup (mem m') a (length bs))) as [bs' Hbs'].
    { intros i Hi. apply U. apply (proj1 (mread_lookup (mem m) a (length bs))); eauto. }
    exists bs'. pose proof (length_mread _ _ _ _ Hbs') as Hlen.
    split; [done|by rewrite Hlen|done| |].
    + eapply mread_forall; [|exact Hbs']. by apply (upd_bytes _ _ _ U).
    + rewrite Es. simpl. by rewrite Hlen.
  - exists bs. split; [done..|]. by rewrite Es.
Qed.

Lemma readable_left s m : readable s m -> 0 <= bytes_left s.
Proof. intros [bs Hr]. rewrite (reads_left _ _ _ Hr). lia. Qed.

(** ** Safe computations *)

Section Safe.
(** Constants the decoder may read: the default values. *)
Context (Rd : Z -> Prop).

Record state_ok (W : Z -> Prop) (m : mstate) : Prop := {
  st_bytes : bytes_ok m;
  st_write : covers W m;
  st_read : covers Rd m;
}.

Lemma state_ok_upd V W m m' : upd V m m' -> state_ok W m -> state_ok W m'.
Proof.
  intros U [B C R]. split; [by apply (upd_bytes _ _ _ U)|by eapply covers_upd..].
Qed.

(** The postcondition of a computation that starts on [s] and [m]. *)
Definition dpost {A} (strict : bool) (W : Z -> Prop) (Q : A -> Prop)
    (s : pb_istream_t) (m : mstate) : option A -> pb_istream_t -> mstate -> Prop :=
  fun r s' m' => upd W m m' ∧
    match r with Some a => moved s s' ∧ Q a | None => fallen strict s s' end.

Definition dsafe {A} (strict : bool) (W : Z -> Prop) (c : C pb_istream_t A)
    (Q : A -> Prop) : Prop :=
  ∀ s m, readable s m -> state_ok W m -> wp c s m (dpost strict W Q s m).

Definition msafe {A} (W : Z -> Prop) (c : M A) (Q : A -> Prop) : Prop :=
  ∀ m, state_ok W m -> mwp c m (fun a m' => upd W m m' ∧ Q a).

(** *** Structure *)

Lemma dpost_trans {A} b W (Q : A -> Prop) s m s1 m1 r s' m' :
  moved s s1 -> upd W m m1 -> dpost b W Q s1 m1 r s' m' -> dpost b W Q s m r s' m'.
Proof.
  intros Hm U [U' Hr]. split; [by eapply upd_trans|].
  destruct r; [|by eapply moved_fallen_trans].
  destruct Hr as [Hm' HQ]. split; [by eapply moved_trans|done].
Qed.

(** Sequencing from a known state. *)
Lemma wp_dbind {A B} b W (c : C pb_istream_t A) (f : A -> C pb_istream_t B)
    (Q : A -> Prop) (R : B -> Prop) s m :
  readable s m -> state_ok W m -> wp c s m (dpost b W Q s m) ->
  (∀ a s1 m1, readable s1 m1 -> state_ok W m1 -> moved s s1 -> Q a ->
     wp (f a) s1 m1 (dpost b W R s1 m1)) ->
  wp (mbind f c) s m (dpost b W R s m).
Proof.
  intros Hr Hok Hc Hf. apply wp_bind. eapply wp_mono; [exact Hc|].
  intros [a|] s' m' [U HQ]; [|by split]. destruct HQ as [Hm HQ].
  eapply wp_mono; [|intros r s'' m'' Hp; by eapply dpost_trans].
  apply (Hf a); [|by eapply state_ok_upd|done|done].
  eapply readable_moved; [|exact Hm]. eapply readable_upd; [apply Hok|exact U|done].
Qed.

Lemma dsafe_bind {A B} b W (c : C pb_istream_t A) (f : A -> C pb_istream_t B) Q R :
  dsafe b W c Q -> (∀ a, Q a -> dsafe b W (f a) R) -> dsafe b W (mbind f c) R.
Proof.
  intros Hc Hf s m Hr Hok. eapply wp_dbind; [done|done|by apply Hc|].
  intros a s1 m1 Hr1 Hok1 _ HQ. by apply Hf.
Qed.

Lemma dsafe_mono {A} b (W W' : Z -> Prop) (c : C pb_istream_t A) (Q Q' : A -> Prop) :
  dsafe b W c Q -> (∀ x, W x -> W' x) -> (∀ a, Q a -> Q' a) -> dsafe b W' c Q'.
Proof.
  intros Hc HW HQ s m Hr [B C R]. eapply wp_mono.
  - apply Hc; [done|]. split; [done| |done]. intros x Hx. by apply C, HW.
  - intros [a|] s' m' [U Ha]; (split; [by eapply upd_mono|]); [|done].
    destruct Ha. eauto.
Qed.

Lemma dsafe_weaken {A} W (c : C pb_istream_t A) (Q : A -> Prop) :
  dsafe true W c Q -> dsafe false W c Q.
Proof.
  intros Hc s m Hr Hok. eapply wp_mono; [by apply Hc|].
  intros [a|] s' m' [U Ha]; (split; [done|]); [done|by apply moved_lagging].
Qed.

Lemma dsafe_ret {A} b W (a : A) (Q : A -> Prop) : Q a -> dsafe b W (mret a) Q.
Proof.
  intros Ha s m Hr Hok. apply wp_ret. split; [apply upd_refl|]. split; [|done].
  by eapply moved_refl, readable_left.
Qed.

Lemma dsafe_fail {A} b W msg (Q : A -> Prop) : dsafe b W (PB_RETURN_ERROR msg) Q.
Proof.
  intros s m Hr Hok. unfold wp, PB_RETURN_ERROR. split; [apply upd_refl|].
  apply moved_fallen. eexists 0%nat, _. rewrite adv_0. split; [done|].
  pose proof (readable_left _ _ Hr). lia.
Qed.

Lemma dsafe_cfail {A} b W (Q : A -> Prop) : dsafe b W cfail Q.
Proof.
  intros s m Hr Hok. apply wp_fail. split; [apply upd_refl|].
  by eapply moved_fallen, moved_refl, readable_left.
Qed.

Lemma dsafe_try {A} b W (c : C pb_istream_t A) (Q : A -> Prop) :
  dsafe true W c Q -> dsafe b W (ctry c) (fun r => match r with Some a => Q a | None => True end).
Proof.
  intros Hc s m Hr Hok. apply wp_try. eapply wp_mono; [by apply Hc|].
  intros [a|] s' m' [U Ha]; (split; [done|]); [done|by split].
Qed.

Lemma dsafe_res {A} b W (r : option A) (Q : A -> Prop) :
  match r with Some a => Q a | None => True end -> dsafe b W (cres r) Q.
Proof. destruct r; simpl; [apply dsafe_ret|intros _; apply dsafe_cfail]. Qed.

Lemma dsafe_lift {A} b W (c : M A) (Q : A -> Prop) : msafe W c Q -> dsafe b W (clift c) Q.
Proof.
  intros Hc s m Hr Hok. apply wp_lift. specialize (Hc m Hok). unfold mwp in *.
  destruct (c m) as [a m'| |]; [|done|done]. destruct Hc as [U HQ].
  split; [done|]. split; [by eapply moved_refl, readable_left|done].
Qed.

Lemma dsafe_defined {A} b W (o : option A) a (Q : A -> Prop) :
  o = Some a -> Q a -> dsafe b W (defined o) Q.
Proof. intros -> Ha. by apply dsafe_ret. Qed.

(** Every reader with a specification is safe. *)
Lemma dsafe_parses {A} b W (c : C pb_istream_t A) p :
  parses c p -> dsafe b W c (fun a => ∃ bs k, Forall is_u8 bs ∧ p bs = POk a k).
Proof.
  intros Hc s m [bs Hr] Hok. destruct (Hc s m bs Hr) as [E Hk]. unfold wp. rewrite E.
  pose proof (reads_left _ _ _ Hr) as Hl.
  destruct (p bs) as [a k|e k] eqn:Ep; simpl in *; (split; [apply upd_refl|]).
  - split; [|by exists bs, k; split; [apply Hr|]].
    exists k, (ierrmsg s). split; [by unfold adv|lia].
  - apply moved_fallen. destruct e as [msg|]; simpl.
    + eexists k, _. split; [reflexivity|lia].
    + exists k, (ierrmsg s). split; [by unfold adv|lia].
Qed.

(** *** Memory *)

Lemma msafe_bind {A B} W (c : M A) (f : A -> M B) Q R :
  msafe W c Q -> (∀ a, Q a -> msafe W (f a) R) -> msafe W (mbind f c) R.
Proof.
  intros Hc Hf m Hok. apply mwp_bind. specialize (Hc m Hok). unfold mwp in *.
  destruct (c m) as [a m'| |]; [|done|done]. destruct Hc as [U HQ].
  specialize (Hf a HQ m' (state_ok_upd _ _ _ _ U Hok)). unfold mwp in Hf.
  destruct (f a m') as [b m''| |]; [|done|done]. destruct Hf as [U' HR].
  split; [by eapply upd_trans|done].
Qed.

Lemma msafe_mono {A} (W W' : Z -> Prop) (c : M A) (Q Q' : A -> Prop) :
  msafe W c Q -> (∀ x, W x -> W' x) -> (∀ a, Q a -> Q' a) -> msafe W' c Q'.
Proof.
  intros Hc HW HQ m [B C R].
  assert (state_ok W m) as Hok by (split; [done| |done]; intros x Hx; by apply C, HW).
  specialize (Hc m Hok). unfold mwp in *. destruct (c m); [|done|done].
  destruct Hc as [U Ha]. split; [by eapply upd_mono|auto].
Qed.

Lemma msafe_ret {A} W (a : A) (Q : A -> Prop) : Q a -> msafe W (mret a) Q.
Proof. intros Ha m Hok. apply mwp_ret. split; [apply upd_refl|done]. Qed.

Lemma msafe_defined {A} W (o : option A) a (Q : A -> Prop) :
  o = Some a -> Q a -> msafe W (mdefined o) Q.
Proof. intros -> Ha m Hok. split; [apply upd_refl|done]. Qed.

Lemma msafe_store_bytes W a bs :
  Forall is_u8 bs -> (∀ i, 0 <= i < Z.of_nat (length bs) -> W (a + i)) ->
  msafe W (store_bytes a bs) (fun _ => True).
Proof.
  intros Hb HW m [B C R].
  destruct (mwrite_total (mem m) a bs) as [mm Hw]; [intros i Hi; by apply C, HW|].
  unfold mwp, store_bytes. rewrite Hw. split; [|done]. split; simpl.
  - by apply (mwrite_same_dom _ _ _ _ Hw).
  - done.
  - intros _ x b Hx. simpl in Hx. rewrite (mwrite_lookup _ _ _ _ _ Hw) in Hx.
    case_decide; [by eapply Forall_lookup_1|by eapply B].
  - intros x Hx. rewrite (mwrite_lookup _ _ _ _ _ Hw). case_decide as Hd; [|done].
    destruct Hx. replace x with (a + (x - a)) by lia. apply HW. lia.
Qed.

Lemma msafe_store_u W n a v :
  (∀ i, 0 <= i < Z.of_nat n -> W (a + i)) -> msafe W (store_u n a v) (fun _ => True).
Proof.
  intros HW. apply msafe_store_bytes; [apply le_split_bytes|]. by rewrite length_le_split.
Qed.

Lemma msafe_load_bytes W a n :
  (∀ i, 0 <= i < Z.of_nat n -> W (a + i)) \/ (∀ i, 0 <= i < Z.of_nat n -> Rd (a + i)) ->
  msafe W (load_bytes a n) (fun bs => length bs = n ∧ Forall is_u8 bs).
Proof.
  intros HW m [B C R]. destruct (proj2 (mread_lookup (mem m) a n)) as [bs Hbs].
  { intros i Hi. destruct HW as [HW|HW]; [by apply C, HW|by apply R, HW]. }
  unfold mwp, load_bytes. rewrite Hbs. split; [apply upd_refl|].
  split; [by eapply length_mread|by eapply mread_forall].
Qed.

Lemma msafe_load_u W n a :
  (∀ i, 0 <= i < Z.of_nat n -> W (a + i)) ->
  msafe W (load_u n a) (fun v => 0 <= v < 2 ^ (8 * Z.of_nat n)).
Proof.
  intros HW. eapply msafe_bind; [apply msafe_load_bytes; by left|].
  intros bs [<- Hb]. apply msafe_ret. by apply le_combine_bound.
Qed.

Lemma msafe_memset0 W a n :
  (∀ i, 0 <= i < n -> W (a + i)) -> msafe W (memset0 a n) (fun _ => True).
Proof.
  intros HW. apply msafe_store_bytes.
  - apply Forall_replicate. done.
  - intros i Hi. rewrite length_replicate in Hi. apply HW. lia.
Qed.

(** A default value: the source is a constant. *)
Lemma msafe_memcpy W dst src n :
  0 <= n -> (∀ i, 0 <= i < n -> W (dst + i)) -> (∀ i, 0 <= i < n -> Rd (src + i)) ->
  msafe W (memcpy dst src n) (fun _ => True).
Proof.
  intros Hn HW HR. eapply msafe_bind.
  - apply msafe_load_bytes. right. intros i Hi. apply HR. lia.
  - intros bs [Hl Hb]. apply msafe_store_bytes; [done|]. intros i Hi. apply HW. lia.
Qed.
End Safe.

Create HintDb dsafe.
#[export] Hint Resolve dsafe_ret dsafe_fail dsafe_cfail : dsafe.

(** * Memory safety of the value decoders and of substreams *)

Section Values.
Context `{PbEnv} (Rd : Z -> Prop).

(** ** Reading into memory *)

(** One byte of the stream's storage. *)
Lemma istate_byte_readable st (len : nat) m bs i :
  content m st bs -> length bs = len -> 0 <= i < Z.of_nat len -> Forall is_u8 bs ->
  ∃ b, istate_byte st i m = Ret b m ∧ is_u8 b.
Proof.
  intros Hc Hl Hi Hb. destruct (lookup_lt_is_Some_2 bs (Z.to_nat i)) as [b Hbi]; [lia|].
  exists b. split; [|by eapply Forall_lookup_1].
  rewrite <- (Z2Nat.id i) by lia. by eapply istate_byte_spec.
Qed.

Lemma copy_loop_safe W s n i a m :
  readable s m -> state_ok Rd W m -> 0 <= i -> i + Z.of_nat n <= bytes_left s ->
  (∀ j, i <= j < i + Z.of_nat n -> W (a + j)) ->
  mwp (copy_loop n i (istate s) (RMem a)) m (fun bs m' => upd W m m').
Proof.
  revert i m; induction n as [|n IH]; intros i m Hr Hok Hi Hn HW.
  { apply mwp_ret, upd_refl. }
  destruct Hr as [bs Hrd]. cbn [copy_loop].
  destruct (istate_byte_readable (istate s) (length bs) m bs i) as (b & Eb & Hb8);
    [apply Hrd|done| |apply Hrd|].
  { rewrite (reads_left _ _ _ Hrd) in Hn. lia. }
  apply mwp_bind. unfold mwp at 1. rewrite Eb. apply mwp_bind.
  pose proof (msafe_store_bytes Rd W (a + i) [b]) as Hst.
  specialize (Hst ltac:(constructor; [done|constructor])). unfold msafe, mwp in Hst.
  specialize (Hst ltac:(intros j Hj; simpl in Hj; replace (a + i + j) with (a + i) by lia;
    apply HW; lia) m Hok).
  unfold mwp at 1. destruct (store_bytes (a + i) [b] m) as [[] m1| |]; [|done|done].
  destruct Hst as [U _]. apply mwp_bind.
  assert (readable s m1) as Hr1 by (eapply readable_upd; [apply Hok|exact U|by exists bs]).
  specialize (IH (i + 1) m1 Hr1 (state_ok_upd _ _ _ _ _ U Hok) ltac:(lia) ltac:(lia)
    ltac:(intros j Hj; apply HW; lia)).
  unfold mwp in *. destruct (copy_loop n (i + 1) (istate s) (RMem a) m1); [|done|done].
  unfold mret, M_ret. by eapply upd_trans.
Qed.

Lemma dsafe_read_mem b W a count :
  0 <= count -> (∀ i, 0 <= i < count -> W (a + i)) ->
  dsafe Rd b W (pb_read (RMem a) count) (fun _ => True).
Proof.
  intros Hc HW s m Hr Hok. unfold pb_read.
  destruct (count =? 0) eqn:E0; [by eapply dsafe_ret|]. bool_to_prop.
  apply wp_bind, wp_get. simpl (is_rnull _ && _). cbv iota. unfold pb_read_direct.
  destruct (count =? 0) eqn:E0'; bool_to_prop; [lia|].
  apply wp_bind, wp_get.
  destruct (bytes_left s <? count) eqn:El; [by eapply dsafe_fail|]. bool_to_prop.
  pose proof (copy_loop_safe W s (Z.to_nat count) 0 a m Hr Hok ltac:(lia) ltac:(lia)
    ltac:(intros j Hj; apply HW; lia)) as Hcp.
  apply wp_bind, wp_try. unfold run_icallback. apply wp_bind, wp_get.
  destruct Hr as [bs Hrd]. rewrite (reads_cb _ _ _ Hrd). unfold buf_read.
  apply wp_bind, wp_get, wp_bind, wp_modify, wp_lift. unfold mwp in *.
  destruct (copy_loop _ _ _ _ m) as [l m1| |]; [|done|done].
  apply wp_bind, wp_modify, wp_ret. split; [done|]. split; [|done].
  exists (Z.to_nat count), (ierrmsg s).
  pose proof (reads_max _ _ _ Hrd). pose proof (reads_left _ _ _ Hrd). split; [|lia].
  unfold adv, set_bytes_left, set_istate, u64; simpl.
  rewrite Z2Nat.id, Z.mod_small by lia. done.
Qed.

Lemma dsafe_read_local b W count :
  0 <= count -> dsafe Rd b W (pb_read RLocal count) (fun _ => True).
Proof.
  intros Hc. eapply dsafe_mono; [|done|done]. apply dsafe_parses.
  by apply (parses_read false).
Qed.

(** ** Integers *)

Lemma dsafe_varint32 b W : dsafe Rd b W pb_decode_varint32 is_u32.
Proof.
  eapply dsafe_mono; [apply dsafe_parses, parses_varint32|done|].
  intros v (bs & k & Hb & E). by eapply p_varint32_u32.
Qed.

Lemma dsafe_any {A} b W (c : C pb_istream_t A) p : parses c p -> dsafe Rd b W c (fun _ => True).
Proof. intros Hp. eapply dsafe_mono; [by apply dsafe_parses|done|done]. Qed.

Lemma store_clamped_safe b W n dest v cl :
  (∀ i, 0 <= i < Z.of_nat n -> W (dest + i)) ->
  dsafe Rd b W (store_clamped n dest v cl) (fun _ => True).
Proof.
  intros HW. eapply dsafe_bind; [by apply dsafe_lift, msafe_store_u|]. intros _ _.
  destruct (negb _); [apply dsafe_fail|by apply dsafe_ret].
Qed.

Ltac clamp :=
  match goal with
  | |- dsafe _ _ _ (if data_size _ =? ?k then _ else _) _ =>
      destruct (data_size _ =? k) eqn:?; bool_to_prop;
      [apply store_clamped_safe; intros i Hi; unfold rng; lia|]
  end.

Lemma dec_varint_safe f dest : dsafe Rd true (rng dest (data_size f)) (pb_dec_varint f dest) (fun _ => True).
Proof.
  eapply dsafe_bind; [apply (dsafe_any _ _ _ _ parses_varint)|]. intros v _. cbv zeta.
  repeat clamp. apply dsafe_fail.
Qed.

Lemma dec_uvarint_safe f dest : dsafe Rd true (rng dest (data_size f)) (pb_dec_uvarint f dest) (fun _ => True).
Proof.
  eapply dsafe_bind; [apply (dsafe_any _ _ _ _ parses_varint)|]. intros v _. cbv zeta.
  repeat clamp. apply dsafe_fail.
Qed.

Lemma dec_svarint_safe f dest : dsafe Rd true (rng dest (data_size f)) (pb_dec_svarint f dest) (fun _ => True).
Proof.
  eapply dsafe_bind; [apply (dsafe_any _ _ _ _ parses_svarint)|]. intros v _. cbv zeta.
  repeat clamp. apply dsafe_fail.
Qed.

Lemma dec_bool_safe f dest :
  1 <= data_size f -> dsafe Rd true (rng dest (data_size f)) (pb_dec_bool f dest) (fun _ => True).
Proof.
  intros Hd. eapply dsafe_bind; [apply dsafe_varint32|]. intros v _.
  apply dsafe_lift, msafe_store_u. intros i Hi. unfold rng. lia.
Qed.

Lemma dec_fixed32_safe f dest :
  4 <= data_size f -> dsafe Rd true (rng dest (data_size f)) (pb_dec_fixed32 f dest) (fun _ => True).
Proof.
  intros Hd. eapply dsafe_bind; [by apply dsafe_read_local|]. intros bs _.
  apply dsafe_lift, msafe_store_u. intros i Hi. unfold rng. lia.
Qed.

Lemma dec_fixed64_safe f dest :
  8 <= data_size f -> dsafe Rd true (rng dest (data_size f)) (pb_dec_fixed64 f dest) (fun _ => True).
Proof.
  intros Hd. eapply dsafe_bind; [by apply dsafe_read_local|]. intros bs _.
  apply dsafe_lift, msafe_store_u. intros i Hi. unfold rng. lia.
Qed.

(** ** Bytes and strings: the length comes from the input *)

Lemma dec_bytes_safe f dest :
  PB_ATYPE (ftype f) = PB_ATYPE_STATIC -> is_u32 (data_size f) ->
  dsafe Rd true (rng dest (data_size f)) (pb_dec_bytes f dest) (fun _ => True).
Proof.
  intros Ha Hd. unfold is_u32 in Hd. eapply dsafe_bind; [apply dsafe_varint32|].
  intros size Hs. unfold is_u32 in Hs.
  destruct (PB_SIZE_MAX <? size); [apply dsafe_fail|]. cbv zeta.
  assert (PB_BYTES_ARRAY_T_ALLOCSIZE size = size + 4) as ->.
  { unfold PB_BYTES_ARRAY_T_ALLOCSIZE, offsetof_bytes, u64. apply Z.mod_small. lia. }
  destruct (size + 4 <? size); [apply dsafe_fail|]. rewrite Ha. simpl (_ =? _). cbv iota.
  eapply (dsafe_bind _ _ _ _ _ (fun d => d = dest ∧ size + 4 <= data_size f)).
  { destruct (data_size f <? size + 4) eqn:E; bool_to_prop; [apply dsafe_fail|].
    by apply dsafe_ret. }
  intros d [-> Hfit]. eapply dsafe_bind.
  { apply dsafe_lift, msafe_store_u. intros i Hi. unfold rng, sizeof_pb_size_t in *. lia. }
  intros _ _. eapply dsafe_bind; [|intros _ _; by apply dsafe_ret].
  apply dsafe_read_mem; [lia|]. intros i Hi. unfold rng, offsetof_bytes. lia.
Qed.

Lemma dec_string_safe f dest :
  PB_ATYPE (ftype f) = PB_ATYPE_STATIC -> is_u32 (data_size f) ->
  dsafe Rd true (rng dest (data_size f)) (pb_dec_string f dest) (fun _ => True).
Proof.
  intros Ha Hd. unfold is_u32 in Hd. eapply dsafe_bind; [apply dsafe_varint32|].
  intros size Hs. unfold is_u32 in Hs. cbv zeta.
  destruct (u32 (size + 1) <? size) eqn:Ew; bool_to_prop; [apply dsafe_fail|].
  assert (u32 (size + 1) = size + 1) as ->.
  { unfold u32 in *. destruct (decide (size + 1 = 2 ^ 32)) as [E|]; [|apply Z.mod_small; lia].
    rewrite E, Z.mod_same in Ew by done. lia. }
  rewrite Ha. simpl (_ =? _). cbv iota.
  eapply (dsafe_bind _ _ _ _ _ (fun d => d = dest ∧ size + 1 <= data_size f)).
  { destruct (data_size f <? size + 1) eqn:E; bool_to_prop; [apply dsafe_fail|].
    by apply dsafe_ret. }
  intros d [-> Hfit]. eapply dsafe_bind.
  { apply dsafe_try, dsafe_read_mem; [lia|]. intros i Hi. unfold rng. lia. }
  intros r Hr. eapply dsafe_bind.
  { apply dsafe_lift, msafe_store_u. intros i Hi. unfold rng. lia. }
  intros _ _. eapply (dsafe_bind _ _ _ _ _ (fun _ => True)); [|intros _ _; by apply dsafe_ret].
  apply dsafe_res. by destruct r.
Qed.

Lemma dec_fixed_bytes_safe f dest :
  is_u32 (data_size f) ->
  dsafe Rd true (rng dest (data_size f)) (pb_dec_fixed_length_bytes f dest) (fun _ => True).
Proof.
  intros Hd. unfold is_u32 in Hd. eapply dsafe_bind; [apply dsafe_varint32|].
  intros size _. destruct (PB_SIZE_MAX <? size); [apply dsafe_fail|].
  destruct (size =? 0).
  { apply dsafe_lift, msafe_memset0. intros i Hi. unfold rng. lia. }
  destruct (negb _); [apply dsafe_fail|].
  eapply dsafe_bind; [|intros _ _; by apply dsafe_ret].
  apply dsafe_read_mem; [lia|]. intros i Hi. unfold rng. lia.
Qed.

(** ** Substreams *)

(** Closing a substream that was read without mishap: the parent ends up
    behind the string. *)
Lemma close_moved s m bs (k n : nat) sub' :
  reads s m bs -> (k + n <= length bs)%nat -> moved (sub_stream s k n) sub' ->
  ∃ s', pb_close_string_substream sub' (parent_stream s k n) m = Ret (Some tt, s') m ∧
        moved s s'.
Proof.
  intros Hr Hkn (j & e & -> & Hj). eexists. split.
  - eapply close_substream; [exact Hr|done|]. simpl in Hj. lia.
  - eexists _, e. split; [done|]. rewrite (reads_left _ _ _ Hr). lia.
Qed.

(** Closing one that lags behind: so does the parent. *)
Lemma close_lagging s m bs (k n : nat) sub' :
  reads s m bs -> (k + n <= length bs)%nat -> lagging (sub_stream s k n) sub' ->
  ∃ s', pb_close_string_substream sub' (parent_stream s k n) m = Ret (Some tt, s') m ∧
        lagging s s'.
Proof.
  intros Hr Hkn (i & j & e & -> & Hij & Hj). simpl in Hj.
  pose proof (reads_left _ _ _ Hr) as Hl. pose proof (reads_max _ _ _ Hr) as Hmax.
  set (sub' := put_errmsg _ _).
  assert (bytes_left sub' = Z.of_nat (n - j)) as Hleft by (simpl; lia).
  assert ((if bytes_left sub' =? 0 then mret [] else pb_read RNull (bytes_left sub')) sub' m =
    Ret (Some [], adv sub' (n - j)) m) as E.
  { rewrite Hleft. destruct (Z.of_nat (n - j) =? 0) eqn:E0; bool_to_prop.
    { replace (n - j)%nat with 0%nat by lia. by rewrite adv_0. }
    unfold pb_read. destruct (Z.of_nat (n - j) =? 0) eqn:E1; bool_to_prop; [lia|].
    rewrite bind_get, bool_decide_true by apply (reads_cb _ _ _ Hr). cbn [negb andb is_rnull].
    unfold pb_read_direct. destruct (Z.of_nat (n - j) =? 0) eqn:E2; bool_to_prop; [lia|].
    rewrite bind_get, Hleft. destruct (_ <? _) eqn:E3; bool_to_prop; [lia|].
    erewrite bind_try; [|apply run_icallback_null, (reads_cb _ _ _ Hr)].
    cbv beta iota. rewrite bind_modify. unfold mret, C_ret, set_bytes_left, adv, u64.
    cbn [bytes_left set_istate]. rewrite Hleft, Z.mod_small by lia. done. }
  unfold pb_close_string_substream. rewrite (bind_con _ _ _ _ _ _ _ _ E).
  eexists. split; [done|]. exists (k + i + (n - j))%nat, (k + n)%nat, e.
  split; [|lia]. unfold parent_stream, sub', sub_stream, adv; simpl.
  rewrite !istate_advance_add. by rewrite Nat.add_assoc.
Qed.

Lemma wp_close {B} b W s m bs (k n : nat) sub' (next : unit -> C pb_istream_t B) (R : B -> Prop) :
  reads s m bs -> (k + n <= length bs)%nat -> moved (sub_stream s k n) sub' ->
  state_ok Rd W m -> dsafe Rd b W (next tt) R ->
  wp (x ← pb_close_string_substream sub'; next x) (parent_stream s k n) m
    (dpost b W R s m).
Proof.
  intros Hr Hkn Hm Hok Hnext.
  destruct (close_moved s m bs k n sub' Hr Hkn Hm) as (s' & E & Hs).
  apply wp_bind. unfold wp at 1. rewrite E.
  eapply wp_mono; [apply Hnext; [eapply readable_moved; [by exists bs|done]|done]|].
  intros r s'' m' Hp. eapply dpost_trans; [done|apply upd_refl|done].
Qed.

(** A computation on the substream of a string. *)
Lemma dsafe_substream {A B} W (body : pb_istream_t -> C pb_istream_t A)
    (P : option A -> pb_istream_t -> pb_istream_t -> Prop)
    (rest : option A * pb_istream_t -> C pb_istream_t B) (R : B -> Prop) :
  (∀ sub m, readable sub m -> state_ok Rd W m ->
     wp (body sub) sub m (fun r sub' m' => upd W m m' ∧ P r sub sub')) ->
  (∀ s m bs (k n : nat) r sub', reads s m bs -> (k + n <= length bs)%nat ->
     state_ok Rd W m -> P r (sub_stream s k n) sub' ->
     wp (rest (r, sub')) (parent_stream s k n) m (dpost false W R s m)) ->
  dsafe Rd false W (substream ← pb_make_string_substream;
                    r ← con substream (body substream); rest r) R.
Proof.
  intros Hbody Hrest s m [bs Hr] Hok. apply wp_bind. unfold wp at 1.
  destruct (parses_varint32 s m bs Hr) as [_ Hk].
  pose proof (reads_left _ _ _ Hr) as Hl.
  destruct (p_varint32 bs) as [n k|e k] eqn:Ep; simpl in Hk.
  2: { rewrite (make_substream_bad s m bs e k Hr Ep). split; [apply upd_refl|].
       apply moved_lagging.
       destruct e; [eexists k, _|exists k, (ierrmsg s)]; (split; [reflexivity|lia]). }
  destruct (decide (n <= Z.of_nat (length bs - k))) as [Hn|Hn].
  2: { rewrite (make_substream_short s m bs n k Hr Ep) by lia.
       split; [apply upd_refl|]. apply moved_lagging. eexists k, _. split; [reflexivity|lia]. }
  rewrite (make_substream_ok s m bs n k Hr Ep Hn).
  pose proof (p_varint32_u32 _ _ _ (reads_bytes _ _ _ Hr) Ep) as Hu. unfold is_u32 in Hu.
  assert (k + Z.to_nat n <= length bs)%nat as Hkn by lia.
  apply wp_bind, wp_con. eapply wp_mono.
  - apply Hbody; [|done]. eexists. by apply reads_sub.
  - intros r sub' m' [U Hm].
    assert (readable s m') as [bs' Hr'] by (eapply readable_upd; [apply Hok|exact U|by exists bs]).
    eapply wp_mono.
    + apply (Hrest s m' bs' k (Z.to_nat n) r sub'); [done| |by eapply state_ok_upd|done].
      pose proof (reads_left _ _ _ Hr'). lia.
    + intros r' s' m'' Hp. eapply dpost_trans; [|exact U|exact Hp].
      by eapply moved_refl, (readable_left _ m); exists bs.
Qed.

(** A failure between opening and closing. *)
Lemma wp_parent_fail {B} W s m bs (k n : nat) msg (R : B -> Prop) :
  reads s m bs -> (k + n <= length bs)%nat ->
  wp (PB_RETURN_ERROR msg) (parent_stream s k n) m (dpost false W R s m).
Proof.
  intros Hr Hkn. unfold wp, PB_RETURN_ERROR. split; [apply upd_refl|].
  eexists k, (k + n)%nat, _. split; [reflexivity|].
  pose proof (reads_left _ _ _ Hr). lia.
Qed.
End Values.
