(* ===== verification/DecStatic.v ===== *)
(** * Static messages: layout, default values and release

    A message type is static when all its fields live inside the structure:
    no pointers, callbacks, extensions or unions, at any nesting level. *)

From S2P Require Import Prelude.
From S2P Require Import Memory.
From S2P Require Import MemFacts.
From S2P Require Import PbTypes.
From S2P Require Import PbCommon.
From S2P Require Import PbIStream.
From S2P Require Import PbDecode.
From S2P Require Import WireSpec.
From S2P Require Import EncSpec.
From S2P Require Import EncMsg.
From S2P Require Import IterFacts.
From S2P Require Import DecSafe.
From S2P Require Import VarintSpec.
From S2P Require Import Varint.

(** ** Static message types *)

(** The bytes of all the entries of a field. *)
Definition static_extent (f : pb_field_t) : Z :=
  if PB_HTYPE (ftype f) =? PB_HTYPE_REPEATED then data_size f * array_size f else data_size f.

(** What a descriptor says about the structure must be true of it. [o] are the
    offsets of the data and of the count or has-flag, [size] is the size of
    the structure, [sub] the property for submessages. *)
Record static_field `{PbEnv} (Rd : Z -> Prop) (sub : list pb_field_t -> Z -> Prop)
    (f : pb_field_t) (o : Z * Z) (size : Z) : Prop := {
  sf_typed : field_ok f;
  sf_atype : PB_ATYPE (ftype f) = PB_ATYPE_STATIC;
  sf_ltype : PB_LTYPE (ftype f) <= PB_LTYPE_FIXED_LENGTH_BYTES;
  sf_not_ext : PB_LTYPE (ftype f) <> PB_LTYPE_EXTENSION;
  sf_htype : PB_HTYPE (ftype f) <> PB_HTYPE_ONEOF;
  sf_low : 0 <= o.1;
  sf_high : o.1 + static_extent f <= size;
  sf_array : PB_HTYPE (ftype f) = PB_HTYPE_REPEATED -> data_size f * array_size f < 2 ^ 32;
  sf_has : PB_HTYPE (ftype f) = PB_HTYPE_OPTIONAL -> 0 <= o.2 ∧ o.2 + 1 <= size;
  sf_count : PB_HTYPE (ftype f) = PB_HTYPE_REPEATED -> 0 <= o.2 ∧ o.2 + 4 <= size;
  sf_bool : PB_LTYPE (ftype f) = PB_LTYPE_BOOL -> 1 <= data_size f;
  sf_fixed32 : PB_LTYPE (ftype f) = PB_LTYPE_FIXED32 -> 4 <= data_size f;
  sf_fixed64 : PB_LTYPE (ftype f) = PB_LTYPE_FIXED64 -> 8 <= data_size f;
  sf_sub : PB_LTYPE (ftype f) = PB_LTYPE_SUBMESSAGE ->
    ptr f <> 0 ∧ ∃ fields, fields_at (ptr f) = Some fields ∧ sub fields (data_size f);
  sf_default : PB_LTYPE (ftype f) <> PB_LTYPE_SUBMESSAGE -> ptr f <> 0 ->
    ∀ i, 0 <= i < data_size f -> Rd (ptr f + i);
}.

(** The message type [fields], of structure size [size], is static with at
    most [depth] nesting levels. *)
Fixpoint static_msg `{PbEnv} (Rd : Z -> Prop) (depth : nat) (fields : list pb_field_t)
    (size : Z) : Prop :=
  match depth with
  | O => False
  | S depth =>
      ∃ n, table_ok fields n ∧
        ∀ i f o, (i < n)%nat -> fields !! i = Some f -> field_offsets fields !! i = Some o ->
          static_field Rd (static_msg Rd depth) f o size
  end.

(** A field that is no union member has its flag or count at [size_offset]. *)
Lemma size_place fields i f o :
  fields !! i = Some f -> field_offsets fields !! i = Some o ->
  PB_HTYPE (ftype f) <> PB_HTYPE_ONEOF -> o.2 = o.1 + size_offset f.
Proof.
  destruct i as [|i]; intros Hf Ho Hh.
  - destruct fields; simplify_eq/=. done.
  - destruct (fields !! i) as [p|] eqn:Hp.
    2: { apply lookup_ge_None in Hp. apply lookup_lt_Some in Hf. lia. }
    destruct (field_offsets fields !! i) as [o'|] eqn:Ho'.
    2: { apply lookup_ge_None in Ho'. rewrite length_field_offsets in Ho'.
         apply lookup_lt_Some in Hf. lia. }
    rewrite (field_offsets_S _ _ _ _ _ Hp Hf Ho') in Ho.
    assert (same_union p f = false) as Hu.
    { unfold same_union. apply Z.eqb_neq in Hh. by rewrite Hh, andb_false_r. }
    rewrite Hu in Ho. injection Ho as <-. done.
Qed.

Lemma htype_cases t :
  PB_HTYPE t = PB_HTYPE_REQUIRED \/ PB_HTYPE t = PB_HTYPE_OPTIONAL \/
  PB_HTYPE t = PB_HTYPE_REPEATED \/ PB_HTYPE t = PB_HTYPE_ONEOF.
Proof.
  unfold PB_HTYPE, PB_HTYPE_MASK. change 0x30 with (Z.lor 0x10 0x20).
  rewrite Z.land_lor_distr_r.
  assert (∀ k, 0 <= k -> Z.land t (2 ^ k) = 0 \/ Z.land t (2 ^ k) = 2 ^ k) as L.
  { intros k Hk. destruct (Z.testbit t k) eqn:E; [right|left]; apply Z.bits_inj'; intros i Hi;
      rewrite Z.land_spec, ?Z.bits_0, Z.pow2_bits_eqb by done;
      destruct (Z.eqb_spec k i) as [->|]; rewrite ?E, ?andb_false_r; done. }
  destruct (L 4) as [E4|E4]; [done|..]; destruct (L 5) as [E5|E5]; try done;
    change (2 ^ 4) with 0x10 in E4; change (2 ^ 5) with 0x20 in E5; rewrite E4, E5; auto.
Qed.

(** ** Loops over the fields *)

Section Static.
Context `{PbEnv} (Rd : Z -> Prop).

Lemma iter_loop_safe W fields n dest visit fuel i it :
  table_ok fields n -> dest <> 0 ->
  (∀ i it, iter_at fields n dest i it -> msafe Rd W (visit it) (fun _ => True)) ->
  iter_at fields n dest i it -> (n - i <= fuel)%nat ->
  msafe Rd W (iter_loop fuel visit it) (fun _ => True).
Proof.
  intros Htab Hd Hv. revert i it; induction fuel as [|fuel IH]; intros i it Hit Hf.
  { pose proof (at_lt _ _ _ _ _ Hit). lia. }
  cbn [iter_loop]. eapply msafe_bind; [by eapply Hv|]. intros _ _.
  destruct (iter_next_at _ _ _ Htab _ _ Hd Hit) as (it' & E & Hit').
  eapply msafe_bind; [by apply (msafe_defined _ _ _ _ (fun r => r = ((S i <? n)%nat, it')) E)|].
  intros ? ->. simpl. destruct (S i <? n)%nat eqn:En; [|by apply msafe_ret].
  apply Nat.ltb_lt in En. eapply IH; [exact Hit'|lia].
Qed.

Lemma for_each_safe W fields n dest visit :
  table_ok fields n -> dest <> 0 ->
  (∀ i it, iter_at fields n dest i it -> msafe Rd W (visit it) (fun _ => True)) ->
  msafe Rd W (for_each_field visit fields dest) (fun _ => True).
Proof.
  intros Htab Hd Hv. destruct (iter_begin_at _ _ _ Htab Hd) as (it & E & Hit).
  unfold for_each_field.
  eapply msafe_bind; [by apply (msafe_defined _ _ _ _ (fun r => r = (true, it)) E)|].
  intros ? ->. simpl. eapply iter_loop_safe; [done..|].
  rewrite (table_length _ _ Htab). lia.
Qed.

(** ** Default values *)

(** What the iterator and the layout give for the current field. *)
Lemma iter_static fields n dest size depth i it :
  table_ok fields n ->
  (∀ i f o, (i < n)%nat -> fields !! i = Some f -> field_offsets fields !! i = Some o ->
     static_field Rd (static_msg Rd depth) f o size) ->
  iter_at fields n dest i it ->
  ∃ f o, iter_field it = Some f ∧ fields !! i = Some f ∧
    static_field Rd (static_msg Rd depth) f o size ∧ pData it = dest + o.1 ∧
    o.2 = o.1 + size_offset f ∧
    (pSize it = SAddr (dest + o.2) \/
     pSize it = SLocal ∧ PB_HTYPE (ftype f) = PB_HTYPE_REPEATED).
Proof.
  intros Htab Hst Hit. destruct (iter_at_field _ _ _ Htab _ _ Hit) as (f & Hf & Hf' & _).
  destruct (at_data _ _ _ _ _ Hit) as (o & Ho & Hpd & Hps).
  pose proof (Hst i f o (at_lt _ _ _ _ _ Hit) Hf' Ho) as Hsf.
  exists f, o. split_and!; [done..|eapply size_place; [done..|apply Hsf]|].
  destruct Hps as [->|[-> (f' & E & Hh)]]; [by left|right]. rewrite Hf' in E.
  injection E as <-. done.
Qed.

Lemma write_size_safe W ps local v :
  (∀ a, ps = SAddr a -> ∀ i, 0 <= i < 4 -> W (a + i)) -> 0 <= local -> 0 <= v ->
  msafe Rd W (write_size ps local v) (fun l => 0 <= l).
Proof.
  intros HW Hl Hv. destruct ps as [a|]; simpl; [|by apply msafe_ret].
  eapply msafe_bind; [apply msafe_store_u; intros i Hi; by apply (HW a)|].
  intros _ _. by apply msafe_ret.
Qed.

Lemma write_has_safe W ps local b :
  (∀ a, ps = SAddr a -> W a) -> 0 <= local -> 0 <= b ->
  msafe Rd W (write_has ps local b) (fun l => 0 <= l).
Proof.
  intros HW Hl Hb. destruct ps as [a|]; simpl; [|by apply msafe_ret].
  eapply msafe_bind; [apply msafe_store_u|].
  { intros i Hi. replace (a + i) with a by lia. by apply HW. }
  intros _ _. by apply msafe_ret.
Qed.

(** Clearing the has-flag or count, and deciding whether the data is set. *)
Lemma clear_flag_safe f o size dest it :
  static_field Rd (fun _ _ => True) f o size ->
  (pSize it = SAddr (dest + o.2) \/ pSize it = SLocal ∧ PB_HTYPE (ftype f) = PB_HTYPE_REPEATED) ->
  msafe Rd (rng dest size)
    (if (PB_HTYPE (ftype f) =? PB_HTYPE_OPTIONAL) && negb (psize_is_data it) then
       _ ← write_has (pSize it) 0 0; mret true
     else if (PB_HTYPE (ftype f) =? PB_HTYPE_REPEATED)
             || (PB_HTYPE (ftype f) =? PB_HTYPE_ONEOF) then
       _ ← write_size (pSize it) 0 0; mret false
     else mret true)
    (fun init => init = true -> PB_HTYPE (ftype f) <> PB_HTYPE_REPEATED).
Proof.
  intros Hsf Hps. destruct (_ && _) eqn:Eo; bool_to_prop.
  { eapply msafe_bind; [apply write_has_safe; [|lia..]|].
    - intros a Ha. destruct Hps as [Hps|[Hps _]]; rewrite Hps in Ha; [|done].
      injection Ha as <-. destruct (sf_has _ _ _ _ _ Hsf) as [? ?]; [done|]. unfold rng. lia.
    - intros _ _. apply msafe_ret. intros _ E. by rewrite E in *. }
  destruct (_ || _) eqn:Er; [|apply msafe_ret; intros _ E; by rewrite E in Er].
  eapply msafe_bind; [apply write_size_safe; [|lia..]|intros _ _; by apply msafe_ret].
  intros a Ha. destruct Hps as [Hps|[Hps _]]; rewrite Hps in Ha; [|done]. injection Ha as <-.
  destruct (sf_count _ _ _ _ _ Hsf) as [? ?].
  - apply orb_true_iff in Er as [Er|Er]; bool_to_prop; [done|].
    by apply (sf_htype _ _ _ _ _ Hsf) in Er.
  - intros j Hj. unfold rng. lia.
Qed.

Lemma static_field_any sub f o size :
  static_field Rd sub f o size -> static_field Rd (fun _ _ => True) f o size.
Proof. intros []. split; try done. naive_solver. Qed.

Lemma set_default_safe fuel depth fields n dest size i it :
  (depth < fuel)%nat -> 0 < dest -> table_ok fields n ->
  (∀ i f o, (i < n)%nat -> fields !! i = Some f -> field_offsets fields !! i = Some o ->
     static_field Rd (static_msg Rd depth) f o size) ->
  iter_at fields n dest i it ->
  msafe Rd (rng dest size) (pb_field_set_to_default fuel it) (fun _ => True).
Proof.
  revert depth fields n dest size i it.
  induction fuel as [|fuel IH]; intros depth fields n dest size i it Hdep Hd Htab Hst Hit; [lia|].
  destruct (iter_static _ _ _ _ _ _ _ Htab Hst Hit) as (f & o & Hf & _ & Hsf & Hpd & Ho2 & Hps).
  cbn [pb_field_set_to_default].
  eapply msafe_bind; [by apply (msafe_defined _ _ _ _ (fun g => g = f) Hf)|].
  intros ? ->. cbv zeta.
  destruct (PB_LTYPE (ftype f) =? PB_LTYPE_EXTENSION) eqn:Ee; bool_to_prop;
    [by apply (sf_not_ext _ _ _ _ _ Hsf) in Ee|].
  rewrite (sf_atype _ _ _ _ _ Hsf). simpl (PB_ATYPE_STATIC =? PB_ATYPE_STATIC). cbv iota.
  eapply msafe_bind; [eapply clear_flag_safe; [by eapply static_field_any|done]|].
  intros [|] Hinit; [|by apply msafe_ret]. specialize (Hinit eq_refl).
  pose proof (sf_low _ _ _ _ _ Hsf) as Hlow. pose proof (sf_high _ _ _ _ _ Hsf) as Hhigh.
  pose proof (ok_data_size _ (sf_typed _ _ _ _ _ Hsf)) as Hds. unfold is_u32 in Hds.
  unfold static_extent in Hhigh.
  destruct (PB_HTYPE (ftype f) =? PB_HTYPE_REPEATED) eqn:Eh; bool_to_prop; [done|].
  destruct (PB_LTYPE (ftype f) =? PB_LTYPE_SUBMESSAGE) eqn:Es; bool_to_prop.
  - destruct (sf_sub _ _ _ _ _ Hsf Es) as (Hp & sub & Hsub & Hmsg).
    destruct depth as [|depth]; [done|]. destruct Hmsg as (n' & Htab' & Hst').
    eapply msafe_bind; [by apply (msafe_defined _ _ _ _ (fun g => g = sub) Hsub)|].
    intros ? ->.
    eapply (msafe_mono _ (rng (pData it) (data_size f)));
      [|intros x; unfold rng; lia|done].
    eapply for_each_safe; [exact Htab'|lia|]. intros j it' Hit'.
    eapply (IH depth); [lia|lia|exact Htab'|exact Hst'|exact Hit'].
  - destruct (negb (ptr f =? 0)) eqn:Ep; bool_to_prop.
    + apply msafe_memcpy; [lia|intros j Hj; unfold rng; lia|by apply (sf_default _ _ _ _ _ Hsf)].
    + apply msafe_memset0. intros j Hj. unfold rng. lia.
Qed.

Lemma defaults_safe fuel depth fields dest size :
  (depth <= fuel)%nat -> 0 < dest -> static_msg Rd depth fields size ->
  msafe Rd (rng dest size) (pb_message_set_to_defaults fuel fields dest) (fun _ => True).
Proof.
  intros Hdep Hd Hst. destruct depth as [|depth]; [done|]. destruct Hst as (n & Htab & Hst).
  eapply for_each_safe; [exact Htab|lia|]. intros i it Hit.
  eapply set_default_safe; [|exact Hd|exact Htab|exact Hst|exact Hit]. lia.
Qed.

(** ** Release *)

Lemma release_items_safe W k release item size :
  (∀ j, 0 <= j < Z.of_nat k -> msafe Rd W (release (item + j * size)) (fun _ => True)) ->
  msafe Rd W (release_items k release item size) (fun _ => True).
Proof.
  revert item; induction k as [|k IH]; intros item Hr; simpl; [by apply msafe_ret|].
  eapply msafe_bind; [|intros _ _; apply IH].
  - replace item with (item + 0 * size) by lia. apply Hr. lia.
  - intros j Hj. replace (item + size + j * size) with (item + (j + 1) * size) by lia.
    apply Hr. lia.
Qed.

Lemma read_size_safe W ps local :
  (∀ a, ps = SAddr a -> ∀ i, 0 <= i < 4 -> W (a + i)) -> 0 <= local ->
  msafe Rd W (read_size ps local) (fun v => 0 <= v).
Proof.
  intros HW Hl. destruct ps as [a|]; simpl; [|by apply msafe_ret].
  eapply msafe_mono; [apply msafe_load_u|done|by intros v [? _]].
  intros i Hi. by apply (HW a).
Qed.

(** A static structure owns nothing: releasing it only walks over it. *)
Lemma release_safe fuel depth fields n dest size i it :
  (depth < fuel)%nat -> 0 < dest -> table_ok fields n ->
  (∀ i f o, (i < n)%nat -> fields !! i = Some f -> field_offsets fields !! i = Some o ->
     static_field Rd (static_msg Rd depth) f o size) ->
  iter_at fields n dest i it ->
  msafe Rd (rng dest size) (pb_release_single_field fuel it) (fun _ => True).
Proof.
  revert depth fields n dest size i it.
  induction fuel as [|fuel IH]; intros depth fields n dest size i it Hdep Hd Htab Hst Hit; [lia|].
  destruct (iter_static _ _ _ _ _ _ _ Htab Hst Hit) as (f & o & Hf & _ & Hsf & Hpd & Ho2 & Hps).
  cbn [pb_release_single_field].
  eapply msafe_bind; [by apply (msafe_defined _ _ _ _ (fun g => g = f) Hf)|].
  intros ? ->. cbv zeta.
  destruct (PB_HTYPE (ftype f) =? PB_HTYPE_ONEOF) eqn:Eo; bool_to_prop;
    [by apply (sf_htype _ _ _ _ _ Hsf) in Eo|].
  eapply (msafe_bind _ _ _ _ (fun c => c = true)); [by apply msafe_ret|]. intros ? ->.
  simpl (negb true). cbv iota.
  destruct (PB_LTYPE (ftype f) =? PB_LTYPE_EXTENSION) eqn:Ee; bool_to_prop;
    [by apply (sf_not_ext _ _ _ _ _ Hsf) in Ee|].
  rewrite (sf_atype _ _ _ _ _ Hsf). simpl (PB_ATYPE_STATIC =? _). cbv iota.
  eapply (msafe_bind _ _ _ _ (fun _ => True)); [|intros _ _; by apply msafe_ret].
  destruct (PB_LTYPE (ftype f) =? PB_LTYPE_SUBMESSAGE) eqn:Es; bool_to_prop;
    [simpl (_ && _)|by apply msafe_ret].
  cbv iota. destruct (sf_sub _ _ _ _ _ Hsf Es) as (Hp & sub & Hsub & Hmsg).
  pose proof (sf_low _ _ _ _ _ Hsf) as Hlow. pose proof (sf_high _ _ _ _ _ Hsf) as Hhigh.
  pose proof (ok_data_size _ (sf_typed _ _ _ _ _ Hsf)) as Hds. unfold is_u32 in Hds.
  pose proof (ok_array_size _ (sf_typed _ _ _ _ _ Hsf)) as Has. unfold is_u32 in Has.
  eapply (msafe_bind _ _ _ _ (fun p => p = pData it)); [by apply msafe_ret|]. intros ? ->.
  eapply (msafe_bind _ _ _ _ (fun c => 0 <= c ∧ c * data_size f <= static_extent f)).
  { unfold static_extent. destruct (PB_HTYPE (ftype f) =? PB_HTYPE_REPEATED) eqn:Er; bool_to_prop.
    2: { apply msafe_ret. lia. }
    eapply (msafe_bind _ _ _ _ (fun c => 0 <= c)).
    - destruct (psize_is_data it); [apply msafe_ret; lia|].
      apply read_size_safe; [|lia]. intros a Ha.
      destruct Hps as [Hps|[Hps _]]; rewrite Hps in Ha; [|done]. injection Ha as <-.
      destruct (sf_count _ _ _ _ _ Hsf Er). intros j Hj. unfold rng. lia.
    - intros c Hc. destruct (array_size f <? c) eqn:Ec; bool_to_prop; apply msafe_ret; nia. }
  intros c [Hc Hcs]. destruct (negb (pData it =? 0)); [|by apply msafe_ret].
  apply release_items_safe. intros j Hj.
  eapply msafe_bind; [by apply (msafe_defined _ _ _ _ (fun g => g = sub) Hsub)|]. intros ? ->.
  unfold release_message. destruct (_ =? 0); [by apply msafe_ret|].
  destruct depth as [|depth]; [done|]. destruct Hmsg as (n' & Htab' & Hst').
  eapply (msafe_mono _ (rng (pData it + j * data_size f) (data_size f)));
    [|intros x; unfold rng; nia|done].
  eapply for_each_safe; [exact Htab'|nia|]. intros j' it' Hit'.
  eapply (IH depth); [lia|nia|exact Htab'|exact Hst'|exact Hit'].
Qed.

Lemma release_message_safe fuel depth fields dest size :
  (depth <= fuel)%nat -> 0 < dest -> static_msg Rd depth fields size ->
  msafe Rd (rng dest size) (pb_release fuel fields dest) (fun _ => True).
Proof.
  intros Hdep Hd Hst. destruct depth as [|depth]; [done|]. destruct Hst as (n & Htab & Hst).
  unfold pb_release, release_message. destruct (dest =? 0); [by apply msafe_ret|].
  eapply for_each_safe; [exact Htab|lia|]. intros i it Hit.
  eapply release_safe; [|exact Hd|exact Htab|exact Hst|exact Hit]. lia.
Qed.
End Static.

(** * Memory safety of pb_decode on static messages

    For any input whatsoever, decoding a static message type terminates with
    true or false and writes nothing outside the structure. *)

(** ** Progress: packable values take at least one byte *)

Section Progress.
Context `{PbEnv} (Rd : Z -> Prop).

Definition dprog {A} (W : Z -> Prop) (c : C pb_istream_t A) : Prop :=
  ∀ s m, readable s m -> state_ok Rd W m ->
    wp c s m (fun r s' _ => match r with Some _ => bytes_left s' < bytes_left s | None => True end).

Lemma dprog_bind {A B} W (c : C pb_istream_t A) (f : A -> C pb_istream_t B) Q R :
  dprog W c -> dsafe Rd true W c Q -> (∀ a, Q a -> dsafe Rd true W (f a) R) ->
  dprog W (mbind f c).
Proof.
  intros Hp Hc Hf s m Hr Hok. specialize (Hp s m Hr Hok). specialize (Hc s m Hr Hok).
  apply wp_bind. unfold wp in Hp, Hc |- * at 1.
  destruct (c s m) as [[[a|] s'] m'| |]; [|done..]. destruct Hc as [U [Hm HQ]].
  eapply wp_mono.
  - apply (Hf a HQ); [|by eapply state_ok_upd].
    eapply readable_moved; [|exact Hm]. eapply readable_upd; [apply Hok|exact U|done].
  - intros [b|] s'' m'' [_ Hpost]; [|done]. destruct Hpost as [Hm' _].
    apply moved_left in Hm'. lia.
Qed.

Lemma dprog_parses {A} W (c : C pb_istream_t A) p :
  parses c p -> (∀ bs a k, p bs = POk a k -> (1 <= k)%nat) -> dprog W c.
Proof.
  intros Hc Hk s m [bs Hr] Hok. destruct (Hc s m bs Hr) as [E _]. unfold wp. rewrite E.
  destruct (p bs) as [a k|e k] eqn:Ep; [|done]. specialize (Hk _ _ _ Ep).
  unfold poutcome, adv; simpl. lia.
Qed.

Lemma dprog_mono {A} (W W' : Z -> Prop) (c : C pb_istream_t A) :
  dprog W c -> (∀ x, W x -> W' x) -> dprog W' c.
Proof.
  intros Hc HW s m Hr [B Cv R]. apply Hc; [done|]. split; [done| |done].
  intros x Hx. by apply Cv, HW.
Qed.

(** A value decoder whose result is inspected: success consumed something. *)
Lemma wp_try_progress {A B} b W (c : C pb_istream_t A) (f : option A -> C pb_istream_t B)
    (R : B -> Prop) s m :
  readable s m -> state_ok Rd W m -> dsafe Rd true W c (fun _ => True) -> dprog W c ->
  (∀ r s1 m1, readable s1 m1 -> state_ok Rd W m1 -> moved s s1 ->
     match r with Some _ => bytes_left s1 < bytes_left s | None => True end ->
     wp (f r) s1 m1 (dpost b W R s1 m1)) ->
  wp (r ← ctry c; f r) s m (dpost b W R s m).
Proof.
  intros Hr Hok Hs Hp Hf. specialize (Hs s m Hr Hok). specialize (Hp s m Hr Hok).
  apply wp_bind, wp_try. unfold wp in Hs, Hp |- * at 1.
  destruct (c s m) as [[r s'] m'| |]; [|done..]. destruct Hs as [U Hm].
  assert (moved s s') as Hm' by (destruct r; [by destruct Hm|done]).
  eapply wp_mono; [|intros r' s'' m'' Hpost; by eapply dpost_trans].
  apply Hf; [|by eapply state_ok_upd|done|done].
  eapply readable_moved; [|exact Hm']. eapply readable_upd; [apply Hok|exact U|done].
Qed.

Lemma varint32_takes bs v k : p_varint32 bs = POk v k -> (1 <= k)%nat.
Proof.
  destruct bs as [|b bs]; simpl; [done|]. destruct (bit_set b 0x80); [|by intros [= _ <-]; lia].
  destruct (p_varint32_loop _ _ _); simpl; [|done]. intros [= _ <-]. lia.
Qed.

Lemma varint_takes bs v k : spec_varint bs = POk v k -> (1 <= k)%nat.
Proof.
  unfold spec_varint. destruct (varint_len (take 10 bs)) as [j|] eqn:E; [|by destruct (_ <? _)%nat].
  intros [= _ <-]. destruct (take 10 bs) as [|b l]; simpl in E; [done|].
  destruct (128 <=? b); [|injection E as <-; lia].
  destruct (varint_len l); simpl in E; [injection E as <-; lia|done].
Qed.

Lemma svarint_takes bs v k :
  pbind spec_varint (fun v => pret (unzigzag v)) bs = POk v k -> (1 <= k)%nat.
Proof.
  unfold pbind, pret. destruct (spec_varint bs) as [w j|] eqn:E; simpl; [|done].
  intros [= _ <-]. apply varint_takes in E. lia.
Qed.

Lemma read_takes n bs l k : 0 < n -> p_read false n bs = POk l k -> (1 <= k)%nat.
Proof.
  intros Hn. unfold p_read. destruct (n =? 0) eqn:E; bool_to_prop; [lia|].
  destruct (_ <? _); [done|]. intros [= _ <-]. lia.
Qed.

Lemma clamped_cases f dest v c8 c4 c2 c1 :
  dsafe Rd true (rng dest (data_size f))
    (if data_size f =? 8 then store_clamped 8 dest v c8
     else if data_size f =? 4 then store_clamped 4 dest v c4
     else if data_size f =? 2 then store_clamped 2 dest v c2
     else if data_size f =? 1 then store_clamped 1 dest v c1
     else PB_RETURN_ERROR "invalid data_size") (fun _ => True).
Proof.
  repeat (destruct (data_size f =? _) eqn:?; bool_to_prop;
    [apply store_clamped_safe; intros i Hi; unfold rng; lia|]).
  apply dsafe_fail.
Qed.
End Progress.

(** ** The value decoders, through the table *)

Section Call.
Context `{PbEnv} (Rd : Z -> Prop) (fuel depth : nat).
Context (noinit : list pb_field_t -> Z -> C pb_istream_t unit).
Hypothesis Hdepth : (depth <= fuel)%nat.
Hypothesis noinit_safe : ∀ fields dest size,
  static_msg Rd depth fields size -> 0 < dest ->
  dsafe Rd false (rng dest size) (noinit fields dest) (fun _ => True).

Lemma decode_with_safe fields dest size :
  static_msg Rd depth fields size -> 0 < dest ->
  dsafe Rd false (rng dest size) (decode_with fuel noinit fields dest) (fun _ => True).
Proof.
  intros Hst Hd. unfold decode_with. eapply dsafe_bind.
  { apply dsafe_lift. by eapply defaults_safe. }
  intros _ _ s m Hr Hok. apply wp_bind, wp_try. eapply wp_mono; [by apply noinit_safe|].
  intros [u|] s' m' [U Hm].
  { apply wp_ret. split; [done|]. destruct Hm. by split. }
  apply wp_bind, wp_lift.
  pose proof (release_message_safe Rd fuel depth fields dest size Hdepth Hd Hst m'
    (state_ok_upd _ _ _ _ _ U Hok)) as Hrel.
  unfold mwp in *. destruct (pb_release fuel fields dest m') as [x m''| |]; [|done|done].
  destruct Hrel as [U' _]. apply wp_fail. split; [by eapply upd_trans|done].
Qed.

Lemma dec_submessage_safe f a :
  ptr f <> 0 ->
  (∃ fields, fields_at (ptr f) = Some fields ∧ static_msg Rd depth fields (data_size f)) ->
  0 < a ->
  dsafe Rd false (rng a (data_size f)) (pb_dec_submessage fuel noinit f a) (fun _ => True).
Proof.
  intros Hp (fields & Hfs & Hst) Ha s m Hr Hok. unfold pb_dec_submessage.
  destruct (ptr f =? 0) eqn:E; bool_to_prop; [done|]. rewrite Hfs. simpl defined.
  revert s m Hr Hok.
  apply (dsafe_substream _ _ (fun _ => if PB_HTYPE (ftype f) =? PB_HTYPE_REPEATED
           then decode_with fuel noinit fields a else noinit fields a)
           (fun r sub sub' => match r with Some _ => moved sub sub' | None => lagging sub sub' end)
           (fun r => _ ← pb_close_string_substream r.2; cres r.1)).
  - intros sub m Hr Hok. eapply (wp_mono _ _ _ (dpost false _ (fun _ => True) sub m)).
    + destruct (_ =? _); [by apply decode_with_safe|by apply noinit_safe].
    + intros [u|] sub' m' [U Hpo]; (split; [done|]); [by destruct Hpo|done].
  - intros s m bs k n r sub' Hr Hkn Hok Hm. simpl. destruct r as [u|].
    + eapply wp_close; [exact Hr|done..|]. by apply dsafe_ret.
    + destruct (close_lagging s m bs k n sub' Hr Hkn Hm) as (s' & E' & Hs).
      apply wp_bind. unfold wp at 1. rewrite E'. apply wp_fail. split; [apply upd_refl|done].
Qed.

(** What a value decoder needs of its descriptor. *)
Definition value_static (f : pb_field_t) : Prop :=
  ∃ o size, static_field Rd (static_msg Rd depth) f o size.

Lemma call_decoder_safe f a :
  value_static f -> 0 < a ->
  dsafe Rd false (rng a (data_size f)) (call_decoder fuel noinit (ftype f) f a) (fun _ => True).
Proof.
  intros (o & size & Hsf) Ha. unfold call_decoder.
  pose proof (ok_data_size _ (sf_typed _ _ _ _ _ Hsf)) as Hds.
  pose proof (sf_atype _ _ _ _ _ Hsf) as Hat. pose proof (sf_ltype _ _ _ _ _ Hsf) as Hl.
  pose proof (sf_not_ext _ _ _ _ _ Hsf) as Hne.
  pose proof (sf_bool _ _ _ _ _ Hsf) as Hb. pose proof (sf_fixed32 _ _ _ _ _ Hsf) as H32.
  pose proof (sf_fixed64 _ _ _ _ _ Hsf) as H64. pose proof (sf_sub _ _ _ _ _ Hsf) as Hsub.
  pose proof (ltype_range (ftype f)) as Hl0.
  set (l := PB_LTYPE (ftype f)) in *. clearbody l. unfold PB_LTYPE_FIXED_LENGTH_BYTES in Hl.
  assert (l ∈ Z.of_nat <$> seq 0 11) as Hin.
  { apply list_elem_of_fmap. exists (Z.to_nat l). rewrite elem_of_seq. lia. }
  simpl in Hin.
  apply elem_of_cons in Hin as [->|Hin]; [apply dsafe_weaken, dec_bool_safe, Hb; done|].
  apply elem_of_cons in Hin as [->|Hin]; [apply dsafe_weaken, dec_varint_safe|].
  apply elem_of_cons in Hin as [->|Hin]; [apply dsafe_weaken, dec_uvarint_safe|].
  apply elem_of_cons in Hin as [->|Hin]; [apply dsafe_weaken, dec_svarint_safe|].
  apply elem_of_cons in Hin as [->|Hin]; [apply dsafe_weaken, dec_fixed32_safe, H32; done|].
  apply elem_of_cons in Hin as [->|Hin]; [apply dsafe_weaken, dec_fixed64_safe, H64; done|].
  apply elem_of_cons in Hin as [->|Hin]; [by apply dsafe_weaken, dec_bytes_safe|].
  apply elem_of_cons in Hin as [->|Hin]; [by apply dsafe_weaken, dec_string_safe|].
  apply elem_of_cons in Hin as [->|Hin].
  { destruct Hsub as [Hp Hs]; [done|]. by apply dec_submessage_safe. }
  apply elem_of_cons in Hin as [->|Hin]; [done|].
  apply elem_of_cons in Hin as [->|Hin]; [by apply dsafe_weaken, dec_fixed_bytes_safe|].
  by apply elem_of_nil in Hin.
Qed.

(** Packable values fail without opening a substream, and make progress. *)
Lemma call_packable f a :
  value_static f -> PB_LTYPE (ftype f) <= PB_LTYPE_LAST_PACKABLE ->
  dsafe Rd true (rng a (data_size f)) (call_decoder fuel noinit (ftype f) f a) (fun _ => True) ∧
  dprog Rd (rng a (data_size f)) (call_decoder fuel noinit (ftype f) f a).
Proof.
  intros (o & size & Hsf) Hl. unfold call_decoder.
  pose proof (sf_bool _ _ _ _ _ Hsf) as Hb. pose proof (sf_fixed32 _ _ _ _ _ Hsf) as H32.
  pose proof (sf_fixed64 _ _ _ _ _ Hsf) as H64. pose proof (ltype_range (ftype f)) as Hl0.
  set (l := PB_LTYPE (ftype f)) in *. clearbody l. unfold PB_LTYPE_LAST_PACKABLE in Hl.
  assert (l ∈ Z.of_nat <$> seq 0 6) as Hin.
  { apply list_elem_of_fmap. exists (Z.to_nat l). rewrite elem_of_seq. lia. }
  simpl in Hin.
  apply elem_of_cons in Hin as [->|Hin].
  { split; [apply dec_bool_safe, Hb; done|].
    eapply dprog_bind; [apply (dprog_parses _ _ _ _ parses_varint32), varint32_takes|
      apply dsafe_varint32|]. intros v _.
    apply dsafe_lift, msafe_store_u. intros i Hi. specialize (Hb eq_refl). unfold rng. lia. }
  apply elem_of_cons in Hin as [->|Hin].
  { split; [apply dec_varint_safe|].
    eapply dprog_bind; [apply (dprog_parses _ _ _ _ parses_varint), varint_takes|
      apply (dsafe_any _ _ _ _ _ parses_varint)|]. intros v _. apply clamped_cases. }
  apply elem_of_cons in Hin as [->|Hin].
  { split; [apply dec_uvarint_safe|].
    eapply dprog_bind; [apply (dprog_parses _ _ _ _ parses_varint), varint_takes|
      apply (dsafe_any _ _ _ _ _ parses_varint)|]. intros v _. apply clamped_cases. }
  apply elem_of_cons in Hin as [->|Hin].
  { split; [apply dec_svarint_safe|].
    eapply dprog_bind; [apply (dprog_parses _ _ _ _ parses_svarint), svarint_takes|
      apply (dsafe_any _ _ _ _ _ parses_svarint)|]. intros v _. apply clamped_cases. }
  apply elem_of_cons in Hin as [->|Hin].
  { split; [apply dec_fixed32_safe, H32; done|].
    eapply dprog_bind; [apply (dprog_parses _ _ _ _ (parses_read false 4 ltac:(lia)));
      intros ? ? ?; by apply read_takes|by apply dsafe_read_local|].
    intros bs _. apply dsafe_lift, msafe_store_u. intros i Hi. specialize (H32 eq_refl).
    unfold rng. lia. }
  apply elem_of_cons in Hin as [->|Hin].
  { split; [apply dec_fixed64_safe, H64; done|].
    eapply dprog_bind; [apply (dprog_parses _ _ _ _ (parses_read false 8 ltac:(lia)));
      intros ? ? ?; by apply read_takes|by apply dsafe_read_local|].
    intros bs _. apply dsafe_lift, msafe_store_u. intros i Hi. specialize (H64 eq_refl).
    unfold rng. lia. }
  by apply elem_of_nil in Hin.
Qed.
End Call.

(** ** Fields *)

Section Field.
Context `{PbEnv} (Rd : Z -> Prop) (fuel depth : nat).
Context (noinit : list pb_field_t -> Z -> C pb_istream_t unit).
Hypothesis Hdepth : (depth <= fuel)%nat.
Hypothesis noinit_safe : ∀ fields dest size,
  static_msg Rd depth fields size -> 0 < dest ->
  dsafe Rd false (rng dest size) (noinit fields dest) (fun _ => True).

(** The entry [index] of an array field lies inside the structure. *)
Lemma item_inside f o size dest index :
  static_field Rd (static_msg Rd depth) f o size -> 0 < dest ->
  PB_HTYPE (ftype f) = PB_HTYPE_REPEATED -> 0 <= index < array_size f ->
  let a := item_addr (dest + o.1) (data_size f) index in
  0 < a ∧ ∀ x, rng a (data_size f) x -> rng dest size x.
Proof.
  intros Hsf Hd Hh Hi. pose proof (sf_low _ _ _ _ _ Hsf). pose proof (sf_high _ _ _ _ _ Hsf) as Hhi.
  pose proof (sf_array _ _ _ _ _ Hsf Hh). unfold static_extent in Hhi.
  rewrite Hh in Hhi. simpl in Hhi.
  pose proof (ok_data_size _ (sf_typed _ _ _ _ _ Hsf)) as Hds. unfold is_u32 in Hds.
  unfold item_addr, u32. rewrite Z.mod_small by nia. unfold rng. split; [nia|]. intros x Hx. nia.
Qed.

Lemma psize_inside it dest o size f :
  static_field Rd (static_msg Rd depth) f o size -> PB_HTYPE (ftype f) = PB_HTYPE_REPEATED ->
  (pSize it = SAddr (dest + o.2) \/ pSize it = SLocal ∧ PB_HTYPE (ftype f) = PB_HTYPE_REPEATED) ->
  ∀ a, pSize it = SAddr a -> ∀ i, 0 <= i < 4 -> rng dest size (a + i).
Proof.
  intros Hsf Hh Hps a Ha i Hi. destruct Hps as [Hps|[Hps _]]; rewrite Hps in Ha; [|done].
  injection Ha as <-. destruct (sf_count _ _ _ _ _ Hsf Hh). unfold rng. lia.
Qed.

(** The packed loop: never past [array_size], and done when the substream is
    empty. *)
Lemma packed_loop_safe f o size dest ps n local sub m :
  static_field Rd (static_msg Rd depth) f o size -> 0 < dest ->
  PB_HTYPE (ftype f) = PB_HTYPE_REPEATED -> PB_LTYPE (ftype f) <= PB_LTYPE_LAST_PACKABLE ->
  (∀ a, ps = SAddr a -> ∀ i, 0 <= i < 4 -> rng dest size (a + i)) -> 0 <= local ->
  readable sub m -> state_ok Rd (rng dest size) m -> bytes_left sub <= Z.of_nat n ->
  wp (static_packed_loop fuel noinit n f (dest + o.1) ps local) sub m
     (dpost true (rng dest size) (fun r => 0 <= r.2) sub m).
Proof.
  intros Hsf Hd Hh Hl Hps. revert local sub m; induction n as [|n IH];
    intros local sub m Hloc Hr Hok Hn; cbn [static_packed_loop]; apply wp_bind, wp_get;
    (eapply wp_dbind; [done|done|
      by apply (dsafe_lift Rd _ _ _ _ (read_size_safe Rd (rng dest size) ps local Hps Hloc))|]);
    intros index s1 m1 Hr1 Hok1 Hm1 Hidx; cbv beta in Hidx.
  { pose proof (readable_left _ _ Hr). replace (bytes_left sub) with 0 by lia.
    by eapply dsafe_ret. }
  destruct ((0 <? bytes_left sub) && (index <? array_size f)) eqn:Ec;
    [|by eapply dsafe_ret]. bool_to_prop.
  destruct (item_inside f o size dest index Hsf Hd Hh ltac:(split; assumption)) as [Ha Hin].
  set (a := item_addr _ _ _) in *.
  destruct (call_packable Rd fuel depth noinit Hdepth f a
    ltac:(by exists o, size) Hl) as [Hcs Hcp].
  eapply wp_try_progress; [done|done|by eapply dsafe_mono|by eapply dprog_mono|].
  intros [u|] s2 m2 Hr2 Hok2 Hm2 Hlt; [|by eapply dsafe_ret].
  eapply wp_dbind; [done|done|
    by apply (dsafe_lift Rd _ _ _ _ (read_size_safe Rd (rng dest size) ps local Hps Hloc))|].
  intros v s3 m3 Hr3 Hok3 Hm3 Hv.
  assert (0 <= u32 (v + 1)) as Hv1 by (by apply Z.mod_pos_bound).
  eapply wp_dbind; [done|done|
    by apply (dsafe_lift Rd _ _ _ _
      (write_size_safe Rd (rng dest size) ps local _ Hps Hloc Hv1))|].
  intros l4 s4 m4 Hr4 Hok4 Hm4 Hl4. apply moved_left in Hm1, Hm3, Hm4.
  apply IH; [done..|lia].
Qed.

(** The loop always returns a status. *)
Definition nofail {A} (c : C pb_istream_t A) : Prop := ∀ s m s' m', c s m <> Ret (None, s') m'.

Lemma nofail_bind {A B} (c : C pb_istream_t A) (f : A -> C pb_istream_t B) :
  nofail c -> (∀ a, nofail (f a)) -> nofail (mbind f c).
Proof.
  intros Hc Hf s m s' m'. unfold mbind, C_bind.
  destruct (c s m) as [[[a|] s1] m1| |] eqn:E; [apply Hf|by apply Hc in E|done..].
Qed.

Lemma nofail_lift {A} (c : M A) : nofail (clift c).
Proof. intros s m s' m'. unfold clift. by destruct (c m). Qed.

Lemma nofail_try {A} (c : C pb_istream_t A) : nofail (ctry c).
Proof. intros s m s' m'. unfold ctry. by destruct (c s m) as [[r s1] m1| |]. Qed.

Lemma packed_loop_nofail n f a ps local :
  nofail (static_packed_loop fuel noinit n f a ps local).
Proof.
  revert local; induction n as [|n IH]; intros local; cbn [static_packed_loop];
    (apply nofail_bind; [done|intros s]); (apply nofail_bind; [apply nofail_lift|intros v]);
    (destruct (_ && _); [|done]); [done|].
  apply nofail_bind; [apply nofail_try|]. intros [u|]; [|done].
  apply nofail_bind; [apply nofail_lift|intros v'].
  apply nofail_bind; [apply nofail_lift|intros l]. apply IH.
Qed.

(** A packed array field. *)
Lemma decode_packed_safe f o size dest it local :
  static_field Rd (static_msg Rd depth) f o size -> 0 < dest ->
  PB_HTYPE (ftype f) = PB_HTYPE_REPEATED -> PB_LTYPE (ftype f) <= PB_LTYPE_LAST_PACKABLE ->
  pData it = dest + o.1 ->
  (pSize it = SAddr (dest + o.2) \/ pSize it = SLocal ∧ PB_HTYPE (ftype f) = PB_HTYPE_REPEATED) ->
  0 <= local ->
  dsafe Rd false (rng dest size)
    (substream ← pb_make_string_substream;
     r ← con substream
           (static_packed_loop fuel noinit (Z.to_nat (bytes_left substream)) f (pData it)
                               (pSize it) local);
     res ← defined r.1;
     if negb (bytes_left r.2 =? 0) then PB_RETURN_ERROR "array overflow"
     else
       _ ← pb_close_string_substream r.2;
       if (res.1 : bool) then mret res.2 else cfail) (fun l => 0 <= l).
Proof.
  intros Hsf Hd Hh Hl Hpd Hps Hloc. rewrite Hpd.
  pose proof (psize_inside it dest o size f Hsf Hh Hps) as Hpi.
  apply (dsafe_substream _ _ (fun substream => static_packed_loop fuel noinit
    (Z.to_nat (bytes_left substream)) f (dest + o.1) (pSize it) local)
    (fun r sub sub' => ∃ res, r = Some res ∧ moved sub sub' ∧ 0 <= res.2)
    (fun r => res ← defined r.1;
       if negb (bytes_left r.2 =? 0) then PB_RETURN_ERROR "array overflow"
       else _ ← pb_close_string_substream r.2;
            if (res.1 : bool) then mret res.2 else cfail)).
  - intros sub m Hr Hok. pose proof (readable_left _ _ Hr).
    pose proof (packed_loop_safe f o size dest (pSize it) (Z.to_nat (bytes_left sub)) local
      sub m Hsf Hd Hh Hl Hpi Hloc Hr Hok ltac:(lia)) as Hw.
    pose proof (packed_loop_nofail (Z.to_nat (bytes_left sub)) f (dest + o.1) (pSize it) local
      sub m) as Hnf.
    unfold wp in *. destruct (static_packed_loop _ _ _ _ _ _ _ sub m) as [[[r|] s'] m'| |];
      [|by edestruct Hnf|done..].
    destruct Hw as [U [Hm Hl0]]. split; [done|]. by exists r.
  - intros s m bs k n r sub' Hr Hkn Hok (res & -> & Hm & Hl0). cbn [fst snd].
    rewrite (eq_refl : defined (Some res) = mret res). apply wp_bind, wp_ret.
    destruct (negb (bytes_left sub' =? 0)); [by eapply wp_parent_fail|].
    eapply wp_close; [done..|]. destruct (res.1); [by apply dsafe_ret|apply dsafe_cfail].
Qed.

Lemma decode_static_safe fields n dest size i it wt local :
  table_ok fields n -> 0 < dest ->
  (∀ i f o, (i < n)%nat -> fields !! i = Some f -> field_offsets fields !! i = Some o ->
     static_field Rd (static_msg Rd depth) f o size) ->
  iter_at fields n dest i it -> 0 <= local ->
  dsafe Rd false (rng dest size) (decode_static_field fuel noinit wt it local) (fun l => 0 <= l).
Proof.
  intros Htab Hd Hst Hit Hloc.
  destruct (iter_static _ _ _ _ _ _ _ _ Htab Hst Hit) as (f & o & Hf & _ & Hsf & Hpd & _ & Hps).
  unfold decode_static_field. eapply dsafe_bind; [by apply (dsafe_defined _ _ _ _ _ (fun g => g = f) Hf)|].
  intros ? ->. cbv zeta. pose proof (sf_low _ _ _ _ _ Hsf) as Hlow.
  pose proof (sf_high _ _ _ _ _ Hsf) as Hhi. unfold static_extent in Hhi.
  assert (value_static Rd depth f) as Hvs by (by exists o, size).
  assert (PB_HTYPE (ftype f) <> PB_HTYPE_REPEATED ->
    dsafe Rd false (rng dest size) (call_decoder fuel noinit (ftype f) f (pData it)) (fun _ => True))
    as Hsingle.
  { intros Hne. apply Z.eqb_neq in Hne. rewrite Hne in Hhi.
    eapply dsafe_mono; [apply (call_decoder_safe Rd fuel depth); [done..|lia]| |done].
    intros x. unfold rng. lia. }
  destruct (PB_HTYPE (ftype f) =? PB_HTYPE_REQUIRED) eqn:Eq; bool_to_prop.
  { eapply dsafe_bind; [apply Hsingle; by rewrite Eq|]. intros _ _. by apply dsafe_ret. }
  destruct (PB_HTYPE (ftype f) =? PB_HTYPE_OPTIONAL) eqn:Eo; bool_to_prop.
  { eapply (dsafe_bind _ _ _ _ _ (fun l => 0 <= l)).
    - destruct (negb (psize_is_data it)); [|by apply dsafe_ret].
      apply dsafe_lift, write_has_safe; [|done|lia]. intros a Ha.
      destruct Hps as [Hps|[Hps _]]; rewrite Hps in Ha; [|done]. injection Ha as <-.
      destruct (sf_has _ _ _ _ _ Hsf Eo). unfold rng. lia.
    - intros l Hl. eapply dsafe_bind; [apply Hsingle; by rewrite Eo|]. intros _ _.
      by apply dsafe_ret. }
  destruct (PB_HTYPE (ftype f) =? PB_HTYPE_REPEATED) eqn:Er; bool_to_prop.
  2: { destruct (htype_cases (ftype f)) as [?|[?|[?|?]]]; try done.
       by destruct (sf_htype _ _ _ _ _ Hsf). }
  destruct (_ && _) eqn:Ep; bool_to_prop; [by eapply decode_packed_safe|].
  pose proof (psize_inside it dest o size f Hsf Er Hps) as Hpi.
  eapply dsafe_bind; [by apply dsafe_lift, read_size_safe|]. intros index Hidx.
  eapply dsafe_bind; [apply dsafe_lift, write_size_safe; [done|done|by apply Z.mod_pos_bound]|].
  intros l Hl. destruct (array_size f <=? index) eqn:Ea; bool_to_prop; [apply dsafe_fail|].
  rewrite Hpd. destruct (item_inside f o size dest index Hsf Hd Er (conj Hidx Ea)) as [Ha Hin].
  eapply dsafe_bind; [|intros _ _; by apply dsafe_ret].
  eapply dsafe_mono; [by apply (call_decoder_safe Rd fuel depth)|done|done].
Qed.

(** [decode_field] leaves the iterator where it was. *)
Lemma decode_field_safe fields n dest size i it wt local :
  table_ok fields n -> 0 < dest ->
  (∀ i f o, (i < n)%nat -> fields !! i = Some f -> field_offsets fields !! i = Some o ->
     static_field Rd (static_msg Rd depth) f o size) ->
  iter_at fields n dest i it -> 0 <= local ->
  dsafe Rd false (rng dest size) (decode_field fuel noinit wt it local)
    (fun r => 0 <= r.1 ∧ r.2 = it).
Proof.
  intros Htab Hd Hst Hit Hloc.
  destruct (iter_static _ _ _ _ _ _ _ _ Htab Hst Hit) as (f & o & Hf & _ & Hsf & _).
  unfold decode_field. eapply dsafe_bind; [by apply (dsafe_defined _ _ _ _ _ (fun g => g = f) Hf)|].
  intros ? ->. destruct (PB_HTYPE (ftype f) =? PB_HTYPE_ONEOF) eqn:Eo; bool_to_prop;
    [by apply (sf_htype _ _ _ _ _ Hsf) in Eo|].
  eapply (dsafe_bind _ _ _ _ _ (fun it' => it' = it)); [by apply dsafe_ret|]. intros ? ->.
  eapply dsafe_bind; [by apply (dsafe_defined _ _ _ _ _ (fun g => g = f) Hf)|]. intros ? ->.
  cbv zeta. rewrite (sf_atype _ _ _ _ _ Hsf). simpl (PB_ATYPE_STATIC =? PB_ATYPE_STATIC).
  cbv iota. eapply dsafe_bind; [by eapply decode_static_safe|]. intros l Hl.
  by apply dsafe_ret.
Qed.
End Field.
