(* ===== verification/Required.v ===== *)
(** * The bookkeeping of required fields

    [pb_decode_noinit] marks the required fields it meets in two 32-bit words
    and at the end compares whole words and the remaining bits. *)

From S2P Require Import Prelude.
From S2P Require Import Memory.
From S2P Require Import PbTypes.
From S2P Require Import PbDecode.

(** Bit [i] of the two words says [P i]. *)
Record marks (seen : list Z) (P : Z -> bool) (w0 w1 : Z) : Prop := {
  marks_eq : seen = [w0; w1];
  marks_u32 : is_u32 w0 ∧ is_u32 w1;
  marks_low i : 0 <= i < 32 -> Z.testbit w0 i = P i;
  marks_high i : 0 <= i < 32 -> Z.testbit w1 i = P (32 + i);
}.

Lemma u32_high w i : is_u32 w -> 32 <= i -> Z.testbit w i = false.
Proof.
  unfold is_u32. intros Hw Hi. rewrite <- (Z.mod_small w (2 ^ 32)) by lia.
  apply Z.mod_pow2_bits_high. lia.
Qed.

(** A word is [2^r - 1] when its low [r] bits, and no others, are set. *)
Lemma word_full w r :
  is_u32 w -> 0 <= r <= 32 ->
  (w =? 2 ^ r - 1) = forallb (fun i => Bool.eqb (Z.testbit w (Z.of_nat i)) (Z.of_nat i <? r)) (seq 0 32).
Proof.
  intros Hw Hr. replace (2 ^ r - 1) with (Z.ones r) by (rewrite Z.ones_equiv; lia).
  apply Bool.eq_iff_eq_true. rewrite Z.eqb_eq, forallb_forall. split.
  - intros -> i Hi. apply Bool.eqb_true_iff.
    destruct (Z.of_nat i <? r) eqn:E; bool_to_prop.
    + apply Z.ones_spec_low. lia.
    + apply Z.ones_spec_high. lia.
  - intros Hb. apply Z.bits_inj'. intros i Hi.
    destruct (decide (i < 32)) as [Hlt|Hge].
    + specialize (Hb (Z.to_nat i)). rewrite Z2Nat.id in Hb by done.
      rewrite <- list_elem_of_In, elem_of_seq in Hb. specialize (Hb ltac:(lia)).
      apply Bool.eqb_prop in Hb. rewrite Hb. destruct (i <? r) eqn:E; bool_to_prop.
      * by rewrite Z.ones_spec_low by lia.
      * by rewrite Z.ones_spec_high by lia.
    + rewrite u32_high by (done || lia). by rewrite Z.ones_spec_high by lia.
Qed.

Lemma set_bit_u32 w k : is_u32 w -> 0 <= k < 32 -> is_u32 (Z.lor w (u32 (Z.shiftl 1 k))).
Proof.
  unfold is_u32. intros Hw Hk. apply lor_bound; [lia|done|]. by apply Z.mod_pos_bound.
Qed.

Lemma set_bit_test w k i :
  0 <= k < 32 -> 0 <= i < 32 ->
  Z.testbit (Z.lor w (u32 (Z.shiftl 1 k))) i = Z.testbit w i || (i =? k).
Proof.
  intros Hk Hi. rewrite Z.lor_spec. f_equal. unfold u32.
  rewrite Z.mod_pow2_bits_low by lia. rewrite Z.shiftl_mul_pow2, Z.mul_1_l by lia.
  rewrite Z.pow2_bits_eqb by lia. apply Z.eqb_sym.
Qed.

(** Marking one more field. *)
Lemma set_seen_marks seen P w0 w1 k :
  marks seen P w0 w1 -> 0 <= k < 64 ->
  ∃ seen' v0 v1, set_seen seen k = Some seen' ∧ marks seen' (fun i => P i || (i =? k)) v0 v1.
Proof.
  intros [-> [H0 H1] Hl Hh] Hk. unfold set_seen.
  rewrite Z.shiftr_div_pow2 by lia. change 31 with (Z.ones 5). rewrite Z.land_ones by lia.
  change (2 ^ 5) with 32.
  destruct (decide (k < 32)) as [Hlt|Hge].
  - rewrite Z.div_small, Z.mod_small by lia. simpl. eexists _, _, _. split; [done|].
    split; [done|split; [apply set_bit_u32; [done|lia]|done]| |].
    + intros i Hi. rewrite set_bit_test by lia. rewrite Hl by done. done.
    + intros i Hi. rewrite Hh by done.
      destruct (32 + i =? k) eqn:E; bool_to_prop; [lia|by rewrite orb_false_r].
  - replace (k / 32) with 1 by dlia. replace (k mod 32) with (k - 32) by dlia. simpl.
    eexists _, _, _. split; [done|].
    split; [done|split; [done|apply set_bit_u32; [done|lia]]| |].
    + intros i Hi. rewrite Hl by done.
      destruct (i =? k) eqn:E; bool_to_prop; [lia|by rewrite orb_false_r].
    + intros i Hi. rewrite set_bit_test, Hh by lia. f_equal.
      apply Bool.eq_iff_eq_true. rewrite !Z.eqb_eq. lia.
Qed.

(** Marking a sequence of fields. *)
Definition set_all (ks : list Z) (seen : list Z) : option (list Z) :=
  foldl (fun acc k => s ← acc; set_seen s k) (Some seen) ks.

Lemma set_all_marks ks seen P w0 w1 :
  marks seen P w0 w1 -> (∀ k, k ∈ ks -> 0 <= k < 64) ->
  ∃ seen' v0 v1, set_all ks seen = Some seen' ∧
    marks seen' (fun i => P i || bool_decide (i ∈ ks)) v0 v1.
Proof.
  revert seen P w0 w1; induction ks as [|k ks IH]; intros seen P w0 w1 Hm Hks.
  - exists seen, w0, w1. split; [done|]. destruct Hm as [-> Hu Hl Hh].
    split; [done|done|intros i Hi; rewrite Hl by done|intros i Hi; rewrite Hh by done];
      by rewrite bool_decide_false, orb_false_r by set_solver.
  - destruct (set_seen_marks _ _ _ _ k Hm) as (seen1 & v0 & v1 & E & Hm1); [apply Hks; set_solver|].
    destruct (IH _ _ _ _ Hm1) as (seen2 & u0 & u1 & E2 & [-> Hu Hl Hh]); [set_solver|].
    exists [u0; u1], u0, u1. split.
    + unfold set_all in *. cbn [foldl]. rewrite <- E2. simpl. by rewrite E.
    + assert (∀ i, (P i || (i =? k)) || bool_decide (i ∈ ks) = P i || bool_decide (i ∈ k :: ks)) as R.
      { intros i. rewrite <- orb_assoc. f_equal. apply Bool.eq_iff_eq_true.
        rewrite orb_true_iff, !bool_decide_eq_true, Z.eqb_eq, elem_of_cons. done. }
      split; [done|done|intros i Hi; rewrite Hl by done; apply R|
        intros i Hi; rewrite Hh by done; apply R].
Qed.

(** ** The final test *)

Lemma forallb_seq_add (P : nat -> bool) a b :
  forallb P (seq 0 (a + b)) = forallb P (seq 0 a) && forallb (fun i => P (a + i)%nat) (seq 0 b).
Proof.
  rewrite seq_app, forallb_app. f_equal. simpl.
  rewrite <- (Nat.add_0_r a) at 1. rewrite <- fmap_add_seq.
  generalize (seq 0 b). intros l. induction l as [|x l IH]; [done|].
  rewrite fmap_cons. cbn [forallb]. by rewrite IH.
Qed.

Lemma forallb_ext_seq (P Q : nat -> bool) n :
  (∀ i, (i < n)%nat -> P i = Q i) -> forallb P (seq 0 n) = forallb Q (seq 0 n).
Proof.
  intros HPQ. apply Bool.eq_iff_eq_true. rewrite !forallb_forall.
  split; intros Hf i Hi; specialize (Hf i Hi); apply list_elem_of_In, elem_of_seq in Hi;
    [rewrite <- HPQ by lia|rewrite HPQ by lia]; done.
Qed.

(** One word against the predicate, when nothing from [r] on is marked. *)
Lemma word_test w (P : Z -> bool) (r : nat) :
  is_u32 w -> (r <= 32)%nat -> (∀ i, 0 <= i < 32 -> Z.testbit w i = P i) ->
  (∀ i, Z.of_nat r <= i < 32 -> P i = false) ->
  (w =? 2 ^ Z.of_nat r - 1) = forallb (fun i => P (Z.of_nat i)) (seq 0 r).
Proof.
  intros Hw Hr Hbit Hno. rewrite word_full by (done || lia).
  replace 32%nat with (r + (32 - r))%nat by lia. rewrite forallb_seq_add.
  rewrite (forallb_ext_seq _ (fun i => P (Z.of_nat i)) r).
  - rewrite (forallb_ext_seq _ (fun _ => true) (32 - r)).
    + assert (forallb (fun _ : nat => true) (seq 0 (32 - r)) = true) as ->.
      { by apply forallb_forall. }
      apply andb_true_r.
    + intros i Hi. rewrite Hbit, Hno by lia.
      destruct (Z.of_nat (r + i) <? Z.of_nat r) eqn:E; bool_to_prop; [lia|done].
  - intros i Hi. rewrite Hbit by lia.
    destruct (Z.of_nat i <? Z.of_nat r) eqn:E; bool_to_prop; [|lia].
    by destruct (P (Z.of_nat i)).
Qed.

Lemma required_present_marks seen P w0 w1 (c : nat) :
  marks seen P w0 w1 -> (c <= 64)%nat -> (∀ i, Z.of_nat c <= i < 64 -> P i = false) ->
  required_present seen (Z.of_nat c) = Some (forallb (fun i => P (Z.of_nat i)) (seq 0 c)).
Proof.
  intros [-> [H0 H1] Hl Hh] Hc Hno. unfold required_present.
  destruct (0 <? Z.of_nat c) eqn:E0; bool_to_prop; [|by replace c with 0%nat by lia].
  rewrite Z.shiftr_div_pow2 by lia. change 31 with (Z.ones 5). rewrite Z.land_ones by lia.
  change (2 ^ 5) with 32. change allbits with (2 ^ 32 - 1).
  assert (∀ r, 0 < r <= 32 -> Z.shiftr (2 ^ 32 - 1) (32 - r) = 2 ^ r - 1) as Hsh.
  { intros r Hr. rewrite Z.shiftr_div_pow2 by lia.
    assert (2 ^ 32 = 2 ^ r * 2 ^ (32 - r)) as -> by (rewrite <- Z.pow_add_r by lia; f_equal; lia).
    assert (0 < 2 ^ (32 - r)) by (apply Z.pow_pos_nonneg; lia).
    symmetry. apply (Z.div_unique _ _ _ (2 ^ (32 - r) - 1)); lia. }
  destruct (decide (c < 32)%nat) as [Hlt|Hge].
  { rewrite Z.div_small, Z.mod_small by lia. simpl (take _ _). simpl (forallb _ []).
    cbn [negb]. destruct (Z.of_nat c =? 0) eqn:Ec; bool_to_prop; [lia|]. simpl.
    rewrite Hsh by lia. f_equal. apply word_test; [done|lia|done|]. intros i Hi. apply Hno. lia. }
  assert ((w0 =? 2 ^ 32 - 1) = forallb (fun i => P (Z.of_nat i)) (seq 0 32)) as Hfull.
  { apply (word_test w0 P 32); [done|lia|done|lia]. }
  assert (seq 0 c = seq 0 (32 + (c - 32))) as -> by (f_equal; lia).
  rewrite forallb_seq_add, <- Hfull.
  rewrite (forallb_ext_seq _ (fun i => P (32 + Z.of_nat i)) (c - 32))
    by (intros i Hi; f_equal; lia).
  destruct (decide (c < 64)%nat) as [Hlt64|Heq].
  - replace (Z.of_nat c / 32) with 1 by dlia. simpl (take _ _). cbn [forallb].
    rewrite andb_true_r. destruct (w0 =? 2 ^ 32 - 1); [|done]. cbn [negb andb].
    replace (Z.of_nat c mod 32) with (Z.of_nat (c - 32)) by dlia.
    destruct (Z.of_nat (c - 32) =? 0) eqn:Ec; bool_to_prop.
    + by replace (c - 32)%nat with 0%nat by lia.
    + simpl. rewrite Hsh by lia. f_equal. apply (word_test w1 (fun i => P (32 + i))); [done|lia|done|].
      intros i Hi. apply Hno. lia.
  - replace c with 64%nat by lia. change (Z.of_nat 64 / 32) with 2. simpl (take _ _).
    cbn [forallb]. rewrite andb_true_r.
    change (64 - 32)%nat with 32%nat.
    pose proof (word_test w1 (fun i => P (32 + i)) 32 H1 ltac:(lia) Hh ltac:(lia)) as Hw1.
    cbv beta in Hw1. rewrite <- Hw1.
    change (2 ^ Z.of_nat 32 - 1) with (2 ^ 32 - 1).
    destruct (w0 =? 2 ^ 32 - 1), (w1 =? 2 ^ 32 - 1); done.
Qed.

(** The required-field check is exact: after the fields of indices [ks]
    were marked, in any order and number, the test at the end of
    [pb_decode_noinit] succeeds if and only if every index below the number
    of tracked required fields occurs in [ks]. *)
Lemma required_check_exact ks (c : nat) :
  (c <= 64)%nat -> (∀ k, k ∈ ks -> 0 <= k < Z.of_nat c) ->
  ∃ seen, set_all ks [0; 0] = Some seen ∧
    required_present seen (Z.of_nat c) =
      Some (forallb (fun i => bool_decide (Z.of_nat i ∈ ks)) (seq 0 c)).
Proof.
  intros Hc Hks.
  assert (marks [0; 0] (fun _ => false) 0 0) as Hm0.
  { split; [done|by split|intros; apply Z.bits_0|intros; apply Z.bits_0]. }
  destruct (set_all_marks ks _ _ _ _ Hm0) as (seen & w0 & w1 & E & Hm).
  { intros k Hk. specialize (Hks k Hk). lia. }
  exists seen. split; [done|]. rewrite (required_present_marks _ _ _ _ _ Hm Hc).
  - done.
  - intros i Hi. simpl. apply bool_decide_false. intros Hin. specialize (Hks i Hin). lia.
Qed.
