(* ===== verification/DecodeThms.v ===== *)
(** * The message loop on static messages, and the safety theorem *)

From S2P Require Import Prelude.
From S2P Require Import Memory.
From S2P Require Import MemFacts.
From S2P Require Import PbTypes.
From S2P Require Import PbCommon.
From S2P Require Import PbIStream.
From S2P Require Import PbDecode.
From S2P Require Import WireSpec.
From S2P Require Import VarintSpec.
From S2P Require Import Varint.
From S2P Require Import EncSpec.
From S2P Require Import EncMsg.
From S2P Require Import IterFacts.
From S2P Require Import DecSafe.
From S2P Require Import DecStatic.
From S2P Require Import PbFields.
From S2P Require Import Cct.
From S2P Require Import CctImage.
From S2P Require Import WireThms.

Section Loop.
Context `{PbEnv} (Rd : Z -> Prop) (fuel depth : nat).
Context (noinit : list pb_field_t -> Z -> C pb_istream_t unit).
Hypothesis Hdepth : (depth <= fuel)%nat.
Hypothesis noinit_safe : ∀ fields dest size,
  static_msg Rd depth fields size -> 0 < dest ->
  dsafe Rd false (rng dest size) (noinit fields dest) (fun _ => True).

Context (fields : list pb_field_t) (n : nat) (dest size : Z).
Hypothesis Htab : table_ok fields n.
Hypothesis Hdest : 0 < dest.
Hypothesis Hst : ∀ i f o, (i < n)%nat -> fields !! i = Some f ->
  field_offsets fields !! i = Some o -> static_field Rd (static_msg Rd depth) f o size.

(** The local variables of [pb_decode_noinit] stay meaningful. *)
Record locals_ok (l : noinit_locals) : Prop := {
  lo_iter : ∃ i, iter_at fields n dest i (l_iter l);
  lo_seen : length (fields_seen l) = 2%nat;
  lo_count : 0 <= fixed_count_size l;
  lo_field p : fixed_count_field l = Some p -> (p < n)%nat;
}.

Lemma incomplete_defined l : locals_ok l -> ∃ b, fixed_count_incomplete l = Some b.
Proof.
  intros [(i & Hi) _ _ Hp]. unfold fixed_count_incomplete.
  destruct (fixed_count_field l) as [p|]; [|eauto].
  rewrite (at_start _ _ _ _ _ Hi). destruct (lookup_lt_is_Some_2 fields p) as [f Hf].
  - rewrite (table_length _ _ Htab). specialize (Hp p eq_refl). lia.
  - rewrite Hf. simpl. eauto.
Qed.

Lemma iter_at_local i it f :
  iter_at fields n dest i it -> iter_field it = Some f ->
  PB_HTYPE (ftype f) = PB_HTYPE_REPEATED -> iter_at fields n dest i (set_pSize SLocal it).
Proof.
  intros [Hlt Hs Hp Hri Hd (o & Ho & Hpd & _)] Hf Hh. split; try done.
  exists o. split_and!; [done..|]. right. split; [done|]. exists f.
  unfold iter_field in Hf. rewrite Hs, Hp in Hf. done.
Qed.

Lemma enter_safe W l :
  locals_ok l -> dsafe Rd false W (enter_fixed_count l) locals_ok.
Proof.
  intros Hl. destruct (lo_iter _ Hl) as (i & Hi).
  destruct (iter_at_field _ _ _ Htab _ _ Hi) as (f & Hf & _ & _).
  unfold enter_fixed_count. eapply dsafe_bind; [by apply (dsafe_defined _ _ _ _ _ (fun g => g = f) Hf)|].
  intros ? ->. destruct (_ && _) eqn:E; [|by apply dsafe_ret]. bool_to_prop.
  eapply (dsafe_bind _ _ _ _ _ locals_ok).
  - case_bool_decide; [by apply dsafe_ret|].
    destruct (incomplete_defined _ Hl) as [b Hb].
    eapply dsafe_bind; [by apply (dsafe_defined _ _ _ _ _ (fun x => x = b) Hb)|]. intros ? ->.
    destruct b; [apply dsafe_fail|]. apply dsafe_ret. destruct Hl. split; simpl; [eauto|done|lia|].
    intros p [= <-]. rewrite (at_pos _ _ _ _ _ Hi). apply Hi.
  - intros l' Hl'. apply dsafe_ret. destruct Hl'. split; simpl; [|done..].
    exists i. by eapply iter_at_local.
Qed.

Lemma mark_safe W l : locals_ok l -> dsafe Rd false W (mark_seen l) locals_ok.
Proof.
  intros Hl. destruct (lo_iter _ Hl) as (i & Hi).
  destruct (iter_at_field _ _ _ Htab _ _ Hi) as (f & Hf & _ & _).
  unfold mark_seen. eapply dsafe_bind; [by apply (dsafe_defined _ _ _ _ _ (fun g => g = f) Hf)|].
  intros ? ->. cbv zeta. destruct (_ && _) eqn:E; [|by apply dsafe_ret]. bool_to_prop.
  rewrite (at_index _ _ _ _ _ Hi) in *. unfold PB_MAX_REQUIRED_FIELDS in *.
  assert (0 <= required_before fields i) by (unfold required_before; lia).
  destruct (lookup_lt_is_Some_2 (fields_seen l) (Z.to_nat (Z.shiftr (required_before fields i) 5)))
    as [w Hw].
  { rewrite (lo_seen _ Hl), Z.shiftr_div_pow2 by lia. change (2 ^ 5) with 32.
    assert (required_before fields i / 32 <= 1) by dlia.
    assert (0 <= required_before fields i / 32) by (apply Z.div_pos; lia). lia. }
  unfold set_seen. rewrite Hw.
  eapply (dsafe_bind _ _ _ _ _ (fun seen => length seen = 2%nat)).
  { apply dsafe_ret. by rewrite length_insert, (lo_seen _ Hl). }
  intros seen Hs. apply dsafe_ret. destruct Hl. by split; simpl; [eauto|..].
Qed.

(** No field is an extension range. *)
Lemma no_extension it i :
  iter_at fields n dest i it ->
  ∃ it', find_extension_field it = Some (false, it') ∧ iter_at fields n dest i it'.
Proof.
  intros Hi. unfold find_extension_field. rewrite (at_start _ _ _ _ _ Hi), (at_pos _ _ _ _ _ Hi).
  destruct (search_ok fields n dest Htab (fun f => PB_LTYPE (ftype f) =? PB_LTYPE_EXTENSION)
    find_extension_loop i it) as (b & it' & j & E & Hj & Hb); [|lia|done|].
  { intros fl sp it0 f Hf. simpl. rewrite Hf. simpl. done. }
  destruct b.
  - destruct Hb as (f & Hf & He). bool_to_prop.
    destruct (lookup_lt_is_Some_2 (field_offsets fields) j) as [o Ho].
    { rewrite length_field_offsets. by eapply lookup_lt_Some. }
    by apply (sf_not_ext _ _ _ _ _ (Hst j f o (at_lt _ _ _ _ _ Hj) Hf Ho)) in He.
  - destruct Hb as [-> _]. eauto.
Qed.

Lemma unknown_safe tag wt l :
  tag < 2 ^ 29 -> locals_ok l ->
  dsafe Rd false (rng dest size) (decode_unknown fuel noinit tag wt l) locals_ok.
Proof.
  intros Htag Hl. destruct (lo_iter _ Hl) as (i & Hi). unfold decode_unknown.
  eapply (dsafe_bind _ _ _ _ _ (fun r => locals_ok r.1 ∧ r.2 = false)).
  - destruct (_ <=? tag); [|by apply dsafe_ret].
    destruct (no_extension _ _ Hi) as (it' & E & Hi').
    eapply dsafe_bind; [by apply (dsafe_defined _ _ _ _ _ (fun r => r = (false, it')) E)|].
    intros ? ->. cbn [fst snd negb].
    eapply (dsafe_bind _ _ _ _ _ (fun e => e = 2 ^ 32 - 1)); [by apply dsafe_ret|]. intros ? ->.
    destruct (2 ^ 32 - 1 <=? tag) eqn:Et; bool_to_prop; [lia|].
    apply dsafe_ret. split; [|done]. destruct Hl. split; simpl; eauto.
  - intros [l' b] [Hl' Hb]. simpl in Hb. subst b. simpl.
    eapply dsafe_bind; [apply (dsafe_any _ _ _ _ _ (parses_skip_field wt))|].
    intros _ _. by apply dsafe_ret.
Qed.

Lemma known_safe wt l :
  locals_ok l -> dsafe Rd false (rng dest size) (decode_known fuel noinit wt l) locals_ok.
Proof.
  intros Hl. unfold decode_known. eapply dsafe_bind; [by apply enter_safe|]. intros l1 Hl1.
  eapply dsafe_bind; [by apply mark_safe|]. intros l2 Hl2.
  destruct (lo_iter _ Hl2) as (i & Hi).
  eapply dsafe_bind; [by eapply decode_field_safe; [..|apply Hl2]|].
  intros [c it] [Hc Hit]. simpl in *. subst it. apply dsafe_ret.
  destruct Hl2. split; simpl; eauto.
Qed.

(** Reading a tag consumes at least a byte. *)
Lemma decode_tag_step s m :
  readable s m -> bytes_left s <> 0 ->
  wp pb_decode_tag s m (fun r s' m' => m' = m ∧ ∃ t, r = Some t ∧ moved s s' ∧
    (tr_ok t = true -> tr_tag t < 2 ^ 29 ∧ bytes_left s' < bytes_left s)).
Proof.
  intros [bs Hr] Hne. pose proof (reads_left _ _ _ Hr) as Hl. unfold wp.
  destruct (parses_varint32 s m bs Hr) as [_ Hk].
  rewrite (pb_decode_tag_spec s m bs Hr). unfold tag_outcome.
  destruct (p_varint32 bs) as [t k|e k] eqn:Ep; simpl in Hk.
  - pose proof (varint32_takes _ _ _ Ep).
    pose proof (p_varint32_u32 _ _ _ (reads_bytes _ _ _ Hr) Ep) as Hu. unfold is_u32 in Hu.
    destruct (t =? 0); (split; [done|]; eexists; split; [done|]; split;
      [exists k, (ierrmsg s); split; [by unfold adv|lia]|]); [done|].
    intros _. simpl. split; [|lia]. dlia.
  - split; [done|]. eexists. split; [done|]. split; [|done].
    destruct e; [eexists k, _|exists k, (ierrmsg s)]; (split; [reflexivity|lia]).
Qed.

Lemma loop_safe k l s m :
  locals_ok l -> readable s m -> state_ok Rd (rng dest size) m -> bytes_left s <= Z.of_nat k ->
  wp (noinit_loop fuel noinit k l) s m (dpost false (rng dest size) locals_ok s m).
Proof.
  revert l s m; induction k as [|k IH]; intros l s m Hl Hr Hok Hk; cbn [noinit_loop];
    apply wp_bind, wp_get; pose proof (readable_left _ _ Hr);
    (destruct (bytes_left s =? 0) eqn:E0; bool_to_prop; [by eapply dsafe_ret|]); [lia|].
  apply wp_bind. eapply wp_mono; [by apply decode_tag_step|].
  intros r s1 m1 (-> & t & -> & Hm & Ht).
  assert (readable s1 m) as Hr1 by (by eapply readable_moved).
  eapply wp_mono; [|intros r s' m' Hp; eapply dpost_trans; [exact Hm|apply upd_refl|exact Hp]].
  destruct (tr_ok t) eqn:Eok; simpl (negb _); cbv iota.
  2: { destruct (tr_eof t); [by eapply dsafe_ret|by eapply dsafe_cfail]. }
  destruct (Ht eq_refl) as [Htag Hlt].
  destruct (lo_iter _ Hl) as (i & Hi).
  destruct (iter_find_ok fields n dest Htab _ _ (tr_tag t) ltac:(lia) Hi) as (b & it' & j & Ef & Hj & _).
  rewrite Ef. rewrite (eq_refl : defined (Some (b, it')) = mret (b, it')).
  apply wp_bind, wp_ret. cbn [fst snd]. set (l' := mk_locals it' _ _ _ _).
  assert (locals_ok l') as Hl' by (destruct Hl; split; simpl; eauto).
  eapply wp_dbind; [done|done| |].
  - destruct b; [by apply known_safe|by apply unknown_safe].
  - intros l2 s2 m2 Hr2 Hok2 Hm2 Hl2. apply moved_left in Hm2. apply IH; [done..|lia].
Qed.

(** ** After the loop *)

Lemma last_field_defined i it k :
  iter_at fields n dest i it -> (n - i <= k)%nat ->
  ∃ c ty it', last_field_loop k it = Some (c, ty, it') ∧ iter_at fields n dest 0 it' ∧ 0 <= c.
Proof.
  revert i it; induction k as [|k IH]; intros i it Hi Hk.
  { pose proof (at_lt _ _ _ _ _ Hi). lia. }
  destruct (iter_at_field _ _ _ Htab _ _ Hi) as (f & Hf & _ & _).
  destruct (iter_next_at fields n dest Htab _ _ ltac:(lia) Hi) as (it' & E & Hi').
  cbn [last_field_loop]. rewrite Hf. simpl. rewrite E. simpl.
  destruct (S i <? n)%nat eqn:En.
  - apply Nat.ltb_lt in En. eapply IH; [exact Hi'|lia].
  - eexists _, _, _. split_and!; [done..|]. rewrite (at_index _ _ _ _ _ Hi).
    unfold required_before. lia.
Qed.

Lemma tracked_defined it i :
  iter_at fields n dest i it -> ∃ c, tracked_required it = Some c ∧ 0 <= c <= 64.
Proof.
  intros Hi. unfold tracked_required. rewrite (at_start _ _ _ _ _ Hi).
  destruct (last_field_defined i it (length fields) Hi) as (c & ty & it' & E & Hi' & Hc).
  { rewrite (table_length _ _ Htab). lia. }
  rewrite E. simpl. destruct (iter_at_field _ _ _ Htab _ _ Hi') as (f & Hf & _ & _).
  rewrite Hf. simpl. eexists. split; [done|]. unfold PB_MAX_REQUIRED_FIELDS.
  destruct (_ && _); match goal with |- context [64 <? ?x] => destruct (64 <? x) eqn:E64 end;
    bool_to_prop; lia.
Qed.

Lemma present_defined seen c :
  length seen = 2%nat -> 0 <= c <= 64 -> ∃ b, required_present seen c = Some b.
Proof.
  intros Hs Hc. unfold required_present. destruct (0 <? c); [|eauto].
  destruct (negb (forallb _ _)); [eauto|]. destruct (negb (Z.land c 31 =? 0)) eqn:E; [|eauto].
  bool_to_prop. destruct (lookup_lt_is_Some_2 seen (Z.to_nat (Z.shiftr c 5))) as [w Hw].
  - rewrite Hs, Z.shiftr_div_pow2 by lia. change (2 ^ 5) with 32.
    assert (c <> 64) by (intros ->; done).
    assert (0 <= c / 32 <= 1) by dlia. lia.
  - rewrite Hw. simpl. eauto.
Qed.

Lemma body_safe :
  dsafe Rd false (rng dest size) (noinit_body fuel noinit fields dest) (fun _ => True).
Proof.
  unfold noinit_body. destruct (iter_begin_at fields n dest Htab ltac:(lia)) as (it & E & Hit).
  eapply dsafe_bind; [by apply (dsafe_defined _ _ _ _ _ (fun r => r = (true, it)) E)|].
  intros ? ->. intros s m Hr Hok. apply wp_bind, wp_get. pose proof (readable_left _ _ Hr).
  eapply wp_dbind; [done|done|apply loop_safe; [|done|done|lia]|].
  { split; simpl; [eauto|done|lia|done]. }
  intros l s1 m1 Hr1 Hok1 _ Hl. revert s1 m1 Hr1 Hok1.
  destruct (incomplete_defined _ Hl) as [b Hb].
  eapply dsafe_bind; [by apply (dsafe_defined _ _ _ _ _ (fun x => x = b) Hb)|]. intros ? ->.
  destruct b; [apply dsafe_fail|].
  destruct (lo_iter _ Hl) as (i & Hi). destruct (tracked_defined _ _ Hi) as (c & Hc & Hb64).
  eapply dsafe_bind; [by apply (dsafe_defined _ _ _ _ _ (fun x => x = c) Hc)|]. intros ? ->.
  destruct (present_defined (fields_seen l) c (lo_seen _ Hl) Hb64) as [b Hb'].
  eapply dsafe_bind; [by apply (dsafe_defined _ _ _ _ _ (fun x => x = b) Hb')|]. intros ? ->.
  destruct b; [by apply dsafe_ret|apply dsafe_fail].
Qed.
End Loop.

(** ** pb_decode *)

Section Decode.
Context `{PbEnv} (Rd : Z -> Prop).

Lemma noinit_static_safe fuel depth fields dest size :
  (depth <= fuel)%nat -> static_msg Rd depth fields size -> 0 < dest ->
  dsafe Rd false (rng dest size) (pb_decode_noinit fuel fields dest) (fun _ => True).
Proof.
  revert depth fields dest size; induction fuel as [|fuel IH];
    intros depth fields dest size Hdep Hst Hd; (destruct depth as [|depth]; [done|]); [lia|].
  destruct Hst as (n & Htab & Hst). cbn [pb_decode_noinit].
  eapply (body_safe Rd fuel depth); [lia| |exact Htab|done|exact Hst].
  intros fields' dest' size' Hst' Hd'. eapply IH; [|exact Hst'|done]. lia.
Qed.

Lemma decode_static_msg_safe fuel depth fields dest size :
  (depth <= fuel)%nat -> static_msg Rd depth fields size -> 0 < dest ->
  dsafe Rd false (rng dest size) (pb_decode fuel fields dest) (fun _ => True).
Proof.
  intros Hdep Hst Hd. apply (decode_with_safe Rd fuel depth (pb_decode_noinit fuel) Hdep);
    [|done..]. intros f d sz Hst' Hd'. by eapply noinit_static_safe.
Qed.
End Decode.

(** * Decoding into static structures is safe on every input

    The memory-safety theorem of the decoder, with the executable check of
    its conditions on a descriptor table. *)

(** ** Checking a descriptor table

    [ra], [rn]: the range of the constants. *)

Definition implb_eq (x y : Z) (b : bool) : bool := negb (x =? y) || b.

Section Check.
Context `{PbEnv} (ra rn : Z).

Definition static_fieldb (sub : list pb_field_t -> Z -> bool) (f : pb_field_t)
    (o : Z * Z) (size : Z) : bool :=
  let t := ftype f in
  let l := PB_LTYPE t in
  let h := PB_HTYPE t in
  field_okb f
  && (PB_ATYPE t =? PB_ATYPE_STATIC)
  && (l <=? PB_LTYPE_FIXED_LENGTH_BYTES)
  && negb (l =? PB_LTYPE_EXTENSION)
  && negb (h =? PB_HTYPE_ONEOF)
  && (0 <=? o.1) && (o.1 + static_extent f <=? size)
  && implb_eq h PB_HTYPE_REPEATED
       ((data_size f * array_size f <? 2 ^ 32) && (0 <=? o.2) && (o.2 + 4 <=? size))
  && implb_eq h PB_HTYPE_OPTIONAL ((0 <=? o.2) && (o.2 + 1 <=? size))
  && implb_eq l PB_LTYPE_BOOL (1 <=? data_size f)
  && implb_eq l PB_LTYPE_FIXED32 (4 <=? data_size f)
  && implb_eq l PB_LTYPE_FIXED64 (8 <=? data_size f)
  && (if l =? PB_LTYPE_SUBMESSAGE
      then negb (ptr f =? 0)
           && match fields_at (ptr f) with
              | Some fields => sub fields (data_size f)
              | None => false
              end
      else (ptr f =? 0) || ((ra <=? ptr f) && (ptr f + data_size f <=? ra + rn))).

Fixpoint static_msgb (depth : nat) (fields : list pb_field_t) (size : Z) : bool :=
  match depth with
  | O => false
  | S depth =>
      table_okb fields
      && forallb (fun p => static_fieldb (static_msgb depth) p.1 p.2 size)
           (take (length fields - 1) (zip fields (field_offsets fields)))
  end.

Lemma implb_eq_elim x y b : implb_eq x y b = true -> x = y -> b = true.
Proof. unfold implb_eq. intros Hb ->. by rewrite Z.eqb_refl in Hb. Qed.

Lemma static_fieldb_ok (sub : list pb_field_t -> Z -> bool) (subP : list pb_field_t -> Z -> Prop)
    f o size :
  (∀ fields sz, sub fields sz = true -> subP fields sz) ->
  static_fieldb sub f o size = true -> static_field (rng ra rn) subP f o size.
Proof.
  intros Hsub Hb. unfold static_fieldb in Hb.
  repeat match goal with H : (_ && _) = true |- _ => apply andb_true_iff in H as [? ?] end.
  repeat match goal with
         | H : implb_eq _ _ _ = true |- _ => pose proof (implb_eq_elim _ _ _ H); clear H
         end.
  assert (field_ok f) as Hf by
    (eapply (Forall_inv (l := [])), field_okb_ok; simpl; apply andb_true_iff; done).
  split; try done; try (by bool_to_prop); try (intros Hx;
    repeat match goal with H : _ -> _ = true |- _ => specialize (H Hx) || clear H end;
    by bool_to_prop).
  - intros Hl. rewrite Hl in *. simpl in *. bool_to_prop.
    split; [done|]. destruct (fields_at (ptr f)) as [fields|]; [|done]. eauto.
  - intros Hl Hp i Hi. apply Z.eqb_neq in Hl, Hp. rewrite Hl, Hp in *. simpl in *.
    bool_to_prop. unfold rng. lia.
Qed.

Lemma static_msgb_ok depth fields size :
  static_msgb depth fields size = true -> static_msg (rng ra rn) depth fields size.
Proof.
  revert fields size; induction depth as [|depth IH]; intros fields size; [done|].
  cbn [static_msgb static_msg]. intros [Ht Hf]%andb_true_iff.
  exists (length fields - 1)%nat. split; [by apply table_okb_ok|].
  intros i f o Hi Ef Eo. rewrite forallb_forall in Hf.
  apply static_fieldb_ok with (sub := static_msgb depth); [exact IH|].
  apply (Hf (f, o)). apply list_elem_of_In, list_elem_of_lookup. exists i.
  rewrite lookup_take_lt by done. by rewrite lookup_zip_with, Ef, Eo.
Qed.
End Check.

(** ** The theorem *)

(** C30. Decoding a static message is memory-safe on every input: whatever
    the [len] bytes at [data] are, [pb_decode] returns (it reaches no
    undefined behaviour and needs no more recursion than the message type has
    nesting levels), allocates and frees nothing, changes no byte outside the
    destination structure, and a successful decode has consumed the input
    exactly up to where its stream stands. *)
Theorem pb_decode_static_safe `{PbEnv} ra rn depth fields size fuel dest data len m :
  static_msgb ra rn depth fields size = true -> (depth <= fuel)%nat -> 0 < dest ->
  bytes_ok m -> Z.of_nat len < 2 ^ 64 ->
  mapped m data len -> mapped m dest (Z.to_nat size) -> mapped m ra (Z.to_nat rn) ->
  ∃ r s' m', pb_decode fuel fields dest (pb_istream_from_buffer (IMem data) (Z.of_nat len)) m
      = Ret (r, s') m' ∧
    heap m' = heap m ∧
    (∀ x, ~ (dest <= x < dest + size) -> mem m' !! x = mem m !! x) ∧
    0 <= bytes_left s' <= Z.of_nat len ∧
    (is_Some r -> istate s' = IMem (data + (Z.of_nat len - bytes_left s'))).
Proof.
  intros Hst Hfuel Hd Hb Hlen Hdata Hdest Hro.
  pose proof (mapped_covers _ _ _ Hdest) as HW. pose proof (mapped_covers _ _ _ Hro) as HR.
  destruct (proj2 (mread_lookup (mem m) data len)) as [bs Hbs].
  { intros i Hi. apply Hdata. lia. }
  pose proof (length_mread _ _ _ _ Hbs) as El.
  assert (readable (pb_istream_from_buffer (IMem data) (Z.of_nat len)) m) as Hr.
  { exists bs. rewrite <- El. apply reads_buffer; [by eapply mread_forall|lia|]. by rewrite El. }
  pose proof (decode_static_msg_safe (rng ra rn) fuel depth fields dest size Hfuel
    (static_msgb_ok _ _ _ _ _ Hst) Hd _ m Hr ltac:(by split)) as Hwp.
  unfold wp in Hwp. destruct (pb_decode _ _ _ _ _) as [[r s'] m'| |] eqn:E; [|done..].
  exists r, s', m'. split; [done|]. destruct Hwp as [U Hp].
  split; [apply U|]. split; [apply U|].
  destruct r as [u|].
  - destruct Hp as [(k & e & -> & Hk) _]. simpl in *. split; [lia|]. intros _. f_equal. lia.
  - destruct Hp as (j & k & e & -> & Hj & Hk). simpl in *. split; [lia|]. by intros [? ?].
Qed.

(** The input of the witnesses: [bs] at 0x8000, the default values, and a
    structure of [n] bytes at 0x9000. *)
Definition decode_mem (bs : list Z) (n : nat) : mstate :=
  MState (mmap (mmap cct_constants 0x8000 bs) 0x9000 (replicate n 0)) ∅.

Lemma pb_decode_static_safe_witness :
  ∃ r s' m', pb_decode (H := cct_env) 1 (gdt_cct_NetworkConnectionInfo_fields cct_addr) 0x9000
      (pb_istream_from_buffer (IMem 0x8000) 9) (decode_mem [8; 3; 250; 7; 1; 200; 16; 13; 9] 16)
      = Ret (r, s') m' ∧
    heap m' = ∅ ∧
    (∀ x, ~ (0x9000 <= x < 0x9000 + 16) ->
      mem m' !! x = mem (decode_mem [8; 3; 250; 7; 1; 200; 16; 13; 9] 16) !! x) ∧
    0 <= bytes_left s' <= 9 ∧
    (is_Some r -> istate s' = IMem (0x8000 + (9 - bytes_left s'))).
Proof.
  apply (pb_decode_static_safe (H := cct_env) 0x1000 16 1
    (gdt_cct_NetworkConnectionInfo_fields cct_addr) 16 1 0x9000 0x8000 9
    (decode_mem [8; 3; 250; 7; 1; 200; 16; 13; 9] 16)).
  - by vm_compute.
  - lia.
  - lia.
  - eapply bool_decide_eq_true. by vm_compute.
  - lia.
  - apply mappedb_ok. by vm_compute.
  - apply mappedb_ok. by vm_compute.
  - apply mappedb_ok. by vm_compute.
Defined.
