(* ===== verification/TableThms.v ===== *)
(** * The generated descriptor tables describe their structures

    The iterator of pb_common.c, run over the tables of cct.nanopb.c and
    firebasecore.nanopb.c, arrives for every tag constant of the headers at
    the offsets the compiler gives the member and its count or has-flag. *)

From S2P Require Import Prelude.
From S2P Require Import Memory.
From S2P Require Import MemFacts.
From S2P Require Import PbTypes.
From S2P Require Import PbCommon.
From S2P Require Import PbDecode.
From S2P Require Import PbFields.
From S2P Require Import Cct.
From S2P Require Import FirebaseCore.
From S2P Require Import IterFacts.
From S2P Require Import CctImage.

(** ** Reachable iterators *)

(** The iterators a program can have: begin, then steps and searches. *)
Inductive iter_reach (fields : list pb_field_t) (dest : Z) : pb_field_iter_t -> Prop :=
| reach_begin it :
    pb_field_iter_begin fields dest = Some (true, it) -> iter_reach fields dest it
| reach_next it b it' :
    iter_reach fields dest it -> pb_field_iter_next it = Some (b, it') ->
    iter_reach fields dest it'
| reach_find it tag b it' :
    iter_reach fields dest it -> pb_field_iter_find it tag = Some (b, it') ->
    iter_reach fields dest it'.

(** The count or has-flag is in the structure. *)
Definition psize_in (it : pb_field_iter_t) : Prop := ∃ a, pSize it = SAddr a.

Lemma begin_psize_in fields dest b it :
  pb_field_iter_begin fields dest = Some (b, it) -> psize_in it.
Proof.
  unfold pb_field_iter_begin. destruct (fields !! 0%nat) as [f|]; simpl; [|done].
  destruct (dest =? 0); intros [= _ <-]; eexists; done.
Qed.

Lemma next_psize_in it b it' :
  psize_in it -> pb_field_iter_next it = Some (b, it') -> psize_in it'.
Proof.
  intros Ha E. unfold pb_field_iter_next in E.
  destruct (iter_field it) as [p|]; simpl in E; [|done].
  destruct (ftag p =? 0); [by injection E as _ <-|].
  destruct (start it !! S (pos it)) as [f|]; simpl in E; [|done].
  destruct (ftag f =? 0).
  - destruct (pb_field_iter_begin _ _) as [[b' it2]|] eqn:Eb; simpl in E; [|done].
    injection E as _ <-. by eapply begin_psize_in.
  - destruct (_ && _ && _); injection E as _ <-; [done|eexists; done].
Qed.

Lemma find_psize_in it tag b it' :
  psize_in it -> pb_field_iter_find it tag = Some (b, it') -> psize_in it'.
Proof.
  unfold pb_field_iter_find. generalize (length (start it)), (pos it). intros fuel sp.
  revert it; induction fuel as [|fuel IH]; intros it Ha E; simpl in E; [done|].
  destruct (iter_field it) as [f|]; simpl in E; [|done].
  destruct (_ && _); [by injection E as _ <-|].
  destruct (pb_field_iter_next it) as [[b1 it1]|] eqn:En; simpl in E; [|done].
  pose proof (next_psize_in _ _ _ Ha En). destruct (pos it1 =? sp)%nat; [by injection E as _ <-|].
  by eapply IH.
Qed.

Section Reach.
Context (fields : list pb_field_t) (n : nat) (dest : Z).
Hypothesis Htab : table_ok fields n.
Hypothesis Hdest : dest <> 0.

Lemma reach_at it :
  iter_reach fields dest it -> (∃ i, iter_at fields n dest i it) ∧ psize_in it.
Proof.
  induction 1 as [it E|it b it' _ [[i Hi] Hp] E|it tag b it' _ [[i Hi] Hp] E].
  - split; [|by eapply begin_psize_in].
    destruct (iter_begin_at fields n dest Htab Hdest) as (it0 & E0 & Hi).
    rewrite E in E0. injection E0 as <-. eauto.
  - split; [|by eapply next_psize_in].
    destruct (iter_next_at fields n dest Htab _ _ Hdest Hi) as (it1 & E1 & Hi1).
    rewrite E in E1. injection E1 as _ <-. eauto.
  - split; [|by eapply find_psize_in].
    destruct (iter_find_ok fields n dest Htab i it tag Hdest Hi) as (b1 & it1 & j & E1 & Hj & _).
    rewrite E in E1. injection E1 as _ <-. eauto.
Qed.

(** Where an iterator at field [j] points. *)
Lemma at_place j it o :
  iter_at fields n dest j it -> psize_in it -> field_offsets fields !! j = Some o ->
  pData it = dest + o.1 ∧ pSize it = SAddr (dest + o.2).
Proof.
  intros Hj [a Ha] Ho. destruct (at_data _ _ _ _ _ Hj) as (o' & Ho' & Hd & Hs).
  rewrite Ho in Ho'. injection Ho' as <-. split; [done|]. destruct Hs as [Hs|[Hs _]]; congruence.
Qed.
End Reach.

(** [pb_field_iter_find] is a correct search from wherever the iterator
    stands: it returns; if it reports success the iterator is at a field with
    that tag that is not an extension range, with the pointers at that
    field's place in the structure; if it reports failure the message type
    has no such field. *)
Lemma iter_find_correct fields dest it tag :
  table_okb fields = true -> dest <> 0 -> iter_reach fields dest it ->
  ∃ b it', pb_field_iter_find it tag = Some (b, it') ∧
    if (b : bool)
    then ∃ f o, iter_field it' = Some f ∧ ftag f = tag ∧
           PB_LTYPE (ftype f) <> PB_LTYPE_EXTENSION ∧
           field_offsets fields !! pos it' = Some o ∧
           pData it' = dest + o.1 ∧ pSize it' = SAddr (dest + o.2)
    else ∀ f, f ∈ take (length fields - 1) fields ->
           ftag f <> tag \/ PB_LTYPE (ftype f) = PB_LTYPE_EXTENSION.
Proof.
  intros Ht Hd Hr. apply table_okb_ok in Ht. set (n := (length fields - 1)%nat) in *.
  destruct (reach_at _ _ _ Ht Hd _ Hr) as [[i Hi] Hp].
  destruct (iter_find_ok fields n dest Ht i it tag Hd Hi) as (b & it' & j & E & Hj & Hb).
  exists b, it'. split; [done|]. destruct b.
  - destruct Hb as (f & Hf & Hm). unfold matches in Hm. bool_to_prop.
    destruct (at_data _ _ _ _ _ Hj) as (o & Ho & _).
    exists f, o. unfold iter_field. rewrite (at_start _ _ _ _ _ Hj), (at_pos _ _ _ _ _ Hj).
    split_and!; [done..| |]; by eapply at_place; [done| |done]; eapply find_psize_in.
  - intros f Hf. apply list_elem_of_lookup in Hf as [k Hk].
    apply lookup_take_Some in Hk as [Hk Hlt]. destruct Hb as [_ Hb].
    specialize (Hb k f Hlt Hk). unfold matches in Hb.
    apply andb_false_iff in Hb as [Hb|Hb]; [left|right]; bool_to_prop; done.
Qed.

(** ** Layout *)

(** The member that says whether or how often the field [m] is present. *)
Definition size_member (T : ctype) (m : string) : string :=
  if bool_decide (is_Some (member T (String.append "has_" m))) then String.append "has_" m
  else if bool_decide (is_Some (member T (String.append m "_count"))) then String.append m "_count"
  else m.

(** The table has a field for the tag, at the member's offsets. *)
Definition tag_placed (T : ctype) (fields : list pb_field_t) (p : string * Z) : bool :=
  match list_find (fun f => ftag f = p.2) fields with
  | Some (j, f) =>
      negb (p.2 =? 0) && negb (PB_LTYPE (ftype f) =? PB_LTYPE_EXTENSION)
      && bool_decide (is_Some (member T p.1))
      && bool_decide (field_offsets fields !! j =
           Some (offsetof T p.1, offsetof T (size_member T p.1)))
  | None => false
  end.

(** One field per tag, in ascending order of the tags. *)
Definition layout_okb (T : ctype) (fields : list pb_field_t) (tags : list (string * Z)) : bool :=
  table_okb fields && bool_decide (NoDup (ftag <$> fields))
  && (length fields =? S (length tags))%nat
  && forallb (tag_placed T fields) tags.

Lemma layout_find T fields tags dest it name tag :
  layout_okb T fields tags = true -> dest <> 0 -> iter_reach fields dest it ->
  (name, tag) ∈ tags ->
  ∃ it', pb_field_iter_find it tag = Some (true, it') ∧
    pData it' = dest + offsetof T name ∧
    pSize it' = SAddr (dest + offsetof T (size_member T name)).
Proof.
  unfold layout_okb. intros Hl Hd Hr Hin.
  apply andb_true_iff in Hl as [[[Ht Hnd%bool_decide_eq_true]%andb_true_iff _]%andb_true_iff Hp].
  rewrite forallb_forall in Hp. specialize (Hp (name, tag) (proj1 (list_elem_of_In _ _) Hin)).
  unfold tag_placed in Hp. simpl in Hp.
  destruct (list_find _ _) as [[j f]|] eqn:Ef; [|done]. apply list_find_Some in Ef as (Ej & Etag & _).
  apply andb_true_iff in Hp as [[[H0 Hext]%andb_true_iff _]%andb_true_iff Ho%bool_decide_eq_true].
  apply table_okb_ok in Ht. destruct (reach_at _ _ _ Ht Hd _ Hr) as [[i Hi] Hin'].
  destruct (iter_find_ok fields _ dest Ht i it tag Hd Hi) as (b & it' & k & E & Hk & Hb).
  assert (∀ m g, fields !! m = Some g -> ftag g = tag -> m = j) as Huniq.
  { intros m g Hm Hg. eapply NoDup_lookup; [exact Hnd| |]; rewrite list_lookup_fmap.
    - by rewrite Hm.
    - rewrite Ej. simpl. congruence. }
  destruct b.
  - destruct Hb as (g & Hg & Hm). unfold matches in Hm. bool_to_prop.
    pose proof (Huniq _ _ Hg H) as ->. exists it'. split; [done|].
    exact (at_place _ _ _ _ _ _ Hk (find_psize_in _ _ _ _ Hin' E) Ho).
  - destruct Hb as [_ Hb]. exfalso.
    assert (j < length fields - 1)%nat as Hj.
    { apply lookup_lt_Some in Ej as Hlt. destruct (decide (j = length fields - 1)%nat) as [->|]; [|lia].
      pose proof (table_last _ _ Ht _ Ej). bool_to_prop. congruence. }
    specialize (Hb j f Hj Ej). unfold matches in Hb. rewrite Hext, Etag, Z.eqb_refl in Hb. done.
Qed.

Lemma cct_layout addr s fields T :
  cct_table addr s = Some fields -> cct_struct s = Some T ->
  layout_okb T fields (cct_tags s) = true.
Proof. destruct s; (discriminate || (intros [= <-] [= <-]; vm_compute; reflexivity)). Qed.

(** The generated tables of cct.nanopb.c are right, for every message
    type, field and linker placement: searching a tag constant of the header
    arrives, from wherever the iterator stands, at the offset of the member of
    that name, with [pSize] at the offset of its has-flag or count (or at the
    member itself when it has neither). *)
Lemma cct_tables_describe_structs addr s fields T name tag dest it :
  cct_table addr s = Some fields -> cct_struct s = Some T -> (name, tag) ∈ cct_tags s ->
  dest <> 0 -> iter_reach fields dest it ->
  ∃ it', pb_field_iter_find it tag = Some (true, it') ∧
    pData it' = dest + offsetof T name ∧
    pSize it' = SAddr (dest + offsetof T (size_member T name)).
Proof. intros Ht Hs Hin Hd Hr. by eapply layout_find; [eapply cct_layout| | |]. Qed.

(** The same for the diagnostics message of firebasecore.nanopb.c. *)
Lemma icore_table_describes_struct name tag dest it :
  (name, tag) ∈ logs_proto_mobilesdk_ios_ICoreConfiguration_tags ->
  dest <> 0 -> iter_reach logs_proto_mobilesdk_ios_ICoreConfiguration_fields dest it ->
  ∃ it', pb_field_iter_find it tag = Some (true, it') ∧
    pData it' = dest + offsetof logs_proto_mobilesdk_ios_ICoreConfiguration name ∧
    pSize it' = SAddr (dest + offsetof logs_proto_mobilesdk_ios_ICoreConfiguration
                         (size_member logs_proto_mobilesdk_ios_ICoreConfiguration name)).
Proof.
  intros Hin Hd Hr. revert Hd Hr Hin. apply layout_find. vm_compute. reflexivity.
Qed.

Lemma icore_table_describes_struct_witness :
  ∃ it', pb_field_iter_find
    (mk_iter logs_proto_mobilesdk_ios_ICoreConfiguration_fields 0 0 0x9000 0x9004 (SAddr 0x9000)) 36
      = Some (true, it') ∧
    pData it' = 0x9000 + offsetof logs_proto_mobilesdk_ios_ICoreConfiguration "using_gdt" ∧
    pSize it' = SAddr (0x9000 + offsetof logs_proto_mobilesdk_ios_ICoreConfiguration "has_using_gdt").
Proof.
  apply (icore_table_describes_struct "using_gdt" 36 0x9000).
  - eapply bool_decide_eq_true. by vm_compute.
  - lia.
  - apply reach_begin. by vm_compute.
Defined.
