(* ===== verification/Transfer.v ===== *)
(** * Decoding what was encoded: the logic

    [holds m R e v]: the bytes of the region [R] of [m] determine that the
    encoder specification [e] yields [v]; such a statement survives every
    change outside [R].  [decodes R P c v Q]: on a stream that starts with the
    bytes [v] the decoder [c] succeeds, consumes exactly [v], changes nothing
    outside [R] and establishes [Q]. *)

From S2P Require Import Prelude.
From S2P Require Import Memory.
From S2P Require Import MemFacts.
From S2P Require Import PbTypes.
From S2P Require Import PbIStream.
From S2P Require Import WireSpec.
From S2P Require Import Varint.
From S2P Require Import EncSpec.
From S2P Require Import EncMsg.
From S2P Require Import DecSafe.
From S2P Require Import PbDecode.
From S2P Require Import PbEncode.
From S2P Require Import VarintSpec.
From S2P Require Import WireThms.

(** ** Regions *)

Definition agree (R : Z -> Prop) (m m' : mstate) : Prop :=
  ∀ x, R x -> mem m' !! x = mem m !! x.

Definition holds (m : mstate) (R : Z -> Prop) (e : C unit (list Z)) (v : list Z) : Prop :=
  ∀ m', agree R m m' -> e tt m' = Ret (Some v, tt) m'.

Lemma agree_mono (R R' : Z -> Prop) m m' : (∀ x, R x -> R' x) -> agree R' m m' -> agree R m m'.
Proof. intros HR Ha x Hx. by apply Ha, HR. Qed.

Lemma agree_upd (R W : Z -> Prop) m m' :
  (∀ x, R x -> W x -> False) -> upd W m m' -> agree R m m'.
Proof. intros Hd U x Hx. apply U. intros Hw. by eapply Hd. Qed.

Lemma agree_trans R m1 m2 m3 : agree R m1 m2 -> agree R m2 m3 -> agree R m1 m3.
Proof. intros H1 H2 x Hx. by rewrite H2, H1. Qed.

Lemma holds_mono (R R' : Z -> Prop) m e v :
  (∀ x, R x -> R' x) -> holds m R e v -> holds m R' e v.
Proof. intros HR Hh m' Ha. apply Hh. by eapply agree_mono. Qed.

Lemma holds_agree R m m' e v : agree R m m' -> holds m R e v -> holds m' R e v.
Proof. intros Ha Hh m'' Ha'. apply Hh. by eapply agree_trans. Qed.

Lemma holds_run R m e v : holds m R e v -> e tt m = Ret (Some v, tt) m.
Proof. intros Hh. by apply Hh. Qed.

Lemma holds_ret m R v : holds m R (mret v) v.
Proof. by intros m' _. Qed.

Lemma holds_bind {A} R m (e : C unit A) (f : A -> C unit (list Z)) a v :
  (∀ m', agree R m m' -> e tt m' = Ret (Some a, tt) m') -> holds m R (f a) v ->
  holds m R (mbind f e) v.
Proof. intros He Hf m' Ha. rewrite (bind_some _ _ _ _ _ _ _ (He m' Ha)). by apply Hf. Qed.

Lemma holds_seq R m e1 e2 v1 v2 :
  holds m R e1 v1 -> holds m R e2 v2 -> holds m R (eseq e1 e2) (v1 ++ v2).
Proof.
  intros H1 H2. eapply holds_bind; [exact H1|]. eapply holds_bind; [exact H2|]. apply holds_ret.
Qed.

Lemma holds_delimited R m e v : holds m R e v -> holds m R (edelimited e) (delimited v).
Proof. intros Hh. eapply holds_bind; [exact Hh|apply holds_ret]. Qed.

(** Bytes inside the region. *)
Lemma agree_mread R m m' a n :
  agree R m m' -> (∀ i, 0 <= i < Z.of_nat n -> R (a + i)) ->
  mread (mem m') a n = mread (mem m) a n.
Proof. intros Ha HR. apply mread_ext. intros i Hi. by apply Ha, HR. Qed.

Lemma agree_load_u R m m' a n bs :
  mread (mem m) a n = Some bs -> (∀ i, 0 <= i < Z.of_nat n -> R (a + i)) -> agree R m m' ->
  load_u n a m' = Ret (le_combine bs) m'.
Proof.
  intros Hr HR Ha. unfold load_u, mbind, M_bind, load_bytes.
  by rewrite (agree_mread R m) , Hr by done.
Qed.

Lemma holds_load_bytes R m a n bs :
  mread (mem m) a n = Some bs -> (∀ i, 0 <= i < Z.of_nat n -> R (a + i)) ->
  holds m R (clift (load_bytes a n)) bs.
Proof.
  intros Hr HR m' Ha. unfold clift, load_bytes. by rewrite (agree_mread R m), Hr by done.
Qed.

(** ** Streams beside a region *)

(** The bytes the stream will read are not in [R]. *)
Definition clear_of (R : Z -> Prop) (s : pb_istream_t) : Prop :=
  match istate s with
  | IMem a => ∀ x, rng a (bytes_left s) x -> ~ R x
  | ILocal _ => True
  end.

Lemma clear_mono (R R' : Z -> Prop) s : (∀ x, R x -> R' x) -> clear_of R' s -> clear_of R s.
Proof. unfold clear_of. destruct (istate s); [|done]. intros HR Hc x Hx Hr. by eapply Hc, HR. Qed.

Lemma clear_adv R s k : clear_of R s -> clear_of R (adv s k).
Proof.
  unfold clear_of, adv; simpl. destruct (istate s) as [a|l]; simpl; [|done].
  intros Hc x Hx. apply Hc. unfold rng in *. lia.
Qed.

Lemma clear_sub R s k n :
  Z.of_nat (k + n) <= bytes_left s -> clear_of R s -> clear_of R (sub_stream s k n).
Proof.
  intros Hk. unfold clear_of, sub_stream, adv; simpl. destruct (istate s) as [a|l]; simpl; [|done].
  intros Hc x Hx. apply Hc. unfold rng in *. lia.
Qed.

Lemma reads_upd R s m m' bs : clear_of R s -> upd R m m' -> reads s m bs -> reads s m' bs.
Proof.
  intros Hcl U [Hcb Hl Hmax Hb Hc]. split; [done..|].
  unfold clear_of in Hcl. unfold content in *. destruct (istate s) as [a|l]; [|done].
  rewrite <- Hc. apply mread_ext. intros i Hi. apply U, Hcl. unfold rng. lia.
Qed.

(** ** Decoders *)

Definition decodes {A} (R : Z -> Prop) (P : mstate -> Prop) (c : C pb_istream_t A)
    (v : list Z) (Q : A -> mstate -> Prop) : Prop :=
  ∀ s m rest, reads s m (v ++ rest) -> clear_of R s -> covers R m -> bytes_ok m -> P m ->
    ∃ a m', c s m = Ret (Some a, adv s (length v)) m' ∧ upd R m m' ∧ Q a m'.

(** A reader of the wire format. *)
Lemma decodes_parses {A B} R P (c : C pb_istream_t A) p a (f : A -> C pb_istream_t B) v1 v2 Q :
  parses c p -> (∀ rest, p (v1 ++ rest) = POk a (length v1)) ->
  decodes R P (f a) v2 Q -> decodes R P (mbind f c) (v1 ++ v2) Q.
Proof.
  intros Hc Hp Hf s m rest Hr Hcl Hcov Hb HP. rewrite <- app_assoc in Hr.
  destruct (Hc s m _ Hr) as [E Hk]. rewrite Hp in E, Hk. simpl in E, Hk.
  rewrite (bind_some _ _ _ _ _ _ _ E).
  assert (reads (adv s (length v1)) m (v2 ++ rest)) as Hr'.
  { pose proof (reads_adv _ _ _ _ Hr Hk) as Hr'. by rewrite drop_app_length in Hr'. }
  destruct (Hf _ m rest Hr' (clear_adv _ _ _ Hcl) Hcov Hb HP) as (b & m' & E' & U & HQ).
  exists b, m'. rewrite E', adv_adv, length_app. done.
Qed.

Lemma decodes_ret {A} R (P : mstate -> Prop) (a : A) (Q : A -> mstate -> Prop) :
  (∀ m, P m -> Q a m) -> decodes R P (mret a) [] Q.
Proof.
  intros HQ s m rest _ _ _ _ HP. exists a, m. simpl. rewrite adv_0.
  split; [done|]. split; [apply upd_refl|auto].
Qed.

(** A store into the region. *)
Lemma store_run R a bs m :
  Forall is_u8 bs -> (∀ i, 0 <= i < Z.of_nat (length bs) -> R (a + i)) ->
  covers R m -> bytes_ok m ->
  ∃ m', store_bytes a bs m = Ret tt m' ∧ upd (rng a (Z.of_nat (length bs))) m m' ∧
        mread (mem m') a (length bs) = Some bs.
Proof.
  intros Hb HR Hcov Hok.
  pose proof (msafe_store_bytes (fun _ => False) (rng a (Z.of_nat (length bs))) a bs Hb
    ltac:(unfold rng; intros; lia) m) as Hs.
  unfold mwp, store_bytes in *. destruct (mwrite (mem m) a bs) as [mm|] eqn:E.
  - eexists. split; [done|]. split; [|by apply (mread_mwrite_eq _ _ _ _ E)].
    apply Hs. split; [done| |by intros ? []]. intros x Hx. apply Hcov. unfold rng in Hx.
    replace x with (a + (x - a)) by lia. apply HR. lia.
  - destruct (mwrite_total (mem m) a bs) as [mm' E']; [|congruence].
    intros i Hi. by apply Hcov, HR.
Qed.

(** What is known after a store. *)
Definition stored (P : mstate -> Prop) (a : Z) (bs : list Z) (m' : mstate) : Prop :=
  ∃ m, P m ∧ upd (rng a (Z.of_nat (length bs))) m m' ∧ mread (mem m') a (length bs) = Some bs.

Lemma decodes_store {A} (R : Z -> Prop) (P : mstate -> Prop) a n x (f : unit -> C pb_istream_t A) v Q :
  (∀ i, 0 <= i < Z.of_nat n -> R (a + i)) ->
  decodes R (stored P a (le_split n x)) (f tt) v Q ->
  decodes R P (mbind f (clift (store_u n a x))) v Q.
Proof.
  intros HR Hf s m rest Hr Hcl Hcov Hb HP.
  destruct (store_run R a (le_split n x) m) as (m1 & E & U & Hm);
    [apply le_split_bytes|by rewrite length_le_split|done|done|].
  rewrite (bind_lift _ _ _ _ _ _ E).
  assert (upd R m m1) as U'.
  { eapply upd_mono; [|exact U]. rewrite length_le_split. intros y Hy. unfold rng in Hy.
    replace y with (a + (y - a)) by lia. apply HR. lia. }
  destruct (Hf s m1 rest) as (b & m2 & E2 & U2 & HQ);
    [by eapply reads_upd|done|by eapply covers_upd|by apply (upd_bytes _ _ _ U)|by exists m|].
  exists b, m2. split; [done|]. split; [by eapply upd_trans|done].
Qed.

Lemma decodes_mono {A} (R R' : Z -> Prop) (P P' : mstate -> Prop) (c : C pb_istream_t A) v Q Q' :
  (∀ x, R x -> R' x) -> (∀ m, P' m -> P m) -> (∀ a m, Q a m -> Q' a m) ->
  decodes R P c v Q -> decodes R' P' c v Q'.
Proof.
  intros HR HP HQ Hc s m rest Hr Hcl Hcov Hb Hm.
  destruct (Hc s m rest Hr) as (a & m' & E & U & H);
    [by eapply clear_mono|intros x Hx; by apply Hcov, HR|done|auto|].
  exists a, m'. split; [done|]. split; [by eapply upd_mono|auto].
Qed.

(** * Decoding what was encoded: field values

    For every static field type: the decoder, given the bytes the encoder
    specification produced from some structure, stores a value from which the
    specification produces the same bytes. *)

(** ** Reading into memory *)

Lemma copy_loop_run s a bs n i m :
  reads s m bs -> (i + n <= length bs)%nat ->
  clear_of (rng (a + Z.of_nat i) (Z.of_nat n)) s ->
  covers (rng (a + Z.of_nat i) (Z.of_nat n)) m -> bytes_ok m ->
  ∃ m', copy_loop n (Z.of_nat i) (istate s) (RMem a) m = Ret (take n (drop i bs)) m' ∧
    upd (rng (a + Z.of_nat i) (Z.of_nat n)) m m' ∧
    mread (mem m') (a + Z.of_nat i) n = Some (take n (drop i bs)).
Proof.
  revert i m; induction n as [|n IH]; intros i m Hr Hi Hcl Hcov Hb.
  { exists m. split; [done|]. split; [apply upd_refl|done]. }
  destruct (lookup_lt_is_Some_2 bs i) as [b Hbi]; [lia|].
  cbn [copy_loop].
  rewrite (mbind_ret _ _ _ _ _ (istate_byte_spec _ _ _ _ _ (reads_content _ _ _ Hr) Hbi)).
  set (R := rng (a + Z.of_nat i) (Z.of_nat (S n))) in *.
  destruct (store_run R (a + Z.of_nat i) [b] m) as (m1 & E & U & Hm); [|simpl|done|done|].
  { constructor; [|constructor]. eapply Forall_lookup_1; [apply Hr|done]. }
  { intros j Hj. unfold R, rng. lia. }
  rewrite (mbind_ret _ _ _ _ _ E). simpl (length [b]) in U, Hm. replace (Z.of_nat 1) with 1 in U by done.
  assert (upd R m m1) as UR by (eapply upd_mono; [|exact U]; unfold R, rng; lia).
  destruct (IH (S i) m1) as (m2 & E2 & U2 & Hm2).
  - by eapply reads_upd.
  - lia.
  - eapply clear_mono; [|exact Hcl]. unfold R, rng. lia.
  - eapply covers_upd; [exact UR|]. intros x Hx. apply Hcov. unfold R, rng in *. lia.
  - by apply (upd_bytes _ _ _ UR).
  - exists m2. rewrite (drop_S _ _ _ Hbi). cbn [take].
    replace (Z.of_nat i + 1) with (Z.of_nat (S i)) by lia.
    rewrite (mbind_ret _ _ _ _ _ E2). split; [done|]. split.
    + eapply upd_trans; [exact UR|]. eapply upd_mono; [|exact U2]. unfold R, rng. lia.
    + cbn [mread]. replace (a + Z.of_nat i + 1) with (a + Z.of_nat (S i)) by lia. rewrite Hm2.
      rewrite (upd_out _ _ _ U2) by (unfold rng; lia).
      cbn [mread] in Hm. by destruct (mem m1 !! (a + Z.of_nat i)); simplify_eq/=.
Qed.

Section Values.
Context `{PbEnv}.

Lemma decodes_read R P a v :
  (∀ i, 0 <= i < Z.of_nat (length v) -> R (a + i)) ->
  decodes R P (pb_read (RMem a) (Z.of_nat (length v))) v (fun _ m' => stored P a v m').
Proof.
  intros HR s m rest Hr Hcl Hcov Hb HP. unfold pb_read.
  destruct (Z.of_nat (length v) =? 0) eqn:E0; bool_to_prop.
  { exists [], m. destruct v; [|simpl in E0; lia]. rewrite adv_0. split; [done|].
    split; [apply upd_refl|]. exists m. split; [done|]. split; [apply upd_refl|done]. }
  rewrite bind_get. simpl (is_rnull _ && _). cbv iota. unfold pb_read_direct.
  destruct (Z.of_nat (length v) =? 0) eqn:E0'; bool_to_prop; [done|]. rewrite bind_get.
  pose proof (reads_left _ _ _ Hr) as Hl. rewrite length_app in Hl.
  destruct (bytes_left s <? Z.of_nat (length v)) eqn:El; bool_to_prop; [lia|].
  assert (∀ x, rng (a + Z.of_nat 0) (Z.of_nat (length v)) x -> R x) as HR'.
  { intros x Hx. unfold rng in Hx. replace x with (a + (x - a)) by lia. apply HR. lia. }
  destruct (copy_loop_run s a (v ++ rest) (length v) 0 m Hr) as (m' & E & U & Hm).
  { rewrite length_app. lia. }
  { by eapply clear_mono. }
  { intros x Hx. by apply Hcov, HR'. }
  { done. }
  rewrite drop_0, take_app_length in E, Hm.
  assert (run_icallback (RMem a) (Z.of_nat (length v)) s m =
    Ret (Some v, set_istate (istate_advance (istate s) (Z.of_nat (length v))) s) m') as Erun.
  { unfold run_icallback. rewrite bind_get, (reads_cb _ _ _ Hr). unfold buf_read.
    rewrite bind_get, bind_modify. unfold clift. rewrite Nat2Z.id.
    change 0 with (Z.of_nat 0). by rewrite E. }
  rewrite (bind_try _ _ _ _ _ _ _ Erun), bind_modify.
  exists v, m'. replace (a + Z.of_nat 0) with a in * by lia. split; [|split].
  - unfold mret, C_ret, adv, set_bytes_left, set_istate, u64; simpl.
    pose proof (reads_max _ _ _ Hr). by rewrite Z.mod_small by lia.
  - by eapply upd_mono.
  - by exists m.
Qed.

(** ** Integers *)

(** [x] is a value of the C type of the field. *)
Definition int_range (signed : bool) (f : pb_field_t) (x : Z) : Prop :=
  data_size f ∈ [1; 2; 4; 8] ∧
  if signed then - 2 ^ (8 * data_size f - 1) <= x < 2 ^ (8 * data_size f - 1)
  else 0 <= x < 2 ^ (8 * data_size f).

Lemma int_size_bound x : x ∈ [1; 2; 4; 8] -> 1 <= x <= 8.
Proof. rewrite !elem_of_cons, elem_of_nil. lia. Qed.

Lemma read_int_range signed f src m x m' :
  bytes_ok m -> read_int (S := unit) signed f src tt m = Ret (Some x, tt) m' ->
  int_range signed f x.
Proof.
  intros Hok. unfold read_int, int_range. case_bool_decide as Hd; [|done].
  pose proof (int_size_bound _ Hd).
  unfold clift. intros E. split; [done|].
  assert (8 * data_size f = 8 * Z.of_nat (Z.to_nat (data_size f))) as -> by lia.
  destruct signed.
  - destruct (load_s _ src m) as [y my| |] eqn:E'; simplify_eq/=.
    destruct (mro_load_s (Z.to_nat (data_size f)) src m m x m') as [-> _]; [by split|done|].
    apply load_s_bound in E'; [done|lia].
  - destruct (load_u _ src m) as [y my| |] eqn:E'; simplify_eq/=.
    destruct (mro_load_u (Z.to_nat (data_size f)) src m m x m') as [-> _]; [by split|done|].
    by apply load_u_bound in E'.
Qed.

Lemma read_int_stored signed f d m P x m' :
  int_range signed f x -> stored P d (le_split (Z.to_nat (data_size f)) x) m ->
  agree (rng d (data_size f)) m m' -> read_int signed f d tt m' = Ret (Some x, tt) m'.
Proof.
  intros [Hd Hx] (m0 & _ & _ & Hr) Ha. rewrite length_le_split in Hr.
  pose proof (int_size_bound _ Hd).
  unfold read_int. rewrite bool_decide_true by done. unfold clift.
  assert (load_u (Z.to_nat (data_size f)) d m' = Ret (x mod 2 ^ (8 * data_size f)) m') as E.
  { rewrite (agree_load_u (rng d (data_size f)) m m' _ _ _ Hr) by (done || unfold rng; lia).
    by rewrite le_combine_split, Z2Nat.id by lia. }
  destruct signed.
  - unfold load_s. rewrite (mbind_ret _ _ _ _ _ E). unfold mret, M_ret.
    rewrite Z2Nat.id, swrap_mod, swrap_small by lia. done.
  - rewrite E, Z.mod_small by lia. done.
Qed.

(** The chain of size cases at the end of the integer decoders. *)
Definition clamp_chain (f : pb_field_t) (d x c8 c4 c2 c1 : Z) : C pb_istream_t unit :=
  if data_size f =? 8 then store_clamped 8 d x c8
  else if data_size f =? 4 then store_clamped 4 d x c4
  else if data_size f =? 2 then store_clamped 2 d x c2
  else if data_size f =? 1 then store_clamped 1 d x c1
  else PB_RETURN_ERROR "invalid data_size".

Lemma decodes_clamp n R P d x c :
  c = x -> (∀ i, 0 <= i < Z.of_nat n -> R (d + i)) ->
  decodes R P (store_clamped n d x c) [] (fun _ m' => stored P d (le_split n x) m').
Proof.
  intros -> HR. apply decodes_store; [done|]. rewrite Z.eqb_refl. by apply decodes_ret.
Qed.

Lemma decodes_chain f P d x c8 c4 c2 c1 :
  data_size f ∈ [1; 2; 4; 8] ->
  (data_size f = 8 -> c8 = x) -> (data_size f = 4 -> c4 = x) ->
  (data_size f = 2 -> c2 = x) -> (data_size f = 1 -> c1 = x) ->
  decodes (rng d (data_size f)) P (clamp_chain f d x c8 c4 c2 c1) []
    (fun _ m' => stored P d (le_split (Z.to_nat (data_size f)) x) m').
Proof.
  intros Hd H8 H4 H2 H1. unfold clamp_chain.
  assert (data_size f = 8 \/ data_size f = 4 \/ data_size f = 2 \/ data_size f = 1) as Hc
    by (rewrite !elem_of_cons, elem_of_nil in Hd; lia).
  destruct Hc as [E|[E|[E|E]]]; rewrite E; simpl (_ =? _); cbv iota.
  - apply (decodes_clamp 8); [auto|unfold rng; lia].
  - apply (decodes_clamp 4); [auto|unfold rng; lia].
  - apply (decodes_clamp 2); [auto|unfold rng; lia].
  - apply (decodes_clamp 1); [auto|unfold rng; lia].
Qed.

(** The two's complement of a value survives the 64-bit wire. *)
Lemma swrap_u64 w x : 0 < w <= 64 -> swrap w (u64 x) = swrap w x.
Proof.
  intros Hw. rewrite <- swrap_mod by lia. unfold u64.
  rewrite <- (swrap_mod w x) by lia. f_equal.
  assert (2 ^ 64 = 2 ^ w * 2 ^ (64 - w)) as -> by (rewrite <- Z.pow_add_r by lia; f_equal; lia).
  assert (0 < 2 ^ w) by (apply Z.pow_pos_nonneg; lia).
  assert (0 < 2 ^ (64 - w)) by (apply Z.pow_pos_nonneg; lia).
  rewrite Z.rem_mul_r by lia. by rewrite (Z.mul_comm (2 ^ w)), Z.mod_add, Z.mod_mod by lia.
Qed.

Lemma int_range_size signed f x w :
  int_range signed f x -> data_size f <= w ->
  if signed then - 2 ^ (8 * w - 1) <= x < 2 ^ (8 * w - 1) else 0 <= x < 2 ^ (8 * w).
Proof.
  intros [Hd Hx] Hw. pose proof (int_size_bound _ Hd).
  destruct signed.
  - assert (2 ^ (8 * data_size f - 1) <= 2 ^ (8 * w - 1)) by (apply Z.pow_le_mono_r; lia). lia.
  - assert (2 ^ (8 * data_size f) <= 2 ^ (8 * w)) by (apply Z.pow_le_mono_r; lia). lia.
Qed.

Lemma transfer_varint f d x :
  int_range true f x ->
  decodes (rng d (data_size f)) (fun _ => True) (pb_dec_varint f d) (varint_bytes (u64 x))
    (fun _ m' => holds m' (rng d (data_size f))
       (v ← read_int true f d; mret (varint_bytes (u64 v))) (varint_bytes (u64 x))).
Proof.
  intros Hx. rewrite <- (app_nil_r (varint_bytes (u64 x))) at 1.
  eapply decodes_parses; [apply parses_varint|intros; by apply spec_varint_bytes, u64_u64|].
  cbv zeta. pose proof (int_range_size _ _ _ 8 Hx) as H8.
  pose proof (int_range_size _ _ _ 4 Hx) as H4. pose proof (int_range_size _ _ _ 2 Hx) as H2.
  pose proof (int_range_size _ _ _ 1 Hx) as H1. cbv iota in *.
  pose proof (int_size_bound _ (proj1 Hx)).
  assert ((if data_size f =? 8 then s64 (u64 x) else s32 (u64 x)) = x) as ->.
  { unfold s64, s32. destruct (data_size f =? 8) eqn:E; bool_to_prop.
    - by rewrite swrap_u64, swrap_small by lia.
    - assert (data_size f <= 4).
      { destruct Hx as [Hd _]. rewrite !elem_of_cons, elem_of_nil in Hd. lia. }
      by rewrite swrap_u64, swrap_small by lia. }
  eapply decodes_mono; [| | |apply (decodes_chain f (fun _ => True) d x)];
    [done|done| |apply Hx|done|..].
  - intros [] m Hs. eapply holds_bind; [|apply holds_ret]. intros m' Ha. by eapply read_int_stored.
  - intros E. unfold s32. rewrite swrap_small; lia.
  - intros E. unfold s16. rewrite swrap_small; lia.
  - intros E. unfold s8. rewrite swrap_small; lia.
Qed.

Lemma transfer_uvarint f d x :
  int_range false f x ->
  decodes (rng d (data_size f)) (fun _ => True) (pb_dec_uvarint f d) (varint_bytes x)
    (fun _ m' => holds m' (rng d (data_size f))
       (v ← read_int false f d; mret (varint_bytes v)) (varint_bytes x)).
Proof.
  intros Hx. pose proof (int_size_bound _ (proj1 Hx)).
  pose proof (int_range_size _ _ _ 8 Hx) as H8.
  pose proof (int_range_size _ _ _ 4 Hx) as H4. pose proof (int_range_size _ _ _ 2 Hx) as H2.
  pose proof (int_range_size _ _ _ 1 Hx) as H1. cbv iota in *.
  rewrite <- (app_nil_r (varint_bytes x)) at 1.
  eapply decodes_parses; [apply parses_varint| |].
  { intros rest. apply spec_varint_bytes. unfold is_u64. lia. }
  eapply decodes_mono; [| | |apply (decodes_chain f (fun _ => True) d x)];
    [done|done| |apply Hx|done|..].
  - intros [] m Hs. eapply holds_bind; [|apply holds_ret]. intros m' Ha. by eapply read_int_stored.
  - intros E. unfold u32. rewrite Z.mod_small; lia.
  - intros E. unfold u16. rewrite Z.mod_small; lia.
  - intros E. unfold u8. rewrite Z.mod_small; lia.
Qed.

Lemma transfer_svarint f d x :
  int_range true f x ->
  decodes (rng d (data_size f)) (fun _ => True) (pb_dec_svarint f d) (varint_bytes (zigzag x))
    (fun _ m' => holds m' (rng d (data_size f))
       (v ← read_int true f d; mret (varint_bytes (zigzag v))) (varint_bytes (zigzag x))).
Proof.
  intros Hx. pose proof (int_size_bound _ (proj1 Hx)).
  pose proof (int_range_size _ _ _ 8 Hx) as H8.
  pose proof (int_range_size _ _ _ 4 Hx) as H4. pose proof (int_range_size _ _ _ 2 Hx) as H2.
  pose proof (int_range_size _ _ _ 1 Hx) as H1. cbv iota in *.
  rewrite <- (app_nil_r (varint_bytes (zigzag x))) at 1.
  eapply (decodes_parses _ _ _ _ x); [apply parses_svarint| |].
  { intros rest. unfold pbind. rewrite spec_varint_bytes.
    - unfold pret. simpl. by rewrite unzigzag_zigzag, Nat.add_0_r.
    - apply zigzag_u64. unfold is_s64. lia. }
  eapply decodes_mono; [| | |apply (decodes_chain f (fun _ => True) d x)];
    [done|done| |apply Hx|done|..].
  - intros [] m Hs. eapply holds_bind; [|apply holds_ret]. intros m' Ha. by eapply read_int_stored.
  - intros E. unfold s32. rewrite swrap_small; lia.
  - intros E. unfold s16. rewrite swrap_small; lia.
  - intros E. unfold s8. rewrite swrap_small; lia.
Qed.

(** ** Booleans and fixed-width values *)

Lemma transfer_bool f d (b : bool) :
  1 <= data_size f ->
  let v := varint_bytes (if b then 1 else 0) in
  decodes (rng d (data_size f)) (fun _ => True) (pb_dec_bool f d) v
    (fun _ m' => holds m' (rng d (data_size f))
       (b ← clift (safe_read_bool d); mret (varint_bytes (if (b : bool) then 1 else 0))) v).
Proof.
  intros Hd v. rewrite <- (app_nil_r v) at 1.
  eapply decodes_parses; [apply parses_varint32| |].
  { intros rest. apply p_varint32_bytes. unfold is_u32. by destruct b. }
  intros s m rest Hr Hcl Hcov Hok _.
  destruct (decodes_store (rng d (data_size f)) (fun _ => True) d 1
    (if (if b then 1 else 0) =? 0 then 0 else 1) (fun _ => mret tt) []
    (fun _ m' => stored (fun _ => True) d [if b then 1 else 0] m')) with (s := s) (m := m)
    (rest := rest) as ([] & m' & E & U & HQ); [unfold rng; lia| |done..|].
  { apply decodes_ret. intros m' Hm'. by destruct b. }
  exists tt, m'. split; [|split; [done|]].
  { rewrite <- E. unfold mbind, C_bind, clift. by destruct (store_u _ _ _ m) as [[] ?| |]. }
  eapply (holds_bind _ _ _ _ b); [|apply holds_ret]. intros m'' Ha.
  destruct HQ as (m0 & _ & _ & Hm). unfold clift, safe_read_bool.
  rewrite (mbind_ret _ _ _ _ _ (agree_load_u (rng d (data_size f)) m' m'' _ _ _ Hm
    ltac:(unfold rng; simpl; lia) Ha)). by destruct b.
Qed.

(** A decoder that stores the bytes it reads. *)
Lemma transfer_raw n f d v (dec : C pb_istream_t unit) :
  length v = n -> Z.of_nat n <= data_size f -> Forall is_u8 v ->
  (∀ s m rest, reads s m (v ++ rest) -> mapped m d n ->
     ∃ mm, mwrite (mem m) d v = Some mm ∧ dec s m = Ret (Some tt, adv s n) (MState mm (heap m))) ->
  decodes (rng d (data_size f)) (fun _ => True) dec v
    (fun _ m' => holds m' (rng d (data_size f)) (clift (load_bytes d n)) v).
Proof.
  intros Hl Hd Hv Hdec s m rest Hr Hcl Hcov Hok _.
  destruct (Hdec s m rest Hr) as (mm & Hw & E).
  { intros i Hi. apply Hcov. unfold rng. lia. }
  exists tt, (MState mm (heap m)). rewrite E, Hl. split; [done|].
  destruct (store_run (rng d (data_size f)) d v m) as (m' & E' & U & Hm);
    [done|unfold rng; lia|done|done|].
  unfold store_bytes in E'. rewrite Hw in E'. injection E' as <-. split.
  - eapply upd_mono; [|exact U]. unfold rng. lia.
  - apply holds_load_bytes; [by rewrite <- Hl|unfold rng; lia].
Qed.

Lemma transfer_fixed32 f d v :
  length v = 4%nat -> 4 <= data_size f -> Forall is_u8 v ->
  decodes (rng d (data_size f)) (fun _ => True) (pb_dec_fixed32 f d) v
    (fun _ m' => holds m' (rng d (data_size f)) (clift (load_bytes d 4)) v).
Proof.
  intros Hl Hd Hv. apply (transfer_raw 4); [done|lia|done|]. intros s m rest Hr Hm.
  eapply (decode_fixed_exact 4 pb_decode_fixed32); [|done..|lia|done]. intros l. apply fixed32_run.
Qed.

Lemma transfer_fixed64 f d v :
  length v = 8%nat -> 8 <= data_size f -> Forall is_u8 v ->
  decodes (rng d (data_size f)) (fun _ => True) (pb_dec_fixed64 f d) v
    (fun _ m' => holds m' (rng d (data_size f)) (clift (load_bytes d 8)) v).
Proof.
  intros Hl Hd Hv. apply (transfer_raw 8); [done|lia|done|]. intros s m rest Hr Hm.
  eapply (decode_fixed_exact 8 pb_decode_fixed64); [|done..|lia|done]. intros l. apply fixed64_run.
Qed.

(** ** Byte strings *)

Lemma delimited_length (v rest : list Z) :
  Z.of_nat (length v) < 2 ^ 32 ->
  p_varint32 (varint_bytes (u64 (Z.of_nat (length v))) ++ rest) =
    POk (Z.of_nat (length v)) (length (varint_bytes (u64 (Z.of_nat (length v))))).
Proof.
  intros Hv. assert (u64 (Z.of_nat (length v)) = Z.of_nat (length v)) as ->
    by (apply Z.mod_small; lia).
  apply p_varint32_bytes. unfold is_u32. lia.
Qed.

Lemma transfer_bytes f d (v : list Z) :
  PB_ATYPE (ftype f) = PB_ATYPE_STATIC -> is_u32 (data_size f) -> 0 < d ->
  offsetof_bytes + Z.of_nat (length v) <= data_size f ->
  decodes (rng d (data_size f)) (fun _ => True) (pb_dec_bytes f d) (delimited v)
    (fun _ m' => holds m' (rng d (data_size f)) (ebytes_field f d) (delimited v)).
Proof.
  intros Ha Hds Hd0 Hfit. unfold is_u32 in Hds. change offsetof_bytes with 4 in Hfit.
  unfold delimited at 1. eapply (decodes_parses _ _ _ _ (Z.of_nat (length v)));
    [apply parses_varint32|intros; apply delimited_length; lia|].
  destruct (PB_SIZE_MAX <? Z.of_nat (length v)) eqn:E1; bool_to_prop;
    [change PB_SIZE_MAX with (2 ^ 32 - 1) in E1; lia|clear E1]. cbv zeta.
  assert (PB_BYTES_ARRAY_T_ALLOCSIZE (Z.of_nat (length v)) = Z.of_nat (length v) + 4) as ->.
  { unfold PB_BYTES_ARRAY_T_ALLOCSIZE, offsetof_bytes, u64. apply Z.mod_small. lia. }
  destruct (_ <? _) eqn:E1; bool_to_prop; [lia|clear E1]. rewrite Ha. simpl (_ =? _). cbv iota.
  destruct (data_size f <? _) eqn:E1; bool_to_prop; [lia|].
  set (R := rng d (data_size f)).
  change (decodes R (fun _ => True)
    (_ ← clift (store_u sizeof_pb_size_t d (Z.of_nat (length v)));
     _ ← pb_read (RMem (d + offsetof_bytes)) (Z.of_nat (length v)); mret tt) v
    (fun _ m' => holds m' R (ebytes_field f d) (delimited v))).
  apply decodes_store; [unfold R, rng, sizeof_pb_size_t; lia|].
  intros s m rest Hr Hcl Hcov Hok HP.
  destruct (decodes_read R _ (d + offsetof_bytes) v
    ltac:(unfold R, rng, offsetof_bytes; lia) s m rest Hr Hcl Hcov Hok HP)
    as (l & m' & E & U & (m0 & (m1 & _ & _ & Hsize) & U' & Hm)).
  exists tt, m'. rewrite (bind_some _ _ _ _ _ _ _ E). split; [done|]. split; [done|].
  rewrite length_le_split in Hsize.
  assert (mread (mem m') d sizeof_pb_size_t = Some (le_split sizeof_pb_size_t (Z.of_nat (length v)))) as Hs'.
  { rewrite <- Hsize. apply (agree_mread (rng d 4)).
    - eapply agree_upd; [|exact U']. unfold rng, offsetof_bytes. lia.
    - unfold rng, sizeof_pb_size_t. lia. }
  unfold ebytes_field. destruct (d =? 0) eqn:E0; bool_to_prop; [lia|].
  eapply (holds_bind _ _ _ _ (Z.of_nat (length v))).
  { intros m'' Hag. unfold clift.
    rewrite (agree_load_u R m' m'' _ _ _ Hs' ltac:(unfold R, rng, sizeof_pb_size_t; lia) Hag).
    rewrite le_combine_split, Z.mod_small by (change sizeof_pb_size_t with 4%nat; simpl; lia). done. }
  assert (u64 (data_size f - offsetof_bytes) = data_size f - 4) as ->
    by (apply Z.mod_small; unfold offsetof_bytes; lia).
  destruct (data_size f - 4 <? Z.of_nat (length v)) eqn:E2; bool_to_prop; [lia|].
  rewrite andb_false_r, Nat2Z.id. apply holds_delimited, holds_load_bytes; [done|].
  unfold R, rng, offsetof_bytes. lia.
Qed.

Lemma transfer_fixed_bytes f d (v : list Z) :
  is_u32 (data_size f) -> Z.of_nat (length v) = data_size f ->
  decodes (rng d (data_size f)) (fun _ => True) (pb_dec_fixed_length_bytes f d) (delimited v)
    (fun _ m' => holds m' (rng d (data_size f))
       (edelimited (clift (load_bytes d (Z.to_nat (data_size f))))) (delimited v)).
Proof.
  intros Hds Hl. unfold is_u32 in Hds.
  unfold delimited at 1. eapply (decodes_parses _ _ _ _ (Z.of_nat (length v)));
    [apply parses_varint32|intros; apply delimited_length; lia|].
  destruct (PB_SIZE_MAX <? Z.of_nat (length v)) eqn:E1; bool_to_prop;
    [change PB_SIZE_MAX with (2 ^ 32 - 1) in E1; lia|clear E1].
  rewrite <- Hl, Nat2Z.id. set (R := rng d (Z.of_nat (length v))).
  assert (∀ m', stored (fun _ => True) d v m' ->
    holds m' R (edelimited (clift (load_bytes d (length v)))) (delimited v)) as Hh.
  { intros m' (m0 & _ & _ & Hm). apply holds_delimited, holds_load_bytes; [done|].
    unfold R, rng. lia. }
  destruct (Z.of_nat (length v) =? 0) eqn:E0; bool_to_prop.
  { destruct v; [|simpl in E0; lia]. intros s m rest _ _ _ _ _. exists tt, m. rewrite adv_0.
    split; [by destruct m|]. split; [apply upd_refl|]. apply Hh. exists m.
    split; [done|]. split; [apply upd_refl|done]. }
  rewrite Z.eqb_refl. simpl (negb _). cbv iota.
  intros s m rest Hr Hcl Hcov Hok HP.
  destruct (decodes_read R _ d v ltac:(unfold R, rng; lia) s m rest Hr Hcl Hcov Hok HP)
    as (l & m' & E & U & Hst).
  exists tt, m'. rewrite (bind_some _ _ _ _ _ _ _ E). split; [done|]. split; [done|]. by apply Hh.
Qed.

(** ** Submessages *)

(** A decoder that reads its stream to the end. *)
Definition decodes_all {A} (R : Z -> Prop) (P : mstate -> Prop) (c : C pb_istream_t A)
    (v : list Z) (Q : A -> mstate -> Prop) : Prop :=
  ∀ s m, reads s m v -> clear_of R s -> covers R m -> bytes_ok m -> P m ->
    ∃ a m', c s m = Ret (Some a, adv s (length v)) m' ∧ upd R m m' ∧ Q a m'.

Lemma transfer_submessage R P fuel noinit f d sub (v : list Z) (Q : mstate -> Prop) :
  ptr f <> 0 -> fields_at (ptr f) = Some sub -> PB_HTYPE (ftype f) <> PB_HTYPE_REPEATED ->
  Z.of_nat (length v) < 2 ^ 32 ->
  decodes_all R P (noinit sub d) v (fun _ m' => Q m') ->
  decodes R P (pb_dec_submessage fuel noinit f d) (delimited v) (fun _ m' => Q m').
Proof.
  intros Hp Hsub Hh Hl Hno s m rest Hr Hcl Hcov Hok HP.
  unfold delimited in Hr. rewrite <- app_assoc in Hr.
  set (k := length (varint_bytes (u64 (Z.of_nat (length v))))).
  pose proof (delimited_length v (v ++ rest) Hl) as Hpv. fold k in Hpv.
  pose proof (reads_left _ _ _ Hr) as Hleft. rewrite !length_app in Hleft. fold k in Hleft.
  assert (k + length v <= length (varint_bytes (u64 (Z.of_nat (length v))) ++ v ++ rest))%nat as Hkn
    by (rewrite !length_app; fold k; lia).
  pose proof (make_substream_ok s m _ _ _ Hr Hpv
    ltac:(rewrite !length_app; fold k; lia)) as Em. rewrite Nat2Z.id in Em.
  pose proof (reads_sub s m _ k (length v) Hr Hkn) as Hrs.
  rewrite (drop_app_length' _ _ k), take_app_length in Hrs by done.
  destruct (Hno _ m Hrs) as ([] & m' & E & U & HQ);
    [apply clear_sub; [lia|done]|done|done|done|].
  exists tt, m'. split; [|done].
  unfold pb_dec_submessage. rewrite (bind_some _ _ _ _ _ _ _ Em).
  destruct (ptr f =? 0) eqn:E0; bool_to_prop; [done|].
  rewrite (bind_defined _ _ _ _ _ Hsub).
  destruct (PB_HTYPE (ftype f) =? PB_HTYPE_REPEATED) eqn:Er; bool_to_prop; [done|].
  rewrite (bind_con _ _ _ _ _ _ _ _ E). cbn [fst snd].
  pose proof (close_substream s m' _ k (length v) (length v) (ierrmsg s)
    (reads_upd _ _ _ _ _ Hcl U Hr) Hkn ltac:(lia)) as Ec.
  assert (∀ s' j, put_errmsg (ierrmsg s') (adv s' j) = adv s' j) as He by done.
  rewrite He in Ec. change (put_errmsg (ierrmsg s) (adv (sub_stream s k (length v)) (length v)))
    with (adv (sub_stream s k (length v)) (length v)) in Ec.
  rewrite (bind_some _ _ _ _ _ _ _ Ec). unfold delimited. rewrite length_app. done.
Qed.

(** ** All types *)

(** What the types of the fields require of their sizes. *)
Record value_sized (f : pb_field_t) : Prop := {
  vs_typed : field_ok f;
  vs_atype : PB_ATYPE (ftype f) = PB_ATYPE_STATIC;
  vs_single : PB_HTYPE (ftype f) <> PB_HTYPE_REPEATED;
  vs_string : PB_LTYPE (ftype f) <> PB_LTYPE_STRING;
  vs_bool : PB_LTYPE (ftype f) = PB_LTYPE_BOOL -> 1 <= data_size f;
  vs_fixed32 : PB_LTYPE (ftype f) = PB_LTYPE_FIXED32 -> 4 <= data_size f;
  vs_fixed64 : PB_LTYPE (ftype f) = PB_LTYPE_FIXED64 -> 8 <= data_size f;
  vs_bytes : PB_LTYPE (ftype f) = PB_LTYPE_BYTES -> offsetof_bytes <= data_size f;
}.

Lemma decodes_true {A} R P (c : C pb_istream_t A) v Q :
  decodes R (fun _ => True) c v Q -> decodes R P c v Q.
Proof. by apply decodes_mono. Qed.

Lemma load_bytes_inv a n m bs m' :
  clift (S := unit) (load_bytes a n) tt m = Ret (Some bs, tt) m' ->
  mread (mem m) a n = Some bs ∧ m' = m.
Proof. unfold clift, load_bytes. destruct (mread _ _ _); [|done]. by intros [= -> ->]. Qed.

Lemma edelimited_some e m v m' :
  edelimited e tt m = Ret (Some v, tt) m' ->
  ∃ l, e tt m = Ret (Some l, tt) m' ∧ v = delimited l.
Proof. intros E. apply edelimited_inv in E as [[_ ?]|(l & E & [= ->])]; [done|]. eauto. Qed.

Lemma delimited_le l : (length l <= length (delimited l))%nat.
Proof. unfold delimited. rewrite length_app. lia. Qed.

Lemma ebytes_inv f p m v m' :
  PB_ATYPE (ftype f) = PB_ATYPE_STATIC -> is_u32 (data_size f) ->
  offsetof_bytes <= data_size f -> ebytes_field f p tt m = Ret (Some v, tt) m' ->
  ∃ l, v = delimited l ∧ offsetof_bytes + Z.of_nat (length l) <= data_size f.
Proof.
  intros Ha Hd Ho. unfold is_u32 in Hd. unfold ebytes_field. change offsetof_bytes with 4 in *.
  destruct (p =? 0); [intros [= <- _]; exists []; split; [done|simpl; lia]|].
  intros E. apply bind_inv in E as (size & m1 & _ & E). rewrite Ha in E.
  assert (u64 (data_size f - 4) = data_size f - 4) as Hu by (apply Z.mod_small; lia).
  rewrite Hu in E. simpl (_ =? _) in E. simpl (true && _) in E.
  destruct (data_size f - 4 <? size) eqn:Es; bool_to_prop; [done|].
  apply edelimited_some in E as (l & E & ->). apply load_bytes_inv in E as [E _].
  apply length_mread in E. exists l. split; [done|]. lia.
Qed.

Lemma evalue_transfer P fuel emsg fuel' noinit f p d m0 v m1 :
  value_sized f -> 0 < d -> bytes_ok m0 -> Z.of_nat (length v) < 2 ^ 32 ->
  evalue fuel emsg (ftype f) f p tt m0 = Ret (Some v, tt) m1 ->
  (∀ sub l, PB_LTYPE (ftype f) = PB_LTYPE_SUBMESSAGE -> fields_at (ptr f) = Some sub ->
     emsg sub p tt m0 = Ret (Some l, tt) m1 -> Z.of_nat (length l) < 2 ^ 32 ->
     decodes_all (rng d (data_size f)) P (noinit sub d) l
       (fun _ m' => holds m' (rng d (data_size f)) (emsg sub d) l)) ->
  decodes (rng d (data_size f)) P (call_decoder fuel' noinit (ftype f) f d) v
    (fun _ m' => holds m' (rng d (data_size f)) (evalue fuel emsg (ftype f) f d) v).
Proof.
  intros [Hok Ha Hrep Hstr Hbool H32 H64 Hby] Hd Hb Hlen. pose proof (ok_data_size _ Hok) as Hds.
  unfold call_decoder, evalue.
  unfold PB_LTYPE_BOOL, PB_LTYPE_VARINT, PB_LTYPE_UVARINT, PB_LTYPE_SVARINT,
    PB_LTYPE_FIXED32, PB_LTYPE_FIXED64, PB_LTYPE_BYTES, PB_LTYPE_STRING,
    PB_LTYPE_SUBMESSAGE, PB_LTYPE_EXTENSION, PB_LTYPE_FIXED_LENGTH_BYTES in *.
  pose proof (ltype_range (ftype f)) as Hl. set (l := PB_LTYPE (ftype f)) in *. clearbody l.
  assert (l ∈ Z.of_nat <$> seq 0 16) as Hin.
  { apply list_elem_of_fmap. exists (Z.to_nat l). rewrite elem_of_seq. lia. }
  simpl in Hin.
  repeat (apply elem_of_cons in Hin as [->|Hin];
    [simpl; intros E Hsub; try discriminate E|]); [..|by apply elem_of_nil in Hin].
  - apply bind_inv in E as (b & m2 & _ & E). injection E as <- _.
    apply decodes_true, transfer_bool. auto.
  - apply bind_inv in E as (x & m2 & E & E'). injection E' as <- _.
    by eapply decodes_true, transfer_varint, read_int_range.
  - apply bind_inv in E as (x & m2 & E & E'). injection E' as <- _.
    by eapply decodes_true, transfer_uvarint, read_int_range.
  - apply bind_inv in E as (x & m2 & E & E'). injection E' as <- _.
    by eapply decodes_true, transfer_svarint, read_int_range.
  - apply load_bytes_inv in E as [E _]. apply decodes_true, transfer_fixed32; [|auto|].
    + by eapply length_mread.
    + by eapply mread_forall.
  - apply load_bytes_inv in E as [E _]. apply decodes_true, transfer_fixed64; [|auto|].
    + by eapply length_mread.
    + by eapply mread_forall.
  - apply ebytes_inv in E as (y & -> & Hy); [|auto..]. by apply decodes_true, transfer_bytes.
  - done.
  - destruct (ptr f =? 0) eqn:Ep; bool_to_prop; [done|].
    apply bind_inv in E as (sub & m2 & Esub & E).
    destruct (fields_at (ptr f)) as [fs|] eqn:Ef; [|done]. injection Esub as <- <-.
    apply edelimited_some in E as (y & E & ->). pose proof (delimited_le y).
    specialize (Hsub fs y eq_refl eq_refl E ltac:(lia)).
    eapply decodes_mono with (R := rng d (data_size f)) (P := P)
      (Q := fun _ m' => holds m' (rng d (data_size f)) (emsg fs d) y); [done|done| |].
    2: { apply (transfer_submessage (rng d (data_size f)) P fuel' noinit f d fs y
           (fun m' => holds m' (rng d (data_size f)) (emsg fs d) y)); [done..|lia|exact Hsub]. }
    intros _ m' Hh. eapply (holds_bind _ _ _ _ fs); [done|]. by apply holds_delimited.
  - apply edelimited_some in E as (y & E & ->). apply load_bytes_inv in E as [E _].
    apply decodes_true, transfer_fixed_bytes; [done|]. apply length_mread in E.
    unfold is_u32 in Hds. lia.
Qed.
End Values.
