(* ===== verification/TransferMsg.v ===== *)
(** * Decoding what was encoded: the fields of a message

    The message types for which decoding inverts encoding, the wire form of a
    message as the list of the wire forms of its fields, and the state of a
    structure after its default values were set. *)

From S2P Require Import Prelude.
From S2P Require Import Memory.
From S2P Require Import MemFacts.
From S2P Require Import PbTypes.
From S2P Require Import PbCommon.
From S2P Require Import PbEncode.
From S2P Require Import PbDecode.
From S2P Require Import EncSpec.
From S2P Require Import EncMsg.
From S2P Require Import EncRefine.
From S2P Require Import IterFacts.
From S2P Require Import WireThms.
From S2P Require Import DecSafe.
From S2P Require Import DecStatic.
From S2P Require Import Transfer.

(** ** Message types *)

(** The bytes of a field, relative to its structure: the data and, for an
    optional field, the has-flag. *)
Definition own (f : pb_field_t) (o : Z * Z) : Z -> Prop := fun x =>
  rng o.1 (data_size f) x \/ (PB_HTYPE (ftype f) = PB_HTYPE_OPTIONAL ∧ x = o.2).

(** Beyond being static: a single required or optional value, not a C string
    (which may be unterminated), with a has-flag of its own, and a tag that
    fits the 32-bit tag reader. *)
Record single_field (f : pb_field_t) (o : Z * Z) : Prop := {
  sg_htype : PB_HTYPE (ftype f) <> PB_HTYPE_REPEATED;
  sg_ltype : PB_LTYPE (ftype f) <> PB_LTYPE_STRING;
  sg_bytes : PB_LTYPE (ftype f) = PB_LTYPE_BYTES -> offsetof_bytes <= data_size f;
  sg_flag : PB_HTYPE (ftype f) = PB_HTYPE_OPTIONAL ->
    size_offset f <> 0 ∧ ~ rng o.1 (data_size f) o.2;
  sg_tag : ftag f < 2 ^ 29;
}.

Definition fields_apart (fields : list pb_field_t) (n : nat) : Prop :=
  ∀ i j f g o p, (i < n)%nat -> (j < n)%nat -> i <> j ->
    fields !! i = Some f -> fields !! j = Some g ->
    field_offsets fields !! i = Some o -> field_offsets fields !! j = Some p ->
    ftag f <> ftag g ∧ ∀ x, own f o x -> own g p x -> False.

Fixpoint single_msg `{PbEnv} (Rd : Z -> Prop) (depth : nat) (fields : list pb_field_t)
    (size : Z) : Prop :=
  match depth with
  | O => False
  | S depth =>
      ∃ n, table_ok fields n ∧ fields_apart fields n ∧
        ∀ i f o, (i < n)%nat -> fields !! i = Some f -> field_offsets fields !! i = Some o ->
          static_field Rd (single_msg Rd depth) f o size ∧ single_field f o
  end.

Lemma single_value `{PbEnv} Rd sub f o size :
  static_field Rd sub f o size -> single_field f o -> value_sized f.
Proof. intros [] []. by split. Qed.

Lemma single_optional `{PbEnv} Rd sub f o size :
  static_field Rd sub f o size -> single_field f o ->
  PB_HTYPE (ftype f) = PB_HTYPE_REQUIRED \/ PB_HTYPE (ftype f) = PB_HTYPE_OPTIONAL.
Proof.
  intros Hs Hg. destruct (htype_cases (ftype f)) as [?|[?|[E|E]]]; [auto..| |].
  - by apply (sg_htype _ _ Hg) in E.
  - by apply (sf_htype _ _ _ _ _ Hs) in E.
Qed.

Lemma own_inside `{PbEnv} Rd sub f o size x :
  static_field Rd sub f o size -> single_field f o -> own f o x -> 0 <= x < size.
Proof.
  intros Hs Hg [Hx|[Hh ->]].
  - pose proof (sf_low _ _ _ _ _ Hs). pose proof (sf_high _ _ _ _ _ Hs) as Hi.
    unfold static_extent in Hi. pose proof (sg_htype _ _ Hg) as Hn. apply Z.eqb_neq in Hn.
    rewrite Hn in Hi. unfold rng in Hx. lia.
  - destruct (sf_has _ _ _ _ _ Hs Hh). lia.
Qed.

(** ** Cleared structures *)

(** No optional field is present, at any level. *)
Fixpoint cleared `{PbEnv} (depth : nat) (fields : list pb_field_t) (dest : Z) (m : mstate)
    : Prop :=
  match depth with
  | O => True
  | S depth =>
      ∀ i f o, (S i < length fields)%nat -> fields !! i = Some f ->
        field_offsets fields !! i = Some o ->
        (PB_HTYPE (ftype f) = PB_HTYPE_OPTIONAL -> mem m !! (dest + o.2) = Some 0) ∧
        (PB_LTYPE (ftype f) = PB_LTYPE_SUBMESSAGE -> ∀ sub, fields_at (ptr f) = Some sub ->
           cleared depth sub (dest + o.1) m)
  end.

(** The part of one field. *)
Definition cleared_field `{PbEnv} (depth : nat) (f : pb_field_t) (o : Z * Z) (dest : Z)
    (m : mstate) : Prop :=
  (PB_HTYPE (ftype f) = PB_HTYPE_OPTIONAL -> mem m !! (dest + o.2) = Some 0) ∧
  (PB_LTYPE (ftype f) = PB_LTYPE_SUBMESSAGE -> ∀ sub, fields_at (ptr f) = Some sub ->
     cleared depth sub (dest + o.1) m).

Definition at_dest (dest : Z) (R : Z -> Prop) : Z -> Prop := fun x => R (x - dest).

Lemma cleared_agree `{PbEnv} Rd depth fields size dest m m' :
  single_msg Rd depth fields size -> agree (rng dest size) m m' ->
  cleared depth fields dest m -> cleared depth fields dest m'.
Proof.
  revert fields size dest; induction depth as [|depth IH]; intros fields size dest; [done|].
  intros (n & Htab & _ & Hf) Ha Hc i f o Hi Ef Eo.
  rewrite (table_length _ _ Htab) in Hi. destruct (Hf i f o ltac:(lia) Ef Eo) as [Hs Hg].
  destruct (Hc i f o) as [Hflag Hsub]; [rewrite (table_length _ _ Htab); lia|done..|]. split.
  - intros Hh. rewrite Ha; [auto|]. destruct (sf_has _ _ _ _ _ Hs Hh). unfold rng. lia.
  - intros Hl sub Es. destruct (sf_sub _ _ _ _ _ Hs Hl) as (_ & sub' & Es' & Hm).
    rewrite Es in Es'. injection Es' as <-. eapply IH; [exact Hm| |by apply Hsub].
    eapply agree_mono; [|exact Ha]. intros x Hx.
    assert (0 <= x - dest < size); [|unfold rng; lia].
    eapply own_inside; [done|done|]. left. unfold rng in *. lia.
Qed.

Lemma cleared_field_agree `{PbEnv} Rd depth f o size dest m m' :
  static_field Rd (single_msg Rd depth) f o size -> single_field f o ->
  agree (at_dest dest (own f o)) m m' ->
  cleared_field depth f o dest m -> cleared_field depth f o dest m'.
Proof.
  intros Hs Hg Ha [Hflag Hsub]. split.
  - intros Hh. rewrite Ha; [auto|]. right. split; [done|lia].
  - intros Hl sub Es. destruct (sf_sub _ _ _ _ _ Hs Hl) as (_ & sub' & Es' & Hm).
    rewrite Es in Es'. injection Es' as <-. eapply cleared_agree; [exact Hm| |by apply Hsub].
    eapply agree_mono; [|exact Ha]. intros x Hx. left. unfold rng in *. lia.
Qed.

(** ** The wire form as a list of fields *)

Section Wire.
Context `{EncEnv} (fuel : nat).

Fixpoint elist (l : list (pb_field_t * Z)) : C unit (list Z) :=
  match l with
  | [] => mret []
  | (f, p) :: l => eseq (efield fuel (emessage fuel) f p) (elist l)
  end.

(** The fields of a message with their addresses. *)
Definition placed (fields : list pb_field_t) (dest : Z) : list (pb_field_t * Z) :=
  (fun p => (p.1, dest + p.2.1)) <$> take (length fields - 1) (zip fields (field_offsets fields)).

Lemma placed_lookup fields n dest i f o :
  table_ok fields n -> (i < n)%nat -> fields !! i = Some f -> field_offsets fields !! i = Some o ->
  placed fields dest !! i = Some (f, dest + o.1).
Proof.
  intros Htab Hi Ef Eo. unfold placed. rewrite list_lookup_fmap, lookup_take_lt.
  - by rewrite lookup_zip_with, Ef, Eo.
  - rewrite (table_length _ _ Htab). lia.
Qed.

Lemma length_placed fields n dest : table_ok fields n -> length (placed fields dest) = n.
Proof.
  intros Htab. unfold placed. rewrite length_fmap, length_take, length_zip_with,
    length_field_offsets, (table_length _ _ Htab). lia.
Qed.

Lemma efields_list fields n dest i it k m :
  table_ok fields n -> dest <> 0 ->
  (∀ j f, (j < n)%nat -> fields !! j = Some f -> PB_LTYPE (ftype f) <> PB_LTYPE_EXTENSION) ->
  iter_at fields n dest i it -> (n - i <= k)%nat ->
  efields fuel (emessage fuel) k it tt m = elist (drop i (placed fields dest)) tt m.
Proof.
  intros Htab Hd Hne. revert i it m; induction k as [|k IH]; intros i it m Hit Hk.
  { pose proof (at_lt _ _ _ _ _ Hit). lia. }
  destruct (iter_at_field _ _ _ Htab _ _ Hit) as (f & Hf & Hf' & _).
  destruct (at_data _ _ _ _ _ Hit) as (o & Ho & Hpd & _).
  pose proof (at_lt _ _ _ _ _ Hit) as Hi.
  rewrite (drop_S _ (f, dest + o.1) _ (placed_lookup _ _ _ _ _ _ Htab Hi Hf' Ho)).
  cbn [efields elist]. rewrite (bind_defined _ _ _ _ _ Hf).
  pose proof (Hne _ _ Hi Hf') as He. apply Z.eqb_neq in He. rewrite He, <- Hpd.
  destruct (iter_next_at _ _ _ Htab _ _ Hd Hit) as (it' & En & Hit').
  assert (∀ m', (r ← defined (pb_field_iter_next it);
    if (r.1 : bool) then efields fuel (emessage fuel) k r.2 else mret []) tt m' =
    elist (drop (S i) (placed fields dest)) tt m') as Htail.
  { intros m'. rewrite (bind_defined _ _ _ _ _ En). cbn [fst snd].
    destruct (S i <? n)%nat eqn:E.
    - apply Nat.ltb_lt in E. apply IH; [done|lia].
    - apply Nat.ltb_ge in E. rewrite drop_ge; [done|]. rewrite (length_placed _ _ _ Htab). lia. }
  unfold eseq, mbind, C_bind. destruct (efield _ _ f (pData it) tt m) as [[[c|] []] m1| |]; try done.
  unfold mbind, C_bind in Htail. by rewrite Htail.
Qed.

Lemma offsets_total fields i f :
  fields !! i = Some f -> ∃ o, field_offsets fields !! i = Some o.
Proof.
  intros Hf. apply lookup_lt_is_Some_2. rewrite length_field_offsets. by eapply lookup_lt_Some.
Qed.

Lemma emessage_list Rd depth fields size p m :
  single_msg Rd depth fields size -> p <> 0 ->
  emessage (S fuel) fields p tt m = elist (placed fields p) tt m.
Proof.
  intros Hs Hp. destruct depth as [|depth]; [done|]. destruct Hs as (n & Htab & _ & Hs).
  destruct (iter_begin_at _ _ _ Htab Hp) as (it & E & Hit). cbn [emessage]. unfold ebody.
  rewrite (bind_defined _ _ _ _ _ E). cbn [fst snd].
  apply (efields_list fields n p 0 it); [done|done| |done|rewrite (table_length _ _ Htab); lia].
  intros j f Hj Hf. destruct (offsets_total _ _ _ Hf) as [o Ho].
  apply (sf_not_ext _ _ _ _ _ (proj1 (Hs j f o Hj Hf Ho))).
Qed.

(** Reading the source does not change it. *)
Lemma efield_ro f p m r m' :
  field_ok f -> bytes_ok m -> efield fuel (emessage fuel) f p tt m = Ret (r, tt) m' -> m' = m.
Proof.
  intros Hf Hb E.
  pose proof (emits_field fuel (pb_encode fuel) (emessage fuel)
    ltac:(intros; by apply emits_pb_encode) f p Hf) as Hem.
  by apply (emits_ro _ _ Hem) in E as [-> _].
Qed.

(** One chunk of the wire form per field. *)
Lemma elist_chunks l m bs m' :
  Forall (fun x => field_ok x.1) l -> bytes_ok m -> elist l tt m = Ret (Some bs, tt) m' ->
  ∃ cs, bs = concat cs ∧
    Forall2 (fun x c => efield fuel (emessage fuel) x.1 x.2 tt m = Ret (Some c, tt) m) l cs.
Proof.
  intros Hl Hb. revert bs; induction Hl as [|[f p] l Hf Hl IH]; intros bs; cbn [elist].
  { intros [= <- _]. exists []. split; [done|constructor]. }
  intros E. apply bind_inv in E as (c & m1 & E1 & E). simpl in Hf.
  pose proof (efield_ro _ _ _ _ _ Hf Hb E1) as ->.
  apply bind_inv in E as (bs' & m2 & E2 & E). injection E as <- <-.
  destruct (IH _ E2) as (cs & -> & Hcs). exists (c :: cs). split; [done|]. by constructor.
Qed.

Lemma elist_holds R l m cs :
  Forall2 (fun x c => holds m R (efield fuel (emessage fuel) x.1 x.2) c) l cs ->
  holds m R (elist l) (concat cs).
Proof.
  induction 1 as [|[f p] c l cs Hc _ IH]; cbn [elist concat]; [apply holds_ret|].
  by apply holds_seq.
Qed.

(** ** One field *)

(** The tag and the value. *)
Definition eentry (f : pb_field_t) (p : Z) : C unit (list Z) :=
  eseq (efield_tag f) (evalue fuel (emessage fuel) (ftype f) f p).

Lemma efield_required f p m :
  PB_ATYPE (ftype f) = PB_ATYPE_STATIC -> PB_HTYPE (ftype f) = PB_HTYPE_REQUIRED -> p <> 0 ->
  efield fuel (emessage fuel) f p tt m = eentry f p tt m.
Proof.
  intros Ha Hh Hp. unfold efield, ebasic, eimplicit. rewrite Ha, Hh. simpl.
  apply Z.eqb_neq in Hp. unfold mbind at 1 2, C_bind.
  destruct (size_offset f =? 0); simpl; by rewrite Hp.
Qed.

Lemma efield_optional f p m :
  PB_ATYPE (ftype f) = PB_ATYPE_STATIC -> PB_HTYPE (ftype f) = PB_HTYPE_OPTIONAL ->
  size_offset f <> 0 ->
  efield fuel (emessage fuel) f p tt m =
    (has ← clift (safe_read_bool (p + size_offset f));
     if (has : bool) then eentry f p else mret []) tt m.
Proof.
  intros Ha Hh Ho. unfold efield, ebasic, eimplicit. rewrite Ha, Hh. simpl.
  apply Z.eqb_neq in Ho. by rewrite Ho.
Qed.

Lemma efield_inv Rd sub f o size p m c :
  static_field Rd sub f o size -> single_field f o -> p <> 0 ->
  efield fuel (emessage fuel) f p tt m = Ret (Some c, tt) m ->
  (PB_HTYPE (ftype f) = PB_HTYPE_OPTIONAL ∧ c = []) \/
  ∃ wt v m', wire_type_of (PB_LTYPE (ftype f)) = Some wt ∧ c = wire_tag wt (ftag f) ++ v ∧
    evalue fuel (emessage fuel) (ftype f) f p tt m = Ret (Some v, tt) m'.
Proof.
  intros Hs Hg Hp E. pose proof (sf_atype _ _ _ _ _ Hs) as Ha.
  assert (∀ m1 m2, eentry f p tt m1 = Ret (Some c, tt) m2 ->
    ∃ wt v, wire_type_of (PB_LTYPE (ftype f)) = Some wt ∧ c = wire_tag wt (ftag f) ++ v ∧
      evalue fuel (emessage fuel) (ftype f) f p tt m1 = Ret (Some v, tt) m2) as Hentry.
  { intros m1 m2 E'. apply bind_inv in E' as (t & m3 & Et & E').
    apply bind_inv in E' as (v & m4 & Ev & E'). injection E' as <- <-.
    unfold efield_tag in Et. destruct (wire_type_of _) as [wt|]; [|done].
    injection Et as <- <-. eauto 6. }
  destruct (single_optional _ _ _ _ _ Hs Hg) as [Hh|Hh].
  - rewrite efield_required in E by done. apply Hentry in E as (wt & v & ? & ? & ?).
    right. exists wt, v, m. eauto.
  - rewrite efield_optional in E by (done || by apply (sg_flag _ _ Hg)).
    apply bind_inv in E as (has & m1 & Eh & E). unfold clift in Eh.
    destruct (safe_read_bool _ m) as [b m1'| |] eqn:Er; [|done|done].
    injection Eh as -> ->. destruct has; [|left; by injection E as <- _].
    destruct (mro_safe_read_bool _ m m _ _ ltac:(by split) Er) as [-> _].
    apply Hentry in E as (wt & v & ? & ? & ?). right. exists wt, v, m. eauto 6.
Qed.

Lemma entry_holds R m f p wt v :
  wire_type_of (PB_LTYPE (ftype f)) = Some wt ->
  holds m R (evalue fuel (emessage fuel) (ftype f) f p) v ->
  holds m R (eentry f p) (wire_tag wt (ftag f) ++ v).
Proof.
  intros Hw Hv. apply holds_seq; [|done]. unfold efield_tag. rewrite Hw. apply holds_ret.
Qed.

(** What the has-flag says. *)
Lemma flag_read f o dest m m' b :
  PB_HTYPE (ftype f) = PB_HTYPE_OPTIONAL -> o.2 = o.1 + size_offset f ->
  mem m !! (dest + o.2) = Some b -> agree (at_dest dest (own f o)) m m' ->
  safe_read_bool (dest + o.1 + size_offset f) m' = Ret (negb (b =? 0)) m'.
Proof.
  intros Hh Ho Hm Ha. replace (dest + o.1 + size_offset f) with (dest + o.2) by lia.
  unfold safe_read_bool. erewrite mbind_ret; [done|]. apply load_byte.
  rewrite Ha; [done|]. right. split; [done|lia].
Qed.

Lemma absent_holds Rd sub f o size dest m :
  static_field Rd sub f o size -> single_field f o -> o.2 = o.1 + size_offset f ->
  PB_HTYPE (ftype f) = PB_HTYPE_OPTIONAL -> mem m !! (dest + o.2) = Some 0 ->
  holds m (at_dest dest (own f o)) (efield fuel (emessage fuel) f (dest + o.1)) [].
Proof.
  intros Hs Hg Ho Hh Hm m' Ha.
  rewrite efield_optional by (done || apply Hs || by apply (sg_flag _ _ Hg)).
  by rewrite (bind_lift _ _ _ _ _ _ (flag_read _ _ _ _ _ _ Hh Ho Hm Ha)).
Qed.

Lemma present_holds Rd sub f o size dest m c :
  static_field Rd sub f o size -> single_field f o -> o.2 = o.1 + size_offset f ->
  0 < dest -> (PB_HTYPE (ftype f) = PB_HTYPE_OPTIONAL -> mem m !! (dest + o.2) = Some 1) ->
  holds m (at_dest dest (own f o)) (eentry f (dest + o.1)) c ->
  holds m (at_dest dest (own f o)) (efield fuel (emessage fuel) f (dest + o.1)) c.
Proof.
  intros Hs Hg Ho Hd Hm Hc m' Ha. pose proof (sf_atype _ _ _ _ _ Hs).
  pose proof (sf_low _ _ _ _ _ Hs). destruct (single_optional _ _ _ _ _ Hs Hg) as [Hh|Hh].
  - rewrite efield_required by (done || lia). by apply Hc.
  - rewrite efield_optional by (done || by apply (sg_flag _ _ Hg)).
    rewrite (bind_lift _ _ _ _ _ _ (flag_read _ _ _ _ _ _ Hh Ho (Hm Hh) Ha)). by apply Hc.
Qed.
End Wire.
