(* ===== verification/TransferLoop.v ===== *)
(** * Default values clear the structure

    After [pb_message_set_to_defaults] no optional field is present, in the
    structure and in its submessages. *)

From S2P Require Import Prelude.
From S2P Require Import Memory.
From S2P Require Import MemFacts.
From S2P Require Import PbTypes.
From S2P Require Import PbCommon.
From S2P Require Import PbDecode.
From S2P Require Import EncSpec.
From S2P Require Import EncMsg.
From S2P Require Import IterFacts.
From S2P Require Import DecSafe.
From S2P Require Import DecStatic.
From S2P Require Import Transfer.
From S2P Require Import TransferMsg.
From S2P Require Import PbIStream.
From S2P Require Import WireSpec.
From S2P Require Import VarintSpec.
From S2P Require Import Varint.
From S2P Require Import Required.
From S2P Require Import WireThms.

Lemma mwp_mono {A} (c : M A) m (Q Q' : A -> mstate -> Prop) :
  mwp c m Q -> (∀ a m', Q a m' -> Q' a m') -> mwp c m Q'.
Proof. unfold mwp. destruct (c m); naive_solver. Qed.

(** An invariant of the loop over the fields. *)
Lemma iter_loop_inv fields n dest visit (Inv : nat -> mstate -> Prop) k i it m :
  table_ok fields n -> dest <> 0 ->
  (∀ i it m, iter_at fields n dest i it -> Inv i m -> mwp (visit it) m (fun _ => Inv (S i))) ->
  iter_at fields n dest i it -> (n - i <= k)%nat -> Inv i m ->
  mwp (iter_loop k visit it) m (fun _ => Inv n).
Proof.
  intros Htab Hd Hv. revert i it m; induction k as [|k IH]; intros i it m Hit Hk Hi.
  { pose proof (at_lt _ _ _ _ _ Hit). lia. }
  cbn [iter_loop]. apply mwp_bind.
  eapply (mwp_mono _ _ (fun _ => Inv (S i))); [by eapply Hv|]. intros _ m1 Hi1.
  destruct (iter_next_at _ _ _ Htab _ _ Hd Hit) as (it' & E & Hit').
  apply mwp_bind. rewrite E. unfold mwp at 1, mdefined. cbn [fst snd].
  destruct (S i <? n)%nat eqn:En.
  - apply Nat.ltb_lt in En. apply (IH (S i)); [done|lia|done].
  - apply Nat.ltb_ge in En. pose proof (at_lt _ _ _ _ _ Hit).
    apply mwp_ret. by replace n with (S i) by lia.
Qed.

Section Default.
Context `{PbEnv} (Rd : Z -> Prop).

(** The flag of the current field. *)
Lemma flag_run f o size dest it m :
  static_field Rd (fun _ _ => True) f o size -> single_field f o ->
  o.2 = o.1 + size_offset f -> pData it = dest + o.1 -> pSize it = SAddr (dest + o.2) ->
  state_ok Rd (rng dest size) m ->
  mwp (if (PB_HTYPE (ftype f) =? PB_HTYPE_OPTIONAL) && negb (psize_is_data it) then
         _ ← write_has (pSize it) 0 0; mret true
       else if (PB_HTYPE (ftype f) =? PB_HTYPE_REPEATED)
               || (PB_HTYPE (ftype f) =? PB_HTYPE_ONEOF) then
         _ ← write_size (pSize it) 0 0; mret false
       else mret true) m
    (fun init m' => init = true ∧ upd (at_dest dest (own f o)) m m' ∧
       (PB_HTYPE (ftype f) = PB_HTYPE_OPTIONAL -> mem m' !! (dest + o.2) = Some 0)).
Proof.
  intros Hs Hg Ho Hpd Hps Hok. destruct (single_optional _ _ _ _ _ Hs Hg) as [Hh|Hh]; rewrite Hh.
  { apply mwp_ret. split; [done|]. split; [apply upd_refl|done]. }
  unfold psize_is_data. rewrite Hps, Hpd.
  destruct (sg_flag _ _ Hg Hh) as [Hz Hout]. destruct (sf_has _ _ _ _ _ Hs Hh).
  destruct (dest + o.2 =? dest + o.1) eqn:E; bool_to_prop; [lia|]. simpl (_ && _). cbv iota.
  destruct (store_run (rng dest size) (dest + o.2) [0] m) as (m' & Est & U & Hm);
    [by constructor|simpl; unfold rng; lia|apply Hok|apply Hok|].
  unfold mwp, write_has. erewrite mbind_ret; [|erewrite mbind_ret; [done|exact Est]].
  split; [done|]. split.
  - eapply upd_mono; [|exact U]. intros x Hx. unfold rng in Hx. simpl in Hx.
    right. split; [done|]. lia.
  - intros _. simpl in Hm. by destruct (mem m' !! (dest + o.2)); simplify_eq/=.
Qed.

Definition field_default_run (fuel depth : nat) : Prop :=
  ∀ fields n dest size i it f o m,
  0 < dest -> table_ok fields n ->
  (∀ i f o, (i < n)%nat -> fields !! i = Some f -> field_offsets fields !! i = Some o ->
     static_field Rd (single_msg Rd depth) f o size ∧ single_field f o) ->
  iter_at fields n dest i it -> fields !! i = Some f -> field_offsets fields !! i = Some o ->
  state_ok Rd (rng dest size) m ->
  mwp (pb_field_set_to_default fuel it) m (fun _ m' =>
    upd (at_dest dest (own f o)) m m' ∧ cleared_field depth f o dest m').

(** All the fields, one after the other. *)
Lemma defaults_loop fuel depth fields size dest m :
  field_default_run fuel depth -> 0 < dest -> single_msg Rd (S depth) fields size ->
  state_ok Rd (rng dest size) m ->
  mwp (for_each_field (pb_field_set_to_default fuel) fields dest) m (fun _ m' =>
    upd (rng dest size) m m' ∧ cleared (S depth) fields dest m').
Proof.
  intros Hrun Hd (n & Htab & Hap & Hf) Hok.
  destruct (iter_begin_at _ _ dest Htab ltac:(lia)) as (it & E & Hit).
  unfold for_each_field. apply mwp_bind. rewrite E. unfold mwp at 1, mdefined. cbn [fst snd].
  pose (Inv i m' := upd (rng dest size) m m' ∧
    ∀ j f o, (j < i)%nat -> fields !! j = Some f -> field_offsets fields !! j = Some o ->
      cleared_field depth f o dest m').
  eapply (mwp_mono _ _ (fun _ => Inv n)); [apply (iter_loop_inv fields n dest _ Inv _ 0 it); [done|lia| |done|..]|].
  - intros i it' m1 Hit' [U Hc]. pose proof (at_lt _ _ _ _ _ Hit') as Hi.
    destruct (iter_at_field _ _ _ Htab _ _ Hit') as (f & _ & Ef & _).
    destruct (offsets_total _ _ _ Ef) as [o Eo].
    eapply (mwp_mono _ _ (fun _ m' => upd (at_dest dest (own f o)) m1 m' ∧
      cleared_field depth f o dest m')); [eapply Hrun; [done..|by eapply state_ok_upd]|].
    intros _ m2 [U2 Hc2].
    destruct (Hf i f o Hi Ef Eo) as [Hs Hg]. split.
    + eapply upd_trans; [exact U|]. eapply upd_mono; [|exact U2]. intros x Hx.
      pose proof (own_inside _ _ _ _ _ _ Hs Hg Hx). unfold rng. lia.
    + intros j g p Hj Eg Ep. destruct (decide (j = i)) as [->|Hne]; [by simplify_eq|].
      destruct (Hf j g p ltac:(lia) Eg Ep) as [Hs' Hg'].
      eapply cleared_field_agree; [done|done| |apply (Hc j); [lia|done..]].
      eapply agree_upd; [|exact U2]. intros x Hx Hy.
      by eapply (Hap j i g f p o); [lia|lia|done..].
  - rewrite (table_length _ _ Htab). lia.
  - split; [apply upd_refl|]. intros; lia.
  - intros _ m' [U Hc]. split; [done|]. intros i f o Hi Ef Eo.
    apply (Hc i); [rewrite (table_length _ _ Htab) in Hi; lia|done..].
Qed.

(** The data of the current field. *)
Lemma data_run fuel depth f o size dest m :
  (∀ k, (S k <= depth)%nat -> field_default_run fuel k) ->
  static_field Rd (single_msg Rd depth) f o size -> single_field f o -> 0 < dest ->
  state_ok Rd (rng dest size) m ->
  mwp (if PB_LTYPE (ftype f) =? PB_LTYPE_SUBMESSAGE
       then set_submessage (pb_field_set_to_default fuel) (ptr f) (dest + o.1)
       else if negb (ptr f =? 0) then memcpy (dest + o.1) (ptr f) (data_size f)
       else memset0 (dest + o.1) (data_size f)) m
    (fun _ m' => upd (rng (dest + o.1) (data_size f)) m m' ∧
       (PB_LTYPE (ftype f) = PB_LTYPE_SUBMESSAGE -> ∀ sub, fields_at (ptr f) = Some sub ->
          cleared depth sub (dest + o.1) m')).
Proof.
  intros Hrun Hs Hg Hd Hok. pose proof (sf_low _ _ _ _ _ Hs) as Hlow.
  pose proof (ok_data_size _ (sf_typed _ _ _ _ _ Hs)) as Hds. unfold is_u32 in Hds.
  assert (state_ok Rd (rng (dest + o.1) (data_size f)) m) as Hok'.
  { destruct Hok as [B W R]. split; [done| |done]. intros x Hx. apply W.
    assert (0 <= x - dest < size); [|unfold rng; lia].
    eapply own_inside; [done|done|]. left. unfold rng in *. lia. }
  destruct (PB_LTYPE (ftype f) =? PB_LTYPE_SUBMESSAGE) eqn:El; bool_to_prop.
  - destruct (sf_sub _ _ _ _ _ Hs El) as (_ & sub & Es & Hm). unfold set_submessage.
    destruct depth as [|depth]; [done|]. apply mwp_bind. rewrite Es. unfold mwp at 1, mdefined.
    eapply mwp_mono; [apply (defaults_loop fuel depth sub (data_size f)); [|lia|done|done]|].
    + apply Hrun. lia.
    + intros [] m' [U Hc]. split; [done|]. intros _ ? [= <-]. done.
  - assert (∀ c : M unit, msafe Rd (rng (dest + o.1) (data_size f)) c (fun _ => True) ->
      mwp c m (fun _ m' => upd (rng (dest + o.1) (data_size f)) m m' ∧
       (PB_LTYPE (ftype f) = PB_LTYPE_SUBMESSAGE -> ∀ sub, fields_at (ptr f) = Some sub ->
          cleared depth sub (dest + o.1) m'))) as Hsafe.
    { intros c Hc. eapply mwp_mono; [by apply Hc|]. intros [] m' [U _]. by split. }
    destruct (negb (ptr f =? 0)) eqn:Ep; bool_to_prop; apply Hsafe.
    + apply msafe_memcpy; [lia|intros j Hj; unfold rng; lia|by apply (sf_default _ _ _ _ _ Hs)].
    + apply msafe_memset0. intros j Hj. unfold rng. lia.
Qed.

Lemma field_default fuel depth : (depth < fuel)%nat -> field_default_run fuel depth.
Proof.
  revert depth; induction fuel as [|fuel IH]; intros depth Hdep; [lia|].
  intros fields n dest size i it f o m Hd Htab Hf Hit Ef Eo Hok.
  pose proof (at_lt _ _ _ _ _ Hit) as Hi. destruct (Hf i f o Hi Ef Eo) as [Hs Hg].
  destruct (iter_at_field _ _ _ Htab _ _ Hit) as (f' & Hf' & Ef' & _).
  rewrite Ef in Ef'. injection Ef' as <-.
  destruct (at_data _ _ _ _ _ Hit) as (o' & Eo' & Hpd & Hps). rewrite Eo in Eo'.
  injection Eo' as <-.
  pose proof (size_place _ _ _ _ Ef Eo (sf_htype _ _ _ _ _ Hs)) as Ho.
  destruct Hps as [Hps|[_ (g & Eg & Hh)]].
  2: { rewrite Ef in Eg. injection Eg as <-. by apply (sg_htype _ _ Hg) in Hh. }
  cbn [pb_field_set_to_default]. apply mwp_bind. rewrite Hf'. unfold mwp at 1, mdefined. cbv zeta.
  destruct (PB_LTYPE (ftype f) =? PB_LTYPE_EXTENSION) eqn:Ee; bool_to_prop;
    [by apply (sf_not_ext _ _ _ _ _ Hs) in Ee|].
  rewrite (sf_atype _ _ _ _ _ Hs). simpl (PB_ATYPE_STATIC =? PB_ATYPE_STATIC). cbv iota.
  apply mwp_bind. eapply mwp_mono; [by eapply flag_run; [eapply static_field_any| | | | |]|].
  intros init m1 (-> & U1 & Hflag). cbv iota. rewrite Hpd.
  assert (upd (rng dest size) m m1) as U1'.
  { eapply upd_mono; [|exact U1]. intros x Hx.
    pose proof (own_inside _ _ _ _ _ _ Hs Hg Hx). unfold rng. lia. }
  eapply mwp_mono; [apply (data_run fuel depth f o size dest m1);
    [intros k Hk; apply IH; lia|done..|by eapply state_ok_upd]|].
  intros [] m2 [U2 Hc]. split.
  - eapply upd_trans; [exact U1|]. eapply upd_mono; [|exact U2]. intros x Hx. left.
    unfold rng in *. lia.
  - split; [|done]. intros Hh. rewrite (upd_out _ _ _ U2); [auto|].
    destruct (sg_flag _ _ Hg Hh) as [_ Hout]. unfold rng in *. lia.
Qed.

Lemma defaults_cleared fuel depth fields size dest m :
  (depth <= fuel)%nat -> 0 < dest -> single_msg Rd depth fields size ->
  state_ok Rd (rng dest size) m ->
  ∃ m', pb_message_set_to_defaults fuel fields dest m = Ret tt m' ∧
    upd (rng dest size) m m' ∧ cleared depth fields dest m'.
Proof.
  intros Hdep Hd Hs Hok. destruct depth as [|depth]; [done|].
  pose proof (defaults_loop fuel depth fields size dest m
    (field_default fuel depth ltac:(lia)) Hd Hs Hok) as Hw.
  unfold mwp, pb_message_set_to_defaults in *.
  destruct (for_each_field _ _ _ m) as [[] m'| |]; [eauto|done|done].
Qed.
End Default.

(** * Decoding what was encoded: one field of the message loop

    Reading a tag, decoding the value into the cleared field, marking the
    field as seen. *)

(** ** Tags *)

Lemma wire_type_range l wt : wire_type_of l = Some wt -> 0 <= wt < 8.
Proof.
  unfold wire_type_of. intros E. repeat case_match; simplify_eq; by vm_compute.
Qed.

Lemma decode_tag_run `{PbEnv} s m wt tag rest :
  0 <= wt < 8 -> 0 < tag < 2 ^ 29 -> reads s m (wire_tag wt tag ++ rest) ->
  pb_decode_tag s m =
    Ret (Some (mk_tag_result true wt tag false), adv s (length (wire_tag wt tag))) m.
Proof.
  intros Hwt Htag Hr. rewrite (pb_decode_tag_spec _ _ _ Hr). unfold tag_outcome, wire_tag.
  assert (u64 (8 * tag) = 8 * tag) as -> by (apply Z.mod_small; lia).
  rewrite p_varint32_bytes by (unfold is_u32; lia).
  destruct (8 * tag + wt =? 0) eqn:E; bool_to_prop; [lia|].
  replace ((8 * tag + wt) mod 8) with wt by dlia. by replace ((8 * tag + wt) / 8) with tag by dlia.
Qed.

(** ** One field *)

Section Field.
Context `{EncEnv} (Rd : Z -> Prop) (fuel fuel' depth : nat).
Context (noinit : list pb_field_t -> Z -> C pb_istream_t unit).

Definition noinit_inverts : Prop :=
  ∀ sub size p d l m0 m1,
  single_msg Rd depth sub size -> 0 < p -> 0 < d -> bytes_ok m0 ->
  emessage fuel sub p tt m0 = Ret (Some l, tt) m1 -> Z.of_nat (length l) < 2 ^ 32 ->
  decodes_all (rng d size) (cleared depth sub d) (noinit sub d) l
    (fun _ m' => holds m' (rng d size) (emessage fuel sub d) l).

Hypothesis Hno : noinit_inverts.

(** The value of a field, read into cleared data. *)
Lemma value_run f o size src dest m0 v m1 :
  static_field Rd (single_msg Rd depth) f o size -> single_field f o ->
  0 < src -> 0 < dest -> bytes_ok m0 -> Z.of_nat (length v) < 2 ^ 32 ->
  evalue fuel (emessage fuel) (ftype f) f (src + o.1) tt m0 = Ret (Some v, tt) m1 ->
  decodes (rng (dest + o.1) (data_size f))
    (fun m => PB_LTYPE (ftype f) = PB_LTYPE_SUBMESSAGE -> ∀ sub, fields_at (ptr f) = Some sub ->
       cleared depth sub (dest + o.1) m)
    (call_decoder fuel' noinit (ftype f) f (dest + o.1)) v
    (fun _ m' => holds m' (rng (dest + o.1) (data_size f))
       (evalue fuel (emessage fuel) (ftype f) f (dest + o.1)) v).
Proof.
  intros Hs Hg Hsrc Hd Hb Hl E. pose proof (sf_low _ _ _ _ _ Hs).
  eapply evalue_transfer; [by eapply single_value|lia|exact Hb|done|exact E|].
  intros sub l Hlt Esub Em Hll s m Hr Hcl Hcov Hok HP.
  destruct (sf_sub _ _ _ _ _ Hs Hlt) as (_ & sub' & Es' & Hm). rewrite Esub in Es'.
  injection Es' as <-. eapply (Hno sub _ (src + o.1)); [exact Hm|lia|lia|exact Hb|exact Em|done..|].
  by apply HP.
Qed.

Lemma static_field_run f o size src dest m0 v m1 wt it local :
  static_field Rd (single_msg Rd depth) f o size -> single_field f o ->
  o.2 = o.1 + size_offset f -> iter_field it = Some f ->
  pData it = dest + o.1 -> pSize it = SAddr (dest + o.2) ->
  0 < src -> 0 < dest -> bytes_ok m0 -> Z.of_nat (length v) < 2 ^ 32 ->
  wire_type_of (PB_LTYPE (ftype f)) = Some wt ->
  evalue fuel (emessage fuel) (ftype f) f (src + o.1) tt m0 = Ret (Some v, tt) m1 ->
  decodes (at_dest dest (own f o)) (cleared_field depth f o dest)
    (decode_static_field fuel' noinit wt it local) v
    (fun r m' => r = local ∧ holds m' (at_dest dest (own f o))
       (efield fuel (emessage fuel) f (dest + o.1)) (wire_tag wt (ftag f) ++ v)).
Proof.
  intros Hs Hg Ho Hf Hpd Hps Hsrc Hd Hb Hl Hwt E.
  set (R := at_dest dest (own f o)). set (D := rng (dest + o.1) (data_size f)).
  assert (∀ x, D x -> R x) as HD by (intros x Hx; left; unfold D, rng in *; lia).
  pose proof (value_run _ _ _ _ dest _ _ _ Hs Hg Hsrc Hd Hb Hl E) as Hval. fold D in Hval.
  intros s m rest Hr Hcl Hcov Hok [Hflag Hsub].
  unfold decode_static_field. rewrite (bind_defined _ _ _ _ _ Hf). cbv zeta.
  destruct (single_optional _ _ _ _ _ Hs Hg) as [Hh|Hh]; rewrite Hh; simpl (_ =? _); cbv iota.
  - destruct (Hval s m rest Hr) as ([] & m' & E' & U & Hh');
      [by eapply clear_mono|intros x Hx; by apply Hcov, HD|done|done|].
    exists local, m'. rewrite Hpd, (bind_some _ _ _ _ _ _ _ E'). split; [done|].
    split; [by eapply upd_mono|]. split; [done|].
    apply (present_holds fuel _ _ _ _ _ _ _ _ Hs Hg Ho Hd); [by rewrite Hh|].
    apply entry_holds; [done|]. by eapply holds_mono.
  - destruct (sg_flag _ _ Hg Hh) as [Hz Hout].
    unfold psize_is_data. rewrite Hps, Hpd.
    destruct (dest + o.2 =? dest + o.1) eqn:E0; bool_to_prop; [lia|]. simpl (negb _). cbv iota.
    assert (R (dest + o.2)) as HR by (right; split; [done|lia]).
    destruct (store_run R (dest + o.2) [1] m) as (m2 & Est & U2 & Hm2);
      [by constructor| |done|done|].
    { simpl. intros i Hi. by replace (dest + o.2 + i) with (dest + o.2) by lia. }
    simpl in U2, Hm2. replace (Z.of_nat 1) with 1 in U2 by done.
    assert (∀ x, rng (dest + o.2) 1 x -> R x ∧ ~ D x) as Hx1.
    { intros x Hx. assert (x = dest + o.2) as -> by (unfold rng in Hx; lia). split; [done|].
      unfold D, rng in *. lia. }
    assert (upd R m m2) as U2' 
      by (eapply upd_mono; [intros x Hx; by apply Hx1|exact U2]).
    erewrite bind_lift; [|unfold write_has; erewrite mbind_ret; [reflexivity|exact Est]].
    destruct (Hval s m2 rest) as ([] & m' & E' & U & Hh').
    { by eapply reads_upd. }
    { by eapply clear_mono. }
    { eapply covers_upd; [exact U2|]. intros x Hx. by apply Hcov, HD. }
    { by apply (upd_bytes _ _ _ U2). }
    { intros Hlt sub Es. destruct (sf_sub _ _ _ _ _ Hs Hlt) as (_ & sub' & Es' & Hm).
      rewrite Es in Es'. injection Es' as <-.
      eapply cleared_agree; [exact Hm| |by apply Hsub].
      eapply agree_upd; [|exact U2]. intros x Hx Hy. by apply Hx1 in Hy as [_ ?]. }
    exists local, m'. rewrite (bind_some _ _ _ _ _ _ _ E'). split; [done|].
    split; [by eapply upd_trans; [exact U2'|]; eapply upd_mono|]. split; [done|].
    apply (present_holds fuel _ _ _ _ _ _ _ _ Hs Hg Ho Hd).
    + intros _. rewrite (upd_out _ _ _ U) by (apply Hx1; unfold rng; lia).
      by destruct (mem m2 !! (dest + o.2)); simplify_eq/=.
    + apply entry_holds; [done|]. by eapply holds_mono.
Qed.
End Field.

(** ** The bookkeeping of required fields *)

Lemma marks_ext seen (P Q : Z -> bool) w0 w1 :
  (∀ k, 0 <= k < 64 -> P k = Q k) -> marks seen P w0 w1 -> marks seen Q w0 w1.
Proof.
  intros HPQ [-> Hu Hl Hh]. split; [done|done|intros i Hi..].
  - rewrite Hl by done. apply HPQ. lia.
  - rewrite Hh by done. apply HPQ. lia.
Qed.

(** The mark of a field: its index among the required ones. *)
Definition marked_by (fields : list pb_field_t) (k : Z) (i : nat) : bool :=
  match fields !! i with
  | Some f => is_required f && (required_before fields i =? k)
  | None => false
  end.

(** The marks of the fields met so far. *)
Definition met (fields : list pb_field_t) (found : list nat) : Z -> bool := fun k =>
  existsb (marked_by fields k) found.

Lemma mark_seen_run fields n dest i f l s m found w0 w1 :
  table_ok fields n -> iter_at fields n dest i (l_iter l) -> fields !! i = Some f ->
  marks (fields_seen l) (met fields found) w0 w1 ->
  ∃ seen v0 v1, mark_seen l s m =
      Ret (Some (mk_locals (l_iter l) seen (extension_range_start l) (fixed_count_field l)
                           (fixed_count_size l)), s) m ∧
    marks seen (met fields (i :: found)) v0 v1.
Proof.
  intros Htab Hit Ef Hm. destruct (iter_at_field _ _ _ Htab _ _ Hit) as (f' & Hf' & Ef' & _).
  rewrite Ef in Ef'. injection Ef' as <-.
  assert (∀ k, met fields (i :: found) k =
    met fields found k || (is_required f && (k =? required_before fields i))) as Hmet.
  { intros k. unfold met, marked_by. cbn [existsb]. rewrite Ef, orb_comm.
    by rewrite (Z.eqb_sym (required_before fields i)). }
  unfold mark_seen. rewrite (bind_defined _ _ _ _ _ Hf'). cbv zeta.
  rewrite (at_index _ _ _ _ _ Hit). fold (is_required f). unfold PB_MAX_REQUIRED_FIELDS.
  assert (0 <= required_before fields i) by (unfold required_before; lia).
  destruct (is_required f); simpl (_ && _).
  - destruct (required_before fields i <? 64) eqn:E64; bool_to_prop.
    + destruct (set_seen_marks _ _ _ _ (required_before fields i) Hm ltac:(lia))
        as (seen & v0 & v1 & E & Hm'). exists seen, v0, v1.
      rewrite (bind_defined _ _ _ _ _ E). split; [done|]. eapply marks_ext; [|exact Hm'].
      intros k Hk. by rewrite Hmet.
    + exists (fields_seen l), w0, w1. destruct l. split; [done|]. eapply marks_ext; [|exact Hm].
      intros k Hk. rewrite Hmet. destruct (k =? _) eqn:Ek; bool_to_prop; [lia|].
      by rewrite orb_false_r.
  - exists (fields_seen l), w0, w1. destruct l. split; [done|]. eapply marks_ext; [|exact Hm].
    intros k Hk. by rewrite Hmet, orb_false_r.
Qed.

Lemma required_before_lt fields i n f :
  (i < n <= length fields)%nat -> fields !! i = Some f -> is_required f = true ->
  required_before fields i < required_before fields n.
Proof.
  intros Hi Ef Hr. induction n as [|n IH]; [lia|].
  destruct (lookup_lt_is_Some_2 fields n) as [g Eg]; [lia|].
  rewrite (required_before_S _ _ _ Eg). destruct (decide (i = n)) as [->|].
  - simplify_eq. rewrite Hr. lia.
  - specialize (IH ltac:(lia)). destruct (is_required g); lia.
Qed.

Lemma required_before_onto fields n k :
  (n <= length fields)%nat -> 0 <= k < required_before fields n ->
  ∃ i, (i < n)%nat ∧ marked_by fields k i = true.
Proof.
  intros Hn Hk. induction n as [|n IH]; [unfold required_before in Hk; simpl in Hk; lia|].
  destruct (lookup_lt_is_Some_2 fields n) as [g Eg]; [lia|].
  rewrite (required_before_S _ _ _ Eg) in Hk.
  destruct (decide (k < required_before fields n)) as [Hlt|Hge].
  - destruct IH as (i & Hi & Hm); [lia|lia|]. exists i. split; [lia|done].
  - exists n. split; [lia|]. unfold marked_by. rewrite Eg. destruct (is_required g); [|lia].
    apply Z.eqb_eq. lia.
Qed.

(** The number of required fields the decoder tracks is exact. *)
Lemma last_field_run fields n dest i it k :
  table_ok fields n -> dest <> 0 -> iter_at fields n dest i it -> (n - i <= k)%nat ->
  ∃ ty it' f, last_field_loop k it = Some (required_before fields (n - 1), ty, it') ∧
    iter_at fields n dest 0 it' ∧ fields !! (n - 1)%nat = Some f ∧ ty = ftype f.
Proof.
  intros Htab Hd. revert i it; induction k as [|k IH]; intros i it Hi Hk.
  { pose proof (at_lt _ _ _ _ _ Hi). lia. }
  destruct (iter_at_field _ _ _ Htab _ _ Hi) as (f & Hf & Ef & _).
  destruct (iter_next_at fields n dest Htab _ _ Hd Hi) as (it' & E & Hi').
  cbn [last_field_loop]. rewrite Hf. simpl. rewrite E. simpl.
  destruct (S i <? n)%nat eqn:En.
  - apply Nat.ltb_lt in En. eapply IH; [exact Hi'|lia].
  - apply Nat.ltb_ge in En. pose proof (at_lt _ _ _ _ _ Hi).
    exists (ftype f), it', f. rewrite (at_index _ _ _ _ _ Hi).
    replace (n - 1)%nat with i by lia. done.
Qed.

Lemma tracked_run fields n dest i it :
  table_ok fields n -> dest <> 0 -> iter_at fields n dest i it ->
  tracked_required it = Some (Z.min 64 (required_before fields n)).
Proof.
  intros Htab Hd Hi. unfold tracked_required. rewrite (at_start _ _ _ _ _ Hi).
  destruct (last_field_run fields n dest i it (length fields) Htab Hd Hi)
    as (ty & it' & f & E & Hi' & Ef & ->); [rewrite (table_length _ _ Htab); lia|].
  rewrite E. simpl. destruct (iter_at_field _ _ _ Htab _ _ Hi') as (g & Hg & _ & Htag).
  rewrite Hg. simpl. apply Z.eqb_neq in Htag. rewrite Htag. simpl (negb _). rewrite andb_true_r.
  pose proof (table_some _ _ Htab). pose proof (required_before_S _ _ _ Ef) as HS.
  replace (S (n - 1)) with n in HS by lia. rewrite HS. unfold is_required, PB_MAX_REQUIRED_FIELDS.
  f_equal. destruct (PB_HTYPE (ftype f) =? PB_HTYPE_REQUIRED);
    match goal with |- context [64 <? ?x] => destruct (64 <? x) eqn:E64 end; bool_to_prop; lia.
Qed.

Lemma all_present fields n seen found w0 w1 :
  table_ok fields n -> marks seen (met fields found) w0 w1 ->
  (∀ i, i ∈ found -> (i < n)%nat) ->
  (∀ i f, (i < n)%nat -> fields !! i = Some f -> is_required f = true -> i ∈ found) ->
  required_present seen (Z.min 64 (required_before fields n)) = Some true.
Proof.
  intros Htab Hm Hin Hall. pose proof (table_length _ _ Htab) as Hlen.
  assert (0 <= required_before fields n) by (unfold required_before; lia).
  rewrite <- (Z2Nat.id (Z.min 64 (required_before fields n))) by lia.
  rewrite (required_present_marks _ _ _ _ _ Hm); [|lia|].
  - f_equal. apply forallb_forall. intros k Hk. apply list_elem_of_In, elem_of_seq in Hk.
    destruct (required_before_onto fields n (Z.of_nat k)) as (i & Hi & Hmark); [lia|lia|].
    apply existsb_exists. exists i. split; [|done]. apply list_elem_of_In.
    unfold marked_by in Hmark. destruct (fields !! i) as [f|] eqn:Ef; [|done].
    apply andb_true_iff in Hmark as [Hr _]. by apply (Hall i f).
  - intros k Hk. apply not_true_is_false. intros (i & Hi & Hmark)%existsb_exists.
    apply list_elem_of_In, Hin in Hi. unfold marked_by in Hmark.
    destruct (fields !! i) as [f|] eqn:Ef; [|done]. bool_to_prop.
    pose proof (required_before_lt fields i n f ltac:(lia) Ef ltac:(done)). lia.
Qed.

(** * Decoding what was encoded: the message loop

    [pb_decode_noinit] on the chunks of the fields of a structure, in any
    order and with unknown fields in between, rebuilds every field. *)

(** ** Arrangements

    What may follow on the wire: the chunk of a field, or a field the message
    type does not have. *)
Inductive item := Known (i : nat) | Unknown (wt tag : Z) (v : list Z).

Definition item_bytes (cs : list (list Z)) (it : item) : list Z :=
  match it with
  | Known i => default [] (cs !! i)
  | Unknown wt tag v => wire_tag wt tag ++ v
  end.

(** A field with a tag that is not in the table, and a value of its type. *)
Definition unknown_field (fields : list pb_field_t) (wt tag : Z) (v : list Z) : Prop :=
  0 < tag < 2 ^ 29 ∧ Forall (fun f => ftag f <> tag) fields ∧ value_shape wt v ∧
  Z.of_nat (length v) < 2 ^ 32.

(** Every field with a chunk comes exactly once; [found] were there before. *)
Fixpoint arranged (fields : list pb_field_t) (cs : list (list Z)) (found : list nat)
    (items : list item) : Prop :=
  match items with
  | [] => Forall (fun i => (i ∈ found) \/ cs !! i = Some []) (seq 0 (length cs))
  | Known i :: items =>
      (i < length cs)%nat ∧ (i ∉ found) ∧ arranged fields cs (i :: found) items
  | Unknown wt tag v :: items =>
      unknown_field fields wt tag v ∧ arranged fields cs found items
  end.

Section Loop.
Context `{EncEnv} (Rd : Z -> Prop) (fuel fuel' depth : nat).
Context (noinit : list pb_field_t -> Z -> C pb_istream_t unit).
Hypothesis Hno : noinit_inverts Rd fuel depth noinit.

Context (fields : list pb_field_t) (n : nat) (src dest size : Z).
Hypothesis Htab : table_ok fields n.
Hypothesis Hap : fields_apart fields n.
Hypothesis Hfs : ∀ i f o, (i < n)%nat -> fields !! i = Some f -> field_offsets fields !! i = Some o ->
  static_field Rd (single_msg Rd depth) f o size ∧ single_field f o.
Hypothesis Hsrc : 0 < src.
Hypothesis Hdest : 0 < dest.

(** The source, and one chunk of wire form per field. *)
Context (m0 : mstate) (cs : list (list Z)).
Hypothesis Hok0 : bytes_ok m0.
Hypothesis Hcs : ∀ i f o c, (i < n)%nat -> fields !! i = Some f ->
  field_offsets fields !! i = Some o -> cs !! i = Some c ->
  efield fuel (emessage fuel) f (src + o.1) tt m0 = Ret (Some c, tt) m0.
Hypothesis Hlen : length cs = n.
Hypothesis Hsmall : Z.of_nat (length (concat cs)) < 2 ^ 32.

(** The fields [found] are rebuilt, the others cleared. *)
Record loop_state (found : list nat) (l : noinit_locals) (m : mstate) : Prop := {
  ls_iter : ∃ j, iter_at fields n dest j (l_iter l);
  ls_fixed : fixed_count_field l = None;
  ls_seen : ∃ w0 w1, marks (fields_seen l) (met fields found) w0 w1;
  ls_found : ∀ j, j ∈ found -> (j < n)%nat;
  ls_done : ∀ j f o c, j ∈ found -> fields !! j = Some f -> field_offsets fields !! j = Some o ->
    cs !! j = Some c ->
    holds m (at_dest dest (own f o)) (efield fuel (emessage fuel) f (dest + o.1)) c;
  ls_todo : ∀ j f o, (j < n)%nat -> j ∉ found -> fields !! j = Some f ->
    field_offsets fields !! j = Some o -> cleared_field depth f o dest m;
}.

Lemma chunk_small i c : cs !! i = Some c -> Z.of_nat (length c) < 2 ^ 32.
Proof.
  intros Hc. apply list_elem_of_split_length in Hc as (l1 & l2 & E & _).
  rewrite E, concat_app in Hsmall. cbn [concat] in Hsmall. rewrite !length_app in Hsmall. lia.
Qed.

(** The other fields do not see a change in one. *)
Lemma state_step found i f o m m' l l' :
  (i < n)%nat -> fields !! i = Some f -> field_offsets fields !! i = Some o ->
  upd (at_dest dest (own f o)) m m' -> loop_state found l m ->
  (∃ j, iter_at fields n dest j (l_iter l')) -> fixed_count_field l' = None ->
  (∃ w0 w1, marks (fields_seen l') (met fields (i :: found)) w0 w1) ->
  (∀ c, cs !! i = Some c ->
     holds m' (at_dest dest (own f o)) (efield fuel (emessage fuel) f (dest + o.1)) c) ->
  loop_state (i :: found) l' m'.
Proof.
  intros Hi Ef Eo U [_ _ _ Hin Hdone Htodo] Hit Hfix Hseen Hc.
  assert (∀ j g p, j <> i -> (j < n)%nat -> fields !! j = Some g ->
    field_offsets fields !! j = Some p -> agree (at_dest dest (own g p)) m m') as Hag.
  { intros j g p Hne Hj Eg Ep. eapply agree_upd; [|exact U]. intros x Hx Hy.
    by eapply (Hap j i g f p o); [lia|lia|done..]. }
  split; [done|done|done| | |].
  - intros j [->|Hj]%elem_of_cons; [done|by apply Hin].
  - intros j g p c Hj Eg Ep Ec. destruct (decide (j = i)) as [->|Hne].
    + simplify_eq. by apply Hc.
    + apply elem_of_cons in Hj as [->|Hj]; [done|].
      eapply holds_agree; [|by apply (Hdone j)]. by apply (Hag j); [done|apply Hin|..].
  - intros j g p Hj [Hne Hnin]%not_elem_of_cons Eg Ep.
    destruct (Hfs j g p Hj Eg Ep) as [Hs Hg].
    eapply cleared_field_agree; [done|done|by apply (Hag j)|]. by apply (Htodo j).
Qed.

(** A field that is present. *)
Lemma known_run found i f o l s m wt v rest m1 :
  i ∉ found ->
  iter_at fields n dest i (l_iter l) -> fields !! i = Some f ->
  field_offsets fields !! i = Some o -> loop_state found l m ->
  cs !! i = Some (wire_tag wt (ftag f) ++ v) ->
  wire_type_of (PB_LTYPE (ftype f)) = Some wt ->
  evalue fuel (emessage fuel) (ftype f) f (src + o.1) tt m0 = Ret (Some v, tt) m1 ->
  reads s m (v ++ rest) -> clear_of (rng dest size) s -> covers (rng dest size) m -> bytes_ok m ->
  ∃ l' m', decode_known fuel' noinit wt l s m = Ret (Some l', adv s (length v)) m' ∧
    upd (rng dest size) m m' ∧ loop_state (i :: found) l' m'.
Proof.
  intros Hnf Hit Ef Eo Hst Ec Hwt Ev Hr Hcl Hcov Hok. pose proof (at_lt _ _ _ _ _ Hit) as Hi.
  destruct (Hfs i f o Hi Ef Eo) as [Hs Hg].
  destruct (iter_at_field _ _ _ Htab _ _ Hit) as (f' & Hf' & Ef' & _).
  rewrite Ef in Ef'. injection Ef' as <-.
  pose proof (size_place _ _ _ _ Ef Eo (sf_htype _ _ _ _ _ Hs)) as Ho.
  destruct (at_data _ _ _ _ _ Hit) as (o' & Eo' & Hpd & Hps). rewrite Eo in Eo'.
  injection Eo' as <-. destruct Hps as [Hps|[_ (g & Eg & Hh)]].
  2: { rewrite Ef in Eg. injection Eg as <-. by apply (sg_htype _ _ Hg) in Hh. }
  pose proof (sg_htype _ _ Hg) as Hrep. pose proof (sf_htype _ _ _ _ _ Hs) as Hone.
  apply Z.eqb_neq in Hrep, Hone.
  unfold decode_known. erewrite bind_some.
  2: { unfold enter_fixed_count. rewrite (bind_defined _ _ _ _ _ Hf'), Hrep. reflexivity. }
  destruct (ls_seen _ _ _ Hst) as (w0 & w1 & Hm).
  destruct (mark_seen_run _ _ _ _ _ _ s m _ _ _ Htab Hit Ef Hm) as (seen & v0 & v1 & Em & Hm').
  rewrite (bind_some _ _ _ _ _ _ _ Em). cbn [l_iter fixed_count_size fields_seen
    extension_range_start fixed_count_field].
  assert (∀ x, at_dest dest (own f o) x -> rng dest size x) as Hin.
  { intros x Hx. pose proof (own_inside _ _ _ _ _ _ Hs Hg Hx). unfold rng. lia. }
  assert (Z.of_nat (length v) < 2 ^ 32) as Hv.
  { pose proof (chunk_small _ _ Ec) as Hcl'. rewrite length_app in Hcl'. lia. }
  destruct (static_field_run Rd fuel fuel' depth noinit Hno f o size src dest m0 v m1 wt (l_iter l)
    (fixed_count_size l) Hs Hg Ho Hf' Hpd Hps Hsrc Hdest Hok0 Hv Hwt Ev s m rest Hr)
    as (r & m' & E & U & -> & Hh);
    [by eapply clear_mono|intros x Hx; by apply Hcov, Hin|done|
     by apply (ls_todo _ _ _ Hst i)|].
  erewrite bind_some.
  2: { unfold decode_field. rewrite (bind_defined _ _ _ _ _ Hf'), Hone, bind_ret.
       rewrite (bind_defined _ _ _ _ _ Hf'). cbv zeta. rewrite (sf_atype _ _ _ _ _ Hs).
       simpl (_ =? _). cbv iota. rewrite (bind_some _ _ _ _ _ _ _ E). reflexivity. }
  eexists _, m'. split; [reflexivity|]. split; [by eapply upd_mono|].
  eapply state_step; [exact Hi|exact Ef|exact Eo|exact U|exact Hst|eauto|apply Hst|eauto|].
  intros c Ec'. rewrite Ec in Ec'. by injection Ec' as <-.
Qed.

(** Searching the tag leads to the field. *)
Lemma find_run i f o j it :
  (i < n)%nat -> fields !! i = Some f -> field_offsets fields !! i = Some o ->
  iter_at fields n dest j it ->
  ∃ it', pb_field_iter_find it (ftag f) = Some (true, it') ∧ iter_at fields n dest i it'.
Proof.
  intros Hi Ef Eo Hit.
  destruct (iter_find_ok fields n dest Htab j it (ftag f) ltac:(lia) Hit)
    as (b & it' & k & E & Hk & Hb). exists it'.
  destruct (Hfs i f o Hi Ef Eo) as [Hs _]. pose proof (sf_not_ext _ _ _ _ _ Hs) as Hne.
  apply Z.eqb_neq in Hne. destruct b.
  - split; [done|]. destruct Hb as (g & Eg & Hm). unfold matches in Hm. bool_to_prop.
    destruct (decide (k = i)) as [->|Hki]; [done|exfalso].
    destruct (offsets_total _ _ _ Eg) as [p Ep].
    by destruct (Hap k i g f p o (at_lt _ _ _ _ _ Hk) Hi Hki Eg Ef Ep Eo) as [? _].
  - destruct Hb as [_ Hb]. specialize (Hb i f Hi Ef). unfold matches in Hb.
    by rewrite Z.eqb_refl, Hne in Hb.
Qed.

(** A field that is absent: nothing is read. *)
Lemma absent_step found i f o l m :
  (i < n)%nat -> i ∉ found -> fields !! i = Some f -> field_offsets fields !! i = Some o ->
  PB_HTYPE (ftype f) = PB_HTYPE_OPTIONAL -> cs !! i = Some [] ->
  loop_state found l m -> loop_state (i :: found) l m.
Proof.
  intros Hi Hnf Ef Eo Hh Ec Hst. destruct (Hfs i f o Hi Ef Eo) as [Hs Hg].
  eapply state_step; [exact Hi|exact Ef|exact Eo|apply upd_refl|exact Hst|apply Hst..| |].
  - destruct (ls_seen _ _ _ Hst) as (w0 & w1 & Hm). exists w0, w1.
    eapply marks_ext; [|exact Hm]. intros k _. unfold met. cbn [existsb].
    unfold marked_by at 2. rewrite Ef. unfold is_required. by rewrite Hh.
  - intros c Ec'. rewrite Ec in Ec'. injection Ec' as <-.
    eapply absent_holds; [done|done|eapply size_place; [done..|apply Hs]|done|].
    by apply (ls_todo _ _ _ Hst i f o).
Qed.

Lemma no_extension_range i it :
  iter_at fields n dest i it ->
  ∃ it', find_extension_field it = Some (false, it') ∧ iter_at fields n dest i it'.
Proof.
  intros Hi. unfold find_extension_field. rewrite (at_start _ _ _ _ _ Hi), (at_pos _ _ _ _ _ Hi).
  destruct (search_ok fields n dest Htab (fun f => PB_LTYPE (ftype f) =? PB_LTYPE_EXTENSION)
    find_extension_loop i it) as (b & it' & j & E & Hj & Hb); [|lia|done|].
  { intros fl sp it0 f Hf. simpl. rewrite Hf. simpl. done. }
  destruct b; [|destruct Hb as [-> _]; eauto]. destruct Hb as (f & Hf & He). bool_to_prop.
  destruct (offsets_total _ _ _ Hf) as [o Ho].
  by apply (sf_not_ext _ _ _ _ _ (proj1 (Hfs j f o (at_lt _ _ _ _ _ Hj) Hf Ho))) in He.
Qed.

(** A field that is not in the table is skipped. *)
Lemma unknown_run found l s m wt tag v rest :
  loop_state found l m -> unknown_field fields wt tag v -> reads s m (v ++ rest) ->
  ∃ it l', pb_field_iter_find (l_iter l) tag = Some (false, it) ∧
    decode_unknown fuel' noinit tag wt (mk_locals it (fields_seen l) (extension_range_start l)
      (fixed_count_field l) (fixed_count_size l)) s m = Ret (Some l', adv s (length v)) m ∧
    loop_state found l' m.
Proof.
  intros Hst (Htag & Hno' & Hshape & Hv) Hr. destruct (ls_iter _ _ _ Hst) as (j & Hj).
  destruct (iter_find_ok fields n dest Htab j _ tag ltac:(lia) Hj) as (b & it & k & E & Hk & Hb).
  destruct b.
  { exfalso. destruct Hb as (f & Ef & Hm). unfold matches in Hm. bool_to_prop.
    rewrite Forall_lookup in Hno'. by eapply Hno'. }
  destruct (parses_skip_field wt s m _ Hr) as [Eskip _]. rewrite (skip_shape _ _ _ Hshape Hv) in Eskip.
  simpl in Eskip. exists it. unfold decode_unknown. cbn [l_iter extension_range_start fields_seen
    fixed_count_field fixed_count_size].
  destruct (extension_range_start l <=? tag) eqn:Er.
  - destruct (no_extension_range k it Hk) as (it' & Ex & Hit').
    exists (mk_locals it' (fields_seen l) (2 ^ 32 - 1) (fixed_count_field l) (fixed_count_size l)).
    split; [done|]. split; [|destruct Hst; split; simpl; eauto].
    erewrite bind_some; [|rewrite (bind_defined _ _ _ _ _ Ex); cbn [fst snd negb];
      rewrite bind_ret; change (u32 (-1)) with (2 ^ 32 - 1); cbv zeta;
      destruct (2 ^ 32 - 1 <=? tag) eqn:El; bool_to_prop; [lia|reflexivity]].
    cbn [fst snd]. by rewrite (bind_some _ _ _ _ _ _ _ Eskip).
  - exists (mk_locals it (fields_seen l) (extension_range_start l) (fixed_count_field l)
      (fixed_count_size l)).
    split; [done|]. split; [|destruct Hst; split; simpl; eauto].
    rewrite bind_ret. cbn [fst snd]. by rewrite (bind_some _ _ _ _ _ _ _ Eskip).
Qed.

(** ** All items *)

Lemma loop_step k l s m wt tag rest :
  0 <= wt < 8 -> 0 < tag < 2 ^ 29 -> reads s m (wire_tag wt tag ++ rest) ->
  noinit_loop fuel' noinit (S k) l s m =
    (r ← defined (pb_field_iter_find (l_iter l) tag);
     l ← (let l := mk_locals r.2 (fields_seen l) (extension_range_start l)
                             (fixed_count_field l) (fixed_count_size l) in
          if (r.1 : bool) then decode_known fuel' noinit wt l
          else decode_unknown fuel' noinit tag wt l);
     noinit_loop fuel' noinit k l) (adv s (length (wire_tag wt tag))) m ∧
  reads (adv s (length (wire_tag wt tag))) m rest ∧ (1 <= length (wire_tag wt tag))%nat.
Proof.
  intros Hwt Htag Hr.
  assert (1 <= length (wire_tag wt tag))%nat as Ht by (apply length_varint_bytes).
  pose proof (reads_left _ _ _ Hr) as Hleft. rewrite length_app in Hleft. split; [|split; [|done]].
  - cbn [noinit_loop]. rewrite bind_get.
    destruct (bytes_left s =? 0) eqn:E0; bool_to_prop; [lia|].
    by rewrite (bind_some _ _ _ _ _ _ _ (decode_tag_run s m wt tag rest Hwt Htag Hr)).
  - pose proof (reads_adv _ _ _ (length (wire_tag wt tag)) Hr) as Hr1.
    rewrite drop_app_length in Hr1. apply Hr1. rewrite length_app. lia.
Qed.

Lemma shape_range wt v : value_shape wt v -> 0 <= wt < 8.
Proof. intros []; by vm_compute. Qed.

Definition complete (found : list nat) : Prop :=
  Forall (fun i => (i ∈ found) \/ cs !! i = Some []) (seq 0 (length cs)).

(** The loop, with [len] bytes ahead, ends well. *)
Definition loop_ends (k len : nat) (l : noinit_locals) (s s0 : pb_istream_t) (m m0 : mstate) : Prop :=
  ∃ found l' m', noinit_loop fuel' noinit k l s m = Ret (Some l', adv s0 len) m' ∧
    upd (rng dest size) m0 m' ∧ loop_state found l' m' ∧ complete found.

Definition loop_runs (items : list item) : Prop :=
  ∀ found k l s m,
  arranged fields cs found items -> loop_state found l m ->
  reads s m (concat (item_bytes cs <$> items)) ->
  clear_of (rng dest size) s -> covers (rng dest size) m -> bytes_ok m ->
  (length (concat (item_bytes cs <$> items)) <= k)%nat ->
  loop_ends k (length (concat (item_bytes cs <$> items))) l s s m m.

(** The rest of the loop, after a tag of [t] bytes and a value [v]. *)
Lemma loop_next items found k l s m t v m1 :
  loop_runs items -> reads (adv s t) m (v ++ concat (item_bytes cs <$> items)) ->
  clear_of (rng dest size) s -> covers (rng dest size) m -> bytes_ok m ->
  upd (rng dest size) m m1 -> loop_state found l m1 -> arranged fields cs found items ->
  (length (concat (item_bytes cs <$> items)) <= k)%nat ->
  loop_ends k (t + length v + length (concat (item_bytes cs <$> items))) l
    (adv (adv s t) (length v)) s m1 m.
Proof.
  intros Hrun Hr Hcl Hcov Hok U Hst Har Hk.
  assert (clear_of (rng dest size) (adv (adv s t) (length v))) as Hcl' by (by do 2 apply clear_adv).
  destruct (Hrun found k l (adv (adv s t) (length v)) m1) as (found' & l' & m' & E & U' & Hst' & Hc);
    [done|done| |done|by eapply covers_upd|by apply (upd_bytes _ _ _ U)|done|].
  { eapply reads_upd; [exact Hcl'|exact U|].
    pose proof (reads_adv _ _ _ (length v) Hr) as Hr'. rewrite drop_app_length in Hr'.
    apply Hr'. rewrite length_app. lia. }
  exists found', l', m'. rewrite E, !adv_adv.
  split; [do 3 f_equal; lia|]. split; [by eapply upd_trans|done].
Qed.

Lemma unknown_item items found k l s m wt tag v :
  loop_runs items -> unknown_field fields wt tag v -> arranged fields cs found items ->
  loop_state found l m ->
  reads s m ((wire_tag wt tag ++ v) ++ concat (item_bytes cs <$> items)) ->
  clear_of (rng dest size) s -> covers (rng dest size) m -> bytes_ok m ->
  (length ((wire_tag wt tag ++ v) ++ concat (item_bytes cs <$> items)) <= k)%nat ->
  loop_ends k (length ((wire_tag wt tag ++ v) ++ concat (item_bytes cs <$> items))) l s s m m.
Proof.
  intros Hrun Hu Har Hst Hr Hcl Hcov Hok Hk. rewrite <- app_assoc in Hr. rewrite !length_app in *.
  pose proof Hu as (Htag & _ & Hsh & _).
  destruct k as [|k].
  { pose proof (length_varint_bytes (u64 (8 * tag) + wt)). unfold wire_tag in Hk. lia. }
  destruct (loop_step k l s m wt tag _ (shape_range _ _ Hsh) Htag Hr) as (E & Hr1 & Ht).
  destruct (unknown_run found l _ m wt tag v _ Hst Hu Hr1) as (it & l1 & Ef & E1 & Hst1).
  unfold loop_ends. rewrite E, (bind_defined _ _ _ _ _ Ef). cbn [fst snd]. cbv zeta.
  rewrite (bind_some _ _ _ _ _ _ _ E1).
  eapply loop_next; [done|exact Hr1|done..|apply upd_refl|exact Hst1|done|lia].
Qed.

Lemma known_item items found k l s m i c :
  loop_runs items -> (i < n)%nat -> i ∉ found -> cs !! i = Some c ->
  arranged fields cs (i :: found) items -> loop_state found l m ->
  reads s m (c ++ concat (item_bytes cs <$> items)) ->
  clear_of (rng dest size) s -> covers (rng dest size) m -> bytes_ok m ->
  (length (c ++ concat (item_bytes cs <$> items)) <= k)%nat ->
  loop_ends k (length (c ++ concat (item_bytes cs <$> items))) l s s m m.
Proof.
  intros Hrun Hi Hnf Ec Har Hst Hr Hcl Hcov Hok Hk.
  destruct (lookup_lt_is_Some_2 fields i) as [f Ef]; [rewrite (table_length _ _ Htab); lia|].
  destruct (offsets_total _ _ _ Ef) as [o Eo]. destruct (Hfs i f o Hi Ef Eo) as [Hs Hg].
  pose proof (sf_low _ _ _ _ _ Hs) as Hlow. assert (src + o.1 <> 0) as Hp by lia.
  destruct (efield_inv fuel _ _ _ _ _ _ _ _ Hs Hg Hp (Hcs i f o c Hi Ef Eo Ec))
    as [[Hh ->]|(wt & v & m1 & Hwt & -> & Ev)].
  { eapply Hrun; [exact Har| |done..]. by eapply absent_step. }
  assert (0 < ftag f < 2 ^ 29) as Htag.
  { pose proof (ok_tag _ (sf_typed _ _ _ _ _ Hs)) as Hu. pose proof (sg_tag _ _ Hg).
    pose proof (table_fields _ _ Htab i f Hi Ef). unfold is_u32 in Hu. lia. }
  rewrite <- app_assoc in Hr. rewrite !length_app in *. destruct k as [|k].
  { pose proof (length_varint_bytes (u64 (8 * ftag f) + wt)). unfold wire_tag in Hk. lia. }
  destruct (loop_step k l s m wt (ftag f) _ (wire_type_range _ _ Hwt) Htag Hr) as (E & Hr1 & Ht).
  destruct (ls_iter _ _ _ Hst) as (j & Hj).
  destruct (find_run i f o j _ Hi Ef Eo Hj) as (it' & Efind & Hit').
  unfold loop_ends. rewrite E, (bind_defined _ _ _ _ _ Efind). cbn [fst snd]. cbv zeta.
  set (l1 := mk_locals it' _ _ _ _).
  assert (loop_state found l1 m) as Hst1 by (destruct Hst; split; simpl; eauto).
  destruct (known_run found i f o l1 _ m wt v _ m1 Hnf Hit' Ef Eo Hst1 Ec Hwt Ev Hr1
    (clear_adv _ _ _ Hcl) Hcov Hok) as (l2 & m2 & E2 & U2 & Hst2).
  rewrite (bind_some _ _ _ _ _ _ _ E2).
  eapply loop_next; [done|exact Hr1|done..|exact U2|exact Hst2|done|lia].
Qed.

Lemma loop_run items : loop_runs items.
Proof.
  induction items as [|[i|wt tag v] items IH];
    intros found k l s m Har Hst Hr Hcl Hcov Hok Hk; cbn [arranged] in Har.
  - exists found, l, m. rewrite adv_0. split; [|split; [apply upd_refl|done]].
    pose proof (reads_left _ _ _ Hr) as Hl. destruct k; cbn [noinit_loop]; by rewrite bind_get, Hl.
  - destruct Har as (Hi & Hnf & Har). rewrite Hlen in Hi.
    destruct (lookup_lt_is_Some_2 cs i) as [c Ec]; [lia|].
    rewrite fmap_cons in *. cbn [concat item_bytes] in *. rewrite Ec in *. simpl (default _ _) in *.
    by eapply known_item.
  - destruct Har as (Hu & Har). rewrite fmap_cons in *. cbn [concat item_bytes] in *.
    by eapply unknown_item.
Qed.
(** ** The whole function *)

Lemma empty_chunk i f o :
  (i < n)%nat -> fields !! i = Some f -> field_offsets fields !! i = Some o ->
  cs !! i = Some [] -> PB_HTYPE (ftype f) = PB_HTYPE_OPTIONAL.
Proof.
  intros Hi Ef Eo Ec. destruct (Hfs i f o Hi Ef Eo) as [Hs Hg].
  pose proof (sf_low _ _ _ _ _ Hs) as Hlow. assert (src + o.1 <> 0) as Hp by lia.
  destruct (efield_inv fuel _ _ _ _ _ _ _ _ Hs Hg Hp (Hcs i f o [] Hi Ef Eo Ec))
    as [[Hh _]|(wt & v & m1 & _ & E & _)]; [done|].
  apply (f_equal length) in E. rewrite length_app in E. unfold wire_tag in E.
  pose proof (length_varint_bytes (u64 (8 * ftag f) + wt)). simpl in E. lia.
Qed.

Lemma state_fields found l m i f o c :
  loop_state found l m -> complete found -> (i < n)%nat -> fields !! i = Some f ->
  field_offsets fields !! i = Some o -> cs !! i = Some c ->
  holds m (at_dest dest (own f o)) (efield fuel (emessage fuel) f (dest + o.1)) c.
Proof.
  intros Hst Hcomp Hi Ef Eo Ec. destruct (decide (i ∈ found)) as [Hin|Hout].
  { by apply (ls_done _ _ _ Hst i). }
  unfold complete in Hcomp. rewrite Forall_lookup in Hcomp.
  destruct (Hcomp i i) as [?|Ec0]; [rewrite Hlen; by apply lookup_seq_lt|done|].
  rewrite Ec in Ec0. injection Ec0 as ->. destruct (Hfs i f o Hi Ef Eo) as [Hs Hg].
  pose proof (empty_chunk _ _ _ Hi Ef Eo Ec) as Hh.
  eapply absent_holds; [done|done|eapply size_place; [done..|apply Hs]|done|].
  by apply (ls_todo _ _ _ Hst i f o).
Qed.

Lemma state_holds found l m :
  loop_state found l m -> complete found ->
  holds m (rng dest size) (elist fuel (placed fields dest)) (concat cs).
Proof.
  intros Hst Hcomp. apply elist_holds. apply Forall2_same_length_lookup. split.
  { by rewrite (length_placed _ _ _ Htab). }
  intros i [f p] c Hp Hc. assert (i < n)%nat as Hi by (rewrite <- Hlen; by eapply lookup_lt_Some).
  destruct (lookup_lt_is_Some_2 fields i) as [g Eg]; [rewrite (table_length _ _ Htab); lia|].
  destruct (offsets_total _ _ _ Eg) as [o Eo]. destruct (Hfs i g o Hi Eg Eo) as [Hs Hg].
  rewrite (placed_lookup _ _ _ _ _ _ Htab Hi Eg Eo) in Hp. injection Hp as <- <-.
  eapply holds_mono; [|by eapply state_fields].
  intros x Hx. pose proof (own_inside _ _ _ _ _ _ Hs Hg Hx). unfold rng. lia.
Qed.

(** The test at the end finds every required field marked. *)
Lemma state_present found l m :
  loop_state found l m -> complete found ->
  required_present (fields_seen l) (Z.min 64 (required_before fields n)) = Some true.
Proof.
  intros Hst Hcomp. destruct (ls_seen _ _ _ Hst) as (w0 & w1 & Hm).
  eapply all_present; [exact Htab|exact Hm|apply Hst|]. intros i f Hi Ef Hr.
  destruct (decide (i ∈ found)) as [|Hout]; [done|exfalso].
  unfold complete in Hcomp. rewrite Forall_lookup in Hcomp.
  destruct (Hcomp i i) as [?|Ec0]; [rewrite Hlen; by apply lookup_seq_lt|done|].
  destruct (offsets_total _ _ _ Ef) as [o Eo]. pose proof (empty_chunk _ _ _ Hi Ef Eo Ec0) as Hh.
  unfold is_required in Hr. by rewrite Hh in Hr.
Qed.

Lemma body_run items s m :
  arranged fields cs [] items -> cleared (S depth) fields dest m ->
  reads s m (concat (item_bytes cs <$> items)) ->
  clear_of (rng dest size) s -> covers (rng dest size) m -> bytes_ok m ->
  ∃ m', noinit_body fuel' noinit fields dest s m =
      Ret (Some tt, adv s (length (concat (item_bytes cs <$> items)))) m' ∧
    upd (rng dest size) m m' ∧
    holds m' (rng dest size) (elist fuel (placed fields dest)) (concat cs) ∧
    ∀ i f o c, (i < n)%nat -> fields !! i = Some f -> field_offsets fields !! i = Some o ->
      cs !! i = Some c ->
      efield fuel (emessage fuel) f (dest + o.1) tt m' = Ret (Some c, tt) m'.
Proof.
  intros Har Hcl0 Hr Hcl Hcov Hok.
  destruct (iter_begin_at _ _ dest Htab ltac:(lia)) as (it & E & Hit).
  unfold noinit_body. rewrite (bind_defined _ _ _ _ _ E), bind_get. cbn [fst snd].
  destruct (loop_run items [] (Z.to_nat (bytes_left s)) (mk_locals it [0; 0] 0 None 0) s m)
    as (found & l & m' & El & U & Hst & Hcomp); [done| |done..|by rewrite (reads_left _ _ _ Hr), Nat2Z.id|].
  { split; [by exists 0%nat|done| |by intros ? ?%elem_of_nil|by intros ? ? ? ? ?%elem_of_nil|].
    - exists 0, 0. split; [done|by split|..]; intros i Hi; by rewrite Z.bits_0.
    - intros j f o Hj _ Ef Eo. apply (Hcl0 j); [rewrite (table_length _ _ Htab); lia|done..]. }
  rewrite (bind_some _ _ _ _ _ _ _ El).
  erewrite bind_defined; [|unfold fixed_count_incomplete; by rewrite (ls_fixed _ _ _ Hst)].
  destruct (ls_iter _ _ _ Hst) as (j & Hj).
  rewrite (bind_defined _ _ _ _ _ (tracked_run fields n dest j _ Htab ltac:(lia) Hj)).
  rewrite (bind_defined _ _ _ _ _ (state_present _ _ _ Hst Hcomp)).
  exists m'. split; [done|]. split; [done|]. split; [by eapply state_holds|].
  intros i f o c Hi Ef Eo Ec. eapply holds_run. by eapply state_fields.
Qed.
End Loop.

(** ** All nesting levels *)

(** The fields in descriptor order. *)
Definition in_order (cs : list (list Z)) : list item := Known <$> seq 0 (length cs).

Lemma in_order_arranged fields cs : arranged fields cs [] (in_order cs).
Proof.
  assert (∀ k i found, (i + k = length cs)%nat -> (∀ j, (j ∈ found) <-> (j < i)%nat) ->
    arranged fields cs found (Known <$> seq i k)) as G.
  { induction k as [|k IH]; intros i found Hi Hf; simpl.
    - apply Forall_forall. intros j Hj. left. apply Hf. apply list_elem_of_In, elem_of_seq in Hj. lia.
    - split; [lia|]. split; [rewrite Hf; lia|]. apply IH; [lia|].
      intros j. rewrite elem_of_cons, Hf. lia. }
  apply G; [lia|]. intros j. rewrite elem_of_nil. lia.
Qed.

Lemma in_order_bytes cs : concat (item_bytes cs <$> in_order cs) = concat cs.
Proof.
  f_equal. unfold in_order. apply list_eq. intros i. rewrite !list_lookup_fmap.
  destruct (decide (i < length cs)%nat) as [Hi|Hi].
  - rewrite lookup_seq_lt by done. simpl. destruct (lookup_lt_is_Some_2 cs i Hi) as [c Ec].
    by rewrite Ec.
  - rewrite lookup_seq_ge by lia. simpl. symmetry. apply lookup_ge_None. lia.
Qed.

(** The chunks of a source structure. *)
Definition chunks `{EncEnv} (fuel : nat) (fields : list pb_field_t) (p : Z) (m0 : mstate)
    (cs : list (list Z)) : Prop :=
  S (length cs) = length fields ∧
  ∀ i f o c, fields !! i = Some f -> field_offsets fields !! i = Some o ->
    cs !! i = Some c -> efield fuel (emessage fuel) f (p + o.1) tt m0 = Ret (Some c, tt) m0.

Lemma source_chunks `{EncEnv} Rd fuel depth fields size p m0 l m1 :
  single_msg Rd depth fields size -> 0 < p -> bytes_ok m0 ->
  emessage (S fuel) fields p tt m0 = Ret (Some l, tt) m1 ->
  ∃ cs, l = concat cs ∧ chunks fuel fields p m0 cs.
Proof.
  intros Hs Hp Hb E.
  rewrite (emessage_list fuel Rd depth fields size p m0 Hs ltac:(lia)) in E.
  destruct depth as [|depth]; [done|]. destruct Hs as (n & Htab & _ & Hfs).
  destruct (elist_chunks fuel (placed fields p) m0 l m1) as (cs & -> & Hcs); [|done|done|].
  { apply Forall_lookup. intros i [f q] Hi.
    assert (i < n)%nat by (rewrite <- (length_placed _ _ p Htab); by eapply lookup_lt_Some).
    destruct (lookup_lt_is_Some_2 fields i) as [g Eg]; [rewrite (table_length _ _ Htab); lia|].
    destruct (offsets_total _ _ _ Eg) as [o Eo].
    rewrite (placed_lookup _ _ _ _ _ _ Htab ltac:(done) Eg Eo) in Hi. injection Hi as <- <-.
    by apply (Hfs i g o). }
  assert (length cs = n) as Hlen.
  { rewrite <- (Forall2_length Hcs). by apply length_placed. }
  exists cs. split; [done|]. split; [rewrite (table_length _ _ Htab); lia|].
  intros i f o c Ef Eo Ec. assert (i < n)%nat as Hi by (rewrite <- Hlen; by eapply lookup_lt_Some).
  exact (Forall2_lookup_lr _ _ _ _ _ _ Hcs (placed_lookup _ _ _ _ _ _ Htab Hi Ef Eo) Ec).
Qed.

Lemma holds_ext m R (e e' : C unit (list Z)) v :
  (∀ m', e tt m' = e' tt m') -> holds m R e v -> holds m R e' v.
Proof. intros He Hh m' Ha. rewrite <- He. by apply Hh. Qed.

(** [pb_decode_noinit] on any arrangement of the chunks of a structure. *)
Lemma noinit_arranged `{EncEnv} Rd fuel depth fuel' fields size p d m0 cs items s m :
  noinit_inverts Rd fuel depth (pb_decode_noinit fuel') ->
  single_msg Rd (S depth) fields size -> 0 < p -> 0 < d -> bytes_ok m0 ->
  chunks fuel fields p m0 cs -> Z.of_nat (length (concat cs)) < 2 ^ 32 ->
  arranged fields cs [] items -> reads s m (concat (item_bytes cs <$> items)) ->
  clear_of (rng d size) s -> covers (rng d size) m -> bytes_ok m ->
  cleared (S depth) fields d m ->
  ∃ m', pb_decode_noinit (S fuel') fields d s m =
      Ret (Some tt, adv s (length (concat (item_bytes cs <$> items)))) m' ∧
    upd (rng d size) m m' ∧ holds m' (rng d size) (emessage (S fuel) fields d) (concat cs) ∧
    chunks fuel fields d m' cs.
Proof.
  intros Hno Hs Hp Hd Hb [Hl Hcs] Hsm Har Hr Hcl Hcov Hok Hc. pose proof Hs as (n & Htab & Hap & Hfs).
  pose proof (table_length _ _ Htab) as Htl.
  destruct (body_run Rd fuel fuel' depth (pb_decode_noinit fuel') Hno fields n p d size Htab Hap
    Hfs Hp Hd m0 cs Hb ltac:(eauto) ltac:(lia) Hsm items s m Har Hc Hr Hcl Hcov Hok)
    as (m' & Er & U & Hh & Hf).
  exists m'. split; [done|]. split; [done|]. split.
  - eapply holds_ext; [|exact Hh]. intros m''. symmetry. eapply emessage_list; [exact Hs|lia].
  - split; [done|]. intros i f o c Ef Eo Ec. apply (Hf i); [|done..].
    apply lookup_lt_Some in Ec. lia.
Qed.

Lemma noinit_inverts_all `{EncEnv} Rd fuel depth fuel' :
  (depth <= fuel')%nat -> noinit_inverts Rd fuel depth (pb_decode_noinit fuel').
Proof.
  revert fuel fuel'; induction depth as [|depth IH]; intros fuel fuel' Hdep;
    [by intros ? ? ? ? ? ? ? []|].
  intros fields size p d l m0 m1 Hs Hp Hd Hb E Hl.
  destruct fuel' as [|fuel']; [lia|]. destruct fuel as [|fuel]; [done|].
  destruct (source_chunks _ _ _ _ _ _ _ _ _ Hs Hp Hb E) as (cs & -> & Hcs).
  intros s m Hr Hcl Hcov Hok Hc. rewrite <- in_order_bytes in Hr.
  destruct (noinit_arranged Rd fuel depth fuel' fields size p d m0 cs (in_order cs) s m
    (IH fuel fuel' ltac:(lia)) Hs Hp Hd Hb Hcs Hl (in_order_arranged _ _) Hr Hcl Hcov Hok Hc)
    as (m' & Er & U & Hh & _).
  rewrite in_order_bytes in Er. exists tt, m'. done.
Qed.
