(* ===== verification/RoundTrip.v ===== *)
(** * Encoding and decoding a message are inverse

    [pb_encode] into a buffer, then [pb_decode] from it into another
    structure: the second structure has the same wire form, the same fields
    present and the same values. *)

From S2P Require Import Prelude.
From S2P Require Import Memory.
From S2P Require Import MemFacts.
From S2P Require Import PbTypes.
From S2P Require Import PbCommon.
From S2P Require Import PbIStream.
From S2P Require Import PbDecode.
From S2P Require Import PbEncode.
From S2P Require Import PbFields.
From S2P Require Import Cct.
From S2P Require Import WireSpec.
From S2P Require Import VarintSpec.
From S2P Require Import Varint.
From S2P Require Import EncSpec.
From S2P Require Import EncMsg.
From S2P Require Import EncRefine.
From S2P Require Import CctImage.
From S2P Require Import EncodeThms.
From S2P Require Import IterFacts.
From S2P Require Import WireThms.
From S2P Require Import DecSafe.
From S2P Require Import DecStatic.
From S2P Require Import DecodeThms.
From S2P Require Import Transfer.
From S2P Require Import TransferMsg.
From S2P Require Import TransferLoop.

(** ** pb_decode on the chunks of a structure *)

Lemma decode_run `{EncEnv} Rd fe fd depth fields size src dest m0 cs items s m :
  single_msg Rd depth fields size -> (depth <= fd)%nat ->
  0 < src -> 0 < dest -> bytes_ok m0 -> chunks fe fields src m0 cs ->
  Z.of_nat (length (concat cs)) < 2 ^ 32 -> arranged fields cs [] items ->
  reads s m (concat (item_bytes cs <$> items)) ->
  clear_of (rng dest size) s -> state_ok Rd (rng dest size) m ->
  ∃ m', pb_decode fd fields dest s m =
      Ret (Some tt, adv s (length (concat (item_bytes cs <$> items)))) m' ∧
    upd (rng dest size) m m' ∧ wire_form (S fe) fields dest m' (Some (concat cs)) ∧
    chunks fe fields dest m' cs.
Proof.
  intros Hs Hfd Hsrc Hd Hb Hcs Hl Har Hr Hcl Hok.
  destruct (defaults_cleared Rd fd depth fields size dest m Hfd Hd Hs Hok) as (m1 & E1 & U1 & Hc1).
  destruct depth as [|depth]; [done|]. destruct fd as [|fd]; [lia|].
  destruct (noinit_arranged Rd fe depth fd fields size src dest m0 cs items s m1
    (noinit_inverts_all Rd fe depth fd ltac:(lia)) Hs Hsrc Hd Hb Hcs Hl Har)
    as (m2 & E2 & U2 & Hh & Hc2).
  { by eapply reads_upd. } { done. }
  { eapply covers_upd; [exact U1|apply Hok]. } { apply (upd_bytes _ _ _ U1), Hok. } { done. }
  exists m2. split.
  - unfold pb_decode. rewrite (bind_lift _ _ _ _ _ _ E1).
    by rewrite (bind_try _ _ _ _ _ _ _ E2).
  - split; [by eapply upd_trans|]. split; [by eapply holds_run|done].
Qed.

(** ** Values *)

(** Integers and byte arrays whose C object is exactly the encoded value. *)
Definition exact_type (f : pb_field_t) : bool :=
  let l := PB_LTYPE (ftype f) in
  (l =? PB_LTYPE_VARINT) || (l =? PB_LTYPE_UVARINT) || (l =? PB_LTYPE_SVARINT)
  || (l =? PB_LTYPE_FIXED32) && (data_size f =? 4)
  || (l =? PB_LTYPE_FIXED64) && (data_size f =? 8)
  || (l =? PB_LTYPE_FIXED_LENGTH_BYTES).

Definition object (m : mstate) (a : Z) (f : pb_field_t) : option (list Z) :=
  mread (mem m) a (Z.to_nat (data_size f)).

Lemma varint_bytes_inj x y : is_u64 x -> is_u64 y -> varint_bytes x = varint_bytes y -> x = y.
Proof. intros Hx Hy E. rewrite <- (varint_bytes_value x), <- (varint_bytes_value y), E; done. Qed.

Lemma delimited_inj (l l' : list Z) : length l = length l' -> delimited l = delimited l' -> l = l'.
Proof. unfold delimited. intros Hl. rewrite Hl. apply app_inv_head. Qed.

Lemma le_split_mod n y : le_split n (y mod 2 ^ (8 * Z.of_nat n)) = le_split n y.
Proof.
  rewrite <- le_combine_split. pose proof (le_split_combine (le_split n y) (le_split_bytes n y)) as E.
  by rewrite length_le_split in E.
Qed.

Lemma le_split_swrap n y : (0 < n)%nat -> le_split n (swrap (8 * Z.of_nat n) y) = le_split n y.
Proof.
  intros Hn. rewrite <- (le_split_mod n (swrap _ y)), <- (le_split_mod n y). f_equal.
  unfold swrap. set (w := 8 * Z.of_nat n). assert (0 < 2 ^ w) by (apply Z.pow_pos_nonneg; lia).
  rewrite Zminus_mod_idemp_l. f_equal. lia.
Qed.

(** An integer read determines the bytes read. *)
Lemma read_int_object signed f a m x m1 :
  bytes_ok m -> read_int (S := unit) signed f a tt m = Ret (Some x, tt) m1 ->
  object m a f = Some (le_split (Z.to_nat (data_size f)) x).
Proof.
  intros Hok. unfold read_int. case_bool_decide as Hd; [|done].
  pose proof (int_size_bound _ Hd). unfold clift, object.
  set (k := Z.to_nat (data_size f)).
  assert (∀ y my, load_u k a m = Ret y my -> mread (mem m) a k = Some (le_split k y)) as L.
  { intros y my. unfold load_u, mbind, M_bind, load_bytes.
    destruct (mread _ _ _) as [bs|] eqn:E; [|done]. intros [= <- _].
    pose proof (length_mread _ _ _ _ E) as Hlen. f_equal. rewrite <- Hlen.
    symmetry. apply le_split_combine. by eapply mread_forall. }
  destruct signed.
  - unfold load_s, mbind at 1, M_bind. destruct (load_u k a m) as [y my| |] eqn:E; [|done|done].
    intros [= <- _]. rewrite (L _ _ eq_refl). f_equal. symmetry. apply le_split_swrap. lia.
  - destruct (load_u k a m) as [y my| |] eqn:E; [|done|done]. intros [= <- _]. by eapply L.
Qed.

Lemma int_object (signed : bool) f (g : Z -> Z) p m q m' v m1 m1' :
  bytes_ok m -> bytes_ok m' ->
  (∀ x, (if signed then is_s64 x else is_u64 x) -> is_u64 (g x)) ->
  (∀ x y, int_range signed f x -> int_range signed f y -> g x = g y -> x = y) ->
  (x ← read_int (S := unit) signed f p; mret (varint_bytes (g x))) tt m = Ret (Some v, tt) m1 ->
  (x ← read_int (S := unit) signed f q; mret (varint_bytes (g x))) tt m' = Ret (Some v, tt) m1' ->
  object m' q f = object m p f.
Proof.
  intros Hb Hb' Hg Hinj E E'. apply bind_inv in E as (x & m2 & Ex & E). injection E as <- _.
  apply bind_inv in E' as (y & m3 & Ey & E'). injection E' as E' _.
  rewrite (read_int_object _ _ _ _ _ _ Hb Ex), (read_int_object _ _ _ _ _ _ Hb' Ey).
  pose proof (read_int_range _ _ _ _ _ _ Hb Ex). pose proof (read_int_range _ _ _ _ _ _ Hb' Ey).
  pose proof (read_int_bound _ _ _ _ _ _ Hb Ex). pose proof (read_int_bound _ _ _ _ _ _ Hb' Ey).
  do 2 f_equal. apply Hinj; [done..|]. by apply varint_bytes_inj; [auto..|].
Qed.

Lemma zigzag_inj x y : zigzag x = zigzag y -> x = y.
Proof. intros E. by rewrite <- (unzigzag_zigzag x), <- (unzigzag_zigzag y), E. Qed.

Lemma u64_inj f x y : int_range true f x -> int_range true f y -> u64 x = u64 y -> x = y.
Proof.
  intros Hx Hy E. pose proof (int_size_bound _ (proj1 Hx)).
  pose proof (int_range_size _ _ _ 8 Hx ltac:(lia)) as Bx.
  pose proof (int_range_size _ _ _ 8 Hy ltac:(lia)) as By. simpl in Bx, By.
  unfold u64 in E. dlia.
Qed.

Lemma evalue_object `{PbEnv} fuel emsg f p m q m' v m1 m1' :
  exact_type f = true -> bytes_ok m -> bytes_ok m' ->
  evalue fuel emsg (ftype f) f p tt m = Ret (Some v, tt) m1 ->
  evalue fuel emsg (ftype f) f q tt m' = Ret (Some v, tt) m1' ->
  object m' q f = object m p f.
Proof.
  unfold exact_type, evalue. cbv zeta. intros Ht Hb Hb'.
  rewrite !orb_true_iff, !andb_true_iff, !Z.eqb_eq in Ht.
  destruct Ht as [[[[[Hl|Hl]|Hl]|[Hl Hd]]|[Hl Hd]]|Hl]; rewrite Hl; simpl; intros E E'.
  - eapply (int_object true f u64); [done|done|by intros; apply u64_u64|apply u64_inj|done..].
  - by eapply (int_object false f (fun x => x)).
  - eapply (int_object true f zigzag); [done|done|apply zigzag_u64|by intros ????; apply zigzag_inj|done..].
  - apply load_bytes_inv in E as [E _]. apply load_bytes_inv in E' as [E' _].
    unfold object. rewrite Hd. change (Z.to_nat 4) with 4%nat. congruence.
  - apply load_bytes_inv in E as [E _]. apply load_bytes_inv in E' as [E' _].
    unfold object. rewrite Hd. change (Z.to_nat 8) with 8%nat. congruence.
  - apply edelimited_some in E as (l & E & ->). apply edelimited_some in E' as (l' & E' & El).
    apply load_bytes_inv in E as [E _]. apply load_bytes_inv in E' as [E' _].
    unfold object. rewrite E, E'. f_equal. apply delimited_inj; [|done].
    apply length_mread in E, E'. congruence.
Qed.

(** ** Fields *)

(** Is the field present in the structure at [p]? *)
Definition has_field (f : pb_field_t) (o : Z * Z) (p : Z) (m : mstate) : bool :=
  if PB_HTYPE (ftype f) =? PB_HTYPE_OPTIONAL
  then match mem m !! (p + o.2) with Some b => negb (b =? 0) | None => false end
  else true.

Lemma field_chunk `{EncEnv} Rd sub fuel f o size p m c :
  static_field Rd sub f o size -> single_field f o -> o.2 = o.1 + size_offset f -> 0 < p ->
  efield fuel (emessage fuel) f (p + o.1) tt m = Ret (Some c, tt) m ->
  if has_field f o p m
  then ∃ wt v m', wire_type_of (PB_LTYPE (ftype f)) = Some wt ∧ c = wire_tag wt (ftag f) ++ v ∧
         evalue fuel (emessage fuel) (ftype f) f (p + o.1) tt m = Ret (Some v, tt) m'
  else c = [].
Proof.
  intros Hs Hg Ho Hp E. pose proof (sf_low _ _ _ _ _ Hs) as Hlow.
  assert (p + o.1 <> 0) as Hp1 by lia.
  pose proof (efield_inv fuel _ _ _ _ _ _ _ _ Hs Hg Hp1 E) as Hinv.
  unfold has_field. destruct (PB_HTYPE (ftype f) =? PB_HTYPE_OPTIONAL) eqn:Eh; bool_to_prop.
  2: { destruct Hinv as [[? _]|Hinv]; [done|exact Hinv]. }
  rewrite efield_optional in E by (apply Hs || done || by apply (sg_flag _ _ Hg)).
  replace (p + o.1 + size_offset f) with (p + o.2) in E by lia.
  apply bind_inv in E as (has & m1 & Er & E).
  unfold clift, safe_read_bool, load_u, mbind, M_bind, load_bytes in Er. simpl in Er.
  destruct (mem m !! (p + o.2)) as [b|]; [|done]. unfold mret, M_ret in Er. simpl in Er.
  rewrite Z.add_0_r in Er. injection Er as <- <-.
  destruct (negb (b =? 0)); [|by injection E as <-].
  destruct Hinv as [[_ ->]|Hinv]; [exfalso|exact Hinv].
  apply bind_inv in E as (t & m1 & Et & E). apply bind_inv in E as (v & m2 & _ & E).
  injection E as E _. unfold efield_tag in Et. destruct (wire_type_of _) as [wt|]; [|done].
  injection Et as <- _. apply app_eq_nil in E as [E _]. apply (f_equal length) in E.
  pose proof (length_varint_bytes (u64 (8 * ftag f) + wt)). unfold wire_tag in E. simpl in E. lia.
Qed.

Lemma same_chunk `{EncEnv} Rd sub fuel f o size p m q m' c :
  static_field Rd sub f o size -> single_field f o -> o.2 = o.1 + size_offset f -> 0 < p -> 0 < q ->
  bytes_ok m -> bytes_ok m' ->
  efield fuel (emessage fuel) f (p + o.1) tt m = Ret (Some c, tt) m ->
  efield fuel (emessage fuel) f (q + o.1) tt m' = Ret (Some c, tt) m' ->
  has_field f o q m' = has_field f o p m ∧
  (has_field f o p m = true -> exact_type f = true -> object m' (q + o.1) f = object m (p + o.1) f).
Proof.
  intros Hs Hg Ho Hp Hq Hb Hb' E E'.
  pose proof (field_chunk _ _ _ _ _ _ _ _ _ Hs Hg Ho Hp E) as C.
  pose proof (field_chunk _ _ _ _ _ _ _ _ _ Hs Hg Ho Hq E') as C'.
  assert (∀ wt v, wire_tag wt (ftag f) ++ v <> []) as Hne.
  { intros wt v Ec. apply app_eq_nil in Ec as [Ec _]. apply (f_equal length) in Ec.
    pose proof (length_varint_bytes (u64 (8 * ftag f) + wt)). unfold wire_tag in Ec. simpl in Ec. lia. }
  destruct (has_field f o p m), (has_field f o q m').
  - split; [done|]. intros _ Ht. destruct C as (wt & v & m1 & Hw & -> & Ev).
    destruct C' as (wt' & v' & m1' & Hw' & Ec & Ev'). rewrite Hw in Hw'. injection Hw' as <-.
    apply app_inv_head in Ec as ->. by eapply evalue_object.
  - destruct C as (wt & v & m1 & _ & -> & _). by apply Hne in C'.
  - destruct C' as (wt & v & m1 & _ & -> & _). by apply Hne in C.
  - done.
Qed.

(** Two structures of one type with the same chunks. *)
Definition same_fields (fields : list pb_field_t) (src : Z) (m : mstate) (dest : Z) (m' : mstate)
    : Prop :=
  ∀ i f o, (S i < length fields)%nat -> fields !! i = Some f ->
    field_offsets fields !! i = Some o ->
    has_field f o dest m' = has_field f o src m ∧
    (has_field f o src m = true -> exact_type f = true ->
     object m' (dest + o.1) f = object m (src + o.1) f).

Lemma chunks_same `{EncEnv} Rd depth fe fields size src dest m m' cs :
  single_msg Rd depth fields size -> 0 < src -> 0 < dest -> bytes_ok m -> bytes_ok m' ->
  chunks fe fields src m cs -> chunks fe fields dest m' cs -> same_fields fields src m dest m'.
Proof.
  intros Hs Hsrc Hd Hb Hb' [Hl Hc] [_ Hc'] i f o Hi Ef Eo.
  destruct depth as [|depth]; [done|]. destruct Hs as (n & Htab & _ & Hfs).
  rewrite (table_length _ _ Htab) in *. destruct (Hfs i f o ltac:(lia) Ef Eo) as [Hs Hg].
  destruct (lookup_lt_is_Some_2 cs i) as [c Ec]; [lia|].
  eapply same_chunk; [exact Hs|exact Hg|eapply size_place; [done..|apply Hs]|done..| |].
  - by apply (Hc i).
  - by apply (Hc' i).
Qed.

(** ** Checking a descriptor table *)

Definition spans (f : pb_field_t) (o : Z * Z) : list (Z * Z) :=
  (o.1, data_size f) :: if PB_HTYPE (ftype f) =? PB_HTYPE_OPTIONAL then [(o.2, 1)] else [].

Definition span_apart (a b : Z * Z) : bool := (a.1 + a.2 <=? b.1) || (b.1 + b.2 <=? a.1).

Definition pair_apart (x y : pb_field_t * (Z * Z)) : bool :=
  negb (ftag x.1 =? ftag y.1)
  && forallb (fun a => forallb (span_apart a) (spans y.1 y.2)) (spans x.1 x.2).

Fixpoint apartb (l : list (pb_field_t * (Z * Z))) : bool :=
  match l with
  | [] => true
  | x :: l => forallb (pair_apart x) l && apartb l
  end.

Lemma own_spans f o x : own f o x -> ∃ a, a ∈ spans f o ∧ rng a.1 a.2 x.
Proof.
  intros [Hx|[Hh ->]]; unfold spans.
  - exists (o.1, data_size f). split; [set_solver|done].
  - exists (o.2, 1). rewrite Hh. split; [set_solver|unfold rng; simpl; lia].
Qed.

Lemma pair_apart_ok x y :
  pair_apart x y = true ->
  ftag x.1 <> ftag y.1 ∧ ∀ z, own x.1 x.2 z -> own y.1 y.2 z -> False.
Proof.
  unfold pair_apart. intros [Ht Hs]%andb_true_iff. bool_to_prop. split; [done|].
  intros z Hx Hy. apply own_spans in Hx as (a & Ha & Ra). apply own_spans in Hy as (b & Hb & Rb).
  rewrite forallb_forall in Hs. specialize (Hs a (proj1 (list_elem_of_In _ _) Ha)).
  rewrite forallb_forall in Hs. specialize (Hs b (proj1 (list_elem_of_In _ _) Hb)).
  unfold span_apart in Hs. rewrite orb_true_iff, !Z.leb_le in Hs. unfold rng in *. lia.
Qed.

Lemma apartb_lookup l i j x y :
  apartb l = true -> (i < j)%nat -> l !! i = Some x -> l !! j = Some y -> pair_apart x y = true.
Proof.
  revert i j; induction l as [|z l IH]; intros i j; simpl; [done|].
  intros [Hz Hl]%andb_true_iff Hij Hx Hy. destruct j as [|j]; [lia|]. simpl in Hy.
  destruct i as [|i]; simpl in Hx; [|by eapply (IH i j); [|lia|..]].
  injection Hx as <-. rewrite forallb_forall in Hz. apply Hz, list_elem_of_In.
  by eapply list_elem_of_lookup_2.
Qed.

Section Check.
Context `{PbEnv} (ra rn : Z).

Definition single_fieldb (f : pb_field_t) (o : Z * Z) : bool :=
  let h := PB_HTYPE (ftype f) in
  let l := PB_LTYPE (ftype f) in
  negb (h =? PB_HTYPE_REPEATED) && negb (l =? PB_LTYPE_STRING)
  && implb_eq l PB_LTYPE_BYTES (offsetof_bytes <=? data_size f)
  && implb_eq h PB_HTYPE_OPTIONAL
       (negb (size_offset f =? 0) && negb ((o.1 <=? o.2) && (o.2 <? o.1 + data_size f)))
  && (ftag f <? 2 ^ 29).

Lemma single_fieldb_ok f o : single_fieldb f o = true -> single_field f o.
Proof.
  unfold single_fieldb. intros Hb.
  repeat match goal with H : (_ && _) = true |- _ => apply andb_true_iff in H as [? ?] end.
  repeat match goal with
         | H : implb_eq _ _ _ = true |- _ => pose proof (implb_eq_elim _ _ _ H); clear H
         end.
  split; [by bool_to_prop..| | |by bool_to_prop].
  - intros E. match goal with H : PB_LTYPE _ = _ -> _ |- _ => specialize (H E) end. by bool_to_prop.
  - intros E. match goal with X : PB_HTYPE _ = _ -> _ |- _ => specialize (X E) as Hf end.
    apply andb_true_iff in Hf as [Hz Ho]. bool_to_prop. split; [done|].
    unfold rng. apply andb_false_iff in Ho as [Ho|Ho]; bool_to_prop; lia.
Qed.

Fixpoint single_msgb (depth : nat) (fields : list pb_field_t) (size : Z) : bool :=
  match depth with
  | O => false
  | S depth =>
      let l := take (length fields - 1) (zip fields (field_offsets fields)) in
      table_okb fields && apartb l
      && forallb (fun p => static_fieldb ra rn (single_msgb depth) p.1 p.2 size
                           && single_fieldb p.1 p.2) l
  end.

Lemma single_msgb_ok depth fields size :
  single_msgb depth fields size = true -> single_msg (rng ra rn) depth fields size.
Proof.
  revert fields size; induction depth as [|depth IH]; intros fields size; [done|].
  cbn [single_msgb single_msg]. intros [[Ht Ha]%andb_true_iff Hf]%andb_true_iff.
  set (l := take _ _) in *.
  assert (∀ i f o, (i < length fields - 1)%nat -> fields !! i = Some f ->
    field_offsets fields !! i = Some o -> l !! i = Some (f, o)) as Hl.
  { intros i f o Hi Ef Eo. unfold l. rewrite lookup_take_lt by done.
    by rewrite lookup_zip_with, Ef, Eo. }
  exists (length fields - 1)%nat. split; [by apply table_okb_ok|]. split.
  - intros i j f g o p Hi Hj Hne Ef Eg Eo Ep.
    pose proof (Hl _ _ _ Hi Ef Eo) as Li. pose proof (Hl _ _ _ Hj Eg Ep) as Lj.
    destruct (decide (i < j)%nat).
    + by apply (pair_apart_ok (f, o) (g, p)), (apartb_lookup l i j).
    + destruct (pair_apart_ok (g, p) (f, o)) as [Htag Hown].
      { eapply (apartb_lookup l j i); [done|lia|done..]. }
      split; [done|]. intros x Hx Hy. by apply (Hown x).
  - intros i f o Hi Ef Eo. rewrite forallb_forall in Hf.
    specialize (Hf (f, o)). rewrite <- list_elem_of_In in Hf.
    specialize (Hf (list_elem_of_lookup_2 _ _ _ (Hl _ _ _ Hi Ef Eo))).
    apply andb_true_iff in Hf as [Hs Hg]. split; [|by apply single_fieldb_ok].
    by apply static_fieldb_ok with (sub := single_msgb depth).
Qed.
End Check.

(** ** The theorem *)

Lemma encode_run `{EncEnv} fe fields src m0 m buf (cap : nat) bs :
  Forall field_ok fields -> bytes_ok m -> extends m0 m -> wire_form fe fields src m0 (Some bs) ->
  (length bs <= cap)%nat -> Z.of_nat cap < 2 ^ 32 -> buffer_at m0 m buf cap ->
  ∃ so m1,
    pb_encode fe fields src (pb_ostream_from_buffer buf (Z.of_nat cap)) m = Ret (Some tt, so) m1 ∧
    bytes_written so = Z.of_nat (length bs) ∧
    upd (rng buf (Z.of_nat (length bs))) m m1 ∧
    reads (pb_istream_from_buffer (IMem buf) (Z.of_nat (length bs))) m1 bs.
Proof.
  intros Hok Hb He Hw Hcap Hmax Hbuf.
  assert (bytes_ok m0) as Hb0 by (intros x b Hx; apply (Hb x); by eapply lookup_weaken, He).
  pose proof (emits_pb_encode fe fields src Hok) as Hem.
  destruct (emits_writes _ _ Hem m0 m bs Hb0 He Hw (pb_ostream_from_buffer buf (Z.of_nat cap)))
    as (mm & Hmw & Erun); [done|simpl; lia..|intros i Hi; apply Hbuf; lia|].
  destruct (emits_ro _ _ Hem m0 _ _ Hb0 Hw) as [_ Hu8]. specialize (Hu8 bs eq_refl).
  eexists _, (MState mm (heap m)). split; [exact Erun|]. split; [done|]. split.
  - destruct (store_run (rng buf (Z.of_nat (length bs))) buf bs m) as (m' & Est & U & _);
      [done|unfold rng; lia| |done|].
    + intros x Hx. unfold rng in Hx. replace x with (buf + (x - buf)) by lia. apply Hbuf. lia.
    + simpl in Hmw. unfold store_bytes in Est. rewrite Hmw in Est. by injection Est as <-.
  - apply reads_buffer; [done|lia|]. by apply (mread_mwrite_eq _ _ _ _ Hmw).
Qed.

(** C1. Message round trip: encode the structure at [src] with [pb_encode]
    into a buffer, decode the bytes written with [pb_decode] into the
    structure at [dest].  Both calls return true, the decoder consumes
    everything, exactly the same fields are present, every present integer,
    fixed-width or fixed-length field has the same bytes, and the whole
    structure, submessages and byte strings included, has the same wire form
    as the original. *)
Theorem message_roundtrip `{EncEnv} ra rn depth fields size fe fd src dest buf (cap : nat) m0 m bs :
  single_msgb ra rn depth fields size = true -> Forall field_ok fields -> (depth <= fd)%nat ->
  0 < src -> 0 < dest -> bytes_ok m -> extends m0 m ->
  wire_form fe fields src m0 (Some bs) -> (length bs <= cap)%nat -> Z.of_nat cap < 2 ^ 32 ->
  buffer_at m0 m buf cap -> mapped m dest (Z.to_nat size) -> mapped m ra (Z.to_nat rn) ->
  buf + Z.of_nat cap <= dest \/ dest + size <= buf ->
  ∃ so m1 si m2,
    pb_encode fe fields src (pb_ostream_from_buffer buf (Z.of_nat cap)) m = Ret (Some tt, so) m1 ∧
    pb_decode fd fields dest (pb_istream_from_buffer (IMem buf) (bytes_written so)) m1
      = Ret (Some tt, si) m2 ∧
    bytes_left si = 0 ∧
    same_fields fields src m0 dest m2 ∧
    wire_form fe fields dest m2 (Some bs).
Proof.
  intros Hmsg Hok Hfd Hsrc Hd Hb He Hw Hcap Hmax Hbuf Hdest Hro Hsep.
  apply single_msgb_ok in Hmsg. set (Rd := rng ra rn) in *.
  assert (bytes_ok m0) as Hb0 by (intros x b Hx; apply (Hb x); by eapply lookup_weaken, He).
  destruct (encode_run fe fields src m0 m buf cap bs) as (so & m1 & Erun & Hbw & U1 & Hr1); [done..|].
  destruct fe as [|fe]; [done|].
  destruct (source_chunks _ _ _ _ _ _ _ _ _ Hmsg Hsrc Hb0 Hw) as (cs & -> & Hcs).
  rewrite <- in_order_bytes in Hr1 at 2.
  destruct (decode_run Rd fe fd depth fields size src dest m0 cs (in_order cs)
    (pb_istream_from_buffer (IMem buf) (Z.of_nat (length (concat cs)))) m1 Hmsg Hfd Hsrc Hd Hb0 Hcs
    ltac:(lia) (in_order_arranged _ _) Hr1) as (m2 & E2 & U2 & Hw2 & Hc2).
  { intros x Hx Hy. unfold rng in *. simpl in *. lia. }
  { split; [by apply (upd_bytes _ _ _ U1)|by eapply covers_upd, mapped_covers..]. }
  exists so, m1. rewrite Hbw. eexists _, m2. split; [exact Erun|]. split; [exact E2|].
  rewrite in_order_bytes. split; [simpl; lia|]. split; [|done].
  eapply chunks_same; [done..| |exact Hcs|exact Hc2].
  by apply (upd_bytes _ _ _ U2), (upd_bytes _ _ _ U1).
Qed.

(** A [gdt_cct_NetworkConnectionInfo] at 0x9000: [network_type = NONE] (-1),
    [mobile_subtype = LTE] (13); beside it a buffer of 16 bytes at 0xA000 and
    a structure full of 0xEE at 0xB000. *)
Definition network_src : mstate :=
  MState (mmap cct_constants 0x9000 ([1; 0; 0; 0] ++ le_split 4 (-1) ++ [1; 0; 0; 0] ++ le_split 4 13)) ∅.
Definition network_mem : mstate :=
  MState (mmap (mmap (mem network_src) 0xA000 (replicate 16 0)) 0xB000 (replicate 16 0xEE)) ∅.

Lemma message_roundtrip_witness :
  ∃ so m1 si m2,
    pb_encode (H := cct_env) 1 (gdt_cct_NetworkConnectionInfo_fields cct_addr) 0x9000
      (pb_ostream_from_buffer 0xA000 16) network_mem = Ret (Some tt, so) m1 ∧
    pb_decode (H := cct_env) 1 (gdt_cct_NetworkConnectionInfo_fields cct_addr) 0xB000
      (pb_istream_from_buffer (IMem 0xA000) (bytes_written so)) m1 = Ret (Some tt, si) m2 ∧
    bytes_left si = 0 ∧
    same_fields (gdt_cct_NetworkConnectionInfo_fields cct_addr) 0x9000 network_src 0xB000 m2 ∧
    wire_form (H := cct_env) (H0 := cct_enc_env) 1
      (gdt_cct_NetworkConnectionInfo_fields cct_addr) 0xB000 m2
      (Some ([8] ++ replicate 9 255 ++ [1; 16; 13])).
Proof.
  apply (message_roundtrip (H := cct_env) (H0 := cct_enc_env) 0x1000 16 1
    (gdt_cct_NetworkConnectionInfo_fields cct_addr) 16 1 1 0x9000 0xB000 0xA000 16
    network_src network_mem ([8] ++ replicate 9 255 ++ [1; 16; 13])).
  - by vm_compute.
  - cct_eval.
  - lia.
  - lia.
  - lia.
  - cct_eval.
  - cct_eval.
  - vm_compute. reflexivity.
  - simpl. lia.
  - lia.
  - cct_eval.
  - apply mappedb_ok. by vm_compute.
  - apply mappedb_ok. by vm_compute.
  - left. lia.
Defined.

(** C31. Field order and unknown fields: [cs] are the chunks of wire form of
    the fields of a structure.  Bring the non-empty ones in any order, and put
    fields the message type does not have anywhere between them; [pb_decode]
    of that input still returns true and rebuilds the structure, whose wire
    form is then again the canonical one. *)
Theorem decode_any_order `{EncEnv} ra rn depth fields size fe fd src dest data m0 m cs items :
  single_msgb ra rn depth fields size = true -> (depth <= fd)%nat -> 0 < src -> 0 < dest ->
  bytes_ok m0 -> bytes_ok m -> chunks fe fields src m0 cs ->
  Z.of_nat (length (concat cs)) < 2 ^ 32 -> arranged fields cs [] items ->
  let bs := concat (item_bytes cs <$> items) in
  Z.of_nat (length bs) < 2 ^ 64 -> mread (mem m) data (length bs) = Some bs ->
  mapped m dest (Z.to_nat size) -> mapped m ra (Z.to_nat rn) ->
  data + Z.of_nat (length bs) <= dest \/ dest + size <= data ->
  ∃ si m2,
    pb_decode fd fields dest (pb_istream_from_buffer (IMem data) (Z.of_nat (length bs))) m
      = Ret (Some tt, si) m2 ∧
    bytes_left si = 0 ∧
    same_fields fields src m0 dest m2 ∧
    wire_form (S fe) fields dest m2 (Some (concat cs)).
Proof.
  intros Hmsg Hfd Hsrc Hd Hb0 Hb Hcs Hl Har bs Hlen Hread Hdest Hro Hsep.
  apply single_msgb_ok in Hmsg.
  assert (reads (pb_istream_from_buffer (IMem data) (Z.of_nat (length bs))) m bs) as Hr.
  { apply reads_buffer; [by eapply mread_forall|done|done]. }
  destruct (decode_run (rng ra rn) fe fd depth fields size src dest m0 cs items
    (pb_istream_from_buffer (IMem data) (Z.of_nat (length bs))) m Hmsg Hfd Hsrc Hd Hb0 Hcs Hl Har Hr)
    as (m2 & E2 & U2 & Hw2 & Hc2).
  { intros x Hx Hy. unfold rng in *. simpl in *. lia. }
  { split; [done|by apply mapped_covers..]. }
  eexists _, m2. split; [exact E2|]. fold bs. split; [simpl; lia|]. split; [|done].
  eapply chunks_same; [done..| |exact Hcs|exact Hc2]. by apply (upd_bytes _ _ _ U2).
Qed.

Lemma not_tag (tag : Z) fields :
  forallb (fun f => negb (ftag f =? tag)) fields = true -> Forall (fun f => ftag f <> tag) fields.
Proof.
  intros Hf. apply Forall_forall. intros f Hin. rewrite forallb_forall in Hf.
  specialize (Hf f Hin). by bool_to_prop.
Qed.

(** The same structure: an unknown string, the second field, an unknown
    varint, the first field. *)
Definition shuffled : list item :=
  [Unknown 2 15 (delimited [1; 2; 3]); Known 1; Unknown 0 9 (varint_bytes 300); Known 0].
Definition shuffled_mem : mstate :=
  MState (mmap (mmap cct_constants 0xA000
    (concat (item_bytes [[8] ++ replicate 9 255 ++ [1]; [16; 13]] <$> shuffled)))
    0xB000 (replicate 16 0xEE)) ∅.

Lemma decode_any_order_witness :
  ∃ si m2,
    pb_decode (H := cct_env) 1 (gdt_cct_NetworkConnectionInfo_fields cct_addr) 0xB000
      (pb_istream_from_buffer (IMem 0xA000) 21) shuffled_mem = Ret (Some tt, si) m2 ∧
    bytes_left si = 0 ∧
    same_fields (gdt_cct_NetworkConnectionInfo_fields cct_addr) 0x9000 network_src 0xB000 m2 ∧
    wire_form (H := cct_env) (H0 := cct_enc_env) 1
      (gdt_cct_NetworkConnectionInfo_fields cct_addr) 0xB000 m2
      (Some ([8] ++ replicate 9 255 ++ [1; 16; 13])).
Proof.
  apply (decode_any_order (H := cct_env) (H0 := cct_enc_env) 0x1000 16 1
    (gdt_cct_NetworkConnectionInfo_fields cct_addr) 16 0 1 0x9000 0xB000 0xA000
    network_src shuffled_mem [[8] ++ replicate 9 255 ++ [1]; [16; 13]] shuffled).
  - by vm_compute.
  - lia.
  - lia.
  - lia.
  - cct_eval.
  - cct_eval.
  - split; [done|]. intros [|[|[|i]]] f o c Ef Eo Ec; simpl in Ec; simplify_eq.
    + vm_compute in Ef, Eo. simplify_eq. vm_compute. reflexivity.
    + vm_compute in Ef, Eo. simplify_eq. vm_compute. reflexivity.
  - done.
  - split; [split_and!; [lia|lia|by apply not_tag|apply (shape_string [1; 2; 3])|done]|].
    split; [simpl; lia|]. split; [apply not_elem_of_nil|].
    split; [split_and!; [lia|lia|by apply not_tag|by apply (shape_varint 300)|done]|].
    split; [simpl; lia|]. split; [by apply not_elem_of_cons; split; [|apply not_elem_of_nil]|].
    repeat constructor; left; set_solver.
  - done.
  - by vm_compute.
  - apply mappedb_ok. by vm_compute.
  - apply mappedb_ok. by vm_compute.
  - left. vm_compute. done.
Defined.
