(* ===== verification/SizeThms.v ===== *)
(** * The maximum encoded sizes of cct.nanopb.h

    The header states, for the two message types without pointers, how long
    their wire form can be. *)

From S2P Require Import Prelude.
From S2P Require Import Memory.
From S2P Require Import MemFacts.
From S2P Require Import PbTypes.
From S2P Require Import PbCommon.
From S2P Require Import PbFields.
From S2P Require Import Cct.
From S2P Require Import VarintSpec.
From S2P Require Import Varint.
From S2P Require Import EncSpec.
From S2P Require Import EncMsg.
From S2P Require Import CctImage.
From S2P Require Import EncodeThms.
From S2P Require Import IterFacts.
From S2P Require Import WireThms.
From S2P Require Import DecStatic.
From S2P Require Import Transfer.
From S2P Require Import TransferMsg.
From S2P Require Import TransferLoop.
From S2P Require Import RoundTrip.
From S2P Require Import PbIStream.
From S2P Require Import PbDecode.
From S2P Require Import DecSafe.

Lemma varint_bytes_small v : 0 <= v < 128 -> length (varint_bytes v) = 1%nat.
Proof.
  intros Hv. unfold varint_bytes. cbn [varint_groups].
  destruct (v <? 128) eqn:E; bool_to_prop; [done|lia].
Qed.

(** A field of integer type whose values need at most [k] bytes. *)
Lemma chunk_bound `{EncEnv} Rd sub fuel f o size p m c (k : nat) :
  static_field Rd sub f o size -> single_field f o -> o.2 = o.1 + size_offset f -> 0 < p ->
  bytes_ok m -> 0 < ftag f < 16 ->
  (PB_LTYPE (ftype f) = PB_LTYPE_VARINT ∧ k = 10%nat \/
   PB_LTYPE (ftype f) = PB_LTYPE_UVARINT ∧ k = 1%nat ∧
     ∀ v, load_u (Z.to_nat (data_size f)) (p + o.1) m = Ret v m -> v < 128) ->
  efield fuel (emessage fuel) f (p + o.1) tt m = Ret (Some c, tt) m -> (length c <= 1 + k)%nat.
Proof.
  intros Hs Hg Ho Hp Hb Htag Hl E.
  pose proof (field_chunk _ _ _ _ _ _ _ _ _ Hs Hg Ho Hp E) as C.
  destruct (has_field f o p m); [|subst c; simpl; lia]. destruct C as (wt & v & m' & Hw & -> & Ev).
  rewrite length_app.
  assert (length (wire_tag wt (ftag f)) = 1%nat) as ->.
  { unfold wire_tag, u64. rewrite Z.mod_small by lia. apply varint_bytes_small.
    destruct Hl as [[Hl _]|[Hl _]]; rewrite Hl in Hw; vm_compute in Hw; injection Hw as <-; lia. }
  unfold evalue in Ev. destruct Hl as [[Hl ->]|(Hl & -> & Hsmall)]; rewrite Hl in Ev; simpl in Ev.
  - apply bind_inv in Ev as (x & m1 & _ & Ev). injection Ev as <- _.
    pose proof (length_varint_bytes (u64 x)). lia.
  - apply bind_inv in Ev as (x & m1 & Ex & Ev). injection Ev as <- _.
    pose proof (read_int_range _ _ _ _ _ _ Hb Ex) as [_ Hx]. simpl in Hx.
    rewrite varint_bytes_small; [lia|]. split; [lia|]. apply Hsmall.
    unfold read_int in Ex. case_bool_decide; [|done]. unfold clift in Ex.
    destruct (load_u _ _ m) as [y my| |] eqn:El; [|done|done]. injection Ex as -> ->.
    by destruct (mro_load_u (Z.to_nat (data_size f)) (p + o.1) m m x m1 ltac:(by split) El) as [-> _].
Qed.

(** Two fields, of 10 and 1 bytes at most. *)
Lemma two_fields_bound `{EncEnv} Rd depth fe fields size src m bs (k0 k1 : nat) :
  single_msg Rd depth fields size -> 0 < src -> bytes_ok m -> length fields = 3%nat ->
  wire_form fe fields src m (Some bs) ->
  (∀ i f o, (i < 2)%nat -> fields !! i = Some f -> field_offsets fields !! i = Some o ->
     0 < ftag f < 16 ∧
     let k := if (i =? 0)%nat then k0 else k1 in
     (PB_LTYPE (ftype f) = PB_LTYPE_VARINT ∧ k = 10%nat \/
      PB_LTYPE (ftype f) = PB_LTYPE_UVARINT ∧ k = 1%nat ∧
        ∀ v, load_u (Z.to_nat (data_size f)) (src + o.1) m = Ret v m -> v < 128)) ->
  (length bs <= 2 + k0 + k1)%nat.
Proof.
  intros Hs Hsrc Hb Hl3 Hw Hf. destruct fe as [|fe]; [done|].
  destruct (source_chunks _ _ _ _ _ _ _ _ _ Hs Hsrc Hb Hw) as (cs & -> & Hlen & Hcs).
  destruct depth as [|depth]; [done|]. destruct Hs as (n & Htab & _ & Hfs).
  pose proof (table_length _ _ Htab) as Hn.
  assert (∀ i c, (i < 2)%nat -> cs !! i = Some c ->
    (length c <= 1 + if (i =? 0)%nat then k0 else k1)%nat) as B.
  { intros i c Hi Ec. destruct (lookup_lt_is_Some_2 fields i) as [f Ef]; [lia|].
    destruct (offsets_total _ _ _ Ef) as [o Eo]. destruct (Hfs i f o ltac:(lia) Ef Eo) as [Hsf Hg].
    destruct (Hf i f o Hi Ef Eo) as [Htag Hk].
    eapply (chunk_bound Rd _ fe f o size src m c); [done|done|eapply size_place; [done..|apply Hsf]|
      done..|exact Hk|]. by apply (Hcs i). }
  destruct cs as [|c0 [|c1 [|]]]; simpl in Hlen; try lia.
  pose proof (B 0%nat c0 ltac:(lia) eq_refl). pose proof (B 1%nat c1 ltac:(lia) eq_refl).
  simpl. rewrite app_nil_r, length_app. simpl in *. lia.
Qed.

(** The value of an enumeration: at most 100 in the two types below. *)
Definition enum_in (e : list (string * Z)) (v : Z) : Prop := v ∈ snd <$> e.

(** The size constants of the header are upper bounds: a
    [gdt_cct_NetworkConnectionInfo] whose [mobile_subtype] is one of the
    declared enumerators, whatever its [network_type], is encoded in at most
    [gdt_cct_NetworkConnectionInfo_size] bytes, and a
    [gdt_cct_QosTierConfiguration] with a declared [qos_tier] and any
    [log_source] in at most [gdt_cct_QosTierConfiguration_size]. *)
Lemma size_constants_bound `{EncEnv} addr ra rn fe src m bs :
  0 < src -> bytes_ok m ->
  (single_msgb ra rn 1 (gdt_cct_NetworkConnectionInfo_fields addr)
     (sizeof gdt_cct_NetworkConnectionInfo) = true ->
   wire_form fe (gdt_cct_NetworkConnectionInfo_fields addr) src m (Some bs) ->
   (∀ v, load_u 4 (src + offsetof gdt_cct_NetworkConnectionInfo "mobile_subtype") m = Ret v m ->
      enum_in gdt_cct_NetworkConnectionInfo_MobileSubtype v) ->
   Z.of_nat (length bs) <= gdt_cct_NetworkConnectionInfo_size) ∧
  (single_msgb ra rn 1 (gdt_cct_QosTierConfiguration_fields addr)
     (sizeof gdt_cct_QosTierConfiguration) = true ->
   wire_form fe (gdt_cct_QosTierConfiguration_fields addr) src m (Some bs) ->
   (∀ v, load_u 4 (src + offsetof gdt_cct_QosTierConfiguration "qos_tier") m = Ret v m ->
      enum_in gdt_cct_QosTierConfiguration_QosTier v) ->
   Z.of_nat (length bs) <= gdt_cct_QosTierConfiguration_size).
Proof.
  assert (∀ e v, forallb (fun p => p.2 <? 128) e = true -> enum_in e v -> v < 128) as Hsmall.
  { intros e v He (p & -> & Hp)%list_elem_of_fmap. rewrite forallb_forall in He.
    specialize (He p (proj1 (list_elem_of_In _ _) Hp)). by bool_to_prop. }
  intros Hsrc Hb. split; intros Hmsg Hw Hv; apply single_msgb_ok in Hmsg.
  - unfold gdt_cct_NetworkConnectionInfo_size.
    enough (length bs <= 2 + 10 + 1)%nat by lia.
    apply (two_fields_bound _ _ _ _ _ _ _ _ 10 1 Hmsg Hsrc Hb eq_refl Hw).
    intros [|[|[|i]]] f o Hi Ef Eo; [..|lia|lia];
      vm_compute in Ef, Eo; simplify_eq; (split; [done|]); [by left|right].
    split; [done|]. split; [done|]. intros v El. eapply Hsmall; [|apply Hv; exact El]. done.
  - unfold gdt_cct_QosTierConfiguration_size.
    enough (length bs <= 2 + 1 + 10)%nat by lia.
    apply (two_fields_bound _ _ _ _ _ _ _ _ 1 10 Hmsg Hsrc Hb eq_refl Hw).
    intros [|[|[|i]]] f o Hi Ef Eo; [..|lia|lia];
      vm_compute in Ef, Eo; simplify_eq; (split; [done|]); [right|by left].
    split; [done|]. split; [done|]. intros v El. eapply Hsmall; [|apply Hv; exact El]. done.
Qed.

(** The bound is reached: [network_type = NONE] takes ten bytes. *)
(** * Counts of static arrays: two corner cases

    What the decoder does to the count of an array that overflows, and to an
    array whose count is fixed and therefore not in the structure. *)

(** An entry too many: when a static array is full, [decode_static_field]
    reports "array overflow" and stores no entry, but has already incremented
    the count, which then exceeds the size of the array. *)
Lemma array_overflow_count `{PbEnv} fuel noinit wt it f a local s m :
  iter_field it = Some f -> PB_HTYPE (ftype f) = PB_HTYPE_REPEATED ->
  wt <> PB_WT_STRING -> pSize it = SAddr a -> is_u32 (array_size f + 1) ->
  load_u sizeof_pb_size_t a m = Ret (array_size f) m -> bytes_ok m -> ierrmsg s = None ->
  ∃ s' m', decode_static_field fuel noinit wt it local s m = Ret (None, s') m' ∧
    ierrmsg s' = Some "array overflow"%string ∧
    load_u sizeof_pb_size_t a m' = Ret (array_size f + 1) m' ∧
    upd (rng a 4) m m'.
Proof.
  intros Hf Hh Hwt Hps Hn Hl Hb He. unfold is_u32 in Hn.
  assert (covers (rng a 4) m) as Hcov.
  { intros x Hx. unfold load_u, mbind, M_bind, load_bytes in Hl.
    destruct (mread _ a _) as [bs|] eqn:E; [|done]. unfold rng in Hx.
    replace x with (a + (x - a)) by lia.
    apply (proj1 (mread_lookup (mem m) a sizeof_pb_size_t)); [eauto|].
    unfold sizeof_pb_size_t. lia. }
  destruct (store_run (rng a 4) a (le_split sizeof_pb_size_t (array_size f + 1)) m)
    as (m' & Est & U & Hm);
    [apply le_split_bytes|rewrite length_le_split; unfold rng, sizeof_pb_size_t; lia|done|done|].
  rewrite length_le_split in U, Hm.
  unfold decode_static_field. rewrite (bind_defined _ _ _ _ _ Hf). cbv zeta. rewrite Hh.
  simpl (PB_HTYPE_REPEATED =? _). cbv iota. apply Z.eqb_neq in Hwt. rewrite Hwt. simpl (_ && _).
  cbv iota. unfold read_size, write_size. rewrite Hps, (bind_lift _ _ _ _ _ _ Hl).
  assert (u32 (array_size f + 1) = array_size f + 1) as -> by (apply Z.mod_small; lia).
  erewrite bind_lift; [|erewrite mbind_ret; [reflexivity|exact Est]].
  rewrite Z.leb_refl. eexists _, m'. split; [reflexivity|]. split; [simpl; by rewrite He|].
  split; [|exact U]. unfold load_u, mbind, M_bind, load_bytes. rewrite Hm. unfold mret, M_ret.
  rewrite le_combine_split, Z.mod_small; [done|]. unfold sizeof_pb_size_t. simpl. lia.
Qed.

(** An array with a fixed count has no count in the structure, and the
    descriptor says so with [size_offset = 0]; setting its default value
    nevertheless stores a four-byte zero at the count's place, which is the
    array itself.  When the array is shorter than four bytes and nothing
    mapped follows it, [pb_message_set_to_defaults] is undefined. *)
Lemma fixed_count_default_overruns `{PbEnv} fuel f dest m :
  PB_ATYPE (ftype f) = PB_ATYPE_STATIC -> PB_HTYPE (ftype f) = PB_HTYPE_REPEATED ->
  PB_LTYPE (ftype f) <> PB_LTYPE_EXTENSION -> ftag f <> 0 -> size_offset f = 0 ->
  dest <> 0 -> 0 <= data_size f * array_size f < 4 ->
  mem m !! (dest + data_offset f + data_size f * array_size f) = None ->
  pb_message_set_to_defaults (S fuel) [f; PB_LAST_FIELD] dest m = Ub.
Proof.
  intros Ha Hh Hl Ht Hs Hd Hn Hm.
  unfold pb_message_set_to_defaults, for_each_field, pb_field_iter_begin. simpl.
  apply Z.eqb_neq in Ht, Hd, Hl. rewrite Ht, Hd. unfold mbind at 1, M_bind. simpl.
  unfold mbind at 1, M_bind. simpl. unfold mbind at 1, M_bind. simpl. rewrite Hl, Ha. simpl.
  rewrite Hh. simpl. unfold mbind, M_bind. simpl. rewrite Hs, Z.add_0_r.
  unfold store_u, store_bytes.
  destruct (mwrite (mem m) (dest + data_offset f) (le_split sizeof_pb_size_t 0)) as [mm|] eqn:E; [|done].
  exfalso. destruct (mwrite_mapped _ _ _ _ (data_size f * array_size f) E) as [b Eb];
    [rewrite length_le_split; unfold sizeof_pb_size_t; lia|congruence].
Qed.

(** Two booleans with a fixed count at 0x100, and nothing after them. *)
Definition two_bools : pb_field_t :=
  mk_pb_field 1 (Z.lor PB_ATYPE_STATIC (Z.lor PB_HTYPE_REPEATED PB_LTYPE_BOOL)) 0 0 1 2 0.

(** The same with a count behind the array, at 0x104, and full. *)
Definition full_array : mstate := MState (mmap ∅ 0x100 ([1; 1; 0; 0] ++ le_split 4 2)) ∅.
