(* ===== verification/Base64Thms.v ===== *)
(** * fbase64.c is correct

    [f_b64_ntop] writes the base-64 text of its input or reports that it does
    not fit; [f_b64_pton] accepts exactly the base-64 texts, with white space
    anywhere, and restores the bytes. *)

From S2P Require Import Prelude.
From S2P Require Import Memory.
From S2P Require Import MemFacts.
From S2P Require Import Base64.
From S2P Require Import DecSafe.

(** Induction in steps of three. *)
Lemma list_ind3 {A} (P : list A -> Prop) :
  P [] -> (∀ a, P [a]) -> (∀ a b, P [a; b]) ->
  (∀ a b c l, P l -> P (a :: b :: c :: l)) -> ∀ l, P l.
Proof.
  intros H0 H1 H2 H3 l. assert (∀ n (l : list A), (length l < n)%nat -> P l) as G.
  { intros n. induction n as [|n IH]; intros [|a [|b [|c l']]] Hl; simpl in Hl;
      try lia; auto. apply H3, IH. lia. }
  apply (G (S (length l))). lia.
Qed.

(** ** The encoding of a group *)

Lemma u8_range x : is_u8 x -> 0 <= x < 256.
Proof. done. Qed.

Lemma output0_eq i : output0 i = i / 4.
Proof. unfold output0. by rewrite Z.shiftr_div_pow2. Qed.

Lemma output1_eq i j : is_u8 i -> is_u8 j -> output1 i j = i mod 4 * 16 + j / 16.
Proof.
  intros Hi%u8_range Hj%u8_range. unfold output1, u8.
  change (Z.land i 0x03) with (Z.land i (Z.ones 2)).
  rewrite Z.land_ones, Z.shiftl_mul_pow2, Z.shiftr_div_pow2 by lia.
  change (2 ^ 2) with 4. change (2 ^ 4) with 16. change (2 ^ 8) with 256.
  apply Z.mod_small. dlia.
Qed.

Lemma output2_eq i j : is_u8 i -> is_u8 j -> output2 i j = i mod 16 * 4 + j / 64.
Proof.
  intros Hi%u8_range Hj%u8_range. unfold output2, u8.
  change (Z.land i 0x0f) with (Z.land i (Z.ones 4)).
  rewrite Z.land_ones, Z.shiftl_mul_pow2, Z.shiftr_div_pow2 by lia.
  change (2 ^ 2) with 4. change (2 ^ 4) with 16. change (2 ^ 6) with 64. change (2 ^ 8) with 256.
  apply Z.mod_small. dlia.
Qed.

Lemma output3_eq i : output3 i = i mod 64.
Proof. apply (Z.land_ones i 6). lia. Qed.

Lemma digit_ok v m : 0 <= v < 64 -> digit v m = Ret (digit_char v) m.
Proof.
  intros Hv. unfold digit, digit_char, mdefined.
  destruct (lookup_lt_is_Some_2 Base64 (Z.to_nat v)) as [c Hc]; [vm_compute (length Base64); lia|].
  rewrite (lookup_app_l_Some _ _ _ _ Hc), Hc. done.
Qed.

Lemma b64_encode_group i0 i1 i2 bs :
  b64_encode (i0 :: i1 :: i2 :: bs) =
    [digit_char (i0 / 4); digit_char (i0 mod 4 * 16 + i1 / 16);
     digit_char (i1 mod 16 * 4 + i2 / 64); digit_char (i2 mod 64)] ++ b64_encode bs.
Proof.
  unfold b64_encode. simpl. do 4 f_equal. f_equal. f_equal. unfold pads.
  change (S (S (S (length bs)))) with (3 + length bs)%nat.
  replace (3 + length bs)%nat with (length bs + 1 * 3)%nat by lia.
  by rewrite Nat.Div0.mod_add.
Qed.

(** ** Stores into the target *)

Section Target.
Context (target : Z) (targsize : nat).
Local Abbreviation T := (rng target (Z.of_nat targsize)).

Lemma store_target m a bs :
  mapped m target targsize -> target <= a ->
  a + Z.of_nat (length bs) <= target + Z.of_nat targsize -> Forall is_u8 bs ->
  ∃ m', store_bytes a bs m = Ret tt m' ∧ upd T m m' ∧ mapped m' target targsize ∧
    mwrite (mem m) a bs = Some (mem m').
Proof.
  intros Hm Ha Hb Hu8.
  destruct (mwrite_total (mem m) a bs) as [mm E].
  { intros i Hi. replace (a + i) with (target + (a - target + i)) by lia. apply Hm. lia. }
  exists (MState mm (heap m)). unfold store_bytes. rewrite E. split; [done|].
  pose proof (mwrite_same_dom _ _ _ _ E) as Hdom.
  split; [|split; [intros i Hi; apply Hdom; by apply Hm|done]].
  split; simpl; [done|done| |].
  - intros Hok x b Hx. simpl in Hx. rewrite (mwrite_lookup _ _ _ _ _ E) in Hx.
    case_decide; [|by apply (Hok x)]. eapply Forall_lookup_1; [exact Hu8|exact Hx].
  - intros x Hx. rewrite (mwrite_lookup _ _ _ _ _ E). unfold rng in Hx.
    case_decide; [lia|done].
Qed.

Lemma put_chars_ok m d cs :
  mapped m target targsize -> 0 <= d -> Z.of_nat targsize < 2 ^ 63 ->
  d + Z.of_nat (length cs) <= Z.of_nat targsize -> Forall is_u8 cs ->
  ∃ m', put_chars target d cs m = Ret (d + Z.of_nat (length cs)) m' ∧ upd T m m' ∧
    mapped m' target targsize ∧ mwrite (mem m) (target + d) cs = Some (mem m').
Proof.
  revert m d; induction cs as [|c cs IH]; intros m d Hm Hd Hmax Hl Hu8.
  { exists m. simpl. rewrite Z.add_0_r. split_and!; [done|apply upd_refl|done|done]. }
  inversion Hu8 as [|? ? Hc Hcs]; subst. cbn [length] in Hl. cbn [put_chars].
  destruct (store_target m (target + d) [c]) as (m1 & E1 & U1 & Hm1 & W1);
    [done|lia|simpl; lia|by constructor|].
  unfold mbind, M_bind, store_u. cbn [le_split].
  rewrite (Z.mod_small c) by exact Hc. rewrite E1.
  unfold u64. rewrite Z.mod_small by lia.
  destruct (IH m1 (d + 1)) as (m2 & E2 & U2 & Hm2 & W2); [done|lia|done|lia|done|].
  exists m2. rewrite E2. split_and!; [f_equal; simpl; lia|by eapply upd_trans|done|].
  change (c :: cs) with ([c] ++ cs). rewrite (mwrite_app _ _ _ _ _ W1), <- W2.
  f_equal. simpl. lia.
Qed.
End Target.

(** ** f_b64_ntop *)

Lemma digit_char_text v :
  is_u8 (digit_char v) ∧ ~ is_space (digit_char v) ∧ digit_char v <> Pad64 ∧ digit_char v < 128.
Proof.
  unfold digit_char. destruct (Base64 !! Z.to_nat v) as [c|] eqn:E; [|done]. simpl.
  assert (forallb (fun c => bool_decide (is_u8 c ∧ ~ is_space c ∧ c <> Pad64 ∧ c < 128)) Base64 = true)
    as HB by by vm_compute.
  rewrite forallb_forall in HB. eapply bool_decide_eq_true, HB.
  by apply list_elem_of_In, list_elem_of_lookup_2 with (i := Z.to_nat v).
Qed.

Lemma digit_char_u8 v : is_u8 (digit_char v).
Proof. apply digit_char_text. Qed.

(** The loop, the padding and the terminator, from [datalength = d] on. *)
Definition ntop_from (fuel : nat) (src srclength target targsize d : Z) : M Z :=
  r ← ntop_loop fuel src srclength target targsize d;
  match r with
  | None => mret (-1)
  | Some (src, srclength, datalength) =>
      r ← ntop_padding src srclength target targsize datalength;
      match r with
      | None => mret (-1)
      | Some datalength =>
          if targsize <=? datalength then mret (-1)
          else
            _ ← store_u 1 (target + datalength) 0;
            mret (s32 datalength)
      end
  end.

Section Ntop.
Context (target : Z) (targsize : nat).
Local Abbreviation T := (rng target (Z.of_nat targsize)).
Hypothesis Hmax : Z.of_nat targsize < 2 ^ 31.

(** What the conversion of [bs] from [datalength = d] on leaves behind. *)
Definition ntop_post (d : Z) (bs : list Z) (m : mstate) (r : Z) (m' : mstate) : Prop :=
  upd T m m' ∧
  let n := d + Z.of_nat (length (b64_encode bs)) in
  if n <? Z.of_nat targsize
  then r = n ∧ mwrite (mem m) (target + d) (b64_encode bs ++ [0]) = Some (mem m')
  else r = -1.

Lemma ntop_end_ok m d :
  mapped m target targsize -> 0 <= d ->
  ∃ r m', (if Z.of_nat targsize <=? d then mret (-1)
           else _ ← store_u 1 (target + d) 0; mret (s32 d)) m = Ret r m' ∧
    ntop_post d [] m r m'.
Proof.
  intros Hm Hd. unfold ntop_post. simpl. rewrite Z.add_0_r.
  destruct (Z.of_nat targsize <=? d) eqn:E; bool_to_prop.
  - exists (-1), m. split; [done|]. split; [apply upd_refl|].
    destruct (d <? Z.of_nat targsize) eqn:E'; bool_to_prop; [lia|done].
  - destruct (store_target target targsize m (target + d) [0]) as (m1 & E1 & U1 & Hm1 & W1);
      [done|lia|simpl; lia|by repeat constructor|].
    exists d, m1. unfold mbind, M_bind, store_u.
    change (le_split 1 0) with [0]. rewrite E1. split.
    + unfold mret, M_ret. f_equal. unfold s32. apply swrap_small; [done|]. simpl. lia.
    + split; [done|]. destruct (d <? Z.of_nat targsize) eqn:E'; bool_to_prop; [done|lia].
Qed.

(** Four characters more, then the rest. *)
Lemma ntop_group_ok (cs bs bs' : list Z) m m1 d r m' :
  length cs = 4%nat -> b64_encode bs = cs ++ b64_encode bs' ->
  upd T m m1 -> mwrite (mem m) (target + d) cs = Some (mem m1) ->
  ntop_post (d + 4) bs' m1 r m' -> ntop_post d bs m r m'.
Proof.
  unfold ntop_post. intros Hl -> U1 W1 [U2 Hr]. split; [by eapply upd_trans|].
  rewrite length_app, Hl.
  replace (d + Z.of_nat (4 + length (b64_encode bs')))
    with (d + 4 + Z.of_nat (length (b64_encode bs'))) by lia.
  destruct (_ <? _); [|done]. destruct Hr as [-> W2]. split; [done|].
  rewrite <- app_assoc, (mwrite_app _ _ _ _ _ W1), Hl, <- W2. f_equal. lia.
Qed.

(** The group does not fit. *)
Lemma ntop_full_ok (cs bs bs' : list Z) m d :
  length cs = 4%nat -> b64_encode bs = cs ++ b64_encode bs' -> Z.of_nat targsize < d + 4 ->
  ntop_post d bs m (-1) m.
Proof.
  unfold ntop_post. intros Hl -> Hd. split; [apply upd_refl|].
  rewrite length_app, Hl. destruct (_ <? _) eqn:E; bool_to_prop; [lia|done].
Qed.

Definition apart (src : Z) (n : nat) : Prop :=
  src + Z.of_nat n <= target \/ target + Z.of_nat targsize <= src.

Lemma mread_upd m m' src (bs : list Z) :
  upd T m m' -> apart src (length bs) -> mread (mem m) src (length bs) = Some bs ->
  mread (mem m') src (length bs) = Some bs.
Proof.
  intros U Ha Hr. rewrite <- Hr. apply mread_ext. intros i Hi. apply U.
  unfold rng, apart in *. lia.
Qed.

Lemma ntop_padding_ok src bs m d :
  (length bs <= 2)%nat -> Forall is_u8 bs -> mread (mem m) src (length bs) = Some bs ->
  mapped m target targsize -> 0 <= d < 2 ^ 32 ->
  ∃ r m', (r ← ntop_padding src (Z.of_nat (length bs)) target (Z.of_nat targsize) d;
    match r with
    | None => mret (-1)
    | Some datalength =>
        if Z.of_nat targsize <=? datalength then mret (-1)
        else _ ← store_u 1 (target + datalength) 0; mret (s32 datalength)
    end) m = Ret r m' ∧ ntop_post d bs m r m'.
Proof.
  intros Hl Hu8 Hr Hm Hd. destruct bs as [|i0 bs]; [by apply ntop_end_ok; [|lia]|].
  inversion Hu8 as [|? ? H0 Hu8']; subst.
  assert (∃ i1 c2, is_u8 i1 ∧ is_u8 c2 ∧
    (if 1 <? Z.of_nat (length (i0 :: bs)) then load_u 1 (src + 1) else mret 0 : M Z) m = Ret i1 m ∧
    (∀ m, (if Z.of_nat (length (i0 :: bs)) =? 1 then mret Pad64 else digit (output2 i1 0) : M Z) m
       = Ret c2 m) ∧
    b64_encode (i0 :: bs) = [digit_char (i0 / 4); digit_char (i0 mod 4 * 16 + i1 / 16); c2; Pad64] ++ [])
    as (i1 & c2 & H1 & Hc2 & L1 & L2 & Henc).
  { destruct bs as [|i1 [|]]; [| |simpl in Hl; lia].
    - exists 0, Pad64. split_and!; [done|done|done|done|].
      unfold b64_encode. simpl. by rewrite Z.add_0_r.
    - inversion Hu8' as [|? ? H1 _]; subst.
      exists i1, (digit_char (i1 mod 16 * 4)). split_and!; [done|apply digit_char_u8| | |done].
      + apply load_byte. apply (lookup_src _ _ _ 1 _ Hr). done.
      + intros m'. simpl. rewrite output2_eq, Z.add_0_r by done. apply digit_ok.
        apply u8_range in H1. dlia. }
  unfold ntop_padding. destruct (Z.of_nat (length (i0 :: bs)) =? 0) eqn:E0; bool_to_prop; [simpl in E0; lia|].
  unfold mbind, M_bind. rewrite (load_byte m src i0).
  2: { replace src with (src + Z.of_nat 0) by lia. by apply (lookup_src _ _ _ 0 _ Hr). }
  rewrite L1. unfold u64. rewrite Z.mod_small by lia.
  destruct (Z.of_nat targsize <? d + 4) eqn:E4; bool_to_prop.
  { eexists _, _. split; [done|]. by eapply ntop_full_ok with (bs' := []); [|exact Henc|]. }
  apply u8_range in H0 as H0', H1 as H1'.
  rewrite output0_eq, output1_eq by done.
  rewrite !digit_ok by dlia. rewrite L2.
  destruct (put_chars_ok target targsize m d
    [digit_char (i0 / 4); digit_char (i0 mod 4 * 16 + i1 / 16); c2; Pad64])
    as (m1 & E1 & U1 & Hm1 & W1); [done|lia|lia|simpl; lia| |].
  { rewrite !Forall_cons_iff. split_and!; (done || apply digit_char_u8 || constructor). }
  rewrite E1. change (Z.of_nat (length [_; _; _; _])) with 4.
  destruct (ntop_end_ok m1 (d + 4) Hm1 ltac:(lia)) as (r & m2 & E2 & Hp).
  exists r, m2. split; [exact E2|].
  eapply ntop_group_ok with (bs' := []); [|exact Henc|exact U1|exact W1|exact Hp]. done.
Qed.

Lemma ntop_from_ok bs : ∀ src m d fuel,
  Forall is_u8 bs -> mread (mem m) src (length bs) = Some bs -> apart src (length bs) ->
  mapped m target targsize -> 0 <= d <= Z.of_nat targsize -> (length bs <= fuel)%nat ->
  ∃ r m', ntop_from fuel src (Z.of_nat (length bs)) target (Z.of_nat targsize) d m = Ret r m' ∧
    ntop_post d bs m r m'.
Proof.
  assert (∀ bs, (length bs <= 2)%nat -> ∀ src m d fuel,
    Forall is_u8 bs -> mread (mem m) src (length bs) = Some bs ->
    mapped m target targsize -> 0 <= d <= Z.of_nat targsize ->
    ∃ r m', ntop_from fuel src (Z.of_nat (length bs)) target (Z.of_nat targsize) d m = Ret r m' ∧
      ntop_post d bs m r m') as Hshort.
  { intros l Hl src m d fuel Hu8 Hr Hm Hd. unfold ntop_from.
    replace (ntop_loop fuel src (Z.of_nat (length l)) target (Z.of_nat targsize) d)
      with (mret (Some (src, Z.of_nat (length l), d)) : M (option (Z * Z * Z))).
    - apply ntop_padding_ok; [done..|lia].
    - destruct fuel; cbn [ntop_loop]; destruct (2 <? _) eqn:E; bool_to_prop; (lia || done). }
  induction bs as [|a|a b|i0 i1 i2 bs IH] using list_ind3; intros src m d fuel Hu8 Hr Hap Hm Hd Hf;
    [apply Hshort; simpl; (done || lia)..|].
  destruct fuel as [|fuel]; [simpl in Hf; lia|].
  inversion Hu8 as [|? ? H0 Hu]; subst. inversion Hu as [|? ? H1 Hu']; subst.
  inversion Hu' as [|? ? H2 Hu3]; subst. apply u8_range in H0 as H0', H1 as H1', H2 as H2'.
  unfold ntop_from. cbn [ntop_loop].
  destruct (2 <? Z.of_nat (length (i0 :: i1 :: i2 :: bs))) eqn:E; bool_to_prop; [|simpl in E; lia].
  unfold mbind, M_bind. rewrite (load_byte m src i0).
  2: { replace src with (src + Z.of_nat 0) by lia. by apply (lookup_src _ _ _ 0 _ Hr). }
  rewrite (load_byte m (src + 1) i1) by (by apply (lookup_src _ _ _ 1 _ Hr)).
  rewrite (load_byte m (src + 2) i2) by (by apply (lookup_src _ _ _ 2 _ Hr)).
  unfold u64. rewrite Z.mod_small by lia.
  pose proof (b64_encode_group i0 i1 i2 bs) as Henc.
  destruct (Z.of_nat targsize <? d + 4) eqn:E4; bool_to_prop.
  { eexists _, _. split; [done|]. by eapply ntop_full_ok; [|exact Henc|]. }
  rewrite output0_eq, output1_eq, output2_eq, output3_eq by done.
  rewrite !digit_ok by dlia.
  edestruct (put_chars_ok target targsize m d) as (m1 & E1 & U1 & Hm1 & W1);
    [done|lia|lia| | |erewrite E1].
  { simpl. lia. } { rewrite !Forall_cons_iff. split_and!; (apply digit_char_u8 || constructor). }
  change (Z.of_nat (length [_; _; _; _])) with 4.
  assert (mread (mem m1) (src + 3) (length bs) = Some bs) as Hr1.
  { apply (mread_upd _ _ _ _ U1 Hap) in Hr. by apply (mread_drop _ _ _ 3) in Hr; [|simpl; lia]. }
  destruct (IH (src + 3) m1 (d + 4) fuel Hu3 Hr1) as (r & m2 & E2 & Hp); [|done|lia|simpl in Hf; lia|].
  { unfold apart in *. simpl in Hap. lia. }
  exists r, m2. split; [|by eapply ntop_group_ok; [|exact Henc|exact U1|exact W1|]].
  rewrite <- E2. unfold ntop_from, mbind, M_bind.
  by replace (Z.of_nat (length (i0 :: i1 :: i2 :: bs)) - 3) with (Z.of_nat (length bs)) by (simpl; lia).
Qed.
End Ntop.

(** [f_b64_ntop] is correct: given [length bs] bytes at [src] and a
    target of [targsize] bytes that does not overlap them, it returns; if the
    base-64 text and its terminating NUL fit it writes exactly these and
    returns the length of the text, otherwise it returns -1; and it never
    touches a byte outside the target. *)
Lemma f_b64_ntop_correct bs src target targsize m :
  Forall is_u8 bs -> mread (mem m) src (length bs) = Some bs ->
  mapped m target targsize -> apart target targsize src (length bs) ->
  Z.of_nat targsize < 2 ^ 31 ->
  ∃ r m', f_b64_ntop src (Z.of_nat (length bs)) target (Z.of_nat targsize) m = Ret r m' ∧
    heap m' = heap m ∧
    (∀ x, ~ (target <= x < target + Z.of_nat targsize) -> mem m' !! x = mem m !! x) ∧
    if (length (b64_encode bs) <? targsize)%nat
    then r = Z.of_nat (length (b64_encode bs)) ∧
         mread (mem m') target (length (b64_encode bs ++ [0])) = Some (b64_encode bs ++ [0])
    else r = -1.
Proof.
  intros Hu8 Hr Hm Hap Hmax.
  destruct (ntop_from_ok target targsize Hmax bs src m 0 (length bs))
    as (r & m' & E & U & Hp); [done..|lia|lia|].
  exists r, m'. split; [|split; [apply U|split; [apply U|]]].
  - rewrite <- E. unfold f_b64_ntop, ntop_from. by rewrite Nat2Z.id.
  - cbv zeta in Hp. rewrite Z.add_0_l, Z.add_0_r in Hp.
    destruct (length (b64_encode bs) <? targsize)%nat eqn:El.
    + apply Nat.ltb_lt in El. destruct (_ <? _) eqn:E'; bool_to_prop; [|lia].
      destruct Hp as [-> W]. split; [done|]. by eapply mread_mwrite_eq.
    + apply Nat.ltb_ge in El. destruct (_ <? _) eqn:E'; bool_to_prop; [lia|done].
Qed.

(** "Man" at 0x1000, a target of six bytes at 0x2000. *)
Definition b64_mem (bs : list Z) (n : nat) : mstate :=
  MState (mmap (mmap ∅ 0x1000 bs) 0x2000 (replicate n 0xAA)) ∅.
