(* ===== verification/Base64RT.v ===== *)
(** * f_b64_pton decodes exactly the base-64 texts *)

From S2P Require Import Prelude.
From S2P Require Import Memory.
From S2P Require Import MemFacts.
From S2P Require Import Base64.
From S2P Require Import DecSafe.
From S2P Require Import Base64Thms.

(** ** Sextets to bytes *)

(** The bytes of a sequence of digits, the last one perhaps incomplete. *)
Fixpoint pack (q : list Z) : list Z :=
  match q with
  | a :: b :: c :: d :: q =>
      a * 4 + b / 16 :: b mod 16 * 16 + c / 4 :: c mod 4 * 64 + d :: pack q
  | [a; b; c] => [a * 4 + b / 16; b mod 16 * 16 + c / 4; c mod 4 * 64]
  | [a; b] => [a * 4 + b / 16; b mod 16 * 16]
  | [a] => [a * 4]
  | [] => []
  end.

Lemma list_ind4 {A} (P : list A -> Prop) :
  P [] -> (∀ a, P [a]) -> (∀ a b, P [a; b]) -> (∀ a b c, P [a; b; c]) ->
  (∀ a b c d l, P l -> P (a :: b :: c :: d :: l)) -> ∀ l, P l.
Proof.
  intros H0 H1 H2 H3 H4 l. assert (∀ n (l : list A), (length l < n)%nat -> P l) as G.
  { intros n. induction n as [|n IH]; intros [|a [|b [|c [|d l']]]] Hl; simpl in Hl;
      try lia; auto. apply H4, IH. lia. }
  apply (G (S (length l))). lia.
Qed.

Lemma length_pack q : Z.of_nat (length (pack q)) = (3 * Z.of_nat (length q) + 3) / 4.
Proof.
  induction q as [|a|a b|a b c|a b c d q IH] using list_ind4; [done..|].
  cbn [pack length]. rewrite !Nat2Z.inj_succ, IH. dlia.
Qed.

Definition sextet (v : Z) : Prop := 0 <= v < 64.

(** The digit of a character. *)
Lemma strchr_digit v : sextet v -> strchr_Base64 (digit_char v) = Some v.
Proof.
  intros Hv. assert (forallb (fun i => bool_decide (strchr_Base64 (digit_char (Z.of_nat i)) = Some (Z.of_nat i)))
    (seq 0 64) = true) as HB by by vm_compute.
  rewrite forallb_forall in HB. specialize (HB (Z.to_nat v)).
  rewrite Z2Nat.id in HB by (unfold sextet in Hv; lia).
  eapply bool_decide_eq_true, HB. apply list_elem_of_In, elem_of_seq. unfold sextet in Hv. lia.
Qed.

Lemma strchr_Some c v : strchr_Base64 c = Some v -> sextet v ∧ c = digit_char v.
Proof.
  unfold strchr_Base64. destruct (list_find _ _) as [[i x]|] eqn:E; [|done]. intros [= <-].
  apply list_find_Some in E as (Hi & -> & _). unfold digit_char. rewrite Nat2Z.id, Hi.
  split; [|done]. apply lookup_lt_Some in Hi. vm_compute (length Base64) in Hi. unfold sextet. lia.
Qed.

(** ** Storing one digit *)

Section Pton.
Context (target : Z) (targsize : nat).
Local Abbreviation T := (rng target (Z.of_nat targsize)).
Hypothesis Hmax : Z.of_nat targsize < 2 ^ 31.
Hypothesis Htarget : target <> 0.

(** The target holds the bytes [l]. *)
Record holds (m : mstate) (l : list Z) : Prop := {
  holds_mapped : mapped m target targsize;
  holds_fit : (length l <= targsize)%nat;
  holds_bytes : mread (mem m) target (length l) = Some l;
}.

(** [tarindex] for complete bytes [D] and up to three more digits. *)
Definition index (D R : list Z) : Z :=
  Z.of_nat (length D) + (if decide (R = []) then 0 else Z.of_nat (length R) - 1).

Lemma mread_prefix m l1 l2 :
  mread (mem m) target (length (l1 ++ l2)) = Some (l1 ++ l2) ->
  mread (mem m) target (length l1) = Some l1.
Proof. intros Hr. by apply mread_app in Hr as [Hr _]. Qed.

Lemma u8_byte v : is_u8 v -> le_split 1 v = [v].
Proof. intros Hv. cbn [le_split]. by rewrite Z.mod_small. Qed.

(** Append a byte. *)
Lemma set_target_ok m l v :
  holds m l -> (length l < targsize)%nat -> is_u8 v ->
  ∃ m', set_target target (Z.of_nat (length l)) v m = Ret tt m' ∧ upd T m m' ∧ holds m' (l ++ [v]).
Proof.
  intros [Hm Hf Hb] Hl Hv. unfold set_target, store_u. rewrite u8_byte by done.
  destruct (store_target target targsize m (target + Z.of_nat (length l)) [v])
    as (m' & E & U & Hm' & W); [done|lia|simpl; lia|by constructor|].
  exists m'. split; [done|]. split; [done|]. split; [done|rewrite length_app; simpl; lia|].
  apply mread_app. split.
  - rewrite (mread_mwrite_ne _ _ _ _ _ _ W) by lia. done.
  - by apply mread_mwrite_eq in W.
Qed.

(** Complete the last byte. *)
Lemma or_target_ok m l b v :
  holds m (l ++ [b]) -> is_u8 (Z.lor b v) ->
  ∃ m', or_target target (Z.of_nat (length l)) v m = Ret tt m' ∧ upd T m m' ∧
    holds m' (l ++ [Z.lor b v]).
Proof.
  intros [Hm Hf Hb] Hv. rewrite length_app in Hf. simpl in Hf.
  pose proof (proj1 (mread_app _ _ _ _) Hb) as [Hb1 Hb2].
  assert (mem m !! (target + Z.of_nat (length l)) = Some b) as Hl.
  { simpl in Hb2. case_match; by simplify_eq. }
  unfold or_target, mbind, M_bind. rewrite (load_byte _ _ _ Hl).
  unfold store_u. rewrite u8_byte by done.
  destruct (store_target target targsize m (target + Z.of_nat (length l)) [Z.lor b v])
    as (m' & E & U & Hm' & W); [done|lia|simpl; lia|by constructor|].
  exists m'. split; [done|]. split; [done|]. split; [done|rewrite length_app; simpl; lia|].
  apply mread_app. split.
  - rewrite (mread_mwrite_ne _ _ _ _ _ _ W) by lia. done.
  - by apply mread_mwrite_eq in W.
Qed.

Lemma lor_low a b n : 0 <= n -> 0 <= b < 2 ^ n -> Z.lor (a * 2 ^ n) b = a * 2 ^ n + b.
Proof. intros Hn Hb. rewrite Z.lor_comm, lor_shift by done. lia. Qed.

(** Add a digit to an incomplete group. *)
Definition shift_in (D R : list Z) (v : Z) : list Z * list Z :=
  if (length R =? 3)%nat then (D ++ pack (R ++ [v]), []) else (D, R ++ [v]).

Lemma shift_in_length D R v : (length R < 4)%nat -> (length (shift_in D R v).2 < 4)%nat.
Proof.
  intros HR. unfold shift_in. destruct (length R =? 3)%nat eqn:E; simpl; [lia|].
  apply Nat.eqb_neq in E. rewrite length_app. simpl. lia.
Qed.

Lemma shift_in_pack D R v q :
  (length R < 4)%nat ->
  (shift_in D R v).1 ++ pack ((shift_in D R v).2 ++ q) = D ++ pack (R ++ v :: q).
Proof.
  intros HR. destruct R as [|a [|b [|c [|]]]]; simpl in HR; try lia; try done.
  unfold shift_in. simpl. by rewrite <- app_assoc.
Qed.

Lemma or_digit a v k n :
  n = 2 ^ k -> 0 <= k -> 0 <= v < n -> 0 <= a -> a * n + v < 256 ->
  Z.lor (a * n) v = a * n + v ∧ is_u8 (a * n + v).
Proof. intros -> Hk Hv Ha Hlt. split; [by apply lor_low|]. unfold is_u8. lia. Qed.

(** Complete the last byte and append another. *)
Lemma or_set_ok m l b hi lo :
  holds m (l ++ [b]) -> (length l + 2 <= targsize)%nat -> is_u8 (Z.lor b hi) -> is_u8 lo ->
  ∃ m', (∀ A (x : A), (_ ← or_target target (Z.of_nat (length l)) hi;
         _ ← set_target target (Z.of_nat (length l) + 1) lo; mret x) m = Ret x m') ∧
    upd T m m' ∧ holds m' (l ++ [Z.lor b hi; lo]).
Proof.
  intros Hh Hl Hhi Hlo. destruct (or_target_ok m l b hi Hh Hhi) as (m1 & E1 & U1 & Hh1).
  destruct (set_target_ok m1 (l ++ [Z.lor b hi]) lo Hh1) as (m2 & E2 & U2 & Hh2);
    [rewrite length_app; simpl; lia|done|].
  exists m2. rewrite <- app_assoc in Hh2. split_and!; [|by eapply upd_trans|done].
  intros A x. unfold mbind, M_bind. rewrite E1. rewrite length_app in E2. simpl in E2.
  replace (Z.of_nat (length l) + 1) with (Z.of_nat (length l + 1)) by lia. by rewrite E2.
Qed.

Lemma pton_digit_full m D R v :
  holds m (D ++ pack R) -> (length R < 4)%nat -> (targsize < length (D ++ pack (R ++ [v])))%nat ->
  pton_digit target (Z.of_nat targsize) (index D R) (Z.of_nat (length R)) v m = Ret None m.
Proof.
  intros [_ Hf _] HR Hn. unfold pton_digit, index. rewrite length_app in Hf, Hn.
  rewrite (proj2 (Z.eqb_neq target 0) Htarget).
  destruct R as [|a [|b [|c [|]]]]; simpl in *; try lia; unfold u32;
    rewrite ?Z.mod_small by lia;
    destruct (Z.of_nat targsize <=? _) eqn:E; bool_to_prop; (lia || done).
Qed.

(** The four arms of the switch, when the target is large enough. *)
Definition arm (D : list Z) (k v : Z) (m : mstate) :=
  pton_digit target (Z.of_nat targsize) (Z.of_nat (length D)) k v m.

Lemma arm_0 m D v :
  holds m D -> sextet v -> (length D + 1 <= targsize)%nat ->
  ∃ m', arm D 0 v m = Ret (Some (Z.of_nat (length D), 1)) m' ∧ upd T m m' ∧ holds m' (D ++ [v * 4]).
Proof.
  intros Hh Hv Hn. unfold arm, pton_digit, sextet in *. rewrite (proj2 (Z.eqb_neq target 0) Htarget).
  rewrite Z.shiftl_mul_pow2 by lia. simpl (_ =? _). cbv iota.
  destruct (_ <=? _) eqn:E; bool_to_prop; [lia|].
  destruct (set_target_ok m D (v * 2 ^ 2) Hh) as (m' & E1 & U & Hh'); [lia|unfold is_u8; lia|].
  exists m'. unfold mbind, M_bind. by rewrite E1.
Qed.

Lemma arm_1 m D a v :
  holds m (D ++ [a * 4]) -> sextet a -> sextet v -> (length D + 2 <= targsize)%nat ->
  ∃ m', arm D 1 v m = Ret (Some (Z.of_nat (length D) + 1, 2)) m' ∧ upd T m m' ∧
    holds m' (D ++ [a * 4 + v / 16; v mod 16 * 16]).
Proof.
  intros Hh Ha Hv Hn. unfold arm, pton_digit, sextet in *. rewrite (proj2 (Z.eqb_neq target 0) Htarget).
  change (Z.land v 0x0f) with (Z.land v (Z.ones 4)).
  rewrite !Z.land_ones, !Z.shiftl_mul_pow2, !Z.shiftr_div_pow2 by lia. simpl (_ =? _). cbv iota.
  unfold u32. rewrite Z.mod_small by lia. destruct (_ <=? _) eqn:E; bool_to_prop; [lia|].
  destruct (or_digit a (v / 16) 2 4 eq_refl ltac:(lia)) as [Eor Hu]; [dlia..|].
  destruct (or_set_ok m D (a * 4) (v / 16) (v mod 16 * 16)) as (m' & E1 & U & Hh');
    [done|lia|by rewrite Eor|unfold is_u8; dlia|].
  exists m'. rewrite Eor in Hh'. split_and!; [apply E1|done|done].
Qed.

Lemma arm_2 m D b v :
  holds m (D ++ [b mod 16 * 16]) -> sextet v -> (length D + 2 <= targsize)%nat ->
  ∃ m', arm D 2 v m = Ret (Some (Z.of_nat (length D) + 1, 3)) m' ∧ upd T m m' ∧
    holds m' (D ++ [b mod 16 * 16 + v / 4; v mod 4 * 64]).
Proof.
  intros Hh Hv Hn. unfold arm, pton_digit, sextet in *. rewrite (proj2 (Z.eqb_neq target 0) Htarget).
  change (Z.land v 0x03) with (Z.land v (Z.ones 2)).
  rewrite !Z.land_ones, !Z.shiftl_mul_pow2, !Z.shiftr_div_pow2 by lia. simpl (_ =? _). cbv iota.
  unfold u32. rewrite Z.mod_small by lia. destruct (_ <=? _) eqn:E; bool_to_prop; [lia|].
  destruct (or_digit (b mod 16) (v / 4) 4 16 eq_refl ltac:(lia)) as [Eor Hu]; [dlia..|].
  destruct (or_set_ok m D (b mod 16 * 16) (v / 4) (v mod 4 * 64)) as (m' & E1 & U & Hh');
    [done|lia|by rewrite Eor|unfold is_u8; dlia|].
  exists m'. rewrite Eor in Hh'. split_and!; [apply E1|done|done].
Qed.

Lemma arm_3 m D c v :
  holds m (D ++ [c mod 4 * 64]) -> sextet v -> (length D + 1 <= targsize)%nat ->
  ∃ m', arm D 3 v m = Ret (Some (Z.of_nat (length D) + 1, 0)) m' ∧ upd T m m' ∧
    holds m' (D ++ [c mod 4 * 64 + v]).
Proof.
  intros Hh Hv Hn. unfold arm, pton_digit, sextet in *. rewrite (proj2 (Z.eqb_neq target 0) Htarget).
  simpl (_ =? _). cbv iota. unfold u32. rewrite Z.mod_small by lia.
  destruct (_ <=? _) eqn:E; bool_to_prop; [lia|].
  destruct (or_digit (c mod 4) v 6 64 eq_refl ltac:(lia)) as [Eor Hu]; [dlia..|].
  destruct (or_target_ok m D (c mod 4 * 64) v Hh) as (m' & E1 & U & Hh'); [by rewrite Eor|].
  exists m'. unfold mbind, M_bind. rewrite E1, Eor in *. done.
Qed.

Lemma arm_eq D k v m ti k0 r r' m' :
  arm D k v m = Ret (Some r) m' -> ti = Z.of_nat (length D) -> k0 = k -> r' = r ->
  pton_digit target (Z.of_nat targsize) ti k0 v m = Ret (Some r') m'.
Proof. by intros E -> -> ->. Qed.

Lemma pton_digit_ok m D R v :
  holds m (D ++ pack R) -> (length R < 4)%nat -> Forall sextet R -> sextet v ->
  (length (D ++ pack (R ++ [v])) <= targsize)%nat ->
  ∃ m', pton_digit target (Z.of_nat targsize) (index D R) (Z.of_nat (length R)) v m
    = Ret (Some (index (shift_in D R v).1 (shift_in D R v).2,
                 Z.of_nat (length (shift_in D R v).2))) m' ∧
    upd T m m' ∧ holds m' (D ++ pack (R ++ [v])).
Proof.
  intros Hh HR Hs Hv Hn. rewrite length_app in Hn. unfold index.
  destruct R as [|a [|b [|c [|]]]]; simpl in HR; try lia; cbn [pack app] in *.
  - rewrite app_nil_r in Hh. destruct (arm_0 m D v) as (m' & E & U & Hh'); [done|done|simpl in Hn; lia|].
    exists m'. split_and!; [|done|done]. eapply arm_eq; [exact E|simpl; lia|done|simpl; f_equal; lia].
  - apply Forall_cons_iff in Hs as [Ha _].
    destruct (arm_1 m D a v) as (m' & E & U & Hh'); [done|done|done|simpl in Hn; lia|].
    exists m'. split_and!; [|done|done]. eapply arm_eq; [exact E|simpl; lia|done|simpl; f_equal; lia].
  - destruct (arm_2 m (D ++ [a * 4 + b / 16]) b v) as (m' & E & U & Hh');
      [by rewrite <- app_assoc|done|rewrite length_app; simpl in *; lia|].
    rewrite <- app_assoc in Hh'. exists m'. split_and!; [|done|done].
    eapply arm_eq; [exact E|rewrite length_app; simpl; lia|done|].
    rewrite length_app. simpl. f_equal. lia.
  - set (xy := [a * 4 + b / 16; b mod 16 * 16 + c / 4]) in *.
    destruct (arm_3 m (D ++ xy) c v) as (m' & E & U & Hh');
      [by rewrite <- app_assoc|done|rewrite length_app; simpl in *; lia|].
    rewrite <- app_assoc in Hh'. exists m'. split_and!; [|done|done].
    eapply arm_eq; [exact E|rewrite length_app; simpl; lia|done|].
    unfold shift_in. simpl. rewrite !length_app. simpl. f_equal. lia.
Qed.

(** ** The loop *)

Definition text (c : Z) : Prop := 0 < c < 128.

Lemma load_text m src c cs :
  mread (mem m) src (length (c :: cs)) = Some (c :: cs) -> 0 <= c < 128 ->
  load_char src m = Ret c m ∧ mread (mem m) (src + 1) (length cs) = Some cs.
Proof.
  intros Hr Hc. split; [|by apply (mread_drop _ _ _ 1 Hr); simpl; lia].
  pose proof (lookup_src _ _ _ 0 _ Hr eq_refl) as Hl. rewrite Z.add_0_r in Hl.
  unfold load_char, load_s, mbind, M_bind. rewrite (load_byte _ _ _ Hl).
  unfold mret, M_ret. f_equal. apply swrap_small; simpl; lia.
Qed.

Lemma isspace_text c : text c -> isspace c = Some (bool_decide (is_space c)).
Proof.
  intros Hc. destruct (isspace c) as [[]|] eqn:E.
  - by rewrite bool_decide_true.
  - rewrite bool_decide_false; [done|]. unfold is_space. by rewrite E.
  - exfalso. unfold isspace in E. destruct (_ && _) eqn:E'; [done|]. unfold text in Hc.
    apply andb_false_iff in E' as [E'|E']; bool_to_prop; lia.
Qed.

(** The leading digits of a text, and what follows. *)
Fixpoint digits_of (t : list Z) : list Z * list Z :=
  match t with
  | [] => ([], [])
  | c :: t' =>
      match strchr_Base64 c with
      | Some v => (v :: (digits_of t').1, (digits_of t').2)
      | None => ([], t)
      end
  end.

(** A string in memory, out of the way of the target. *)
Record string_at (m : mstate) (src : Z) (cs : list Z) : Prop := {
  str_bytes : mread (mem m) src (length (cs ++ [0])) = Some (cs ++ [0]);
  str_text : Forall text cs;
  str_apart : apart target targsize src (length (cs ++ [0]));
}.

Lemma string_cons m src c cs :
  string_at m src (c :: cs) -> load_char src m = Ret c m ∧ text c ∧ string_at m (src + 1) cs.
Proof.
  intros [Hb Ht Ha]. apply Forall_cons_iff in Ht as [Hc Ht]. unfold text in Hc.
  destruct (load_text m src c (cs ++ [0]) Hb ltac:(lia)) as [Hl Hr].
  split_and!; [done|done|]. split; [done|done|]. unfold apart in *.
  rewrite <- app_comm_cons in Ha. cbn [length] in Ha. lia.
Qed.

Lemma string_nil m src : string_at m src [] -> load_char src m = Ret 0 m.
Proof. intros [Hb _ _]. by apply (load_text m src 0 [] Hb). Qed.

Lemma string_upd m m' src cs : upd T m m' -> string_at m src cs -> string_at m' src cs.
Proof. intros U [Hb Ht Ha]. split; [by eapply mread_upd|done|done]. Qed.

(** Where the loop stops: the digits [q] are stored and [ch], [src], [ti],
    [st] are the variables. *)
Definition stopped (D R q : list Z) (ti st : Z) (m : mstate) : Prop :=
  ∃ D' R', (length R' < 4)%nat ∧ D' ++ pack R' = D ++ pack (R ++ q) ∧
    ti = index D' R' ∧ st = Z.of_nat (length R') ∧
    (length R' = (length R + length q) mod 4)%nat ∧ holds m (D' ++ pack R').

Definition loop_post (D R : list Z) (src : Z) (cs : list Z) (r : option (Z * Z * Z * Z))
    (m' : mstate) : Prop :=
  let q := (digits_of (strip cs)).1 in
  if (length (D ++ pack (R ++ q)) <=? targsize)%nat then
    match (digits_of (strip cs)).2 with
    | [] => ∃ src' ti st, r = Some (0, src', ti, st) ∧ stopped D R q ti st m'
    | c :: t =>
        if c =? Pad64
        then ∃ src' ti st cs', r = Some (Pad64, src', ti, st) ∧ stopped D R q ti st m' ∧
               string_at m' src' cs' ∧ strip cs' = t ∧ (length cs' < length cs)%nat
        else r = None
    end
  else r = None.

Lemma pack_mono R v q : (length (pack (R ++ [v])) <= length (pack (R ++ v :: q)))%nat.
Proof.
  pose proof (length_pack (R ++ [v])). pose proof (length_pack (R ++ v :: q)).
  rewrite !length_app in *. simpl in *. dlia.
Qed.

Lemma stopped_here D R m : (length R < 4)%nat -> holds m (D ++ pack R) ->
  stopped D R [] (index D R) (Z.of_nat (length R)) m.
Proof.
  intros HR Hh. exists D, R. rewrite app_nil_r. split_and!; try done.
  cbn [length]. by rewrite Nat.add_0_r, Nat.mod_small.
Qed.

Lemma stopped_shift D R v q ti st m :
  (length R < 4)%nat ->
  stopped (shift_in D R v).1 (shift_in D R v).2 q ti st m -> stopped D R (v :: q) ti st m.
Proof.
  intros HR (D' & R' & HR' & Hp & Hti & Hst & Hmod & Hh). exists D', R'.
  rewrite shift_in_pack in Hp by done. split_and!; try done.
  rewrite Hmod. unfold shift_in. destruct (length R =? 3)%nat eqn:E; cbn [fst snd length].
  - apply Nat.eqb_eq in E. rewrite E. replace (3 + S (length q))%nat with (length q + 1 * 4)%nat by lia.
    by rewrite Nat.Div0.mod_add.
  - rewrite length_app. cbn [length]. f_equal. lia.
Qed.

Lemma strip_space c cs : is_space c -> strip (c :: cs) = strip cs.
Proof. intros Hc. unfold strip. rewrite filter_cons_False; [done|]. naive_solver. Qed.

Lemma strip_char c cs : ~ is_space c -> strip (c :: cs) = c :: strip cs.
Proof. intros Hc. unfold strip. by rewrite filter_cons_True. Qed.

Lemma loop_post_space D R src c cs r m :
  is_space c -> loop_post D R (src + 1) cs r m -> loop_post D R src (c :: cs) r m.
Proof.
  intros Hsp Hp. unfold loop_post in *.
  rewrite (strip_space _ _ Hsp). destruct (_ <=? _)%nat; [|done].
  destruct (digits_of (strip cs)).2 as [|x t]; [done|]. destruct (x =? Pad64); [|done].
  destruct Hp as (src' & ti & st & cs' & ? & ? & ? & ? & ?).
  exists src', ti, st, cs'. split_and!; [done..|simpl; lia].
Qed.

Lemma loop_post_digit D R src c v cs r m :
  ~ is_space c -> strchr_Base64 c = Some v -> (length R < 4)%nat ->
  loop_post (shift_in D R v).1 (shift_in D R v).2 (src + 1) cs r m ->
  loop_post D R src (c :: cs) r m.
Proof.
  intros Hsp Ev HR Hp. unfold loop_post in *. rewrite (strip_char _ _ Hsp). cbn [digits_of].
  rewrite Ev. cbn [fst snd]. rewrite (shift_in_pack D R v) in Hp by done.
  destruct (_ <=? _)%nat; [|done].
  destruct (digits_of (strip cs)).2 as [|x t].
  - destruct Hp as (src' & ti & st & -> & Hst). eexists _, _, _. split; [done|].
    by apply stopped_shift.
  - destruct (x =? Pad64); [|done].
    destruct Hp as (src' & ti & st & cs' & -> & Hst & ? & ? & ?).
    eexists _, _, _, cs'. split_and!; [done|by apply stopped_shift|done|done|simpl; lia].
Qed.

Lemma pton_loop_ok cs : ∀ fuel src m D R,
  string_at m src cs -> holds m (D ++ pack R) -> (length R < 4)%nat -> Forall sextet R ->
  (length cs < fuel)%nat ->
  ∃ r m', pton_loop fuel src target (Z.of_nat targsize) (index D R) (Z.of_nat (length R)) m
    = Ret r m' ∧ upd T m m' ∧ loop_post D R src cs r m'.
Proof.
  induction cs as [|c cs IH]; intros fuel src m D R Hs Hh HR HsR Hf;
    (destruct fuel as [|fuel]; [lia|]); cbn [pton_loop]; unfold mbind, M_bind.
  { rewrite (string_nil _ _ Hs). eexists _, m. split; [done|]. split; [apply upd_refl|].
    unfold loop_post. simpl. rewrite app_nil_r.
    rewrite (proj2 (Nat.leb_le _ _) (holds_fit _ _ Hh)).
    eexists _, _, _. split; [done|]. by apply stopped_here. }
  destruct (string_cons _ _ _ _ Hs) as (Hl & Hc & Hs'). rewrite Hl.
  destruct (c =? 0) eqn:E0; bool_to_prop; [unfold text in Hc; lia|].
  unfold mdefined. rewrite (isspace_text c Hc). case_bool_decide as Hsp.
  { destruct (IH fuel (src + 1) m D R) as (r & m' & E & U & Hp); [done..|simpl in Hf; lia|].
    exists r, m'. split_and!; [done|done|]. by apply loop_post_space. }
  destruct (c =? Pad64) eqn:Ep; bool_to_prop.
  { subst c. unfold loop_post. rewrite (strip_char _ _ Hsp). cbn [digits_of]. change (strchr_Base64 Pad64) with (None : option Z). cbn [fst snd].
    eexists _, m. split; [done|]. split; [apply upd_refl|]. rewrite app_nil_r.
    rewrite (proj2 (Nat.leb_le _ _) (holds_fit _ _ Hh)), Z.eqb_refl.
    eexists _, _, _, cs. split_and!; [done|by apply stopped_here|done|done|simpl; lia]. }
  destruct (strchr_Base64 c) as [v|] eqn:Ev.
  2: { eexists _, m. split; [done|]. split; [apply upd_refl|].
       unfold loop_post. rewrite (strip_char _ _ Hsp). cbn [digits_of]. rewrite Ev. cbn [fst snd].
       destruct (_ <=? _)%nat; [|done]. by apply Z.eqb_neq in Ep as ->. }
  pose proof (strchr_Some _ _ Ev) as [Hv _].
  destruct (decide (length (D ++ pack (R ++ [v])) <= targsize)%nat) as [Hfit|Hfull].
  2: { rewrite pton_digit_full by (done || lia). eexists _, m. split; [done|].
       split; [apply upd_refl|].
       unfold loop_post. rewrite (strip_char _ _ Hsp). cbn [digits_of]. rewrite Ev. cbn [fst snd].
       rewrite (proj2 (Nat.leb_gt _ _)); [done|].
       pose proof (pack_mono R v (digits_of (strip cs)).1). rewrite !length_app in *. lia. }
  destruct (pton_digit_ok m D R v Hh HR HsR Hv Hfit) as (m1 & E1 & U1 & Hh1). rewrite E1.
  destruct (IH fuel (src + 1) m1 (shift_in D R v).1 (shift_in D R v).2)
    as (r & m' & E & U & Hp).
  - by eapply string_upd.
  - rewrite <- (app_nil_r (shift_in D R v).2). by rewrite shift_in_pack.
  - by apply shift_in_length.
  - unfold shift_in. destruct (length R =? 3)%nat; [constructor|]. apply Forall_app. by split; [|constructor].
  - simpl in Hf. lia.
  - exists r, m'. split_and!; [done|by eapply upd_trans|]. by eapply loop_post_digit.
Qed.

(** ** The padding *)

(** Read on to the next character that is no space. *)
Lemma next_char_ok cs : ∀ fuel src m,
  string_at m src cs -> (length cs <= fuel)%nat ->
  ∃ ch src', (ch ← load_char src; skip_spaces fuel ch (src + 1)) m = Ret (ch, src') m ∧
    match strip cs with
    | [] => ch = 0
    | c :: t => ch = c ∧ text c ∧ ∃ cs', string_at m src' cs' ∧ strip cs' = t ∧
                  (length cs' < length cs)%nat
    end.
Proof.
  induction cs as [|c cs IH]; intros fuel src m Hs Hf; unfold mbind, M_bind.
  { rewrite (string_nil _ _ Hs). exists 0, (src + 1). by destruct fuel. }
  destruct (string_cons _ _ _ _ Hs) as (Hl & Hc & Hs'). rewrite Hl.
  destruct fuel as [|fuel]; [simpl in Hf; lia|]. cbn [skip_spaces].
  destruct (c =? 0) eqn:E0; bool_to_prop; [unfold text in Hc; lia|].
  unfold mbind, M_bind, mdefined. rewrite (isspace_text c Hc). case_bool_decide as Hsp; cbn [negb].
  - destruct (IH fuel (src + 1) m Hs') as (ch & src' & E & Hp); [simpl in Hf; lia|].
    exists ch, src'. split; [exact E|]. rewrite (strip_space _ _ Hsp).
    destruct (strip cs) as [|x t]; [done|].
    destruct Hp as (-> & Hx & cs' & ? & ? & ?). split; [done|]. split; [done|].
    exists cs'. split_and!; [done|done|simpl; lia].
  - exists c, (src + 1). split; [done|]. rewrite (strip_char _ _ Hsp). split; [done|].
    split; [done|]. exists cs. split_and!; [done|done|simpl; lia].
Qed.

(** The bytes of the digits but for the incomplete one, which must be 0. *)
Definition clean (b : list Z) (n : Z) : option (list Z) :=
  let k := Z.to_nat n in
  if bool_decide (b !! k = Some 0) then Some (take k b) else None.

Lemma pton_tail_ok cs fuel src m b n :
  string_at m src cs -> (length cs <= fuel)%nat -> holds m b -> 0 <= n < Z.of_nat (length b) ->
  (ch ← load_char src; pton_tail fuel ch (src + 1) target n) m =
    Ret (match strip cs, clean b n with [], Some _ => n | _, _ => -1 end) m.
Proof.
  intros Hs Hf Hh Hn. destruct (next_char_ok cs fuel src m Hs Hf) as (ch & src' & E & Hp).
  unfold mbind, M_bind in *. destruct (load_char src m) as [c0 m0| |]; [|done..].
  unfold pton_tail, mbind, M_bind. rewrite E. cbn [fst].
  destruct (strip cs) as [|x t].
  - subst ch. cbn [Z.eqb negb]. rewrite (proj2 (Z.eqb_neq target 0) Htarget).
    destruct (lookup_lt_is_Some_2 b (Z.to_nat n)) as [y Hy]; [lia|].
    pose proof (lookup_src _ _ _ _ _ (holds_bytes _ _ Hh) Hy) as Hl.
    rewrite Z2Nat.id in Hl by lia. rewrite (load_byte _ _ _ Hl).
    unfold clean. rewrite Hy. pose proof (holds_fit _ _ Hh).
    destruct (y =? 0) eqn:Ey; bool_to_prop; cbn [negb].
    + subst y. rewrite bool_decide_true by done. unfold mret, M_ret. f_equal.
      apply swrap_small; simpl; lia.
    + rewrite bool_decide_false by (by intros [= ->]). done.
  - destruct Hp as (-> & Hx & _). unfold text in Hx.
    destruct (x =? 0) eqn:Ex; bool_to_prop; [lia|]. done.
Qed.

(** ** The whole function *)

(** What a text with the digits [q] followed by [t] means: its bytes, or
    [None] when it is no base-64 text. *)
Definition verdict (q t : list Z) : option (list Z) :=
  let b := pack q in
  let last_clean := clean b (Z.of_nat (length b) - 1) in
  match (length q mod 4)%nat, t with
  | 0%nat, [] => Some b
  | 2%nat, [c; c'] => if (c =? Pad64) && (c' =? Pad64) then last_clean else None
  | 3%nat, [c] => if c =? Pad64 then last_clean else None
  | _, _ => None
  end.

Definition pton_post (v : option (list Z)) (r : Z) (m' : mstate) : Prop :=
  match v with
  | Some bs => r = Z.of_nat (length bs) ∧ mread (mem m') target (length bs) = Some bs
  | None => r = -1
  end.

Lemma clean_post m b n :
  holds m b -> 0 <= n < Z.of_nat (length b) ->
  pton_post (clean b n) (match clean b n with Some _ => n | None => -1 end) m.
Proof.
  intros Hh Hn. unfold pton_post, clean. case_bool_decide; [|done].
  rewrite length_take_le by lia. split; [lia|].
  pose proof (mread_take _ _ _ (Z.to_nat n) (holds_bytes _ _ Hh)) as Hr.
  by rewrite length_take_le in Hr by lia.
Qed.

(** [tarindex] is the number of bytes, less an incomplete one. *)
Lemma index_pack D R :
  (1 < length R < 4)%nat ->
  index D R = Z.of_nat (length (D ++ pack R)) - 1.
Proof.
  intros HR. unfold index. rewrite length_app.
  destruct R as [|a [|b [|c [|]]]]; simpl in *; lia.
Qed.

Lemma pton_end_01 fuel src n k :
  k = 0 \/ k = 1 -> pton_end fuel Pad64 src target n k = (_ ← load_char src; mret (-1)).
Proof. by intros [-> | ->]. Qed.

Lemma pton_end_2 fuel src n :
  pton_end fuel Pad64 src target n 2 =
    (ch ← load_char src;
     r ← skip_spaces fuel ch (src + 1);
     if negb (r.1 =? Pad64) then mret (-1)
     else ch ← load_char r.2; pton_tail fuel ch (r.2 + 1) target n).
Proof. done. Qed.

Lemma pton_end_3 fuel src n :
  pton_end fuel Pad64 src target n 3 =
    (ch ← load_char src; pton_tail fuel ch (src + 1) target n).
Proof. done. Qed.

Lemma pton_pad_ok fuel src m D R cs :
  string_at m src cs -> (length cs <= fuel)%nat -> (length R < 4)%nat ->
  holds m (D ++ pack R) ->
  ∃ r, pton_end fuel Pad64 src target (index D R) (Z.of_nat (length R)) m = Ret r m ∧
    pton_post (match length R, strip cs with
               | 2%nat, [c'] => if c' =? Pad64
                   then clean (D ++ pack R) (Z.of_nat (length (D ++ pack R)) - 1) else None
               | 3%nat, [] => clean (D ++ pack R) (Z.of_nat (length (D ++ pack R)) - 1)
               | _, _ => None
               end) r m.
Proof.
  intros Hs Hf HR Hh.
  destruct (next_char_ok cs fuel src m Hs Hf) as (ch & src' & E & Hp).
  assert (∃ c0, load_char src m = Ret c0 m) as [c0 E0].
  { destruct cs; [rewrite (string_nil _ _ Hs); eauto|].
    destruct (string_cons _ _ _ _ Hs) as (-> & _). eauto. }
  unfold mbind, M_bind in E. rewrite E0 in E. set (b := D ++ pack R) in *.
  destruct (length R) as [|[|[|[|]]]] eqn:ER; try lia.
  1-2: rewrite pton_end_01 by (simpl; lia); unfold mbind, M_bind; rewrite E0; by eexists.
  - pose proof (index_pack D R ltac:(lia)) as Hix. fold b in Hix. rewrite Hix.
    assert (0 <= Z.of_nat (length b) - 1 < Z.of_nat (length b)) as Hb.
    { unfold b. rewrite length_app. pose proof (length_pack R). rewrite ER in *. dlia. }
    change (Z.of_nat 2) with 2. rewrite pton_end_2. unfold mbind, M_bind. rewrite E0, E.
    cbn [fst snd]. destruct (strip cs) as [|x t]; [subst ch; by eexists|].
    destruct Hp as (-> & Hx & cs' & Hs' & Ht & Hl). destruct (x =? Pad64) eqn:Ex; cbn [negb].
    2: { eexists. split; [done|]. by destruct t. }
    pose proof (pton_tail_ok cs' fuel src' m b _ Hs' ltac:(lia) Hh Hb) as Et.
    unfold mbind, M_bind in Et. rewrite Et, Ht. eexists. split; [done|].
    destruct t as [|? t]; [by apply clean_post|done].
  - pose proof (index_pack D R ltac:(lia)) as Hix. fold b in Hix. rewrite Hix.
    assert (0 <= Z.of_nat (length b) - 1 < Z.of_nat (length b)) as Hb.
    { unfold b. rewrite length_app. pose proof (length_pack R). rewrite ER in *. dlia. }
    pose proof (pton_tail_ok cs fuel src m b _ Hs Hf Hh Hb) as Et.
    change (Z.of_nat 3) with 3. rewrite pton_end_3, Et. eexists. split; [done|].
    destruct (strip cs) as [|? t]; [by apply clean_post|done].
Qed.

Lemma f_b64_pton_ok cs fuel src m :
  string_at m src cs -> mapped m target targsize -> (length cs < fuel)%nat ->
  let q := (digits_of (strip cs)).1 in
  let t := (digits_of (strip cs)).2 in
  ∃ r m', f_b64_pton fuel src target (Z.of_nat targsize) m = Ret r m' ∧ upd T m m' ∧
    pton_post (if (length (pack q) <=? targsize)%nat then verdict q t else None) r m'.
Proof.
  intros Hs Hm Hf q t.
  destruct (pton_loop_ok cs fuel src m [] []) as (r & m' & E & U & Hp);
    [done|split; [done|simpl; lia|done]|simpl; lia|constructor|done|].
  unfold f_b64_pton, mbind, M_bind.
  change (pton_loop fuel src target (Z.of_nat targsize) 0 0 m = Ret r m') in E. rewrite E.
  unfold loop_post in Hp. cbn [app] in Hp. fold q t in Hp.
  destruct (length (pack q) <=? targsize)%nat; [|subst r; by eexists _, m'].
  destruct t as [|c t].
  - destruct Hp as (src' & ti & st & -> & D' & R' & HR & Hpk & -> & -> & Hmod & Hh).
    cbn [app] in Hpk. cbn [length Nat.add] in Hmod. unfold pton_end. change (0 =? Pad64) with false. cbv iota.
    rewrite Hpk in Hh. unfold verdict. rewrite <- Hmod.
    destruct (length R') as [|[|[|[|]]]] eqn:ER; try lia; simpl (_ =? _); cbn [negb]; try by eexists _, m'.
    eexists _, m'. split; [done|]. split; [done|]. destruct R'; [|done]. rewrite app_nil_r in Hpk.
    unfold index. rewrite decide_True by done. rewrite Hpk, Z.add_0_r. split; [|apply Hh].
    pose proof (holds_fit _ _ Hh). apply swrap_small; simpl; lia.
  - destruct (c =? Pad64) eqn:Ec.
    + destruct Hp as (src' & ti & st & cs' & -> & (D' & R' & HR & Hpk & -> & -> & Hmod & Hh) & Hs' & Ht & Hl).
      cbn [app] in Hpk. cbn [length Nat.add] in Hmod. destruct (pton_pad_ok fuel src' m' D' R' cs' Hs' ltac:(lia) HR Hh)
        as (r & Er & Hpost). exists r, m'. split; [exact Er|]. split; [done|].
      unfold verdict. rewrite <- Hmod, Ec, <- Ht. rewrite Hpk in Hpost.
      destruct (length R') as [|[|[|[|]]]]; try lia; try done.
    + subst r. eexists _, m'. split; [done|]. split; [done|]. unfold verdict.
      destruct (length q mod 4)%nat as [|[|[|[|]]]]; try done; rewrite Ec; by destruct t as [|? [|]].
Qed.
End Pton.

(** * Base-64 texts: decoding and encoding are inverse

    The verdict of [f_b64_pton] on a text, compared with [b64_encode]; then
    the theorems on the C function and the round trip. *)

(** ** Digits of bytes, bytes of digits *)

(** The incomplete byte the decoder leaves behind. *)
Definition leftover (n : nat) : list Z := if (pads n =? 0)%nat then [] else [0].

Lemma pads_3 n : pads (S (S (S n))) = pads n.
Proof.
  unfold pads. replace (S (S (S n))) with (n + 1 * 3)%nat by lia. by rewrite Nat.Div0.mod_add.
Qed.

Lemma pack_sextets bs : Forall is_u8 bs -> pack (sextets bs) = bs ++ leftover (length bs).
Proof.
  induction bs as [|a|a b|a b c bs IH] using list_ind3; intros Hu8.
  - done.
  - apply Forall_cons_iff in Hu8 as [Ha%u8_range _]. cbn [sextets pack]. unfold leftover. simpl.
    f_equal; [dlia|]. f_equal. dlia.
  - apply Forall_cons_iff in Hu8 as [Ha%u8_range [Hb%u8_range _]%Forall_cons_iff].
    cbn [sextets pack]. unfold leftover. simpl. f_equal; [dlia|]. f_equal; [dlia|]. f_equal. dlia.
  - apply Forall_cons_iff in Hu8 as [Ha%u8_range [Hb%u8_range [Hc%u8_range Hu8]%Forall_cons_iff]%Forall_cons_iff].
    cbn [sextets pack length]. unfold leftover. rewrite pads_3, (IH Hu8). unfold leftover.
    simpl. f_equal; [dlia|]. f_equal; [dlia|]. f_equal. dlia.
Qed.

Lemma sextets_sextet bs : Forall is_u8 bs -> Forall sextet (sextets bs).
Proof.
  unfold sextet. induction bs as [|a|a b|a b c bs IH] using list_ind3; intros Hu8.
  - constructor.
  - apply Forall_cons_iff in Hu8 as [Ha%u8_range _]. repeat constructor; dlia.
  - apply Forall_cons_iff in Hu8 as [Ha%u8_range [Hb%u8_range _]%Forall_cons_iff].
    repeat constructor; dlia.
  - apply Forall_cons_iff in Hu8 as [Ha%u8_range [Hb%u8_range [Hc%u8_range Hu8]%Forall_cons_iff]%Forall_cons_iff].
    cbn [sextets]. repeat (constructor; [dlia|]). by apply IH.
Qed.

(** How many digits the last group has. *)
Definition last_group (n : nat) : nat :=
  match pads n with 2%nat => 2%nat | 1%nat => 3%nat | _ => 0%nat end.

Lemma last_group_3 n : last_group (S (S (S n))) = last_group n.
Proof. unfold last_group. by rewrite pads_3. Qed.

Lemma length_sextets bs : (length (sextets bs) mod 4 = last_group (length bs))%nat.
Proof.
  induction bs as [|a|a b|a b c bs IH] using list_ind3; [done..|].
  cbn [sextets length]. rewrite last_group_3, <- IH.
  replace (S (S (S (S (length (sextets bs)))))) with (length (sextets bs) + 1 * 4)%nat by lia.
  by rewrite Nat.Div0.mod_add.
Qed.

Lemma leftover_group n : leftover n = if (last_group n =? 0)%nat then [] else [0].
Proof. unfold leftover, last_group, pads. by destruct (n mod 3)%nat as [|[|[|]]]. Qed.

Lemma last_group_cases n : last_group n = 0%nat \/ last_group n = 2%nat \/ last_group n = 3%nat.
Proof. unfold last_group. destruct (pads n) as [|[|[|]]]; auto. Qed.

(** Two lists of different lengths are not equal. *)
Ltac by_length H :=
  exfalso; apply (f_equal length) in H; simpl in H; rewrite ?length_app in H; simpl in H; lia.

(** Digits that leave no bits over come from their bytes. *)
Lemma sextets_pack q : ∀ bs,
  Forall sextet q -> (length q mod 4 = last_group (length bs))%nat ->
  pack q = bs ++ leftover (length bs) -> sextets bs = q ∧ Forall is_u8 bs.
Proof.
  unfold sextet, is_u8.
  induction q as [|a|a b|a b c|a b c d q IH] using list_ind4; intros bs Hs Hl Hp;
    rewrite leftover_group, <- Hl in Hp.
  - destruct bs; [done|]. by apply (f_equal length) in Hp.
  - destruct (last_group_cases (length bs)) as [E|[E|E]]; rewrite E in Hl; done.
  - apply Forall_cons_iff in Hs as [Ha [Hb _]%Forall_cons_iff].
    cbn [length] in Hp. simpl (_ =? _)%nat in Hp. cbv iota in Hp. cbn [pack] in Hp.
    destruct bs as [|x [|y bs]]; [done| |by_length Hp]. simplify_eq/=.
    cbn [sextets]. split; [f_equal; [dlia|]; f_equal; dlia|]. constructor; [dlia|constructor].
  - apply Forall_cons_iff in Hs as [Ha [Hb [Hc _]%Forall_cons_iff]%Forall_cons_iff].
    cbn [length] in Hp. simpl (_ =? _)%nat in Hp. cbv iota in Hp. cbn [pack] in Hp.
    destruct bs as [|x [|y [|z bs]]]; [done|done| |by_length Hp]. simplify_eq/=.
    cbn [sextets]. split; [f_equal; [dlia|]; f_equal; [dlia|]; f_equal; dlia|].
    constructor; [dlia|]. constructor; [dlia|constructor].
  - apply Forall_cons_iff in Hs as [Ha [Hb [Hc [Hd Hs]%Forall_cons_iff]%Forall_cons_iff]%Forall_cons_iff].
    assert (length (a :: b :: c :: d :: q) mod 4 = length q mod 4)%nat as Hm.
    { cbn [length]. replace (S (S (S (S (length q))))) with (length q + 1 * 4)%nat by lia.
      by rewrite Nat.Div0.mod_add. }
    rewrite Hm in *. cbn [pack] in Hp.
    assert (length (if (length q mod 4 =? 0)%nat then [] else [0 : Z]) <= 1)%nat as Ht
      by (destruct (_ =? 0)%nat; simpl; lia).
    remember (if (length q mod 4 =? 0)%nat then [] else [0]) as tl eqn:Etl.
    destruct bs as [|x [|y [|z bs]]]; [by_length Hp|by_length Hp| |].
    + exfalso. injection Hp as _ _ Hp. destruct q as [|? q]; [by subst tl|].
      pose proof (length_pack (z :: q)). rewrite <- Hp in Ht. simpl length in *. dlia.
    + injection Hp as <- <- <- Hp.
      cbn [length] in Hl. rewrite last_group_3 in Hl.
      destruct (IH bs Hs Hl) as [IH1 IH2]; [by rewrite leftover_group, <- Hl, <- Etl|].
      split; [|repeat (constructor; [dlia|]); done].
      cbn [sextets]. rewrite IH1. do 3 (f_equal; [dlia|]). f_equal. dlia.
Qed.

(** ** Texts *)

Lemma digits_of_app q t :
  Forall sextet q -> (∀ c t', t = c :: t' -> strchr_Base64 c = None) ->
  digits_of ((digit_char <$> q) ++ t) = (q, t).
Proof.
  intros Hq Ht. induction Hq as [|v q Hv _ IH].
  - destruct t as [|c t']; [done|]. simpl. by rewrite (Ht c t').
  - rewrite fmap_cons. cbn [app digits_of]. by rewrite strchr_digit, IH.
Qed.

Lemma digits_of_spec t q r :
  digits_of t = (q, r) -> t = (digit_char <$> q) ++ r ∧ Forall sextet q.
Proof.
  revert q r; induction t as [|c t IH]; intros q r; simpl; [by intros [= <- <-]|].
  destruct (strchr_Base64 c) as [v|] eqn:E.
  - destruct (digits_of t) as [q' r'] eqn:Et. intros [= <- <-]. simpl.
    apply strchr_Some in E as [Hv ->]. destruct (IH _ _ eq_refl) as [-> Hq]. split; [done|].
    by constructor.
  - by intros [= <- <-].
Qed.

Lemma digits_of_encode bs :
  Forall is_u8 bs -> digits_of (b64_encode bs) = (sextets bs, replicate (pads (length bs)) Pad64).
Proof.
  intros Hu8. apply digits_of_app; [by apply sextets_sextet|].
  intros c t' Ht. destruct (pads (length bs)); [done|]. by injection Ht as <- _.
Qed.

Lemma clean_spec b bs :
  clean b (Z.of_nat (length b) - 1) = Some bs <-> b = bs ++ [0].
Proof.
  unfold clean. destruct (decide (b = [])) as [->|Hne].
  { simpl. split; [done|]. intros Hb. by destruct bs. }
  destruct (exists_last Hne) as (l & x & ->). rewrite length_app. simpl length.
  replace (Z.to_nat (Z.of_nat (length l + 1) - 1)) with (length l) by lia.
  rewrite lookup_app_r, Nat.sub_diag by lia. simpl. rewrite take_app_length.
  case_bool_decide as Hx.
  - injection Hx as ->. split; [by intros [= ->]|]. by intros [-> _]%app_inj_tail.
  - split; [done|]. intros [_ ->]%app_inj_tail. done.
Qed.

Lemma pads_group n g k :
  (n mod 3 = k)%nat -> (g = 0 ∧ k = 0 \/ g = 2 ∧ k = 1 \/ g = 3 ∧ k = 2)%nat ->
  last_group n = g ∧ pads n = match g with 2%nat => 2%nat | 3%nat => 1%nat | _ => 0%nat end ∧
  leftover n = match g with 0%nat => [] | _ => [0] end.
Proof.
  intros Hn Hg. unfold last_group, leftover, pads. rewrite Hn. by destruct Hg as [[-> ->]|[[-> ->]|[-> ->]]].
Qed.

Lemma verdict_parts q r bs :
  verdict q r = Some bs ->
  pack q = bs ++ leftover (length bs) ∧ (length q mod 4 = last_group (length bs))%nat ∧
  r = replicate (pads (length bs)) Pad64.
Proof.
  unfold verdict. intros Hv. pose proof (length_pack q) as Hlen.
  pose proof (Nat2Z.inj_mod (length q) 4) as Eq.
  destruct (length q mod 4)%nat as [|[|[|[|]]]]; try done.
  - destruct r; [|done]. injection Hv as <-.
    destruct (pads_group (length (pack q)) 0 0) as (-> & -> & ->); [apply Nat2Z.inj; rewrite Nat2Z.inj_mod; dlia|lia|].
    by rewrite app_nil_r.
  - destruct r as [|c [|c' [|]]]; try done. destruct (_ && _) eqn:E; [|done]. bool_to_prop. subst.
    apply clean_spec in Hv as E. rewrite E, length_app in Hlen. simpl in Hlen.
    destruct (pads_group (length bs) 2 1) as (-> & -> & ->); [apply Nat2Z.inj; rewrite Nat2Z.inj_mod; dlia|lia|]. done.
  - destruct r as [|c [|]]; try done. destruct (_ =? _) eqn:E; [|done]. bool_to_prop. subst.
    apply clean_spec in Hv as E. rewrite E, length_app in Hlen. simpl in Hlen.
    destruct (pads_group (length bs) 3 2) as (-> & -> & ->); [apply Nat2Z.inj; rewrite Nat2Z.inj_mod; dlia|lia|]. done.
Qed.

(** The verdict is [bs] exactly on the base-64 text of [bs]. *)
Lemma verdict_spec t bs :
  verdict (digits_of t).1 (digits_of t).2 = Some bs <-> Forall is_u8 bs ∧ t = b64_encode bs.
Proof.
  split.
  - destruct (digits_of t) as [q r] eqn:E. apply digits_of_spec in E as [-> Hq]. cbn [fst snd].
    intros Hv.
    destruct (verdict_parts q r bs Hv) as (Hp & Hl & ->).
    destruct (sextets_pack q bs Hq Hl Hp) as [Hsx Hu8]. split; [done|].
    unfold b64_encode. by rewrite Hsx.
  - intros [Hu8 ->]. rewrite digits_of_encode by done. cbn [fst snd].
    unfold verdict. rewrite length_sextets, pack_sextets by done.
    unfold last_group, leftover. destruct (pads (length bs)) as [|[|[|]]] eqn:Ep; simpl.
    + by rewrite app_nil_r.
    + by apply clean_spec.
    + by apply clean_spec.
    + unfold pads in Ep. by destruct (_ mod 3)%nat as [|[|[|]]].
Qed.

(** The bytes of the target that decoding [bs] uses: one more than it returns
    when the text is padded. *)
Definition room (bs : list Z) : nat := length (bs ++ leftover (length bs)).

(** ** The theorems *)

(** C40. [f_b64_pton] decodes exactly the base-64 texts: on every
    NUL-terminated ASCII string [cs], with white space anywhere, and a target
    that does not overlap it, the function returns; it writes nothing outside
    the target; if the string without its white space is the base-64 text of
    [bs], the result is the number of bytes of [bs] and the target holds them,
    provided the target has the room the decoder uses; and on every other
    string (bad character, misplaced or missing padding, bits left over in the
    last digit) the result is -1. *)
Theorem f_b64_pton_correct cs fuel src target targsize m :
  string_at target targsize m src cs -> mapped m target targsize -> target <> 0 ->
  Z.of_nat targsize < 2 ^ 31 -> (length cs < fuel)%nat ->
  ∃ r m', f_b64_pton fuel src target (Z.of_nat targsize) m = Ret r m' ∧
    heap m' = heap m ∧
    (∀ x, ~ (target <= x < target + Z.of_nat targsize) -> mem m' !! x = mem m !! x) ∧
    (∀ bs, Forall is_u8 bs -> strip cs = b64_encode bs ->
       if (room bs <=? targsize)%nat
       then r = Z.of_nat (length bs) ∧ mread (mem m') target (length bs) = Some bs
       else r = -1) ∧
    ((∀ bs, Forall is_u8 bs -> strip cs <> b64_encode bs) -> r = -1).
Proof.
  intros Hs Hm Ht Hmax Hf.
  destruct (f_b64_pton_ok target targsize Hmax Ht cs fuel src m Hs Hm Hf) as (r & m' & E & U & Hp).
  exists r, m'. split; [done|]. split; [apply U|]. split; [apply U|]. split.
  - intros bs Hu8 Hcs. rewrite Hcs, digits_of_encode in Hp by done. cbn [fst snd] in Hp.
    rewrite pack_sextets in Hp by done. fold (room bs) in Hp.
    destruct (room bs <=? targsize)%nat; [|done].
    pose proof (proj2 (verdict_spec (strip cs) bs) (conj Hu8 Hcs)) as Hv.
    rewrite Hcs, digits_of_encode in Hv by done. cbn [fst snd] in Hv. by rewrite Hv in Hp.
  - intros Hno. destruct (_ <=? _)%nat; [|done].
    destruct (verdict _ _) as [bs|] eqn:Ev; [|done].
    apply verdict_spec in Ev as [Hu8 Hcs]. by destruct (Hno bs Hu8).
Qed.

(** The text "TW E=\n" decodes to "Ma". *)
Lemma f_b64_pton_correct_witness :
  ∃ r m', f_b64_pton 7 0x1000 0x2000 3 (b64_mem (chars "TW E=" ++ [10; 0]) 3) = Ret r m' ∧
    heap m' = ∅ ∧
    (∀ x, ~ (0x2000 <= x < 0x2000 + 3) ->
       mem m' !! x = mem (b64_mem (chars "TW E=" ++ [10; 0]) 3) !! x) ∧
    (∀ bs, Forall is_u8 bs -> strip (chars "TW E=" ++ [10]) = b64_encode bs ->
       if (room bs <=? 3)%nat
       then r = Z.of_nat (length bs) ∧ mread (mem m') 0x2000 (length bs) = Some bs
       else r = -1) ∧
    ((∀ bs, Forall is_u8 bs -> strip (chars "TW E=" ++ [10]) <> b64_encode bs) -> r = -1).
Proof.
  apply (f_b64_pton_correct (chars "TW E=" ++ [10]) 7 0x1000 0x2000 3
    (b64_mem (chars "TW E=" ++ [10; 0]) 3)).
  - split.
    + by vm_compute.
    + unfold text. eapply bool_decide_eq_true. by vm_compute.
    + left. vm_compute. congruence.
  - apply mappedb_ok. by vm_compute.
  - lia.
  - lia.
  - simpl. lia.
Defined.

Lemma strip_encode bs : strip (b64_encode bs) = b64_encode bs.
Proof.
  unfold strip, b64_encode. rewrite list.filter_app. f_equal.
  - induction (sextets bs) as [|v q IH]; [done|]. rewrite fmap_cons, filter_cons_True, IH; [done|].
    apply digit_char_text.
  - induction (pads (length bs)) as [|n IH]; [done|]. simpl replicate.
    rewrite filter_cons_True, IH; [done|]. by vm_compute.
Qed.

Lemma b64_encode_text bs : Forall is_u8 bs -> Forall text (b64_encode bs).
Proof.
  intros Hu8. unfold b64_encode. apply Forall_app. split.
  - apply Forall_fmap. revert Hu8. intros Hu8%sextets_sextet. revert Hu8. apply Forall_impl.
    intros v Hv. pose proof (digit_char_text v) as (Hu & _ & _ & Hlt). unfold text, is_u8 in *.
    cbn [compose]. pose proof (strchr_digit v Hv) as Hd. split; [|done].
    destruct (decide (digit_char v = 0)) as [E|]; [|lia]. rewrite E in Hd. by vm_compute in Hd.
  - apply Forall_replicate. by unfold text, Pad64.
Qed.

(** Round trip: bytes encoded with [f_b64_ntop] and decoded with
    [f_b64_pton] come back, whatever they are, when the two targets are large
    enough and do not overlap. *)
Lemma base64_roundtrip bs src target targsize out outsize m :
  Forall is_u8 bs -> mread (mem m) src (length bs) = Some bs ->
  mapped m target targsize -> mapped m out outsize ->
  apart target targsize src (length bs) -> apart out outsize target targsize ->
  (length (b64_encode bs) < targsize)%nat -> (room bs <= outsize)%nat ->
  Z.of_nat targsize < 2 ^ 31 -> Z.of_nat outsize < 2 ^ 31 -> out <> 0 ->
  ∃ n m1 m2, f_b64_ntop src (Z.of_nat (length bs)) target (Z.of_nat targsize) m = Ret n m1 ∧
    f_b64_pton (S (Z.to_nat n)) target out (Z.of_nat outsize) m1 = Ret (Z.of_nat (length bs)) m2 ∧
    mread (mem m2) out (length bs) = Some bs.
Proof.
  intros Hu8 Hr Hm Hmo Hap Hao Hfit Hroom Hmax Hmaxo Hout.
  destruct (ntop_from_ok target targsize Hmax bs src m 0 (length bs))
    as (r & m1 & E & U & Hp); [done..|lia|lia|].
  cbv zeta in Hp. rewrite Z.add_0_l, Z.add_0_r in Hp.
  destruct (_ <? _) eqn:E'; bool_to_prop; [|lia]. destruct Hp as [-> W].
  assert (string_at out outsize m1 target (b64_encode bs)) as Hs.
  { split; [by eapply mread_mwrite_eq|by apply b64_encode_text|].
    unfold apart in *. rewrite length_app. simpl. lia. }
  destruct (f_b64_pton_ok out outsize Hmaxo Hout (b64_encode bs)
    (S (length (b64_encode bs))) target m1 Hs) as (r & m2 & E2 & _ & Hpost).
  - intros i Hi. apply (upd_dom _ _ _ U). by apply Hmo.
  - lia.
  - rewrite strip_encode in Hpost.
    rewrite (proj2 (verdict_spec (b64_encode bs) bs) (conj Hu8 eq_refl)) in Hpost.
    rewrite digits_of_encode in Hpost by done. cbn [fst] in Hpost.
    rewrite pack_sextets in Hpost by done. fold (room bs) in Hpost.
    rewrite (proj2 (Nat.leb_le _ _) Hroom) in Hpost. destruct Hpost as [-> Hb].
    exists (Z.of_nat (length (b64_encode bs))), m1, m2. split_and!; [|by rewrite Nat2Z.id|done].
    rewrite <- E. unfold f_b64_ntop, ntop_from. by rewrite Nat2Z.id.
Qed.

Lemma base64_roundtrip_witness :
  ∃ n m1 m2, f_b64_ntop 0x1000 4 0x2000 9 (b64_mem [0; 255; 16; 127] 0x100) = Ret n m1 ∧
    f_b64_pton (S (Z.to_nat n)) 0x2000 0x2010 5 m1 = Ret 4 m2 ∧
    mread (mem m2) 0x2010 4 = Some [0; 255; 16; 127].
Proof.
  apply (base64_roundtrip [0; 255; 16; 127] 0x1000 0x2000 9 0x2010 5 (b64_mem [0; 255; 16; 127] 0x100)).
  - eapply bool_decide_eq_true. by vm_compute.
  - by vm_compute.
  - apply mappedb_ok. by vm_compute.
  - apply mappedb_ok. by vm_compute.
  - left. vm_compute. congruence.
  - left. vm_compute. congruence.
  - vm_compute. lia.
  - vm_compute. lia.
  - lia.
  - lia.
  - lia.
Defined.

(** A target of exactly the decoded size is rejected when the text is
    padded: the decoder stores the incomplete byte before it sees the pad, so
    it needs one byte more than it returns. *)
Lemma f_b64_pton_needs_spare_byte bs src target m :
  Forall is_u8 bs -> (length bs mod 3 <> 0)%nat ->
  string_at target (length bs) m src (b64_encode bs) -> mapped m target (length bs) ->
  target <> 0 -> Z.of_nat (length bs) < 2 ^ 31 ->
  ∃ m', f_b64_pton (S (length (b64_encode bs))) src target (Z.of_nat (length bs)) m = Ret (-1) m'.
Proof.
  intros Hu8 Hmod Hs Hm Ht Hmax.
  destruct (f_b64_pton_ok target (length bs) Hmax Ht (b64_encode bs)
    (S (length (b64_encode bs))) src m Hs Hm) as (r & m' & E & _ & Hp); [lia|].
  rewrite strip_encode, digits_of_encode in Hp by done. cbn [fst snd] in Hp.
  rewrite pack_sextets in Hp by done.
  rewrite (proj2 (Nat.leb_gt _ _)) in Hp; [exists m'; by rewrite E, Hp|].
  rewrite length_app. unfold leftover, pads.
  assert (length bs mod 3 < 3)%nat by (apply Nat.mod_upper_bound; lia).
  destruct (length bs mod 3)%nat as [|[|[|]]]; simpl; lia.
Qed.
