(* ===== verification/LdbSlice.v ===== *)
(** * leveldb: slices and statuses

    slice.h, status.h and status.cc.  A [Slice] and a [std::string] are the
    list of the bytes they show, each byte as its unsigned value; a slice
    never owns or changes what it refers to, so the list is all the code can
    observe of it.  A [Status] is the byte array of [state_], or nothing for
    the success status. *)

From S2P Require Import Prelude.

Abbreviation Slice := (list Z).

(** [size()] and [data()[n]]; the accesses of the code are in range. *)
Definition size (s : Slice) : Z := Z.of_nat (length s).
Definition byte_of (s : Slice) (n : nat) : Z := nth n s 0.

(** [remove_prefix], [starts_with] and the comparison operators. *)
Definition remove_prefix (n : Z) (s : Slice) : Slice := drop (Z.to_nat n) s.

(** [memcmp] on the first [n] bytes: the sign is that of the first
    difference of unsigned bytes. *)
Fixpoint memcmp (a b : Slice) (n : nat) : Z :=
  match n, a, b with
  | S n, x :: a, y :: b => if x =? y then memcmp a b n else x - y
  | _, _, _ => 0
  end.

Definition slice_eqb (x y : Slice) : bool :=
  (size x =? size y) && (memcmp x y (length x) =? 0).

Definition starts_with (s x : Slice) : bool :=
  (size x <=? size s) && (memcmp s x (length x) =? 0).

Definition slice_compare (a b : Slice) : Z :=
  let min_len := if size a <? size b then size a else size b in
  let r := memcmp a b (Z.to_nat min_len) in
  if r =? 0 then
    if size a <? size b then -1 else if size b <? size a then 1 else r
  else r.

(** ** Statuses *)

(** Literals of the code. *)
Definition str (s : string) : Slice :=
  (fun c => Z.of_nat (Ascii.nat_of_ascii c)) <$> String.list_ascii_of_string s.

(** [%u] and [%llu]: a number of at most twenty digits. *)
Fixpoint decimal_digits (n : nat) (v : Z) : Slice :=
  match n with
  | O => []
  | S n => if v <? 10 then [48 + v] else decimal_digits n (v / 10) ++ [48 + v mod 10]
  end.

Definition decimal (v : Z) : Slice := decimal_digits 20 v.

Inductive Code := kOk | kNotFound | kCorruption | kNotSupported | kInvalidArgument | kIOError.

#[export] Instance Code_eq_dec : EqDecision Code.
Proof. solve_decision. Defined.

Definition code_value (c : Code) : Z :=
  match c with
  | kOk => 0 | kNotFound => 1 | kCorruption => 2
  | kNotSupported => 3 | kInvalidArgument => 4 | kIOError => 5
  end.

(** [state_]: null for success, otherwise four bytes of length, the code,
    the message. *)
Abbreviation Status := (option (list Z)).

Definition Status_OK : Status := None.

Definition Status_new (c : Code) (msg msg2 : Slice) : Status :=
  let len1 := u32 (size msg) in
  let len2 := u32 (size msg2) in
  let sz := u32 (len1 + (if len2 =? 0 then 0 else 2 + len2)) in
  Some (le_split 4 sz ++ [u8 (code_value c)] ++ msg
        ++ (if len2 =? 0 then [] else [58; 32] ++ msg2)).

Definition Status_NotFound := Status_new kNotFound.
Definition Status_Corruption (msg : string) (msg2 : Slice) : Status :=
  Status_new kCorruption (str msg) msg2.
Definition Status_NotSupported := Status_new kNotSupported.
Definition Status_InvalidArgument := Status_new kInvalidArgument.
Definition Status_IOError := Status_new kIOError.

Definition ok (s : Status) : bool := match s with None => true | Some _ => false end.

Definition code (s : Status) : Z :=
  match s with None => code_value kOk | Some st => byte_of st 4 end.

Definition IsNotFound (s : Status) : bool := code s =? code_value kNotFound.
Definition IsCorruption (s : Status) : bool := code s =? code_value kCorruption.
Definition IsIOError (s : Status) : bool := code s =? code_value kIOError.

(** The copy made by the copy constructor and by assignment. *)
Definition CopyState (state : list Z) : list Z :=
  let sz := le_combine (take 4 state) in take (Z.to_nat (sz + 5)) state.

Definition code_label (c : Z) : option string :=
  if c =? 0 then Some "OK"%string
  else if c =? 1 then Some "NotFound: "%string
  else if c =? 2 then Some "Corruption: "%string
  else if c =? 3 then Some "Not implemented: "%string
  else if c =? 4 then Some "Invalid argument: "%string
  else if c =? 5 then Some "IO error: "%string
  else None.

(** The unknown codes of [ToString] print the number; no constructor makes
    one. *)
Definition Status_ToString (unknown : Z -> Slice) (s : Status) : Slice :=
  match s with
  | None => str "OK"
  | Some st =>
      let type := match code_label (byte_of st 4) with
                  | Some t => str t
                  | None => unknown (byte_of st 4)
                  end in
      type ++ take (Z.to_nat (le_combine (take 4 st))) (drop 5 st)
  end.

(** ** Order of slices *)

(** The lexicographic comparison, as one recursion. *)
Fixpoint lexcmp (a b : Slice) : Z :=
  match a, b with
  | [], [] => 0
  | [], _ :: _ => -1
  | _ :: _, [] => 1
  | x :: a, y :: b => if x =? y then lexcmp a b else x - y
  end.

Lemma size_cons x s : size (x :: s) = size s + 1.
Proof. unfold size. simpl length. lia. Qed.

Lemma size_nonneg s : 0 <= size s.
Proof. unfold size. lia. Qed.

Lemma size_app s t : size (s ++ t) = size s + size t.
Proof. unfold size. rewrite length_app. lia. Qed.

Lemma slice_compare_lex a b : slice_compare a b = lexcmp a b.
Proof.
  revert b; induction a as [|x a IH]; intros [|y b]; unfold slice_compare, size in *;
    simpl; try done.
  specialize (IH b). rewrite !Zpos_P_of_succ_nat, <- !Z.succ_le_mono || idtac.
  destruct (Z.ltb_spec (Z.of_nat (S (length a))) (Z.of_nat (S (length b))));
  destruct (Z.ltb_spec (Z.of_nat (length a)) (Z.of_nat (length b))); try lia;
  rewrite ?Nat2Z.id in *; simpl; destruct (x =? y) eqn:E; bool_to_prop; try done;
  rewrite ?(proj2 (Z.eqb_neq _ _)) by lia; try done;
  destruct (Z.ltb_spec (Z.of_nat (S (length b))) (Z.of_nat (S (length a))));
  destruct (Z.ltb_spec (Z.of_nat (length b)) (Z.of_nat (length a))); lia || done.
Qed.

Lemma lexcmp_refl a : lexcmp a a = 0.
Proof. induction a as [|x a IH]; simpl; [done|]. by rewrite Z.eqb_refl. Qed.

Lemma lexcmp_0 a b : lexcmp a b = 0 <-> a = b.
Proof.
  split; [|intros ->; apply lexcmp_refl].
  revert b; induction a as [|x a IH]; intros [|y b]; simpl; try done.
  destruct (x =? y) eqn:E; bool_to_prop; intros H; [|lia].
  subst. f_equal. by apply IH.
Qed.

Lemma lexcmp_sym a b : Z.sgn (lexcmp a b) = - Z.sgn (lexcmp b a).
Proof.
  revert b; induction a as [|x a IH]; intros [|y b]; simpl; try done.
  rewrite (Z.eqb_sym y x). destruct (x =? y) eqn:E; bool_to_prop; [apply IH|].
  destruct (decide (x < y)).
  - rewrite Z.sgn_neg, Z.sgn_pos; lia.
  - rewrite Z.sgn_pos, Z.sgn_neg; lia.
Qed.

Lemma lexcmp_trans a b c : lexcmp a b < 0 -> lexcmp b c < 0 -> lexcmp a c < 0.
Proof.
  revert b c; induction a as [|x a IH]; intros [|y b] [|z c]; simpl; try lia.
  destruct (x =? y) eqn:E1, (y =? z) eqn:E2, (x =? z) eqn:E3; bool_to_prop; try lia.
  subst. apply IH.
Qed.

Lemma slice_eqb_spec x y : slice_eqb x y = true <-> x = y.
Proof.
  unfold slice_eqb. rewrite andb_true_iff, !Z.eqb_eq. split; [|intros ->; split; [done|]].
  - intros [Hl Hm]. apply lexcmp_0. rewrite <- slice_compare_lex. unfold slice_compare.
    rewrite <- Hl, Z.ltb_irrefl. unfold size. by rewrite Nat2Z.id, Hm.
  - induction y as [|b y IH]; simpl; [done|]. by rewrite Z.eqb_refl.
Qed.

(** ** Statuses show what they were made from *)

Lemma code_new c m m2 : code (Status_new c m m2) = code_value c.
Proof. by destruct c. Qed.

Lemma ok_new c m m2 : ok (Status_new c m m2) = false.
Proof. done. Qed.

Lemma Status_ToString_new u c m m2 :
  size m + size m2 + 2 < 2 ^ 32 ->
  Status_ToString u (Status_new c m m2) =
  match code_label (code_value c) with Some t => str t | None => [] end
  ++ m ++ (if size m2 =? 0 then [] else str ": " ++ m2).
Proof.
  intros Hs. pose proof (size_nonneg m). pose proof (size_nonneg m2).
  unfold Status_new. rewrite (u32_small (size m)), (u32_small (size m2)) by lia.
  rewrite u32_small by (destruct (size m2 =? 0); lia).
  unfold Status_ToString. change (byte_of _ 4) with (u8 (code_value c)).
  assert (code_label (u8 (code_value c)) = code_label (code_value c)) as -> by by destruct c.
  rewrite take_app_length' by (symmetry; apply length_le_split).
  rewrite le_combine_split, Z.mod_small by (destruct (size m2 =? 0); simpl; lia).
  rewrite app_assoc, drop_app_length' by (by rewrite length_app, length_le_split).
  assert (code_label (code_value c) ≠ None) by by destruct c.
  destruct (code_label (code_value c)) as [t|]; [|done]. f_equal.
  apply take_ge. rewrite length_app. unfold size in *.
  destruct (Z.of_nat (length m2) =? 0); simpl; lia.
Qed.

(** * Three-way comparisons

    The order behind a function that returns a negative, zero or positive
    number: a total preorder on the keys it is used on, and its consequences
    for strict and non-strict comparisons. *)

Class TotalCmp {K : Type} (cmp : K -> K -> Z) (okp : K -> Prop) : Prop := {
  cmp_antisym a b : okp a -> okp b -> Z.sgn (cmp a b) = - Z.sgn (cmp b a);
  cmp_le_trans x y z : okp x -> okp y -> okp z -> cmp x y <= 0 -> cmp y z <= 0 -> cmp x z <= 0;
}.

Section Order.

Context {K : Type} (cmp : K -> K -> Z) (okp : K -> Prop) `{!TotalCmp cmp okp}.

Lemma cmp_refl a : okp a -> cmp a a = 0.
Proof. intros Ha. pose proof (cmp_antisym a a Ha Ha). apply Z.sgn_null_iff. lia. Qed.

Lemma cmp_flip a b : okp a -> okp b -> cmp a b < 0 <-> 0 < cmp b a.
Proof.
  intros Ha Hb. pose proof (cmp_antisym a b Ha Hb). rewrite <- Z.sgn_neg_iff, <- Z.sgn_pos_iff. lia.
Qed.

Lemma cmp_flip_le a b : okp a -> okp b -> cmp a b <= 0 <-> 0 <= cmp b a.
Proof. intros Ha Hb. pose proof (cmp_flip b a Hb Ha). lia. Qed.

Lemma cmp_eq_sym a b : okp a -> okp b -> cmp a b = 0 -> cmp b a = 0.
Proof.
  intros Ha Hb H. pose proof (cmp_antisym a b Ha Hb) as E. rewrite H in E. simpl in E.
  apply Z.sgn_null_iff. lia.
Qed.

Lemma cmp_le_lt a b d : okp a -> okp b -> okp d ->
  cmp a b <= 0 -> cmp b d < 0 -> cmp a d < 0.
Proof.
  intros Ha Hb Hd H1 H2. destruct (decide (cmp a d < 0)) as [|Hn]; [done|].
  assert (cmp d a <= 0) by (apply cmp_flip_le; [done|done|lia]).
  assert (cmp d b <= 0) by by apply (cmp_le_trans d a b).
  apply cmp_flip in H2; [|done..]. lia.
Qed.

Lemma cmp_lt_le a b d : okp a -> okp b -> okp d ->
  cmp a b < 0 -> cmp b d <= 0 -> cmp a d < 0.
Proof.
  intros Ha Hb Hd H1 H2. destruct (decide (cmp a d < 0)) as [|Hn]; [done|].
  assert (cmp d a <= 0) by (apply cmp_flip_le; [done|done|lia]).
  assert (cmp b a <= 0) by by apply (cmp_le_trans b d a).
  apply cmp_flip in H1; [|done..]. lia.
Qed.

Lemma cmp_lt_trans a b d : okp a -> okp b -> okp d ->
  cmp a b < 0 -> cmp b d < 0 -> cmp a d < 0.
Proof. intros Ha Hb Hd H1 H2. apply (cmp_lt_le a b d); [done..|lia]. Qed.

Lemma cmp_eq_l a b d : okp a -> okp b -> okp d ->
  cmp a b = 0 -> Z.sgn (cmp a d) = Z.sgn (cmp b d).
Proof.
  intros Ha Hb Hd H. pose proof (cmp_eq_sym a b Ha Hb H) as H'.
  destruct (Z.lt_total (cmp b d) 0) as [E|[E|E]].
  - rewrite !Z.sgn_neg; [done|done|]. apply (cmp_le_lt a b d); [done..|lia|done].
  - assert (cmp a d <= 0) by (apply (cmp_le_trans a b d); [done..|lia|lia]).
    assert (0 <= cmp a d).
    { apply cmp_flip_le; [done..|]. apply (cmp_le_trans d b a); [done..| |lia].
      apply cmp_flip_le; [done..|]. lia. }
    f_equal. lia.
  - rewrite !Z.sgn_pos; [done|done|]. apply cmp_flip; [done..|].
    apply (cmp_lt_le d b a); [done..| |lia]. by apply cmp_flip.
Qed.

Lemma cmp_eq_r a b d : okp a -> okp b -> okp d ->
  cmp a b = 0 -> Z.sgn (cmp d a) = Z.sgn (cmp d b).
Proof.
  intros Ha Hb Hd H. rewrite (cmp_antisym d a), (cmp_antisym d b) by done.
  by rewrite (cmp_eq_l a b d).
Qed.

End Order.
