(* ===== verification/LdbCoding.v ===== *)
(** * leveldb: integer and string coding (coding.h, coding.cc)

    A routine that writes at [dst] returns the bytes it writes; one that
    appends to a [std::string] returns the longer string; one that reads from
    [p] up to [limit] takes the bytes in between and returns the value with
    the bytes that follow it, or nothing for the null pointer.  Little endian
    target, so the fixed-width routines copy the integer's bytes. *)

From S2P Require Import Prelude.
From S2P Require Import VarintSpec.
From S2P Require Import LdbSlice.

Definition EncodeFixed32 (value : Z) : Slice := le_split 4 value.
Definition EncodeFixed64 (value : Z) : Slice := le_split 8 value.
Definition PutFixed32 (dst : Slice) (value : Z) : Slice := dst ++ EncodeFixed32 value.
Definition PutFixed64 (dst : Slice) (value : Z) : Slice := dst ++ EncodeFixed64 value.
Definition DecodeFixed32 (ptr : Slice) : Z := le_combine (take 4 ptr).
Definition DecodeFixed64 (ptr : Slice) : Z := le_combine (take 8 ptr).

Definition EncodeVarint32 (v : Z) : Slice :=
  let B := 128 in
  if v <? Z.shiftl 1 7 then [u8 v]
  else if v <? Z.shiftl 1 14 then
    [u8 (Z.lor v B); u8 (Z.shiftr v 7)]
  else if v <? Z.shiftl 1 21 then
    [u8 (Z.lor v B); u8 (Z.lor (Z.shiftr v 7) B); u8 (Z.shiftr v 14)]
  else if v <? Z.shiftl 1 28 then
    [u8 (Z.lor v B); u8 (Z.lor (Z.shiftr v 7) B); u8 (Z.lor (Z.shiftr v 14) B);
     u8 (Z.shiftr v 21)]
  else
    [u8 (Z.lor v B); u8 (Z.lor (Z.shiftr v 7) B); u8 (Z.lor (Z.shiftr v 14) B);
     u8 (Z.lor (Z.shiftr v 21) B); u8 (Z.shiftr v 28)].

Definition PutVarint32 (dst : Slice) (v : Z) : Slice := dst ++ EncodeVarint32 v.

(** The loop shifts a 64-bit number by seven bits per round; nine rounds
    leave less than one group. *)
Fixpoint encode_varint64_loop (n : nat) (v : Z) : Slice :=
  match n with
  | S n => if 128 <=? v then u8 (Z.lor v 128) :: encode_varint64_loop n (Z.shiftr v 7)
           else [u8 v]
  | O => [u8 v]
  end.

Definition EncodeVarint64 (v : Z) : Slice := encode_varint64_loop 9 v.
Definition PutVarint64 (dst : Slice) (v : Z) : Slice := dst ++ EncodeVarint64 v.

Definition PutLengthPrefixedSlice (dst value : Slice) : Slice :=
  PutVarint32 dst (u32 (size value)) ++ value.

Fixpoint varint_length_loop (n : nat) (len v : Z) : Z :=
  match n with
  | S n => if 128 <=? v then varint_length_loop n (len + 1) (Z.shiftr v 7) else len
  | O => len
  end.

Definition VarintLength (v : Z) : Z := varint_length_loop 9 1 v.

(** The loops of the two readers differ in the width [w] of [result] and in
    the bound [max] on [shift]. *)
Fixpoint get_varint_loop (w max shift result : Z) (p : Slice) : option (Z * Slice) :=
  match p with
  | [] => None
  | byte :: p =>
      if shift <=? max then
        if bit_set byte 128 then
          get_varint_loop w max (shift + 7)
            (Z.lor result (Z.shiftl (Z.land byte 127) shift mod 2 ^ w)) p
        else Some (Z.lor result (Z.shiftl byte shift mod 2 ^ w), p)
      else None
  end.

Definition GetVarint32PtrFallback (p : Slice) : option (Z * Slice) :=
  get_varint_loop 32 28 0 0 p.

Definition GetVarint32Ptr (p : Slice) : option (Z * Slice) :=
  match p with
  | result :: p' =>
      if Z.land result 128 =? 0 then Some (result, p') else GetVarint32PtrFallback p
  | [] => GetVarint32PtrFallback p
  end.

Definition GetVarint64Ptr (p : Slice) : option (Z * Slice) := get_varint_loop 64 63 0 0 p.

(** The versions on slices replace the slice by the bytes that follow. *)
Definition GetVarint32 (input : Slice) : option (Z * Slice) := GetVarint32Ptr input.
Definition GetVarint64 (input : Slice) : option (Z * Slice) := GetVarint64Ptr input.

Definition GetLengthPrefixedSlicePtr (p : Slice) : option (Slice * Slice) :=
  match GetVarint32Ptr p with
  | None => None
  | Some (len, p) =>
      if size p <? len then None
      else Some (take (Z.to_nat len) p, drop (Z.to_nat len) p)
  end.

Definition GetLengthPrefixedSlice (input : Slice) : option (Slice * Slice) :=
  match GetVarint32 input with
  | Some (len, input) =>
      if len <=? size input then Some (take (Z.to_nat len) input, remove_prefix len input)
      else None
  | None => None
  end.

(** ** Fixed-width integers *)

Lemma DecodeFixed32_encode v rest : is_u32 v -> DecodeFixed32 (EncodeFixed32 v ++ rest) = v.
Proof.
  intros Hv. unfold DecodeFixed32, EncodeFixed32.
  rewrite take_app_length' by (symmetry; apply length_le_split).
  rewrite le_combine_split. by apply Z.mod_small.
Qed.

Lemma DecodeFixed64_encode v rest : is_u64 v -> DecodeFixed64 (EncodeFixed64 v ++ rest) = v.
Proof.
  intros Hv. unfold DecodeFixed64, EncodeFixed64.
  rewrite take_app_length' by (symmetry; apply length_le_split).
  rewrite le_combine_split. by apply Z.mod_small.
Qed.

Lemma DecodeFixed32_u32 p : Forall is_u8 p -> is_u32 (DecodeFixed32 p).
Proof.
  intros Hp. pose proof (le_combine_bound (take 4 p) (Forall_take _ _ _ Hp)) as Hb.
  unfold DecodeFixed32, is_u32. rewrite length_take in Hb.
  assert (2 ^ (8 * Z.of_nat (4 `min` length p)) <= 2 ^ 32) by (apply Z.pow_le_mono_r; lia).
  lia.
Qed.

Lemma DecodeFixed64_u64 p : Forall is_u8 p -> is_u64 (DecodeFixed64 p).
Proof.
  intros Hp. pose proof (le_combine_bound (take 8 p) (Forall_take _ _ _ Hp)) as Hb.
  unfold DecodeFixed64, is_u64. rewrite length_take in Hb.
  assert (2 ^ (8 * Z.of_nat (8 `min` length p)) <= 2 ^ 64) by (apply Z.pow_le_mono_r; lia).
  lia.
Qed.

Lemma size_EncodeFixed32 v : size (EncodeFixed32 v) = 4.
Proof. unfold size, EncodeFixed32. by rewrite length_le_split. Qed.

Lemma size_EncodeFixed64 v : size (EncodeFixed64 v) = 8.
Proof. unfold size, EncodeFixed64. by rewrite length_le_split. Qed.

(** ** Varints: the encoders write the canonical groups *)

Lemma lor_128_u8 v : 0 <= v -> u8 (Z.lor v 128) = v mod 128 + 128.
Proof.
  intros Hv. unfold u8. change (2 ^ 8) with 256. rewrite <- (land_255 (Z.lor v 128)).
  rewrite Z.land_lor_distr_l, land_255. change (Z.land 128 255) with 128.
  pose proof (u8_forall (fun b => Z.lor b 128 =? b mod 128 + 128) ltac:(by vm_compute)) as H.
  specialize (H (v mod 256)). rewrite Z.eqb_eq in H. rewrite H.
  - replace 256 with (128 * 2) by lia. rewrite Z.rem_mul_r by lia.
    rewrite Z.mul_comm, Z.mod_add, Z.mod_mod by lia. done.
  - unfold is_u8. pose proof (Z.mod_pos_bound v 256). lia.
Qed.

Lemma encode_varint64_loop_groups n v :
  0 <= v < 128 ^ Z.of_nat (S n) -> encode_varint64_loop n v = varint_groups (S n) v.
Proof.
  revert v; induction n as [|n IH]; intros v Hv.
  - cbn. assert ((v <? 128) = true) as -> by (apply Z.ltb_lt; lia).
    rewrite u8_small; [done|lia].
  - cbn [encode_varint64_loop varint_groups]. rewrite Z.ltb_antisym.
    destruct (128 <=? v) eqn:E; bool_to_prop; simpl negb; cbn iota.
    + rewrite lor_128_u8, Z.shiftr_div_pow2 by lia. change (2 ^ 7) with 128.
      rewrite IH; [done|]. split; [apply Z.div_pos; lia|].
      apply Z.div_lt_upper_bound; [lia|]. rewrite <- Z.pow_succ_r, <- Nat2Z.inj_succ by lia. lia.
    + rewrite u8_small; [done|lia].
Qed.

Lemma EncodeVarint64_bytes v : is_u64 v -> EncodeVarint64 v = varint_bytes v.
Proof.
  unfold is_u64. intros Hv. apply encode_varint64_loop_groups.
  split; [lia|]. apply Z.lt_trans with (2 ^ 64); [lia|]. by vm_compute.
Qed.

Lemma EncodeVarint32_64 v : is_u32 v -> EncodeVarint32 v = EncodeVarint64 v.
Proof.
  unfold is_u32. intros Hv. unfold EncodeVarint32, EncodeVarint64.
  cbn [encode_varint64_loop]. rewrite !Z.shiftr_shiftr by lia.
  change (Z.shiftl 1 7) with 128. change (Z.shiftl 1 14) with 16384.
  change (Z.shiftl 1 21) with 2097152. change (Z.shiftl 1 28) with 268435456.
  rewrite !Z.shiftr_div_pow2 by lia. cbn [Z.add Pos.add Pos.succ].
  repeat match goal with |- context [?a <=? ?b] => destruct (Z.leb_spec a b) end;
  repeat match goal with |- context [?a <? ?b] => destruct (Z.ltb_spec a b) end;
  done || (exfalso; dlia).
Qed.

Lemma EncodeVarint32_bytes v : is_u32 v -> EncodeVarint32 v = varint_bytes v.
Proof.
  intros Hv. rewrite EncodeVarint32_64 by done. apply EncodeVarint64_bytes.
  unfold is_u32, is_u64 in *. lia.
Qed.

Lemma varint_length_loop_groups n len v :
  0 <= v -> varint_length_loop n len v = len - 1 + size (encode_varint64_loop n v).
Proof.
  revert len v; induction n as [|n IH]; intros len v Hv; cbn [varint_length_loop encode_varint64_loop].
  - rewrite size_cons. unfold size. simpl. lia.
  - destruct (128 <=? v); rewrite size_cons; [|unfold size; simpl; lia].
    rewrite IH by by apply Z.shiftr_nonneg. lia.
Qed.

Lemma VarintLength_bytes v : is_u64 v -> VarintLength v = size (varint_bytes v).
Proof.
  intros Hv. unfold VarintLength. rewrite varint_length_loop_groups by (unfold is_u64 in Hv; lia).
  fold (EncodeVarint64 v). rewrite EncodeVarint64_bytes by done. lia.
Qed.

(** ** Varints: the readers *)

Lemma get_varint_loop_spec w N k result p :
  Forall is_u8 p -> 7 * Z.of_nat N - 7 <= w -> (k <= N)%nat -> 0 <= result < 2 ^ (7 * Z.of_nat k) ->
  get_varint_loop w (7 * Z.of_nat N - 7) (7 * Z.of_nat k) (result mod 2 ^ w) p =
  match varint_len (take (N - k) p) with
  | Some j => Some ((result + 2 ^ (7 * Z.of_nat k) * varint_value (take j p)) mod 2 ^ w, drop j p)
  | None => None
  end.
Proof.
  intros Hp Hw. revert k result; induction Hp as [|b p Hb Hp IH]; intros k result Hk Hr.
  { by rewrite take_nil. }
  cbn [get_varint_loop]. destruct (Z.leb_spec (7 * Z.of_nat k) (7 * Z.of_nat N - 7)); cycle 1.
  { by replace (N - k)%nat with 0%nat by lia. }
  replace (N - k)%nat with (S (N - S k)) by lia. cbn [take varint_len].
  assert (∀ x, 0 <= x < 128 ->
    Z.lor (result mod 2 ^ w) (Z.shiftl x (7 * Z.of_nat k) mod 2 ^ w) =
    (result + x * 2 ^ (7 * Z.of_nat k)) mod 2 ^ w) as Hor.
  { intros x Hx. rewrite lor_shiftl_wrap; [by rewrite Zplus_mod_idemp_l|lia|].
    pose proof (Z.mod_le result (2 ^ w)). pose proof (Z.mod_pos_bound result (2 ^ w)).
    assert (0 < 2 ^ w) by (apply Z.pow_pos_nonneg; lia). lia. }
  rewrite bit_set_128 by done. unfold is_u8 in Hb.
  assert (2 ^ (7 * Z.of_nat (S k)) = 128 * 2 ^ (7 * Z.of_nat k)) as E.
  { replace (7 * Z.of_nat (S k)) with (7 + 7 * Z.of_nat k) by lia. by rewrite Z.pow_add_r by lia. }
  assert (0 < 2 ^ (7 * Z.of_nat k)) by (apply Z.pow_pos_nonneg; lia).
  destruct (Z.leb_spec 128 b).
  - rewrite land_127, Hor by (apply Z.mod_pos_bound; lia).
    replace (7 * Z.of_nat k + 7) with (7 * Z.of_nat (S k)) by lia.
    pose proof (Z.mod_pos_bound b 128). rewrite IH by nia.
    destruct (varint_len (take (N - S k) p)) as [j|]; [|done]. cbn [fmap option_fmap option_map].
    cbn [take drop varint_value]. f_equal. f_equal. f_equal. rewrite E. lia.
  - cbn [take drop varint_value]. rewrite Hor by lia. rewrite take_0. cbn [varint_value].
    rewrite (Z.mod_small b) by lia. do 3 f_equal. lia.
Qed.

(** What the 64-bit reader does on every input: at most ten groups, the
    value modulo 2^64. *)
Lemma GetVarint64_spec p :
  Forall is_u8 p ->
  GetVarint64 p = match varint_len (take 10 p) with
                  | Some j => Some (u64 (varint_value (take j p)), drop j p)
                  | None => None
                  end.
Proof.
  intros Hp. pose proof (get_varint_loop_spec 64 10 0 0 p Hp) as H.
  rewrite Z.mod_0_l in H by done. unfold GetVarint64, GetVarint64Ptr.
  change (7 * Z.of_nat 10 - 7) with 63 in H. change (7 * Z.of_nat 0) with 0 in H.
  cbn [Nat.sub] in H. rewrite H by lia.
  destruct (varint_len _); [|done]. do 2 f_equal. unfold u64. f_equal. lia.
Qed.

(** The 32-bit reader takes at most five groups, modulo 2^32. *)
Lemma GetVarint32_spec p :
  Forall is_u8 p ->
  GetVarint32 p = match varint_len (take 5 p) with
                  | Some j => Some (u32 (varint_value (take j p)), drop j p)
                  | None => None
                  end.
Proof.
  intros Hp. pose proof (get_varint_loop_spec 32 5 0 0 p Hp) as H.
  rewrite Z.mod_0_l in H by done. replace (7 * Z.of_nat 5 - 7) with 28 in H by lia.
  specialize (H ltac:(lia) ltac:(lia) ltac:(simpl; lia)).
  change (7 * Z.of_nat 0) with 0 in H. cbn [Nat.sub] in H.
  assert (GetVarint32 p = get_varint_loop 32 28 0 0 p) as ->.
  { unfold GetVarint32, GetVarint32Ptr, GetVarint32PtrFallback.
    destruct Hp as [|b p Hb Hp]; [done|]. cbn [get_varint_loop]. unfold bit_set.
    destruct (Z.land b 128 =? 0) eqn:E; [|done]. cbn [negb Z.leb Z.compare].
    change (Z.shiftl b 0) with b. unfold is_u8 in Hb. by rewrite Z.mod_small, Z.lor_0_l by lia. }
  rewrite H. destruct (varint_len _); [|done]. do 2 f_equal. unfold u32. f_equal. lia.
Qed.

(** ** Round trips, with whatever follows the value *)

Lemma GetVarint64_put v rest :
  is_u64 v -> Forall is_u8 rest -> GetVarint64 (EncodeVarint64 v ++ rest) = Some (v, rest).
Proof.
  intros Hv Hr. rewrite EncodeVarint64_bytes by done.
  rewrite GetVarint64_spec by (apply Forall_app; split; [apply varint_bytes_u8, Hv|done]).
  rewrite take_app_ge by apply length_varint_bytes. rewrite varint_bytes_len by done.
  rewrite take_app_length, drop_app_length, varint_bytes_value by done. by rewrite u64_small.
Qed.

Lemma length_varint_bytes_32 v : is_u32 v -> (length (varint_bytes v) <= 5)%nat.
Proof.
  unfold is_u32. intros Hv. rewrite <- EncodeVarint32_bytes by done. unfold EncodeVarint32.
  repeat case_if; simpl; lia.
Qed.

Lemma GetVarint32_put v rest :
  is_u32 v -> Forall is_u8 rest -> GetVarint32 (EncodeVarint32 v ++ rest) = Some (v, rest).
Proof.
  intros Hv Hr. rewrite EncodeVarint32_bytes by done.
  assert (is_u64 v) as Hv' by (unfold is_u32, is_u64 in *; lia).
  rewrite GetVarint32_spec by (apply Forall_app; split; [apply varint_bytes_u8, Hv|done]).
  rewrite take_app_ge by by apply length_varint_bytes_32. rewrite varint_bytes_len by done.
  rewrite take_app_length, drop_app_length, varint_bytes_value by done. by rewrite u32_small.
Qed.

Lemma EncodeVarint32_u8 v : is_u32 v -> Forall is_u8 (EncodeVarint32 v).
Proof. intros Hv. rewrite EncodeVarint32_bytes by done. apply varint_bytes_u8, Hv. Qed.

Lemma EncodeVarint64_u8 v : is_u64 v -> Forall is_u8 (EncodeVarint64 v).
Proof. intros Hv. rewrite EncodeVarint64_bytes by done. apply varint_bytes_u8, Hv. Qed.

(** The bytes [PutLengthPrefixedSlice] appends. *)
Definition prefixed (value : Slice) : Slice := PutLengthPrefixedSlice [] value.

Lemma PutLengthPrefixedSlice_prefixed dst value :
  PutLengthPrefixedSlice dst value = dst ++ prefixed value.
Proof. unfold prefixed, PutLengthPrefixedSlice, PutVarint32. by rewrite <- app_assoc. Qed.

Lemma prefixed_u8 value : Forall is_u8 value -> Forall is_u8 (prefixed value).
Proof.
  intros Hv. unfold prefixed, PutLengthPrefixedSlice, PutVarint32. apply Forall_app.
  split; [|done]. apply EncodeVarint32_u8. unfold is_u32, u32. apply Z.mod_pos_bound. lia.
Qed.

Lemma GetLengthPrefixedSlice_put value rest :
  size value < 2 ^ 32 -> Forall is_u8 value -> Forall is_u8 rest ->
  GetLengthPrefixedSlice (prefixed value ++ rest) = Some (value, rest).
Proof.
  intros Hs Hv Hr. pose proof (size_nonneg value).
  unfold GetLengthPrefixedSlice, prefixed, PutLengthPrefixedSlice, PutVarint32.
  rewrite u32_small by lia. simpl. rewrite <- app_assoc.
  rewrite GetVarint32_put; [|unfold is_u32; lia|by apply Forall_app].
  rewrite size_app. pose proof (size_nonneg rest).
  destruct (Z.leb_spec (size value) (size value + size rest)); [|lia].
  unfold remove_prefix, size. rewrite Nat2Z.id, take_app_length, drop_app_length. done.
Qed.

(** The two versions of the length-prefixed reader agree. *)
Lemma GetLengthPrefixedSlicePtr_slice p :
  GetLengthPrefixedSlicePtr p = GetLengthPrefixedSlice p.
Proof.
  unfold GetLengthPrefixedSlicePtr, GetLengthPrefixedSlice, GetVarint32.
  destruct (GetVarint32Ptr p) as [[len q]|]; [|done].
  rewrite Z.ltb_antisym. by destruct (len <=? size q).
Qed.

(** Every reader leaves a proper suffix, so loops over an input end. *)
Lemma GetVarint32_rest p v rest :
  Forall is_u8 p -> GetVarint32 p = Some (v, rest) ->
  Forall is_u8 rest ∧ (length rest < length p)%nat.
Proof.
  intros Hp. rewrite GetVarint32_spec by done.
  destruct (varint_len (take 5 p)) as [j|] eqn:E; [|done]. intros [= _ <-].
  split; [by apply Forall_drop|]. rewrite length_drop.
  destruct p as [|b p]; [done|]. simpl in E.
  destruct (128 <=? b); [destruct (varint_len _) in E; simplify_eq/=|simplify_eq/=]; lia.
Qed.

Lemma GetLengthPrefixedSlice_rest p v rest :
  Forall is_u8 p -> GetLengthPrefixedSlice p = Some (v, rest) ->
  Forall is_u8 v ∧ Forall is_u8 rest ∧ (length rest < length p)%nat.
Proof.
  intros Hp. unfold GetLengthPrefixedSlice. destruct (GetVarint32 p) as [[len q]|] eqn:E; [|done].
  apply GetVarint32_rest in E as [Hq Hl]; [|done]. case_if; [|done]. intros [= <- <-].
  unfold remove_prefix. rewrite length_drop. split_and!; [by apply Forall_take|by apply Forall_drop|lia].
Qed.

(** ** Arrays of 32-bit numbers *)

Lemma Decode_offsets l i v rest :
  Forall is_u32 l -> l !! i = Some v ->
  DecodeFixed32 (drop (4 * i) (concat (EncodeFixed32 <$> l) ++ rest)) = v.
Proof.
  intros Hl. revert i; induction Hl as [|x l Hx Hl IH]; intros i Hi; [done|].
  cbn [fmap list_fmap concat]. rewrite <- app_assoc. destruct i as [|i]; simpl in Hi; simplify_eq.
  - rewrite Nat.mul_0_r. cbn [drop]. by apply DecodeFixed32_encode.
  - rewrite drop_app_ge by (unfold EncodeFixed32; rewrite length_le_split; lia).
    etransitivity; [|exact (IH i Hi)]. unfold EncodeFixed32. rewrite length_le_split. do 2 f_equal. lia.
Qed.

Lemma foldl_PutFixed32 r l : foldl PutFixed32 r l = r ++ concat (EncodeFixed32 <$> l).
Proof.
  revert r; induction l as [|x l IH]; intros r; simpl; [by rewrite app_nil_r|].
  rewrite IH. unfold PutFixed32. by rewrite <- app_assoc.
Qed.

Create HintDb coding.
#[export] Hint Resolve EncodeVarint32_u8 EncodeVarint64_u8 prefixed_u8 le_split_bytes
  DecodeFixed32_u32 DecodeFixed64_u64 Forall_take Forall_drop Forall_app_2 : coding.

(** The integer coding of the storage engine: what [PutVarint32],
    [PutVarint64] and [PutLengthPrefixedSlice] append is read back, whatever
    follows; the two writers, an unrolled one and a loop, give the same
    base-128 bytes as the reference encoding (which is also the one of the
    nanopb messages), and [VarintLength] is their number. *)
Lemma coding_roundtrip (v32 v64 : Z) (value rest : Slice) :
  is_u32 v32 -> is_u64 v64 -> Forall is_u8 value -> size value < 2 ^ 32 -> Forall is_u8 rest ->
  GetVarint32 (PutVarint32 [] v32 ++ rest) = Some (v32, rest) ∧
  GetVarint64 (PutVarint64 [] v64 ++ rest) = Some (v64, rest) ∧
  GetLengthPrefixedSlice (PutLengthPrefixedSlice [] value ++ rest) = Some (value, rest) ∧
  EncodeVarint32 v32 = varint_bytes v32 ∧ EncodeVarint64 v64 = varint_bytes v64 ∧
  VarintLength v64 = size (varint_bytes v64).
Proof.
  intros. split_and!.
  - by apply GetVarint32_put.
  - by apply GetVarint64_put.
  - by apply GetLengthPrefixedSlice_put.
  - by apply EncodeVarint32_bytes.
  - by apply EncodeVarint64_bytes.
  - by apply VarintLength_bytes.
Qed.
