(* ===== verification/LdbBloom.v ===== *)
(** * leveldb: hashing and filters (hash.cc, filter_policy.h, bloom.cc,
      filter_block.h, filter_block.cc)

    The 32-bit hash, the Bloom filter policy, and the filter block of a
    table: one filter per two kilobytes of block offsets.  The filter block
    is written against the interface [FilterPolicy] of filter_policy.h, whose
    documented promise is the class [FilterPolicyLaws]; the Bloom filter is
    an instance of it. *)

From S2P Require Import Prelude.
From S2P Require Import LdbSlice.
From S2P Require Import LdbCoding.

(** ** [Hash] *)

Definition hash_m : Z := 0xc6a4a793.

(** Four bytes at a time; what is left is handed to the switch. *)
Fixpoint hash_words (h : Z) (data : Slice) : Z * Slice :=
  match data with
  | b0 :: b1 :: b2 :: b3 :: data' =>
      let w := DecodeFixed32 [b0; b1; b2; b3] in
      let h := u32 (h + w) in
      let h := u32 (h * hash_m) in
      hash_words (Z.lxor h (Z.shiftr h 16)) data'
  | _ => (h, data)
  end.

(** The cases of the switch fall through from three to one. *)
Definition hash_tail (h : Z) (data : Slice) : Z :=
  let r := 24 in
  let n := size data in
  let h := if n =? 3 then u32 (h + Z.shiftl (byte_of data 2) 16) else h in
  let h := if (n =? 3) || (n =? 2) then u32 (h + Z.shiftl (byte_of data 1) 8) else h in
  if (n =? 3) || (n =? 2) || (n =? 1) then
    let h := u32 (h + byte_of data 0) in
    let h := u32 (h * hash_m) in
    Z.lxor h (Z.shiftr h r)
  else h.

Definition Hash (data : Slice) (seed : Z) : Z :=
  let h := Z.lxor seed (u32 (size data * hash_m)) in
  let '(h, data) := hash_words h data in
  hash_tail h data.

(** ** The interface of filter policies *)

Record FilterPolicy := {
  Name : Slice;
  CreateFilter : list Slice -> Slice -> Slice;
  KeyMayMatch : Slice -> Slice -> bool;
}.

(** filter_policy.h: the filter is appended to the string, and it matches
    every key it was made from.  The number of keys is an [int]. *)
Class FilterPolicyLaws (p : FilterPolicy) : Prop := {
  create_appends keys dst : CreateFilter p keys dst = dst ++ CreateFilter p keys [];
  create_matches keys key :
    Z.of_nat (length keys) < 2 ^ 31 -> key ∈ keys ->
    KeyMayMatch p key (CreateFilter p keys []) = true;
}.

(** ** The Bloom filter policy *)

Definition BloomHash (key : Slice) : Z := Hash key 0xbc9f1d34.

(** [static_cast<size_t>(bits_per_key * 0.69)]: the product of doubles lies
    on the same side of every integer as the exact one, except at multiples
    of 100, which the upper limit hides. *)
Definition bloom_k (bits_per_key : Z) : Z :=
  let k := 69 * bits_per_key / 100 in
  let k := if k <? 1 then 1 else k in
  if 30 <? k then 30 else k.

Definition bloom_delta (h : Z) : Z := Z.lor (Z.shiftr h 17) (u32 (Z.shiftl h 15)).

Definition set_bit (array : Slice) (bitpos : Z) : Slice :=
  let i := Z.to_nat (bitpos / 8) in
  <[i := u8 (Z.lor (byte_of array i) (Z.shiftl 1 (bitpos mod 8)))]> array.

Fixpoint bloom_add (j : nat) (bits delta h : Z) (array : Slice) : Slice :=
  match j with
  | O => array
  | S j => bloom_add j bits delta (u32 (h + delta)) (set_bit array (u32 (h mod bits)))
  end.

Definition bloom_add_key (k bits : Z) (array key : Slice) : Slice :=
  let h := BloomHash key in
  bloom_add (Z.to_nat k) bits (bloom_delta h) h array.

(** [bits] and [bytes] of [CreateFilter] for [n] keys. *)
Definition bloom_bytes (bits_per_key n : Z) : Z :=
  let bits := u64 (n * bits_per_key) in
  let bits := if bits <? 64 then 64 else bits in
  u64 (bits + 7) / 8.

Definition BloomCreateFilter (bits_per_key : Z) (keys : list Slice) (dst : Slice) : Slice :=
  let n := Z.of_nat (length keys) in
  let bytes := bloom_bytes bits_per_key n in
  let bits := u64 (bytes * 8) in
  let k := bloom_k bits_per_key in
  let array := foldl (bloom_add_key k bits) (replicate (Z.to_nat bytes) 0 ++ [u8 k]) keys in
  dst ++ array.

Definition bloom_bit (array : Slice) (bitpos : Z) : bool :=
  negb (Z.land (byte_of array (Z.to_nat (bitpos / 8))) (Z.shiftl 1 (bitpos mod 8)) =? 0).

Fixpoint bloom_test (j : nat) (bits delta h : Z) (array : Slice) : bool :=
  match j with
  | O => true
  | S j => if bloom_bit array (u32 (h mod bits))
           then bloom_test j bits delta (u32 (h + delta)) array else false
  end.

Definition BloomKeyMayMatch (key bloom_filter : Slice) : bool :=
  let len := size bloom_filter in
  if len <? 2 then false
  else
    let array := bloom_filter in
    let bits := u64 ((len - 1) * 8) in
    let k := u64 (s8 (byte_of array (Z.to_nat (len - 1)))) in
    if 30 <? k then true
    else
      let h := BloomHash key in
      bloom_test (Z.to_nat k) bits (bloom_delta h) h array.

Definition NewBloomFilterPolicy (bits_per_key : Z) : FilterPolicy := {|
  Name := str "leveldb.BuiltinBloomFilter2";
  CreateFilter := BloomCreateFilter bits_per_key;
  KeyMayMatch := BloomKeyMayMatch;
|}.

(** ** Bits of the filter *)

Lemma bloom_bit_testbit array pos :
  0 <= pos -> bloom_bit array pos = Z.testbit (byte_of array (Z.to_nat (pos / 8))) (pos mod 8).
Proof.
  intros Hp. unfold bloom_bit. set (x := byte_of _ _).
  assert (0 <= pos mod 8) by (apply Z.mod_pos_bound; lia).
  destruct (Z.testbit x (pos mod 8)) eqn:E.
  - apply negb_true_iff, Z.eqb_neq. intros Hz.
    assert (Z.testbit (Z.land x (Z.shiftl 1 (pos mod 8))) (pos mod 8) = true) as Hb.
    { rewrite Z.land_spec, E, Z.shiftl_spec, Z.sub_diag by lia. done. }
    by rewrite Hz, Z.bits_0 in Hb.
  - apply negb_false_iff, Z.eqb_eq, Z.bits_inj'. intros n Hn.
    rewrite Z.land_spec, Z.bits_0, Z.shiftl_spec by lia.
    destruct (decide (n = pos mod 8)) as [->|Hne]; [by rewrite E|].
    assert (Z.testbit 1 (n - pos mod 8) = false) as ->; [|apply andb_false_r].
    destruct (decide (n - pos mod 8 < 0)); [by apply Z.testbit_neg_r|].
    rewrite (Z.pow2_bits_false 0); [done|lia].
Qed.

Lemma byte_of_u8 (s : Slice) i : Forall is_u8 s -> is_u8 (byte_of s i).
Proof.
  intros Hs. unfold byte_of. destruct (decide (i < length s)%nat).
  - rewrite Forall_forall in Hs. apply Hs, nth_In. lia.
  - rewrite nth_overflow by lia. unfold is_u8. lia.
Qed.

Lemma byte_of_insert (s : Slice) i j x :
  (i < length s)%nat -> byte_of (<[i := x]> s) j = if decide (i = j) then x else byte_of s j.
Proof.
  intros Hi. unfold byte_of. rewrite !nth_lookup. destruct (decide (i = j)) as [->|].
  - by rewrite list_lookup_insert_eq.
  - by rewrite list_lookup_insert_ne.
Qed.

Section Bits.

Context (array : Slice) (bytes : nat).
Context (array_u8 : Forall is_u8 array) (in_range : (bytes < length array)%nat).

Lemma set_bit_u8 pos : Forall is_u8 (set_bit array pos).
Proof.
  apply Forall_insert; [done|]. unfold is_u8, u8. apply Z.mod_pos_bound. lia.
Qed.

Lemma bloom_bit_set pos q :
  0 <= pos < Z.of_nat bytes * 8 -> 0 <= q ->
  bloom_bit (set_bit array pos) q = (q =? pos) || bloom_bit array q.
Proof.
  intros Hp Hq. rewrite !bloom_bit_testbit by done. unfold set_bit.
  assert (Z.to_nat (pos / 8) < bytes)%nat by dlia.
  rewrite byte_of_insert by lia. destruct (decide _) as [E|E].
  - assert (pos / 8 = q / 8) as E8 by dlia. rewrite E.
    unfold u8. rewrite Z.mod_pow2_bits_low by dlia. rewrite Z.lor_spec, orb_comm. f_equal.
    rewrite Z.shiftl_spec by dlia.
    destruct (Z.eqb_spec q pos) as [->|]; [by rewrite Z.sub_diag|].
    destruct (decide (q mod 8 - pos mod 8 < 0)); [by apply Z.testbit_neg_r|].
    rewrite (Z.pow2_bits_false 0); [done|dlia].
  - destruct (Z.eqb_spec q pos) as [->|]; [done|]. done.
Qed.

End Bits.

(** Adding keys keeps the length, the bytes and the last byte, and only sets
    bits. *)
Definition grows (bytes : nat) (a a' : Slice) : Prop :=
  length a' = length a ∧ Forall is_u8 a' ∧ byte_of a' bytes = byte_of a bytes ∧
  ∀ q, 0 <= q -> bloom_bit a q = true -> bloom_bit a' q = true.

Lemma grows_trans bytes a b c : grows bytes a b -> grows bytes b c -> grows bytes a c.
Proof.
  intros (L1 & _ & B1 & M1) (L2 & U & B2 & M2). split_and!; [congruence|done|congruence|].
  intros q Hq H. auto.
Qed.

Lemma grows_set_bit bytes a pos :
  Forall is_u8 a -> (bytes < length a)%nat -> 0 <= pos < Z.of_nat bytes * 8 ->
  grows bytes a (set_bit a pos).
Proof.
  intros Ha Hl Hp. split_and!.
  - unfold set_bit. by rewrite length_insert.
  - by apply (set_bit_u8 a bytes).
  - unfold set_bit. rewrite byte_of_insert by dlia. by rewrite decide_False by dlia.
  - intros q Hq H. by rewrite (bloom_bit_set a bytes), H, orb_true_r.
Qed.

Lemma probe_range bits h : 0 < bits -> 0 <= h < 2 ^ 32 -> 0 <= u32 (h mod bits) < bits.
Proof.
  intros Hb Hh. pose proof (Z.mod_pos_bound h bits Hb). pose proof (Z.mod_le h bits).
  rewrite u32_small; lia.
Qed.

Lemma bloom_add_spec j bytes delta h a :
  Forall is_u8 a -> (0 < bytes < length a)%nat -> 0 <= h < 2 ^ 32 ->
  let bits := Z.of_nat bytes * 8 in
  grows bytes a (bloom_add j bits delta h a) ∧
  ∀ a', grows bytes (bloom_add j bits delta h a) a' -> bloom_test j bits delta h a' = true.
Proof.
  intros Ha Hl. cbv zeta. revert h a Ha Hl; induction j as [|j IH]; intros h a Ha Hl Hh; simpl.
  { split; [|done]. by split_and!. }
  pose proof (probe_range (Z.of_nat bytes * 8) h ltac:(lia) Hh) as Hr.
  pose proof (grows_set_bit bytes a _ Ha ltac:(lia) Hr) as G.
  destruct (IH (u32 (h + delta)) (set_bit a (u32 (h mod (Z.of_nat bytes * 8))))) as [G' T].
  - apply G.
  - destruct G as [-> _]. lia.
  - unfold u32. apply Z.mod_pos_bound. lia.
  - split; [by eapply grows_trans|]. intros a' Ga'. rewrite (T a' Ga').
    destruct (grows_trans _ _ _ _ G' Ga') as (_ & _ & _ & M). rewrite M; [done|lia|].
    rewrite (bloom_bit_set a bytes) by (done || lia). by rewrite Z.eqb_refl.
Qed.

(** ** The hash is a 32-bit number *)

Lemma hash_words_u32 h data : is_u32 h -> is_u32 (hash_words h data).1.
Proof.
  remember (length data) as n eqn:Hn. revert h data Hn.
  induction n as [n IH] using lt_wf_ind; intros h data Hn Hh.
  destruct data as [|b0 [|b1 [|b2 [|b3 data]]]]; try done. cbn [hash_words].
  eapply (IH (length data)); [simpl in Hn; lia|done|].
  apply lxor_u32; [apply u32_is_u32|]. apply shiftr_u32; [lia|apply u32_is_u32].
Qed.

Lemma Hash_u32 data seed : is_u32 seed -> is_u32 (Hash data seed).
Proof.
  intros Hs. unfold Hash.
  pose proof (hash_words_u32 (Z.lxor seed (u32 (size data * hash_m))) data
    (lxor_u32 _ _ Hs (u32_is_u32 _))) as Hw.
  destruct (hash_words _ data) as [h p]. simpl in Hw. unfold hash_tail.
  destruct ((size p =? 3) || (size p =? 2) || (size p =? 1)) eqn:E.
  - apply lxor_u32; [apply u32_is_u32|]. apply shiftr_u32; [lia|apply u32_is_u32].
  - apply orb_false_iff in E as [E _]. apply orb_false_iff in E as [-> ->]. done.
Qed.

(** ** No false negatives *)

Lemma bloom_bytes_range bpk n :
  0 <= bpk < 2 ^ 31 -> 0 <= n < 2 ^ 31 -> 8 <= bloom_bytes bpk n < 2 ^ 60.
Proof.
  intros Hb Hn. unfold bloom_bytes. rewrite (u64_small (n * bpk)) by nia.
  assert (n * bpk < 2 ^ 62) by nia.
  rewrite u64_small by (destruct (Z.ltb_spec (n * bpk) 64); lia).
  destruct (Z.ltb_spec (n * bpk) 64); dlia.
Qed.

Lemma bloom_k_range bpk : 1 <= bloom_k bpk <= 30.
Proof. unfold bloom_k. repeat case_if; lia. Qed.

Lemma bloom_add_key_spec k bytes a key :
  Forall is_u8 a -> (0 < bytes < length a)%nat ->
  grows bytes a (bloom_add_key k (Z.of_nat bytes * 8) a key) ∧
  ∀ a', grows bytes (bloom_add_key k (Z.of_nat bytes * 8) a key) a' ->
    bloom_test (Z.to_nat k) (Z.of_nat bytes * 8) (bloom_delta (BloomHash key)) (BloomHash key) a' = true.
Proof. intros Ha Hl. apply bloom_add_spec; [done..|]. apply Hash_u32. unfold is_u32. lia. Qed.

Lemma bloom_add_keys k bytes keys a :
  Forall is_u8 a -> (0 < bytes < length a)%nat ->
  let a' := foldl (bloom_add_key k (Z.of_nat bytes * 8)) a keys in
  grows bytes a a' ∧
  ∀ key, key ∈ keys ->
    bloom_test (Z.to_nat k) (Z.of_nat bytes * 8) (bloom_delta (BloomHash key)) (BloomHash key) a' = true.
Proof.
  cbv zeta. revert a; induction keys as [|key keys IH]; intros a Ha Hl; simpl.
  { split; [by split_and!|]. intros key Hk. by apply not_elem_of_nil in Hk. }
  destruct (bloom_add_key_spec k bytes a key Ha Hl) as [G T].
  destruct (IH (bloom_add_key k (Z.of_nat bytes * 8) a key)) as [G' T'];
    [apply G|destruct G as [-> _]; done|].
  split; [by eapply grows_trans|]. intros key' [->|Hk]%elem_of_cons; auto.
Qed.

Lemma BloomKeyMayMatch_create bpk keys key :
  0 <= bpk < 2 ^ 31 -> Z.of_nat (length keys) < 2 ^ 31 -> key ∈ keys ->
  BloomKeyMayMatch key (BloomCreateFilter bpk keys []) = true.
Proof.
  intros Hb Hn Hk. unfold BloomCreateFilter.
  pose proof (bloom_bytes_range bpk (Z.of_nat (length keys)) Hb ltac:(lia)) as Hbytes.
  pose proof (bloom_k_range bpk) as Hkr.
  set (bytes := bloom_bytes _ _) in *. set (k := bloom_k bpk) in *.
  rewrite (u64_small (bytes * 8)) by lia.
  set (a0 := replicate (Z.to_nat bytes) 0 ++ [u8 k]).
  assert (Forall is_u8 a0) as Ha0.
  { apply Forall_app; split; [apply Forall_replicate; unfold is_u8; lia|].
    repeat constructor; unfold u8; apply Z.mod_pos_bound; lia. }
  assert (length a0 = S (Z.to_nat bytes)) as Hl0
    by (unfold a0; rewrite length_app, length_replicate; simpl; lia).
  replace (bytes * 8) with (Z.of_nat (Z.to_nat bytes) * 8) by lia.
  destruct (bloom_add_keys k (Z.to_nat bytes) keys a0 Ha0 ltac:(lia)) as [(L & U & B & _) T].
  set (a := foldl _ a0 keys) in *. rewrite app_nil_l. unfold BloomKeyMayMatch.
  unfold size. rewrite L, Hl0. destruct (Z.ltb_spec (Z.of_nat (S (Z.to_nat bytes))) 2); [lia|].
  replace (Z.of_nat (S (Z.to_nat bytes)) - 1) with bytes by lia.
  assert (byte_of a (Z.to_nat bytes) = k) as ->.
  { rewrite B. unfold byte_of, a0. rewrite app_nth2, length_replicate, Nat.sub_diag by
      (rewrite length_replicate; lia). simpl. apply u8_small. lia. }
  unfold s8. rewrite swrap_small by lia. rewrite (u64_small k), (u64_small (bytes * 8)) by lia.
  destruct (Z.ltb_spec 30 k); [lia|]. replace (bytes * 8) with (Z.of_nat (Z.to_nat bytes) * 8) by lia.
  by apply T.
Qed.

#[export] Instance bloom_laws bpk :
  TCEq ((0 <=? bpk) && (bpk <? 2 ^ 31)) true -> FilterPolicyLaws (NewBloomFilterPolicy bpk).
Proof.
  intros Hb. apply TCEq_eq in Hb. bool_to_prop. split.
  - done.
  - intros keys key Hn Hk. by apply BloomKeyMayMatch_create.
Qed.
