(* ===== verification/LdbFilterBlock.v ===== *)
(** * leveldb: the filter block (filter_block.h, filter_block.cc)

    [FilterBlockBuilder] collects the keys of the data blocks of a table and
    makes one filter per [kFilterBase] bytes of block offset;
    [FilterBlockReader] answers for a block offset and a key.  Everything is
    proved for an arbitrary filter policy with the laws of the interface. *)

From stdpp Require Import sorting.
From S2P Require Import Prelude.
From S2P Require Import LdbSlice.
From S2P Require Import LdbCoding.
From S2P Require Import LdbBloom.

Definition kFilterBaseLg : Z := 11.
Definition kFilterBase : Z := Z.shiftl 1 kFilterBaseLg.

(** [tmp_keys_] only lives inside [GenerateFilter]. *)
Record FilterBlockBuilder := FBB {
  keys_ : Slice;
  start_ : list Z;
  result_ : Slice;
  filter_offsets_ : list Z;
}.

Definition FilterBlockBuilder_new : FilterBlockBuilder := FBB [] [] [] [].

Record FilterBlockReader := FBR {
  data_ : option Slice;  (* contents, or null *)
  offset_ : Z;           (* distance of the offset array from data_ *)
  num_ : Z;
  base_lg_ : Z;
}.

Section Policy.

Context (policy_ : FilterPolicy).

Definition tmp_key (keys : Slice) (start : list Z) (i : nat) : Slice :=
  let base := nth i start 0 in
  let length := nth (S i) start 0 - base in
  take (Z.to_nat length) (drop (Z.to_nat base) keys).

Definition GenerateFilter (b : FilterBlockBuilder) : FilterBlockBuilder :=
  let num_keys := length (start_ b) in
  match num_keys with
  | O => FBB (keys_ b) (start_ b) (result_ b) (filter_offsets_ b ++ [u32 (size (result_ b))])
  | _ =>
      let start := start_ b ++ [size (keys_ b)] in
      let tmp_keys := tmp_key (keys_ b) start <$> seq 0 num_keys in
      FBB [] [] (CreateFilter policy_ tmp_keys (result_ b))
          (filter_offsets_ b ++ [u32 (size (result_ b))])
  end.

(** [n] bounds the rounds: each one adds an offset. *)
Fixpoint start_block_loop (n : nat) (filter_index : Z) (b : FilterBlockBuilder) :=
  match n with
  | O => b
  | S n => if Z.of_nat (length (filter_offsets_ b)) <? filter_index
           then start_block_loop n filter_index (GenerateFilter b) else b
  end.

Definition StartBlock (block_offset : Z) (b : FilterBlockBuilder) : FilterBlockBuilder :=
  let filter_index := block_offset / kFilterBase in
  start_block_loop (Z.to_nat (filter_index - Z.of_nat (length (filter_offsets_ b))))
    filter_index b.

Definition AddKey (b : FilterBlockBuilder) (key : Slice) : FilterBlockBuilder :=
  FBB (keys_ b ++ key) (start_ b ++ [size (keys_ b)]) (result_ b) (filter_offsets_ b).

Definition Finish (b : FilterBlockBuilder) : Slice :=
  let b := match start_ b with [] => b | _ :: _ => GenerateFilter b end in
  let array_offset := u32 (size (result_ b)) in
  let result := foldl PutFixed32 (result_ b) (filter_offsets_ b) in
  PutFixed32 result array_offset ++ [kFilterBaseLg].

Definition FilterBlockReader_new (contents : Slice) : FilterBlockReader :=
  let n := size contents in
  if n <? 5 then FBR None 0 0 0
  else
    let base_lg := u64 (s8 (byte_of contents (Z.to_nat (n - 1)))) in
    let last_word := DecodeFixed32 (drop (Z.to_nat (n - 5)) contents) in
    if n - 5 <? last_word then FBR None 0 0 base_lg
    else FBR (Some contents) last_word ((n - 5 - last_word) / 4) base_lg.

(** With null [data_], [num_] is zero and nothing is read. *)
Definition FilterKeyMayMatch (r : FilterBlockReader) (block_offset : Z) (key : Slice) : bool :=
  let index := Z.shiftr block_offset (base_lg_ r) in
  match data_ r with
  | Some data =>
      if index <? num_ r then
        let start := DecodeFixed32 (drop (Z.to_nat (offset_ r + index * 4)) data) in
        let limit := DecodeFixed32 (drop (Z.to_nat (offset_ r + index * 4 + 4)) data) in
        if (start <=? limit) && (limit <=? offset_ r) then
          KeyMayMatch policy_ key (take (Z.to_nat (limit - start)) (drop (Z.to_nat start) data))
        else if start =? limit then false else true
      else true
  | None => true
  end.

(** The calls of the table builder: a block starts at an offset, then its
    keys are added. *)
Definition add_block (b : FilterBlockBuilder) (blk : Z * list Slice) : FilterBlockBuilder :=
  foldl AddKey (StartBlock blk.1 b) blk.2.

Definition filter_block (blks : list (Z * list Slice)) : Slice :=
  Finish (foldl add_block FilterBlockBuilder_new blks).

End Policy.

(** ** Concatenations and their offsets *)

Fixpoint offsets (o : Z) (ls : list Slice) : list Z :=
  match ls with
  | [] => [o]
  | l :: ls => o :: offsets (o + size l) ls
  end.

Lemma length_offsets o ls : length (offsets o ls) = S (length ls).
Proof. revert o; induction ls as [|l ls IH]; intros o; simpl; [done|]. by rewrite IH. Qed.

Lemma size_concat_app (ls : list Slice) l : size (concat (ls ++ [l])) = size (concat ls) + size l.
Proof. rewrite concat_app, size_app. simpl. by rewrite app_nil_r. Qed.

Lemma offsets_snoc o ls l :
  offsets o (ls ++ [l]) = offsets o ls ++ [o + size (concat ls) + size l].
Proof.
  revert o; induction ls as [|x ls IH]; intros o; simpl.
  - unfold size at 3. simpl. by rewrite Z.add_0_r.
  - rewrite IH, size_app. simpl. do 3 f_equal. lia.
Qed.

Lemma offsets_last o ls : ∃ front, offsets o ls = front ++ [o + size (concat ls)] ∧ length front = length ls.
Proof.
  revert o; induction ls as [|l ls IH]; intros o; simpl.
  - exists []. unfold size. simpl. by rewrite Z.add_0_r.
  - destruct (IH (o + size l)) as (front & -> & E). exists (o :: front). simpl.
    rewrite size_app, E. split; [|done]. do 3 f_equal. lia.
Qed.

(** Every element is the slice between two neighbouring offsets. *)
Lemma offsets_slice ls i l :
  ls !! i = Some l -> ∀ o rest, 0 <= o -> ∃ s,
  offsets o ls !! i = Some s ∧ offsets o ls !! S i = Some (s + size l) ∧
  o <= s ∧ s + size l <= o + size (concat ls) ∧
  take (length l) (drop (Z.to_nat (s - o)) (concat ls ++ rest)) = l.
Proof.
  revert i; induction ls as [|x ls IH]; intros i Hl o rest Ho; [done|].
  pose proof (size_nonneg x). cbn [concat]. rewrite size_app.
  destruct i as [|i]; simpl in Hl; simplify_eq.
  - exists o. pose proof (size_nonneg (concat ls)). split_and!; [done| |lia|lia|].
    + destruct ls; done.
    + rewrite Z.sub_diag, drop_0, <- app_assoc. apply take_app_length.
  - destruct (IH i Hl (o + size x) rest ltac:(lia)) as (s & E1 & E2 & Hs & Hs' & E3).
    exists s. split_and!; [done|done|lia|lia|]. etransitivity; [|exact E3]. f_equal.
    rewrite <- app_assoc, drop_app_ge by (unfold size in *; lia). f_equal. unfold size in *. lia.
Qed.

(** ** What the builder has collected *)

Section NoFalseNegative.

Context (policy_ : FilterPolicy) {laws : FilterPolicyLaws policy_}.

(** The filter of a group of keys: none for an empty group. *)
Definition group_filter (keys : list Slice) : Slice :=
  match keys with [] => [] | _ => CreateFilter policy_ keys [] end.

(** [groups]: the keys of the finished filters; [pending]: the keys since. *)
Record collected (b : FilterBlockBuilder) (groups : list (list Slice)) (pending : list Slice) : Prop := {
  col_keys : keys_ b = concat pending;
  col_start : start_ b ++ [size (keys_ b)] = offsets 0 pending;
  col_result : result_ b = concat (group_filter <$> groups);
  col_offsets : filter_offsets_ b ++ [u32 (size (result_ b))] = u32 <$> offsets 0 (group_filter <$> groups);
}.

Lemma length_start b groups pending : collected b groups pending -> length (start_ b) = length pending.
Proof.
  intros [_ Hs _ _]. apply (f_equal length) in Hs. rewrite length_app, length_offsets in Hs.
  simpl in Hs. lia.
Qed.

Lemma length_filter_offsets b groups pending :
  collected b groups pending -> length (filter_offsets_ b) = length groups.
Proof.
  intros [_ _ _ Ho]. apply (f_equal length) in Ho.
  rewrite length_app, length_fmap, length_offsets, length_fmap in Ho. simpl in Ho. lia.
Qed.

Lemma tmp_keys_pending pending :
  tmp_key (concat pending) (offsets 0 pending) <$> seq 0 (length pending) = pending.
Proof.
  apply list_eq. intros i. rewrite list_lookup_fmap. destruct (pending !! i) as [l|] eqn:E.
  - rewrite lookup_seq_lt by by eapply lookup_lt_Some. simpl. f_equal. unfold tmp_key.
    destruct (offsets_slice pending i l E 0 [] ltac:(lia)) as (s & E1 & E2 & _ & _ & E3).
    rewrite !nth_lookup, E1, E2. simpl.
    replace (s + size l - s) with (size l) by lia. unfold size. rewrite Nat2Z.id.
    by rewrite app_nil_r, Z.sub_0_r in E3.
  - rewrite lookup_seq_ge; [done|]. by apply lookup_ge_None.
Qed.

Lemma collected_new : collected FilterBlockBuilder_new [] [].
Proof. by split. Qed.

Lemma collected_GenerateFilter b groups pending :
  collected b groups pending -> collected (GenerateFilter policy_ b) (groups ++ [pending]) [].
Proof.
  intros Hc. pose proof (length_start _ _ _ Hc) as Hl. destruct Hc as [Hk Hs Hr Ho].
  assert (∀ k s, collected (FBB k s (result_ b ++ group_filter pending)
    (filter_offsets_ b ++ [u32 (size (result_ b))])) (groups ++ [pending]) [] <->
    k = [] ∧ s = []) as K.
  { intros k s. split.
    - intros [E1 E2 _ _]. simpl in *. subst k. destruct s as [|? [|]]; simplify_eq/=; done.
    - intros [-> ->]. split; [done|done| |]; cbn [result_ filter_offsets_];
        rewrite fmap_app; cbn [fmap list_fmap].
      + by rewrite concat_app, Hr; simpl; rewrite app_nil_r.
      + rewrite offsets_snoc, fmap_app, <- Ho. simpl. by rewrite size_app, Hr. }
  unfold GenerateFilter. rewrite Hl. destruct pending as [|k pending].
  - simpl in *. rewrite <- (app_nil_r (result_ b)) at 1. apply K.
    split; [done|]. by destruct (start_ b).
  - cbn [length]. rewrite Hs, Hk. change (S (length pending)) with (length (k :: pending)).
    rewrite tmp_keys_pending, create_appends. by apply K.
Qed.

Lemma collected_AddKey b groups pending key :
  collected b groups pending -> collected (AddKey b key) groups (pending ++ [key]).
Proof.
  intros [Hk Hs Hr Ho]. split; cbn [AddKey keys_ start_ result_ filter_offsets_]; [| |done|done].
  - rewrite concat_app, Hk. simpl. by rewrite app_nil_r.
  - by rewrite offsets_snoc, <- Hs, Hk, size_app.
Qed.

Lemma collected_AddKeys b groups pending keys :
  collected b groups pending -> collected (foldl AddKey b keys) groups (pending ++ keys).
Proof.
  revert b pending; induction keys as [|k keys IH]; intros b pending Hc; simpl; [by rewrite app_nil_r|].
  replace (pending ++ k :: keys) with ((pending ++ [k]) ++ keys) by by rewrite <- app_assoc.
  by apply IH, collected_AddKey.
Qed.

(** The filters known so far, including the one being collected. *)
Definition shown (groups : list (list Slice)) (pending : list Slice) : list (list Slice) :=
  groups ++ [pending].

Lemma collected_start_loop n idx b groups pending :
  collected b groups pending -> idx = Z.of_nat (length groups) + Z.of_nat n ->
  ∃ groups' pending', collected (start_block_loop policy_ n idx b) groups' pending' ∧
    idx = Z.of_nat (length groups') ∧ shown groups pending `prefix_of` shown groups' pending' ∧
    concat (shown groups' pending') = concat (shown groups pending).
Proof.
  revert b groups pending; induction n as [|n IH]; intros b groups pending Hc Hi; simpl.
  { exists groups, pending. split_and!; [done|lia|done..]. }
  rewrite (length_filter_offsets _ _ _ Hc). destruct (Z.ltb_spec (Z.of_nat (length groups)) idx); [|lia].
  destruct (IH _ _ _ (collected_GenerateFilter _ _ _ Hc)) as (g' & p' & Hc' & Hl & Hp & He).
  { rewrite length_app. simpl. lia. }
  exists g', p'. split_and!; [done..| |].
  - etransitivity; [|done]. unfold shown. by apply prefix_app_r.
  - rewrite He. unfold shown. rewrite (concat_app (groups ++ [pending])). simpl. by rewrite app_nil_r.
Qed.

Lemma collected_add_block b groups pending off keys :
  collected b groups pending -> Z.of_nat (length groups) <= off / kFilterBase ->
  ∃ groups' pending', collected (add_block policy_ b (off, keys)) groups' (pending' ++ keys) ∧
    off / kFilterBase = Z.of_nat (length groups') ∧
    shown groups pending `prefix_of` shown groups' pending' ∧
    concat (shown groups' pending') = concat (shown groups pending).
Proof.
  intros Hc Ho. unfold add_block, StartBlock. cbn [fst snd].
  rewrite (length_filter_offsets _ _ _ Hc).
  destruct (collected_start_loop (Z.to_nat (off / kFilterBase - Z.of_nat (length groups)))
    (off / kFilterBase) b groups pending Hc ltac:(lia)) as (g' & p' & Hc' & Hl & Hp & He).
  exists g', p'. split_and!; [by apply collected_AddKeys|done..].
Qed.

(** Every key added so far is in the group of its block's offset. *)
Definition covers (groups : list (list Slice)) (pending : list Slice) (blks : list (Z * list Slice)) : Prop :=
  ∀ off keys key, (off, keys) ∈ blks -> key ∈ keys ->
  ∃ g, shown groups pending !! Z.to_nat (off / kFilterBase) = Some g ∧ key ∈ g.

Lemma covers_add groups pending groups' pending' blks off keys :
  covers groups pending blks -> shown groups pending `prefix_of` shown groups' pending' ->
  off / kFilterBase = Z.of_nat (length groups') ->
  covers groups' (pending' ++ keys) (blks ++ [(off, keys)]).
Proof.
  intros Hc Hp Hl o ks k [Hin|Hin]%elem_of_app Hk.
  - destruct (Hc o ks k Hin Hk) as (g & Hg & Hkg). eapply prefix_lookup_Some in Hg; [|done].
    unfold shown in *. apply lookup_app_Some in Hg as [Hg|[Hle Hg]].
    + exists g. split; [by apply lookup_app_l_Some|done].
    + apply list_lookup_singleton_Some in Hg as [Hz <-]. exists (pending' ++ keys).
      rewrite lookup_app_r, Hz by done. split; [done|]. apply elem_of_app. by left.
  - apply list_elem_of_singleton in Hin. simplify_eq. exists (pending' ++ keys).
    unfold shown. rewrite Hl, Nat2Z.id, lookup_app_r, Nat.sub_diag by lia. split; [done|].
    apply elem_of_app. by right.
Qed.

Definition keys_of (blks : list (Z * list Slice)) : list Slice := concat (snd <$> blks).

Lemma collected_blocks blks b groups pending done_ :
  collected b groups pending -> covers groups pending done_ ->
  concat (shown groups pending) = keys_of done_ ->
  StronglySorted (fun x y => x.1 <= y.1) blks ->
  Forall (fun blk => Z.of_nat (length groups) <= blk.1 / kFilterBase) blks ->
  ∃ groups' pending', collected (foldl (add_block policy_) b blks) groups' pending' ∧
    covers groups' pending' (done_ ++ blks) ∧ concat (shown groups' pending') = keys_of (done_ ++ blks).
Proof.
  revert b groups pending done_; induction blks as [|[off keys] blks IH];
    intros b groups pending done_ Hc Hv He Hs Hf; simpl.
  { exists groups, pending. by rewrite app_nil_r. }
  apply StronglySorted_inv in Hs as [Hs Hle]. apply Forall_cons_1 in Hf as [Ho Hf].
  destruct (collected_add_block b groups pending off keys Hc Ho) as (g' & p' & Hc' & Hl & Hp & He').
  destruct (IH _ g' (p' ++ keys) (done_ ++ [(off, keys)]) Hc') as (g2 & p2 & H1 & H2 & H3).
  - by eapply covers_add.
  - unfold keys_of in *. rewrite fmap_app, concat_app, <- He, <- He'. unfold shown.
    rewrite !concat_app. simpl. by rewrite !app_nil_r, app_assoc.
  - done.
  - eapply Forall_impl; [|exact Hle]. intros [o ks] Hoo. simpl in *. rewrite <- Hl.
    apply Z.div_le_mono; [done|lia].
  - exists g2, p2. by rewrite <- app_assoc in H2, H3.
Qed.

(** [Finish] closes the pending group. *)
Lemma Finish_collected b groups pending :
  collected b groups pending ->
  let all := match pending with [] => groups | _ => groups ++ [pending] end in
  Finish policy_ b = concat (group_filter <$> all)
    ++ concat (EncodeFixed32 <$> (u32 <$> offsets 0 (group_filter <$> all))) ++ [kFilterBaseLg].
Proof.
  intros Hc. pose proof (length_start _ _ _ Hc) as Hl. cbv zeta.
  assert (∀ b g p, collected b g p ->
    PutFixed32 (foldl PutFixed32 (result_ b) (filter_offsets_ b)) (u32 (size (result_ b))) ++ [kFilterBaseLg]
    = concat (group_filter <$> g)
      ++ concat (EncodeFixed32 <$> (u32 <$> offsets 0 (group_filter <$> g))) ++ [kFilterBaseLg]) as K.
  { intros b' g p [_ _ Hr Ho]. rewrite foldl_PutFixed32. unfold PutFixed32.
    rewrite <- Ho, fmap_app, concat_app, <- Hr. cbn [fmap list_fmap concat].
    by rewrite app_nil_r, <- !app_assoc. }
  unfold Finish. destruct pending as [|k pending], (start_ b) as [|x st]; try done.
  - by eapply K.
  - by eapply K, collected_GenerateFilter.
Qed.

Lemma offsets_u32 ls o :
  0 <= o -> o + size (concat ls) < 2 ^ 32 -> Forall is_u32 (offsets o ls) ∧ u32 <$> offsets o ls = offsets o ls.
Proof.
  revert o; induction ls as [|l ls IH]; intros o Ho Hs; cbn [offsets fmap list_fmap concat] in *.
  - unfold size in Hs. simpl in Hs. rewrite u32_small by lia. split; [|done].
    repeat constructor; unfold is_u32; lia.
  - rewrite size_app in Hs. pose proof (size_nonneg l). pose proof (size_nonneg (concat ls)).
    destruct (IH (o + size l)) as [F E]; [lia..|]. rewrite E, u32_small by lia.
    split; [|done]. constructor; [unfold is_u32; lia|done].
Qed.

Lemma length_encoded l : length (concat (EncodeFixed32 <$> l)) = (4 * length l)%nat.
Proof.
  induction l as [|x l IH]; cbn [fmap list_fmap concat length]; [done|].
  rewrite length_app, IH. unfold EncodeFixed32. rewrite length_le_split. lia.
Qed.

(** Reading a well-formed filter block. *)
Lemma reader_matches groups i g key rest_lg :
  let fl := group_filter <$> groups in
  let contents := concat fl ++ concat (EncodeFixed32 <$> offsets 0 fl) ++ [kFilterBaseLg] in
  size (concat fl) < 2 ^ 32 -> groups !! i = Some g -> Z.of_nat i = Z.shiftr rest_lg 11 ->
  Z.of_nat (length g) < 2 ^ 31 -> key ∈ g ->
  FilterKeyMayMatch policy_ (FilterBlockReader_new contents) rest_lg key = true.
Proof.
  intros fl contents Hs Hi Hidx Hg Hk.
  destruct (offsets_u32 fl 0 ltac:(lia) ltac:(lia)) as [Hu _].
  destruct (offsets_last 0 fl) as (front & Elast & Hfront).
  set (offs := offsets 0 fl) in *.
  assert (length offs = S (length fl)) as Hlo by apply length_offsets.
  assert (size contents = size (concat fl) + 4 * Z.of_nat (length fl) + 5) as Hn.
  { unfold contents. rewrite !size_app. unfold size. rewrite length_encoded, Hlo. simpl. lia. }
  pose proof (size_nonneg (concat fl)).
  assert (∀ j v, offs !! j = Some v ->
    DecodeFixed32 (drop (Z.to_nat (size (concat fl) + Z.of_nat j * 4)) contents) = v) as Hdec.
  { intros j v Hj. unfold contents, size. rewrite drop_app_ge by lia.
    replace (Z.to_nat _ - _)%nat with (4 * j)%nat by lia. by apply Decode_offsets. }
  assert (FilterBlockReader_new contents
    = FBR (Some contents) (size (concat fl)) (Z.of_nat (length fl)) 11) as ->.
  { unfold FilterBlockReader_new. rewrite Hn.
    destruct (Z.ltb_spec (size (concat fl) + 4 * Z.of_nat (length fl) + 5) 5); [lia|].
    replace (size (concat fl) + 4 * Z.of_nat (length fl) + 5 - 5)
      with (size (concat fl) + Z.of_nat (length fl) * 4) by lia.
    rewrite (Hdec _ (size (concat fl))); cycle 1.
    { rewrite Elast, <- Hfront. rewrite lookup_app_r, Nat.sub_diag by lia. done. }
    destruct (Z.ltb_spec (size (concat fl) + Z.of_nat (length fl) * 4) (size (concat fl))); [lia|].
    f_equal; [dlia|]. unfold byte_of, contents. rewrite app_assoc, app_nth2;
      rewrite length_app, length_encoded, Hlo; unfold size; [|lia].
    by replace (Z.to_nat _ - _)%nat with 0%nat by lia. }
  assert (fl !! i = Some (group_filter g)) as Hfi by (unfold fl; by rewrite list_lookup_fmap, Hi).
  destruct (offsets_slice fl i _ Hfi 0 (concat (EncodeFixed32 <$> offs) ++ [kFilterBaseLg]) ltac:(lia))
    as (s & E1 & E2 & Hs1 & Hs2 & E3).
  pose proof (lookup_lt_Some _ _ _ Hfi). pose proof (size_nonneg (group_filter g)).
  unfold FilterKeyMayMatch. cbn [data_ offset_ num_ base_lg_]. rewrite <- Hidx.
  destruct (Z.ltb_spec (Z.of_nat i) (Z.of_nat (length fl))); [|lia].
  rewrite (Hdec i s E1).
  replace (size (concat fl) + Z.of_nat i * 4 + 4) with (size (concat fl) + Z.of_nat (S i) * 4) by lia.
  rewrite (Hdec (S i) _ E2).
  destruct (Z.leb_spec s (s + size (group_filter g))); [|lia].
  destruct (Z.leb_spec (s + size (group_filter g)) (size (concat fl))); [|lia]. cbn [andb].
  replace (s + size (group_filter g) - s) with (size (group_filter g)) by lia.
  rewrite Z.sub_0_r in E3. unfold size at 1. rewrite Nat2Z.id. unfold contents. rewrite E3.
  unfold group_filter. destruct g as [|x g]; [by apply not_elem_of_nil in Hk|]. by apply create_matches.
Qed.

Lemma filter_block_matches blks off keys key :
  StronglySorted (fun x y => x.1 <= y.1) blks -> Forall (fun blk => 0 <= blk.1) blks ->
  Z.of_nat (length (keys_of blks)) < 2 ^ 31 -> size (filter_block policy_ blks) < 2 ^ 32 ->
  (off, keys) ∈ blks -> key ∈ keys ->
  FilterKeyMayMatch policy_ (FilterBlockReader_new (filter_block policy_ blks)) off key = true.
Proof.
  intros Hs Hf Hn Hsz Hb Hk.
  destruct (collected_blocks blks FilterBlockBuilder_new [] [] []) as (g & p & Hc & Hv & He);
    [apply collected_new| |done|done| |].
  { intros ? ? ? Hin. by apply not_elem_of_nil in Hin. }
  { eapply Forall_impl; [|exact Hf]. intros [o ks] Ho. simpl in *. by apply Z.div_pos. }
  rewrite app_nil_l in Hv, He. unfold filter_block in *.
  pose proof (Finish_collected _ _ _ Hc) as HF. cbv zeta in HF.
  set (all := match p with [] => g | _ => g ++ [p] end) in *.
  destruct (Hv off keys key Hb Hk) as (grp & Hg & Hkg).
  assert (all !! Z.to_nat (off / kFilterBase) = Some grp) as Hall.
  { unfold all, shown in *. destruct p; [|done]. apply lookup_app_Some in Hg as [?|[_ Hg]]; [done|].
    apply list_lookup_singleton_Some in Hg as [_ <-]. by apply not_elem_of_nil in Hkg. }
  assert (0 <= off) as Ho. { rewrite Forall_forall in Hf. apply (Hf (off, keys)). by apply list_elem_of_In. }
  assert (size (concat (group_filter <$> all)) < 2 ^ 32) as Hsz'.
  { rewrite HF, size_app in Hsz. pose proof (size_nonneg (concat (EncodeFixed32 <$>
      (u32 <$> offsets 0 (group_filter <$> all))) ++ [kFilterBaseLg])). lia. }
  destruct (offsets_u32 (group_filter <$> all) 0) as [_ E]; [done|by rewrite Z.add_0_l|].
  rewrite HF, E. eapply (reader_matches all); [done|done| |..|done].
  - rewrite Z.shiftr_div_pow2 by lia. apply Z2Nat.id, Z.div_pos; [done|]. by vm_compute.
  - enough (length grp <= length (keys_of blks))%nat by lia. rewrite <- He.
    apply list_elem_of_lookup_2, list_elem_of_split in Hg as (l1 & l2 & ->).
    rewrite concat_app. simpl. rewrite !length_app. lia.
Qed.

End NoFalseNegative.
