(* ===== verification/LdbFormat.v ===== *)
(** * leveldb: comparators and internal keys (comparator.h, comparator.cc,
      dbformat.h, dbformat.cc)

    [Comparator] is the interface of comparator.h and [ComparatorLaws] its
    documented contract; [BytewiseComparator] implements it, and
    [InternalKeyComparator] turns an implementation on user keys into one on
    internal keys, the user key followed by eight bytes of sequence number
    and type. *)

From S2P Require Import Prelude.
From S2P Require Import LdbSlice.
From S2P Require Import LdbCoding.
From S2P Require Import LdbBloom.

Record Comparator := {
  ComparatorName : Slice;
  Compare : Slice -> Slice -> Z;
  FindShortestSeparator : Slice -> Slice -> Slice;
  FindShortSuccessor : Slice -> Slice;
}.

(** comparator.h, on the keys [okp] the comparator is used on: the sign of
    [Compare] is a total order, the separator of [start < limit] lies in
    [start, limit), the successor is not below the key.  The internal key
    comparator also calls the separator on equal user keys, about which
    comparator.h is silent: it has to leave them alone. *)
Class ComparatorLaws (c : Comparator) (okp : Slice -> Prop) : Prop := {
  cmp_total :: TotalCmp (Compare c) okp;
  sep_ok start limit : okp start -> okp limit -> okp (FindShortestSeparator c start limit);
  sep_range start limit : okp start -> okp limit -> Compare c start limit < 0 ->
    Compare c start (FindShortestSeparator c start limit) <= 0 ∧
    Compare c (FindShortestSeparator c start limit) limit < 0;
  sep_unchanged start limit : okp start -> okp limit -> 0 <= Compare c start limit ->
    FindShortestSeparator c start limit = start;
  succ_ok key : okp key -> okp (FindShortSuccessor c key);
  succ_ge key : okp key -> Compare c key (FindShortSuccessor c key) <= 0;
}.

(** ** [BytewiseComparatorImpl] *)

(** The loop for [diff_index]. *)
Fixpoint common_prefix (a b : Slice) : nat :=
  match a, b with
  | x :: a, y :: b => if x =? y then S (common_prefix a b) else O
  | _, _ => O
  end.

Definition BytewiseFindShortestSeparator (start limit : Slice) : Slice :=
  let min_length := Nat.min (length start) (length limit) in
  let diff_index := common_prefix start limit in
  if (min_length <=? diff_index)%nat then start
  else
    let diff_byte := byte_of start diff_index in
    if (diff_byte <? 0xff) && (diff_byte + 1 <? byte_of limit diff_index)
    then take diff_index start ++ [u8 (diff_byte + 1)] else start.

Fixpoint BytewiseFindShortSuccessor (key : Slice) : Slice :=
  match key with
  | [] => []
  | byte :: key' => if byte =? 0xff then byte :: BytewiseFindShortSuccessor key'
                    else [u8 (byte + 1)]
  end.

Definition BytewiseComparator : Comparator := {|
  ComparatorName := str "leveldb.BytewiseComparator";
  Compare := slice_compare;
  FindShortestSeparator := BytewiseFindShortestSeparator;
  FindShortSuccessor := BytewiseFindShortSuccessor;
|}.

(** ** Internal keys *)

Definition kNumLevels : Z := 7.
Definition kL0_CompactionTrigger : Z := 4.
Definition kL0_SlowdownWritesTrigger : Z := 8.
Definition kL0_StopWritesTrigger : Z := 12.
Definition kMaxMemCompactLevel : Z := 2.
Definition kReadBytesPeriod : Z := 1048576.

Inductive ValueType := kTypeDeletion | kTypeValue.

#[export] Instance ValueType_eq_dec : EqDecision ValueType.
Proof. solve_decision. Defined.

Definition type_value (t : ValueType) : Z :=
  match t with kTypeDeletion => 0 | kTypeValue => 1 end.

Definition kValueTypeForSeek : ValueType := kTypeValue.
Definition kMaxSequenceNumber : Z := Z.shiftl 1 56 - 1.

Record ParsedInternalKey := PIK { user_key : Slice; sequence : Z; type : ValueType }.

Definition InternalKeyEncodingLength (key : ParsedInternalKey) : Z := size (user_key key) + 8.

Definition PackSequenceAndType (seq : Z) (t : ValueType) : Z :=
  Z.lor (u64 (Z.shiftl seq 8)) (type_value t).

Definition AppendInternalKey (result : Slice) (key : ParsedInternalKey) : Slice :=
  PutFixed64 (result ++ user_key key) (PackSequenceAndType (sequence key) (type key)).

(** The callers' keys have at least eight bytes, as the code asserts. *)
Definition ExtractUserKey (internal_key : Slice) : Slice :=
  take (length internal_key - 8) internal_key.

Definition key_tag (internal_key : Slice) : Z :=
  DecodeFixed64 (drop (length internal_key - 8) internal_key).

Definition ParseInternalKey (internal_key : Slice) : option ParsedInternalKey :=
  let n := size internal_key in
  if n <? 8 then None
  else
    let num := key_tag internal_key in
    let c := Z.land num 0xff in
    let key t := PIK (ExtractUserKey internal_key) (Z.shiftr num 8) t in
    if c =? 0 then Some (key kTypeDeletion)
    else if c =? 1 then Some (key kTypeValue)
    else None.

Section InternalKeyComparator.

Context (user_comparator_ : Comparator).

Definition InternalCompare (akey bkey : Slice) : Z :=
  let r := Compare user_comparator_ (ExtractUserKey akey) (ExtractUserKey bkey) in
  if r =? 0 then
    let anum := key_tag akey in
    let bnum := key_tag bkey in
    if bnum <? anum then -1 else if anum <? bnum then 1 else r
  else r.

Definition InternalFindShortestSeparator (start limit : Slice) : Slice :=
  let user_start := ExtractUserKey start in
  let user_limit := ExtractUserKey limit in
  let tmp := FindShortestSeparator user_comparator_ user_start user_limit in
  if (size tmp <? size user_start) && (Compare user_comparator_ user_start tmp <? 0)
  then PutFixed64 tmp (PackSequenceAndType kMaxSequenceNumber kValueTypeForSeek)
  else start.

Definition InternalFindShortSuccessor (key : Slice) : Slice :=
  let user_key := ExtractUserKey key in
  let tmp := FindShortSuccessor user_comparator_ user_key in
  if (size tmp <? size user_key) && (Compare user_comparator_ user_key tmp <? 0)
  then PutFixed64 tmp (PackSequenceAndType kMaxSequenceNumber kValueTypeForSeek)
  else key.

Definition InternalKeyComparator : Comparator := {|
  ComparatorName := str "leveldb.InternalKeyComparator";
  Compare := InternalCompare;
  FindShortestSeparator := InternalFindShortestSeparator;
  FindShortSuccessor := InternalFindShortSuccessor;
|}.

End InternalKeyComparator.

(** [InternalFilterPolicy]: the user's policy on user keys. *)
Definition InternalFilterPolicy (user_policy_ : FilterPolicy) : FilterPolicy := {|
  Name := Name user_policy_;
  CreateFilter keys dst := CreateFilter user_policy_ (ExtractUserKey <$> keys) dst;
  KeyMayMatch key f := KeyMayMatch user_policy_ (ExtractUserKey key) f;
|}.

(** [LookupKey]: the array [start_ .. end_], and the position of [kstart_]
    in it.  The buffer is large enough: five bytes for the length and eight
    for the tag. *)
Record LookupKey := LK { lk_array : Slice; lk_kstart : nat }.

Definition LookupKey_new (ukey : Slice) (s : Z) : LookupKey :=
  let usize := size ukey in
  let len := EncodeVarint32 (u32 (usize + 8)) in
  LK (len ++ ukey ++ EncodeFixed64 (PackSequenceAndType s kValueTypeForSeek)) (length len).

Definition memtable_key (k : LookupKey) : Slice := lk_array k.
Definition internal_key (k : LookupKey) : Slice := drop (lk_kstart k) (lk_array k).
Definition lookup_user_key (k : LookupKey) : Slice := ExtractUserKey (internal_key k).
