(* ===== verification/LdbFormatThms.v ===== *)
(** * leveldb: the comparators keep the contract of comparator.h, internal
      keys survive encoding *)

From S2P Require Import Prelude.
From S2P Require Import LdbSlice.
From S2P Require Import LdbCoding.
From S2P Require Import LdbBloom.
From S2P Require Import LdbFilterBlock.
From S2P Require Import LdbFormat.
From Stdlib Require Import Sorting.Sorted.

(** ** The byte-wise comparator *)

Lemma lexcmp_app p a b : lexcmp (p ++ a) (p ++ b) = lexcmp a b.
Proof. induction p as [|x p IH]; simpl; [done|]. by rewrite Z.eqb_refl. Qed.

Lemma lexcmp_le_trans a b c : lexcmp a b <= 0 -> lexcmp b c <= 0 -> lexcmp a c <= 0.
Proof.
  intros H1 H2. destruct (decide (lexcmp a b = 0)) as [->%lexcmp_0|]; [done|].
  destruct (decide (lexcmp b c = 0)) as [<-%lexcmp_0|]; [lia|].
  enough (lexcmp a c < 0) by lia. apply (lexcmp_trans a b c); lia.
Qed.

Lemma common_prefix_split a b :
  (common_prefix a b < Nat.min (length a) (length b))%nat ->
  ∃ p x y a' b', a = p ++ x :: a' ∧ b = p ++ y :: b' ∧ x ≠ y ∧ length p = common_prefix a b.
Proof.
  revert b; induction a as [|x a IH]; intros [|y b] H; simpl in H; try lia.
  simpl. destruct (x =? y) eqn:E; bool_to_prop.
  - subst. destruct (IH b) as (p & x' & y' & a' & b' & -> & -> & Hne & Hl); [lia|].
    exists (y :: p), x', y', a', b'. split_and!; [done..|]. simpl. by rewrite Hl.
  - by exists [], x, y, a, b.
Qed.

Lemma byte_of_middle p x (s : Slice) : byte_of (p ++ x :: s) (length p) = x.
Proof. unfold byte_of. by rewrite nth_middle. Qed.

(** The separator either is [start] or ends in a byte strictly between those
    of [start] and [limit]. *)
Lemma bytewise_sep_cases start limit :
  Forall is_u8 start -> Forall is_u8 limit ->
  BytewiseFindShortestSeparator start limit = start ∨
  ∃ p x y a b, start = p ++ x :: a ∧ limit = p ++ y :: b ∧ x + 1 < y ∧ is_u8 y ∧ is_u8 x ∧
    BytewiseFindShortestSeparator start limit = p ++ [x + 1].
Proof.
  intros Hs Hl. unfold BytewiseFindShortestSeparator.
  destruct (Nat.leb_spec (Nat.min (length start) (length limit)) (common_prefix start limit));
    [by left|].
  destruct (common_prefix_split start limit) as (p & x & y & a & b & Ea & Eb & Hne & Hp); [lia|].
  rewrite <- Hp, Ea, Eb, !byte_of_middle. case_if; [right|by left].
  rewrite Ea in Hs. rewrite Eb in Hl. apply Forall_app in Hs as [_ Hx], Hl as [_ Hy].
  apply Forall_cons_1 in Hx as [Hx _], Hy as [Hy _]. unfold is_u8 in *.
  exists p, x, y, a, b. split_and!; [done..|lia|lia|lia|lia|lia|].
  by rewrite take_app_length, u8_small by lia.
Qed.

Lemma bytewise_succ key :
  Forall is_u8 key ->
  Forall is_u8 (BytewiseFindShortSuccessor key) ∧ lexcmp key (BytewiseFindShortSuccessor key) <= 0.
Proof.
  induction 1 as [|x key Hx Hk [IH1 IH2]]; simpl; [split; [done|lia]|].
  destruct (x =? 255) eqn:E; bool_to_prop; simpl.
  - rewrite Z.eqb_refl. split; [by constructor|done].
  - unfold is_u8 in Hx. rewrite u8_small by lia.
    split; [repeat constructor; unfold is_u8; lia|].
    destruct (x =? x + 1) eqn:E'; bool_to_prop; lia.
Qed.

#[export] Instance bytewise_laws : ComparatorLaws BytewiseComparator (Forall is_u8).
Proof.
  assert (∀ x : Z, (x =? x + 1) = false) as Hn by (intros; apply Z.eqb_neq; lia).
  split; [split|..]; simpl; intros; rewrite ?slice_compare_lex in *.
  - apply lexcmp_sym.
  - by apply (lexcmp_le_trans x y z).
  - destruct (bytewise_sep_cases start limit) as [->|(p & x & y & a & b & -> & -> & Hxy & ? & ? & ->)]; [done..|].
    apply Forall_app in H as [? _]. apply Forall_app; split; [done|].
    repeat constructor; unfold is_u8 in *; lia.
  - destruct (bytewise_sep_cases start limit) as [->|(p & x & y & a & b & -> & -> & Hxy & ? & ? & ->)]; [done..| |].
    + rewrite lexcmp_refl. by split; [lia|].
    + rewrite !lexcmp_app. simpl. rewrite Hn.
      destruct (x + 1 =? y) eqn:E'; bool_to_prop; lia.
  - destruct (bytewise_sep_cases start limit) as [->|(p & x & y & a & b & -> & -> & Hxy & ? & ? & ->)]; [done..|].
    rewrite lexcmp_app in H1. simpl in H1. destruct (x =? y) eqn:E'; bool_to_prop; lia.
  - by apply bytewise_succ.
  - by apply bytewise_succ.
Qed.

(** ** Packing and parsing internal keys *)

Lemma PackSequenceAndType_value seq t :
  0 <= seq <= kMaxSequenceNumber -> PackSequenceAndType seq t = seq * 256 + type_value t.
Proof.
  unfold kMaxSequenceNumber, PackSequenceAndType. change (Z.shiftl 1 56 - 1) with (2 ^ 56 - 1). intros Hs.
  rewrite Z.shiftl_mul_pow2, u64_small by lia. rewrite Z.lor_comm, lor_shift; [lia|lia|].
  destruct t; simpl; lia.
Qed.

Lemma PackSequenceAndType_u64 seq t :
  0 <= seq <= kMaxSequenceNumber -> is_u64 (PackSequenceAndType seq t).
Proof.
  intros Hs. rewrite PackSequenceAndType_value by done. revert Hs. unfold kMaxSequenceNumber, is_u64.
  change (Z.shiftl 1 56 - 1) with (2 ^ 56 - 1). destruct t; simpl; lia.
Qed.

(** An internal key built from its parts, and the parts read back. *)
Definition ikey (u : Slice) (tag : Z) : Slice := u ++ EncodeFixed64 tag.

Lemma AppendInternalKey_ikey r k :
  AppendInternalKey r k = r ++ ikey (user_key k) (PackSequenceAndType (sequence k) (type k)).
Proof. unfold AppendInternalKey, PutFixed64, ikey. by rewrite <- app_assoc. Qed.

Lemma length_ikey u tag : length (ikey u tag) = (length u + 8)%nat.
Proof. unfold ikey, EncodeFixed64. by rewrite length_app, length_le_split. Qed.

Lemma ExtractUserKey_ikey u tag : ExtractUserKey (ikey u tag) = u.
Proof.
  unfold ExtractUserKey. rewrite length_ikey, Nat.add_sub. unfold ikey. apply take_app_length.
Qed.

Lemma key_tag_ikey u tag : is_u64 tag -> key_tag (ikey u tag) = tag.
Proof.
  intros Ht. unfold key_tag. rewrite length_ikey, Nat.add_sub. unfold ikey.
  rewrite drop_app_length. rewrite <- (app_nil_r (EncodeFixed64 tag)). by apply DecodeFixed64_encode.
Qed.

(** Every key of at least eight bytes is of this form. *)
Definition ikey_ok (okp : Slice -> Prop) (k : Slice) : Prop :=
  Forall is_u8 k ∧ (8 <= length k)%nat ∧ okp (ExtractUserKey k).

Lemma key_tag_u64 k : Forall is_u8 k -> is_u64 (key_tag k).
Proof. intros Hk. apply DecodeFixed64_u64. by apply Forall_drop. Qed.

Lemma ikey_ok_ikey okp u tag : Forall is_u8 u -> okp u -> ikey_ok okp (ikey u tag).
Proof.
  intros Hu Ho. split_and!.
  - unfold ikey. apply Forall_app; split; [done|]. apply le_split_bytes.
  - rewrite length_ikey. lia.
  - by rewrite ExtractUserKey_ikey.
Qed.

Lemma ParseInternalKey_append k :
  0 <= sequence k <= kMaxSequenceNumber -> ParseInternalKey (AppendInternalKey [] k) = Some k.
Proof.
  intros Hs. rewrite AppendInternalKey_ikey. simpl. unfold ParseInternalKey, size.
  rewrite length_ikey. destruct (Z.ltb_spec (Z.of_nat (length (user_key k) + 8)) 8); [lia|].
  rewrite key_tag_ikey, ExtractUserKey_ikey by by apply PackSequenceAndType_u64.
  rewrite PackSequenceAndType_value, land_255, Z.shiftr_div_pow2 by (done || lia).
  destruct k as [u s t]. simpl in *. rewrite Z.add_comm, Z.mod_add, Z.div_add by lia.
  by destruct t.
Qed.

Lemma ParseInternalKey_user k pk : ParseInternalKey k = Some pk -> user_key pk = ExtractUserKey k.
Proof.
  unfold ParseInternalKey. intros H. destruct (size k <? 8); [done|].
  destruct (Z.land (key_tag k) 255 =? 0), (Z.land (key_tag k) 255 =? 1); by simplify_eq/=.
Qed.

Lemma parsed_tag k pk : Forall is_u8 k -> ParseInternalKey k = Some pk -> key_tag k = sequence pk * 256 + type_value (type pk).
Proof.
  intros Hk. pose proof (key_tag_u64 k Hk) as Hu. unfold ParseInternalKey. destruct (size k <? 8); [done|].
  rewrite land_255, Z.shiftr_div_pow2 by lia. change (2 ^ 8) with 256. pose proof (Z.div_mod (key_tag k) 256 ltac:(lia)).
  destruct (Z.eqb_spec (key_tag k mod 256) 0); [intros [= <-]; simpl; lia|].
  destruct (Z.eqb_spec (key_tag k mod 256) 1); [intros [= <-]; simpl; lia|done].
Qed.

(** No parsed key has a larger tag than the key that is sought first. *)
Lemma parsed_tag_le k pk : Forall is_u8 k -> ParseInternalKey k = Some pk ->
  key_tag k <= PackSequenceAndType kMaxSequenceNumber kValueTypeForSeek ∧ 0 <= sequence pk <= kMaxSequenceNumber.
Proof.
  intros Hk Hp. pose proof (parsed_tag k pk Hk Hp) as E. pose proof (key_tag_u64 k Hk) as Hu. unfold is_u64 in Hu.
  rewrite PackSequenceAndType_value by done. change kMaxSequenceNumber with (2 ^ 56 - 1). destruct (type pk); simpl in *; lia.
Qed.

(** ** Internal keys are ordered by user key, then newest first *)

Section Internal.

Context (uc : Comparator) (okp : Slice -> Prop) {laws : ComparatorLaws uc okp}.

Lemma InternalCompare_cases a b :
  let r := Compare uc (ExtractUserKey a) (ExtractUserKey b) in
  (r ≠ 0 ∧ InternalCompare uc a b = r) ∨
  (r = 0 ∧ Z.sgn (InternalCompare uc a b) = Z.sgn (key_tag b - key_tag a)).
Proof.
  cbv zeta. unfold InternalCompare. destruct (Compare uc _ _ =? 0) eqn:E; bool_to_prop; [|by left].
  right. split; [done|]. rewrite E.
  destruct (Z.ltb_spec (key_tag b) (key_tag a)); [rewrite (Z.sgn_neg (_ - _)) by lia; done|].
  destruct (Z.ltb_spec (key_tag a) (key_tag b)); [rewrite (Z.sgn_pos (_ - _)) by lia; done|].
  by replace (key_tag b - key_tag a) with 0 by lia.
Qed.

Lemma InternalCompare_user_lt a b :
  Compare uc (ExtractUserKey a) (ExtractUserKey b) < 0 -> InternalCompare uc a b < 0.
Proof. intros H. destruct (InternalCompare_cases a b) as [[? ->]|[? ?]]; lia. Qed.

Lemma InternalCompare_le a b :
  InternalCompare uc a b <= 0 <->
  Compare uc (ExtractUserKey a) (ExtractUserKey b) < 0 ∨
  (Compare uc (ExtractUserKey a) (ExtractUserKey b) = 0 ∧ key_tag b <= key_tag a).
Proof.
  destruct (InternalCompare_cases a b) as [[? ->]|[-> E]]; [lia|].
  rewrite <- Z.sgn_nonpos, E, Z.sgn_nonpos. lia.
Qed.

Lemma InternalCompare_antisym a b :
  ikey_ok okp a -> ikey_ok okp b -> Z.sgn (InternalCompare uc a b) = - Z.sgn (InternalCompare uc b a).
Proof.
  intros (_ & _ & Ha) (_ & _ & Hb). pose proof (cmp_antisym (cmp := Compare uc) _ _ Ha Hb) as E.
  destruct (InternalCompare_cases a b) as [[H1 ->]|[H1 ->]],
    (InternalCompare_cases b a) as [[H2 ->]|[H2 ->]]; [done| | |].
  - rewrite H2 in E. apply Z.sgn_null_iff in E. lia.
  - rewrite H1 in E. symmetry in E. change (Z.sgn 0) with 0 in E.
    assert (Z.sgn (Compare uc (ExtractUserKey b) (ExtractUserKey a)) = 0) as E'%Z.sgn_null_iff by lia. lia.
  - rewrite <- Z.sgn_opp. f_equal. lia.
Qed.

Lemma InternalCompare_le_trans a b d :
  ikey_ok okp a -> ikey_ok okp b -> ikey_ok okp d ->
  InternalCompare uc a b <= 0 -> InternalCompare uc b d <= 0 -> InternalCompare uc a d <= 0.
Proof.
  intros (_ & _ & Ha) (_ & _ & Hb) (_ & _ & Hd). rewrite !InternalCompare_le.
  intros [H1|[H1 T1]] [H2|[H2 T2]].
  - left. eapply (cmp_lt_trans (Compare uc) okp _ _ _ Ha Hb Hd); done.
  - left. eapply (cmp_lt_le (Compare uc) okp _ _ _ Ha Hb Hd); [done|lia].
  - left. eapply (cmp_le_lt (Compare uc) okp _ _ _ Ha Hb Hd); [lia|done].
  - right. split; [|lia]. apply Z.sgn_null_iff.
    rewrite (cmp_eq_l (Compare uc) okp _ _ _ Ha Hb Hd H1), H2. done.
Qed.

(** A shortened user key with the largest tag. *)
Lemma shortened_ok tmp :
  okp tmp -> Forall is_u8 tmp ->
  ikey_ok okp (PutFixed64 tmp (PackSequenceAndType kMaxSequenceNumber kValueTypeForSeek)) ∧
  ExtractUserKey (PutFixed64 tmp (PackSequenceAndType kMaxSequenceNumber kValueTypeForSeek)) = tmp.
Proof.
  intros Ho Hu. split; [by apply ikey_ok_ikey|apply ExtractUserKey_ikey].
Qed.

Lemma InternalFindShortestSeparator_range start limit :
  (∀ k, okp k -> Forall is_u8 k) -> ikey_ok okp start -> ikey_ok okp limit ->
  InternalCompare uc start limit < 0 ->
  let s := InternalFindShortestSeparator uc start limit in
  ikey_ok okp s ∧ InternalCompare uc start s <= 0 ∧ InternalCompare uc s limit < 0.
Proof.
  intros Hu Hs Hl Hlt. cbv zeta. pose proof Hs as (_ & _ & Hs'). pose proof Hl as (_ & _ & Hl').
  unfold InternalFindShortestSeparator. case_if; cycle 1.
  { split_and!; [done| |done]. pose proof (InternalCompare_antisym start start Hs Hs).
    assert (Z.sgn (InternalCompare uc start start) = 0) as E%Z.sgn_null_iff by lia. lia. }
  set (tmp := FindShortestSeparator uc _ _) in *.
  assert (okp tmp) as Ht by by apply sep_ok.
  destruct (shortened_ok tmp Ht (Hu _ Ht)) as [K1 K2].
  destruct (decide (Compare uc (ExtractUserKey start) (ExtractUserKey limit) < 0)) as [Hc|Hc].
  - split_and!; [done| |].
    + enough (InternalCompare uc start
        (PutFixed64 tmp (PackSequenceAndType kMaxSequenceNumber kValueTypeForSeek)) < 0) by lia.
      apply InternalCompare_user_lt. by rewrite K2.
    + apply InternalCompare_user_lt. rewrite K2.
      by apply (sep_range (ExtractUserKey start) (ExtractUserKey limit)).
  - exfalso. assert (tmp = ExtractUserKey start) as E by (apply sep_unchanged; [done..|lia]).
    match goal with H : Compare uc _ tmp < 0 |- _ => rewrite E, (cmp_refl (Compare uc) okp) in H by done end. lia.
Qed.

Lemma InternalFindShortestSeparator_unchanged start limit :
  ikey_ok okp start -> ikey_ok okp limit -> 0 <= InternalCompare uc start limit ->
  InternalFindShortestSeparator uc start limit = start.
Proof.
  intros (_ & _ & Hs) (_ & _ & Hl) Hge. unfold InternalFindShortestSeparator.
  rewrite sep_unchanged, Z.ltb_irrefl; [done|done|done|].
  destruct (decide (Compare uc (ExtractUserKey start) (ExtractUserKey limit) < 0)) as [Hc|]; [|lia].
  apply InternalCompare_user_lt in Hc. lia.
Qed.

Lemma InternalFindShortSuccessor_ge key :
  (∀ k, okp k -> Forall is_u8 k) -> ikey_ok okp key ->
  ikey_ok okp (InternalFindShortSuccessor uc key) ∧
  InternalCompare uc key (InternalFindShortSuccessor uc key) <= 0.
Proof.
  intros Hu Hk. pose proof Hk as (_ & _ & Hk'). unfold InternalFindShortSuccessor. case_if; cycle 1.
  { split; [done|]. pose proof (InternalCompare_antisym key key Hk Hk).
    assert (Z.sgn (InternalCompare uc key key) = 0) as E%Z.sgn_null_iff by lia. lia. }
  set (tmp := FindShortSuccessor uc _) in *. assert (okp tmp) as Ht by by apply succ_ok.
  destruct (shortened_ok tmp Ht (Hu _ Ht)) as [K1 K2]. split; [done|].
  enough (InternalCompare uc key
    (PutFixed64 tmp (PackSequenceAndType kMaxSequenceNumber kValueTypeForSeek)) < 0) by lia.
  apply InternalCompare_user_lt. by rewrite K2.
Qed.

Lemma internal_laws :
  (∀ k, okp k -> Forall is_u8 k) -> ComparatorLaws (InternalKeyComparator uc) (ikey_ok okp).
Proof.
  intros Hu. split; [split|..]; simpl.
  - apply InternalCompare_antisym.
  - apply InternalCompare_le_trans.
  - intros start limit Hs Hl.
    destruct (decide (InternalCompare uc start limit < 0)) as [Hc|Hc].
    + by apply InternalFindShortestSeparator_range.
    + rewrite InternalFindShortestSeparator_unchanged; [done..|lia].
  - intros start limit Hs Hl Hc. by apply InternalFindShortestSeparator_range.
  - apply InternalFindShortestSeparator_unchanged.
  - intros key Hk. by apply InternalFindShortSuccessor_ge.
  - intros key Hk. by apply InternalFindShortSuccessor_ge.
Qed.

End Internal.

(** ** Lookup keys and the filter wrapper *)

Lemma internal_key_lookup u s :
  internal_key (LookupKey_new u s) = ikey u (PackSequenceAndType s kValueTypeForSeek).
Proof. unfold internal_key, LookupKey_new. simpl. by rewrite drop_app_length. Qed.

Lemma lookup_user_key_new u s : lookup_user_key (LookupKey_new u s) = u.
Proof. unfold lookup_user_key. by rewrite internal_key_lookup, ExtractUserKey_ikey. Qed.

#[export] Instance internal_filter_laws p :
  FilterPolicyLaws p -> FilterPolicyLaws (InternalFilterPolicy p).
Proof.
  intros Hp. split; simpl.
  - intros keys dst. apply create_appends.
  - intros keys key Hn Hk. apply create_matches; [by rewrite length_fmap|].
    by apply list_elem_of_fmap_2.
Qed.

(** ** What readers rely on *)

Lemma may_match_user_key p r off key key' :
  ExtractUserKey key' = ExtractUserKey key ->
  FilterKeyMayMatch (InternalFilterPolicy p) r off key' = FilterKeyMayMatch (InternalFilterPolicy p) r off key.
Proof. intros E. unfold FilterKeyMayMatch. simpl. by rewrite E. Qed.

(** C36. The filter block never hides a key: after the builder was given the
    blocks of a table, a lookup with the offset of a block and any internal
    key whose user key is one of the block's passes the filter, for Bloom
    filters with any number of bits per key. *)
Theorem filter_block_no_false_negatives (bpk : Z) (blks : list (Z * list Slice)) (off : Z) (keys : list Slice)
    (key key' : Slice) :
  0 <= bpk < 2 ^ 31 ->
  StronglySorted (fun x y => x.1 <= y.1) blks -> Forall (fun blk => 0 <= blk.1) blks ->
  Z.of_nat (length (keys_of blks)) < 2 ^ 31 ->
  size (filter_block (InternalFilterPolicy (NewBloomFilterPolicy bpk)) blks) < 2 ^ 32 ->
  (off, keys) ∈ blks -> key ∈ keys -> ExtractUserKey key' = ExtractUserKey key ->
  FilterKeyMayMatch (InternalFilterPolicy (NewBloomFilterPolicy bpk))
    (FilterBlockReader_new (filter_block (InternalFilterPolicy (NewBloomFilterPolicy bpk)) blks)) off key' = true.
Proof.
  intros Hb Hs Hf Hn Hsz Hin Hk E. rewrite (may_match_user_key _ _ _ key) by done.
  assert (FilterPolicyLaws (NewBloomFilterPolicy bpk)).
  { apply bloom_laws. rewrite (proj2 (Z.leb_le 0 bpk)), (proj2 (Z.ltb_lt bpk (2 ^ 31))) by lia. constructor. }
  eapply (filter_block_matches (InternalFilterPolicy (NewBloomFilterPolicy bpk)) blks off keys key); eassumption.
Qed.

(** Two blocks, in different filter ranges; the key is looked up at a later
    sequence number than it was stored with. *)
Lemma filter_block_no_false_negatives_witness :
  FilterKeyMayMatch (InternalFilterPolicy (NewBloomFilterPolicy 10))
    (FilterBlockReader_new (filter_block (InternalFilterPolicy (NewBloomFilterPolicy 10))
       [(0, [ikey [97] 257]); (5000, [ikey [98] 513; ikey [99] 769])])) 5000 (ikey [98] 99999) = true.
Proof.
  refine (filter_block_no_false_negatives 10 [(0, [ikey [97] 257]); (5000, [ikey [98] 513; ikey [99] 769])] 5000
    [ikey [98] 513; ikey [99] 769] (ikey [98] 513) (ikey [98] 99999) _ _ _ _ _ _ _ _).
  - lia.
  - repeat constructor; simpl; lia.
  - repeat constructor; simpl; lia.
  - reflexivity.
  - vm_compute. reflexivity.
  - right. left.
  - left.
  - vm_compute. reflexivity.
Defined.

(** C37. On internal keys over any user comparator that keeps the contract of
    comparator.h, the internal comparator keeps it too: a total order, short
    separators inside their range, short successors not below their key.  On
    one user key the newer entry comes first, and an internal key can be
    parsed back. *)
Theorem internal_comparator_contract (uc : Comparator) (okp : Slice -> Prop) `{!ComparatorLaws uc okp} :
  (∀ k, okp k -> Forall is_u8 k) ->
  ComparatorLaws (InternalKeyComparator uc) (ikey_ok okp) ∧
  ∀ k : ParsedInternalKey, 0 <= sequence k <= kMaxSequenceNumber ->
    ParseInternalKey (AppendInternalKey [] k) = Some k ∧
    ∀ seq t, okp (user_key k) -> sequence k < seq <= kMaxSequenceNumber ->
      Compare (InternalKeyComparator uc) (AppendInternalKey [] (PIK (user_key k) seq t)) (AppendInternalKey [] k) < 0.
Proof.
  intros Hu. split; [by apply internal_laws|]. intros k Hk. split; [by apply ParseInternalKey_append|].
  intros seq t Ho Hs. rewrite !AppendInternalKey_ikey. simpl.
  destruct (InternalCompare_cases uc (ikey (user_key k) (PackSequenceAndType seq t))
    (ikey (user_key k) (PackSequenceAndType (sequence k) (type k)))) as [[Hn _]|[_ E]];
    rewrite ?ExtractUserKey_ikey in *.
  - by rewrite (cmp_refl (Compare uc) okp) in Hn.
  - rewrite !key_tag_ikey in E by (apply PackSequenceAndType_u64; lia). rewrite <- Z.sgn_neg_iff, E, Z.sgn_neg_iff.
    rewrite !PackSequenceAndType_value by lia. destruct t, (type k); simpl; lia.
Qed.

Lemma internal_comparator_contract_witness :
  ComparatorLaws (InternalKeyComparator BytewiseComparator) (ikey_ok (Forall is_u8)).
Proof. exact (proj1 (internal_comparator_contract BytewiseComparator (Forall is_u8) (fun k Hk => Hk))). Defined.
