(* ===== verification/LdbIterator.v ===== *)
(** * leveldb: iterators (iterator.h, iterator.cc, iterator_wrapper.h)

    [Iterator] is the interface of iterator.h; [Cursor] its documented
    behaviour for a source that holds the sorted list [kvs]: the iterator is
    a position in the list.  Methods return [None] for an access outside
    memory or a loop that ran out of rounds. *)

From stdpp Require Import sorting.
From S2P Require Import Prelude.
From S2P Require Import LdbSlice.
From S2P Require Import LdbFormat.

(** ** The interface *)

Class Iterator (I : Type) := {
  i_Valid : I -> bool;
  i_key : I -> Slice;
  i_value : I -> Slice;
  i_status : I -> Status;
  i_SeekToFirst : I -> option I;
  i_SeekToLast : I -> option I;
  i_Seek : Slice -> I -> option I;
  i_Next : I -> option I;
  i_Prev : I -> option I;
}.

(** What a client may look at. *)
Definition i_view {I} `{!Iterator I} (it : I) : option (Slice * Slice) :=
  if i_Valid it then Some (i_key it, i_value it) else None.

(** The number of leading entries whose key is below the target. *)
Fixpoint seek_index (cmp : Comparator) (target : Slice) (kvs : list (Slice * Slice)) : nat :=
  match kvs with
  | [] => O
  | kv :: kvs => if Compare cmp kv.1 target <? 0 then S (seek_index cmp target kvs) else O
  end.

(** [at_ it i]: the iterator stands on entry [i], and is not valid when [i]
    is the length of the list. *)
Class Cursor {I : Type} `{!Iterator I} (cmp : Comparator) (okp : Slice -> Prop) (kvs : list (Slice * Slice))
    (at_ : I -> nat -> Prop) : Prop := {
  cur_view it i : at_ it i -> i_view it = kvs !! i;
  cur_bound it i : at_ it i -> (i <= length kvs)%nat;
  cur_status it i : at_ it i -> i_status it = Status_OK;
  cur_first it i : at_ it i -> ∃ it', i_SeekToFirst it = Some it' ∧ at_ it' O;
  cur_last it i : at_ it i -> ∃ it', i_SeekToLast it = Some it' ∧ at_ it' (length kvs - 1)%nat;
  cur_seek it i target : at_ it i -> okp target ->
    ∃ it', i_Seek target it = Some it' ∧ at_ it' (seek_index cmp target kvs);
  cur_next it i : at_ it i -> (i < length kvs)%nat -> ∃ it', i_Next it = Some it' ∧ at_ it' (S i);
  cur_prev it i : at_ it i -> (i < length kvs)%nat ->
    ∃ it', i_Prev it = Some it' ∧ at_ it' (match i with O => length kvs | S j => j end);
}.

(** ** iterator.cc *)

(** [NewEmptyIterator] and [NewErrorIterator]; moving it is excluded by an
    assertion. *)
Record EmptyIterator := MkEmpty { empty_status_ : Status }.

#[export] Instance empty_iterator : Iterator EmptyIterator := {|
  i_Valid _ := false;
  i_key _ := [];
  i_value _ := [];
  i_status := empty_status_;
  i_SeekToFirst := Some;
  i_SeekToLast := Some;
  i_Seek _ := Some;
  i_Next := Some;
  i_Prev := Some;
|}.

(** ** [IteratorWrapper] *)

Section Wrapper.

Context {I : Type} `{!Iterator I}.

Record IteratorWrapper := MkWrapper { iter_ : option I; valid_ : bool; key_ : Slice }.

Definition w_Update (it : I) (w : IteratorWrapper) : IteratorWrapper :=
  let valid := i_Valid it in MkWrapper (Some it) valid (if valid then i_key it else key_ w).

Definition w_Set (iter : option I) (w : IteratorWrapper) : IteratorWrapper :=
  match iter with None => MkWrapper None false (key_ w) | Some it => w_Update it w end.

Definition w_new (iter : option I) : IteratorWrapper := w_Set iter (MkWrapper None false []).

Definition w_Valid (w : IteratorWrapper) : bool := valid_ w.
Definition w_key (w : IteratorWrapper) : Slice := key_ w.

(** The other methods require an iterator. *)
Definition w_value (w : IteratorWrapper) : Slice := match iter_ w with Some it => i_value it | None => [] end.
Definition w_status (w : IteratorWrapper) : Status := match iter_ w with Some it => i_status it | None => Status_OK end.

Definition w_move (f : I -> option I) (w : IteratorWrapper) : option IteratorWrapper :=
  it ← iter_ w; it ← f it; Some (w_Update it w).

Definition w_Next := w_move i_Next.
Definition w_Prev := w_move i_Prev.
Definition w_Seek (k : Slice) := w_move (i_Seek k).
Definition w_SeekToFirst := w_move i_SeekToFirst.
Definition w_SeekToLast := w_move i_SeekToLast.

(** A wrapper in step with its iterator. *)
Definition w_at (at_ : I -> nat -> Prop) (w : IteratorWrapper) (i : nat) : Prop :=
  ∃ it, iter_ w = Some it ∧ at_ it i ∧ valid_ w = i_Valid it ∧ (i_Valid it = true -> key_ w = i_key it).

End Wrapper.

Arguments IteratorWrapper : clear implicits.

#[export] Instance wrapper_iterator {I} `{!Iterator I} : Iterator (IteratorWrapper I) := {|
  i_Valid := w_Valid;
  i_key := w_key;
  i_value := w_value;
  i_status := w_status;
  i_SeekToFirst := w_SeekToFirst;
  i_SeekToLast := w_SeekToLast;
  i_Seek := w_Seek;
  i_Next := w_Next;
  i_Prev := w_Prev;
|}.

(** ** Facts *)

Section Facts.

Context {I : Type} `{!Iterator I} (cmp : Comparator) (okp : Slice -> Prop) (kvs : list (Slice * Slice)).
Context (at_ : I -> nat -> Prop) `{!Cursor cmp okp kvs at_}.

Lemma cur_valid it i : at_ it i -> i_Valid it = bool_decide (i < length kvs)%nat.
Proof using Cursor0.
  intros Ha. pose proof (cur_view it i Ha) as Hv. unfold i_view in Hv. destruct (i_Valid it).
  - rewrite bool_decide_eq_true_2; [done|]. by eapply lookup_lt_Some.
  - rewrite bool_decide_eq_false_2; [done|]. apply Nat.nlt_ge. by apply lookup_ge_None.
Qed.

Lemma cur_entry it i k v : at_ it i -> kvs !! i = Some (k, v) -> i_Valid it = true ∧ i_key it = k ∧ i_value it = v.
Proof using Cursor0.
  intros Ha Hk. pose proof (cur_view it i Ha) as Hv. rewrite Hk in Hv. unfold i_view in Hv.
  destruct (i_Valid it); by simplify_eq.
Qed.

Lemma w_Update_at it i w : at_ it i -> w_at at_ (w_Update it w) i.
Proof. intros Ha. exists it. unfold w_Update. simpl. split_and!; try done. by intros ->. Qed.

Lemma w_move_at f w i i' :
  w_at at_ w i -> (∀ it, at_ it i -> ∃ it', f it = Some it' ∧ at_ it' i') ->
  ∃ w', w_move f w = Some w' ∧ w_at at_ w' i'.
Proof.
  intros (it & Hw & Ha & _) Hf. destruct (Hf it Ha) as (it' & E & Ha'). unfold w_move. rewrite Hw. simpl. rewrite E. simpl.
  eexists. split; [done|]. by apply w_Update_at.
Qed.

(** The wrapper only caches: it is a cursor when its iterator is one. *)
#[export] Instance wrapper_cursor : Cursor cmp okp kvs (w_at at_).
Proof using Cursor0.
  split.
  - intros w i (it & Hw & Ha & Hv & Hk). rewrite <- (cur_view it i Ha). unfold i_view. simpl. unfold w_Valid, w_key, w_value.
    rewrite Hw, Hv. destruct (i_Valid it); [by rewrite Hk|done].
  - intros w i (it & _ & Ha & _). by apply (cur_bound it).
  - intros w i (it & Hw & Ha & _). simpl. unfold w_status. rewrite Hw. by apply (cur_status it i).
  - intros w i Hw. apply (w_move_at _ w i _ Hw). intros it. apply cur_first.
  - intros w i Hw. apply (w_move_at _ w i _ Hw). intros it. apply cur_last.
  - intros w i target Hw Ht. apply (w_move_at _ w i _ Hw). intros it Ha. by apply (cur_seek it i).
  - intros w i Hw Hi. apply (w_move_at _ w i _ Hw). intros it Ha. by apply (cur_next it i).
  - intros w i Hw Hi. apply (w_move_at _ w i _ Hw). intros it Ha. by apply (cur_prev it i).
Qed.

End Facts.

(** *** Programs of a client *)

Inductive cursor_op := ToFirst | ToLast | ToNext | ToPrev | ToKey (target : Slice).

Definition iter_op {I} `{!Iterator I} (op : cursor_op) (it : I) : option I :=
  match op with
  | ToFirst => i_SeekToFirst it
  | ToLast => i_SeekToLast it
  | ToNext => i_Next it
  | ToPrev => i_Prev it
  | ToKey target => i_Seek target it
  end.

Definition iter_run {I} `{!Iterator I} (ops : list cursor_op) (it : I) : option I :=
  foldl (fun m op => m ≫= iter_op op) (Some it) ops.

(** The position in the list; [Next] and [Prev] require a valid one. *)
Definition cursor_step (cmp : Comparator) (kvs : list (Slice * Slice)) (op : cursor_op) (i : nat) : option nat :=
  match op with
  | ToFirst => Some O
  | ToLast => Some (length kvs - 1)%nat
  | ToNext => if (i <? length kvs)%nat then Some (S i) else None
  | ToPrev => if (i <? length kvs)%nat then Some (match i with O => length kvs | S j => j end) else None
  | ToKey target => Some (seek_index cmp target kvs)
  end.

Definition cursor_run (cmp : Comparator) (kvs : list (Slice * Slice)) (ops : list cursor_op) : option nat :=
  foldl (fun m op => m ≫= cursor_step cmp kvs op) (Some (length kvs)) ops.

Definition target_ok (okp : Slice -> Prop) (op : cursor_op) : Prop :=
  match op with ToKey target => okp target | _ => True end.

Lemma foldl_bind_None {A B} (f : B -> A -> option A) ops : foldl (fun m op => m ≫= f op) None ops = None.
Proof. by induction ops. Qed.

(** A program keeps an iterator and its cursor in step. *)
Lemma run_cursor {I} `{!Iterator I} cmp okp kvs (at_ : I -> nat -> Prop) `{!Cursor cmp okp kvs at_} ops it i :
  at_ it (length kvs) -> Forall (target_ok okp) ops -> cursor_run cmp kvs ops = Some i ->
  ∃ it', iter_run ops it = Some it' ∧ i_view it' = kvs !! i ∧ i_status it' = Status_OK ∧ at_ it' i.
Proof.
  unfold cursor_run, iter_run. generalize (length kvs) at 1 2. intros j. revert it j.
  induction ops as [|op ops IH]; intros it j Ha Ht; cbn [foldl].
  - intros [= <-]. exists it. split_and!; [done|by apply cur_view|by apply (cur_status it j)|done].
  - apply Forall_cons_1 in Ht as [Ht Hts]. cbn [mbind option_bind].
    destruct (cursor_step cmp kvs op j) as [j1|] eqn:E1; [|by rewrite (foldl_bind_None (cursor_step cmp kvs))].
    assert (∃ it1, iter_op op it = Some it1 ∧ at_ it1 j1) as (it1 & -> & Ha1); [|by apply IH].
    destruct op as [| | | |target]; cbn [cursor_step iter_op target_ok] in *; simplify_eq/=.
    + by apply (cur_first it j).
    + by apply (cur_last it j).
    + destruct (Nat.ltb_spec j (length kvs)); simplify_eq/=. by apply (cur_next it j).
    + destruct (Nat.ltb_spec j (length kvs)); simplify_eq/=. by apply (cur_prev it j).
    + by apply (cur_seek it j).
Qed.

(** *** Searching *)

Section Search.

Context (cmp : Comparator) (okp : Slice -> Prop) `{!TotalCmp (Compare cmp) okp} (target : Slice).

Lemma seek_index_eq l i :
  (i <= length l)%nat -> (∀ j kv, (j < i)%nat -> l !! j = Some kv -> Compare cmp kv.1 target < 0) ->
  (∀ kv, l !! i = Some kv -> 0 <= Compare cmp kv.1 target) -> seek_index cmp target l = i.
Proof.
  revert i; induction l as [|kv l IH]; intros [|i] Hi Hlt Hge; simpl in *; try lia.
  - specialize (Hge kv eq_refl). destruct (Z.ltb_spec (Compare cmp kv.1 target) 0); [lia|done].
  - pose proof (Hlt 0%nat kv ltac:(lia) eq_refl). destruct (Z.ltb_spec (Compare cmp kv.1 target) 0); [|lia].
    f_equal. apply IH; [lia| |done]. intros j kv' Hj Hk. apply (Hlt (S j)); [lia|done].
Qed.

Lemma seek_index_spec l :
  (seek_index cmp target l <= length l)%nat ∧
  (∀ j kv, (j < seek_index cmp target l)%nat -> l !! j = Some kv -> Compare cmp kv.1 target < 0) ∧
  (∀ kv, l !! seek_index cmp target l = Some kv -> 0 <= Compare cmp kv.1 target).
Proof.
  induction l as [|kv l (IH1 & IH2 & IH3)]; cbn [seek_index length]; [split_and!; [lia|intros; lia|done]|].
  destruct (Z.ltb_spec (Compare cmp kv.1 target) 0) as [Hlt|Hge]; split_and!; try lia; try done.
  - intros [|j] kv' Hj Hk; simpl in Hk; [by simplify_eq|]. apply (IH2 j); [lia|done].
  - intros kv' Hk. simpl in Hk. by simplify_eq.
Qed.

Lemma seek_index_app l1 l2 :
  (∀ kv, kv ∈ l1 -> Compare cmp kv.1 target < 0) ->
  seek_index cmp target (l1 ++ l2) = (length l1 + seek_index cmp target l2)%nat.
Proof.
  induction l1 as [|kv l1 IH]; intros Hlt; [done|]. simpl. pose proof (Hlt kv ltac:(by left)).
  destruct (Z.ltb_spec (Compare cmp kv.1 target) 0); [|lia]. f_equal. apply IH. intros kv' Hk. apply Hlt. by right.
Qed.

Lemma seek_index_app_ge l1 l2 :
  (∀ kv, l2 !! 0%nat = Some kv -> 0 <= Compare cmp kv.1 target) ->
  seek_index cmp target (l1 ++ l2) = seek_index cmp target l1.
Proof.
  intros Hge. induction l1 as [|kv l1 IH]; simpl.
  - destruct l2 as [|kv l2]; [done|]. simpl. specialize (Hge kv eq_refl). destruct (Z.ltb_spec (Compare cmp kv.1 target) 0); [lia|done].
  - by rewrite IH.
Qed.

End Search.

(** Keys in increasing order. *)
Definition keys_sorted (cmp : Comparator) (kvs : list (Slice * Slice)) : Prop :=
  ∀ i j a b, (i < j)%nat -> kvs !! i = Some a -> kvs !! j = Some b -> Compare cmp a.1 b.1 < 0.

Lemma lookup_strongly_sorted {A} (Q : A -> A -> Prop) l :
  (∀ i j a b, (i < j)%nat -> l !! i = Some a -> l !! j = Some b -> Q a b) -> StronglySorted Q l.
Proof.
  induction l as [|x l IH]; intros Hl; constructor.
  - apply IH. intros i j a b Hij Ha Hb. apply (Hl (S i) (S j)); [lia|done|done].
  - apply Forall_lookup. intros i y Hy. apply (Hl O (S i)); [lia|done|done].
Qed.

(** The order, evaluated. *)
Fixpoint keys_sortedb (cmp : Comparator) (kvs : list (Slice * Slice)) : bool :=
  match kvs with
  | [] => true
  | a :: kvs => forallb (fun b => Compare cmp a.1 b.1 <? 0) kvs && keys_sortedb cmp kvs
  end.

Lemma keys_sorted_check cmp kvs : keys_sortedb cmp kvs = true -> keys_sorted cmp kvs.
Proof.
  induction kvs as [|x kvs IH]; intros H i j a b Hij Ha Hb; [done|]. simpl in H. bool_to_prop. destruct i as [|i], j as [|j]; try lia.
  - simpl in *. simplify_eq. apply Z.ltb_lt. rewrite forallb_forall in H. apply H. apply list_elem_of_In. by eapply list_elem_of_lookup_2.
  - apply (IH ltac:(done) i j); [lia|done|done].
Qed.

(** A sorted list is determined by its entries. *)
Lemma keys_sorted_unique cmp okp `{!TotalCmp (Compare cmp) okp} (l1 l2 : list (Slice * Slice)) :
  Forall (fun kv => okp kv.1) l1 -> keys_sorted cmp l1 -> keys_sorted cmp l2 -> l1 ≡ₚ l2 -> l1 = l2.
Proof.
  intros Hok H1 H2 Hp. apply (StronglySorted_unique_strong (fun a b => Compare cmp a.1 b.1 < 0));
    [|by apply lookup_strongly_sorted..|done].
  intros a b Ha Hb Hab Hba. rewrite <- Hp in Hb. rewrite Forall_forall in Hok. apply list_elem_of_In in Ha, Hb.
  apply (cmp_flip (Compare cmp) okp _ _ (Hok a Ha) (Hok b Hb)) in Hab. lia.
Qed.

(** *** The contract can be met

    A position in a list. *)

Record ListIterator := MkListIter { list_entries : list (Slice * Slice); list_pos : nat }.

Definition list_iterator (cmp : Comparator) : Iterator ListIterator := {|
  i_Valid it := (list_pos it <? length (list_entries it))%nat;
  i_key it := (nth (list_pos it) (list_entries it) ([], [])).1;
  i_value it := (nth (list_pos it) (list_entries it) ([], [])).2;
  i_status _ := Status_OK;
  i_SeekToFirst it := Some (MkListIter (list_entries it) 0);
  i_SeekToLast it := Some (MkListIter (list_entries it) (length (list_entries it) - 1));
  i_Seek target it := Some (MkListIter (list_entries it) (seek_index cmp target (list_entries it)));
  i_Next it := Some (MkListIter (list_entries it) (S (list_pos it)));
  i_Prev it := Some (MkListIter (list_entries it) (match list_pos it with O => length (list_entries it) | S j => j end));
|}.

Definition list_at (kvs : list (Slice * Slice)) (it : ListIterator) (i : nat) : Prop :=
  it = MkListIter kvs i ∧ (i <= length kvs)%nat.

Lemma list_cursor cmp okp kvs : @Cursor _ (list_iterator cmp) cmp okp kvs (list_at kvs).
Proof.
  split; unfold list_at, i_view; simpl.
  - intros it i [-> Hi]. simpl. destruct (Nat.ltb_spec i (length kvs)) as [Hl|Hl]; [|by rewrite lookup_ge_None_2].
    destruct (lookup_lt_is_Some_2 kvs i Hl) as [kv Hkv]. rewrite Hkv. erewrite nth_lookup_Some by done. by destruct kv.
  - by intros it i [_ ?].
  - done.
  - intros it i [-> _]. eexists. split_and!; [done..|lia].
  - intros it i [-> _]. eexists. split_and!; [done..|lia].
  - intros it i target [-> _] _. eexists. split_and!; [done..|]. by apply seek_index_spec.
  - intros it i [-> _] Hl. eexists. split_and!; [done..|lia].
  - intros it i [-> _] Hl. eexists. split_and!; [done..|]. simpl. destruct i; lia.
Qed.
