(* ===== verification/LdbBlock.v ===== *)
(** * leveldb: blocks (block_builder.h, block_builder.cc, block.h, block.cc)

    A block is a sequence of prefix-compressed entries followed by the array
    of restart points.  The iterator's methods return [None] where the C++
    code would read outside the block, or when a loop runs out of rounds
    (which does not happen). *)

From S2P Require Import Prelude.
From S2P Require Import LdbSlice.
From S2P Require Import LdbCoding.
From S2P Require Import LdbFormat.
From S2P Require Import LdbIterator.

(** ** [BlockBuilder] *)

Record BlockBuilder := MkBlockBuilder {
  block_restart_interval : Z;
  bb_buffer_ : Slice;
  bb_restarts_ : list Z;
  counter_ : Z;
  finished_ : bool;
  last_key_ : Slice;
}.

Definition BlockBuilder_new (interval : Z) : BlockBuilder := MkBlockBuilder interval [] [0] 0 false [].

Definition BlockBuilder_Reset (b : BlockBuilder) : BlockBuilder :=
  MkBlockBuilder (block_restart_interval b) [] [0] 0 false [].

Definition CurrentSizeEstimate (b : BlockBuilder) : Z :=
  size (bb_buffer_ b) + Z.of_nat (length (bb_restarts_ b)) * 4 + 4.

Definition BlockBuilder_Finish (b : BlockBuilder) : Slice * BlockBuilder :=
  let buffer := foldl PutFixed32 (bb_buffer_ b) (bb_restarts_ b) in
  let buffer := PutFixed32 buffer (u32 (Z.of_nat (length (bb_restarts_ b)))) in
  (buffer, MkBlockBuilder (block_restart_interval b) buffer (bb_restarts_ b) (counter_ b) true (last_key_ b)).

Definition BlockBuilder_empty (b : BlockBuilder) : bool := bool_decide (bb_buffer_ b = []).

Definition BlockBuilder_Add (key value : Slice) (b : BlockBuilder) : BlockBuilder :=
  let last_key_piece := last_key_ b in
  let '(shared, restarts, counter) :=
    if counter_ b <? block_restart_interval b
    then (common_prefix last_key_piece key, bb_restarts_ b, counter_ b)
    else (O, bb_restarts_ b ++ [u32 (size (bb_buffer_ b))], 0) in
  let non_shared := (length key - shared)%nat in
  let buffer := PutVarint32 (bb_buffer_ b) (u32 (Z.of_nat shared)) in
  let buffer := PutVarint32 buffer (u32 (Z.of_nat non_shared)) in
  let buffer := PutVarint32 buffer (u32 (size value)) in
  let buffer := buffer ++ drop shared key in
  let buffer := buffer ++ value in
  let last_key := take shared (last_key_ b) ++ drop shared key in
  MkBlockBuilder (block_restart_interval b) buffer restarts (counter + 1) (finished_ b) last_key.

(** ** [Block] *)

(** [size_] is zero as an error marker. *)
Record Block := MkBlock { block_data_ : Slice; block_size_ : Z; restart_offset_ : Z }.

Definition NumRestarts (data : Slice) (sz : Z) : Z := DecodeFixed32 (drop (Z.to_nat (sz - 4)) data).

Definition Block_new (contents : Slice) : Block :=
  let sz := size contents in
  if sz <? 4 then MkBlock contents 0 0
  else
    let max_restarts_allowed := (sz - 4) / 4 in
    if max_restarts_allowed <? NumRestarts contents sz then MkBlock contents 0 0
    else MkBlock contents sz (u32 (sz - u32 (1 + NumRestarts contents sz) * 4)).

(** The bytes from [p] to [limit]; the three lengths and what follows them. *)
Definition DecodeEntry (p : Slice) : option (Z * Z * Z * Slice) :=
  if size p <? 3 then None
  else
    r ← (if Z.lor (Z.lor (byte_of p 0) (byte_of p 1)) (byte_of p 2) <? 128
         then Some (byte_of p 0, byte_of p 1, byte_of p 2, drop 3 p)
         else '(shared, p) ← GetVarint32Ptr p;
              '(non_shared, p) ← GetVarint32Ptr p;
              '(value_length, p) ← GetVarint32Ptr p;
              Some (shared, non_shared, value_length, p));
    let '(shared, non_shared, value_length, p) := r in
    if u32 (size p) <? u32 (non_shared + value_length) then None
    else Some (shared, non_shared, value_length, p).

(** ** [Block::Iter] *)

(** [value_] is a place in [data_]: its offset and length. *)
Record Iter := MkIter {
  comparator_ : Comparator;
  it_data_ : Slice;
  it_restarts_ : Z;
  num_restarts_ : Z;
  current_ : Z;
  restart_index_ : Z;
  it_key_ : Slice;
  value_at : Z;
  value_len : Z;
  it_status_ : Status;
}.

Definition Iter_new (comparator : Comparator) (data : Slice) (restarts num_restarts : Z) : Iter :=
  MkIter comparator data restarts num_restarts restarts num_restarts [] 0 0 Status_OK.

Definition it_Valid (it : Iter) : bool := current_ it <? it_restarts_ it.
Definition it_status (it : Iter) : Status := it_status_ it.
Definition it_key (it : Iter) : Slice := it_key_ it.
Definition it_value (it : Iter) : Slice := take (Z.to_nat (value_len it)) (drop (Z.to_nat (value_at it)) (it_data_ it)).

Definition NextEntryOffset (it : Iter) : Z := u32 (value_at it + value_len it).

Definition GetRestartPoint (it : Iter) (index : Z) : Z :=
  DecodeFixed32 (drop (Z.to_nat (it_restarts_ it + index * 4)) (it_data_ it)).

(** Assignments to the iterator's members. *)
Definition it_set (it : Iter) (current restart_index : Z) (key : Slice) (at_ len : Z) (st : Status) : Iter :=
  MkIter (comparator_ it) (it_data_ it) (it_restarts_ it) (num_restarts_ it) current restart_index key at_ len st.

Definition SeekToRestartPoint (index : Z) (it : Iter) : Iter :=
  it_set it (current_ it) index [] (GetRestartPoint it index) 0 (it_status_ it).

Definition CorruptionError (it : Iter) : Iter :=
  it_set it (it_restarts_ it) (num_restarts_ it) [] 0 0 (Status_Corruption "bad entry in block" []).

(** The loop at the end of [ParseNextKey]. *)
Fixpoint advance_restart (n : nat) (it : Iter) (index : Z) : Z :=
  match n with
  | O => index
  | S n => if (index + 1 <? num_restarts_ it) && (GetRestartPoint it (index + 1) <? current_ it)
           then advance_restart n it (index + 1) else index
  end.

Definition ParseNextKey (it : Iter) : option (bool * Iter) :=
  let it := it_set it (NextEntryOffset it) (restart_index_ it) (it_key_ it) (value_at it) (value_len it) (it_status_ it) in
  if it_restarts_ it <=? current_ it then
    Some (false, it_set it (it_restarts_ it) (num_restarts_ it) (it_key_ it) (value_at it) (value_len it) (it_status_ it))
  else
    let region := drop (Z.to_nat (current_ it)) (take (Z.to_nat (it_restarts_ it)) (it_data_ it)) in
    match DecodeEntry region with
    | None => Some (false, CorruptionError it)
    | Some (shared, non_shared, value_length, p) =>
        if size (it_key_ it) <? shared then Some (false, CorruptionError it)
        else if size p <? non_shared + value_length then None
        else
          let key := take (Z.to_nat shared) (it_key_ it) ++ take (Z.to_nat non_shared) p in
          let at_ := it_restarts_ it - size p + non_shared in
          let index := advance_restart (Z.to_nat (num_restarts_ it)) it (restart_index_ it) in
          Some (true, it_set it (current_ it) index key at_ value_length (it_status_ it))
    end.

Definition it_Next (it : Iter) : option Iter := snd <$> ParseNextKey it.

(** The first loop of [Prev]: the restart index before [original], or none. *)
Fixpoint before_restart (n : nat) (it : Iter) (original index : Z) : option Z :=
  match n with
  | O => None
  | S n => if original <=? GetRestartPoint it index
           then if index =? 0 then None else before_restart n it original (index - 1)
           else Some index
  end.

(** [do ... while (ParseNextKey() && NextEntryOffset() < bound)]. *)
Fixpoint skip_until (n : nat) (bound : Z) (it : Iter) : option Iter :=
  match n with
  | O => None
  | S n =>
      '(found, it) ← ParseNextKey it;
      if found && (NextEntryOffset it <? bound) then skip_until n bound it else Some it
  end.

(** Every round moves past an entry of at least three bytes. *)
Definition scan_fuel (it : Iter) : nat := S (length (it_data_ it)).

Definition it_Prev (it : Iter) : option Iter :=
  let original := current_ it in
  match before_restart (S (Z.to_nat (restart_index_ it))) it original (restart_index_ it) with
  | None => Some (it_set it (it_restarts_ it) (num_restarts_ it) (it_key_ it) (value_at it) (value_len it) (it_status_ it))
  | Some index => skip_until (scan_fuel it) original (SeekToRestartPoint index it)
  end.

(** The binary search: the restart index, or an error. *)
Fixpoint restart_search (n : nat) (it : Iter) (target : Slice) (left right : Z) : option (option Z) :=
  match n with
  | O => None
  | S n =>
      if left <? right then
        let mid := u32 (left + right + 1) / 2 in
        let region_offset := GetRestartPoint it mid in
        match DecodeEntry (drop (Z.to_nat region_offset) (take (Z.to_nat (it_restarts_ it)) (it_data_ it))) with
        | Some (shared, non_shared, value_length, key_ptr) =>
            if negb (shared =? 0) then Some None
            else if size key_ptr <? non_shared then None
            else
              let mid_key := take (Z.to_nat non_shared) key_ptr in
              if Compare (comparator_ it) mid_key target <? 0
              then restart_search n it target mid right
              else restart_search n it target left (mid - 1)
        | None => Some None
        end
      else Some (Some left)
  end.

(** The linear search. *)
Fixpoint linear_search (n : nat) (target : Slice) (it : Iter) : option Iter :=
  match n with
  | O => None
  | S n =>
      '(found, it) ← ParseNextKey it;
      if negb found then Some it
      else if 0 <=? Compare (comparator_ it) (it_key_ it) target then Some it
      else linear_search n target it
  end.

Definition it_Seek (target : Slice) (it : Iter) : option Iter :=
  r ← restart_search (S (Z.to_nat (num_restarts_ it))) it target 0 (u32 (num_restarts_ it - 1));
  match r with
  | None => Some (CorruptionError it)
  | Some index => linear_search (scan_fuel it) target (SeekToRestartPoint index it)
  end.

Definition it_SeekToFirst (it : Iter) : option Iter := snd <$> ParseNextKey (SeekToRestartPoint 0 it).

Definition it_SeekToLast (it : Iter) : option Iter :=
  skip_until (scan_fuel it) (it_restarts_ it) (SeekToRestartPoint (u32 (num_restarts_ it - 1)) it).

(** [NewIterator]: an error iterator, an empty one, or an [Iter]. *)
Inductive BlockIterator := NoIter (e : EmptyIterator) | BlockIter (it : Iter).

#[export] Instance block_iterator : Iterator BlockIterator :=
  let move (f : Iter -> option Iter) (g : EmptyIterator -> option EmptyIterator) (b : BlockIterator) :=
    match b with NoIter e => NoIter <$> g e | BlockIter it => BlockIter <$> f it end in
  let look {A} (f : Iter -> A) (g : EmptyIterator -> A) (b : BlockIterator) :=
    match b with NoIter e => g e | BlockIter it => f it end in {|
  i_Valid := look it_Valid i_Valid;
  i_key := look it_key i_key;
  i_value := look it_value i_value;
  i_status := look it_status i_status;
  i_SeekToFirst := move it_SeekToFirst i_SeekToFirst;
  i_SeekToLast := move it_SeekToLast i_SeekToLast;
  i_Seek target := move (it_Seek target) (i_Seek target);
  i_Next := move it_Next i_Next;
  i_Prev := move it_Prev i_Prev;
|}.

Definition NewIterator (comparator : Comparator) (b : Block) : BlockIterator :=
  if block_size_ b <? 4 then NoIter (MkEmpty (Status_Corruption "bad block contents" []))
  else
    let num_restarts := NumRestarts (block_data_ b) (block_size_ b) in
    if num_restarts =? 0 then NoIter (MkEmpty Status_OK)
    else BlockIter (Iter_new comparator (block_data_ b) (restart_offset_ b) num_restarts).
