(* ===== verification/LdbBlockThms.v ===== *)
(** * leveldb: a block is the sorted list of its entries

    [layout]: the entries of a finished block, where each starts and which
    are restart points.  The iterator's positions are indices into the list;
    every method ends at the position the order of the keys says. *)

From S2P Require Import Prelude.
From S2P Require Import LdbSlice.
From S2P Require Import LdbCoding.
From S2P Require Import LdbFormat.
From S2P Require Import LdbIterator.
From S2P Require Import LdbBlock.

(** ** One entry *)

Definition entry_enc (shared : nat) (k v : Slice) : Slice :=
  EncodeVarint32 (Z.of_nat shared) ++ EncodeVarint32 (Z.of_nat (length k - shared)) ++
  EncodeVarint32 (size v) ++ drop shared k ++ v.

Lemma lor_lt_128 a b : 0 <= a -> 0 <= b -> Z.lor a b < 128 <-> a < 128 ∧ b < 128.
Proof.
  assert (∀ x, 0 <= x -> x < 128 <-> x = 0 ∨ Z.log2 x < 7) as Hlog.
  { intros x Hx. destruct (decide (x = 0)) as [->|]; [lia|].
    rewrite (Z.log2_lt_pow2 x 7) by lia. change (2 ^ 7) with 128. lia. }
  intros Ha Hb. rewrite !Hlog by first [done|by apply Z.lor_nonneg]. rewrite Z.log2_lor, Z.lor_eq_0_iff by done.
  split; [|intros [[->| ?] [->| ?]]; simpl; lia].
  intros [[-> ->]|H]; lia.
Qed.

Lemma EncodeVarint32_head v rest :
  is_u32 v -> byte_of (EncodeVarint32 v ++ rest) 0 < 128 -> v < 128 ∧ EncodeVarint32 v = [v].
Proof.
  unfold is_u32. intros Hv. unfold EncodeVarint32. change (Z.shiftl 1 7) with 128.
  destruct (Z.ltb_spec v 128); [intros _; rewrite u8_small by lia; done|].
  pose proof (Z.mod_pos_bound v 128 ltac:(lia)).
  repeat case_if; unfold byte_of; cbn [app nth]; rewrite lor_128_u8 by lia; lia.
Qed.

Lemma EncodeVarint32_pos v : (1 <= length (EncodeVarint32 v))%nat.
Proof. unfold EncodeVarint32. repeat case_if; simpl; lia. Qed.

Lemma GetVarint32Ptr_put v rest :
  is_u32 v -> Forall is_u8 rest -> GetVarint32Ptr (EncodeVarint32 v ++ rest) = Some (v, rest).
Proof. apply GetVarint32_put. Qed.

Lemma EncodeVarint32_all_u8 v : Forall is_u8 (EncodeVarint32 v).
Proof.
  assert (∀ x, is_u8 (u8 x)) as Hu by (intros; apply Z.mod_pos_bound; lia).
  unfold EncodeVarint32. repeat case_if; repeat first [apply Forall_nil_2|apply Forall_cons_2; [apply Hu|]].
Qed.

Lemma entry_u8 sh k v : Forall is_u8 k -> Forall is_u8 v -> Forall is_u8 (entry_enc sh k v).
Proof.
  intros Hk Hv. unfold entry_enc. repeat (apply Forall_app; split); try apply EncodeVarint32_all_u8; [by apply Forall_drop|done].
Qed.

(** Both the one-byte and the general case decode the three lengths. *)
Lemma DecodeEntry_varints s n vl p :
  is_u32 s -> is_u32 n -> is_u32 vl -> Forall is_u8 p ->
  DecodeEntry (EncodeVarint32 s ++ EncodeVarint32 n ++ EncodeVarint32 vl ++ p)
  = if u32 (size p) <? u32 (n + vl) then None else Some (s, n, vl, p).
Proof.
  intros Us Un Uv Up. unfold DecodeEntry. set (q := EncodeVarint32 s ++ _).
  assert (3 <= size q) as Hq.
  { unfold q, size. rewrite !length_app. pose proof (EncodeVarint32_pos s). pose proof (EncodeVarint32_pos n).
    pose proof (EncodeVarint32_pos vl). lia. }
  destruct (Z.ltb_spec (size q) 3) as [|_]; [lia|].
  assert (Forall is_u8 q) as Uq by (unfold q; repeat (apply Forall_app; split); try done; by apply EncodeVarint32_u8).
  assert (∀ i, 0 <= byte_of q i) as Hb.
  { intros i. unfold byte_of. destruct (nth_in_or_default i q 0) as [Hin| ->]; [|lia].
    rewrite Forall_forall in Uq. apply Uq in Hin. unfold is_u8 in Hin. lia. }
  destruct (Z.ltb_spec (Z.lor (Z.lor (byte_of q 0) (byte_of q 1)) (byte_of q 2)) 128) as [Hlt|_].
  - apply lor_lt_128 in Hlt as [Hlt B2]; [|apply Z.lor_nonneg; split; apply Hb|apply Hb].
    apply lor_lt_128 in Hlt as [B0 B1]; [|apply Hb|apply Hb]. unfold q in *.
    apply EncodeVarint32_head in B0 as [_ E0]; [|done]. rewrite E0 in *.
    change (byte_of (EncodeVarint32 n ++ EncodeVarint32 vl ++ p) 0 < 128) in B1.
    apply EncodeVarint32_head in B1 as [_ E1]; [|done]. rewrite E1 in *.
    change (byte_of (EncodeVarint32 vl ++ p) 0 < 128) in B2. apply EncodeVarint32_head in B2 as [_ E2]; [|done].
    by rewrite E2.
  - unfold q. rewrite GetVarint32Ptr_put; [|done|repeat (apply Forall_app; split); try done; by apply EncodeVarint32_u8].
    cbn [mbind option_bind]. rewrite GetVarint32Ptr_put; [|done|apply Forall_app; split; [by apply EncodeVarint32_u8|done]].
    cbn [mbind option_bind]. by rewrite GetVarint32Ptr_put.
Qed.

Lemma DecodeEntry_enc shared k v rest :
  Forall is_u8 k -> Forall is_u8 v -> Forall is_u8 rest -> (shared <= length k)%nat -> size k < 2 ^ 32 ->
  Z.of_nat (length k - shared) + size v + size rest < 2 ^ 32 ->
  DecodeEntry (entry_enc shared k v ++ rest)
  = Some (Z.of_nat shared, Z.of_nat (length k - shared), size v, drop shared k ++ v ++ rest).
Proof.
  intros Hk Hv Hr Hsh Hsk Hsz. pose proof (size_nonneg v). pose proof (size_nonneg rest).
  assert (size (drop shared k ++ v ++ rest) = Z.of_nat (length k - shared) + size v + size rest) as Hp.
  { rewrite !size_app. unfold size. rewrite length_drop. lia. }
  unfold entry_enc. rewrite <- !app_assoc, DecodeEntry_varints; [|unfold is_u32, size in *; lia..|].
  - rewrite Hp, !u32_small by (unfold size in *; lia).
    destruct (Z.ltb_spec (Z.of_nat (length k - shared) + size v + size rest) (Z.of_nat (length k - shared) + size v)); [lia|done].
  - repeat (apply Forall_app; split); try done. by apply Forall_drop.
Qed.

(** ** The layout of a finished block *)

Definition encs (shs : list nat) (kvs : list (Slice * Slice)) : list Slice :=
  zip_with (fun sh kv => entry_enc sh kv.1 kv.2) shs kvs.

(** Where entry [i] starts. *)
Definition off (shs : list nat) (kvs : list (Slice * Slice)) (i : nat) : nat := length (concat (take i (encs shs kvs))).

Definition prev_key (kvs : list (Slice * Slice)) (i : nat) : Slice :=
  match i with O => [] | S j => default [] (fst <$> kvs !! j) end.

(** [shared] bytes are taken from the key before. *)
Definition shares (kvs : list (Slice * Slice)) (i sh : nat) (k : Slice) : Prop :=
  (sh <= length k)%nat ∧ (sh <= length (prev_key kvs i))%nat ∧ take sh (prev_key kvs i) = take sh k.

(** A restart point shares nothing with the entry before it. *)
Definition restart_ok (shs : list nat) (kvs : list (Slice * Slice)) (r : nat) : Prop :=
  shs !! r = Some O ∨ (r = O ∧ kvs = []).

Record block_layout (data : Slice) (kvs : list (Slice * Slice)) (shs rs : list nat) : Prop := {
  bl_data : data = concat (encs shs kvs) ++
    concat (EncodeFixed32 <$> ((fun r => Z.of_nat (off shs kvs r)) <$> rs)) ++ EncodeFixed32 (Z.of_nat (length rs));
  bl_size : size data < 2 ^ 32;
  bl_bytes : Forall (fun kv => Forall is_u8 kv.1 ∧ Forall is_u8 kv.2 ∧ size kv.1 < 2 ^ 32) kvs;
  bl_len : length shs = length kvs;
  bl_shared i sh kv : shs !! i = Some sh -> kvs !! i = Some kv -> shares kvs i sh kv.1;
  bl_first : rs !! O = Some O;
  bl_restarts j r : rs !! j = Some r -> restart_ok shs kvs r;
  bl_empty : kvs = [] -> length rs = 1%nat;
}.

Section Layout.

Context (cmp : Comparator) (data : Slice) (kvs : list (Slice * Slice)) (shs rs : list nat) (Hl : block_layout data kvs shs rs).

Local Abbreviation n := (length kvs).
Local Abbreviation R := (length (concat (encs shs kvs))).
Local Abbreviation offset := (off shs kvs).

Lemma encs_lookup i kv : kvs !! i = Some kv -> ∃ sh, shs !! i = Some sh ∧ encs shs kvs !! i = Some (entry_enc sh kv.1 kv.2).
Proof using Hl.
  intros Hi. destruct (lookup_lt_is_Some_2 shs i) as [sh Hs].
  { rewrite (bl_len _ _ _ _ Hl). by eapply lookup_lt_Some. }
  exists sh. split; [done|]. unfold encs. apply lookup_zip_with_Some. eauto.
Qed.

Lemma offset_S i e : encs shs kvs !! i = Some e -> offset (S i) = (offset i + length e)%nat.
Proof. intros He. unfold off. erewrite take_S_r by done. rewrite concat_app, length_app. simpl. by rewrite app_nil_r. Qed.

Lemma length_encs : length (encs shs kvs) = n.
Proof using Hl. unfold encs. rewrite length_zip_with, (bl_len _ _ _ _ Hl). lia. Qed.

Lemma offset_n i : (n <= i)%nat -> offset i = R.
Proof using Hl. intros Hi. unfold off. rewrite take_ge; [done|]. by rewrite length_encs. Qed.

Lemma entry_pos sh k v : (3 <= length (entry_enc sh k v))%nat.
Proof.
  unfold entry_enc. rewrite !length_app. pose proof (EncodeVarint32_pos (Z.of_nat sh)).
  pose proof (EncodeVarint32_pos (Z.of_nat (length k - sh))). pose proof (EncodeVarint32_pos (size v)). lia.
Qed.

Lemma offset_mono i j : (i <= j)%nat -> (offset i <= offset j)%nat.
Proof.
  intros Hij. unfold off. replace j with (i + (j - i))%nat by lia. rewrite <- take_take_drop, concat_app, length_app. lia.
Qed.

Lemma offset_lt i j : (i < j)%nat -> (i < n)%nat -> (offset i < offset j)%nat.
Proof using Hl.
  intros Hij Hi. destruct (lookup_lt_is_Some_2 kvs i Hi) as [kv Hkv]. destruct (encs_lookup i kv Hkv) as (sh & _ & He).
  pose proof (offset_S i _ He) as HS. pose proof (entry_pos sh kv.1 kv.2). pose proof (offset_mono (S i) j ltac:(lia)). lia.
Qed.

Lemma offset_le_inv i j : (offset i <= offset j)%nat -> (j < n)%nat -> (i <= j)%nat.
Proof using Hl. intros Ho Hj. destruct (decide (i <= j)%nat) as [|Hn]; [done|]. pose proof (offset_lt j i ltac:(lia) Hj). lia. Qed.

Lemma offset_bound i : (offset i <= R)%nat.
Proof using Hl. rewrite <- (offset_n (Nat.max i n)) by lia. apply offset_mono. lia. Qed.

Lemma R_bound : Z.of_nat R + 4 * Z.of_nat (length rs) + 4 = size data.
Proof using Hl.
  rewrite (bl_data _ _ _ _ Hl). unfold size. rewrite !length_app.
  assert (∀ l : list Z, length (concat (EncodeFixed32 <$> l)) = (4 * length l)%nat) as ->.
  { induction l as [|x l IH]; [done|]. cbn [fmap list_fmap concat]. rewrite length_app. setoid_rewrite IH.
    unfold EncodeFixed32. rewrite length_le_split. simpl. lia. }
  rewrite length_fmap. unfold EncodeFixed32. rewrite length_le_split. lia.
Qed.

Lemma offset_u32 i : is_u32 (Z.of_nat (offset i)).
Proof using Hl. pose proof (offset_bound i). pose proof R_bound. pose proof (bl_size _ _ _ _ Hl). unfold is_u32. lia. Qed.

Lemma data_restarts : take R data = concat (encs shs kvs).
Proof using Hl. rewrite (bl_data _ _ _ _ Hl). apply take_app_length. Qed.

(** The bytes of entry [i] and what follows up to the restart array. *)
Lemma region i e : encs shs kvs !! i = Some e -> drop (offset i) (take R data) = e ++ drop (offset (S i)) (take R data).
Proof using Hl.
  intros He. rewrite data_restarts. unfold off. rewrite <- (take_drop i (encs shs kvs)) at 2.
  rewrite concat_app, drop_app_length. rewrite (drop_S _ e) by done. simpl. f_equal.
  rewrite <- (take_drop (S i) (encs shs kvs)) at 3. by rewrite concat_app, drop_app_length.
Qed.

(** ** The iterator *)

Lemma data_u8 : Forall is_u8 data.
Proof using Hl.
  rewrite (bl_data _ _ _ _ Hl). pose proof (bl_bytes _ _ _ _ Hl) as Hb. repeat (apply Forall_app; split).
  - apply Forall_concat, Forall_lookup. intros i e He. unfold encs in He.
    apply lookup_zip_with_Some in He as (sh & kv & -> & Hs & Hkv).
    destruct (Forall_lookup_1 _ _ _ _ Hb Hkv) as (Hk & Hv & _). by apply entry_u8.
  - apply Forall_concat, Forall_fmap, Forall_true. intros x. apply le_split_bytes.
  - apply le_split_bytes.
Qed.

Definition base (it : Iter) : Prop :=
  it_data_ it = data ∧ it_restarts_ it = Z.of_nat R ∧ num_restarts_ it = Z.of_nat (length rs) ∧
  comparator_ it = cmp.

Lemma get_restart it j r : base it -> rs !! j = Some r -> GetRestartPoint it (Z.of_nat j) = Z.of_nat (offset r).
Proof using Hl.
  intros (Hd & Hr & _) Hj. unfold GetRestartPoint. rewrite Hd, Hr, (bl_data _ _ _ _ Hl).
  replace (Z.to_nat (Z.of_nat R + Z.of_nat j * 4)) with (R + 4 * j)%nat by lia.
  rewrite <- drop_drop, drop_app_length. apply Decode_offsets.
  - apply Forall_fmap, Forall_true. intros x. apply offset_u32.
  - by rewrite list_lookup_fmap, Hj.
Qed.

Lemma length_take_R : length (take R data) = R.
Proof using Hl. by rewrite data_restarts. Qed.

Lemma decode_at i sh k v :
  shs !! i = Some sh -> kvs !! i = Some (k, v) ->
  DecodeEntry (drop (offset i) (take R data))
  = Some (Z.of_nat sh, Z.of_nat (length k - sh), size v, drop sh k ++ v ++ drop (offset (S i)) (take R data)) ∧
  (offset i + length (entry_enc sh k v))%nat = offset (S i) ∧ (offset (S i) <= R)%nat.
Proof using Hl.
  intros Hs Hk. destruct (encs_lookup i (k, v) Hk) as (sh' & Hs' & He). assert (sh' = sh) as -> by congruence. simpl in He.
  pose proof (offset_S i _ He) as HS. pose proof (offset_bound (S i)) as Hb. split; [|lia].
  rewrite (region i _ He). destruct (Forall_lookup_1 _ _ _ _ (bl_bytes _ _ _ _ Hl) Hk) as (Uk & Uv & Sk).
  destruct (bl_shared _ _ _ _ Hl i sh (k, v) Hs Hk) as (Hsh & _). simpl in *.
  apply DecodeEntry_enc; try done.
  - apply Forall_drop, Forall_take, data_u8.
  - unfold size at 2. rewrite length_drop, length_take_R. pose proof R_bound. pose proof (bl_size _ _ _ _ Hl).
    assert (length k - sh + length v <= length (entry_enc sh k v))%nat.
    { unfold entry_enc. rewrite !length_app, length_drop. lia. }
    unfold size at 1. lia.
Qed.

(** Where the iterator stands: on entry [i]; just before it; past the end. *)
Definition restart_le (it : Iter) (i : nat) : Prop :=
  ∃ j r, restart_index_ it = Z.of_nat j ∧ rs !! j = Some r ∧ (r <= i)%nat.

Record at_entry (it : Iter) (i : nat) (k v : Slice) : Prop := {
  ae_base : base it;
  ae_kv : kvs !! i = Some (k, v);
  ae_current : current_ it = Z.of_nat (offset i);
  ae_key : it_key_ it = k;
  ae_value : value_at it + size v = Z.of_nat (offset (S i)) ∧ value_len it = size v ∧ it_value it = v;
  ae_restart : restart_le it i;
}.

Record before (it : Iter) (i : nat) : Prop := {
  be_base : base it;
  be_next : NextEntryOffset it = Z.of_nat (offset i);
  be_le : (i <= n)%nat;
  be_key sh k v : shs !! i = Some sh -> kvs !! i = Some (k, v) ->
    (sh <= length (it_key_ it))%nat ∧ take sh (it_key_ it) = take sh k;
  be_restart : restart_le it i;
}.

Definition at_end (it : Iter) : Prop := base it ∧ current_ it = Z.of_nat R.

Lemma at_entry_before it i k v : at_entry it i k v -> before it (S i).
Proof using Hl.
  intros [Hb Hk Hc Hkey (Hv1 & Hv2 & _) (j & r & Hj & Hr & Hle)]. split; [done| | | |exists j, r; split_and!; [done|done|lia]].
  - unfold NextEntryOffset. rewrite Hv2, Hv1. apply u32_small. apply offset_u32.
  - apply lookup_lt_Some in Hk. lia.
  - intros sh k' v' Hs Hk'. destruct (bl_shared _ _ _ _ Hl (S i) sh (k', v') Hs Hk') as (_ & H1 & H2).
    cbn [prev_key] in H1, H2. rewrite Hk in H1, H2. simpl in H1, H2. by rewrite Hkey.
Qed.

Lemma seek_restart it j r : base it -> rs !! j = Some r -> before (SeekToRestartPoint (Z.of_nat j) it) r.
Proof using Hl.
  intros Hb Hj. pose proof (get_restart it j r Hb Hj) as Hg. unfold SeekToRestartPoint. rewrite Hg.
  pose proof (bl_restarts _ _ _ _ Hl j r Hj) as Hok. split.
  - done.
  - unfold NextEntryOffset. simpl. rewrite Z.add_0_r. apply u32_small, offset_u32.
  - destruct Hok as [Hs|[-> _]]; [|lia]. apply lookup_lt_Some in Hs. rewrite (bl_len _ _ _ _ Hl) in Hs. lia.
  - intros sh k v Hs Hk. destruct Hok as [Hs'|[-> Hn]]; [|by rewrite Hn in Hk]. assert (sh = 0%nat) as -> by congruence.
    split; [lia|done].
  - exists j, r. done.
Qed.

Lemma advance_restart_le m it j r i :
  base it -> current_ it = Z.of_nat (offset i) -> (i < n)%nat -> rs !! j = Some r -> (r <= i)%nat ->
  ∃ j' r', advance_restart m it (Z.of_nat j) = Z.of_nat j' ∧ rs !! j' = Some r' ∧ (r' <= i)%nat.
Proof using Hl.
  intros Hb Hc Hi. revert j r; induction m as [|m IH]; intros j r Hj Hr; cbn [advance_restart]; [eauto|].
  pose proof Hb as (Hd & HR & HN & _). rewrite HN.
  destruct (Z.ltb_spec (Z.of_nat j + 1) (Z.of_nat (length rs))) as [Hlt|]; cbn [andb]; [|eauto].
  replace (Z.of_nat j + 1) with (Z.of_nat (S j)) by lia. destruct (lookup_lt_is_Some_2 rs (S j)) as [r1 Hr1]; [lia|].
  rewrite (get_restart it (S j) r1) by done. rewrite Hc.
  destruct (Z.ltb_spec (Z.of_nat (offset r1)) (Z.of_nat (offset i))); [|eauto].
  apply (IH (S j) r1 Hr1). apply offset_le_inv; [lia|done].
Qed.

Lemma value_bytes i k v : kvs !! i = Some (k, v) -> take (length v) (drop (offset (S i) - length v) data) = v.
Proof using Hl.
  intros Hk. destruct (encs_lookup i (k, v) Hk) as (sh & _ & He). simpl in He.
  pose proof (offset_S i _ He) as HS. pose proof (region i _ He) as Hreg.
  assert (∃ pre, entry_enc sh k v = pre ++ v) as (pre & E).
  { eexists. unfold entry_enc. rewrite !app_assoc. done. }
  rewrite E, length_app in HS. rewrite E in Hreg.
  assert (data = take R data ++ drop R data) as -> by by rewrite take_drop.
  pose proof (offset_bound (S i)). rewrite drop_app_le by (rewrite length_take_R; lia).
  replace (offset (S i) - length v)%nat with (offset i + length pre)%nat by lia.
  rewrite <- drop_drop, Hreg, <- app_assoc, drop_app_length, <- app_assoc. apply take_app_length.
Qed.

Lemma parse_entry it i k v :
  before it i -> kvs !! i = Some (k, v) ->
  ∃ it', ParseNextKey it = Some (true, it') ∧ at_entry it' i k v ∧ it_status_ it' = it_status_ it.
Proof using Hl.
  intros [Hb Hn Hle Hkey (j & r & Hj & Hr & Hri)] Hk.
  assert (i < n)%nat as Hi by by eapply lookup_lt_Some.
  destruct (lookup_lt_is_Some_2 shs i) as [sh Hs]; [by rewrite (bl_len _ _ _ _ Hl)|].
  destruct (Hkey sh k v Hs Hk) as [Hk1 Hk2]. destruct (decode_at i sh k v Hs Hk) as (Hd & HS & HR).
  destruct (bl_shared _ _ _ _ Hl i sh (k, v) Hs Hk) as (Hsh & _). simpl in Hsh.
  unfold ParseNextKey. rewrite Hn. set (it1 := it_set it _ _ _ _ _ _).
  assert (base it1) as Hb1 by done. pose proof Hb1 as (D1 & R1 & N1 & _). rewrite R1.
  change (current_ it1) with (Z.of_nat (offset i)). pose proof (entry_pos sh k v).
  destruct (Z.leb_spec (Z.of_nat R) (Z.of_nat (offset i))); [lia|]. rewrite D1, !Nat2Z.id, Hd.
  change (it_key_ it1) with (it_key_ it).
  destruct (Z.ltb_spec (size (it_key_ it)) (Z.of_nat sh)) as [Hlt|_]; [unfold size in Hlt; lia|].
  set (p := drop sh k ++ v ++ drop (offset (S i)) (take R data)).
  assert (size p = Z.of_nat (length k - sh) + size v + (Z.of_nat R - Z.of_nat (offset (S i)))) as Hp.
  { unfold p, size. rewrite !length_app, !length_drop, length_take_R. lia. }
  destruct (Z.ltb_spec (size p) (Z.of_nat (length k - sh) + size v)); [lia|].
  rewrite N1, Nat2Z.id. change (restart_index_ it1) with (restart_index_ it). rewrite Hj.
  destruct (advance_restart_le (length rs) it1 j r i Hb1 eq_refl Hi Hr Hri) as (j' & r' & -> & Hr' & Hri').
  eexists. split; [done|]. split; [|done]. split; simpl.
  - done.
  - done.
  - done.
  - rewrite !Nat2Z.id, Hk2. unfold p. rewrite take_app_length' by by rewrite length_drop. apply take_drop.
  - split_and!; [lia|done|]. unfold it_value. simpl. destruct Hb as (-> & _).
    replace (Z.to_nat (Z.of_nat R - size p + Z.of_nat (length k - sh))) with (offset (S i) - length v)%nat
      by (rewrite Hp; unfold size; lia).
    unfold size. rewrite Nat2Z.id. by eapply value_bytes.
  - by exists j', r'.
Qed.

Lemma parse_end it :
  before it n -> ∃ it', ParseNextKey it = Some (false, it') ∧ at_end it' ∧ it_status_ it' = it_status_ it.
Proof using Hl.
  intros [Hb Hn _ _ _]. unfold ParseNextKey. rewrite Hn, (offset_n n) by done. set (it1 := it_set it _ _ _ _ _ _).
  assert (base it1) as Hb1 by done. pose proof Hb1 as (D1 & R1 & N1 & _). rewrite R1.
  change (current_ it1) with (Z.of_nat R). rewrite Z.leb_refl. eexists. split; [done|]. split; [|done]. by split.
Qed.

(** ** Moving *)

(** On entry [i], or past the end. *)
Definition stands (it : Iter) (i : nat) : Prop :=
  match kvs !! i with Some kv => at_entry it i kv.1 kv.2 | None => at_end it end.

Lemma parse_stands it i :
  before it i ->
  ∃ it', ParseNextKey it = Some (bool_decide (i < n)%nat, it') ∧ stands it' i ∧ it_status_ it' = it_status_ it.
Proof using Hl.
  intros Hb. unfold stands. destruct (kvs !! i) as [[k v]|] eqn:Hk.
  - rewrite bool_decide_eq_true_2 by by eapply lookup_lt_Some. by apply parse_entry.
  - apply lookup_ge_None in Hk. rewrite bool_decide_eq_false_2 by lia. apply parse_end.
    replace n with i; [done|]. pose proof (be_le _ _ Hb). lia.
Qed.

Lemma stands_entry it i : (i < n)%nat -> stands it i -> ∃ k v, at_entry it i k v.
Proof. intros Hi. unfold stands. destruct (lookup_lt_is_Some_2 kvs i Hi) as [[k v] ->]. eauto. Qed.

Lemma stands_base it i : stands it i -> base it.
Proof. unfold stands. destruct (kvs !! i); [apply ae_base|by intros [? _]]. Qed.

Lemma stands_before it i : (i < n)%nat -> stands it i -> before it (S i).
Proof using Hl. intros Hi Hs. destruct (stands_entry it i Hi Hs) as (k & v & Ha). by eapply at_entry_before. Qed.

Lemma it_Next_spec it i :
  (i < n)%nat -> stands it i -> ∃ it', it_Next it = Some it' ∧ stands it' (S i) ∧ it_status_ it' = it_status_ it.
Proof using Hl.
  intros Hi Hs. destruct (parse_stands it (S i) (stands_before it i Hi Hs)) as (it' & E & Hs' & Hst).
  exists it'. unfold it_Next. by rewrite E.
Qed.

Lemma n_le_offset i : (i <= n)%nat -> (3 * i <= offset i)%nat.
Proof using Hl.
  induction i as [|i IH]; intros Hi; [lia|]. destruct (lookup_lt_is_Some_2 kvs i ltac:(lia)) as [kv Hkv].
  destruct (encs_lookup i kv Hkv) as (sh & _ & He). rewrite (offset_S i _ He). pose proof (entry_pos sh kv.1 kv.2). lia.
Qed.

Lemma entries_fit : 3 * Z.of_nat n < size data.
Proof using Hl. pose proof (n_le_offset n ltac:(lia)). pose proof (offset_bound n). pose proof R_bound. lia. Qed.

Lemma scan_enough it : base it -> (n < scan_fuel it)%nat.
Proof using Hl.
  intros (Hd & _). pose proof (n_le_offset n ltac:(lia)). pose proof (offset_bound n). pose proof R_bound.
  unfold scan_fuel. rewrite Hd. unfold size in *. lia.
Qed.

(** Scanning forward up to the entry before position [t]. *)
Lemma skip_until_spec m it i t :
  before it i -> (i < t <= n)%nat -> (t - i <= m)%nat ->
  ∃ it', skip_until m (Z.of_nat (offset t)) it = Some it' ∧ stands it' (t - 1) ∧ it_status_ it' = it_status_ it.
Proof using Hl.
  revert it i; induction m as [|m IH]; intros it i Hb Ht Hm; [lia|]. cbn [skip_until].
  destruct (parse_stands it i Hb) as (it1 & -> & Hs1 & Hst1). rewrite bool_decide_eq_true_2 by lia. cbn [mbind option_bind andb].
  pose proof (stands_before it1 i ltac:(lia) Hs1) as Hb1. rewrite (be_next _ _ Hb1).
  destruct (Z.ltb_spec (Z.of_nat (offset (S i))) (Z.of_nat (offset t))) as [Hlt|Hge].
  - destruct (decide (S i = t)) as [<-|]; [lia|].
    destruct (IH it1 (S i) Hb1) as (it' & E & Hs' & Hst'); [lia|lia|]. exists it'. split_and!; [done|done|congruence].
  - assert (S i = t) as <-.
    { destruct (decide (S i < t)%nat) as [Hlt|]; [|lia]. pose proof (offset_lt (S i) t Hlt ltac:(lia)). lia. }
    exists it1. rewrite Nat.sub_1_r. done.
Qed.

Lemma it_SeekToFirst_spec it :
  base it -> ∃ it', it_SeekToFirst it = Some it' ∧ stands it' 0 ∧ it_status_ it' = it_status_ it.
Proof using Hl.
  intros Hb. unfold it_SeekToFirst. change 0 with (Z.of_nat 0).
  destruct (parse_stands _ _ (seek_restart it 0 0 Hb (bl_first _ _ _ _ Hl))) as (it' & -> & Hs & Hst). eauto.
Qed.

Lemma last_restart : u32 (Z.of_nat (length rs) - 1) = Z.of_nat (length rs - 1) ∧ (0 < length rs)%nat ∧ Z.of_nat (length rs) < 2 ^ 30.
Proof using Hl.
  pose proof (bl_first _ _ _ _ Hl) as Hf%lookup_lt_Some. pose proof R_bound. pose proof (bl_size _ _ _ _ Hl).
  rewrite u32_small by lia. lia.
Qed.

Lemma it_SeekToLast_spec it :
  base it -> ∃ it', it_SeekToLast it = Some it' ∧ stands it' (n - 1) ∧ it_status_ it' = it_status_ it.
Proof using Hl.
  intros Hb. pose proof Hb as (_ & HR & HN & _). unfold it_SeekToLast. destruct last_restart as (E & Hpos & _).
  rewrite HN, E, HR. destruct (lookup_lt_is_Some_2 rs (length rs - 1)) as [r Hr]; [lia|].
  pose proof (seek_restart it (length rs - 1) r Hb Hr) as Hbe. pose proof (scan_enough it Hb) as Hf.
  destruct (decide (r < n)%nat) as [Hlt|Hge].
  - rewrite <- (offset_n n) by lia. destruct (skip_until_spec (scan_fuel it) _ r n Hbe) as (it' & E' & Hs' & Hst'); [lia|lia|].
    by exists it'.
  - pose proof (be_le _ _ Hbe). assert (r = n) as -> by lia. unfold scan_fuel. cbn [skip_until].
    destruct (parse_stands _ _ Hbe) as (it' & -> & Hs & Hst). rewrite bool_decide_eq_false_2 by lia. cbn [mbind option_bind andb].
    exists it'. split_and!; [done| |done].
    destruct (bl_restarts _ _ _ _ Hl _ _ Hr) as [Hs0|[Hn0 _]].
    + apply lookup_lt_Some in Hs0. rewrite (bl_len _ _ _ _ Hl) in Hs0. lia.
    + by rewrite Hn0 in *.
Qed.

Lemma before_restart_spec it i m j :
  base it -> (i < n)%nat -> (j < length rs)%nat -> (j < m)%nat ->
  match before_restart m it (Z.of_nat (offset i)) (Z.of_nat j) with
  | None => i = 0%nat
  | Some index => ∃ j' r', index = Z.of_nat j' ∧ rs !! j' = Some r' ∧ (r' < i)%nat
  end.
Proof using Hl.
  intros Hb Hi. revert j; induction m as [|m IH]; intros j Hj Hm; [lia|]. cbn [before_restart].
  destruct (lookup_lt_is_Some_2 rs j Hj) as [r Hr]. rewrite (get_restart it j r Hb Hr).
  destruct (Z.leb_spec (Z.of_nat (offset i)) (Z.of_nat (offset r))) as [Hle|Hgt].
  - destruct (Z.eqb_spec (Z.of_nat j) 0) as [Hz|Hz].
    + assert (j = 0%nat) as -> by lia. assert (r = 0%nat) as -> by (pose proof (bl_first _ _ _ _ Hl); congruence).
      destruct (decide (i = 0%nat)); [done|]. pose proof (offset_lt 0 i ltac:(lia) ltac:(lia)). lia.
    + replace (Z.of_nat j - 1) with (Z.of_nat (j - 1)) by lia. apply IH; lia.
  - exists j, r. split_and!; [done|done|]. destruct (decide (r < i)%nat); [done|].
    pose proof (offset_mono i r ltac:(lia)). lia.
Qed.

(** [Prev] from entry [i]: the entry before it, or past the end from the first. *)
Lemma it_Prev_spec it i :
  (i < n)%nat -> stands it i ->
  ∃ it', it_Prev it = Some it' ∧ it_status_ it' = it_status_ it ∧ stands it' (if decide (i = 0)%nat then n else i - 1).
Proof using Hl.
  intros Hi Hs. destruct (stands_entry it i Hi Hs) as (k & v & [Hb Hk Hc _ _ (j & r & Hj & Hr & Hri)]).
  unfold it_Prev. rewrite Hc, Hj, Nat2Z.id.
  pose proof (before_restart_spec it i (S j) j Hb Hi ltac:(by eapply lookup_lt_Some) ltac:(lia)) as Hspec.
  destruct (before_restart _ it _ _) as [index|].
  - destruct Hspec as (j' & r' & -> & Hr' & Hlt). rewrite decide_False by lia. pose proof (scan_enough it Hb).
    destruct (skip_until_spec (scan_fuel it) _ r' i (seek_restart it j' r' Hb Hr')) as (it' & E & Hs' & Hst); [lia|lia|].
    by exists it'.
  - rewrite decide_True by done. eexists. split; [done|]. split; [done|].
    unfold stands. rewrite (proj2 (lookup_ge_None kvs n)) by done. pose proof Hb as (_ & HR & _). split; [done|]. exact HR.
Qed.

(** ** Seeking *)

Section Ordered.

Context (okp : Slice -> Prop) `{!TotalCmp (Compare cmp) okp} (target : Slice) (Htarget : okp target).

Definition keys_ok : Prop := Forall (fun kv => okp kv.1) kvs.

Definition all_below (i : nat) : Prop := ∀ j kv, (j < i)%nat -> kvs !! j = Some kv -> Compare cmp kv.1 target < 0.

Lemma linear_search_spec m it i :
  before it i -> all_below i -> (n - i < m)%nat ->
  ∃ it', linear_search m target it = Some it' ∧ stands it' (seek_index cmp target kvs) ∧ it_status_ it' = it_status_ it.
Proof using Hl.
  revert it i; induction m as [|m IH]; intros it i Hb Ha Hm; [lia|]. cbn [linear_search].
  destruct (parse_stands it i Hb) as (it1 & -> & Hs1 & Hst1). cbn [mbind option_bind].
  pose proof (be_le _ _ Hb) as Hle. case_bool_decide as Hi; cbn [negb].
  - destruct (stands_entry it1 i Hi Hs1) as (k & v & Hae). rewrite (ae_key _ _ _ _ Hae).
    rewrite (proj2 (proj2 (proj2 (ae_base _ _ _ _ Hae)))).
    pose proof (ae_kv _ _ _ _ Hae) as Hk. destruct (Z.leb_spec 0 (Compare cmp k target)) as [Hge|Hlt].
    + exists it1. split_and!; [done| |done]. rewrite (seek_index_eq cmp target kvs i); [done|lia|done|].
      intros kv Hkv. rewrite Hk in Hkv. by injection Hkv as <-.
    + destruct (IH it1 (S i)) as (it' & E & Hs' & Hst'); [by apply stands_before| |lia|exists it'; split_and!; [done|done|congruence]].
      intros j kv Hj Hkv. destruct (decide (j = i)) as [->|]; [|apply (Ha j); [lia|done]].
      rewrite Hk in Hkv. by injection Hkv as <-.
  - exists it1. split_and!; [done| |done]. rewrite (seek_index_eq cmp target kvs i); [done|lia|done|].
    intros kv Hkv%lookup_lt_Some. lia.
Qed.

(** The key of a restart point is read whole. *)
Lemma restart_key it j r :
  base it -> rs !! j = Some r -> (1 < length rs)%nat ->
  ∃ k v rest, kvs !! r = Some (k, v) ∧
    DecodeEntry (drop (Z.to_nat (GetRestartPoint it (Z.of_nat j))) (take (Z.to_nat (it_restarts_ it)) (it_data_ it)))
    = Some (0, size k, size v, k ++ rest).
Proof using Hl.
  intros Hb Hj Hlen. rewrite (get_restart it j r Hb Hj). destruct Hb as (-> & -> & _). rewrite !Nat2Z.id.
  destruct (bl_restarts _ _ _ _ Hl j r Hj) as [Hs|[_ Hn]]; [|pose proof (bl_empty _ _ _ _ Hl Hn); lia].
  assert (r < n)%nat as Hr by (rewrite <- (bl_len _ _ _ _ Hl); by eapply lookup_lt_Some).
  destruct (lookup_lt_is_Some_2 kvs r Hr) as [[k v] Hk]. destruct (decode_at r 0 k v Hs Hk) as (-> & _).
  exists k, v. eexists. split; [done|]. rewrite Nat.sub_0_r. done.
Qed.

Definition restart_below (j : nat) : Prop := ∃ r, rs !! j = Some r ∧ all_below r.

Lemma below_le r kv :
  keys_ok -> keys_sorted cmp kvs -> kvs !! r = Some kv -> Compare cmp kv.1 target < 0 -> all_below r.
Proof using Htarget TotalCmp0.
  intros Hok Hsort Hr Hlt j kv' Hj Hk. apply (cmp_lt_trans (Compare cmp) okp _ kv.1); [|  |done| |done].
  - by apply (Forall_lookup_1 _ _ _ _ Hok Hk).
  - by apply (Forall_lookup_1 _ _ _ _ Hok Hr).
  - by apply (Hsort j r).
Qed.

Lemma restart_search_spec it m left right :
  base it -> keys_ok -> keys_sorted cmp kvs -> restart_below left -> (left <= right < length rs)%nat -> (right - left < m)%nat ->
  ∃ j, restart_search m it target (Z.of_nat left) (Z.of_nat right) = Some (Some (Z.of_nat j)) ∧ restart_below j.
Proof using Hl Htarget TotalCmp0.
  intros Hb Hok Hsort. destruct last_restart as (_ & _ & Hlen).
  revert left right; induction m as [|m IH]; intros left right Hleft Hlr Hm; [lia|]. cbn [restart_search].
  destruct (Z.ltb_spec (Z.of_nat left) (Z.of_nat right)) as [Hlt|]; [|by exists left].
  set (mid := ((left + right + 1) / 2)%nat).
  assert (left < mid <= right)%nat as Hmid.
  { unfold mid. split; [|apply Nat.Div0.div_le_upper_bound; lia].
    apply Nat.lt_le_trans with ((2 * left + 2) / 2)%nat; [|apply Nat.Div0.div_le_mono; lia].
    replace (2 * left + 2)%nat with ((left + 1) * 2)%nat by lia. rewrite Nat.div_mul by lia. lia. }
  assert (u32 (Z.of_nat left + Z.of_nat right + 1) / 2 = Z.of_nat mid) as ->.
  { rewrite u32_small by lia. unfold mid. rewrite Nat2Z.inj_div. f_equal. lia. }
  destruct (lookup_lt_is_Some_2 rs mid) as [r Hr]; [lia|].
  destruct (restart_key it mid r Hb Hr ltac:(lia)) as (k & v & rest & Hk & ->). cbn [negb Z.eqb].
  destruct (Z.ltb_spec (size (k ++ rest)) (size k)) as [Hbad|_].
  { rewrite size_app in Hbad. pose proof (size_nonneg rest). lia. }
  unfold size at 1. rewrite Nat2Z.id, take_app_length, (proj2 (proj2 (proj2 Hb))).
  destruct (Z.ltb_spec (Compare cmp k target) 0) as [Hc|Hc].
  - apply IH; [exists r; split; [done|by apply (below_le r (k, v))]|lia|lia].
  - replace (Z.of_nat mid - 1) with (Z.of_nat (mid - 1)) by lia. apply IH; [done|lia|lia].
Qed.

(** [Seek] ends at the first entry whose key is not below the target. *)
Lemma it_Seek_spec it :
  base it -> keys_ok -> keys_sorted cmp kvs ->
  ∃ it', it_Seek target it = Some it' ∧ stands it' (seek_index cmp target kvs) ∧ it_status_ it' = it_status_ it.
Proof using Hl Htarget TotalCmp0.
  intros Hb Hok Hsort. pose proof Hb as (_ & _ & HN & _). unfold it_Seek. destruct last_restart as (E & Hpos & _).
  rewrite HN, E, Nat2Z.id. change 0 with (Z.of_nat 0).
  destruct (restart_search_spec it (S (length rs)) 0 (length rs - 1) Hb Hok Hsort) as (j & -> & r & Hr & Hbelow).
  - exists 0%nat. split; [apply (bl_first _ _ _ _ Hl)|]. intros ? ? ?; lia.
  - lia.
  - lia.
  - cbn [mbind option_bind]. pose proof (scan_enough it Hb) as Hf.
    destruct (linear_search_spec (scan_fuel it) _ r (seek_restart it j r Hb Hr) Hbelow ltac:(lia)) as (it' & ? & ? & ?).
    by exists it'.
Qed.

End Ordered.

End Layout.
