(* ===== verification/LdbBlockBuild.v ===== *)
(** * leveldb: what [BlockBuilder] writes, [Block::Iter] reads

    The builder's invariant gives the layout of LdbBlockThms; the iterator
    over the finished block refines a cursor in the list of added entries. *)

From S2P Require Import Prelude.
From S2P Require Import LdbSlice.
From S2P Require Import LdbCoding.
From S2P Require Import LdbFormat.
From S2P Require Import LdbFormatThms.
From S2P Require Import LdbIterator.
From S2P Require Import LdbBlock.
From S2P Require Import LdbBlockThms.

(** ** The builder's invariant *)

Lemma common_prefix_spec a b :
  (common_prefix a b <= length a)%nat ∧ (common_prefix a b <= length b)%nat ∧
  take (common_prefix a b) a = take (common_prefix a b) b.
Proof.
  revert b; induction a as [|x a IH]; intros [|y b]; simpl; split_and?; try lia; try done;
    destruct (Z.eqb_spec x y) as [->|]; destruct (IH b) as (H1 & H2 & H3); simpl; try lia; try done.
  by rewrite H3.
Qed.

(** An entry the format can hold. *)
Definition entry_ok (kv : Slice * Slice) : Prop := Forall is_u8 kv.1 ∧ Forall is_u8 kv.2 ∧ size kv.1 < 2 ^ 32.

Record built (b : BlockBuilder) (kvs : list (Slice * Slice)) (shs rs : list nat) : Prop := {
  bu_interval : 1 <= block_restart_interval b;
  bu_buffer : bb_buffer_ b = concat (encs shs kvs);
  bu_restarts : bb_restarts_ b = (fun r => Z.of_nat (off shs kvs r)) <$> rs;
  bu_last : last_key_ b = prev_key kvs (length kvs);
  bu_len : length shs = length kvs;
  bu_shared i sh kv : shs !! i = Some sh -> kvs !! i = Some kv -> shares kvs i sh kv.1;
  bu_first : rs !! O = Some O;
  bu_points j r : rs !! j = Some r -> restart_ok shs kvs r;
  bu_empty : kvs = [] -> length rs = 1%nat ∧ counter_ b = 0;
}.


Lemma built_new interval : 1 <= interval -> built (BlockBuilder_new interval) [] [] [0%nat].
Proof.
  intros Hi. split; try done.
  - intros [|j] r Hj; simplify_eq/=. by right.
Qed.

Section Add.

Context (kvs : list (Slice * Slice)) (shs : list nat) (Hlen : length shs = length kvs) (sh : nat) (k v : Slice).

Lemma encs_snoc : encs (shs ++ [sh]) (kvs ++ [(k, v)]) = encs shs kvs ++ [entry_enc sh k v].
Proof using Hlen. unfold encs. by rewrite zip_with_app. Qed.

Lemma off_snoc r : (r <= length kvs)%nat -> off (shs ++ [sh]) (kvs ++ [(k, v)]) r = off shs kvs r.
Proof using Hlen.
  intros Hr. unfold off. rewrite encs_snoc, take_app_le; [done|]. unfold encs. rewrite length_zip_with. lia.
Qed.

Lemma off_last : off shs kvs (length kvs) = length (concat (encs shs kvs)).
Proof using Hlen. unfold off. rewrite take_ge; [done|]. unfold encs. rewrite length_zip_with. lia. Qed.

Lemma prev_key_snoc i : (i <= length kvs)%nat -> prev_key (kvs ++ [(k, v)]) i = prev_key kvs i.
Proof. destruct i as [|i]; [done|]. intros Hi. simpl. by rewrite lookup_app_l by lia. Qed.

Lemma prev_key_last : prev_key (kvs ++ [(k, v)]) (length (kvs ++ [(k, v)])) = k.
Proof. rewrite length_app, Nat.add_1_r. simpl. by rewrite lookup_app_r, Nat.sub_diag. Qed.

Lemma shares_snoc :
  (∀ i s kv, shs !! i = Some s -> kvs !! i = Some kv -> shares kvs i s kv.1) ->
  shares kvs (length kvs) sh k ->
  ∀ i s kv, (shs ++ [sh]) !! i = Some s -> (kvs ++ [(k, v)]) !! i = Some kv -> shares (kvs ++ [(k, v)]) i s kv.1.
Proof using Hlen.
  intros Hold Hnew i s kv Hs Hk. unfold shares in *.
  assert (i <= length kvs)%nat. { apply lookup_lt_Some in Hk. rewrite length_app in Hk. simpl in Hk. lia. }
  rewrite prev_key_snoc by done. destruct (decide (i = length kvs)) as [->|].
  - rewrite lookup_app_r, Nat.sub_diag in Hk by lia. rewrite <- Hlen, lookup_app_r, Nat.sub_diag in Hs by lia.
    by simplify_eq/=.
  - rewrite lookup_app_l in Hk by lia. rewrite lookup_app_l in Hs by lia. by apply Hold.
Qed.

End Add.

(** The size only grows, so that a small block was small all along. *)
Lemma Add_size k v b :
  size (bb_buffer_ b) + Z.of_nat (length k - common_prefix (last_key_ b) k) + size v <= size (bb_buffer_ (BlockBuilder_Add k v b)).
Proof.
  unfold BlockBuilder_Add. case_if; cbn [bb_buffer_]; unfold PutVarint32; rewrite !size_app; unfold size;
    rewrite length_drop; lia.
Qed.

(** Restart decision and shared prefix of [Add]. *)
Definition add_shared (b : BlockBuilder) (k : Slice) : nat :=
  if counter_ b <? block_restart_interval b then common_prefix (last_key_ b) k else O.

Lemma Add_eq k v b :
  let sh := add_shared b k in
  size k < 2 ^ 32 -> size (bb_buffer_ (BlockBuilder_Add k v b)) < 2 ^ 32 ->
  bb_buffer_ (BlockBuilder_Add k v b) = bb_buffer_ b ++ entry_enc sh k v ∧
  bb_restarts_ (BlockBuilder_Add k v b)
  = (if counter_ b <? block_restart_interval b then bb_restarts_ b else bb_restarts_ b ++ [size (bb_buffer_ b)]) ∧
  last_key_ (BlockBuilder_Add k v b) = k.
Proof.
  intros sh Hk Hsz. pose proof (Add_size k v b). pose proof (size_nonneg v). pose proof (size_nonneg (bb_buffer_ b)).
  pose proof (common_prefix_spec (last_key_ b) k) as (C1 & C2 & C3).
  assert (sh <= length k ∧ take sh (last_key_ b) = take sh k)%nat as [Hsh Ht] by (subst sh; unfold add_shared; case_if; split; (lia || done)).
  unfold BlockBuilder_Add. subst sh. unfold add_shared, entry_enc in *. case_if; cbn [bb_buffer_ bb_restarts_ last_key_]; split_and!.
  all: unfold PutVarint32; rewrite ?Ht, ?take_drop, <- ?app_assoc; rewrite ?u32_small by (unfold size in *; lia); try done.
Qed.

Lemma Add_built k v b kvs shs rs :
  built b kvs shs rs -> size k < 2 ^ 32 -> size (bb_buffer_ (BlockBuilder_Add k v b)) < 2 ^ 32 ->
  ∃ rs', built (BlockBuilder_Add k v b) (kvs ++ [(k, v)]) (shs ++ [add_shared b k]) rs'.
Proof.
  intros [Hint Hbuf Hrs Hlast Hlen Hsh Hfirst Hpts Hemp] Hk Hsz.
  destruct (Add_eq k v b Hk Hsz) as (E1 & E2 & E3). pose proof (common_prefix_spec (last_key_ b) k) as (C1 & C2 & C3).
  set (sh := add_shared b k) in *.
  assert (shares kvs (length kvs) sh k) as Hnew.
  { unfold shares, sh, add_shared. rewrite <- Hlast. case_if; split_and!; (done || lia). }
  assert (∀ r, restart_ok shs kvs r -> (r <= length kvs)%nat) as Hle.
  { intros r [Hr|[-> _]]; [|lia]. apply lookup_lt_Some in Hr. lia. }
  assert (∀ r, restart_ok shs kvs r -> restart_ok (shs ++ [sh]) (kvs ++ [(k, v)]) r) as Hkeep.
  { intros r [Hr|[-> Hn]]; left; [by apply lookup_app_l_Some|]. rewrite Hn in *. destruct shs; [|done]. simpl. f_equal.
    destruct (Hemp eq_refl) as [_ Hc]. unfold sh, add_shared. rewrite Hc, Hlast. by case_if. }
  exists (if counter_ b <? block_restart_interval b then rs else rs ++ [length kvs]).
  split.
  - unfold BlockBuilder_Add. by case_if.
  - rewrite E1, Hbuf, encs_snoc, concat_app by done. simpl. by rewrite app_nil_r.
  - rewrite E2, Hrs, Hbuf.
    assert (((λ r, Z.of_nat (off (shs ++ [sh]) (kvs ++ [(k, v)]) r)) <$> rs) = (λ r, Z.of_nat (off shs kvs r)) <$> rs) as Eold.
    { apply list_fmap_ext. intros j r Hj. rewrite off_snoc; [done|done|]. by apply Hle, (Hpts j). }
    case_if; [done|]. rewrite fmap_app, Eold. simpl. by rewrite off_snoc, off_last.
  - by rewrite E3, prev_key_last.
  - rewrite !length_app. simpl. lia.
  - by apply shares_snoc.
  - case_if; [done|]. by apply lookup_app_l_Some.
  - intros j r Hj. assert (rs !! j = Some r ∨ (counter_ b <? block_restart_interval b) = false ∧ r = length kvs) as [Hj'|[Hc ->]].
    { destruct (counter_ b <? block_restart_interval b); [by left|]. apply lookup_app_Some in Hj as [?|[_ Hj]]; [by left|].
      apply list_lookup_singleton_Some in Hj as [_ <-]. by right. }
    + by apply Hkeep, (Hpts j).
    + left. unfold sh, add_shared. rewrite Hc. rewrite <- Hlen, lookup_app_r, Nat.sub_diag by lia. done.
  - intros Hn. by apply app_eq_nil in Hn as [_ ?].
Qed.

(** ** A finished block *)

Definition build_block (interval : Z) (kvs : list (Slice * Slice)) : Slice :=
  fst (BlockBuilder_Finish (foldl (fun b kv => BlockBuilder_Add kv.1 kv.2 b) (BlockBuilder_new interval) kvs)).

Lemma Finish_bytes b :
  fst (BlockBuilder_Finish b)
  = bb_buffer_ b ++ concat (EncodeFixed32 <$> bb_restarts_ b) ++ EncodeFixed32 (u32 (Z.of_nat (length (bb_restarts_ b)))).
Proof. simpl. unfold PutFixed32 at 1. by rewrite foldl_PutFixed32, <- app_assoc. Qed.

Lemma concat_fixed_size l : size (concat (EncodeFixed32 <$> l)) = 4 * Z.of_nat (length l).
Proof.
  induction l as [|x l IH]; [done|]. cbn [fmap list_fmap concat length]. rewrite size_app. setoid_rewrite IH.
  unfold size, EncodeFixed32. rewrite length_le_split. lia.
Qed.

(** [CurrentSizeEstimate] is exact. *)
Lemma Finish_size b : size (fst (BlockBuilder_Finish b)) = CurrentSizeEstimate b.
Proof.
  rewrite Finish_bytes, !size_app, concat_fixed_size. unfold CurrentSizeEstimate, size, EncodeFixed32.
  rewrite length_le_split. lia.
Qed.

Lemma adds_built interval kvs :
  let b := foldl (fun b kv => BlockBuilder_Add kv.1 kv.2 b) (BlockBuilder_new interval) kvs in
  1 <= interval -> Forall entry_ok kvs -> size (bb_buffer_ b) < 2 ^ 32 -> ∃ shs rs, built b kvs shs rs.
Proof.
  intros b Hi. subst b. induction kvs as [|[k v] kvs IH] using rev_ind; intros Hok Hsz.
  - exists [], [0%nat]. by apply built_new.
  - rewrite foldl_app in *. simpl in *. apply Forall_app in Hok as [Hok (_ & _ & Hk)%Forall_singleton].
    set (b := foldl _ _ kvs) in *. pose proof (Add_size k v b). pose proof (size_nonneg v).
    destruct IH as (shs & rs & Hb); [done|lia|]. destruct (Add_built k v b kvs shs rs Hb Hk Hsz) as [rs' Hb']. eauto.
Qed.

Lemma build_layout interval kvs :
  1 <= interval -> Forall entry_ok kvs -> size (build_block interval kvs) < 2 ^ 32 ->
  ∃ shs rs, block_layout (build_block interval kvs) kvs shs rs.
Proof.
  intros Hi Hok Hsz. unfold build_block in *. pose proof Hsz as Hsz'. rewrite Finish_size in Hsz'. unfold CurrentSizeEstimate in Hsz'.
  destruct (adds_built interval kvs Hi Hok) as (shs & rs & [_ Hbuf Hrs _ Hlen Hsh Hf Hp He]); [lia|].
  set (b := foldl _ _ kvs) in *. exists shs, rs. split; try done.
  - rewrite Finish_bytes, Hbuf, Hrs, length_fmap. rewrite u32_small; [done|].
    assert (length (bb_restarts_ b) = length rs) as <- by by rewrite Hrs, length_fmap.
    pose proof (size_nonneg (bb_buffer_ b)). lia.
  - intros Hn. by destruct (He Hn).
Qed.

(** Opening it. *)
Lemma open_layout cmp data kvs shs rs :
  block_layout data kvs shs rs ->
  ∃ it, NewIterator cmp (Block_new data) = BlockIter it ∧ base cmp data kvs shs rs it ∧ it_status_ it = Status_OK ∧
    current_ it = Z.of_nat (length (concat (encs shs kvs))).
Proof.
  intros Hl. pose proof (R_bound _ _ _ _ Hl) as HR. destruct (last_restart _ _ _ _ Hl) as (_ & Hpos & Hlen).
  set (R := length (concat (encs shs kvs))) in *. pose proof (bl_size _ _ _ _ Hl) as Hsz.
  assert (NumRestarts data (size data) = Z.of_nat (length rs)) as HN.
  { unfold NumRestarts. rewrite <- HR. rewrite (bl_data _ _ _ _ Hl), app_assoc.
    rewrite drop_app_length'; [rewrite <- (app_nil_r (EncodeFixed32 _)); apply DecodeFixed32_encode; unfold is_u32; lia|].
    enough (size (concat (encs shs kvs) ++ concat (EncodeFixed32 <$> ((λ r : nat, Z.of_nat (off shs kvs r)) <$> rs)))
      = Z.of_nat R + 4 * Z.of_nat (length rs)) as E by (unfold size in E; lia).
    rewrite size_app, concat_fixed_size, length_fmap. done. }
  unfold Block_new. destruct (Z.ltb_spec (size data) 4); [lia|]. rewrite HN.
  destruct (Z.ltb_spec ((size data - 4) / 4) (Z.of_nat (length rs))) as [Hlt|_].
  { apply Z.nle_gt in Hlt. exfalso. apply Hlt. apply Z.div_le_lower_bound; lia. }
  unfold NewIterator. simpl. destruct (Z.ltb_spec (size data) 4); [lia|]. rewrite HN.
  destruct (Z.eqb_spec (Z.of_nat (length rs)) 0); [lia|]. eexists. split; [done|]. unfold base. simpl.
  rewrite (u32_small (1 + _)) by lia. rewrite u32_small by lia. split_and!; (done || lia).
Qed.

(** ** The iterator as a cursor *)

Section Cursor.

Context (cmp : Comparator) (okp : Slice -> Prop) `{!TotalCmp (Compare cmp) okp}.
Context (data : Slice) (kvs : list (Slice * Slice)) (shs rs : list nat) (Hl : block_layout data kvs shs rs).
Context (Hok : Forall (fun kv => okp kv.1) kvs) (Hsorted : keys_sorted cmp kvs).

Lemma stands_view it i : stands cmp data kvs shs rs it i -> i_view (BlockIter it) = kvs !! i.
Proof using Hl.
  unfold stands, i_view. simpl. unfold it_Valid, it_key. destruct (kvs !! i) as [[k v]|] eqn:Hk.
  - intros [(_ & HR & _) _ Hc Hkey (_ & _ & Hv) _]. simpl in *. rewrite Hc, HR, Hkey, Hv.
    assert (i < length kvs)%nat as Hi by by eapply lookup_lt_Some.
    pose proof (offset_lt _ _ _ _ Hl i (length kvs) Hi Hi). rewrite (offset_n _ _ _ _ Hl (length kvs)) in * by lia.
    destruct (Z.ltb_spec (Z.of_nat (off shs kvs i)) (Z.of_nat (length (concat (encs shs kvs))))); [done|lia].
  - intros [(_ & HR & _) Hc]. by rewrite Hc, HR, Z.ltb_irrefl.
Qed.

Definition block_at (b : BlockIterator) (i : nat) : Prop :=
  ∃ it, b = BlockIter it ∧ stands cmp data kvs shs rs it i ∧ it_status_ it = Status_OK ∧ (i <= length kvs)%nat.

Lemma block_at_move f b it i' :
  b = BlockIter it -> it_status_ it = Status_OK -> (i' <= length kvs)%nat ->
  (∃ it', f it = Some it' ∧ stands cmp data kvs shs rs it' i' ∧ it_status_ it' = it_status_ it) ->
  ∃ b', BlockIter <$> f it = Some b' ∧ block_at b' i'.
Proof. intros -> Hst Hi (it' & -> & Hs & Hst'). eexists. split; [done|]. exists it'. split_and!; [done|done|congruence|done]. Qed.

#[export] Instance block_cursor : Cursor cmp okp kvs block_at.
Proof using Hl Hok Hsorted TotalCmp0.
  split.
  - intros b i (it & -> & Hs & _). by apply stands_view.
  - by intros b i (it & _ & _ & _ & Hi).
  - by intros b i (it & -> & _ & Hst & _).
  - intros b i (it & -> & Hs & Hst & _). eapply block_at_move; [done..|lia|]. eapply it_SeekToFirst_spec; [done|by eapply stands_base].
  - intros b i (it & -> & Hs & Hst & _). eapply block_at_move; [done..|lia|]. eapply it_SeekToLast_spec; [done|by eapply stands_base].
  - intros b i target (it & -> & Hs & Hst & _) Ht. eapply block_at_move; [done..| |].
    + apply seek_index_spec.
    + eapply it_Seek_spec; [done..|by eapply stands_base|done|done].
  - intros b i (it & -> & Hs & Hst & _) Hi. eapply block_at_move; [done..|lia|]. by eapply it_Next_spec.
  - intros b i (it & -> & Hs & Hst & _) Hi. eapply block_at_move; [done..|destruct i; lia|].
    destruct (it_Prev_spec cmp data kvs shs rs Hl it i Hi Hs) as (it' & E & Hst' & Hs'). exists it'. split_and!; [done| |done].
    destruct i; [done|]. by rewrite Nat.sub_1_r in Hs'.
Qed.

End Cursor.

(** A finished block opens as a cursor past the end of its entries. *)
Lemma open_block cmp okp `{!TotalCmp (Compare cmp) okp} interval kvs :
  1 <= interval -> Forall entry_ok kvs -> Forall (fun kv => okp kv.1) kvs -> keys_sorted cmp kvs ->
  size (build_block interval kvs) < 2 ^ 32 ->
  ∃ at_, Cursor cmp okp kvs at_ ∧ at_ (NewIterator cmp (Block_new (build_block interval kvs))) (length kvs).
Proof.
  intros Hi Hok Hkeys Hsort Hsz. destruct (build_layout interval kvs Hi Hok Hsz) as (shs & rs & Hl).
  destruct (open_layout cmp _ _ _ _ Hl) as (it & -> & Hb & Hst & Hc).
  exists (block_at cmp (build_block interval kvs) kvs shs rs). split; [by apply block_cursor|].
  exists it. split_and!; [done| |done|done]. unfold stands. rewrite lookup_ge_None_2 by done. by split.
Qed.

(** C28. A block finished by [BlockBuilder] after adding entries in increasing
    key order, within 4 GiB, opens, and its iterator is a cursor in the list of
    entries: after any sequence of [SeekToFirst], [SeekToLast], [Seek], and
    [Next] and [Prev] from valid positions, the operations have ended, the
    status is OK, and the iterator shows the entry at the cursor's position,
    or is not valid when the cursor is past the end. *)
Theorem block_roundtrip (cmp : Comparator) (okp : Slice -> Prop) `{!ComparatorLaws cmp okp} (interval : Z)
    (kvs : list (Slice * Slice)) (ops : list cursor_op) (i : nat) :
  1 <= interval -> Forall entry_ok kvs -> Forall (fun kv => okp kv.1) kvs -> keys_sorted cmp kvs ->
  size (build_block interval kvs) < 2 ^ 32 -> Forall (target_ok okp) ops -> cursor_run cmp kvs ops = Some i ->
  ∃ it, iter_run ops (NewIterator cmp (Block_new (build_block interval kvs))) = Some it ∧
    i_view it = kvs !! i ∧ i_status it = Status_OK.
Proof.
  intros Hi Hok Hkeys Hsort Hsz Ht E. destruct (open_block cmp okp interval kvs Hi Hok Hkeys Hsort Hsz) as (at_ & Hc & Ha).
  destruct (run_cursor cmp okp kvs at_ ops _ i Ha Ht E) as (it & ? & ? & ? & _). by exists it.
Qed.

(** Four entries, two to a restart point. *)
Definition small_entries : list (Slice * Slice) :=
  [([97], [1]); ([97; 98; 99], [2; 2]); ([97; 98; 100], []); ([98], [200])].

Lemma block_roundtrip_witness :
  ∃ it, iter_run [ToKey [97; 98; 99; 0]; ToNext; ToPrev; ToPrev]
    (NewIterator BytewiseComparator (Block_new (build_block 2 small_entries))) = Some it ∧
    i_view it = Some ([97; 98; 99], [2; 2]) ∧ i_status it = Status_OK.
Proof.
  apply (block_roundtrip BytewiseComparator (Forall is_u8) 2 small_entries _ 1).
  - lia.
  - repeat constructor; simpl; lia.
  - repeat constructor; simpl; lia.
  - intros i j a b Hij Ha Hb. destruct i as [|[|[|[|i]]]], j as [|[|[|[|j]]]]; simplify_eq/=; try lia; vm_compute; reflexivity.
  - vm_compute. reflexivity.
  - repeat constructor; simpl; lia.
  - vm_compute. reflexivity.
Defined.

(** ** Damaged blocks *)

(** A block of one entry with the given lengths, whatever follows them. *)
Definition raw_block (non_shared value_length : Z) (rest : Slice) : Slice :=
  (EncodeVarint32 0 ++ EncodeVarint32 non_shared ++ EncodeVarint32 value_length ++ rest) ++
  EncodeFixed32 0 ++ EncodeFixed32 1.

Lemma open_raw cmp (non_shared value_length : Z) (rest : Slice) :
  size (raw_block non_shared value_length rest) < 2 ^ 32 ->
  NewIterator cmp (Block_new (raw_block non_shared value_length rest))
  = BlockIter (Iter_new cmp (raw_block non_shared value_length rest) (size (raw_block non_shared value_length rest) - 8) 1).
Proof.
  set (d := raw_block _ _ _). intros Hsz.
  assert (8 <= size d ∧ drop (Z.to_nat (size d - 4)) d = EncodeFixed32 1) as [H8 Hd].
  { assert (∀ x, size (EncodeFixed32 x) = 4) as H4 by (intros; unfold size, EncodeFixed32; by rewrite length_le_split).
    unfold d, raw_block. set (e := EncodeVarint32 0 ++ _). rewrite app_assoc, !size_app, !H4.
    pose proof (size_nonneg e). split; [lia|]. apply drop_app_length'. rewrite length_app.
    pose proof (H4 0). unfold size in *. lia. }
  assert (NumRestarts d (size d) = 1) as HN by (unfold NumRestarts; rewrite Hd; reflexivity).
  unfold Block_new. destruct (Z.ltb_spec (size d) 4); [lia|]. rewrite HN.
  destruct (Z.ltb_spec ((size d - 4) / 4) 1) as [Hlt|_].
  { apply Z.nle_gt in Hlt. exfalso. apply Hlt. apply Z.div_le_lower_bound; lia. }
  unfold NewIterator. simpl. destruct (Z.ltb_spec (size d) 4); [lia|]. rewrite HN. cbn [Z.eqb].
  rewrite (u32_small (1 + 1)) by lia. by rewrite u32_small by lia.
Qed.

(** The first entry: refused, outside the block, or read. *)
Lemma first_raw (non_shared value_length : Z) (rest : Slice) (it : Iter) :
  it_data_ it = raw_block non_shared value_length rest -> it_restarts_ it = size (it_data_ it) - 8 -> num_restarts_ it = 1 ->
  is_u32 non_shared -> is_u32 value_length -> Forall is_u8 rest -> size (it_data_ it) < 2 ^ 32 ->
  it_SeekToFirst it
  = if size rest <? u32 (non_shared + value_length) then Some (CorruptionError (SeekToRestartPoint 0 it))
    else if size rest <? non_shared + value_length then None
    else Some (it_set it 0 0 (take (Z.to_nat non_shared) rest)
                 (it_restarts_ it - size rest + non_shared) value_length (it_status_ it)).
Proof.
  intros Hd HR HN Un Uv Ur Hsz.
  set (e := EncodeVarint32 0 ++ EncodeVarint32 non_shared ++ EncodeVarint32 value_length ++ rest).
  assert (it_data_ it = e ++ EncodeFixed32 0 ++ EncodeFixed32 1) as Hde by done.
  assert (size (it_data_ it) = size e + 8) as Hse.
  { rewrite Hde, !size_app. unfold size, EncodeFixed32. rewrite !length_le_split. lia. }
  assert (GetRestartPoint it 0 = 0) as Hg.
  { unfold GetRestartPoint. rewrite HR, Hse. replace (Z.to_nat _) with (length e) by (unfold size; lia).
    rewrite Hde, drop_app_length. by apply DecodeFixed32_encode. }
  assert (0 < size e ∧ size rest <= size e) as [Hpos Hre].
  { unfold e, size. rewrite !length_app. pose proof (EncodeVarint32_pos 0). lia. }
  pose proof (size_nonneg rest).
  unfold it_SeekToFirst, ParseNextKey, NextEntryOffset, SeekToRestartPoint. simpl. rewrite Hg. simpl. change (u32 0) with 0.
  rewrite HR. destruct (Z.leb_spec (size (it_data_ it) - 8) 0); [lia|].
  replace (size (it_data_ it) - 8) with (size e) by lia. simpl.
  assert (take (Z.to_nat (size e)) (it_data_ it) = e) as ->.
  { rewrite Hde. unfold size. rewrite Nat2Z.id. apply take_app_length. }
  change (u32 (0 + 0)) with 0. change (drop (Z.to_nat 0) e) with e.
  assert (DecodeEntry e = if u32 (size rest) <? u32 (non_shared + value_length) then None
    else Some (0, non_shared, value_length, rest)) as ->.
  { by apply DecodeEntry_varints. }
  rewrite (u32_small (size rest)) by lia. case_if; [done|]. cbn [Z.to_nat].
  change (size [] <? 0) with false. case_if; [done|]. rewrite HN. change (Z.to_nat 1) with 1%nat. simpl. rewrite HN.
  by destruct (size rest <? non_shared + value_length).
Qed.

(** A block whose first entry announces more bytes than the block has: when
    the two lengths add up below 2^32 the iterator reports a corruption and
    is not valid; when their sum reaches 2^32, [DecodeEntry] compares the
    wrapped sum, accepts the entry if that is small, and [ParseNextKey]
    reads outside the block. *)
Lemma block_length_check (cmp : Comparator) (non_shared value_length : Z) (rest : Slice) :
  is_u32 non_shared -> is_u32 value_length -> Forall is_u8 rest ->
  size (raw_block non_shared value_length rest) < 2 ^ 32 -> size rest < non_shared + value_length ->
  ∃ it, NewIterator cmp (Block_new (raw_block non_shared value_length rest)) = BlockIter it ∧
    (non_shared + value_length < 2 ^ 32 ->
      ∃ it', it_SeekToFirst it = Some it' ∧ it_Valid it' = false ∧
        it_status it' = Status_Corruption "bad entry in block" []) ∧
    (non_shared + value_length - 2 ^ 32 <= size rest -> 2 ^ 32 <= non_shared + value_length -> it_SeekToFirst it = None).
Proof.
  intros Un Uv Ur Hsz Hlt. rewrite open_raw by done. eexists. split; [done|].
  rewrite (first_raw non_shared value_length rest) by done. unfold is_u32 in *. pose proof (size_nonneg rest). split.
  - intros Hsum. rewrite u32_small by lia. destruct (Z.ltb_spec (size rest) (non_shared + value_length)); [|lia].
    eexists. split; [done|]. split; [|done]. unfold it_Valid. simpl. apply Z.ltb_irrefl.
  - intros Hwrap Hge. assert (u32 (non_shared + value_length) = non_shared + value_length - 2 ^ 32) as ->.
    { unfold u32. symmetry. apply (Zmod_unique _ _ 1); lia. }
    destruct (Z.ltb_spec (size rest) (non_shared + value_length - 2 ^ 32)); [lia|].
    destruct (Z.ltb_spec (size rest) (non_shared + value_length)); [done|lia].
Qed.
