(* ===== verification/LdbLog.v ===== *)
(** * leveldb: the write-ahead log (log_format.h, log_writer.h, log_writer.cc,
      log_reader.h, log_reader.cc)

    A log is a sequence of blocks of 32 kB; a logical record is cut into
    physical records that do not cross a block boundary, each with a header
    of checksum, length and type.  Files are the interfaces of env.h, given
    by a state type and the operations on it; the address of a slice is a
    parameter because the checksum depends on its alignment. *)

From S2P Require Import Prelude.
From S2P Require Import LdbSlice.
From S2P Require Import LdbCoding.
From S2P Require Import LdbCrc.

(** ** log_format.h *)

Inductive RecordType := kZeroType | kFullType | kFirstType | kMiddleType | kLastType.

Definition record_type_value (t : RecordType) : Z :=
  match t with
  | kZeroType => 0 | kFullType => 1 | kFirstType => 2 | kMiddleType => 3 | kLastType => 4
  end.

Definition kMaxRecordType : Z := record_type_value kLastType.
Definition kBlockSize : Z := 32768.
Definition kHeaderSize : Z := 4 + 2 + 1.

(** Extra values of [ReadPhysicalRecord]. *)
Definition kEof : Z := kMaxRecordType + 1.
Definition kBadRecord : Z := kMaxRecordType + 2.

(** ** Files (env.h) *)

Class WritableFile (F : Type) := {
  Append : Slice -> F -> Status * F;
  Flush : F -> Status * F;
}.

Class SequentialFile (F : Type) := {
  Read : Z -> F -> Status * Slice * F;
  Skip : Z -> F -> Status * F;
}.

(** ** [log::Writer] *)

Section Writer.

Context {F : Type} `{!WritableFile F} (addr : Slice -> Z).

Record Writer := MkWriter { dest_ : F; block_offset_ : Z; type_crc_ : list Z }.

Definition InitTypeCrc : list Z :=
  (fun i => Value (addr [Z.of_nat i]) [Z.of_nat i]) <$> seq 0 (Z.to_nat (kMaxRecordType + 1)).

Definition Writer_new (dest : F) : Writer := MkWriter dest 0 InitTypeCrc.
Definition Writer_at (dest : F) (dest_length : Z) : Writer :=
  MkWriter dest (dest_length mod kBlockSize) InitTypeCrc.

Definition EmitPhysicalRecord (t : RecordType) (ptr : Slice) (w : Writer) : Status * Writer :=
  let length := size ptr in
  let crc := Extend (addr ptr) (nth (Z.to_nat (record_type_value t)) (type_crc_ w) 0) ptr in
  let buf := EncodeFixed32 (Mask crc)
             ++ [u8 (Z.land length 0xff); u8 (Z.shiftr length 8); u8 (record_type_value t)] in
  let '(s, f) :=
    match Append buf (dest_ w) with
    | (None, f) =>
        match Append ptr f with
        | (None, f) => Flush f
        | r => r
        end
    | r => r
    end in
  (s, MkWriter f (block_offset_ w + (kHeaderSize + length)) (type_crc_ w)).

(** The start of a round of [AddRecord]: fill the trailer of a block too
    short for a header.  The status of that append is dropped. *)
Definition switch_block (w : Writer) : Writer :=
  let leftover := kBlockSize - block_offset_ w in
  if leftover <? kHeaderSize then
    let f := if 0 <? leftover then (Append (replicate (Z.to_nat leftover) 0) (dest_ w)).2
             else dest_ w in
    MkWriter f 0 (type_crc_ w)
  else w.

Definition fragment_type (begin_ end_ : bool) : RecordType :=
  if begin_ && end_ then kFullType
  else if begin_ then kFirstType
  else if end_ then kLastType
  else kMiddleType.

(** The loop of [AddRecord]; [None] when the rounds run out. *)
Fixpoint add_record_loop (n : nat) (ptr : Slice) (begin_ : bool) (w : Writer) : option (Status * Writer) :=
  match n with
  | O => None
  | S n =>
      let w := switch_block w in
      let avail := kBlockSize - block_offset_ w - kHeaderSize in
      let left := size ptr in
      let fragment_length := if left <? avail then left else avail in
      let end_ := left =? fragment_length in
      let '(s, w) := EmitPhysicalRecord (fragment_type begin_ end_)
                       (take (Z.to_nat fragment_length) ptr) w in
      let ptr := drop (Z.to_nat fragment_length) ptr in
      if ok s && (0 <? size ptr) then add_record_loop n ptr false w else Some (s, w)
  end.

(** Only the first round can emit an empty fragment of a longer record. *)
Definition AddRecord (slice : Slice) (w : Writer) : option (Status * Writer) :=
  add_record_loop (S (S (length slice))) slice true w.

End Writer.

Arguments Writer F : clear implicits.

(** ** [log::Reader] *)

Section Reader.

Context {F : Type} `{!SequentialFile F} (addr : Slice -> Z).

(** [reports_]: the calls of [reporter_->Corruption], when there is a
    reporter. *)
Record Reader := MkReader {
  file_ : F;
  has_reporter_ : bool;
  reports_ : list (Z * Status);
  checksum_ : bool;
  buffer_ : Slice;
  eof_ : bool;
  last_record_offset_ : Z;
  end_of_buffer_offset_ : Z;
  initial_offset_ : Z;
  resyncing_ : bool;
}.

Definition Reader_new (file : F) (reporter checksum : bool) (initial_offset : Z) : Reader :=
  MkReader file reporter [] checksum [] false 0 0 initial_offset (0 <? initial_offset).

Definition set_buffer (b : Slice) (r : Reader) : Reader :=
  MkReader (file_ r) (has_reporter_ r) (reports_ r) (checksum_ r) b (eof_ r)
    (last_record_offset_ r) (end_of_buffer_offset_ r) (initial_offset_ r) (resyncing_ r).
Definition set_eof (e : bool) (r : Reader) : Reader :=
  MkReader (file_ r) (has_reporter_ r) (reports_ r) (checksum_ r) (buffer_ r) e
    (last_record_offset_ r) (end_of_buffer_offset_ r) (initial_offset_ r) (resyncing_ r).
Definition set_file (f : F) (r : Reader) : Reader :=
  MkReader f (has_reporter_ r) (reports_ r) (checksum_ r) (buffer_ r) (eof_ r)
    (last_record_offset_ r) (end_of_buffer_offset_ r) (initial_offset_ r) (resyncing_ r).
Definition set_end_of_buffer (e : Z) (r : Reader) : Reader :=
  MkReader (file_ r) (has_reporter_ r) (reports_ r) (checksum_ r) (buffer_ r) (eof_ r)
    (last_record_offset_ r) e (initial_offset_ r) (resyncing_ r).
Definition set_last_record (o : Z) (r : Reader) : Reader :=
  MkReader (file_ r) (has_reporter_ r) (reports_ r) (checksum_ r) (buffer_ r) (eof_ r)
    o (end_of_buffer_offset_ r) (initial_offset_ r) (resyncing_ r).
Definition set_resyncing (b : bool) (r : Reader) : Reader :=
  MkReader (file_ r) (has_reporter_ r) (reports_ r) (checksum_ r) (buffer_ r) (eof_ r)
    (last_record_offset_ r) (end_of_buffer_offset_ r) (initial_offset_ r) b.
Definition add_report (x : Z * Status) (r : Reader) : Reader :=
  MkReader (file_ r) (has_reporter_ r) (reports_ r ++ [x]) (checksum_ r) (buffer_ r) (eof_ r)
    (last_record_offset_ r) (end_of_buffer_offset_ r) (initial_offset_ r) (resyncing_ r).

Definition ReportDrop (bytes : Z) (reason : Status) (r : Reader) : Reader :=
  if has_reporter_ r &&
     (initial_offset_ r <=? u64 (end_of_buffer_offset_ r - size (buffer_ r) - bytes))
  then add_report (bytes, reason) r else r.

Definition ReportCorruption (bytes : Z) (reason : Slice) (r : Reader) : Reader :=
  ReportDrop bytes (Status_new kCorruption reason []) r.

Definition SkipToInitialBlock (r : Reader) : bool * Reader :=
  let offset_in_block := initial_offset_ r mod kBlockSize in
  let block_start_location := u64 (initial_offset_ r - offset_in_block) in
  let block_start_location :=
    if kBlockSize - 6 <? offset_in_block then u64 (block_start_location + kBlockSize)
    else block_start_location in
  let r := set_end_of_buffer block_start_location r in
  if 0 <? block_start_location then
    let '(skip_status, f) := Skip block_start_location (file_ r) in
    let r := set_file f r in
    if ok skip_status then (true, r) else (false, ReportDrop block_start_location skip_status r)
  else (true, r).

(** The part of a round of [ReadPhysicalRecord] after the buffer holds a
    header: the type and the fragment left in [result]. *)
Definition parse_physical (result : Slice) (r : Reader) : Z * Slice * Reader :=
  let header := buffer_ r in
  let a := Z.land (byte_of header 4) 0xff in
  let b := Z.land (byte_of header 5) 0xff in
  let type := u32 (s8 (byte_of header 6)) in
  let length := Z.lor a (Z.shiftl b 8) in
  if size (buffer_ r) <? kHeaderSize + length then
    let drop_size := size (buffer_ r) in
    let r := set_buffer [] r in
    if eof_ r then (kEof, result, r)
    else (kBadRecord, result, ReportCorruption drop_size (str "bad record length") r)
  else if (type =? record_type_value kZeroType) && (length =? 0) then
    (kBadRecord, result, set_buffer [] r)
  else
    let expected_crc := Unmask (DecodeFixed32 header) in
    let payload := take (Z.to_nat (1 + length)) (drop 6 header) in
    let actual_crc := Value (addr (drop 6 header)) payload in
    if checksum_ r && negb (actual_crc =? expected_crc) then
      let drop_size := size (buffer_ r) in
      (kBadRecord, result, ReportCorruption drop_size (str "checksum mismatch") (set_buffer [] r))
    else
      let r := set_buffer (remove_prefix (kHeaderSize + length) (buffer_ r)) r in
      if u64 (end_of_buffer_offset_ r - size (buffer_ r) - kHeaderSize - length) <? initial_offset_ r
      then (kBadRecord, [], r)
      else (type, take (Z.to_nat length) (drop (Z.to_nat kHeaderSize) header), r).

(** A round that reads a block is followed by one that parses it or ends, so
    two rounds are enough. *)
Fixpoint read_physical_loop (n : nat) (result : Slice) (r : Reader) : Z * Slice * Reader :=
  match n with
  | O => (kEof, result, r)
  | S n =>
      if size (buffer_ r) <? kHeaderSize then
        if negb (eof_ r) then
          let r := set_buffer [] r in
          let '(status, data, f) := Read kBlockSize (file_ r) in
          let r := set_buffer data (set_file f r) in
          let r := set_end_of_buffer (u64 (end_of_buffer_offset_ r + size (buffer_ r))) r in
          if negb (ok status) then
            (kEof, result, set_eof true (ReportDrop kBlockSize status (set_buffer [] r)))
          else
            let r := if size (buffer_ r) <? kBlockSize then set_eof true r else r in
            read_physical_loop n result r
        else (kEof, result, set_buffer [] r)
      else parse_physical result r
  end.

Definition ReadPhysicalRecord (result : Slice) (r : Reader) : Z * Slice * Reader :=
  read_physical_loop 2 result r.

(** The locals of [ReadRecord]. *)
Record locals := Locals {
  in_fragmented_record : bool;
  prospective_record_offset : Z;
  scratch : Slice;
  fragment : Slice;
}.

(** One physical record in [ReadRecord]: a return value, or the next
    locals. *)
Definition read_record_step (type offset : Z) (l : locals) (r : Reader) :
    (bool * Slice + locals) * Reader :=
  let partial reason r :=
    if in_fragmented_record l && negb (size (scratch l) =? 0)
    then ReportCorruption (size (scratch l)) (str reason) r else r in
  if type =? record_type_value kFullType then
    let r := partial "partial record without end(1)"%string r in
    (inl (true, fragment l), set_last_record offset r)
  else if type =? record_type_value kFirstType then
    let r := partial "partial record without end(2)"%string r in
    (inr (Locals true offset (fragment l) (fragment l)), r)
  else if type =? record_type_value kMiddleType then
    if negb (in_fragmented_record l) then
      (inr l, ReportCorruption (size (fragment l)) (str "missing start of fragmented record(1)") r)
    else
      (inr (Locals true (prospective_record_offset l) (scratch l ++ fragment l) (fragment l)), r)
  else if type =? record_type_value kLastType then
    if negb (in_fragmented_record l) then
      (inr l, ReportCorruption (size (fragment l)) (str "missing start of fragmented record(2)") r)
    else
      (inl (true, scratch l ++ fragment l), set_last_record (prospective_record_offset l) r)
  else if type =? kEof then (inl (false, []), r)
  else if type =? kBadRecord then
    if in_fragmented_record l then
      (inr (Locals false (prospective_record_offset l) [] (fragment l)),
       ReportCorruption (size (scratch l)) (str "error in middle of record") r)
    else (inr l, r)
  else
    let bytes := size (fragment l) + (if in_fragmented_record l then size (scratch l) else 0) in
    (inr (Locals false (prospective_record_offset l) [] (fragment l)),
     ReportCorruption bytes (str "unknown record type " ++ decimal type) r).

(** The loop of [ReadRecord]; [None] when the rounds run out. *)
Fixpoint read_record_loop (n : nat) (l : locals) (r : Reader) : option (bool * Slice * Reader) :=
  match n with
  | O => None
  | S n =>
      let '(record_type, frag, r) := ReadPhysicalRecord (fragment l) r in
      let l := Locals (in_fragmented_record l) (prospective_record_offset l) (scratch l) frag in
      let physical_record_offset :=
        u64 (end_of_buffer_offset_ r - size (buffer_ r) - kHeaderSize - size frag) in
      if resyncing_ r && (record_type =? record_type_value kMiddleType)
      then read_record_loop n l r
      else if resyncing_ r && (record_type =? record_type_value kLastType)
      then read_record_loop n l (set_resyncing false r)
      else
        match read_record_step record_type physical_record_offset l (set_resyncing false r) with
        | (inl (res, rec), r) => Some (res, rec, r)
        | (inr l, r) => read_record_loop n l r
        end
  end.

Definition ReadRecord (n : nat) (r : Reader) : option (bool * Slice * Reader) :=
  if last_record_offset_ r <? initial_offset_ r then
    match SkipToInitialBlock r with
    | (false, r) => Some (false, [], r)
    | (true, r) => read_record_loop n (Locals false 0 [] []) r
    end
  else read_record_loop n (Locals false 0 [] []) r.

Definition LastRecordOffset (r : Reader) : Z := last_record_offset_ r.

End Reader.

Arguments Reader F : clear implicits.
