(* ===== verification/LdbLogThms.v ===== *)
(** * leveldb: what the log guarantees

    The layout of a log file as a function of its physical records; the
    writer produces it, and the reader recovers from any prefix of it, such
    as a file cut off by a crash, exactly the records that are complete. *)

From S2P Require Import Prelude.
From S2P Require Import LdbSlice.
From S2P Require Import LdbCoding.
From S2P Require Import LdbCrc.
From S2P Require Import LdbLog.

(** ** Layout *)

(** A physical record on disk. *)
Definition phys (t : Z) (d : Slice) : Slice :=
  EncodeFixed32 (Mask (crc32c 0 (t :: d))) ++ [size d mod 256; size d / 256; t] ++ d.

(** Zero bytes before a header at position [p] of the file. *)
Definition padding (p : Z) : Z :=
  let left := kBlockSize - p mod kBlockSize in if left <? kHeaderSize then left else 0.

Fixpoint layout (p : Z) (prs : list (Z * Slice)) : Slice :=
  match prs with
  | [] => []
  | (t, d) :: prs =>
      replicate (Z.to_nat (padding p)) 0 ++ phys t d ++ layout (p + padding p + kHeaderSize + size d) prs
  end.

Fixpoint layout_end (p : Z) (prs : list (Z * Slice)) : Z :=
  match prs with
  | [] => p
  | (t, d) :: prs => layout_end (p + padding p + kHeaderSize + size d) prs
  end.

(** No physical record crosses a block boundary. *)
Fixpoint in_blocks (p : Z) (prs : list (Z * Slice)) : Prop :=
  match prs with
  | [] => True
  | (t, d) :: prs =>
      (p + padding p) mod kBlockSize + kHeaderSize + size d <= kBlockSize ∧ Forall is_u8 d ∧ 1 <= t <= 4 ∧
      in_blocks (p + padding p + kHeaderSize + size d) prs
  end.

(** A logical record and its fragments. *)
Inductive rest_of : Slice -> list (Z * Slice) -> Prop :=
| rest_last d : rest_of d [(4, d)]
| rest_middle d rest prs : rest_of rest prs -> rest_of (d ++ rest) ((3, d) :: prs).

Inductive fragments : Slice -> list (Z * Slice) -> Prop :=
| frag_full d : fragments d [(1, d)]
| frag_first d rest prs : rest_of rest prs -> fragments (d ++ rest) ((2, d) :: prs).

Definition pieces (begin_ : bool) : Slice -> list (Z * Slice) -> Prop :=
  if begin_ then fragments else rest_of.

(** Several records after each other. *)
Inductive written : list Slice -> list (Z * Slice) -> Prop :=
| written_nil : written [] []
| written_cons rec recs prs prs' :
    fragments rec prs -> written recs prs' -> written (rec :: recs) (prs ++ prs').

Lemma block_arith p : 0 <= p -> 0 <= p mod kBlockSize < kBlockSize.
Proof. intros. apply Z.mod_pos_bound. done. Qed.

Lemma padding_range p : 0 <= p -> 0 <= padding p < kHeaderSize.
Proof. intros Hp. pose proof (block_arith p Hp). unfold padding. case_if; unfold kHeaderSize in *; lia. Qed.

Lemma padding_start p : 0 <= p -> (p + padding p) mod kBlockSize + kHeaderSize <= kBlockSize.
Proof.
  intros Hp. pose proof (block_arith p Hp). unfold padding. case_if.
  - assert ((p + (kBlockSize - p mod kBlockSize)) mod kBlockSize = 0) as ->; [|by vm_compute].
    unfold kBlockSize in *. dlia.
  - rewrite Z.add_0_r. lia.
Qed.

Lemma size_phys t d : size (phys t d) = kHeaderSize + size d.
Proof.
  unfold phys. rewrite size_app, size_EncodeFixed32, size_app. unfold size at 1. simpl length.
  unfold kHeaderSize. lia.
Qed.

Lemma size_replicate n (x : Z) : size (replicate n x) = Z.of_nat n.
Proof. unfold size. by rewrite length_replicate. Qed.

Lemma size_layout p prs : 0 <= p -> p + size (layout p prs) = layout_end p prs.
Proof.
  revert p; induction prs as [|[t d] prs IH]; intros p Hp; cbn [layout layout_end].
  { unfold size. simpl. lia. }
  pose proof (padding_range p Hp). pose proof (size_nonneg d).
  rewrite <- IH by (unfold kHeaderSize; lia). rewrite !size_app, size_phys, size_replicate. lia.
Qed.

Lemma layout_app p prs prs' :
  layout p (prs ++ prs') = layout p prs ++ layout (layout_end p prs) prs'.
Proof.
  revert p; induction prs as [|[t d] prs IH]; intros p; [done|].
  cbn [layout layout_end app]. by rewrite IH, <- !app_assoc.
Qed.

Lemma layout_end_app p prs prs' : layout_end p (prs ++ prs') = layout_end (layout_end p prs) prs'.
Proof. revert p; induction prs as [|[t d] prs IH]; intros p; simpl; [done|]. apply IH. Qed.

Lemma in_blocks_app p prs prs' :
  in_blocks p (prs ++ prs') <-> in_blocks p prs ∧ in_blocks (layout_end p prs) prs'.
Proof.
  revert p; induction prs as [|[t d] prs IH]; intros p; simpl; [tauto|]. rewrite IH. tauto.
Qed.

Lemma layout_end_ge p prs : 0 <= p -> p <= layout_end p prs.
Proof. intros Hp. rewrite <- size_layout by done. pose proof (size_nonneg (layout p prs)). lia. Qed.

(** ** The writer *)

(** What the writer relies on: a file to which appends succeed. *)
Class ReliableFile (F : Type) `{!WritableFile F} := {
  contents : F -> Slice;
  append_reliable s f : ∃ f', Append s f = (None, f') ∧ contents f' = contents f ++ s;
  flush_reliable f : ∃ f', Flush f = (None, f') ∧ contents f' = contents f;
}.

(** The same of one file object, for as long as it is open. *)
Class OpenFile (F : Type) `{!WritableFile F} := {
  file_data : F -> Slice;
  writable : F -> Prop;
  append_open s f : writable f -> ∃ f', Append s f = (None, f') ∧ file_data f' = file_data f ++ s ∧ writable f';
  flush_open f : writable f -> ∃ f', Flush f = (None, f') ∧ file_data f' = file_data f ∧ writable f';
}.

#[export] Instance reliable_open {F} `{!WritableFile F} `{!ReliableFile F} : OpenFile F.
Proof.
  refine {| file_data := contents; writable _ := True |}.
  - intros s f _. destruct (append_reliable s f) as (f' & ? & ?). by exists f'.
  - intros f _. destruct (flush_reliable f) as (f' & ? & ?). by exists f'.
Defined.

Section WriterThms.

Context {F : Type} `{!WritableFile F} `{!OpenFile F} (addr : Slice -> Z).

(** The writer's offset is the position in the block, or a whole block. *)
Definition writer_at (w : Writer F) (p : Z) : Prop :=
  type_crc_ w = InitTypeCrc addr ∧ 0 <= p ∧
  (block_offset_ w = p mod kBlockSize ∨ (block_offset_ w = kBlockSize ∧ p mod kBlockSize = 0)) ∧ writable (dest_ w).

Lemma type_crc_value t :
  nth (Z.to_nat (record_type_value t)) (InitTypeCrc addr) 0 = crc32c 0 [record_type_value t].
Proof.
  assert (is_u32 0) by (unfold is_u32; lia).
  transitivity (Value (addr [record_type_value t]) [record_type_value t]); [by destruct t|].
  apply Extend_crc32c; [done|]. repeat constructor; destruct t; unfold is_u8; simpl; lia.
Qed.

Lemma emit_spec t d w p :
  writer_at w p -> block_offset_ w = p mod kBlockSize -> Forall is_u8 d -> size d < 65536 ->
  p mod kBlockSize + kHeaderSize + size d <= kBlockSize ->
  ∃ w', EmitPhysicalRecord addr t d w = (None, w') ∧
    file_data (dest_ w') = file_data (dest_ w) ++ phys (record_type_value t) d ∧
    writer_at w' (p + kHeaderSize + size d) ∧ block_offset_ w' = p mod kBlockSize + kHeaderSize + size d.
Proof.
  intros (Ht & Hp & _ & Hop) Ho Hd Hs Hfit. unfold EmitPhysicalRecord. rewrite Ht, type_crc_value.
  pose proof (size_nonneg d). assert (is_u32 0) by (unfold is_u32; lia).
  assert (Forall is_u8 [record_type_value t]) as Hty by (repeat constructor; unfold is_u8; destruct t; simpl; lia).
  rewrite Extend_crc32c, <- crc32c_app by auto using crc32c_u32.
  rewrite land_255, Z.shiftr_div_pow2 by lia. change (2 ^ 8) with 256.
  rewrite !u8_small by (destruct t; simpl; dlia). simpl app.
  match goal with |- context [Append ?x (dest_ w)] => set (h := x) end.
  destruct (append_open h (dest_ w) Hop) as (f1 & -> & E1 & Hop1).
  destruct (append_open d f1 Hop1) as (f2 & -> & E2 & Hop2).
  destruct (flush_open f2 Hop2) as (f3 & -> & E3 & Hop3).
  eexists. split; [done|]. cbn [dest_ block_offset_]. split_and!.
  - rewrite E3, E2, E1. unfold phys, h. by rewrite <- !app_assoc.
  - split_and!; cbn [type_crc_ block_offset_ dest_]; [done|unfold kHeaderSize; lia| |done]. rewrite Ho.
    pose proof (block_arith p Hp). unfold kBlockSize, kHeaderSize in *.
    destruct (decide (p mod 32768 + 7 + size d = 32768)); [right; split; [lia|dlia]|left; dlia].
  - rewrite Ho. lia.
Qed.

Lemma switch_spec w p :
  writer_at w p ->
  writer_at (switch_block w) (p + padding p) ∧
  block_offset_ (switch_block w) = (p + padding p) mod kBlockSize ∧
  file_data (dest_ (switch_block w)) = file_data (dest_ w) ++ replicate (Z.to_nat (padding p)) 0.
Proof.
  intros (Ht & Hp & Ho & Hop). pose proof (block_arith p Hp). unfold switch_block, padding.
  destruct Ho as [Ho|[Ho Hz]]; rewrite Ho.
  - case_if.
    + assert ((p + (kBlockSize - p mod kBlockSize)) mod kBlockSize = 0) as E
        by (unfold kBlockSize in *; dlia).
      destruct (Z.ltb_spec 0 (kBlockSize - p mod kBlockSize)); [|lia].
      destruct (append_open (replicate (Z.to_nat (kBlockSize - p mod kBlockSize)) 0) (dest_ w) Hop)
        as (f & -> & Ef & Hop'). rewrite E. unfold writer_at. cbn. rewrite E. split_and!; auto; lia.
    + rewrite Z.add_0_r. simpl. rewrite app_nil_r. unfold writer_at. auto 6.
  - rewrite Z.sub_diag, Hz. simpl. rewrite Z.add_0_r, app_nil_r, Hz. unfold writer_at. cbn. auto 7.
Qed.

Lemma add_loop_spec n ptr begin_ w p :
  writer_at w p -> Forall is_u8 ptr ->
  (length ptr + (if (block_offset_ w =? kBlockSize - kHeaderSize)%Z then 1 else 0) < n)%nat ->
  ∃ w' prs, add_record_loop addr n ptr begin_ w = Some (None, w') ∧ pieces begin_ ptr prs ∧
    in_blocks p prs ∧ file_data (dest_ w') = file_data (dest_ w) ++ layout p prs ∧
    writer_at w' (layout_end p prs).
Proof.
  revert ptr begin_ w p; induction n as [|n IH]; intros ptr begin_ w p Hw Hu Hn; [lia|].
  cbn [add_record_loop]. destruct (switch_spec w p Hw) as (Hw1 & Ho1 & Ec1).
  assert (block_offset_ w ≠ kBlockSize - kHeaderSize -> block_offset_ (switch_block w) ≠ kBlockSize - kHeaderSize) as Hsw.
  { intros Hne. unfold switch_block. case_if; cbn; [by vm_compute|done]. }
  set (w1 := switch_block w) in *. set (p1 := p + padding p) in *.
  pose proof Hw as (_ & Hp & _). pose proof (padding_range p Hp) as Hpr. pose proof (padding_start p Hp) as Hps.
  rewrite Ho1. set (avail := kBlockSize - p1 mod kBlockSize - kHeaderSize).
  pose proof (block_arith p1 ltac:(lia)) as Hp1. pose proof (size_nonneg ptr) as Hsz.
  assert (0 <= avail <= 32761) as Hav by (unfold avail, p1, kBlockSize, kHeaderSize in *; lia).
  set (k := if size ptr <? avail then size ptr else avail).
  assert (0 <= k <= avail ∧ k <= size ptr) as Hk by (unfold k; destruct (Z.ltb_spec (size ptr) avail); lia).
  assert (size (take (Z.to_nat k) ptr) = k) as Hst by (unfold size in *; rewrite length_take; lia).
  destruct (emit_spec (fragment_type begin_ (size ptr =? k)) (take (Z.to_nat k) ptr) w1 p1 Hw1 Ho1)
    as (w2 & -> & Ec2 & Hw2 & Ho2); [auto with coding|lia|unfold avail in *; lia|].
  rewrite Hst in *. unfold p1 in Hw2.
  destruct (Z.eqb_spec (size ptr) k) as [Ek|Ek].
  - assert (take (Z.to_nat k) ptr = ptr) as Et by (apply take_ge; unfold size in *; lia).
    assert (drop (Z.to_nat k) ptr = []) as Ed by (apply drop_ge; unfold size in *; lia).
    rewrite Ed, Et in *. change (ok None && (0 <? size [])) with false. cbn iota.
    exists w2, [(if begin_ then 1 else 4, ptr)]. split_and!; [done| | | |].
    + unfold pieces. destruct begin_; constructor.
    + cbn [in_blocks]. rewrite Ek. fold p1. split_and!; [unfold avail in *; lia|done|destruct begin_; lia..|done].
    + cbn [layout]. rewrite Ec2, Ec1, app_nil_r, <- app_assoc. destruct begin_; done.
    + cbn [layout_end]. by rewrite Ek.
  - assert (k = avail) as Eka by (unfold k in *; destruct (Z.ltb_spec (size ptr) avail); lia).
    assert (0 < size (drop (Z.to_nat k) ptr)) as Hd by (unfold size in *; rewrite length_drop; lia).
    destruct (Z.ltb_spec 0 (size (drop (Z.to_nat k) ptr))); [|lia]. cbn [ok andb].
    destruct (IH (drop (Z.to_nat k) ptr) false w2 _ Hw2) as (w' & prs & -> & Hpc & Hib & Ec & Hw').
    + auto with coding.
    + rewrite Ho2, Eka. unfold avail.
      replace (p1 mod kBlockSize + kHeaderSize + (kBlockSize - p1 mod kBlockSize - kHeaderSize))
        with kBlockSize by lia.
      change (kBlockSize =? kBlockSize - kHeaderSize) with false. cbn iota. rewrite length_drop.
      destruct (Z.eqb_spec (block_offset_ w) (kBlockSize - kHeaderSize)); [lia|].
      specialize (Hsw ltac:(done)). rewrite Ho1 in Hsw.
      assert (1 <= avail) by (unfold avail in *; lia). unfold size in *. lia.
    + exists w', ((if begin_ then 2 else 3, take (Z.to_nat k) ptr) :: prs). split_and!; [done| | | |].
      * rewrite <- (take_drop (Z.to_nat k) ptr) at 1. destruct begin_; by constructor.
      * cbn [in_blocks]. rewrite Hst. fold p1.
        split_and!; [unfold avail in *; lia|auto with coding|destruct begin_; lia..|done].
      * cbn [layout]. rewrite Ec, Ec2, Ec1, Hst, <- !app_assoc. do 2 f_equal. by destruct begin_.
      * cbn [layout_end]. by rewrite Hst.
Qed.

Lemma AddRecord_spec rec w p :
  writer_at w p -> Forall is_u8 rec ->
  ∃ w' prs, AddRecord addr rec w = Some (None, w') ∧ fragments rec prs ∧ in_blocks p prs ∧
    file_data (dest_ w') = file_data (dest_ w) ++ layout p prs ∧ writer_at w' (layout_end p prs).
Proof.
  intros Hw Hr. apply (add_loop_spec (S (S (length rec))) rec true w p Hw Hr).
  destruct (block_offset_ w =? _); lia.
Qed.

End WriterThms.

(** On any file, a record is written or fails in the rounds given. *)
Lemma add_loop_total {F} `{!WritableFile F} addr n ptr begin_ (w : Writer F) : 0 <= block_offset_ w <= kBlockSize ->
  (length ptr + (if (block_offset_ w =? kBlockSize - kHeaderSize)%Z then 1 else 0) < n)%nat ->
  ∃ s w', add_record_loop addr n ptr begin_ w = Some (s, w') ∧ 0 <= block_offset_ w' <= kBlockSize.
Proof.
  revert ptr begin_ w; induction n as [|n IH]; intros ptr begin_ w Ho Hn; [lia|]. cbn [add_record_loop].
  assert (0 <= block_offset_ (switch_block w) <= kBlockSize - kHeaderSize ∧
    (block_offset_ w ≠ kBlockSize - kHeaderSize -> block_offset_ (switch_block w) ≠ kBlockSize - kHeaderSize)) as [Ho1 Hsw].
  { unfold switch_block. destruct (Z.ltb_spec (kBlockSize - block_offset_ w) kHeaderSize); cbn [block_offset_]; unfold kBlockSize, kHeaderSize in *; lia. }
  set (w1 := switch_block w) in *. set (avail := kBlockSize - block_offset_ w1 - kHeaderSize). pose proof (size_nonneg ptr) as Hsz.
  set (k := if size ptr <? avail then size ptr else avail).
  assert (0 <= k <= avail ∧ k <= size ptr) as Hk by (unfold k; destruct (Z.ltb_spec (size ptr) avail); lia).
  assert (size (take (Z.to_nat k) ptr) = k) as Hst by (unfold size in *; rewrite length_take; lia).
  destruct (EmitPhysicalRecord _ _ _ w1) as [s w2] eqn:E2.
  assert (block_offset_ w2 = block_offset_ w1 + (kHeaderSize + k)) as Ho2.
  { unfold EmitPhysicalRecord in E2. rewrite Hst in E2. destruct (match Append _ _ with (None, _) => _ | r => r end) as [s' f]. by injection E2 as <- <-. }
  destruct (ok s && (0 <? size (drop (Z.to_nat k) ptr))) eqn:Hm; [|exists s, w2; split; [done|unfold avail, kHeaderSize in *; lia]].
  apply andb_true_iff in Hm as [_ Hm%Z.ltb_lt]. unfold size in Hm. rewrite length_drop in Hm.
  assert (k = avail) as Eka by (unfold k in *; destruct (Z.ltb_spec (size ptr) avail); unfold size in *; lia).
  apply IH; [unfold avail, kHeaderSize in *; lia|]. rewrite length_drop.
  destruct (Z.eqb_spec (block_offset_ w2) (kBlockSize - kHeaderSize)) as [E|_]; [unfold avail, kHeaderSize in *; lia|].
  destruct (Z.eqb_spec (block_offset_ w) (kBlockSize - kHeaderSize)); [lia|]. specialize (Hsw ltac:(done)). unfold avail in *. lia.
Qed.

Lemma AddRecord_total {F} `{!WritableFile F} addr rec (w : Writer F) : 0 <= block_offset_ w <= kBlockSize ->
  ∃ s w', AddRecord addr rec w = Some (s, w') ∧ 0 <= block_offset_ w' <= kBlockSize.
Proof. intros Ho. apply add_loop_total; [done|]. destruct (_ =? _); lia. Qed.

(** * leveldb: reading a log, whole or cut off

    The reader on a file that holds a prefix of a layout: physical records
    one by one, then logical records, then the whole log.  The theorem at the
    end composes it with the writer. *)

(** What the reader relies on: a read returns fewer bytes than asked for only
    at the end of the file. *)
Class FullReads (F : Type) `{!SequentialFile F} := {
  remaining : F -> Slice;
  read_full n f : 0 <= n ->
    ∃ f', Read n f = (None, take (Z.to_nat n) (remaining f), f') ∧
      remaining f' = drop (Z.to_nat n) (remaining f);
}.

(** The same of one file object, for as long as it is open. *)
Class OpenReads (F : Type) `{!SequentialFile F} := {
  unread : F -> Slice;
  readable : F -> Prop;
  read_open n f : 0 <= n -> readable f ->
    ∃ f', Read n f = (None, take (Z.to_nat n) (unread f), f') ∧ unread f' = drop (Z.to_nat n) (unread f) ∧ readable f';
}.

#[export] Instance full_open {F} `{!SequentialFile F} `{!FullReads F} : OpenReads F.
Proof.
  refine {| unread := remaining; readable _ := True |}. intros n f Hn _. destruct (read_full n f Hn) as (f' & ? & ?). by exists f'.
Defined.

Section ReaderThms.

Context {F : Type} `{!SequentialFile F} `{!OpenReads F} (addr : Slice -> Z).

(** The reader is at position [p] of the file and [D] follows. *)
Record reader_at (r : Reader F) (p : Z) (D : Slice) : Prop := {
  at_initial : initial_offset_ r = 0;
  at_resync : resyncing_ r = false;
  at_last : 0 <= last_record_offset_ r;
  at_pos : 0 <= p;
  at_data : buffer_ r ++ unread (file_ r) = D;
  at_block : size (buffer_ r) + p mod kBlockSize <= kBlockSize;
  at_eof : eof_ r = true -> unread (file_ r) = [];
  at_more : eof_ r = false -> (p + size (buffer_ r)) mod kBlockSize = 0;
  at_bytes : Forall is_u8 D;
  at_open : readable (file_ r);
}.

(** The reader has seen the end of the file. *)
Definition ended (r : Reader F) : Prop :=
  initial_offset_ r = 0 ∧ resyncing_ r = false ∧ 0 <= last_record_offset_ r ∧ buffer_ r = [] ∧ eof_ r = true ∧ readable (file_ r).

Lemma ended_read res r : ended r -> ReadPhysicalRecord addr res r = (kEof, res, set_buffer [] r).
Proof. intros (_ & _ & _ & Hb & He & _). unfold ReadPhysicalRecord. cbn [read_physical_loop]. by rewrite Hb, He. Qed.

Lemma ended_clear r p D : reader_at r p D -> eof_ r = true -> ended (set_buffer [] r).
Proof. intros [] He. by split_and!. Qed.

Lemma ended_set_buffer r : ended r -> ended (set_buffer [] r).
Proof. intros (? & ? & ? & ? & ? & ?). by split_and!. Qed.

(** ** Filling the buffer *)

(** Reading the next block, when the buffer holds only a trailer. *)
Lemma fill_spec r p D :
  reader_at r p D -> size (buffer_ r) < kHeaderSize -> eof_ r = false ->
  size (buffer_ r) = padding p ∧
  ∃ r', (∀ res n, read_physical_loop addr (S n) res r = read_physical_loop addr n res r') ∧
    reader_at r' (p + padding p) (drop (Z.to_nat (padding p)) D) ∧ reports_ r' = reports_ r ∧
    (size (buffer_ r') < kHeaderSize -> eof_ r' = true).
Proof.
  intros [Hi Hr Hl Hp Hd Hb He Hm Hu Hopen] Hs Heof. specialize (Hm Heof).
  pose proof (block_arith p Hp) as Hmod. pose proof (size_nonneg (buffer_ r)) as Hb0.
  assert (size (buffer_ r) = padding p) as Hpad.
  { unfold padding, kBlockSize, kHeaderSize in *. case_if; dlia. }
  split; [done|].
  destruct (read_open kBlockSize (file_ r) ltac:(by vm_compute) Hopen) as (f' & Hread & Hrem & Hopen').
  assert (Z.of_nat (Z.to_nat kBlockSize) = kBlockSize) as HnB by (apply Z2Nat.id; lia).
  revert HnB Hread Hrem. generalize (Z.to_nat kBlockSize) as nB. intros nB HnB Hread Hrem.
  remember (take nB (unread (file_ r))) as data eqn:Hdata.
  set (r1 := set_end_of_buffer (u64 (end_of_buffer_offset_ r + size data)) (set_buffer data (set_file f' (set_buffer [] r)))).
  exists (if size data <? kBlockSize then set_eof true r1 else r1).
  assert (data ++ unread f' = drop (Z.to_nat (padding p)) D) as Hd'.
  { rewrite <- Hd, drop_app_length' by (rewrite <- Hpad; unfold size; lia).
    rewrite Hdata, Hrem. apply take_drop. }
  assert ((p + padding p) mod kBlockSize = 0) as Hp0 by by rewrite <- Hpad.
  assert (size data <= kBlockSize) as Hds.
  { rewrite Hdata. unfold size. rewrite length_take. lia. }
  split_and!.
  - intros res n. cbn [read_physical_loop].
    destruct (Z.ltb_spec (size (buffer_ r)) kHeaderSize); [|lia]. rewrite Heof. cbn [negb].
    cbn [file_ set_buffer]. rewrite Hread. cbn [ok negb]. done.
  - assert (Forall is_u8 (drop (Z.to_nat (padding p)) D)) by by apply Forall_drop.
    destruct (Z.ltb_spec (size data) kBlockSize) as [Hlt|Hge];
      (split; cbn; rewrite ?Hp0; [done|done|done|lia|done|lia| | |done|done]).
    + intros _. rewrite Hrem. apply drop_ge. rewrite Hdata in Hlt. unfold size in Hlt. rewrite length_take in Hlt. lia.
    + done.
    + by rewrite Heof.
    + intros _. replace (size data) with kBlockSize by lia.
      rewrite <- Zplus_mod_idemp_r. by rewrite Z_mod_same_full, Z.add_0_r.
  - by destruct (size data <? kBlockSize).
  - destruct (Z.ltb_spec (size data) kBlockSize); cbn; [done|]. unfold kHeaderSize, kBlockSize in *. lia.
Qed.

(** ** One physical record *)

Lemma header_length d :
  size d < 65536 ->
  Z.lor (Z.land (size d mod 256) 255) (Z.shiftl (Z.land (size d / 256) 255) 8) = size d.
Proof.
  intros Hs. pose proof (size_nonneg d).
  rewrite !land_255, Z.mod_mod, (Z.mod_small (size d / 256)) by dlia.
  rewrite Z.shiftl_mul_pow2, lor_shift by dlia. dlia.
Qed.

(** Past a record the reader stands before what follows it. *)
Lemma reader_at_advance r p t d rest m :
  reader_at r p (take m (phys t d ++ rest)) -> kHeaderSize + size d <= size (buffer_ r) ->
  p mod kBlockSize + kHeaderSize + size d <= kBlockSize ->
  reader_at (set_buffer (remove_prefix (kHeaderSize + size d) (buffer_ r)) r)
    (p + kHeaderSize + size d) (take (m - Z.to_nat (kHeaderSize + size d)) rest).
Proof.
  intros [Hi Hr Hl Hp Hdat Hblk He Hm Hu Hopen] Hb Hfit. pose proof (size_nonneg d).
  pose proof (size_phys t d) as Hsp. pose proof (block_arith p Hp).
  assert (size (remove_prefix (kHeaderSize + size d) (buffer_ r)) = size (buffer_ r) - kHeaderSize - size d) as Esz.
  { unfold remove_prefix, size in *. rewrite length_drop. unfold kHeaderSize in *. lia. }
  assert (remove_prefix (kHeaderSize + size d) (buffer_ r) ++ unread (file_ r)
    = take (m - Z.to_nat (kHeaderSize + size d)) rest) as Edata.
  { unfold remove_prefix. rewrite <- drop_app_le by (unfold size in *; lia). rewrite Hdat.
    rewrite skipn_firstn_comm, drop_app_ge by (unfold size in *; lia).
    replace (Z.to_nat _ - length (phys t d))%nat with 0%nat by (unfold size in *; lia). by rewrite drop_0. }
  split; cbn; [done|done|done|unfold kHeaderSize; lia|done| |done| | |done].
  - rewrite Esz. unfold kBlockSize, kHeaderSize in *. dlia.
  - intros Heof. specialize (Hm Heof). rewrite Esz.
    by replace (p + kHeaderSize + size d + (size (buffer_ r) - kHeaderSize - size d)) with (p + size (buffer_ r)) by lia.
  - rewrite <- Edata. unfold remove_prefix. rewrite <- Hdat, Forall_app in Hu. destruct Hu.
    apply Forall_app. auto with coding.
Qed.

(** The buffer is a prefix of what follows. *)
Lemma buffer_prefix r p m X :
  reader_at r p (take m X) ->
  buffer_ r = take (length (buffer_ r)) X ∧ (length (buffer_ r) <= m)%nat.
Proof.
  intros [_ _ _ _ Hdat _ _ _ _ _].
  assert (length (buffer_ r) <= m)%nat as Hm.
  { apply (f_equal length) in Hdat. rewrite length_app, length_take in Hdat. lia. }
  split; [|done].
  assert (take (length (buffer_ r)) (take m X) = buffer_ r) as E by (rewrite <- Hdat; apply take_app_length).
  by rewrite take_take, Nat.min_l in E.
Qed.

(** A buffer with a header, as the checksum, the length, the type and what it
    holds of the payload. *)
Lemma buffer_header r p m t d rest :
  reader_at r p (take m (phys t d ++ rest)) -> kHeaderSize <= size (buffer_ r) ->
  buffer_ r = EncodeFixed32 (Mask (crc32c 0 (t :: d))) ++ [size d mod 256; size d / 256; t]
              ++ take (length (buffer_ r) - 7) (d ++ rest).
Proof.
  intros Hat Hb. destruct (buffer_prefix _ _ _ _ Hat) as [Hbuf _]. rewrite Hbuf at 1.
  unfold phys, size, kHeaderSize in *. rewrite <- !app_assoc.
  assert (length (EncodeFixed32 (Mask (crc32c 0 (t :: d)))) = 4%nat) as H4 by apply length_le_split.
  rewrite take_app_ge, H4 by lia. f_equal. rewrite take_app_ge by (simpl; lia). do 2 f_equal. simpl. lia.
Qed.

(** What is left of [parse_physical] once the header is known. *)
Lemma parse_header res (r : Reader F) t d tl :
  buffer_ r = EncodeFixed32 (Mask (crc32c 0 (t :: d))) ++ [size d mod 256; size d / 256; t] ++ tl ->
  Forall is_u8 d -> size d < 65536 -> 1 <= t <= 4 -> initial_offset_ r = 0 ->
  parse_physical addr res r =
    if size (buffer_ r) <? kHeaderSize + size d then
      if eof_ r then (kEof, res, set_buffer [] r)
      else (kBadRecord, res, ReportCorruption (size (buffer_ r)) (str "bad record length") (set_buffer [] r))
    else if checksum_ r && negb (Value (addr (t :: tl)) (take (Z.to_nat (1 + size d)) (t :: tl))
                                 =? crc32c 0 (t :: d))
    then (kBadRecord, res, ReportCorruption (size (buffer_ r)) (str "checksum mismatch") (set_buffer [] r))
    else (t, take (length d) tl, set_buffer (remove_prefix (kHeaderSize + size d) (buffer_ r)) r).
Proof.
  intros Hbuf Hd Hs Ht Hi. unfold parse_physical.
  assert (byte_of (buffer_ r) 4 = size d mod 256) as -> by by rewrite Hbuf.
  assert (byte_of (buffer_ r) 5 = size d / 256) as -> by by rewrite Hbuf.
  assert (byte_of (buffer_ r) 6 = t) as -> by by rewrite Hbuf.
  assert (drop 6 (buffer_ r) = t :: tl) as -> by by rewrite Hbuf.
  assert (drop (Z.to_nat kHeaderSize) (buffer_ r) = tl) as -> by by rewrite Hbuf.
  rewrite header_length by lia.
  assert (u32 (s8 t) = t) as -> by (unfold s8; rewrite swrap_small by (simpl; lia); apply u32_small; lia).
  change (record_type_value kZeroType) with 0. destruct (Z.eqb_spec t 0); [lia|]. cbn [andb].
  assert (is_u32 (crc32c 0 (t :: d))).
  { apply crc32c_u32; [unfold is_u32; lia|]. constructor; [unfold is_u8; lia|done]. }
  assert (DecodeFixed32 (buffer_ r) = Mask (crc32c 0 (t :: d))) as ->.
  { rewrite Hbuf. apply DecodeFixed32_encode, Mask_u32. }
  rewrite Unmask_Mask by done. cbn [end_of_buffer_offset_ buffer_ initial_offset_ set_buffer]. rewrite Hi.
  rewrite (proj2 (Z.ltb_ge (u64 _) 0)) by (unfold u64; apply Z.mod_pos_bound; lia).
  replace (Z.to_nat (size d)) with (length d) by (unfold size; lia). done.
Qed.

Lemma parse_spec res r p t d rest m :
  reader_at r p (take m (phys t d ++ rest)) -> kHeaderSize <= size (buffer_ r) ->
  p mod kBlockSize + kHeaderSize + size d <= kBlockSize -> Forall is_u8 d -> 1 <= t <= 4 ->
  if kHeaderSize + size d <=? Z.of_nat m then
    ∃ r', parse_physical addr res r = (t, d, r') ∧ reports_ r' = reports_ r ∧
      reader_at r' (p + kHeaderSize + size d) (take (m - Z.to_nat (kHeaderSize + size d)) rest)
  else parse_physical addr res r = (kEof, res, set_buffer [] r) ∧ eof_ r = true.
Proof.
  intros Hat Hb Hfit Hd Ht. pose proof (buffer_header _ _ _ _ _ _ Hat Hb) as Hbuf.
  destruct (buffer_prefix _ _ _ _ Hat) as [_ Hbm].
  pose proof Hat as [Hi Hr Hl Hp Hdat Hblk He Hm Hu Hopen].
  pose proof (size_nonneg d). pose proof (block_arith p Hp). pose proof (size_phys t d) as Hsp.
  rewrite (parse_header res r t d _ Hbuf) by (unfold kBlockSize, kHeaderSize in *; done || lia).
  destruct (Z.ltb_spec (size (buffer_ r)) (kHeaderSize + size d)) as [Hshort|Hfull].
  - assert (eof_ r = true) as Heof.
    { destruct (eof_ r) eqn:E; [done|]. specialize (Hm eq_refl). exfalso.
      unfold kBlockSize, kHeaderSize in *. dlia. }
    rewrite Heof. specialize (He Heof). rewrite He, app_nil_r in Hdat.
    destruct (Z.leb_spec (kHeaderSize + size d) (Z.of_nat m)); [|done]. exfalso.
    apply (f_equal size) in Hdat. unfold size in Hdat at 2. rewrite length_take, length_app in Hdat.
    unfold size in *. lia.
  - destruct (Z.leb_spec (kHeaderSize + size d) (Z.of_nat m)); [|unfold size in *; lia].
    set (b := length (buffer_ r)) in *.
    assert (take (b - 7) (d ++ rest) = d ++ take (b - 7 - length d) rest) as Ed.
    { apply take_app_ge. unfold b, size, kHeaderSize in *. lia. }
    rewrite Ed in *. rewrite app_comm_cons, (take_app_length' (t :: d)) by (unfold size; simpl; lia).
    unfold Value. rewrite Extend_crc32c, Z.eqb_refl, andb_false_r, take_app_length;
      [|unfold is_u32; lia|constructor; [unfold is_u8; lia|done]].
    eexists. split; [done|]. split; [done|]. by apply (reader_at_advance r p t d rest m).
Qed.

(** A cut-off trailer or an empty buffer at the end of the file. *)
Lemma short_tail r p X m :
  reader_at r p (take m X) -> size (buffer_ r) < kHeaderSize -> eof_ r = true -> kHeaderSize <= size X ->
  Z.of_nat m < kHeaderSize.
Proof.
  intros [_ _ _ _ Hdat _ He _ _] Hb Heof HX. rewrite (He Heof), app_nil_r in Hdat.
  apply (f_equal length) in Hdat. rewrite length_take in Hdat. unfold size in *. lia.
Qed.

Lemma ReadPhysicalRecord_spec res r p t d prs m :
  reader_at r p (take m (layout p ((t, d) :: prs))) -> in_blocks p ((t, d) :: prs) ->
  if padding p + kHeaderSize + size d <=? Z.of_nat m then
    ∃ r', ReadPhysicalRecord addr res r = (t, d, r') ∧ reports_ r' = reports_ r ∧
      reader_at r' (p + padding p + kHeaderSize + size d)
        (take (m - Z.to_nat (padding p + kHeaderSize + size d))
          (layout (p + padding p + kHeaderSize + size d) prs))
  else ∃ r', ReadPhysicalRecord addr res r = (kEof, res, r') ∧ reports_ r' = reports_ r ∧ ended r'.
Proof.
  cbn [layout in_blocks]. set (rest := layout _ prs). intros Hat (Hfit & Hd & Ht & _).
  pose proof Hat as [_ _ _ Hp _ Hblk _ _ _ _]. pose proof (size_nonneg d). pose proof (padding_range p Hp).
  pose proof (size_phys t d). unfold ReadPhysicalRecord.
  destruct (Z.ltb_spec (size (buffer_ r)) kHeaderSize) as [Hb|Hb].
  2: { assert (padding p = 0) as Hz.
    { unfold padding. destruct (Z.ltb_spec (kBlockSize - p mod kBlockSize) kHeaderSize); lia. }
    rewrite Hz in *. rewrite Z.add_0_r, Z.add_0_l in *. cbn [Z.to_nat replicate app] in Hat.
    pose proof (parse_spec res r p t d rest m Hat Hb Hfit Hd Ht) as Hparse.
    cbn [read_physical_loop]. destruct (Z.ltb_spec (size (buffer_ r)) kHeaderSize); [lia|].
    destruct (Z.leb_spec (kHeaderSize + size d) (Z.of_nat m)); [done|].
    destruct Hparse as [-> Heof]. eexists. split_and!; [done|done|]. by eapply ended_clear. }
  destruct (eof_ r) eqn:Heof.
  { assert (Z.of_nat m < kHeaderSize) as Hm.
    { eapply short_tail; [exact Hat|done..|]. rewrite !size_app, size_replicate.
      pose proof (size_nonneg rest). lia. }
    destruct (Z.leb_spec (padding p + kHeaderSize + size d) (Z.of_nat m)); [lia|].
    exists (set_buffer [] r). cbn [read_physical_loop].
    destruct (Z.ltb_spec (size (buffer_ r)) kHeaderSize); [|lia]. rewrite Heof.
    split_and!; [done|done|]. by eapply ended_clear. }
  destruct (fill_spec _ _ _ Hat Hb Heof) as (_ & r1 & Hloop & Hat1 & Hrep & Hshort).
  rewrite Hloop, <- Hrep.
  rewrite skipn_firstn_comm, drop_app_length' in Hat1 by by rewrite length_replicate.
  destruct (Z.ltb_spec (size (buffer_ r1)) kHeaderSize) as [Hb1|Hb1].
  { assert (Z.of_nat (m - Z.to_nat (padding p)) < kHeaderSize) as Hm.
    { eapply short_tail; [exact Hat1|done|by apply Hshort|]. rewrite size_app.
      pose proof (size_nonneg rest). lia. }
    destruct (Z.leb_spec (padding p + kHeaderSize + size d) (Z.of_nat m)); [lia|].
    exists (set_buffer [] r1). cbn [read_physical_loop].
    destruct (Z.ltb_spec (size (buffer_ r1)) kHeaderSize); [|lia]. rewrite (Hshort Hb1).
    split_and!; [done|done|]. eapply ended_clear; [done|by apply Hshort]. }
  pose proof (parse_spec res r1 _ t d rest _ Hat1 Hb1 Hfit Hd Ht) as Hparse.
  cbn [read_physical_loop]. destruct (Z.ltb_spec (size (buffer_ r1)) kHeaderSize); [lia|].
  destruct (Z.leb_spec (kHeaderSize + size d) (Z.of_nat (m - Z.to_nat (padding p)))),
    (Z.leb_spec (padding p + kHeaderSize + size d) (Z.of_nat m)); try (unfold kHeaderSize in *; lia).
  - destruct Hparse as (r' & -> & Hrep' & Hat'). exists r'. split_and!; [done|done|].
    by replace (m - Z.to_nat (padding p + kHeaderSize + size d))%nat
      with (m - Z.to_nat (padding p) - Z.to_nat (kHeaderSize + size d))%nat by (unfold kHeaderSize; lia).
  - destruct Hparse as [-> Heof1]. eexists. split_and!; [done|done|]. by eapply ended_clear.
Qed.

Lemma ReadPhysicalRecord_end res r p :
  reader_at r p [] ->
  ∃ r', ReadPhysicalRecord addr res r = (kEof, res, r') ∧ reports_ r' = reports_ r ∧ ended r'.
Proof.
  intros Hat. pose proof Hat as [_ _ _ _ Hdat _ _ _ _ _]. apply app_nil in Hdat as [Hb _].
  assert (size (buffer_ r) < kHeaderSize) as Hs by by rewrite Hb.
  unfold ReadPhysicalRecord. destruct (eof_ r) eqn:Heof.
  { exists (set_buffer [] r). cbn [read_physical_loop]. rewrite Hb, Heof.
    split_and!; [done|done|]. by eapply ended_clear. }
  destruct (fill_spec _ _ _ Hat Hs Heof) as (_ & r1 & Hloop & Hat1 & Hrep & Hshort).
  pose proof Hat1 as [_ _ _ _ Hdat1 _ _ _ _ _]. rewrite drop_nil in Hdat1.
  apply app_nil in Hdat1 as [Hb1 _]. assert (eof_ r1 = true) as He1 by (apply Hshort; by rewrite Hb1).
  exists (set_buffer [] r1). rewrite Hloop, <- Hrep. cbn [read_physical_loop]. rewrite Hb1, He1.
  split_and!; [done|done|]. by eapply ended_clear.
Qed.

(** ** Logical records *)

Lemma set_resyncing_at r p D : reader_at r p D -> set_resyncing false r = r.
Proof. intros [_ Hr _ _ _ _ _ _ _ _]. destruct r. simpl in *. by subst. Qed.

Lemma set_resyncing_ended r : ended r -> set_resyncing false r = r.
Proof. intros (_ & Hr & _). destruct r. simpl in *. by subst. Qed.

Lemma set_last_record_at r p D o : 0 <= o -> reader_at r p D -> reader_at (set_last_record o r) p D.
Proof. intros Ho []. by split. Qed.

(** One round of [ReadRecord] on a record that is complete. *)
Lemma loop_round n l r t d r' p D :
  ReadPhysicalRecord addr (fragment l) r = (t, d, r') -> reader_at r' p D ->
  read_record_loop addr (S n) l r =
  match read_record_step t (u64 (end_of_buffer_offset_ r' - size (buffer_ r') - kHeaderSize - size d))
    (Locals (in_fragmented_record l) (prospective_record_offset l) (scratch l) d) r' with
  | (inl (res, rec), r) => Some (res, rec, r)
  | (inr l, r) => read_record_loop addr n l r
  end.
Proof.
  intros Hread Hat. cbn [read_record_loop]. rewrite Hread. pose proof Hat as [_ Hr _ _ _ _ _ _ _ _].
  rewrite Hr. cbn [andb]. by erewrite set_resyncing_at.
Qed.

(** The end of the file ends the loop, whatever was being assembled. *)
Lemma loop_eof n l r r' :
  ReadPhysicalRecord addr (fragment l) r = (kEof, fragment l, r') -> ended r' ->
  read_record_loop addr (S n) l r = Some (false, [], r').
Proof.
  intros Hread He. cbn [read_record_loop]. rewrite Hread. pose proof He as (_ & Hr & _).
  rewrite Hr. cbn [andb]. by rewrite set_resyncing_ended.
Qed.

(** Result of reading one logical record whose fragments are [prs]. *)
Definition record_result (n : nat) (l : locals) (r : Reader F) (rec : Slice) (p : Z)
    (prs prs' : list (Z * Slice)) (m : nat) : Prop :=
  if layout_end p prs - p <=? Z.of_nat m then
    ∃ r', read_record_loop addr n l r = Some (true, rec, r') ∧ reports_ r' = reports_ r ∧
      reader_at r' (layout_end p prs)
        (take (m - Z.to_nat (layout_end p prs - p)) (layout (layout_end p prs) prs'))
  else ∃ r', read_record_loop addr n l r = Some (false, [], r') ∧ reports_ r' = reports_ r ∧ ended r'.

(** Reading one physical record reduces to reading the rest. *)
Lemma record_result_step n l r rec p t d prs prs' m :
  reader_at r p (take m (layout p ((t, d) :: prs ++ prs'))) -> in_blocks p ((t, d) :: prs ++ prs') ->
  (∀ r' o, 0 <= o -> reader_at r' (p + padding p + kHeaderSize + size d)
      (take (m - Z.to_nat (padding p + kHeaderSize + size d))
        (layout (p + padding p + kHeaderSize + size d) (prs ++ prs'))) ->
    ∃ r2, reports_ r2 = reports_ r' ∧
      match prs with
      | [] => read_record_step t o
                (Locals (in_fragmented_record l) (prospective_record_offset l) (scratch l) d) r'
              = (inl (true, rec), r2) ∧
              reader_at r2 (p + padding p + kHeaderSize + size d)
                (take (m - Z.to_nat (padding p + kHeaderSize + size d))
                  (layout (p + padding p + kHeaderSize + size d) prs'))
      | _ => ∃ l2, read_record_step t o
                (Locals (in_fragmented_record l) (prospective_record_offset l) (scratch l) d) r'
              = (inr l2, r2) ∧
              record_result n l2 r2 rec (p + padding p + kHeaderSize + size d) prs prs'
                (m - Z.to_nat (padding p + kHeaderSize + size d))
      end) ->
  record_result (S n) l r rec p ((t, d) :: prs) prs' m.
Proof.
  intros Hat Hib Hk. pose proof Hat as [_ _ _ Hp _ _ _ _ _ _]. pose proof (padding_range p Hp) as Hpr.
  pose proof (ReadPhysicalRecord_spec (fragment l) r p t d (prs ++ prs') m Hat Hib) as Hread.
  unfold record_result. cbn [layout_end]. set (p2 := p + padding p + kHeaderSize + size d) in *.
  assert (p2 - p = padding p + kHeaderSize + size d) as Ep by (unfold p2; lia).
  pose proof (size_nonneg d) as Hd. assert (0 <= p2) as Hp2 by (unfold p2, kHeaderSize; lia).
  pose proof (layout_end_ge p2 prs Hp2) as Hge.
  destruct (Z.leb_spec (padding p + kHeaderSize + size d) (Z.of_nat m)) as [Hle|Hgt]; cycle 1.
  { destruct Hread as (r' & Hread & Hrep & He).
    destruct (Z.leb_spec (layout_end p2 prs - p) (Z.of_nat m)); [lia|].
    exists r'. split_and!; [|done|done]. by eapply loop_eof. }
  destruct Hread as (r' & Hread & Hrep & Hat').
  erewrite loop_round by done.
  edestruct (Hk r' (u64 (end_of_buffer_offset_ r' - size (buffer_ r') - kHeaderSize - size d)))
    as (r2 & Hrep2 & Hstep); [apply Z.mod_pos_bound; lia|done|].
  destruct prs as [|pr prs].
  - destruct Hstep as [-> Hat2]. cbn [layout_end].
    destruct (Z.leb_spec (p2 - p) (Z.of_nat m)); [|lia]. exists r2.
    rewrite Ep. split_and!; [done|congruence|done].
  - destruct Hstep as (l2 & -> & Hres). unfold record_result in Hres.
    replace (Z.of_nat (m - Z.to_nat (padding p + kHeaderSize + size d)))
      with (Z.of_nat m - (p2 - p)) in Hres by (unfold kHeaderSize in *; lia).
    destruct (Z.leb_spec (layout_end p2 (pr :: prs) - p2) (Z.of_nat m - (p2 - p))),
      (Z.leb_spec (layout_end p2 (pr :: prs) - p) (Z.of_nat m)); try lia;
      destruct Hres as (r3 & -> & Hrep3 & Hat3); exists r3; (split_and!; [done|congruence|]); [|done].
    by replace (m - Z.to_nat (layout_end p2 (pr :: prs) - p))%nat
      with (m - Z.to_nat (padding p + kHeaderSize + size d) - Z.to_nat (layout_end p2 (pr :: prs) - p2))%nat
      by (unfold kHeaderSize in *; lia).
Qed.

Lemma rest_of_result rest prs prs' n l r p m :
  rest_of rest prs -> (length prs <= n)%nat ->
  reader_at r p (take m (layout p (prs ++ prs'))) -> in_blocks p (prs ++ prs') ->
  in_fragmented_record l = true -> 0 <= prospective_record_offset l ->
  record_result n l r (scratch l ++ rest) p prs prs' m.
Proof.
  intros Hr. revert n l r p m; induction Hr as [d|d rest prs Hr IH]; intros n l r p m Hn Hat Hib Hf Ho;
    (destruct n as [|n]; [simpl in Hn; lia|]); apply record_result_step; try done.
  - intros r' o Hoo Hat'. eexists. split; [|split; [|by apply set_last_record_at; [exact Ho|exact Hat']]]; [done|].
    unfold read_record_step. cbn. by rewrite Hf.
  - intros r' o Hoo Hat'. exists r'. split; [done|].
    destruct prs as [|pr prs]; [inversion Hr|]. eexists. split.
    + unfold read_record_step. cbn. by rewrite Hf.
    + rewrite app_assoc. apply (IH n (Locals true (prospective_record_offset l) (scratch l ++ d) d));
        [simpl in *; lia|done| |done|done]. apply Hib.
Qed.

Lemma fragments_result rec prs prs' n r p m :
  fragments rec prs -> (length prs <= n)%nat ->
  reader_at r p (take m (layout p (prs ++ prs'))) -> in_blocks p (prs ++ prs') ->
  record_result n (Locals false 0 [] []) r rec p prs prs' m.
Proof.
  intros Hr Hn Hat Hib. destruct n as [|n]; [destruct Hr; simpl in Hn; lia|].
  destruct Hr as [d|d rest prs Hr]; apply record_result_step; try done.
  - intros r' o Hoo Hat'. eexists. split; [|split; [|by apply set_last_record_at; [exact Hoo|exact Hat']]]; done.
  - intros r' o Hoo Hat'. exists r'. split; [done|].
    destruct prs as [|pr prs]; [inversion Hr|]. exists (Locals true o d d). split; [done|].
    apply (rest_of_result rest (pr :: prs) prs' n (Locals true o d d)); [done|simpl in *; lia|done| |done|done]. apply Hib.
Qed.

(** ** A whole log *)

(** The loop of the log's users: records until [ReadRecord] returns false. *)
Fixpoint read_all (k n : nat) (r : Reader F) : option (list Slice * Reader F) :=
  match k with
  | O => None
  | S k =>
      match ReadRecord addr n r with
      | Some (true, rec, r) =>
          match read_all k n r with
          | Some (recs, r) => Some (rec :: recs, r)
          | None => None
          end
      | Some (false, _, r) => Some ([], r)
      | None => None
      end
  end.

Lemma ReadRecord_loop n r :
  initial_offset_ r = 0 -> 0 <= last_record_offset_ r ->
  ReadRecord addr n r = read_record_loop addr n (Locals false 0 [] []) r.
Proof. intros Hi Hl. unfold ReadRecord. rewrite Hi. destruct (Z.ltb_spec (last_record_offset_ r) 0); [lia|done]. Qed.

Lemma read_all_spec recs prss k n r p m :
  Forall2 fragments recs prss -> (length recs < k)%nat -> (length (concat prss) < n)%nat ->
  reader_at r p (take m (layout p (concat prss))) -> in_blocks p (concat prss) ->
  ∃ j r', read_all k n r = Some (take j recs, r') ∧ reports_ r' = reports_ r ∧ (j <= length recs)%nat ∧
    layout_end p (concat (take j prss)) - p <= Z.of_nat m ∧
    ((j < length recs)%nat -> Z.of_nat m < layout_end p (concat (take (S j) prss)) - p).
Proof.
  intros Hf. revert k r p m; induction Hf as [|rec prs recs prss Hr Hf IH]; intros k r p m Hk Hn Hat Hib;
    (destruct k as [|k]; [simpl in Hk; lia|]); cbn [read_all];
    pose proof Hat as [Hi _ Hl Hp _ _ _ _ _ _]; rewrite ReadRecord_loop by done.
  - cbn [concat layout] in Hat. rewrite take_nil in Hat. destruct (ReadPhysicalRecord_end [] r p Hat) as (r' & Hread & Hrep & He).
    destruct n as [|n]; [simpl in Hn; lia|]. erewrite (loop_eof n (Locals false 0 [] [])) by done.
    exists 0%nat, r'. split_and!; [done|done|simpl; lia|simpl; lia|simpl; lia].
  - cbn [concat] in *. rewrite length_app in Hn.
    pose proof (fragments_result rec prs (concat prss) n r p m Hr ltac:(lia) Hat Hib) as Hres.
    unfold record_result in Hres. pose proof (layout_end_ge p prs Hp) as Hge.
    destruct (Z.leb_spec (layout_end p prs - p) (Z.of_nat m)) as [Hle|Hgt].
    + destruct Hres as (r' & -> & Hrep & Hat'). apply in_blocks_app in Hib as [_ Hib].
      edestruct (IH k r' _ _ ltac:(simpl in Hk; lia) ltac:(lia) Hat' Hib)
        as (j & r2 & -> & Hrep2 & Hj & Hle2 & Hgt2).
      exists (S j), r2. split_and!; [done|congruence|simpl; lia| |].
      * cbn [take concat]. rewrite layout_end_app. lia.
      * intros Hlt. simpl in Hlt. specialize (Hgt2 ltac:(lia)).
        change (take (S (S j)) (prs :: prss)) with (prs :: take (S j) prss). cbn [concat].
        rewrite layout_end_app. lia.
    + destruct Hres as (r' & -> & Hrep & He). exists 0%nat, r'.
      split_and!; [done|done|lia|simpl; lia|]. intros _. cbn [take concat]. by rewrite app_nil_r.
Qed.

End ReaderThms.

(** ** Writing and reading back *)

Section WriteAll.

Context {F : Type} `{!WritableFile F} (addr : Slice -> Z).

(** Records one after the other, as long as the status is good. *)
Fixpoint write_all (recs : list Slice) (w : Writer F) : option (Status * Writer F) :=
  match recs with
  | [] => Some (None, w)
  | rec :: recs =>
      match AddRecord addr rec w with
      | Some (None, w) => write_all recs w
      | r => r
      end
  end.

(** The file after the first [j] records. *)
Definition file_after (f : F) (recs : list Slice) (j : nat) : F :=
  match write_all (take j recs) (Writer_new addr f) with
  | Some (_, w) => dest_ w
  | None => f
  end.

Context `{!OpenFile F}.

Lemma write_all_spec recs w p :
  writer_at addr w p -> Forall (Forall is_u8) recs ->
  ∃ prss, Forall2 fragments recs prss ∧ in_blocks p (concat prss) ∧
    ∀ j, ∃ w', write_all (take j recs) w = Some (None, w') ∧
      file_data (dest_ w') = file_data (dest_ w) ++ layout p (concat (take j prss)).
Proof.
  intros Hw Hr. revert w p Hw; induction Hr as [|rec recs Hrec Hr IH]; intros w p Hw.
  { exists []. split_and!; [constructor|done|]. intros j. exists w. rewrite !take_nil. simpl.
    by rewrite app_nil_r. }
  destruct (AddRecord_spec addr rec w p Hw Hrec) as (w1 & prs & Hadd & Hfr & Hib & Hc & Hw1).
  destruct (IH w1 _ Hw1) as (prss & Hf & Hibs & Hj). exists (prs :: prss).
  split_and!; [by constructor| |].
  - cbn [concat]. apply in_blocks_app. by split.
  - intros [|j]; [exists w; simpl; by rewrite app_nil_r|].
    destruct (Hj j) as (w' & Hwa & Hcj). exists w'. cbn [take write_all concat]. rewrite Hadd.
    split; [done|]. by rewrite Hcj, Hc, layout_app, app_assoc.
Qed.

End WriteAll.

Lemma phys_bytes t d : 0 <= t < 256 -> Forall is_u8 d -> size d < 65536 -> Forall is_u8 (phys t d).
Proof.
  intros Ht Hd Hs. pose proof (size_nonneg d). unfold phys. apply Forall_app. split; [apply le_split_bytes|].
  apply Forall_app. split; [|done]. repeat constructor; unfold is_u8; dlia.
Qed.

Lemma layout_bytes p prs : 0 <= p -> in_blocks p prs -> Forall is_u8 (layout p prs).
Proof.
  revert p; induction prs as [|[t d] prs IH]; intros p Hp Hib; cbn [layout in_blocks] in *; [done|].
  destruct Hib as (Hfit & Hd & Ht & Hib). pose proof (padding_range p Hp) as Hpr. pose proof (size_nonneg d).
  pose proof (block_arith (p + padding p) ltac:(lia)). rewrite !Forall_app. split_and!.
  - apply Forall_replicate. unfold is_u8. lia.
  - apply phys_bytes; [lia|done|]. unfold kBlockSize, kHeaderSize in *. lia.
  - apply IH; [unfold kHeaderSize; lia|done].
Qed.

Lemma length_layout_ge p prs : 0 <= p -> (length prs <= length (layout p prs))%nat.
Proof.
  revert p; induction prs as [|[t d] prs IH]; intros p Hp; cbn [layout]; [done|].
  pose proof (padding_range p Hp) as Hpr. pose proof (size_phys t d) as Hs. pose proof (size_nonneg d).
  specialize (IH (p + padding p + kHeaderSize + size d) ltac:(unfold kHeaderSize; lia)).
  rewrite !length_app. unfold size, kHeaderSize in *. simpl. lia.
Qed.

Lemma length_fragments recs prss :
  Forall2 fragments recs prss -> (length recs <= length (concat prss))%nat.
Proof.
  induction 1 as [|rec prs recs prss Hr _ IH]; simpl; [done|]. rewrite length_app.
  destruct Hr; simpl; lia.
Qed.

(** C3. Write-ahead log recovery: after any sequence of records is written to
    an empty log, and the log is cut off at any length [n] (a crash, or
    nothing when [n] is large), the reader with the end-of-file protocol
    returns exactly the records that were completely written, in order, and
    reports no corruption, whatever the alignment of the buffers and with or
    without checksums. *)
Theorem log_recovery {F1 F2 : Type} `{!WritableFile F1} `{!ReliableFile F1}
    `{!SequentialFile F2} `{!FullReads F2} (addr1 addr2 : Slice -> Z)
    (recs : list Slice) (f : F1) (n : nat) (rf : F2) (reporter checksum : bool) (fuel : nat) :
  contents f = [] -> Forall (Forall is_u8) recs ->
  let file j := contents (file_after addr1 f recs j) in
  remaining rf = take n (file (length recs)) -> (S (length (file (length recs))) < fuel)%nat ->
  ∃ j r', read_all addr2 fuel fuel (Reader_new rf reporter checksum 0) = Some (take j recs, r') ∧
    reports_ r' = [] ∧ (j <= length recs)%nat ∧ (length (file j) <= n)%nat ∧
    ((j < length recs)%nat -> (n < length (file (S j)))%nat).
Proof.
  intros Hf Hr file Hrem Hfuel.
  destruct (write_all_spec addr1 recs (Writer_new addr1 f) 0) as (prss & Hfr & Hib & Hw); [|done|].
  { split_and!; [done|lia|by left|done]. }
  assert (∀ j, file j = layout 0 (concat (take j prss))) as Hfile.
  { intros j. unfold file, file_after. destruct (Hw j) as (w' & -> & Ec). change (contents (dest_ w')) with (file_data (dest_ w')). rewrite Ec.
    change (file_data (dest_ (Writer_new addr1 f))) with (contents f). cbn [dest_ Writer_new]. by rewrite Hf. }
  assert (take (length recs) prss = prss) as Etake by (apply take_ge; by rewrite (Forall2_length Hfr)).
  rewrite Hfile, Etake in Hrem, Hfuel.
  pose proof (length_layout_ge 0 (concat prss) ltac:(lia)). pose proof (length_fragments _ _ Hfr).
  destruct (read_all_spec addr2 recs prss fuel fuel (Reader_new rf reporter checksum 0) 0 n)
    as (j & r' & Hread & Hrep & Hj & Hle & Hgt); [done|lia|lia| |done|].
  { split; cbn; [done|done|lia|lia|done|by vm_compute|done|done| |done].
    apply Forall_take, layout_bytes; [lia|done]. }
  exists j, r'. rewrite !Hfile. split_and!; [done|done|done| |].
  - rewrite <- size_layout in Hle by lia. unfold size in Hle. lia.
  - intros Hlt. specialize (Hgt Hlt). rewrite <- size_layout in Hgt by lia. unfold size in Hgt. lia.
Qed.

(** A file in memory. *)
#[export] Instance slice_writable : WritableFile Slice := {|
  Append s f := (None, f ++ s);
  Flush f := (None, f);
|}.

#[export] Instance slice_reliable : ReliableFile Slice.
Proof. exists (fun f => f); intros; eexists; split; done. Defined.

#[export] Instance slice_sequential : SequentialFile Slice := {|
  Read n f := (None, take (Z.to_nat n) f, drop (Z.to_nat n) f);
  Skip n f := (None, drop (Z.to_nat n) f);
|}.

#[export] Instance slice_full : FullReads Slice.
Proof. exists (fun f => f). intros n f _. eexists. split; done. Defined.

Lemma log_recovery_witness :
  ∃ j r', read_all (F := Slice) (fun _ => 0) 40 40
      (Reader_new (take 15 (file_after (F := Slice) (fun _ => 3) [] [[1; 2; 3]; []; [4]] 3)) true true 0)
    = Some (take j [[1; 2; 3]; []; [4]], r') ∧ reports_ r' = [].
Proof.
  destruct (log_recovery (F1 := Slice) (F2 := Slice) (fun _ => 3) (fun _ => 0) [[1; 2; 3]; []; [4]] [] 15
    (take 15 (file_after (F := Slice) (fun _ => 3) [] [[1; 2; 3]; []; [4]] 3)) true true 40)
    as (j & r' & H1 & H2 & _).
  - reflexivity.
  - repeat constructor; unfold is_u8; lia.
  - reflexivity.
  - apply Nat.ltb_lt. vm_compute. reflexivity.
  - exists j, r'. split; assumption.
Defined.
