(* ===== verification/LdbTwoLevel.v ===== *)
(** * leveldb: two-level iterators (two_level_iterator.h, two_level_iterator.cc)

    An index iterator whose values lead, through a block function, to data
    iterators.  [W] is the state the block function works on; deleting a data
    iterator runs its cleanup on that state.  When the index is a cursor over
    separators and each value leads to a cursor over its block, the whole is
    a cursor over the concatenation of the blocks. *)

From S2P Require Import Prelude.
From S2P Require Import LdbSlice.
From S2P Require Import LdbFormat.
From S2P Require Import LdbIterator.

(** ** Positions in a concatenation *)

Section Concat.

Context (blks : list (list (Slice * Slice))).

(** The place of entry [o] of block [j]. *)
Definition pos (j o : nat) : nat := (length (concat (take j blks)) + o)%nat.

Lemma pos_S j blk : blks !! j = Some blk -> pos (S j) 0 = pos j (length blk).
Proof. intros Hj. unfold pos. rewrite (take_S_r _ _ blk) by done. rewrite concat_app, length_app. simpl. rewrite app_nil_r. lia. Qed.

Lemma all_split j blk : blks !! j = Some blk -> concat blks = concat (take j blks) ++ blk ++ concat (drop (S j) blks).
Proof. intros Hj. rewrite <- (take_drop_middle blks j blk Hj) at 1. by rewrite concat_app. Qed.

Lemma pos_lookup j o blk : blks !! j = Some blk -> (o < length blk)%nat -> concat blks !! pos j o = blk !! o.
Proof.
  intros Hj Ho. unfold pos. rewrite (all_split j blk Hj). rewrite lookup_app_r by lia. rewrite lookup_app_l by lia. f_equal. lia.
Qed.

End Concat.

Section TwoLevel.

Context {I D W : Type} `{!Iterator I} `{!Iterator D}.
Context (block_function_ : Slice -> W -> option (D * W)) (delete_iter : D -> W -> W) (rounds : nat).

Record TwoLevelIterator := MkTwoLevel {
  tl_arg_ : W;
  tl_status_ : Status;
  index_iter_ : IteratorWrapper I;
  data_iter_ : IteratorWrapper D;
  data_block_handle_ : Slice;
}.

Definition NewTwoLevelIterator (index_iter : I) (arg : W) : TwoLevelIterator :=
  MkTwoLevel arg Status_OK (w_new (Some index_iter)) (w_new None) [].

Definition set_index (w : IteratorWrapper I) (t : TwoLevelIterator) : TwoLevelIterator :=
  MkTwoLevel (tl_arg_ t) (tl_status_ t) w (data_iter_ t) (data_block_handle_ t).
Definition set_data (w : IteratorWrapper D) (t : TwoLevelIterator) : TwoLevelIterator :=
  MkTwoLevel (tl_arg_ t) (tl_status_ t) (index_iter_ t) w (data_block_handle_ t).

Definition SaveError (s : Status) (t : TwoLevelIterator) : TwoLevelIterator :=
  MkTwoLevel (tl_arg_ t) (if ok (tl_status_ t) && negb (ok s) then s else tl_status_ t)
    (index_iter_ t) (data_iter_ t) (data_block_handle_ t).

Definition SetDataIterator (data_iter : option D) (t : TwoLevelIterator) : TwoLevelIterator :=
  let t :=
    match iter_ (data_iter_ t) with
    | Some it =>
        let t := SaveError (w_status (data_iter_ t)) t in
        MkTwoLevel (delete_iter it (tl_arg_ t)) (tl_status_ t) (index_iter_ t) (data_iter_ t) (data_block_handle_ t)
    | None => t
    end in
  set_data (w_Set data_iter (data_iter_ t)) t.

Definition has_data (t : TwoLevelIterator) : bool := match iter_ (data_iter_ t) with Some _ => true | None => false end.

Definition InitDataBlock (t : TwoLevelIterator) : option TwoLevelIterator :=
  if negb (w_Valid (index_iter_ t)) then Some (SetDataIterator None t)
  else
    let handle := w_value (index_iter_ t) in
    if has_data t && (slice_compare handle (data_block_handle_ t) =? 0) then Some t
    else
      '(iter, arg) ← block_function_ handle (tl_arg_ t);
      Some (SetDataIterator (Some iter) (MkTwoLevel arg (tl_status_ t) (index_iter_ t) (data_iter_ t) handle)).

(** [if (data_iter_.iter() != nullptr) data_iter_.move()]. *)
Definition on_data (move : IteratorWrapper D -> option (IteratorWrapper D)) (t : TwoLevelIterator) : option TwoLevelIterator :=
  if has_data t then d ← move (data_iter_ t); Some (set_data d t) else Some t.

Fixpoint SkipEmptyDataBlocksForward (n : nat) (t : TwoLevelIterator) : option TwoLevelIterator :=
  match n with
  | O => None
  | S n =>
      if negb (has_data t) || negb (w_Valid (data_iter_ t)) then
        if negb (w_Valid (index_iter_ t)) then Some (SetDataIterator None t)
        else
          index ← w_Next (index_iter_ t);
          t ← InitDataBlock (set_index index t);
          t ← on_data w_SeekToFirst t;
          SkipEmptyDataBlocksForward n t
      else Some t
  end.

Fixpoint SkipEmptyDataBlocksBackward (n : nat) (t : TwoLevelIterator) : option TwoLevelIterator :=
  match n with
  | O => None
  | S n =>
      if negb (has_data t) || negb (w_Valid (data_iter_ t)) then
        if negb (w_Valid (index_iter_ t)) then Some (SetDataIterator None t)
        else
          index ← w_Prev (index_iter_ t);
          t ← InitDataBlock (set_index index t);
          t ← on_data w_SeekToLast t;
          SkipEmptyDataBlocksBackward n t
      else Some t
  end.

Definition tl_Seek (target : Slice) (t : TwoLevelIterator) : option TwoLevelIterator :=
  index ← w_Seek target (index_iter_ t);
  t ← InitDataBlock (set_index index t);
  t ← on_data (w_Seek target) t;
  SkipEmptyDataBlocksForward rounds t.

Definition tl_SeekToFirst (t : TwoLevelIterator) : option TwoLevelIterator :=
  index ← w_SeekToFirst (index_iter_ t);
  t ← InitDataBlock (set_index index t);
  t ← on_data w_SeekToFirst t;
  SkipEmptyDataBlocksForward rounds t.

Definition tl_SeekToLast (t : TwoLevelIterator) : option TwoLevelIterator :=
  index ← w_SeekToLast (index_iter_ t);
  t ← InitDataBlock (set_index index t);
  t ← on_data w_SeekToLast t;
  SkipEmptyDataBlocksBackward rounds t.

Definition tl_Next (t : TwoLevelIterator) : option TwoLevelIterator :=
  d ← w_Next (data_iter_ t);
  SkipEmptyDataBlocksForward rounds (set_data d t).

Definition tl_Prev (t : TwoLevelIterator) : option TwoLevelIterator :=
  d ← w_Prev (data_iter_ t);
  SkipEmptyDataBlocksBackward rounds (set_data d t).

Definition tl_status (t : TwoLevelIterator) : Status :=
  if negb (ok (w_status (index_iter_ t))) then w_status (index_iter_ t)
  else if has_data t && negb (ok (w_status (data_iter_ t))) then w_status (data_iter_ t)
  else tl_status_ t.

#[local] Instance two_level_iterator : Iterator TwoLevelIterator := {|
  i_Valid t := w_Valid (data_iter_ t);
  i_key t := w_key (data_iter_ t);
  i_value t := w_value (data_iter_ t);
  i_status := tl_status;
  i_SeekToFirst := tl_SeekToFirst;
  i_SeekToLast := tl_SeekToLast;
  i_Seek := tl_Seek;
  i_Next := tl_Next;
  i_Prev := tl_Prev;
|}.

(** ** A cursor over the concatenation *)

Section Cursor.

Context (cmp : Comparator) (okp : Slice -> Prop) `{!TotalCmp (Compare cmp) okp}.
Context (idx : list (Slice * Slice)) (iat : I -> nat -> Prop) `{!Cursor cmp okp idx iat}.
Context (blks : list (list (Slice * Slice))) (Winv : W -> Prop).

(** Block [j] of the index value [h]: what its iterators stand on. *)
Record block_reads (j : nat) (h : Slice) (blk : list (Slice * Slice)) (dat : D -> nat -> Prop) : Prop := {
  br_cursor : Cursor cmp okp blk dat;
  br_read w : Winv w -> ∃ d w', block_function_ h w = Some (d, w') ∧ Winv w' ∧ dat d (length blk);
}.

Context (dat : nat -> D -> nat -> Prop).
Context (Hlen : length idx = length blks).
Context (Hread : ∀ j kv blk, idx !! j = Some kv -> blks !! j = Some blk -> block_reads j kv.2 blk (dat j)).
Context (Hdel : ∀ d w, Winv w -> Winv (delete_iter d w)).
Context (Hdistinct : ∀ i j a b, idx !! i = Some a -> idx !! j = Some b -> a.2 = b.2 -> i = j).

Local Abbreviation m := (length idx).
Local Abbreviation all := (concat blks).

(** The data iterator, if there is one, reads the block its handle names. *)
Definition data_on (t : TwoLevelIterator) : Prop :=
  match iter_ (data_iter_ t) with
  | None => True
  | Some _ => ∃ j kv o, idx !! j = Some kv ∧ data_block_handle_ t = kv.2 ∧ w_at (dat j) (data_iter_ t) o
  end.

Record inv (t : TwoLevelIterator) (j : nat) : Prop := {
  inv_world : Winv (tl_arg_ t);
  inv_status : tl_status_ t = Status_OK;
  inv_index : w_at iat (index_iter_ t) j;
  inv_data : data_on t;
}.

(** The index at [j] and the data iterator on entry [o] of block [j]. *)
Record inside (t : TwoLevelIterator) (j o : nat) : Prop := {
  in_inv : inv t j;
  in_block : ∃ kv, idx !! j = Some kv ∧ data_block_handle_ t = kv.2;
  in_data : w_at (dat j) (data_iter_ t) o;
}.

Definition finished (t : TwoLevelIterator) : Prop := inv t m ∧ iter_ (data_iter_ t) = None ∧ valid_ (data_iter_ t) = false.

Definition tl_at (t : TwoLevelIterator) (i : nat) : Prop :=
  (i = length all ∧ finished t) ∨
  (∃ j o blk, i = pos blks j o ∧ blks !! j = Some blk ∧ (o < length blk)%nat ∧ inside t j o).

Lemma pos_end : pos blks m 0 = length all.
Proof using Hlen. unfold pos. rewrite take_ge by lia. lia. Qed.

Lemma block_of j : (j < m)%nat -> ∃ kv blk, idx !! j = Some kv ∧ blks !! j = Some blk.
Proof using Hlen.
  intros Hj. destruct (lookup_lt_is_Some_2 idx j Hj) as [kv Hk]. destruct (lookup_lt_is_Some_2 blks j) as [blk Hb]; [lia|]. eauto.
Qed.

Lemma dat_cursor j blk : blks !! j = Some blk -> Cursor cmp okp blk (dat j).
Proof using Hlen Hread.
  intros Hb. destruct (lookup_lt_is_Some_2 idx j) as [kv Hk]; [apply lookup_lt_Some in Hb; lia|]. by eapply br_cursor, Hread.
Qed.

Lemma index_valid w j : w_at iat w j -> w_Valid w = bool_decide (j < m)%nat.
Proof using Cursor0. intros Hw. exact (cur_valid cmp okp idx (w_at iat) w j Hw). Qed.

Lemma data_status t : data_on t -> has_data t = true -> w_status (data_iter_ t) = Status_OK.
Proof using Hlen Hread.
  unfold data_on, has_data. destruct (iter_ (data_iter_ t)) as [d|]; [|done]. intros (j & kv & o & Hk & _ & Hw) _.
  destruct (block_of j) as (kv' & blk & _ & Hb); [by eapply lookup_lt_Some|]. pose proof (dat_cursor j blk Hb).
  exact (cur_status (data_iter_ t) o Hw).
Qed.

(** Replacing the data iterator; the old one had no error to save. *)
Lemma SetDataIterator_eq d t :
  Winv (tl_arg_ t) -> tl_status_ t = Status_OK -> (has_data t = true -> w_status (data_iter_ t) = Status_OK) ->
  ∃ w, Winv w ∧ SetDataIterator d t
    = MkTwoLevel w Status_OK (index_iter_ t) (w_Set d (data_iter_ t)) (data_block_handle_ t).
Proof using Hdel.
  intros Hw Hs Hd. unfold SetDataIterator, has_data in *. destruct (iter_ (data_iter_ t)) as [it|].
  - exists (delete_iter it (tl_arg_ t)). split; [by apply Hdel|]. unfold set_data, SaveError. simpl. by rewrite Hd, Hs.
  - exists (tl_arg_ t). split; [done|]. unfold set_data. by rewrite Hs.
Qed.

Lemma SetDataIterator_None t j : inv t j -> inv (SetDataIterator None t) j ∧ iter_ (data_iter_ (SetDataIterator None t)) = None ∧
  valid_ (data_iter_ (SetDataIterator None t)) = false.
Proof using Hdel Hlen Hread.
  intros [Hw Hs Hi Hd]. destruct (SetDataIterator_eq None t Hw Hs (data_status t Hd)) as (w & Hw' & ->).
  split_and!; [|done|done]. by split.
Qed.

(** [InitDataBlock]: the data iterator reads the block of the index. *)
Lemma InitDataBlock_spec t j :
  inv t j -> ∃ t', InitDataBlock t = Some t' ∧ (((j < m)%nat ∧ ∃ o, inside t' j o) ∨ (j = m ∧ finished t')).
Proof using Cursor0 Hdel Hdistinct Hlen Hread.
  intros Hinv. pose proof Hinv as [Hw Hs Hi Hd]. unfold InitDataBlock. rewrite (index_valid _ j Hi).
  pose proof (cur_bound (index_iter_ t) j Hi) as Hjm. case_bool_decide as Hj; cbn [negb].
  - destruct (block_of j Hj) as ([k h] & blk & Hk & Hb).
    destruct (cur_entry cmp okp idx (w_at iat) (index_iter_ t) j k h Hi Hk) as (_ & _ & Hval). simpl in Hval. rewrite Hval.
    destruct (has_data t && (slice_compare h (data_block_handle_ t) =? 0)) eqn:E.
    + apply andb_prop in E as [E1 E2%Z.eqb_eq]. rewrite slice_compare_lex in E2. apply lexcmp_0 in E2.
      exists t. split; [done|]. left. split; [done|].
      unfold has_data in E1. unfold data_on in Hd. destruct (iter_ (data_iter_ t)); [|done].
      destruct Hd as (j' & kv' & o & Hk' & Hh & Hw'). assert (j' = j) as -> by (eapply Hdistinct; [done..|]; simpl; congruence).
      exists o. split; [done|by eauto|done].
    + destruct (br_read _ _ _ _ (Hread j _ blk Hk Hb) (tl_arg_ t) Hw) as (d & w' & E' & Hw' & Hda). simpl in E'. rewrite E'. simpl.
      set (t1 := MkTwoLevel w' _ _ _ _).
      destruct (SetDataIterator_eq (Some d) t1 Hw' Hs (data_status t Hd)) as (w'' & Hw'' & ->).
      eexists. split; [done|]. left. split; [done|]. exists (length blk).
      assert (w_at (dat j) (w_Set (Some d) (data_iter_ t)) (length blk)) as Hat by by apply w_Update_at.
      split; [split; [done|done|done|]|by eauto|done]. exists j, (k, h), (length blk). done.
  - eexists. split; [done|]. right. assert (j = m) as -> by lia. split; [done|]. by apply SetDataIterator_None.
Qed.

Lemma on_data_inside move t j o o' :
  inside t j o -> (∃ w', move (data_iter_ t) = Some w' ∧ w_at (dat j) w' o') ->
  ∃ t', on_data move t = Some t' ∧ inside t' j o'.
Proof.
  intros [[Hw Hs Hi Hd] (kv & Hk & Hh) (it & Hit & _)] (w' & E & Hw'). unfold on_data, has_data. rewrite Hit, E. simpl.
  eexists. split; [done|]. split; [split; [done|done|done|]|by eauto|done].
  unfold data_on. simpl. pose proof Hw' as (it' & -> & _). by exists j, kv, o'.
Qed.

(** Entering the block of the index and moving in it. *)
Lemma Init_move move g t j :
  inv t j -> (∀ blk w o, blks !! j = Some blk -> w_at (dat j) w o -> ∃ w', move w = Some w' ∧ w_at (dat j) w' (g blk)) ->
  ∃ t1 t', InitDataBlock t = Some t1 ∧ on_data move t1 = Some t' ∧
    ((∃ blk, blks !! j = Some blk ∧ inside t' j (g blk)) ∨ (j = m ∧ finished t')).
Proof using Cursor0 Hdel Hdistinct Hlen Hread.
  intros Hinv Hmove. destruct (InitDataBlock_spec t j Hinv) as (t1 & E1 & [[Hj [o Hin]]|[-> Hf]]); exists t1.
  - destruct (block_of j Hj) as (kv & blk & Hk & Hb).
    destruct (on_data_inside move t1 j o (g blk) Hin) as (t' & E' & Hin'); [by eapply Hmove; [|apply Hin]|].
    exists t'. split_and!; [done|done|]. left. eauto.
  - exists t1. split_and!; [done| |by right]. unfold on_data, has_data. by rewrite (proj1 (proj2 Hf)).
Qed.

Lemma inside_valid t j o blk : inside t j o -> blks !! j = Some blk ->
  has_data t = true ∧ w_Valid (data_iter_ t) = bool_decide (o < length blk)%nat ∧ (o <= length blk)%nat.
Proof using Hlen Hread.
  intros [_ _ Hw] Hb. pose proof (dat_cursor j blk Hb). split_and!.
  - destruct Hw as (it & Hit & _). unfold has_data. by rewrite Hit.
  - exact (cur_valid cmp okp blk (w_at (dat j)) _ o Hw).
  - exact (cur_bound _ o Hw).
Qed.

Lemma finished_skip t n : finished t -> (0 < n)%nat ->
  (∃ t', SkipEmptyDataBlocksForward n t = Some t' ∧ finished t') ∧ (∃ t', SkipEmptyDataBlocksBackward n t = Some t' ∧ finished t').
Proof using Cursor0 Hdel Hlen Hread.
  intros (Hinv & Hn & Hv) H0. destruct n as [|n]; [lia|]. cbn [SkipEmptyDataBlocksForward SkipEmptyDataBlocksBackward].
  assert (has_data t = false) as -> by (unfold has_data; by rewrite Hn). cbn [negb orb].
  rewrite (index_valid _ m (inv_index _ _ Hinv)), bool_decide_eq_false_2 by lia. cbn [negb].
  split; eexists; (split; [done|]); split; try by apply SetDataIterator_None. all: by apply (SetDataIterator_None t m).
Qed.

(** On an entry both loops stop at once. *)
Lemma stay t j o blk n :
  inside t j o -> blks !! j = Some blk -> (o < length blk)%nat -> (0 < n)%nat ->
  SkipEmptyDataBlocksForward n t = Some t ∧ SkipEmptyDataBlocksBackward n t = Some t ∧ tl_at t (pos blks j o).
Proof using Hlen Hread.
  intros Hin Hb Ho Hn. destruct n as [|n]; [lia|]. cbn [SkipEmptyDataBlocksForward SkipEmptyDataBlocksBackward].
  destruct (inside_valid t j o blk Hin Hb) as (-> & -> & _). rewrite bool_decide_eq_true_2 by done. cbn [negb orb].
  split_and!; [done|done|]. right. by exists j, o, blk.
Qed.

Lemma set_index_inv t j j' w : inv t j -> w_at iat w j' -> inv (set_index w t) j'.
Proof. intros [Hw Hs _ Hd] Hi. by split. Qed.

Lemma forward n t j o blk :
  inside t j o -> blks !! j = Some blk -> (m - j < n)%nat ->
  ∃ t', SkipEmptyDataBlocksForward n t = Some t' ∧ tl_at t' (pos blks j o).
Proof using Cursor0 Hdel Hdistinct Hlen Hread.
  revert t j o blk; induction n as [|n IH]; intros t j o blk Hin Hb Hn; [lia|].
  destruct (inside_valid t j o blk Hin Hb) as (Hd & Hv & Hle).
  destruct (decide (o < length blk)%nat) as [Ho|Ho]; [destruct (stay t j o blk (S n) Hin Hb Ho ltac:(lia)) as (? & _ & ?); by exists t|].
  assert (o = length blk) as -> by lia. assert (j < m)%nat as Hj by (apply lookup_lt_Some in Hb; lia).
  cbn [SkipEmptyDataBlocksForward]. rewrite Hd, Hv, bool_decide_eq_false_2 by lia. cbn [negb orb].
  pose proof (in_inv _ _ _ Hin) as Hinv. rewrite (index_valid _ j (inv_index _ _ Hinv)), bool_decide_eq_true_2 by done. cbn [negb].
  destruct (cur_next (index_iter_ t) j (inv_index _ _ Hinv) Hj) as (w & Ew & Hw). simpl in Ew. rewrite Ew. cbn [mbind option_bind].
  destruct (Init_move w_SeekToFirst (fun _ => O) (set_index w t) (S j)) as (t1 & t2 & -> & E2 & Hcase).
  { by eapply set_index_inv. }
  { intros blk' w' o' Hb' Hw'. pose proof (dat_cursor _ _ Hb'). exact (cur_first w' o' Hw'). }
  cbn [mbind option_bind]. rewrite E2. cbn [mbind option_bind]. rewrite <- (pos_S blks j blk Hb).
  destruct Hcase as [(blk' & Hb' & Hin')|[Hend Hf]].
  - apply (IH t2 (S j) 0%nat blk'); [done|done|lia].
  - destruct (finished_skip t2 n Hf ltac:(lia)) as [(t' & E' & Hf') _]. exists t'. split; [done|]. left.
    by rewrite Hend, pos_end.
Qed.

(** The entry before position [p]. *)
Definition before (p : nat) : nat := match p with O => length all | S q => q end.

Lemma backward n t j blk :
  inside t j (length blk) -> blks !! j = Some blk -> (j + 1 < n)%nat ->
  ∃ t', SkipEmptyDataBlocksBackward n t = Some t' ∧ tl_at t' (before (pos blks j 0)).
Proof using Cursor0 Hdel Hdistinct Hlen Hread.
  revert t j blk; induction n as [|n IH]; intros t j blk Hin Hb Hn; [lia|].
  destruct (inside_valid t j _ blk Hin Hb) as (Hd & Hv & Hle). assert (j < m)%nat as Hj by (apply lookup_lt_Some in Hb; lia).
  cbn [SkipEmptyDataBlocksBackward]. rewrite Hd, Hv, bool_decide_eq_false_2 by lia. cbn [negb orb].
  pose proof (in_inv _ _ _ Hin) as Hinv. rewrite (index_valid _ j (inv_index _ _ Hinv)), bool_decide_eq_true_2 by done. cbn [negb].
  destruct (cur_prev (index_iter_ t) j (inv_index _ _ Hinv) Hj) as (w & Ew & Hw). simpl in Ew. rewrite Ew. cbn [mbind option_bind].
  edestruct (Init_move w_SeekToLast (fun blk => (length blk - 1)%nat) (set_index w t)) as (t1 & t2 & -> & E2 & Hcase).
  { by eapply set_index_inv. }
  { intros blk' w' o' Hb' Hw'. pose proof (dat_cursor _ _ Hb'). exact (cur_last w' o' Hw'). }
  cbn [mbind option_bind]. rewrite E2. cbn [mbind option_bind]. destruct Hcase as [(blk' & Hb' & Hin')|[Hend Hf]].
  - destruct j as [|j]; [apply lookup_lt_Some in Hb'; lia|]. rewrite (pos_S blks j blk' Hb').
    destruct (decide (length blk' = 0)%nat) as [H0|H0].
    + rewrite H0 in *. apply (IH t2 j blk'); [by rewrite H0|done|lia].
    + destruct (stay t2 j _ blk' n Hin' Hb') as (_ & -> & Hat); [lia|lia|]. exists t2. split; [done|].
      unfold pos in *. destruct (length blk'); [done|]. rewrite Nat.add_succ_r. simpl in Hat. by rewrite Nat.sub_0_r in Hat.
  - destruct j as [|j]; [|lia]. destruct (finished_skip t2 n Hf ltac:(lia)) as [_ (t' & E' & Hf')].
    exists t'. split; [done|]. by left.
Qed.

(** ** The laws *)

(** Separators: at or above the keys of their block, below those after it. *)
Context (Hidx : Forall (fun kv => okp kv.1) idx) (Hkeys : ∀ j blk kv, blks !! j = Some blk -> kv ∈ blk -> okp kv.1).
Context (Hsep_le : ∀ j s blk kv, idx !! j = Some s -> blks !! j = Some blk -> kv ∈ blk -> Compare cmp kv.1 s.1 <= 0).
Context (Hsep_lt : ∀ i j s blk kv, (i < j)%nat -> idx !! i = Some s -> blks !! j = Some blk -> kv ∈ blk -> Compare cmp s.1 kv.1 < 0).

Lemma blocks_below target j :
  okp target -> (∀ i s, (i < j)%nat -> idx !! i = Some s -> Compare cmp s.1 target < 0) ->
  ∀ kv, kv ∈ concat (take j blks) -> Compare cmp kv.1 target < 0.
Proof using Hidx Hkeys Hlen Hsep_le TotalCmp0.
  intros Ht Hlt kv Hin. apply list_elem_of_In, in_concat in Hin as (blk & Hblk & Hin).
  apply list_elem_of_In, list_elem_of_lookup in Hblk as [i Hi]. apply list_elem_of_In in Hin.
  apply lookup_take_Some in Hi as [Hi Hij]. destruct (lookup_lt_is_Some_2 idx i) as [s Hs]; [apply lookup_lt_Some in Hi; lia|].
  apply (cmp_le_lt (Compare cmp) okp _ s.1); [by eapply Hkeys|by eapply (Forall_lookup_1 _ _ _ _ Hidx)|done|by eapply Hsep_le|by eapply Hlt].
Qed.

Lemma seek_all target j :
  okp target -> seek_index cmp target idx = j ->
  seek_index cmp target all = pos blks j (match blks !! j with Some blk => seek_index cmp target blk | None => 0 end).
Proof using Hidx Hkeys Hlen Hsep_le Hsep_lt TotalCmp0.
  intros Ht Hj. destruct (seek_index_spec cmp target idx) as (Hle & Hlt & Hge). rewrite Hj in *.
  pose proof (blocks_below target j Ht Hlt) as Hbelow. unfold pos. destruct (blks !! j) as [blk|] eqn:Hb.
  - rewrite (all_split blks j blk Hb), seek_index_app by done. f_equal. apply seek_index_app_ge. intros kv Hkv.
    destruct (lookup_lt_is_Some_2 idx j) as [s Hs]; [apply lookup_lt_Some in Hb; lia|].
    apply list_elem_of_lookup_2, list_elem_of_In, in_concat in Hkv as (blk' & Hblk' & Hin).
    apply list_elem_of_In, list_elem_of_lookup in Hblk' as [i Hi]. rewrite lookup_drop in Hi. apply list_elem_of_In in Hin.
    assert (okp s.1) by by eapply (Forall_lookup_1 _ _ _ _ Hidx). assert (okp kv.1) by by eapply Hkeys.
    apply (cmp_flip_le (Compare cmp) okp); [done..|]. apply Z.lt_le_incl.
    apply (cmp_le_lt (Compare cmp) okp _ s.1); [done..| |by eapply (Hsep_lt j (S j + i)); [lia|..]].
    apply (cmp_flip_le (Compare cmp) okp); [done..|]. by apply Hge.
  - apply lookup_ge_None in Hb. rewrite take_ge in * by lia. rewrite <- (app_nil_r all) at 1. by rewrite seek_index_app.
Qed.

Context (Hrounds : (length idx + 1 < rounds)%nat).

Lemma tl_at_inv t i : tl_at t i -> ∃ j, inv t j.
Proof. intros [[_ [Hinv _]]|(j & o & blk & _ & _ & _ & Hin)]; [eauto|]. exists j. apply Hin. Qed.

(** From the index to the entry, for the three seeks that end in
    [SkipEmptyDataBlocksForward] or its mirror image. *)
Lemma seek_forward move g t j j' w :
  inv t j -> w_at iat w j' ->
  (∀ blk w o, blks !! j' = Some blk -> w_at (dat j') w o -> ∃ w', move w = Some w' ∧ w_at (dat j') w' (g blk)) ->
  ∃ t', (t ← InitDataBlock (set_index w t); t ← on_data move t; SkipEmptyDataBlocksForward rounds t) = Some t' ∧
    tl_at t' (pos blks j' (match blks !! j' with Some blk => g blk | None => 0 end)).
Proof using Cursor0 Hdel Hdistinct Hlen Hread Hrounds.
  intros Hinv Hw Hmove.
  destruct (Init_move move g (set_index w t) j') as (t1 & t2 & -> & E2 & Hcase); [by eapply set_index_inv|done|].
  cbn [mbind option_bind]. rewrite E2. cbn [mbind option_bind]. destruct Hcase as [(blk & Hb & Hin)|[-> Hf]].
  - rewrite Hb. apply (forward _ _ _ _ blk); [done|done|lia].
  - destruct (finished_skip t2 rounds Hf ltac:(lia)) as [(t' & E' & Hf') _]. exists t'. split; [done|]. left. split; [|done].
    rewrite lookup_ge_None_2 by lia. apply pos_end.
Qed.

Lemma tl_SeekToLast_spec t j : inv t j -> ∃ t', tl_SeekToLast t = Some t' ∧ tl_at t' (length all - 1).
Proof using Cursor0 Hdel Hdistinct Hlen Hread Hrounds.
  intros Hinv. unfold tl_SeekToLast. destruct (cur_last (index_iter_ t) j (inv_index _ _ Hinv)) as (w & Ew & Hw).
  simpl in Ew. rewrite Ew. cbn [mbind option_bind].
  destruct (Init_move w_SeekToLast (fun blk => (length blk - 1)%nat) (set_index w t) (m - 1)) as (t1 & t2 & -> & E2 & Hcase).
  { by eapply set_index_inv. }
  { intros blk' w' o' Hb' Hw'. pose proof (dat_cursor _ _ Hb'). exact (cur_last w' o' Hw'). }
  cbn [mbind option_bind]. rewrite E2. cbn [mbind option_bind]. rewrite <- pos_end. destruct Hcase as [(blk & Hb & Hin)|[Hend Hf]].
  - pose proof (lookup_lt_Some _ _ _ Hb) as Hlt.
    assert (pos blks m 0 = pos blks (m - 1) (length blk)) as Hp by (rewrite <- (pos_S blks _ blk Hb); f_equal; lia). rewrite Hp.
    destruct (decide (length blk = 0)%nat) as [H0|H0].
    + destruct (backward rounds t2 (m - 1) blk) as (t' & E' & Hat); [by rewrite H0 in *|done|lia|]. exists t'. split; [done|].
      rewrite H0. unfold before in Hat. destruct (pos blks (m - 1) 0) as [|p] eqn:Ep; [|by rewrite Nat.sub_1_r].
      assert (length all = 0)%nat as Hz; [|by rewrite Hz in Hat].
      by rewrite <- pos_end, Hp, H0.
    + destruct (stay t2 _ _ blk rounds Hin Hb) as (_ & -> & Hat); [lia|lia|]. exists t2. split; [done|].
      replace (pos blks (m - 1) (length blk) - 1)%nat with (pos blks (m - 1) (length blk - 1)) by (unfold pos; lia). done.
  - destruct (finished_skip t2 rounds Hf ltac:(lia)) as [_ (t' & E' & Hf')]. exists t'. split; [done|]. left. split; [|done].
    rewrite pos_end. assert (blks = []) as Hnil by (apply length_zero_iff_nil; lia). by rewrite Hnil.
Qed.

#[local] Instance two_level_cursor : Cursor cmp okp all tl_at.
Proof using Cursor0 Hdel Hdistinct Hidx Hkeys Hlen Hread Hrounds Hsep_le Hsep_lt TotalCmp0.
  split.
  - intros t i [[-> (_ & Hn & Hv)]|(j & o & blk & -> & Hb & Ho & Hin)]; unfold i_view; simpl.
    + unfold w_Valid. rewrite Hv. by rewrite lookup_ge_None_2.
    + pose proof (dat_cursor j blk Hb). rewrite (pos_lookup blks j o blk Hb Ho). exact (cur_view (data_iter_ t) o (in_data _ _ _ Hin)).
  - intros t i [[-> _]|(j & o & blk & -> & Hb & Ho & _)]; [done|]. unfold pos. rewrite (all_split blks j blk Hb), !length_app. lia.
  - intros t i Ha. simpl. unfold tl_status. destruct (tl_at_inv t i Ha) as [j [Hw Hs Hi Hd]].
    pose proof (cur_status (index_iter_ t) j Hi) as Hist. simpl in Hist. rewrite Hist. cbn [ok Status_OK negb].
    destruct (has_data t) eqn:E; [|done]. by rewrite (data_status t Hd E).
  - intros t i Ha. destruct (tl_at_inv t i Ha) as [j Hinv]. simpl. unfold tl_SeekToFirst.
    destruct (cur_first (index_iter_ t) j (inv_index _ _ Hinv)) as (w & Ew & Hw). simpl in Ew. rewrite Ew.
    destruct (seek_forward w_SeekToFirst (fun _ => O) t j 0 w Hinv Hw) as (t' & E' & Hat).
    { intros blk w' o Hb Hw'. pose proof (dat_cursor _ _ Hb). exact (cur_first w' o Hw'). }
    exists t'. split; [exact E'|]. by destruct (blks !! 0%nat).
  - intros t i Ha. destruct (tl_at_inv t i Ha) as [j Hinv]. by apply (tl_SeekToLast_spec t j).
  - intros t i target Ha Ht. destruct (tl_at_inv t i Ha) as [j Hinv]. simpl. unfold tl_Seek.
    destruct (cur_seek (index_iter_ t) j target (inv_index _ _ Hinv) Ht) as (w & Ew & Hw). simpl in Ew. rewrite Ew.
    destruct (seek_forward (w_Seek target) (seek_index cmp target) t j _ w Hinv Hw) as (t' & E' & Hat).
    { intros blk w' o Hb Hw'. pose proof (dat_cursor _ _ Hb). exact (cur_seek w' o target Hw' Ht). }
    exists t'. split; [exact E'|]. by rewrite (seek_all target _ Ht eq_refl).
  - intros t i [[-> _]|(j & o & blk & -> & Hb & Ho & Hin)] Hi; [lia|]. simpl. unfold tl_Next. pose proof (dat_cursor j blk Hb).
    destruct (cur_next (data_iter_ t) o (in_data _ _ _ Hin) Ho) as (w & Ew & Hw). simpl in Ew. rewrite Ew. cbn [mbind option_bind].
    destruct (on_data_inside w_Next t j o (S o) Hin) as (t1 & E1 & Hin1); [by exists w|]. unfold on_data in E1.
    destruct (inside_valid t j o blk Hin Hb) as (Hd & _). rewrite Hd, Ew in E1. simpl in E1. injection E1 as <-.
    replace (S (pos blks j o)) with (pos blks j (S o)) by (unfold pos; lia). apply (forward _ _ _ _ blk); [done|done|lia].
  - intros t i [[-> _]|(j & o & blk & -> & Hb & Ho & Hin)] Hi; [lia|]. simpl. unfold tl_Prev. pose proof (dat_cursor j blk Hb).
    destruct (cur_prev (data_iter_ t) o (in_data _ _ _ Hin) Ho) as (w & Ew & Hw). simpl in Ew. rewrite Ew. cbn [mbind option_bind].
    edestruct (on_data_inside w_Prev t j o) as (t1 & E1 & Hin1); [done|by exists w|]. unfold on_data in E1.
    destruct (inside_valid t j o blk Hin Hb) as (Hd & _). rewrite Hd, Ew in E1. simpl in E1. injection E1 as <-.
    destruct o as [|o].
    + apply (backward _ _ _ blk); [done|done|]. apply lookup_lt_Some in Hb. lia.
    + destruct (stay (set_data w t) j o blk rounds Hin1 Hb) as (_ & -> & Hat); [lia|lia|]. eexists. split; [done|].
      unfold pos in *. by rewrite Nat.add_succ_r.
Qed.

Lemma two_level_new index w : iat index m -> Winv w -> tl_at (NewTwoLevelIterator index w) (length all).
Proof. intros Hi Hw. left. split; [done|]. split_and!; [|done|done]. split; [done|done|by apply w_Update_at|done]. Qed.

End Cursor.

End TwoLevel.
