(* ===== verification/LdbMerger.v ===== *)
(** * leveldb: merging iterators (merger.h, merger.cc)

    A merging iterator yields the union of its children.  When the children
    are cursors over sorted lists whose keys differ, it is a cursor over the
    sorted list of all their entries. *)

From S2P Require Import Prelude.
From S2P Require Import LdbSlice.
From S2P Require Import LdbFormat.
From S2P Require Import LdbFormatThms.
From S2P Require Import LdbIterator.
From S2P Require Import LdbTwoLevel.

Inductive Direction := kForward | kReverse.

Section Merger.

Context {I : Type} `{!Iterator I} (comparator_ : Comparator).

(** [current_] points into [children_]. *)
Record MergingIterator := MkMerging {
  children_ : list (IteratorWrapper I);
  current_ : option nat;
  direction_ : Direction;
}.

Definition MergingIterator_new (children : list I) : MergingIterator :=
  MkMerging ((fun it => w_new (Some it)) <$> children) None kForward.

(** [for (int i = 0; i < n_; i++) f(&children_[i])]. *)
Fixpoint for_children (f : nat -> IteratorWrapper I -> option (IteratorWrapper I)) (i : nat)
    (cs : list (IteratorWrapper I)) : option (list (IteratorWrapper I)) :=
  match cs with
  | [] => Some []
  | c :: cs => c ← f i c; cs ← for_children f (S i) cs; Some (c :: cs)
  end.

(** The body of the two searches: keep the best child so far. *)
Definition pick (better : Slice -> Slice -> bool) (best : option (nat * IteratorWrapper I)) (child : nat * IteratorWrapper I) :
    option (nat * IteratorWrapper I) :=
  if w_Valid child.2 then
    match best with
    | None => Some child
    | Some b => if better (w_key child.2) (w_key b.2) then Some child else best
    end
  else best.

Definition FindSmallest (m : MergingIterator) : MergingIterator :=
  let smallest := foldl (pick (fun k s => Compare comparator_ k s <? 0)) None (imap pair (children_ m)) in
  MkMerging (children_ m) (fst <$> smallest) (direction_ m).

Definition FindLargest (m : MergingIterator) : MergingIterator :=
  let largest := foldl (pick (fun k l => 0 <? Compare comparator_ k l)) None (reverse (imap pair (children_ m))) in
  MkMerging (children_ m) (fst <$> largest) (direction_ m).

Definition set_direction (d : Direction) (m : MergingIterator) : MergingIterator :=
  MkMerging (children_ m) (current_ m) d.

Definition set_children (cs : list (IteratorWrapper I)) (m : MergingIterator) : MergingIterator :=
  MkMerging cs (current_ m) (direction_ m).

Definition mg_child (m : MergingIterator) : option (IteratorWrapper I) := c ← current_ m; children_ m !! c.

Definition mg_Valid (m : MergingIterator) : bool := match current_ m with Some _ => true | None => false end.
Definition mg_key (m : MergingIterator) : Slice := match mg_child m with Some c => w_key c | None => [] end.
Definition mg_value (m : MergingIterator) : Slice := match mg_child m with Some c => w_value c | None => [] end.

Fixpoint first_error (status : Status) (cs : list (IteratorWrapper I)) : Status :=
  match cs with
  | [] => status
  | c :: cs => let status := w_status c in if negb (ok status) then status else first_error status cs
  end.

Definition mg_status (m : MergingIterator) : Status := first_error Status_OK (children_ m).

Definition mg_SeekToFirst (m : MergingIterator) : option MergingIterator :=
  cs ← for_children (fun _ => w_SeekToFirst) 0 (children_ m);
  Some (set_direction kForward (FindSmallest (set_children cs m))).

Definition mg_SeekToLast (m : MergingIterator) : option MergingIterator :=
  cs ← for_children (fun _ => w_SeekToLast) 0 (children_ m);
  Some (set_direction kReverse (FindLargest (set_children cs m))).

Definition mg_Seek (target : Slice) (m : MergingIterator) : option MergingIterator :=
  cs ← for_children (fun _ => w_Seek target) 0 (children_ m);
  Some (set_direction kForward (FindSmallest (set_children cs m))).

(** A call of [current_], which has to be set. *)
Definition on_current (f : IteratorWrapper I -> option (IteratorWrapper I)) (m : MergingIterator) : option MergingIterator :=
  i ← current_ m; c ← children_ m !! i; c ← f c; Some (set_children (<[i := c]> (children_ m)) m).

Definition is_current (m : MergingIterator) (i : nat) : bool :=
  match current_ m with Some c => (i =? c)%nat | None => false end.

(** Put every other child after [key()]. *)
Definition turn_forward (m : MergingIterator) : option MergingIterator :=
  cs ← for_children (fun i child =>
    if is_current m i then Some child
    else
      child ← w_Seek (mg_key m) child;
      if w_Valid child && (Compare comparator_ (mg_key m) (w_key child) =? 0) then w_Next child else Some child)
    0 (children_ m);
  Some (set_direction kForward (set_children cs m)).

Definition mg_Next (m : MergingIterator) : option MergingIterator :=
  m ← match direction_ m with kForward => Some m | kReverse => turn_forward m end;
  m ← on_current w_Next m;
  Some (FindSmallest m).

(** Put every other child before [key()]. *)
Definition turn_reverse (m : MergingIterator) : option MergingIterator :=
  cs ← for_children (fun i child =>
    if is_current m i then Some child
    else
      child ← w_Seek (mg_key m) child;
      if w_Valid child then w_Prev child else w_SeekToLast child)
    0 (children_ m);
  Some (set_direction kReverse (set_children cs m)).

Definition mg_Prev (m : MergingIterator) : option MergingIterator :=
  m ← match direction_ m with kReverse => Some m | kForward => turn_reverse m end;
  m ← on_current w_Prev m;
  Some (FindLargest m).

#[export] Instance merging_iterator : Iterator MergingIterator := {|
  i_Valid := mg_Valid;
  i_key := mg_key;
  i_value := mg_value;
  i_status := mg_status;
  i_SeekToFirst := mg_SeekToFirst;
  i_SeekToLast := mg_SeekToLast;
  i_Seek := mg_Seek;
  i_Next := mg_Next;
  i_Prev := mg_Prev;
|}.

(** [NewMergingIterator] returns one of three kinds of iterators. *)
Inductive MergedIterator :=
  | MergedEmpty (it : EmptyIterator)
  | MergedOne (it : I)
  | MergedMany (it : MergingIterator).

Definition NewMergingIterator (children : list I) : MergedIterator :=
  match children with
  | [] => MergedEmpty (MkEmpty Status_OK)
  | [c] => MergedOne c
  | _ => MergedMany (MergingIterator_new children)
  end.

Definition on_merged (f : ∀ J, Iterator J -> J -> option J) (m : MergedIterator) : option MergedIterator :=
  match m with
  | MergedEmpty it => MergedEmpty <$> f _ _ it
  | MergedOne it => MergedOne <$> f _ _ it
  | MergedMany it => MergedMany <$> f _ _ it
  end.

Definition of_merged {A} (f : ∀ J, Iterator J -> J -> A) (m : MergedIterator) : A :=
  match m with MergedEmpty it => f _ _ it | MergedOne it => f _ _ it | MergedMany it => f _ _ it end.

#[export] Instance merged_iterator : Iterator MergedIterator := {|
  i_Valid := of_merged (@i_Valid);
  i_key := of_merged (@i_key);
  i_value := of_merged (@i_value);
  i_status := of_merged (@i_status);
  i_SeekToFirst := on_merged (@i_SeekToFirst);
  i_SeekToLast := on_merged (@i_SeekToLast);
  i_Seek target := on_merged (fun J H => @i_Seek J H target);
  i_Next := on_merged (@i_Next);
  i_Prev := on_merged (@i_Prev);
|}.

End Merger.

Arguments MergingIterator : clear implicits.
Arguments MergedIterator : clear implicits.

(** ** Choosing a child *)

Section Pick.

Context {I : Type} `{!Iterator I} (better : Slice -> Slice -> bool) (okp : Slice -> Prop).
Context (Hirr : ∀ a, okp a -> better a a = false).
Context (Htr : ∀ a b c, okp a -> okp b -> okp c -> better a b = false -> better c b = true -> better a c = false).

Definition best_of (cs : list (nat * IteratorWrapper I)) (r : option (nat * IteratorWrapper I)) : Prop :=
  match r with
  | None => ∀ c, c ∈ cs -> w_Valid c.2 = false
  | Some b => b ∈ cs ∧ w_Valid b.2 = true ∧ ∀ c, c ∈ cs -> w_Valid c.2 = true -> better (w_key c.2) (w_key b.2) = false
  end.

Lemma pick_best cs : (∀ c, c ∈ cs -> w_Valid c.2 = true -> okp (w_key c.2)) -> best_of cs (foldl (pick better) None cs).
Proof using Hirr Htr.
  induction cs as [|c cs IH] using rev_ind; intros Hk; [by intros ? ?%elem_of_nil|].
  rewrite foldl_app. simpl. set (r := foldl (pick better) None cs) in *.
  assert (best_of cs r) as Hr by (apply IH; intros c' ?; apply Hk, elem_of_app; by left). clear IH.
  assert (w_Valid c.2 = true -> okp (w_key c.2)) as Hc by (apply Hk, elem_of_app; right; by left).
  assert (∀ c', c' ∈ cs -> w_Valid c'.2 = true -> okp (w_key c'.2)) as Hcs by (intros c' ?; apply Hk, elem_of_app; by left).
  unfold pick. destruct (w_Valid c.2) eqn:Ev, r as [b|]; simpl in *.
  - destruct Hr as (Hb & Hbv & Hbest). destruct (better (w_key c.2) (w_key b.2)) eqn:Eb; simpl.
    + split_and!; [set_solver|done|]. intros c' [Hc'| ->%list_elem_of_singleton]%elem_of_app Hv; [|by apply Hirr, Hc].
      apply (Htr _ (w_key b.2)); auto.
    + split_and!; [set_solver|done|]. intros c' [Hc'| ->%list_elem_of_singleton]%elem_of_app Hv; auto.
  - split_and!; [set_solver|done|]. intros c' [Hc'| ->%list_elem_of_singleton]%elem_of_app Hv; [|by apply Hirr, Hc].
    apply Hr in Hc'. congruence.
  - destruct Hr as (Hb & Hbv & Hbest). split_and!; [set_solver|done|].
    intros c' [Hc'| ->%list_elem_of_singleton]%elem_of_app Hv; [auto|congruence].
  - intros c' [Hc'| ->%list_elem_of_singleton]%elem_of_app; auto.
Qed.

End Pick.

Lemma elem_of_imap_pair {A} (l : list A) d x : (d, x) ∈ imap pair l <-> l !! d = Some x.
Proof.
  rewrite list_elem_of_lookup. setoid_rewrite list_lookup_imap_Some. split.
  - intros (i & y & Hi & [= -> ->]). done.
  - intros H. by exists d, x.
Qed.

(** In a sorted list, the entries before the seek position are those with a
    smaller key. *)
Lemma seek_index_below {cmp} (okp : Slice -> Prop) `{!TotalCmp (Compare cmp) okp} {target} l j kv :
  okp target -> keys_sorted cmp l -> Forall (fun kv => okp kv.1) l -> l !! j = Some kv ->
  (j < seek_index cmp target l)%nat <-> Compare cmp kv.1 target < 0.
Proof.
  intros Ht Hs Hl Hj. destruct (seek_index_spec cmp target l) as (_ & H2 & H3). split; [by intros; eapply H2|].
  intros Hlt. apply Nat.nle_gt. intros Hle. pose proof (Forall_lookup_1 _ _ _ _ Hl Hj) as Hok. simpl in Hok.
  destruct (lookup_lt_is_Some_2 l (seek_index cmp target l)) as [kv' Hk']; [apply lookup_lt_Some in Hj; lia|].
  pose proof (Forall_lookup_1 _ _ _ _ Hl Hk') as Hok'. simpl in Hok'. specialize (H3 kv' Hk').
  assert (Compare cmp kv'.1 kv.1 <= 0).
  { destruct (decide (seek_index cmp target l = j)) as [E|]; [rewrite E in Hk'; simplify_eq; by rewrite (cmp_refl (Compare cmp) okp)|].
    apply Z.lt_le_incl. apply (Hs (seek_index cmp target l) j); [lia|done..]. }
  assert (Compare cmp kv'.1 target < 0) by (by apply (cmp_le_lt (Compare cmp) okp _ kv.1)). lia.
Qed.

(** ** The cursor *)

Section Cursor.

Context {I : Type} `{!Iterator I} (cmp : Comparator) (okp : Slice -> Prop) `{!TotalCmp (Compare cmp) okp}.
Context (kvss : list (list (Slice * Slice))) (kvs : list (Slice * Slice)) (at_ : nat -> I -> nat -> Prop).
Context (Hcur : ∀ d l, kvss !! d = Some l -> Cursor cmp okp l (at_ d)) (Hsorts : ∀ d l, kvss !! d = Some l -> keys_sorted cmp l).
Context (Hperm : kvs ≡ₚ concat kvss) (Hsort : keys_sorted cmp kvs) (Hkeys : Forall (fun kv => okp kv.1) kvs).

(** The place of an entry in the result. *)
Definition rank (kv : Slice * Slice) : nat := seek_index cmp kv.1 kvs.

Lemma rank_lookup i kv : kvs !! i = Some kv -> rank kv = i.
Proof using Hkeys Hsort TotalCmp0.
  intros Hi. apply seek_index_eq; [by apply lookup_lt_Some in Hi; lia| |].
  - intros j kv' Hj Hkv. by apply (Hsort j i).
  - intros kv' Hkv. simplify_eq. rewrite (cmp_refl (Compare cmp) okp); [done|]. by eapply (Forall_lookup_1 _ _ _ _ Hkeys).
Qed.

Lemma entry_rank d l j kv : kvss !! d = Some l -> l !! j = Some kv -> kvs !! rank kv = Some kv.
Proof using Hkeys Hperm Hsort TotalCmp0.
  intros Hd Hj. assert (kv ∈ kvs) as [i Hi]%list_elem_of_lookup; [|by rewrite (rank_lookup i)].
  rewrite Hperm. apply list_elem_of_In, in_concat. exists l. split; apply list_elem_of_In; by eapply list_elem_of_lookup_2.
Qed.

Lemma entry_ok d l j kv : kvss !! d = Some l -> l !! j = Some kv -> okp kv.1.
Proof using Hkeys Hperm Hsort TotalCmp0. intros Hd Hj. exact (Forall_lookup_1 _ _ _ _ Hkeys (entry_rank d l j kv Hd Hj)). Qed.

Lemma find_entry i kv : kvs !! i = Some kv -> ∃ d l j, kvss !! d = Some l ∧ l !! j = Some kv.
Proof using Hperm.
  intros Hi. apply list_elem_of_lookup_2 in Hi. rewrite Hperm in Hi.
  apply list_elem_of_In, in_concat in Hi as (l & Hl & Hkv). apply list_elem_of_In, list_elem_of_lookup in Hl as [d Hd].
  apply list_elem_of_In, list_elem_of_lookup in Hkv as [j Hj]. by exists d, l, j.
Qed.

Lemma rank_lt a b : kvs !! rank a = Some a -> kvs !! rank b = Some b -> Compare cmp a.1 b.1 < 0 <-> (rank a < rank b)%nat.
Proof using Hkeys Hsort TotalCmp0.
  intros Ha Hb. split; [|by intros; eapply Hsort]. intros Hlt.
  pose proof (Forall_lookup_1 _ _ _ _ Hkeys Ha). pose proof (Forall_lookup_1 _ _ _ _ Hkeys Hb).
  destruct (Nat.lt_trichotomy (rank a) (rank b)) as [?|[E|E]]; [done| |].
  - rewrite E in Ha. simplify_eq. rewrite (cmp_refl (Compare cmp) okp) in Hlt by done. lia.
  - pose proof (Hsort _ _ _ _ E Hb Ha) as Hgt. apply (cmp_flip (Compare cmp) okp) in Hgt; [lia|done..].
Qed.

(** Ranks increase along a child. *)
Lemma child_rank d l j j' a b : kvss !! d = Some l -> l !! j = Some a -> l !! j' = Some b -> (rank a < rank b)%nat <-> (j < j')%nat.
Proof using Hkeys Hperm Hsort Hsorts TotalCmp0.
  intros Hd Ha Hb. pose proof (entry_rank _ _ _ _ Hd Ha) as Ra. pose proof (entry_rank _ _ _ _ Hd Hb) as Rb. split.
  - intros Hlt. destruct (Nat.lt_trichotomy j j') as [?|[->|Hgt]]; [done|simplify_eq; lia|].
    pose proof (Hsorts _ _ Hd _ _ _ _ Hgt Hb Ha) as Hc. apply (rank_lt b a) in Hc; [lia|done..].
  - intros Hlt. apply (rank_lt a b); [done..|]. by apply (Hsorts _ _ Hd j j').
Qed.

(** An entry is in one child only. *)
Lemma rank_child d d' l l' j j' a b : kvss !! d = Some l -> kvss !! d' = Some l' -> l !! j = Some a -> l' !! j' = Some b ->
  rank a = rank b -> d = d'.
Proof using Hkeys Hperm Hsort TotalCmp0.
  assert (NoDup kvs) as Hnd.
  { apply NoDup_alt. intros i i' kv Hi Hi'. rewrite <- (rank_lookup i kv), <- (rank_lookup i' kv) by done. done. }
  rewrite Hperm in Hnd. intros Hd Hd' Ha Hb E. pose proof (entry_rank _ _ _ _ Hd Ha) as Ra.
  pose proof (entry_rank _ _ _ _ Hd' Hb) as Rb. rewrite <- E in Rb. simplify_eq.
  assert (∀ e e' x x', (e < e')%nat -> kvss !! e = Some x -> kvss !! e' = Some x' -> a ∈ x -> a ∈ x' -> False) as Hone.
  { intros e e' x x' He Hx Hx' Hax Hax'. rewrite <- (take_drop_middle kvss e x Hx), concat_app in Hnd.
    apply list.NoDup_app in Hnd as (_ & _ & Hnd). cbn [concat] in Hnd. apply list.NoDup_app in Hnd as (_ & Hdisj & _). apply (Hdisj a Hax).
    apply list_elem_of_In, in_concat. exists x'. split; apply list_elem_of_In; [|done].
    apply (list_elem_of_lookup_2 _ (e' - S e)). rewrite lookup_drop. by replace (S e + (e' - S e))%nat with e' by lia. }
  apply list_elem_of_lookup_2 in Ha, Hb. destruct (Nat.lt_trichotomy d d') as [?|[?|?]]; [|done|]; exfalso; by eauto.
Qed.

(** The first [p] entries of [l] are those of rank below [i]. *)
Definition cut (l : list (Slice * Slice)) (i p : nat) : Prop :=
  (p <= length l)%nat ∧ ∀ j kv, l !! j = Some kv -> (j < p)%nat <-> (rank kv < i)%nat.

(** A position on the last of them, or the end if there is none. *)
Definition rcut (l : list (Slice * Slice)) (i p : nat) : Prop :=
  ∃ n, cut l i n ∧ p = match n with O => length l | S j => j end.

Lemma cut_entry d l p kv : kvss !! d = Some l -> l !! p = Some kv -> cut l (rank kv) p.
Proof using Hkeys Hperm Hsort Hsorts TotalCmp0.
  intros Hd Hp. split; [by apply lookup_lt_Some in Hp; lia|]. intros j kv' Hj. symmetry. by eapply child_rank.
Qed.

Lemma cut_S d l p kv : kvss !! d = Some l -> l !! p = Some kv -> cut l (S (rank kv)) (S p).
Proof using Hkeys Hperm Hsort Hsorts TotalCmp0.
  intros Hd Hp. split; [by apply lookup_lt_Some in Hp; lia|]. intros j kv' Hj.
  pose proof (child_rank _ _ _ _ _ _ Hd Hp Hj). lia.
Qed.

(** Other children do not have the entry of rank [i]. *)
Lemma cut_other c lc pc kv d l i p : kvss !! c = Some lc -> lc !! pc = Some kv -> rank kv = i -> d ≠ c -> kvss !! d = Some l ->
  cut l i p <-> cut l (S i) p.
Proof using Hkeys Hperm Hsort TotalCmp0.
  intros Hc Hkv <- Hne Hd. unfold cut. apply and_iff_compat_l.
  assert (∀ j kv', l !! j = Some kv' -> (rank kv' < rank kv)%nat <-> (rank kv' < S (rank kv))%nat) as Hr.
  { intros j kv' Hj. split; [lia|]. intros Hlt. assert (rank kv' ≠ rank kv); [|lia]. intros E. apply Hne. by eapply rank_child. }
  split; intros H j kv' Hj; rewrite (H j kv' Hj); [|symmetry]; by eapply Hr.
Qed.

Lemma cut_seek d l target : kvss !! d = Some l -> okp target -> cut l (seek_index cmp target kvs) (seek_index cmp target l).
Proof using Hkeys Hperm Hsort Hsorts TotalCmp0.
  intros Hd Ht. split; [by apply seek_index_spec|]. intros j kv Hj. pose proof (entry_rank _ _ _ _ Hd Hj) as Hr.
  rewrite (seek_index_below okp l j kv); [|done|by eapply Hsorts| |done]; [by rewrite (seek_index_below okp kvs (rank kv) kv)|].
  apply Forall_lookup. intros j' kv' Hj'. by eapply entry_ok.
Qed.

(** Every child is on its list, in a position that satisfies [R]. *)
Definition childs (R : nat -> list (Slice * Slice) -> nat -> Prop) (cs : list (IteratorWrapper I)) : Prop :=
  length cs = length kvss ∧
  ∀ d w l, cs !! d = Some w -> kvss !! d = Some l -> ∃ p, w_at (at_ d) w p ∧ R d l p.

Lemma childs_impl R R' cs : childs R cs -> (∀ d l p, kvss !! d = Some l -> R d l p -> R' d l p) -> childs R' cs.
Proof. intros [Hl H] Himp. split; [done|]. intros d w l Hw Hd. destruct (H d w l Hw Hd) as (p & Hp & HR). eauto. Qed.

Lemma childs_child R cs d l : childs R cs -> kvss !! d = Some l -> ∃ w p, cs !! d = Some w ∧ w_at (at_ d) w p ∧ R d l p.
Proof.
  intros [Hl H] Hd. destruct (lookup_lt_is_Some_2 cs d) as [w Hw]; [rewrite Hl; by eapply lookup_lt_Some|].
  destruct (H d w l Hw Hd) as (p & ? & ?). by exists w, p.
Qed.

(** A loop over the children. *)
Lemma for_children_childs R R' f cs : childs R cs ->
  (∀ d w l p, kvss !! d = Some l -> w_at (at_ d) w p -> R d l p -> ∃ w' p', f d w = Some w' ∧ w_at (at_ d) w' p' ∧ R' d l p') ->
  ∃ cs', for_children f 0 cs = Some cs' ∧ childs R' cs'.
Proof.
  intros [Hl Hcs] Hf.
  assert (∀ k ds, drop k cs = ds -> ∃ ds', for_children f k ds = Some ds' ∧ length ds' = length ds ∧
    ∀ d w l, ds' !! d = Some w -> kvss !! (k + d)%nat = Some l -> ∃ p, w_at (at_ (k + d)) w p ∧ R' (k + d)%nat l p) as Hgen.
  { intros k ds. revert k. induction ds as [|w ds IH]; intros k Hk; [by exists []|].
    assert (cs !! k = Some w) as Hw by (rewrite <- (Nat.add_0_r k), <- lookup_drop, Hk; done).
    destruct (lookup_lt_is_Some_2 kvss k) as [l Hkl]; [rewrite <- Hl; by eapply lookup_lt_Some|].
    destruct (Hcs k w l Hw Hkl) as (p & Hp & HR). destruct (Hf k w l p Hkl Hp HR) as (w' & p' & E & Hp' & HR').
    destruct (IH (S k)) as (ds' & E' & Hlen & Hds); [by rewrite <- Nat.add_1_r, <- drop_drop, Hk|].
    exists (w' :: ds'). cbn [for_children]. rewrite E. cbn [mbind option_bind]. rewrite E'. split_and!; [done|by simpl; rewrite Hlen|].
    intros [|d] w1 l1 Hd Hkd; simpl in Hd; [rewrite Nat.add_0_r in *; simplify_eq; eauto|].
    rewrite <- Nat.add_succ_comm in *. by apply Hds. }
  destruct (Hgen 0%nat cs eq_refl) as (cs' & E & Hlen & Hcs'). exists cs'. split; [done|]. split; [by rewrite Hlen|]. exact Hcs'.
Qed.

(** The iterator stands on entry [i]: so does [current_], and the other
    children are on the first entry after it or on the last one before it. *)
Definition mg_at (m : MergingIterator I) (i : nat) : Prop :=
  (i = length kvs ∧ current_ m = None ∧ childs (fun _ _ _ => True) (children_ m)) ∨
  ∃ c kv, kvs !! i = Some kv ∧ current_ m = Some c ∧ (c < length kvss)%nat ∧
    childs (fun d l p => if decide (d = c) then l !! p = Some kv
                         else match direction_ m with kForward => cut l i p | kReverse => rcut l i p end) (children_ m).

Lemma child_view d l w p : kvss !! d = Some l -> w_at (at_ d) w p -> l !! p = i_view w.
Proof using Hcur. intros Hd Hw. pose proof (Hcur d l Hd). symmetry. exact (cur_view w p Hw). Qed.

Lemma child_valid d l w p : kvss !! d = Some l -> w_at (at_ d) w p -> (p < length l)%nat -> w_Valid w = true ∧ is_Some (l !! p).
Proof using Hcur.
  intros Hd Hw Hp. destruct (lookup_lt_is_Some_2 l p Hp) as [kv Hkv]. split; [|by rewrite Hkv].
  rewrite (child_view d l w p Hd Hw) in Hkv. unfold i_view in Hkv. simpl in Hkv. by destruct (w_Valid w).
Qed.

Lemma view_valid (w : IteratorWrapper I) : w_Valid w = true -> i_view w = Some (w_key w, w_value w).
Proof. unfold i_view. simpl. by intros ->. Qed.

Lemma childs_ok R cs c : childs R cs -> c ∈ imap pair cs -> w_Valid c.2 = true -> okp (w_key c.2).
Proof using Hcur Hkeys Hperm Hsort TotalCmp0.
  destruct c as [d w]. intros [Hl H] Hin%elem_of_imap_pair Hv. simpl in *.
  destruct (lookup_lt_is_Some_2 kvss d) as [l Hd]; [rewrite <- Hl; by eapply lookup_lt_Some|].
  destruct (H d w l Hin Hd) as (p & Hp & _). pose proof (child_view d l w p Hd Hp) as E. rewrite (view_valid w Hv) in E.
  exact (entry_ok d l p _ Hd E).
Qed.

(** The other children stay where they are when the chosen one is on [kv]. *)
Lemma chosen cs c w kv (R : list (Slice * Slice) -> nat -> Prop) (R' : list (Slice * Slice) -> nat -> Prop) :
  childs (fun _ => R) cs -> cs !! c = Some w -> i_view w = Some kv ->
  (∀ d l p, d ≠ c -> kvss !! d = Some l -> R l p -> R' l p) ->
  childs (fun d l p => if decide (d = c) then l !! p = Some kv else R' l p) cs.
Proof using Hcur.
  intros [Hl H] Hc Hv Hoth. split; [done|]. intros d w' l Hd Hl'. destruct (H d w' l Hd Hl') as (p & Hp & HR).
  exists p. split; [done|]. case_decide; [|by apply (Hoth d)]. subst. rewrite (child_view c l w' p Hl' Hp). by simplify_eq.
Qed.

Lemma better_smaller : (∀ a, okp a -> (Compare cmp a a <? 0) = false) ∧
  (∀ a b c, okp a -> okp b -> okp c -> (Compare cmp a b <? 0) = false -> (Compare cmp c b <? 0) = true -> (Compare cmp a c <? 0) = false).
Proof using TotalCmp0.
  split; [intros a Ha; by rewrite (cmp_refl (Compare cmp) okp a Ha)|]. intros a b c Ha Hb Hc H1 H2. bool_to_prop.
  apply Z.ltb_ge. apply Z.nlt_ge. intros H3. pose proof (cmp_lt_trans (Compare cmp) okp a c b Ha Hc Hb H3 H2). lia.
Qed.

Lemma better_larger : (∀ a, okp a -> (0 <? Compare cmp a a) = false) ∧
  (∀ a b c, okp a -> okp b -> okp c -> (0 <? Compare cmp a b) = false -> (0 <? Compare cmp c b) = true -> (0 <? Compare cmp a c) = false).
Proof using TotalCmp0.
  split; [intros a Ha; by rewrite (cmp_refl (Compare cmp) okp a Ha)|]. intros a b c Ha Hb Hc H1 H2. bool_to_prop.
  apply Z.ltb_ge. apply (cmp_le_trans a b c); [done..|]. apply Z.lt_le_incl. by apply (cmp_flip (Compare cmp) okp).
Qed.

Lemma cut_first_ge d l i p kv : kvss !! d = Some l -> cut l i p -> l !! p = Some kv -> (i <= rank kv)%nat.
Proof. intros Hd [_ Hc] Hp. specialize (Hc p kv Hp). lia. Qed.

Lemma rcut_last_lt l i p kv : rcut l i p -> l !! p = Some kv -> (rank kv < i)%nat.
Proof.
  intros (n & [Hn Hc] & ->) Hp. destruct n as [|j]; [apply lookup_lt_Some in Hp; lia|]. apply (Hc j kv Hp). lia.
Qed.

Lemma find_smallest m i : (i <= length kvs)%nat -> childs (fun _ l p => cut l i p) (children_ m) -> direction_ m = kForward ->
  mg_at (FindSmallest cmp m) i.
Proof using Hcur Hkeys Hperm Hsort Hsorts TotalCmp0.
  intros Hi Hch Hdir. unfold FindSmallest.
  pose proof (pick_best _ okp (proj1 better_smaller) (proj2 better_smaller) _ (fun c => childs_ok _ _ c Hch)) as Hbest.
  (* the child that holds entry [i] *)
  assert (∀ kv0, kvs !! i = Some kv0 -> ∃ d w kv1, (d, w) ∈ imap pair (children_ m) ∧ i_view w = Some kv1 ∧
    kvs !! rank kv1 = Some kv1 ∧ (rank kv1 <= i)%nat) as Hex.
  { intros kv0 H0. destruct (find_entry i kv0 H0) as (d & l & j & Hd & Hj).
    destruct (childs_child _ _ d l Hch Hd) as (w & p & Hw & Hp & Hcut). pose proof (rank_lookup i kv0 H0) as Hr.
    pose proof (proj2 Hcut j kv0 Hj) as Hjp. pose proof (lookup_lt_Some _ _ _ Hj).
    destruct (child_valid d l w p Hd Hp) as [_ [kv1 H1]]; [lia|]. exists d, w, kv1.
    rewrite elem_of_imap_pair, <- (child_view d l w p Hd Hp). split_and!; [done|done|by eapply entry_rank|].
    pose proof (child_rank d l j p kv0 kv1 Hd Hj H1). lia. }
  destruct (foldl _ None _) as [[c w]|] eqn:Ef; simpl in Hbest.
  - destruct Hbest as (Hin%elem_of_imap_pair & Hv & Hmin). pose proof (view_valid w Hv) as Hvw.
    destruct (lookup_lt_is_Some_2 kvss c) as [l Hc]; [rewrite <- (proj1 Hch); by eapply lookup_lt_Some|].
    destruct (proj2 Hch c w l Hin Hc) as (p & Hp & Hcut). rewrite <- (child_view c l w p Hc Hp) in Hvw.
    set (kv := (w_key w, w_value w)) in *. pose proof (cut_first_ge c l i p kv Hc Hcut Hvw) as Hge.
    pose proof (entry_rank c l p kv Hc Hvw) as Hr. destruct (lookup_lt_is_Some_2 kvs i) as [kv0 H0]; [apply lookup_lt_Some in Hr; lia|].
    destruct (Hex kv0 H0) as (d & w1 & kv1 & Hin1 & Hv1 & Hr1 & Hle1).
    assert (rank kv = i) as Hrk.
    { assert (¬ (rank kv1 < rank kv)%nat); [|lia]. rewrite <- (rank_lt kv1 kv Hr1 Hr). unfold i_view in Hv1. simpl in Hv1.
      destruct (w_Valid w1) eqn:Ev1; simplify_eq/=. specialize (Hmin _ Hin1 Ev1). simpl in Hmin. bool_to_prop. lia. }
    right. exists c, kv. rewrite <- Hrk at 1. split_and!; [done|done|by eapply lookup_lt_Some|]. cbn [children_ direction_].
    apply (chosen _ _ w _ (fun l p => cut l i p)); [done|done|by apply view_valid|]. intros. by rewrite Hdir.
  - left. cbn [current_ children_]. split_and!; [|done|by eapply childs_impl].
    destruct (decide (i = length kvs)) as [|Hne]; [done|]. destruct (lookup_lt_is_Some_2 kvs i) as [kv0 H0]; [lia|].
    destruct (Hex kv0 H0) as (d & w & kv1 & Hin & Hv & _). specialize (Hbest _ Hin). simpl in Hbest.
    unfold i_view in Hv. simpl in Hv. by rewrite Hbest in Hv.
Qed.

Lemma find_largest m i : (i <= length kvs)%nat -> childs (fun _ l p => rcut l i p) (children_ m) -> direction_ m = kReverse ->
  mg_at (FindLargest cmp m) (match i with O => length kvs | S j => j end).
Proof using Hcur Hkeys Hperm Hsort Hsorts TotalCmp0.
  intros Hi Hch Hdir. unfold FindLargest.
  assert (∀ c, c ∈ reverse (imap pair (children_ m)) -> w_Valid c.2 = true -> okp (w_key c.2)) as Hok.
  { intros c. rewrite elem_of_reverse. apply (childs_ok _ _ c Hch). }
  pose proof (pick_best _ okp (proj1 better_larger) (proj2 better_larger) _ Hok) as Hbest. clear Hok.
  (* the child that holds the entry before [i] *)
  assert (∀ i0 kv0, i = S i0 -> kvs !! i0 = Some kv0 -> ∃ d w kv1, (d, w) ∈ reverse (imap pair (children_ m)) ∧ i_view w = Some kv1 ∧
    kvs !! rank kv1 = Some kv1 ∧ (i0 <= rank kv1)%nat) as Hex.
  { intros i0 kv0 Ei H0. destruct (find_entry i0 kv0 H0) as (d & l & j & Hd & Hj).
    destruct (childs_child _ _ d l Hch Hd) as (w & p & Hw & Hp & (n & [Hn Hcut] & Hpn)). pose proof (rank_lookup i0 kv0 H0) as Hr.
    pose proof (Hcut j kv0 Hj) as Hjp. destruct n as [|n]; [lia|]. subst p.
    destruct (child_valid d l w n Hd Hp) as [_ [kv1 H1]]; [lia|]. exists d, w, kv1.
    rewrite elem_of_reverse, elem_of_imap_pair, <- (child_view d l w n Hd Hp). split_and!; [done|done|by eapply entry_rank|].
    pose proof (child_rank d l n j kv1 kv0 Hd H1 Hj). lia. }
  destruct (foldl _ None _) as [[c w]|] eqn:Ef; simpl in Hbest.
  - destruct Hbest as (Hin & Hv & Hmax). rewrite elem_of_reverse, elem_of_imap_pair in Hin. pose proof (view_valid w Hv) as Hvw.
    destruct (lookup_lt_is_Some_2 kvss c) as [l Hc]; [rewrite <- (proj1 Hch); by eapply lookup_lt_Some|].
    destruct (proj2 Hch c w l Hin Hc) as (p & Hp & Hcut). rewrite <- (child_view c l w p Hc Hp) in Hvw.
    set (kv := (w_key w, w_value w)) in *. pose proof (rcut_last_lt l i p kv Hcut Hvw) as Hlt.
    pose proof (entry_rank c l p kv Hc Hvw) as Hr. destruct i as [|i0]; [lia|].
    destruct (lookup_lt_is_Some_2 kvs i0) as [kv0 H0]; [lia|]. destruct (Hex i0 kv0 eq_refl H0) as (d & w1 & kv1 & Hin1 & Hv1 & Hr1 & Hle1).
    assert (rank kv = i0) as Hrk.
    { assert (¬ (rank kv < rank kv1)%nat); [|lia]. rewrite <- (rank_lt kv kv1 Hr Hr1). unfold i_view in Hv1. simpl in Hv1.
      destruct (w_Valid w1) eqn:Ev1; simplify_eq/=. specialize (Hmax _ Hin1 Ev1). simpl in Hmax. bool_to_prop.
      pose proof (Forall_lookup_1 _ _ _ _ Hkeys Hr1). pose proof (Forall_lookup_1 _ _ _ _ Hkeys Hr).
      rewrite (cmp_flip (Compare cmp) okp) by done. simpl in *. lia. }
    right. exists c, kv. rewrite <- Hrk at 1. split_and!; [done|done|by eapply lookup_lt_Some|]. cbn [children_ direction_].
    apply (chosen _ _ w _ (fun l p => rcut l (S i0) p)); [done|done|by apply view_valid|].
    intros d' l' p' Hne Hd' (n & Hn & Hpn). rewrite Hdir. exists n. split; [|done]. by eapply (cut_other c l p kv).
  - left. cbn [current_ children_]. split_and!; [|done|by eapply childs_impl]. destruct i as [|i0]; [done|exfalso].
    destruct (lookup_lt_is_Some_2 kvs i0) as [kv0 H0]; [lia|].
    destruct (Hex i0 kv0 eq_refl H0) as (d & w & kv1 & Hin & Hv & _). specialize (Hbest _ Hin). simpl in Hbest.
    unfold i_view in Hv. simpl in Hv. by rewrite Hbest in Hv.
Qed.

(** *** Moving *)

Lemma mg_at_childs m i : mg_at m i -> childs (fun _ _ _ => True) (children_ m).
Proof. intros [(_ & _ & H)|(c & kv & _ & _ & _ & H)]; [done|]. by eapply childs_impl. Qed.

Lemma cut_0 l : cut l 0 0.
Proof. split; [lia|]. intros. lia. Qed.

Lemma rcut_end d l : kvss !! d = Some l -> rcut l (length kvs) (length l - 1).
Proof using Hkeys Hperm Hsort TotalCmp0.
  intros Hd. exists (length l). split; [|by destruct l as [|x l]; simpl; lia]. split; [done|]. intros j kv Hj.
  pose proof (lookup_lt_Some _ _ _ (entry_rank d l j kv Hd Hj)). apply lookup_lt_Some in Hj. lia.
Qed.

(** [current_] moves. *)
Lemma on_current_childs f m c kv (R R' : nat -> list (Slice * Slice) -> nat -> Prop) :
  current_ m = Some c -> (c < length kvss)%nat ->
  childs (fun d l p => if decide (d = c) then l !! p = Some kv else R d l p) (children_ m) ->
  (∀ d l p, d ≠ c -> kvss !! d = Some l -> R d l p -> R' d l p) ->
  (∀ w l p, kvss !! c = Some l -> l !! p = Some kv -> w_at (at_ c) w p -> ∃ w' p', f w = Some w' ∧ w_at (at_ c) w' p' ∧ R' c l p') ->
  ∃ cs, on_current f m = Some (set_children cs m) ∧ childs R' cs.
Proof.
  intros Hcur0 Hc Hch Hoth Hf. destruct (lookup_lt_is_Some_2 kvss c Hc) as [l Hl].
  destruct (childs_child _ _ c l Hch Hl) as (w & p & Hw & Hp & HR). rewrite decide_True in HR by done.
  destruct (Hf w l p Hl HR Hp) as (w' & p' & E & Hp' & HR'). unfold on_current. rewrite Hcur0. cbn [mbind option_bind].
  rewrite Hw. cbn [mbind option_bind]. rewrite E. cbn [mbind option_bind]. eexists. split; [done|].
  split; [rewrite length_insert; apply Hch|]. intros d w1 l1 Hd Hl1. destruct (decide (d = c)) as [->|Hne].
  - rewrite list_lookup_insert_eq in Hd by by eapply lookup_lt_Some. simplify_eq. by exists p'.
  - rewrite list_lookup_insert_ne in Hd by done. destruct (proj2 Hch d w1 l1 Hd Hl1) as (p1 & Hp1 & HR1).
    rewrite decide_False in HR1 by done. exists p1. auto.
Qed.

Lemma current_key m i c kv : current_ m = Some c -> (c < length kvss)%nat ->
  childs (fun d l p => if decide (d = c) then l !! p = Some kv else match direction_ m with kForward => cut l i p | kReverse => rcut l i p end) (children_ m) ->
  mg_key m = kv.1 ∧ mg_value m = kv.2.
Proof using Hcur.
  intros Hcur0 Hc Hch. destruct (lookup_lt_is_Some_2 kvss c Hc) as [l Hl].
  destruct (childs_child _ _ c l Hch Hl) as (w & p & Hw & Hp & HR). rewrite decide_True in HR by done.
  unfold mg_key, mg_value, mg_child. rewrite Hcur0. cbn [mbind option_bind]. rewrite Hw.
  rewrite (child_view c l w p Hl Hp) in HR. unfold i_view in HR. simpl in HR. destruct (w_Valid w); by simplify_eq.
Qed.

(** Turning around: every other child seeks the key, and moves to the right
    side of it. *)
Lemma turn_childs m i c kv (R R' : nat -> list (Slice * Slice) -> nat -> Prop) g :
  kvs !! i = Some kv -> current_ m = Some c -> (c < length kvss)%nat ->
  childs (fun d l p => if decide (d = c) then l !! p = Some kv else R d l p) (children_ m) ->
  (∀ d l w p, d ≠ c -> kvss !! d = Some l -> w_at (at_ d) w p -> cut l i p ->
    ∃ w' p', g w = Some w' ∧ w_at (at_ d) w' p' ∧ R' d l p') ->
  ∃ cs, for_children (fun d child => if is_current m d then Some child else child ← w_Seek kv.1 child; g child) 0 (children_ m) = Some cs ∧
    childs (fun d l p => if decide (d = c) then l !! p = Some kv else R' d l p) cs.
Proof using Hcur Hkeys Hperm Hsort Hsorts TotalCmp0.
  intros Hi Hc Hlt Hch Hg. assert (okp kv.1) as Hok by exact (Forall_lookup_1 _ _ _ _ Hkeys Hi). apply (for_children_childs _ (fun d l p => if decide (d = c) then l !! p = Some kv else R' d l p) _ _ Hch).
  intros d w l p Hd Hp HR. unfold is_current. rewrite Hc. destruct (decide (d = c)) as [->|Hne].
  - rewrite Nat.eqb_refl. exists w, p. split_and!; done.
  - rewrite (proj2 (Nat.eqb_neq d c) Hne). pose proof (Hcur d l Hd).
    destruct (cur_seek w p kv.1 Hp Hok) as (w1 & E1 & Hp1). simpl in E1. rewrite E1. cbn [mbind option_bind].
    apply (Hg d l w1 (seek_index cmp kv.1 l)); [done..|]. rewrite <- (rank_lookup i kv Hi). by apply cut_seek with d.
Qed.

Lemma mg_Next_at m i : mg_at m i -> (i < length kvs)%nat -> ∃ m', mg_Next cmp m = Some m' ∧ mg_at m' (S i).
Proof using Hcur Hkeys Hperm Hsort Hsorts TotalCmp0.
  intros [(-> & _)|(c & kv & Hi & Hc & Hlt & Hch)] Hil; [lia|]. unfold mg_Next.
  assert (∃ m1, match direction_ m with kForward => Some m | kReverse => turn_forward cmp m end = Some m1 ∧ direction_ m1 = kForward ∧
    current_ m1 = Some c ∧ childs (fun d l p => if decide (d = c) then l !! p = Some kv else cut l i p) (children_ m1))
    as (m1 & -> & Hd1 & Hc1 & Hch1).
  { pose proof (current_key m i c kv Hc Hlt Hch) as [Hk _]. destruct (direction_ m) eqn:Ed; [by exists m|]. unfold turn_forward. rewrite Hk.
    destruct (turn_childs m i c kv _ (fun _ l p => cut l i p) (fun child =>
      if w_Valid child && (Compare cmp kv.1 (w_key child) =? 0) then w_Next child else Some child) Hi Hc Hlt Hch) as (cs & E & Hcs).
    { intros d l w p Hne Hd Hp Hcut. exists w, p. split_and!; [|done|done].
      destruct (w_Valid w) eqn:Ev; [|done]. simpl. destruct (Z.eqb_spec (Compare cmp kv.1 (w_key w)) 0) as [E0|]; [exfalso|done].
      pose proof (child_view d l w p Hd Hp) as Hv. rewrite (view_valid w Ev) in Hv. pose proof (entry_rank d l p _ Hd Hv) as Hr.
      pose proof (cut_first_ge d l i p _ Hd Hcut Hv) as Hge.
      assert (rank (w_key w, w_value w) ≠ i).
      { intros Er. apply Hne. destruct (lookup_lt_is_Some_2 kvss c Hlt) as [lc Hlc].
        destruct (childs_child _ _ c lc Hch Hlc) as (wc & pc & _ & _ & HR). rewrite decide_True in HR by done.
        apply (rank_child d c l lc p pc _ kv Hd Hlc Hv HR). by rewrite Er, (rank_lookup i kv Hi). }
      pose proof (Hsort i (rank (w_key w, w_value w)) kv _ ltac:(lia) Hi Hr). simpl in *. lia. }
    eexists. rewrite E. split; [done|]. done. }
  cbn [mbind option_bind].
  destruct (on_current_childs w_Next m1 c kv _ (fun _ l p => cut l (S i) p) Hc1 Hlt Hch1) as (cs & -> & Hcs).
  - intros d l p Hne Hd Hcut. destruct (lookup_lt_is_Some_2 kvss c Hlt) as [lc Hlc].
    destruct (childs_child _ _ c lc Hch Hlc) as (wc & pc & _ & _ & HR). rewrite decide_True in HR by done.
    apply (cut_other c lc pc kv d l i p Hlc HR); [by apply rank_lookup|done..].
  - intros w l p Hl Hp Hw. pose proof (Hcur c l Hl). destruct (cur_next w p Hw (lookup_lt_Some _ _ _ Hp)) as (w' & E & Hw').
    exists w', (S p). split_and!; [done..|]. rewrite <- (rank_lookup i kv Hi). by eapply cut_S.
  - cbn [mbind option_bind]. eexists. split; [done|]. by apply find_smallest.
Qed.

Lemma mg_Prev_at m i : mg_at m i -> (i < length kvs)%nat ->
  ∃ m', mg_Prev cmp m = Some m' ∧ mg_at m' (match i with O => length kvs | S j => j end).
Proof using Hcur Hkeys Hperm Hsort Hsorts TotalCmp0.
  intros [(-> & _)|(c & kv & Hi & Hc & Hlt & Hch)] Hil; [lia|]. unfold mg_Prev.
  assert (∃ m1, match direction_ m with kReverse => Some m | kForward => turn_reverse m end = Some m1 ∧ direction_ m1 = kReverse ∧
    current_ m1 = Some c ∧ childs (fun d l p => if decide (d = c) then l !! p = Some kv else rcut l i p) (children_ m1))
    as (m1 & -> & Hd1 & Hc1 & Hch1).
  { pose proof (current_key m i c kv Hc Hlt Hch) as [Hk _]. destruct (direction_ m) eqn:Ed; [|by exists m]. unfold turn_reverse. rewrite Hk.
    destruct (turn_childs m i c kv _ (fun _ l p => rcut l i p) (fun child => if w_Valid child then w_Prev child else w_SeekToLast child)
      Hi Hc Hlt Hch) as (cs & E & Hcs).
    { intros d l w p Hne Hd Hp Hcut. pose proof (Hcur d l Hd). pose proof (cur_valid cmp okp l _ w p Hp) as Hv. simpl in Hv. rewrite Hv.
      case_bool_decide as Hpl.
      - destruct (cur_prev w p Hp Hpl) as (w' & E & Hw'). eexists w', _. split_and!; [exact E|exact Hw'|]. by exists p.
      - destruct (cur_last w p Hp) as (w' & E & Hw'). eexists w', _. split_and!; [exact E|exact Hw'|]. exists p. split; [done|].
        destruct Hcut as [Hple _]. replace p with (length l) by lia. destruct l as [|x l]; simpl; lia. }
    eexists. rewrite E. split; [done|]. done. }
  cbn [mbind option_bind].
  destruct (on_current_childs w_Prev m1 c kv _ (fun _ l p => rcut l i p) Hc1 Hlt Hch1) as (cs & -> & Hcs); [done| |].
  - intros w l p Hl Hp Hw. pose proof (Hcur c l Hl). destruct (cur_prev w p Hw (lookup_lt_Some _ _ _ Hp)) as (w' & E & Hw').
    eexists w', _. split_and!; [exact E|exact Hw'|]. exists p. split; [|done]. rewrite <- (rank_lookup i kv Hi). by eapply cut_entry.
  - cbn [mbind option_bind]. eexists. split; [done|]. apply find_largest; [lia|done|done].
Qed.

Lemma first_error_ok s cs : childs (fun _ _ _ => True) cs -> s = Status_OK -> first_error s cs = Status_OK.
Proof using Hcur.
  intros [Hl Hcs] ->. assert (∀ w, w ∈ cs -> w_status w = Status_OK) as Hw.
  { intros w [d Hd]%list_elem_of_lookup. destruct (lookup_lt_is_Some_2 kvss d) as [l Hdl]; [rewrite <- Hl; by eapply lookup_lt_Some|].
    destruct (Hcs d w l Hd Hdl) as (p & Hp & _). pose proof (Hcur d l Hdl). exact (cur_status w p Hp). }
  clear Hl Hcs. induction cs as [|w cs IH]; [done|]. simpl. rewrite (Hw w) by by left. simpl. apply IH. intros w' H'. apply Hw. by right.
Qed.

#[local] Instance merging_cursor : Cursor (I := MergingIterator I) (Iterator0 := merging_iterator cmp) cmp okp kvs mg_at.
Proof using Hcur Hkeys Hperm Hsort Hsorts TotalCmp0.
  split.
  - intros m i [(-> & Hc & _)|(c & kv & Hi & Hc & Hlt & Hch)]; unfold i_view; simpl; unfold mg_Valid; rewrite Hc.
    + by rewrite lookup_ge_None_2.
    + destruct (current_key m i c kv Hc Hlt Hch) as [-> ->]. rewrite Hi. by destruct kv.
  - intros m i [(-> & _)|(c & kv & Hi & _)]; [done|]. apply lookup_lt_Some in Hi. lia.
  - intros m i H%mg_at_childs. by apply first_error_ok.
  - intros m i H%mg_at_childs. simpl. unfold mg_SeekToFirst.
    destruct (for_children_childs _ (fun _ l p => cut l 0 p) (fun _ => w_SeekToFirst) _ H) as (cs & E & Hcs).
    { intros d w l p Hd Hp _. pose proof (Hcur d l Hd). destruct (cur_first w p Hp) as (w' & E & Hw'). exists w', O. by split_and!; [| |apply cut_0]. }
    rewrite E. eexists. split; [done|]. apply (find_smallest (set_direction kForward (set_children cs m))); [lia|done|done].
  - intros m i H%mg_at_childs. simpl. unfold mg_SeekToLast.
    destruct (for_children_childs _ (fun _ l p => rcut l (length kvs) p) (fun _ => w_SeekToLast) _ H) as (cs & E & Hcs).
    { intros d w l p Hd Hp _. pose proof (Hcur d l Hd). destruct (cur_last w p Hp) as (w' & E & Hw'). eexists w', _.
      split_and!; [exact E|exact Hw'|by eapply rcut_end]. }
    rewrite E. eexists. split; [done|].
    pose proof (find_largest (set_direction kReverse (set_children cs m)) (length kvs) ltac:(done) Hcs eq_refl) as Hat.
    replace (length kvs - 1)%nat with (match length kvs with O => length kvs | S j => j end); [exact Hat|]. destruct (length kvs); lia.
  - intros m i target H%mg_at_childs Ht. simpl. unfold mg_Seek.
    destruct (for_children_childs _ (fun _ l p => cut l (seek_index cmp target kvs) p) (fun _ => w_Seek target) _ H) as (cs & E & Hcs).
    { intros d w l p Hd Hp _. pose proof (Hcur d l Hd). destruct (cur_seek w p target Hp Ht) as (w' & E & Hw'). eexists w', _.
      split_and!; [exact E|exact Hw'|by eapply cut_seek]. }
    rewrite E. eexists. split; [done|]. apply (find_smallest (set_direction kForward (set_children cs m))); [|done|done].
    by apply seek_index_spec.
  - intros m i. apply mg_Next_at.
  - intros m i. apply mg_Prev_at.
Qed.

(** *** The three results of [NewMergingIterator] *)

Definition merged_at (m : MergedIterator I) (i : nat) : Prop :=
  match m with
  | MergedEmpty it => it = MkEmpty Status_OK ∧ kvs = [] ∧ i = O
  | MergedOne it => kvss !! 0%nat = Some kvs ∧ at_ 0 it i
  | MergedMany m => mg_at m i
  end.

#[local] Instance merged_cursor : Cursor (Iterator0 := merged_iterator cmp) cmp okp kvs merged_at.
Proof using Hcur Hkeys Hperm Hsort Hsorts TotalCmp0.
  split; intros [it|it|it] i; simpl;
    try (intros (-> & -> & ->); try done; try (intros; eexists; split; [done|]; done); simpl; intros; lia);
    try (intros [H1 H2]; pose proof (Hcur 0%nat kvs H1)).
  - exact (cur_view it i H2).
  - exact (@cur_view _ _ _ _ _ _ merging_cursor it i).
  - exact (cur_bound it i H2).
  - exact (@cur_bound _ _ _ _ _ _ merging_cursor it i).
  - exact (cur_status it i H2).
  - exact (@cur_status _ _ _ _ _ _ merging_cursor it i).
  - destruct (cur_first it i H2) as (it' & -> & H'). by eexists.
  - intros H. destruct (@cur_first _ _ _ _ _ _ merging_cursor it i H) as (it' & E & H'). simpl in E. rewrite E. by eexists.
  - destruct (cur_last it i H2) as (it' & -> & H'). by eexists.
  - intros H. destruct (@cur_last _ _ _ _ _ _ merging_cursor it i H) as (it' & E & H'). simpl in E. rewrite E. by eexists.
  - intros target (-> & E & ->) _. eexists. split; [done|]. by rewrite E.
  - intros target [H1 H2] Ht. pose proof (Hcur 0%nat kvs H1). destruct (cur_seek it i target H2 Ht) as (it' & -> & H'). by eexists.
  - intros target H Ht. destruct (@cur_seek _ _ _ _ _ _ merging_cursor it i target H Ht) as (it' & E & H'). simpl in E. rewrite E. by eexists.
  - intros Hi. destruct (cur_next it i H2 Hi) as (it' & -> & H'). by eexists.
  - intros H Hi. destruct (@cur_next _ _ _ _ _ _ merging_cursor it i H Hi) as (it' & E & H'). simpl in E. rewrite E. by eexists.
  - intros Hi. destruct (cur_prev it i H2 Hi) as (it' & -> & H'). by eexists.
  - intros H Hi. destruct (@cur_prev _ _ _ _ _ _ merging_cursor it i H Hi) as (it' & E & H'). simpl in E. rewrite E. by eexists.
Qed.

Lemma merged_new its : length its = length kvss ->
  (∀ d it l, its !! d = Some it -> kvss !! d = Some l -> at_ d it (length l)) ->
  merged_at (NewMergingIterator its) (length kvs).
Proof using Hcur Hkeys Hperm Hsort Hsorts TotalCmp0.
  intros Hl Hits. destruct its as [|it [|it' its]]; simpl in *.
  - assert (kvss = []) as E by by apply length_zero_iff_nil. assert (kvs = []) as -> by (apply Permutation_nil; by rewrite Hperm, E). done.
  - assert (kvss = [kvs]) as E.
    { destruct kvss as [|l [|? ?]]; [done| |done]. f_equal. symmetry.
      apply (keys_sorted_unique cmp okp); [done|done|by apply (Hsorts 0%nat)|]. rewrite Hperm. simpl. by rewrite app_nil_r. }
    assert (kvss !! 0%nat = Some kvs) as E0 by by rewrite E. split; [done|]. by apply (Hits 0%nat).
  - left. split_and!; [done|done|]. split; [simpl; by rewrite length_fmap|]. intros d w l Hw Hd.
    change (((fun it => w_new (Some it)) <$> it :: it' :: its) !! d = Some w) in Hw.
    rewrite list_lookup_fmap in Hw. apply fmap_Some in Hw as (it1 & Hit1 & ->). exists (length l). split; [|done].
    apply w_Update_at. by eapply Hits.
Qed.

End Cursor.

(** C20. A merging iterator is a cursor in the merged list.  Let the children
    be cursors over sorted lists and [kvs] the sorted list of all their
    entries (keys differ between the children).  After any program of seeks
    and steps, forwards, backwards and turning around, the iterator made by
    [NewMergingIterator] stands on the entry of [kvs] the program leads to,
    and reports no error. *)
Theorem merging_iterator_merges {I : Type} `{!Iterator I} (cmp : Comparator) (okp : Slice -> Prop) `{!TotalCmp (Compare cmp) okp}
    (its : list I) (kvss : list (list (Slice * Slice))) (kvs : list (Slice * Slice)) (at_ : nat -> I -> nat -> Prop) ops i :
  length its = length kvss -> (∀ d it l, its !! d = Some it -> kvss !! d = Some l -> at_ d it (length l)) ->
  (∀ d l, kvss !! d = Some l -> Cursor cmp okp l (at_ d) ∧ keys_sorted cmp l) ->
  kvs ≡ₚ concat kvss -> keys_sorted cmp kvs -> Forall (fun kv => okp kv.1) kvs ->
  Forall (target_ok okp) ops -> cursor_run cmp kvs ops = Some i ->
  ∃ it, iter_run (Iterator0 := merged_iterator cmp) ops (NewMergingIterator its) = Some it ∧
    i_view (Iterator0 := merged_iterator cmp) it = kvs !! i ∧ i_status (Iterator := merged_iterator cmp) it = Status_OK.
Proof.
  intros Hl Hits Hcs Hperm Hsort Hkeys Hops Hrun.
  assert (∀ d l, kvss !! d = Some l -> Cursor cmp okp l (at_ d)) as Hcur by (intros d l Hd; by apply (Hcs d)).
  assert (∀ d l, kvss !! d = Some l -> keys_sorted cmp l) as Hsorts by (intros d l Hd; by apply (Hcs d)).
  pose proof (merged_cursor cmp okp kvss kvs at_ Hcur Hsorts Hperm Hsort Hkeys) as Hc.
  destruct (run_cursor (Iterator0 := merged_iterator cmp) cmp okp kvs (merged_at cmp kvss kvs at_) ops (NewMergingIterator its) i) as (it & ? & ? & ? & _); [|done|done|by exists it].
  by apply (merged_new cmp okp kvss kvs at_ Hcur).
Qed.

#[local] Instance bytewise_list_iterator : Iterator ListIterator := list_iterator BytewiseComparator.

Lemma merging_iterator_merges_witness :
  ∃ it, iter_run (Iterator0 := merged_iterator BytewiseComparator)
      [ToLast; ToPrev; ToNext; ToPrev; ToPrev]
      (NewMergingIterator [MkListIter [([1], [10]); ([4], [40])] 2; MkListIter [([2], [20])] 1]) = Some it ∧
    i_view (Iterator0 := merged_iterator BytewiseComparator) it = Some ([1], [10]) ∧
    i_status (Iterator := merged_iterator BytewiseComparator) it = Status_OK.
Proof.
  set (kvss := [[([1], [10]); ([4], [40])]; [([2], [20])]] : list (list (Slice * Slice))).
  apply (merging_iterator_merges BytewiseComparator (Forall is_u8) _ kvss
    [([1], [10]); ([2], [20]); ([4], [40])] (fun d => list_at (nth d kvss [])) _ 0%nat).
  - done.
  - intros [|[|d]] it l Hit Hl; simpl in *; simplify_eq; split; done || (simpl; lia).
  - intros [|[|d]] l Hl; simpl in Hl; simplify_eq; (split; [apply list_cursor|]); apply keys_sorted_check; by vm_compute.
  - apply perm_skip, perm_swap.
  - apply keys_sorted_check. by vm_compute.
  - repeat constructor; unfold is_u8; simpl; lia.
  - repeat constructor.
  - done.
Defined.
