(* ===== verification/LdbTableFormat.v ===== *)
(** * leveldb: the parts of a table file (format.h, format.cc)

    Block handles, the footer, and reading a block with its type byte and
    checksum.  A file that is read at random positions never changes, so
    reading is a function; it also says whether the bytes were put into the
    caller's buffer.  [None] is an access outside the bytes read. *)

From S2P Require Import Prelude.
From S2P Require Import LdbSlice.
From S2P Require Import LdbCoding.
From S2P Require Import LdbCrc.

(** ** options.h *)

Inductive CompressionType := kNoCompression | kSnappyCompression.

Definition compression_value (t : CompressionType) : Z := match t with kNoCompression => 0 | kSnappyCompression => 1 end.

Record ReadOptions := MkReadOptions { verify_checksums : bool; fill_cache : bool }.

Definition ReadOptions_new : ReadOptions := MkReadOptions false true.

(** ** port_stdcxx.h without HAVE_SNAPPY *)

Definition Snappy_Compress (input : Slice) : option Slice := None.
Definition Snappy_GetUncompressedLength (input : Slice) : option Z := None.
Definition Snappy_Uncompress (input : Slice) : option Slice := None.

(** ** [BlockHandle] *)

Definition kMaxEncodedLength : Z := 10 + 10.

Record BlockHandle := MkBlockHandle { bh_offset : Z; bh_size : Z }.

Definition BlockHandle_new : BlockHandle := MkBlockHandle (2 ^ 64 - 1) (2 ^ 64 - 1).

Definition BlockHandle_EncodeTo (dst : Slice) (h : BlockHandle) : Slice :=
  PutVarint64 (PutVarint64 dst (bh_offset h)) (bh_size h).

Definition BlockHandle_DecodeFrom (input : Slice) (h : BlockHandle) : Status * BlockHandle * Slice :=
  match GetVarint64 input with
  | Some (offset, input) =>
      match GetVarint64 input with
      | Some (sz, input) => (Status_OK, MkBlockHandle offset sz, input)
      | None => (Status_Corruption "bad block handle" [], MkBlockHandle offset (bh_size h), input)
      end
  | None => (Status_Corruption "bad block handle" [], h, input)
  end.

(** ** [Footer] *)

Definition kEncodedLength : Z := 2 * kMaxEncodedLength + 8.

Definition kTableMagicNumber : Z := 0xdb4775248b80fb57.

Definition kBlockTrailerSize : Z := 5.

Record Footer := MkFooter { metaindex_handle_ : BlockHandle; index_handle_ : BlockHandle }.

Definition Footer_new : Footer := MkFooter BlockHandle_new BlockHandle_new.

(** [std::string::resize]. *)
Definition resize (n : nat) (s : Slice) : Slice := take n (s ++ replicate n 0).

Definition Footer_EncodeTo (dst : Slice) (f : Footer) : Slice :=
  let dst := BlockHandle_EncodeTo dst (metaindex_handle_ f) in
  let dst := BlockHandle_EncodeTo dst (index_handle_ f) in
  let dst := resize (Z.to_nat (2 * kMaxEncodedLength)) dst in
  let dst := PutFixed32 dst (u32 (Z.land kTableMagicNumber 0xffffffff)) in
  PutFixed32 dst (u32 (Z.shiftr kTableMagicNumber 32)).

(** The length of the input is not tested before the magic number is read. *)
Definition Footer_DecodeFrom (input : Slice) (f : Footer) : option (Status * Footer * Slice) :=
  if size input <? kEncodedLength then None
  else
    let magic_ptr := drop (Z.to_nat (kEncodedLength - 8)) input in
    let magic_lo := DecodeFixed32 magic_ptr in
    let magic_hi := DecodeFixed32 (drop 4 magic_ptr) in
    let magic := Z.lor (u64 (Z.shiftl magic_hi 32)) magic_lo in
    if negb (magic =? kTableMagicNumber)
    then Some (Status_Corruption "not an sstable (bad magic number)" [], f, input)
    else
      let '(s, meta, input1) := BlockHandle_DecodeFrom input (metaindex_handle_ f) in
      let '(s, index, input1) :=
        if ok s then BlockHandle_DecodeFrom input1 (index_handle_ f) else (s, index_handle_ f, input1) in
      Some (s, MkFooter meta index, if ok s then drop 8 magic_ptr else input1).

(** ** [ReadBlock] *)

(** env.h: status, bytes, and whether they are in the caller's buffer. *)
Class RandomAccessFile (F : Type) := ra_Read : F -> Z -> Z -> Status * Slice * bool.

Record BlockContents := MkBlockContents { data : Slice; cachable : bool; heap_allocated : bool }.

Definition BlockContents_new : BlockContents := MkBlockContents [] false false.

Section ReadBlock.

Context {F : Type} `{!RandomAccessFile F} (addr : Slice -> Z).

(** When the sum of size and trailer wraps, few bytes are read and the type
    byte is looked up outside them. *)
Definition ReadBlock (file : F) (options : ReadOptions) (handle : BlockHandle) : option (Status * BlockContents) :=
  let n := bh_size handle in
  let '(s, contents, in_buf) := ra_Read file (bh_offset handle) (u64 (n + kBlockTrailerSize)) in
  if negb (ok s) then Some (s, BlockContents_new)
  else if negb (size contents =? u64 (n + kBlockTrailerSize))
  then Some (Status_Corruption "truncated block read" [], BlockContents_new)
  else if size contents <? n + kBlockTrailerSize then None
  else
    let n := Z.to_nat n in
    if verify_checksums options &&
       negb (Value (addr contents) (take (n + 1) contents) =? Unmask (DecodeFixed32 (drop (n + 1) contents)))
    then Some (Status_Corruption "block checksum mismatch" [], BlockContents_new)
    else
      let type := byte_of contents n in
      if type =? compression_value kNoCompression
      then Some (Status_OK, MkBlockContents (take n contents) in_buf in_buf)
      else if type =? compression_value kSnappyCompression
      then
        match Snappy_GetUncompressedLength (take n contents) with
        | None => Some (Status_Corruption "corrupted compressed block contents" [], BlockContents_new)
        | Some ulength =>
            match Snappy_Uncompress (take n contents) with
            | None => Some (Status_Corruption "corrupted compressed block contents" [], BlockContents_new)
            | Some ubuf => Some (Status_OK, MkBlockContents (take (Z.to_nat ulength) ubuf) true true)
            end
        end
      else Some (Status_Corruption "bad block type" [], BlockContents_new).

End ReadBlock.
