(* ===== verification/LdbTableBuilder.v ===== *)
(** * leveldb: writing tables (table_builder.h, table_builder.cc)

    A table is a sequence of data blocks, an optional filter block, the
    metaindex block, the index block and the footer.  The builder flushes a
    data block when it is large enough and writes its index entry when the
    next key is known.  [compressed_output] never holds anything without
    Snappy and has no counterpart. *)

From S2P Require Import Prelude.
From S2P Require Import LdbSlice.
From S2P Require Import LdbCoding.
From S2P Require Import LdbCrc.
From S2P Require Import LdbBloom.
From S2P Require Import LdbFilterBlock.
From S2P Require Import LdbFormat.
From S2P Require Import LdbLog.
From S2P Require Import LdbIterator.
From S2P Require Import LdbBlock.
From S2P Require Import LdbTableFormat.

(** ** options.h: the members tables depend on *)

Record Options := MkOptions {
  comparator : Comparator;
  paranoid_checks : bool;
  use_block_cache : bool;  (* block_cache is not null *)
  block_size : Z;
  restart_interval : Z;
  compression : CompressionType;
  filter_policy : option FilterPolicy;
}.

Definition with_restart_interval (o : Options) (interval : Z) : Options :=
  MkOptions (comparator o) (paranoid_checks o) (use_block_cache o) (block_size o) interval (compression o) (filter_policy o).

Section TableBuilder.

Context {F : Type} `{!WritableFile F} (addr : Slice -> Z).

Record TableBuilder := MkTableBuilder {
  options : Options;
  index_block_options : Options;
  file : F;
  offset : Z;
  tb_status : Status;
  data_block : BlockBuilder;
  index_block : BlockBuilder;
  last_key : Slice;
  num_entries : Z;
  closed : bool;
  filter_block_ : option (FilterPolicy * FilterBlockBuilder);  (* with its policy_ *)
  pending_index_entry : bool;
  pending_handle : BlockHandle;
}.

(** [if (filter_block != nullptr) filter_block->f()]. *)
Definition on_filter (f : FilterPolicy -> FilterBlockBuilder -> FilterBlockBuilder) (r : TableBuilder) :
    option (FilterPolicy * FilterBlockBuilder) :=
  (fun pf => (pf.1, f pf.1 pf.2)) <$> filter_block_ r.

Definition TableBuilder_new (o : Options) (f : F) : TableBuilder :=
  let index_options := with_restart_interval o 1 in
  MkTableBuilder o index_options f 0 Status_OK (BlockBuilder_new (restart_interval o))
    (BlockBuilder_new (restart_interval index_options)) [] 0 false
    (match filter_policy o with Some p => Some (p, StartBlock p 0 FilterBlockBuilder_new) | None => None end)
    false BlockHandle_new.

(** Assignments. *)
Definition set_block_options (o : Options) (b : BlockBuilder) : BlockBuilder :=
  MkBlockBuilder (restart_interval o) (bb_buffer_ b) (bb_restarts_ b) (counter_ b) (finished_ b) (last_key_ b).
Definition set_out (f : F) (off : Z) (s : Status) (r : TableBuilder) : TableBuilder :=
  MkTableBuilder (options r) (index_block_options r) f off s (data_block r) (index_block r) (last_key r) (num_entries r)
    (closed r) (filter_block_ r) (pending_index_entry r) (pending_handle r).
Definition set_data_block (b : BlockBuilder) (r : TableBuilder) : TableBuilder :=
  MkTableBuilder (options r) (index_block_options r) (file r) (offset r) (tb_status r) b (index_block r) (last_key r)
    (num_entries r) (closed r) (filter_block_ r) (pending_index_entry r) (pending_handle r).
Definition set_index_block (b : BlockBuilder) (r : TableBuilder) : TableBuilder :=
  MkTableBuilder (options r) (index_block_options r) (file r) (offset r) (tb_status r) (data_block r) b (last_key r)
    (num_entries r) (closed r) (filter_block_ r) (pending_index_entry r) (pending_handle r).
Definition set_last_key (k : Slice) (n : Z) (r : TableBuilder) : TableBuilder :=
  MkTableBuilder (options r) (index_block_options r) (file r) (offset r) (tb_status r) (data_block r) (index_block r) k
    n (closed r) (filter_block_ r) (pending_index_entry r) (pending_handle r).
Definition set_filter (fb : option (FilterPolicy * FilterBlockBuilder)) (r : TableBuilder) : TableBuilder :=
  MkTableBuilder (options r) (index_block_options r) (file r) (offset r) (tb_status r) (data_block r) (index_block r)
    (last_key r) (num_entries r) (closed r) fb (pending_index_entry r) (pending_handle r).
Definition set_pending (p : bool) (h : BlockHandle) (r : TableBuilder) : TableBuilder :=
  MkTableBuilder (options r) (index_block_options r) (file r) (offset r) (tb_status r) (data_block r) (index_block r)
    (last_key r) (num_entries r) (closed r) (filter_block_ r) p h.
Definition set_closed (r : TableBuilder) : TableBuilder :=
  MkTableBuilder (options r) (index_block_options r) (file r) (offset r) (tb_status r) (data_block r) (index_block r)
    (last_key r) (num_entries r) true (filter_block_ r) (pending_index_entry r) (pending_handle r).

(** [same]: the comparators are the same object.  Live block builders see the
    new options. *)
Definition ChangeOptions (same : bool) (o : Options) (r : TableBuilder) : Status * TableBuilder :=
  if negb same then (Status_InvalidArgument (str "changing comparator while building table") [], r)
  else
    let index_options := with_restart_interval o 1 in
    (Status_OK, MkTableBuilder o index_options (file r) (offset r) (tb_status r) (set_block_options o (data_block r))
       (set_block_options index_options (index_block r)) (last_key r) (num_entries r) (closed r) (filter_block_ r)
       (pending_index_entry r) (pending_handle r)).

Definition builder_ok (r : TableBuilder) : bool := ok (tb_status r).

(** Returns the handle that was set. *)
Definition WriteRawBlock (block_contents : Slice) (type : CompressionType) (r : TableBuilder) : BlockHandle * TableBuilder :=
  let handle := MkBlockHandle (offset r) (size block_contents) in
  let '(s, f) := Append block_contents (file r) in
  if ok s then
    let crc := Value (addr block_contents) block_contents in
    let crc := Extend (addr [compression_value type]) crc [compression_value type] in
    let trailer := compression_value type :: EncodeFixed32 (Mask crc) in
    let '(s, f) := Append trailer f in
    (handle, set_out f (if ok s then u64 (offset r + (size block_contents + kBlockTrailerSize)) else offset r) s r)
  else (handle, set_out f (offset r) s r).

(** Returns the handle and the block builder, which is reset. *)
Definition WriteBlock (block : BlockBuilder) (r : TableBuilder) : BlockHandle * BlockBuilder * TableBuilder :=
  let '(raw, block) := BlockBuilder_Finish block in
  let '(block_contents, type) :=
    match compression (options r) with
    | kNoCompression => (raw, kNoCompression)
    | kSnappyCompression =>
        match Snappy_Compress raw with
        | Some compressed =>
            if size compressed <? size raw - size raw / 8 then (compressed, kSnappyCompression) else (raw, kNoCompression)
        | None => (raw, kNoCompression)
        end
    end in
  let '(handle, r) := WriteRawBlock block_contents type r in
  (handle, BlockBuilder_Reset block, r).

Definition TableBuilder_Flush (r : TableBuilder) : TableBuilder :=
  if negb (builder_ok r) then r
  else if BlockBuilder_empty (data_block r) then r
  else
    let '(handle, block, r) := WriteBlock (data_block r) r in
    let r := set_pending (pending_index_entry r) handle (set_data_block block r) in
    let r :=
      if builder_ok r then
        let r := set_pending true (pending_handle r) r in
        let '(s, f) := Flush (file r) in set_out f (offset r) s r
      else r in
    set_filter (on_filter (fun p => StartBlock p (offset r)) r) r.

(** The pending index entry, under the key [k]. *)
Definition add_index_entry (k : Slice) (r : TableBuilder) : TableBuilder :=
  let r := set_last_key k (num_entries r) r in
  let handle_encoding := BlockHandle_EncodeTo [] (pending_handle r) in
  let r := set_index_block (BlockBuilder_Add (last_key r) handle_encoding (index_block r)) r in
  set_pending false (pending_handle r) r.

Definition TableBuilder_Add (key value : Slice) (r : TableBuilder) : TableBuilder :=
  if negb (builder_ok r) then r
  else
    let r := if pending_index_entry r
             then add_index_entry (FindShortestSeparator (comparator (options r)) (last_key r) key) r else r in
    let r := set_filter (on_filter (fun _ fb => AddKey fb key) r) r in
    let r := set_last_key key (num_entries r + 1) r in
    let r := set_data_block (BlockBuilder_Add key value (data_block r)) r in
    let estimated_block_size := CurrentSizeEstimate (data_block r) in
    if block_size (options r) <=? estimated_block_size then TableBuilder_Flush r else r.

(** The metaindex block; its entry takes the name from the options, which are
    dereferenced: [None] when they have lost their policy. *)
Definition meta_index_block (filter_block_handle : BlockHandle) (r : TableBuilder) : option BlockBuilder :=
  let b := BlockBuilder_new (restart_interval (options r)) in
  match filter_block_ r with
  | Some _ =>
      p ← filter_policy (options r);
      Some (BlockBuilder_Add (str "filter." ++ Name p) (BlockHandle_EncodeTo [] filter_block_handle) b)
  | None => Some b
  end.

(** [Finish] after the filter block: metaindex block, index block, footer. *)
Definition finish_rest (filter_block_handle : BlockHandle) (r : TableBuilder) : option (Status * TableBuilder) :=
  '(metaindex_block_handle, r) ←
    (if builder_ok r then
       b ← meta_index_block filter_block_handle r;
       let '(h, _, r) := WriteBlock b r in Some (h, r)
     else Some (BlockHandle_new, r));
  let '(index_block_handle, r) :=
    if builder_ok r then
      let r := if pending_index_entry r
               then add_index_entry (FindShortSuccessor (comparator (options r)) (last_key r)) r else r in
      let '(h, b, r) := WriteBlock (index_block r) r in (h, set_index_block b r)
    else (BlockHandle_new, r) in
  let r :=
    if builder_ok r then
      let footer_encoding := Footer_EncodeTo [] (MkFooter metaindex_block_handle index_block_handle) in
      let '(s, f) := Append footer_encoding (file r) in
      set_out f (if ok s then u64 (offset r + size footer_encoding) else offset r) s r
    else r in
  Some (tb_status r, r).

Definition TableBuilder_Finish (r : TableBuilder) : option (Status * TableBuilder) :=
  let r := TableBuilder_Flush r in
  let r := set_closed r in
  let '(filter_block_handle, r) :=
    match filter_block_ r with
    | Some (p, fb) => if builder_ok r then WriteRawBlock (Finish p fb) kNoCompression r else (BlockHandle_new, r)
    | None => (BlockHandle_new, r)
    end in
  finish_rest filter_block_handle r.

Definition Abandon (r : TableBuilder) : TableBuilder := set_closed r.
Definition NumEntries (r : TableBuilder) : Z := num_entries r.
Definition FileSize (r : TableBuilder) : Z := offset r.

End TableBuilder.

Arguments TableBuilder : clear implicits.
