(* ===== verification/LdbTableBuild.v ===== *)
(** * leveldb: what is stored in a table file is read back

    Block handles and the footer decode to what was encoded; a block with its
    trailer in a file is read back by [ReadBlock], checksum included. *)

From S2P Require Import Prelude.
From S2P Require Import LdbSlice.
From S2P Require Import LdbCoding.
From S2P Require Import LdbCrc.
From S2P Require Import LdbTableFormat.
From S2P Require Import LdbBloom.
From S2P Require Import LdbFilterBlock.
From S2P Require Import LdbFormat.
From S2P Require Import LdbLog.
From S2P Require Import LdbLogThms.
From S2P Require Import LdbIterator.
From S2P Require Import LdbBlock.
From S2P Require Import LdbBlockThms.
From S2P Require Import LdbBlockBuild.
From S2P Require Import LdbTableBuilder.

(** ** Handles and the footer *)

Definition handle_ok (h : BlockHandle) : Prop := is_u64 (bh_offset h) ∧ is_u64 (bh_size h).

Definition handle_enc (h : BlockHandle) : Slice := EncodeVarint64 (bh_offset h) ++ EncodeVarint64 (bh_size h).

Lemma BlockHandle_EncodeTo_eq dst h : BlockHandle_EncodeTo dst h = dst ++ handle_enc h.
Proof. unfold BlockHandle_EncodeTo, handle_enc, PutVarint64. by rewrite app_assoc. Qed.

Lemma handle_enc_u8 h : handle_ok h -> Forall is_u8 (handle_enc h).
Proof. intros [H1 H2]. apply Forall_app; split; by apply EncodeVarint64_u8. Qed.

Lemma handle_decode h h0 rest :
  handle_ok h -> Forall is_u8 rest -> BlockHandle_DecodeFrom (handle_enc h ++ rest) h0 = (Status_OK, h, rest).
Proof.
  intros [H1 H2] Hr. unfold BlockHandle_DecodeFrom, handle_enc. rewrite <- app_assoc.
  rewrite GetVarint64_put; [|done|apply Forall_app; split; [by apply EncodeVarint64_u8|done]].
  rewrite GetVarint64_put by done. by destruct h.
Qed.

Lemma handle_enc_inj h h' : handle_ok h -> handle_ok h' -> handle_enc h = handle_enc h' -> h = h'.
Proof.
  intros H1 H2 E. pose proof (handle_decode h BlockHandle_new [] H1 ltac:(constructor)) as D.
  rewrite E, handle_decode in D by (done || constructor). congruence.
Qed.

Lemma encode_varint64_loop_length n v : (length (encode_varint64_loop n v) <= S n)%nat.
Proof.
  revert v; induction n as [|n IH]; intros v; cbn [encode_varint64_loop]; [simpl; lia|].
  case_if; simpl; [specialize (IH (Z.shiftr v 7))|]; lia.
Qed.

Lemma handle_enc_length h : (length (handle_enc h) <= 20)%nat.
Proof.
  unfold handle_enc, EncodeVarint64. rewrite length_app. pose proof (encode_varint64_loop_length 9 (bh_offset h)).
  pose proof (encode_varint64_loop_length 9 (bh_size h)). lia.
Qed.

Definition footer_ok (f : Footer) : Prop := handle_ok (metaindex_handle_ f) ∧ handle_ok (index_handle_ f).

(** The two handles, padding, the magic number. *)
Lemma Footer_EncodeTo_eq f :
  ∃ pad, length (handle_enc (metaindex_handle_ f) ++ handle_enc (index_handle_ f) ++ replicate pad 0) = 40%nat ∧
  Footer_EncodeTo [] f
  = (handle_enc (metaindex_handle_ f) ++ handle_enc (index_handle_ f) ++ replicate pad 0) ++
    EncodeFixed32 (u32 (Z.land kTableMagicNumber 0xffffffff)) ++ EncodeFixed32 (u32 (Z.shiftr kTableMagicNumber 32)).
Proof.
  pose proof (handle_enc_length (metaindex_handle_ f)). pose proof (handle_enc_length (index_handle_ f)).
  exists (40 - length (handle_enc (metaindex_handle_ f)) - length (handle_enc (index_handle_ f)))%nat. split.
  - rewrite !length_app, length_replicate. lia.
  - unfold Footer_EncodeTo. rewrite !BlockHandle_EncodeTo_eq. unfold PutFixed32 at 1 2. rewrite <- app_assoc. f_equal.
    unfold resize. change (Z.to_nat (2 * kMaxEncodedLength)) with 40%nat. rewrite app_nil_l, take_app, take_replicate, length_app.
    rewrite take_ge by (rewrite length_app; lia). rewrite <- app_assoc. do 3 f_equal. lia.
Qed.

Lemma Footer_size f : size (Footer_EncodeTo [] f) = kEncodedLength.
Proof.
  destruct (Footer_EncodeTo_eq f) as (pad & Hl & ->). unfold size, EncodeFixed32. by rewrite length_app, Hl, length_app, !length_le_split.
Qed.

Lemma footer_decode f f0 : footer_ok f -> Footer_DecodeFrom (Footer_EncodeTo [] f) f0 = Some (Status_OK, f, []).
Proof.
  intros [H1 H2]. unfold Footer_DecodeFrom. rewrite Footer_size, Z.ltb_irrefl.
  destruct (Footer_EncodeTo_eq f) as (pad & Hl & E). rewrite E.
  change (Z.to_nat (kEncodedLength - 8)) with 40%nat. rewrite drop_app_length' by done.
  rewrite DecodeFixed32_encode by done. rewrite drop_app_length' by done.
  rewrite <- (app_nil_r (EncodeFixed32 (u32 (Z.shiftr _ 32)))) at 1. rewrite DecodeFixed32_encode by done.
  change (negb _) with false. cbn iota.
  assert (∀ n, Forall is_u8 (replicate n 0)) as Hz by (intros n; apply Forall_replicate; unfold is_u8; lia).
  rewrite <- !app_assoc, handle_decode; [|done|].
  - cbn [ok]. rewrite handle_decode; [by destruct f|done|]. repeat (apply Forall_app; split); try apply le_split_bytes. done.
  - apply Forall_app; split; [by apply handle_enc_u8|].
    repeat (apply Forall_app; split); try apply le_split_bytes. done.
Qed.

(** ** Stored blocks *)

(** A file whose reads inside [bytes] succeed and are complete. *)
Class ReadsFile {F : Type} `{!RandomAccessFile F} (file : F) (bytes : Slice) : Prop :=
  read_inside off n : 0 <= off -> 0 <= n -> off + n <= size bytes ->
    ∃ in_buf, ra_Read file off n = (Status_OK, take (Z.to_nat n) (drop (Z.to_nat off) bytes), in_buf).

Lemma DecodeFixed32_encode_nil v : is_u32 v -> DecodeFixed32 (EncodeFixed32 v) = v.
Proof. intros Hv. rewrite <- (app_nil_r (EncodeFixed32 v)). by apply DecodeFixed32_encode. Qed.

Section Stored.

Context {F : Type} `{!RandomAccessFile F} (addr waddr : Slice -> Z).

(** The type byte and the checksum the writer puts after a block. *)
Definition trailer (raw : Slice) : Slice :=
  compression_value kNoCompression ::
  EncodeFixed32 (Mask (Extend (waddr [compression_value kNoCompression]) (Value (waddr raw) raw) [compression_value kNoCompression])).

Definition stored (raw : Slice) : Slice := raw ++ trailer raw.

Lemma size_trailer raw : size (trailer raw) = kBlockTrailerSize.
Proof. unfold trailer. rewrite size_cons, size_EncodeFixed32. done. Qed.

Lemma size_stored raw : size (stored raw) = size raw + kBlockTrailerSize.
Proof. unfold stored. by rewrite size_app, size_trailer. Qed.

Lemma ReadBlock_stored file bytes pre raw post ro :
  ReadsFile file bytes -> bytes = pre ++ stored raw ++ post -> Forall is_u8 raw -> size bytes < 2 ^ 64 ->
  ∃ in_buf, ReadBlock addr file ro (MkBlockHandle (size pre) (size raw)) = Some (Status_OK, MkBlockContents raw in_buf in_buf).
Proof.
  intros Hf Hb Hraw Hsz. pose proof (size_nonneg pre). pose proof (size_nonneg raw). pose proof (size_nonneg post).
  assert (size bytes = size pre + (size raw + kBlockTrailerSize) + size post) as Hsb.
  { rewrite Hb, !size_app, size_stored. lia. }
  assert (kBlockTrailerSize = 5) as H5 by done.
  destruct (Hf (size pre) (size raw + kBlockTrailerSize)) as (in_buf & Hread); [lia..|].
  assert (take (Z.to_nat (size raw + kBlockTrailerSize)) (drop (Z.to_nat (size pre)) bytes) = stored raw) as Ht.
  { rewrite Hb. unfold size at 2. rewrite Nat2Z.id, drop_app_length. apply take_app_length'.
    pose proof (size_stored raw). unfold size in *. lia. }
  rewrite Ht in Hread. exists in_buf. unfold ReadBlock. cbn [bh_size bh_offset].
  rewrite u64_small by lia. rewrite Hread. cbn [ok Status_OK negb].
  rewrite size_stored, Z.eqb_refl, Z.ltb_irrefl. cbn [negb].
  unfold size at 1 2 3 4. rewrite !Nat2Z.id.
  assert (take (length raw + 1) (stored raw) = raw ++ [0]) as ->.
  { unfold stored, trailer. rewrite take_app_ge by lia. replace (length raw + 1 - length raw)%nat with 1%nat by lia. done. }
  assert (drop (length raw + 1) (stored raw) = drop 1 (trailer raw)) as ->.
  { unfold stored. rewrite <- drop_drop, drop_app_length. done. }
  assert (byte_of (stored raw) (length raw) = 0) as -> by by (unfold byte_of, stored, trailer; rewrite nth_middle).
  assert (is_u32 0 ∧ Forall is_u8 [0]) as [U0 B0] by (split; [|repeat constructor]; unfold is_u32, is_u8; lia).
  assert (Unmask (DecodeFixed32 (drop 1 (trailer raw))) = Value (addr (stored raw)) (raw ++ [0])) as ->.
  { change (drop 1 (trailer raw)) with (EncodeFixed32 (Mask (Extend (waddr [0]) (Value (waddr raw) raw) [0]))).
    unfold Value. assert (is_u32 (crc32c 0 raw)) by by apply crc32c_u32.
    rewrite !Extend_crc32c; try (done || by apply Forall_app); [|by rewrite Extend_crc32c].
    rewrite DecodeFixed32_encode_nil by apply Mask_u32. rewrite Unmask_Mask by by apply crc32c_u32. by rewrite crc32c_app. }
  rewrite Z.eqb_refl, andb_false_r. cbn [compression_value Z.eqb]. unfold stored. by rewrite take_app_length.
Qed.

End Stored.

(** * leveldb: what [TableBuilder] writes

    The builder's invariant, and the bytes of a finished table: its data
    blocks, the filter block, the metaindex block, the index block and the
    footer. *)

(** ** Block builders as functions of their entries *)

Definition adds (interval : Z) (kvs : list (Slice * Slice)) : BlockBuilder :=
  foldl (fun b kv => BlockBuilder_Add kv.1 kv.2 b) (BlockBuilder_new interval) kvs.

Lemma adds_snoc interval kvs k v : BlockBuilder_Add k v (adds interval kvs) = adds interval (kvs ++ [(k, v)]).
Proof. unfold adds. by rewrite foldl_app. Qed.

Lemma adds_interval interval kvs : block_restart_interval (adds interval kvs) = interval.
Proof.
  induction kvs as [|[k v] kvs IH] using rev_ind; [done|]. rewrite <- adds_snoc. unfold BlockBuilder_Add. by case_if.
Qed.

Lemma adds_empty interval kvs : BlockBuilder_empty (adds interval kvs) = bool_decide (kvs = []).
Proof.
  destruct kvs as [|[k v] kvs _] using rev_ind; [done|]. rewrite <- adds_snoc. unfold BlockBuilder_empty.
  rewrite (bool_decide_eq_false_2 (kvs ++ _ = [])) by (by destruct kvs). apply bool_decide_eq_false_2. intros E.
  apply (f_equal length) in E. unfold BlockBuilder_Add, PutVarint32 in E. revert E.
  case_if; cbn [bb_buffer_]; rewrite !length_app; pose proof (EncodeVarint32_pos (u32 (size v))); simpl; lia.
Qed.

Lemma Reset_adds interval kvs : BlockBuilder_Reset (snd (BlockBuilder_Finish (adds interval kvs))) = BlockBuilder_new interval.
Proof. unfold BlockBuilder_Reset. simpl. by rewrite adds_interval. Qed.

Section Build.

Context {F : Type} `{!WritableFile F} `{!ReliableFile F} (waddr : Slice -> Z) (o : Options).

Local Abbreviation R := (restart_interval o).
Local Abbreviation block blk := (build_block R blk).
Local Abbreviation sto := (stored waddr).

(** ** Offsets and handles of a sequence of blocks *)

Definition area (raws : list Slice) : Slice := concat (sto <$> raws).

Fixpoint handles (pre : Z) (raws : list Slice) : list BlockHandle :=
  match raws with
  | [] => []
  | raw :: raws => MkBlockHandle (u64 pre) (size raw) :: handles (pre + (size raw + kBlockTrailerSize)) raws
  end.

Lemma area_snoc raws raw : area (raws ++ [raw]) = area raws ++ sto raw.
Proof. unfold area. rewrite fmap_app, concat_app. simpl. by rewrite app_nil_r. Qed.

Lemma size_area_cons raw raws : size (area (raw :: raws)) = size raw + kBlockTrailerSize + size (area raws).
Proof. unfold area. cbn [fmap list_fmap concat]. by rewrite size_app, size_stored. Qed.

Lemma handles_snoc pre raws raw :
  handles pre (raws ++ [raw]) = handles pre raws ++ [MkBlockHandle (u64 (pre + size (area raws))) (size raw)].
Proof.
  revert pre; induction raws as [|r raws IH]; intros pre; cbn [handles app].
  - by rewrite Z.add_0_r.
  - by rewrite IH, size_area_cons, !Z.add_assoc.
Qed.

Lemma length_handles pre raws : length (handles pre raws) = length raws.
Proof. revert pre; induction raws as [|r raws IH]; intros pre; [done|]. simpl. by rewrite IH. Qed.

Lemma handles_lookup pre raws j raw :
  raws !! j = Some raw -> handles pre raws !! j = Some (MkBlockHandle (u64 (pre + size (area (take j raws)))) (size raw)).
Proof.
  revert pre j; induction raws as [|r raws IH]; intros pre [|j] Hj; simplify_eq/=.
  - by rewrite Z.add_0_r.
  - by rewrite (IH _ j Hj), size_area_cons, !Z.add_assoc.
Qed.

(** ** Writing a block *)

Lemma WriteRawBlock_spec raw (r : TableBuilder F) :
  ∃ f, contents f = contents (file r) ++ sto raw ∧
  WriteRawBlock waddr raw kNoCompression r
  = (MkBlockHandle (offset r) (size raw), set_out f (u64 (offset r + (size raw + kBlockTrailerSize))) Status_OK r).
Proof.
  unfold WriteRawBlock. destruct (append_reliable raw (file r)) as (f1 & -> & Hf1). cbn [ok].
  edestruct (append_reliable (trailer waddr raw) f1) as (f2 & E2 & Hf2). unfold trailer in E2. rewrite E2. cbn [ok].
  exists f2. split; [|done]. rewrite Hf2, Hf1. by rewrite <- app_assoc.
Qed.

Lemma WriteBlock_spec b (r : TableBuilder F) :
  ∃ f, contents f = contents (file r) ++ sto (fst (BlockBuilder_Finish b)) ∧
  WriteBlock waddr b r
  = (MkBlockHandle (offset r) (size (fst (BlockBuilder_Finish b))), BlockBuilder_Reset (snd (BlockBuilder_Finish b)),
     set_out f (u64 (offset r + (size (fst (BlockBuilder_Finish b)) + kBlockTrailerSize))) Status_OK r).
Proof.
  destruct (WriteRawBlock_spec (fst (BlockBuilder_Finish b)) r) as (f & Hf & E). exists f. split; [done|].
  unfold WriteBlock. destruct (BlockBuilder_Finish b) as [raw b']. cbn [fst snd] in *.
  destruct (compression (options r)); simpl; by rewrite E.
Qed.

(** ** The invariant *)

Context (okp : Slice -> Prop) `{!ComparatorLaws (comparator o) okp}.

Local Abbreviation cmp := (Compare (comparator o)).

Definition raw_blocks (blks : list (list (Slice * Slice))) : list Slice := (fun blk => block blk) <$> blks.

(** The blocks the filter builder was told about. *)
Fixpoint filter_blocks (pre : Z) (blks : list (list (Slice * Slice))) : list (Z * list Slice) :=
  match blks with
  | [] => []
  | blk :: blks => (u64 pre, blk.*1) :: filter_blocks (pre + (size (block blk) + kBlockTrailerSize)) blks
  end.

Lemma filter_blocks_snoc pre blks blk :
  filter_blocks pre (blks ++ [blk]) = filter_blocks pre blks ++ [(u64 (pre + size (area (raw_blocks blks))), blk.*1)].
Proof.
  revert pre; induction blks as [|b blks IH]; intros pre; cbn [filter_blocks app].
  - by rewrite Z.add_0_r.
  - rewrite IH. cbn [raw_blocks fmap list_fmap]. by rewrite size_area_cons, !Z.add_assoc.
Qed.

(** The separator of block [j] with what follows it. *)
Definition separates (blks : list (list (Slice * Slice))) (rest : list (Slice * Slice)) (j : nat) (s : Slice) : Prop :=
  okp s ∧ (∀ blk kv, blks !! j = Some blk -> list.last blk = Some kv -> cmp kv.1 s <= 0) ∧
  (∀ kv, (concat (drop (S j) blks) ++ rest) !! 0%nat = Some kv -> cmp s kv.1 < 0).

(** [pend]: the index entry of the last block is not written yet; [rest]: the
    entries after the blocks, as far as the separators know. *)
Record table_inv (r : TableBuilder F) (pend : bool) (blks : list (list (Slice * Slice)))
    (cur rest idx : list (Slice * Slice)) : Prop := {
  ti_status : tb_status r = Status_OK;
  ti_options : options r = o;
  ti_nonempty : Forall (fun blk => blk ≠ []) blks;
  ti_file : contents (file r) = area (raw_blocks blks);
  ti_offset : offset r = u64 (size (area (raw_blocks blks)));
  ti_data : data_block r = adds R cur;
  ti_index : index_block r = adds 1 idx;
  ti_last : last_key r = default [] (fst <$> list.last (concat blks ++ cur));
  ti_pending : pending_index_entry r = pend;
  ti_handle : pend = true -> list.last (handles 0 (raw_blocks blks)) = Some (pending_handle r);
  ti_count : (length idx + if pend then 1 else 0)%nat = length blks;
  ti_values : idx.*2 = take (length idx) (handle_enc <$> handles 0 (raw_blocks blks));
  ti_seps j s : idx !! j = Some s -> separates blks rest j s.1;
  ti_filter : filter_block_ r = (fun p =>
    (p, foldl AddKey (StartBlock p (offset r) (foldl (add_block p) FilterBlockBuilder_new (filter_blocks 0 blks))) (cur.*1)))
    <$> filter_policy o;
}.

(** Between two calls the index entry is pending when a block was just
    flushed. *)
Definition building (r : TableBuilder F) (blks : list (list (Slice * Slice))) (cur idx : list (Slice * Slice)) : Prop :=
  table_inv r (bool_decide (blks ≠ [] ∧ cur = [])) blks cur cur idx.

Lemma building_new f : contents f = [] -> building (TableBuilder_new o f) [] [] [].
Proof.
  intros Hf. split; try done.
Qed.

Lemma u64_add_l a b : u64 (u64 a + b) = u64 (a + b).
Proof. unfold u64. apply Zplus_mod_idemp_l. Qed.

Lemma length_raw_blocks blks : length (raw_blocks blks) = length blks.
Proof. apply length_fmap. Qed.

Lemma Flush_spec r blks cur idx :
  table_inv r false blks cur cur idx -> cur ≠ [] -> table_inv (TableBuilder_Flush waddr r) true (blks ++ [cur]) [] [] idx.
Proof using ReliableFile0.
  intros [Hst Hopt Hne Hfile Hoff Hdata Hindex Hlast Hpend _ Hcount Hvals Hseps Hfilt] Hcur.
  unfold TableBuilder_Flush, builder_ok. rewrite Hst, Hdata, adds_empty, bool_decide_eq_false_2 by done. cbn [ok negb Status_OK].
  destruct (WriteBlock_spec (adds R cur) r) as (f & Hf & ->). rewrite Reset_adds.
  change (fst (BlockBuilder_Finish (adds R cur))) with (block cur) in *. cbn -[u64 BlockBuilder_new StartBlock u32].
  destruct (flush_reliable f) as (f' & -> & Hf'). rewrite Hoff, u64_add_l.
  assert (raw_blocks (blks ++ [cur]) = raw_blocks blks ++ [block cur]) as Hraw by (unfold raw_blocks; by rewrite fmap_app).
  assert (size (area (raw_blocks (blks ++ [cur]))) = size (area (raw_blocks blks)) + (size (block cur) + kBlockTrailerSize)) as Hsz.
  { by rewrite Hraw, area_snoc, size_app, size_stored. }
  split; cbn -[u64 BlockBuilder_new StartBlock u32].
  - done.
  - done.
  - apply Forall_app. by repeat constructor.
  - by rewrite Hf', Hf, Hfile, Hraw, area_snoc.
  - by rewrite Hsz.
  - done.
  - done.
  - rewrite Hlast, concat_app. simpl. by rewrite !app_nil_r.
  - done.
  - intros _. by rewrite Hraw, handles_snoc, last_snoc, Z.add_0_l.
  - rewrite length_app. simpl. lia.
  - rewrite Hraw, handles_snoc, fmap_app, take_app_le; [done|]. rewrite length_fmap, length_handles, length_raw_blocks. lia.
  - intros j s Hj. destruct (Hseps j s Hj) as (H1 & H2 & H3).
    assert (j < length blks)%nat by (apply lookup_lt_Some in Hj; lia). split_and!; [done| |].
    + intros blk kv Hb. rewrite lookup_app_l in Hb by done. by apply H2.
    + rewrite drop_app_le, concat_app by lia. simpl. by rewrite !app_nil_r.
  - unfold on_filter. simpl. rewrite Hfilt, filter_blocks_snoc. destruct (filter_policy o) as [p|]; [|done]. simpl.
    by rewrite foldl_app, Hoff, Z.add_0_l.
Qed.

(** A new last entry: it is after everything the separators stand before. *)
Lemma rest_snoc r blks cur idx kv :
  building r blks cur idx -> table_inv r (bool_decide (blks ≠ [] ∧ cur = [])) blks cur (cur ++ [kv]) idx.
Proof.
  intros [Hst Hopt Hne Hfile Hoff Hdata Hindex Hlast Hpend Hh Hcount Hvals Hseps Hfilt]. split; try done.
  intros j s Hj. destruct (Hseps j s Hj) as (H1 & H2 & H3). split_and!; [done|done|]. intros kv'.
  rewrite app_assoc, lookup_app_l; [by apply H3|].
  assert (j < length idx)%nat as Hlt by by eapply lookup_lt_Some. destruct cur as [|x cur]; [|rewrite length_app; simpl; lia].
  case_bool_decide as Hb; [|destruct blks; [simpl in Hcount; lia|by destruct Hb]].
  destruct (drop (S j) blks) as [|blk rest] eqn:E.
  { apply (f_equal length) in E. rewrite length_drop in E. simpl in E. lia. }
  assert (blk ≠ []) as Hblk. { apply (Forall_drop _ (S j)) in Hne. rewrite E in Hne. by apply Forall_cons_1 in Hne as [? _]. }
  rewrite app_nil_r. simpl. rewrite length_app. destruct blk; [done|]. simpl. lia.
Qed.

(** Writing the pending index entry under a key [s] in its place. *)
Lemma add_index_spec r blks rest idx s :
  table_inv r true blks [] rest idx -> okp s ->
  (∀ kv, list.last (concat blks) = Some kv -> cmp kv.1 s <= 0) -> (∀ kv, rest !! 0%nat = Some kv -> cmp s kv.1 < 0) ->
  ∃ h, let r' := add_index_entry s r in
    table_inv (set_last_key (last_key r) (num_entries r) r') false blks [] rest (idx ++ [(s, handle_enc h)]) ∧
    num_entries r' = num_entries r.
Proof.
  intros [Hst Hopt Hne Hfile Hoff Hdata Hindex Hlast Hpend Hh Hcount Hvals Hseps Hfilt] Hs Hle Hlt.
  exists (pending_handle r). split; [|done].
  destruct blks as [|blk blks _] using rev_ind; [simpl in Hcount; lia|]. rewrite length_app in Hcount. simpl in Hcount.
  assert (length idx = length blks) as Hlen by lia. unfold add_index_entry.
  split; cbn -[u64 BlockBuilder_new StartBlock u32 handles handle_enc BlockHandle_EncodeTo BlockBuilder_Add]; try done.
  - by rewrite Hindex, BlockHandle_EncodeTo_eq, app_nil_l, adds_snoc.
  - rewrite !length_app. simpl. lia.
  - specialize (Hh eq_refl).
    assert (raw_blocks (blks ++ [blk]) = raw_blocks blks ++ [block blk]) as Hraw by (unfold raw_blocks; by rewrite fmap_app).
    rewrite Hraw, handles_snoc in *. rewrite last_snoc in Hh. injection Hh as Hh. rewrite !fmap_app in *.
    rewrite Hvals, length_app, Hlen. cbn [fmap list_fmap length]. rewrite Hh.
    assert (length (handle_enc <$> handles 0 (raw_blocks blks)) = length blks) as Hlh.
    { by rewrite length_fmap, length_handles, length_raw_blocks. }
    rewrite take_app_le by lia. rewrite !take_ge; [done| |lia]. rewrite length_app, Hlh. done.
  - intros j s' [Hj|[Hj Hs']]%lookup_app_Some; [by apply Hseps|].
    apply list_lookup_singleton_Some in Hs' as [Hj0 <-]. assert (j = length blks) as -> by lia. split_and!; [done| |].
    + intros blk' kv Hb Hl. rewrite lookup_app_r, Nat.sub_diag in Hb by lia. simpl in Hb. injection Hb as <-. apply Hle.
      rewrite concat_app. simpl. rewrite app_nil_r, last_app, Hl. done.
    + rewrite drop_ge by (rewrite length_app; simpl; lia). apply Hlt.
Qed.

(** The entry goes into the data block and the filter. *)
Lemma put_spec r blks cur idx k v :
  table_inv r false blks cur (cur ++ [(k, v)]) idx ->
  table_inv (set_data_block (BlockBuilder_Add k v (data_block r))
    (set_last_key k (num_entries r + 1) (set_filter (on_filter (fun _ fb => AddKey fb k) r) r)))
    false blks (cur ++ [(k, v)]) (cur ++ [(k, v)]) idx.
Proof.
  intros [Hst Hopt Hne Hfile Hoff Hdata Hindex Hlast Hpend Hh Hcount Hvals Hseps Hfilt].
  split; cbn -[u64 BlockBuilder_new StartBlock u32 handles handle_enc BlockHandle_EncodeTo BlockBuilder_Add]; try done.
  - by rewrite Hdata, adds_snoc.
  - by rewrite app_assoc, last_snoc.
  - unfold on_filter. rewrite Hfilt. destruct (filter_policy o) as [p|]; [|done]. simpl. by rewrite fmap_app, foldl_app.
Qed.

(** [Add] of a key above all others. *)
Lemma Add_spec r blks cur idx k v :
  building r blks cur idx -> Forall (fun kv => okp kv.1) (concat blks ++ cur) -> okp k ->
  (∀ kv, kv ∈ concat blks ++ cur -> cmp kv.1 k < 0) ->
  ∃ blks' cur' idx', building (TableBuilder_Add waddr k v r) blks' cur' idx' ∧
    concat blks' ++ cur' = (concat blks ++ cur) ++ [(k, v)].
Proof using ReliableFile0 ComparatorLaws0.
  intros Hb Hok Hk Hlt. pose proof (rest_snoc r blks cur idx (k, v) Hb) as Hb1.
  unfold TableBuilder_Add, builder_ok. rewrite (ti_status _ _ _ _ _ _ Hb). cbn [ok Status_OK negb].
  rewrite (ti_pending _ _ _ _ _ _ Hb), (ti_options _ _ _ _ _ _ Hb).
  set (r1 := if bool_decide _ then _ else _).
  assert (∃ idx1, table_inv (set_last_key (last_key r) (num_entries r) r1) false blks cur (cur ++ [(k, v)]) idx1 ∧
    num_entries r1 = num_entries r) as (idx1 & H1 & Hnum).
  { subst r1. case_bool_decide as Hp.
    - destruct Hp as [Hblks ->]. rewrite app_nil_r in *. simpl in *.
      destruct (list.last (concat blks)) as [kv|] eqn:El.
      2:{ apply last_None in El. destruct blks as [|[|x blk] blks]; [done| |done].
          by pose proof (Forall_inv (ti_nonempty _ _ _ _ _ _ Hb)). }
      assert (kv ∈ concat blks) as Hin by by apply last_Some_elem_of.
      assert (last_key r = kv.1) as Hlk by (rewrite (ti_last _ _ _ _ _ _ Hb), app_nil_r, El; done). rewrite Hlk.
      assert (okp kv.1) as Hokv by (rewrite Forall_forall in Hok; by apply Hok, list_elem_of_In).
      destruct (sep_range kv.1 k Hokv Hk (Hlt kv Hin)) as [Hs1 Hs2].
      destruct (add_index_spec r blks [(k, v)] idx (FindShortestSeparator (comparator o) kv.1 k) Hb1) as (h & H1 & Hn).
      + by apply sep_ok.
      + intros kv' [= <-]%(eq_trans (eq_sym El)). done.
      + intros kv' [= <-]. done.
      + eexists. rewrite <- Hlk in *. done.
    - exists idx. split; [|done]. by destruct r. }
  clearbody r1. pose proof (put_spec _ _ _ _ _ _ H1) as H2.
  set (r2 := set_data_block _ _) in H2. set (r3 := set_data_block _ _).
  assert (r3 = r2) as -> by (subst r2 r3; unfold on_filter; simpl; rewrite Hnum; done). clear H1.
  rewrite (ti_options _ _ _ _ _ _ H2). case_if.
  - exists (blks ++ [cur ++ [(k, v)]]), [], idx1. split.
    + unfold building. rewrite bool_decide_eq_true_2; [apply Flush_spec; [done|]; by destruct cur|]. split; [by destruct blks|done].
    + rewrite concat_app. simpl. by rewrite !app_nil_r, app_assoc.
  - exists blks, (cur ++ [(k, v)]), idx1. split; [|by rewrite app_assoc].
    unfold building. rewrite bool_decide_eq_false_2; [done|]. intros [_ Hn]. by destruct cur.
Qed.

Definition build_table (f : F) (kvs : list (Slice * Slice)) : TableBuilder F :=
  foldl (fun r kv => TableBuilder_Add waddr kv.1 kv.2 r) (TableBuilder_new o f) kvs.

Lemma Adds_spec f kvs :
  contents f = [] -> Forall (fun kv => okp kv.1) kvs -> keys_sorted (comparator o) kvs ->
  ∃ blks cur idx, building (build_table f kvs) blks cur idx ∧ concat blks ++ cur = kvs.
Proof using ReliableFile0 ComparatorLaws0.
  intros Hf. unfold build_table. induction kvs as [|[k v] kvs IH] using rev_ind; intros Hok Hs.
  - exists [], [], []. split; [by apply building_new|done].
  - apply Forall_app in Hok as [Hok Hk%Forall_inv]. rewrite foldl_app. simpl in *.
    destruct IH as (blks & cur & idx & Hb & E); [done| |].
    { intros i j a b Hij Ha Hb. apply (Hs i j); [done|by apply lookup_app_l_Some|by apply lookup_app_l_Some]. }
    destruct (Add_spec _ blks cur idx k v Hb) as (blks' & cur' & idx' & Hb' & E'); rewrite ?E; [exact Hok|exact Hk| |].
    + intros kv Hkv. apply list_elem_of_lookup in Hkv as [i Hi]. apply (Hs i (length kvs) kv (k, v)).
      * by eapply lookup_lt_Some.
      * by apply lookup_app_l_Some.
      * by rewrite lookup_app_r, Nat.sub_diag.
    + exists blks', cur', idx'. by rewrite E', E.
Qed.

(** ** The finished file *)

(** The index has one entry per block: its separator and its handle. *)
Definition index_of (blks : list (list (Slice * Slice))) (idx : list (Slice * Slice)) : Prop :=
  length idx = length blks ∧ idx.*2 = handle_enc <$> handles 0 (raw_blocks blks) ∧
  ∀ j s, idx !! j = Some s -> separates blks [] j s.1.

Definition end_of (raws : list Slice) : Z := u64 (size (area raws)).

(** The filter of the table, and the entry of the metaindex block for it. *)
Definition table_filter (blks : list (list (Slice * Slice))) : option Slice :=
  (fun p => filter_block p (filter_blocks 0 blks ++ [(end_of (raw_blocks blks), [])])) <$> filter_policy o.

Definition filter_raws (blks : list (list (Slice * Slice))) : list Slice :=
  raw_blocks blks ++ match table_filter blks with Some f => [f] | None => [] end.

Definition meta_entries (blks : list (list (Slice * Slice))) : list (Slice * Slice) :=
  match filter_policy o, table_filter blks with
  | Some p, Some f => [(str "filter." ++ Name p, handle_enc (MkBlockHandle (end_of (raw_blocks blks)) (size f)))]
  | _, _ => []
  end.

Definition table_footer (blks : list (list (Slice * Slice))) (idx : list (Slice * Slice)) : Footer :=
  let meta := block (meta_entries blks) in
  MkFooter (MkBlockHandle (end_of (filter_raws blks)) (size meta))
    (MkBlockHandle (end_of (filter_raws blks ++ [meta])) (size (build_block 1 idx))).

Definition table_bytes (blks : list (list (Slice * Slice))) (idx : list (Slice * Slice)) : Slice :=
  area (filter_raws blks ++ [block (meta_entries blks); build_block 1 idx]) ++ Footer_EncodeTo [] (table_footer blks idx).

Lemma end_of_snoc raws raw : u64 (end_of raws + (size raw + kBlockTrailerSize)) = end_of (raws ++ [raw]).
Proof. unfold end_of. by rewrite u64_add_l, area_snoc, size_app, size_stored. Qed.

Lemma final_index r blks idx :
  table_inv r (bool_decide (blks ≠ [])) blks [] [] idx -> Forall (fun kv => okp kv.1) (concat blks) ->
  ∃ idx', index_block (if pending_index_entry r
      then add_index_entry (FindShortSuccessor (comparator o) (last_key r)) r else r) = adds 1 idx' ∧ index_of blks idx'.
Proof using ComparatorLaws0.
  intros Hinv Hok. rewrite (ti_pending _ _ _ _ _ _ Hinv). case_bool_decide as Hb.
  - destruct (list.last (concat blks)) as [kv|] eqn:El.
    2:{ apply last_None in El. destruct blks as [|[|x blk] blks]; [done| |done].
        by pose proof (Forall_inv (ti_nonempty _ _ _ _ _ _ Hinv)). }
    assert (last_key r = kv.1) as Hlk by (rewrite (ti_last _ _ _ _ _ _ Hinv), app_nil_r, El; done).
    assert (okp kv.1) as Hokv by (rewrite Forall_forall in Hok; apply Hok, list_elem_of_In; by apply last_Some_elem_of).
    destruct (add_index_spec r blks [] idx (FindShortSuccessor (comparator o) (last_key r)) Hinv) as (h & H1 & _).
    + rewrite Hlk. by apply succ_ok.
    + rewrite El, Hlk. intros kv' [= <-]. by apply succ_ge.
    + done.
    + eexists. split; [exact (ti_index _ _ _ _ _ _ H1)|]. pose proof (ti_count _ _ _ _ _ _ H1) as Hc. rewrite Nat.add_0_r in Hc.
      split_and!; [done| |exact (ti_seps _ _ _ _ _ _ H1)]. rewrite (ti_values _ _ _ _ _ _ H1). apply take_ge.
      rewrite length_fmap, length_handles, length_raw_blocks. lia.
  - exists idx. split; [apply Hinv|]. pose proof (ti_count _ _ _ _ _ _ Hinv) as Hc. rewrite Nat.add_0_r in Hc.
    split_and!; [done| |exact (ti_seps _ _ _ _ _ _ Hinv)]. rewrite (ti_values _ _ _ _ _ _ Hinv). apply take_ge.
    rewrite length_fmap, length_handles, length_raw_blocks. lia.
Qed.

Lemma Flush_last r blks cur idx :
  building r blks cur idx ->
  ∃ blks', table_inv (TableBuilder_Flush waddr r) (bool_decide (blks' ≠ [])) blks' [] [] idx ∧ concat blks' = concat blks ++ cur.
Proof using ReliableFile0.
  intros Hb. destruct (decide (cur = [])) as [->|Hcur].
  - exists blks. rewrite app_nil_r. split; [|done].
    assert (TableBuilder_Flush waddr r = r) as ->.
    { unfold TableBuilder_Flush, builder_ok. by rewrite (ti_status _ _ _ _ _ _ Hb), (ti_data _ _ _ _ _ _ Hb). }
    unfold building in Hb. by rewrite (bool_decide_ext _ (blks ≠ [])) in Hb by tauto.
  - exists (blks ++ [cur]). split; [|rewrite concat_app; simpl; by rewrite app_nil_r].
    rewrite bool_decide_eq_true_2 by by destruct blks. apply Flush_spec; [|done].
    unfold building in Hb. rewrite bool_decide_eq_false_2 in Hb by tauto. done.
Qed.

(** Writing does not touch what the index entry depends on. *)
Lemma index_after_writes (r : TableBuilder F) f off s :
  index_block (if pending_index_entry (set_out f off s r)
    then add_index_entry (FindShortSuccessor (comparator o) (last_key (set_out f off s r))) (set_out f off s r)
    else set_out f off s r)
  = index_block (if pending_index_entry r then add_index_entry (FindShortSuccessor (comparator o) (last_key r)) r else r).
Proof. simpl. by case_if. Qed.

Lemma finish_rest_spec (r : TableBuilder F) idx raws meta hf :
  tb_status r = Status_OK -> options r = o -> contents (file r) = area raws -> offset r = end_of raws ->
  meta_index_block hf r = Some (adds R meta) ->
  index_block (if pending_index_entry r
    then add_index_entry (FindShortSuccessor (comparator o) (last_key r)) r else r) = adds 1 idx ->
  ∃ r', finish_rest waddr hf r = Some (Status_OK, r') ∧ contents (file r')
    = area (raws ++ [block meta; build_block 1 idx]) ++
      Footer_EncodeTo [] (MkFooter (MkBlockHandle (end_of raws) (size (block meta)))
        (MkBlockHandle (end_of (raws ++ [block meta])) (size (build_block 1 idx)))) ∧
    FileSize r' = u64 (size (contents (file r'))).
Proof using ReliableFile0.
  intros Hst Hopt Hfile Hoff Hmeta Hindex. unfold finish_rest, builder_ok. rewrite Hst, Hmeta. cbn [ok Status_OK mbind option_bind].
  destruct (WriteBlock_spec (adds R meta) r) as (f1 & Hf1 & ->).
  change (fst (BlockBuilder_Finish (adds R meta))) with (block meta) in *. rewrite Hoff, end_of_snoc.
  set (r1 := set_out f1 _ _ r). assert (tb_status r1 = Status_OK ∧ options r1 = o) as [Hs1 Ho1] by done.
  cbn [mbind option_bind]. rewrite Hs1, Ho1. cbn [ok Status_OK].
  pose proof (index_after_writes r f1 (end_of (raws ++ [block meta])) Status_OK) as Hi. fold r1 in Hi. rewrite Hindex in Hi.
  set (r2 := if pending_index_entry r1 then _ else _) in *.
  assert (file r2 = f1 ∧ offset r2 = end_of (raws ++ [block meta])) as [Hf2 Ho2].
  { subst r2. by destruct (pending_index_entry r1). }
  clearbody r2. rewrite Hi. destruct (WriteBlock_spec (adds 1 idx) r2) as (f3 & Hf3 & ->).
  change (fst (BlockBuilder_Finish (adds 1 idx))) with (build_block 1 idx) in *. rewrite Ho2, end_of_snoc.
  set (footer := Footer_EncodeTo _ _). cbn -[u64 footer build_block]. destruct (append_reliable footer f3) as (f4 & -> & Hf4).
  eexists. split; [done|]. cbn -[u64 footer build_block]. split.
  - rewrite Hf4, Hf3, Hf2, Hf1, Hfile, <- !area_snoc, <- app_assoc. done.
  - rewrite Hf4, Hf3, Hf2, Hf1, Hfile, <- !area_snoc, size_app. unfold FileSize, end_of. simpl. by rewrite u64_add_l.
Qed.

Lemma Finish_spec r blks cur idx :
  building r blks cur idx -> Forall (fun kv => okp kv.1) (concat blks ++ cur) ->
  ∃ r' blks' idx', TableBuilder_Finish waddr r = Some (Status_OK, r') ∧ concat blks' = concat blks ++ cur ∧
    Forall (fun blk => blk ≠ []) blks' ∧ index_of blks' idx' ∧ contents (file r') = table_bytes blks' idx' ∧
    FileSize r' = u64 (size (contents (file r'))).
Proof using ReliableFile0 ComparatorLaws0.
  intros Hb Hok. destruct (Flush_last r blks cur idx Hb) as (blks' & Hinv & Ec). rewrite <- Ec in *.
  destruct (final_index _ blks' idx Hinv Hok) as (idx' & Hindex & Hidx).
  set (r1 := TableBuilder_Flush waddr r) in *. pose proof Hinv as [Hst Hopt Hne Hfile Hoff _ _ _ _ _ _ _ _ Hfilt].
  assert (∃ r2 hf, TableBuilder_Finish waddr r = finish_rest waddr hf r2 ∧ (∃ f off, r2 = set_out f off Status_OK (set_closed r1)) ∧
    contents (file r2) = area (filter_raws blks') ∧ offset r2 = end_of (filter_raws blks') ∧
    meta_index_block hf r2 = Some (adds R (meta_entries blks'))) as (r2 & hf & -> & (f2 & off2 & Hr2) & Hf2 & Ho2 & Hm2).
  { unfold TableBuilder_Finish. fold r1. set (r1c := set_closed r1).
    assert (filter_block_ r1c = filter_block_ r1) as -> by done. rewrite Hfilt. unfold filter_raws, meta_entries, table_filter.
    destruct (filter_policy o) as [p|] eqn:Ep; cbn [fmap option_fmap option_map].
    - assert (builder_ok r1c = true) as -> by (unfold builder_ok; simpl; by rewrite Hst).
      set (fbytes := Finish p _). assert (fbytes = filter_block p (filter_blocks 0 blks' ++ [(end_of (raw_blocks blks'), [])])) as Hfb.
      { unfold fbytes, filter_block. rewrite foldl_app, Hoff. done. }
      destruct (WriteRawBlock_spec fbytes r1c) as (f & Hf & ->). eexists _, _. split; [|split; [eauto|]].
      + done.
      + cbn [file offset set_out]. rewrite <- Hfb. split_and!.
        * rewrite Hf. change (file r1c) with (file r1). by rewrite Hfile, area_snoc.
        * change (offset r1c) with (offset r1). rewrite Hoff. by rewrite <- end_of_snoc.
        * unfold meta_index_block. cbn [filter_block_ set_out set_closed r1c options]. rewrite Hfilt, Hopt, Ep. simpl.
          unfold adds. simpl. rewrite BlockHandle_EncodeTo_eq, app_nil_l, Hoff. done.
    - eexists r1c, BlockHandle_new. split_and!.
      + done.
      + exists (file r1), (offset r1). unfold r1c. destruct r1. simpl in *. by rewrite Hst.
      + rewrite app_nil_r. done.
      + rewrite app_nil_r. done.
      + unfold meta_index_block. cbn [filter_block_ set_closed r1c options]. rewrite Hfilt, Hopt. done. }
  destruct (finish_rest_spec r2 idx' (filter_raws blks') (meta_entries blks') hf) as (r' & E' & Hc & Hfs).
  - by rewrite Hr2.
  - by rewrite Hr2.
  - done.
  - done.
  - done.
  - rewrite Hr2, index_after_writes. change (pending_index_entry (set_closed r1)) with (pending_index_entry r1).
    rewrite <- Hindex. by destruct (pending_index_entry r1).
  - exists r', blks', idx'. by split_and!.
Qed.

End Build.
