(* ===== verification/LdbTable.v ===== *)
(** * leveldb: reading tables (table.h, table.cc, cache.h)

    Opening a table file, its index and filter, reading blocks through the
    block cache, iterating and looking keys up.  The cache is a class over
    the state [C] of all caches of the process; deleting a block iterator
    releases its cache handle.  [None] is an access outside memory. *)

From S2P Require Import Prelude.
From S2P Require Import LdbSlice.
From S2P Require Import LdbCoding.
From S2P Require Import LdbBloom.
From S2P Require Import LdbFilterBlock.
From S2P Require Import LdbFormat.
From S2P Require Import LdbIterator.
From S2P Require Import LdbBlock.
From S2P Require Import LdbTwoLevel.
From S2P Require Import LdbTableFormat.
From S2P Require Import LdbTableBuilder.

(** ** cache.h *)

Class Cache (V C H : Type) := {
  cache_NewId : C -> Z * C;
  cache_Lookup : Slice -> C -> option H * C;
  cache_Value : H -> C -> V;
  cache_Insert : Slice -> V -> Z -> C -> H * C;
  cache_Release : H -> C -> C;
}.

Section Table.

Context {F C H : Type} `{!RandomAccessFile F} `{!Cache Block C H} (addr : Slice -> Z).

Record Table := MkTable {
  t_options : Options;
  t_file : F;
  cache_id : Z;
  filter : option (FilterPolicy * FilterBlockReader);  (* with its policy_ *)
  t_metaindex_handle : BlockHandle;
  t_index_block : Block;
}.

(** The options of the reads that happen while a table is opened. *)
Definition open_options (o : Options) : ReadOptions :=
  if paranoid_checks o then MkReadOptions true (fill_cache ReadOptions_new) else ReadOptions_new.

Definition set_reader (r : option (FilterPolicy * FilterBlockReader)) (t : Table) : Table :=
  MkTable (t_options t) (t_file t) (cache_id t) r (t_metaindex_handle t) (t_index_block t).

Definition ReadFilter (p : FilterPolicy) (filter_handle_value : Slice) (t : Table) : option Table :=
  let '(s, filter_handle, _) := BlockHandle_DecodeFrom filter_handle_value BlockHandle_new in
  if negb (ok s) then Some t
  else
    '(s, block) ← ReadBlock addr (t_file t) (open_options (t_options t)) filter_handle;
    if negb (ok s) then Some t
    else Some (set_reader (Some (p, FilterBlockReader_new (data block))) t).

Definition ReadMeta (footer : Footer) (t : Table) : option Table :=
  match filter_policy (t_options t) with
  | None => Some t
  | Some p =>
      '(s, contents) ← ReadBlock addr (t_file t) (open_options (t_options t)) (metaindex_handle_ footer);
      if negb (ok s) then Some t
      else
        let meta := Block_new (data contents) in
        let key := str "filter." ++ Name p in
        iter ← i_Seek key (NewIterator BytewiseComparator meta);
        if i_Valid iter && slice_eqb (i_key iter) key then ReadFilter p (i_value iter) t else Some t
  end.

Definition Table_Open (o : Options) (file : F) (sz : Z) (c : C) : option (Status * option Table * C) :=
  if sz <? kEncodedLength then Some (Status_Corruption "file is too short to be an sstable" [], None, c)
  else
    let '(s, footer_input, _) := ra_Read file (sz - kEncodedLength) kEncodedLength in
    if negb (ok s) then Some (s, None, c)
    else
      '(s, footer, _) ← Footer_DecodeFrom footer_input Footer_new;
      if negb (ok s) then Some (s, None, c)
      else
        '(s, index_block_contents) ← ReadBlock addr file (open_options o) (index_handle_ footer);
        if ok s then
          let index_block := Block_new (data index_block_contents) in
          let '(id, c) := if use_block_cache o then cache_NewId c else (0, c) in
          t ← ReadMeta footer (MkTable o file id None (metaindex_handle_ footer) index_block);
          Some (s, Some t, c)
        else Some (s, None, c).

(** ** [BlockReader] *)

(** An iterator over a block and the cleanup registered with it: the handle
    to release, or none when the block is deleted. *)
Record DataIterator := MkDataIterator { di_iter : BlockIterator; di_handle : option H }.

Definition di_move (f : BlockIterator -> option BlockIterator) (d : DataIterator) : option DataIterator :=
  (fun it => MkDataIterator it (di_handle d)) <$> f (di_iter d).

#[export] Instance data_iterator : Iterator DataIterator := {|
  i_Valid d := i_Valid (di_iter d);
  i_key d := i_key (di_iter d);
  i_value d := i_value (di_iter d);
  i_status d := i_status (di_iter d);
  i_SeekToFirst := di_move i_SeekToFirst;
  i_SeekToLast := di_move i_SeekToLast;
  i_Seek target := di_move (i_Seek target);
  i_Next := di_move i_Next;
  i_Prev := di_move i_Prev;
|}.

Definition delete_data_iterator (d : DataIterator) (c : C) : C :=
  match di_handle d with Some h => cache_Release h c | None => c end.

Definition block_cache_key (t : Table) (handle : BlockHandle) : Slice :=
  EncodeFixed64 (cache_id t) ++ EncodeFixed64 (bh_offset handle).

(** A block read from the file: the status, the block, the handle it has in
    the cache after the insertion, if it was inserted. *)
Definition read_and_cache (t : Table) (ro : ReadOptions) (handle : BlockHandle) (c : C) :
    option (Status * option Block * option H * C) :=
  '(s, contents) ← ReadBlock addr (t_file t) ro handle;
  if ok s then
    let block := Block_new (data contents) in
    if use_block_cache (t_options t) && cachable contents && fill_cache ro then
      let '(h, c) := cache_Insert (block_cache_key t handle) block (block_size_ block) c in Some (s, Some block, Some h, c)
    else Some (s, Some block, None, c)
  else Some (s, None, None, c).

Definition BlockReader (t : Table) (ro : ReadOptions) (index_value : Slice) (c : C) : option (DataIterator * C) :=
  let '(s, handle, _) := BlockHandle_DecodeFrom index_value BlockHandle_new in
  '(s, block, cache_handle, c) ←
    (if ok s then
       if use_block_cache (t_options t) then
         let '(h, c) := cache_Lookup (block_cache_key t handle) c in
         match h with
         | Some h => Some (s, Some (cache_Value h c), Some h, c)
         | None => read_and_cache t ro handle c
         end
       else read_and_cache t ro handle c
     else Some (s, None, None, c));
  match block with
  | Some block => Some (MkDataIterator (NewIterator (comparator (t_options t)) block) cache_handle, c)
  | None => Some (MkDataIterator (NoIter (MkEmpty s)) None, c)
  end.

(** ** Iterating and looking up *)

(** Every round of its loops passes an entry of the index. *)
Definition table_rounds (t : Table) : nat := S (S (length (block_data_ (t_index_block t)))).

Definition Table_NewIterator (t : Table) (c : C) : TwoLevelIterator :=
  NewTwoLevelIterator (I := BlockIterator) (D := DataIterator) (NewIterator (comparator (t_options t)) (t_index_block t)) c.

Definition table_iterator (t : Table) (ro : ReadOptions) : Iterator (TwoLevelIterator (I := BlockIterator) (D := DataIterator)) :=
  two_level_iterator (BlockReader t ro) delete_data_iterator (table_rounds t).

(** The status, what [handle_result] was called with, the cache. *)
Definition InternalGet (t : Table) (ro : ReadOptions) (k : Slice) (c : C) : option (Status * option (Slice * Slice) * C) :=
  iiter ← i_Seek k (NewIterator (comparator (t_options t)) (t_index_block t));
  '(s, result, c) ←
    (if i_Valid iiter then
       let handle_value := i_value iiter in
       let absent :=
         match filter t with
         | Some (p, reader) =>
             let '(s, handle, _) := BlockHandle_DecodeFrom handle_value BlockHandle_new in
             ok s && negb (FilterKeyMayMatch p reader (bh_offset handle) k)
         | None => false
         end in
       if absent then Some (Status_OK, None, c)
       else
         '(block_iter, c) ← BlockReader t ro (i_value iiter) c;
         block_iter ← i_Seek k block_iter;
         let result := if i_Valid block_iter then Some (i_key block_iter, i_value block_iter) else None in
         Some (i_status block_iter, result, delete_data_iterator block_iter c)
     else Some (Status_OK, None, c));
  Some (if ok s then i_status iiter else s, result, c).

Definition ApproximateOffsetOf (t : Table) (key : Slice) : option Z :=
  index_iter ← i_Seek key (NewIterator (comparator (t_options t)) (t_index_block t));
  Some (if i_Valid index_iter then
          let '(s, handle, _) := BlockHandle_DecodeFrom (i_value index_iter) BlockHandle_new in
          if ok s then bh_offset handle else bh_offset (t_metaindex_handle t)
        else bh_offset (t_metaindex_handle t)).

End Table.

Arguments Table : clear implicits.
Arguments DataIterator : clear implicits.
