(* ===== verification/LdbTableThms.v ===== *)
(** * leveldb: tables are read back

    A table written by [TableBuilder] opens; its iterator is a cursor in the
    list of entries; lookups find every entry; neither the block cache nor
    the filter changes an answer. *)

From S2P Require Import Prelude.
From S2P Require Import LdbSlice.
From S2P Require Import LdbCoding.
From S2P Require Import LdbBloom.
From S2P Require Import LdbFilterBlock.
From S2P Require Import LdbFormat.
From S2P Require Import LdbFormatThms.
From S2P Require Import LdbLog.
From S2P Require Import LdbLogThms.
From S2P Require Import LdbIterator.
From S2P Require Import LdbBlock.
From S2P Require Import LdbBlockThms.
From S2P Require Import LdbBlockBuild.
From S2P Require Import LdbTwoLevel.
From S2P Require Import LdbTableFormat.
From S2P Require Import LdbTableBuild.
From S2P Require Import LdbTableBuilder.
From S2P Require Import LdbTable.
From Stdlib Require Import Sorting.Sorted.

(** ** Contracts *)

(** cache.h: a lookup gives a value that was inserted under the key.  [P]
    relates keys to the values clients insert under them. *)
Class CacheLaws (V C H : Type) `{!Cache V C H} := {
  cache_holds : (Slice -> V -> Prop) -> C -> Prop;
  lookup_law P k c h c' : cache_holds P c -> cache_Lookup k c = (h, c') ->
    cache_holds P c' ∧ match h with Some h => P k (cache_Value h c') | None => True end;
  insert_law P k v charge c h c' : cache_holds P c -> P k v -> cache_Insert k v charge c = (h, c') -> cache_holds P c';
  release_law P h c : cache_holds P c -> cache_holds P (cache_Release h c);
}.

(** A filter policy whose name and filters are strings of bytes. *)
Record policy_ok (p : FilterPolicy) : Prop := {
  po_laws : FilterPolicyLaws p;
  po_bytes keys : Forall is_u8 (CreateFilter p keys []);
  po_name : Forall is_u8 (Name p) ∧ size (Name p) < 2 ^ 31;
}.

(** ** Finite choice *)

Lemma finite_choice {A} (P : nat -> A -> Prop) (a0 : A) n :
  (∀ j, (j < n)%nat -> ∃ a, P j a) -> ∃ f, ∀ j, (j < n)%nat -> P j (f j).
Proof.
  induction n as [|n IH]; intros H; [exists (fun _ => a0); lia|].
  destruct IH as [f Hf]; [intros j Hj; apply H; lia|]. destruct (H n ltac:(lia)) as [a Ha].
  exists (fun j => if decide (j = n) then a else f j). intros j Hj. case_decide; [by subst|]. apply Hf. lia.
Qed.

(** ** Iterators with a cleanup *)

Section DataCursor.

Context {C H : Type} (cmp : Comparator) (okp : Slice -> Prop) (kvs : list (Slice * Slice)).
Context (at_ : BlockIterator -> nat -> Prop) `{!Cursor cmp okp kvs at_}.

Definition d_at (d : DataIterator H) (i : nat) : Prop := at_ (di_iter d) i.

Lemma di_move_at f d i' :
  (∃ it, f (di_iter d) = Some it ∧ at_ it i') -> ∃ d', di_move f d = Some d' ∧ d_at d' i'.
Proof. intros (it & E & Ha). unfold di_move. rewrite E. simpl. by eexists. Qed.

Lemma data_cursor : Cursor cmp okp kvs d_at.
Proof using Cursor0.
  split.
  - intros d i Ha. exact (cur_view (di_iter d) i Ha).
  - intros d i Ha. exact (cur_bound (di_iter d) i Ha).
  - intros d i Ha. exact (cur_status (di_iter d) i Ha).
  - intros d i Ha. by apply di_move_at, (cur_first _ i).
  - intros d i Ha. by apply di_move_at, (cur_last _ i).
  - intros d i target Ha Ht. by apply di_move_at, (cur_seek _ i).
  - intros d i Ha Hi. by apply di_move_at, (cur_next _ i).
  - intros d i Ha Hi. by apply di_move_at, (cur_prev _ i).
Qed.

End DataCursor.

(** ** Filters are bytes *)

Lemma filter_block_u8 p blks :
  policy_ok p -> StronglySorted (fun x y => x.1 <= y.1) blks -> Forall (fun blk => 0 <= blk.1) blks ->
  Forall is_u8 (filter_block p blks).
Proof.
  intros [Hp Hb _] Hs Hf. destruct (collected_blocks p blks FilterBlockBuilder_new [] [] []) as (g & pd & Hc & _);
    [apply collected_new| |done|done| |].
  { intros ? ? ? Hin. by apply not_elem_of_nil in Hin. }
  { eapply Forall_impl; [|exact Hf]. intros [off ks] Ho. simpl in *. by apply Z.div_pos. }
  unfold filter_block. pose proof (Finish_collected _ _ _ _ Hc) as E. cbv zeta in E. rewrite E.
  repeat (apply Forall_app; split).
  - apply Forall_concat, Forall_fmap, Forall_true. intros ks. unfold group_filter; simpl. destruct ks; [constructor|apply Hb].
  - apply Forall_concat, Forall_fmap, Forall_true. intros x. apply le_split_bytes.
  - repeat constructor; unfold is_u8, kFilterBaseLg; lia.
Qed.

(** ** A written table *)

Section Written.

Context (waddr : Slice -> Z) (o : Options) (okp : Slice -> Prop) `{!ComparatorLaws (comparator o) okp}.
Context (blks : list (list (Slice * Slice))) (idx : list (Slice * Slice)).

Local Abbreviation R := (restart_interval o).
Local Abbreviation block blk := (build_block R blk).
Local Abbreviation cmp := (comparator o).
Local Abbreviation bytes := (table_bytes waddr o blks idx).
Local Abbreviation kvs := (concat blks).

Context (Hival : 1 <= R) (Hokp : ∀ k, okp k -> Forall is_u8 k ∧ size k < 2 ^ 32).
Context (Hkeys : Forall (fun kv => okp kv.1) kvs) (Hvals : Forall (fun kv => Forall is_u8 kv.2) kvs).
Context (Hsorted : keys_sorted cmp kvs) (Hne : Forall (fun blk => blk ≠ []) blks).
Context (Hidx : index_of o okp blks idx).
Context (Hpolicy : ∀ p, filter_policy o = Some p -> policy_ok p).
Context (Hsize : size bytes < 2 ^ 32).

(** The blocks of the file in order. *)
Definition raws : list Slice := filter_raws waddr o blks ++ [block (meta_entries waddr o blks); build_block 1 idx].

Lemma bytes_split j raw : raws !! j = Some raw -> ∃ post, bytes = area waddr (take j raws) ++ stored waddr raw ++ post.
Proof.
  intros Hj. assert (area waddr raws = area waddr (take j raws) ++ stored waddr raw ++ area waddr (drop (S j) raws)) as E.
  { rewrite <- (take_drop_middle raws j raw Hj) at 1. unfold area. by rewrite fmap_app, concat_app. }
  unfold table_bytes. change (filter_raws waddr o blks ++ _) with raws. rewrite E, <- !app_assoc. by eexists.
Qed.

Lemma area_small j raw : raws !! j = Some raw -> size (area waddr (take j raws)) + size raw + 5 <= size bytes.
Proof.
  intros Hj. destruct (bytes_split j raw Hj) as (post & ->). rewrite !size_app, size_stored. pose proof (size_nonneg post).
  change kBlockTrailerSize with 5. lia.
Qed.

Lemma end_of_small j raw : raws !! j = Some raw -> end_of waddr (take j raws) = size (area waddr (take j raws)).
Proof using Hsize.
  intros Hj. pose proof (area_small j raw Hj). pose proof (size_nonneg raw). pose proof (size_nonneg (area waddr (take j raws))).
  unfold end_of. apply u64_small. lia.
Qed.

(** *** Where the blocks are *)

Lemma raws_data j blk : blks !! j = Some blk -> raws !! j = Some (block blk) ∧ take j raws = raw_blocks o (take j blks).
Proof.
  intros Hj. assert (raw_blocks o blks !! j = Some (block blk)) as Hr by (unfold raw_blocks; by rewrite list_lookup_fmap, Hj).
  unfold raws, filter_raws. rewrite <- !app_assoc. split; [by apply lookup_app_l_Some|].
  rewrite take_app_le by (apply lookup_lt_Some in Hr; lia). unfold raw_blocks. symmetry. apply fmap_take.
Qed.

Lemma block_in j blk kv : blks !! j = Some blk -> kv ∈ blk -> kv ∈ kvs.
Proof. intros Hj Hin. apply list_elem_of_In, in_concat. exists blk. split; apply list_elem_of_In; [by eapply list_elem_of_lookup_2|done]. Qed.

Lemma block_entries j blk : blks !! j = Some blk -> Forall entry_ok blk ∧ Forall (fun kv => okp kv.1) blk.
Proof using Hkeys Hokp Hvals.
  intros Hj. rewrite Forall_forall in Hkeys, Hvals. split; apply Forall_forall; intros kv Hin%list_elem_of_In;
    pose proof (block_in j blk kv Hj Hin) as Hk%list_elem_of_In; [|by apply Hkeys].
  destruct (Hokp kv.1 (Hkeys kv Hk)). split_and!; [done|by apply Hvals|done].
Qed.

Lemma block_sorted j blk : blks !! j = Some blk -> keys_sorted cmp blk.
Proof using Hsorted.
  intros Hj i i' a b Hii Ha Hb. apply (Hsorted (pos blks j i) (pos blks j i')).
  - unfold pos. lia.
  - rewrite (pos_lookup blks j i blk Hj) by (by eapply lookup_lt_Some). done.
  - rewrite (pos_lookup blks j i' blk Hj) by (by eapply lookup_lt_Some). done.
Qed.

Lemma block_small j blk : blks !! j = Some blk -> size (block blk) < 2 ^ 32.
Proof using Hsize.
  intros Hj. pose proof (area_small j _ (proj1 (raws_data j blk Hj))).
  pose proof (size_nonneg (area waddr (take j raws))). lia.
Qed.

Lemma build_u8 interval l : 1 <= interval -> Forall entry_ok l -> size (build_block interval l) < 2 ^ 32 -> Forall is_u8 (build_block interval l).
Proof. intros Hi Hok Hsz. destruct (build_layout interval l Hi Hok Hsz) as (shs & rs & Hl). by eapply data_u8. Qed.

Lemma handle_at j blk :
  blks !! j = Some blk ->
  handles 0 (raw_blocks o blks) !! j = Some (MkBlockHandle (end_of waddr (take j raws)) (size (block blk))).
Proof.
  intros Hj. erewrite handles_lookup by (unfold raw_blocks; by rewrite list_lookup_fmap, Hj).
  destruct (raws_data j blk Hj) as [_ ->]. unfold end_of. rewrite Z.add_0_l. unfold raw_blocks. by rewrite fmap_take.
Qed.

Lemma handle_at_ok j raw : raws !! j = Some raw -> handle_ok (MkBlockHandle (end_of waddr (take j raws)) (size raw)).
Proof using Hsize.
  intros Hj. pose proof (area_small j raw Hj). pose proof (size_nonneg raw). pose proof (size_nonneg (area waddr (take j raws))).
  unfold handle_ok, is_u64. cbn [bh_offset bh_size]. rewrite (end_of_small j raw Hj). lia.
Qed.

(** *** The index *)

Lemma index_length : length idx = length blks.
Proof using Hidx. apply Hidx. Qed.

Lemma index_entry j s : idx !! j = Some s ->
  ∃ blk, blks !! j = Some blk ∧ s.2 = handle_enc (MkBlockHandle (end_of waddr (take j raws)) (size (block blk))).
Proof using Hidx.
  intros Hj. destruct Hidx as (Hl & Hv & _). destruct (lookup_lt_is_Some_2 blks j) as [blk Hb].
  { apply lookup_lt_Some in Hj. lia. }
  exists blk. split; [done|]. assert (idx.*2 !! j = Some s.2) as E by (by rewrite list_lookup_fmap, Hj).
  rewrite Hv, list_lookup_fmap, (handle_at j blk Hb) in E. by injection E.
Qed.

Lemma sep_okp j s : idx !! j = Some s -> okp s.1.
Proof using Hidx. intros Hj. by apply (proj2 (proj2 Hidx) j s Hj). Qed.

Lemma key_okp i kv : kvs !! i = Some kv -> okp kv.1.
Proof using Hkeys. intros Hi. exact (Forall_lookup_1 _ _ _ _ Hkeys Hi). Qed.

Lemma sorted_le i j a b : kvs !! i = Some a -> kvs !! j = Some b -> (i <= j)%nat -> Compare cmp a.1 b.1 <= 0.
Proof using Hkeys Hsorted ComparatorLaws0.
  intros Ha Hb Hij. destruct (decide (i = j)) as [->|]; [|apply Z.lt_le_incl, (Hsorted i j a b); [lia|done|done]].
  rewrite Ha in Hb. injection Hb as ->. rewrite (cmp_refl _ okp); [lia|]. by apply (key_okp j).
Qed.

Lemma sep_le j s blk kv : idx !! j = Some s -> blks !! j = Some blk -> kv ∈ blk -> Compare cmp kv.1 s.1 <= 0.
Proof using Hidx Hkeys Hne Hsorted ComparatorLaws0.
  intros Hj Hb Hin. destruct (proj2 (proj2 Hidx) j s Hj) as (Hs & Hlast & _).
  apply list_elem_of_lookup in Hin as [i Hi]. pose proof (lookup_lt_Some _ _ _ Hi) as Hlt.
  destruct (lookup_lt_is_Some_2 blk (length blk - 1)) as [l Hlk]; [lia|].
  assert (kvs !! pos blks j i = Some kv) as H1 by (by rewrite (pos_lookup blks j i blk)).
  assert (kvs !! pos blks j (length blk - 1) = Some l) as H2 by (rewrite (pos_lookup blks j _ blk); [done|done|lia]).
  apply (cmp_le_trans _ l.1); [by eapply key_okp|by eapply key_okp|done| |].
  - apply (sorted_le _ _ _ _ H1 H2). unfold pos. lia.
  - apply (Hlast blk l Hb). by rewrite last_lookup, Nat.sub_1_r in *.
Qed.

Lemma sep_lt i j s blk kv : (i < j)%nat -> idx !! i = Some s -> blks !! j = Some blk -> kv ∈ blk -> Compare cmp s.1 kv.1 < 0.
Proof using Hidx Hkeys Hsorted ComparatorLaws0.
  intros Hij Hi Hb Hin. destruct (proj2 (proj2 Hidx) i s Hi) as (Hs & _ & Hhead).
  apply list_elem_of_lookup in Hin as [q Hq]. pose proof (lookup_lt_Some _ _ _ Hq) as Hlt.
  assert (kvs !! pos blks j q = Some kv) as H1 by (by rewrite (pos_lookup blks j q blk)).
  set (p := length (concat (take (S i) blks))).
  assert (p <= pos blks j q)%nat as Hp.
  { unfold p, pos. replace j with (S i + (j - S i))%nat at 1 by lia. rewrite <- take_take_drop, concat_app, length_app. lia. }
  assert (∀ x, kvs !! (p + x)%nat = concat (drop (S i) blks) !! x) as Hdrop.
  { intros x. rewrite <- (take_drop (S i) blks) at 1. rewrite concat_app, lookup_app_r by lia. f_equal. unfold p. lia. }
  destruct (concat (drop (S i) blks) !! 0%nat) as [h|] eqn:Eh.
  - assert (kvs !! (p + 0)%nat = Some h) as H0 by by rewrite Hdrop. rewrite app_nil_r in Hhead.
    apply (cmp_lt_le _ okp _ h.1); [done|by eapply key_okp|by eapply key_okp|by apply Hhead|].
    apply (sorted_le _ _ _ _ H0 H1). lia.
  - exfalso. replace (pos blks j q) with (p + (pos blks j q - p))%nat in H1 by lia. rewrite Hdrop in H1.
    apply lookup_ge_None in Eh. apply lookup_lt_Some in H1. lia.
Qed.

Lemma index_raw : raws !! (length raws - 1)%nat = Some (build_block 1 idx) ∧ raws !! (length raws - 2)%nat = Some (block (meta_entries waddr o blks)).
Proof.
  unfold raws. rewrite length_app. simpl. rewrite !lookup_app_r by lia.
  replace (length (filter_raws waddr o blks) + 2 - 1 - length (filter_raws waddr o blks))%nat with 1%nat by lia.
  replace (length (filter_raws waddr o blks) + 2 - 2 - length (filter_raws waddr o blks))%nat with 0%nat by lia. done.
Qed.

Lemma raw_small j raw : raws !! j = Some raw -> size raw < 2 ^ 32.
Proof using Hsize. intros Hj. pose proof (area_small j raw Hj). pose proof (size_nonneg (area waddr (take j raws))). lia. Qed.

Lemma index_entries : Forall entry_ok idx ∧ Forall (fun kv => okp kv.1) idx ∧ keys_sorted cmp idx.
Proof using Hidx Hkeys Hne Hokp Hsize Hsorted ComparatorLaws0.
  split_and!.
  - apply Forall_lookup. intros j s Hj. destruct (index_entry j s Hj) as (blk & Hb & Es).
    destruct (Hokp s.1 (sep_okp j s Hj)). split_and!; [done| |done]. rewrite Es. apply handle_enc_u8.
    exact (handle_at_ok j _ (proj1 (raws_data j blk Hb))).
  - apply Forall_lookup. apply sep_okp.
  - intros i j a b Hij Ha Hb. destruct (index_entry j b Hb) as (blk & Hblk & _).
    assert (blk ≠ []) as Hnb by exact (Forall_lookup_1 _ _ _ _ Hne Hblk). destruct blk as [|kv blk]; [done|].
    apply (cmp_lt_le _ okp _ kv.1); [by eapply sep_okp| |by eapply sep_okp| |].
    + apply (key_okp (pos blks j 0)). rewrite (pos_lookup blks j 0 _ Hblk); [done|simpl; lia].
    + eapply (sep_lt i j); [done..|left].
    + eapply (sep_le j); [done..|left].
Qed.

Lemma area_lt i j a : raws !! i = Some a -> (i < j)%nat -> size (area waddr (take i raws)) < size (area waddr (take j raws)).
Proof.
  intros Ha Hij. replace j with (S i + (j - S i))%nat by lia. rewrite <- take_take_drop.
  unfold area at 2. rewrite fmap_app, concat_app, size_app. fold (area waddr (take (S i) raws)).
  rewrite (take_S_r _ _ a Ha), area_snoc, size_app, size_stored. change kBlockTrailerSize with 5.
  pose proof (size_nonneg a). pose proof (size_nonneg (concat (stored waddr <$> take (j - S i) (drop (S i) raws)))). lia.
Qed.

Lemma distinct_offsets i j a b : raws !! i = Some a -> raws !! j = Some b ->
  size (area waddr (take i raws)) = size (area waddr (take j raws)) -> i = j.
Proof.
  intros Ha Hb E. destruct (Nat.lt_trichotomy i j) as [Hij|[Hij|Hij]]; [|done|].
  - pose proof (area_lt i j a Ha Hij). lia.
  - pose proof (area_lt j i b Hb Hij). lia.
Qed.

Lemma index_distinct i j a b : idx !! i = Some a -> idx !! j = Some b -> a.2 = b.2 -> i = j.
Proof using Hidx Hsize.
  intros Ha Hb E. destruct (index_entry i a Ha) as (x & Hx & Ea). destruct (index_entry j b Hb) as (y & Hy & Eb).
  destruct (raws_data i x Hx) as [Rx _]. destruct (raws_data j y Hy) as [Ry _]. rewrite Ea, Eb in E.
  apply handle_enc_inj in E; [|by apply handle_at_ok..]. injection E as E _.
  rewrite (end_of_small i _ Rx), (end_of_small j _ Ry) in E. by eapply distinct_offsets.
Qed.

(** *** The filter *)

Lemma raws_rest :
  raws = raw_blocks o blks ++ match table_filter waddr o blks with Some f => [f] | None => [] end ++
    [block (meta_entries waddr o blks); build_block 1 idx].
Proof. unfold raws, filter_raws. by rewrite <- app_assoc. Qed.

Lemma filter_raw f : table_filter waddr o blks = Some f ->
  raws !! length blks = Some f ∧ end_of waddr (raw_blocks o blks) = end_of waddr (take (length blks) raws).
Proof.
  intros Hf. rewrite raws_rest, Hf. pose proof (length_raw_blocks o blks) as Hl. split.
  - by rewrite lookup_app_r, Hl, Nat.sub_diag by lia.
  - by rewrite take_app_length' by done.
Qed.

Lemma filter_blocks_lookup j x : filter_blocks o 0 blks !! j = Some x ->
  ∃ blk, blks !! j = Some blk ∧ x = (end_of waddr (take j raws), blk.*1).
Proof.
  assert (∀ l pre j x, filter_blocks o pre l !! j = Some x ->
    ∃ blk, l !! j = Some blk ∧ x = (u64 (pre + size (area waddr (raw_blocks o (take j l)))), blk.*1)) as Hgen.
  { clear. induction l as [|b l IH]; intros pre [|j] x Hx; simplify_eq/=.
    - exists b. by rewrite Z.add_0_r.
    - destruct (IH _ _ _ Hx) as (blk & Hb & ->). exists blk. split; [done|]. unfold raw_blocks. cbn [fmap list_fmap].
      by rewrite size_area_cons, !Z.add_assoc. }
  intros Hx. destruct (Hgen _ _ _ _ Hx) as (blk & Hb & ->). exists blk. split; [done|].
  destruct (raws_data j blk Hb) as [_ ->]. by rewrite Z.add_0_l.
Qed.

Definition told : list (Z * list Slice) := filter_blocks o 0 blks ++ [(end_of waddr (raw_blocks o blks), [])].

Lemma told_lookup f j x : table_filter waddr o blks = Some f -> told !! j = Some x ->
  x.1 = size (area waddr (take j raws)) ∧ is_Some (raws !! j).
Proof using Hsize.
  intros Hf. unfold told. intros [Hx|[Hj Hx]]%lookup_app_Some.
  - destruct (filter_blocks_lookup j x Hx) as (blk & Hb & ->). destruct (raws_data j blk Hb) as [Hr _]. simpl.
    split; [by apply (end_of_small j _ Hr)|by eexists].
  - apply list_lookup_singleton_Some in Hx as [Hj0 <-]. simpl.
    assert (length (filter_blocks o 0 blks) = length blks) as Hl.
    { clear. generalize 0. induction blks as [|b l IH]; intros z; [done|]. simpl. by rewrite IH. }
    assert (j = length blks) as -> by lia. destruct (filter_raw f Hf) as [Hr ->].
    split; [by apply (end_of_small _ _ Hr)|by eexists].
Qed.

Lemma told_sorted f : table_filter waddr o blks = Some f ->
  StronglySorted (fun x y : Z * list Slice => x.1 <= y.1) told ∧ Forall (fun x : Z * list Slice => 0 <= x.1) told.
Proof using Hsize.
  intros Hf. split.
  - apply lookup_strongly_sorted. intros i j a b Hij Ha Hb. destruct (told_lookup f i a Hf Ha) as (-> & [r Hr]).
    destruct (told_lookup f j b Hf Hb) as (-> & _). pose proof (area_lt i j r Hr Hij). lia.
  - apply Forall_lookup. intros i a Ha. destruct (told_lookup f i a Hf Ha) as (-> & _). apply size_nonneg.
Qed.

Lemma filter_u8 f : table_filter waddr o blks = Some f -> Forall is_u8 f.
Proof using Hpolicy Hsize.
  intros Hf. destruct (told_sorted f Hf) as [H1 H2]. unfold table_filter in Hf. destruct (filter_policy o) as [p|] eqn:Ep; [|done].
  simpl in Hf. injection Hf as <-. by apply (filter_block_u8 p told); [apply Hpolicy|..].
Qed.

Lemma meta_ok : Forall entry_ok (meta_entries waddr o blks) ∧ Forall (fun kv => Forall is_u8 kv.1) (meta_entries waddr o blks) ∧
  keys_sorted BytewiseComparator (meta_entries waddr o blks).
Proof using Hpolicy Hsize.
  unfold meta_entries. destruct (filter_policy o) as [p|] eqn:Ep; [|split_and!; [constructor|constructor|done]].
  destruct (table_filter waddr o blks) as [f|] eqn:Ef; [|split_and!; [constructor|constructor|done]].
  destruct (Hpolicy p eq_refl) as [_ _ [Hn1 Hn2]]. destruct (filter_raw f Ef) as [Hr ->].
  assert (Forall is_u8 (str "filter." ++ Name p)) as Hu.
  { apply Forall_app. split; [|done]. repeat constructor; unfold is_u8; simpl; lia. }
  split_and!; [|by repeat constructor|].
  - constructor; [|constructor]. split_and!; [done| |].
    + apply handle_enc_u8. by apply handle_at_ok.
    + cbn [fst]. rewrite size_app. change (size (str "filter.")) with 7. lia.
  - intros [|i] [|j] a b Hij Ha Hb; simplify_eq/=; lia.
Qed.

(** ** Opening *)

Section Reading.

Context {F C H : Type} `{!RandomAccessFile F} `{!Cache Block C H} `{!CacheLaws Block C H} (addr : Slice -> Z) (rf : F).
Context (Hrf : ReadsFile rf bytes).

Lemma read_raw j raw ro : raws !! j = Some raw -> Forall is_u8 raw ->
  ∃ b, ReadBlock addr rf ro (MkBlockHandle (end_of waddr (take j raws)) (size raw)) = Some (Status_OK, MkBlockContents raw b b).
Proof using Hrf Hsize.
  intros Hj Hu. destruct (bytes_split j raw Hj) as (post & E). rewrite (end_of_small j raw Hj).
  eapply ReadBlock_stored; [exact Hrf|exact E|done|lia].
Qed.

Lemma meta_index_handles :
  table_footer waddr o blks idx
  = MkFooter (MkBlockHandle (end_of waddr (take (length raws - 2) raws)) (size (block (meta_entries waddr o blks))))
      (MkBlockHandle (end_of waddr (take (length raws - 1) raws)) (size (build_block 1 idx))).
Proof.
  unfold table_footer, raws. rewrite length_app. simpl.
  replace (length (filter_raws waddr o blks) + 2 - 2)%nat with (length (filter_raws waddr o blks)) by lia.
  rewrite take_app_length. do 3 f_equal.
  rewrite (take_app_ge _ _ (_ - 1)) by lia.
  by replace (length (filter_raws waddr o blks) + 2 - 1 - length (filter_raws waddr o blks))%nat with 1%nat by lia.
Qed.

(** The metaindex block leads to the filter. *)
Lemma ReadMeta_spec t id :
  t = MkTable o rf id None (metaindex_handle_ (table_footer waddr o blks idx)) (Block_new (build_block 1 idx)) ->
  ReadMeta addr (table_footer waddr o blks idx) t
  = Some (set_reader ((fun p => (p, FilterBlockReader_new (filter_block p told))) <$> filter_policy o) t).
Proof using Hival Hpolicy Hrf Hsize.
  intros ->. unfold ReadMeta. cbn [t_options t_file]. destruct index_raw as [_ Hmeta]. rewrite meta_index_handles. cbn [metaindex_handle_].
  destruct meta_ok as (M1 & M2 & M3). pose proof (raw_small _ _ Hmeta) as Hms.
  pose proof (build_u8 _ _ Hival M1 Hms) as Hmu. pose proof filter_u8 as Hfu.
  destruct (filter_policy o) as [p|] eqn:Ep; [|done]. cbn [fmap option_fmap option_map].
  destruct (read_raw _ _ (open_options o) Hmeta Hmu) as (b & ->). cbn [mbind option_bind ok Status_OK negb data].
  destruct (open_block BytewiseComparator (Forall is_u8) R _ Hival M1 M2 M3 Hms) as (mat & Hcur & Hat).
  set (f := filter_block p told).
  assert (table_filter waddr o blks = Some f) as Hf by (unfold table_filter; by rewrite Ep).
  assert (meta_entries waddr o blks = [(str "filter." ++ Name p, handle_enc (MkBlockHandle (end_of waddr (raw_blocks o blks)) (size f)))]) as Hme.
  { unfold meta_entries. by rewrite Ep, Hf. }
  assert (Forall is_u8 (str "filter." ++ Name p)) as Hu by (rewrite Hme in M2; by apply Forall_inv in M2).
  destruct (cur_seek _ _ (str "filter." ++ Name p) Hat Hu) as (it & -> & Ha). cbn [mbind option_bind].
  assert (seek_index BytewiseComparator (str "filter." ++ Name p) (meta_entries waddr o blks) = 0%nat) as E0.
  { rewrite Hme. cbn [seek_index fst]. by rewrite (cmp_refl (Compare BytewiseComparator) (Forall is_u8)). }
  rewrite E0 in Ha.
  assert (meta_entries waddr o blks !! 0%nat
    = Some (str "filter." ++ Name p, handle_enc (MkBlockHandle (end_of waddr (raw_blocks o blks)) (size f)))) as H0 by by rewrite Hme.
  destruct (cur_entry _ _ _ _ it 0 _ _ Ha H0) as (-> & Hk & Hv). rewrite Hk, Hv.
  assert (slice_eqb (str "filter." ++ Name p) (str "filter." ++ Name p) = true) as -> by by apply slice_eqb_spec. cbn [andb].
  unfold ReadFilter. destruct (filter_raw f Hf) as [Hr ->]. rewrite <- (app_nil_r (handle_enc _)), handle_decode;
    [|by apply handle_at_ok|constructor]. cbn [ok Status_OK negb].
  destruct (read_raw _ _ (open_options o) Hr (Hfu f Hf)) as (b' & E'). cbn [t_file t_options]. by rewrite E'.
Qed.

Lemma Open_spec c :
  ∃ id c', Table_Open addr o rf (size bytes) c
  = Some (Status_OK, Some (MkTable o rf id ((fun p => (p, FilterBlockReader_new (filter_block p told))) <$> filter_policy o)
      (metaindex_handle_ (table_footer waddr o blks idx)) (Block_new (build_block 1 idx))), c').
Proof using Hidx Hival Hkeys Hne Hokp Hpolicy Hrf Hsize Hsorted ComparatorLaws0.
  destruct index_raw as [Hi Hm]. destruct index_entries as (I1 & I2 & I3).
  assert (footer_ok (table_footer waddr o blks idx)) as Hfok.
  { rewrite meta_index_handles. split; cbn [metaindex_handle_ index_handle_]; by apply handle_at_ok. }
  unfold Table_Open. set (foot := Footer_EncodeTo [] (table_footer waddr o blks idx)).
  assert (bytes = area waddr raws ++ foot) as Hb by done. pose proof (Footer_size (table_footer waddr o blks idx)) as Hfs. fold foot in Hfs.
  pose proof (size_nonneg (area waddr raws)) as Hnn.
  assert (size bytes = size (area waddr raws) + kEncodedLength) as Hsb by (rewrite Hb, size_app; lia).
  assert (kEncodedLength = 48) as H48 by done.
  destruct (Z.ltb_spec (size bytes) kEncodedLength); [lia|].
  destruct (Hrf (size bytes - kEncodedLength) kEncodedLength) as (b & ->); [lia..|]. cbn [ok Status_OK negb].
  assert (take (Z.to_nat kEncodedLength) (drop (Z.to_nat (size bytes - kEncodedLength)) bytes) = foot) as ->.
  { rewrite Hb at 2. rewrite drop_app_length' by (unfold size in *; lia). apply take_ge. unfold size in Hfs. lia. }
  unfold foot. rewrite footer_decode by done. cbn [mbind option_bind ok Status_OK negb].
  assert (index_handle_ (table_footer waddr o blks idx) = MkBlockHandle (end_of waddr (take (length raws - 1) raws)) (size (build_block 1 idx)))
    as -> by by rewrite meta_index_handles.
  destruct (read_raw _ _ (open_options o) Hi) as (b' & ->); [apply build_u8; [lia|done|by apply (raw_small _ _ Hi)]|].
  cbn [mbind option_bind ok Status_OK data].
  destruct (if use_block_cache o then cache_NewId c else (0, c)) as [id c'] eqn:Ec.
  rewrite (ReadMeta_spec _ id) by done. cbn [mbind option_bind]. by exists id, c'.
Qed.

(** ** Reading blocks through the cache *)

(** What the cache may hold under the keys of table [t]. *)
Definition cached (t : Table F) (key : Slice) (b : Block) : Prop :=
  ∀ j blk h, blks !! j = Some blk -> handles 0 (raw_blocks o blks) !! j = Some h -> key = block_cache_key t h ->
  b = Block_new (block blk).

Lemma cache_key_inj (t : Table F) h h' : handle_ok h -> handle_ok h' -> block_cache_key t h = block_cache_key t h' -> bh_offset h = bh_offset h'.
Proof.
  intros [H1 _] [H2 _] E. unfold block_cache_key in E. apply app_inv_head in E.
  rewrite <- (DecodeFixed64_encode (bh_offset h) []), <- (DecodeFixed64_encode (bh_offset h') []) by done. by rewrite E.
Qed.

Context (t : Table F) (Hto : t_options t = o) (Htf : t_file t = rf) (Hti : t_index_block t = Block_new (build_block 1 idx)).
Context (Htfilter : filter t = (fun p => (p, FilterBlockReader_new (filter_block p told))) <$> filter_policy o).

Lemma cached_self j blk :
  blks !! j = Some blk ->
  cached t (block_cache_key t (MkBlockHandle (end_of waddr (take j raws)) (size (block blk)))) (Block_new (block blk)).
Proof using Hsize.
  intros Hj j' blk' h' Hj' Hh' E. rewrite (handle_at j' blk' Hj') in Hh'. injection Hh' as <-.
  destruct (raws_data j blk Hj) as [Rj _]. destruct (raws_data j' blk' Hj') as [Rj' _].
  apply cache_key_inj in E; [|by apply handle_at_ok..]. cbn [bh_offset] in E.
  rewrite (end_of_small j _ Rj), (end_of_small j' _ Rj') in E. assert (j = j') as -> by by eapply distinct_offsets. congruence.
Qed.

Lemma BlockReader_spec ro c j s blk :
  cache_holds (cached t) c -> idx !! j = Some s -> blks !! j = Some blk ->
  ∃ hd c', BlockReader addr t ro s.2 c = Some (MkDataIterator (NewIterator cmp (Block_new (block blk))) hd, c') ∧
    cache_holds (cached t) c'.
Proof using Hidx Hival Hkeys Hokp Hrf Hsize Htf Hto Hvals.
  intros Hc Hs Hb. destruct (index_entry j s Hs) as (blk' & Hb' & Es). assert (blk' = blk) as -> by congruence.
  destruct (raws_data j blk Hb) as [Hr _]. destruct (block_entries j blk Hb) as [He _].
  pose proof (build_u8 _ _ Hival He (block_small j blk Hb)) as Hu.
  set (h := MkBlockHandle (end_of waddr (take j raws)) (size (block blk))) in *.
  assert (handle_ok h) as Hh by by apply handle_at_ok.
  unfold BlockReader. rewrite Es, <- (app_nil_r (handle_enc h)), handle_decode by (done || constructor). cbn [ok Status_OK].
  assert (∀ c, cache_holds (cached t) c -> ∃ hd c', read_and_cache addr t ro h c = Some (Status_OK, Some (Block_new (block blk)), hd, c') ∧
    cache_holds (cached t) c') as Hread.
  { intros c0 Hc0. unfold read_and_cache. rewrite Htf. destruct (read_raw j _ ro Hr Hu) as (b & Eb). fold h in Eb. rewrite Eb.
    cbn [mbind option_bind ok Status_OK data cachable].
    destruct (use_block_cache _ && b && fill_cache ro); [|by eexists _, _].
    destruct (cache_Insert _ _ _ c0) as [hd c1] eqn:Ei. eexists _, _. split; [done|].
    eapply insert_law; [done| |done]. by apply cached_self. }
  rewrite Hto. destruct (use_block_cache o).
  - destruct (cache_Lookup (block_cache_key t h) c) as [[hd|] c1] eqn:El; destruct (lookup_law _ _ _ _ _ Hc El) as [Hc1 Hv].
    + eexists _, c1. cbn [mbind option_bind]. rewrite (Hv j blk h Hb); [done| |done]. by apply handle_at.
    + destruct (Hread c1 Hc1) as (hd & c2 & -> & Hc2). eexists _, c2. split; [done|done].
  - destruct (Hread c Hc) as (hd & c2 & -> & Hc2). eexists _, c2. split; [done|done].
Qed.

(** A cursor for every data block. *)
Lemma block_cursors :
  ∃ dat : nat -> BlockIterator -> nat -> Prop, ∀ j blk, blks !! j = Some blk ->
    Cursor cmp okp blk (dat j) ∧ dat j (NewIterator cmp (Block_new (block blk))) (length blk).
Proof using Hival Hkeys Hokp Hsize Hsorted Hvals ComparatorLaws0.
  destruct (finite_choice (fun j a => ∀ blk, blks !! j = Some blk ->
    Cursor cmp okp blk a ∧ a (NewIterator cmp (Block_new (block blk))) (length blk)) (fun _ _ => False) (length blks)) as [dat Hdat].
  - intros j Hj. destruct (lookup_lt_is_Some_2 blks j Hj) as [blk Hb]. destruct (block_entries j blk Hb) as [H1 H2].
    destruct (open_block cmp okp R blk Hival H1 H2 (block_sorted j blk Hb) (block_small j blk Hb)) as (at_ & Hcur & Ha).
    exists at_. intros blk' Hb'. rewrite Hb in Hb'. by injection Hb' as <-.
  - exists dat. intros j blk Hb. apply (Hdat j); [by eapply lookup_lt_Some|done].
Qed.

Lemma index_cursor : ∃ iat, Cursor cmp okp idx iat ∧ iat (NewIterator cmp (Block_new (build_block 1 idx))) (length idx) ∧
  (length idx < length (build_block 1 idx))%nat.
Proof using Hidx Hkeys Hne Hokp Hsize Hsorted ComparatorLaws0.
  destruct index_entries as (I1 & I2 & I3). pose proof (raw_small _ _ (proj1 index_raw)) as Hs.
  destruct (open_block cmp okp 1 idx ltac:(lia) I1 I2 I3 Hs) as (iat & Hc & Ha). exists iat. split_and!; [done|done|].
  destruct (build_layout 1 idx ltac:(lia) I1 Hs) as (shs & rs & Hl). pose proof (entries_fit _ _ _ _ Hl). unfold size in *. lia.
Qed.

Lemma okp_block j blk kv : blks !! j = Some blk -> kv ∈ blk -> okp kv.1.
Proof using Hkeys. intros Hj Hin. rewrite Forall_forall in Hkeys. apply Hkeys, list_elem_of_In. by eapply block_in. Qed.

(** ** The iterator *)

Lemma table_cursor ro c :
  cache_holds (cached t) c ->
  ∃ at_, @Cursor _ (table_iterator addr t ro) cmp okp kvs at_ ∧ at_ (Table_NewIterator t c) (length kvs).
Proof using All.
  intros Hc. destruct block_cursors as [dat Hdat]. destruct index_cursor as (iat & Hicur & Hia & Hlt). pose proof index_length as Hl.
  assert (∀ j kv blk, idx !! j = Some kv -> blks !! j = Some blk ->
    block_reads (BlockReader addr t ro) cmp okp (cache_holds (cached t)) j kv.2 blk (d_at (dat j))) as Hread.
  { intros j kv blk Hk Hb. destruct (Hdat j blk Hb) as [Hcur Ha]. split; [by apply data_cursor|].
    intros c0 Hc0. destruct (BlockReader_spec ro c0 j kv blk Hc0 Hk Hb) as (hd & c1 & E & Hc1). by eexists _, _. }
  assert (∀ d c0, cache_holds (cached t) c0 -> cache_holds (cached t) (delete_data_iterator d c0)) as Hdel.
  { intros d c0 Hc0. unfold delete_data_iterator. destruct (di_handle d); [by apply release_law|done]. }
  exists (tl_at idx iat blks (cache_holds (cached t)) (fun j => d_at (dat j))). split.
  - refine (two_level_cursor (BlockReader addr t ro) delete_data_iterator (table_rounds t) cmp okp idx iat blks _ _ Hl Hread Hdel
      _ _ _ _ _ _).
    + apply index_distinct.
    + apply index_entries.
    + apply okp_block.
    + apply sep_le.
    + apply sep_lt.
    + unfold table_rounds. rewrite Hti. unfold Block_new. repeat case_if; cbn [block_data_]; lia.
  - unfold Table_NewIterator. rewrite Hto, Hti. apply two_level_new; done.
Qed.

(** ** Lookups *)

(** Searching for a key that is there. *)
Lemma seek_present k v :
  okp k -> (k, v) ∈ kvs -> ∃ i q blk, blks !! i = Some blk ∧ blk !! q = Some (k, v) ∧
    seek_index cmp k idx = i ∧ seek_index cmp k blk = q.
Proof using Hidx Hkeys Hne Hsorted ComparatorLaws0.
  intros Hk Hin. apply list_elem_of_In, in_concat in Hin as (blk & Hblk & Hin).
  apply list_elem_of_In, list_elem_of_lookup in Hblk as [i Hi]. apply list_elem_of_In, list_elem_of_lookup in Hin as [q Hq].
  exists i, q, blk. split_and!; [done|done| |].
  - pose proof index_length as Hl. pose proof (lookup_lt_Some _ _ _ Hi). apply seek_index_eq; [lia| |].
    + intros j s Hj Hs. apply (sep_lt j i s blk (k, v)); [done..|by eapply list_elem_of_lookup_2].
    + intros s Hs. apply (cmp_flip_le _ okp); [done|by eapply sep_okp|].
      apply (sep_le i s blk (k, v)); [done..|by eapply list_elem_of_lookup_2].
  - apply seek_index_eq; [apply lookup_lt_Some in Hq; lia| |].
    + intros j kv Hj Hkv. exact (block_sorted i blk Hi j q kv (k, v) Hj Hkv Hq).
    + intros kv Hkv. rewrite Hq in Hkv. injection Hkv as <-. cbn [fst]. by rewrite (cmp_refl _ okp).
Qed.

Lemma told_block i blk : blks !! i = Some blk -> (end_of waddr (take i raws), blk.*1) ∈ told.
Proof.
  intros Hi. unfold told. apply elem_of_app. left.
  assert (is_Some (filter_blocks o 0 blks !! i)) as [x Hx].
  { apply lookup_lt_is_Some. assert (∀ l z, length (filter_blocks o z l) = length l) as ->.
    { clear. induction l as [|b l IH]; intros z; [done|]. simpl. by rewrite IH. }
    by eapply lookup_lt_Some. }
  destruct (filter_blocks_lookup i x Hx) as (blk' & Hb' & ->). rewrite Hi in Hb'. injection Hb' as <-.
  by eapply list_elem_of_lookup_2.
Qed.

Lemma keys_of_told : keys_of told = kvs.*1.
Proof.
  unfold told, keys_of. rewrite fmap_app, concat_app. simpl. rewrite app_nil_r.
  assert (∀ l z, concat ((filter_blocks o z l).*2) = (concat l).*1) as Hgen; [|apply Hgen].
  clear. induction l as [|b l IH]; intros z; [done|]. cbn [filter_blocks fmap list_fmap concat]. rewrite fmap_app. cbn [snd].
  f_equal. apply IH.
Qed.

(** All entries fit into the file. *)
Lemma entries_bound : Z.of_nat (length kvs) < 2 ^ 31.
Proof using Hival Hkeys Hokp Hsize Hvals.
  assert (∀ n, (n <= length blks)%nat -> 3 * Z.of_nat (length (concat (take n blks))) <= size (area waddr (take n raws))) as Hn.
  { induction n as [|n IH]; intros Hn; [pose proof (size_nonneg (area waddr (take 0 raws))); simpl; lia|].
    destruct (lookup_lt_is_Some_2 blks n Hn) as [blk Hb]. destruct (raws_data n blk Hb) as [Hr _].
    rewrite (take_S_r _ _ _ Hb), (take_S_r _ _ _ Hr), area_snoc, size_app, size_stored, concat_app, length_app. simpl.
    rewrite app_nil_r. specialize (IH ltac:(lia)). destruct (block_entries n blk Hb) as [He _].
    destruct (build_layout R blk Hival He (block_small n blk Hb)) as (shs & rs & Hl). pose proof (entries_fit _ _ _ _ Hl).
    change kBlockTrailerSize with 5. lia. }
  specialize (Hn (length blks) ltac:(lia)). rewrite take_ge in Hn by lia.
  assert (length blks <= length raws)%nat by (rewrite raws_rest, length_app, length_raw_blocks; lia).
  assert (size (area waddr (take (length blks) raws)) <= size bytes); [|lia].
  destruct (lookup_lt_is_Some_2 raws (length blks)) as [raw Hr].
  { rewrite raws_rest, !length_app, length_raw_blocks. simpl. lia. }
  pose proof (area_small _ _ Hr). pose proof (size_nonneg raw). lia.
Qed.

(** The filter does not hide a key of the block. *)
Lemma filter_passes p i blk k :
  filter_policy o = Some p -> blks !! i = Some blk -> k ∈ blk.*1 ->
  FilterKeyMayMatch p (FilterBlockReader_new (filter_block p told)) (end_of waddr (take i raws)) k = true.
Proof using Hival Hkeys Hokp Hpolicy Hsize Hvals.
  intros Ep Hb Hk. assert (table_filter waddr o blks = Some (filter_block p told)) as Hf by (unfold table_filter; by rewrite Ep).
  destruct (told_sorted _ Hf) as [T1 T2]. destruct (filter_raw _ Hf) as [Hr _].
  pose proof (po_laws _ (Hpolicy p Ep)). eapply (filter_block_matches p told); [done|done| |by eapply raw_small|by apply told_block|done].
  rewrite keys_of_told, length_fmap. apply entries_bound.
Qed.

Lemma Get_spec ro k c :
  cache_holds (cached t) c -> okp k ->
  ∃ res c', InternalGet addr t ro k c = Some (Status_OK, res, c') ∧ cache_holds (cached t) c' ∧
    (∀ v, (k, v) ∈ kvs -> res = Some (k, v)) ∧ (∀ kv, res = Some kv -> kvs !! seek_index cmp k kvs = Some kv).
Proof using All.
  intros Hc Hk. destruct index_cursor as (iat & Hicur & Hia & _). pose proof index_length as Hl.
  unfold InternalGet. rewrite Hto, Hti. destruct (cur_seek _ _ k Hia Hk) as (it & -> & Hat). cbn [mbind option_bind].
  rewrite (cur_valid cmp okp idx iat it _ Hat), (cur_status it _ Hat).
  set (j := seek_index cmp k idx) in *. case_bool_decide as Hj; cycle 1.
  { exists None, c. cbn [mbind option_bind ok Status_OK]. split_and!; [done|done| |done]. intros v Hv.
    destruct (seek_present k v Hk Hv) as (i & q & blk & Hi & _ & Ej & _). apply lookup_lt_Some in Hi. fold j in Ej. lia. }
  destruct (lookup_lt_is_Some_2 idx j Hj) as [s Hs]. destruct (lookup_lt_is_Some_2 blks j ltac:(lia)) as [blk Hb].
  destruct s as [sk sv]. destruct (cur_entry cmp okp idx iat it j sk sv Hat Hs) as (_ & _ & ->).
  destruct (index_entry j _ Hs) as (blk' & Hb' & Es). rewrite Hb in Hb'. injection Hb' as <-. cbn [snd] in Es.
  set (absent := match filter t with Some (p, reader) => _ | None => false end).
  assert (∀ v, (k, v) ∈ kvs -> absent = false) as Habs.
  { intros v Hv. destruct (seek_present k v Hk Hv) as (i & q & blk' & Hi & Hq & Ej & _). fold j in Ej. subst i.
    rewrite Hb in Hi. injection Hi as <-. unfold absent. rewrite Htfilter. pose proof (fun p => filter_passes p j blk k) as Hpass.
    destruct (filter_policy o) as [p|]; [|done]. cbn [fmap option_fmap option_map].
    rewrite Es, <- (app_nil_r (handle_enc _)), handle_decode; [|exact (handle_at_ok j _ (proj1 (raws_data j blk Hb)))|constructor].
    cbn [ok Status_OK andb bh_offset]. rewrite (Hpass p eq_refl Hb); [done|].
    apply list_elem_of_fmap. exists (k, v). split; [done|by eapply list_elem_of_lookup_2]. }
  clearbody absent. destruct absent.
  { exists None, c. split_and!; [done|done| |done]. intros v Hv. by specialize (Habs v Hv). }
  destruct (BlockReader_spec ro c j _ blk Hc Hs Hb) as (hd & c1 & E & Hc1). cbn [snd] in E. rewrite E. cbn [mbind option_bind].
  destruct block_cursors as [dat Hdat]. destruct (Hdat j blk Hb) as [Hcur Hd]. pose proof (data_cursor (H := H) cmp okp blk (dat j)).
  destruct (cur_seek (MkDataIterator (NewIterator cmp (Block_new (block blk))) hd) (length blk) k Hd Hk) as (d & -> & Hda).
  cbn [mbind option_bind]. rewrite (cur_status d _ Hda). pose proof (cur_view d _ Hda) as Hview. unfold i_view in Hview.
  rewrite Hview. exists (blk !! seek_index cmp k blk), (delete_data_iterator d c1). cbn [ok Status_OK].
  split_and!; [done| | |].
  - unfold delete_data_iterator. destruct (di_handle d); [by apply release_law|done].
  - intros v Hv. destruct (seek_present k v Hk Hv) as (i & q & blk' & Hi & Hq & Ej & Eq). fold j in Ej. subst i.
    rewrite Hb in Hi. injection Hi as <-. by rewrite Eq.
  - intros kv Hkv.
    rewrite (seek_all cmp okp idx blks Hl (proj1 (proj2 index_entries)) okp_block sep_le sep_lt k j Hk eq_refl), Hb.
    rewrite (pos_lookup blks j _ blk Hb); [done|]. by eapply lookup_lt_Some.
Qed.

End Reading.

End Written.

(** ** The contract of a table *)

(** C27. A table written by [TableBuilder] with entries in increasing key order
    finishes without error; when its file is below 4 GiB and a random-access
    file reads it back, [Table::Open] succeeds.  The table's iterator is then
    a cursor in the list of entries under every sequence of moves, and
    [InternalGet] hands over the entry of every key that was added, and
    otherwise nothing or the first entry above the key; whatever the block
    size, the restart interval, the filter policy and the compression option,
    with or without checksum verification, and whatever a block cache does
    that only returns blocks of the table under the table's keys. *)
Theorem table_roundtrip {FW FR C H : Type} `{!WritableFile FW} `{!ReliableFile FW} `{!RandomAccessFile FR}
    `{!Cache Block C H} `{!CacheLaws Block C H} (waddr addr : Slice -> Z) (o : Options) (okp : Slice -> Prop)
    `{!ComparatorLaws (comparator o) okp} (f : FW) (kvs : list (Slice * Slice)) :
  (∀ k, okp k -> Forall is_u8 k ∧ size k < 2 ^ 32) -> 1 <= restart_interval o ->
  (∀ p, filter_policy o = Some p -> policy_ok p) -> contents f = [] ->
  Forall (fun kv => okp kv.1) kvs -> Forall (fun kv => Forall is_u8 kv.2) kvs -> keys_sorted (comparator o) kvs ->
  ∃ r blks, TableBuilder_Finish waddr (build_table waddr o f kvs) = Some (Status_OK, r) ∧ concat blks = kvs ∧
    (size (contents (file r)) < 2 ^ 32 -> ∀ (rf : FR) (c0 : C), ReadsFile rf (contents (file r)) ->
     ∃ t c1, Table_Open addr o rf (FileSize r) c0 = Some (Status_OK, Some t, c1) ∧
       ∀ ro c, cache_holds (cached o blks t) c ->
       (∀ ops i, Forall (target_ok okp) ops -> cursor_run (comparator o) kvs ops = Some i ->
          ∃ it, iter_run (Iterator0 := table_iterator addr t ro) ops (Table_NewIterator t c) = Some it ∧
            i_view (Iterator0 := table_iterator addr t ro) it = kvs !! i ∧
            i_status (Iterator := table_iterator addr t ro) it = Status_OK) ∧
       (∀ k, okp k -> ∃ res c', InternalGet addr t ro k c = Some (Status_OK, res, c') ∧
          (∀ v, (k, v) ∈ kvs -> res = Some (k, v)) ∧
          (∀ kv, res = Some kv -> kvs !! seek_index (comparator o) k kvs = Some kv))).
Proof.
  intros Hokp Hint Hpol Hf Hkeys Hvals Hsort.
  destruct (Adds_spec waddr o okp f kvs Hf Hkeys Hsort) as (blks0 & cur & idx0 & Hb & Ekvs).
  destruct (Finish_spec waddr o okp _ _ _ _ Hb) as (r & blks & idx & Hfin & Ec & Hne & Hidx & Hbytes & Hfs); [by rewrite Ekvs|].
  rewrite Ekvs in Ec. exists r, blks. split_and!; [done|done|]. rewrite Hbytes in *. intros Hsz rf c0 Hrf. subst kvs.
  rewrite Hfs, u64_small by (pose proof (size_nonneg (table_bytes waddr o blks idx)); lia). rewrite <- Ec in *.
  destruct (Open_spec waddr o okp blks idx Hint Hokp Hkeys Hsort Hne Hidx Hpol Hsz addr rf Hrf c0) as (id & c1 & ->).
  eexists _, c1. split; [done|]. set (t := MkTable _ _ _ _ _ _). intros ro c Hc. split.
  - destruct (table_cursor waddr o okp blks idx Hint Hokp Hkeys Hvals Hsort Hne Hidx Hpol Hsz addr rf Hrf t eq_refl eq_refl eq_refl
      eq_refl ro c Hc) as (at_ & Hcur & Hat). intros ops i Ht Hrun.
    destruct (@run_cursor _ (table_iterator addr t ro) _ okp _ at_ Hcur ops _ i Hat Ht Hrun) as (it & ? & ? & ? & _). by exists it.
  - intros k Hk.
    destruct (Get_spec waddr o okp blks idx Hint Hokp Hkeys Hvals Hsort Hne Hidx Hpol Hsz addr rf Hrf t eq_refl eq_refl eq_refl
      eq_refl ro k c Hc Hk) as (res & c' & ? & _ & ? & ?). by exists res, c'.
Qed.

(** *** A small table *)

(** Keys of bounded size, for comparators that do not lengthen them. *)
Lemma bounded_laws c okp :
  ComparatorLaws c okp -> (∀ s l, (length (FindShortestSeparator c s l) <= length s)%nat) ->
  (∀ k, (length (FindShortSuccessor c k) <= length k)%nat) ->
  ComparatorLaws c (fun k => okp k ∧ size k < 2 ^ 32).
Proof.
  intros Hc Hsep Hsucc. split.
  - split; intros; [apply cmp_antisym; tauto|]. by apply (cmp_le_trans (okp := okp) x y z); tauto.
  - intros s l [Hs1 Hs2] [Hl _]. split; [by apply sep_ok|]. specialize (Hsep s l). unfold size in *. lia.
  - intros s l [Hs _] [Hl _]. by apply sep_range.
  - intros s l [Hs _] [Hl _]. by apply (sep_unchanged (okp := okp)).
  - intros k [Hk1 Hk2]. split; [by apply succ_ok|]. specialize (Hsucc k). unfold size in *. lia.
  - intros k [Hk _]. by apply (succ_ge (okp := okp)).
Qed.

#[local] Instance bytewise_bounded : ComparatorLaws BytewiseComparator (fun k => Forall is_u8 k ∧ size k < 2 ^ 32).
Proof.
  apply bounded_laws; [apply bytewise_laws| |]; simpl.
  - intros s l. unfold BytewiseFindShortestSeparator. destruct (Nat.leb_spec (Nat.min (length s) (length l)) (common_prefix s l)); [done|].
    case_if; [|done]. rewrite length_app, length_take. simpl. lia.
  - induction k as [|x k IH]; simpl; [done|]. case_if; simpl; lia.
Qed.

(** A file in memory. *)
#[local] Instance slice_random : RandomAccessFile Slice :=
  fun f off n => (Status_OK, take (Z.to_nat n) (drop (Z.to_nat off) f), true).

(** A cache that keeps everything: its handles are the blocks. *)
Definition keep : Type := Z * list (Slice * Block).

#[local] Instance keep_cache : Cache Block keep Block := {|
  cache_NewId c := (c.1 + 1, (c.1 + 1, c.2));
  cache_Lookup k c := (snd <$> List.find (fun kb => bool_decide (kb.1 = k)) c.2, c);
  cache_Value b _ := b;
  cache_Insert k b _ c := (b, (c.1, (k, b) :: c.2));
  cache_Release _ c := c;
|}.

#[local] Instance keep_laws : CacheLaws Block keep Block.
Proof.
  exists (fun P c => ∀ k b, (k, b) ∈ c.2 -> P k b).
  - intros P k c h c' Hc [= <- <-]. split; [done|]. destruct (List.find _ c.2) as [[k' b]|] eqn:E; simpl; [|done].
    apply find_some in E as [Hin E]. apply bool_decide_eq_true in E. simpl in E. subst. apply Hc. by apply list_elem_of_In.
  - intros P k v charge c h c' Hc Hv [= <- <-] k' b' [[= -> ->]|Hin]%elem_of_cons; [done|by apply Hc].
  - done.
Defined.

Lemma bloom_add_u8 j bits delta h a : Forall is_u8 a -> Forall is_u8 (bloom_add j bits delta h a).
Proof.
  revert h a; induction j as [|j IH]; intros h a Ha; simpl; [done|].
  apply IH. apply Forall_insert; [done|]. apply Z.mod_pos_bound. lia.
Qed.

Lemma bloom_filter_u8 bpk keys : Forall is_u8 (BloomCreateFilter bpk keys []).
Proof.
  unfold BloomCreateFilter. rewrite app_nil_l. set (a := replicate _ 0 ++ _). assert (Forall is_u8 a) as Ha.
  { apply Forall_app; split; [apply Forall_replicate; unfold is_u8; lia|]. repeat constructor; apply Z.mod_pos_bound; lia. }
  clearbody a. generalize (u64 (bloom_bytes bpk (Z.of_nat (length keys)) * 8)). intros bits. revert a Ha. induction keys as [|k keys IH]; intros a Ha; simpl; [done|]. apply IH. by apply bloom_add_u8.
Qed.

Lemma bloom_ok bpk : 0 <= bpk < 2 ^ 31 -> policy_ok (NewBloomFilterPolicy bpk).
Proof.
  intros Hb. split.
  - apply bloom_laws. rewrite (proj2 (Z.leb_le 0 bpk)), (proj2 (Z.ltb_lt bpk (2 ^ 31))) by lia. constructor.
  - apply bloom_filter_u8.
  - split; [|vm_compute; reflexivity]. simpl. repeat constructor; unfold is_u8; simpl; lia.
Qed.

(** Blocks of at most two entries, Bloom filters, a cache. *)
Definition small_options : Options :=
  MkOptions BytewiseComparator true true 16 1 kSnappyCompression (Some (NewBloomFilterPolicy 10)).

Definition small_table : option (Status * TableBuilder Slice) :=
  TableBuilder_Finish (fun _ => 0) (build_table (fun _ => 0) small_options ([] : Slice) small_entries).

Lemma small_table_size : match small_table with Some (_, r) => size (file r) <? 2 ^ 32 | None => false end = true.
Proof. vm_compute. reflexivity. Qed.

Lemma table_roundtrip_witness :
  ∃ r t c1 c2, small_table = Some (Status_OK, r) ∧
    Table_Open (F := Slice) (C := keep) (H := Block) (fun _ => 3) small_options (file r) (FileSize r) (0, []) = Some (Status_OK, Some t, c1) ∧
    InternalGet (F := Slice) (C := keep) (H := Block) (fun _ => 3) t ReadOptions_new [97; 98; 99] (7, []) = Some (Status_OK, Some ([97; 98; 99], [2; 2]), c2).
Proof.
  destruct (table_roundtrip (FW := Slice) (FR := Slice) (C := keep) (H := Block) (fun _ => 0) (fun _ => 3) small_options
    (fun k => Forall is_u8 k ∧ size k < 2 ^ 32) ([] : Slice) small_entries) as (r & blks & Hfin & _ & Hopen).
  - intros k Hk. exact Hk.
  - simpl. lia.
  - intros p Hp. simpl in Hp. injection Hp as <-. apply bloom_ok. lia.
  - reflexivity.
  - repeat constructor; simpl; lia.
  - repeat constructor; simpl; lia.
  - intros i j a b Hij Ha Hb. destruct i as [|[|[|[|i]]]], j as [|[|[|[|j]]]]; simplify_eq/=; try lia; vm_compute; reflexivity.
  - pose proof small_table_size as Hs. unfold small_table in *. rewrite Hfin in Hs.
    apply Z.ltb_lt in Hs. destruct (Hopen Hs (file r) (0, [])) as (t & c1 & Ho & Hget).
    { intros off n H1 H2 H3. exists true. reflexivity. }
    destruct (Hget ReadOptions_new (7, [])) as [_ Hk]; [intros k b Hin; exact (False_ind _ (proj1 (elem_of_nil _) Hin))|].
    destruct (Hk [97; 98; 99]) as (res & c2 & E & Hpres & _); [clear; split; [repeat constructor; simpl; lia|reflexivity]|].
    exists r, t, c1, c2. split; [unfold small_table; exact Hfin|]. split; [exact Ho|]. rewrite (Hpres [2; 2]) in E; [exact E|]. clear. right. left.
Defined.
