(* ===== verification/LdbWriteBatch.v ===== *)
(** * leveldb: write batches (write_batch.h, write_batch_internal.h,
      write_batch.cc)

    A batch is its representation [rep_]: eight bytes of sequence number,
    four of count, then the records.  [Iterate] drives a [Handler], whose
    methods change a state; what a handler did before an error stays done. *)

From S2P Require Import Prelude.
From S2P Require Import LdbSlice.
From S2P Require Import LdbCoding.
From S2P Require Import LdbFormat.

Definition kHeader : Z := 12.

(** [WriteBatch::rep_]. *)
Abbreviation WriteBatch := (list Z).

Record Handler (S : Type) := MkHandler {
  handler_Put : Slice -> Slice -> S -> S;
  handler_Delete : Slice -> S -> S;
}.
Arguments MkHandler {S}.
Arguments handler_Put {S}.
Arguments handler_Delete {S}.

Definition batch_Clear : WriteBatch := replicate (Z.to_nat kHeader) 0.

Definition ApproximateSize (b : WriteBatch) : Z := size b.

(** [Count] returns an [int], [SetCount] takes one. *)
Definition Count (b : WriteBatch) : Z := s32 (DecodeFixed32 (drop 8 b)).
Definition SetCount (b : WriteBatch) (n : Z) : WriteBatch :=
  take 8 b ++ EncodeFixed32 (u32 n) ++ drop 12 b.
Definition Sequence (b : WriteBatch) : Z := DecodeFixed64 b.
Definition SetSequence (b : WriteBatch) (seq : Z) : WriteBatch := EncodeFixed64 seq ++ drop 8 b.

Definition batch_Put (key value : Slice) (b : WriteBatch) : WriteBatch :=
  let b := SetCount b (Count b + 1) in
  PutLengthPrefixedSlice (PutLengthPrefixedSlice (b ++ [type_value kTypeValue]) key) value.

Definition batch_Delete (key : Slice) (b : WriteBatch) : WriteBatch :=
  let b := SetCount b (Count b + 1) in
  PutLengthPrefixedSlice (b ++ [type_value kTypeDeletion]) key.

Definition batch_Append (dst src : WriteBatch) : WriteBatch :=
  SetCount dst (Count dst + Count src) ++ drop (Z.to_nat kHeader) src.

Definition SetContents (contents : Slice) : WriteBatch := contents.

Section Iterate.

Context {S : Type} (handler : Handler S).

(** The loop over the records: the status of an early return, or the number
    of records.  Every round consumes input, so its length bounds them. *)
Fixpoint iterate_loop (n : nat) (input : Slice) (found : Z) (s : S) : (Status + Z) * S :=
  match n, input with
  | Datatypes.S n, tag :: input =>
      let found := found + 1 in
      if tag =? type_value kTypeValue then
        match GetLengthPrefixedSlice input with
        | Some (key, input) =>
            match GetLengthPrefixedSlice input with
            | Some (value, input) => iterate_loop n input found (handler_Put handler key value s)
            | None => (inl (Status_Corruption "bad WriteBatch Put" []), s)
            end
        | None => (inl (Status_Corruption "bad WriteBatch Put" []), s)
        end
      else if tag =? type_value kTypeDeletion then
        match GetLengthPrefixedSlice input with
        | Some (key, input) => iterate_loop n input found (handler_Delete handler key s)
        | None => (inl (Status_Corruption "bad WriteBatch Delete" []), s)
        end
      else (inl (Status_Corruption "unknown WriteBatch tag" []), s)
  | _, _ => (inr found, s)
  end.

Definition Iterate (b : WriteBatch) (s : S) : Status * S :=
  let input := b in
  if size input <? kHeader then (Status_Corruption "malformed WriteBatch (too small)" [], s)
  else
    let input := remove_prefix kHeader input in
    match iterate_loop (length input) input 0 s with
    | (inl status, s) => (status, s)
    | (inr found, s) =>
        if negb (found =? Count b) then (Status_Corruption "WriteBatch has wrong count" [], s)
        else (Status_OK, s)
    end.

End Iterate.

(** ** Operations and their records *)

Inductive op := OpPut (key value : Slice) | OpDelete (key : Slice).

Definition record_of (o : op) : Slice :=
  match o with
  | OpPut k v => type_value kTypeValue :: prefixed k ++ prefixed v
  | OpDelete k => type_value kTypeDeletion :: prefixed k
  end.

Definition op_ok (o : op) : Prop :=
  match o with
  | OpPut k v => Forall is_u8 k ∧ Forall is_u8 v ∧ size k < 2 ^ 32 ∧ size v < 2 ^ 32
  | OpDelete k => Forall is_u8 k ∧ size k < 2 ^ 32
  end.

Definition run_op {S} (h : Handler S) (s : S) (o : op) : S :=
  match o with
  | OpPut k v => handler_Put h k v s
  | OpDelete k => handler_Delete h k s
  end.

Definition add_op (b : WriteBatch) (o : op) : WriteBatch :=
  match o with OpPut k v => batch_Put k v b | OpDelete k => batch_Delete k b end.

Lemma record_of_u8 o : op_ok o -> Forall is_u8 (record_of o).
Proof.
  destruct o as [k v|k]; simpl; intros H; (constructor; [unfold is_u8; lia|]).
  - apply Forall_app. split; apply prefixed_u8; apply H.
  - apply prefixed_u8, H.
Qed.

Lemma records_u8 ops : Forall op_ok ops -> Forall is_u8 (concat (record_of <$> ops)).
Proof.
  induction 1 as [|o ops Ho Hops IH]; simpl; [done|]. apply Forall_app. split; [by apply record_of_u8|done].
Qed.

Lemma iterate_loop_records {S} (h : Handler S) ops n found s :
  Forall op_ok ops -> (length (concat (record_of <$> ops)) <= n)%nat ->
  iterate_loop h n (concat (record_of <$> ops)) found s =
  (inr (found + Z.of_nat (length ops)), foldl (run_op h) s ops).
Proof.
  intros Hops. revert n found s; induction Hops as [|o ops Ho Hops IH]; intros n found s Hn.
  { cbn. rewrite Z.add_0_r. by destruct n. }
  pose proof (records_u8 ops Hops) as Hu. cbn [fmap list_fmap concat] in *.
  destruct o as [k v|k]; cbn [record_of] in *; simpl app in *;
    (destruct n as [|n]; [simpl in Hn; lia|]); cbn [iterate_loop].
  - change (type_value kTypeValue =? type_value kTypeValue) with true. cbn iota.
    destruct Ho as (Hk & Hv & Hsk & Hsv).
    assert (Forall is_u8 (prefixed v ++ concat (record_of <$> ops))).
    { apply Forall_app. split; [by apply prefixed_u8|done]. }
    rewrite <- app_assoc, !GetLengthPrefixedSlice_put by done.
    rewrite IH by (simpl in Hn; rewrite !length_app in Hn; unfold prefixed in Hn; lia).
    cbn [foldl run_op length]. do 2 f_equal. lia.
  - change (type_value kTypeDeletion =? type_value kTypeValue) with false.
    change (type_value kTypeDeletion =? type_value kTypeDeletion) with true. cbn iota.
    destruct Ho as (Hk & Hsk). rewrite GetLengthPrefixedSlice_put by done.
    rewrite IH by (simpl in Hn; rewrite !length_app in Hn; unfold prefixed in Hn; lia).
    cbn [foldl run_op length]. do 2 f_equal. lia.
Qed.

(** A batch that holds the given operations under a header. *)
Record holds_ops (b : WriteBatch) (seq : Z) (ops : list op) : Prop := {
  ho_rep : b = EncodeFixed64 seq ++ EncodeFixed32 (Z.of_nat (length ops)) ++ concat (record_of <$> ops);
  ho_seq : is_u64 seq;
  ho_count : Z.of_nat (length ops) < 2 ^ 31;
}.

Lemma batch_Clear_holds : holds_ops batch_Clear 0 [].
Proof. split; [done|unfold is_u64; lia|simpl; lia]. Qed.

Section Header.

Context (seq n : Z) (body : Slice).
Context (n_int : 0 <= n < 2 ^ 31).

Lemma Count_header : Count (EncodeFixed64 seq ++ EncodeFixed32 n ++ body) = n.
Proof.
  unfold Count. rewrite drop_app_length' by by rewrite (length_le_split 8).
  rewrite DecodeFixed32_encode by (unfold is_u32; lia). unfold s32. apply swrap_small; simpl; lia.
Qed.

Lemma body_header : drop 12 (EncodeFixed64 seq ++ EncodeFixed32 n ++ body) = body.
Proof.
  rewrite (app_assoc (EncodeFixed64 seq)), drop_app_length'; [done|].
  by rewrite length_app, (length_le_split 8), (length_le_split 4).
Qed.

Lemma SetCount_header n' :
  SetCount (EncodeFixed64 seq ++ EncodeFixed32 n ++ body) n'
  = EncodeFixed64 seq ++ EncodeFixed32 (u32 n') ++ body.
Proof.
  unfold SetCount. rewrite take_app_length' by by rewrite (length_le_split 8). by rewrite body_header.
Qed.

End Header.

Lemma add_op_holds b seq ops o :
  holds_ops b seq ops -> Z.of_nat (length ops) + 1 < 2 ^ 31 -> holds_ops (add_op b o) seq (ops ++ [o]).
Proof.
  intros [-> Hs Hc] Hn. split; [|done|rewrite length_app; simpl; lia].
  assert (∀ t, SetCount (EncodeFixed64 seq ++ EncodeFixed32 (Z.of_nat (length ops)) ++ t)
      (Count (EncodeFixed64 seq ++ EncodeFixed32 (Z.of_nat (length ops)) ++ t) + 1)
    = EncodeFixed64 seq ++ EncodeFixed32 (Z.of_nat (length (ops ++ [o]))) ++ t) as E.
  { intros t. rewrite Count_header, SetCount_header by lia. do 3 f_equal. rewrite length_app. simpl.
    rewrite u32_small; lia. }
  rewrite fmap_app, concat_app. cbn [fmap list_fmap concat]. rewrite app_nil_r.
  destruct o as [k v|k]; unfold add_op, batch_Put, batch_Delete; rewrite E, !PutLengthPrefixedSlice_prefixed;
    cbn [record_of]; by rewrite <- !app_assoc.
Qed.

Lemma add_ops_holds b seq ops ops' :
  holds_ops b seq ops -> Z.of_nat (length ops + length ops') < 2 ^ 31 ->
  holds_ops (foldl add_op b ops') seq (ops ++ ops').
Proof.
  revert b ops; induction ops' as [|o ops' IH]; intros b ops Hb Hn; simpl; [by rewrite app_nil_r|].
  replace (ops ++ o :: ops') with ((ops ++ [o]) ++ ops') by by rewrite <- app_assoc.
  apply IH; [|rewrite length_app; simpl in *; lia]. apply add_op_holds; [done|simpl in Hn; lia].
Qed.

Lemma append_holds dst src seq seq' ops ops' :
  holds_ops dst seq ops -> holds_ops src seq' ops' -> Z.of_nat (length ops + length ops') < 2 ^ 31 ->
  holds_ops (batch_Append dst src) seq (ops ++ ops').
Proof.
  intros [-> Hs Hc] [-> Hs' Hc'] Hn. split; [|done|rewrite length_app; lia].
  unfold batch_Append. rewrite !Count_header, SetCount_header by lia.
  change (Z.to_nat kHeader) with 12%nat. rewrite body_header.
  rewrite fmap_app, concat_app, <- !app_assoc, u32_small by lia. do 3 f_equal. rewrite length_app. lia.
Qed.

Lemma SetSequence_holds b seq seq' ops :
  holds_ops b seq ops -> is_u64 seq' -> holds_ops (SetSequence b seq') seq' ops ∧ Sequence (SetSequence b seq') = seq'.
Proof.
  intros [-> Hs Hc] Hs'. unfold SetSequence.
  rewrite drop_app_length' by by rewrite (length_le_split 8). split; [by split|].
  unfold Sequence. by apply DecodeFixed64_encode.
Qed.

Lemma Iterate_holds {S} (h : Handler S) b seq ops s :
  holds_ops b seq ops -> Forall op_ok ops -> Iterate h b s = (Status_OK, foldl (run_op h) s ops).
Proof.
  intros [-> Hs Hc] Hops. unfold Iterate.
  destruct (Z.ltb_spec (size (EncodeFixed64 seq ++ EncodeFixed32 (Z.of_nat (length ops)) ++ concat (record_of <$> ops))) kHeader) as [Hlt|_].
  { rewrite !size_app, size_EncodeFixed64, size_EncodeFixed32 in Hlt.
    pose proof (size_nonneg (concat (record_of <$> ops))). unfold kHeader in Hlt. lia. }
  unfold remove_prefix. change (Z.to_nat kHeader) with 12%nat.
  rewrite body_header, iterate_loop_records, Count_header, Z.add_0_l, Z.eqb_refl by (done || lia). done.
Qed.
