(* ===== verification/LdbSkipList.v ===== *)
(** * leveldb: the skip list of the memtable (skiplist.h, random.h)

    Nodes are never deleted, so the heap of nodes is a list that only grows
    and a pointer is an index into it; the head is node 0.  A node has an
    array of next pointers, as long as its height.  The searches are loops on
    fuel, proved to be enough. *)

From S2P Require Import Prelude.

(** ** random.h *)

Definition Random_new (s : Z) : Z :=
  let seed := Z.land s 0x7fffffff in
  if (seed =? 0) || (seed =? 2147483647) then 1 else seed.

Definition Random_Next (seed : Z) : Z :=
  let M := 2147483647 in
  let A := 16807 in
  let product := u64 (seed * A) in
  let seed := u32 (Z.shiftr product 31 + Z.land product M) in
  if M <? seed then u32 (seed - M) else seed.

(** ** The list *)

Definition kMaxHeight : nat := 12.
Definition kBranching : Z := 4.

Section SkipList.

Context {Key : Type} (compare_ : Key -> Key -> Z).

Record Node := MkNode { node_key : Key; next_ : list (option nat) }.

Record SkipList := MkSkipList { nodes : list Node; max_height_ : nat; rnd_ : Z }.

Definition head_ : nat := 0.

Definition Next (sl : SkipList) (x level : nat) : option nat :=
  match nodes sl !! x with
  | Some nd => match next_ nd !! level with Some p => p | None => None end
  | None => None
  end.

Definition SetNext (sl : SkipList) (x level : nat) (p : option nat) : SkipList :=
  MkSkipList (alter (fun nd => MkNode (node_key nd) (<[level := p]> (next_ nd))) x (nodes sl))
    (max_height_ sl) (rnd_ sl).

(** The new node's array is filled before anybody can see it. *)
Definition NewNode (sl : SkipList) (key : Key) (height : nat) : nat * SkipList :=
  (length (nodes sl),
   MkSkipList (nodes sl ++ [MkNode key (replicate height None)]) (max_height_ sl) (rnd_ sl)).

Definition SkipList_new (any_key : Key) : SkipList :=
  MkSkipList [MkNode any_key (replicate kMaxHeight None)] 1 (Random_new 0xdeadbeef).

Definition GetMaxHeight (sl : SkipList) : nat := max_height_ sl.

Definition key_of (sl : SkipList) (x : nat) : option Key := node_key <$> nodes sl !! x.

Definition KeyIsAfterNode (sl : SkipList) (key : Key) (n : option nat) : bool :=
  match n with
  | Some n => match key_of sl n with Some k => compare_ k key <? 0 | None => false end
  | None => false
  end.

(** The loop of [FindGreaterOrEqual]; [prev] is filled level by level. *)
Fixpoint find_ge_loop (n : nat) (sl : SkipList) (key : Key) (x level : nat) (prev : list nat)
    : option (option nat * list nat) :=
  match n with
  | O => None
  | S n =>
      let next := Next sl x level in
      if KeyIsAfterNode sl key next then
        match next with
        | Some next => find_ge_loop n sl key next level prev
        | None => None
        end
      else
        let prev := <[level := x]> prev in
        match level with
        | O => Some (next, prev)
        | S level => find_ge_loop n sl key x level prev
        end
  end.

(** Enough rounds: every one moves forward in the list or down a level. *)
Definition search_fuel (sl : SkipList) : nat := length (nodes sl) + kMaxHeight.

Definition FindGreaterOrEqual (sl : SkipList) (key : Key) (prev : list nat) : option (option nat * list nat) :=
  find_ge_loop (search_fuel sl) sl key head_ (GetMaxHeight sl - 1) prev.

Fixpoint find_lt_loop (n : nat) (sl : SkipList) (key : Key) (x level : nat) : option nat :=
  match n with
  | O => None
  | S n =>
      let next := Next sl x level in
      if KeyIsAfterNode sl key next then
        match next with
        | Some next => find_lt_loop n sl key next level
        | None => None
        end
      else
        match level with
        | O => Some x
        | S level => find_lt_loop n sl key x level
        end
  end.

(** [next == nullptr || compare_(next->key, key) >= 0] is the negation of
    [KeyIsAfterNode]. *)
Definition FindLessThan (sl : SkipList) (key : Key) : option nat :=
  find_lt_loop (search_fuel sl) sl key head_ (GetMaxHeight sl - 1).

Fixpoint find_last_loop (n : nat) (sl : SkipList) (x level : nat) : option nat :=
  match n with
  | O => None
  | S n =>
      match Next sl x level with
      | None => match level with
                | O => Some x
                | S level => find_last_loop n sl x level
                end
      | Some next => find_last_loop n sl next level
      end
  end.

Definition FindLast (sl : SkipList) : option nat :=
  find_last_loop (search_fuel sl) sl head_ (GetMaxHeight sl - 1).

(** At most eleven rounds raise the height to [kMaxHeight]. *)
Fixpoint random_height_loop (n height : nat) (rnd : Z) : nat * Z :=
  match n with
  | O => (height, rnd)
  | S n =>
      let rnd := Random_Next rnd in
      if rnd mod kBranching =? 0 then random_height_loop n (S height) rnd else (height, rnd)
  end.

Definition RandomHeight (sl : SkipList) : nat * SkipList :=
  let '(height, rnd) := random_height_loop (kMaxHeight - 1) 1 (rnd_ sl) in
  (height, MkSkipList (nodes sl) (max_height_ sl) rnd).

(** [for (i = GetMaxHeight(); i < height; i++) prev[i] = head_]. *)
Definition fill_prev (from to : nat) (prev : list nat) : list nat :=
  foldl (fun prev i => <[i := head_]> prev) prev (seq from (to - from)).

(** The stores of one round of the linking loop of [Insert], in program order:
    the new node gets the successor of its predecessor at the level, then the
    predecessor is made to point to the new node. *)
Definition link_stores (x : nat) (prev : list nat) (i : nat) : list (SkipList -> SkipList) :=
  let p := nth i prev head_ in
  [ (fun sl => SetNext sl x i (Next sl p i));
    (fun sl => SetNext sl p i (Some x)) ].

(** The stores of the whole loop, and running some of them. *)
Definition insert_stores (x : nat) (prev : list nat) (height : nat) : list (SkipList -> SkipList) :=
  concat (link_stores x prev <$> seq 0 height).

Definition run_stores (stores : list (SkipList -> SkipList)) (sl : SkipList) : SkipList := foldl (fun sl store => store sl) sl stores.

Definition Insert (sl : SkipList) (key : Key) : option SkipList :=
  match FindGreaterOrEqual sl key (replicate kMaxHeight head_) with
  | None => None
  | Some (_, prev) =>
      let '(height, sl) := RandomHeight sl in
      let '(prev, sl) :=
        if (GetMaxHeight sl <? height)%nat
        then (fill_prev (GetMaxHeight sl) height prev, MkSkipList (nodes sl) height (rnd_ sl))
        else (prev, sl) in
      let '(x, sl) := NewNode sl key height in
      Some (run_stores (insert_stores x prev height) sl)
  end.

Definition Contains (sl : SkipList) (key : Key) : option bool :=
  match FindGreaterOrEqual sl key (replicate kMaxHeight head_) with
  | Some (Some x, _) =>
      match key_of sl x with Some k => Some (compare_ key k =? 0) | None => Some false end
  | Some (None, _) => Some false
  | None => None
  end.

(** [SkipList::Iterator]: the current node, null when not valid. *)
Definition iter_Valid (node : option nat) : bool := bool_decide (is_Some node).
Definition iter_key (sl : SkipList) (node : option nat) : option Key := node ≫= key_of sl.
Definition iter_Next (sl : SkipList) (node : option nat) : option nat :=
  node ≫= fun x => Next sl x 0.
Definition hide_head (node : nat) : option nat := if (node =? head_)%nat then None else Some node.
Definition iter_Prev (sl : SkipList) (node : option nat) : option (option nat) :=
  match iter_key sl node with
  | Some k => hide_head <$> FindLessThan sl k
  | None => Some None
  end.
Definition iter_Seek (sl : SkipList) (target : Key) : option (option nat) :=
  fst <$> FindGreaterOrEqual sl target (replicate kMaxHeight head_).
Definition iter_SeekToFirst (sl : SkipList) : option nat := Next sl head_ 0.
Definition iter_SeekToLast (sl : SkipList) : option (option nat) := hide_head <$> FindLast sl.

End SkipList.

Arguments SkipList Key : clear implicits.
Arguments Node Key : clear implicits.
