(* ===== verification/LdbSkipListThms.v ===== *)
(** * leveldb: the skip list is a sorted list

    [skip_inv sl L]: at every level [l] the next pointers from the head run
    through the nodes [L l], which are sorted and contain those of the level
    above.  Every store of [Insert] preserves it, so a reader that looks
    between two stores sees a well-formed list; the searches return the
    neighbours of the key in the sorted list. *)

From S2P Require Import Prelude.
From S2P Require Import LdbSlice.
From S2P Require Import LdbSkipList.
From stdpp Require Import list sorting.
#[local] Open Scope Z_scope.

(** ** random.h: multiplication modulo 2^31 - 1 *)

Lemma Random_Next_mod seed :
  0 < seed < 2147483647 ->
  Random_Next seed = seed * 16807 mod 2147483647 ∧ 0 < Random_Next seed < 2147483647.
Proof.
  intros Hs. unfold Random_Next. rewrite u64_small by lia.
  change (Z.land (seed * 16807) 2147483647) with (Z.land (seed * 16807) (Z.ones 31)).
  rewrite Z.land_ones, Z.shiftr_div_pow2 by lia. change (2 ^ 31) with 2147483648.
  set (p := seed * 16807). assert (0 < p mod 2147483647) as Hnz.
  { enough (p mod 2147483647 ≠ 0) by (pose proof (Z.mod_pos_bound p 2147483647); lia).
    intros Hz. apply Z.mod_divide in Hz; [|lia]. unfold p in Hz.
    assert (Z.gcd 2147483647 16807 = 1) as Hg by by vm_compute.
    rewrite Z.mul_comm in Hz. apply Z.gauss in Hz; [|done].
    apply Z.divide_pos_le in Hz; lia. }
  assert (p < 2147483647 * 16807) by (unfold p; lia).
  assert ((p / 2147483648 + p mod 2147483648) mod 2147483647 = p mod 2147483647) as E.
  { rewrite (Z_div_mod_eq_full p 2147483648) at 3.
    replace (2147483648 * (p / 2147483648) + p mod 2147483648)
      with (p / 2147483648 + p mod 2147483648 + (p / 2147483648) * 2147483647) by lia.
    by rewrite Z.mod_add. }
  pose proof (Z.mod_pos_bound p 2147483648 ltac:(lia)).
  assert (0 <= p / 2147483648 < 16808) by (split; [apply Z.div_pos; unfold p; lia|apply Z.div_lt_upper_bound; lia]).
  set (q := p / 2147483648 + p mod 2147483648) in *.
  assert (0 <= q < 2147500456) by (unfold q; lia).
  rewrite u32_small by lia. rewrite <- E in *. clearbody q.
  destruct (Z.ltb_spec 2147483647 q).
  - rewrite u32_small by lia. replace (q mod 2147483647) with (q - 2147483647); [lia|].
    apply (Z.mod_unique_pos _ _ 1); lia.
  - assert (q ≠ 2147483647) by (intros ->; by rewrite Z_mod_same_full in Hnz).
    rewrite Z.mod_small in * by lia. lia.
Qed.

(** ** Chains of pointers *)

Section Chains.

Context {Key : Type}.
Implicit Types sl : SkipList Key.

(** From [x] the level-[l] pointers run through [A]. *)
Fixpoint seg sl (l x : nat) (A : list nat) : Prop :=
  match A with
  | [] => True
  | y :: A => Next sl x l = Some y ∧ seg sl l y A
  end.

Definition path sl (l x : nat) (A : list nat) : Prop :=
  seg sl l x A ∧ Next sl (List.last A x) l = None.

Lemma last_cons (y x : nat) A : List.last (y :: A) x = List.last A y.
Proof.
  revert y x; induction A as [|z A IH]; intros y x; [done|].
  change (List.last (z :: A) x = List.last (z :: A) y). by rewrite !IH.
Qed.

Lemma last_app (A B : list nat) x : List.last (A ++ B) x = List.last B (List.last A x).
Proof.
  revert x; induction A as [|y A IH]; intros x; [done|].
  rewrite <- app_comm_cons, !last_cons. apply IH.
Qed.

Lemma last_elem A (x : nat) : List.last A x ∈ x :: A.
Proof.
  revert x; induction A as [|y A IH]; intros x; [set_solver|]. rewrite last_cons. specialize (IH y). set_solver.
Qed.

Lemma seg_app sl l x A B : seg sl l x (A ++ B) <-> seg sl l x A ∧ seg sl l (List.last A x) B.
Proof.
  revert x; induction A as [|y A IH]; intros x; [simpl; tauto|].
  rewrite last_cons. cbn [seg app]. rewrite IH. tauto.
Qed.

Lemma path_app sl l x A B : path sl l x (A ++ B) <-> seg sl l x A ∧ path sl l (List.last A x) B.
Proof. unfold path. rewrite seg_app, last_app. tauto. Qed.

(** The pointer out of a node is the head of what follows. *)
Lemma path_next sl l x A : path sl l x A -> Next sl x l = hd_error A.
Proof. destruct A as [|y A]; intros [Hs Hn]; simpl in *; [done|]. apply Hs. Qed.

(** A chain whose sources keep their pointers is kept. *)
Lemma seg_ext sl sl' l x A :
  NoDup (x :: A) -> (∀ y, y ∈ x :: A -> y ≠ List.last A x -> Next sl' y l = Next sl y l) ->
  seg sl l x A -> seg sl' l x A.
Proof.
  revert x; induction A as [|y A IH]; intros x Hnd Hext Hs; [done|].
  rewrite last_cons in Hext. apply NoDup_cons in Hnd as [Hx Hnd]. destruct Hs as [Hn Hs].
  pose proof (last_elem A y) as Hl. split.
  - rewrite Hext; [done|set_solver|]. intros ->. done.
  - apply IH; [done| |done]. intros z Hz. apply Hext. set_solver.
Qed.

Lemma path_ext sl sl' l x A :
  NoDup (x :: A) -> (∀ y, y ∈ x :: A -> Next sl' y l = Next sl y l) -> path sl l x A -> path sl' l x A.
Proof.
  intros Hnd Hext [Hs Hn]. split.
  - eapply seg_ext; [done| |exact Hs]. intros y Hy _. by apply Hext.
  - rewrite Hext; [done|]. apply last_elem.
Qed.

Lemma Next_SetNext sl x l p y k :
  (∃ nd, nodes sl !! x = Some nd ∧ (l < length (next_ nd))%nat) ->
  Next (SetNext sl x l p) y k = if decide (y = x ∧ k = l) then p else Next sl y k.
Proof.
  intros (nd & Hx & Hl). unfold Next, SetNext. cbn [nodes]. destruct (decide (y = x)) as [->|Hne].
  - rewrite list_lookup_alter_eq, Hx. simpl. destruct (decide (k = l)) as [->|Hk].
    + by rewrite list_lookup_insert_eq, decide_True.
    + rewrite list_lookup_insert_ne, decide_False by naive_solver. done.
  - rewrite list_lookup_alter_ne, decide_False by naive_solver. done.
Qed.

(** Linking the new node [n] after the last node of [A]. *)
Lemma path_link sl sl' l n A B :
  NoDup (head_ :: A ++ B) -> n ∉ head_ :: A ++ B ->
  (∀ y, Next sl' y l = if decide (y = List.last A head_) then Some n
                       else if decide (y = n) then Next sl (List.last A head_) l else Next sl y l) ->
  path sl l head_ (A ++ B) -> path sl' l head_ (A ++ n :: B).
Proof.
  intros Hnd Hn Hext Hp. apply path_app in Hp as [HA HB]. pose proof (last_elem A head_) as Hla.
  assert (∀ y, y ∈ head_ :: A ++ B -> y ≠ List.last A head_ -> Next sl' y l = Next sl y l) as Hold.
  { intros y Hy Hne. rewrite Hext, decide_False by done. rewrite decide_False; [done|]. by intros ->. }
  rewrite app_comm_cons in Hnd. apply NoDup_app in Hnd as (HndA & Hdis & HndB).
  apply path_app. split.
  { eapply seg_ext; [done| |done]. intros y Hy Hne. apply Hold; [set_solver|done]. }
  assert (n ≠ List.last A head_) by (intros ->; apply Hn; set_solver).
  split.
  - cbn [seg]. split; [by rewrite Hext, decide_True|].
    destruct B as [|b B]; [done|]. destruct HB as [[Hb HB] _]. split.
    + rewrite Hext, decide_False, decide_True by done. done.
    + eapply seg_ext; [done| |done]. intros y Hy Hne. apply Hold; [set_solver|].
      intros ->. apply (Hdis (List.last A head_)); done.
  - rewrite last_cons. destruct HB as [_ HB]. destruct B as [|b B].
    + simpl in *. rewrite Hext, decide_False, decide_True by done. done.
    + rewrite last_cons in *. pose proof (last_elem B b) as Hlb. rewrite Hold; [done|set_solver|].
      intros E. rewrite E in Hlb. by apply (Hdis (List.last A head_)).
Qed.

End Chains.

Lemma filter_shorter (P Q : nat -> Prop) `{!∀ x, Decision (P x)} `{!∀ x, Decision (Q x)} (l : list nat) y :
  (∀ x, x ∈ l -> P x -> Q x) -> y ∈ l -> Q y -> ¬ P y -> (length (filter P l) < length (filter Q l))%nat.
Proof.
  assert (∀ l, (∀ x, x ∈ l -> P x -> Q x) -> (length (filter P l) <= length (filter Q l))%nat) as Hle.
  { induction l0 as [|z l0 IH]; intros HPQ; [done|]. rewrite !filter_cons.
    specialize (IH ltac:(set_solver)). destruct (decide (P z)), (decide (Q z)); simpl; try lia.
    exfalso. apply n. apply HPQ; [set_solver|done]. }
  induction l as [|z l IH]; intros HPQ Hy HQ HP; [set_solver|]. rewrite !filter_cons.
  apply elem_of_cons in Hy as [->|Hy].
  - rewrite decide_False, decide_True by done. specialize (Hle l ltac:(set_solver)). simpl. lia.
  - specialize (IH ltac:(set_solver) Hy HQ HP). destruct (decide (P z)), (decide (Q z)); simpl; try lia.
    exfalso. apply n. apply HPQ; [set_solver|done].
Qed.

(** ** The invariant *)

Section Invariant.

Context {Key : Type} (compare_ : Key -> Key -> Z) (okk : Key -> Prop) `{!TotalCmp compare_ okk}.
Implicit Types sl : SkipList Key.

Abbreviation after := (KeyIsAfterNode compare_).

(** The key of node [x] is below [k]; below the key of node [y]. *)
Definition klt sl (k : Key) (x : nat) : bool := after sl k (Some x).
Definition idlt sl (x y : nat) : bool :=
  match key_of sl y with Some k => klt sl k x | None => false end.

Record skip_inv sl (L : nat -> list nat) : Prop := {
  inv_path l : (l < kMaxHeight)%nat -> path sl l head_ (L l);
  inv_sub l : (S l < kMaxHeight)%nat -> L (S l) ⊆ L l;
  inv_sorted l : (l < kMaxHeight)%nat -> StronglySorted (fun x y => idlt sl x y = true) (L l);
  inv_top l : (max_height_ sl <= l)%nat -> L l = [];
  inv_max : (1 <= max_height_ sl <= kMaxHeight)%nat;
  inv_node l x : (l < kMaxHeight)%nat -> x ∈ head_ :: L l ->
    ∃ nd, nodes sl !! x = Some nd ∧ (l < length (next_ nd))%nat;
  inv_key x : x ∈ L 0%nat -> ∃ k, key_of sl x = Some k ∧ okk k;
  inv_head l : (l < kMaxHeight)%nat -> head_ ∉ L l;
}.

(** The keys of the list, in order. *)
Definition keys sl (L : nat -> list nat) : list Key := omap (key_of sl) (L 0%nat).

Lemma inv_sub0 sl L l x : skip_inv sl L -> (l < kMaxHeight)%nat -> x ∈ L l -> x ∈ L 0%nat.
Proof.
  intros Hi. induction l as [|l IH]; intros Hl Hx; [done|].
  apply IH; [lia|]. by apply (inv_sub _ _ Hi l).
Qed.

Lemma klt_trans sl L x y k :
  skip_inv sl L -> x ∈ L 0%nat -> y ∈ L 0%nat -> okk k -> idlt sl x y = true -> klt sl k y = true -> klt sl k x = true.
Proof.
  intros Hi Hx Hy Hk. destruct (inv_key _ _ Hi x Hx) as (kx & Ex & Hkx), (inv_key _ _ Hi y Hy) as (ky & Ey & Hky).
  unfold idlt, klt, KeyIsAfterNode. rewrite Ey, Ex. rewrite !Z.ltb_lt. by apply (cmp_lt_trans compare_ okk).
Qed.

Lemma idlt_irrefl sl L x : skip_inv sl L -> x ∈ L 0%nat -> idlt sl x x = false.
Proof.
  intros Hi Hx. destruct (inv_key _ _ Hi x Hx) as (kx & Ex & Hkx).
  unfold idlt, klt, KeyIsAfterNode. rewrite Ex, (cmp_refl compare_ okk) by done. done.
Qed.

Lemma inv_nodup sl L l : skip_inv sl L -> (l < kMaxHeight)%nat -> NoDup (head_ :: L l).
Proof.
  intros Hi Hl. apply NoDup_cons. split; [by apply (inv_head _ _ Hi)|].
  pose proof (inv_sorted _ _ Hi l Hl) as Hs. assert (∀ x, x ∈ L l -> x ∈ L 0%nat) as Hsub by (by intros; eapply inv_sub0).
  induction Hs as [|x A Hs IH Hf]; [constructor|]. apply NoDup_cons. split.
  - intros Hx. rewrite Forall_forall in Hf. specialize (Hf x Hx).
    rewrite (idlt_irrefl sl L) in Hf; [done|done|]. apply Hsub. set_solver.
  - apply IH. set_solver.
Qed.

(** ** Searching *)

(** [L l] cut at the key [k]: nodes below, nodes not below. *)
Definition cut sl (k : Key) (A B : list nat) : Prop :=
  Forall (fun x => klt sl k x = true) A ∧ Forall (fun x => klt sl k x = false) B.

(** Nodes ahead of [x] that are still below [k]. *)
Definition ahead sl (L : nat -> list nat) (k : Key) (x : nat) : list nat :=
  filter (fun y => (x = head_ ∨ idlt sl x y = true) ∧ klt sl k y = true) (L 0%nat).

Lemma ahead_shorter sl L k x y l :
  skip_inv sl L -> (l < kMaxHeight)%nat -> y ∈ L l -> (x = head_ ∨ x ∈ L l ∧ idlt sl x y = true) ->
  klt sl k y = true -> (length (ahead sl L k y) < length (ahead sl L k x))%nat.
Proof.
  intros Hi Hl Hy Hx Hk. pose proof (inv_sub0 _ _ _ _ Hi Hl Hy) as Hy0.
  apply (filter_shorter _ _ _ y).
  - intros z Hz [[->|Hyz] Hkz]; [by destruct (inv_head _ _ Hi 0 ltac:(unfold kMaxHeight; lia))|]. split; [|done].
    destruct Hx as [->|[Hxl Hxy]]; [by left|right].
    assert (x ∈ L 0%nat) as Hx0 by by eapply inv_sub0.
    destruct (inv_key _ _ Hi z Hz) as (kz & Ez & Hkz'). unfold idlt in *. rewrite Ez in *.
    by eapply (klt_trans sl L x y kz).
  - done.
  - split; [|done]. destruct Hx as [->|[_ Hxy]]; auto.
  - intros [[->|Hyy] _]; [by destruct (inv_head _ _ Hi 0 ltac:(unfold kMaxHeight; lia))|]. by rewrite (idlt_irrefl sl L) in Hyy.
Qed.

(** The surroundings of a node in its level. *)
Lemma around sl L l x :
  skip_inv sl L -> (l < kMaxHeight)%nat -> x ∈ head_ :: L l ->
  ∃ A B, L l = A ++ B ∧ List.last A head_ = x ∧ Next sl x l = hd_error B ∧
    (A = [] ∨ ∃ A', A = A' ++ [x]).
Proof.
  intros Hi Hl Hx. pose proof (inv_path _ _ Hi l Hl) as Hp. apply elem_of_cons in Hx as [->|Hx].
  - exists [], (L l). split_and!; [done|done|by apply path_next|by left].
  - apply list_elem_of_split in Hx as (A & B & E). exists (A ++ [x]), B. rewrite E, <- app_assoc.
    rewrite last_app. split_and!; [done|done| |by right; exists A].
    rewrite E in Hp. replace (A ++ x :: B) with ((A ++ [x]) ++ B) in Hp by by rewrite <- app_assoc.
    apply path_app in Hp as [_ Hp]. rewrite last_app in Hp. by apply path_next in Hp.
Qed.

Lemma sorted_app_lt sl A x y B :
  StronglySorted (fun x y => idlt sl x y = true) (A ++ x :: y :: B) -> idlt sl x y = true.
Proof.
  induction A as [|a A IH]; simpl; intros Hs; apply StronglySorted_inv in Hs as [Hs Hf]; [|auto].
  by apply Forall_cons_1 in Hf as [? _].
Qed.

(** When the search leaves a level, the list is cut at the current node. *)
Lemma cut_here sl L l k x A B :
  skip_inv sl L -> (l < kMaxHeight)%nat -> okk k -> L l = A ++ B ->
  (A = [] ∨ ∃ A', A = A' ++ [x] ∧ klt sl k x = true) ->
  after sl k (hd_error B) = false -> cut sl k A B.
Proof.
  intros Hi Hl Hk E HA HB. pose proof (inv_sorted _ _ Hi l Hl) as Hs.
  assert (∀ x, x ∈ L l -> x ∈ L 0%nat) as Hsub by (by intros; eapply inv_sub0).
  rewrite E in Hs, Hsub. split.
  - destruct HA as [->|(A' & -> & Hx)]; [constructor|]. apply Forall_app. split; [|by repeat constructor].
    rewrite <- app_assoc in Hs. apply Forall_forall. intros y Hy.
    assert (idlt sl y x = true) as Hyx by (apply (StronglySorted_app_1_elem_of _ _ _ y x Hs); [done|set_solver]).
    by eapply (klt_trans sl L y x k); [done|apply Hsub; set_solver|apply Hsub; set_solver|done|done|].
  - destruct B as [|b B]; [constructor|]. constructor; [done|].
    apply StronglySorted_app_1_r, StronglySorted_inv in Hs as [_ Hf]. rewrite Forall_forall in *.
    intros y Hy. specialize (Hf y Hy). destruct (klt sl k y) eqn:Ey; [|done].
    change (klt sl k b = false) in HB. enough (klt sl k b = true) by congruence.
    eapply (klt_trans sl L b y k); [done|apply Hsub; set_solver|apply Hsub; set_solver|done|done|done].
Qed.

Lemma find_ge_loop_spec sl L k n l x prev :
  skip_inv sl L -> okk k -> (l < kMaxHeight)%nat -> (x = head_ ∨ x ∈ L l ∧ klt sl k x = true) ->
  (length (ahead sl L k x) + l < n)%nat -> length prev = kMaxHeight ->
  ∃ next prev', find_ge_loop compare_ n sl k x l prev = Some (next, prev') ∧
    length prev' = kMaxHeight ∧ (∀ j, (l < j)%nat -> prev' !! j = prev !! j) ∧
    ∀ j, (j <= l)%nat -> ∃ A B, L j = A ++ B ∧ cut sl k A B ∧ prev' !! j = Some (List.last A head_) ∧
      (j = 0%nat -> next = hd_error B).
Proof.
  intros Hi Hk. revert l x prev; induction n as [|n IH]; intros l x prev Hl Hx Hn Hp; [lia|].
  cbn [find_ge_loop].
  destruct (around sl L l x Hi Hl) as (A & B & E & Hlast & Hnext & HA); [set_solver|].
  rewrite Hnext. destruct (after sl k (hd_error B)) eqn:Hb.
  - destruct B as [|y B]; [done|]. cbn [hd_error] in *.
    apply IH; [done| | |done].
    + right. split; [|done]. rewrite E. set_solver.
    + pose proof (ahead_shorter sl L k x y l Hi Hl) as Hlt.
      enough (length (ahead sl L k y) < length (ahead sl L k x))%nat by lia.
      apply Hlt; [rewrite E; set_solver| |done].
      destruct Hx as [->|[Hx _]]; [by left|right]. split; [done|].
      destruct HA as [->|(A' & ->)].
      { simpl in Hlast. subst x. by destruct (inv_head _ _ Hi l Hl). }
      pose proof (inv_sorted _ _ Hi l Hl) as Hs. rewrite E, <- app_assoc in Hs. by apply sorted_app_lt in Hs.
  - assert (cut sl k A B) as Hcut.
    { eapply cut_here; [done..| |done]. destruct HA as [->|(A' & ->)]; [by left|right].
      exists A'. split; [done|]. destruct Hx as [->|[_ ?]]; [|done].
      exfalso. apply (inv_head _ _ Hi l Hl). rewrite E. set_solver. }
    assert ((<[l := x]> prev) !! l = Some x) as Hset by (apply list_lookup_insert_eq; lia).
    destruct l as [|l].
    + exists (hd_error B), (<[0%nat := x]> prev). split_and!; [done|by rewrite length_insert| |].
      * intros j Hj. apply list_lookup_insert_ne. lia.
      * intros j Hj. assert (j = 0%nat) as -> by lia. exists A, B. rewrite Hlast. done.
    + destruct (IH l x (<[S l := x]> prev)) as (next & prev' & -> & Hlen & Hhi & Hlo).
      * lia.
      * destruct Hx as [->|[Hx ?]]; [by left|right]. split; [|done]. by apply (inv_sub _ _ Hi l).
      * lia.
      * by rewrite length_insert.
      * exists next, prev'. split_and!; [done|done| |].
        -- intros j Hj. rewrite Hhi by lia. apply list_lookup_insert_ne. lia.
        -- intros j Hj. destruct (decide (j = S l)) as [->|]; [|apply Hlo; lia].
           exists A, B. rewrite Hhi, Hset, Hlast by lia. done.
Qed.

Lemma inv_length sl L : skip_inv sl L -> (length (L 0%nat) < length (nodes sl))%nat.
Proof.
  intros Hi. assert (head_ :: L 0%nat ⊆ seq 0 (length (nodes sl))) as Hsub.
  { intros y Hy. apply elem_of_seq. split; [lia|].
    destruct (inv_node _ _ Hi 0%nat y) as (nd & Hnd & _); [unfold kMaxHeight; lia|done|].
    by apply lookup_lt_Some in Hnd. }
  apply NoDup_submseteq in Hsub; [|by apply (inv_nodup sl L); [|unfold kMaxHeight; lia]].
  apply submseteq_length in Hsub. rewrite length_seq in Hsub. simpl in Hsub. lia.
Qed.

Lemma ahead_length sl L k x : skip_inv sl L -> (length (ahead sl L k x) < length (nodes sl))%nat.
Proof. intros Hi. eapply Nat.le_lt_trans; [apply length_filter|]. by apply inv_length. Qed.

Lemma FindGreaterOrEqual_spec sl L k prev :
  skip_inv sl L -> okk k -> length prev = kMaxHeight ->
  ∃ next prev', FindGreaterOrEqual compare_ sl k prev = Some (next, prev') ∧ length prev' = kMaxHeight ∧
    (∀ j, (j < max_height_ sl)%nat -> ∃ A B, L j = A ++ B ∧ cut sl k A B ∧
      prev' !! j = Some (List.last A head_) ∧ (j = 0%nat -> next = hd_error B)).
Proof.
  intros Hi Hk Hp. pose proof (inv_max _ _ Hi) as Hm. unfold FindGreaterOrEqual, GetMaxHeight, search_fuel.
  destruct (find_ge_loop_spec sl L k (length (nodes sl) + kMaxHeight) (max_height_ sl - 1) head_ prev)
    as (next & prev' & Hf & Hlen & _ & Hj); [done|done|lia|by left| |done|].
  { pose proof (ahead_length sl L k head_ Hi). lia. }
  exists next, prev'. split_and!; [done|done|]. intros j Hlt. apply Hj. lia.
Qed.

End Invariant.

(** * leveldb: insertion into the skip list, and its iterators

    Insertion links the new node level by level from the bottom; every single
    store keeps [skip_inv].  At the end the public operations are stated on
    the sorted list of keys. *)

Section Insert.

Context {Key : Type} (compare_ : Key -> Key -> Z) (okk : Key -> Prop) `{!TotalCmp compare_ okk}.
Implicit Types sl : SkipList Key.

Local Abbreviation inv := (skip_inv compare_ okk).

(** ** What the invariant depends on *)

Lemma idlt_ext sl sl' x y :
  key_of sl' x = key_of sl x -> key_of sl' y = key_of sl y -> idlt compare_ sl' x y = idlt compare_ sl x y.
Proof. intros Hx Hy. unfold idlt, klt, KeyIsAfterNode. by rewrite Hy, Hx. Qed.

Lemma sorted_ext sl sl' A :
  (∀ x, x ∈ A -> key_of sl' x = key_of sl x) ->
  StronglySorted (fun x y => idlt compare_ sl x y = true) A ->
  StronglySorted (fun x y => idlt compare_ sl' x y = true) A.
Proof.
  intros He. induction 1 as [|x A Hs IH Hf]; constructor; [apply IH; set_solver|].
  rewrite Forall_forall in *. intros y Hy. rewrite (idlt_ext sl sl'); [by apply Hf|apply He; set_solver..].
Qed.

(** A new node that nobody points to, and a new maximum height. *)
Lemma inv_NewNode sl L key height rnd :
  inv sl L -> (height <= kMaxHeight)%nat ->
  inv (MkSkipList (nodes sl ++ [MkNode key (replicate height None)])
         (Nat.max (max_height_ sl) height) rnd) L.
Proof.
  intros [Hp Hsub Hs Ht Hm Hn Hk Hh] Hle.
  set (sl' := MkSkipList _ _ _).
  assert (∀ l x, (l < kMaxHeight)%nat -> x ∈ head_ :: L l ->
    nodes sl' !! x = nodes sl !! x) as Hold.
  { intros l x Hl Hx. destruct (Hn l x Hl Hx) as (nd & Hnd & _). unfold sl'. cbn [nodes].
    rewrite Hnd. by apply lookup_app_l_Some. }
  assert (∀ x, x ∈ L 0%nat -> key_of sl' x = key_of sl x) as Hkey.
  { intros x Hx. unfold key_of. rewrite (Hold 0%nat); [done|unfold kMaxHeight; lia|set_solver]. }
  assert (∀ l, (l < kMaxHeight)%nat -> ∀ x, x ∈ L l -> x ∈ L 0%nat) as Hall.
  { intros l Hl. induction l as [|l IH]; [done|]. intros x Hx. apply IH; [lia|]. apply Hsub; [lia|done]. }
  split; cbn [max_height_].
  - intros l Hl. eapply path_ext; [| |by apply Hp].
    + eapply (inv_nodup compare_ okk sl L); [by split|done].
    + intros y Hy. unfold Next. by rewrite (Hold l y).
  - done.
  - intros l Hl. eapply sorted_ext; [|by apply Hs]. intros x Hx. apply Hkey. by eapply Hall.
  - intros l Hl. apply Ht. cbn [max_height_ sl'] in Hl. lia.
  - cbn [max_height_ sl']. lia.
  - intros l x Hl Hx. rewrite (Hold l x) by done. by apply Hn.
  - intros x Hx. rewrite Hkey by done. by apply Hk.
  - done.
Qed.

(** Raising the maximum height alone. *)
Lemma inv_raised sl L height rnd : inv sl L -> (height <= kMaxHeight)%nat -> inv (MkSkipList (nodes sl) (Nat.max (max_height_ sl) height) rnd) L.
Proof.
  intros Hinv Hle. pose proof Hinv as [Hp Hsub Hs Ht Hm Hn Hk Hh]. split; [|exact Hsub|exact Hs|intros l Hl; apply Ht; cbn in Hl; lia|cbn; lia|exact Hn|exact Hk|exact Hh].
  intros l Hl. eapply (path_ext sl); [by apply (inv_nodup compare_ okk sl L l)|done|by apply Hp].
Qed.

(** ** One link *)

(** A round of the loop: both stores. *)
Definition link (x : nat) (prev : list nat) sl (i : nat) : SkipList Key := run_stores (link_stores x prev i) sl.

(** The levels after the new node [n] is put between [A] and [B] at [i]. *)
Definition linked (L : nat -> list nat) (i n : nat) (A B : list nat) : nat -> list nat :=
  fun j => if decide (j = i) then A ++ n :: B else L j.

(** What is known of the new node while it is being linked. *)
Record new_node sl (L : nat -> list nat) (i n : nat) (key : Key) (height : nat) : Prop := {
  nn_node : ∃ nd, nodes sl !! n = Some nd ∧ node_key nd = key ∧ length (next_ nd) = height;
  nn_above : ∀ j, (i <= j < kMaxHeight)%nat -> n ∉ head_ :: L j;
  nn_below : i = 0%nat ∨ n ∈ L (i - 1)%nat;
  nn_height : (i < height <= max_height_ sl)%nat;
  nn_max : (max_height_ sl <= kMaxHeight)%nat;
}.

Lemma key_of_SetNext sl x l p y : key_of (SetNext sl x l p) y = key_of sl y.
Proof.
  unfold key_of, SetNext. cbn [nodes]. destruct (decide (y = x)) as [->|].
  - rewrite list_lookup_alter_eq. by destruct (nodes sl !! x).
  - by rewrite list_lookup_alter_ne.
Qed.

Lemma node_SetNext sl x l p y nd :
  nodes sl !! y = Some nd ->
  ∃ nd', nodes (SetNext sl x l p) !! y = Some nd' ∧ node_key nd' = node_key nd ∧
    length (next_ nd') = length (next_ nd).
Proof.
  intros Hy. unfold SetNext. cbn [nodes]. destruct (decide (y = x)) as [->|].
  - rewrite list_lookup_alter_eq, Hy. eexists. split; [done|]. simpl. by rewrite length_insert.
  - rewrite list_lookup_alter_ne by done. eauto.
Qed.

(** The store to the node that is not yet linked at the level. *)
Lemma own_store_inv sl L n i v : inv sl L -> (i < kMaxHeight)%nat -> n ∉ head_ :: L i -> inv (SetNext sl n i v) L.
Proof.
  intros Hinv Hi Hn. split; try apply Hinv.
  - intros l Hl. eapply path_ext; [by apply (inv_nodup compare_ okk sl L l)| |by apply (inv_path _ _ _ _ Hinv)].
    intros y Hy. unfold Next, SetNext. cbn [nodes]. destruct (decide (y = n)) as [->|]; [|by rewrite list_lookup_alter_ne].
    rewrite list_lookup_alter_eq. destruct (nodes sl !! n) as [nd|]; [|done]. cbn. rewrite list_lookup_insert_ne; [done|]. by intros ->.
  - intros l Hl. eapply sorted_ext; [|by apply (inv_sorted _ _ _ _ Hinv)]. intros; apply key_of_SetNext.
  - intros l x Hl Hx. destruct (inv_node _ _ _ _ Hinv l x Hl Hx) as (nd & Hnd & Hlt). destruct (node_SetNext sl n i v x nd Hnd) as (nd' & ? & _ & E). exists nd'. split; [done|lia].
  - intros x Hx. rewrite key_of_SetNext. by apply (inv_key _ _ _ _ Hinv).
Qed.

Section Link.

Context sl (L : nat -> list nat) (i n : nat) (key : Key) (height : nat) (prev : list nat) (A B : list nat).
Context (Hinv : inv sl L) (Hok : okk key) (Hnew : new_node sl L i n key height).
Context (HL : L i = A ++ B) (Hcut : cut compare_ sl key A B)
        (Hdist : ∀ x k, x ∈ L i -> key_of sl x = Some k -> compare_ k key ≠ 0)
        (Hprev : nth i prev head_ = List.last A head_).

Local Abbreviation sl' := (link n prev sl i).

Lemma link_i : (i < kMaxHeight)%nat.
Proof. destruct Hnew as [_ _ _ Hh Hm]. clear -Hh Hm. lia. Qed.

Lemma link_key x : key_of sl' x = key_of sl x.
Proof. unfold link. cbn [run_stores link_stores foldl]. by rewrite !key_of_SetNext. Qed.

Lemma link_node x nd :
  nodes sl !! x = Some nd ->
  ∃ nd', nodes sl' !! x = Some nd' ∧ node_key nd' = node_key nd ∧ length (next_ nd') = length (next_ nd).
Proof.
  intros Hx. unfold link. cbn [run_stores link_stores foldl]. destruct (node_SetNext sl n i (Next sl (nth i prev head_) i) x nd Hx) as (nd1 & H1 & K1 & L1).
  destruct (node_SetNext _ (nth i prev head_) i (Some n) x nd1 H1) as (nd2 & H2 & K2 & L2).
  exists nd2. split_and!; [done|congruence|congruence].
Qed.

Lemma last_in : List.last A head_ ∈ head_ :: L i.
Proof. pose proof (last_elem A head_). rewrite HL. set_solver. Qed.

Lemma link_Next y k :
  Next sl' y k = if decide (k = i)
    then if decide (y = List.last A head_) then Some n
         else if decide (y = n) then Next sl (List.last A head_) i else Next sl y i
    else Next sl y k.
Proof.
  unfold link. cbn [run_stores link_stores foldl]. rewrite Hprev. pose proof link_i as Hi.
  destruct Hnew as [(nd & Hnd & _ & Hlen) _ _ Hh _].
  destruct (inv_node _ _ _ _ Hinv i (List.last A head_) Hi last_in) as (pd & Hpd & Hpl).
  destruct (node_SetNext sl n i (Next sl (List.last A head_) i) _ _ Hpd) as (pd' & Hpd' & _ & Hpl').
  rewrite Next_SetNext by (exists pd'; split; [done|lia]).
  rewrite Next_SetNext by (exists nd; split; [done|lia]).
  destruct (decide (k = i)) as [->|]; repeat (destruct (decide _)); naive_solver.
Qed.

Lemma link_key_n : key_of sl n = Some key.
Proof. destruct Hnew as [(nd & Hnd & Hk & _) _ _ _ _]. unfold key_of. rewrite Hnd. simpl. by rewrite Hk. Qed.

Lemma link_sorted : StronglySorted (fun x y => idlt compare_ sl x y = true) (A ++ n :: B).
Proof.
  pose proof link_i as Hi. pose proof (inv_sorted _ _ _ _ Hinv i Hi) as Hs. rewrite HL in Hs.
  apply StronglySorted_app in Hs as (Hab & HA & HB). destruct Hcut as [Hlt Hge].
  rewrite Forall_forall in Hlt, Hge.
  assert (∀ x, x ∈ A -> idlt compare_ sl x n = true) as HAn.
  { intros x Hx. unfold idlt. rewrite link_key_n. by apply Hlt. }
  assert (∀ y, y ∈ B -> idlt compare_ sl n y = true) as HnB.
  { intros y Hy. assert (y ∈ L 0%nat) as Hy0 by (eapply (inv_sub0 compare_ okk sl L i); [done|done|rewrite HL; set_solver]).
    destruct (inv_key _ _ _ _ Hinv y Hy0) as (ky & Ey & Hky). specialize (Hge y Hy).
    unfold idlt, klt, KeyIsAfterNode in *. rewrite Ey in *. rewrite link_key_n. apply Z.ltb_ge in Hge.
    apply Z.ltb_lt. specialize (Hdist y ky ltac:(rewrite HL; set_solver) Ey). apply (cmp_flip compare_ okk key ky Hok Hky). lia. }
  apply StronglySorted_app_2.
  - intros x y Hx [->|Hy]%elem_of_cons; [by apply HAn|by apply Hab].
  - done.
  - constructor; [done|]. apply Forall_forall. intros y Hy. by apply HnB.
Qed.

(** The store that publishes the node keeps the invariant. *)
Lemma link_inv : inv sl' (linked L i n A B).
Proof.
  pose proof link_i as Hi. pose proof Hnew as [(nd & Hnd & _ & Hlen) Habove Hbelow Hh Hmax].
  pose proof (nn_above _ _ _ _ _ _ Hnew i ltac:(lia)) as Hni. rewrite HL in Hni.
  pose proof (inv_nodup compare_ okk sl L i Hinv Hi) as Hnd_i. rewrite HL in Hnd_i.
  unfold linked. split.
  - intros l Hl. destruct (decide (l = i)) as [->|Hne].
    + eapply path_link; [done|done| |rewrite <- HL; by apply (inv_path _ _ _ _ Hinv)].
      intros y. rewrite link_Next. by rewrite decide_True.
    + eapply path_ext; [by apply (inv_nodup compare_ okk sl L l)| |by apply (inv_path _ _ _ _ Hinv)].
      intros y Hy. by rewrite link_Next, decide_False.
  - intros l Hl. pose proof (inv_sub _ _ _ _ Hinv l Hl) as Hs.
    destruct (decide (S l = i)) as [E|], (decide (l = i)) as [E'|]; [lia| | |done].
    + destruct Hbelow as [?|Hb]; [lia|]. replace (i - 1)%nat with l in Hb by lia.
      rewrite E, HL in Hs. set_solver.
    + subst l. rewrite HL in Hs. set_solver.
  - intros l Hl. destruct (decide (l = i)) as [->|].
    + eapply sorted_ext; [|apply link_sorted]. intros; apply link_key.
    + eapply sorted_ext; [|by apply (inv_sorted _ _ _ _ Hinv)]. intros; apply link_key.
  - intros l Hl. change (max_height_ sl <= l)%nat in Hl.
    destruct (decide (l = i)) as [->|]; [lia|by apply (inv_top _ _ _ _ Hinv)].
  - apply (inv_max _ _ _ _ Hinv).
  - intros l x Hl Hx. assert (∃ nd, nodes sl !! x = Some nd ∧ (l < length (next_ nd))%nat) as (xd & Hxd & Hxl).
    { destruct (decide (l = i)) as [->|]; [|by apply (inv_node _ _ _ _ Hinv)].
      destruct (decide (x = n)) as [->|]; [exists nd; split; [done|lia]|].
      apply (inv_node _ _ _ _ Hinv i x Hi). rewrite HL. set_solver. }
    destruct (link_node x xd Hxd) as (xd' & Hxd' & _ & El). exists xd'. split; [done|lia].
  - intros x Hx. rewrite link_key. destruct (decide (x = n)) as [->|]; [exists key; by rewrite link_key_n|].
    apply (inv_key _ _ _ _ Hinv). destruct (decide (0%nat = i)) as [<-|]; [|done]. rewrite HL. set_solver.
  - intros l Hl. destruct (decide (l = i)) as [->|]; [|by apply (inv_head _ _ _ _ Hinv)].
    pose proof (inv_head _ _ _ _ Hinv i Hi) as Hhd. rewrite HL in Hhd.
    intros [Hx|[Hx|Hx]%elem_of_cons]%elem_of_app; [set_solver| |set_solver].
    apply Hni. rewrite <- Hx. set_solver.
Qed.

End Link.

(** ** All links *)

Definition below sl (key : Key) (A : list nat) : list nat := filter (fun x => klt compare_ sl key x = true) A.
Definition from_ sl (key : Key) (A : list nat) : list nat := filter (fun x => klt compare_ sl key x = false) A.

Lemma filter_all (P : nat -> Prop) `{!∀ x, Decision (P x)} (A : list nat) : Forall P A -> filter P A = A.
Proof. induction 1 as [|x A Hx _ IH]; [done|]. by rewrite filter_cons_True, IH. Qed.

Lemma filter_none (P : nat -> Prop) `{!∀ x, Decision (P x)} (A : list nat) : Forall (fun x => ¬ P x) A -> filter P A = [].
Proof. induction 1 as [|x A Hx _ IH]; [done|]. by rewrite filter_cons_False. Qed.

Lemma cut_filter sl key A B :
  cut compare_ sl key A B -> below sl key (A ++ B) = A ∧ from_ sl key (A ++ B) = B.
Proof.
  intros [HA HB]. unfold below, from_. rewrite !filter_app. split.
  - rewrite (filter_all _ A HA), (filter_none _ B), app_nil_r; [done|].
    eapply Forall_impl; [exact HB|]. simpl. congruence.
  - rewrite (filter_none _ A), (filter_all _ B HB); [done|].
    eapply Forall_impl; [exact HA|]. simpl. congruence.
Qed.

Lemma cut_ext sl sl' key A B :
  (∀ x, key_of sl' x = key_of sl x) -> cut compare_ sl key A B -> cut compare_ sl' key A B.
Proof.
  intros He [HA HB]. split; (eapply Forall_impl; [eassumption|]); intros x; unfold klt, KeyIsAfterNode; by rewrite He.
Qed.

Lemma links_inv sl L n key height prev (A B : nat -> list nat) m :
  inv sl L -> okk key -> new_node sl L 0 n key height ->
  (∀ j, (j < height)%nat -> L j = A j ++ B j ∧ cut compare_ sl key (A j) (B j) ∧
    nth j prev head_ = List.last (A j) head_) ->
  (∀ x k, x ∈ L 0%nat -> key_of sl x = Some k -> compare_ k key ≠ 0) -> (m <= height)%nat ->
  ∃ L', inv (foldl (link n prev) sl (seq 0 m)) L' ∧
    (∀ j, (j < m)%nat -> L' j = A j ++ n :: B j) ∧ (∀ j, (m <= j)%nat -> L' j = L j) ∧
    (∀ x, key_of (foldl (link n prev) sl (seq 0 m)) x = key_of sl x) ∧
    max_height_ (foldl (link n prev) sl (seq 0 m)) = max_height_ sl ∧
    ∃ nd, nodes (foldl (link n prev) sl (seq 0 m)) !! n = Some nd ∧ node_key nd = key ∧ length (next_ nd) = height.
Proof.
  intros Hinv Hok [Hnode Habove _ Hh Hmax] Hcuts Hdist.
  induction m as [|m IH]; intros Hm.
  { exists L. simpl. split_and!; [done|lia|done|done|done|done]. }
  destruct IH as (L' & Hi & Hlo & Hhi & Hkey & Hmx & nd & Hnd & Hk & Hlen); [lia|].
  rewrite seq_S, foldl_app. cbn [foldl Nat.add]. set (st := foldl _ sl (seq 0 m)) in *.
  destruct (Hcuts m ltac:(lia)) as (HLm & Hcut & Hpm).
  assert (new_node st L' m n key height) as Hnew.
  { split; [eauto| | |lia|lia].
    - intros j Hj. rewrite Hhi by lia. apply Habove. lia.
    - destruct m as [|m]; [by left|right]. replace (S m - 1)%nat with m by lia. rewrite Hlo by lia. set_solver. }
  exists (linked L' m n (A m) (B m)). split_and!.
  - eapply link_inv; [done|done|done|by rewrite Hhi by lia|by eapply cut_ext| |done].
    intros x k Hx Ek. rewrite Hhi in Hx by lia. rewrite Hkey in Ek. eapply Hdist; [|done].
    eapply (inv_sub0 compare_ okk sl L m); [done|lia|done].
  - intros j Hj. unfold linked. destruct (decide (j = m)) as [->|]; [done|]. apply Hlo. lia.
  - intros j Hj. unfold linked. rewrite decide_False by lia. apply Hhi. lia.
  - intros x. by rewrite link_key.
  - done.
  - destruct (link_node st m n prev n nd Hnd) as (nd' & ? & ? & ?). exists nd'. split_and!; [done|congruence|congruence].
Qed.

(** The stores of the first [m] rounds, and one more. *)
Lemma run_stores_app l1 l2 sl : run_stores (l1 ++ l2) sl = run_stores l2 (run_stores l1 sl).
Proof. apply foldl_app. Qed.

Lemma insert_stores_S n prev m : insert_stores n prev (S m) = insert_stores n prev m ++ @link_stores Key n prev m.
Proof. unfold insert_stores. rewrite seq_S, fmap_app, concat_app. cbn [fmap list_fmap concat Nat.add]. by rewrite app_nil_r. Qed.

Lemma run_insert_stores n prev m sl : run_stores (insert_stores n prev m) sl = foldl (link n prev) sl (seq 0 m).
Proof. induction m as [|m IH]; [done|]. by rewrite insert_stores_S, run_stores_app, IH, seq_S, foldl_app. Qed.

Lemma length_insert_stores n prev m : length (@insert_stores Key n prev m) = (2 * m)%nat.
Proof. induction m as [|m IH]; [done|]. rewrite insert_stores_S, length_app, IH. cbn. lia. Qed.

Lemma take_insert_stores n prev m height : (m <= height)%nat -> take (2 * m) (@insert_stores Key n prev height) = insert_stores n prev m.
Proof.
  induction 1 as [|h Hm IH]; [by rewrite take_ge by (by rewrite length_insert_stores)|].
  rewrite insert_stores_S, take_app_le; [done|]. rewrite length_insert_stores. lia.
Qed.

Lemma take_half_round n prev m height sl : (m < height)%nat ->
  run_stores (take (S (2 * m)) (insert_stores n prev height)) sl
  = let st := run_stores (insert_stores n prev m) sl in SetNext st n m (Next st (nth m prev head_) m).
Proof.
  intros Hm. assert (take (S (2 * m)) (@insert_stores Key n prev height) = insert_stores n prev m ++ take 1 (link_stores n prev m)) as ->.
  { replace (take (S (2 * m)) (insert_stores n prev height)) with (take (S (2 * m)) (take (2 * S m) (@insert_stores Key n prev height))) by (rewrite take_take; f_equal; lia).
    rewrite take_insert_stores, insert_stores_S by lia. rewrite take_app, length_insert_stores, take_ge by (rewrite length_insert_stores; lia). do 2 f_equal. lia. }
  by rewrite run_stores_app.
Qed.

(** ** [Insert] *)

Lemma random_height_range n h rnd :
  (h <= (random_height_loop n h rnd).1 <= h + n)%nat.
Proof.
  revert h rnd; induction n as [|n IH]; intros h rnd; cbn [random_height_loop]; [simpl; lia|].
  destruct (_ =? 0); [|simpl; lia]. specialize (IH (S h) (Random_Next rnd)). lia.
Qed.

Lemma fill_prev_nth from to prev j :
  (from <= to <= length prev)%nat ->
  nth j (fill_prev from to prev) head_ = if decide (from <= j < to)%nat then head_ else nth j prev head_.
Proof.
  unfold fill_prev. intros Ht.
  assert (∀ n a prev, (a + n <= length prev)%nat ->
    length (foldl (fun prev i => <[i := head_]> prev) prev (seq a n)) = length prev ∧
    nth j (foldl (fun prev i => <[i := head_]> prev) prev (seq a n)) head_
    = if decide (a <= j < a + n)%nat then head_ else nth j prev head_) as K.
  { clear. induction n as [|n IH]; intros a prev Hl; simpl.
    { split; [done|]. by rewrite decide_False by lia. }
    destruct (IH (S a) (<[a := head_]> prev)) as [E1 E2]; [rewrite length_insert; lia|].
    rewrite length_insert in E1. split; [done|]. rewrite E2. rewrite !nth_lookup.
    destruct (decide (S a <= j < S a + n)%nat), (decide (a <= j < a + S n)%nat); try lia.
    - assert (j = a) as -> by lia. rewrite list_lookup_insert_eq by lia. done.
    - by rewrite list_lookup_insert_ne by lia. }
  destruct (K (to - from)%nat from prev) as [_ ->]; [lia|].
  by replace (from + (to - from))%nat with to by lia.
Qed.

(** The list with room for the new node, and the predecessors at every level
    the node will have. *)
Definition grown sl (key : Key) (height : nat) (rnd : Z) : SkipList Key :=
  MkSkipList (nodes sl ++ [MkNode key (replicate height None)]) (Nat.max (max_height_ sl) height) rnd.

Lemma Insert_grown sl L key :
  inv sl L -> okk key ->
  ∃ height rnd prev, (1 <= height <= kMaxHeight)%nat ∧
    LdbSkipList.Insert compare_ sl key
    = Some (run_stores (insert_stores (length (nodes sl)) prev height) (grown sl key height rnd)) ∧
    ∀ j, (j < height)%nat ->
      L j = below sl key (L j) ++ from_ sl key (L j) ∧ cut compare_ sl key (below sl key (L j)) (from_ sl key (L j)) ∧
      nth j prev head_ = List.last (below sl key (L j)) head_.
Proof.
  intros Hi Hk. pose proof (inv_max _ _ _ _ Hi) as Hm.
  destruct (FindGreaterOrEqual_spec compare_ okk sl L key (replicate kMaxHeight head_))
    as (next & prev & Hf & Hlen & Hcuts); [done|done|by rewrite length_replicate|].
  unfold LdbSkipList.Insert. rewrite Hf. unfold RandomHeight.
  pose proof (random_height_range (kMaxHeight - 1) 1 (rnd_ sl)) as Hr.
  destruct (random_height_loop _ _ _) as [height rnd]. cbn [fst] in Hr.
  assert (1 <= height <= kMaxHeight)%nat as Hh by lia.
  assert (∀ j, (j < max_height_ sl)%nat ->
      L j = below sl key (L j) ++ from_ sl key (L j) ∧ cut compare_ sl key (below sl key (L j)) (from_ sl key (L j)) ∧
      nth j prev head_ = List.last (below sl key (L j)) head_) as Hlow.
  { intros j Hj. destruct (Hcuts j Hj) as (A & B & -> & Hcut & Hp & _).
    destruct (cut_filter _ _ _ _ Hcut) as [-> ->]. split_and!; [done|done|]. by rewrite nth_lookup, Hp. }
  cbn [GetMaxHeight max_height_ nodes rnd_]. unfold GetMaxHeight. cbn [max_height_].
  destruct (Nat.ltb_spec (max_height_ sl) height) as [Hlt|Hge]; cbn [NewNode nodes max_height_ rnd_].
  - exists height, rnd, (fill_prev (max_height_ sl) height prev). split_and!; [lia|lia| |].
    + unfold grown. by replace (Nat.max (max_height_ sl) height) with height by lia.
    + intros j Hj. rewrite fill_prev_nth by lia. destruct (decide _) as [Hd|]; [|apply Hlow; lia].
      rewrite (inv_top _ _ _ _ Hi j) by lia. done.
  - exists height, rnd, prev. split_and!; [lia|lia| |].
    + unfold grown. by replace (Nat.max (max_height_ sl) height) with (max_height_ sl) by lia.
    + intros j Hj. apply Hlow. lia.
Qed.

Lemma grown_key sl L key height rnd x :
  inv sl L -> x ∈ L 0%nat -> key_of (grown sl key height rnd) x = key_of sl x.
Proof.
  intros Hi Hx. destruct (inv_node _ _ _ _ Hi 0%nat x) as (nd & Hnd & _); [unfold kMaxHeight; lia|set_solver|].
  unfold key_of, grown. cbn [nodes]. rewrite Hnd. by erewrite lookup_app_l_Some.
Qed.

Lemma grown_new sl L key height rnd :
  inv sl L -> (1 <= height <= kMaxHeight)%nat ->
  new_node (grown sl key height rnd) L 0 (length (nodes sl)) key height.
Proof.
  intros Hi Hh. pose proof (inv_max _ _ _ _ Hi) as Hm. split; [| |by left|simpl; lia|simpl; lia].
  - exists (MkNode key (replicate height None)). unfold grown. cbn [nodes].
    rewrite list_lookup_middle by done. split_and!; [done|done|]. apply length_replicate.
  - intros j Hj Hin. destruct (inv_node _ _ _ _ Hi j _ (proj2 Hj) Hin) as (nd & Hnd & _).
    apply lookup_lt_Some in Hnd. lia.
Qed.

Lemma cut_grown sl L key height rnd j :
  inv sl L -> (j < kMaxHeight)%nat -> L j = below sl key (L j) ++ from_ sl key (L j) ->
  cut compare_ (grown sl key height rnd) key (below sl key (L j)) (from_ sl key (L j)).
Proof.
  intros Hi Hj E.
  assert (∀ x, x ∈ L j -> klt compare_ (grown sl key height rnd) key x = klt compare_ sl key x) as Hkl.
  { intros x Hx. unfold klt, KeyIsAfterNode. rewrite (grown_key sl L); [done|done|].
    by apply (inv_sub0 compare_ okk sl L j). }
  split; apply Forall_forall; intros x Hx; (rewrite Hkl; [|rewrite E; set_solver]);
    by apply list_elem_of_filter in Hx as [? _].
Qed.

(** The keys on either side of the new one. *)
Lemma keys_sides sl L key :
  inv sl L -> okk key -> (∀ k, k ∈ keys sl L -> compare_ k key ≠ 0) ->
  Forall (fun k => compare_ k key < 0) (omap (key_of sl) (below sl key (L 0%nat))) ∧
  Forall (fun k => compare_ key k < 0) (omap (key_of sl) (from_ sl key (L 0%nat))).
Proof.
  intros Hi Hk Hnew. split; apply Forall_forall; intros k (x & Hx & Ek)%list_elem_of_omap;
    apply list_elem_of_filter in Hx as [Hlt Hx]; unfold klt, KeyIsAfterNode in Hlt; rewrite Ek in Hlt; [lia|].
  destruct (inv_key _ _ _ _ Hi x Hx) as (k' & Ek' & Hk'). simplify_eq.
  apply Z.ltb_ge in Hlt. assert (compare_ k key ≠ 0) by (apply Hnew, list_elem_of_omap; eauto).
  apply (cmp_flip compare_ okk key k Hk Hk'). lia.
Qed.

(** Each store of the linking loop keeps a well-formed list; the second one
    adds the key, the others only make it faster to find. *)
Lemma Insert_steps sl L key :
  inv sl L -> okk key -> (∀ k, k ∈ keys sl L -> compare_ k key ≠ 0) ->
  ∃ height rnd prev A B, (1 <= height <= kMaxHeight)%nat ∧
    LdbSkipList.Insert compare_ sl key
    = Some (run_stores (insert_stores (length (nodes sl)) prev height) (grown sl key height rnd)) ∧
    keys sl L = A ++ B ∧ Forall (fun k => compare_ k key < 0) A ∧ Forall (fun k => compare_ key k < 0) B ∧
    inv (MkSkipList (nodes sl) (Nat.max (max_height_ sl) height) rnd) L ∧
    ∀ k, (k <= 2 * height)%nat -> let st := run_stores (take k (insert_stores (length (nodes sl)) prev height)) (grown sl key height rnd) in
      ∃ L', inv st L' ∧ keys st L' = if (k <? 2)%nat then A ++ B else A ++ key :: B.
Proof.
  intros Hi Hk Hnew. destruct (Insert_grown sl L key Hi Hk) as (height & rnd & prev & Hh & Hins & Hcuts).
  destruct (keys_sides sl L key Hi Hk Hnew) as [HsA HsB].
  pose proof (inv_NewNode sl L key height rnd Hi (proj2 Hh)) as Hg. fold (grown sl key height rnd) in Hg.
  pose proof (grown_new sl L key height rnd Hi Hh) as Hnn.
  set (n := length (nodes sl)) in *. set (g := grown sl key height rnd) in *.
  destruct (Hcuts 0%nat ltac:(lia)) as (H0 & _ & _).
  set (A0 := below sl key (L 0%nat)) in *. set (B0 := from_ sl key (L 0%nat)) in *.
  assert (∀ A, A ⊆ L 0%nat -> omap (key_of g) A = omap (key_of sl) A) as Homap.
  { intros A HA. apply list_omap_ext, Forall_Forall2_diag, Forall_forall. intros x Hx.
    eapply grown_key; [done|by apply HA]. }
  exists height, rnd, prev, (omap (key_of sl) A0), (omap (key_of sl) B0).
  split_and!; [lia|lia|done|unfold keys; rewrite H0; apply omap_app|done|done|apply inv_raised; [done|lia]|].
  assert (∀ m, (m <= height)%nat -> ∃ L', inv (foldl (link n prev) g (seq 0 m)) L' ∧ (∀ j, (m <= j)%nat -> L' j = L j) ∧
    keys (foldl (link n prev) g (seq 0 m)) L' = match m with O => omap (key_of sl) A0 ++ omap (key_of sl) B0 | S _ => omap (key_of sl) A0 ++ key :: omap (key_of sl) B0 end) as Hrounds.
  2: { intros k Hk2 st. destruct (Nat.Even_or_Odd k) as [[m ->]|[m ->]].
    - destruct (Hrounds m ltac:(lia)) as (L' & H1 & _ & H2). exists L'. unfold st. rewrite take_insert_stores, run_insert_stores by lia. split; [exact H1|]. etransitivity; [exact H2|].
      destruct m as [|m]; [done|]. by rewrite (proj2 (Nat.ltb_ge (2 * S m) 2)) by lia.
    - destruct (Hrounds m ltac:(lia)) as (L' & H1 & Hhi & H2). exists L'. unfold st. replace (2 * m + 1)%nat with (S (2 * m)) by lia. rewrite take_half_round, run_insert_stores by lia. cbv zeta.
      set (s1 := foldl (link n prev) g (seq 0 m)) in *. split.
      + apply own_store_inv; [done|lia|]. rewrite Hhi by lia. apply (nn_above _ _ _ _ _ _ Hnn). lia.
      + transitivity (keys s1 L'); [apply list_omap_ext, Forall_Forall2_diag, Forall_forall; intros; apply key_of_SetNext|]. etransitivity; [exact H2|].
        destruct m as [|m]; [done|]. by rewrite (proj2 (Nat.ltb_ge (S (2 * S m)) 2)) by lia. }
  intros m Hm. destruct (links_inv g L n key height prev (fun j => below sl key (L j)) (fun j => from_ sl key (L j)) m)
    as (L' & Hi' & Hlo & Hhi & Hkey & _ & nd & Hnd & Hkn & _); [done|done|done| | |done|].
  - intros j Hj. destruct (Hcuts j Hj) as (E & _ & Hp). split_and!; [done| |done].
    apply cut_grown; [done|lia|done].
  - intros x k Hx Ek. apply Hnew, list_elem_of_omap. exists x. split; [done|].
    by erewrite <- grown_key.
  - exists L'. split; [done|]. split; [done|]. unfold keys. rewrite (list_omap_ext _ (key_of g) _ (L' 0%nat)).
    2: { apply Forall_Forall2_diag, Forall_forall. intros; apply Hkey. }
    destruct m as [|m].
    + rewrite Hhi by lia. rewrite Homap, H0 by done. apply omap_app.
    + rewrite Hlo by lia. fold A0 B0. rewrite omap_app. csimpl.
      assert (key_of g n = Some key) as ->.
      { rewrite <- Hkey. unfold key_of. rewrite Hnd. simpl. by rewrite Hkn. }
      rewrite !Homap; [done|rewrite H0; set_solver|rewrite H0; set_solver].
Qed.

End Insert.
