(* ===== verification/LdbSkipIter.v ===== *)
(** * leveldb: the public operations of the skip list

    A list that satisfies [skip_inv] is a sorted list of keys; the
    constructor, [Insert], [Contains] and the iterator are stated on it.  A
    position of an iterator is an index into that list. *)

From S2P Require Import Prelude.
From S2P Require Import LdbSlice.
From S2P Require Import LdbSkipList.
From S2P Require Import LdbSkipListThms.
From stdpp Require Import list sorting.

#[local] Open Scope Z_scope.

Section Iter.

Context {Key : Type} (compare_ : Key -> Key -> Z) (okk : Key -> Prop) `{!TotalCmp compare_ okk}.
Implicit Types sl : SkipList Key.

Local Abbreviation inv := (skip_inv compare_ okk).

Lemma zero_level : (0 < kMaxHeight)%nat.
Proof. unfold kMaxHeight. lia. Qed.

(** ** The sorted list *)

Lemma SkipList_new_inv k : inv (SkipList_new k) (fun _ => []).
Proof.
  split.
  - intros l Hl. split; [done|]. unfold Next, SkipList_new. cbn [nodes next_ List.last].
    change (next_ (MkNode k (replicate kMaxHeight None))) with (replicate kMaxHeight (@None nat)).
    cbn. do 12 (destruct l as [|l]; [done|]). unfold kMaxHeight in Hl. lia.
  - done.
  - constructor.
  - done.
  - unfold kMaxHeight. simpl. lia.
  - intros l x Hl Hx. apply list_elem_of_singleton in Hx as ->.
    eexists. split; [done|]. simpl. unfold kMaxHeight in Hl. lia.
  - intros x Hx. set_solver.
  - set_solver.
Qed.

Lemma keys_new (k : Key) : keys (SkipList_new k) (fun _ => []) = [].
Proof. done. Qed.

Lemma keys_lookup sl L i : inv sl L -> keys sl L !! i = L 0%nat !! i ≫= key_of sl.
Proof.
  intros Hi. assert (∀ x, x ∈ L 0%nat -> is_Some (key_of sl x)) as Hk.
  { intros x Hx. destruct (inv_key _ _ _ _ Hi x Hx) as (k & -> & _). eauto. }
  unfold keys. clear Hi. revert i; induction (L 0%nat) as [|x A IH]; intros i; [done|].
  destruct (Hk x) as [k Ek]; [set_solver|]. csimpl. rewrite Ek.
  destruct i as [|i]; csimpl; [done|]. apply IH. intros y Hy. apply Hk. set_solver.
Qed.

Lemma keys_length sl L : inv sl L -> length (keys sl L) = length (L 0%nat).
Proof.
  intros Hi. assert (∀ x, x ∈ L 0%nat -> is_Some (key_of sl x)) as Hk.
  { intros x Hx. destruct (inv_key _ _ _ _ Hi x Hx) as (k & -> & _). eauto. }
  unfold keys. clear Hi. induction (L 0%nat) as [|x A IH]; [done|].
  destruct (Hk x) as [k Ek]; [set_solver|]. csimpl. rewrite Ek. simpl. f_equal. apply IH. intros y Hy. apply Hk. set_solver.
Qed.

Lemma keys_ok sl L : inv sl L -> Forall okk (keys sl L).
Proof.
  intros Hi. apply Forall_forall. intros k (x & Hx & Ek)%list_elem_of_omap.
  destruct (inv_key _ _ _ _ Hi x Hx) as (k' & Ek' & Hk). by simplify_eq.
Qed.

Lemma keys_sorted sl L : inv sl L -> StronglySorted (fun a b => compare_ a b < 0) (keys sl L).
Proof.
  intros Hi. pose proof (inv_sorted _ _ _ _ Hi 0%nat zero_level) as Hs. unfold keys.
  induction Hs as [|x A Hs IH Hf]; [constructor|]. csimpl. destruct (key_of sl x) as [k|] eqn:Ek; [|done].
  constructor; [done|]. apply Forall_forall. intros k' (y & Hy & Ek')%list_elem_of_omap.
  rewrite Forall_forall in Hf. specialize (Hf y Hy). unfold idlt, klt, KeyIsAfterNode in Hf.
  rewrite Ek', Ek in Hf. lia.
Qed.

(** Cutting the sorted list at a key. *)
Lemma cut_keys sl L k A B :
  inv sl L -> okk k -> L 0%nat = A ++ B -> cut compare_ sl k A B ->
  Forall (fun k' => compare_ k' k < 0) (take (length A) (keys sl L)) ∧
  Forall (fun k' => compare_ k k' <= 0) (drop (length A) (keys sl L)).
Proof.
  intros Hi Hk E [HA HB].
  assert (∀ i k' x, keys sl L !! i = Some k' -> L 0%nat !! i = Some x -> klt compare_ sl k x = (compare_ k' k <? 0) ∧ okk k') as Hkl.
  { intros i k' x Hk' Hx. rewrite keys_lookup, Hx in Hk' by done. simpl in Hk'. unfold klt, KeyIsAfterNode. rewrite Hk'.
    split; [done|]. destruct (inv_key _ _ _ _ Hi x) as (k2 & Ek2 & ?); [by eapply list_elem_of_lookup_2|]. by simplify_eq. }
  assert (∀ i k', keys sl L !! i = Some k' -> is_Some (L 0%nat !! i)) as Hx.
  { intros i k' Hk'. rewrite keys_lookup in Hk' by done. by destruct (L 0%nat !! i). }
  rewrite Forall_lookup in HA, HB. split; apply Forall_lookup; intros i k' Hi'.
  - apply lookup_take_Some in Hi' as [Hi' Hlt]. destruct (Hx _ _ Hi') as [x Hxi].
    destruct (Hkl i k' x Hi' Hxi) as [Hc _]. rewrite E, lookup_app_l in Hxi by done.
    specialize (HA _ _ Hxi). simpl in HA. rewrite Hc in HA. lia.
  - rewrite lookup_drop in Hi'. destruct (Hx _ _ Hi') as [x Hxi].
    destruct (Hkl _ k' x Hi' Hxi) as [Hc Hok]. rewrite E, lookup_app_r in Hxi by lia.
    replace (length A + i - length A)%nat with i in Hxi by lia.
    specialize (HB _ _ Hxi). simpl in HB. rewrite Hc in HB. apply Z.ltb_ge in HB.
    by apply (cmp_flip_le compare_ okk).
Qed.

(** ** Seeking *)

Lemma Next_position sl L A B : inv sl L -> L 0%nat = A ++ B -> Next sl (List.last A head_) 0 = hd_error B.
Proof.
  intros Hi E. pose proof (inv_path _ _ _ _ Hi 0%nat zero_level) as Hp. rewrite E in Hp.
  apply path_app in Hp as [_ Hp]. by apply path_next in Hp.
Qed.

Lemma hd_error_lookup (A B : list nat) : hd_error B = (A ++ B) !! length A.
Proof. rewrite lookup_app_r, Nat.sub_diag by lia. by destruct B. Qed.

Lemma find_ge_0 sl L k :
  inv sl L -> okk k ->
  ∃ A B prev, L 0%nat = A ++ B ∧ cut compare_ sl k A B ∧
    FindGreaterOrEqual compare_ sl k (replicate kMaxHeight head_) = Some (hd_error B, prev) ∧
    prev !! 0%nat = Some (List.last A head_).
Proof.
  intros Hi Hk. pose proof (inv_max _ _ _ _ Hi) as Hm.
  destruct (FindGreaterOrEqual_spec compare_ okk sl L k (replicate kMaxHeight head_))
    as (next & prev & Hf & _ & Hcuts); [done|done|by rewrite length_replicate|].
  destruct (Hcuts 0%nat ltac:(lia)) as (A & B & E & Hc & Hp & Hn). rewrite (Hn eq_refl) in Hf. naive_solver.
Qed.

Lemma iter_Seek_spec sl L k :
  inv sl L -> okk k ->
  ∃ i, iter_Seek compare_ sl k = Some (L 0%nat !! i) ∧ (i <= length (keys sl L))%nat ∧
    Forall (fun k' => compare_ k' k < 0) (take i (keys sl L)) ∧
    Forall (fun k' => compare_ k k' <= 0) (drop i (keys sl L)).
Proof.
  intros Hi Hk. destruct (find_ge_0 sl L k Hi Hk) as (A & B & prev & E & Hc & Hf & _).
  exists (length A). split_and!.
  - unfold iter_Seek. rewrite Hf. simpl. by rewrite E, <- hd_error_lookup.
  - rewrite keys_length by done. rewrite E, length_app. lia.
  - by eapply cut_keys.
  - by eapply cut_keys.
Qed.

Lemma Contains_spec sl L k :
  inv sl L -> okk k ->
  ∃ b, Contains compare_ sl k = Some b ∧ (b = true <-> ∃ k', k' ∈ keys sl L ∧ compare_ k k' = 0).
Proof.
  intros Hi Hk. destruct (find_ge_0 sl L k Hi Hk) as (A & B & prev & E & Hc & Hf & _).
  destruct (cut_keys sl L k A B Hi Hk E Hc) as [HA HB]. unfold Contains. rewrite Hf.
  pose proof (keys_sorted sl L Hi) as Hs. pose proof (keys_ok sl L Hi) as Hok. rewrite Forall_forall in Hok.
  pose proof (keys_lookup sl L (length A) Hi) as Hkl. rewrite E in Hkl. rewrite <- hd_error_lookup in Hkl.
  rewrite <- (take_drop (length A) (keys sl L)) in Hs, Hok |- *.
  assert (∀ k', k' ∈ take (length A) (keys sl L) -> compare_ k k' ≠ 0) as HnA.
  { intros k' Hk' Hz. rewrite Forall_forall in HA. specialize (HA k' Hk').
    assert (okk k') as Hok' by (apply Hok; set_solver). pose proof (cmp_eq_sym compare_ okk k k' Hk Hok' Hz). lia. }
  rewrite <- (Nat.add_0_r (length A)), <- lookup_drop in Hkl.
  destruct (drop (length A) (keys sl L)) as [|k0 ks] eqn:Ed.
  - destruct B as [|b B].
    + exists false. split; [done|]. split; [done|]. intros (k' & Hk' & Hz). rewrite app_nil_r in Hk'. by destruct (HnA k').
    + simpl in Hkl |- *. rewrite <- Hkl. exists false. split; [done|]. split; [done|]. intros (k' & Hk' & Hz). rewrite app_nil_r in Hk'. by destruct (HnA k').
  - destruct B as [|b B]; simpl in Hkl; [done|]. simpl. rewrite <- Hkl. eexists. split; [done|].
    rewrite Z.eqb_eq. split; [intros Hz; exists k0; split; [set_solver|done]|].
    intros (k' & [Hk'|[->|Hk']%elem_of_cons]%elem_of_app & Hz); [by destruct (HnA k')|done|].
    apply StronglySorted_app in Hs as (_ & _ & Hs). apply StronglySorted_inv in Hs as [_ Hf'].
    rewrite Forall_forall in Hf'. specialize (Hf' k' Hk'). apply Forall_cons in HB as [HB _].
    assert (okk k0 ∧ okk k') as [Hk0 Hk1] by (split; apply Hok; set_solver).
    pose proof (cmp_le_lt compare_ okk k k0 k' Hk Hk0 Hk1 HB Hf'). lia.
Qed.

(** ** Moving *)

Lemma last_take (A : list nat) i x d : A !! i = Some x -> List.last (take (S i) A) d = x.
Proof. intros Hx. erewrite take_S_r by done. by rewrite LdbSkipListThms.last_app. Qed.

Lemma iter_Next_spec sl L i : inv sl L -> (i < length (L 0%nat))%nat -> iter_Next sl (L 0%nat !! i) = L 0%nat !! S i.
Proof.
  intros Hi Hlt. destruct (lookup_lt_is_Some_2 _ _ Hlt) as [x Hx]. unfold iter_Next. rewrite Hx. simpl.
  rewrite <- (last_take _ i x head_ Hx), (Next_position sl L (take (S i) (L 0%nat)) (drop (S i) (L 0%nat))).
  - rewrite (hd_error_lookup (take (S i) (L 0%nat))), take_drop, length_take. f_equal. lia.
  - done.
  - by rewrite take_drop.
Qed.

Lemma iter_SeekToFirst_spec sl L : inv sl L -> iter_SeekToFirst sl = L 0%nat !! 0%nat.
Proof.
  intros Hi. unfold iter_SeekToFirst. change head_ with (List.last [] head_).
  rewrite (Next_position sl L [] (L 0%nat)) by done. by destruct (L 0%nat).
Qed.

(** [FindLessThan] walks as [FindGreaterOrEqual] does. *)
Lemma find_lt_ge n sl k x l prev :
  (l < length prev)%nat ->
  find_lt_loop compare_ n sl k x l = find_ge_loop compare_ n sl k x l prev ≫= fun r => r.2 !! 0%nat.
Proof.
  revert x l prev; induction n as [|n IH]; intros x l prev Hl; [done|]. cbn [find_lt_loop find_ge_loop].
  destruct (KeyIsAfterNode _ _ _ _); [destruct (Next sl x l); [by apply IH|done]|].
  destruct l as [|l]; [simpl; by rewrite list_lookup_insert_eq|]. apply IH. rewrite length_insert. lia.
Qed.

Lemma FindLessThan_spec sl L k :
  inv sl L -> okk k -> ∃ A B, L 0%nat = A ++ B ∧ cut compare_ sl k A B ∧
    FindLessThan compare_ sl k = Some (List.last A head_).
Proof.
  intros Hi Hk. destruct (find_ge_0 sl L k Hi Hk) as (A & B & prev & E & Hc & Hf & Hp).
  exists A, B. split_and!; [done|done|]. unfold FindLessThan.
  rewrite (find_lt_ge _ _ _ _ _ (replicate kMaxHeight head_)).
  - unfold FindGreaterOrEqual in Hf. by rewrite Hf.
  - rewrite length_replicate. pose proof (inv_max _ _ _ _ Hi). unfold GetMaxHeight. lia.
Qed.

Lemma sorted_lookup (ks : list Key) i j a b :
  StronglySorted (fun a b => compare_ a b < 0) ks -> (i < j)%nat -> ks !! i = Some a -> ks !! j = Some b -> compare_ a b < 0.
Proof.
  intros Hs. revert i j; induction Hs as [|k ks Hs IH Hf]; intros i j Hij Ha Hb; [done|].
  destruct i as [|i], j as [|j]; simpl in *; [lia| |lia|].
  - simplify_eq. by eapply (Forall_lookup_1 _ _ _ _ Hf).
  - eapply IH; [|done|done]. lia.
Qed.

(** The position of a key of the list is where the list is cut at it. *)
Lemma cut_position sl L i k A B :
  inv sl L -> L 0%nat = A ++ B -> keys sl L !! i = Some k -> okk k -> cut compare_ sl k A B -> i = length A.
Proof.
  intros Hi E Hk Hok Hc. destruct (cut_keys sl L k A B Hi Hok E Hc) as [HA HB].
  pose proof (keys_sorted sl L Hi) as Hs. pose proof (keys_ok sl L Hi) as Hoks.
  rewrite Forall_lookup in HA, HB. destruct (Nat.lt_trichotomy i (length A)) as [Hlt|[?|Hgt]]; [|done|].
  - specialize (HA i k). rewrite (cmp_refl compare_ okk k Hok) in HA.
    assert (0 < 0) by (apply HA, lookup_take_Some; split; [done|lia]). lia.
  - destruct (lookup_lt_is_Some_2 (keys sl L) (length A)) as [k0 Hk0].
    { apply lookup_lt_Some in Hk. lia. }
    assert (okk k0) by (by eapply (Forall_lookup_1 okk)).
    assert (compare_ k k0 <= 0) by (apply (HB 0%nat); by rewrite lookup_drop, Nat.add_0_r).
    assert (compare_ k0 k < 0) as Hlt.
    { by eapply (sorted_lookup (keys sl L) (length A) i). }
    apply (cmp_flip compare_ okk) in Hlt; [|done..]. lia.
Qed.

Lemma in_list_not_head sl L i x : inv sl L -> L 0%nat !! i = Some x -> hide_head x = Some x.
Proof.
  intros Hi Hx. unfold hide_head. destruct (Nat.eqb_spec x head_) as [->|]; [|done].
  exfalso. apply (inv_head _ _ _ _ Hi 0%nat zero_level). by eapply list_elem_of_lookup_2.
Qed.

Lemma iter_Prev_spec sl L i :
  inv sl L -> (i < length (L 0%nat))%nat ->
  iter_Prev compare_ sl (L 0%nat !! i) = Some (match i with O => None | S j => L 0%nat !! j end).
Proof.
  intros Hi Hlt. pose proof (keys_lookup sl L i Hi) as Hkl.
  destruct (lookup_lt_is_Some_2 (keys sl L) i) as [k Hk]; [by rewrite keys_length|].
  unfold iter_Prev, iter_key. rewrite <- Hkl, Hk.
  assert (okk k) as Hok by (eapply (Forall_lookup_1 okk); [by apply keys_ok|done]).
  destruct (FindLessThan_spec sl L k Hi Hok) as (A & B & E & Hc & ->).
  pose proof (cut_position sl L i k A B Hi E Hk Hok Hc) as ->. simpl.
  destruct A as [|a A] using rev_ind; [done|]. rewrite LdbSkipListThms.last_app, length_app, Nat.add_comm. cbn [length Nat.add List.last].
  assert (L 0%nat !! length A = Some a) as Ha by (rewrite E, <- app_assoc; by apply list_lookup_middle).
  by rewrite (in_list_not_head sl L (length A)), Ha.
Qed.

(** ** The last node *)

Definition rest sl (L : nat -> list nat) (x : nat) : list nat :=
  filter (fun y => x = head_ ∨ idlt compare_ sl x y = true) (L 0%nat).

Lemma rest_shorter sl L l A x y B :
  inv sl L -> (l < kMaxHeight)%nat -> L l = A ++ y :: B -> List.last A head_ = x -> (A = [] ∨ ∃ A', A = A' ++ [x]) ->
  (length (rest sl L y) < length (rest sl L x))%nat.
Proof.
  intros Hi Hl E Hx HA. assert (y ∈ L 0%nat) as Hy by (eapply (inv_sub0 compare_ okk sl L l); [done|done|rewrite E; set_solver]).
  assert (y ≠ head_) as Hyh by (intros ->; by apply (inv_head _ _ _ _ Hi 0%nat zero_level)).
  assert (x = head_ ∨ x ∈ L 0%nat ∧ idlt compare_ sl x y = true) as Hxy.
  { destruct HA as [->|(A' & ->)]; [by left|right]. split.
    - eapply (inv_sub0 compare_ okk sl L l); [done|done|rewrite E; set_solver].
    - pose proof (inv_sorted _ _ _ _ Hi l Hl) as Hs. rewrite E, <- app_assoc in Hs. by apply (sorted_app_lt compare_) in Hs. }
  apply (filter_shorter _ _ _ y); [|done|naive_solver|].
  - intros z Hz [?|Hyz]; [done|]. destruct Hxy as [?|[Hx0 Hxy]]; [by left|right].
    destruct (inv_key _ _ _ _ Hi z Hz) as (kz & Ez & Hkz). unfold idlt in *. rewrite Ez in *.
    by eapply (klt_trans compare_ okk sl L x y kz).
  - intros [?|Hyy]; [done|]. by rewrite (idlt_irrefl compare_ okk sl L) in Hyy.
Qed.

Lemma find_last_loop_spec sl L n l x :
  inv sl L -> (l < kMaxHeight)%nat -> x ∈ head_ :: L l -> (length (rest sl L x) + l < n)%nat ->
  find_last_loop n sl x l = Some (List.last (L 0%nat) head_).
Proof.
  intros Hi. revert l x; induction n as [|n IH]; intros l x Hl Hx Hn; [lia|]. cbn [find_last_loop].
  destruct (around compare_ okk sl L l x Hi Hl Hx) as (A & B & E & Hlast & -> & HA). destruct B as [|y B]; simpl.
  - rewrite app_nil_r in E. destruct l as [|l]; [by rewrite E, Hlast|]. apply IH; [lia| |lia].
    pose proof (inv_sub _ _ _ _ Hi l Hl). set_solver.
  - apply IH; [done|rewrite E; set_solver|].
    pose proof (rest_shorter sl L l A x y B Hi Hl E Hlast HA). lia.
Qed.

Lemma iter_SeekToLast_spec sl L : inv sl L -> iter_SeekToLast sl = Some (last (L 0%nat)).
Proof.
  intros Hi. unfold iter_SeekToLast, FindLast, search_fuel, GetMaxHeight. pose proof (inv_max _ _ _ _ Hi) as Hm.
  rewrite (find_last_loop_spec sl L); [|done|lia|set_solver|].
  - simpl. f_equal. destruct (L 0%nat) as [|a A] eqn:E using rev_ind; [done|].
    rewrite LdbSkipListThms.last_app, last_snoc. simpl.
    rewrite (in_list_not_head sl L (length A)); [done|done|]. rewrite E. by apply list_lookup_middle.
  - pose proof (length_filter (fun y => head_ = head_ ∨ idlt compare_ sl head_ y = true) (L 0%nat)) as Hf.
    fold (rest sl L head_) in Hf.
    pose proof (inv_length compare_ okk sl L Hi). lia.
Qed.

End Iter.

(** ** The contract *)

(** C17. Inserting a key that is not in a well-formed skip list ends, and the
    list stays well formed after every single store: after the maximum height
    was raised, and after each store of the linking loop, also between the
    store to the new node and the one that publishes it at that level.  Before
    the first publishing store, the second one of the loop, a reader sees the
    old keys, from then on the old keys with the new one at its place in the
    order. *)
Theorem skiplist_insert {Key : Type} (compare_ : Key -> Key -> Z) (okk : Key -> Prop) `{!TotalCmp compare_ okk}
    (sl : SkipList Key) (L : nat -> list nat) (key : Key) :
  skip_inv compare_ okk sl L -> okk key -> (∀ k, k ∈ keys sl L -> compare_ k key ≠ 0) ->
  ∃ height rnd prev A B, (1 <= height <= kMaxHeight)%nat ∧
    LdbSkipList.Insert compare_ sl key
    = Some (run_stores (insert_stores (length (nodes sl)) prev height) (grown sl key height rnd)) ∧
    keys sl L = A ++ B ∧ Forall (fun k => compare_ k key < 0) A ∧ Forall (fun k => compare_ key k < 0) B ∧
    skip_inv compare_ okk (MkSkipList (nodes sl) (Nat.max (max_height_ sl) height) rnd) L ∧
    ∀ k, (k <= 2 * height)%nat -> let st := run_stores (take k (insert_stores (length (nodes sl)) prev height)) (grown sl key height rnd) in
      ∃ L', skip_inv compare_ okk st L' ∧ keys st L' = if (k <? 2)%nat then A ++ B else A ++ key :: B.
Proof. by apply Insert_steps. Qed.

(** The iterator of a well-formed skip list with keys [k_0 < k_1 < ...]:
    [SeekToFirst] and [SeekToLast] stand at the ends, [Seek] at the first key
    not below the target, [Next] and [Prev] move by one position, and every
    search ends. *)
Lemma skiplist_iterator {Key : Type} (compare_ : Key -> Key -> Z) (okk : Key -> Prop) `{!TotalCmp compare_ okk}
    (sl : SkipList Key) (L : nat -> list nat) (k : Key) (i : nat) :
  skip_inv compare_ okk sl L -> okk k -> (i < length (keys sl L))%nat ->
  iter_key sl (L 0%nat !! i) = keys sl L !! i ∧
  iter_Next sl (L 0%nat !! i) = L 0%nat !! S i ∧
  iter_Prev compare_ sl (L 0%nat !! i) = Some (match i with O => None | S j => L 0%nat !! j end) ∧
  iter_SeekToFirst sl = L 0%nat !! 0%nat ∧
  iter_SeekToLast sl = Some (last (L 0%nat)) ∧
  ∃ s, iter_Seek compare_ sl k = Some (L 0%nat !! s) ∧ (s <= length (keys sl L))%nat ∧
    Forall (fun k' => compare_ k' k < 0) (take s (keys sl L)) ∧
    Forall (fun k' => compare_ k k' <= 0) (drop s (keys sl L)).
Proof.
  intros Hi Hk Hlt. pose proof Hlt as Hlt'. rewrite (keys_length compare_ okk) in Hlt' by done. split_and!.
  - unfold iter_key. by rewrite (keys_lookup compare_ okk).
  - by apply (iter_Next_spec compare_ okk).
  - by apply (iter_Prev_spec compare_ okk).
  - by apply (iter_SeekToFirst_spec compare_ okk).
  - by apply (iter_SeekToLast_spec compare_ okk).
  - by apply (iter_Seek_spec compare_ okk).
Qed.

(** *** A small list *)

Definition zcmp (a b : Z) : Z := a - b.

#[local] Instance zcmp_total : TotalCmp zcmp (fun _ => True).
Proof. unfold zcmp. split; intros; lia. Qed.

(** The list after inserting 7 and then 3. *)
Definition small_list : SkipList Z :=
  default (SkipList_new 0) (LdbSkipList.Insert zcmp (SkipList_new 0) 7 ≫= fun sl => LdbSkipList.Insert zcmp sl 3).

Definition small_levels : nat -> list nat := fun l => match l with O => [2; 1]%nat | 1%nat => [1%nat] | _ => [] end.

Lemma small_inv : skip_inv zcmp (fun _ => True) small_list small_levels.
Proof.
  split.
  - intros l Hl. do 12 (destruct l as [|l]; [split; vm_compute; auto|]). unfold kMaxHeight in Hl. lia.
  - intros [|[|l]] Hl; simpl; set_solver.
  - intros [|[|l]] Hl; repeat constructor.
  - intros l Hl. change (2 <= l)%nat in Hl. destruct l as [|[|l]]; [lia|lia|done].
  - vm_compute. lia.
  - intros l x Hl Hx.
    assert (∀ P : nat -> Prop, P 0%nat -> (l = 0%nat -> P 2%nat) -> ((l <= 1)%nat -> P 1%nat) -> P x) as Hcases.
    { intros P H0 H2 H1. destruct l as [|[|l]]; simpl in Hx; rewrite ?elem_of_cons, ?elem_of_nil in Hx;
        destruct_or?; subst; auto; done. }
    apply Hcases; [|intros ->|intros Hl1]; (eexists; split; [reflexivity|]); simpl in *; unfold kMaxHeight in *; lia.
  - intros x Hx. simpl in Hx. apply elem_of_cons in Hx as [->|Hx]; [by eexists|].
    apply list_elem_of_singleton in Hx as ->. by eexists.
  - intros [|[|l]] Hl; simpl; set_solver.
Qed.

Lemma skiplist_insert_witness :
  ∃ sl', LdbSkipList.Insert zcmp small_list 5 = Some sl' ∧ keys small_list small_levels = [3; 7].
Proof.
  destruct (skiplist_insert zcmp (fun _ => True) small_list small_levels 5 small_inv I)
    as (h & rnd & prev & A & B & _ & E & _).
  - intros k Hk. change (k ∈ [3; 7]) in Hk. unfold zcmp. set_solver.
  - eexists. split; [exact E|reflexivity].
Defined.
