(* ===== verification/LdbArena.v ===== *)
(** * leveldb: the arena of the memtable (arena.h, arena.cc)

    Addresses are numbers.  [new char[n]] is the class [NewChar]: given the
    blocks that are live it returns an address, aligned and apart from them,
    or throws ([None]), and then so does the arena.
    The arena cuts its blocks into allocations that never overlap and are
    never moved, which is why the memtable may treat an entry as a value. *)

From S2P Require Import Prelude.
From stdpp Require Import list.

#[local] Open Scope Z_scope.

(** A block or an allocation: its address and its length. *)
Abbreviation region := (Z * Z)%type.

Definition disjoint_regions (r s : region) : Prop := r.1 + r.2 <= s.1 ∨ s.1 + s.2 <= r.1.
Definition inside (r s : region) : Prop := s.1 <= r.1 ∧ r.1 + r.2 <= s.1 + s.2.

Class NewChar := { new_char : list region -> Z -> option Z }.

Class NewCharLaws `{NewChar} : Prop := {
  new_positive live n p : 0 < n -> new_char live n = Some p -> 0 < p;
  new_aligned live n p : 0 < n -> new_char live n = Some p -> p mod 8 = 0;
  new_disjoint live n p r : 0 < n -> new_char live n = Some p -> r ∈ live -> disjoint_regions (p, n) r;
  new_fits live n p : 0 < n -> new_char live n = Some p -> p + n < 2 ^ 64;
}.

Definition kBlockSize : Z := 4096.

(** The blocks carry their sizes, which [new[]] keeps. *)
Record Arena := MkArena {
  alloc_ptr_ : Z;
  alloc_bytes_remaining_ : Z;
  blocks_ : list region;
  memory_usage_ : Z;
}.

Definition Arena_new : Arena := MkArena 0 0 [] 0.

Definition MemoryUsage (a : Arena) : Z := memory_usage_ a.

Section Arena.

Context `{NewChar}.

(** The blocks of other owners. *)
Context (others : list region).

Definition AllocateNewBlock (a : Arena) (block_bytes : Z) : option (Z * Arena) :=
  result ← new_char (others ++ blocks_ a) block_bytes;
  Some (result, MkArena (alloc_ptr_ a) (alloc_bytes_remaining_ a) (blocks_ a ++ [(result, block_bytes)])
                  (u64 (memory_usage_ a + u64 (block_bytes + 8)))).

Definition AllocateFallback (a : Arena) (bytes : Z) : option (Z * Arena) :=
  if kBlockSize / 4 <? bytes then AllocateNewBlock a bytes
  else
    '(ptr, a) ← AllocateNewBlock a kBlockSize;
    Some (ptr, MkArena (u64 (ptr + bytes)) (u64 (kBlockSize - bytes)) (blocks_ a) (memory_usage_ a)).

Definition Allocate (a : Arena) (bytes : Z) : option (Z * Arena) :=
  if bytes <=? alloc_bytes_remaining_ a then
    Some (alloc_ptr_ a,
          MkArena (u64 (alloc_ptr_ a + bytes)) (alloc_bytes_remaining_ a - bytes) (blocks_ a) (memory_usage_ a))
  else AllocateFallback a bytes.

Definition AllocateAligned (a : Arena) (bytes : Z) : option (Z * Arena) :=
  let align := 8 in
  let current_mod := Z.land (alloc_ptr_ a) (align - 1) in
  let slop := if current_mod =? 0 then 0 else align - current_mod in
  let needed := u64 (bytes + slop) in
  if needed <=? alloc_bytes_remaining_ a then
    Some (u64 (alloc_ptr_ a + slop),
          MkArena (u64 (alloc_ptr_ a + needed)) (alloc_bytes_remaining_ a - needed) (blocks_ a) (memory_usage_ a))
  else AllocateFallback a bytes.

(** ** The invariant *)

(** [out] are the allocations handed out so far.  What is left of the
    current block lies in a block and touches none of them. *)
Record arena_inv (a : Arena) (out : list region) : Prop := {
  ai_left : 0 <= alloc_bytes_remaining_ a ∧ 0 <= alloc_ptr_ a ∧
    alloc_ptr_ a + alloc_bytes_remaining_ a < 2 ^ 64;
  ai_block : alloc_bytes_remaining_ a = 0 ∨
    ∃ b, b ∈ blocks_ a ∧ inside (alloc_ptr_ a, alloc_bytes_remaining_ a) b;
  ai_apart r : 0 < alloc_bytes_remaining_ a -> r ∈ out -> disjoint_regions r (alloc_ptr_ a, alloc_bytes_remaining_ a);
  ai_inside r : r ∈ out -> ∃ b, b ∈ blocks_ a ∧ inside r b;
  ai_out : ForallOrdPairs disjoint_regions out;
  ai_positive r : r ∈ out -> 0 < r.2;
}.

Context {laws : NewCharLaws}.

Lemma Arena_new_inv : arena_inv Arena_new [].
Proof. split; simpl; [lia|by left|set_solver|set_solver|constructor|set_solver]. Qed.

(** Cutting [bytes] off the current block, after [slop] unused ones. *)
Lemma carve a out slop bytes :
  arena_inv a out -> 0 <= slop -> 0 < bytes -> slop + bytes <= alloc_bytes_remaining_ a ->
  arena_inv (MkArena (alloc_ptr_ a + (slop + bytes)) (alloc_bytes_remaining_ a - (slop + bytes)) (blocks_ a) (memory_usage_ a))
    ((alloc_ptr_ a + slop, bytes) :: out).
Proof.
  intros [Hl Hb Ha Hi Ho Hp] Hs Hn Hle. destruct Hb as [?|(b & Hb & Hin)]; [lia|]. unfold inside in Hin. simpl in *.
  split; simpl.
  - lia.
  - right. exists b. unfold inside. simpl. split; [done|lia].
  - intros r Hlt [->|Hr]%elem_of_cons; unfold disjoint_regions; simpl; [lia|].
    specialize (Ha r ltac:(lia) Hr). specialize (Hp r Hr). unfold disjoint_regions in Ha. simpl in Ha. lia.
  - intros r [->|Hr]%elem_of_cons; [|by apply Hi]. exists b. unfold inside. simpl. split; [done|lia].
  - constructor; [|done]. apply Forall_forall. intros r Hr. specialize (Ha r ltac:(lia) Hr).
    unfold disjoint_regions in *. simpl in *. lia.
  - intros r [->|Hr]%elem_of_cons; [done|auto].
Qed.

Lemma disjoint_inside r b s : inside r b -> disjoint_regions s b -> disjoint_regions s r.
Proof. unfold inside, disjoint_regions. lia. Qed.

Lemma new_block_apart a n p b :
  0 < n -> new_char (others ++ blocks_ a) n = Some p -> b ∈ blocks_ a -> disjoint_regions (p, n) b.
Proof. intros Hn Hp Hb. eapply new_disjoint; [done|done|]. apply elem_of_app. by right. Qed.

(** A block of its own. *)
Lemma new_block_inv a out n p a' :
  arena_inv a out -> 0 < n -> AllocateNewBlock a n = Some (p, a') -> p mod 8 = 0 ∧ arena_inv a' ((p, n) :: out).
Proof.
  intros [Hl Hb Ha Hi Ho Hp] Hn Hnew. unfold AllocateNewBlock in Hnew. apply bind_Some in Hnew as (q & Hq & Hnew).
  simplify_eq. pose proof (fun b => new_block_apart a n p b Hn Hq) as Hap.
  split; [by eapply new_aligned|]. split; simpl.
  - done.
  - destruct Hb as [?|(b & Hb & Hin)]; [by left|right]. exists b. split; [set_solver|done].
  - intros r Hlt [->|Hr]%elem_of_cons; [|auto]. destruct Hb as [Hz|(b & Hb & Hin)]; [lia|].
    eapply disjoint_inside; [done|]. by apply Hap.
  - intros r [->|Hr]%elem_of_cons.
    + eexists. split; [apply elem_of_app; right; by apply list_elem_of_singleton|]. unfold inside. simpl. lia.
    + destruct (Hi r Hr) as (b & Hb' & Hin). exists b. split; [set_solver|done].
  - constructor; [|done]. apply Forall_forall. intros r Hr. destruct (Hi r Hr) as (b & Hb' & Hin).
    eapply disjoint_inside; [done|]. by apply Hap.
  - intros r [->|Hr]%elem_of_cons; [done|auto].
Qed.

(** A fresh standard block, its first bytes handed out. *)
Lemma small_block_inv a out bytes p a' :
  arena_inv a out -> 0 < bytes <= kBlockSize / 4 -> AllocateFallback a bytes = Some (p, a') ->
  p mod 8 = 0 ∧ arena_inv a' ((p, bytes) :: out).
Proof.
  intros [Hl Hb Ha Hi Ho Hp] Hn Hf. change (kBlockSize / 4) with 1024 in Hn. unfold AllocateFallback in Hf.
  change (kBlockSize / 4) with 1024 in Hf. destruct (Z.ltb_spec 1024 bytes); [lia|].
  apply bind_Some in Hf as ([q b] & Hnew & Hf). simplify_eq.
  unfold AllocateNewBlock in Hnew. apply bind_Some in Hnew as (q & Hq & Hnew). simplify_eq. cbn [blocks_ memory_usage_].
  pose proof (new_positive _ kBlockSize _ eq_refl Hq) as Hpos. pose proof (new_fits _ kBlockSize _ eq_refl Hq) as Hfit.
  split; [by eapply new_aligned; [|exact Hq]|]. unfold kBlockSize in *.
  rewrite (u64_small (p + bytes)), (u64_small (4096 - bytes)) by lia.
  replace (p + bytes) with (p + (0 + bytes)) by lia. replace (4096 - bytes) with (4096 - (0 + bytes)) by lia.
  rewrite <- (Z.add_0_r p) at 3.
  apply (carve (MkArena p 4096 (blocks_ a ++ [(p, 4096)]) (u64 (memory_usage_ a + u64 (4096 + 8)))) out 0 bytes); [|lia|lia|simpl; lia].
  split; simpl.
  - lia.
  - right. exists (p, 4096). split; [set_solver|]. unfold inside. simpl. lia.
  - intros r _ Hr. destruct (Hi r Hr) as (b & Hb' & Hin).
    pose proof (new_block_apart a 4096 p b ltac:(lia) Hq Hb') as Hap. pose proof (disjoint_inside r b _ Hin Hap) as Hd.
    unfold disjoint_regions in *. simpl in *. lia.
  - intros r Hr. destruct (Hi r Hr) as (b & Hb' & Hin). exists b. split; [set_solver|done].
  - done.
  - done.
Qed.

Lemma AllocateFallback_inv a out bytes p a' :
  arena_inv a out -> 0 < bytes -> AllocateFallback a bytes = Some (p, a') ->
  p mod 8 = 0 ∧ arena_inv a' ((p, bytes) :: out).
Proof.
  intros Hi Hn Hf. destruct (decide (bytes <= kBlockSize / 4)); [by eapply small_block_inv|].
  unfold AllocateFallback in Hf. destruct (Z.ltb_spec (kBlockSize / 4) bytes); [|lia]. by eapply new_block_inv.
Qed.

Lemma Allocate_inv a out bytes p a' :
  arena_inv a out -> 0 < bytes -> Allocate a bytes = Some (p, a') -> arena_inv a' ((p, bytes) :: out).
Proof.
  intros Hi Hn Ha. unfold Allocate in Ha. destruct (Z.leb_spec bytes (alloc_bytes_remaining_ a)) as [Hle|].
  - simplify_eq. pose proof (ai_left _ _ Hi) as Hl. rewrite u64_small by lia.
    pose proof (carve a out 0 bytes Hi ltac:(lia) Hn ltac:(lia)) as K. by rewrite Z.add_0_r in K.
  - by eapply AllocateFallback_inv.
Qed.

Lemma slop_spec ptr :
  let slop := if Z.land ptr 7 =? 0 then 0 else 8 - Z.land ptr 7 in 0 <= slop < 8 ∧ (ptr + slop) mod 8 = 0.
Proof.
  cbv zeta. change 7 with (Z.ones 3). rewrite Z.land_ones by lia. change (2 ^ 3) with 8.
  pose proof (Z.mod_pos_bound ptr 8 ltac:(lia)) as Hm.
  destruct (Z.eqb_spec (ptr mod 8) 0) as [E|E]; [rewrite Z.add_0_r; lia|]. split; [lia|].
  replace (ptr + (8 - ptr mod 8)) with ((ptr / 8 + 1) * 8); [by apply Z_mod_mult|].
  pose proof (Z_div_mod_eq_full ptr 8). lia.
Qed.

Lemma AllocateAligned_inv a out bytes p a' :
  arena_inv a out -> 0 < bytes < 2 ^ 63 -> AllocateAligned a bytes = Some (p, a') ->
  p mod 8 = 0 ∧ arena_inv a' ((p, bytes) :: out).
Proof.
  intros Hi Hn Ha. unfold AllocateAligned in Ha. change (8 - 1) with 7 in Ha. cbv zeta in Ha.
  pose proof (slop_spec (alloc_ptr_ a)) as [Hs Hal].
  set (slop := if _ =? 0 then 0 else _) in *. rewrite (u64_small (bytes + slop)) in Ha by lia.
  destruct (Z.leb_spec (bytes + slop) (alloc_bytes_remaining_ a)) as [Hle|]; [|by eapply AllocateFallback_inv; [|lia|]].
  simplify_eq. pose proof (ai_left _ _ Hi) as Hl. rewrite !u64_small by lia. split; [done|].
  rewrite (Z.add_comm bytes slop). apply carve; [done|lia|lia|lia].
Qed.

(** ** Runs of requests *)

Inductive request := Plain (bytes : Z) | Aligned (bytes : Z).

Definition request_bytes (r : request) : Z := match r with Plain b | Aligned b => b end.

(** The results, newest first, next to the arena. *)
Definition serve (st : Arena * list region) (r : request) : option (Arena * list region) :=
  '(p, a) ← match r with Plain b => Allocate st.1 b | Aligned b => AllocateAligned st.1 b end;
  Some (a, (p, request_bytes r) :: st.2).

Fixpoint serve_all (st : Arena * list region) (rs : list request) : option (Arena * list region) :=
  match rs with
  | [] => Some st
  | r :: rs => serve st r ≫= fun st => serve_all st rs
  end.

Lemma serve_inv st r st' :
  arena_inv st.1 st.2 -> 0 < request_bytes r < 2 ^ 63 -> serve st r = Some st' -> arena_inv st'.1 st'.2.
Proof.
  intros Hi Hr Hs. unfold serve in Hs. apply bind_Some in Hs as ([p a] & Hs & ?). simplify_eq.
  destruct r as [b|b]; simpl in *; [by eapply Allocate_inv; [|lia|]|by eapply AllocateAligned_inv].
Qed.

Lemma serve_all_inv st rs st' :
  arena_inv st.1 st.2 -> Forall (fun r => 0 < request_bytes r < 2 ^ 63) rs -> serve_all st rs = Some st' ->
  arena_inv st'.1 st'.2.
Proof.
  intros Hi Hrs. revert st Hi; induction Hrs as [|r rs Hr Hrs IH]; intros st Hi Hs; simpl in Hs; [by simplify_eq|].
  apply bind_Some in Hs as (st1 & H1 & Hs). eapply IH; [|done]. by eapply serve_inv.
Qed.

(** The arena throws only when [new] does. *)
Lemma Allocate_throws a bytes :
  Allocate a bytes = None ∨ AllocateAligned a bytes = None -> ∃ live n, new_char live n = None.
Proof.
  assert (∀ n, AllocateNewBlock a n = None -> ∃ live n, new_char live n = None) as Hb.
  { intros n Hn. unfold AllocateNewBlock in Hn. apply bind_None in Hn as [?|(? & ? & ?)]; [eauto|done]. }
  assert (AllocateFallback a bytes = None -> ∃ live n, new_char live n = None) as Hf.
  { unfold AllocateFallback. case_match; [apply Hb|]. intros [?|([] & ? & ?)]%bind_None; [eauto|done]. }
  unfold Allocate, AllocateAligned. intros [Hn|Hn]; cbv zeta in Hn; case_match; [done|auto|done|auto].
Qed.

End Arena.

(** C39. Whatever sequence of plain and aligned requests an arena serves, with
    a heap that hands out apart and aligned blocks: the results do not
    overlap, each lies inside one block the arena owns, and the result of an
    aligned request is a multiple of eight. *)
Theorem arena_allocations `{NewCharLaws} (others : list region) (rs : list request) (a : Arena) (out : list region) :
  Forall (fun r => 0 < request_bytes r < 2 ^ 63) rs -> serve_all others (Arena_new, []) rs = Some (a, out) ->
  ForallOrdPairs disjoint_regions out ∧
  (∀ r, r ∈ out -> ∃ b, b ∈ blocks_ a ∧ inside r b) ∧
  (∀ n p a', 0 < n < 2 ^ 63 -> AllocateAligned others a n = Some (p, a') -> p mod 8 = 0).
Proof.
  intros Hrs Hs. pose proof (serve_all_inv others (Arena_new, []) rs (a, out) Arena_new_inv Hrs Hs) as Hi.
  split_and!; [by eapply ai_out|by eapply ai_inside|]. intros n p a' Hn Ha. by eapply AllocateAligned_inv.
Qed.

(** A heap that puts every block after all the live ones. *)
Definition top_of (live : list region) : Z := foldr (fun r m => Z.max (r.1 + r.2) m) 1 live.

#[local] Instance bump_new : NewChar := {
  new_char live n := let p := (top_of live / 8 + 1) * 8 in if p + n <? 2 ^ 64 then Some p else None
}.

Lemma top_of_ge live r : r ∈ live -> r.1 + r.2 <= top_of live.
Proof. induction 1 as [|r s live Hr IH]; simpl; lia. Qed.

Lemma top_of_pos live : 1 <= top_of live.
Proof. induction live as [|r live IH]; simpl; lia. Qed.

#[local] Instance bump_laws : NewCharLaws.
Proof.
  split; intros live n p; [| |intros r|]; simpl; intros Hn; pose proof (top_of_pos live);
    pose proof (Z_div_mod_eq_full (top_of live) 8); pose proof (Z.mod_pos_bound (top_of live) 8 ltac:(lia)).
  - case_match; intros; simplify_eq. lia.
  - case_match; intros; simplify_eq. by apply Z_mod_mult.
  - intros Hc Hr. case_match; simplify_eq. apply top_of_ge in Hr. unfold disjoint_regions. simpl. lia.
  - destruct (Z.ltb_spec ((top_of live / 8 + 1) * 8 + n) (2 ^ 64)); intros; simplify_eq. lia.
Qed.

(** Three requests: two from one block, one in a block of its own. *)
Lemma arena_allocations_witness :
  serve_all [] (Arena_new, []) [Plain 13; Aligned 24; Plain 5000]
    = Some (MkArena 48 4056 [(8, 4096); (4112, 5000)] 9112, [(4112, 5000); (24, 24); (8, 13)]) ∧
  ForallOrdPairs disjoint_regions [(4112, 5000); (24, 24); (8, 13)].
Proof.
  split; [vm_compute; reflexivity|].
  refine (proj1 (arena_allocations [] [Plain 13; Aligned 24; Plain 5000] _ _ _ _)); [|vm_compute; reflexivity].
  repeat constructor; vm_compute; congruence.
Defined.
