(* ===== verification/LdbMemTable.v ===== *)
(** * leveldb: the memtable (memtable.h, memtable.cc, and the inserter of
      write_batch.cc)

    The skip list's keys are pointers to entries in the arena.  An entry is
    written once, before it is linked, and the arena neither moves nor
    overlaps its allocations, so a pointer is modelled by the bytes it points
    to.  [None] is the exception of a failed allocation (or, in the searches
    of the skip list, lack of fuel, which does not happen). *)

From S2P Require Import Prelude.
From S2P Require Import LdbSlice.
From S2P Require Import LdbCoding.
From S2P Require Import LdbFormat.
From S2P Require Import LdbArena.
From S2P Require Import LdbSkipList.
From S2P Require Import LdbWriteBatch.

(** [GetVarint32Ptr(p, p + 5, &len)]: the value and the pointer after it. *)
Definition varint32_at (p : Slice) : option (Z * Slice) :=
  match GetVarint32Ptr (take 5 p) with
  | Some (len, rest) => Some (len, drop (length (take 5 p) - length rest) p)
  | None => None
  end.

(** The file's own [GetLengthPrefixedSlice]; it assumes the varint is not
    corrupted. *)
Definition mem_GetLengthPrefixedSlice (data : Slice) : Slice :=
  match varint32_at data with
  | Some (len, p) => take (Z.to_nat len) p
  | None => []
  end.

Definition EncodeKey (target : Slice) : Slice := PutVarint32 [] (u32 (size target)) ++ target.

Record MemTable := MkMemTable { refs_ : Z; arena_ : Arena; table_ : SkipList Slice }.

Definition Ref (m : MemTable) : MemTable := MkMemTable (refs_ m + 1) (arena_ m) (table_ m).

(** The flag says that the object is deleted. *)
Definition Unref (m : MemTable) : bool * MemTable :=
  let m := MkMemTable (refs_ m - 1) (arena_ m) (table_ m) in (refs_ m <=? 0, m).

Definition ApproximateMemoryUsage (m : MemTable) : Z := MemoryUsage (arena_ m).

(** [sizeof(Node) + sizeof(std::atomic<Node*>) * (height - 1)] for a pointer
    key. *)
Definition node_bytes (height : nat) : Z := 16 + 8 * (Z.of_nat height - 1).

Section MemTable.

Context `{NewChar} (others : list region) (user_comparator : Comparator).

(** [MemTable::KeyComparator::operator()]. *)
Definition KeyComparator (aptr bptr : Slice) : Z :=
  let a := mem_GetLengthPrefixedSlice aptr in
  let b := mem_GetLengthPrefixedSlice bptr in
  InternalCompare user_comparator a b.

Definition MemTable_new : option MemTable :=
  '(_, arena) ← AllocateAligned others Arena_new (node_bytes kMaxHeight);
  Some (MkMemTable 0 arena (SkipList_new [])).

(** The memory of the node [Insert] creates, given its height. *)
Definition node_memory (arena : Arena) (table : SkipList Slice) : option (Z * Arena) :=
  nd ← nodes table !! (length (nodes table) - 1)%nat;
  AllocateAligned others arena (node_bytes (length (next_ nd))).

Definition Add (s : Z) (type : ValueType) (key value : Slice) (m : MemTable) : option MemTable :=
  let key_size := size key in
  let val_size := size value in
  let internal_key_size := u64 (key_size + 8) in
  let encoded_len :=
    u64 (VarintLength internal_key_size + internal_key_size + VarintLength val_size + val_size) in
  '(_, arena) ← Allocate others (arena_ m) encoded_len;
  let buf :=
    EncodeVarint32 (u32 internal_key_size) ++ key ++
    EncodeFixed64 (Z.lor (u64 (Z.shiftl s 8)) (type_value type)) ++
    EncodeVarint32 (u32 val_size) ++ value in
  table ← Insert KeyComparator (table_ m) buf;
  '(_, arena) ← node_memory arena table;
  Some (MkMemTable (refs_ m) arena table).

(** The result, and the two output arguments. *)
Definition Get (m : MemTable) (key : LookupKey) (value : Slice) (s : Status) : option (bool * Slice * Status) :=
  let memkey := memtable_key key in
  iter ← iter_Seek KeyComparator (table_ m) memkey;
  match iter_key (table_ m) iter with
  | Some entry =>
      match varint32_at entry with
      | Some (key_length, key_ptr) =>
          let n := Z.to_nat (u32 (key_length - 8)) in
          if Compare user_comparator (take n key_ptr) (lookup_user_key key) =? 0 then
            let tag := DecodeFixed64 (drop n key_ptr) in
            if Z.land tag 0xff =? type_value kTypeValue then
              Some (true, mem_GetLengthPrefixedSlice (drop (Z.to_nat key_length) key_ptr), s)
            else if Z.land tag 0xff =? type_value kTypeDeletion then
              Some (true, value, Status_NotFound [] [])
            else Some (false, value, s)
          else Some (false, value, s)
      | None => Some (false, value, s)
      end
  | None => Some (false, value, s)
  end.

(** ** [MemTableIterator] *)

Definition mem_Valid (node : option nat) : bool := iter_Valid node.
Definition mem_Seek (m : MemTable) (k : Slice) : option (option nat) :=
  iter_Seek KeyComparator (table_ m) (EncodeKey k).
Definition mem_SeekToFirst (m : MemTable) : option nat := iter_SeekToFirst (table_ m).
Definition mem_SeekToLast (m : MemTable) : option (option nat) := iter_SeekToLast (table_ m).
Definition mem_Next (m : MemTable) (node : option nat) : option nat := iter_Next (table_ m) node.
Definition mem_Prev (m : MemTable) (node : option nat) : option (option nat) :=
  iter_Prev KeyComparator (table_ m) node.
Definition mem_key (m : MemTable) (node : option nat) : option Slice :=
  mem_GetLengthPrefixedSlice <$> iter_key (table_ m) node.
Definition mem_value (m : MemTable) (node : option nat) : option Slice :=
  entry ← iter_key (table_ m) node;
  '(len, p) ← varint32_at entry;
  Some (mem_GetLengthPrefixedSlice (drop (Z.to_nat len) p)).

(** ** [MemTableInserter] and [WriteBatchInternal::InsertInto] *)

(** The state is [sequence_] and the memtable, [None] once [Add] threw. *)
Definition MemTableInserter : Handler (Z * option MemTable) := {|
  handler_Put key value st :=
    (u64 (st.1 + 1), st.2 ≫= Add st.1 kTypeValue key value);
  handler_Delete key st :=
    (u64 (st.1 + 1), st.2 ≫= Add st.1 kTypeDeletion key []);
|}.

Definition InsertInto (b : WriteBatch) (m : MemTable) : Status * option MemTable :=
  let '(status, (_, m)) := Iterate MemTableInserter b (Sequence b, Some m) in (status, m).

End MemTable.
