(* ===== verification/LdbMemThms.v ===== *)
(** * leveldb: a memtable is the list of what was added to it

    [mem_holds m h]: the skip list of [m] holds exactly the entries of the
    history [h].  [Add] extends the history, [Get] answers from it with the
    newest entry the snapshot may see, [InsertInto] adds the operations of a
    batch under consecutive sequence numbers. *)

From S2P Require Import Prelude.
From S2P Require Import LdbSlice.
From S2P Require Import LdbCoding.
From S2P Require Import LdbFormat.
From S2P Require Import LdbFormatThms.
From S2P Require Import LdbArena.
From S2P Require Import LdbSkipList.
From S2P Require Import LdbSkipListThms.
From S2P Require Import LdbSkipIter.
From S2P Require Import LdbWriteBatch.
From S2P Require Import LdbMemTable.
From stdpp Require Import list sorting.

#[local] Open Scope Z_scope.

Local Abbreviation size := LdbSlice.size.

(** ** Entries *)

Record entry := Entry { e_seq : Z; e_type : ValueType; e_key : Slice; e_value : Slice }.

Definition e_tag (e : entry) : Z := PackSequenceAndType (e_seq e) (e_type e).

(** The bytes [Add] writes. *)
Definition enc (e : entry) : Slice :=
  EncodeVarint32 (u32 (u64 (size (e_key e) + 8))) ++ e_key e ++ EncodeFixed64 (e_tag e) ++
  EncodeVarint32 (u32 (size (e_value e))) ++ e_value e.

Record entry_ok (okp : Slice -> Prop) (e : entry) : Prop := {
  eo_seq : 0 <= e_seq e <= kMaxSequenceNumber;
  eo_key : Forall is_u8 (e_key e) ∧ size (e_key e) + 8 < 2 ^ 32;
  eo_okp : okp (e_key e);
  eo_value : Forall is_u8 (e_value e) ∧ size (e_value e) < 2 ^ 32;
}.

Lemma varint32_at_put v rest :
  is_u32 v -> Forall is_u8 rest -> varint32_at (EncodeVarint32 v ++ rest) = Some (v, rest).
Proof.
  intros Hv Hr. unfold varint32_at. pose proof (length_varint_bytes_32 v Hv) as Hl.
  rewrite <- EncodeVarint32_bytes in Hl by done. rewrite take_app_ge by done.
  pose proof (GetVarint32_put v (take (5 - length (EncodeVarint32 v)) rest) Hv (Forall_take _ _ _ Hr)) as E.
  unfold GetVarint32 in E. rewrite E, length_app, Nat.add_sub. by rewrite drop_app_length.
Qed.

Lemma mem_slice_put v rest :
  Forall is_u8 v -> Forall is_u8 rest -> size v < 2 ^ 32 ->
  mem_GetLengthPrefixedSlice (EncodeVarint32 (u32 (size v)) ++ v ++ rest) = v.
Proof.
  intros Hv Hr Hs. pose proof (size_nonneg v). unfold mem_GetLengthPrefixedSlice. rewrite u32_small by lia.
  rewrite varint32_at_put; [|unfold is_u32; lia|by apply Forall_app].
  unfold LdbSlice.size. rewrite Nat2Z.id. apply take_app_length.
Qed.

Section Entry.

Context (okp : Slice -> Prop) (e : entry) (He : entry_ok okp e).

Definition e_ikey : Slice := ikey (e_key e) (e_tag e).
Definition e_rest : Slice := EncodeVarint32 (u32 (size (e_value e))) ++ e_value e.

Lemma size_ikey_u32 : size e_ikey = size (e_key e) + 8 ∧ 8 <= size e_ikey < 2 ^ 32.
Proof using He.
  pose proof (size_nonneg (e_key e)). destruct (eo_key _ _ He) as [_ Hk].
  unfold e_ikey, LdbSlice.size in *. rewrite length_ikey. lia.
Qed.

Lemma e_rest_u8 : Forall is_u8 e_rest.
Proof using He.
  apply Forall_app. split; [|apply He]. apply EncodeVarint32_u8, u32_is_u32.
Qed.

Lemma e_ikey_u8 : Forall is_u8 e_ikey.
Proof using He. apply Forall_app. split; [apply He|apply le_split_bytes]. Qed.

Lemma enc_ikey : enc e = EncodeVarint32 (u32 (size e_ikey)) ++ e_ikey ++ e_rest.
Proof using He.
  destruct size_ikey_u32 as [E Hr]. unfold enc, e_rest. rewrite <- E, u64_small by lia.
  unfold e_ikey, ikey. by rewrite <- !app_assoc.
Qed.

Lemma varint32_at_enc : varint32_at (enc e) = Some (size e_ikey, e_ikey ++ e_rest).
Proof using He.
  destruct size_ikey_u32 as [E Hr]. rewrite enc_ikey, u32_small by lia.
  apply varint32_at_put; [unfold is_u32; lia|]. apply Forall_app. split; [apply e_ikey_u8|apply e_rest_u8].
Qed.

Lemma mem_slice_enc : mem_GetLengthPrefixedSlice (enc e) = e_ikey.
Proof using He.
  rewrite enc_ikey. apply mem_slice_put; [apply e_ikey_u8|apply e_rest_u8|apply size_ikey_u32].
Qed.

Lemma mem_slice_rest : mem_GetLengthPrefixedSlice e_rest = e_value e.
Proof using He.
  unfold e_rest. rewrite <- (app_nil_r (e_value e)) at 2. apply mem_slice_put; [apply He|done|apply He].
Qed.

End Entry.

(** ** The order on entries *)

Section Table.

Context (uc : Comparator) (okp : Slice -> Prop) {laws : ComparatorLaws uc okp}.

Definition mem_ok (p : Slice) : Prop := ikey_ok okp (mem_GetLengthPrefixedSlice p).

#[export] Instance mem_total : TotalCmp (KeyComparator uc) mem_ok.
Proof.
  split; unfold KeyComparator, mem_ok.
  - intros a b Ha Hb. by apply (InternalCompare_antisym uc okp).
  - intros a b d Ha Hb Hd. by apply (InternalCompare_le_trans uc okp).
Qed.

Lemma enc_ok e : entry_ok okp e -> mem_ok (enc e).
Proof.
  intros He. unfold mem_ok. rewrite (mem_slice_enc okp) by done. apply ikey_ok_ikey; apply He.
Qed.

Lemma e_tag_u64 e : entry_ok okp e -> is_u64 (e_tag e).
Proof. intros He. apply PackSequenceAndType_u64, He. Qed.

Lemma e_tag_inj e e' : entry_ok okp e -> entry_ok okp e' -> e_tag e = e_tag e' -> e_seq e = e_seq e'.
Proof.
  intros He He'. unfold e_tag. rewrite !PackSequenceAndType_value by apply eo_seq with okp, He || apply eo_seq with okp, He'.
  destruct (e_type e), (e_type e'); simpl; lia.
Qed.

Lemma KeyComparator_enc e k tag :
  entry_ok okp e -> is_u64 tag ->
  ∀ p, mem_GetLengthPrefixedSlice p = ikey k tag ->
  (KeyComparator uc (enc e) p < 0 <-> Compare uc (e_key e) k < 0 ∨ (Compare uc (e_key e) k = 0 ∧ tag < e_tag e)) ∧
  (KeyComparator uc p (enc e) <= 0 <-> Compare uc k (e_key e) < 0 ∨ (Compare uc k (e_key e) = 0 ∧ e_tag e <= tag)).
Proof.
  intros He Ht p Hp. pose proof (e_tag_u64 e He) as Hte. unfold KeyComparator. rewrite Hp, (mem_slice_enc okp) by done.
  unfold e_ikey. split.
  - destruct (InternalCompare_cases uc (ikey (e_key e) (e_tag e)) (ikey k tag)) as [[Hn ->]|[Hz Hs]];
      rewrite ?ExtractUserKey_ikey, ?key_tag_ikey in * by done; [lia|].
    rewrite Hz, <- Z.sgn_neg_iff, Hs, Z.sgn_neg_iff. lia.
  - rewrite InternalCompare_le, !ExtractUserKey_ikey, !key_tag_ikey by done. done.
Qed.

(** ** What a memtable holds *)

Definition table_holds (m : MemTable) (es : list entry) : Prop :=
  ∃ L, skip_inv (KeyComparator uc) mem_ok (table_ m) L ∧ keys (table_ m) L = enc <$> es ∧ Forall (entry_ok okp) es.

Definition mem_holds (m : MemTable) (h : list entry) : Prop := ∃ es, table_holds m es ∧ es ≡ₚ h.

Lemma MemTable_new_holds `{NewChar} others m : MemTable_new others = Some m -> mem_holds m [].
Proof.
  unfold MemTable_new. intros ([p a] & _ & ?)%bind_Some. simplify_eq. exists []. split; [|done].
  exists (fun _ => []). split_and!; [apply (SkipList_new_inv (KeyComparator uc) mem_ok)|done|constructor].
Qed.

(** [Add] puts one more entry at its place. *)
Lemma enc_distinct e e' :
  entry_ok okp e -> entry_ok okp e' -> e_seq e' ≠ e_seq e -> KeyComparator uc (enc e') (enc e) ≠ 0.
Proof.
  intros He He' Hne Hz. unfold KeyComparator in Hz.
  rewrite (mem_slice_enc okp e), (mem_slice_enc okp e') in Hz by done. unfold e_ikey in Hz.
  destruct (InternalCompare_cases uc (ikey (e_key e') (e_tag e')) (ikey (e_key e) (e_tag e))) as [[Hn E]|[_ E]].
  - congruence.
  - rewrite Hz, !key_tag_ikey in E by by apply e_tag_u64. symmetry in E. apply Z.sgn_null_iff in E.
    apply Hne. apply e_tag_inj; [done|done|]. lia.
Qed.

(** The searches of [Insert] end, for a new sequence number. *)
Lemma Insert_entry m es L e :
  skip_inv (KeyComparator uc) mem_ok (table_ m) L -> keys (table_ m) L = enc <$> es -> Forall (entry_ok okp) es ->
  entry_ok okp e -> e_seq e ∉ e_seq <$> es ->
  ∃ t L' A B, LdbSkipList.Insert (KeyComparator uc) (table_ m) (enc e) = Some t ∧
    skip_inv (KeyComparator uc) mem_ok t L' ∧ es = A ++ B ∧ keys t L' = enc <$> A ++ e :: B.
Proof.
  intros Hi Hk Hes He Hne. rewrite Forall_forall in Hes.
  assert (∀ k, k ∈ keys (table_ m) L -> KeyComparator uc k (enc e) ≠ 0) as Hd.
  { intros k Hin. rewrite Hk in Hin. apply list_elem_of_fmap in Hin as (e' & -> & He'). apply enc_distinct; [done|auto|].
    intros E. apply Hne. rewrite <- E. by apply list_elem_of_fmap_2. }
  destruct (Insert_steps (KeyComparator uc) mem_ok (table_ m) L (enc e) Hi (enc_ok e He) Hd)
    as (height & rnd & prev & A & B & Hh & Hins & Hsplit & _ & _ & _ & Hsteps).
  rewrite Hk in Hsplit. apply fmap_app_inv in Hsplit as (A' & B' & -> & -> & ->).
  destruct (Hsteps (2 * height)%nat ltac:(lia)) as (L' & Hi' & Hk'). rewrite take_insert_stores in Hi', Hk' by lia. rewrite (proj2 (Nat.ltb_ge (2 * height) 2)) in Hk' by lia.
  eexists _, L', A', B'. split_and!; [exact Hins|done|done|]. by rewrite Hk', fmap_app.
Qed.

Lemma Add_holds `{NewChar} others m h e m' :
  mem_holds m h -> entry_ok okp e -> e_seq e ∉ e_seq <$> h ->
  LdbMemTable.Add others uc (e_seq e) (e_type e) (e_key e) (e_value e) m = Some m' -> mem_holds m' (h ++ [e]).
Proof.
  intros (es & (L & Hi & Hk & Hes) & Hp) He Hne Ha.
  destruct (Insert_entry m es L e Hi Hk Hes He) as (t & L' & A & B & Hins & Hi' & -> & Hk'); [by rewrite Hp|].
  unfold LdbMemTable.Add in Ha. apply bind_Some in Ha as ([p1 a1] & _ & Ha). apply bind_Some in Ha as (t' & Ht & Ha).
  apply bind_Some in Ha as ([p2 a2] & _ & Ha). simplify_eq. fold (e_tag e) in Ht.
  change (LdbSkipList.Insert (KeyComparator uc) (table_ m) (enc e) = Some t') in Ht. rewrite Hins in Ht. simplify_eq.
  exists (A ++ e :: B). split.
  - exists L'. cbn [table_]. split_and!; [done|done|]. rewrite Forall_forall in *. set_solver.
  - rewrite <- Hp, <- Permutation_middle. by rewrite <- Permutation_cons_append.
Qed.

(** [Add] fails only when an allocation does. *)
Lemma Add_throws `{NewChar} others m h e :
  mem_holds m h -> entry_ok okp e -> e_seq e ∉ e_seq <$> h ->
  LdbMemTable.Add others uc (e_seq e) (e_type e) (e_key e) (e_value e) m = None -> ∃ live n, new_char live n = None.
Proof.
  intros (es & (L & Hi & Hk & Hes) & Hp) He Hne Ha.
  destruct (Insert_entry m es L e Hi Hk Hes He) as (t & L' & A & B & Hins & Hi' & _ & _); [by rewrite Hp|].
  unfold LdbMemTable.Add in Ha. apply bind_None in Ha as [Ha|([p1 a1] & _ & Ha)]; [by eapply Allocate_throws; left|].
  fold (e_tag e) in Ha. apply bind_None in Ha as [Ht|(t' & Ht & Ha)].
  { change (LdbSkipList.Insert (KeyComparator uc) (table_ m) (enc e) = None) in Ht. congruence. }
  change (LdbSkipList.Insert (KeyComparator uc) (table_ m) (enc e) = Some t') in Ht.
  assert (t' = t) as -> by congruence. apply bind_None in Ha as [Ha|([p2 a2] & _ & Ha)]; [|done].
  unfold node_memory in Ha. apply bind_None in Ha as [Ha|(nd & _ & Ha)]; [|by eapply Allocate_throws; right].
  pose proof (inv_length _ _ t L' Hi'). apply lookup_ge_None in Ha. lia.
Qed.

(** ** [Get] *)

(** The entry a reader of user key [u] at snapshot [s] must see: of those on
    [u] that are not newer than [s], the one with the largest sequence. *)
Definition visible (u : Slice) (s : Z) (e : entry) : Prop := Compare uc (e_key e) u = 0 ∧ e_seq e <= s.

#[export] Instance visible_dec u s e : Decision (visible u s e).
Proof. unfold visible. apply _. Defined.

Definition newer (e : entry) (best : option entry) : option entry :=
  match best with
  | Some b => if decide (e_seq b < e_seq e) then Some e else best
  | None => Some e
  end.

Definition newest (u : Slice) (s : Z) (h : list entry) : option entry :=
  foldr newer None (filter (visible u s) h).

Lemma newest_cases u s h :
  match newest u s h with
  | None => ∀ e, e ∈ h -> ¬ visible u s e
  | Some b => b ∈ h ∧ visible u s b ∧ ∀ e, e ∈ h -> visible u s e -> e_seq e <= e_seq b
  end.
Proof.
  unfold newest. induction h as [|e h IH]; [set_solver|]. rewrite filter_cons. destruct (decide (visible u s e)) as [Hv|Hv].
  - simpl. destruct (foldr newer None (filter _ h)) as [b|]; simpl.
    + destruct IH as (Hb & Hvb & Hmax). case_decide.
      * split_and!; [set_solver|done|]. intros e' [->|He']%elem_of_cons Hv'; [done|]. specialize (Hmax e' He' Hv'). lia.
      * split_and!; [set_solver|done|]. intros e' [->|He']%elem_of_cons Hv'; [lia|auto].
    + split_and!; [set_solver|done|]. intros e' [->|He']%elem_of_cons Hv'; [done|]. by destruct (IH e' He').
  - destruct (foldr newer None _) as [b|].
    + destruct IH as (Hb & Hvb & Hmax). split_and!; [set_solver|done|]. intros e' [->|He']%elem_of_cons Hv'; [done|auto].
    + intros e' [->|He']%elem_of_cons; [done|auto].
Qed.

Definition answer (e : option entry) (value : Slice) (st : Status) : bool * Slice * Status :=
  match e with
  | None => (false, value, st)
  | Some e => match e_type e with
              | kTypeValue => (true, e_value e, st)
              | kTypeDeletion => (true, value, Status_NotFound [] [])
              end
  end.

(** The first entry not below the target decides. *)
Section Seek.

Context (u : Slice) (s : Z) (Hu : okp u) (Hu8 : Forall is_u8 u) (Hs : 0 <= s <= kMaxSequenceNumber) (target : Slice)
        (Htarget : mem_GetLengthPrefixedSlice target = ikey u (PackSequenceAndType s kValueTypeForSeek)).

Local Abbreviation ge e := (KeyComparator uc target (enc e) <= 0).

Lemma ge_target e :
  entry_ok okp e -> ge e <-> Compare uc u (e_key e) < 0 ∨ (Compare uc u (e_key e) = 0 ∧ e_seq e <= s).
Proof using Hs Htarget.
  intros He. destruct (KeyComparator_enc e u (PackSequenceAndType s kValueTypeForSeek) He
    (PackSequenceAndType_u64 _ _ Hs) target Htarget) as [_ ->].
  unfold e_tag. rewrite !PackSequenceAndType_value by first [done|apply He].
  destruct (e_type e); simpl; lia.
Qed.

Lemma visible_ge e : entry_ok okp e -> visible u s e -> ge e.
Proof using laws Hu Hs Htarget.
  intros He [Hc Hle]. apply ge_target; [done|]. right. split; [|done].
  apply (cmp_eq_sym (Compare uc) okp); [apply He|done|done].
Qed.

Lemma ge_visible e : entry_ok okp e -> ge e -> Compare uc (e_key e) u = 0 -> visible u s e.
Proof using laws Hu Hs Htarget.
  intros He Hge Hc. apply ge_target in Hge; [|done].
  pose proof (cmp_eq_sym (Compare uc) okp _ _ (eo_okp _ _ He) Hu Hc). split; [done|]. lia.
Qed.

(** Of two entries in order, the second is not a newer one on [u]; and when
    it is one on [u], so is the first. *)
Lemma ordered_entries e e' :
  entry_ok okp e -> entry_ok okp e' -> KeyComparator uc (enc e) (enc e') < 0 -> ge e -> visible u s e' ->
  Compare uc (e_key e) u = 0 ∧ e_seq e' <= e_seq e.
Proof using laws Hu Hs Htarget.
  intros He He' Hlt Hge [Hc' _]. pose proof (eo_okp _ _ He) as Ho. pose proof (eo_okp _ _ He') as Ho'.
  assert (mem_GetLengthPrefixedSlice (enc e') = ikey (e_key e') (e_tag e')) as Hp by by eapply mem_slice_enc.
  apply (KeyComparator_enc e (e_key e') (e_tag e') He (e_tag_u64 e' He') (enc e') Hp) in Hlt.
  pose proof (cmp_eq_r (Compare uc) okp _ _ _ Ho' Hu Ho Hc') as Hr.
  apply ge_target in Hge; [|done].
  assert (Compare uc (e_key e) u <= 0) as Hle by (rewrite <- Z.sgn_nonpos, <- Hr, Z.sgn_nonpos; lia).
  apply (cmp_flip_le (Compare uc) okp) in Hle; [|done..].
  assert (Compare uc (e_key e) u = 0) as Hz by (apply (cmp_eq_sym (Compare uc) okp); [done|done|lia]).
  split; [done|]. rewrite Hz in Hr. change (Z.sgn 0) with 0 in Hr. apply Z.sgn_null_iff in Hr.
  destruct Hlt as [?|[_ Hlt]]; [lia|]. unfold e_tag in Hlt. rewrite !PackSequenceAndType_value in Hlt by first [apply He|apply He'].
  destruct (e_type e), (e_type e'); simpl in Hlt; lia.
Qed.

Lemma seek_newest es h i :
  Forall (entry_ok okp) es -> es ≡ₚ h -> NoDup (e_seq <$> h) ->
  StronglySorted (fun a b => KeyComparator uc a b < 0) (enc <$> es) ->
  Forall (fun k => KeyComparator uc k target < 0) (take i (enc <$> es)) ->
  Forall (fun k => KeyComparator uc target k <= 0) (drop i (enc <$> es)) ->
  newest u s h = match es !! i with
                 | Some e => if decide (Compare uc (e_key e) u = 0) then Some e else None
                 | None => None
                 end.
Proof using laws Hu Hu8 Hs Htarget.
  intros Hes Hp Hnd Hsort Hlo Hhi. rewrite Forall_lookup in Hes. rewrite Forall_lookup in Hlo, Hhi.
  assert (mem_ok target) as Hto by (unfold mem_ok; rewrite Htarget; by apply ikey_ok_ikey).
  assert (∀ j e, es !! j = Some e -> visible u s e -> (i <= j)%nat) as Hpos.
  { intros j e Hj Hv. destruct (decide (i <= j)%nat) as [|Hn]; [done|exfalso].
    assert (KeyComparator uc (enc e) target < 0) as Hlt%(cmp_flip (KeyComparator uc) mem_ok).
    { apply (Hlo j), lookup_take_Some. rewrite list_lookup_fmap, Hj. split; [done|lia]. }
    - pose proof (visible_ge e (Hes j e Hj) Hv). lia.
    - by apply enc_ok, (Hes j).
    - done. }
  assert (∀ e0, es !! i = Some e0 -> ge e0) as Hge.
  { intros e0 H0. apply (Hhi 0%nat). by rewrite lookup_drop, Nat.add_0_r, list_lookup_fmap, H0. }
  assert (∀ e0 e, es !! i = Some e0 -> e ∈ h -> visible u s e -> Compare uc (e_key e0) u = 0 ∧ e_seq e <= e_seq e0) as Hall.
  { intros e0 e H0 He Hv. rewrite <- Hp in He. apply list_elem_of_lookup in He as [j Hj].
    pose proof (Hpos j e Hj Hv). destruct (decide (i = j)) as [->|Hne].
    - simplify_eq. split; [apply Hv|done].
    - apply (ordered_entries e0 e); [by apply (Hes i)|by apply (Hes j)| |auto|done].
      eapply (sorted_lookup (KeyComparator uc) (enc <$> es) i j); [done|lia|by rewrite list_lookup_fmap, H0|by rewrite list_lookup_fmap, Hj]. }
  pose proof (newest_cases u s h) as Hn. destruct (es !! i) as [e0|] eqn:H0.
  - destruct (decide (Compare uc (e_key e0) u = 0)) as [Hz|Hz].
    + assert (visible u s e0) as Hv0 by (apply ge_visible; [by apply (Hes i)|auto|done]).
      assert (e0 ∈ h) as Hin by (rewrite <- Hp; by eapply list_elem_of_lookup_2).
      destruct (newest u s h) as [b|]; [|by destruct (Hn e0 Hin)]. destruct Hn as (Hb & Hvb & Hmax). f_equal.
      destruct (Hall e0 b eq_refl Hb Hvb) as [_ ?]. pose proof (Hmax e0 Hin Hv0).
      apply list_elem_of_lookup in Hb as [jb Hjb]. apply list_elem_of_lookup in Hin as [j0 Hj0].
      assert (jb = j0) as -> by (eapply (NoDup_lookup (e_seq <$> h)); [done|rewrite list_lookup_fmap, Hjb; done|
        rewrite list_lookup_fmap, Hj0; simpl; f_equal; lia]). congruence.
    + destruct (newest u s h) as [b|]; [|done]. destruct Hn as (Hb & Hvb & _). by destruct (Hall e0 b eq_refl Hb Hvb).
  - destruct (newest u s h) as [b|]; [|done]. destruct Hn as (Hb & Hvb & _). rewrite <- Hp in Hb.
    apply list_elem_of_lookup in Hb as [j Hj]. pose proof (Hpos j b Hj Hvb). apply lookup_ge_None in H0.
    apply lookup_lt_Some in Hj. lia.
Qed.

End Seek.

(** Reading the entry found. *)
Lemma type_of_tag e :
  entry_ok okp e -> Z.land (e_tag e) 0xff = type_value (e_type e).
Proof.
  intros He. unfold e_tag. rewrite PackSequenceAndType_value by apply He. rewrite land_255, Z.add_comm, Z.mod_add by lia.
  by destruct (e_type e).
Qed.

Lemma lookup_slice u s :
  Forall is_u8 u -> size u + 8 < 2 ^ 32 ->
  mem_GetLengthPrefixedSlice (memtable_key (LookupKey_new u s)) = ikey u (PackSequenceAndType s kValueTypeForSeek).
Proof.
  intros Hu Hs. unfold memtable_key, LookupKey_new, lk_array.
  replace (size u + 8) with (size (ikey u (PackSequenceAndType s kValueTypeForSeek)))
    by (unfold LdbSlice.size; rewrite length_ikey; lia).
  rewrite <- (app_nil_r (EncodeFixed64 _)). rewrite (app_assoc u). apply mem_slice_put.
  - apply Forall_app. split; [done|apply le_split_bytes].
  - done.
  - unfold LdbSlice.size in *. rewrite length_ikey. lia.
Qed.

Lemma take_ikey e r : take (length (e_key e)) (e_ikey e ++ r) = e_key e.
Proof. unfold e_ikey, ikey. by rewrite <- app_assoc, take_app_length. Qed.

Lemma tag_ikey e r : is_u64 (e_tag e) -> DecodeFixed64 (drop (length (e_key e)) (e_ikey e ++ r)) = e_tag e.
Proof. intros Ht. unfold e_ikey, ikey. by rewrite <- app_assoc, drop_app_length, DecodeFixed64_encode. Qed.

Lemma Get_holds m h u s value st :
  mem_holds m h -> NoDup (e_seq <$> h) -> okp u -> Forall is_u8 u -> size u + 8 < 2 ^ 32 -> 0 <= s <= kMaxSequenceNumber ->
  Get uc m (LookupKey_new u s) value st = Some (answer (newest u s h) value st).
Proof.
  intros (es & (L & Hi & Hk & Hes) & Hp) Hnd Hu Hu8 Hsz Hs. pose proof (lookup_slice u s Hu8 Hsz) as Ht.
  assert (mem_ok (memtable_key (LookupKey_new u s))) as Hok by (unfold mem_ok; rewrite Ht; by apply ikey_ok_ikey).
  destruct (iter_Seek_spec (KeyComparator uc) mem_ok (table_ m) L _ Hi Hok) as (i & Hseek & Hle & Hlo & Hhi).
  pose proof (keys_sorted _ _ _ _ Hi) as Hsort. pose proof (keys_lookup _ _ _ _ i Hi) as Hkl.
  rewrite Hk in Hlo, Hhi, Hsort, Hkl.
  rewrite (seek_newest u s Hu Hu8 Hs _ Ht es h i Hes Hp Hnd Hsort Hlo Hhi).
  unfold Get. rewrite Hseek. cbn [mbind option_bind]. unfold iter_key. rewrite <- Hkl, list_lookup_fmap.
  destruct (es !! i) as [e|] eqn:He; [|done]. cbn [fmap option_fmap option_map].
  assert (entry_ok okp e) as Heo by by eapply (Forall_lookup_1 (entry_ok okp)).
  rewrite (varint32_at_enc okp e Heo). destruct (size_ikey_u32 okp e Heo) as [Esz Hr].
  assert (Z.to_nat (u32 (size (e_ikey e) - 8)) = length (e_key e)) as ->.
  { rewrite u32_small by lia. unfold LdbSlice.size in *. lia. }
  rewrite lookup_user_key_new, take_ikey, tag_ikey, type_of_tag by first [done|by apply e_tag_u64].
  destruct (Z.eqb_spec (Compare uc (e_key e) u) 0); [rewrite decide_True by done|by rewrite decide_False by done].
  unfold answer. destruct (e_type e); [done|]. change (type_value kTypeValue =? type_value kTypeValue) with true. cbn iota.
  rewrite drop_app_length' by (unfold LdbSlice.size; by rewrite Nat2Z.id). by rewrite (mem_slice_rest okp).
Qed.

(** ** [InsertInto] *)

(** The entries of the operations of a batch. *)
Definition entry_of (seq : Z) (o : op) : entry :=
  match o with
  | OpPut k v => Entry seq kTypeValue k v
  | OpDelete k => Entry seq kTypeDeletion k []
  end.

Fixpoint entries_of (seq : Z) (ops : list op) : list entry :=
  match ops with
  | [] => []
  | o :: ops => entry_of seq o :: entries_of (seq + 1) ops
  end.

Definition op_key (o : op) : Slice := match o with OpPut k _ | OpDelete k => k end.

(** Operations whose entries fit. *)
Definition op_fits (o : op) : Prop := op_ok o ∧ okp (op_key o) ∧ size (op_key o) + 8 < 2 ^ 32.

Lemma entry_of_ok seq o : 0 <= seq <= kMaxSequenceNumber -> op_fits o -> entry_ok okp (entry_of seq o).
Proof.
  intros Hs (Ho & Hk & Hsz). destruct o as [k v|k]; simpl in *; split; simpl; try done; try tauto.
Qed.

Lemma inserter_run `{NewChar} others m h seq ops :
  mem_holds m h -> Forall (fun e => e_seq e < seq) h -> Forall op_fits ops ->
  0 <= seq -> seq + Z.of_nat (length ops) <= kMaxSequenceNumber + 1 ->
  match (foldl (run_op (MemTableInserter others uc)) (seq, Some m) ops).2 with
  | Some m' => mem_holds m' (h ++ entries_of seq ops)
  | None => ∃ live n, new_char live n = None
  end.
Proof.
  intros Hm Hlt Hops Hs. revert m h seq Hm Hlt Hs. induction Hops as [|o ops Ho Hops IH]; intros m h seq Hm Hlt Hs Hmax; simpl.
  { by rewrite app_nil_r. }
  assert (kMaxSequenceNumber < 2 ^ 56) by done. simpl in Hmax.
  assert (entry_ok okp (entry_of seq o)) as He by (apply entry_of_ok; [lia|done]).
  assert (run_op (MemTableInserter others uc) (seq, Some m) o = (seq + 1,
    LdbMemTable.Add others uc (e_seq (entry_of seq o)) (e_type (entry_of seq o)) (e_key (entry_of seq o)) (e_value (entry_of seq o)) m)) as ->.
  { destruct o; simpl; rewrite u64_small by lia; done. }
  assert (e_seq (entry_of seq o) = seq) as Es by by destruct o.
  assert (e_seq (entry_of seq o) ∉ e_seq <$> h) as Hnew.
  { rewrite Es. intros (e & -> & He')%list_elem_of_fmap. rewrite Forall_forall in Hlt. specialize (Hlt e He'). simpl in Hlt. lia. }
  destruct (LdbMemTable.Add _ _ _ _ _ _ m) as [m1|] eqn:Ha.
  - pose proof (Add_holds others m h _ m1 Hm He Hnew Ha) as Hm1.
    replace (h ++ entry_of seq o :: entries_of (seq + 1) ops) with ((h ++ [entry_of seq o]) ++ entries_of (seq + 1) ops)
      by by rewrite <- app_assoc.
    apply IH; [done| |lia|lia]. apply Forall_app. split; [|by repeat constructor; rewrite Es; lia].
    eapply Forall_impl; [done|]. simpl. lia.
  - assert ((foldl (run_op (MemTableInserter others uc)) (seq + 1, None) ops).2 = None) as ->.
    { generalize (seq + 1). clear. induction ops as [|o ops IH]; intros q; [done|]. simpl. destruct o; apply IH. }
    by eapply Add_throws.
Qed.

Lemma InsertInto_holds `{NewChar} others m h b seq ops :
  mem_holds m h -> Forall (fun e => e_seq e < seq) h -> holds_ops b seq ops -> Forall op_fits ops ->
  seq + Z.of_nat (length ops) <= kMaxSequenceNumber + 1 ->
  ∃ mo, InsertInto others uc b m = (Status_OK, mo) ∧
    match mo with
    | Some m' => mem_holds m' (h ++ entries_of seq ops)
    | None => ∃ live n, new_char live n = None
    end.
Proof.
  intros Hm Hlt Hb Hops Hmax. unfold InsertInto. pose proof (ho_seq _ _ _ Hb) as Hs.
  assert (Sequence b = seq) as ->.
  { destruct Hb as [-> ? ?]. unfold Sequence. by apply DecodeFixed64_encode. }
  rewrite (Iterate_holds _ b seq ops) by (done || by eapply Forall_impl; [done|]; intros ? [? _]).
  pose proof (inserter_run others m h seq ops Hm Hlt Hops ltac:(unfold is_u64 in Hs; lia) Hmax) as Hr.
  destruct (foldl _ _ ops) as [q mo]. exists mo. split; [done|]. exact Hr.
Qed.

End Table.

(** ** The contract of the memtable *)

(** C2. A lookup of user key [u] at snapshot [s] in a memtable that holds the
    history [h] ends and gives what the history says: the value of the newest
    entry on [u] that is not newer than [s], a NotFound status when that
    entry is a deletion, and "not here" with the outputs untouched when there
    is none.  For every comparator that keeps the contract of comparator.h. *)
Theorem memtable_get (uc : Comparator) (okp : Slice -> Prop) `{!ComparatorLaws uc okp}
    (m : MemTable) (h : list entry) (u : Slice) (s : Z) (value : Slice) (st : Status) :
  mem_holds uc okp m h -> NoDup (e_seq <$> h) -> okp u -> Forall is_u8 u -> size u + 8 < 2 ^ 32 ->
  0 <= s <= kMaxSequenceNumber ->
  Get uc m (LookupKey_new u s) value st = Some (answer (newest uc u s h) value st).
Proof. by apply Get_holds. Qed.

(** C18. Inserting a batch with sequence number [seq] into a memtable adds its
    operations, in order, under the sequence numbers [seq], [seq + 1], ...;
    the status is OK and the only way to fail is an allocation that throws. *)
Theorem memtable_batch `{NewChar} (uc : Comparator) (okp : Slice -> Prop) `{!ComparatorLaws uc okp}
    (others : list region) (m : MemTable) (h : list entry) (b : WriteBatch) (seq : Z) (ops : list op) :
  mem_holds uc okp m h -> Forall (fun e => e_seq e < seq) h -> holds_ops b seq ops ->
  Forall (op_fits okp) ops -> seq + Z.of_nat (length ops) <= kMaxSequenceNumber + 1 ->
  ∃ mo, InsertInto others uc b m = (Status_OK, mo) ∧
    match mo with
    | Some m' => mem_holds uc okp m' (h ++ entries_of seq ops)
    | None => ∃ live n, new_char live n = None
    end.
Proof. by apply InsertInto_holds. Qed.

(** *** A small memtable: put, overwrite, delete another key *)

#[local] Existing Instance bump_new.

Definition small_ops : list op := [OpPut [97] [1]; OpPut [97] [2]; OpDelete [98]].
Definition small_batch : WriteBatch := SetSequence (foldl add_op batch_Clear small_ops) 10.
Definition small_empty : MemTable := default (MkMemTable 0 Arena_new (SkipList_new [])) (MemTable_new []).
Definition small_table : MemTable := default small_empty (InsertInto [] BytewiseComparator small_batch small_empty).2.

Lemma small_batch_holds : holds_ops small_batch 10 small_ops.
Proof.
  eapply SetSequence_holds; [|unfold is_u64; lia].
  apply (add_ops_holds batch_Clear 0 []); [apply batch_Clear_holds|done].
Qed.

Lemma small_ops_fit : Forall (op_fits (Forall is_u8)) small_ops.
Proof.
  repeat constructor; simpl; unfold is_u8; try lia;
    try (repeat constructor; unfold is_u8; lia); try done.
Qed.

Lemma small_empty_holds : mem_holds BytewiseComparator (Forall is_u8) small_empty [].
Proof. apply (MemTable_new_holds _ _ []). vm_compute. reflexivity. Qed.

Lemma small_table_holds :
  mem_holds BytewiseComparator (Forall is_u8) small_table (entries_of 10 small_ops).
Proof.
  destruct (InsertInto_holds BytewiseComparator (Forall is_u8) [] small_empty [] small_batch 10 small_ops)
    as (mo & E & Hm); [apply small_empty_holds|done|apply small_batch_holds|apply small_ops_fit|done|].
  destruct mo as [m'|].
  - unfold small_table. by rewrite E.
  - assert (is_Some (InsertInto [] BytewiseComparator small_batch small_empty).2) as Hsome by (vm_compute; eauto).
    rewrite E in Hsome. by destruct Hsome.
Qed.

Lemma memtable_get_witness :
  Get BytewiseComparator small_table (LookupKey_new [97] 10) [] Status_OK = Some (true, [1], Status_OK).
Proof.
  rewrite (memtable_get BytewiseComparator (Forall is_u8) small_table (entries_of 10 small_ops) [97] 10 [] Status_OK);
    [reflexivity|apply small_table_holds| |repeat constructor; unfold is_u8; lia..|done|done].
  apply (bool_decide_unpack _). vm_compute. exact I.
Defined.

Lemma memtable_batch_witness :
  ∃ mo, InsertInto [] BytewiseComparator small_batch small_empty = (Status_OK, mo).
Proof.
  destruct (memtable_batch BytewiseComparator (Forall is_u8) [] small_empty [] small_batch 10 small_ops)
    as (mo & E & _); [apply small_empty_holds|done|apply small_batch_holds|apply small_ops_fit|done|].
  by exists mo.
Defined.
