(* ===== verification/LdbVersionEdit.v ===== *)
(** * leveldb: printing and parsing numbers and strings (logging.h,
      logging.cc)

    [snprintf] is modelled for the formats the code uses: [%llu], [%06llu]
    and [%02x]. *)

From S2P Require Import Prelude.
From S2P Require Import LdbSlice.
From S2P Require Import LdbCoding.
From S2P Require Import LdbFormat.

Definition AppendNumberTo (dst : Slice) (num : Z) : Slice := dst ++ decimal num.

Definition hex_digit (v : Z) : Z := if v <? 10 then 48 + v else 87 + v.

Definition escaped_byte (c : Z) : Slice :=
  if (32 <=? c) && (c <=? 126) then [c]
  else [92; 120; hex_digit (Z.land c 0xff / 16); hex_digit (Z.land c 0xff mod 16)].

Fixpoint AppendEscapedStringTo (dst value : Slice) : Slice :=
  match value with
  | [] => dst
  | c :: value => AppendEscapedStringTo (dst ++ escaped_byte c) value
  end.

Definition NumberToString (num : Z) : Slice := AppendNumberTo [] num.
Definition EscapeString (value : Slice) : Slice := AppendEscapedStringTo [] value.

Definition kMaxUint64 : Z := 2 ^ 64 - 1.
Definition kLastDigitOfMaxUint64 : Z := 48 + kMaxUint64 mod 10.

(** The loop: [None] on overflow, otherwise the value and the bytes at
    [current]. *)
Fixpoint consume_loop (current : Slice) (value : Z) : option (Z * Slice) :=
  match current with
  | [] => Some (value, [])
  | ch :: current' =>
      if (ch <? 48) || (57 <? ch) then Some (value, current)
      else if (kMaxUint64 / 10 <? value) || ((value =? kMaxUint64 / 10) && (kLastDigitOfMaxUint64 <? ch)) then None
      else consume_loop current' (u64 (value * 10 + (ch - 48)))
  end.

(** The flag with the new [*in]; the value when it was assigned. *)
Definition ConsumeDecimalNumber (input : Slice) : bool * Slice * option Z :=
  match consume_loop input 0 with
  | None => (false, input, None)
  | Some (value, rest) =>
      let digits_consumed := (length input - length rest)%nat in
      (negb (digits_consumed =? 0)%nat, rest, Some value)
  end.

(** ** Reading back a number *)

Definition is_digit (c : Z) : Prop := 48 <= c <= 57.

Definition digits_value (ds : Slice) (v : Z) : Z := foldl (fun v c => v * 10 + (c - 48)) v ds.

Lemma digits_value_ge ds v : Forall is_digit ds -> 0 <= v -> v <= digits_value ds v.
Proof.
  intros Hd. revert v; induction Hd as [|c ds Hc Hd IH]; intros v Hv; [done|].
  unfold is_digit in Hc. change (digits_value (c :: ds) v) with (digits_value ds (v * 10 + (c - 48))).
  specialize (IH (v * 10 + (c - 48)) ltac:(lia)). lia.
Qed.

Definition stops (rest : Slice) : Prop := match rest with c :: _ => ¬ is_digit c | [] => True end.

Lemma consume_stop rest v : stops rest -> consume_loop rest v = Some (v, rest).
Proof.
  destruct rest as [|c rest]; [done|]. intros Hs. simpl. unfold stops, is_digit in Hs.
  destruct (Z.ltb_spec c 48); [done|]. destruct (Z.ltb_spec 57 c); [done|]. lia.
Qed.

(** The overflow test is exact. *)
Lemma consume_loop_digits ds rest v :
  Forall is_digit ds -> stops rest -> 0 <= v < 2 ^ 64 ->
  consume_loop (ds ++ rest) v =
  if digits_value ds v <? 2 ^ 64 then Some (digits_value ds v, rest) else None.
Proof.
  intros Hd Hr. revert v; induction Hd as [|c ds Hc Hd IH]; intros v Hv.
  { cbn [app digits_value foldl]. rewrite consume_stop by done. destruct (Z.ltb_spec v (2 ^ 64)); [done|lia]. }
  unfold is_digit in Hc. cbn [app consume_loop].
  destruct (Z.ltb_spec c 48); [lia|]. destruct (Z.ltb_spec 57 c); [lia|]. cbn [orb].
  change (kMaxUint64 / 10) with 1844674407370955161. change kLastDigitOfMaxUint64 with 53.
  change (digits_value (c :: ds) v) with (digits_value ds (v * 10 + (c - 48))).
  destruct (Z.ltb_spec 1844674407370955161 v); cbn [orb].
  { pose proof (digits_value_ge ds (v * 10 + (c - 48)) Hd ltac:(lia)).
    destruct (Z.ltb_spec (digits_value ds (v * 10 + (c - 48))) (2 ^ 64)); [lia|done]. }
  destruct (Z.eqb_spec v 1844674407370955161); destruct (Z.ltb_spec 53 c); cbn [andb].
  { pose proof (digits_value_ge ds (v * 10 + (c - 48)) Hd ltac:(lia)).
    destruct (Z.ltb_spec (digits_value ds (v * 10 + (c - 48))) (2 ^ 64)); [lia|done]. }
  all: rewrite u64_small by lia; apply IH; lia.
Qed.

Lemma ConsumeDecimalNumber_digits ds rest :
  Forall is_digit ds -> stops rest -> ds ≠ [] ->
  ConsumeDecimalNumber (ds ++ rest) =
  if digits_value ds 0 <? 2 ^ 64 then (true, rest, Some (digits_value ds 0)) else (false, ds ++ rest, None).
Proof.
  intros Hd Hr Hne. unfold ConsumeDecimalNumber. rewrite consume_loop_digits by (done || lia).
  case_if; [|done]. rewrite length_app. destruct ds as [|c ds]; [done|].
  destruct (Nat.eqb_spec (length (c :: ds) + length rest - length rest) 0) as [E|]; [simpl in E; lia|done].
Qed.

Lemma digits_value_app ds ds' v : digits_value (ds ++ ds') v = digits_value ds' (digits_value ds v).
Proof. apply foldl_app. Qed.

Lemma decimal_digits_spec n v :
  0 <= v < 10 ^ Z.of_nat n -> (0 < n)%nat ->
  Forall is_digit (decimal_digits n v) ∧ digits_value (decimal_digits n v) 0 = v ∧ decimal_digits n v ≠ [].
Proof.
  revert v; induction n as [|n IH]; intros v Hv Hn; [lia|]. cbn [decimal_digits].
  destruct (Z.ltb_spec v 10).
  - split_and!; [repeat constructor; unfold is_digit; lia| |done]. unfold digits_value. simpl. lia.
  - assert (0 < n)%nat. { destruct n; [simpl in Hv; lia|lia]. }
    replace (Z.of_nat (S n)) with (Z.of_nat n + 1) in Hv by lia. rewrite Z.pow_add_r in Hv by lia.
    destruct (IH (v / 10)) as (Hd & Hval & Hne); [|done|].
    { split; [apply Z.div_pos; lia|]. apply Z.div_lt_upper_bound; lia. }
    pose proof (Z.mod_pos_bound v 10 ltac:(lia)).
    split_and!.
    + apply Forall_app. split; [done|]. repeat constructor; unfold is_digit; lia.
    + rewrite digits_value_app, Hval. unfold digits_value. simpl. pose proof (Z_div_mod_eq_full v 10). lia.
    + by destruct (decimal_digits n (v / 10)).
Qed.

Lemma decimal_spec v :
  is_u64 v -> Forall is_digit (decimal v) ∧ digits_value (decimal v) 0 = v ∧ decimal v ≠ [].
Proof. unfold is_u64. intros Hv. apply decimal_digits_spec; [|lia]. simpl. lia. Qed.

Lemma ConsumeDecimalNumber_print v rest :
  is_u64 v -> stops rest -> ConsumeDecimalNumber (NumberToString v ++ rest) = (true, rest, Some v).
Proof.
  intros Hv Hr. destruct (decimal_spec v Hv) as (Hd & Hval & Hne). unfold NumberToString, AppendNumberTo. simpl.
  rewrite ConsumeDecimalNumber_digits, Hval by done. unfold is_u64 in Hv. destruct (Z.ltb_spec v (2 ^ 64)); [done|lia].
Qed.

(** Escaping only leaves printable characters. *)
Lemma EscapeString_printable s : Forall is_u8 s -> Forall (fun c => 32 <= c <= 126) (EscapeString s).
Proof.
  unfold EscapeString. intros Hs.
  assert (∀ dst, Forall (fun c => 32 <= c <= 126) dst -> Forall (fun c => 32 <= c <= 126) (AppendEscapedStringTo dst s)) as K;
    [|by apply K].
  induction Hs as [|c s Hc Hs IH]; intros dst Hd; [done|]. simpl. apply IH, Forall_app. split; [done|].
  unfold escaped_byte. destruct (_ && _) eqn:E; [bool_to_prop; repeat constructor; lia|].
  rewrite land_255. unfold is_u8 in Hc. rewrite Z.mod_small by lia.
  assert (0 <= c / 16 < 16) by (split; [apply Z.div_pos; lia|apply Z.div_lt_upper_bound; lia]).
  pose proof (Z.mod_pos_bound c 16 ltac:(lia)).
  unfold hex_digit. repeat constructor; repeat case_if; lia.
Qed.

(** * leveldb: version edits (version_edit.h, version_edit.cc)

    The records of the manifest: which files each level gains and loses, and
    the counters of the database.  An [InternalKey] is its string [rep_]; the
    set of deleted files is the sorted list a [std::set] iterates over.
    Reading returns the edit with the status, since a failed [DecodeFrom]
    leaves what it had read. *)

Record FileMetaData := MkFileMetaData {
  file_refs : Z;
  allowed_seeks : Z;
  file_number : Z;
  file_size : Z;
  smallest : Slice;
  largest : Slice;
}.

(** [FileMetaData f] with its fields assigned. *)
Definition FileMetaData_new (number size : Z) (small large : Slice) : FileMetaData :=
  MkFileMetaData 0 (Z.shiftl 1 30) number size small large.

Record VersionEdit := MkVersionEdit {
  comparator_ : Slice;
  log_number_ : Z;
  prev_log_number_ : Z;
  next_file_number_ : Z;
  last_sequence_ : Z;
  has_comparator_ : bool;
  has_log_number_ : bool;
  has_prev_log_number_ : bool;
  has_next_file_number_ : bool;
  has_last_sequence_ : bool;
  compact_pointers_ : list (Z * Slice);
  deleted_files_ : list (Z * Z);
  new_files_ : list (Z * FileMetaData);
}.

(** [Clear] does not touch the compaction pointers. *)
Definition Clear (e : VersionEdit) : VersionEdit :=
  MkVersionEdit [] 0 0 0 0 false false false false false (compact_pointers_ e) [] [].

(** The constructor: empty vectors, then [Clear]. *)
Definition VersionEdit_new : VersionEdit :=
  Clear (MkVersionEdit [] 0 0 0 0 false false false false false [] [] []).

Definition SetComparatorName (name : Slice) (e : VersionEdit) : VersionEdit :=
  MkVersionEdit name (log_number_ e) (prev_log_number_ e) (next_file_number_ e) (last_sequence_ e)
    true (has_log_number_ e) (has_prev_log_number_ e) (has_next_file_number_ e) (has_last_sequence_ e)
    (compact_pointers_ e) (deleted_files_ e) (new_files_ e).

Definition SetLogNumber (num : Z) (e : VersionEdit) : VersionEdit :=
  MkVersionEdit (comparator_ e) num (prev_log_number_ e) (next_file_number_ e) (last_sequence_ e)
    (has_comparator_ e) true (has_prev_log_number_ e) (has_next_file_number_ e) (has_last_sequence_ e)
    (compact_pointers_ e) (deleted_files_ e) (new_files_ e).

Definition SetPrevLogNumber (num : Z) (e : VersionEdit) : VersionEdit :=
  MkVersionEdit (comparator_ e) (log_number_ e) num (next_file_number_ e) (last_sequence_ e)
    (has_comparator_ e) (has_log_number_ e) true (has_next_file_number_ e) (has_last_sequence_ e)
    (compact_pointers_ e) (deleted_files_ e) (new_files_ e).

Definition SetNextFile (num : Z) (e : VersionEdit) : VersionEdit :=
  MkVersionEdit (comparator_ e) (log_number_ e) (prev_log_number_ e) num (last_sequence_ e)
    (has_comparator_ e) (has_log_number_ e) (has_prev_log_number_ e) true (has_last_sequence_ e)
    (compact_pointers_ e) (deleted_files_ e) (new_files_ e).

Definition SetLastSequence (seq : Z) (e : VersionEdit) : VersionEdit :=
  MkVersionEdit (comparator_ e) (log_number_ e) (prev_log_number_ e) (next_file_number_ e) seq
    (has_comparator_ e) (has_log_number_ e) (has_prev_log_number_ e) (has_next_file_number_ e) true
    (compact_pointers_ e) (deleted_files_ e) (new_files_ e).

(** The three containers. *)
Definition with_lists (e : VersionEdit) (ptrs : list (Z * Slice)) (del : list (Z * Z))
    (files : list (Z * FileMetaData)) : VersionEdit :=
  MkVersionEdit (comparator_ e) (log_number_ e) (prev_log_number_ e) (next_file_number_ e) (last_sequence_ e)
    (has_comparator_ e) (has_log_number_ e) (has_prev_log_number_ e) (has_next_file_number_ e) (has_last_sequence_ e)
    ptrs del files.

Definition SetCompactPointer (level : Z) (key : Slice) (e : VersionEdit) : VersionEdit :=
  with_lists e (compact_pointers_ e ++ [(level, key)]) (deleted_files_ e) (new_files_ e).

Definition push_file (level : Z) (f : FileMetaData) (e : VersionEdit) : VersionEdit :=
  with_lists e (compact_pointers_ e) (deleted_files_ e) (new_files_ e ++ [(level, f)]).

Definition AddFile (level file size : Z) (small large : Slice) (e : VersionEdit) : VersionEdit :=
  push_file level (FileMetaData_new file size small large) e.

(** [std::set<std::pair<int, uint64_t>>::insert]. *)
Definition pair_lt (x y : Z * Z) : bool := (x.1 <? y.1) || ((x.1 =? y.1) && (x.2 <? y.2)).

Fixpoint set_insert (x : Z * Z) (s : list (Z * Z)) : list (Z * Z) :=
  match s with
  | [] => [x]
  | y :: s' => if pair_lt x y then x :: s else if pair_lt y x then y :: set_insert x s' else s
  end.

Definition DeleteFile (level file : Z) (e : VersionEdit) : VersionEdit :=
  with_lists e (compact_pointers_ e) (set_insert (level, file) (deleted_files_ e)) (new_files_ e).

(** ** Writing *)

Definition kComparator : Z := 1.
Definition kLogNumber : Z := 2.
Definition kNextFileNumber : Z := 3.
Definition kLastSequence : Z := 4.
Definition kCompactPointer : Z := 5.
Definition kDeletedFile : Z := 6.
Definition kNewFile : Z := 7.
Definition kPrevLogNumber : Z := 9.

Definition put_compact_pointer (dst : Slice) (p : Z * Slice) : Slice :=
  let dst := PutVarint32 dst kCompactPointer in
  let dst := PutVarint32 dst (u32 p.1) in
  PutLengthPrefixedSlice dst p.2.

Definition put_deleted_file (dst : Slice) (p : Z * Z) : Slice :=
  let dst := PutVarint32 dst kDeletedFile in
  let dst := PutVarint32 dst (u32 p.1) in
  PutVarint64 dst p.2.

Definition put_new_file (dst : Slice) (p : Z * FileMetaData) : Slice :=
  let f := p.2 in
  let dst := PutVarint32 dst kNewFile in
  let dst := PutVarint32 dst (u32 p.1) in
  let dst := PutVarint64 dst (file_number f) in
  let dst := PutVarint64 dst (file_size f) in
  let dst := PutLengthPrefixedSlice dst (smallest f) in
  PutLengthPrefixedSlice dst (largest f).

Definition EncodeTo (e : VersionEdit) (dst : Slice) : Slice :=
  let dst := if has_comparator_ e then PutLengthPrefixedSlice (PutVarint32 dst kComparator) (comparator_ e) else dst in
  let dst := if has_log_number_ e then PutVarint64 (PutVarint32 dst kLogNumber) (log_number_ e) else dst in
  let dst := if has_prev_log_number_ e then PutVarint64 (PutVarint32 dst kPrevLogNumber) (prev_log_number_ e) else dst in
  let dst := if has_next_file_number_ e then PutVarint64 (PutVarint32 dst kNextFileNumber) (next_file_number_ e) else dst in
  let dst := if has_last_sequence_ e then PutVarint64 (PutVarint32 dst kLastSequence) (last_sequence_ e) else dst in
  let dst := foldl put_compact_pointer dst (compact_pointers_ e) in
  let dst := foldl put_deleted_file dst (deleted_files_ e) in
  foldl put_new_file dst (new_files_ e).

(** ** Reading *)

Definition GetInternalKey (input : Slice) : option (Slice * Slice) := GetLengthPrefixedSlice input.

Definition GetLevel (input : Slice) : option (Z * Slice) :=
  match GetVarint32 input with
  | Some (v, input) => if v <? kNumLevels then Some (v, input) else None
  | None => None
  end.

(** One round of the loop after the tag: the message, or the edit and the
    rest of the input. *)
Definition decode_edit_field (e : VersionEdit) (tag : Z) (input : Slice) : string + VersionEdit * Slice :=
  if tag =? kComparator then
    match GetLengthPrefixedSlice input with
    | Some (name, input) => inr (SetComparatorName name e, input)
    | None => inl "comparator name"%string
    end
  else if tag =? kLogNumber then
    match GetVarint64 input with
    | Some (n, input) => inr (SetLogNumber n e, input)
    | None => inl "log number"%string
    end
  else if tag =? kPrevLogNumber then
    match GetVarint64 input with
    | Some (n, input) => inr (SetPrevLogNumber n e, input)
    | None => inl "previous log number"%string
    end
  else if tag =? kNextFileNumber then
    match GetVarint64 input with
    | Some (n, input) => inr (SetNextFile n e, input)
    | None => inl "next file number"%string
    end
  else if tag =? kLastSequence then
    match GetVarint64 input with
    | Some (n, input) => inr (SetLastSequence n e, input)
    | None => inl "last sequence number"%string
    end
  else if tag =? kCompactPointer then
    match ('(level, input) ← GetLevel input; '(key, input) ← GetInternalKey input; Some (level, key, input)) with
    | Some (level, key, input) => inr (SetCompactPointer level key e, input)
    | None => inl "compaction pointer"%string
    end
  else if tag =? kDeletedFile then
    match ('(level, input) ← GetLevel input; '(number, input) ← GetVarint64 input; Some (level, number, input)) with
    | Some (level, number, input) => inr (DeleteFile level number e, input)
    | None => inl "deleted file"%string
    end
  else if tag =? kNewFile then
    match ('(level, input) ← GetLevel input; '(number, input) ← GetVarint64 input;
           '(fsize, input) ← GetVarint64 input; '(small, input) ← GetInternalKey input;
           '(large, input) ← GetInternalKey input;
           Some (level, FileMetaData_new number fsize small large, input)) with
    | Some (level, f, input) => inr (push_file level f e, input)
    | None => inl "new-file entry"%string
    end
  else inl "unknown tag"%string.

(** The loop; every round reads a tag, so the length of the input bounds the
    rounds. *)
Fixpoint decode_loop (n : nat) (e : VersionEdit) (input : Slice) : option string * VersionEdit * Slice :=
  match n with
  | O => (None, e, input)
  | S n =>
      match GetVarint32 input with
      | None => (None, e, input)
      | Some (tag, input) =>
          match decode_edit_field e tag input with
          | inl msg => (Some msg, e, input)
          | inr (e, input) => decode_loop n e input
          end
      end
  end.

Definition DecodeFrom (e : VersionEdit) (src : Slice) : Status * VersionEdit :=
  let e := Clear e in
  let '(msg, e, input) := decode_loop (length src) e src in
  let msg := match msg, input with
             | None, _ :: _ => Some "invalid tag"%string
             | _, _ => msg
             end in
  match msg with
  | Some msg => (Status_Corruption "VersionEdit" (str msg), e)
  | None => (Status_OK, e)
  end.

(** ** [DebugString] *)

Definition ParsedInternalKey_DebugString (k : ParsedInternalKey) : Slice :=
  str "'" ++ EscapeString (user_key k) ++ str "' @ " ++ decimal (sequence k) ++ str " : " ++
  decimal (type_value (type k)).

Definition InternalKey_DebugString (rep_ : Slice) : Slice :=
  match ParseInternalKey rep_ with
  | Some parsed => ParsedInternalKey_DebugString parsed
  | None => str "(bad)" ++ EscapeString rep_
  end.

(** A line break and two spaces, as every line starts. *)
Definition debug_line (label : string) : Slice := 10 :: str "  " ++ str label.

Definition debug_field (has : bool) (label : string) (v : Slice) : Slice :=
  if has then debug_line label ++ v else [].

Definition debug_file (p : Z * FileMetaData) : Slice :=
  let f := p.2 in
  debug_line "AddFile: " ++ decimal (u64 p.1) ++ str " " ++ decimal (file_number f) ++ str " " ++
  decimal (file_size f) ++ str " " ++ InternalKey_DebugString (smallest f) ++ str " .. " ++
  InternalKey_DebugString (largest f).

Definition VersionEdit_DebugString (e : VersionEdit) : Slice :=
  str "VersionEdit {" ++
  debug_field (has_comparator_ e) "Comparator: " (comparator_ e) ++
  debug_field (has_log_number_ e) "LogNumber: " (decimal (log_number_ e)) ++
  debug_field (has_prev_log_number_ e) "PrevLogNumber: " (decimal (prev_log_number_ e)) ++
  debug_field (has_next_file_number_ e) "NextFile: " (decimal (next_file_number_ e)) ++
  debug_field (has_last_sequence_ e) "LastSeq: " (decimal (last_sequence_ e)) ++
  concat ((fun p => debug_line "CompactPointer: " ++ decimal (u64 p.1) ++ str " " ++ InternalKey_DebugString p.2) <$>
            compact_pointers_ e) ++
  concat ((fun p => debug_line "DeleteFile: " ++ decimal (u64 p.1) ++ str " " ++ decimal p.2) <$> deleted_files_ e) ++
  concat (debug_file <$> new_files_ e) ++
  [10] ++ str "}" ++ [10].
