(* ===== verification/LdbVersionEditThms.v ===== *)
(** * leveldb: version edits survive the manifest

    An edit is written as a sequence of fields, and reading one back applies
    the fields in turn; whatever is read from a file, the edit that results
    is well formed: its levels exist, its set of deleted files is a set. *)

From S2P Require Import Prelude.
From S2P Require Import VarintSpec.
From S2P Require Import LdbSlice.
From S2P Require Import LdbCoding.
From S2P Require Import LdbFormat.
From S2P Require Import LdbVersionEdit.
From Stdlib Require Import Sorting.Sorted.

(** ** Fields *)

Inductive field :=
  | FComparator (name : Slice)
  | FLogNumber (n : Z)
  | FPrevLogNumber (n : Z)
  | FNextFile (n : Z)
  | FLastSequence (n : Z)
  | FCompactPointer (level : Z) (key : Slice)
  | FDeletedFile (level file : Z)
  | FNewFile (level number size : Z) (small large : Slice).

Definition field_tag (f : field) : Z :=
  match f with
  | FComparator _ => kComparator
  | FLogNumber _ => kLogNumber
  | FPrevLogNumber _ => kPrevLogNumber
  | FNextFile _ => kNextFileNumber
  | FLastSequence _ => kLastSequence
  | FCompactPointer _ _ => kCompactPointer
  | FDeletedFile _ _ => kDeletedFile
  | FNewFile _ _ _ _ _ => kNewFile
  end.

Definition field_payload (f : field) : Slice :=
  match f with
  | FComparator name => prefixed name
  | FLogNumber n | FPrevLogNumber n | FNextFile n | FLastSequence n => EncodeVarint64 n
  | FCompactPointer level key => EncodeVarint32 (u32 level) ++ prefixed key
  | FDeletedFile level file => EncodeVarint32 (u32 level) ++ EncodeVarint64 file
  | FNewFile level number size small large =>
      EncodeVarint32 (u32 level) ++ EncodeVarint64 number ++ EncodeVarint64 size ++ prefixed small ++ prefixed large
  end.

Definition enc_field (f : field) : Slice := EncodeVarint32 (field_tag f) ++ field_payload f.

Definition apply_field (e : VersionEdit) (f : field) : VersionEdit :=
  match f with
  | FComparator name => SetComparatorName name e
  | FLogNumber n => SetLogNumber n e
  | FPrevLogNumber n => SetPrevLogNumber n e
  | FNextFile n => SetNextFile n e
  | FLastSequence n => SetLastSequence n e
  | FCompactPointer level key => SetCompactPointer level key e
  | FDeletedFile level file => DeleteFile level file e
  | FNewFile level number size small large => AddFile level number size small large e
  end.

Definition str_ok (k : Slice) : Prop := Forall is_u8 k ∧ size k < 2 ^ 32.
Definition level_ok (level : Z) : Prop := 0 <= level < kNumLevels.

Definition field_ok (f : field) : Prop :=
  match f with
  | FComparator name => str_ok name
  | FLogNumber n | FPrevLogNumber n | FNextFile n | FLastSequence n => is_u64 n
  | FCompactPointer level key => level_ok level ∧ str_ok key
  | FDeletedFile level file => level_ok level ∧ is_u64 file
  | FNewFile level number size small large =>
      level_ok level ∧ is_u64 number ∧ is_u64 size ∧ str_ok small ∧ str_ok large
  end.

Lemma level_u32 level : level_ok level -> is_u32 level ∧ u32 level = level.
Proof. unfold level_ok, kNumLevels, is_u32. intros H. split; [lia|]. apply u32_small. lia. Qed.

Lemma GetLevel_put level rest :
  level_ok level -> Forall is_u8 rest -> GetLevel (EncodeVarint32 (u32 level) ++ rest) = Some (level, rest).
Proof.
  intros Hl Hr. destruct (level_u32 level Hl) as [Hu ->]. unfold GetLevel. rewrite GetVarint32_put by done.
  unfold level_ok in Hl. destruct (Z.ltb_spec level kNumLevels); [done|lia].
Qed.

(** The bytes of the encoders. *)
Ltac bytes_of :=
  repeat match goal with
  | |- Forall is_u8 (_ ++ _) => apply Forall_app; split
  | |- Forall is_u8 (EncodeVarint32 (u32 _)) => apply EncodeVarint32_u8, u32_is_u32
  | |- Forall is_u8 (EncodeVarint64 _) => apply EncodeVarint64_u8
  | |- Forall is_u8 (prefixed _) => apply prefixed_u8
  end.

Lemma field_payload_u8 f : field_ok f -> Forall is_u8 (field_payload f).
Proof.
  destruct f; simpl; unfold str_ok; intros H; bytes_of; tauto.
Qed.

Lemma field_tag_u32 f : is_u32 (field_tag f).
Proof. destruct f; unfold is_u32, field_tag; vm_compute; split; congruence. Qed.

Lemma enc_field_u8 f : field_ok f -> Forall is_u8 (enc_field f).
Proof.
  intros Hf. apply Forall_app. split; [apply EncodeVarint32_u8, field_tag_u32|by apply field_payload_u8].
Qed.

Lemma fields_u8 fs : Forall field_ok fs -> Forall is_u8 (concat (enc_field <$> fs)).
Proof. induction 1 as [|f fs Hf Hfs IH]; simpl; [done|]. apply Forall_app. split; [by apply enc_field_u8|done]. Qed.

(** Reading one field. *)
Lemma decode_edit_field_put e f rest :
  field_ok f -> Forall is_u8 rest ->
  decode_edit_field e (field_tag f) (field_payload f ++ rest) = inr (apply_field e f, rest).
Proof.
  intros Hf Hr.
  destruct f; cbn [field_tag field_payload field_ok apply_field] in *; unfold str_ok in *;
    unfold decode_edit_field; cbn [Z.eqb Pos.eqb kComparator kLogNumber kNextFileNumber kLastSequence kCompactPointer
      kDeletedFile kNewFile kPrevLogNumber].
  - by rewrite GetLengthPrefixedSlice_put by tauto.
  - by rewrite GetVarint64_put.
  - by rewrite GetVarint64_put.
  - by rewrite GetVarint64_put.
  - by rewrite GetVarint64_put.
  - destruct Hf as (Hl & Hk & Hs). rewrite <- app_assoc, GetLevel_put by (bytes_of; done).
    cbn [mbind option_bind]. unfold GetInternalKey. by rewrite GetLengthPrefixedSlice_put.
  - destruct Hf as (Hl & Hn). rewrite <- app_assoc, GetLevel_put by (bytes_of; done).
    cbn [mbind option_bind]. by rewrite GetVarint64_put.
  - destruct Hf as (Hl & Hn & Hsz & (Hs1 & Hs2) & (Hl1 & Hl2)). rewrite <- !app_assoc.
    rewrite GetLevel_put by (bytes_of; done). cbn [mbind option_bind].
    rewrite GetVarint64_put by (bytes_of; done). cbn [mbind option_bind].
    rewrite GetVarint64_put by (bytes_of; done). cbn [mbind option_bind]. unfold GetInternalKey.
    rewrite GetLengthPrefixedSlice_put by (bytes_of; done). cbn [mbind option_bind].
    by rewrite GetLengthPrefixedSlice_put.
Qed.

Lemma enc_field_pos f : (0 < length (enc_field f))%nat.
Proof. destruct f; unfold enc_field; rewrite length_app; simpl; lia. Qed.

Lemma decode_loop_fields e fs n :
  Forall field_ok fs -> (length (concat (enc_field <$> fs)) <= n)%nat ->
  decode_loop n e (concat (enc_field <$> fs)) = (None, foldl apply_field e fs, []).
Proof.
  intros Hfs. revert e n; induction Hfs as [|f fs Hf Hfs IH]; intros e n Hn.
  { by destruct n. }
  cbn [fmap list_fmap concat] in *. rewrite length_app in Hn. pose proof (enc_field_pos f).
  destruct n as [|n]; [lia|]. cbn [decode_loop]. unfold enc_field at 1. rewrite <- app_assoc.
  rewrite GetVarint32_put; [|apply field_tag_u32|apply Forall_app; split; [by apply field_payload_u8|by apply fields_u8]].
  rewrite decode_edit_field_put by first [done|by apply fields_u8]. apply IH. lia.
Qed.

(** ** What [EncodeTo] writes *)

Definition opt_field (has : bool) (f : field) : list field := if has then [f] else [].

Definition file_field (p : Z * FileMetaData) : field :=
  FNewFile p.1 (file_number p.2) (file_size p.2) (smallest p.2) (largest p.2).

Definition fields_of (e : VersionEdit) : list field :=
  opt_field (has_comparator_ e) (FComparator (comparator_ e)) ++
  opt_field (has_log_number_ e) (FLogNumber (log_number_ e)) ++
  opt_field (has_prev_log_number_ e) (FPrevLogNumber (prev_log_number_ e)) ++
  opt_field (has_next_file_number_ e) (FNextFile (next_file_number_ e)) ++
  opt_field (has_last_sequence_ e) (FLastSequence (last_sequence_ e)) ++
  ((fun p => FCompactPointer p.1 p.2) <$> compact_pointers_ e) ++
  ((fun p => FDeletedFile p.1 p.2) <$> deleted_files_ e) ++
  (file_field <$> new_files_ e).

Lemma enc_fields_app fs fs' :
  concat (enc_field <$> fs ++ fs') = concat (enc_field <$> fs) ++ concat (enc_field <$> fs').
Proof. by rewrite fmap_app, concat_app. Qed.

Lemma foldl_put {A} (put : Slice -> A -> Slice) (fld : A -> field) dst l :
  (∀ dst x, put dst x = dst ++ enc_field (fld x)) -> foldl put dst l = dst ++ concat (enc_field <$> (fld <$> l)).
Proof.
  intros Hput. revert dst; induction l as [|x l IH]; intros dst; [by rewrite app_nil_r|].
  cbn [foldl]. rewrite IH, Hput. cbn [fmap list_fmap concat]. by rewrite <- app_assoc.
Qed.

Lemma opt_put (has : bool) f dst dst' :
  dst' = dst ++ enc_field f -> (if has then dst' else dst) = dst ++ concat (enc_field <$> opt_field has f).
Proof. intros ->. destruct has; simpl; by rewrite app_nil_r. Qed.

Lemma put_number dst tag n : PutVarint64 (PutVarint32 dst tag) n = dst ++ EncodeVarint32 tag ++ EncodeVarint64 n.
Proof. unfold PutVarint64, PutVarint32. by rewrite <- app_assoc. Qed.

Lemma EncodeTo_fields e dst : EncodeTo e dst = dst ++ concat (enc_field <$> fields_of e).
Proof.
  unfold EncodeTo, fields_of. rewrite !enc_fields_app.
  rewrite (foldl_put put_new_file file_field), (foldl_put put_deleted_file (fun p => FDeletedFile p.1 p.2)),
    (foldl_put put_compact_pointer (fun p => FCompactPointer p.1 p.2)).
  - rewrite !app_assoc. do 3 f_equal.
    rewrite (opt_put (has_comparator_ e) (FComparator (comparator_ e)) dst).
    2: { rewrite PutLengthPrefixedSlice_prefixed. unfold PutVarint32, enc_field. by rewrite <- app_assoc. }
    rewrite (opt_put (has_log_number_ e) (FLogNumber (log_number_ e))) by by rewrite put_number.
    rewrite (opt_put (has_prev_log_number_ e) (FPrevLogNumber (prev_log_number_ e))) by by rewrite put_number.
    rewrite (opt_put (has_next_file_number_ e) (FNextFile (next_file_number_ e))) by by rewrite put_number.
    by rewrite (opt_put (has_last_sequence_ e) (FLastSequence (last_sequence_ e))) by by rewrite put_number.
  - intros d x. unfold put_compact_pointer, enc_field, PutVarint32. cbn [field_tag field_payload].
    rewrite PutLengthPrefixedSlice_prefixed. by rewrite <- !app_assoc.
  - intros d x. unfold put_deleted_file, enc_field, PutVarint32, PutVarint64. cbn [field_tag field_payload].
    by rewrite <- !app_assoc.
  - intros d x. unfold put_new_file, file_field, enc_field, PutVarint32, PutVarint64. cbn [field_tag field_payload].
    rewrite !PutLengthPrefixedSlice_prefixed. by rewrite <- !app_assoc.
Qed.

(** ** Well-formed edits *)

Definition unset (has : bool) (v : Z) : Prop := has = false -> v = 0.

(** A counter that is not set is zero, levels exist, the deleted files are a
    set, and a new file has the counters of a fresh [FileMetaData]. *)
Record edit_wf (e : VersionEdit) : Prop := {
  ew_comparator : str_ok (comparator_ e) ∧ (has_comparator_ e = false -> comparator_ e = []);
  ew_log : is_u64 (log_number_ e) ∧ unset (has_log_number_ e) (log_number_ e);
  ew_prev : is_u64 (prev_log_number_ e) ∧ unset (has_prev_log_number_ e) (prev_log_number_ e);
  ew_next : is_u64 (next_file_number_ e) ∧ unset (has_next_file_number_ e) (next_file_number_ e);
  ew_last : is_u64 (last_sequence_ e) ∧ unset (has_last_sequence_ e) (last_sequence_ e);
  ew_pointers : Forall (fun p => level_ok p.1 ∧ str_ok p.2) (compact_pointers_ e);
  ew_deleted : Forall (fun p => level_ok p.1 ∧ is_u64 p.2) (deleted_files_ e) ∧
    StronglySorted (fun x y => pair_lt x y = true) (deleted_files_ e);
  ew_files : Forall (fun p => field_ok (file_field p) ∧
      p.2 = FileMetaData_new (file_number p.2) (file_size p.2) (smallest p.2) (largest p.2)) (new_files_ e);
}.

Lemma pair_lt_trans x y z : pair_lt x y = true -> pair_lt y z = true -> pair_lt x z = true.
Proof. unfold pair_lt. intros. bool_to_prop. lia. Qed.

Lemma set_insert_Forall (P : Z * Z -> Prop) x s : P x -> Forall P s -> Forall P (set_insert x s).
Proof. intros Hx. induction 1 as [|y s Hy Hs IH]; simpl; [by constructor|]. repeat case_if; by repeat constructor. Qed.

Lemma set_insert_sorted x s :
  StronglySorted (fun x y => pair_lt x y = true) s -> StronglySorted (fun x y => pair_lt x y = true) (set_insert x s).
Proof.
  induction 1 as [|y s Hs IH Hf]; simpl; [by repeat constructor|].
  destruct (pair_lt x y) eqn:Exy; [|destruct (pair_lt y x) eqn:Eyx].
  - constructor; [by constructor|]. constructor; [done|]. eapply Forall_impl; [|exact Hf]. intros z Hz. by eapply pair_lt_trans.
  - constructor; [done|]. by apply set_insert_Forall.
  - by constructor.
Qed.

(** Inserting in ascending order rebuilds the list. *)
Lemma set_insert_last x s : Forall (fun y => pair_lt y x = true) s -> set_insert x s = s ++ [x].
Proof.
  induction 1 as [|y s Hy Hs IH]; simpl; [done|].
  assert (pair_lt x y = false) as -> by (unfold pair_lt in *; bool_to_prop; lia). by rewrite Hy, IH.
Qed.

(** Every field that may occur keeps an edit well formed. *)
Lemma apply_field_wf e f : edit_wf e -> field_ok f -> edit_wf (apply_field e f).
Proof.
  intros [Hc Hl Hp Hn Hs Hq [Hd1 Hd2] Hf] Ho.
  destruct f; simpl in Ho; split; simpl; try done; try (split; [done|discriminate]).
  - apply Forall_app. split; [done|]. constructor; [exact Ho|constructor].
  - split; [by apply set_insert_Forall|by apply set_insert_sorted].
  - apply Forall_app. split; [done|]. constructor; [split; [exact Ho|done]|constructor].
Qed.

Lemma apply_fields_wf e fs : edit_wf e -> Forall field_ok fs -> edit_wf (foldl apply_field e fs).
Proof. intros He Hfs. revert e He; induction Hfs as [|f fs Hf Hfs IH]; intros e He; [done|]. by apply IH, apply_field_wf. Qed.

Lemma Clear_wf e : Forall (fun p => level_ok p.1 ∧ str_ok p.2) (compact_pointers_ e) -> edit_wf (Clear e).
Proof.
  intros Hp. split; simpl; unfold unset, is_u64; try (split; [lia|done]); try done; repeat constructor; done.
Qed.

Lemma VersionEdit_new_wf : edit_wf VersionEdit_new.
Proof. apply Clear_wf. constructor. Qed.

Lemma opt_field_ok (P : field -> Prop) has f : P f -> Forall P (opt_field has f).
Proof. intros Hf. destruct has; by repeat constructor. Qed.

Lemma fields_of_ok e : edit_wf e -> Forall field_ok (fields_of e).
Proof.
  intros [[Hc _] [Hl _] [Hp _] [Hn _] [Hs _] Hq [Hd _] Hf]. unfold fields_of.
  repeat (apply Forall_app; split); try by apply opt_field_ok.
  - apply Forall_fmap. eapply Forall_impl; [|exact Hq]. by intros [].
  - apply Forall_fmap. eapply Forall_impl; [|exact Hd]. by intros [].
  - apply Forall_fmap. eapply Forall_impl; [|exact Hf]. by intros [] [].
Qed.

(** ** Round trip *)

Lemma apply_pointers e ps :
  foldl apply_field e ((fun p => FCompactPointer p.1 p.2) <$> ps)
  = with_lists e (compact_pointers_ e ++ ps) (deleted_files_ e) (new_files_ e).
Proof.
  revert e; induction ps as [|[l k] ps IH]; intros e; [rewrite app_nil_r; by destruct e|].
  cbn [fmap list_fmap foldl]. rewrite IH. simpl. unfold with_lists. by rewrite <- app_assoc.
Qed.

Lemma apply_files e fs :
  Forall (fun p => p.2 = FileMetaData_new (file_number p.2) (file_size p.2) (smallest p.2) (largest p.2)) fs ->
  foldl apply_field e (file_field <$> fs)
  = with_lists e (compact_pointers_ e) (deleted_files_ e) (new_files_ e ++ fs).
Proof.
  intros Hfs. revert e; induction Hfs as [|[l f] fs Hf Hfs IH]; intros e; [rewrite app_nil_r; by destruct e|].
  cbn [fmap list_fmap foldl]. rewrite IH. simpl in *. unfold with_lists. rewrite <- Hf, <- app_assoc. done.
Qed.

Lemma apply_deleted e ds :
  StronglySorted (fun x y => pair_lt x y = true) (deleted_files_ e ++ ds) ->
  foldl apply_field e ((fun p => FDeletedFile p.1 p.2) <$> ds)
  = with_lists e (compact_pointers_ e) (deleted_files_ e ++ ds) (new_files_ e).
Proof.
  revert e; induction ds as [|[l n] ds IH]; intros e Hs; [rewrite app_nil_r; by destruct e|].
  cbn [fmap list_fmap foldl]. simpl. unfold DeleteFile.
  assert (set_insert (l, n) (deleted_files_ e) = deleted_files_ e ++ [(l, n)]) as E.
  { apply set_insert_last. clear -Hs. induction (deleted_files_ e) as [|y s IH]; [constructor|].
    simpl in Hs. apply StronglySorted_inv in Hs as [Hs Hf]. apply Forall_app in Hf as [_ Hf].
    constructor; [|by apply IH]. by inversion Hf. }
  rewrite E, IH; simpl; unfold with_lists; simpl; rewrite <- app_assoc; done.
Qed.

Lemma apply_fields_of e0 e :
  edit_wf e ->
  foldl apply_field (Clear e0) (fields_of e)
  = with_lists e (compact_pointers_ e0 ++ compact_pointers_ e) (deleted_files_ e) (new_files_ e).
Proof.
  intros [[_ Hc] [_ Hl] [_ Hp] [_ Hn] [_ Hs] _ [_ Hd] Hf]. unfold fields_of, unset in *. rewrite !foldl_app.
  set (e1 := foldl apply_field _ (opt_field (has_last_sequence_ e) _)).
  assert (e1 = with_lists e (compact_pointers_ e0) [] []) as ->.
  { unfold e1. clear -Hc Hl Hp Hn Hs. unfold with_lists, Clear, opt_field. destruct e; simpl in *.
    destruct has_comparator_, has_log_number_, has_prev_log_number_, has_next_file_number_, has_last_sequence_;
      rewrite ?(Hc eq_refl), ?(Hl eq_refl), ?(Hp eq_refl), ?(Hn eq_refl), ?(Hs eq_refl); reflexivity. }
  rewrite apply_pointers, apply_deleted, apply_files; [done| |done].
  eapply Forall_impl; [|exact Hf]. by intros p [_ ?].
Qed.

Lemma DecodeFrom_EncodeTo e0 e :
  edit_wf e ->
  DecodeFrom e0 (EncodeTo e [])
  = (Status_OK, with_lists e (compact_pointers_ e0 ++ compact_pointers_ e) (deleted_files_ e) (new_files_ e)).
Proof.
  intros He. unfold DecodeFrom. rewrite EncodeTo_fields. cbn [app].
  rewrite decode_loop_fields by (first [by apply fields_of_ok|done]). by rewrite apply_fields_of.
Qed.

(** ** Reading arbitrary bytes *)

Lemma GetVarint64_bound p v rest :
  Forall is_u8 p -> GetVarint64 p = Some (v, rest) -> is_u64 v ∧ Forall is_u8 rest.
Proof.
  intros Hp. rewrite GetVarint64_spec by done. destruct (varint_len _); [|done]. intros [= <- <-].
  split; [apply Z.mod_pos_bound; lia|by apply Forall_drop].
Qed.

Lemma GetLevel_bound p l rest :
  Forall is_u8 p -> GetLevel p = Some (l, rest) -> level_ok l ∧ Forall is_u8 rest.
Proof.
  intros Hp. unfold GetLevel. destruct (GetVarint32 p) as [[v r]|] eqn:E; [|done].
  pose proof (GetVarint32_rest p v r Hp E) as [Hr _]. rewrite GetVarint32_spec in E by done.
  destruct (varint_len _); [|done]. injection E as <- <-. case_if; [|done]. intros [= <- <-].
  split; [|done]. pose proof (u32_is_u32 (varint_value (take n p))). unfold is_u32 in *. unfold level_ok. lia.
Qed.

Lemma GetLengthPrefixedSlice_bound p s rest :
  Forall is_u8 p -> GetLengthPrefixedSlice p = Some (s, rest) -> str_ok s ∧ Forall is_u8 rest.
Proof.
  intros Hp E. pose proof (GetLengthPrefixedSlice_rest p s rest Hp E) as (Hs & Hr & _). split; [|done]. split; [done|].
  unfold GetLengthPrefixedSlice in E. rewrite GetVarint32_spec in E by done. destruct (varint_len _); [|done].
  destruct (u32 (varint_value (take n p)) <=? _); [|done]. injection E as <- <-. pose proof (u32_is_u32 (varint_value (take n p))) as Hb. unfold is_u32 in Hb.
  unfold size. rewrite length_take. lia.
Qed.

(** Each reader in turn succeeds, with a value in its range. *)
Ltac read_with lem o :=
  let E := fresh in
  destruct o as [[? ?]|] eqn:E; [apply lem in E as [? ?]; [|done]; cbn [mbind option_bind]|done].

Ltac reads :=
  repeat match goal with
  | |- context [GetLengthPrefixedSlice ?p] => read_with GetLengthPrefixedSlice_bound (GetLengthPrefixedSlice p)
  | |- context [GetLevel ?p] => read_with GetLevel_bound (GetLevel p)
  | |- context [GetVarint64 ?p] => read_with GetVarint64_bound (GetVarint64 p)
  end.

Ltac found_field :=
  let witness f := exists f; split; [done|split; done] in
  lazymatch goal with
  | |- context [SetComparatorName ?s _] => witness (FComparator s)
  | |- context [SetLogNumber ?n _] => witness (FLogNumber n)
  | |- context [SetPrevLogNumber ?n _] => witness (FPrevLogNumber n)
  | |- context [SetNextFile ?n _] => witness (FNextFile n)
  | |- context [SetLastSequence ?n _] => witness (FLastSequence n)
  | |- context [SetCompactPointer ?l ?k _] => witness (FCompactPointer l k)
  | |- context [DeleteFile ?l ?n _] => witness (FDeletedFile l n)
  | |- context [push_file ?l (FileMetaData_new ?n ?m ?s ?b) _] => witness (FNewFile l n m s b)
  end.

(** Whatever [decode_edit_field] accepts is one of the fields. *)
Lemma decode_edit_field_sound e tag input e' rest :
  Forall is_u8 input -> decode_edit_field e tag input = inr (e', rest) ->
  ∃ f, field_ok f ∧ e' = apply_field e f ∧ Forall is_u8 rest.
Proof.
  intros Hi. unfold decode_edit_field, GetInternalKey.
  repeat case_if; try done; reads; intros [= <- <-]; found_field.
Qed.

Lemma decode_loop_sound n e input msg e' rest :
  Forall is_u8 input -> decode_loop n e input = (msg, e', rest) ->
  ∃ fs, Forall field_ok fs ∧ e' = foldl apply_field e fs.
Proof.
  revert e input; induction n as [|n IH]; intros e input Hi; cbn [decode_loop]; [intros [= <- <- <-]; by exists []|].
  destruct (GetVarint32 input) as [[tag r]|] eqn:E; [|intros [= <- <- <-]; by exists []].
  apply GetVarint32_rest in E as [Hr _]; [|done].
  destruct (decode_edit_field e tag r) as [m|[e1 r1]] eqn:Ed; [intros [= <- <- <-]; by exists []|].
  apply decode_edit_field_sound in Ed as (f & Hf & -> & Hr1); [|done]. intros Hl.
  apply IH in Hl as (fs & Hfs & ->); [|done]. exists (f :: fs). split; [by constructor|done].
Qed.

(** The result of reading: well formed on every input, and an error is the
    corruption of a version edit. *)
Lemma DecodeFrom_wf e0 src st e :
  Forall is_u8 src -> Forall (fun p => level_ok p.1 ∧ str_ok p.2) (compact_pointers_ e0) ->
  DecodeFrom e0 src = (st, e) ->
  edit_wf e ∧ (st = Status_OK ∨ ∃ msg, st = Status_Corruption "VersionEdit" (str msg)).
Proof.
  intros Hs Hp. unfold DecodeFrom. destruct (decode_loop _ _ src) as [[msg e1] rest] eqn:E.
  apply decode_loop_sound in E as (fs & Hfs & ->); [|done].
  assert (edit_wf (foldl apply_field (Clear e0) fs)) by (apply apply_fields_wf; [by apply Clear_wf|done]).
  destruct msg as [m|]; [intros [= <- <-]; eauto|]. destruct rest as [|b rest]; intros [= <- <-]; eauto.
Qed.

(** ** The manifest contract *)

(** C34. Writing an edit made by the setters and reading it back into any
    edit object succeeds and restores every field; only the compaction
    pointers of the object read into survive, in front of the ones read. *)
Theorem version_edit_roundtrip (e0 : VersionEdit) (fs : list field) :
  Forall field_ok fs ->
  let e := foldl apply_field VersionEdit_new fs in
  DecodeFrom e0 (EncodeTo e [])
  = (Status_OK, with_lists e (compact_pointers_ e0 ++ compact_pointers_ e) (deleted_files_ e) (new_files_ e)).
Proof. intros Hfs. apply DecodeFrom_EncodeTo. apply apply_fields_wf; [apply VersionEdit_new_wf|done]. Qed.

Lemma version_edit_roundtrip_witness :
  let e := AddFile 2 17 4096 [97; 1; 0; 0; 0; 0; 0; 0; 0] [99; 1; 0; 0; 0; 0; 0; 0; 0]
             (DeleteFile 1 9 (DeleteFile 1 3 (SetLogNumber 300 VersionEdit_new))) in
  DecodeFrom VersionEdit_new (EncodeTo e []) = (Status_OK, e).
Proof.
  refine (version_edit_roundtrip VersionEdit_new
    [FLogNumber 300; FDeletedFile 1 3; FDeletedFile 1 9;
     FNewFile 2 17 4096 [97; 1; 0; 0; 0; 0; 0; 0; 0] [99; 1; 0; 0; 0; 0; 0; 0; 0]] _).
  repeat constructor; vm_compute; congruence.
Defined.

(** Whatever bytes a manifest holds, reading them ends with a well-formed
    edit, even on an error: every level in it is one of the seven, every
    number fits its field, the deleted files are a set, the new files have
    fresh counters.  An error is a corruption of a version edit. *)
Lemma version_edit_decode_safe (src : Slice) (st : Status) (e : VersionEdit) :
  Forall is_u8 src -> DecodeFrom VersionEdit_new src = (st, e) ->
  edit_wf e ∧ (st = Status_OK ∨ ∃ msg, st = Status_Corruption "VersionEdit" (str msg)).
Proof. intros Hs. apply DecodeFrom_wf; [done|]. constructor. Qed.

(** A log number, then a file at a level that does not exist. *)
(** Reusing an edit object: [Clear] keeps the compaction pointers, so a
    second [DecodeFrom] into the same object reports the first one's. *)
Example Clear_keeps_pointers :
  compact_pointers_ (DecodeFrom (SetCompactPointer 1 [7] VersionEdit_new) (EncodeTo VersionEdit_new [])).2 = [(1, [7])].
Proof. vm_compute. reflexivity. Qed.
