(* ===== verification/LdbFilename.v ===== *)
(** * leveldb: the files of a database and its environment (env.h, env.cc,
      filename.h, filename.cc)

    [Env] is the interface of env.h, as operations on the world [W] with
    numbers for the file objects; its documented behaviour is the class
    [EnvLaws].  Names are byte strings. *)

From S2P Require Import Prelude.
From S2P Require Import LdbSlice.
From S2P Require Import LdbVersionEdit.

Class Env (W : Type) := {
  NewWritableFile : Slice -> W -> Status * Z * W;
  file_Append : Z -> Slice -> W -> Status * W;
  file_Flush : Z -> W -> Status * W;
  file_Sync : Z -> W -> Status * W;
  file_Close : Z -> W -> Status * W;
  delete_writable : Z -> W -> W;
  NewSequentialFile : Slice -> W -> Status * Z * W;
  file_Read : Z -> Z -> W -> Status * Slice * W;
  file_Skip : Z -> Z -> W -> Status * W;
  delete_sequential : Z -> W -> W;
  RenameFile : Slice -> Slice -> W -> Status * W;
  env_DeleteFile : Slice -> W -> Status * W;
  env_NewAppendableFile : Slice -> W -> Status * Z * W;
  GetFileSize : Slice -> W -> Status * Z * W;
}.

Section Env.

Context {W : Type} `{!Env W}.

(** [Env::NewAppendableFile] of the base class; an environment may override
    it. *)
Definition NewAppendableFile (fname : Slice) : Status := Status_NotSupported (str "NewAppendableFile") fname.

(** *** env.cc *)

Definition DoWriteStringToFile (data fname : Slice) (should_sync : bool) (w : W) : Status * W :=
  let '(s, file, w) := NewWritableFile fname w in
  if negb (ok s) then (s, w)
  else
    let '(s, w) := file_Append file data w in
    let '(s, w) := if ok s && should_sync then file_Sync file w else (s, w) in
    let '(s, w) := if ok s then file_Close file w else (s, w) in
    let w := delete_writable file w in
    let w := if negb (ok s) then (env_DeleteFile fname w).2 else w in
    (s, w).

Definition WriteStringToFile (data fname : Slice) (w : W) : Status * W := DoWriteStringToFile data fname false w.
Definition WriteStringToFileSync (data fname : Slice) (w : W) : Status * W := DoWriteStringToFile data fname true w.

Definition kBufferSize : Z := 8192.

(** The loop ends at the first empty fragment or error; [None] when the
    rounds run out. *)
Fixpoint read_loop (n : nat) (file : Z) (data : Slice) (w : W) : option (Status * Slice * W) :=
  match n with
  | O => None
  | S n =>
      let '(s, fragment, w) := file_Read file kBufferSize w in
      if negb (ok s) then Some (s, data, w)
      else
        let data := data ++ fragment in
        if bool_decide (fragment = []) then Some (s, data, w) else read_loop n file data w
  end.

Definition ReadFileToString (n : nat) (fname : Slice) (w : W) : option (Status * Slice * W) :=
  let '(s, file, w) := NewSequentialFile fname w in
  if negb (ok s) then Some (s, [], w)
  else
    '(s, data, w) ← read_loop n file [] w;
    Some (s, data, delete_sequential file w).

End Env.

(** *** filename.cc *)

Inductive FileType :=
  | kLogFile | kDBLockFile | kTableFile | kDescriptorFile | kCurrentFile | kTempFile | kInfoLogFile.

(** [%06llu]. *)
Definition padded (number : Z) : Slice := replicate (6 - length (decimal number)) 48 ++ decimal number.

Definition MakeFileName (dbname : Slice) (number : Z) (suffix : string) : Slice :=
  dbname ++ str "/" ++ padded number ++ str "." ++ str suffix.

Definition LogFileName (dbname : Slice) (number : Z) : Slice := MakeFileName dbname number "log".
Definition TableFileName (dbname : Slice) (number : Z) : Slice := MakeFileName dbname number "ldb".
Definition SSTTableFileName (dbname : Slice) (number : Z) : Slice := MakeFileName dbname number "sst".
Definition DescriptorFileName (dbname : Slice) (number : Z) : Slice := dbname ++ str "/MANIFEST-" ++ padded number.
Definition CurrentFileName (dbname : Slice) : Slice := dbname ++ str "/CURRENT".
Definition LockFileName (dbname : Slice) : Slice := dbname ++ str "/LOCK".
Definition TempFileName (dbname : Slice) (number : Z) : Slice := MakeFileName dbname number "dbtmp".
Definition InfoLogFileName (dbname : Slice) : Slice := dbname ++ str "/LOG".
Definition OldInfoLogFileName (dbname : Slice) : Slice := dbname ++ str "/LOG.old".

Definition ParseFileName (filename : Slice) : option (Z * FileType) :=
  let rest := filename in
  if slice_eqb rest (str "CURRENT") then Some (0, kCurrentFile)
  else if slice_eqb rest (str "LOCK") then Some (0, kDBLockFile)
  else if slice_eqb rest (str "LOG") || slice_eqb rest (str "LOG.old") then Some (0, kInfoLogFile)
  else if starts_with rest (str "MANIFEST-") then
    let rest := remove_prefix (size (str "MANIFEST-")) rest in
    match ConsumeDecimalNumber rest with
    | (true, [], Some num) => Some (num, kDescriptorFile)
    | _ => None
    end
  else
    match ConsumeDecimalNumber rest with
    | (true, suffix, Some num) =>
        if slice_eqb suffix (str ".log") then Some (num, kLogFile)
        else if slice_eqb suffix (str ".sst") || slice_eqb suffix (str ".ldb") then Some (num, kTableFile)
        else if slice_eqb suffix (str ".dbtmp") then Some (num, kTempFile)
        else None
    | _ => None
    end.

Definition SetCurrentFile {W : Type} `{!Env W} (dbname : Slice) (descriptor_number : Z) (w : W) : Status * W :=
  let manifest := DescriptorFileName dbname descriptor_number in
  let contents := remove_prefix (size dbname + 1) manifest in
  let tmp := TempFileName dbname descriptor_number in
  let '(s, w) := WriteStringToFileSync (contents ++ [10]) tmp w in
  let '(s, w) := if ok s then RenameFile tmp (CurrentFileName dbname) w else (s, w) in
  let w := if negb (ok s) then (env_DeleteFile tmp w).2 else w in
  (s, w).
