(* ===== verification/LdbFilenameThms.v ===== *)
(** * leveldb: file names can be parsed back, and CURRENT changes in one step *)

From S2P Require Import Prelude.
From S2P Require Import LdbSlice.
From S2P Require Import LdbVersionEdit.
From S2P Require Import LdbFilename.
#[local] Open Scope Z_scope.

(** ** Numbers in names *)

Lemma padded_spec n :
  is_u64 n -> Forall is_digit (padded n) ∧ digits_value (padded n) 0 = n ∧ padded n ≠ [].
Proof.
  intros Hn. destruct (decimal_spec n Hn) as (Hd & Hv & Hne). unfold padded. split_and!.
  - apply Forall_app. split; [|done]. apply Forall_replicate. unfold is_digit. lia.
  - rewrite digits_value_app. assert (∀ k, digits_value (replicate k 48) 0 = 0) as ->; [|done].
    induction k as [|k IH]; [done|]. exact IH.
  - destruct (decimal n); [done|]. by destruct (replicate _ _).
Qed.

Lemma ConsumeDecimalNumber_padded n rest :
  is_u64 n -> stops rest -> ConsumeDecimalNumber (padded n ++ rest) = (true, rest, Some n).
Proof.
  intros Hn Hr. destruct (padded_spec n Hn) as (Hd & Hv & Hne).
  rewrite ConsumeDecimalNumber_digits, Hv by done. unfold is_u64 in Hn. destruct (Z.ltb_spec n (2 ^ 64)); [done|lia].
Qed.

Lemma slice_eqb_head d r c s : d ≠ c -> slice_eqb (d :: r) (c :: s) = false.
Proof. intros Hd. apply not_true_is_false. rewrite slice_eqb_spec. congruence. Qed.

Lemma starts_with_head d r c s : d ≠ c -> starts_with (d :: r) (c :: s) = false.
Proof.
  intros Hd. unfold starts_with. cbn [length memcmp]. destruct (Z.eqb_spec d c); [done|].
  destruct (Z.eqb_spec (d - c) 0); [lia|]. apply andb_false_r.
Qed.

Lemma stops_dot s : stops (46 :: s).
Proof. unfold stops, is_digit. lia. Qed.

(** A name that starts with a digit is parsed as a number and a suffix. *)
Lemma ParseFileName_number n suffix :
  is_u64 n -> stops (str suffix) ->
  ParseFileName (padded n ++ str suffix) =
  if slice_eqb (str suffix) (str ".log") then Some (n, kLogFile)
  else if slice_eqb (str suffix) (str ".sst") || slice_eqb (str suffix) (str ".ldb") then Some (n, kTableFile)
  else if slice_eqb (str suffix) (str ".dbtmp") then Some (n, kTempFile)
  else None.
Proof.
  intros Hn Hs. destruct (padded_spec n Hn) as (Hd & _ & Hne). unfold ParseFileName.
  rewrite ConsumeDecimalNumber_padded by done.
  destruct (padded n) as [|d r]; [done|]. apply Forall_cons_1 in Hd as [Hd _]. unfold is_digit in Hd.
  cbn [app]. change (str "CURRENT") with (67 :: str "URRENT"). change (str "LOCK") with (76 :: str "OCK").
  change (str "LOG") with (76 :: str "OG"). change (str "LOG.old") with (76 :: str "OG.old").
  change (str "MANIFEST-") with (77 :: str "ANIFEST-").
  rewrite !slice_eqb_head, starts_with_head by lia. done.
Qed.

Lemma memcmp_app_refl p r : memcmp (p ++ r) p (length p) = 0.
Proof. induction p as [|x p IH]; simpl; [by destruct r|]. by rewrite Z.eqb_refl. Qed.

Lemma ParseFileName_manifest n :
  is_u64 n -> ParseFileName (str "MANIFEST-" ++ padded n) = Some (n, kDescriptorFile).
Proof.
  intros Hn. unfold ParseFileName.
  assert (∀ c s, 77 ≠ c -> slice_eqb (str "MANIFEST-" ++ padded n) (c :: s) = false) as Hf by (intros; by apply slice_eqb_head).
  change (str "CURRENT") with (67 :: str "URRENT"). change (str "LOCK") with (76 :: str "OCK").
  change (str "LOG") with (76 :: str "OG"). change (str "LOG.old") with (76 :: str "OG.old").
  rewrite !Hf by lia. cbn [orb].
  assert (starts_with (str "MANIFEST-" ++ padded n) (str "MANIFEST-") = true) as ->.
  { unfold starts_with. rewrite memcmp_app_refl, size_app. pose proof (size_nonneg (padded n)).
    destruct (Z.leb_spec (size (str "MANIFEST-")) (size (str "MANIFEST-") + size (padded n))); [done|lia]. }
  unfold remove_prefix, size. rewrite Nat2Z.id, drop_app_length.
  rewrite <- (app_nil_r (padded n)), ConsumeDecimalNumber_padded by done. done.
Qed.

(** ** The files a database owns *)

Inductive owned :=
  | OLog (n : Z) | OTable (n : Z) | OSSTable (n : Z) | ODescriptor (n : Z) | OTemp (n : Z)
  | OCurrent | OLock | OInfoLog | OOldInfoLog.

Definition owned_path (dbname : Slice) (o : owned) : Slice :=
  match o with
  | OLog n => LogFileName dbname n
  | OTable n => TableFileName dbname n
  | OSSTable n => SSTTableFileName dbname n
  | ODescriptor n => DescriptorFileName dbname n
  | OTemp n => TempFileName dbname n
  | OCurrent => CurrentFileName dbname
  | OLock => LockFileName dbname
  | OInfoLog => InfoLogFileName dbname
  | OOldInfoLog => OldInfoLogFileName dbname
  end.

Definition owned_number (o : owned) : Z :=
  match o with OLog n | OTable n | OSSTable n | ODescriptor n | OTemp n => n | _ => 0 end.

Definition owned_type (o : owned) : FileType :=
  match o with
  | OLog _ => kLogFile
  | OTable _ | OSSTable _ => kTableFile
  | ODescriptor _ => kDescriptorFile
  | OTemp _ => kTempFile
  | OCurrent => kCurrentFile
  | OLock => kDBLockFile
  | OInfoLog | OOldInfoLog => kInfoLogFile
  end.

(** The name without the directory. *)
Definition owned_name (dbname : Slice) (o : owned) : Slice := remove_prefix (size dbname + 1) (owned_path dbname o).

Lemma remove_dir dbname s : remove_prefix (size dbname + 1) (dbname ++ str "/" ++ s) = s.
Proof.
  unfold remove_prefix, size. replace (Z.to_nat (Z.of_nat (length dbname) + 1)) with (length dbname + 1)%nat by lia.
  rewrite <- drop_drop, drop_app_length. done.
Qed.

(** The directory listing gives back what the naming functions encode:
    for every kind of file a database owns, parsing the name without its
    directory succeeds with the number and the type it was made from. *)
Lemma filename_roundtrip (dbname : Slice) (o : owned) :
  is_u64 (owned_number o) -> ParseFileName (owned_name dbname o) = Some (owned_number o, owned_type o).
Proof.
  unfold owned_name. intros Hn. destruct o as [n|n|n|n|n| | | |]; cbn [owned_path owned_number owned_type] in *;
    unfold LogFileName, TableFileName, SSTTableFileName, TempFileName, MakeFileName, DescriptorFileName,
      CurrentFileName, LockFileName, InfoLogFileName, OldInfoLogFileName.
  - rewrite remove_dir. change (str "." ++ str "log") with (str ".log"). by rewrite ParseFileName_number by first [done|apply stops_dot].
  - rewrite remove_dir. change (str "." ++ str "ldb") with (str ".ldb"). by rewrite ParseFileName_number by first [done|apply stops_dot].
  - rewrite remove_dir. change (str "." ++ str "sst") with (str ".sst"). by rewrite ParseFileName_number by first [done|apply stops_dot].
  - change (str "/MANIFEST-" ++ padded n) with (str "/" ++ (str "MANIFEST-" ++ padded n)). rewrite remove_dir.
    by apply ParseFileName_manifest.
  - rewrite remove_dir. change (str "." ++ str "dbtmp") with (str ".dbtmp"). by rewrite ParseFileName_number by first [done|apply stops_dot].
  - change (str "/CURRENT") with (str "/" ++ str "CURRENT"). by rewrite remove_dir.
  - change (str "/LOCK") with (str "/" ++ str "LOCK"). by rewrite remove_dir.
  - change (str "/LOG") with (str "/" ++ str "LOG"). by rewrite remove_dir.
  - change (str "/LOG.old") with (str "/" ++ str "LOG.old"). by rewrite remove_dir.
Qed.

(** * leveldb: CURRENT is replaced in one step

    The contract of the environment (env.h) as far as [SetCurrentFile] uses
    it, the theorem, and an environment in memory that satisfies it. *)

(** [contents]: what opening the name would read.  [pending]: the name an
    open file object writes and the bytes given to it so far. *)
Class EnvView (W : Type) := {
  contents : W -> Slice -> option Slice;
  pending : W -> Z -> option (Slice * Slice);
}.

Definition same_but {W} `{!EnvView W} (f : Slice) (w w' : W) : Prop :=
  ∀ g, g ≠ f -> contents w' g = contents w g.

(** A file object that writes [f], or is closed. *)
Definition at_most {W} `{!EnvView W} (f : Slice) (w : W) (h : Z) : Prop :=
  match pending w h with Some (g, _) => g = f | None => True end.

(** env.h: a new writable file replaces the file of that name; the methods
    of a file object touch that file only; after a successful [Close] it
    holds what was appended; [RenameFile] replaces the target or does
    nothing; [DeleteFile] touches the named file only. *)
Class EnvLaws (W : Type) `{!Env W, !EnvView W} : Prop := {
  new_law f w s h w' : NewWritableFile f w = (s, h, w') ->
    same_but f w w' ∧ (ok s = true -> pending w' h = Some (f, []));
  append_law f d x h w s w' : pending w h = Some (f, d) -> file_Append h x w = (s, w') ->
    same_but f w w' ∧ at_most f w' h ∧ (ok s = true -> pending w' h = Some (f, d ++ x));
  sync_law f d h w s w' : pending w h = Some (f, d) -> file_Sync h w = (s, w') ->
    same_but f w w' ∧ at_most f w' h ∧ (ok s = true -> pending w' h = Some (f, d));
  close_law f d h w s w' : pending w h = Some (f, d) -> file_Close h w = (s, w') ->
    same_but f w w' ∧ at_most f w' h ∧ (ok s = true -> pending w' h = None ∧ contents w' f = Some d);
  delete_open_law f h w : at_most f w h -> same_but f w (delete_writable h w);
  delete_closed_law h w f : pending w h = None -> contents (delete_writable h w) f = contents w f;
  rename_law a b w s w' : RenameFile a b w = (s, w') ->
    (ok s = true -> contents w' b = contents w a ∧ ∀ g, g ≠ a -> g ≠ b -> contents w' g = contents w g) ∧
    (ok s = false -> ∀ g, contents w' g = contents w g);
  delete_law f w : same_but f w (env_DeleteFile f w).2;
}.

Section SetCurrent.

Context {W : Type} `{EnvLaws W}.
Implicit Types w : W.

Lemma same_but_trans f w1 w2 w3 : same_but f w1 w2 -> same_but f w2 w3 -> same_but f w1 w3.
Proof. intros H1 H2 g Hg. by rewrite H2, H1. Qed.

(** Writing a whole file: only that file changes, and a success means it has
    the data. *)
Lemma write_string_law data f sync w s w' :
  DoWriteStringToFile data f sync w = (s, w') ->
  same_but f w w' ∧ (ok s = true -> contents w' f = Some data).
Proof.
  unfold DoWriteStringToFile. destruct (NewWritableFile f w) as [[s0 h] w0] eqn:E0.
  apply new_law in E0 as [Hs0 Hp0]. destruct (ok s0) eqn:Ok0; simpl; [|by intros [= <- <-]; rewrite Ok0].
  specialize (Hp0 eq_refl). destruct (file_Append h data w0) as [s1 w1] eqn:E1.
  apply (append_law f []) in E1 as (Hs1 & Ha1 & Hp1); [|done]. simpl in Hp1.
  assert (∃ s2 w2, (if ok s1 && sync then file_Sync h w1 else (s1, w1)) = (s2, w2) ∧ same_but f w1 w2 ∧
    at_most f w2 h ∧ (ok s2 = true -> pending w2 h = Some (f, data))) as (s2 & w2 & -> & Hs2 & Ha2 & Hp2).
  { destruct (ok s1) eqn:Ok1, sync; simpl; try by exists s1, w1; rewrite Ok1.
    destruct (file_Sync h w1) as [s2 w2] eqn:E2. apply (sync_law f data) in E2; [naive_solver|auto]. }
  assert (∃ s3 w3, (if ok s2 then file_Close h w2 else (s2, w2)) = (s3, w3) ∧ same_but f w2 w3 ∧
    at_most f w3 h ∧ (ok s3 = true -> pending w3 h = None ∧ contents w3 f = Some data)) as (s3 & w3 & -> & Hs3 & Ha3 & Hp3).
  { destruct (ok s2) eqn:Ok2; [|exists s2, w2; rewrite Ok2; by repeat split].
    destruct (file_Close h w2) as [s3 w3] eqn:E3. apply (close_law f data) in E3; [naive_solver|auto]. }
  pose proof (delete_open_law f h w3 Ha3) as Hs4. intros [= <- <-]. split.
  - eapply same_but_trans; [exact Hs0|]. eapply same_but_trans; [exact Hs1|]. eapply same_but_trans; [exact Hs2|].
    eapply same_but_trans; [exact Hs3|]. destruct (ok s3); simpl; [done|]. eapply same_but_trans; [done|]. apply delete_law.
  - intros Ok3. rewrite Ok3. simpl. destruct (Hp3 Ok3) as [Hn Hc]. by rewrite delete_closed_law.
Qed.

Lemma tmp_not_current dbname n : is_u64 n -> TempFileName dbname n ≠ CurrentFileName dbname.
Proof.
  intros Hn E. unfold TempFileName, MakeFileName, CurrentFileName in E. apply app_inv_head in E.
  destruct (padded_spec n Hn) as (Hd & _ & Hne). destruct (padded n) as [|d r]; [done|].
  apply Forall_cons_1 in Hd as [Hd _]. unfold is_digit in Hd.
  change (str "/CURRENT") with (47 :: 67 :: str "URRENT") in E. change (str "/") with [47] in E.
  cbn [app] in E. injection E as E _. lia.
Qed.

Lemma manifest_contents dbname n :
  remove_prefix (LdbSlice.size dbname + 1) (DescriptorFileName dbname n) = str "MANIFEST-" ++ padded n.
Proof.
  unfold DescriptorFileName. change (str "/MANIFEST-" ++ padded n) with (str "/" ++ (str "MANIFEST-" ++ padded n)).
  apply remove_dir.
Qed.

Lemma SetCurrentFile_law dbname n w s w' :
  is_u64 n -> SetCurrentFile dbname n w = (s, w') ->
  contents w' (CurrentFileName dbname)
  = (if ok s then Some (str "MANIFEST-" ++ padded n ++ [10]) else contents w (CurrentFileName dbname)) ∧
  ∀ g, g ≠ CurrentFileName dbname -> g ≠ TempFileName dbname n -> contents w' g = contents w g.
Proof.
  intros Hn. pose proof (tmp_not_current dbname n Hn) as Hne. unfold SetCurrentFile. rewrite manifest_contents, <- app_assoc.
  set (tmp := TempFileName dbname n) in *. set (cur := CurrentFileName dbname) in *. set (data := str "MANIFEST-" ++ _).
  destruct (WriteStringToFileSync data tmp w) as [s1 w1] eqn:E1. apply write_string_law in E1 as [Hs1 Hd1].
  destruct (ok s1) eqn:Ok1; cycle 1.
  { cbn iota. rewrite Ok1. simpl. intros [= <- <-]. rewrite Ok1.
    pose proof (same_but_trans tmp w w1 _ Hs1 (delete_law tmp w1)) as Hs. split; [by apply Hs|]. intros g _ Hg. by apply Hs. }
  destruct (RenameFile tmp cur w1) as [s2 w2] eqn:E2. apply rename_law in E2 as [Hok Hfail]. intros [= <- <-].
  destruct (ok s2) eqn:Ok2; simpl.
  - destruct (Hok eq_refl) as [Hc Hg]. split; [by rewrite Hc, Hd1|]. intros g Hg1 Hg2. rewrite Hg by done. by apply Hs1.
  - specialize (Hfail eq_refl). pose proof (delete_law tmp w2) as Hdel.
    split; [|intros g Hg1 Hg2]; (rewrite Hdel by congruence); rewrite Hfail; by apply Hs1.
Qed.

End SetCurrent.

(** C35. Pointing CURRENT at a manifest, on any environment that keeps the
    contract of env.h: with an OK status CURRENT holds the manifest's name
    and a newline; with any other status CURRENT is what it was.  No file
    but CURRENT and the temporary one is touched. *)
Theorem set_current_file {W : Type} `{EnvLaws W} (dbname : Slice) (n : Z) (w w' : W) (s : Status) :
  is_u64 n -> SetCurrentFile dbname n w = (s, w') ->
  contents w' (CurrentFileName dbname)
  = (if ok s then Some (str "MANIFEST-" ++ padded n ++ [10]) else contents w (CurrentFileName dbname)) ∧
  ∀ g, g ≠ CurrentFileName dbname -> g ≠ TempFileName dbname n -> contents w' g = contents w g.
Proof. apply SetCurrentFile_law. Qed.

(** ** An environment in memory *)

(** [room] is how many more bytes fit, if there is a limit; an append beyond
    it fails. *)
Record MemEnv := MkMemEnv {
  files : gmap Slice Slice;
  open_files : gmap Z (Slice * Slice);
  open_reads : gmap Z Slice;
  next_handle : Z;
  room : option Z;
}.

Definition no_space : Status := Status_IOError (str "no space") [].

#[export] Instance mem_env : Env MemEnv := {
  NewWritableFile f w :=
    (Status_OK, next_handle w,
     MkMemEnv (<[f := []]> (files w)) (<[next_handle w := (f, [])]> (open_files w)) (open_reads w) (next_handle w + 1) (room w));
  file_Append h x w :=
    match open_files w !! h with
    | Some (f, d) =>
        if match room w with Some r => LdbSlice.size x <=? r | None => true end
        then (Status_OK, MkMemEnv (files w) (<[h := (f, d ++ x)]> (open_files w)) (open_reads w) (next_handle w) ((fun r => r - LdbSlice.size x) <$> room w))
        else (no_space, w)
    | None => (no_space, w)
    end;
  file_Flush h w := (Status_OK, w);
  file_Sync h w :=
    match open_files w !! h with
    | Some (f, d) => (Status_OK, MkMemEnv (<[f := d]> (files w)) (open_files w) (open_reads w) (next_handle w) (room w))
    | None => (no_space, w)
    end;
  file_Close h w :=
    match open_files w !! h with
    | Some (f, d) => (Status_OK, MkMemEnv (<[f := d]> (files w)) (delete h (open_files w)) (open_reads w) (next_handle w) (room w))
    | None => (no_space, w)
    end;
  delete_writable h w := MkMemEnv (files w) (delete h (open_files w)) (open_reads w) (next_handle w) (room w);
  NewSequentialFile f w :=
    match files w !! f with
    | Some d => (Status_OK, next_handle w, MkMemEnv (files w) (open_files w) (<[next_handle w := d]> (open_reads w)) (next_handle w + 1) (room w))
    | None => (Status_NotFound f [], 0, w)
    end;
  file_Read h n w :=
    match open_reads w !! h with
    | Some d =>
        (Status_OK, take (Z.to_nat n) d,
         MkMemEnv (files w) (open_files w) (<[h := drop (Z.to_nat n) d]> (open_reads w)) (next_handle w) (room w))
    | None => (no_space, [], w)
    end;
  file_Skip h n w :=
    match open_reads w !! h with
    | Some d => (Status_OK, MkMemEnv (files w) (open_files w) (<[h := drop (Z.to_nat n) d]> (open_reads w)) (next_handle w) (room w))
    | None => (no_space, w)
    end;
  delete_sequential h w := MkMemEnv (files w) (open_files w) (delete h (open_reads w)) (next_handle w) (room w);
  RenameFile a b w :=
    match files w !! a with
    | Some d => (Status_OK, MkMemEnv (<[b := d]> (delete a (files w))) (open_files w) (open_reads w) (next_handle w) (room w))
    | None => (Status_NotFound [] [], w)
    end;
  env_DeleteFile f w := (Status_OK, MkMemEnv (delete f (files w)) (open_files w) (open_reads w) (next_handle w) (room w));
  env_NewAppendableFile f w := (NewAppendableFile f, 0, w);
  GetFileSize f w :=
    match files w !! f with Some d => (Status_OK, LdbSlice.size d, w) | None => (Status_NotFound f [], 0, w) end;
}.

#[export] Instance mem_view : EnvView MemEnv := {
  contents w f := files w !! f;
  pending w h := open_files w !! h;
}.

#[export] Instance mem_laws : EnvLaws MemEnv.
Proof.
  split; unfold same_but, at_most; simpl.
  - intros f w s h w' [= <- <- <-]. simpl. split; [|intros _; by simplify_map_eq]. intros g Hg. by rewrite lookup_insert_ne.
  - intros f d x h w s w' Hp. rewrite Hp. case_match; intros [= <- <-]; simpl; rewrite ?Hp; simplify_map_eq; done.
  - intros f d h w s w' Hp. rewrite Hp. intros [= <- <-]. simpl. rewrite Hp. split_and!; [|done|done]. intros g Hg. by rewrite lookup_insert_ne.
  - intros f d h w s w' Hp. rewrite Hp. intros [= <- <-]. simpl. simplify_map_eq.
    split_and!; [|done|done]. intros g Hg. by rewrite lookup_insert_ne.
  - done.
  - done.
  - intros a b w s w'. destruct (files w !! a) as [d|] eqn:E; intros [= <- <-]; simpl; split; try done; intros _.
    simplify_map_eq. split; [done|]. intros g Ha Hb. by simplify_map_eq.
  - intros f w g Hg. by simplify_map_eq.
Qed.

(** A database whose CURRENT names manifest 2: one disk with room for the new
    name, one without. *)
Definition small_world (room : Z) : MemEnv :=
  MkMemEnv {[CurrentFileName (str "db") := str "MANIFEST-000002" ++ [10]]} ∅ ∅ 1 (Some room).

Lemma set_current_file_witness :
  contents (SetCurrentFile (str "db") 7 (small_world 100)).2 (CurrentFileName (str "db"))
    = Some (str "MANIFEST-000007" ++ [10]) ∧
  contents (SetCurrentFile (str "db") 7 (small_world 3)).2 (CurrentFileName (str "db"))
    = Some (str "MANIFEST-000002" ++ [10]).
Proof.
  split.
  - refine (proj1 (set_current_file (str "db") 7 (small_world 100) _ Status_OK _ _)); [split; vm_compute; congruence|].
    vm_compute. reflexivity.
  - refine (proj1 (set_current_file (str "db") 7 (small_world 3) _ no_space _ _)); [split; vm_compute; congruence|].
    vm_compute. reflexivity.
Defined.
