(* ===== verification/LdbCache.v ===== *)
(** * leveldb: the LRU cache (cache.cc)

    Entries live on a heap; the hash table and the two circular lists are
    made of pointers between them, as in the code.  [V] are the cached
    values, [D] the deleter functions; a call of a deleter is recorded in
    [calls].  [None] is undefined behaviour: a null or dangling pointer, a
    failed assertion, a loop that did not end.  [malloc] returns an address
    outside the set of those in use. *)

From S2P Require Import Prelude.
From S2P Require Import LdbSlice.
From S2P Require Import LdbCoding.
From S2P Require Import LdbBloom.

(** The dummy heads [lru_] and [in_use_]. *)
Inductive WhichList := lru_ | in_use_.

#[export] Instance WhichList_eq_dec : EqDecision WhichList.
Proof. solve_decision. Defined.

(** An [LRUHandle*] of the lists: a head or an entry. *)
Inductive Node := ListHead (l : WhichList) | Entry (e : nat).

#[export] Instance Node_eq_dec : EqDecision Node.
Proof. solve_decision. Defined.

Section Cache.

Context {V D : Type}.

Record LRUHandle := MkHandle {
  h_value : V;
  h_deleter : D;
  next_hash : option nat;
  next : option Node;
  prev : option Node;
  charge : Z;
  h_key : Slice;
  in_cache : bool;
  refs : Z;
  h_hash : Z;
}.

(** The members of [LRUCache], with those of its [HandleTable table_]. *)
Record LRUCache := MkCache {
  capacity_ : Z;
  usage_ : Z;
  head_next : WhichList -> Node;
  head_prev : WhichList -> Node;
  length_ : Z;
  elems_ : Z;
  list_ : list (option nat);
  heap : gmap nat LRUHandle;
  calls : list (D * Slice * V);
}.

Context (malloc : gset nat -> nat).

(** ** Assignments *)

Definition set_usage (u : Z) (c : LRUCache) : LRUCache :=
  MkCache (capacity_ c) u (head_next c) (head_prev c) (length_ c) (elems_ c) (list_ c) (heap c) (calls c).
Definition set_table (len elems : Z) (l : list (option nat)) (c : LRUCache) : LRUCache :=
  MkCache (capacity_ c) (usage_ c) (head_next c) (head_prev c) len elems l (heap c) (calls c).
Definition set_heap (m : gmap nat LRUHandle) (c : LRUCache) : LRUCache :=
  MkCache (capacity_ c) (usage_ c) (head_next c) (head_prev c) (length_ c) (elems_ c) (list_ c) m (calls c).
Definition set_heads (nx pv : WhichList -> Node) (c : LRUCache) : LRUCache :=
  MkCache (capacity_ c) (usage_ c) nx pv (length_ c) (elems_ c) (list_ c) (heap c) (calls c).
Definition add_call (x : D * Slice * V) (c : LRUCache) : LRUCache :=
  MkCache (capacity_ c) (usage_ c) (head_next c) (head_prev c) (length_ c) (elems_ c) (list_ c) (heap c) (calls c ++ [x]).

Definition set_next_hash (x : option nat) (h : LRUHandle) : LRUHandle :=
  MkHandle (h_value h) (h_deleter h) x (next h) (prev h) (charge h) (h_key h) (in_cache h) (refs h) (h_hash h).
Definition set_next (x : option Node) (h : LRUHandle) : LRUHandle :=
  MkHandle (h_value h) (h_deleter h) (next_hash h) x (prev h) (charge h) (h_key h) (in_cache h) (refs h) (h_hash h).
Definition set_prev (x : option Node) (h : LRUHandle) : LRUHandle :=
  MkHandle (h_value h) (h_deleter h) (next_hash h) (next h) x (charge h) (h_key h) (in_cache h) (refs h) (h_hash h).
Definition set_in_cache (b : bool) (h : LRUHandle) : LRUHandle :=
  MkHandle (h_value h) (h_deleter h) (next_hash h) (next h) (prev h) (charge h) (h_key h) b (refs h) (h_hash h).
Definition set_refs (r : Z) (h : LRUHandle) : LRUHandle :=
  MkHandle (h_value h) (h_deleter h) (next_hash h) (next h) (prev h) (charge h) (h_key h) (in_cache h) r (h_hash h).

(** [e->field = x]. *)
Definition update (e : nat) (f : LRUHandle -> LRUHandle) (c : LRUCache) : option LRUCache :=
  h ← heap c !! e; Some (set_heap (<[e := f h]> (heap c)) c).

(** [n->next], [n->prev] and their assignments. *)
Definition get_next (n : Node) (c : LRUCache) : option Node :=
  match n with ListHead l => Some (head_next c l) | Entry e => h ← heap c !! e; next h end.
Definition get_prev (n : Node) (c : LRUCache) : option Node :=
  match n with ListHead l => Some (head_prev c l) | Entry e => h ← heap c !! e; prev h end.
Definition put_next (n x : Node) (c : LRUCache) : option LRUCache :=
  match n with
  | ListHead l => Some (set_heads (fun l' => if decide (l' = l) then x else head_next c l') (head_prev c) c)
  | Entry e => update e (set_next (Some x)) c
  end.
Definition put_prev (n x : Node) (c : LRUCache) : option LRUCache :=
  match n with
  | ListHead l => Some (set_heads (head_next c) (fun l' => if decide (l' = l) then x else head_prev c l') c)
  | Entry e => update e (set_prev (Some x)) c
  end.

(** ** [HandleTable] *)

(** An [LRUHandle**]: a bucket or the [next_hash] member of an entry. *)
Inductive Slot := Bucket (i : nat) | NextHash (e : nat).

Definition read_slot (p : Slot) (c : LRUCache) : option (option nat) :=
  match p with Bucket i => list_ c !! i | NextHash e => next_hash <$> heap c !! e end.

Definition write_slot (p : Slot) (x : option nat) (c : LRUCache) : option LRUCache :=
  match p with
  | Bucket i => if (i <? length (list_ c))%nat then Some (set_table (length_ c) (elems_ c) (<[i := x]> (list_ c)) c) else None
  | NextHash e => update e (set_next_hash x) c
  end.

Definition bucket_of (len hash : Z) : nat := Z.to_nat (Z.land hash (u32 (len - 1))).

Fixpoint find_pointer_loop (n : nat) (key : Slice) (hash : Z) (ptr : Slot) (c : LRUCache) : option Slot :=
  match n with
  | O => None
  | S n =>
      p ← read_slot ptr c;
      match p with
      | None => Some ptr
      | Some e =>
          h ← heap c !! e;
          if negb (h_hash h =? hash) || negb (slice_eqb key (h_key h)) then find_pointer_loop n key hash (NextHash e) c
          else Some ptr
      end
  end.

(** Every round passes an entry. *)
Definition FindPointer (key : Slice) (hash : Z) (c : LRUCache) : option Slot :=
  find_pointer_loop (S (base.size (heap c))) key hash (Bucket (bucket_of (length_ c) hash)) c.

Definition table_Lookup (key : Slice) (hash : Z) (c : LRUCache) : option (option nat) :=
  ptr ← FindPointer key hash c; read_slot ptr c.

(** [while (new_length < elems_) new_length *= 2]. *)
Fixpoint new_length_loop (n : nat) (new_length elems : Z) : option Z :=
  match n with
  | O => None
  | S n => if new_length <? elems then new_length_loop n (u32 (new_length * 2)) elems else Some new_length
  end.

(** The inner loop of [Resize]: move a bucket to the new list. *)
Fixpoint move_bucket (n : nat) (new_length : Z) (p : option nat) (st : list (option nat) * LRUCache * Z) :
    option (list (option nat) * LRUCache * Z) :=
  match p, n with
  | None, _ => Some st
  | Some _, O => None
  | Some e, S n =>
      let '(new_list, c, count) := st in
      h ← heap c !! e;
      let i := bucket_of new_length (h_hash h) in
      old ← new_list !! i;
      c ← update e (set_next_hash old) c;
      move_bucket n new_length (next_hash h) (<[i := Some e]> new_list, c, u32 (count + 1))
  end.

Fixpoint move_buckets (n : nat) (new_length : Z) (old : list (option nat)) (st : list (option nat) * LRUCache * Z) :
    option (list (option nat) * LRUCache * Z) :=
  match old with
  | [] => Some st
  | p :: old => st ← move_bucket n new_length p st; move_buckets n new_length old st
  end.

Definition Resize (c : LRUCache) : option LRUCache :=
  new_length ← new_length_loop 32 4 (elems_ c);
  '(new_list, c, count) ← move_buckets (S (base.size (heap c))) new_length (take (Z.to_nat (length_ c)) (list_ c))
    (replicate (Z.to_nat new_length) None, c, 0);
  if elems_ c =? count then Some (set_table new_length (elems_ c) new_list c) else None.

(** The entry that was replaced. *)
Definition table_Insert (e : nat) (c : LRUCache) : option (option nat * LRUCache) :=
  h ← heap c !! e;
  ptr ← FindPointer (h_key h) (h_hash h) c;
  old ← read_slot ptr c;
  x ← match old with None => Some None | Some o => next_hash <$> heap c !! o end;
  c ← update e (set_next_hash x) c;
  c ← write_slot ptr (Some e) c;
  match old with
  | Some _ => Some (old, c)
  | None =>
      let c := set_table (length_ c) (u32 (elems_ c + 1)) (list_ c) c in
      c ← if length_ c <? elems_ c then Resize c else Some c;
      Some (old, c)
  end.

Definition table_Remove (key : Slice) (hash : Z) (c : LRUCache) : option (option nat * LRUCache) :=
  ptr ← FindPointer key hash c;
  result ← read_slot ptr c;
  match result with
  | None => Some (None, c)
  | Some r =>
      x ← next_hash <$> heap c !! r;
      c ← write_slot ptr x c;
      Some (result, set_table (length_ c) (u32 (elems_ c - 1)) (list_ c) c)
  end.

(** ** [LRUCache] *)

Definition LRUCache_new (capacity : Z) : option LRUCache := Resize (MkCache capacity 0 ListHead ListHead 0 0 [] ∅ []).

Definition LRU_Remove (e : nat) (c : LRUCache) : option LRUCache :=
  n ← get_next (Entry e) c; p ← get_prev (Entry e) c; c ← put_prev n p c;
  p ← get_prev (Entry e) c; n ← get_next (Entry e) c; put_next p n c.

Definition LRU_Append (list : WhichList) (e : nat) (c : LRUCache) : option LRUCache :=
  c ← put_next (Entry e) (ListHead list) c;
  p ← get_prev (ListHead list) c; c ← put_prev (Entry e) p c;
  p ← get_prev (Entry e) c; c ← put_next p (Entry e) c;
  n ← get_next (Entry e) c; put_prev n (Entry e) c.

Definition Ref (e : nat) (c : LRUCache) : option LRUCache :=
  h ← heap c !! e;
  c ← if (refs h =? 1) && in_cache h then c ← LRU_Remove e c; LRU_Append in_use_ e c else Some c;
  update e (fun h => set_refs (u32 (refs h + 1)) h) c.

Definition Unref (e : nat) (c : LRUCache) : option LRUCache :=
  h ← heap c !! e;
  if negb (0 <? refs h) then None
  else
    c ← update e (fun h => set_refs (refs h - 1) h) c;
    if refs h - 1 =? 0 then
      if in_cache h then None
      else Some (set_heap (delete e (heap c)) (add_call (h_deleter h, h_key h, h_value h) c))
    else if in_cache h && (refs h - 1 =? 1) then c ← LRU_Remove e c; LRU_Append lru_ e c
    else Some c.

Definition FinishErase (e : option nat) (c : LRUCache) : option (bool * LRUCache) :=
  match e with
  | None => Some (false, c)
  | Some e =>
      h ← heap c !! e;
      if negb (in_cache h) then None
      else
        c ← LRU_Remove e c;
        c ← update e (set_in_cache false) c;
        c ← Unref e (set_usage (u64 (usage_ c - charge h)) c);
        Some (true, c)
  end.

Definition LRU_Lookup (key : Slice) (hash : Z) (c : LRUCache) : option (option nat * LRUCache) :=
  e ← table_Lookup key hash c;
  match e with
  | None => Some (None, c)
  | Some e => c ← Ref e c; Some (Some e, c)
  end.

Definition LRU_Release (e : nat) (c : LRUCache) : option LRUCache := Unref e c.

Definition LRU_Erase (key : Slice) (hash : Z) (c : LRUCache) : option LRUCache :=
  '(e, c) ← table_Remove key hash c; '(_, c) ← FinishErase e c; Some c.

(** The body of the two eviction loops: remove [lru_.next]. *)
Definition evict_oldest (c : LRUCache) : option LRUCache :=
  match head_next c lru_ with
  | ListHead _ => None
  | Entry old =>
      h ← heap c !! old;
      if negb (refs h =? 1) then None
      else
        '(e, c) ← table_Remove (h_key h) (h_hash h) c;
        '(erased, c) ← FinishErase e c;
        if erased : bool then Some c else None
  end.

Fixpoint evict_loop (n : nat) (c : LRUCache) : option LRUCache :=
  if (capacity_ c <? usage_ c) && bool_decide (head_next c lru_ ≠ ListHead lru_) then
    match n with O => None | S n => c ← evict_oldest c; evict_loop n c end
  else Some c.

Fixpoint prune_loop (n : nat) (c : LRUCache) : option LRUCache :=
  if bool_decide (head_next c lru_ ≠ ListHead lru_) then
    match n with O => None | S n => c ← evict_oldest c; prune_loop n c end
  else Some c.

(** An eviction frees an entry. *)
Definition LRU_Prune (c : LRUCache) : option LRUCache := prune_loop (base.size (heap c)) c.

Definition LRU_Insert (key : Slice) (hash : Z) (value : V) (charge : Z) (deleter : D) (c : LRUCache) : option (nat * LRUCache) :=
  let e := malloc (dom (heap c)) in
  let c := set_heap (<[e := MkHandle value deleter None None None charge key false 1 hash]> (heap c)) c in
  c ←
    (if 0 <? capacity_ c then
       c ← update e (fun h => set_in_cache true (set_refs (u32 (refs h + 1)) h)) c;
       c ← LRU_Append in_use_ e c;
       '(old, c) ← table_Insert e (set_usage (u64 (usage_ c + charge)) c);
       '(_, c) ← FinishErase old c;
       Some c
     else update e (set_next None) c);
  c ← evict_loop (base.size (heap c)) c;
  Some (e, c).

Definition TotalCharge (c : LRUCache) : Z := usage_ c.

(** The destructor; the loop follows [next], read before the entry goes. *)
Fixpoint destroy_loop (n : nat) (e : Node) (c : LRUCache) : option LRUCache :=
  match e, n with
  | ListHead lru_, _ => Some c
  | ListHead in_use_, _ | Entry _, O => None
  | Entry e, S n =>
      next ← get_next (Entry e) c;
      h ← heap c !! e;
      if negb (in_cache h) then None
      else
        c ← update e (set_in_cache false) c;
        if negb (refs h =? 1) then None
        else c ← Unref e c; destroy_loop n next c
  end.

Definition LRUCache_delete (c : LRUCache) : option LRUCache :=
  if bool_decide (head_next c in_use_ = ListHead in_use_) then destroy_loop (base.size (heap c)) (head_next c lru_) c else None.

End Cache.

Arguments LRUHandle : clear implicits.
Arguments LRUCache : clear implicits.

(** ** [ShardedLRUCache] *)

Definition kNumShardBits : Z := 4.
Definition kNumShards : Z := Z.shiftl 1 kNumShardBits.

Definition HashSlice (s : Slice) : Z := Hash s 0.
Definition Shard (hash : Z) : nat := Z.to_nat (Z.shiftr hash (32 - kNumShardBits)).

Section Sharded.

Context {V D : Type} (malloc : gset nat -> nat).

Record ShardedLRUCache := MkSharded { shard_ : list (LRUCache V D); last_id_ : Z }.

(** A pointer to an entry: the shard that allocated it, and the address. *)
Definition CacheHandle : Type := nat * nat.

(** Call a method of a shard. *)
Definition on_shard {A} (i : nat) (f : LRUCache V D -> option (A * LRUCache V D)) (s : ShardedLRUCache) : option (A * ShardedLRUCache) :=
  c ← shard_ s !! i; '(a, c) ← f c; Some (a, MkSharded (<[i := c]> (shard_ s)) (last_id_ s)).

Fixpoint on_shards (f : LRUCache V D -> option (LRUCache V D)) (cs : list (LRUCache V D)) : option (list (LRUCache V D)) :=
  match cs with
  | [] => Some []
  | c :: cs => c ← f c; cs ← on_shards f cs; Some (c :: cs)
  end.

(** [NewLRUCache]. *)
Definition ShardedLRUCache_new (capacity : Z) : option ShardedLRUCache :=
  let per_shard := u64 (capacity + (kNumShards - 1)) / kNumShards in
  c ← LRUCache_new per_shard; Some (MkSharded (replicate (Z.to_nat kNumShards) c) 0).

Definition sharded_Insert (key : Slice) (value : V) (charge : Z) (deleter : D) (s : ShardedLRUCache) : option (CacheHandle * ShardedLRUCache) :=
  let hash := HashSlice key in
  on_shard (Shard hash) (fun c => '(e, c) ← LRU_Insert malloc key hash value charge deleter c; Some ((Shard hash, e), c)) s.

Definition sharded_Lookup (key : Slice) (s : ShardedLRUCache) : option (option CacheHandle * ShardedLRUCache) :=
  let hash := HashSlice key in
  on_shard (Shard hash) (fun c => '(e, c) ← LRU_Lookup key hash c; Some (option_map (pair (Shard hash)) e, c)) s.

Definition handle_entry (h : CacheHandle) (s : ShardedLRUCache) : option (LRUHandle V D) := c ← shard_ s !! h.1; heap c !! h.2.

Definition sharded_Release (h : CacheHandle) (s : ShardedLRUCache) : option ShardedLRUCache :=
  e ← handle_entry h s; '(_, s) ← on_shard (Shard (h_hash e)) (fun c => c ← LRU_Release h.2 c; Some (tt, c)) s; Some s.

Definition sharded_Erase (key : Slice) (s : ShardedLRUCache) : option ShardedLRUCache :=
  let hash := HashSlice key in
  '(_, s) ← on_shard (Shard hash) (fun c => c ← LRU_Erase key hash c; Some (tt, c)) s; Some s.

Definition sharded_Value (h : CacheHandle) (s : ShardedLRUCache) : option V := h_value <$> handle_entry h s.

Definition sharded_NewId (s : ShardedLRUCache) : Z * ShardedLRUCache :=
  let id := u64 (last_id_ s + 1) in (id, MkSharded (shard_ s) id).

Definition sharded_Prune (s : ShardedLRUCache) : option ShardedLRUCache :=
  cs ← on_shards LRU_Prune (shard_ s); Some (MkSharded cs (last_id_ s)).

Definition sharded_TotalCharge (s : ShardedLRUCache) : Z := foldl (fun total c => u64 (total + TotalCharge c)) 0 (shard_ s).

End Sharded.

Arguments ShardedLRUCache : clear implicits.
