(* ===== verification/LdbCacheThms.v ===== *)
(** * leveldb: the LRU cache keeps its invariant and refines its contract *)

From S2P Require Import Prelude.
From S2P Require Import LdbSlice.
From S2P Require Import LdbCoding.
From S2P Require Import LdbBloom.
From S2P Require Import LdbCache.

(** ** Doubly linked lists *)

(** From [a] along [L], neighbours point at each other. *)
Fixpoint linked (nx pv : Node -> option Node) (a : Node) (L : list Node) : Prop :=
  match L with
  | [] => True
  | b :: L => nx a = Some b ∧ pv b = Some a ∧ linked nx pv b L
  end.

Lemma linked_app nx pv a A b B : linked nx pv a (A ++ b :: B) <-> linked nx pv a (A ++ [b]) ∧ linked nx pv b B.
Proof. revert a; induction A as [|x A IH]; intros a; simpl; [tauto|]. rewrite IH. tauto. Qed.

Lemma linked_snoc nx pv a A b :
  linked nx pv a (A ++ [b]) <-> linked nx pv a A ∧ nx (List.last A a) = Some b ∧ pv b = Some (List.last A a).
Proof.
  revert a; induction A as [|x A IH]; intros a; [simpl; tauto|]. cbn [linked app]. rewrite IH.
  replace (List.last (x :: A) a) with (List.last A x) by (destruct A as [|y A]; [done|]; simpl; clear; revert y; induction A; simpl; auto). tauto.
Qed.

Lemma last_node_in (a : Node) A : List.last A a ∈ a :: A.
Proof. induction A as [|x [|y A] IH]; simpl in *; set_solver. Qed.

(** Neither the [nx] of the last node nor the [pv] of the first one matter. *)
Lemma linked_frame nx pv nx' pv' a A : NoDup (a :: A) ->
  (∀ x, x ∈ a :: A -> x ≠ List.last A a -> nx' x = nx x) -> (∀ x, x ∈ A -> pv' x = pv x) ->
  linked nx pv a A -> linked nx' pv' a A.
Proof.
  revert a; induction A as [|x A IH]; intros a Hnd Hn Hp; [done|]. intros (H1 & H2 & H3). apply list.NoDup_cons in Hnd as [Hna Hnd].
  assert (List.last (x :: A) a = List.last A x) as El.
  { destruct A as [|y A]; [done|]. simpl. clear. revert y; induction A; simpl; auto. }
  rewrite El in Hn. simpl. rewrite Hn, Hp; [|by left|by left|]; cycle 1.
  { intros E. pose proof (last_node_in x A) as Hl. rewrite <- E in Hl. done. }
  split_and!; [done|done|]. apply IH; [done| |set_solver|done]. intros z Hz Hzl. apply Hn; [|done]. by right.
Qed.

(** The circular list of a head. *)
Definition dl (nx pv : Node -> option Node) (l : WhichList) (xs : list nat) : Prop :=
  linked nx pv (ListHead l) ((Entry <$> xs) ++ [ListHead l]).

Lemma elem_of_entries n (xs : list nat) : n ∈ Entry <$> xs <-> ∃ e, n = Entry e ∧ e ∈ xs.
Proof. rewrite list_elem_of_fmap. naive_solver. Qed.

Lemma NoDup_entries (xs : list nat) : NoDup xs -> NoDup (Entry <$> xs).
Proof. intros H. apply list.NoDup_fmap; [|done]. by intros ? ? [= ->]. Qed.

Lemma NoDup_head l (xs : list nat) : NoDup xs -> NoDup (ListHead l :: (Entry <$> xs)) ∧ NoDup ((Entry <$> xs) ++ [ListHead l]).
Proof.
  intros Hnd%NoDup_entries. assert (ListHead l ∉ Entry <$> xs) by (rewrite elem_of_entries; naive_solver). split; [by constructor|].
  apply list.NoDup_app. split_and!; [done|set_solver|apply NoDup_singleton].
Qed.

Lemma linked_same nx pv nx' pv' a A : (∀ x, x ∈ a :: A -> nx' x = nx x ∧ pv' x = pv x) -> linked nx pv a A -> linked nx' pv' a A.
Proof.
  revert a; induction A as [|x A IH]; intros a Hs; [done|]. intros (H1 & H2 & H3). simpl.
  rewrite (proj1 (Hs a ltac:(by left))), (proj2 (Hs x ltac:(set_solver))). split_and!; [done|done|]. apply IH; [|done].
  intros z Hz. apply Hs. by right.
Qed.

(** Lists of different heads do not share nodes. *)
Lemma dl_frame nx pv nx' pv' l xs :
  (∀ n, n = ListHead l ∨ n ∈ Entry <$> xs -> nx' n = nx n ∧ pv' n = pv n) -> dl nx pv l xs -> dl nx' pv' l xs.
Proof. intros Hf. apply linked_same. intros x Hx. apply Hf. set_solver. Qed.

(** An entry can be taken out. *)
Lemma dl_remove nx pv l X e Y : dl nx pv l (X ++ e :: Y) -> NoDup (X ++ e :: Y) ->
  ∃ p n, nx (Entry e) = Some n ∧ pv (Entry e) = Some p ∧
    (p = ListHead l ∨ p ∈ Entry <$> X) ∧ (n = ListHead l ∨ n ∈ Entry <$> Y) ∧
    ∀ nx' pv', (∀ m, nx' m = if decide (m = p) then Some n else nx m) -> (∀ m, pv' m = if decide (m = n) then Some p else pv m) ->
      dl nx' pv' l (X ++ Y).
Proof.
  intros Hdl Hnd. unfold dl in *. rewrite fmap_app, fmap_cons, <- app_assoc, <- app_comm_cons in Hdl.
  apply linked_app in Hdl as [HX HY]. apply linked_snoc in HX as (HX & Hp1 & Hp2).
  assert (∃ n B, (Entry <$> Y) ++ [ListHead l] = n :: B) as (n & B & EB) by (destruct Y; simpl; eauto).
  rewrite EB in HY. simpl in HY. destruct HY as (Hn1 & Hn2 & HB). set (p := List.last (Entry <$> X) (ListHead l)) in *.
  assert (p ∈ ListHead l :: (Entry <$> X)) as Hp by apply last_node_in. apply elem_of_cons in Hp.
  assert (n ∈ (Entry <$> Y) ++ [ListHead l]) as Hn by (rewrite EB; by left).
  apply elem_of_app in Hn. rewrite list_elem_of_singleton in Hn. apply list.NoDup_app in Hnd as (HndX & Hdis & HndY).
  apply list.NoDup_cons in HndY as [HeY HndY].
  exists p, n. split_and!; [done|done|done|tauto|]. intros nx' pv' Hnx Hpv.
  assert (∀ x, x ∈ Entry <$> X -> x ∉ (Entry <$> Y) ++ [ListHead l]) as HXY.
  { intros x (d & -> & Hd)%elem_of_entries [Hx|Hx]%elem_of_app; [|by apply list_elem_of_singleton in Hx].
    apply elem_of_entries in Hx as (d' & [= ->] & Hd'). apply (Hdis d' Hd). by right. }
  rewrite fmap_app, <- app_assoc, EB. apply linked_app. split; [apply linked_snoc; split_and!|].
  - eapply linked_frame; [by apply NoDup_head| | |exact HX].
    + intros x _ Hx. rewrite Hnx. by rewrite decide_False.
    + intros x Hx. rewrite Hpv, decide_False; [done|]. intros ->. apply (HXY n Hx). rewrite EB. by left.
  - by rewrite Hnx, decide_True.
  - by rewrite Hpv, decide_True.
  - assert (NoDup (n :: B)) as HndB by (rewrite <- EB; by apply NoDup_head).
    assert (List.last B n = ListHead l) as HlB.
    { assert (List.last (n :: B) n = ListHead l) as H by (rewrite <- EB; apply last_last). destruct B; [done|]. simpl in *. done. }
    eapply linked_frame; [exact HndB| | |exact HB].
    + intros x Hx Hxl. rewrite Hnx, decide_False; [done|]. intros ->. rewrite HlB in Hxl. rewrite <- EB in Hx. destruct Hp as [|Hp]; [done|]. by apply (HXY p Hp).
    + intros x Hx. rewrite Hpv, decide_False; [done|]. intros ->. apply list.NoDup_cons in HndB as [? _]. done.
Qed.

(** An entry can be put at the end. *)
Lemma dl_append nx pv l xs e : dl nx pv l xs -> NoDup (e :: xs) ->
  ∃ p, pv (ListHead l) = Some p ∧ (p = ListHead l ∨ p ∈ Entry <$> xs) ∧
    ∀ nx' pv', (∀ m, nx' m = if decide (m = p) then Some (Entry e) else if decide (m = Entry e) then Some (ListHead l) else nx m) ->
      (∀ m, pv' m = if decide (m = ListHead l) then Some (Entry e) else if decide (m = Entry e) then Some p else pv m) ->
      dl nx' pv' l (xs ++ [e]).
Proof.
  unfold dl. intros HX Hnd. apply linked_snoc in HX as (HX & Hp1 & Hp2). set (p := List.last (Entry <$> xs) (ListHead l)) in *.
  assert (p ∈ ListHead l :: (Entry <$> xs)) as Hp by apply last_node_in. apply elem_of_cons in Hp.
  apply list.NoDup_cons in Hnd as [He Hnd]. assert (Entry e ∉ Entry <$> xs) as He' by (rewrite elem_of_entries; naive_solver).
  exists p. split_and!; [done|done|]. intros nx' pv' Hnx Hpv. rewrite fmap_app, <- app_assoc. simpl. apply linked_app.
  split; [apply linked_snoc; split_and!|].
  - eapply linked_frame; [by apply NoDup_head| | |exact HX].
    + intros x Hx Hxl. rewrite Hnx, decide_False, decide_False; [done| |done]. intros ->. apply elem_of_cons in Hx as [|]; done.
    + intros x Hx. rewrite Hpv, decide_False, decide_False; [done|by intros ->|]. intros ->. apply elem_of_entries in Hx as (? & ? & _). done.
  - by rewrite Hnx, decide_True.
  - by rewrite Hpv, decide_False, decide_True.
  - simpl. rewrite Hnx, Hpv, decide_False, decide_True, decide_True; [done..|]. intros <-. destruct Hp as [|]; done.
Qed.

(** ** The list operations *)

Section Lists.

Context {V D : Type}.
Implicit Types (c : LRUCache V D) (h : LRUHandle V D).

(** The members that the lists do not use. *)
Definition data h : LRUHandle V D := set_next None (set_prev None h).

Record links_only c c' : Prop := {
  lo_capacity : capacity_ c' = capacity_ c;
  lo_usage : usage_ c' = usage_ c;
  lo_length : length_ c' = length_ c;
  lo_elems : elems_ c' = elems_ c;
  lo_list : list_ c' = list_ c;
  lo_calls : calls c' = calls c;
  lo_heap e : data <$> heap c' !! e = data <$> heap c !! e;
}.

Lemma links_only_refl c : links_only c c.
Proof. by split. Qed.

Lemma links_only_trans c1 c2 c3 : links_only c1 c2 -> links_only c2 c3 -> links_only c1 c3.
Proof. intros [] []. split; congruence. Qed.

Lemma links_only_entry c c' e h : links_only c c' -> heap c !! e = Some h -> ∃ h', heap c' !! e = Some h' ∧ data h' = data h.
Proof. intros Hl He. pose proof (lo_heap _ _ Hl e) as H. rewrite He in H. apply fmap_Some in H as (h' & ? & ?). eauto. Qed.

Lemma links_only_entry' c c' e h' : links_only c c' -> heap c' !! e = Some h' -> ∃ h, heap c !! e = Some h ∧ data h' = data h.
Proof. intros Hl He. pose proof (lo_heap _ _ Hl e) as H. rewrite He in H. symmetry in H. apply fmap_Some in H as (h & ? & ?). eauto. Qed.

Definition valid_node c (n : Node) : Prop := match n with ListHead _ => True | Entry e => is_Some (heap c !! e) end.

Lemma links_only_valid c c' n : links_only c c' -> valid_node c n -> valid_node c' n.
Proof. intros Hl. destruct n as [|e]; [done|]. intros [h Hh]. destruct (links_only_entry c c' e h Hl Hh) as (h' & ? & _). by eexists. Qed.

Lemma update_spec e f c : is_Some (heap c !! e) -> ∃ h, heap c !! e = Some h ∧ update e f c = Some (set_heap (<[e := f h]> (heap c)) c).
Proof. intros [h Hh]. exists h. split; [done|]. unfold update. by rewrite Hh. Qed.

Lemma put_next_spec n x c : valid_node c n -> ∃ c', put_next n x c = Some c' ∧ links_only c c' ∧
  (∀ m, get_next m c' = if decide (m = n) then Some x else get_next m c) ∧ (∀ m, get_prev m c' = get_prev m c).
Proof.
  destruct n as [l|e]; intros Hv; simpl.
  - eexists. split; [done|]. split; [by split|]. split; [|by intros []]. intros [l'|e']; cbn [get_next get_prev set_heads head_next head_prev heap]; [|by rewrite decide_False].
    destruct (decide (l' = l)) as [->|Hne]; [by rewrite decide_True|]. rewrite decide_False; [done|]. congruence.
  - destruct (update_spec e (set_next (Some x)) c Hv) as (h & Hh & ->). eexists. split; [done|]. split; [split; try done|split].
    + intros e'. simpl. destruct (decide (e' = e)) as [->|]; [by rewrite lookup_insert_eq, Hh|by rewrite lookup_insert_ne].
    + intros [l'|e']; cbn [get_next get_prev set_heap head_next head_prev heap]; [by rewrite decide_False|]. destruct (decide (e' = e)) as [->|].
      * rewrite lookup_insert_eq, decide_True by done. done.
      * rewrite lookup_insert_ne, decide_False; congruence || done.
    + intros [l'|e']; simpl; [done|]. destruct (decide (e' = e)) as [->|]; [by rewrite lookup_insert_eq, Hh|by rewrite lookup_insert_ne].
Qed.

Lemma put_prev_spec n x c : valid_node c n -> ∃ c', put_prev n x c = Some c' ∧ links_only c c' ∧
  (∀ m, get_prev m c' = if decide (m = n) then Some x else get_prev m c) ∧ (∀ m, get_next m c' = get_next m c).
Proof.
  destruct n as [l|e]; intros Hv; simpl.
  - eexists. split; [done|]. split; [by split|]. split; [|by intros []]. intros [l'|e']; cbn [get_next get_prev set_heads head_next head_prev heap]; [|by rewrite decide_False].
    destruct (decide (l' = l)) as [->|Hne]; [by rewrite decide_True|]. rewrite decide_False; [done|]. congruence.
  - destruct (update_spec e (set_prev (Some x)) c Hv) as (h & Hh & ->). eexists. split; [done|]. split; [split; try done|split].
    + intros e'. simpl. destruct (decide (e' = e)) as [->|]; [by rewrite lookup_insert_eq, Hh|by rewrite lookup_insert_ne].
    + intros [l'|e']; cbn [get_next get_prev set_heap head_next head_prev heap]; [by rewrite decide_False|]. destruct (decide (e' = e)) as [->|].
      * rewrite lookup_insert_eq, decide_True by done. done.
      * rewrite lookup_insert_ne, decide_False; congruence || done.
    + intros [l'|e']; simpl; [done|]. destruct (decide (e' = e)) as [->|]; [by rewrite lookup_insert_eq, Hh|by rewrite lookup_insert_ne].
Qed.

Lemma LRU_Remove_spec e n p c : get_next (Entry e) c = Some n -> get_prev (Entry e) c = Some p -> n ≠ Entry e -> p ≠ Entry e ->
  valid_node c n -> valid_node c p -> ∃ c', LRU_Remove e c = Some c' ∧ links_only c c' ∧
  (∀ m, get_next m c' = if decide (m = p) then Some n else get_next m c) ∧
  (∀ m, get_prev m c' = if decide (m = n) then Some p else get_prev m c).
Proof.
  intros Hn Hp Hne Hpe Hvn Hvp. unfold LRU_Remove. rewrite Hn. cbn [mbind option_bind]. rewrite Hp. cbn [mbind option_bind].
  destruct (put_prev_spec n p c Hvn) as (c1 & -> & L1 & P1 & N1). cbn [mbind option_bind].
  rewrite P1, decide_False by done. rewrite Hp. cbn [mbind option_bind]. rewrite N1, Hn. cbn [mbind option_bind].
  destruct (put_next_spec p n c1) as (c2 & -> & L2 & N2 & P2); [by eapply links_only_valid|]. exists c2.
  split_and!; [done|by eapply links_only_trans| |].
  - intros m. by rewrite N2, N1.
  - intros m. by rewrite P2, P1.
Qed.

Lemma LRU_Append_spec l e p c : get_prev (ListHead l) c = Some p -> p ≠ Entry e -> valid_node c p -> is_Some (heap c !! e) ->
  ∃ c', LRU_Append l e c = Some c' ∧ links_only c c' ∧
  (∀ m, get_next m c' = if decide (m = p) then Some (Entry e) else if decide (m = Entry e) then Some (ListHead l) else get_next m c) ∧
  (∀ m, get_prev m c' = if decide (m = ListHead l) then Some (Entry e) else if decide (m = Entry e) then Some p else get_prev m c).
Proof.
  intros Hp Hpe Hvp He. unfold LRU_Append.
  destruct (put_next_spec (Entry e) (ListHead l) c He) as (c1 & -> & L1 & N1 & P1). cbn [mbind option_bind].
  rewrite P1, Hp. cbn [mbind option_bind].
  destruct (put_prev_spec (Entry e) p c1) as (c2 & -> & L2 & P2 & N2); [by eapply (links_only_valid c c1 (Entry e))|]. cbn [mbind option_bind].
  rewrite P2, decide_True by done. cbn [mbind option_bind].
  destruct (put_next_spec p (Entry e) c2) as (c3 & -> & L3 & N3 & P3); [by eapply links_only_valid; [|eapply links_only_valid]|]. cbn [mbind option_bind].
  rewrite N3, decide_False, N2, N1, decide_True by done. cbn [mbind option_bind].
  destruct (put_prev_spec (ListHead l) (Entry e) c3) as (c4 & -> & L4 & P4 & N4); [done|]. exists c4.
  split_and!; [done|by do 3 (eapply links_only_trans; [|done])| |].
  - intros m. by rewrite N4, N3, N2, N1.
  - intros m. by rewrite P4, P3, P2, P1.
Qed.

Definition nxf c (n : Node) : option Node := get_next n c.
Definition pvf c (n : Node) : option Node := get_prev n c.

(** *** Both lists at once *)

Definition other (l : WhichList) : WhichList := match l with lru_ => in_use_ | in_use_ => lru_ end.

Record lists c (L : WhichList -> list nat) : Prop := {
  ls_dl l : dl (nxf c) (pvf c) l (L l);
  ls_nodup : NoDup (L lru_ ++ L in_use_);
  ls_heap e l : e ∈ L l -> is_Some (heap c !! e);
}.

Lemma ls_nodup_one c L l : lists c L -> NoDup (L l).
Proof. intros H. pose proof (ls_nodup _ _ H) as Hn. apply list.NoDup_app in Hn as (? & ? & ?). by destruct l. Qed.

Lemma ls_disjoint c L l l' e : lists c L -> e ∈ L l -> e ∈ L l' -> l = l'.
Proof.
  intros H. pose proof (ls_nodup _ _ H) as Hn. apply list.NoDup_app in Hn as (_ & Hd & _). intros H1 H2.
  destruct l, l'; try done; exfalso; by eapply Hd.
Qed.

Definition set_list (L : WhichList -> list nat) (l : WhichList) (xs : list nat) (l' : WhichList) : list nat :=
  if decide (l' = l) then xs else L l'.

Lemma node_valid c L l n : lists c L -> n = ListHead l ∨ n ∈ Entry <$> L l -> valid_node c n.
Proof. intros H [->|(e & -> & He)%elem_of_entries]; [done|]. by eapply ls_heap. Qed.

Lemma LRU_Remove_lists e l X Y c L : lists c L -> L l = X ++ e :: Y ->
  ∃ c', LRU_Remove e c = Some c' ∧ links_only c c' ∧ lists c' (set_list L l (X ++ Y)).
Proof.
  intros HL El. pose proof (ls_dl _ _ HL l) as Hd. pose proof (ls_nodup_one c L l HL) as Hnd. rewrite El in Hd, Hnd.
  destruct (dl_remove _ _ l X e Y Hd Hnd) as (p & n & Hn & Hp & Hpin & Hnin & Hdl).
  assert (∀ m, (m = ListHead l ∨ m ∈ Entry <$> X ∨ m ∈ Entry <$> Y) -> m = ListHead l ∨ m ∈ Entry <$> L l) as Hin.
  { intros m Hm. rewrite El, fmap_app, fmap_cons, elem_of_app, elem_of_cons. tauto. }
  assert (e ∉ X ∧ e ∉ Y) as [HeX HeY].
  { apply list.NoDup_app in Hnd as (_ & Hdis & Hnd). apply list.NoDup_cons in Hnd as [HeY _]. split; [|done]. intros HX. apply (Hdis e HX). by left. }
  destruct (LRU_Remove_spec e n p c) as (c' & E & Hlo & HN & HP); [done|done| | | | |].
  { intros ->. destruct Hnin as [|(? & [= ->] & ?)%elem_of_entries]; done. }
  { intros ->. destruct Hpin as [|(? & [= ->] & ?)%elem_of_entries]; done. }
  { apply (node_valid c L l); [done|]. apply Hin. tauto. }
  { apply (node_valid c L l); [done|]. apply Hin. tauto. }
  exists c'. split_and!; [done|done|]. split.
  - intros l'. unfold set_list. case_decide as Hl; [subst l'; apply Hdl; [exact HN|exact HP]|].
    eapply dl_frame; [|by apply (ls_dl _ _ HL l')]. intros m Hm. unfold nxf, pvf. rewrite HN, HP.
    assert (¬ (m = ListHead l ∨ m ∈ Entry <$> L l)) as Hno.
    { intros [->|(e1 & -> & H1)%elem_of_entries]; [destruct Hm as [[= ->]|(? & ? & _)%elem_of_entries]; done|].
      destruct Hm as [|(e2 & [= ->] & H2)%elem_of_entries]; [done|]. apply Hl. by eapply ls_disjoint. }
    rewrite !decide_False; [done|intros ->..]; apply Hno, Hin; tauto.
  - unfold set_list. pose proof (ls_nodup _ _ HL) as Hn2. destruct l; simpl in *; rewrite El in Hn2.
    + rewrite <- !app_assoc in *. apply list.NoDup_app in Hn2 as (N1 & N2 & N3). apply list.NoDup_cons in N3 as [_ N3].
      apply list.NoDup_app. split_and!; [done| |done]. intros x Hx Hx'. apply (N2 x Hx). by right.
    + rewrite app_assoc in *. apply list.NoDup_app in Hn2 as (N1 & N2 & N3). apply list.NoDup_cons in N3 as [_ N3].
      apply list.NoDup_app. split_and!; [done| |done]. intros x Hx Hx'. apply (N2 x Hx). by right.
  - intros e' l' He'. assert (is_Some (heap c !! e')) as [h Hh].
    { unfold set_list in He'. case_decide; [subst l'; apply (ls_heap _ _ HL e' l); rewrite El; set_solver|by eapply ls_heap]. }
    destruct (links_only_entry c c' e' h Hlo Hh) as (h' & ? & _). by eexists.
Qed.

Lemma LRU_Append_lists l e c L : lists c L -> is_Some (heap c !! e) -> e ∉ L lru_ -> e ∉ L in_use_ ->
  ∃ c', LRU_Append l e c = Some c' ∧ links_only c c' ∧ lists c' (set_list L l (L l ++ [e])).
Proof.
  intros HL He Hn1 Hn2. assert (∀ l', e ∉ L l') as Hn by by intros [].
  destruct (dl_append _ _ l (L l) e (ls_dl _ _ HL l)) as (p & Hp & Hpin & Hdl).
  { apply list.NoDup_cons. split; [done|by eapply ls_nodup_one]. }
  destruct (LRU_Append_spec l e p c) as (c' & E & Hlo & HN & HP); [done| | |done|].
  { intros ->. destruct Hpin as [|(? & [= ->] & Hx)%elem_of_entries]; [done|]. by apply (Hn l). }
  { by apply (node_valid c L l). }
  exists c'. split_and!; [done|done|]. split.
  - intros l'. unfold set_list. case_decide as Hl; [subst l'; apply Hdl; [exact HN|exact HP]|].
    eapply dl_frame; [|by apply (ls_dl _ _ HL l')]. intros m Hm. unfold nxf, pvf. rewrite HN, HP.
    assert (¬ (m = ListHead l ∨ m ∈ Entry <$> L l)) as Hno.
    { intros [->|(e1 & -> & H1)%elem_of_entries]; [destruct Hm as [[= ->]|(? & ? & _)%elem_of_entries]; done|].
      destruct Hm as [|(e2 & [= ->] & H2)%elem_of_entries]; [done|]. apply Hl. by eapply ls_disjoint. }
    rewrite !decide_False; [done|..].
    + intros ->. destruct Hm as [|(? & [= ->] & Hx)%elem_of_entries]; [done|]. by apply (Hn l').
    + intros ->. apply Hno. by left.
    + intros ->. destruct Hm as [|(? & [= ->] & Hx)%elem_of_entries]; [done|]. by apply (Hn l').
    + intros ->. done.
  - unfold set_list. pose proof (ls_nodup _ _ HL) as Hnd. destruct l; simpl.
    + rewrite <- app_assoc. apply list.NoDup_app in Hnd as (N1 & N2 & N3). apply list.NoDup_app. split_and!; [done| |].
      * intros x Hx [->|Hx']%elem_of_cons; [done|]. by apply (N2 x).
      * by apply list.NoDup_cons.
    + rewrite app_assoc. apply list.NoDup_app. split_and!; [done| |apply NoDup_singleton].
      intros x Hx ->%list_elem_of_singleton. apply elem_of_app in Hx as []; done.
  - intros e' l' He'. assert (is_Some (heap c !! e')) as [h Hh].
    { unfold set_list in He'. case_decide; [|by eapply ls_heap]. apply elem_of_app in He' as [?| ->%list_elem_of_singleton]; [by eapply ls_heap|done]. }
    destruct (links_only_entry c c' e' h Hlo Hh) as (h' & ? & _). by eexists.
Qed.

End Lists.

(** ** The hash table *)

Section Table.

Context {V D : Type}.
Implicit Types (c : LRUCache V D) (h : LRUHandle V D) (m : gmap nat (LRUHandle V D)).

(** The chain that starts with the pointer [p]. *)
Fixpoint hchain m (p : option nat) (xs : list nat) : Prop :=
  match xs with
  | [] => p = None
  | x :: xs => p = Some x ∧ ∃ h, m !! x = Some h ∧ hchain m (next_hash h) xs
  end.

Lemma hchain_frame m m' p xs :
  (∀ x h, x ∈ xs -> m !! x = Some h -> ∃ h', m' !! x = Some h' ∧ next_hash h' = next_hash h) -> hchain m p xs -> hchain m' p xs.
Proof.
  revert p; induction xs as [|x xs IH]; intros p Hf; [done|]. intros [-> (h & Hh & Hc)]. split; [done|].
  destruct (Hf x h ltac:(by left) Hh) as (h' & Hh' & E). exists h'. split; [done|]. rewrite E. apply IH; [|done].
  intros y hy Hy. apply Hf. by right.
Qed.

Lemma hchain_insert m p xs e h : e ∉ xs -> hchain m p xs -> hchain (<[e := h]> m) p xs.
Proof. intros He. apply hchain_frame. intros x hx Hx Hm. exists hx. split; [|done]. rewrite lookup_insert_ne; [done|]. by intros ->. Qed.

Lemma hchain_heap m p xs x : hchain m p xs -> x ∈ xs -> is_Some (m !! x).
Proof.
  revert p; induction xs as [|y xs IH]; intros p; [by intros _ ?%elem_of_nil|]. intros [_ (h & Hh & Hc)] [->|Hx]%elem_of_cons; [by exists h|by eapply IH].
Qed.

(** The pointer after the prefix [A] of the chain in bucket [i]. *)
Definition slot_after (i : nat) (A : list nat) : Slot := match list.last A with None => Bucket i | Some e => NextHash e end.

Lemma hchain_read c i A B p : list_ c !! i = Some p -> hchain (heap c) p (A ++ B) ->
  ∃ q, read_slot (slot_after i A) c = Some q ∧ hchain (heap c) q B.
Proof.
  intros Hi. destruct A as [|a A _] using rev_ind.
  - intros Hc. exists p. split; [done|]. exact Hc.
  - unfold slot_after. rewrite last_snoc, <- app_assoc. simpl. clear Hi. revert p. induction A as [|x A IH]; intros p [_ (h & Hh & Hc)].
    + exists (next_hash h). rewrite Hh. done.
    + by eapply IH.
Qed.

Lemma hchain_write m p A a B h q C : hchain m p ((A ++ [a]) ++ B) -> m !! a = Some h -> NoDup (A ++ [a]) -> a ∉ C -> hchain m q C ->
  hchain (<[a := set_next_hash q h]> m) p ((A ++ [a]) ++ C).
Proof.
  intros Hch Ha Hnd HaC HC. revert p Hch Hnd. induction A as [|x A IH]; intros p Hch Hnd.
  - destruct Hch as [-> _]. split; [done|]. rewrite lookup_insert_eq. eexists. split; [done|]. by apply hchain_insert.
  - destruct Hch as [-> (hx & Hx & Hch)]. apply list.NoDup_cons in Hnd as [Hxn Hnd]. split; [done|]. exists hx.
    rewrite lookup_insert_ne; [|intros ->; apply Hxn, elem_of_app; right; by left]. split; [done|]. by apply IH.
Qed.

(** *** The table *)

Record table c (bks : list (list nat)) : Prop := {
  tb_length : length bks = length (list_ c);
  tb_size : Z.of_nat (length (list_ c)) = length_ c;
  tb_pow : ∃ k, 2 <= k <= 31 ∧ length_ c = 2 ^ k;
  tb_chain i xs : bks !! i = Some xs -> ∃ p, list_ c !! i = Some p ∧ hchain (heap c) p xs;
  tb_nodup : NoDup (concat bks);
  tb_bucket i xs e h : bks !! i = Some xs -> e ∈ xs -> heap c !! e = Some h -> bucket_of (length_ c) (h_hash h) = i;
  tb_keys e e' h h' : e ∈ concat bks -> e' ∈ concat bks -> heap c !! e = Some h -> heap c !! e' = Some h' ->
    h_hash h = h_hash h' -> h_key h = h_key h' -> e = e';
  tb_elems : elems_ c = Z.of_nat (length (concat bks));
  tb_small : Z.of_nat (length (concat bks)) < 2 ^ 31;
}.

Lemma elem_of_concat {A} (x : A) (ls : list (list A)) : x ∈ concat ls <-> ∃ i xs, ls !! i = Some xs ∧ x ∈ xs.
Proof.
  rewrite list_elem_of_In, in_concat. split.
  - intros (l & Hl%list_elem_of_In & Hx%list_elem_of_In). apply list_elem_of_lookup in Hl as [i Hi]. eauto.
  - intros (i & xs & Hi & Hx). exists xs. split; apply list_elem_of_In; [by eapply list_elem_of_lookup_2|done].
Qed.

Lemma table_heap c bks e : table c bks -> e ∈ concat bks -> is_Some (heap c !! e).
Proof. intros Ht (i & xs & Hi & He)%elem_of_concat. destruct (tb_chain _ _ Ht i xs Hi) as (p & _ & Hc). by eapply hchain_heap. Qed.

(** The table only looks at these members. *)
Definition hash_part h : option nat * Z * Slice := (next_hash h, h_hash h, h_key h).

Lemma table_frame c c' bks : table c bks -> list_ c' = list_ c -> length_ c' = length_ c -> elems_ c' = elems_ c ->
  (∀ e, e ∈ concat bks -> hash_part <$> heap c' !! e = hash_part <$> heap c !! e) -> table c' bks.
Proof.
  intros Ht El Elen Eel Hf.
  assert (∀ e h', e ∈ concat bks -> heap c' !! e = Some h' -> ∃ h, heap c !! e = Some h ∧ hash_part h' = hash_part h) as Hback.
  { intros e h' He Hh'. specialize (Hf e He). rewrite Hh' in Hf. symmetry in Hf. apply fmap_Some in Hf as (h & ? & ?). eauto. }
  destruct Ht as [T1 T2 T3 T4 T5 T6 T7 T8 T9]. split; rewrite ?El, ?Elen, ?Eel; try done.
  - intros i xs Hi. destruct (T4 i xs Hi) as (p & Hp & Hc). exists p. split; [done|]. eapply hchain_frame; [|exact Hc].
    intros x h Hx Hh. assert (x ∈ concat bks) as Hin by (apply elem_of_concat; eauto). specialize (Hf x Hin). rewrite Hh in Hf.
    apply fmap_Some in Hf as (h' & Hh' & E). exists h'. split; [done|]. by injection E.
  - intros i xs e h' Hi He Hh'. assert (e ∈ concat bks) as Hin by (apply elem_of_concat; eauto).
    destruct (Hback e h' Hin Hh') as (h & Hh & E). injection E as _ -> _. by eapply T6.
  - intros e e' h1 h1' He He' H1 H1' Eh Ek. destruct (Hback e h1 He H1) as (h & Hh & [= E1 E2 E3]).
    destruct (Hback e' h1' He' H1') as (h' & Hh' & [= F1 F2 F3]). eapply T7; [exact He|exact He'|exact Hh|exact Hh'|congruence|congruence].
Qed.

Lemma table_links c c' bks : links_only c c' -> table c bks -> table c' bks.
Proof.
  intros Hl Ht. apply (table_frame c); [done|by apply Hl..|]. intros e _. pose proof (lo_heap _ _ Hl e) as H.
  destruct (heap c' !! e) as [[]|], (heap c !! e) as [[]|]; by simplify_eq/=.
Qed.

Lemma bucket_lt c bks hash : table c bks -> (bucket_of (length_ c) hash < length bks)%nat.
Proof.
  intros Ht. destruct (tb_pow _ _ Ht) as (k & Hk & Hl). unfold bucket_of. rewrite (tb_length _ _ Ht).
  assert (2 ^ 2 <= 2 ^ k <= 2 ^ 31) by (split; apply Z.pow_le_mono_r; lia). rewrite Hl, u32_small by lia.
  rewrite <- (Z.ones_equiv k) || rewrite Z.sub_1_r, <- Z.ones_equiv. rewrite Z.land_ones by lia.
  pose proof (Z.mod_pos_bound hash (2 ^ k) ltac:(lia)). pose proof (tb_size _ _ Ht). lia.
Qed.

Lemma chain_length m p xs : hchain m p xs -> NoDup xs -> (length xs <= base.size m)%nat.
Proof.
  intros Hc Hnd. rewrite <- size_dom. rewrite <- (size_list_to_set (C := gset nat) xs Hnd). apply subseteq_size.
  intros x Hx%elem_of_list_to_set. apply elem_of_dom. by eapply hchain_heap.
Qed.

Lemma bucket_nodup (bks : list (list nat)) i xs : NoDup (concat bks) -> bks !! i = Some xs -> NoDup xs.
Proof.
  intros Hnd Hi. rewrite <- (take_drop_middle bks i xs Hi), concat_app in Hnd. apply list.NoDup_app in Hnd as (_ & _ & Hnd).
  simpl in Hnd. by apply list.NoDup_app in Hnd as (? & _).
Qed.

Definition matches key hash h : Prop := h_hash h = hash ∧ h_key h = key.

(** [FindPointer] stops after the entries that do not match. *)
Lemma FindPointer_spec c bks key hash : table c bks ->
  ∃ A B, let i := bucket_of (length_ c) hash in
    bks !! i = Some (A ++ B) ∧ FindPointer key hash c = Some (slot_after i A) ∧
    (∃ q, read_slot (slot_after i A) c = Some q ∧ hchain (heap c) q B) ∧
    (∀ e h, e ∈ A -> heap c !! e = Some h -> ¬ matches key hash h) ∧
    (∀ e, head B = Some e -> ∃ h, heap c !! e = Some h ∧ matches key hash h).
Proof.
  intros Ht. set (i := bucket_of (length_ c) hash). destruct (lookup_lt_is_Some_2 bks i) as [xs Hi]; [by apply bucket_lt|].
  destruct (tb_chain _ _ Ht i xs Hi) as (p & Hp & Hc). pose proof (bucket_nodup bks i xs (tb_nodup _ _ Ht) Hi) as Hnd.
  pose proof (chain_length _ _ _ Hc Hnd) as Hlen. unfold FindPointer. fold i.
  assert (∀ n A B, xs = A ++ B -> (length B < n)%nat -> (∀ e h, e ∈ A -> heap c !! e = Some h -> ¬ matches key hash h) ->
    ∃ A' B', xs = A' ++ B' ∧ find_pointer_loop n key hash (slot_after i A) c = Some (slot_after i A') ∧
      (∃ q, read_slot (slot_after i A') c = Some q ∧ hchain (heap c) q B') ∧
      (∀ e h, e ∈ A' -> heap c !! e = Some h -> ¬ matches key hash h) ∧
      (∀ e, head B' = Some e -> ∃ h, heap c !! e = Some h ∧ matches key hash h)) as Hloop.
  { induction n as [|n IH]; intros A B Exs Hn HA; [lia|]. cbn [find_pointer_loop]. rewrite Exs in Hc.
    destruct (hchain_read c i A B p Hp Hc) as (q & Hq & HqB). rewrite Hq. cbn [mbind option_bind]. destruct B as [|e B].
    - simpl in HqB. subst q. exists A, []. split_and!; try done. by exists None.
    - destruct HqB as [-> (h & Hh & HB)]. rewrite Hh. cbn [mbind option_bind].
      destruct (negb (h_hash h =? hash) || negb (slice_eqb key (h_key h))) eqn:Em.
      + replace (NextHash e) with (slot_after i (A ++ [e])) by (unfold slot_after; by rewrite last_snoc).
        apply (IH (A ++ [e]) B); [by rewrite <- app_assoc|simpl in Hn; lia|].
        intros e' h' [He'|He']%elem_of_app Hh'; [by eapply HA|]. apply list_elem_of_singleton in He' as ->. simplify_eq. intros [M1 M2].
        apply orb_true_iff in Em as [Em|Em]; apply negb_true_iff in Em; [by apply Z.eqb_neq in Em|].
        assert (slice_eqb key (h_key h) = true) by by rewrite slice_eqb_spec. congruence.
      + apply orb_false_iff in Em as [E1 E2]. apply negb_false_iff in E1, E2. apply Z.eqb_eq in E1. apply slice_eqb_spec in E2.
        exists A, (e :: B). split_and!; try done; [exists (Some e); split; [done|]; split; eauto|]. intros e' [= <-]. exists h. by split. }
  destruct (Hloop (S (base.size (heap c))) [] xs) as (A & B & Exs & E & Hq & HA & HB); [done|lia|by intros ? ? ?%elem_of_nil|].
  exists A, B. cbv zeta. rewrite <- Exs. done.
Qed.

(** The entry of a key, if the table has one. *)
Lemma table_Lookup_spec c bks key hash : table c bks ->
  ∃ r, table_Lookup key hash c = Some r ∧
    match r with
    | Some e => e ∈ concat bks ∧ ∃ h, heap c !! e = Some h ∧ matches key hash h
    | None => ∀ e h, e ∈ concat bks -> heap c !! e = Some h -> ¬ matches key hash h
    end.
Proof.
  intros Ht. destruct (FindPointer_spec c bks key hash Ht) as (A & B & Hi & Ef & (q & Hq & HqB) & HA & HB).
  unfold table_Lookup. rewrite Ef. cbn [mbind option_bind]. rewrite Hq. exists q. split; [done|]. destruct B as [|e B]; simpl in HqB.
  - subst q. intros e h (i & xs & Hx & He)%elem_of_concat Hh Hm.
    assert (i = bucket_of (length_ c) hash) as -> by (destruct Hm as [<- _]; symmetry; by eapply tb_bucket).
    rewrite Hx in Hi. injection Hi as ->. rewrite app_nil_r in He. by eapply HA.
  - destruct HqB as [-> _]. split; [apply elem_of_concat; eexists _, _; split; [done|]; set_solver|]. by apply HB.
Qed.

(** *** Changing the table *)

Record hash_only c c' : Prop := {
  ho_capacity : capacity_ c' = capacity_ c;
  ho_usage : usage_ c' = usage_ c;
  ho_next : head_next c' = head_next c;
  ho_prev : head_prev c' = head_prev c;
  ho_calls : calls c' = calls c;
  ho_heap e : set_next_hash None <$> heap c' !! e = set_next_hash None <$> heap c !! e;
}.

Lemma hash_only_refl c : hash_only c c.
Proof. by split. Qed.

Lemma hash_only_trans c1 c2 c3 : hash_only c1 c2 -> hash_only c2 c3 -> hash_only c1 c3.
Proof. intros [] []. split; congruence. Qed.

Lemma hash_only_entry c c' e h : hash_only c c' -> heap c !! e = Some h -> ∃ x, heap c' !! e = Some (set_next_hash x h).
Proof.
  intros Hh He. pose proof (ho_heap _ _ Hh e) as H. rewrite He in H. apply fmap_Some in H as (h' & Hh' & E).
  exists (next_hash h'). rewrite Hh'. f_equal. destruct h, h'. by simplify_eq/=.
Qed.

Lemma hash_only_entry' c c' e h' : hash_only c c' -> heap c' !! e = Some h' -> ∃ h x, heap c !! e = Some h ∧ h' = set_next_hash x h.
Proof.
  intros Hh He. pose proof (ho_heap _ _ Hh e) as H. rewrite He in H. symmetry in H. apply fmap_Some in H as (h & Hh' & E).
  exists h, (next_hash h'). split; [done|]. destruct h, h'. by simplify_eq/=.
Qed.

Lemma hash_only_insert c e h x : heap c !! e = Some h -> hash_only c (set_heap (<[e := set_next_hash x h]> (heap c)) c).
Proof.
  intros He. split; try done. intros e'. simpl. destruct (decide (e' = e)) as [->|]; [by rewrite lookup_insert_eq, He|by rewrite lookup_insert_ne].
Qed.

Lemma hash_only_lists c c' L : hash_only c c' -> lists c L -> lists c' L.
Proof.
  intros Hh HL. assert (∀ n, nxf c' n = nxf c n ∧ pvf c' n = pvf c n) as Hnp.
  { intros [l|e]; unfold nxf, pvf; simpl; [by rewrite (ho_next _ _ Hh), (ho_prev _ _ Hh)|]. pose proof (ho_heap _ _ Hh e) as H.
    destruct (heap c' !! e) as [[]|], (heap c !! e) as [[]|]; by simplify_eq/=. }
  split; [|by apply HL|].
  - intros l. eapply dl_frame; [|by apply (ls_dl _ _ HL)]. intros n _. apply Hnp.
  - intros e l He. destruct (ls_heap _ _ HL e l He) as [h Hx]. destruct (hash_only_entry c c' e h Hh Hx) as [x ->]. by eexists.
Qed.

(** Writing through the pointer after [A] makes [C] the rest of the chain. *)
Lemma write_slot_spec c i A B p q C : list_ c !! i = Some p -> hchain (heap c) p (A ++ B) -> NoDup (A ++ B) ->
  hchain (heap c) q C -> (∀ x, x ∈ A -> x ∉ C) ->
  ∃ c' p', write_slot (slot_after i A) q c = Some c' ∧ hash_only c c' ∧ length_ c' = length_ c ∧ elems_ c' = elems_ c ∧
    list_ c' = <[i := p']> (list_ c) ∧ hchain (heap c') p' (A ++ C) ∧ (∀ x, x ∉ A -> heap c' !! x = heap c !! x).
Proof.
  intros Hi Hc Hnd HC Hdis. destruct A as [|a A _] using rev_ind; unfold slot_after.
  - simpl. rewrite (proj2 (Nat.ltb_lt _ _) (lookup_lt_Some _ _ _ Hi)). eexists _, q. split; [done|]. split_and!; done.
  - rewrite last_snoc. simpl. apply list.NoDup_app in Hnd as (Hnd & _ & _).
    assert (is_Some (heap c !! a)) as Ha by (eapply hchain_heap; [exact Hc|]; set_solver).
    destruct (update_spec a (set_next_hash q) c Ha) as (h & Hh & ->). eexists _, p. split; [done|].
    split_and!; try done; [by apply hash_only_insert| | |].
    + simpl. by rewrite list_insert_id.
    + simpl. apply (hchain_write _ _ _ _ B); [done|done|done|apply Hdis; set_solver|done].
    + intros x Hx. simpl. rewrite lookup_insert_ne; [done|]. set_solver.
Qed.

(** What is in the other buckets. *)
Lemma concat_insert {A} (ls : list (list A)) i xs zs : ls !! i = Some xs ->
  ∃ rest, concat ls ≡ₚ xs ++ rest ∧ concat (<[i := zs]> ls) ≡ₚ zs ++ rest ∧
    (∀ j ys, j ≠ i -> ls !! j = Some ys -> ∀ y, y ∈ ys -> y ∈ rest).
Proof.
  intros Hi. exists (concat (take i ls) ++ concat (drop (S i) ls)). split_and!.
  - rewrite <- (take_drop_middle ls i xs Hi) at 1. rewrite concat_app. simpl. by rewrite Permutation_app_swap_app.
  - rewrite insert_take_drop by by eapply lookup_lt_Some. rewrite concat_app. simpl. by rewrite Permutation_app_swap_app.
  - intros j ys Hj Hys y Hy. apply elem_of_app. rewrite !elem_of_concat. destruct (decide (j < i)%nat) as [Hlt|Hge].
    + left. exists j, ys. by rewrite lookup_take_lt.
    + right. exists (j - S i)%nat, ys. rewrite lookup_drop. replace (S i + (j - S i))%nat with j by lia. done.
Qed.

(** A bucket is replaced; [es] of its entries may be new. *)
Lemma table_set_bucket c c' bks i A B C p' : table c bks -> bks !! i = Some (A ++ B) -> hash_only c c' -> length_ c' = length_ c ->
  list_ c' = <[i := p']> (list_ c) -> hchain (heap c') p' (A ++ C) -> (∀ x, x ∉ A -> heap c' !! x = heap c !! x) ->
  NoDup (concat (<[i := A ++ C]> bks)) -> Z.of_nat (length (concat (<[i := A ++ C]> bks))) < 2 ^ 31 -> elems_ c' = Z.of_nat (length (concat (<[i := A ++ C]> bks))) ->
  (∀ e h, e ∈ C -> heap c !! e = Some h -> bucket_of (length_ c) (h_hash h) = i) ->
  (∀ e e' h h', e ∈ concat (<[i := A ++ C]> bks) -> e' ∈ concat (<[i := A ++ C]> bks) -> heap c !! e = Some h -> heap c !! e' = Some h' ->
    h_hash h = h_hash h' -> h_key h = h_key h' -> e = e') ->
  table c' (<[i := A ++ C]> bks).
Proof.
  intros Ht Hi Hho Hlen Hlist Hch Hother Hnd Hsmall Hel Hbk Hkeys. pose proof (lookup_lt_Some _ _ _ Hi) as Hil.
  destruct (concat_insert bks i (A ++ B) (A ++ C) Hi) as (rest & Hc1 & Hc2 & Hrest). pose proof Ht as [T1 T2 T3 T4 T5 T6 T7 T8 T9]. split.
  - by rewrite Hlist, !length_insert.
  - by rewrite Hlist, length_insert, Hlen.
  - by rewrite Hlen.
  - intros j xs. destruct (decide (j = i)) as [->|Hj].
    + rewrite list_lookup_insert_eq by done. intros [= <-]. exists p'. split; [|done]. rewrite Hlist, list_lookup_insert_eq; [done|lia].
    + rewrite list_lookup_insert_ne by done. intros Hx. destruct (T4 j xs Hx) as (p & Hp & Hc). exists p.
      rewrite Hlist, list_lookup_insert_ne by done. split; [done|]. eapply hchain_frame; [|exact Hc]. intros x h Hxx Hh. exists h. split; [|done].
      rewrite Hother; [done|]. intros HxA. rewrite Hc1 in T5. apply list.NoDup_app in T5 as (_ & Hd & _). apply (Hd x); [set_solver|].
      by eapply Hrest.
  - done.
  - intros j xs e h Hx He Hh. destruct (hash_only_entry' c c' e h Hho Hh) as (h0 & x0 & Hh0 & ->). rewrite Hlen. simpl.
    destruct (decide (j = i)) as [->|Hj].
    + rewrite list_lookup_insert_eq in Hx by done. injection Hx as <-. apply elem_of_app in He as [He|He]; [|by eapply Hbk].
      eapply T6; [exact Hi| |exact Hh0]. set_solver.
    + rewrite list_lookup_insert_ne in Hx by done. by eapply T6.
  - intros e e' h h' He He' Hh Hh' E1 E2. destruct (hash_only_entry' c c' e h Hho Hh) as (h0 & x0 & Hh0 & ->).
    destruct (hash_only_entry' c c' e' h' Hho Hh') as (h0' & x0' & Hh0' & ->). by eapply Hkeys.
  - done.
  - done.
Qed.

(** [Remove] takes the entry of the key out of the table. *)
Lemma table_Remove_spec c bks key hash : table c bks ->
  ∃ r c' bks', table_Remove key hash c = Some (r, c') ∧ hash_only c c' ∧ table c' bks' ∧
    match r with
    | Some e => concat bks ≡ₚ e :: concat bks' ∧ ∃ h, heap c !! e = Some h ∧ matches key hash h
    | None => c' = c ∧ bks' = bks ∧ ∀ e h, e ∈ concat bks -> heap c !! e = Some h -> ¬ matches key hash h
    end.
Proof.
  intros Ht. pose proof (table_Lookup_spec c bks key hash Ht) as (r0 & Er0 & Hr0).
  destruct (FindPointer_spec c bks key hash Ht) as (A & B & Hi & Ef & (q & Hq & HqB) & HA & HB).
  unfold table_Lookup in Er0. unfold table_Remove. rewrite Ef in *. cbn [mbind option_bind] in *. rewrite Hq in *. injection Er0 as <-.
  cbn [mbind option_bind]. destruct q as [r|]; cycle 1.
  { exists None, c, bks. split_and!; done || apply hash_only_refl. }
  destruct B as [|r' B]; [done|]. destruct HqB as [[= <-] (h & Hh & HB')]. rewrite Hh. cbn [fmap option_fmap option_map mbind option_bind].
  set (i := bucket_of (length_ c) hash) in *. destruct (tb_chain _ _ Ht i _ Hi) as (p & Hp & Hch).
  pose proof (bucket_nodup _ _ _ (tb_nodup _ _ Ht) Hi) as Hnd.
  destruct (write_slot_spec c i A (r :: B) p (next_hash h) B Hp Hch Hnd HB') as (c1 & p' & -> & Hho & Hlen & Hel & Hlist & Hch1 & Hoth).
  { intros x Hx HxB. apply list.NoDup_app in Hnd as (_ & Hd & _). apply (Hd x Hx). by right. }
  cbn [mbind option_bind]. exists (Some r). eexists _, (<[i := A ++ B]> bks).
  destruct (concat_insert bks i (A ++ r :: B) (A ++ B) Hi) as (rest & Hc1 & Hc2 & _).
  assert (concat bks ≡ₚ r :: concat (<[i := A ++ B]> bks)) as Hperm.
  { rewrite Hc1, Hc2. rewrite <- !app_assoc. simpl. symmetry. apply Permutation_middle. }
  assert (NoDup (r :: concat (<[i := A ++ B]> bks))) as Hnd' by (rewrite <- Hperm; apply Ht). apply list.NoDup_cons in Hnd' as [Hrn Hnd'].
  split_and!; [done|by destruct Hho| |done|by apply (HB r)].
  pose proof (tb_small _ _ Ht) as Hsm. pose proof (tb_elems _ _ Ht) as Hel0. rewrite Hperm in Hsm, Hel0. cbn [length] in Hsm, Hel0.
  apply (table_set_bucket c _ bks i A (r :: B) B p'); try done; [by destruct Hho|lia| | |].
  - simpl. rewrite Hel, Hel0, u32_small by lia. lia.
  - intros e h' He Hh'. eapply (tb_bucket _ _ Ht i); [exact Hi| |exact Hh']. set_solver.
  - intros e e' h1 h1' He He'. apply (tb_keys _ _ Ht); rewrite Hperm; by right.
Qed.

(** *** [Resize] *)

Lemma new_length_spec elems : 0 <= elems <= 2 ^ 31 -> ∃ k, new_length_loop 32 4 elems = Some (2 ^ k) ∧ 2 <= k <= 31 ∧ elems <= 2 ^ k.
Proof.
  intros He. assert (∀ n k, 2 <= k <= 31 -> 32 - k <= Z.of_nat n -> ∃ k', new_length_loop n (2 ^ k) elems = Some (2 ^ k') ∧ 2 <= k' <= 31 ∧ elems <= 2 ^ k') as H.
  { induction n as [|n IH]; intros k Hk Hn; [lia|]. cbn [new_length_loop]. destruct (Z.ltb_spec (2 ^ k) elems) as [Hlt|Hge]; [|by exists k].
    assert (k < 31) by (apply (Z.pow_lt_mono_r_iff 2); lia). rewrite Z.mul_comm, <- Z.pow_succ_r by lia.
    rewrite u32_small; [apply IH; lia|]. split; [lia|]. apply Z.pow_lt_mono_r; lia. }
  apply (H 32%nat 2); lia.
Qed.

(** The chains of a list of buckets; [len] is its length. *)
Record buckets m (len : Z) (ps : list (option nat)) (xss : list (list nat)) : Prop := {
  bu_length : length ps = length xss;
  bu_chain i p xs : ps !! i = Some p -> xss !! i = Some xs -> hchain m p xs;
  bu_bucket i xs e h : xss !! i = Some xs -> e ∈ xs -> m !! e = Some h -> bucket_of len (h_hash h) = i;
}.

Lemma bucket_range len hash k : 0 <= k <= 31 -> len = 2 ^ k -> (bucket_of len hash < Z.to_nat len)%nat.
Proof.
  intros Hk ->. unfold bucket_of. assert (2 ^ 0 <= 2 ^ k <= 2 ^ 31) by (split; apply Z.pow_le_mono_r; lia). rewrite u32_small by lia.
  rewrite Z.sub_1_r, <- Z.ones_equiv, Z.land_ones by lia. pose proof (Z.mod_pos_bound hash (2 ^ k) ltac:(lia)). lia.
Qed.

Lemma move_bucket_spec k n : 2 <= k <= 31 -> ∀ p xs ps c nb, (length xs <= n)%nat -> hchain (heap c) p xs ->
  buckets (heap c) (2 ^ k) ps nb -> length ps = Z.to_nat (2 ^ k) -> NoDup (concat nb ++ xs) ->
  Z.of_nat (length (concat nb ++ xs)) < 2 ^ 32 ->
  ∃ ps' c' nb', move_bucket n (2 ^ k) p (ps, c, Z.of_nat (length (concat nb))) = Some (ps', c', Z.of_nat (length (concat nb'))) ∧
    hash_only c c' ∧ list_ c' = list_ c ∧ length_ c' = length_ c ∧ elems_ c' = elems_ c ∧ buckets (heap c') (2 ^ k) ps' nb' ∧
    length ps' = length ps ∧ concat nb' ≡ₚ concat nb ++ xs ∧ (∀ x, x ∉ concat nb ++ xs -> heap c' !! x = heap c !! x).
Proof.
  intros Hk p xs. revert n p. induction xs as [|e xs IH]; intros n p ps c nb Hn Hch Hb Hps Hnd Hsm.
  { simpl in Hch. subst p. exists ps, c, nb. destruct n; (split; [done|]); split_and!; done || apply hash_only_refl || by rewrite app_nil_r. }
  destruct n as [|n]; simpl in Hn; [lia|]. destruct Hch as [-> (h & Hh & Hch)]. cbn [move_bucket]. rewrite Hh. cbn [mbind option_bind].
  set (i := bucket_of (2 ^ k) (h_hash h)). assert (i < length ps)%nat as Hi by (rewrite Hps; apply (bucket_range _ _ k); lia).
  destruct (lookup_lt_is_Some_2 ps i Hi) as [old Hold]. rewrite Hold. cbn [mbind option_bind].
  pose proof (bu_length _ _ _ _ Hb) as Hlen. destruct (lookup_lt_is_Some_2 nb i) as [ys Hys]; [lia|].
  unfold update. rewrite Hh. cbn [mbind option_bind]. set (c1 := set_heap _ c).
  assert (e ∉ concat nb ∧ e ∉ xs) as [Hen Hex].
  { apply list.NoDup_app in Hnd as (_ & Hd & Hnd). apply list.NoDup_cons in Hnd as [? _]. split; [|done]. intros Hin. apply (Hd e Hin). by left. }
  destruct (concat_insert nb i ys (e :: ys) Hys) as (rest & Hc1 & Hc2 & _).
  assert (concat (<[i := e :: ys]> nb) ≡ₚ e :: concat nb) as Hperm by (by rewrite Hc2, Hc1).
  assert (∀ j zs, nb !! j = Some zs -> e ∉ zs) as Hnot by (intros j zs Hj He; apply Hen, elem_of_concat; eauto).
  assert (buckets (heap c1) (2 ^ k) (<[i := Some e]> ps) (<[i := e :: ys]> nb)) as Hb1.
  { split; [by rewrite !length_insert| |].
    - intros j p zs. destruct (decide (j = i)) as [->|Hj].
      + rewrite !list_lookup_insert_eq by lia. intros [= <-] [= <-]. split; [done|]. exists (set_next_hash old h). simpl.
        rewrite lookup_insert_eq. split; [done|]. simpl. apply hchain_insert; [by eapply Hnot|]. by eapply bu_chain.
      + rewrite !list_lookup_insert_ne by done. intros Hp Hz. apply hchain_insert; [by eapply Hnot|]. by eapply bu_chain.
    - intros j zs x hx. simpl. destruct (decide (j = i)) as [->|Hj].
      + rewrite list_lookup_insert_eq by lia. intros [= <-] [->|Hx]%elem_of_cons; [rewrite lookup_insert_eq; by intros [= <-]|].
        rewrite lookup_insert_ne by (intros ->; by eapply Hnot). by apply (bu_bucket _ _ _ _ Hb i ys).
      + rewrite list_lookup_insert_ne by done. intros Hz Hx. rewrite lookup_insert_ne by (intros ->; by eapply Hnot).
        by apply (bu_bucket _ _ _ _ Hb j zs). }
  rewrite length_app in Hsm. cbn [length] in Hsm.
  replace (u32 (Z.of_nat (length (concat nb)) + 1)) with (Z.of_nat (length (concat (<[i := e :: ys]> nb)))).
  2: { rewrite Hperm. cbn [length]. rewrite u32_small; lia. }
  destruct (IH n (next_hash h) (<[i := Some e]> ps) c1 (<[i := e :: ys]> nb)) as (ps' & c' & nb' & -> & Hho & El & Elen & Eel & Hb' & Hps' & Hp' & Hoth).
  - lia.
  - by apply hchain_insert.
  - done.
  - by rewrite length_insert.
  - rewrite Hperm. simpl. rewrite Permutation_middle. done.
  - rewrite Hperm, length_app. cbn [length]. lia.
  - exists ps', c', nb'. split; [done|]. split_and!; try done.
    + eapply hash_only_trans; [by apply hash_only_insert|done].
    + by rewrite Hps', length_insert.
    + rewrite Hp', Hperm. simpl. apply Permutation_middle.
    + intros x Hx. rewrite Hoth; [simpl; rewrite lookup_insert_ne; [done|]; intros ->; set_solver|]. rewrite Hperm. set_solver.
Qed.

Lemma move_buckets_spec k n : 2 <= k <= 31 -> ∀ old xss ps c nb, length old = length xss ->
  (∀ j p xs, old !! j = Some p -> xss !! j = Some xs -> hchain (heap c) p xs ∧ (length xs <= n)%nat) ->
  buckets (heap c) (2 ^ k) ps nb -> length ps = Z.to_nat (2 ^ k) -> NoDup (concat nb ++ concat xss) ->
  Z.of_nat (length (concat nb ++ concat xss)) < 2 ^ 32 ->
  ∃ ps' c' nb', move_buckets n (2 ^ k) old (ps, c, Z.of_nat (length (concat nb))) = Some (ps', c', Z.of_nat (length (concat nb'))) ∧
    hash_only c c' ∧ list_ c' = list_ c ∧ length_ c' = length_ c ∧ elems_ c' = elems_ c ∧ buckets (heap c') (2 ^ k) ps' nb' ∧
    length ps' = length ps ∧ concat nb' ≡ₚ concat nb ++ concat xss.
Proof.
  intros Hk. induction old as [|p old IH]; intros [|xs xss] ps c nb Hl Hch Hb Hps Hnd Hsm; try done.
  { exists ps, c, nb. split; [done|]. split_and!; done || apply hash_only_refl || by rewrite app_nil_r. }
  cbn [concat] in *. rewrite app_assoc in Hnd, Hsm. destruct (Hch O p xs eq_refl eq_refl) as [Hp Hn]. cbn [move_buckets].
  pose proof Hnd as Hnd0. apply list.NoDup_app in Hnd0 as (Hnd1 & Hdis & _). rewrite length_app in Hsm.
  destruct (move_bucket_spec k n Hk p xs ps c nb Hn Hp Hb Hps Hnd1 ltac:(lia)) as (ps1 & c1 & nb1 & -> & Hho1 & El1 & Elen1 & Eel1 & Hb1 & Hps1 & Hp1 & Hoth1).
  cbn [mbind option_bind].
  destruct (IH xss ps1 c1 nb1) as (ps' & c' & nb' & -> & Hho & El & Elen & Eel & Hb' & Hps' & Hp').
  - simpl in Hl. lia.
  - intros j p0 xs0 Hj Hx. destruct (Hch (S j) p0 xs0 Hj Hx) as [Hc0 Hn0]. split; [|done]. eapply hchain_frame; [|exact Hc0].
    intros x h Hxx Hh. exists h. split; [|done]. rewrite Hoth1; [done|]. intros Hin. apply (Hdis x Hin). apply elem_of_concat. eauto.
  - done.
  - lia.
  - rewrite Hp1. done.
  - rewrite length_app, Hp1. lia.
  - exists ps', c', nb'. split; [done|]. split_and!; try congruence; [by eapply hash_only_trans|]. by rewrite Hp', Hp1, app_assoc.
Qed.

Lemma table_buckets c bks : table c bks -> buckets (heap c) (length_ c) (list_ c) bks.
Proof.
  intros Ht. split; [by rewrite (tb_length _ _ Ht)| |apply Ht]. intros i p xs Hp Hx. destruct (tb_chain _ _ Ht i xs Hx) as (p' & Hp' & Hc). by simplify_eq.
Qed.

Lemma Resize_spec c bks : table c bks ->
  ∃ c' bks', Resize c = Some c' ∧ hash_only c c' ∧ table c' bks' ∧ concat bks' ≡ₚ concat bks.
Proof.
  intros Ht. unfold Resize. pose proof (tb_small _ _ Ht) as Hsm. pose proof (tb_elems _ _ Ht) as Hel.
  destruct (new_length_spec (elems_ c)) as (k & -> & Hk & _); [lia|]. cbn [mbind option_bind].
  assert (2 ^ 2 <= 2 ^ k <= 2 ^ 31) as Hpow by (split; apply Z.pow_le_mono_r; lia).
  set (nl := Z.to_nat (2 ^ k)). rewrite take_ge by (pose proof (tb_size _ _ Ht); lia).
  assert (concat (replicate nl []) = ([] : list nat)) as Hnil by (generalize nl; clear; intros j; by induction j).
  destruct (move_buckets_spec k (S (base.size (heap c))) Hk (list_ c) bks (replicate nl None) c (replicate nl []))
    as (ps & c1 & nb & Em & Hho & El & Elen & Eel & Hb & Hps & Hp).
  - by rewrite (tb_length _ _ Ht).
  - intros j p xs Hj Hx. destruct (tb_chain _ _ Ht j xs Hx) as (p' & Hp' & Hc). simplify_eq. split; [done|].
    pose proof (chain_length _ _ _ Hc (bucket_nodup _ _ _ (tb_nodup _ _ Ht) Hx)). lia.
  - split; [by rewrite !length_replicate| |].
    + intros j p xs [-> _]%lookup_replicate [-> _]%lookup_replicate. done.
    + intros j xs e h [-> _]%lookup_replicate. by intros ?%elem_of_nil.
  - by rewrite length_replicate.
  - rewrite Hnil. apply Ht.
  - rewrite Hnil. simpl. lia.
  - rewrite Hnil in Em, Hp. simpl in Em, Hp. change (Z.of_nat 0) with 0 in Em. rewrite Em. cbn [mbind option_bind].
    assert (length (concat nb) = length (concat bks)) as Elc by by rewrite Hp. rewrite Eel, Hel, Elc, Z.eqb_refl. eexists _, nb. split; [done|]. split_and!; [by destruct Hho| |done].
    rewrite length_replicate in Hps. split; cbn [list_ length_ elems_ heap set_table].
    + symmetry. apply Hb.
    + rewrite Hps. unfold nl. lia.
    + by exists k.
    + intros i xs Hx. destruct (lookup_lt_is_Some_2 ps i) as [p Hpi]; [rewrite (bu_length _ _ _ _ Hb); by eapply lookup_lt_Some|].
      exists p. split; [done|]. by eapply bu_chain.
    + rewrite Hp. apply Ht.
    + apply Hb.
    + intros e e' h h' He He' Hh Hh'. rewrite Hp in He, He'. destruct (hash_only_entry' c c1 e h Hho Hh) as (h0 & x0 & Hh0 & ->).
      destruct (hash_only_entry' c c1 e' h' Hho Hh') as (h0' & x0' & Hh0' & ->). by apply (tb_keys _ _ Ht e e' h0 h0').
    + by rewrite Hp.
    + by rewrite Hp.
Qed.

(** *** [Insert] *)

Lemma table_update_other c bks e h x : table c bks -> e ∉ concat bks -> heap c !! e = Some h ->
  table (set_heap (<[e := set_next_hash x h]> (heap c)) c) bks.
Proof.
  intros Ht He Hh. apply (table_frame c); try done. intros e' He'. simpl. rewrite lookup_insert_ne; [done|]. by intros ->.
Qed.

Lemma table_Insert_spec c bks e h : table c bks -> e ∉ concat bks -> heap c !! e = Some h ->
  Z.of_nat (length (concat bks)) + 1 < 2 ^ 31 ->
  ∃ old c' bks', table_Insert e c = Some (old, c') ∧ hash_only c c' ∧ table c' bks' ∧
    match old with
    | Some o => (∃ rest, concat bks ≡ₚ o :: rest ∧ concat bks' ≡ₚ e :: rest) ∧ ∃ ho, heap c !! o = Some ho ∧ matches (h_key h) (h_hash h) ho
    | None => concat bks' ≡ₚ e :: concat bks ∧ ∀ e' h', e' ∈ concat bks -> heap c !! e' = Some h' -> ¬ matches (h_key h) (h_hash h) h'
    end.
Proof.
  intros Ht He Hh Hsm. pose proof (table_Lookup_spec c bks (h_key h) (h_hash h) Ht) as (r0 & Er0 & Hr0).
  destruct (FindPointer_spec c bks (h_key h) (h_hash h) Ht) as (A & B & Hi & Ef & (q & Hq & HqB) & HA & HB).
  unfold table_Lookup in Er0. unfold table_Insert. rewrite Hh. cbn [mbind option_bind]. rewrite Ef in *. cbn [mbind option_bind] in *.
  rewrite Hq in *. injection Er0 as <-. cbn [mbind option_bind].
  set (i := bucket_of (length_ c) (h_hash h)) in *. destruct (tb_chain _ _ Ht i _ Hi) as (p & Hp & Hch).
  pose proof (bucket_nodup _ _ _ (tb_nodup _ _ Ht) Hi) as Hnd.
  assert (∀ x, x ∈ A ++ B -> x ∈ concat bks) as Hin by (intros x Hx; apply elem_of_concat; eauto).
  assert (e ∉ A ++ B) as HeAB by (intros Hx; by apply He, Hin).
  (* the part both branches share: [e] takes the place of the head of [B] *)
  assert (∀ x B0, hchain (heap c) x B0 -> (∀ y, y ∈ B0 -> y ∈ B) -> NoDup (A ++ B0) ->
    ∃ c1 c2 p', update e (set_next_hash x) c = Some c1 ∧ write_slot (slot_after i A) (Some e) c1 = Some c2 ∧ hash_only c c2 ∧
      length_ c2 = length_ c ∧ elems_ c2 = elems_ c ∧ table c1 bks ∧ hash_only c1 c2 ∧ length_ c1 = length_ c ∧
      list_ c2 = <[i := p']> (list_ c1) ∧ hchain (heap c2) p' (A ++ e :: B0) ∧ (∀ y, y ∉ A -> heap c2 !! y = heap c1 !! y) ∧
      (∀ y, (∃ hy, heap c1 !! y = Some hy) -> ∃ hy x, heap c !! y = Some hy ∧ heap c1 !! y = Some (set_next_hash x hy))) as Hstep.
  { intros x B0 HB0 Hsub Hnd0. unfold update. rewrite Hh. cbn [mbind option_bind]. set (c1 := set_heap _ c).
    assert (hash_only c c1) as Hho1 by by apply hash_only_insert. assert (table c1 bks) as Ht1 by by apply table_update_other.
    destruct (write_slot_spec c1 i A B p (Some e) (e :: B0)) as (c2 & p' & E2 & Hho2 & Elen & Eel & Elist & Hch2 & Hoth).
    - done.
    - apply hchain_insert; done.
    - done.
    - split; [done|]. exists (set_next_hash x h). simpl. rewrite lookup_insert_eq. split; [done|]. simpl. apply hchain_insert; [|done].
      intros Hx. apply HeAB, elem_of_app. right. by apply Hsub.
    - intros y Hy [->|Hy']%elem_of_cons; [apply HeAB; set_solver|]. apply list.NoDup_app in Hnd0 as (_ & Hd & _). by apply (Hd y).
    - exists c1, c2, p'. split; [done|]. split; [done|]. split_and!; try done; [by eapply hash_only_trans|].
      intros y [hy Hy]. destruct (hash_only_entry' c c1 y hy Hho1 Hy) as (hy0 & x0 & ? & ->). eauto. }
  assert (∀ C rest, concat (<[i := A ++ C]> bks) ≡ₚ e :: rest -> (∀ y, y ∈ rest -> y ∈ concat bks) -> NoDup rest ->
    (∀ y hy, y ∈ rest -> heap c !! y = Some hy -> ¬ matches (h_key h) (h_hash h) hy) ->
    NoDup (concat (<[i := A ++ C]> bks)) ∧
    ∀ y y' hy hy', y ∈ concat (<[i := A ++ C]> bks) -> y' ∈ concat (<[i := A ++ C]> bks) -> heap c !! y = Some hy -> heap c !! y' = Some hy' ->
      h_hash hy = h_hash hy' -> h_key hy = h_key hy' -> y = y') as Hkeys.
  { intros C rest HC Hsub Hndr Hnom. split; [rewrite HC; apply list.NoDup_cons; split; [|done]; intros Hx; by apply He, Hsub|].
    intros y y' hy hy' Hy Hy' Hhy Hhy' E1 E2. rewrite HC in Hy, Hy'. apply elem_of_cons in Hy as [->|Hy], Hy' as [->|Hy'].
    - done.
    - simplify_eq. exfalso. by apply (Hnom y' hy').
    - simplify_eq. exfalso. by apply (Hnom y hy).
    - apply (tb_keys _ _ Ht y y' hy hy'); auto. }
  destruct q as [o|].
  - destruct B as [|o' B]; [done|]. destruct HqB as [[= <-] (ho & Hho & HB')]. destruct (HB o eq_refl) as (ho' & Hho' & Hm). simplify_eq.
    rewrite Hho. cbn [fmap option_fmap option_map mbind option_bind].
    destruct (Hstep (next_hash ho) B) as (c1 & c2 & p' & -> & E2 & Hho2 & Elen & Eel & Ht1 & Hho12 & Elen1 & Elist & Hch2 & Hoth & Hback);
      [done|by intros; right| |].
    { apply list.NoDup_app in Hnd as (N1 & N2 & N3). apply list.NoDup_cons in N3 as [_ N3]. apply list.NoDup_app.
      split_and!; [done| |done]. intros y Hy Hy'. apply (N2 y Hy). by right. }
    cbn [mbind option_bind]. rewrite E2. cbn [mbind option_bind]. exists (Some o), c2, (<[i := A ++ e :: B]> bks).
    destruct (concat_insert bks i (A ++ o :: B) (A ++ e :: B) Hi) as (rest & Hc1 & Hc2 & _).
    assert (concat bks ≡ₚ o :: A ++ B ++ rest) as P1.
    { rewrite Hc1, <- app_assoc. simpl. symmetry. apply Permutation_middle. }
    assert (concat (<[i := A ++ e :: B]> bks) ≡ₚ e :: A ++ B ++ rest) as P2.
    { rewrite Hc2, <- app_assoc. simpl. symmetry. apply Permutation_middle. }
    assert (NoDup (o :: A ++ B ++ rest)) as Hndo by (rewrite <- P1; apply Ht). apply list.NoDup_cons in Hndo as [Hon Hndr].
    destruct (Hkeys (e :: B) (A ++ B ++ rest) P2) as [K1 K2]; [intros y Hy; rewrite P1; by right|done| |].
    { intros y hy Hy Hhy [M1 M2]. destruct Hm as [M3 M4]. assert (y = o) as ->; [|done]. apply (tb_keys _ _ Ht y o hy ho); try congruence; rewrite P1; set_solver. }
    split_and!; [done|done| |by exists (A ++ B ++ rest)|by exists ho].
    pose proof (tb_small _ _ Ht) as Hs0. rewrite P1 in Hs0. cbn [length] in Hs0.
    apply (table_set_bucket c1 c2 bks i A (o :: B) (e :: B) p'); try done; [congruence|rewrite P2; cbn [length]; lia| | |].
    + rewrite Eel, (tb_elems _ _ Ht), P1, P2. done.
    + intros y hy Hy Hhy. destruct (Hback y) as (hy0 & x0 & Hy0 & Hy1); [eauto|]. rewrite Hy1 in Hhy. injection Hhy as <-. rewrite Elen1. simpl.
      apply elem_of_cons in Hy as [->|Hy]; [by simplify_eq|]. eapply (tb_bucket _ _ Ht i); [exact Hi| |exact Hy0]. set_solver.
    + intros y y' hy hy' Hy Hy' Hhy Hhy' E1' E2'. destruct (Hback y) as (hy0 & x0 & Hy0 & Hy1); [eauto|].
      destruct (Hback y') as (hy0' & x0' & Hy0' & Hy1'); [eauto|]. rewrite Hy1 in Hhy. rewrite Hy1' in Hhy'. injection Hhy as <-. injection Hhy' as <-.
      by apply (K2 y y' hy0 hy0').
  - assert (B = []) as -> by (destruct B; [done|]; by destruct HqB). cbn [mbind option_bind].
    destruct (Hstep None []) as (c1 & c2 & p' & -> & E2 & Hho2 & Elen & Eel & Ht1 & Hho12 & Elen1 & Elist & Hch2 & Hoth & Hback); [done|done|done|].
    cbn [mbind option_bind]. rewrite E2. cbn [mbind option_bind].
    destruct (concat_insert bks i (A ++ []) (A ++ [e]) Hi) as (rest & Hc1 & Hc2 & _).
    assert (concat (<[i := A ++ [e]]> bks) ≡ₚ e :: concat bks) as P2.
    { rewrite Hc1, Hc2, app_nil_r, <- app_assoc. simpl. symmetry. apply Permutation_middle. }
    destruct (Hkeys [e] (concat bks) P2) as [K1 K2]; [done|apply Ht|done|].
    set (c3 := set_table (length_ c2) (u32 (elems_ c2 + 1)) (list_ c2) c2).
    assert (table c3 (<[i := A ++ [e]]> bks)) as Ht3.
    { apply (table_set_bucket c1 c3 bks i A [] [e] p'); try done; [by destruct Hho12|unfold c3; simpl; congruence|rewrite P2; cbn [length]; lia| | |].
      - unfold c3. simpl. rewrite Eel, (tb_elems _ _ Ht), u32_small by lia. rewrite P2. cbn [length]. lia.
      - intros y hy ->%list_elem_of_singleton Hhy. destruct (Hback e) as (hy0 & x0 & Hy0 & Hy1); [eauto|]. rewrite Hy1 in Hhy. injection Hhy as <-.
        rewrite Elen1. simpl. by simplify_eq.
      - intros y y' hy hy' Hy Hy' Hhy Hhy' E1' E2'. destruct (Hback y) as (hy0 & x0 & Hy0 & Hy1); [eauto|].
        destruct (Hback y') as (hy0' & x0' & Hy0' & Hy1'); [eauto|]. rewrite Hy1 in Hhy. rewrite Hy1' in Hhy'. injection Hhy as <-. injection Hhy' as <-.
        by apply (K2 y y' hy0 hy0'). }
    assert (hash_only c c3) as Hho3 by (by destruct Hho2). cbv zeta. fold c3.
    destruct (length_ c3 <? elems_ c3).
    + destruct (Resize_spec c3 _ Ht3) as (c4 & bks4 & -> & Hho4 & Ht4 & P4). cbn [mbind option_bind]. exists None, c4, bks4.
      split_and!; [done|by eapply hash_only_trans|done|by rewrite P4, P2|done].
    + cbn [mbind option_bind]. exists None, c3, (<[i := A ++ [e]]> bks). split_and!; done.
Qed.

End Table.

(** * leveldb: the LRU cache refines a cache without pointers

    [LruSpec] is a cache made of two lists of handles, the unreferenced ones
    from oldest to newest and those in use, and a map from handles to what
    was inserted.  [sim] relates it to the lists, the hash table and the
    reference counts of cache.cc. *)

(** ** The specification *)

Section Spec.

Context {V D : Type} (malloc : gset nat -> nat).

Record info := MkInfo { f_value : V; f_deleter : D; f_charge : Z; f_key : Slice; f_hash : Z }.

(** [s_ext]: how often a client holds a handle. *)
Record LruSpec := MkSpec {
  s_capacity : Z;
  s_lru : list nat;
  s_use : list nat;
  s_info : gmap nat info;
  s_ext : nat -> Z;
  s_calls : list (D * Slice * V);
}.

Definition LruSpec_new (capacity : Z) : LruSpec := MkSpec capacity [] [] ∅ (fun _ => 0) [].

Definition s_members (s : LruSpec) : list nat := s_lru s ++ s_use s.

Definition charge_of (m : gmap nat info) (e : nat) : Z := match m !! e with Some i => f_charge i | None => 0 end.
Definition s_usage (s : LruSpec) : Z := u64 (foldr (fun e sum => charge_of (s_info s) e + sum) 0 (s_members s)).

Definition is_key (m : gmap nat info) (key : Slice) (hash : Z) (e : nat) : bool :=
  match m !! e with Some i => (f_hash i =? hash) && slice_eqb key (f_key i) | None => false end.

Definition s_find (key : Slice) (hash : Z) (s : LruSpec) : option nat := find (is_key (s_info s) key hash) (s_members s).

Definition bump (e : nat) (d : Z) (ext : nat -> Z) (x : nat) : Z := if decide (x = e) then ext x + d else ext x.

Definition without (e : nat) (xs : list nat) : list nat := base.filter (fun x => x ≠ e) xs.

Definition s_reference (e : nat) (s : LruSpec) : LruSpec :=
  if decide (e ∈ s_lru s)
  then MkSpec (s_capacity s) (without e (s_lru s)) (s_use s ++ [e]) (s_info s) (bump e 1 (s_ext s)) (s_calls s)
  else MkSpec (s_capacity s) (s_lru s) (s_use s) (s_info s) (bump e 1 (s_ext s)) (s_calls s).

(** An entry that is neither cached nor held goes to its deleter. *)
Definition s_collect (e : nat) (s : LruSpec) : LruSpec :=
  match s_info s !! e with
  | Some i =>
      if decide (s_ext s e = 0 ∧ e ∉ s_members s)
      then MkSpec (s_capacity s) (s_lru s) (s_use s) (delete e (s_info s)) (s_ext s) (s_calls s ++ [(f_deleter i, f_key i, f_value i)])
      else s
  | None => s
  end.

Definition s_release (e : nat) (s : LruSpec) : LruSpec :=
  let ext := bump e (-1) (s_ext s) in
  if decide (e ∈ s_use s ∧ ext e = 0)
  then MkSpec (s_capacity s) (s_lru s ++ [e]) (without e (s_use s)) (s_info s) ext (s_calls s)
  else s_collect e (MkSpec (s_capacity s) (s_lru s) (s_use s) (s_info s) ext (s_calls s)).

(** The cache forgets an entry. *)
Definition s_drop (e : nat) (s : LruSpec) : LruSpec :=
  s_collect e (MkSpec (s_capacity s) (without e (s_lru s)) (without e (s_use s)) (s_info s) (s_ext s) (s_calls s)).

Definition s_drop_opt (e : option nat) (s : LruSpec) : LruSpec := match e with Some e => s_drop e s | None => s end.

(** The oldest entries go until the charges fit. *)
Fixpoint s_evict (n : nat) (s : LruSpec) : LruSpec :=
  match n, s_lru s with
  | S n, e :: _ => if s_capacity s <? s_usage s then s_evict n (s_drop e s) else s
  | _, _ => s
  end.

Definition s_insert (key : Slice) (hash : Z) (value : V) (charge : Z) (deleter : D) (s : LruSpec) : nat * LruSpec :=
  let e := malloc (dom (s_info s)) in
  let info := <[e := MkInfo value deleter charge key hash]> (s_info s) in
  let ext := bump e 1 (s_ext s) in
  let s' :=
    if 0 <? s_capacity s
    then s_drop_opt (s_find key hash s) (MkSpec (s_capacity s) (s_lru s) (s_use s ++ [e]) info ext (s_calls s))
    else MkSpec (s_capacity s) (s_lru s) (s_use s) info ext (s_calls s) in
  (e, s_evict (length (s_lru s')) s').

Definition s_lookup (key : Slice) (hash : Z) (s : LruSpec) : option nat * LruSpec :=
  match s_find key hash s with
  | Some e => (Some e, s_reference e s)
  | None => (None, s)
  end.

Definition s_erase (key : Slice) (hash : Z) (s : LruSpec) : LruSpec := s_drop_opt (s_find key hash s) s.

Definition s_prune (s : LruSpec) : LruSpec := foldl (fun s e => s_drop e s) s (s_lru s).

End Spec.

Arguments info : clear implicits.
Arguments LruSpec : clear implicits.

(** ** Lists and sums *)

Lemma without_notin e xs : e ∉ xs -> without e xs = xs.
Proof.
  induction xs as [|x xs IH]; intros He; [done|]. unfold without in *. rewrite filter_cons_True by set_solver. f_equal. apply IH. set_solver.
Qed.

Lemma without_split e X Y : NoDup (X ++ e :: Y) -> without e (X ++ e :: Y) = X ++ Y.
Proof.
  intros Hnd. apply list.NoDup_app in Hnd as (_ & Hd & HY). apply list.NoDup_cons in HY as [HeY _].
  assert (e ∉ X) as HeX by (intros Hx; apply (Hd e Hx); by left). unfold without. rewrite list.filter_app, filter_cons_False by auto.
  pose proof (without_notin e X HeX) as E1. pose proof (without_notin e Y HeY) as E2. unfold without in E1, E2. by rewrite E1, E2.
Qed.

Lemma elem_of_without e x xs : x ∈ without e xs <-> x ∈ xs ∧ x ≠ e.
Proof. unfold without. rewrite list_elem_of_filter. tauto. Qed.

Section Sum.

Context {V D : Type}.
Implicit Types (m : gmap nat (info V D)).

Definition csum m (xs : list nat) : Z := foldr (fun e sum => charge_of m e + sum) 0 xs.

Lemma csum_perm m xs ys : xs ≡ₚ ys -> csum m xs = csum m ys.
Proof. induction 1; simpl; unfold csum in *; lia. Qed.

Lemma csum_ext m m' xs : (∀ e, e ∈ xs -> m' !! e = m !! e) -> csum m' xs = csum m xs.
Proof.
  induction xs as [|x xs IH]; intros He; [done|]. unfold csum in *. simpl. unfold charge_of at 1 3. rewrite He by by left. f_equal. apply IH.
  intros e Hx. apply He. by right.
Qed.

End Sum.

(** ** The relation *)

Section Sim.

Context {V D : Type}.
Implicit Types (c : LRUCache V D) (h : LRUHandle V D) (s : LruSpec V D).

Definition info_of h : info V D := MkInfo (h_value h) (h_deleter h) (charge h) (h_key h) (h_hash h).

Definition lists_of s (l : WhichList) : list nat := match l with lru_ => s_lru s | in_use_ => s_use s end.

(** What holds of a handle: its entry, its counts, its place. *)
Record entry_ok c s (e : nat) : Prop := {
  eo_info : info_of <$> heap c !! e = s_info s !! e;
  eo_entry h : heap c !! e = Some h ->
    in_cache h = bool_decide (e ∈ s_members s) ∧ refs h = s_ext s e + (if in_cache h then 1 else 0);
  eo_ext : 0 <= s_ext s e < 2 ^ 32 - 1;
  eo_free : s_info s !! e = None -> s_ext s e = 0;
  eo_lru : e ∈ s_lru s -> s_ext s e = 0;
  eo_use : e ∈ s_use s -> 1 <= s_ext s e;
  eo_out : is_Some (s_info s !! e) -> e ∉ s_members s -> 1 <= s_ext s e;
}.

(** [pend]: entries that left the table and are about to leave the lists. *)
Record sim c s (bks : list (list nat)) (pend : list nat) : Prop := {
  sm_lists : lists c (lists_of s);
  sm_table : table c bks;
  sm_members : pend ++ concat bks ≡ₚ s_members s;
  sm_entries e : entry_ok c s e;
  sm_usage : usage_ c = s_usage s;
  sm_capacity : capacity_ c = s_capacity s;
  sm_calls : calls c = s_calls s;
}.

(** The members an entry keeps when its pointers change. *)
Definition core h : info V D * bool * Z := (info_of h, in_cache h, refs h).

Lemma entry_ok_same c s c' s' x : entry_ok c s x -> core <$> heap c' !! x = core <$> heap c !! x -> s_info s' !! x = s_info s !! x ->
  s_ext s' x = s_ext s x -> (x ∈ s_lru s' <-> x ∈ s_lru s) -> (x ∈ s_use s' <-> x ∈ s_use s) -> entry_ok c' s' x.
Proof.
  intros [E1 E2 E3 E4 E5 E6 E7] Hc Hi He Hl Hu.
  assert (x ∈ s_members s' <-> x ∈ s_members s) as Hm by (unfold s_members; rewrite !elem_of_app; tauto).
  split; rewrite ?Hi, ?He, ?Hl, ?Hu, ?Hm; try done.
  - rewrite <- E1. apply (f_equal (fmap (fun y : info V D * bool * Z => y.1.1))) in Hc. by rewrite <- !option_fmap_compose in Hc.
  - intros h' Hh'. rewrite Hh' in Hc. symmetry in Hc. apply fmap_Some in Hc as (h & Hh & Ec). destruct (E2 h Hh) as [H1 H2].
    pose proof (f_equal (fun y : info V D * bool * Z => y.1.2) Ec) as Ei. pose proof (f_equal snd Ec) as Er. cbn in Ei, Er.
    rewrite Ei, Er. split; [|done]. rewrite H1. apply bool_decide_ext. by rewrite Hm.
Qed.

(** A change that concerns the handle [e]. *)
Lemma sim_change c s bks pend c' s' bks' pend' e : sim c s bks pend -> lists c' (lists_of s') -> table c' bks' ->
  pend' ++ concat bks' ≡ₚ s_members s' ->
  (∀ x, x ≠ e -> core <$> heap c' !! x = core <$> heap c !! x ∧ s_info s' !! x = s_info s !! x ∧ s_ext s' x = s_ext s x ∧
    (x ∈ s_lru s' <-> x ∈ s_lru s) ∧ (x ∈ s_use s' <-> x ∈ s_use s)) ->
  entry_ok c' s' e -> usage_ c' = s_usage s' -> capacity_ c' = s_capacity s' -> calls c' = s_calls s' -> sim c' s' bks' pend'.
Proof.
  intros Hs HL HT HM Hx He Hu Hcap Hcalls. split; try done. intros x. destruct (decide (x = e)) as [->|Hne]; [done|].
  destruct (Hx x Hne) as (H1 & H2 & H3 & H4 & H5). by apply (entry_ok_same c s), H5; [apply Hs|..].
Qed.

Lemma links_core c c' x : links_only c c' -> core <$> heap c' !! x = core <$> heap c !! x.
Proof. intros Hl. pose proof (lo_heap _ _ Hl x) as H. destruct (heap c' !! x) as [[]|], (heap c !! x) as [[]|]; by simplify_eq/=. Qed.

Lemma links_fields c c' e h : links_only c c' -> heap c !! e = Some h ->
  ∃ h', heap c' !! e = Some h' ∧ info_of h' = info_of h ∧ in_cache h' = in_cache h ∧ refs h' = refs h.
Proof.
  intros Hl Hh. destruct (links_only_entry c c' e h Hl Hh) as (h' & Hh' & Hd). exists h'. split; [done|]. destruct h, h'. by simplify_eq/=.
Qed.

Lemma hash_core c c' x : hash_only c c' -> core <$> heap c' !! x = core <$> heap c !! x.
Proof. intros Hl. pose proof (ho_heap _ _ Hl x) as H. destruct (heap c' !! x) as [[]|], (heap c !! x) as [[]|]; by simplify_eq/=. Qed.

Lemma lists_ext c L L' : (∀ l, L' l = L l) -> lists c L -> lists c L'.
Proof.
  intros E [H1 H2 H3]. split; [intros l; by rewrite E|by rewrite !E|]. intros e l He. rewrite E in He. by eapply H3.
Qed.

(** Updating members that lists and table do not use. *)
Lemma lists_update c e h f L : heap c !! e = Some h -> next (f h) = next h -> prev (f h) = prev h -> lists c L ->
  lists (set_heap (<[e := f h]> (heap c)) c) L.
Proof.
  intros He Hn Hp [H1 H2 H3]. split; [|done|].
  - intros l. eapply dl_frame; [|apply H1]. intros [l'|x] _; unfold nxf, pvf; simpl; [done|].
    destruct (decide (x = e)) as [->|]; [rewrite lookup_insert_eq, He; simpl; by rewrite Hn, Hp|by rewrite lookup_insert_ne].
  - intros x l Hx. simpl. destruct (decide (x = e)) as [->|]; [rewrite lookup_insert_eq; by eexists|rewrite lookup_insert_ne by done; by eapply H3].
Qed.

Lemma table_update c e h f bks : heap c !! e = Some h -> hash_part (f h) = hash_part h -> table c bks ->
  table (set_heap (<[e := f h]> (heap c)) c) bks.
Proof.
  intros He Hf Ht. apply (table_frame c); try done. intros x _. simpl.
  destruct (decide (x = e)) as [->|]; [rewrite lookup_insert_eq, He; simpl; by rewrite Hf|by rewrite lookup_insert_ne].
Qed.

Lemma sim_heap c s bks pend e : sim c s bks pend -> e ∈ s_members s -> is_Some (heap c !! e).
Proof. intros H [He|He]%elem_of_app; [apply (ls_heap _ _ (sm_lists _ _ _ _ H) e lru_ He)|apply (ls_heap _ _ (sm_lists _ _ _ _ H) e in_use_ He)]. Qed.

Lemma sim_nodup c s bks pend : sim c s bks pend -> NoDup (s_members s).
Proof. intros H. exact (ls_nodup _ _ (sm_lists _ _ _ _ H)). Qed.

Lemma in_list_split (xs : list nat) e : e ∈ xs -> ∃ X Y, xs = X ++ e :: Y.
Proof. intros (X & Y & ->)%list_elem_of_split. eauto. Qed.

(** The fields that a member of the lists has. *)
Lemma member_entry c s bks pend e : sim c s bks pend -> e ∈ s_members s ->
  ∃ h, heap c !! e = Some h ∧ in_cache h = true ∧ refs h = s_ext s e + 1 ∧ s_info s !! e = Some (info_of h).
Proof.
  intros Hs He. destruct (sim_heap c s bks pend e Hs He) as [h Hh]. pose proof (sm_entries _ _ _ _ Hs e) as Ho.
  destruct (eo_entry _ _ _ Ho h Hh) as [Hic Hr]. rewrite bool_decide_eq_true_2 in Hic by done. rewrite Hic in Hr.
  exists h. split_and!; try done. by rewrite <- (eo_info _ _ _ Ho), Hh.
Qed.

Lemma removed_notin c L l X Y e l' : lists c L -> L l = X ++ e :: Y -> e ∉ set_list L l (X ++ Y) l'.
Proof.
  intros HL El. unfold set_list. case_decide as E.
  - pose proof (ls_nodup_one _ _ l HL) as Hnd. rewrite El in Hnd. apply list.NoDup_app in Hnd as (_ & Hd & HY).
    apply list.NoDup_cons in HY as [HeY _]. rewrite elem_of_app. intros [Hx|]; [|done]. apply (Hd e Hx). by left.
  - intros He. apply E. eapply ls_disjoint; [done|exact He|]. rewrite El. set_solver.
Qed.

(** Moving an entry from one list to the other. *)
Lemma move_lists l e c L : lists c L -> e ∈ L l ->
  ∃ c', (c ← LRU_Remove e c; LRU_Append (other l) e c) = Some c' ∧ links_only c c' ∧
    lists c' (fun l' => if decide (l' = l) then without e (L l) else L (other l) ++ [e]).
Proof.
  intros HL He. destruct (in_list_split _ _ He) as (X & Y & El).
  pose proof (ls_nodup_one _ _ l HL) as Hnd. rewrite El in Hnd.
  destruct (LRU_Remove_lists e l X Y c _ HL El) as (c1 & -> & Hlo1 & HL1). cbn [mbind option_bind].
  assert (∀ l', e ∉ set_list L l (X ++ Y) l') as Hn by (intros l'; by eapply removed_notin).
  destruct (LRU_Append_lists (other l) e c1 _ HL1) as (c2 & -> & Hlo2 & HL2).
  - destruct (ls_heap _ _ HL e l He) as [h Hh]. destruct (links_only_entry c c1 e h Hlo1 Hh) as (h1 & ? & _). by eexists.
  - apply Hn.
  - apply Hn.
  - exists c2. split_and!; [done|by eapply links_only_trans|]. eapply lists_ext; [|exact HL2].
    intros l'. unfold set_list. case_decide as E1; [subst l'; rewrite decide_False by (by destruct l); by rewrite El, without_split|].
    destruct l, l'; done.
Qed.

Lemma elem_of_snoc (xs : list nat) e x : x ∈ xs ++ [e] <-> x ∈ xs ∨ x = e.
Proof. rewrite elem_of_app, list_elem_of_singleton. done. Qed.

Lemma members_move (X Y Z : list nat) e : (X ++ Y) ++ Z ++ [e] ≡ₚ (X ++ e :: Y) ++ Z.
Proof. by rewrite app_assoc, <- Permutation_cons_append, <- (Permutation_middle X Y e). Qed.

(** *** [Ref] *)

Lemma Ref_sim c s bks e : sim c s bks [] -> e ∈ s_members s -> s_ext s e + 1 < 2 ^ 32 - 1 ->
  ∃ c', Ref e c = Some c' ∧ sim c' (s_reference e s) bks [].
Proof.
  intros Hs He Hsm. destruct (member_entry c s bks [] e Hs He) as (h & Hh & Hic & Hr & Hi). pose proof (sm_entries _ _ _ _ Hs e) as Ho.
  pose proof (eo_ext _ _ _ Ho) as He0. unfold Ref. rewrite Hh. cbn [mbind option_bind]. rewrite Hic, andb_true_r.
  assert (∃ c1, (if refs h =? 1 then c ← LRU_Remove e c; LRU_Append in_use_ e c else Some c) = Some c1 ∧ links_only c c1 ∧
    lists c1 (lists_of (s_reference e s)) ∧ s_members (s_reference e s) ≡ₚ s_members s) as (c1 & -> & Hlo & HL & Hmem).
  { unfold s_reference. case_decide as Hl.
    - rewrite (proj2 (Z.eqb_eq (refs h) 1)) by (rewrite (eo_lru _ _ _ Ho Hl) in Hr; lia).
      destruct (move_lists lru_ e c _ (sm_lists _ _ _ _ Hs) Hl) as (c1 & E & Hlo & HL). exists c1. split_and!; [exact E|done| |].
      + eapply lists_ext; [|exact HL]. by intros [].
      + destruct (in_list_split _ _ Hl) as (X & Y & El). pose proof (ls_nodup_one _ _ lru_ (sm_lists _ _ _ _ Hs)) as Hnd. simpl in Hnd.
        unfold s_members. simpl. rewrite El in *. rewrite without_split by done. apply members_move.
    - apply elem_of_app in He as [|Hu]; [done|]. pose proof (eo_use _ _ _ Ho Hu).
      rewrite (proj2 (Z.eqb_neq (refs h) 1)) by lia. exists c. split_and!; [done|apply links_only_refl|apply Hs|done]. }
  cbn [mbind option_bind]. destruct (links_fields c c1 e h Hlo Hh) as (h1 & Hh1 & Hi1 & Hc1 & Hr1).
  unfold update. rewrite Hh1. cbn [mbind option_bind]. eexists. split; [done|]. set (f := fun h => set_refs (u32 (refs h + 1)) h).
  assert (s_info (s_reference e s) = s_info s ∧ s_ext (s_reference e s) = bump e 1 (s_ext s) ∧ s_calls (s_reference e s) = s_calls s ∧
    s_capacity (s_reference e s) = s_capacity s) as (Ei & Ee & Ec & Ecap) by (unfold s_reference; by case_decide).
  apply (sim_change c s bks [] _ _ _ _ e Hs).
  - by apply (lists_update c1 e h1 f).
  - apply (table_update c1 e h1 f); [done|done|]. eapply table_links, Hs. done.
  - rewrite Hmem. apply Hs.
  - intros x Hx. rewrite Ei, Ee. unfold bump. rewrite decide_False by done. split_and!; [|done|done|..].
    + simpl. rewrite lookup_insert_ne by done. by apply links_core.
    + unfold s_reference. case_decide; [|done]. simpl. rewrite elem_of_without. tauto.
    + unfold s_reference. case_decide; [|done]. simpl. rewrite elem_of_snoc. tauto.
  - split; rewrite ?Ei, ?Ee; unfold bump; rewrite ?decide_True by done; simpl; rewrite ?lookup_insert_eq.
    + rewrite Hi, <- Hi1. by destruct h1.
    + intros h' [= <-]. simpl. rewrite Hc1, Hr1, Hic. rewrite bool_decide_eq_true_2 by (by rewrite Hmem). split; [done|]. rewrite u32_small; lia.
    + lia.
    + by rewrite Hi.
    + unfold s_reference. case_decide; simpl; [rewrite elem_of_without; tauto|done].
    + lia.
    + lia.
  - simpl. rewrite (lo_usage _ _ Hlo), (sm_usage _ _ _ _ Hs). unfold s_usage. rewrite Ei. f_equal. apply csum_perm. by rewrite Hmem.
  - simpl. rewrite (lo_capacity _ _ Hlo), Ecap. apply Hs.
  - simpl. rewrite (lo_calls _ _ Hlo), Ec. apply Hs.
Qed.

(** *** Dropping references *)

Lemma lists_delete c e L : (∀ l, e ∉ L l) -> lists c L -> lists (set_heap (delete e (heap c)) c) L.
Proof.
  intros Hn [H1 H2 H3]. split; [|done|].
  - intros l. eapply dl_frame; [|apply H1]. intros n [->|(x & -> & Hx)%elem_of_entries]; [done|]. unfold nxf, pvf. simpl.
    rewrite lookup_delete_ne; [done|]. intros <-. by apply (Hn l).
  - intros x l Hx. simpl. rewrite lookup_delete_ne; [by eapply H3|]. intros <-. by apply (Hn l).
Qed.

Lemma table_delete c e bks : e ∉ concat bks -> table c bks -> table (set_heap (delete e (heap c)) c) bks.
Proof. intros Hn Ht. apply (table_frame c); try done. intros x Hx. simpl. rewrite lookup_delete_ne; [done|]. by intros ->. Qed.

Lemma not_member c s bks pend e l : sim c s bks pend -> e ∉ s_members s -> e ∉ lists_of s l.
Proof. intros _ Hn He. apply Hn, elem_of_app. destruct l; auto. Qed.

(** The second half of an entry's life: not in the cache, counted down. *)
Definition count_down (e : nat) h c : LRUCache V D :=
  if refs h - 1 =? 0 then set_heap (delete e (<[e := set_refs (refs h - 1) h]> (heap c))) (add_call (h_deleter h, h_key h, h_value h) c)
  else set_heap (<[e := set_refs (refs h - 1) h]> (heap c)) c.

Lemma Unref_out e h c : heap c !! e = Some h -> in_cache h = false -> 0 < refs h -> Unref e c = Some (count_down e h c).
Proof.
  intros Hh Hic Hr. unfold Unref, count_down, update. rewrite Hh. cbn [mbind option_bind]. rewrite (proj2 (Z.ltb_lt 0 (refs h)) Hr). cbn [negb].
  cbn [mbind option_bind]. rewrite Hic. by destruct (refs h - 1 =? 0).
Qed.

Lemma count_down_lists e h c L : heap c !! e = Some h -> (∀ l, e ∉ L l) -> lists c L -> lists (count_down e h c) L.
Proof.
  intros Hh Hn HL. unfold count_down. pose proof (lists_update c e h (set_refs (refs h - 1)) L Hh eq_refl eq_refl HL) as HL1.
  destruct (refs h - 1 =? 0); [|done]. destruct (lists_delete _ e L Hn HL1) as [D1 D2 D3]. by split.
Qed.

Lemma count_down_table e h c bks : heap c !! e = Some h -> e ∉ concat bks -> table c bks -> table (count_down e h c) bks.
Proof.
  intros Hh Hn HT. unfold count_down. pose proof (table_update c e h (set_refs (refs h - 1)) bks Hh eq_refl HT) as HT1.
  destruct (refs h - 1 =? 0); [|done]. destruct (table_delete _ e bks Hn HT1). by split.
Qed.

Lemma count_down_core e h c x : x ≠ e -> core <$> heap (count_down e h c) !! x = core <$> heap c !! x.
Proof. intros Hx. unfold count_down. case_match; simpl; [by rewrite lookup_delete_ne, lookup_insert_ne|by rewrite lookup_insert_ne]. Qed.

(** An entry outside the lists is counted down as the specification collects. *)
Lemma count_down_sim c0 s0 bks0 pend0 c e h s bks : sim c0 s0 bks0 pend0 -> heap c !! e = Some h -> in_cache h = false ->
  lists c (lists_of s) -> table c bks -> concat bks ≡ₚ s_members s -> e ∉ s_members s -> refs h = s_ext s e + 1 -> 0 <= s_ext s e < 2 ^ 32 - 1 ->
  s_info s !! e = Some (info_of h) ->
  (∀ x, x ≠ e -> core <$> heap c !! x = core <$> heap c0 !! x ∧ s_info s !! x = s_info s0 !! x ∧ s_ext s x = s_ext s0 x ∧
    (x ∈ s_lru s <-> x ∈ s_lru s0) ∧ (x ∈ s_use s <-> x ∈ s_use s0)) ->
  usage_ c = s_usage s -> capacity_ c = s_capacity s -> calls c = s_calls s ->
  sim (count_down e h c) (s_collect e s) bks [].
Proof.
  intros Hs0 Hh Hic HL HT HM Hn Hr Hext Hi Hx Hu Hcap Hcalls.
  assert (∀ l, e ∉ lists_of s l) as Hnl by (intros l He; apply Hn, elem_of_app; destruct l; auto).
  assert (lists_of (s_collect e s) = lists_of s ∧ s_members (s_collect e s) = s_members s ∧ s_ext (s_collect e s) = s_ext s ∧
    s_capacity (s_collect e s) = s_capacity s ∧ s_lru (s_collect e s) = s_lru s ∧ s_use (s_collect e s) = s_use s) as (El & Em & Ee & Ecap & E1 & E2).
  { unfold s_collect. rewrite Hi. by case_decide. }
  apply (sim_change c0 s0 bks0 pend0 _ _ _ _ e Hs0).
  - rewrite El. by apply count_down_lists.
  - apply count_down_table; [done| |done]. by rewrite HM.
  - by rewrite Em.
  - intros x Hxe. destruct (Hx x Hxe) as (X1 & X2 & X3 & X4 & X5). rewrite Ee, E1, E2, count_down_core by done. split_and!; try done.
    rewrite <- X2. unfold s_collect. rewrite Hi. case_decide; [|done]. simpl. by rewrite lookup_delete_ne.
  - unfold s_collect. rewrite Hi. unfold count_down. rewrite Hr, Z.add_simpl_r. destruct (Z.eqb_spec (s_ext s e) 0) as [E0|E0].
    + rewrite decide_True by done. split; simpl; rewrite ?lookup_delete_eq; try done; try lia;
        intros Hu'; exfalso; apply Hn, elem_of_app; auto.
    + rewrite decide_False by tauto. split; simpl; rewrite ?lookup_insert_eq, ?Hi; try done; try lia;
        [|intros Hl; exfalso; apply Hn, elem_of_app; auto].
      intros h' [= <-]. simpl. rewrite Hic, bool_decide_eq_false_2 by done. split; [done|lia].
  - transitivity (usage_ c); [unfold count_down; by case_match|]. rewrite Hu. unfold s_usage. rewrite Em. f_equal. symmetry. apply csum_ext.
    intros x Hxm. unfold s_collect. rewrite Hi. case_decide; [|done]. simpl. rewrite lookup_delete_ne; [done|]. by intros <-.
  - rewrite Ecap, <- Hcap. unfold count_down. by case_match.
  - unfold s_collect. rewrite Hi. unfold count_down. rewrite Hr, Z.add_simpl_r. destruct (Z.eqb_spec (s_ext s e) 0) as [E0|E0].
    + rewrite decide_True by done. simpl. by rewrite Hcalls.
    + rewrite decide_False by tauto. done.
Qed.

Lemma held_entry c s bks pend e : sim c s bks pend -> 1 <= s_ext s e -> ∃ h, heap c !! e = Some h ∧ s_info s !! e = Some (info_of h).
Proof.
  intros Hs He. pose proof (sm_entries _ _ _ _ Hs e) as Ho. pose proof (eo_info _ _ _ Ho) as Hi. destruct (heap c !! e) as [h|]; [by exists h|].
  rewrite (eo_free _ _ _ Ho) in He; [lia|]. by rewrite <- Hi.
Qed.

(** A client gives a handle back. *)
Lemma Unref_sim c s bks e : sim c s bks [] -> 1 <= s_ext s e -> ∃ c', Unref e c = Some c' ∧ sim c' (s_release e s) bks [].
Proof.
  intros Hs He. destruct (held_entry c s bks [] e Hs He) as (h & Hh & Hi). pose proof (sm_entries _ _ _ _ Hs e) as Ho.
  pose proof (eo_ext _ _ _ Ho) as Hext. destruct (eo_entry _ _ _ Ho h Hh) as [Hic Hr]. destruct (decide (e ∈ s_members s)) as [Hm|Hm].
  - rewrite bool_decide_eq_true_2 in Hic by done. rewrite Hic in Hr.
    assert (e ∈ s_use s) as Hu by (apply elem_of_app in Hm as [Hl|]; [pose proof (eo_lru _ _ _ Ho Hl); lia|done]).
    assert (e ∉ s_lru s) as Hnl by (intros Hl; pose proof (eo_lru _ _ _ Ho Hl); lia).
    unfold Unref, update. rewrite Hh. cbn [mbind option_bind]. rewrite (proj2 (Z.ltb_lt 0 (refs h))) by lia. cbn [negb mbind option_bind].
    rewrite (proj2 (Z.eqb_neq (refs h - 1) 0)) by lia. rewrite Hic. cbn [andb].
    set (f := set_refs (refs h - 1)). set (c1 := set_heap (<[e := f h]> (heap c)) c).
    assert (lists c1 (lists_of s)) as HL1 by (apply (lists_update c e h f); [done..|apply Hs]).
    assert (table c1 bks) as HT1 by (apply (table_update c e h f); [done..|apply Hs]).
    assert (heap c1 !! e = Some (f h)) as Hh1 by apply lookup_insert_eq.
    unfold s_release. assert (bump e (-1) (s_ext s) e = s_ext s e - 1) as Eb by (unfold bump; rewrite decide_True by done; lia).
    destruct (Z.eqb_spec (refs h - 1) 1) as [E1|E1].
    + rewrite decide_True by (split; [done|lia]). destruct (move_lists in_use_ e c1 _ HL1 Hu) as (c2 & E2 & Hlo & HL2).
      exists c2. split; [exact E2|]. destruct (links_fields c1 c2 e _ Hlo Hh1) as (h2 & Hh2 & Hi2 & Hc2 & Hr2).
      destruct (in_list_split _ _ Hu) as (X & Y & El). pose proof (ls_nodup_one _ _ in_use_ (sm_lists _ _ _ _ Hs)) as Hnd. simpl in Hnd.
      assert ((s_lru s ++ [e]) ++ without e (s_use s) ≡ₚ s_members s) as Hmem.
      { unfold s_members. rewrite El in *. rewrite without_split by done. rewrite <- app_assoc. simpl. apply Permutation_app_head, Permutation_middle. }
      apply (sim_change c s bks [] _ _ _ _ e Hs).
      * eapply lists_ext; [|exact HL2]. by intros [].
      * by eapply table_links.
      * unfold s_members. simpl. rewrite Hmem. apply Hs.
      * intros x Hx. simpl. unfold bump. rewrite decide_False, elem_of_without, elem_of_snoc by done. rewrite (links_core c1 c2 x Hlo).
        unfold c1. simpl. rewrite lookup_insert_ne by done. tauto.
      * split; simpl; rewrite ?Eb, ?Hh2, ?Hi, ?elem_of_without; try done; try lia.
        -- simpl. by rewrite Hi2.
        -- intros h' [= <-]. rewrite Hc2, Hr2. simpl. rewrite Hic. rewrite bool_decide_eq_true_2; [split; [done|lia]|].
           unfold s_members. simpl. by rewrite Hmem.
        -- intros _ Hn. exfalso. apply Hn. unfold s_members. simpl. by rewrite Hmem.
      * rewrite (lo_usage _ _ Hlo). unfold c1. simpl. rewrite (sm_usage _ _ _ _ Hs). unfold s_usage. f_equal. apply csum_perm. symmetry. exact Hmem.
      * rewrite (lo_capacity _ _ Hlo). apply Hs.
      * rewrite (lo_calls _ _ Hlo). apply Hs.
    + rewrite decide_False by lia. exists c1. split; [done|]. unfold s_collect. simpl. rewrite Hi, decide_False by lia.
      apply (sim_change c s bks [] _ _ _ _ e Hs); try done; try apply Hs.
      * intros x Hx. simpl. unfold bump. rewrite decide_False by done. by rewrite lookup_insert_ne.
      * split; simpl; rewrite ?Eb, ?Hi, ?lookup_insert_eq; try done; try lia.
        intros h' [= <-]. simpl. rewrite Hic, bool_decide_eq_true_2 by done. split; [done|lia].
  - rewrite bool_decide_eq_false_2 in Hic by done. rewrite Hic in Hr. exists (count_down e h c). split; [apply Unref_out; [done|done|lia]|].
    unfold s_release. rewrite decide_False by (intros [Hu _]; apply Hm, elem_of_app; auto).
    assert (bump e (-1) (s_ext s) e = s_ext s e - 1) as Eb by (unfold bump; rewrite decide_True by done; lia).
    apply (count_down_sim c s bks [] c e h _ bks Hs); try done; try apply Hs; simpl.
    + lia.
    + lia.
    + intros x Hx. unfold bump. by rewrite decide_False.
Qed.

Lemma drop_members s e : NoDup (s_members s) -> e ∈ s_members s -> s_members s ≡ₚ e :: without e (s_lru s) ++ without e (s_use s).
Proof.
  unfold s_members. intros Hnd He. assert (without e (s_lru s) ++ without e (s_use s) = without e (s_lru s ++ s_use s)) as ->
    by (unfold without; by rewrite list.filter_app).
  destruct (in_list_split _ _ He) as (X & Y & El). rewrite El in *. rewrite without_split by done. symmetry. apply Permutation_middle.
Qed.

(** The cache gives up an entry that left the table. *)
Lemma FinishErase_sim c s bks e : sim c s bks [e] -> ∃ c', FinishErase (Some e) c = Some (true, c') ∧ sim c' (s_drop e s) bks [].
Proof.
  intros Hs. assert (e ∈ s_members s) as Hm by (rewrite <- (sm_members _ _ _ _ Hs); by left).
  destruct (member_entry c s bks [e] e Hs Hm) as (h & Hh & Hic & Hr & Hi). pose proof (sim_nodup _ _ _ _ Hs) as Hnd.
  pose proof (drop_members s e Hnd Hm) as Hperm. pose proof (sm_entries _ _ _ _ Hs e) as Ho. pose proof (eo_ext _ _ _ Ho) as Hext.
  assert (∃ l, e ∈ lists_of s l) as [l Hl] by (apply elem_of_app in Hm as [?|?]; [by exists lru_|by exists in_use_]).
  destruct (in_list_split _ _ Hl) as (X & Y & El). pose proof (sm_lists _ _ _ _ Hs) as HL.
  destruct (LRU_Remove_lists e l X Y c _ HL El) as (c1 & E1 & Hlo & HL1). unfold FinishErase. rewrite Hh. cbn [mbind option_bind].
  rewrite Hic. cbn [negb]. rewrite E1. cbn [mbind option_bind]. destruct (links_fields c c1 e h Hlo Hh) as (h1 & Hh1 & Hi1 & Hc1 & Hr1).
  unfold update. rewrite Hh1. cbn [mbind option_bind]. set (c2 := set_heap _ c1). set (c3 := set_usage _ c2).
  set (h2 := set_in_cache false h1). assert (heap c3 !! e = Some h2) as Hh3 by apply lookup_insert_eq.
  rewrite (Unref_out e h2 c3 Hh3 eq_refl) by (simpl; rewrite Hr1; lia). cbn [mbind option_bind]. eexists. split; [done|].
  set (s1 := MkSpec (s_capacity s) (without e (s_lru s)) (without e (s_use s)) (s_info s) (s_ext s) (s_calls s)).
  assert (lists c2 (lists_of s1)) as HL2.
  { eapply lists_ext; [|apply (lists_update c1 e h1 (set_in_cache false)); [done|done|done|exact HL1]]. pose proof (ls_nodup_one _ _ l HL) as Hnl.
    intros l'. unfold set_list. case_decide as E; [subst l'; rewrite El in Hnl; rewrite <- (without_split e X Y Hnl), <- El; by destruct l|].
    assert (e ∉ lists_of s l') as Hne by (intros He'; apply E; exact (ls_disjoint c _ _ _ e HL He' Hl)). destruct l'; simpl in *; by rewrite without_notin. }
  assert (e ∉ s_members s1) as Hn1 by (unfold s_members; simpl; rewrite elem_of_app, !elem_of_without; tauto).
  assert (concat bks ≡ₚ s_members s1) as Hmem by (apply (Permutation_cons_inv (a := e)); etransitivity; [exact (sm_members _ _ _ _ Hs)|exact Hperm]).
  apply (count_down_sim c s bks [e] c3 e h2 s1 bks Hs); try done.
  - destruct HL2. by split.
  - assert (table c2 bks) as HT2 by (apply (table_update c1 e h1 (set_in_cache false)); [done|done|]; eapply table_links, Hs; done). destruct HT2. by split.
  - simpl. rewrite Hr1. lia.
  - simpl. rewrite Hi, <- Hi1. by destruct h1.
  - intros x Hx. simpl. rewrite lookup_insert_ne, !elem_of_without by done. rewrite (links_core c c1 x Hlo). tauto.
  - unfold c3, c2. simpl. rewrite (lo_usage _ _ Hlo), (sm_usage _ _ _ _ Hs). unfold s_usage. fold (csum (s_info s) (s_members s)) (csum (s_info s1) (s_members s1)).
    rewrite (csum_perm _ _ _ Hperm). cbn [csum foldr]. unfold charge_of at 1. rewrite Hi. cbn [f_charge info_of]. fold (csum (s_info s) (s_members s1)).
    unfold u64. rewrite Zminus_mod_idemp_l. f_equal. change (s_info s1) with (s_info s). unfold csum, s_members. simpl. lia.
  - unfold c3, c2. simpl. rewrite (lo_capacity _ _ Hlo). apply Hs.
  - unfold c3, c2. simpl. rewrite (lo_calls _ _ Hlo). apply Hs.
Qed.

(** *** Finding entries *)

Lemma is_key_matches c s e h key hash : entry_ok c s e -> heap c !! e = Some h -> is_key (s_info s) key hash e = true <-> matches key hash h.
Proof.
  intros Ho Hh. unfold is_key, matches. rewrite <- (eo_info _ _ _ Ho), Hh. simpl. rewrite andb_true_iff, Z.eqb_eq, slice_eqb_spec. naive_solver.
Qed.

(** The table and the specification find the same entry. *)
Lemma s_find_eq c s bks key hash r : sim c s bks [] ->
  match r with
  | Some e => e ∈ concat bks ∧ ∃ h, heap c !! e = Some h ∧ matches key hash h
  | None => ∀ e h, e ∈ concat bks -> heap c !! e = Some h -> ¬ matches key hash h
  end -> s_find key hash s = r.
Proof.
  intros Hs Hr. pose proof (sm_members _ _ _ _ Hs) as Hm. simpl in Hm. unfold s_find.
  assert (∀ x, x ∈ s_members s -> ∃ hx, heap c !! x = Some hx) as Hheap by (intros x Hx; by apply (sim_heap c s bks [])).
  destruct (find _ (s_members s)) as [x|] eqn:Ef.
  - apply find_some in Ef as [Hx%list_elem_of_In Hk]. destruct (Hheap x Hx) as [hx Hhx]. rewrite <- Hm in Hx.
    rewrite (is_key_matches c s x hx key hash (sm_entries _ _ _ _ Hs x) Hhx) in Hk. destruct r as [e|]; [|exfalso; by eapply Hr].
    destruct Hr as (He & h & Hh & Hk'). f_equal. destruct Hk, Hk'. apply (tb_keys _ _ (sm_table _ _ _ _ Hs) x e hx h); congruence || done.
  - destruct r as [e|]; [exfalso|done]. destruct Hr as (He & h & Hh & Hk'). rewrite Hm in He.
    pose proof (find_none _ _ Ef e (proj1 (list_elem_of_In _ _) He)) as Hf.
    apply (is_key_matches c s e h key hash (sm_entries _ _ _ _ Hs e) Hh) in Hk'. congruence.
Qed.

Lemma s_find_self c s bks e i : sim c s bks [] -> e ∈ s_members s -> s_info s !! e = Some i -> s_find (f_key i) (f_hash i) s = Some e.
Proof.
  intros Hs He Hi. apply (s_find_eq c s bks); [done|]. split; [by rewrite <- (sm_members _ _ _ _ Hs) in He|].
  destruct (sim_heap c s bks [] e Hs He) as [h Hh]. exists h. split; [done|]. pose proof (eo_info _ _ _ (sm_entries _ _ _ _ Hs e)) as Hx.
  rewrite Hh, Hi in Hx. injection Hx as <-. by split.
Qed.

Lemma hash_sim c c' s bks pend bks' pend' : sim c s bks pend -> hash_only c c' -> table c' bks' -> pend' ++ concat bks' ≡ₚ s_members s ->
  sim c' s bks' pend'.
Proof.
  intros Hs Hho HT HM. split; try done.
  - eapply hash_only_lists, Hs. done.
  - intros x. apply (entry_ok_same c s); try done; [apply Hs|by apply hash_core].
  - rewrite (ho_usage _ _ Hho). apply Hs.
  - rewrite (ho_capacity _ _ Hho). apply Hs.
  - rewrite (ho_calls _ _ Hho). apply Hs.
Qed.

Lemma Remove_sim c s bks key hash : sim c s bks [] ->
  ∃ c' bks', table_Remove key hash c = Some (s_find key hash s, c') ∧ sim c' s bks' (match s_find key hash s with Some e => [e] | None => [] end).
Proof.
  intros Hs. destruct (table_Remove_spec c bks key hash (sm_table _ _ _ _ Hs)) as (r & c' & bks' & E & Hho & HT & Hr).
  pose proof (sm_members _ _ _ _ Hs) as Hm. simpl in Hm. assert (s_find key hash s = r) as ->.
  { apply (s_find_eq c s bks); [done|]. destruct r as [e|]; [|by destruct Hr as (_ & _ & ?)]. destruct Hr as [Hp Hk]. split; [|done].
    rewrite Hp. by left. }
  exists c', bks'. split; [done|]. apply (hash_sim c c' s bks [] bks'); try done. destruct r as [e|].
  - destruct Hr as [Hp _]. simpl. by rewrite <- Hp.
  - destruct Hr as (_ & -> & _). done.
Qed.

(** *** The operations *)

Lemma Lookup_sim c s bks key hash : sim c s bks [] -> (∀ e, s_ext s e + 1 < 2 ^ 32 - 1) ->
  ∃ c', LRU_Lookup key hash c = Some ((s_lookup key hash s).1, c') ∧ sim c' (s_lookup key hash s).2 bks [].
Proof.
  intros Hs Hext. destruct (table_Lookup_spec c bks key hash (sm_table _ _ _ _ Hs)) as (r & E & Hr).
  pose proof (s_find_eq c s bks key hash r Hs Hr) as Ef. unfold LRU_Lookup, s_lookup. rewrite E, Ef. cbn [mbind option_bind].
  destruct r as [e|]; [|by exists c]. destruct Hr as [He _]. pose proof (sm_members _ _ _ _ Hs) as Hm. simpl in Hm. rewrite Hm in He.
  destruct (Ref_sim c s bks e Hs He (Hext e)) as (c' & -> & Hs'). by exists c'.
Qed.

Lemma drop_opt_sim c s bks r : sim c s bks (match r with Some e => [e] | None => [] end) ->
  ∃ b c', FinishErase r c = Some (b, c') ∧ b = (match r with Some _ => true | None => false end) ∧ sim c' (s_drop_opt r s) bks [].
Proof.
  destruct r as [e|]; intros Hs; [|by exists false, c]. destruct (FinishErase_sim c s bks e Hs) as (c' & E & Hs'). by exists true, c'.
Qed.

Lemma Erase_sim c s bks key hash : sim c s bks [] -> ∃ c' bks', LRU_Erase key hash c = Some c' ∧ sim c' (s_erase key hash s) bks' [].
Proof.
  intros Hs. destruct (Remove_sim c s bks key hash Hs) as (c1 & bks1 & E1 & Hs1). unfold LRU_Erase. rewrite E1. cbn [mbind option_bind].
  destruct (drop_opt_sim c1 s bks1 _ Hs1) as (b & c2 & -> & _ & Hs2). by exists c2, bks1.
Qed.

(** [lru_.next] is the oldest entry. *)
Lemma head_next_sim c s bks pend : sim c s bks pend ->
  head_next c lru_ = match s_lru s with [] => ListHead lru_ | e :: _ => Entry e end.
Proof.
  intros Hs. pose proof (ls_dl _ _ (sm_lists _ _ _ _ Hs) lru_) as Hd. unfold dl in Hd. simpl in Hd.
  destruct (s_lru s) as [|e Y]; simpl in Hd; destruct Hd as (Hd & _); unfold nxf in Hd; simpl in Hd; by injection Hd.
Qed.

Lemma evict_oldest_sim c s bks e Y : sim c s bks [] -> s_lru s = e :: Y ->
  ∃ c' bks', evict_oldest c = Some c' ∧ sim c' (s_drop e s) bks' [] ∧ s_lru (s_drop e s) = Y.
Proof.
  intros Hs El. assert (e ∈ s_members s) as He by (unfold s_members; rewrite El; by left).
  destruct (member_entry c s bks [] e Hs He) as (h & Hh & Hic & Hr & Hi).
  unfold evict_oldest. rewrite (head_next_sim c s bks [] Hs), El, Hh. cbn [mbind option_bind].
  rewrite (eo_lru _ _ _ (sm_entries _ _ _ _ Hs e)) in Hr by (rewrite El; by left). rewrite Hr. cbn [Z.add Z.eqb Pos.eqb negb].
  destruct (Remove_sim c s bks (h_key h) (h_hash h) Hs) as (c1 & bks1 & E1 & Hs1). rewrite E1. cbn [mbind option_bind].
  pose proof (s_find_self c s bks e _ Hs He Hi) as Ef. simpl in Ef. rewrite Ef in *.
  destruct (drop_opt_sim c1 s bks1 (Some e) Hs1) as (b & c2 & -> & -> & Hs2). cbn [mbind option_bind]. exists c2, bks1. split_and!; [done|done|].
  pose proof (ls_nodup_one _ _ lru_ (sm_lists _ _ _ _ Hs)) as Hnd. simpl in Hnd. rewrite El in Hnd. pose proof (without_split e [] Y Hnd) as Ew. simpl in Ew.
  unfold s_drop, s_collect. simpl. rewrite Hi. case_decide; simpl; by rewrite El.
Qed.

Lemma evict_loop_sim n : ∀ c s bks, sim c s bks [] -> (length (s_lru s) <= n)%nat ->
  ∃ c' bks', evict_loop n c = Some c' ∧ sim c' (s_evict (length (s_lru s)) s) bks' [].
Proof.
  induction n as [|n IH]; intros c s bks Hs Hn; cbn [evict_loop]; rewrite (head_next_sim c s bks [] Hs);
    rewrite (sm_capacity _ _ _ _ Hs), (sm_usage _ _ _ _ Hs); destruct (s_lru s) as [|e Y] eqn:El; simpl in Hn; try lia.
  - rewrite bool_decide_eq_false_2, andb_false_r by tauto. by exists c, bks.
  - rewrite bool_decide_eq_false_2, andb_false_r by tauto. by exists c, bks.
  - rewrite bool_decide_eq_true_2, andb_true_r by done. cbn [length s_evict]. rewrite El.
    destruct (s_capacity s <? s_usage s); [|by exists c, bks].
    destruct (evict_oldest_sim c s bks e Y Hs El) as (c1 & bks1 & -> & Hs1 & El1). cbn [mbind option_bind].
    destruct (IH c1 (s_drop e s) bks1 Hs1) as (c2 & bks2 & E2 & Hs2); [rewrite El1; lia|]. rewrite El1 in Hs2. by exists c2, bks2.
Qed.

Lemma prune_loop_sim n : ∀ c s bks, sim c s bks [] -> (length (s_lru s) <= n)%nat ->
  ∃ c' bks', prune_loop n c = Some c' ∧ sim c' (s_prune s) bks' [].
Proof.
  induction n as [|n IH]; intros c s bks Hs Hn; cbn [prune_loop]; rewrite (head_next_sim c s bks [] Hs); unfold s_prune;
    destruct (s_lru s) as [|e Y] eqn:El; simpl in Hn; try lia.
  - rewrite bool_decide_eq_false_2 by tauto. by exists c, bks.
  - rewrite bool_decide_eq_false_2 by tauto. by exists c, bks.
  - rewrite bool_decide_eq_true_2 by done. destruct (evict_oldest_sim c s bks e Y Hs El) as (c1 & bks1 & -> & Hs1 & El1). cbn [mbind option_bind].
    destruct (IH c1 (s_drop e s) bks1 Hs1) as (c2 & bks2 & E2 & Hs2); [rewrite El1; lia|]. unfold s_prune in Hs2. rewrite El1 in Hs2. by exists c2, bks2.
Qed.

Lemma lru_size c s bks : sim c s bks [] -> (length (s_lru s) <= base.size (heap c))%nat.
Proof.
  intros Hs. pose proof (ls_nodup_one _ _ lru_ (sm_lists _ _ _ _ Hs)) as Hnd. simpl in Hnd. rewrite <- size_dom.
  rewrite <- (size_list_to_set (C := gset nat) (s_lru s) Hnd). apply subseteq_size. intros x Hx%elem_of_list_to_set. apply elem_of_dom.
  apply (sim_heap c s bks []); [done|]. apply elem_of_app. by left.
Qed.

Lemma Prune_sim c s bks : sim c s bks [] -> ∃ c' bks', LRU_Prune c = Some c' ∧ sim c' (s_prune s) bks' [].
Proof. intros Hs. apply (prune_loop_sim _ c s bks Hs). by eapply lru_size. Qed.

(** *** The constructor *)

Lemma new_sim capacity : ∃ c : LRUCache V D, LRUCache_new capacity = Some c ∧ sim c (LruSpec_new capacity) [[]; []; []; []] [].
Proof.
  eexists. split; [reflexivity|]. split; try done.
  - split; [by intros []|constructor|]. intros e []; by intros ?%elem_of_nil.
  - split; try done; [by exists 2|..].
    + intros i xs Hi. exists None. repeat (destruct i as [|i]; simpl in Hi; [injection Hi as <-; done|]). done.
    + constructor.
  - intros e. split; simpl; rewrite ?lookup_empty; try done; try (intros ?; by rewrite lookup_empty); try lia. by intros ?%elem_of_nil.
Qed.

(** *** [Insert] *)

Lemma lists_insert_fresh c e h L : heap c !! e = None -> lists c L -> lists (set_heap (<[e := h]> (heap c)) c) L ∧ ∀ l, e ∉ L l.
Proof.
  intros Hf [H1 H2 H3]. assert (∀ l, e ∉ L l) as Hn by (intros l He; destruct (H3 e l He); congruence). split; [|done]. split; [|done|].
  - intros l. eapply dl_frame; [|apply H1]. intros n [->|(x & -> & Hx)%elem_of_entries]; [done|]. unfold nxf, pvf. simpl.
    rewrite lookup_insert_ne; [done|]. intros <-. by apply (Hn l).
  - intros x l Hx. simpl. rewrite lookup_insert_ne; [by eapply H3|]. intros <-. by apply (Hn l).
Qed.

Lemma table_insert_fresh c e h bks : heap c !! e = None -> table c bks -> table (set_heap (<[e := h]> (heap c)) c) bks ∧ e ∉ concat bks.
Proof.
  intros Hf Ht. assert (e ∉ concat bks) as Hn by (intros He; destruct (table_heap c bks e Ht He); congruence). split; [|done].
  apply (table_frame c); try done. intros x Hx. simpl. rewrite lookup_insert_ne; [done|]. by intros ->.
Qed.

Lemma s_usage_insert s e i : s_info s !! e = None -> e ∉ s_members s ->
  u64 (csum (<[e := i]> (s_info s)) (s_lru s ++ s_use s ++ [e])) = u64 (s_usage s + f_charge i).
Proof.
  intros Hf Hn. rewrite app_assoc, (csum_perm _ _ (e :: s_members s)) by (symmetry; apply Permutation_cons_append).
  simpl. unfold charge_of. rewrite lookup_insert_eq. rewrite csum_ext with (m := s_info s); cycle 1.
  { intros x Hx. rewrite lookup_insert_ne; [done|]. by intros <-. }
  unfold s_usage. fold (csum (s_info s) (s_members s)). unfold u64. rewrite Zplus_mod_idemp_l. f_equal. lia.
Qed.

Context (malloc : gset nat -> nat) (malloc_fresh : ∀ X, malloc X ∉ X).

Lemma Insert_sim c s bks key hash value chg deleter : sim c s bks [] -> Z.of_nat (length (s_members s)) + 1 < 2 ^ 31 ->
  ∃ c' bks', LRU_Insert malloc key hash value chg deleter c = Some ((s_insert malloc key hash value chg deleter s).1, c') ∧
    sim c' (s_insert malloc key hash value chg deleter s).2 bks' [].
Proof using malloc_fresh.
  intros Hs Hsm. unfold LRU_Insert, s_insert. assert (dom (heap c) = dom (s_info s)) as Ed.
  { apply set_eq. intros x. rewrite !elem_of_dom, <- (eo_info _ _ _ (sm_entries _ _ _ _ Hs x)). destruct (heap c !! x); simpl; split; intros []; done || by eexists. }
  rewrite Ed. set (e := malloc (dom (s_info s))). assert (e ∉ dom (s_info s)) as He by apply malloc_fresh.
  assert (heap c !! e = None) as Hf by (apply not_elem_of_dom; by rewrite Ed). assert (s_info s !! e = None) as Hfi by by apply not_elem_of_dom.
  pose proof (eo_free _ _ _ (sm_entries _ _ _ _ Hs e) Hfi) as He0.
  set (h0 := MkHandle value deleter None None None chg key false 1 hash). set (c0 := set_heap (<[e := h0]> (heap c)) c).
  destruct (lists_insert_fresh c e h0 _ Hf (sm_lists _ _ _ _ Hs)) as [HL0 Hnl]. fold c0 in HL0.
  destruct (table_insert_fresh c e h0 _ Hf (sm_table _ _ _ _ Hs)) as [HT0 Hnt]. fold c0 in HT0.
  assert (heap c0 !! e = Some h0) as Hh0 by apply lookup_insert_eq. pose proof (sm_members _ _ _ _ Hs) as Hm. simpl in Hm.
  assert (e ∉ s_members s) as Hnm by by rewrite <- Hm. change (capacity_ c0) with (capacity_ c). rewrite (sm_capacity _ _ _ _ Hs).
  set (i := MkInfo value deleter chg key hash). set (ext := bump e 1 (s_ext s)).
  assert (ext e = 1) as Eext by (unfold ext, bump; rewrite decide_True by done; lia).
  assert (∀ x, x ≠ e -> ext x = s_ext s x) as Hextx by (intros x Hx; unfold ext, bump; by rewrite decide_False).
  assert (∀ c1 s1 bks1, sim c1 s1 bks1 [] -> ∃ c' bks', (c ← evict_loop (base.size (heap c1)) c1; Some (e, c)) = Some (e, c') ∧
    sim c' (s_evict (length (s_lru s1)) s1) bks' []) as Hevict.
  { intros c1 s1 bks1 Hs1. destruct (evict_loop_sim _ c1 s1 bks1 Hs1 (lru_size _ _ _ Hs1)) as (c2 & bks2 & -> & Hs2). by exists c2, bks2. }
  destruct (0 <? s_capacity s).
  - set (f := fun h : LRUHandle V D => set_in_cache true (set_refs (u32 (refs h + 1)) h)). set (c1 := set_heap (<[e := f h0]> (heap c0)) c0).
    assert (update e f c0 = Some c1) as -> by (unfold update; by rewrite Hh0). cbn [mbind option_bind].
    assert (lists c1 (lists_of s)) as HL1 by (by apply (lists_update c0 e h0 f)). assert (table c1 bks) as HT1 by (by apply (table_update c0 e h0 f)).
    assert (heap c1 !! e = Some (f h0)) as Hh1 by apply lookup_insert_eq.
    destruct (LRU_Append_lists in_use_ e c1 _ HL1) as (c2 & -> & Hlo & HL2); [by eexists|apply Hnl|apply Hnl|]. cbn [mbind option_bind].
    destruct (links_fields c1 c2 e _ Hlo Hh1) as (h2 & Hh2 & Hi2 & Hc2 & Hr2).
    set (c3 := set_usage (u64 (usage_ c2 + chg)) c2).
    assert (table c3 bks) as HT3 by (destruct (table_links c1 c2 bks Hlo HT1); by split).
    destruct (table_Insert_spec c3 bks e h2 HT3 Hnt Hh2) as (old & c4 & bks4 & -> & Hho & HT4 & Hold); [by rewrite Hm|].
    cbn [mbind option_bind]. assert (h_key h2 = key ∧ h_hash h2 = hash) as [Ek Eh] by (split; [by apply (f_equal f_key) in Hi2|by apply (f_equal f_hash) in Hi2]).
    rewrite Ek, Eh in Hold.
    assert (∀ x, x ≠ e -> heap c !! x = heap c1 !! x) as Hsame by (intros x Hx; unfold c1, c0; simpl; by rewrite !lookup_insert_ne).
    assert (∀ x hx, x ≠ e -> heap c3 !! x = Some hx -> ∃ hx', heap c !! x = Some hx' ∧ (matches key hash hx <-> matches key hash hx')) as Hback.
    { intros x hx Hx Hhx. destruct (links_only_entry' c1 c2 x hx Hlo Hhx) as (hx' & Hhx' & Hdx). rewrite <- (Hsame x Hx) in Hhx'. exists hx'. split; [done|].
      unfold matches. destruct hx, hx'. by simplify_eq/=. }
    assert (s_find key hash s = old) as ->.
    { apply (s_find_eq c s bks key hash old Hs). destruct old as [o|].
      - destruct Hold as [(rest & P1 & P2) (ho & Hho' & Hk)]. assert (o ∈ concat bks) as Ho by (rewrite P1; by left). split; [done|].
        assert (o ≠ e) as Hoe by (by intros ->). destruct (Hback o ho Hoe Hho') as (ho' & ? & Hiff). exists ho'. split; [done|]. by apply Hiff.
      - destruct Hold as [_ Hno]. intros x hx Hx Hhx Hk. assert (x ≠ e) as Hxe by (by intros ->). rewrite (Hsame x Hxe) in Hhx.
        destruct (links_only_entry c1 c2 x hx Hlo Hhx) as (hx' & Hhx' & Hdx). apply (Hno x hx' Hx Hhx'). unfold matches in *. destruct hx, hx'. by simplify_eq/=. }
    set (s1 := MkSpec (s_capacity s) (s_lru s) (s_use s ++ [e]) (<[e := i]> (s_info s)) ext (s_calls s)).
    assert (sim c4 s1 bks4 (match old with Some o => [o] | None => [] end)) as Hs4.
    { apply (sim_change c s bks [] c4 s1 bks4 _ e Hs); try done.
      - apply (hash_only_lists c3 c4); [done|]. eapply lists_ext; [|destruct HL2; by split]. by intros [].
      - assert (s_members s1 ≡ₚ e :: s_members s) as -> by (unfold s_members; simpl; rewrite app_assoc; symmetry; apply Permutation_cons_append).
        rewrite <- Hm. destruct old as [o|]; simpl; [|by destruct Hold as [-> _]]. destruct Hold as [(rest & P1 & P2) _]. rewrite P1, P2. apply perm_swap.
      - intros x Hx. simpl. rewrite lookup_insert_ne, Hextx, elem_of_snoc by done. rewrite (hash_core c3 c4 x Hho).
        unfold c3. simpl. rewrite (links_core c1 c2 x Hlo), <- (Hsame x Hx). tauto.
      - destruct (hash_only_entry c3 c4 e h2 Hho Hh2) as [nh Hh4].
        split; simpl; rewrite ?lookup_insert_eq, ?Hh4, ?Eext; try done; try lia.
        + simpl. f_equal. transitivity (info_of h2); [by destruct h2|]. by rewrite Hi2.
        + intros h' [= <-]. simpl. rewrite Hc2, Hr2. unfold f. simpl. rewrite bool_decide_eq_true_2; [done|].
          unfold s_members. simpl. set_solver.
        + intros Hl. exfalso. by apply (Hnl lru_).
      - rewrite (ho_usage _ _ Hho). unfold c3. simpl. rewrite (lo_usage _ _ Hlo). unfold c1, c0. simpl. rewrite (sm_usage _ _ _ _ Hs).
        transitivity (u64 (s_usage s + f_charge i)); [done|]. by rewrite <- (s_usage_insert s e i).
      - rewrite (ho_capacity _ _ Hho). unfold c3. simpl. rewrite (lo_capacity _ _ Hlo). apply Hs.
      - rewrite (ho_calls _ _ Hho). unfold c3. simpl. rewrite (lo_calls _ _ Hlo). apply Hs. }
    destruct (drop_opt_sim c4 s1 bks4 old Hs4) as (b & c5 & -> & _ & Hs5). cbn [mbind option_bind]. by apply (Hevict _ _ bks4).
  - unfold update. rewrite Hh0. cbn [mbind option_bind]. apply (Hevict _ _ bks).
    set (s1 := MkSpec (s_capacity s) (s_lru s) (s_use s) (<[e := i]> (s_info s)) ext (s_calls s)).
    apply (sim_change c s bks [] _ s1 bks _ e Hs); try done; try apply Hs.
    + destruct (lists_insert_fresh c e (set_next None h0) _ Hf (sm_lists _ _ _ _ Hs)) as [HL1 _]. simpl. rewrite insert_insert_eq. destruct HL1. by split.
    + destruct (table_insert_fresh c e (set_next None h0) _ Hf (sm_table _ _ _ _ Hs)) as [HT1 _]. simpl. rewrite insert_insert_eq. destruct HT1. by split.
    + intros x Hx. simpl. rewrite Hextx by done. by rewrite !lookup_insert_ne.
    + split; simpl; rewrite ?lookup_insert_eq, ?Eext; try done; try lia.
      * intros h' [= <-]. simpl. rewrite bool_decide_eq_false_2 by done. done.
      * intros Hl. exfalso. by apply (Hnl lru_).
    + simpl. rewrite (sm_usage _ _ _ _ Hs). unfold s_usage. f_equal. symmetry. apply csum_ext. intros x Hx. simpl. rewrite lookup_insert_ne; [done|]. by intros <-.
Qed.

End Sim.
