(* ===== verification/LdbCacheRun.v ===== *)
(** * leveldb: what a client of the LRU cache observes

    [run_ops] performs the calls of a client on the cache of cache.cc or on
    its specification.  For a client that gives back only handles it holds,
    the two runs return the same handles, and the deleter of every entry is
    called exactly once when the cache is destroyed. *)

From S2P Require Import Prelude.
From S2P Require Import LdbSlice.
From S2P Require Import LdbCoding.
From S2P Require Import LdbCache.
From S2P Require Import LdbCacheThms.

(** ** The calls of a client *)

Inductive ClientOp {V D : Type} :=
| OpInsert (key : Slice) (hash : Z) (value : V) (charge : Z) (deleter : D)
| OpLookup (key : Slice) (hash : Z)
| OpRelease (e : nat)
| OpErase (key : Slice) (hash : Z)
| OpPrune.

Arguments ClientOp : clear implicits.

Section Run.

Context {V D : Type} (malloc : gset nat -> nat).

Fixpoint run_ops {S : Type} (step : ClientOp V D -> S -> option (option nat * S)) (ops : list (ClientOp V D)) (s : S)
    : option (list (option nat) * S) :=
  match ops with
  | [] => Some ([], s)
  | op :: ops => '(r, s) ← step op s; '(rs, s) ← run_ops step ops s; Some (r :: rs, s)
  end.

Definition cache_step (op : ClientOp V D) (c : LRUCache V D) : option (option nat * LRUCache V D) :=
  match op with
  | OpInsert key hash value charge deleter => '(e, c) ← LRU_Insert malloc key hash value charge deleter c; Some (Some e, c)
  | OpLookup key hash => LRU_Lookup key hash c
  | OpRelease e => c ← LRU_Release e c; Some (None, c)
  | OpErase key hash => c ← LRU_Erase key hash c; Some (None, c)
  | OpPrune => c ← LRU_Prune c; Some (None, c)
  end.

(** A client may only give back a handle it holds. *)
Definition spec_step (op : ClientOp V D) (s : LruSpec V D) : option (option nat * LruSpec V D) :=
  match op with
  | OpInsert key hash value charge deleter => let '(e, s) := s_insert malloc key hash value charge deleter s in Some (Some e, s)
  | OpLookup key hash => Some (s_lookup key hash s)
  | OpRelease e => if 1 <=? s_ext s e then Some (None, s_release e s) else None
  | OpErase key hash => Some (None, s_erase key hash s)
  | OpPrune => Some (None, s_prune s)
  end.

(** What the deleters are owed. *)
Definition inserted (op : ClientOp V D) : list (D * Slice * V) :=
  match op with OpInsert key _ value _ deleter => [(deleter, key, value)] | _ => [] end.

End Run.

(** ** What a step of the specification changes *)

Section Bound.

Context {V D : Type}.
Implicit Types (s : LruSpec V D).

Definition owner (i : info V D) : D * Slice * V := (f_deleter i, f_key i, f_value i).

(** Entries that went to their deleters or still have to. *)
Definition owed s : list (D * Slice * V) := s_calls s ++ (owner <$> (map_to_list (s_info s)).*2).

Record change (d : nat) (new : list (D * Slice * V)) s s' : Prop := {
  ch_members : (length (s_members s') <= length (s_members s) + d)%nat;
  ch_ext e : s_ext s' e <= s_ext s e + Z.of_nat d;
  ch_owed : owed s' ≡ₚ owed s ++ new;
  ch_capacity : s_capacity s' = s_capacity s;
}.

Lemma change_refl s : change 0 [] s s.
Proof. split; [lia|intros; lia|by rewrite app_nil_r|done]. Qed.

Lemma change_trans d d' new s s' s'' : change d new s s' -> change d' [] s' s'' -> change (d + d') new s s''.
Proof.
  intros [A1 A2 A3 A4] [B1 B2 B3 B4]. split; [lia| | |congruence].
  - intros e. specialize (A2 e). specialize (B2 e). lia.
  - by rewrite B3, A3, app_nil_r.
Qed.

Lemma length_without e xs : (length (without e xs) <= length xs)%nat.
Proof. apply length_filter. Qed.

Lemma collect_owed e s : owed (s_collect e s) ≡ₚ owed s.
Proof.
  unfold s_collect, owed. destruct (s_info s !! e) as [i|] eqn:Hi; [|done]. case_decide; [|done]. simpl.
  rewrite <- (map_to_list_delete (s_info s) e i Hi). simpl. by rewrite <- app_assoc.
Qed.

Lemma collect_same e s : s_lru (s_collect e s) = s_lru s ∧ s_use (s_collect e s) = s_use s ∧ s_ext (s_collect e s) = s_ext s ∧
  s_capacity (s_collect e s) = s_capacity s.
Proof. unfold s_collect. case_match; [|done]. by case_decide. Qed.

Lemma collect_change e s d s0 : change d [] s0 s -> change d [] s0 (s_collect e s).
Proof.
  intros [A1 A2 A3 A4]. destruct (collect_same e s) as (E1 & E2 & E3 & E4). split; [|by rewrite E3| |congruence].
  - unfold s_members in *. by rewrite E1, E2.
  - by rewrite collect_owed.
Qed.

Lemma drop_change e s : change 0 [] s (s_drop e s).
Proof.
  apply collect_change. split; simpl; [|intros; lia|by rewrite app_nil_r|done].
  unfold s_members. simpl. rewrite !length_app. pose proof (length_without e (s_lru s)). pose proof (length_without e (s_use s)). lia.
Qed.

Lemma drop_opt_change r s : change 0 [] s (s_drop_opt r s).
Proof. destruct r; [apply drop_change|apply change_refl]. Qed.

Lemma evict_change n : ∀ s, change 0 [] s (s_evict n s).
Proof.
  induction n as [|n IH]; intros s; simpl; [apply change_refl|]. destruct (s_lru s); [apply change_refl|]. case_match; [|apply change_refl].
  exact (change_trans 0 0 _ _ _ _ (drop_change _ _) (IH _)).
Qed.

Lemma drops_change xs : ∀ s, change 0 [] s (foldl (fun s e => s_drop e s) s xs).
Proof.
  induction xs as [|x xs IH]; intros s; simpl; [apply change_refl|]. exact (change_trans 0 0 _ _ _ _ (drop_change _ _) (IH _)).
Qed.

Lemma bump_le e d ext x : d <= 1 -> bump e d ext x <= ext x + 1.
Proof. unfold bump. case_decide; lia. Qed.

Lemma reference_change e s : change 1 [] s (s_reference e s).
Proof.
  pose proof (length_without e (s_lru s)). unfold s_reference. case_decide; split; simpl; try done; try (intros x; apply bump_le; lia);
    try (by rewrite app_nil_r); unfold s_members; simpl; rewrite !length_app; simpl; lia.
Qed.

Lemma release_change e s : change 1 [] s (s_release e s).
Proof.
  pose proof (length_without e (s_use s)). unfold s_release. case_decide; [|apply collect_change]; split; simpl; try done; try (intros x; apply bump_le; lia);
    try (by rewrite app_nil_r); unfold s_members; simpl; rewrite !length_app; simpl; lia.
Qed.

Context (malloc : gset nat -> nat) (malloc_fresh : ∀ X, malloc X ∉ X).

Lemma insert_change key hash value chg deleter s :
  change 1 [(deleter, key, value)] s (s_insert malloc key hash value chg deleter s).2.
Proof using malloc_fresh.
  unfold s_insert. set (e := malloc _). simpl. set (i := MkInfo value deleter chg key hash).
  assert (s_info s !! e = None) as Hf by (apply not_elem_of_dom, malloc_fresh).
  assert (∀ use, use = s_use s ∨ use = s_use s ++ [e] ->
    change 1 [(deleter, key, value)] s (MkSpec (s_capacity s) (s_lru s) use (<[e := i]> (s_info s)) (bump e 1 (s_ext s)) (s_calls s))) as Hc.
  { intros use Hu. split; simpl; [|intros x; by apply bump_le| |done].
    - unfold s_members. simpl. destruct Hu as [->| ->]; rewrite !length_app; simpl; lia.
    - unfold owed. simpl. rewrite (map_to_list_insert (s_info s) e i Hf). simpl. rewrite <- app_assoc.
      apply Permutation_app_head. apply Permutation_cons_append. }
  eapply (change_trans 1 0); [|apply evict_change]. case_match; [|by apply Hc; left].
  eapply (change_trans 1 0); [|apply drop_opt_change]. by apply Hc; right.
Qed.

Lemma spec_step_change op s r s' : spec_step malloc op s = Some (r, s') -> change 1 (inserted op) s s'.
Proof using malloc_fresh.
  assert (∀ t, change 0 [] s t -> change 1 [] s t) as H01 by (intros t [A1 A2 A3 A4]; split; [lia|intros e; specialize (A2 e); lia|done|done]).
  destruct op as [key hash value chg deleter|key hash|e|key hash|]; cbn [spec_step inserted]; intros E.
  - pose proof (insert_change key hash value chg deleter s) as Hc. destruct (s_insert _ _ _ _ _ _ s). by simplify_eq.
  - unfold s_lookup in E. case_match; simplify_eq; [apply reference_change|apply H01, change_refl].
  - case_match; simplify_eq. apply release_change.
  - simplify_eq. apply H01, drop_opt_change.
  - simplify_eq. apply H01, drops_change.
Qed.

End Bound.

(** ** The runs agree *)

Section Agree.

Context {V D : Type}.
Implicit Types (c : LRUCache V D) (s : LruSpec V D).

(** [n] calls so far. *)
Record small (n : nat) s : Prop := {
  sm_len : (length (s_members s) <= n)%nat;
  sm_held e : s_ext s e <= Z.of_nat n;
}.

(** *** The destructor *)

(** The nodes that follow [n] up to the head of [lru_]. *)
Fixpoint path c (n : Node) (xs : list nat) : Prop :=
  match xs with
  | [] => n = ListHead lru_
  | e :: xs => n = Entry e ∧ ∃ next, get_next n c = Some next ∧ path c next xs
  end.

Lemma path_frame c c' xs : ∀ n, (∀ e, e ∈ xs -> heap c' !! e = heap c !! e) -> path c n xs -> path c' n xs.
Proof.
  induction xs as [|e xs IH]; intros n Hsame; [done|]. intros (-> & next & Hn & Hp). split; [done|]. exists next. simpl in *.
  rewrite Hsame by by left. split; [done|]. apply IH; [|done]. intros x Hx. apply Hsame. by right.
Qed.

Lemma linked_path c xs : ∀ a, linked (nxf c) (pvf c) a ((Entry <$> xs) ++ [ListHead lru_]) -> ∃ n, nxf c a = Some n ∧ path c n xs.
Proof.
  induction xs as [|e xs IH]; intros a (H1 & H2 & H3); [by eexists|]. exists (Entry e). split; [done|]. split; [done|].
  destruct (IH _ H3) as (n & Hn & Hp). by exists n.
Qed.

Definition deleted (h : LRUHandle V D) : D * Slice * V := (h_deleter h, h_key h, h_value h).

Lemma omap_in_ext {A B} (f g : A -> option B) (xs : list A) : (∀ x, x ∈ xs -> f x = g x) -> omap f xs = omap g xs.
Proof.
  induction xs as [|x xs IH]; intros H; [done|]. unfold omap in *. simpl. rewrite H by by left. rewrite IH; [done|]. intros y Hy. apply H. by right.
Qed.

Lemma destroy_loop_ends xs : ∀ n c a, (length xs <= n)%nat -> NoDup xs -> path c a xs ->
  (∀ e, e ∈ xs -> ∃ h, heap c !! e = Some h ∧ in_cache h = true ∧ refs h = 1) ->
  ∃ c', destroy_loop n a c = Some c' ∧ (∀ x, heap c' !! x = if decide (x ∈ xs) then None else heap c !! x) ∧
    calls c' = calls c ++ omap (fun e => deleted <$> heap c !! e) xs.
Proof.
  induction xs as [|e xs IH]; intros n c a Hn Hnd Hl Hok; [|destruct Hl as (-> & next & Hnext & Hp)].
  - simpl in Hl. subst a. exists c. split_and!; [by destruct n| |by rewrite app_nil_r]. intros x. by rewrite decide_False by apply not_elem_of_nil.
  - destruct n as [|n]; simpl in Hn; [lia|]. apply list.NoDup_cons in Hnd as [Hne Hnd]. destruct (Hok e ltac:(by left)) as (h & Hh & Hic & Hr).
    set (c1 := set_heap (<[e := set_in_cache false h]> (heap c)) c). set (c2 := count_down e (set_in_cache false h) c1).
    assert (heap c2 = delete e (heap c) ∧ calls c2 = calls c ++ [deleted h]) as [E2 Ec2].
    { unfold c2, count_down. simpl. rewrite Hr. simpl. by rewrite insert_insert_eq, delete_insert_eq. }
    assert (∀ x, x ∈ xs -> heap c2 !! x = heap c !! x) as Hsame by (intros x Hx; rewrite E2, lookup_delete_ne; [done|]; by intros ->).
    destruct (IH n c2 next) as (c' & Ed & Hheap & Hcalls); [lia|done|by eapply path_frame| |].
    { intros x Hx. rewrite Hsame by done. apply Hok. by right. }
    exists c'. cbn [destroy_loop]. rewrite Hnext, Hh. cbn [mbind option_bind]. rewrite Hic. cbn [negb].
    assert (update e (set_in_cache false) c = Some c1) as -> by (unfold update; by rewrite Hh). cbn [mbind option_bind]. rewrite Hr. cbn [Z.eqb Pos.eqb negb]. rewrite (Unref_out e (set_in_cache false h) c1) by (try apply lookup_insert_eq; simpl; lia || done).
    split_and!; [done| |].
    + intros x. rewrite Hheap, E2. destruct (decide (x = e)) as [->|Hx].
      * rewrite (decide_False (P := e ∈ xs)), decide_True by (done || by left). apply lookup_delete_eq.
      * rewrite lookup_delete_ne by done. apply decide_ext. set_solver.
    + rewrite Hcalls, Ec2, <- app_assoc. f_equal. simpl. rewrite Hh. simpl. f_equal. apply omap_in_ext.
      intros x Hx. by rewrite Hsame.
Qed.

Lemma delete_ends c s bks : sim c s bks [] -> s_use s = [] ->
  ∃ c', LRUCache_delete c = Some c' ∧ (∀ x, heap c' !! x = if decide (x ∈ s_lru s) then None else heap c !! x) ∧
    calls c' = calls c ++ omap (fun e => deleted <$> heap c !! e) (s_lru s).
Proof.
  intros Hs Hu. unfold LRUCache_delete. pose proof (sm_lists _ _ _ _ Hs) as HL.
  rewrite bool_decide_eq_true_2.
  2: { pose proof (ls_dl _ _ HL in_use_) as Hd. unfold dl in Hd. simpl in Hd. rewrite Hu in Hd. destruct Hd as (Hd & _). by injection Hd. }
  destruct (linked_path c (s_lru s) (ListHead lru_) (ls_dl _ _ HL lru_)) as (n & Hn & Hp). injection Hn as ->.
  apply destroy_loop_ends; [by eapply lru_size|exact (ls_nodup_one _ _ lru_ HL)|done|].
  intros e He. destruct (member_entry c s bks [] e Hs) as (h & Hh & Hic & Hr & _); [apply elem_of_app; by left|]. exists h.
  rewrite (eo_lru _ _ _ (sm_entries _ _ _ _ Hs e) He) in Hr. done.
Qed.

(** *** Runs *)

Context (malloc : gset nat -> nat) (malloc_fresh : ∀ X, malloc X ∉ X).

Lemma step_sim op c s bks n r s' : sim c s bks [] -> small n s -> Z.of_nat n < 2 ^ 31 - 1 -> spec_step malloc op s = Some (r, s') ->
  ∃ c' bks', cache_step malloc op c = Some (r, c') ∧ sim c' s' bks' [].
Proof using malloc_fresh.
  intros Hs [Hl He] Hn. destruct op as [key hash value chg deleter|key hash|e|key hash|]; cbn [spec_step cache_step]; intros E.
  - destruct (Insert_sim malloc malloc_fresh c s bks key hash value chg deleter Hs) as (c' & bks' & E1 & Hs'); [lia|].
    destruct (s_insert malloc key hash value chg deleter s) as [e0 s0]. simpl in *. simplify_eq. rewrite E1. by exists c', bks'.
  - destruct (Lookup_sim c s bks key hash Hs) as (c' & E1 & Hs'); [intros e; specialize (He e); lia|].
    destruct (s_lookup key hash s) as [e0 s0]. simplify_eq/=. by exists c', bks.
  - destruct (Z.leb_spec 1 (s_ext s e)) as [H1|]; simplify_eq. destruct (Unref_sim c s bks e Hs H1) as (c' & E1 & Hs').
    unfold LRU_Release. rewrite E1. by exists c', bks.
  - simplify_eq. destruct (Erase_sim c s bks key hash Hs) as (c' & bks' & -> & Hs'). by exists c', bks'.
  - simplify_eq. destruct (Prune_sim c s bks Hs) as (c' & bks' & -> & Hs'). by exists c', bks'.
Qed.

Lemma run_sim ops : ∀ c s bks n rs s', sim c s bks [] -> small n s -> Z.of_nat n + Z.of_nat (length ops) < 2 ^ 31 ->
  run_ops (spec_step malloc) ops s = Some (rs, s') ->
  ∃ c' bks', run_ops (cache_step malloc) ops c = Some (rs, c') ∧ sim c' s' bks' [] ∧ small (n + length ops) s' ∧
    owed s' ≡ₚ owed s ++ (ops ≫= inserted) ∧ s_capacity s' = s_capacity s.
Proof using malloc_fresh.
  induction ops as [|op ops IH]; intros c s bks n rs s' Hs Hn Hb E; simpl in *.
  { simplify_eq. exists c, bks. rewrite Nat.add_0_r, app_nil_r. done. }
  destruct (spec_step malloc op s) as [[r s1]|] eqn:E1; [|done]. simpl in E.
  destruct (run_ops (spec_step malloc) ops s1) as [[rs1 s2]|] eqn:E2; simplify_eq/=.
  destruct (step_sim op c s bks n r s1 Hs Hn) as (c1 & bks1 & -> & Hs1); [lia|done|].
  destruct (spec_step_change malloc malloc_fresh op s r s1 E1) as [C1 C2 C3 C4].
  assert (small (S n) s1) as Hn1 by (destruct Hn as [N1 N2]; split; [lia|]; intros e; specialize (C2 e); specialize (N2 e); lia).
  destruct (IH c1 s1 bks1 (S n) rs1 s' Hs1 Hn1) as (c2 & bks2 & E3 & Hs2 & Hn2 & Ho & Ecap); [lia|done|].
  simpl. rewrite E3. exists c2, bks2. split_and!; [done|done| | |congruence].
  - by rewrite <- Nat.add_succ_comm.
  - by rewrite Ho, C3, app_assoc.
Qed.

Lemma small_new capacity : small 0 (@LruSpec_new V D capacity).
Proof. split; simpl; [lia|intros; lia]. Qed.

Lemma run_new ops capacity rs s : Z.of_nat (length ops) < 2 ^ 31 -> run_ops (spec_step malloc) ops (LruSpec_new capacity) = Some (rs, s) ->
  ∃ c0 c bks, LRUCache_new capacity = Some c0 ∧ run_ops (cache_step malloc) ops c0 = Some (rs, c) ∧ sim c s bks [] ∧
    small (length ops) s ∧ owed s ≡ₚ ops ≫= inserted ∧ s_capacity s = capacity.
Proof using malloc_fresh.
  intros Hb E. destruct (@new_sim V D capacity) as (c0 & E0 & Hs0).
  destruct (run_sim ops c0 _ _ 0 rs s Hs0 (small_new capacity)) as (c & bks & E1 & Hs & Hn & Ho & Hcap); [lia|done|].
  exists c0, c, bks. done.
Qed.

(** *** After an insertion *)

Lemma evict_fits n : ∀ s, (length (s_lru s) <= n)%nat -> s_usage (s_evict n s) <= s_capacity s ∨ s_lru (s_evict n s) = [].
Proof.
  induction n as [|n IH]; intros s Hn; simpl; [right; by destruct (s_lru s); simpl in Hn; [|lia]|].
  destruct (s_lru s) as [|e Y] eqn:El; [by right|]. destruct (Z.ltb_spec (s_capacity s) (s_usage s)); [|by left].
  destruct (collect_same e (MkSpec (s_capacity s) (without e (s_lru s)) (without e (s_use s)) (s_info s) (s_ext s) (s_calls s))) as (E1 & _ & _ & E4).
  fold (s_drop e s) in E1, E4. simpl in E1, E4. rewrite <- E4. apply IH. rewrite E1, El. unfold without. rewrite filter_cons_False by auto.
  pose proof (length_without e Y) as Hw. unfold without in Hw. simpl in Hn. lia.
Qed.

(** An entry in use that eviction passes by. *)
Record pinned (e : nat) (i : info V D) s : Prop := {
  pn_use : e ∈ s_use s;
  pn_lru : e ∉ s_lru s;
  pn_info : s_info s !! e = Some i;
}.

Lemma drop_pinned e i x s : x ≠ e -> pinned e i s -> pinned e i (s_drop x s).
Proof.
  intros Hx [P1 P2 P3]. unfold s_drop, s_collect. simpl. destruct (s_info s !! x) as [j|] eqn:Hj; [case_decide|]; split; simpl;
    rewrite ?elem_of_without; try tauto; rewrite ?lookup_delete_ne by done; done.
Qed.

Lemma evict_pinned n e i : ∀ s, pinned e i s -> pinned e i (s_evict n s).
Proof.
  induction n as [|n IH]; intros s Hp; simpl; [done|]. destruct (s_lru s) as [|x Y] eqn:El; [done|]. case_match; [|done].
  apply IH, drop_pinned; [|done]. intros ->. destruct Hp as [_ Hn _]. rewrite El in Hn. apply Hn. by left.
Qed.

Lemma insert_pinned c s bks key hash value chg deleter : malloc (dom (s_info s)) ∉ dom (s_info s) -> sim c s bks [] -> 0 < s_capacity s ->
  let e := malloc (dom (s_info s)) in pinned e (MkInfo value deleter chg key hash) (s_insert malloc key hash value chg deleter s).2.
Proof.
  intros Hf Hs Hcap e. unfold s_insert. fold e. simpl. apply evict_pinned. rewrite (proj2 (Z.ltb_lt _ _) Hcap).
  assert (e ∉ s_members s) as Hn.
  { intros He. destruct (member_entry c s bks [] e Hs He) as (h & _ & _ & _ & Hi). apply Hf, elem_of_dom. by exists (info_of h). }
  set (s1 := MkSpec _ _ _ _ _ _). assert (pinned e (MkInfo value deleter chg key hash) s1) as Hp.
  { split; simpl; [rewrite elem_of_snoc; by right|intros He; apply Hn, elem_of_app; by left|apply lookup_insert_eq]. }
  destruct (s_find key hash s) as [o|] eqn:Eo; [|done]. apply drop_pinned; [|done]. intros ->.
  apply find_some in Eo as [Ho _]. apply Hn. by apply list_elem_of_In.
Qed.

(** *** All handles returned *)

Definition all_returned s : bool := forallb (fun x => s_ext s x.1 =? 0) (map_to_list (s_info s)).

Lemma all_returned_ext c s bks : sim c s bks [] -> all_returned s = true -> ∀ e, s_ext s e = 0.
Proof.
  intros Hs Ha e. pose proof (sm_entries _ _ _ _ Hs e) as Ho. destruct (s_info s !! e) as [i|] eqn:Hi; [|by apply (eo_free _ _ _ Ho)].
  unfold all_returned in Ha. rewrite forallb_forall in Ha. specialize (Ha (e, i)). simpl in Ha. apply Z.eqb_eq, Ha, list_elem_of_In, elem_of_map_to_list, Hi.
Qed.

Lemma returned_lists c s bks : sim c s bks [] -> (∀ e, s_ext s e = 0) -> s_use s = [] ∧ ∀ e, e ∈ s_lru s <-> is_Some (s_info s !! e).
Proof.
  intros Hs H0. assert (s_use s = []) as Hu.
  { destruct (s_use s) as [|e Y] eqn:Eu; [done|]. pose proof (eo_use _ _ _ (sm_entries _ _ _ _ Hs e)) as Hx. rewrite H0, Eu in Hx.
    specialize (Hx ltac:(by left)). lia. }
  split; [done|]. intros e. assert (e ∈ s_lru s <-> e ∈ s_members s) as -> by (unfold s_members; by rewrite Hu, app_nil_r). split.
  - intros He. destruct (member_entry c s bks [] e Hs He) as (h & _ & _ & _ & ->). by eexists.
  - intros Hi. destruct (decide (e ∈ s_members s)) as [|Hn]; [done|]. pose proof (eo_out _ _ _ (sm_entries _ _ _ _ Hs e) Hi Hn) as Hx.
    rewrite H0 in Hx. lia.
Qed.

Lemma owners_perm c s bks : sim c s bks [] -> (∀ e, e ∈ s_lru s <-> is_Some (s_info s !! e)) ->
  omap (fun e => deleted <$> heap c !! e) (s_lru s) ≡ₚ owner <$> (map_to_list (s_info s)).*2.
Proof.
  intros Hs Hl. assert (s_lru s ≡ₚ (map_to_list (s_info s)).*1) as ->.
  { apply NoDup_Permutation; [exact (ls_nodup_one _ _ lru_ (sm_lists _ _ _ _ Hs))|apply NoDup_fst_map_to_list|]. intros e. rewrite Hl, list_elem_of_fmap.
    split; [intros [i Hi]; exists (e, i); by rewrite elem_of_map_to_list|]. intros ([e' i] & -> & Hi%elem_of_map_to_list). by exists i. }
  assert (∀ x, x ∈ map_to_list (s_info s) -> deleted <$> heap c !! x.1 = Some (owner x.2)) as Hx.
  { intros [e i] Hi%elem_of_map_to_list. simpl in *. pose proof (eo_info _ _ _ (sm_entries _ _ _ _ Hs e)) as Ho. rewrite Hi in Ho.
    apply fmap_Some in Ho as (h & -> & ->). done. }
  induction (map_to_list (s_info s)) as [|x xs IH]; [done|]. unfold omap in *. simpl. rewrite Hx by by left. constructor. apply IH.
  intros y Hy. apply Hx. by right.
Qed.

End Agree.

(** ** Theorems *)

(** C21. A client of LRUCache that makes fewer than 2^31 calls and releases
    only handles it holds never meets a failed assertion, a dangling pointer
    or a loop that does not end, and it gets the handles that the cache
    without pointers gives it: the table, the two lists and the reference
    counts of cache.cc implement a cache that keeps the entries in use,
    drops the least recently used of the others when the charges exceed the
    capacity, and calls a deleter when an entry is neither cached nor held.
    [malloc] is any function that returns an unused address. *)
Theorem lru_cache_refines {V D : Type} (malloc : gset nat -> nat) (malloc_fresh : ∀ X, malloc X ∉ X) (ops : list (ClientOp V D)) (capacity : Z)
    (rs : list (option nat)) (s : LruSpec V D) :
  Z.of_nat (length ops) < 2 ^ 31 ->
  run_ops (spec_step malloc) ops (LruSpec_new capacity) = Some (rs, s) ->
  ∃ c0 c, LRUCache_new capacity = Some c0 ∧ run_ops (cache_step malloc) ops c0 = Some (rs, c) ∧
    calls c = s_calls s ∧ TotalCharge c = s_usage s ∧ ∀ e, info_of <$> heap c !! e = s_info s !! e.
Proof.
  intros Hn E. destruct (run_new malloc malloc_fresh ops capacity rs s Hn E) as (c0 & c & bks & E0 & E1 & Hs & _).
  exists c0, c. split_and!; [done|done|apply Hs..|]. intros e. apply (eo_info _ _ _ (sm_entries _ _ _ _ Hs e)).
Qed.

(** C22. Every entry goes to its deleter exactly once: when the client has
    given all handles back, the destructor of LRUCache succeeds, leaves no
    entry behind, and the deleter calls made by then are those of the
    insertions, each with the key and the value that were inserted. *)
Theorem lru_cache_deletes_once {V D : Type} (malloc : gset nat -> nat) (malloc_fresh : ∀ X, malloc X ∉ X) (ops : list (ClientOp V D)) (capacity : Z)
    (rs : list (option nat)) (s : LruSpec V D) :
  Z.of_nat (length ops) < 2 ^ 31 ->
  run_ops (spec_step malloc) ops (LruSpec_new capacity) = Some (rs, s) ->
  all_returned s = true ->
  ∃ c0 c c', LRUCache_new capacity = Some c0 ∧ run_ops (cache_step malloc) ops c0 = Some (rs, c) ∧
    LRUCache_delete c = Some c' ∧ heap c' = ∅ ∧ calls c' ≡ₚ ops ≫= inserted.
Proof.
  intros Hn E Ha. destruct (run_new malloc malloc_fresh ops capacity rs s Hn E) as (c0 & c & bks & E0 & E1 & Hs & _ & Ho & _).
  destruct (returned_lists c s bks Hs (all_returned_ext c s bks Hs Ha)) as [Hu Hl].
  destruct (delete_ends c s bks Hs Hu) as (c' & Ed & Hheap & Hcalls). exists c0, c, c'. split_and!; [done|done|done| |].
  - apply map_empty. intros e. rewrite Hheap. case_decide as He; [done|]. rewrite Hl in He. pose proof (eo_info _ _ _ (sm_entries _ _ _ _ Hs e)) as Hi.
    destruct (heap c !! e); [|done]. exfalso. apply He. rewrite <- Hi. by eexists.
  - rewrite Hcalls, (owners_perm c s bks Hs Hl), (sm_calls _ _ _ _ Hs). exact Ho.
Qed.

(** After Insert, which returns the handle the specification names,
    either the charges fit the capacity or no entry is left to evict, and, if
    the capacity is not zero, looking the key up returns the new entry with
    the inserted value, whatever was there before. *)
Lemma lru_insert_result {V D : Type} (malloc : gset nat -> nat) (malloc_fresh : ∀ X, malloc X ∉ X) (ops : list (ClientOp V D)) (capacity : Z)
    (rs : list (option nat)) (s : LruSpec V D) (key : Slice) (hash : Z) (value : V) (chg : Z) (deleter : D) :
  Z.of_nat (length ops) + 2 < 2 ^ 31 ->
  run_ops (spec_step malloc) ops (LruSpec_new capacity) = Some (rs, s) ->
  ∃ c0 c e c', LRUCache_new capacity = Some c0 ∧ run_ops (cache_step malloc) ops c0 = Some (rs, c) ∧
    LRU_Insert malloc key hash value chg deleter c = Some (e, c') ∧
    (TotalCharge c' <= capacity ∨ head_next c' lru_ = ListHead lru_) ∧
    (0 < capacity -> h_value <$> heap c' !! e = Some value ∧ ∃ c'', LRU_Lookup key hash c' = Some (Some e, c'')).
Proof.
  intros Hn E. destruct (run_new malloc malloc_fresh ops capacity rs s ltac:(lia) E) as (c0 & c & bks & E0 & E1 & Hs & [Hl He] & _ & Hcap).
  destruct (Insert_sim malloc malloc_fresh c s bks key hash value chg deleter Hs ltac:(lia)) as (c' & bks' & Ei & Hs').
  exists c0, c, (malloc (dom (s_info s))), c'. split_and!; [done|done|exact Ei| |].
  - unfold TotalCharge. rewrite (sm_usage _ _ _ _ Hs'), (head_next_sim _ _ _ _ Hs'). unfold s_insert. cbn [snd].
    set (s1 := if 0 <? s_capacity s then _ else _). assert (s_capacity s1 = capacity) as <-.
    { unfold s1. case_match; [|done]. by rewrite (ch_capacity _ _ _ _ (drop_opt_change _ _)). }
    destruct (evict_fits (length (s_lru s1)) s1 ltac:(lia)) as [?| ->]; auto.
  - intros H0. pose proof (insert_pinned malloc c s bks key hash value chg deleter (malloc_fresh _) Hs ltac:(lia)) as [P1 P2 P3].
    pose proof (insert_change malloc malloc_fresh key hash value chg deleter s) as [_ Hext _ _].
    set (s' := (s_insert malloc key hash value chg deleter s).2) in *. set (e := malloc (dom (s_info s))) in *. split.
    + pose proof (eo_info _ _ _ (sm_entries _ _ _ _ Hs' e)) as Hi. rewrite P3 in Hi. apply fmap_Some in Hi as (h & -> & Eh). apply (f_equal f_value) in Eh. simpl in *. by rewrite Eh.
    + destruct (Lookup_sim c' s' bks' key hash Hs') as (c'' & El & _); [intros x; specialize (Hext x); specialize (He x); lia|].
      exists c''. rewrite El. unfold s_lookup.
      assert (e ∈ s_members s') as Hm by (apply elem_of_app; by right).
      pose proof (s_find_self c' s' bks' e _ Hs' Hm P3) as Ef. simpl in Ef. by rewrite Ef.
Qed.

(** ** Witnesses *)

(** Addresses from 1 on. *)
Definition next_address (X : gset nat) : nat := S (set_fold Nat.max 0%nat X).

Lemma next_address_fresh X : next_address X ∉ X.
Proof.
  assert (∀ x, x ∈ X -> (x <= set_fold Nat.max 0 X)%nat) as H.
  { apply (set_fold_ind_L (fun m Y => ∀ x, x ∈ Y -> (x <= m)%nat)); [set_solver|]. intros y Y m Hy IH x [->%elem_of_singleton|Hx]%elem_of_union; [lia|].
    specialize (IH x Hx). lia. }
  intros Hx. specialize (H _ Hx). unfold next_address in *. lia.
Qed.

(** Three entries of charge 1 in a cache of capacity 2; the first one is
    replaced, the second one is looked up and kept from eviction. *)
Definition client : list (ClientOp Z unit) :=
  [OpInsert [1] 5 100 1 tt; OpRelease 1; OpInsert [2] 9 200 1 tt; OpRelease 2;
   OpInsert [1] 5 101 1 tt; OpLookup [2] 9; OpInsert [3] 5 300 1 tt;
   OpErase [3] 5; OpPrune; OpRelease 2; OpLookup [1] 5; OpLookup [3] 5].

(** Then every handle goes back; a last insertion evicts the oldest entry. *)
Definition client_end : list (ClientOp Z unit) :=
  client ++ [OpRelease 3; OpRelease 3; OpRelease 4; OpInsert [4] 77 400 1 tt; OpRelease 4].

Definition runs {A : Type} (r : option A) : bool := match r with Some _ => true | None => false end.

Lemma runs_some {A : Type} (r : option A) : runs r = true -> ∃ x, r = Some x.
Proof. destruct r as [a|]; [by exists a|done]. Qed.

Lemma clients_run : runs (run_ops (spec_step next_address) client (LruSpec_new 2)) = true ∧
  runs (run_ops (spec_step next_address) client_end (LruSpec_new 2)) = true.
Proof. split; vm_compute; reflexivity. Qed.

Lemma lru_cache_refines_witness : ∃ c0 c, LRUCache_new 2 = Some c0 ∧
  run_ops (cache_step next_address) client c0 = Some ([Some 1; None; Some 2; None; Some 3; Some 2; Some 4; None; None; None; Some 3; None]%nat, c) ∧
  calls c = [(tt, [1], 100)] ∧ TotalCharge c = 2 ∧ info_of <$> heap c !! 1%nat = None ∧ info_of <$> heap c !! 3%nat = Some (MkInfo 101 tt 1 [1] 5).
Proof.
  destruct (runs_some _ (proj1 clients_run)) as [[rs s] E].
  destruct (lru_cache_refines next_address next_address_fresh client 2 rs s ltac:(simpl; lia) E) as (c0 & c & E0 & E1 & Ec & Eu & Ei).
  exists c0, c. rewrite E1, Ec, Eu, !Ei.
  assert ((fun '(rs, s) => (rs, s_calls s, s_usage s, s_info s !! 1%nat, s_info s !! 3%nat)) <$>
      run_ops (spec_step next_address) client (LruSpec_new 2) =
    Some ([Some 1; None; Some 2; None; Some 3; Some 2; Some 4; None; None; None; Some 3; None]%nat, [(tt, [1], 100)], 2, None,
      Some (MkInfo 101 tt 1 [1] 5))) as H by (vm_compute; reflexivity).
  rewrite E in H. cbn [fmap option_fmap option_map] in H. clear E E1 Ei. injection H as H1 H2 H3 H4 H5. subst rs.
  exact (conj E0 (conj eq_refl (conj H2 (conj H3 (conj H4 H5))))).
Defined.

Lemma lru_cache_deletes_once_witness : ∃ c0 c c', LRUCache_new 2 = Some c0 ∧ option_map snd (run_ops (cache_step next_address) client_end c0) = Some c ∧
  LRUCache_delete c = Some c' ∧ heap c' = ∅ ∧ calls c' ≡ₚ [(tt, [1], 100); (tt, [2], 200); (tt, [1], 101); (tt, [3], 300); (tt, [4], 400)].
Proof.
  destruct (runs_some _ (proj2 clients_run)) as [[rs s] E].
  destruct (lru_cache_deletes_once next_address next_address_fresh client_end 2 rs s ltac:(simpl; lia) E) as (c0 & c & c' & E0 & E1 & E2 & E3 & E4).
  { assert ((all_returned ∘ snd) <$> run_ops (spec_step next_address) client_end (LruSpec_new 2) = Some true) as Ha by (vm_compute; reflexivity).
    rewrite E in Ha. by injection Ha. }
  exists c0, c, c'. rewrite E1. exact (conj E0 (conj eq_refl (conj E2 (conj E3 E4)))).
Defined.
