(* ===== verification/LdbVersion.v ===== *)
(** * leveldb: versions (version_set.h, version_set.cc)

    The files of a version, the searches in them, reads through the table
    cache, and the choice of the inputs of a compaction.  A [File] is a
    pointer to a FileMetaData together with what it points to; the members
    that change after the file is made, the number of allowed seeks, are kept
    in a map from addresses. *)

From Stdlib Require Import SpecFloat.
From stdpp Require Import sorting.
From S2P Require Import Prelude.
From S2P Require Import LdbSlice.
From S2P Require Import LdbCoding.
From S2P Require Import LdbFormat.
From S2P Require Import LdbIterator.
From S2P Require Import LdbTwoLevel.
From S2P Require Import LdbTableFormat.
From S2P Require Import LdbVersionEdit.

(** ** table_cache.h

    [T] is the state behind the cache; [Get] returns the entry it hands to
    its callback, if any. *)

Class TableCache (T D : Type) := {
  tc_Get : ReadOptions -> Z -> Z -> Slice -> T -> option (Status * option (Slice * Slice) * T);
  tc_NewIterator : ReadOptions -> Z -> Z -> T -> option (D * T);
  tc_delete : D -> T -> T;
  tc_Evict : Z -> T -> T;
}.

Record File := MkFile { file_addr : nat; file_meta : FileMetaData }.

Abbreviation f_number f := (file_number (file_meta f)).
Abbreviation f_size f := (file_size (file_meta f)).
Abbreviation f_smallest f := (smallest (file_meta f)).
Abbreviation f_largest f := (largest (file_meta f)).

(** [InternalKey::user_key] and the constructor of [InternalKey]. *)
Definition InternalKey_new (user_key : Slice) (s : Z) (t : ValueType) : Slice := AppendInternalKey [] (PIK user_key s t).

(** [files[i]]. *)
Definition file_at (files : list File) (i : Z) : option File := files !! Z.to_nat i.

(** The order of [NewestFirst]. *)
Definition NewestFirst (a b : File) : Prop := f_number b <= f_number a.

#[export] Instance NewestFirst_dec : RelDecision NewestFirst.
Proof. intros a b. unfold NewestFirst. apply _. Defined.

(** ** Size limits *)

(** A [double] and the conversion of an integer to one. *)
Definition double : Type := spec_float.
Definition double_of (x : Z) : double := binary_normalize 53 1024 x 0 false.

Section Version.

Context (icmp_user : Comparator) (max_file_size : Z).
Local Abbreviation ucmp := icmp_user.
Local Abbreviation icmp := (InternalKeyComparator icmp_user).

Definition TargetFileSize : Z := max_file_size.
Definition MaxGrandParentOverlapBytes : Z := s64 (u64 (10 * TargetFileSize)).
Definition ExpandedCompactionByteSizeLimit : Z := s64 (u64 (25 * TargetFileSize)).
Definition MaxFileSizeForLevel (level : Z) : Z := TargetFileSize.

Fixpoint max_bytes_loop (n : nat) (result : double) : double :=
  match n with O => result | S n => max_bytes_loop n (SFmul 53 1024 result (double_of 10)) end.

Definition MaxBytesForLevel (level : Z) : double :=
  max_bytes_loop (Z.to_nat (level - 1)) (SFmul 53 1024 (double_of 10) (double_of 1048576)).

Definition TotalFileSize (files : list File) : Z := foldl (fun sum (f : File) => s64 (sum + f_size f)) 0 files.

(** ** Searching files *)

Fixpoint find_file_loop (n : nat) (files : list File) (key : Slice) (left right : Z) : option Z :=
  if left <? right then
    match n with
    | O => None
    | S n =>
        let mid := u32 (left + right) / 2 in
        f ← file_at files mid;
        if Compare icmp (f_largest f) key <? 0 then find_file_loop n files key (u32 (mid + 1)) right
        else find_file_loop n files key left mid
    end
  else Some right.

(** Every round of the binary search drops a file. *)
Definition FindFile (files : list File) (key : Slice) : option Z :=
  right ← find_file_loop (length files) files key 0 (u32 (Z.of_nat (length files))); Some (s32 right).

Definition AfterFile (user_key : option Slice) (f : File) : bool :=
  match user_key with Some k => 0 <? Compare ucmp k (ExtractUserKey (f_largest f)) | None => false end.

Definition BeforeFile (user_key : option Slice) (f : File) : bool :=
  match user_key with Some k => Compare ucmp k (ExtractUserKey (f_smallest f)) <? 0 | None => false end.

Definition SomeFileOverlapsRange (disjoint_sorted_files : bool) (files : list File)
    (smallest_user_key largest_user_key : option Slice) : option bool :=
  if negb disjoint_sorted_files then
    Some (existsb (fun f => negb (AfterFile smallest_user_key f || BeforeFile largest_user_key f)) files)
  else
    index ← match smallest_user_key with
            | Some k => FindFile files (InternalKey_new k kMaxSequenceNumber kValueTypeForSeek)
            | None => Some 0
            end;
    if Z.of_nat (length files) <=? u32 index then Some false
    else f ← file_at files (u32 index); Some (negb (BeforeFile largest_user_key f)).

(** ** [LevelFileNumIterator] *)

Record LevelFileNumIterator := MkLevelIter { flist_ : list File; level_index_ : Z }.

Definition LevelFileNumIterator_new (flist : list File) : LevelFileNumIterator := MkLevelIter flist (u32 (Z.of_nat (length flist))).

Definition lf_file (it : LevelFileNumIterator) : option File := file_at (flist_ it) (level_index_ it).
Definition lf_Valid (it : LevelFileNumIterator) : bool := level_index_ it <? Z.of_nat (length (flist_ it)).
Definition lf_key (it : LevelFileNumIterator) : Slice := match lf_file it with Some f => f_largest f | None => [] end.
Definition lf_value (it : LevelFileNumIterator) : Slice :=
  match lf_file it with Some f => EncodeFixed64 (f_number f) ++ EncodeFixed64 (f_size f) | None => [] end.
Definition lf_Seek (target : Slice) (it : LevelFileNumIterator) : option LevelFileNumIterator :=
  i ← FindFile (flist_ it) target; Some (MkLevelIter (flist_ it) (u32 i)).
Definition lf_SeekToFirst (it : LevelFileNumIterator) : option LevelFileNumIterator := Some (MkLevelIter (flist_ it) 0).
Definition lf_SeekToLast (it : LevelFileNumIterator) : option LevelFileNumIterator :=
  Some (MkLevelIter (flist_ it) (match flist_ it with [] => 0 | _ => u32 (Z.of_nat (length (flist_ it)) - 1) end)).
Definition lf_Next (it : LevelFileNumIterator) : option LevelFileNumIterator :=
  if lf_Valid it then Some (MkLevelIter (flist_ it) (u32 (level_index_ it + 1))) else None.
Definition lf_Prev (it : LevelFileNumIterator) : option LevelFileNumIterator :=
  if lf_Valid it
  then Some (MkLevelIter (flist_ it) (if level_index_ it =? 0 then u32 (Z.of_nat (length (flist_ it))) else level_index_ it - 1))
  else None.

#[local] Instance level_iterator : Iterator LevelFileNumIterator := {|
  i_Valid := lf_Valid;
  i_key := lf_key;
  i_value := lf_value;
  i_status _ := Status_OK;
  i_SeekToFirst := lf_SeekToFirst;
  i_SeekToLast := lf_SeekToLast;
  i_Seek := lf_Seek;
  i_Next := lf_Next;
  i_Prev := lf_Prev;
|}.

(** ** [Version] *)

Record Version := MkVersion {
  files_ : list (list File);
  file_to_compact_ : option File;
  file_to_compact_level_ : Z;
  compaction_score_ : double;
  compaction_level_ : Z;
}.

Definition Version_new : Version := MkVersion (replicate (Z.to_nat kNumLevels) []) None (-1) (double_of (-1)) (-1).

(** [files_[level]]; a level outside the array is undefined. *)
Definition level_files (v : Version) (level : Z) : option (list File) :=
  if level <? 0 then None else files_ v !! Z.to_nat level.

Definition NumFiles (v : Version) (level : Z) : option Z := files ← level_files v level; Some (s32 (Z.of_nat (length files))).

Section Reads.

Context {T D : Type} `{!Iterator D} `{!TableCache T D}.

(** The iterators that [GetFileIterator] returns. *)
Inductive FileIterator :=
| FileError (it : EmptyIterator)
| FileTable (it : D).

Definition fi_move (f : ∀ J, Iterator J -> J -> option J) (it : FileIterator) : option FileIterator :=
  match it with
  | FileError it => it ← f _ empty_iterator it; Some (FileError it)
  | FileTable it => it ← f _ _ it; Some (FileTable it)
  end.

Definition fi_get {A} (f : ∀ J, Iterator J -> J -> A) (it : FileIterator) : A :=
  match it with FileError it => f _ empty_iterator it | FileTable it => f _ _ it end.

#[local] Instance file_iterator : Iterator FileIterator := {|
  i_Valid := fi_get (fun J _ => i_Valid);
  i_key := fi_get (fun J _ => i_key);
  i_value := fi_get (fun J _ => i_value);
  i_status := fi_get (fun J _ => i_status);
  i_SeekToFirst := fi_move (fun J _ => i_SeekToFirst);
  i_SeekToLast := fi_move (fun J _ => i_SeekToLast);
  i_Seek k := fi_move (fun J _ => i_Seek k);
  i_Next := fi_move (fun J _ => i_Next);
  i_Prev := fi_move (fun J _ => i_Prev);
|}.

Definition delete_file_iterator (it : FileIterator) (t : T) : T :=
  match it with FileError _ => t | FileTable it => tc_delete it t end.

Definition GetFileIterator (options : ReadOptions) (file_value : Slice) (t : T) : option (FileIterator * T) :=
  if negb (size file_value =? 16)
  then Some (FileError (MkEmpty (Status_Corruption "FileReader invoked with unexpected value" [])), t)
  else
    '(it, t) ← tc_NewIterator options (DecodeFixed64 file_value) (DecodeFixed64 (drop 8 file_value)) t;
    Some (FileTable it, t).

(** The iterator over a level, and its methods; the rounds of a two-level
    iterator are bounded by the number of files. *)
Definition NewConcatenatingIterator (v : Version) (level : Z) (t : T) : option (TwoLevelIterator (I := LevelFileNumIterator) (D := FileIterator) (W := T)) :=
  files ← level_files v level; Some (NewTwoLevelIterator (LevelFileNumIterator_new files) t).

Definition concatenating_iterator (options : ReadOptions) (files : list File) : Iterator (TwoLevelIterator (I := LevelFileNumIterator) (D := FileIterator) (W := T)) :=
  two_level_iterator (GetFileIterator options) delete_file_iterator (S (S (length files))).

(** *** [Get] *)

Inductive SaverState := kNotFound | kFound | kDeleted | kCorrupt.

(** [SaveValue] on a saver in the state [kNotFound]; the value it assigns. *)
Definition SaveValue (user_key : Slice) (ikey v : Slice) : SaverState * option Slice :=
  match ParseInternalKey ikey with
  | None => (kCorrupt, None)
  | Some parsed_key =>
      if Compare ucmp (LdbFormat.user_key parsed_key) user_key =? 0 then
        match type parsed_key with
        | kTypeValue => (kFound, Some v)
        | kTypeDeletion => (kDeleted, None)
        end
      else (kNotFound, None)
  end.

(** The level-0 files that hold the key's range, newest first. *)
Definition level0_files (user_key : Slice) (files : list File) : list File :=
  merge_sort NewestFirst (base.filter (fun f : File =>
    0 <= Compare ucmp user_key (ExtractUserKey (f_smallest f)) ∧ Compare ucmp user_key (ExtractUserKey (f_largest f)) <= 0) files).

(** The file of a deeper level that may hold the key. *)
Definition deeper_file (ikey user_key : Slice) (files : list File) : option (option File) :=
  index ← FindFile files ikey;
  if Z.of_nat (length files) <=? u32 index then Some None
  else
    f ← file_at files (u32 index);
    if Compare ucmp user_key (ExtractUserKey (f_smallest f)) <? 0 then Some None else Some (Some f).

Record GetStats := MkGetStats { seek_file : option File; seek_file_level : Z }.

(** The local variables of [Get]. *)
Record GetState := MkGetState { gs_stats : GetStats; last_file_read : option File; last_file_read_level : Z; gs_tables : T }.

(** [search_files] returns the answer, if the files of the level have one. *)
Fixpoint search_files (options : ReadOptions) (k : LookupKey) (level : Z) (files : list File) (st : GetState) :
    option (option (Status * option Slice) * GetState) :=
  match files with
  | [] => Some (None, st)
  | f :: files =>
      let stats :=
        match last_file_read st, seek_file (gs_stats st) with
        | Some g, None => MkGetStats (Some g) (last_file_read_level st)
        | _, _ => gs_stats st
        end in
      '(s, entry, t) ← tc_Get options (f_number f) (f_size f) (internal_key k) (gs_tables st);
      let st := MkGetState stats (Some f) level t in
      if negb (ok s) then Some (Some (s, None), st)
      else
        let '(state, value) :=
          match entry with Some (ikey, v) => SaveValue (lookup_user_key k) ikey v | None => (kNotFound, None) end in
        match state with
        | kNotFound => search_files options k level files st
        | kFound => Some (Some (s, value), st)
        | kDeleted => Some (Some (Status_NotFound [] [], None), st)
        | kCorrupt => Some (Some (Status_Corruption "corrupted key for " (lookup_user_key k), None), st)
        end
  end.

(** The files to search in a level. *)
Definition files_to_search (k : LookupKey) (level : Z) (files : list File) : option (list File) :=
  if level =? 0 then Some (level0_files (lookup_user_key k) files)
  else f ← deeper_file (internal_key k) (lookup_user_key k) files; Some (option_list f).

Fixpoint search_levels (options : ReadOptions) (k : LookupKey) (level : Z) (levels : list (list File)) (st : GetState) :
    option (Status * option Slice * GetState) :=
  match levels with
  | [] => Some (Status_NotFound [] [], None, st)
  | files :: levels =>
      if bool_decide (files = []) then search_levels options k (level + 1) levels st
      else
        search ← files_to_search k level files;
        '(answer, st) ← search_files options k level search st;
        match answer with
        | Some (s, value) => Some (s, value, st)
        | None => search_levels options k (level + 1) levels st
        end
  end.

(** The status, the value assigned, the statistics. *)
Definition Version_Get (options : ReadOptions) (k : LookupKey) (v : Version) (t : T) : option (Status * option Slice * GetStats * T) :=
  '(s, value, st) ← search_levels options k 0 (files_ v) (MkGetState (MkGetStats None (-1)) None (-1) t);
  Some (s, value, gs_stats st, gs_tables st).

End Reads.

(** ** Seek statistics

    [seeks] maps the address of a file to its [allowed_seeks]. *)

Definition UpdateStats (stats : GetStats) (v : Version) (seeks : gmap nat Z) : option (bool * Version * gmap nat Z) :=
  match seek_file stats with
  | None => Some (false, v, seeks)
  | Some f =>
      allowed ← seeks !! file_addr f;
      if allowed =? - 2 ^ 31 then None  (* signed overflow *)
      else
        let seeks := <[file_addr f := allowed - 1]> seeks in
        if (allowed - 1 <=? 0) && bool_decide (file_to_compact_ v = None)
        then Some (true, MkVersion (files_ v) (Some f) (seek_file_level stats) (compaction_score_ v) (compaction_level_ v), seeks)
        else Some (false, v, seeks)
  end.

(** [func] returns whether to go on; so do the loops over files and levels. *)
Section ForEach.

Context {S : Type} (func : Z -> File -> S -> bool * S).

Fixpoint each_file (level : Z) (files : list File) (st : S) : bool * S :=
  match files with
  | [] => (true, st)
  | f :: files => let '(go, st) := func level f st in if go : bool then each_file level files st else (false, st)
  end.

Fixpoint each_level (user_key internal_key : Slice) (level : Z) (levels : list (list File)) (st : S) : option S :=
  match levels with
  | [] => Some st
  | files :: levels =>
      if bool_decide (files = []) then each_level user_key internal_key (level + 1) levels st
      else
        f ← deeper_file internal_key user_key files;
        match f with
        | None => each_level user_key internal_key (level + 1) levels st
        | Some f =>
            let '(go, st) := func level f st in
            if go : bool then each_level user_key internal_key (level + 1) levels st else Some st
        end
  end.

Definition ForEachOverlapping (user_key internal_key : Slice) (v : Version) (st : S) : option S :=
  files ← level_files v 0;
  let '(go, st) := each_file 0 (level0_files user_key files) st in
  if go : bool then each_level user_key internal_key 1 (drop 1 (files_ v)) st else Some st.

End ForEach.

(** [State] of [RecordReadSample]: the first match and the number of matches. *)
Definition Match (level : Z) (f : File) (st : GetStats * Z) : bool * (GetStats * Z) :=
  let matches := st.2 + 1 in
  (matches <? 2, (if matches =? 1 then MkGetStats (Some f) level else st.1, matches)).

Definition Version_RecordReadSample (internal_key : Slice) (v : Version) (seeks : gmap nat Z) : option (bool * Version * gmap nat Z) :=
  match ParseInternalKey internal_key with
  | None => Some (false, v, seeks)
  | Some ikey =>
      '(stats, matches) ← ForEachOverlapping Match (LdbFormat.user_key ikey) internal_key v (MkGetStats None 0, 0);
      if 2 <=? matches then UpdateStats stats v seeks else Some (false, v, seeks)
  end.

(** ** Overlaps *)

Definition OverlapInLevel (level : Z) (smallest_user_key largest_user_key : option Slice) (v : Version) : option bool :=
  files ← level_files v level; SomeFileOverlapsRange (0 <? level) files smallest_user_key largest_user_key.

(** The loop of [GetOverlappingInputs] at file [i]; [begin] and [end_] are
    the ends of the range that are given, as they are by now. *)
Fixpoint overlapping_loop (n : nat) (level0 : bool) (files : list File) (i : nat) (begin end_ : option Slice) (inputs : list File) :
    option (list File) :=
  match files !! i with
  | None => Some inputs
  | Some f =>
      match n with
      | O => None
      | S n =>
          let file_start := ExtractUserKey (f_smallest f) in
          let file_limit := ExtractUserKey (f_largest f) in
          let lt x y := match y with Some y => Compare ucmp x y <? 0 | None => false end in
          let gt x y := match y with Some y => 0 <? Compare ucmp x y | None => false end in
          if lt file_limit begin then overlapping_loop n level0 files (S i) begin end_ inputs
          else if gt file_start end_ then overlapping_loop n level0 files (S i) begin end_ inputs
          else if level0 && lt file_start begin then overlapping_loop n level0 files 0 (Some file_start) end_ []
          else if level0 && gt file_limit end_ then overlapping_loop n level0 files 0 begin (Some file_limit) []
          else overlapping_loop n level0 files (S i) begin end_ (inputs ++ [f])
      end
  end.

(** A search starts again at most twice per file. *)
Definition overlapping_rounds (files : list File) : nat := ((2 * length files + 1) * length files)%nat.

(** [begin] and [end_] are internal keys, or null. *)
Definition GetOverlappingInputs (level : Z) (begin end_ : option Slice) (v : Version) : option (list File) :=
  files ← level_files v level;
  overlapping_loop (overlapping_rounds files) (level =? 0) files 0 (ExtractUserKey <$> begin) (ExtractUserKey <$> end_) [].

Fixpoint pick_level_loop (n : nat) (level : Z) (smallest_user_key largest_user_key start limit : Slice) (v : Version) : option Z :=
  match n with
  | O => Some level
  | S n =>
      overlap ← OverlapInLevel (level + 1) (Some smallest_user_key) (Some largest_user_key) v;
      if overlap : bool then Some level
      else
        too_big ← (if level + 2 <? kNumLevels
                   then overlaps ← GetOverlappingInputs (level + 2) (Some start) (Some limit) v;
                        Some (MaxGrandParentOverlapBytes <? TotalFileSize overlaps)
                   else Some false);
        if too_big : bool then Some level
        else pick_level_loop n (level + 1) smallest_user_key largest_user_key start limit v
  end.

Definition PickLevelForMemTableOutput (smallest_user_key largest_user_key : Slice) (v : Version) : option Z :=
  overlap ← OverlapInLevel 0 (Some smallest_user_key) (Some largest_user_key) v;
  if overlap : bool then Some 0
  else
    pick_level_loop (Z.to_nat kMaxMemCompactLevel) 0 smallest_user_key largest_user_key
      (InternalKey_new smallest_user_key kMaxSequenceNumber kValueTypeForSeek) (InternalKey_new largest_user_key 0 kTypeDeletion) v.

(** ** [DebugString] *)

Definition debug_level_file (f : File) : Slice :=
  str " " ++ decimal (f_number f) ++ str ":" ++ decimal (f_size f) ++ str "[" ++ InternalKey_DebugString (f_smallest f) ++
  str " .. " ++ InternalKey_DebugString (f_largest f) ++ str "]" ++ [10].

Fixpoint debug_levels (level : Z) (levels : list (list File)) : Slice :=
  match levels with
  | [] => []
  | files :: levels => str "--- level " ++ decimal level ++ str " ---" ++ [10] ++ concat (debug_level_file <$> files) ++ debug_levels (level + 1) levels
  end.

Definition Version_DebugString (v : Version) : Slice := debug_levels 0 (files_ v).

(** ** Ranges of files *)

Definition widen (range : Slice * Slice) (f : File) : Slice * Slice :=
  (if Compare icmp (f_smallest f) range.1 <? 0 then f_smallest f else range.1,
   if 0 <? Compare icmp (f_largest f) range.2 then f_largest f else range.2).

(** The inputs may not be empty. *)
Definition GetRange (inputs : list File) : option (Slice * Slice) :=
  match inputs with
  | [] => None
  | f :: fs => Some (foldl widen (f_smallest f, f_largest f) fs)
  end.

Definition GetRange2 (inputs1 inputs2 : list File) : option (Slice * Slice) := GetRange (inputs1 ++ inputs2).

Definition FindLargestKey (files : list File) : option Slice :=
  match files with
  | [] => None
  | f :: fs => Some (foldl (fun k f => if 0 <? Compare icmp (f_largest f) k then f_largest f else k) (f_largest f) fs)
  end.

Definition closer_boundary (largest_key : Slice) (best : option File) (f : File) : option File :=
  if (0 <? Compare icmp (f_smallest f) largest_key) &&
     (Compare ucmp (ExtractUserKey (f_smallest f)) (ExtractUserKey largest_key) =? 0)
  then
    match best with
    | None => Some f
    | Some b => if Compare icmp (f_smallest f) (f_smallest b) <? 0 then Some f else best
    end
  else best.

Definition FindSmallestBoundaryFile (level_files : list File) (largest_key : Slice) : option File :=
  foldl (closer_boundary largest_key) None level_files.

Fixpoint boundary_loop (n : nat) (level_files : list File) (largest_key : Slice) (compaction_files : list File) : option (list File) :=
  match n with
  | O => None
  | S n =>
      match FindSmallestBoundaryFile level_files largest_key with
      | None => Some compaction_files
      | Some f => boundary_loop n level_files (f_largest f) (compaction_files ++ [f])
      end
  end.

(** Every round but the last adds a file. *)
Definition AddBoundaryInputs (level_files compaction_files : list File) : option (list File) :=
  match FindLargestKey compaction_files with
  | None => Some compaction_files
  | Some largest_key => boundary_loop (S (length level_files)) level_files largest_key compaction_files
  end.

(** ** [Compaction] *)

Record Compaction := MkCompaction {
  c_level_ : Z;
  max_output_file_size_ : Z;
  input_version_ : option Version;
  edit_ : VersionEdit;
  inputs_0 : list File;
  inputs_1 : list File;
  grandparents_ : list File;
  grandparent_index_ : nat;
  seen_key_ : bool;
  overlapped_bytes_ : Z;
  level_ptrs_ : list nat;
}.

Definition Compaction_new (level : Z) : Compaction :=
  MkCompaction level (MaxFileSizeForLevel level) None VersionEdit_new [] [] [] 0 false 0 (replicate (Z.to_nat kNumLevels) O).

Definition set_inputs (input : option Version) (in0 in1 grand : list File) (edit : VersionEdit) (c : Compaction) : Compaction :=
  MkCompaction (c_level_ c) (max_output_file_size_ c) input edit in0 in1 grand (grandparent_index_ c) (seen_key_ c) (overlapped_bytes_ c) (level_ptrs_ c).

(** The second half of [SetupOtherInputs] when there are files of the next
    level: the inputs and the range to go on with. *)
Definition expand_inputs (level : Z) (in0 in1 : list File) (range all_range : Slice * Slice) (v : Version) :
    option (list File * list File * (Slice * Slice) * (Slice * Slice)) :=
  files ← level_files v level;
  overlap ← GetOverlappingInputs level (Some all_range.1) (Some all_range.2) v;
  expanded0 ← AddBoundaryInputs files overlap;
  if (length in0 <? length expanded0)%nat && (s64 (TotalFileSize in1 + TotalFileSize expanded0) <? ExpandedCompactionByteSizeLimit) then
    new_range ← GetRange expanded0;
    expanded1 ← GetOverlappingInputs (level + 1) (Some new_range.1) (Some new_range.2) v;
    if (length expanded1 =? length in1)%nat then
      all_range ← GetRange2 expanded0 expanded1;
      Some (expanded0, expanded1, new_range, all_range)
    else Some (in0, in1, range, all_range)
  else Some (in0, in1, range, all_range).

(** [v] is the current version; the compaction pointers of all levels. *)
Definition SetupOtherInputs (v : Version) (c : Compaction) (compact_pointer : list Slice) : option (Compaction * list Slice) :=
  let level := c_level_ c in
  files ← level_files v level;
  in0 ← AddBoundaryInputs files (inputs_0 c);
  range ← GetRange in0;
  in1 ← GetOverlappingInputs (level + 1) (Some range.1) (Some range.2) v;
  all_range ← GetRange2 in0 in1;
  '(in0, in1, range, all_range) ←
    (if bool_decide (in1 = []) then Some (in0, in1, range, all_range) else expand_inputs level in0 in1 range all_range v);
  grandparents ← (if level + 2 <? kNumLevels then GetOverlappingInputs (level + 2) (Some all_range.1) (Some all_range.2) v else Some (grandparents_ c));
  Some (set_inputs (input_version_ c) in0 in1 grandparents (SetCompactPointer level range.2 (edit_ c)) c,
        <[Z.to_nat level := range.2]> compact_pointer).

(** The first file after the compaction pointer, else the first file. *)
Definition first_after (pointer : Slice) (files : list File) : option File :=
  match find (fun f => bool_decide (pointer = []) || (0 <? Compare icmp (f_largest f) pointer)) files with
  | Some f => Some f
  | None => files !! 0%nat
  end.

Definition PickCompaction (v : Version) (compact_pointer : list Slice) : option (option Compaction * list Slice) :=
  let size_compaction := SFleb (double_of 1) (compaction_score_ v) in
  choice ←
    (if size_compaction : bool then
       let level := compaction_level_ v in
       if negb ((0 <=? level) && (level + 1 <? kNumLevels)) then None
       else
         files ← level_files v level; pointer ← compact_pointer !! Z.to_nat level; f ← first_after pointer files;
         Some (Some (level, f))
     else Some (f ← file_to_compact_ v; Some (file_to_compact_level_ v, f)));
  match choice with
  | None => Some (None, compact_pointer)
  | Some (level, f) =>
      inputs ←
        (if level =? 0 then
           range ← GetRange [f]; inputs ← GetOverlappingInputs 0 (Some range.1) (Some range.2) v;
           if bool_decide (inputs = []) then None else Some inputs
         else Some [f]);
      '(c, compact_pointer) ← SetupOtherInputs v (set_inputs (Some v) inputs [] [] VersionEdit_new (Compaction_new level)) compact_pointer;
      Some (Some c, compact_pointer)
  end.

(** The inputs up to the one at which their sizes reach the limit. *)
Fixpoint limit_inputs (limit total : Z) (inputs : list File) : list File :=
  match inputs with
  | [] => []
  | f :: fs => let total := u64 (total + f_size f) in if limit <=? total then [f] else f :: limit_inputs limit total fs
  end.

Definition CompactRange (level : Z) (begin end_ : option Slice) (v : Version) (compact_pointer : list Slice) :
    option (option Compaction * list Slice) :=
  inputs ← GetOverlappingInputs level begin end_ v;
  if bool_decide (inputs = []) then Some (None, compact_pointer)
  else
    let inputs := if 0 <? level then limit_inputs (MaxFileSizeForLevel level) 0 inputs else inputs in
    '(c, compact_pointer) ← SetupOtherInputs v (set_inputs (Some v) inputs [] [] VersionEdit_new (Compaction_new level)) compact_pointer;
    Some (Some c, compact_pointer).

Definition IsTrivialMove (c : Compaction) : bool :=
  (length (inputs_0 c) =? 1)%nat && (length (inputs_1 c) =? 0)%nat && (TotalFileSize (grandparents_ c) <=? MaxGrandParentOverlapBytes).

Definition AddInputDeletions (c : Compaction) (edit : VersionEdit) : VersionEdit :=
  let edit := foldl (fun e f => DeleteFile (c_level_ c) (f_number f) e) edit (inputs_0 c) in
  foldl (fun e f => DeleteFile (c_level_ c + 1) (f_number f) e) edit (inputs_1 c).

(** The files of a level from its pointer on: whether the key lies in the
    range of the file at which the scan stops, and the pointer there. *)
Fixpoint scan_level (user_key : Slice) (files : list File) (ptr : nat) : bool * nat :=
  match files with
  | [] => (false, ptr)
  | f :: files =>
      if Compare ucmp user_key (ExtractUserKey (f_largest f)) <=? 0
      then (0 <=? Compare ucmp user_key (ExtractUserKey (f_smallest f)), ptr)
      else scan_level user_key files (S ptr)
  end.

Fixpoint base_level_loop (n : nat) (lvl : Z) (user_key : Slice) (v : Version) (ptrs : list nat) : option (bool * list nat) :=
  match n with
  | O => Some (true, ptrs)
  | S n =>
      files ← level_files v lvl;
      ptr ← ptrs !! Z.to_nat lvl;
      let '(inside, ptr) := scan_level user_key (drop ptr files) ptr in
      let ptrs := <[Z.to_nat lvl := ptr]> ptrs in
      if inside : bool then Some (false, ptrs) else base_level_loop n (lvl + 1) user_key v ptrs
  end.

Definition IsBaseLevelForKey (user_key : Slice) (c : Compaction) : option (bool * Compaction) :=
  v ← input_version_ c;
  '(base, ptrs) ← base_level_loop (Z.to_nat (kNumLevels - (c_level_ c + 2))) (c_level_ c + 2) user_key v (level_ptrs_ c);
  Some (base, MkCompaction (c_level_ c) (max_output_file_size_ c) (input_version_ c) (edit_ c) (inputs_0 c) (inputs_1 c) (grandparents_ c)
    (grandparent_index_ c) (seen_key_ c) (overlapped_bytes_ c) ptrs).

(** The grandparents from [grandparent_index_] on that end before the key. *)
Fixpoint skip_grandparents (internal_key : Slice) (seen : bool) (files : list File) (index : nat) (bytes : Z) : nat * Z :=
  match files with
  | [] => (index, bytes)
  | f :: files =>
      if 0 <? Compare icmp internal_key (f_largest f)
      then skip_grandparents internal_key seen files (S index) (if seen then s64 (bytes + f_size f) else bytes)
      else (index, bytes)
  end.

Definition ShouldStopBefore (internal_key : Slice) (c : Compaction) : bool * Compaction :=
  let '(index, bytes) := skip_grandparents internal_key (seen_key_ c) (drop (grandparent_index_ c) (grandparents_ c)) (grandparent_index_ c) (overlapped_bytes_ c) in
  let stop := MaxGrandParentOverlapBytes <? bytes in
  (stop, MkCompaction (c_level_ c) (max_output_file_size_ c) (input_version_ c) (edit_ c) (inputs_0 c) (inputs_1 c) (grandparents_ c)
    index true (if stop then 0 else bytes) (level_ptrs_ c)).

(** ** [Finalize] *)

Fixpoint finalize_loop (level : Z) (levels : list (list File)) (best : Z * double) : Z * double :=
  match levels with
  | [] => best
  | files :: levels =>
      let score :=
        if level =? 0 then SFdiv 53 1024 (double_of (Z.of_nat (length files))) (double_of kL0_CompactionTrigger)
        else SFdiv 53 1024 (double_of (u64 (TotalFileSize files))) (MaxBytesForLevel level) in
      finalize_loop (level + 1) levels (if SFltb best.2 score then (level, score) else best)
  end.

Definition Finalize (v : Version) : Version :=
  let '(level, score) := finalize_loop 0 (take (Z.to_nat (kNumLevels - 1)) (files_ v)) (-1, double_of (-1)) in
  MkVersion (files_ v) (file_to_compact_ v) (file_to_compact_level_ v) score level.

End Version.
