(* ===== verification/LdbVersionThms.v ===== *)
(** * leveldb: what the searches of a version find *)

From Stdlib Require Import SpecFloat.
From stdpp Require Import sorting.
From S2P Require Import Prelude.
From S2P Require Import LdbSlice.
From S2P Require Import LdbCoding.
From S2P Require Import LdbFormat.
From S2P Require Import LdbFormatThms.
From S2P Require Import LdbIterator.
From S2P Require Import LdbTwoLevel.
From S2P Require Import LdbTableFormat.
From S2P Require Import LdbVersionEdit.
From S2P Require Import LdbVersion.

(** A limit on the bytes of a compaction leaves a file. *)
Lemma limit_inputs_sub limit : ∀ total files, files ≠ [] -> limit_inputs limit total files ⊆ files ∧ limit_inputs limit total files ≠ [].
Proof.
  intros total files. revert total. induction files as [|f fs IH]; intros total Hne; [done|]. cbn [limit_inputs]. destruct (limit <=? _); [split; [set_solver|done]|].
  split; [|done]. destruct fs as [|g fs]; [done|]. specialize (IH (u64 (total + f_size f)) ltac:(done)) as [IH _]. set_solver.
Qed.

Section Files.

Context (ucmp : Comparator) (okp : Slice -> Prop) `{!ComparatorLaws ucmp okp} (Hbytes : ∀ k, okp k -> Forall is_u8 k).
Local Abbreviation icmp := (InternalKeyComparator ucmp).
Local Abbreviation iok := (ikey_ok okp).
Local Abbreviation ukey := ExtractUserKey.
Local Abbreviation ucompare := (Compare ucmp).
Local Abbreviation icompare := (InternalCompare ucmp).

(** ** Files and their order *)

Record file_ok (f : File) : Prop := {
  fk_small : iok (f_smallest f);
  fk_large : iok (f_largest f);
  fk_le : icompare (f_smallest f) (f_largest f) <= 0;
  fk_parse : is_Some (ParseInternalKey (f_largest f));
}.

(** The files of a level above 0. *)
Record sorted_level (files : list File) : Prop := {
  sl_ok : Forall file_ok files;
  sl_order i j f g : (i < j)%nat -> files !! i = Some f -> files !! j = Some g -> icompare (f_largest f) (f_smallest g) < 0;
}.

#[local] Instance icmp_total : TotalCmp icompare iok.
Proof using ComparatorLaws0 Hbytes. exact (cmp_total (ComparatorLaws := internal_laws ucmp okp Hbytes)). Qed.

Lemma user_le a b : icompare a b <= 0 -> ucompare (ukey a) (ukey b) <= 0.
Proof. rewrite InternalCompare_le. lia. Qed.

Lemma user_okp k : iok k -> okp (ukey k).
Proof. by intros (_ & _ & ?). Qed.

Lemma sorted_lookup_ok files i f : sorted_level files -> files !! i = Some f -> file_ok f.
Proof. intros [Hok _] Hi. by eapply Forall_lookup_1. Qed.

(** The largest keys increase. *)
Lemma largest_lt files i j f g : sorted_level files -> (i < j)%nat -> files !! i = Some f -> files !! j = Some g ->
  icompare (f_largest f) (f_largest g) < 0.
Proof using ComparatorLaws0 Hbytes.
  intros Hs Hij Hf Hg. pose proof (sorted_lookup_ok _ _ _ Hs Hf) as [_ F2 _ _]. pose proof (sorted_lookup_ok _ _ _ Hs Hg) as [G1 G2 G3 _].
  by apply (cmp_lt_le icompare iok _ (f_smallest g)), G3; try done; apply (sl_order _ Hs i j).
Qed.

(** ** [FindFile] *)

(** The files before [i] end before the key, those from [i] on do not. *)
Record splits (files : list File) (key : Slice) (i : nat) : Prop := {
  sp_bound : (i <= length files)%nat;
  sp_below j f : (j < i)%nat -> files !! j = Some f -> icompare (f_largest f) key < 0;
  sp_above j f : (i <= j)%nat -> files !! j = Some f -> 0 <= icompare (f_largest f) key;
}.

Lemma find_file_loop_spec files key n : ∀ left right, sorted_level files -> iok key -> Z.of_nat (length files) < 2 ^ 31 ->
  (left <= right <= length files)%nat -> (right - left <= n)%nat ->
  (∀ j f, (j < left)%nat -> files !! j = Some f -> icompare (f_largest f) key < 0) ->
  (∀ j f, (right <= j)%nat -> files !! j = Some f -> 0 <= icompare (f_largest f) key) ->
  ∃ i, find_file_loop ucmp n files key (Z.of_nat left) (Z.of_nat right) = Some (Z.of_nat i) ∧ splits files key i.
Proof using ComparatorLaws0 Hbytes.
  induction n as [|n IH]; intros left right Hs Hk Hlen Hlr Hn Hlo Hhi; cbn [find_file_loop];
    destruct (Z.ltb_spec (Z.of_nat left) (Z.of_nat right)) as [Hlt|Hge]; try lia.
  - assert (left = right) as -> by lia. exists right. split; [done|]. by split; [lia|..].
  - set (mid := ((left + right) / 2)%nat). assert (u32 (Z.of_nat left + Z.of_nat right) / 2 = Z.of_nat mid) as ->.
    { rewrite u32_small by lia. unfold mid. rewrite Nat2Z.inj_div. f_equal. lia. }
    assert (left <= mid < right)%nat as Hmid by (unfold mid; split; [apply Nat.div_le_lower_bound; lia|apply Nat.div_lt_upper_bound; lia]).
    unfold file_at. rewrite Nat2Z.id. destruct (lookup_lt_is_Some_2 files mid ltac:(lia)) as [f Hf]. rewrite Hf. cbn [mbind option_bind].
    change (Compare icmp) with icompare. pose proof (sorted_lookup_ok _ _ _ Hs Hf) as [_ F2 _ _].
    destruct (Z.ltb_spec (icompare (f_largest f) key) 0) as [Hc|Hc].
    + rewrite u32_small by lia. replace (Z.of_nat mid + 1) with (Z.of_nat (S mid)) by lia. apply IH; try done; try lia.
      intros j g Hj Hg. destruct (decide (j = mid)) as [->|]; [by simplify_eq|]. pose proof (sorted_lookup_ok _ _ _ Hs Hg) as [_ G2 _ _].
      apply (cmp_lt_trans icompare iok _ (f_largest f)); try done. apply (largest_lt files j mid); [done|lia|done..].
    + apply IH; try done; try lia. intros j g Hj Hg. destruct (decide (j = mid)) as [->|]; [by simplify_eq|].
      pose proof (sorted_lookup_ok _ _ _ Hs Hg) as [_ G2 _ _]. pose proof (largest_lt files mid j f g Hs ltac:(lia) Hf Hg).
      apply (cmp_flip_le icompare iok); [done|done|]. enough (icompare key (f_largest g) < 0) by lia.
      apply (cmp_le_lt icompare iok _ (f_largest f)); try done. by apply (cmp_flip_le icompare iok).
  - assert (left = right) as -> by lia. exists right. split; [done|]. by split; [lia|..].
Qed.

Lemma FindFile_spec files key : sorted_level files -> iok key -> Z.of_nat (length files) < 2 ^ 31 ->
  ∃ i, FindFile ucmp files key = Some (Z.of_nat i) ∧ splits files key i.
Proof using ComparatorLaws0 Hbytes.
  intros Hs Hk Hlen. unfold FindFile. rewrite u32_small by lia.
  destruct (find_file_loop_spec files key (length files) 0 (length files)) as (i & E & Hi); try done; try lia.
  - intros j f Hj Hf. apply lookup_lt_Some in Hf. lia.
  - change (Z.of_nat 0) with 0 in E. rewrite E. cbn [mbind option_bind]. exists i. split; [|done]. f_equal. pose proof (sp_bound _ _ _ Hi). apply swrap_small; lia.
Qed.

(** ** [SomeFileOverlapsRange] *)

(** Whether the ranges of user keys meet; a missing end is open. *)
Definition overlaps (small large : option Slice) (f : File) : bool := negb (AfterFile ucmp small f || BeforeFile ucmp large f).

Definition end_ok (k : option Slice) : Prop := match k with Some k => okp k | None => True end.

(** The key that is sought for a user key lies at or before all its entries. *)
Lemma seek_key_user f k : file_ok f -> okp k ->
  icompare (f_largest f) (InternalKey_new k kMaxSequenceNumber kValueTypeForSeek) < 0 <-> ucompare (ukey (f_largest f)) k < 0.
Proof.
  intros [_ (F1 & _ & _) _ [pk Hp]] Hk. unfold InternalKey_new. rewrite AppendInternalKey_ikey. cbn [user_key sequence type app].
  destruct (parsed_tag_le _ _ F1 Hp) as [Ht _].
  destruct (InternalCompare_cases ucmp (f_largest f) (ikey k (PackSequenceAndType kMaxSequenceNumber kValueTypeForSeek))) as [[_ ->]|[E Esg]];
    rewrite ExtractUserKey_ikey in *; [done|]. rewrite key_tag_ikey in Esg by by apply PackSequenceAndType_u64. lia.
Qed.

Lemma InternalKey_new_ok k s t : okp k -> iok (InternalKey_new k s t).
Proof using Hbytes. intros Hk. unfold InternalKey_new. rewrite AppendInternalKey_ikey. apply ikey_ok_ikey; simpl; auto. Qed.

Lemma existsb_split {A} (P : A -> bool) (l : list A) i : (i <= length l)%nat -> (∀ j x, (j < i)%nat -> l !! j = Some x -> P x = false) ->
  (∀ j x y, (i <= j)%nat -> l !! i = Some x -> l !! j = Some y -> P x = false -> P y = false) ->
  existsb P l = match l !! i with Some x => P x | None => false end.
Proof.
  intros Hi Hlo Hhi. destruct (existsb P l) eqn:E.
  - apply existsb_exists in E as (x & Hx & Px). apply list_elem_of_In, list_elem_of_lookup in Hx as [j Hj].
    destruct (decide (j < i)%nat); [by rewrite (Hlo j x) in Px|].
    destruct (l !! i) as [y|] eqn:Hy; [|apply lookup_ge_None in Hy; apply lookup_lt_Some in Hj; lia].
    destruct (P y) eqn:Py; [done|]. rewrite (Hhi j y x) in Px; [done|lia|done..].
  - destruct (l !! i) as [y|] eqn:Hy; [|done]. destruct (P y) eqn:Py; [|done].
    enough (existsb P l = true) by congruence. apply existsb_exists. exists y. split; [|done]. apply list_elem_of_In. by eapply list_elem_of_lookup_2.
Qed.

(** Where the range begins, the files after it, and what lies before it. *)
Lemma range_start files small : sorted_level files -> end_ok small -> Z.of_nat (length files) < 2 ^ 31 ->
  ∃ i, (match small with Some k => FindFile ucmp files (InternalKey_new k kMaxSequenceNumber kValueTypeForSeek) | None => Some 0 end) = Some (Z.of_nat i) ∧
    (i <= length files)%nat ∧ (∀ j f, (j < i)%nat -> files !! j = Some f -> AfterFile ucmp small f = true) ∧
    (∀ j f, (i <= j)%nat -> files !! j = Some f -> AfterFile ucmp small f = false).
Proof using ComparatorLaws0 Hbytes.
  intros Hs Hk Hlen. destruct small as [k|]; [|exists O; split_and!; [done|lia|intros; lia|done]]. simpl in Hk.
  destruct (FindFile_spec files _ Hs (InternalKey_new_ok k kMaxSequenceNumber kValueTypeForSeek Hk) Hlen) as (i & E & [S1 S2 S3]).
  exists i. split_and!; [done|done|..]; intros j f Hj Hf; simpl; pose proof (sorted_lookup_ok _ _ _ Hs Hf) as Hok;
    pose proof (user_okp _ (fk_large _ Hok)) as Hlo.
  - apply Z.ltb_lt, (cmp_flip ucompare okp); [done|done|]. apply seek_key_user; [done..|]. by apply (S2 j).
  - apply Z.ltb_ge. specialize (S3 j f Hj Hf). pose proof (seek_key_user f k Hok Hk). apply (cmp_flip_le ucompare okp); [done|done|lia].
Qed.

Lemma SomeFileOverlapsRange_exact disjoint files small large : (disjoint = true -> sorted_level files) -> Forall file_ok files ->
  end_ok small -> end_ok large -> Z.of_nat (length files) < 2 ^ 31 ->
  SomeFileOverlapsRange ucmp disjoint files small large = Some (existsb (overlaps small large) files).
Proof using ComparatorLaws0 Hbytes.
  intros Hd Hoks Hsm Hlg Hlen. unfold SomeFileOverlapsRange. destruct disjoint; [|done]. specialize (Hd eq_refl). cbn [negb].
  destruct (range_start files small Hd Hsm Hlen) as (i & -> & Hi & Hlo & Hhi). cbn [mbind option_bind]. rewrite u32_small by lia.
  rewrite (existsb_split _ files i); [|done|..].
  - unfold file_at. rewrite Nat2Z.id. destruct (Z.leb_spec (Z.of_nat (length files)) (Z.of_nat i)) as [Hge|Hlt].
    + by rewrite lookup_ge_None_2 by lia.
    + destruct (lookup_lt_is_Some_2 files i ltac:(lia)) as [f Hf]. rewrite Hf. cbn [mbind option_bind]. unfold overlaps. by rewrite (Hhi i f).
  - intros j f Hj Hf. unfold overlaps. by rewrite (Hlo j f).
  - intros j f g Hj Hf Hg. unfold overlaps. rewrite (Hhi i f), (Hhi j g) by (done || lia). simpl. rewrite !negb_false_iff.
    destruct large as [k|]; [|done]. simpl. rewrite !Z.ltb_lt. intros Hb. destruct (decide (i = j)) as [->|]; [by simplify_eq|].
    pose proof (sorted_lookup_ok _ _ _ Hd Hf) as [F1 F2 F3 _]. pose proof (sorted_lookup_ok _ _ _ Hd Hg) as [G1 _ _ _].
    pose proof (sl_order _ Hd i j f g ltac:(lia) Hf Hg) as Hfg.
    apply (cmp_lt_le ucompare okp _ (ukey (f_smallest f))); [done|by apply user_okp|by apply user_okp|done|].
    apply user_le, (cmp_le_trans (f_smallest f) (f_largest f)); [done..|lia].
Qed.

(** ** [GetOverlappingInputs] *)

Local Abbreviation fstart f := (ukey (f_smallest f)).
Local Abbreviation flimit f := (ukey (f_largest f)).

Definition ends_before (b : option Slice) (f : File) : bool := match b with Some k => ucompare (flimit f) k <? 0 | None => false end.
Definition starts_after (e : option Slice) (f : File) : bool := match e with Some k => 0 <? ucompare (fstart f) k | None => false end.
Definition starts_before (b : option Slice) (f : File) : bool := match b with Some k => ucompare (fstart f) k <? 0 | None => false end.
Definition ends_after (e : option Slice) (f : File) : bool := match e with Some k => 0 <? ucompare (flimit f) k | None => false end.

(** The file meets the range; it sticks out of it. *)
Definition meets (b e : option Slice) (f : File) : bool := negb (ends_before b f) && negb (starts_after e f).
Definition sticks_out (b e : option Slice) (f : File) : bool := starts_before b f || ends_after e f.

Lemma overlapping_step n l0 files i b e inputs f : files !! i = Some f ->
  overlapping_loop ucmp (S n) l0 files i b e inputs =
    if ends_before b f then overlapping_loop ucmp n l0 files (S i) b e inputs
    else if starts_after e f then overlapping_loop ucmp n l0 files (S i) b e inputs
    else if l0 && starts_before b f then overlapping_loop ucmp n l0 files 0 (Some (fstart f)) e []
    else if l0 && ends_after e f then overlapping_loop ucmp n l0 files 0 b (Some (flimit f)) []
    else overlapping_loop ucmp n l0 files (S i) b e (inputs ++ [f]).
Proof. intros Hf. cbn [overlapping_loop]. by rewrite Hf. Qed.

Lemma overlapping_end n l0 files i b e inputs : files !! i = None -> overlapping_loop ucmp n l0 files i b e inputs = Some inputs.
Proof. intros Hf. destruct n; cbn [overlapping_loop]; by rewrite Hf. Qed.

Local Abbreviation met b e := (List.filter (meets b e)).

Lemma met_snoc b e files i f : files !! i = Some f -> met b e (take (S i) files) = met b e (take i files) ++ (if meets b e f then [f] else []).
Proof. intros Hf. rewrite (take_S_r _ _ f Hf), List.filter_app. simpl. by destruct (meets b e f). Qed.

(** Above level 0 one pass is enough. *)
Lemma overlapping_deeper files b e n : ∀ i, (length files - i <= n)%nat -> (i <= length files)%nat ->
  overlapping_loop ucmp n false files i b e (met b e (take i files)) = Some (met b e files).
Proof.
  induction n as [|n IH]; intros i Hn Hi; (destruct (files !! i) as [f|] eqn:Hf; [|
    rewrite overlapping_end by done; apply lookup_ge_None in Hf; by rewrite take_ge by lia]).
  - apply lookup_lt_Some in Hf. lia.
  - rewrite (overlapping_step _ _ _ _ _ _ _ f Hf). pose proof (lookup_lt_Some _ _ _ Hf). cbn [andb].
    specialize (IH (S i) ltac:(lia) ltac:(lia)). rewrite (met_snoc _ _ _ _ _ Hf) in IH. unfold meets in IH at 2.
    destruct (ends_before b f); simpl in IH; [by rewrite app_nil_r in IH|]. destruct (starts_after e f); simpl in IH; [by rewrite app_nil_r in IH|done].
Qed.

(** Files that share a user key, and the files connected to a range. *)
Definition touches (f g : File) : Prop := ucompare (fstart f) (flimit g) <= 0 ∧ ucompare (fstart g) (flimit f) <= 0.

Inductive connected (files : list File) (b e : option Slice) : File -> Prop :=
| connected_range f : f ∈ files -> meets b e f = true -> connected files b e f
| connected_file f g : connected files b e f -> g ∈ files -> touches f g -> connected files b e g.

Lemma meets_spec b e f : meets b e f = true <-> (∀ k, b = Some k -> 0 <= ucompare (flimit f) k) ∧ (∀ k, e = Some k -> ucompare (fstart f) k <= 0).
Proof.
  unfold meets, ends_before, starts_after. rewrite andb_true_iff, !negb_true_iff.
  destruct b as [b|], e as [e|]; rewrite ?Z.ltb_ge; naive_solver.
Qed.

Lemma sticks_spec b e f : sticks_out b e f = false <-> (∀ k, b = Some k -> 0 <= ucompare (fstart f) k) ∧ (∀ k, e = Some k -> ucompare (flimit f) k <= 0).
Proof.
  unfold sticks_out, starts_before, ends_after. rewrite orb_false_iff. destruct b as [b|], e as [e|]; rewrite ?Z.ltb_ge; naive_solver.
Qed.

Section Level0.

Context (files : list File) (Hoks : Forall file_ok files).

Lemma in_files_ok f : f ∈ files -> file_ok f ∧ okp (fstart f) ∧ okp (flimit f) ∧ ucompare (fstart f) (flimit f) <= 0.
Proof using Hoks.
  intros Hf. pose proof (proj1 (list.Forall_forall _ _) Hoks f Hf) as H. split_and!; [done|by apply user_okp, H|by apply user_okp, H|by apply user_le, H].
Qed.

(** The ends that the search can still move. *)
Definition room (b e : option Slice) : nat := (length (List.filter (starts_before b) files) + length (List.filter (ends_after e) files))%nat.

Lemma length_filter_lt {A} (P Q : A -> bool) (l : list A) x : x ∈ l -> (∀ y, y ∈ l -> Q y = true -> P y = true) -> P x = true -> Q x = false ->
  (length (List.filter Q l) < length (List.filter P l))%nat.
Proof.
  intros Hx Hsub Hp Hq. assert (∀ l', (∀ y, y ∈ l' -> Q y = true -> P y = true) -> (length (List.filter Q l') <= length (List.filter P l'))%nat) as Hle.
  { induction l' as [|y l' IH]; intros Hs; simpl; [lia|]. specialize (IH (fun z Hz => Hs z ltac:(by right))).
    specialize (Hs y ltac:(by left)). destruct (Q y); [rewrite Hs by done|destruct (P y)]; simpl; lia. }
  induction Hx as [x l|x y l Hx IH]; simpl.
  - rewrite Hp, Hq. simpl. specialize (Hle l (fun z Hz => Hsub z ltac:(by right))). lia.
  - specialize (IH (fun z Hz => Hsub z ltac:(by right)) Hp Hq). specialize (Hsub y ltac:(by left)).
    destruct (Q y); [rewrite Hsub by done|destruct (P y)]; simpl; lia.
Qed.

Lemma room_begin b e f k : f ∈ files -> b = Some k -> okp k -> ucompare (fstart f) k < 0 -> (room (Some (fstart f)) e < room b e)%nat.
Proof using ComparatorLaws0 Hoks.
  intros Hf -> Hk Hlt. unfold room. destruct (in_files_ok f Hf) as (_ & Hfs & _).
  enough (length (List.filter (starts_before (Some (fstart f))) files) < length (List.filter (starts_before (Some k)) files))%nat by lia.
  apply (length_filter_lt _ _ _ f Hf); simpl.
  - intros g Hg. rewrite !Z.ltb_lt. intros H. destruct (in_files_ok g Hg) as (_ & Hgs & _). by apply (cmp_lt_trans ucompare okp _ (fstart f)).
  - by apply Z.ltb_lt.
  - rewrite (cmp_refl ucompare okp) by done. done.
Qed.

Lemma room_end b e f k : f ∈ files -> e = Some k -> okp k -> 0 < ucompare (flimit f) k -> (room b (Some (flimit f)) < room b e)%nat.
Proof using ComparatorLaws0 Hoks.
  intros Hf -> Hk Hlt. unfold room. destruct (in_files_ok f Hf) as (_ & _ & Hfl & _).
  enough (length (List.filter (ends_after (Some (flimit f))) files) < length (List.filter (ends_after (Some k)) files))%nat by lia.
  apply (length_filter_lt _ _ _ f Hf); simpl.
  - intros g Hg. rewrite !Z.ltb_lt. intros H. destruct (in_files_ok g Hg) as (_ & _ & Hgl & _).
    apply (cmp_flip ucompare okp); [done..|]. apply (cmp_lt_trans ucompare okp _ (flimit f)); [done..| |]; by apply (cmp_flip ucompare okp).
  - by apply Z.ltb_lt.
  - rewrite (cmp_refl ucompare okp) by done. done.
Qed.

(** Every file that meets the range by now is connected to the first one. *)
Definition grown (b e b' e' : option Slice) : Prop :=
  (∀ g, g ∈ files -> meets b' e' g = true -> connected files b e g) ∧ (∀ g, g ∈ files -> meets b e g = true -> meets b' e' g = true).

Lemma grown_begin b e b' e' f k : f ∈ files -> b' = Some k -> okp k -> end_ok e' -> meets b' e' f = true -> ucompare (fstart f) k < 0 ->
  grown b e b' e' -> grown b e (Some (fstart f)) e'.
Proof using ComparatorLaws0 Hoks.
  intros Hf -> Hk He Hm Hlt [G1 G2]. destruct (in_files_ok f Hf) as (_ & Hfs & Hfl & Hfle). split; intros g Hg.
  - destruct (in_files_ok g Hg) as (_ & Hgs & Hgl & Hgle). rewrite meets_spec. intros [M1 M2]. specialize (M1 _ eq_refl).
    destruct (decide (0 <= ucompare (flimit g) k)) as [Hge|Hlt2].
    + apply G1; [done|]. apply meets_spec. split; [intros ? [= <-]; done|done].
    + apply (connected_file _ _ _ f); [by apply G1|done|]. rewrite meets_spec in Hm. destruct Hm as [Hm _]. specialize (Hm _ eq_refl). split.
      * by apply (cmp_flip_le ucompare okp).
      * apply (cmp_le_trans _ (flimit g)); [done..|]. enough (ucompare (flimit g) (flimit f) < 0) by lia.
        apply (cmp_lt_le ucompare okp _ k); [done..|lia|]. by apply (cmp_flip_le ucompare okp).
  - intros Hgm. specialize (G2 g Hg Hgm). destruct (in_files_ok g Hg) as (_ & Hgs & Hgl & Hgle). rewrite meets_spec in *. destruct G2 as [M1 M2].
    split; [|done]. intros ? [= <-]. specialize (M1 _ eq_refl). apply (cmp_flip_le ucompare okp); [done..|].
    apply (cmp_le_trans _ k); [done..|lia|by apply (cmp_flip_le ucompare okp)].
Qed.

Lemma grown_end b e b' e' f k : f ∈ files -> e' = Some k -> okp k -> end_ok b' -> meets b' e' f = true -> 0 < ucompare (flimit f) k ->
  grown b e b' e' -> grown b e b' (Some (flimit f)).
Proof using ComparatorLaws0 Hoks.
  intros Hf -> Hk He Hm Hlt [G1 G2]. destruct (in_files_ok f Hf) as (_ & Hfs & Hfl & Hfle). split; intros g Hg.
  - destruct (in_files_ok g Hg) as (_ & Hgs & Hgl & Hgle). rewrite meets_spec. intros [M1 M2]. specialize (M2 _ eq_refl).
    destruct (decide (ucompare (fstart g) k <= 0)) as [Hge|Hlt2].
    + apply G1; [done|]. apply meets_spec. split; [done|intros ? [= <-]; done].
    + apply (connected_file _ _ _ f); [by apply G1|done|]. rewrite meets_spec in Hm. destruct Hm as [_ Hm]. specialize (Hm _ eq_refl). split; [|done].
      apply (cmp_le_trans _ (fstart g)); [done..| |done]. enough (ucompare (fstart f) (fstart g) < 0) by lia.
      apply (cmp_le_lt ucompare okp _ k); [done..|]. apply (cmp_flip ucompare okp); [done..|lia].
  - intros Hgm. specialize (G2 g Hg Hgm). destruct (in_files_ok g Hg) as (_ & Hgs & Hgl & Hgle). rewrite meets_spec in *. destruct G2 as [M1 M2].
    split; [done|]. intros ? [= <-]. specialize (M2 _ eq_refl). apply (cmp_le_trans _ k); [done..|].
    apply (cmp_flip ucompare okp) in Hlt; [lia|done..].
Qed.

Lemma overlapping_level0 b e n : ∀ i b' e', end_ok b' -> end_ok e' -> grown b e b' e' ->
  (room b' e' * length files + (length files - i) <= n)%nat -> (i <= length files)%nat ->
  (∀ f, f ∈ take i files -> meets b' e' f = true -> sticks_out b' e' f = false) ->
  ∃ b1 e1, overlapping_loop ucmp n true files i b' e' (met b' e' (take i files)) = Some (met b1 e1 files) ∧ grown b e b1 e1 ∧
    end_ok b1 ∧ end_ok e1 ∧ ∀ f, f ∈ files -> meets b1 e1 f = true -> sticks_out b1 e1 f = false.
Proof using ComparatorLaws0 Hoks.
  induction n as [|n IH]; intros i b' e' Hb' He' HG Hn Hi Hin; (destruct (files !! i) as [f|] eqn:Hf; [|
    rewrite overlapping_end by done; apply lookup_ge_None in Hf; rewrite take_ge in Hin |- * by lia; by exists b', e']).
  { apply lookup_lt_Some in Hf. lia. }
  pose proof (lookup_lt_Some _ _ _ Hf) as Hlt. pose proof (list_elem_of_lookup_2 _ _ _ Hf) as Hfin.
  destruct (in_files_ok f Hfin) as (_ & Hfs & Hfl & Hfle). rewrite (overlapping_step _ _ _ _ _ _ _ f Hf). cbn [andb].
  assert (∀ b2 e2, (room b2 e2 < room b' e')%nat -> (room b2 e2 * length files + (length files - 0) <= n)%nat) as Hroom.
  { intros b2 e2 Hr. assert (S (room b2 e2) * length files <= room b' e' * length files)%nat by (apply Nat.mul_le_mono_r; lia). lia. }
  assert ((meets b' e' f = true -> sticks_out b' e' f = false) -> ∃ b1 e1,
    overlapping_loop ucmp n true files (S i) b' e' (met b' e' (take (S i) files)) = Some (met b1 e1 files) ∧ grown b e b1 e1 ∧
    end_ok b1 ∧ end_ok e1 ∧ ∀ f, f ∈ files -> meets b1 e1 f = true -> sticks_out b1 e1 f = false) as Hnext.
  { intros Hsf. apply IH; [done..|lia|lia|]. intros g. rewrite (take_S_r _ _ f Hf), elem_of_app, list_elem_of_singleton. intros [Hg| ->]; auto. }
  rewrite (met_snoc _ _ _ _ _ Hf) in Hnext. destruct (meets b' e' f) eqn:Hm.
  - unfold meets in Hm. apply andb_true_iff in Hm as [Hm1%negb_true_iff Hm2%negb_true_iff]. rewrite Hm1, Hm2.
    assert (meets b' e' f = true) as Hm by (unfold meets; by rewrite Hm1, Hm2). clear Hm1 Hm2.
    destruct (starts_before b' f) eqn:Hsb.
    { destruct b' as [k|]; [|done]. simpl in Hsb. apply Z.ltb_lt in Hsb. apply (IH 0%nat); [done|done| | |lia|by intros ? ?%elem_of_nil].
      - by apply (grown_begin b e (Some k) e' f k).
      - apply Hroom. by apply (room_begin _ _ _ k). }
    destruct (ends_after e' f) eqn:Hea.
    { destruct e' as [k|]; [|done]. simpl in Hea. apply Z.ltb_lt in Hea. apply (IH 0%nat); [done|done| | |lia|by intros ? ?%elem_of_nil].
      - by apply (grown_end b e b' (Some k) f k).
      - apply Hroom. by apply (room_end _ _ _ k). }
    apply Hnext. intros _. unfold sticks_out. by rewrite Hsb, Hea.
  - rewrite app_nil_r in Hnext. unfold meets in Hm. destruct (ends_before b' f); [by apply Hnext|]. destruct (starts_after e' f); [by apply Hnext|done].
Qed.

Lemma room_le b e : (room b e <= 2 * length files)%nat.
Proof.
  unfold room. assert (∀ P : File -> bool, (length (List.filter P files) <= length files)%nat) as H by (intros P; apply List.filter_length_le).
  pose proof (H (starts_before b)). pose proof (H (ends_after e)). lia.
Qed.

(** The files of level 0 connected to the range, in their order. *)
Lemma overlapping_connected b e : end_ok b -> end_ok e -> ∃ b1 e1,
  overlapping_loop ucmp (overlapping_rounds files) true files 0 b e [] = Some (met b1 e1 files) ∧
  ∀ f, f ∈ files -> meets b1 e1 f = true <-> connected files b e f.
Proof using ComparatorLaws0 Hoks.
  intros Hb He. destruct (overlapping_level0 b e (overlapping_rounds files) 0 b e) as (b1 & e1 & E & [G1 G2] & Hb1 & He1 & Hst); try done.
  - split; [intros g Hg Hm; by constructor|done].
  - unfold overlapping_rounds. pose proof (room_le b e). nia.
  - lia.
  - by intros f ?%elem_of_nil.
  - exists b1, e1. split; [done|]. intros f Hf. split; [by apply G1|]. intros Hc.
    induction Hc as [g Hg Hm|g h Hc IH Hh [T1 T2]]; [by apply G2|].
    assert (g ∈ files) as Hg by by destruct Hc. specialize (IH Hg). pose proof (Hst g Hg IH) as Hs. rewrite sticks_spec in Hs. destruct Hs as [S1 S2].
    destruct (in_files_ok g Hg) as (_ & Hgs & Hgl & _). destruct (in_files_ok h Hh) as (_ & Hhs & Hhl & _). rewrite meets_spec. split; intros k ->.
    + specialize (S1 k eq_refl). simpl in Hb1. apply (cmp_flip_le ucompare okp); [done..|].
      apply (cmp_le_trans _ (fstart g)); [done..|by apply (cmp_flip_le ucompare okp)|done].
    + specialize (S2 k eq_refl). by apply (cmp_le_trans _ (flimit g)).
Qed.

End Level0.

(** ** Boundary files *)

(** The file begins with the user key of [k], after [k]. *)
Definition boundary (k : Slice) (f : File) : Prop := 0 < icompare (f_smallest f) k ∧ ucompare (fstart f) (ukey k) = 0.

Lemma closer_boundary_spec k files : ∀ best, (∀ b, best = Some b -> boundary k b) ->
  match foldl (closer_boundary ucmp k) best files with
  | Some f => (f ∈ files ∨ best = Some f) ∧ boundary k f
  | None => best = None ∧ ∀ f, f ∈ files -> ¬ boundary k f
  end.
Proof.
  induction files as [|g files IH]; intros best Hb; simpl; [destruct best; split; auto; by intros ? ?%elem_of_nil|].
  set (best' := closer_boundary ucmp k best g).
  assert ((best' = best ∧ (boundary k g -> best ≠ None)) ∨ (best' = Some g ∧ boundary k g)) as Hbest.
  { unfold best', closer_boundary, boundary. change (Compare icmp) with icompare.
    destruct (Z.ltb_spec 0 (icompare (f_smallest g) k)), (Z.eqb_spec (ucompare (fstart g) (ukey k)) 0); simpl; try (left; split; [done|lia]).
    destruct best as [b|]; [|by right]. destruct (icompare (f_smallest g) (f_smallest b) <? 0); [by right|by left]. }
  assert (∀ b, best' = Some b -> boundary k b) as Hb' by (intros b Eb; destruct Hbest as [[E _]|[E ?]]; rewrite E in Eb; [by apply Hb|by simplify_eq]).
  specialize (IH best' Hb'). destruct (foldl _ best' files) as [f|].
  - destruct IH as [[Hf|Hf] Hk]; (split; [|done]); [left; by right|]. destruct Hbest as [[E _]|[E _]]; rewrite E in Hf; [by right|simplify_eq; left; by left].
  - destruct IH as [E0 Hn]. destruct Hbest as [[E Hg]|[E _]]; [|congruence]. rewrite E in E0. split; [done|].
    intros f [->|Hf]%elem_of_cons; [|by apply Hn]. intros Hbf. by apply Hg.
Qed.

Lemma FindSmallestBoundaryFile_spec files k :
  match FindSmallestBoundaryFile ucmp files k with
  | Some f => f ∈ files ∧ boundary k f
  | None => ∀ f, f ∈ files -> ¬ boundary k f
  end.
Proof.
  pose proof (closer_boundary_spec k files None ltac:(done)) as H. unfold FindSmallestBoundaryFile.
  destruct (foldl _ None files); [|by destruct H]. destruct H as [[?|?] ?]; [done|done].
Qed.

Lemma FindLargestKey_snoc files g k : FindLargestKey ucmp files = Some k ->
  FindLargestKey ucmp (files ++ [g]) = Some (if 0 <? icompare (f_largest g) k then f_largest g else k).
Proof. destruct files as [|f fs]; simpl; [done|]. intros [= <-]. by rewrite foldl_app. Qed.

Lemma FindLargestKey_ok files k : Forall file_ok files -> FindLargestKey ucmp files = Some k ->
  iok k ∧ (∃ f, f ∈ files ∧ f_largest f = k) ∧ ∀ f, f ∈ files -> icompare (f_largest f) k <= 0.
Proof using ComparatorLaws0 Hbytes.
  revert k. induction files as [|g files IH] using rev_ind; intros k; [done|]. intros Hoks Hk. apply Forall_app in Hoks as [Hoks Hg]. apply Forall_cons_1 in Hg as [Hg _].
  pose proof (fk_large _ Hg) as Hgl. destruct files as [|f fs].
  { simpl in Hk. injection Hk as <-. split_and!; [done|exists g; set_solver|]. intros f ->%list_elem_of_singleton. by rewrite (cmp_refl icompare iok). }
  destruct (FindLargestKey ucmp (f :: fs)) as [k0|] eqn:E; [|done]. rewrite (FindLargestKey_snoc _ _ _ E) in Hk. injection Hk as <-.
  destruct (IH k0 Hoks eq_refl) as (K1 & (h & Hh & Eh) & K3). destruct (Z.ltb_spec 0 (icompare (f_largest g) k0)) as [Hlt|Hge].
  - split_and!; [done|exists g; set_solver|]. intros x [Hx| ->%list_elem_of_singleton]%elem_of_app; [|by rewrite (cmp_refl icompare iok)].
    pose proof (fk_large _ (proj1 (list.Forall_forall _ _) Hoks x Hx)).
    apply (cmp_le_trans _ k0); [done..|by apply K3|]. apply (cmp_flip icompare iok) in Hlt; [lia|done..].
  - split_and!; [done|exists h; set_solver|]. intros x [Hx| ->%list_elem_of_singleton]%elem_of_app; [by apply K3|done].
Qed.

(** The files that begin after a key. *)
Definition later (files : list File) (k : Slice) : nat := length (List.filter (fun f => 0 <? icompare (f_smallest f) k) files).

Lemma later_lt files f k : Forall file_ok files -> f ∈ files -> iok k -> 0 < icompare (f_smallest f) k -> (later files (f_largest f) < later files k)%nat.
Proof using ComparatorLaws0 Hbytes.
  intros Hoks Hf Hk Hlt. pose proof (proj1 (list.Forall_forall _ _) Hoks f Hf) as [F1 F2 F3 _]. apply (length_filter_lt _ _ _ f Hf).
  - intros g Hg. rewrite !Z.ltb_lt. intros H. pose proof (fk_small _ (proj1 (list.Forall_forall _ _) Hoks g Hg)) as G1.
    apply (cmp_flip icompare iok) in H; [|done..]. apply (cmp_flip icompare iok) in Hlt; [|done..].
    apply (cmp_flip icompare iok); [done..|]. apply (cmp_lt_trans icompare iok _ (f_smallest f)); [done..|].
    by apply (cmp_le_lt icompare iok _ (f_largest f)).
  - by apply Z.ltb_lt.
  - by apply Z.ltb_ge.
Qed.

Lemma boundary_loop_spec files n : ∀ k cf, Forall file_ok files -> iok k -> (later files k < n)%nat -> FindLargestKey ucmp cf = Some k ->
  ∃ added k', boundary_loop ucmp n files k cf = Some (cf ++ added) ∧ (∀ f, f ∈ added -> f ∈ files) ∧
    (added ≠ [] -> ∃ f, f ∈ files ∧ boundary k f) ∧
    FindLargestKey ucmp (cf ++ added) = Some k' ∧ ∀ f, f ∈ files -> ¬ boundary k' f.
Proof using ComparatorLaws0 Hbytes.
  induction n as [|n IH]; intros k cf Hoks Hk Hn Hcf; [lia|]. cbn [boundary_loop]. pose proof (FindSmallestBoundaryFile_spec files k) as H.
  destruct (FindSmallestBoundaryFile ucmp files k) as [f|].
  - destruct H as [Hf [Hlt Hu]]. pose proof (proj1 (list.Forall_forall _ _) Hoks f Hf) as [F1 F2 F3 _]. pose proof (later_lt files f k Hoks Hf Hk Hlt).
    assert (icompare k (f_largest f) < 0) as Hkf by (apply (cmp_lt_le icompare iok _ (f_smallest f)); try done; by apply (cmp_flip icompare iok)).
    destruct (IH (f_largest f) (cf ++ [f]) Hoks F2) as (added & k' & E & Hin & _ & Hmax & Hnone); [lia| |].
    { rewrite (FindLargestKey_snoc _ _ k) by done. apply (cmp_flip icompare iok) in Hkf; [|done..]. by rewrite (proj2 (Z.ltb_lt _ _) Hkf). }
    exists (f :: added), k'. rewrite <- app_assoc in E, Hmax. split_and!; [done| |by exists f|done|done]. intros g [->|Hg]%elem_of_cons; auto.
  - exists [], k. rewrite app_nil_r. split_and!; [done|by intros ? ?%elem_of_nil|done|done|done].
Qed.

Lemma AddBoundaryInputs_spec files cf : Forall file_ok files -> Forall file_ok cf -> cf ≠ [] ->
  ∃ k added k', FindLargestKey ucmp cf = Some k ∧ AddBoundaryInputs ucmp files cf = Some (cf ++ added) ∧
    (∀ f, f ∈ added -> f ∈ files) ∧ (added ≠ [] -> ∃ f, f ∈ files ∧ boundary k f) ∧ FindLargestKey ucmp (cf ++ added) = Some k' ∧ ∀ f, f ∈ files -> ¬ boundary k' f.
Proof using ComparatorLaws0 Hbytes.
  intros Hoks Hcf Hne. unfold AddBoundaryInputs. destruct (FindLargestKey ucmp cf) as [k|] eqn:Ek; [|by destruct cf].
  destruct (FindLargestKey_ok cf k Hcf Ek) as [Hk _].
  destruct (boundary_loop_spec files (S (length files)) k cf Hoks Hk) as (added & k' & H); [|done|by exists k, added, k'].
  unfold later. pose proof (List.filter_length_le (fun f => 0 <? icompare (f_smallest f) k) files). lia.
Qed.

(** ** The inputs of a compaction *)

Record covers (s l : Slice) (files : list File) : Prop := {
  cv_small : iok s;
  cv_large : iok l;
  cv_in f : f ∈ files -> icompare s (f_smallest f) <= 0 ∧ icompare (f_largest f) l <= 0;
}.

Lemma GetRange_spec files : Forall file_ok files -> files ≠ [] -> ∃ s l, GetRange ucmp files = Some (s, l) ∧ covers s l files.
Proof using ComparatorLaws0 Hbytes.
  intros Hoks Hne. destruct files as [|f fs]; [done|]. clear Hne. cbn [GetRange].
  induction fs as [|g fs IH] using rev_ind.
  - apply Forall_cons_1 in Hoks as [[F1 F2 _ _] _]. exists (f_smallest f), (f_largest f). split; [done|]. split; [done..|].
    intros x ->%list_elem_of_singleton. by rewrite !(cmp_refl icompare iok).
  - rewrite app_comm_cons in Hoks. apply Forall_app in Hoks as [Hoks Hg]. apply Forall_cons_1 in Hg as [[G1 G2 _ _] _].
    destruct (IH Hoks) as (s & l & E & [C1 C2 C3]). injection E as E. rewrite foldl_app, E. cbn [foldl]. unfold widen. cbn [fst snd].
    change (Compare icmp) with icompare. eexists _, _. split; [done|]. split; [by case_match|by case_match|].
    intros x. rewrite app_comm_cons, elem_of_app, list_elem_of_singleton. intros [Hx| ->].
    + destruct (C3 x Hx) as [X1 X2]. pose proof (proj1 (list.Forall_forall _ _) Hoks x Hx) as [F1 F2 _ _]. split.
      * destruct (Z.ltb_spec (icompare (f_smallest g) s) 0); [|done]. apply (cmp_le_trans _ s); [done..|lia|done].
      * destruct (Z.ltb_spec 0 (icompare (f_largest g) l)) as [H|]; [|done]. apply (cmp_le_trans _ l); [done..|].
        apply (cmp_flip icompare iok) in H; [lia|done..].
    + split.
      * destruct (Z.ltb_spec (icompare (f_smallest g) s) 0); [by rewrite (cmp_refl icompare iok)|]. by apply (cmp_flip_le icompare iok).
      * destruct (Z.ltb_spec 0 (icompare (f_largest g) l)); [by rewrite (cmp_refl icompare iok)|done].
Qed.

Lemma covers_meets s l files f : covers s l files -> Forall file_ok files -> f ∈ files -> meets (Some (ukey s)) (Some (ukey l)) f = true.
Proof using ComparatorLaws0 Hbytes.
  intros [C1 C2 C3] Hoks Hf. destruct (C3 f Hf) as [X1 X2]. pose proof (proj1 (list.Forall_forall _ _) Hoks f Hf) as [F1 F2 F3 _].
  apply meets_spec. split; intros k [= <-].
  - apply (cmp_flip_le ucompare okp); [by apply user_okp..|]. apply user_le. by apply (cmp_le_trans _ (f_smallest f)).
  - apply user_le. by apply (cmp_le_trans _ (f_largest f)).
Qed.

Record version_ok (v : Version) : Prop := {
  vo_levels : length (files_ v) = Z.to_nat kNumLevels;
  vo_files l files : files_ v !! l = Some files -> Forall file_ok files ∧ Z.of_nat (length files) < 2 ^ 31;
  vo_sorted l files : (0 < l)%nat -> files_ v !! l = Some files -> sorted_level files;
}.

Lemma level_files_some v level : version_ok v -> 0 <= level < kNumLevels -> ∃ files, level_files v level = Some files ∧ files_ v !! Z.to_nat level = Some files.
Proof.
  intros [V1 _ _] Hl. unfold level_files. rewrite (proj2 (Z.ltb_ge level 0)) by lia.
  destruct (lookup_lt_is_Some_2 (files_ v) (Z.to_nat level)) as [files Hf]; [rewrite V1; unfold kNumLevels in *; lia|]. by exists files.
Qed.

(** The files [GetOverlappingInputs] is meant to return. *)
Definition chosen (level : Z) (files : list File) (b e : option Slice) (f : File) : Prop :=
  f ∈ files ∧ if decide (level = 0) then connected files b e f else meets b e f = true.

Lemma GetOverlappingInputs_spec v level files b e : version_ok v -> 0 <= level < kNumLevels -> level_files v level = Some files ->
  end_ok (ukey <$> b) -> end_ok (ukey <$> e) ->
  ∃ inputs, GetOverlappingInputs ucmp level b e v = Some inputs ∧ inputs `sublist_of` files ∧ ∀ f, f ∈ inputs <-> chosen level files (ukey <$> b) (ukey <$> e) f.
Proof using ComparatorLaws0 Hbytes.
  intros Hv Hl Hfiles Hb He. unfold GetOverlappingInputs. rewrite Hfiles. cbn [mbind option_bind].
  assert (files_ v !! Z.to_nat level = Some files) as Hfl by (unfold level_files in Hfiles; by rewrite (proj2 (Z.ltb_ge level 0)) in Hfiles by lia).
  destruct (vo_files _ Hv _ _ Hfl) as [Hoks _].
  assert (∀ P : File -> bool, List.filter P files `sublist_of` files) as Hsub.
  { intros P. clear. induction files as [|f fs IH]; simpl; [constructor|]. by destruct (P f); constructor. }
  assert (∀ (P : File -> bool) f, f ∈ List.filter P files <-> f ∈ files ∧ P f = true) as Hin by (intros P f; rewrite !list_elem_of_In; apply List.filter_In).
  unfold chosen. destruct (Z.eqb_spec level 0) as [->|Hne].
  - destruct (overlapping_connected files Hoks _ _ Hb He) as (b1 & e1 & -> & Hc). eexists. split_and!; [done|apply Hsub|].
    intros f. rewrite Hin, decide_True by done. split; intros [Hf H]; (split; [done|]); by apply Hc.
  - pose proof (overlapping_deeper files (ukey <$> b) (ukey <$> e) (overlapping_rounds files) 0) as E. simpl in E. rewrite E; [|unfold overlapping_rounds; nia|lia].
    eexists. split_and!; [done|apply Hsub|]. intros f. rewrite Hin, decide_False by done. done.
Qed.

(** Closed under sharing a user key, as the inputs of level 0 are. *)
Definition closed (files X : list File) : Prop := ∀ f g, f ∈ X -> g ∈ files -> touches f g -> g ∈ X.

Lemma connected_in files b e f : connected files b e f -> f ∈ files.
Proof. by destruct 1. Qed.

(** [AddBoundaryInputs] on a set of files of the level. *)
Lemma add_boundary level files X : Forall file_ok files -> X ⊆ files -> X ≠ [] -> (level = 0 -> closed files X) ->
  ∃ Y k, AddBoundaryInputs ucmp files X = Some Y ∧ X ⊆ Y ∧ Y ⊆ files ∧ Y ≠ [] ∧ (level = 0 -> closed files Y) ∧
    FindLargestKey ucmp Y = Some k ∧ ∀ f, f ∈ files -> ¬ boundary k f.
Proof using ComparatorLaws0 Hbytes.
  intros Hoks HX Hne Hcl. assert (Forall file_ok X) as HokX by (apply list.Forall_forall; intros f Hf; by apply (proj1 (list.Forall_forall _ _) Hoks), HX).
  destruct (AddBoundaryInputs_spec files X Hoks HokX Hne) as (k & added & k' & Ek & E & Hin & Hfirst & Ek' & Hnone).
  exists (X ++ added), k'. split_and!; [done|set_solver|set_solver|by destruct X| |done|done].
  intros H0. destruct added as [|g added]; [rewrite app_nil_r; auto|]. exfalso. destruct (Hfirst ltac:(done)) as (h & Hh & Hb1 & Hb2).
  destruct (FindLargestKey_ok X k HokX Ek) as (K1 & (x & Hx & Ex) & K3). destruct (in_files_ok files Hoks h Hh) as ([H1 H2 H3 _] & Hhs & Hhl & Hhle).
  destruct (in_files_ok files Hoks x (HX x Hx)) as (_ & Hxs & Hxl & Hxle). subst k. assert (touches x h) as Ht.
  { split; [|lia]. apply (cmp_le_trans _ (flimit x)); [done..|]. apply (cmp_le_trans _ (fstart h)); [done..| |done].
    rewrite (cmp_eq_sym ucompare okp (fstart h) (flimit x)) by done. lia. }
  specialize (K3 h (Hcl H0 x h Hx Hh Ht)). apply (cmp_flip icompare iok) in Hb1; [|done..]. pose proof (cmp_lt_le icompare iok _ _ _ K1 H1 H2 Hb1 H3) as Hc.
  apply (cmp_flip icompare iok) in Hc; [lia|done..].
Qed.

Context (max_file_size : Z).

(** A compaction may replace its inputs without hiding newer entries behind
    older ones: the inputs of the next level are all files the range meets, no
    file of the level begins with the user key at which the inputs end, and on
    level 0 no other file shares a key with them. *)
Record complete (v : Version) (c : Compaction) : Prop := {
  cp_level : 0 <= c_level_ c < kNumLevels - 1;
  cp_version : input_version_ c = Some v;
  cp_inputs files : level_files v (c_level_ c) = Some files ->
    inputs_0 c ⊆ files ∧ inputs_0 c ≠ [] ∧ (c_level_ c = 0 -> closed files (inputs_0 c)) ∧
    ∃ k, FindLargestKey ucmp (inputs_0 c) = Some k ∧ ∀ f, f ∈ files -> ¬ boundary k f;
  cp_next files : level_files v (c_level_ c + 1) = Some files ->
    ∃ s l, GetRange ucmp (inputs_0 c) = Some (s, l) ∧ ∀ f, f ∈ inputs_1 c <-> f ∈ files ∧ meets (Some (ukey s)) (Some (ukey l)) f = true;
}.

Lemma subset_ok files X : Forall file_ok files -> X ⊆ files -> Forall file_ok X.
Proof. intros Hoks HX. apply list.Forall_forall. intros f Hf. by apply (proj1 (list.Forall_forall _ _) Hoks), HX. Qed.

Lemma chosen_closed files b e X : Forall file_ok files -> (∀ f, f ∈ X <-> chosen 0 files b e f) -> closed files X.
Proof.
  intros Hoks HX f g Hf Hg Ht. apply HX. apply HX in Hf as [_ Hf]. rewrite decide_True in Hf by done. split; [done|]. rewrite decide_True by done.
  by apply (connected_file _ _ _ f).
Qed.

Section Setup.

Context (v : Version) (Hv : version_ok v) (level : Z) (Hlevel : 0 <= level < kNumLevels - 1).
Context (files next : list File) (Hfiles : level_files v level = Some files) (Hnext : level_files v (level + 1) = Some next).

Lemma level_oks l fs : level_files v l = Some fs -> Forall file_ok fs.
Proof using Hv. unfold level_files. destruct (l <? 0); [done|]. intros H. by apply (vo_files _ Hv) in H as [? _]. Qed.

(** The inputs of the two levels fit together. *)
Record fits (in0 in1 : list File) (s l : Slice) : Prop := {
  ft_files : in0 ⊆ files;
  ft_some : in0 ≠ [];
  ft_closed : level = 0 -> closed files in0;
  ft_boundary : ∃ k, FindLargestKey ucmp in0 = Some k ∧ ∀ f, f ∈ files -> ¬ boundary k f;
  ft_range : GetRange ucmp in0 = Some (s, l);
  ft_next f : f ∈ in1 <-> f ∈ next ∧ meets (Some (ukey s)) (Some (ukey l)) f = true;
}.

(** The files of the next level for a set of files of the level. *)
Lemma next_inputs Y s l : GetRange ucmp Y = Some (s, l) -> covers s l Y ->
  ∃ in1, GetOverlappingInputs ucmp (level + 1) (Some s) (Some l) v = Some in1 ∧
    (∀ f, f ∈ in1 <-> f ∈ next ∧ meets (Some (ukey s)) (Some (ukey l)) f = true).
Proof using ComparatorLaws0 Hbytes Hlevel Hnext Hv.
  intros Hr [C1 C2 _]. destruct (GetOverlappingInputs_spec v (level + 1) next (Some s) (Some l) Hv ltac:(lia) Hnext) as (in1 & E & _ & Hin);
    [by apply user_okp|by apply user_okp|]. exists in1. split; [done|]. intros f. rewrite Hin. unfold chosen. by rewrite decide_False by lia.
Qed.

Lemma setup_first X : X ⊆ files -> X ≠ [] -> (level = 0 -> closed files X) ->
  ∃ Y in1 s l, AddBoundaryInputs ucmp files X = Some Y ∧ X ⊆ Y ∧ GetRange ucmp Y = Some (s, l) ∧
    GetOverlappingInputs ucmp (level + 1) (Some s) (Some l) v = Some in1 ∧ fits Y in1 s l.
Proof using ComparatorLaws0 Hbytes Hfiles Hlevel Hnext Hv.
  intros HX Hne Hcl. pose proof (level_oks level files Hfiles) as Hoks.
  destruct (add_boundary level files X Hoks HX Hne Hcl) as (Y & k & E & HXY & HYf & HY & HclY & Ek & Hnone).
  destruct (GetRange_spec Y (subset_ok _ _ Hoks HYf) HY) as (s & l & Er & Hc). destruct (next_inputs Y s l Er Hc) as (in1 & En & Hin).
  exists Y, in1, s, l. split_and!; try done. split; try done. by exists k.
Qed.

(** Expanding the inputs keeps them fitting. *)
Lemma expand_fits in0 in1 s l a : fits in0 in1 s l -> GetRange2 ucmp in0 in1 = Some a ->
  ∃ in0' in1' r' a', expand_inputs ucmp max_file_size level in0 in1 (s, l) a v = Some (in0', in1', r', a') ∧ in0 ⊆ in0' ∧
    fits in0' in1' r'.1 r'.2 ∧ GetRange2 ucmp in0' in1' = Some a'.
Proof using ComparatorLaws0 Hbytes Hfiles Hlevel Hnext Hv.
  intros Hf Ha. pose proof (level_oks level files Hfiles) as Hoks. pose proof (level_oks _ next Hnext) as Hoksn.
  assert (in1 ⊆ next) as Hin1 by (intros x Hx; by apply (ft_next _ _ _ _ Hf) in Hx as [? _]).
  assert (Forall file_ok (in0 ++ in1)) as Hok2 by (apply Forall_app; split; [apply (subset_ok files), Hf; done|by apply (subset_ok next)]).
  destruct (GetRange_spec (in0 ++ in1) Hok2) as (as_ & al & Ea & Hc); [pose proof (ft_some _ _ _ _ Hf); by destruct in0|].
  unfold GetRange2 in Ha. rewrite Ha in Ea. injection Ea as ->. unfold expand_inputs. rewrite Hfiles. cbn [mbind option_bind fst snd].
  destruct (GetOverlappingInputs_spec v level files (Some as_) (Some al) Hv ltac:(lia) Hfiles) as (X & -> & _ & HX); [apply user_okp, Hc|apply user_okp, Hc|].
  cbn [mbind option_bind]. simpl in HX.
  assert (in0 ⊆ X) as H0X.
  { intros f Hf0. apply HX. pose proof (covers_meets as_ al _ f Hc Hok2 ltac:(apply elem_of_app; by left)) as Hm. pose proof (ft_files _ _ _ _ Hf f Hf0).
    split; [done|]. case_decide; [by constructor|done]. }
  destruct (setup_first X) as (Y & in1' & s' & l' & EY & HXY & Er & En & Hfits).
  { intros f Hfx. by apply HX in Hfx as [? _]. }
  { pose proof (ft_some _ _ _ _ Hf). destruct in0 as [|f0 in0]; [done|]. intros ->. specialize (H0X f0 ltac:(by left)). by apply elem_of_nil in H0X. }
  { intros H0. apply (chosen_closed _ (Some (ukey as_)) (Some (ukey al)) X Hoks). intros f. rewrite HX. by rewrite H0. }
  rewrite EY. cbn [mbind option_bind]. case_match; [|by exists in0, in1, (s, l), (as_, al)].
  rewrite Er. cbn [mbind option_bind fst snd]. rewrite En. cbn [mbind option_bind]. case_match; [|by exists in0, in1, (s, l), (as_, al)].
  assert (Forall file_ok (Y ++ in1')) as Hok3.
  { apply Forall_app; split; [apply (subset_ok files), Hfits; done|]. apply (subset_ok next); [done|]. intros x Hx. by apply (ft_next _ _ _ _ Hfits) in Hx as [? _]. }
  destruct (GetRange_spec (Y ++ in1') Hok3) as (as2 & al2 & Ea2 & _); [pose proof (ft_some _ _ _ _ Hfits); by destruct Y|].
  unfold GetRange2. rewrite Ea2. cbn [mbind option_bind]. exists Y, in1', (s', l'), (as2, al2). split_and!; try done. set_solver.
Qed.

Lemma SetupOtherInputs_complete c ptrs : c_level_ c = level -> input_version_ c = Some v -> inputs_0 c ⊆ files -> inputs_0 c ≠ [] ->
  (level = 0 -> closed files (inputs_0 c)) ->
  ∃ c' ptrs', SetupOtherInputs ucmp max_file_size v c ptrs = Some (c', ptrs') ∧ complete v c' ∧ inputs_0 c ⊆ inputs_0 c' ∧ c_level_ c' = level.
Proof using ComparatorLaws0 Hbytes Hfiles Hlevel Hnext Hv.
  intros El Ev HX Hne Hcl. unfold SetupOtherInputs. rewrite El, Hfiles. cbn [mbind option_bind].
  destruct (setup_first (inputs_0 c) HX Hne Hcl) as (Y & in1 & s & l & -> & HXY & Er & En & Hf). cbn [mbind option_bind]. rewrite Er.
  cbn [mbind option_bind fst snd]. rewrite En. cbn [mbind option_bind].
  assert (∃ a, GetRange2 ucmp Y in1 = Some a) as [a Ea] by (pose proof (ft_some _ _ _ _ Hf); unfold GetRange2; destruct Y; [done|by eexists]).
  rewrite Ea. cbn [mbind option_bind].
  assert (∃ in0' in1' r' a', (if bool_decide (in1 = []) then Some (Y, in1, (s, l), a) else expand_inputs ucmp max_file_size level Y in1 (s, l) a v) =
    Some (in0', in1', r', a') ∧ Y ⊆ in0' ∧ fits in0' in1' r'.1 r'.2 ∧ GetRange2 ucmp in0' in1' = Some a') as (in0' & in1' & r' & a' & -> & HY' & Hf' & Ea').
  { case_match; [by exists Y, in1, (s, l), a|by apply expand_fits]. }
  cbn [mbind option_bind].
  assert (∃ grand, (if level + 2 <? kNumLevels then GetOverlappingInputs ucmp (level + 2) (Some a'.1) (Some a'.2) v else Some (grandparents_ c)) = Some grand) as [grand ->].
  { destruct (Z.ltb_spec (level + 2) kNumLevels); [|by eexists]. destruct (level_files_some v (level + 2) Hv ltac:(lia)) as (gf & Hgf & _).
    assert (Forall file_ok (in0' ++ in1')) as Hok3.
    { apply Forall_app; split; [apply (subset_ok files), Hf'; by eapply level_oks|]. apply (subset_ok next); [by eapply level_oks|].
      intros x Hx. by apply (ft_next _ _ _ _ Hf') in Hx as [? _]. }
    destruct (GetRange_spec _ Hok3) as (as2 & al2 & Ea2 & Hc); [pose proof (ft_some _ _ _ _ Hf'); by destruct in0'|].
    unfold GetRange2 in Ea'. rewrite Ea2 in Ea'. injection Ea' as <-. cbn [fst snd].
    destruct (GetOverlappingInputs_spec v (level + 2) gf (Some as2) (Some al2) Hv ltac:(lia) Hgf) as (g & -> & _); [apply user_okp, Hc..|]. by exists g. }
  cbn [mbind option_bind]. eexists _, _. split; [done|]. split_and!; [|simpl; set_solver|done]. destruct Hf' as [T1 T2 T3 T4 T5 T6].
  split; simpl; rewrite ?El; [done|done|..].
  - intros fs Hfs. rewrite Hfiles in Hfs. by injection Hfs as <-.
  - intros fs Hfs. rewrite Hnext in Hfs. injection Hfs as <-. exists r'.1, r'.2. split; [by rewrite T5|done].
Qed.

End Setup.

(** ** Choosing a compaction *)

Local Abbreviation has_files v level := (∃ files, level_files v level = Some files ∧ files ≠ []).

Lemma zero_score x : SFleb (double_of 1) (SFdiv 53 1024 (double_of 0) x) = false.
Proof. by destruct x. Qed.

(** A level that asks for a compaction has files. *)
Lemma finalize_loop_files v levels : ∀ n best, take (Z.to_nat (kNumLevels - 1)) (files_ v) = take n (files_ v) ++ levels -> (n <= length (files_ v))%nat ->
  (SFleb (double_of 1) best.2 = true -> 0 <= best.1 < kNumLevels - 1 ∧ has_files v best.1) ->
  let r := finalize_loop (Z.of_nat n) levels best in SFleb (double_of 1) r.2 = true -> 0 <= r.1 < kNumLevels - 1 ∧ has_files v r.1.
Proof.
  induction levels as [|files levels IH]; intros n best Hsplit Hn Hbest; cbn [finalize_loop]; [done|].
  assert (take (Z.to_nat (kNumLevels - 1)) (files_ v) !! n = Some files) as Hf.
  { rewrite Hsplit, lookup_app_r by (rewrite length_take; lia). rewrite length_take. by replace (n - n `min` length (files_ v))%nat with O by lia. }
  pose proof Hf as Hlt. apply lookup_take_Some in Hlt as [Hfv Hlt]. replace (Z.of_nat n + 1) with (Z.of_nat (S n)) by lia. apply IH.
  - rewrite Hsplit. rewrite (take_S_r _ _ files) by done. by rewrite <- app_assoc.
  - apply lookup_lt_Some in Hfv. lia.
  - match goal with |- context [SFltb ?a ?b] => destruct (SFltb a b) end; [|done]. cbn [fst snd]. intros Hs. split; [unfold kNumLevels in *; lia|]. exists files. split.
    + unfold level_files. rewrite (proj2 (Z.ltb_ge _ 0)) by lia. by rewrite Nat2Z.id.
    + intros ->. destruct (Z.of_nat n =? 0); [by rewrite zero_score in Hs|]. change (u64 (TotalFileSize [])) with 0 in Hs. by rewrite zero_score in Hs.
Qed.

Lemma Finalize_files v : files_ (Finalize v) = files_ v ∧ file_to_compact_ (Finalize v) = file_to_compact_ v ∧
  file_to_compact_level_ (Finalize v) = file_to_compact_level_ v.
Proof. unfold Finalize. by destruct (finalize_loop _ _ _). Qed.

Lemma Finalize_level v : version_ok v -> SFleb (double_of 1) (compaction_score_ (Finalize v)) = true ->
  0 <= compaction_level_ (Finalize v) < kNumLevels - 1 ∧ has_files v (compaction_level_ (Finalize v)).
Proof.
  intros Hv. pose proof (finalize_loop_files v (take (Z.to_nat (kNumLevels - 1)) (files_ v)) 0 (-1, double_of (-1)) ltac:(done) ltac:(lia) ltac:(done)) as H.
  cbv zeta in H. change (Z.of_nat 0) with 0 in H. unfold Finalize. destruct (finalize_loop 0 _ _). exact H.
Qed.

Lemma same_files_ok v w : files_ w = files_ v -> version_ok v -> version_ok w.
Proof. intros E [V1 V2 V3]. split; rewrite ?E; done. Qed.

Lemma first_after_in pointer files : files ≠ [] -> ∃ f, first_after ucmp pointer files = Some f ∧ f ∈ files.
Proof.
  intros Hne. unfold first_after. destruct (find _ files) as [f|] eqn:E.
  - exists f. split; [done|]. apply find_some in E as [E _]. by apply list_elem_of_In.
  - destruct files as [|f fs]; [done|]. exists f. split; [done|by left].
Qed.

(** One file to start with, and what it is connected to on level 0. *)
Lemma start_inputs v level files f : version_ok v -> 0 <= level < kNumLevels - 1 -> level_files v level = Some files -> f ∈ files ->
  ∃ X, (if level =? 0 then
      range ← GetRange ucmp [f]; inputs ← GetOverlappingInputs ucmp 0 (Some range.1) (Some range.2) v; if bool_decide (inputs = []) then None else Some inputs
    else Some [f]) = Some X ∧ X ⊆ files ∧ X ≠ [] ∧ (level = 0 -> closed files X).
Proof using ComparatorLaws0 Hbytes.
  intros Hv Hl Hfiles Hf. destruct (Z.eqb_spec level 0) as [->|Hne]; [|exists [f]; split_and!; [done|set_solver|done|done]].
  pose proof (level_oks v Hv _ _ Hfiles) as Hoks. pose proof (proj1 (list.Forall_forall _ _) Hoks f Hf) as Hok. pose proof Hok as [F1 F2 F3 _].
  cbn [GetRange foldl mbind option_bind fst snd].
  destruct (GetOverlappingInputs_spec v 0 files (Some (f_smallest f)) (Some (f_largest f)) Hv ltac:(done) Hfiles) as (X & -> & _ & HX); [by apply user_okp..|].
  cbn [mbind option_bind]. assert (f ∈ X) as HfX.
  { apply HX. split; [done|]. rewrite decide_True by done. constructor; [done|]. apply (covers_meets _ _ [f]); [|constructor; [done|constructor]|by left].
    split; [done..|]. intros x ->%list_elem_of_singleton. by rewrite !(cmp_refl icompare iok). }
  rewrite bool_decide_eq_false_2 by (intros ->; by apply elem_of_nil in HfX). exists X. split_and!; [done| |intros ->; by apply elem_of_nil in HfX|].
  - intros x Hx. by apply HX in Hx as [? _].
  - intros _. by apply (chosen_closed _ _ _ X Hoks HX).
Qed.

Lemma setup_from v level files X ptrs : version_ok v -> 0 <= level < kNumLevels - 1 -> level_files v level = Some files ->
  X ⊆ files -> X ≠ [] -> (level = 0 -> closed files X) ->
  ∃ c ptrs', SetupOtherInputs ucmp max_file_size v (set_inputs (Some v) X [] [] VersionEdit_new (Compaction_new max_file_size level)) ptrs = Some (c, ptrs') ∧
    complete v c ∧ X ⊆ inputs_0 c ∧ c_level_ c = level.
Proof using ComparatorLaws0 Hbytes.
  intros Hv Hl Hfiles HX Hne Hcl. destruct (level_files_some v (level + 1) Hv ltac:(lia)) as (next & Hnext & _).
  by apply (SetupOtherInputs_complete v Hv level Hl files next Hfiles Hnext).
Qed.

(** ** [Get] *)

Section Get.

Context {T D : Type} `{!TableCache T D} (contents : File -> list (Slice * Slice)) (Tinv : T -> Prop).
Implicit Types (kv : Slice * Slice).

(** The keys of a file, which lie between its smallest and its largest. *)
Record holds (f : File) : Prop := {
  hd_sorted : keys_sorted icmp (contents f);
  hd_keys : Forall (fun kv => iok kv.1 ∧ is_Some (ParseInternalKey kv.1)) (contents f);
  hd_first : fst <$> contents f !! 0%nat = Some (f_smallest f);
  hd_last : fst <$> contents f !! (length (contents f) - 1)%nat = Some (f_largest f);
}.

(** What the table cache promises: the first entry at or after the key, or
    no entry when a filter excludes the user key. *)
Definition reads (f : File) : Prop := ∀ ro ikey t, Tinv t -> iok ikey ->
  ∃ e t', tc_Get ro (f_number f) (f_size f) ikey t = Some (Status_OK, e, t') ∧ Tinv t' ∧
    (e = contents f !! seek_index icmp ikey (contents f) ∨ (e = None ∧ ∀ kv, kv ∈ contents f -> ucompare (ukey kv.1) (ukey ikey) ≠ 0)).

Context (u : Slice) (s : Z) (Hu : okp u) (Hs : 0 <= s <= kMaxSequenceNumber).
Local Abbreviation seek := (ikey u (PackSequenceAndType s kValueTypeForSeek)).

(** An entry of the user key that the snapshot sees. *)
Definition visible (kv : Slice * Slice) (k : ParsedInternalKey) : Prop :=
  ParseInternalKey kv.1 = Some k ∧ ucompare (ukey kv.1) u = 0 ∧ sequence k <= s.

Lemma seek_key_ok : iok seek.
Proof using Hbytes Hu. apply ikey_ok_ikey; auto. Qed.

Lemma visible_above kv k : iok kv.1 -> ParseInternalKey kv.1 = Some k -> ucompare (ukey kv.1) u = 0 -> sequence k <= s <-> 0 <= icompare kv.1 seek.
Proof using Hs.
  intros (Hb & _) Hk He. destruct (InternalCompare_cases ucmp kv.1 seek) as [[Hne _]|[_ Esg]]; [by rewrite ExtractUserKey_ikey in Hne|].
  rewrite key_tag_ikey in Esg by by apply PackSequenceAndType_u64. rewrite (parsed_tag _ _ Hb Hk) in Esg.
  pose proof (PackSequenceAndType_value s kValueTypeForSeek Hs) as Ep. change (type_value kValueTypeForSeek) with 1 in Ep.
  destruct (type k); cbn [type_value] in Esg; lia.
Qed.

Lemma holds_entry f i kv : holds f -> contents f !! i = Some kv -> iok kv.1 ∧ (∃ k, ParseInternalKey kv.1 = Some k) ∧
  icompare (f_smallest f) kv.1 <= 0 ∧ icompare kv.1 (f_largest f) <= 0.
Proof using ComparatorLaws0 Hbytes.
  intros [H1 H2 H3 H4] Hi. destruct (Forall_lookup_1 _ _ _ _ H2 Hi) as [Hok Hp]. split_and!; [done|done|..].
  - apply fmap_Some in H3 as (a & Ha & ->). destruct (decide (i = O)) as [->|]; [simplify_eq; by rewrite (cmp_refl icompare iok)|].
    apply Z.lt_le_incl. exact (H1 O i a kv ltac:(lia) Ha Hi).
  - apply fmap_Some in H4 as (a & Ha & ->). destruct (decide (i = length (contents f) - 1)%nat) as [->|]; [simplify_eq; by rewrite (cmp_refl icompare iok)|].
    pose proof (lookup_lt_Some _ _ _ Hi). apply Z.lt_le_incl. exact (H1 i (length (contents f) - 1)%nat kv a ltac:(lia) Hi Ha).
Qed.

Lemma holds_ok f : holds f -> file_ok f.
Proof using ComparatorLaws0 Hbytes.
  intros H. pose proof H as [_ H2 H3 H4]. apply fmap_Some in H3 as (a & Ha & Ea). apply fmap_Some in H4 as (b & Hb & Eb).
  destruct (holds_entry f _ a H Ha) as (A1 & _ & _ & A4). destruct (holds_entry f _ b H Hb) as (B1 & B2 & _).
  rewrite Eb in A4. split; rewrite ?Ea, ?Eb; [done|done|done|]. by destruct B2 as [k ->].
Qed.

(** What the first entry at or after the key says about a file. *)
Lemma seek_entry f : holds f ->
  match contents f !! seek_index icmp seek (contents f) with
  | Some kv => ∃ k, ParseInternalKey kv.1 = Some k ∧ 0 <= icompare kv.1 seek ∧
      (∀ kv' k', kv' ∈ contents f -> visible kv' k' -> icompare kv.1 kv'.1 <= 0)
  | None => ∀ kv' k', kv' ∈ contents f -> ¬ visible kv' k'
  end.
Proof using ComparatorLaws0 Hbytes Hs.
  intros Hf. destruct (seek_index_spec icmp seek (contents f)) as (S1 & S2 & S3). set (i := seek_index icmp seek (contents f)) in *.
  assert (∀ j kv' k', contents f !! j = Some kv' -> visible kv' k' -> (i <= j)%nat) as Hafter.
  { intros j kv' k' Hj (V1 & V2 & V3). destruct (holds_entry f j kv' Hf Hj) as (K1 & _). apply (visible_above kv' k' K1 V1 V2) in V3.
    destruct (decide (j < i)%nat) as [Hji|]; [|lia]. assert (icompare kv'.1 seek < 0) by exact (S2 j kv' Hji Hj). lia. }
  destruct (contents f !! i) as [kv|] eqn:Hi.
  - destruct (holds_entry f i kv Hf Hi) as (K1 & [k Hk] & _). exists k. split_and!; [done|by apply S3|].
    intros kv' k' [j Hj]%list_elem_of_lookup Hv. specialize (Hafter j kv' k' Hj Hv).
    destruct (decide (i = j)) as [->|]; [simplify_eq; by rewrite (cmp_refl icompare iok)|].
    apply Z.lt_le_incl. exact (hd_sorted _ Hf i j kv kv' ltac:(lia) Hi Hj).
  - intros kv' k' [j Hj]%list_elem_of_lookup Hv. specialize (Hafter j kv' k' Hj Hv). apply lookup_ge_None in Hi. apply lookup_lt_Some in Hj. lia.
Qed.

(** Entries of a user key are ordered newest first. *)
Lemma newer_first kv kv' k k' : iok kv.1 -> iok kv'.1 -> ParseInternalKey kv.1 = Some k -> ParseInternalKey kv'.1 = Some k' ->
  ucompare (ukey kv.1) (ukey kv'.1) = 0 -> icompare kv.1 kv'.1 <= 0 -> sequence k' <= sequence k.
Proof.
  intros (B1 & _) (B2 & _) Hk Hk' He. rewrite InternalCompare_le. intros [?|[_ Ht]]; [lia|].
  rewrite (parsed_tag _ _ B1 Hk), (parsed_tag _ _ B2 Hk') in Ht. destruct (type k), (type k'); simpl in Ht; lia.
Qed.

(** The answer of a file: its newest visible entry. *)
Definition file_answer (f : File) (a : option (Slice * Slice * ParsedInternalKey)) : Prop :=
  match a with
  | Some (kv, k) => kv ∈ contents f ∧ visible kv k ∧ ∀ kv' k', kv' ∈ contents f -> visible kv' k' -> sequence k' <= sequence k
  | None => ∀ kv k, kv ∈ contents f -> ¬ visible kv k
  end.

(** The end of a search as the caller sees it. *)
Definition reply (a : Slice * Slice * ParsedInternalKey) : Status * option Slice :=
  match type a.2 with kTypeValue => (Status_OK, Some a.1.2) | kTypeDeletion => (Status_NotFound [] [], None) end.

Lemma okp_user kv : iok kv.1 -> okp (ukey kv.1).
Proof. apply user_okp. Qed.

Lemma seek_user kv : iok kv.1 -> 0 <= icompare kv.1 seek -> 0 <= ucompare (ukey kv.1) u.
Proof using ComparatorLaws0 Hbytes Hu.
  intros Hk Hge. apply (cmp_flip_le ucompare okp); [done|by apply user_okp|]. rewrite <- (ExtractUserKey_ikey u (PackSequenceAndType s kValueTypeForSeek)).
  apply user_le, (cmp_flip_le icompare iok); [apply seek_key_ok|done|done].
Qed.

(** Reading one file. *)
Lemma read_file f ro t : holds f -> reads f -> Tinv t ->
  ∃ e t' a, tc_Get ro (f_number f) (f_size f) seek t = Some (Status_OK, e, t') ∧ Tinv t' ∧ file_answer f a ∧
    (match e with Some (ik, v) => SaveValue ucmp u ik v | None => (kNotFound, None) end) =
      match a with
      | Some (kv, k) => match type k with kTypeValue => (kFound, Some kv.2) | kTypeDeletion => (kDeleted, None) end
      | None => (kNotFound, None)
      end.
Proof using ComparatorLaws0 Hbytes Hs Hu.
  intros Hf Hr Ht. destruct (Hr ro seek t Ht seek_key_ok) as (e & t' & E & Ht' & He). exists e, t'. destruct He as [He|[-> Hno]]; cycle 1.
  { exists None. split_and!; [done|done| |done]. intros kv k Hkv (_ & Hv & _). rewrite ExtractUserKey_ikey in Hno. by apply (Hno kv Hkv). }
  pose proof (seek_entry f Hf) as Hse. rewrite <- He in Hse. symmetry in He. destruct e as [[ik v]|]; [|by exists None].
  destruct Hse as (k & Hk & Hge & Hmin). destruct (holds_entry f _ _ Hf He) as (K1 & _). simpl in *. unfold SaveValue. rewrite Hk.
  pose proof (ParseInternalKey_user _ _ Hk) as ->. destruct (Z.eqb_spec (ucompare (ukey ik) u) 0) as [Eu|Nu].
  - exists (Some (ik, v, k)). split_and!; [done|done| |by destruct (type k)]. split_and!.
    + by eapply list_elem_of_lookup_2.
    + split_and!; [done|done|]. by apply (visible_above (ik, v) k).
    + intros kv' k' Hkv' Hv'. pose proof Hv' as (V1 & V2 & _). pose proof Hkv' as [j Hj]%list_elem_of_lookup. destruct (holds_entry f _ _ Hf Hj) as (K2 & _).
      apply (newer_first (ik, v) kv' k k'); [done..| |by apply (Hmin kv' k')]. simpl.
      pose proof (cmp_eq_r ucompare okp (ukey kv'.1) u (ukey ik) (user_okp _ K2) Hu (user_okp _ K1) V2) as Es. rewrite Eu in Es. by apply Z.sgn_null_iff.
  - exists None. split_and!; [done|done| |done]. intros kv' k' Hkv' Hv'. specialize (Hmin kv' k' Hkv' Hv'). destruct Hv' as (V1 & V2 & V3).
    pose proof Hkv' as [j Hj]%list_elem_of_lookup. destruct (holds_entry f _ _ Hf Hj) as (K2 & _).
    pose proof (seek_user (ik, v) K1 Hge) as Hge'. simpl in *. apply Nu. apply user_le in Hmin.
    pose proof (cmp_eq_r ucompare okp (ukey kv'.1) u (ukey ik) (user_okp _ K2) Hu (user_okp _ K1) V2) as Es. lia.
Qed.

Definition files_answer (fs : list File) (a : option (Slice * Slice * ParsedInternalKey)) : Prop :=
  match a with
  | Some (kv, k) => (∃ f, f ∈ fs ∧ kv ∈ contents f) ∧ visible kv k ∧
      ∀ g kv' k', g ∈ fs -> kv' ∈ contents g -> visible kv' k' -> sequence k' <= sequence k
  | None => ∀ g kv k, g ∈ fs -> kv ∈ contents g -> ¬ visible kv k
  end.

(** Visible entries of [f] are at least as new as those of [g]. *)
Definition precedes (f g : File) : Prop := ∀ kv kv' k k', kv ∈ contents f -> kv' ∈ contents g -> visible kv k -> visible kv' k' -> sequence k' <= sequence k.

Lemma answer_app fs gs a b : files_answer fs a -> files_answer gs b -> (∀ f g, f ∈ fs -> g ∈ gs -> precedes f g) ->
  files_answer (fs ++ gs) (match a with Some x => Some x | None => b end).
Proof.
  intros Ha Hb Hp. destruct a as [[kv k]|].
  - destruct Ha as ((f & Hf & Hkv) & Hv & Hmax). split_and!; [exists f; set_solver|done|].
    intros g kv' k' [Hg|Hg]%elem_of_app Hkv' Hv'; [by apply (Hmax g kv')|by apply (Hp f g Hf Hg kv kv')].
  - destruct b as [[kv k]|].
    + destruct Hb as ((f & Hf & Hkv) & Hv & Hmax). split_and!; [exists f; set_solver|done|].
      intros g kv' k' [Hg|Hg]%elem_of_app Hkv' Hv'; [by destruct (Ha g kv' k')|by apply (Hmax g kv')].
    + intros g kv k [Hg|Hg]%elem_of_app; [by apply (Ha g)|by apply (Hb g)].
Qed.

Lemma file_files f a : file_answer f a -> files_answer [f] a.
Proof.
  destruct a as [[kv k]|]; simpl.
  - intros (H1 & H2 & H3). split_and!; [exists f; set_solver|done|]. intros g kv' k' ->%list_elem_of_singleton. by apply H3.
  - intros H g kv k ->%list_elem_of_singleton. by apply H.
Qed.

(** Searching files in order. *)
Lemma search_files_spec ro level fs : ∀ st, Forall holds fs -> Forall reads fs ->
  (∀ i j f g, (i < j)%nat -> fs !! i = Some f -> fs !! j = Some g -> precedes f g) -> Tinv (gs_tables st) ->
  ∃ a st', search_files ucmp ro (LookupKey_new u s) level fs st = Some (reply <$> a, st') ∧ Tinv (gs_tables st') ∧ files_answer fs a.
Proof using ComparatorLaws0 Hbytes Hs Hu.
  induction fs as [|f fs IH]; intros st Hh Hr Hp Ht; [exists None, st; split_and!; [done|done|by intros g kv k ?%elem_of_nil]|].
  apply Forall_cons_1 in Hh as [Hhf Hh]. apply Forall_cons_1 in Hr as [Hrf Hr]. cbn [search_files].
  rewrite internal_key_lookup, lookup_user_key_new. destruct (read_file f ro (gs_tables st) Hhf Hrf Ht) as (e & t' & a & -> & Ht' & Ha & Esv).
  cbn [mbind option_bind]. cbn [ok Status_OK negb]. rewrite Esv. destruct a as [[kv k]|].
  - exists (Some (kv, k)). eexists. assert (files_answer (f :: fs) (Some (kv, k))) as Hans.
    { destruct Ha as (A1 & A2 & A3). split_and!; [exists f; set_solver|done|].
      intros g kv' k' [->|Hg]%elem_of_cons Hkv' Hv'; [by apply (A3 kv')|]. apply list_elem_of_lookup in Hg as [j Hj].
      by apply (Hp 0%nat (S j) f g ltac:(lia) eq_refl Hj kv kv'). }
    unfold reply. cbn [fmap option_fmap option_map fst snd]. destruct (type k); split_and!; done.
  - destruct (IH (MkGetState (match last_file_read st, seek_file (gs_stats st) with Some g, None => MkGetStats (Some g) (last_file_read_level st) | _, _ => gs_stats st end)
      (Some f) level t') Hh Hr) as (a & st' & E & Ht'' & Hans); [|done|].
    { intros i j g h Hij Hg Hh'. apply (Hp (S i) (S j)); [lia|done|done]. }
    exists a, st'. split_and!; [exact E|done|]. apply (answer_app [f] fs None a); [by apply file_files|done|].
    intros x y ->%list_elem_of_singleton Hy kv kv' k k' Hkv _ Hv. by destruct (Ha kv k Hkv).
Qed.

Lemma visible_user kv k f i : holds f -> contents f !! i = Some kv -> visible kv k -> 0 <= ucompare u (fstart f) ∧ ucompare u (flimit f) <= 0.
Proof using ComparatorLaws0 Hbytes Hu.
  intros Hf Hi (V1 & V2 & V3). destruct (holds_entry f i kv Hf Hi) as (K1 & _ & K3 & K4). destruct (holds_ok f Hf) as [F1 F2 _ _].
  apply user_le in K3, K4. pose proof (user_okp _ K1). pose proof (user_okp _ F1). pose proof (user_okp _ F2). split.
  - apply (cmp_flip_le ucompare okp); [done..|]. apply (cmp_le_trans _ (ukey kv.1)); [done..|lia].
  - apply (cmp_le_trans _ (ukey kv.1)); [done..| |done]. rewrite (cmp_eq_sym ucompare okp (ukey kv.1) u); done.
Qed.

(** The one file of a deeper level. *)
Lemma deeper_file_spec files : sorted_level files -> Forall holds files -> Z.of_nat (length files) < 2 ^ 31 ->
  ∃ fo, deeper_file ucmp seek u files = Some fo ∧
    match fo with
    | None => files_answer files None
    | Some f => f ∈ files ∧ ∀ a, file_answer f a -> files_answer files a
    end.
Proof using ComparatorLaws0 Hbytes Hs Hu.
  intros Hsl Hh Hlen. destruct (FindFile_spec files seek Hsl seek_key_ok Hlen) as (i & E & [S1 S2 S3]). unfold deeper_file. rewrite E. cbn [mbind option_bind].
  rewrite u32_small by lia. pose proof seek_key_ok as Hsk.
  assert (∀ j g kv k, files !! j = Some g -> kv ∈ contents g -> visible kv k -> (i <= j)%nat ∧ iok kv.1 ∧
    icompare (f_smallest g) kv.1 <= 0 ∧ 0 <= icompare kv.1 seek) as Hvis.
  { intros j g kv k Hg [n Hn]%list_elem_of_lookup Hv. pose proof (Forall_lookup_1 _ _ _ _ Hh Hg) as Hhg.
    destruct (holds_entry g n kv Hhg Hn) as (K1 & _ & K3 & K4). pose proof Hv as (V1 & V2 & V3). apply (visible_above kv k K1 V1 V2) in V3.
    split_and!; try done. destruct (decide (j < i)%nat) as [Hji|]; [|lia]. specialize (S2 j g Hji Hg). destruct (holds_ok g Hhg) as [_ G2 _ _].
    pose proof (cmp_le_lt icompare iok _ _ _ K1 G2 Hsk K4 S2). lia. }
  destruct (Z.leb_spec (Z.of_nat (length files)) (Z.of_nat i)) as [Hge|Hlt].
  { exists None. split; [done|]. intros g kv k [j Hj]%list_elem_of_lookup Hkv Hv. destruct (Hvis j g kv k Hj Hkv Hv). apply lookup_lt_Some in Hj. lia. }
  unfold file_at. rewrite Nat2Z.id. destruct (lookup_lt_is_Some_2 files i ltac:(lia)) as [f Hf]. rewrite Hf. cbn [mbind option_bind].
  pose proof (Forall_lookup_1 _ _ _ _ Hh Hf) as Hhf. destruct (holds_ok f Hhf) as [F1 F2 F3 _].
  assert (∀ j g kv k, (i < j)%nat -> files !! j = Some g -> kv ∈ contents g -> visible kv k -> icompare (f_largest f) kv.1 < 0) as Hlater.
  { intros j g kv k Hij Hg Hkv Hv. destruct (Hvis j g kv k Hg Hkv Hv) as (_ & K1 & K3 & _). pose proof (sorted_lookup_ok _ _ _ Hsl Hg) as [G1 _ _ _].
    apply (cmp_lt_le icompare iok _ (f_smallest g)); [done..|by apply (sl_order _ Hsl i j)|done]. }
  destruct (Z.ltb_spec (ucompare u (fstart f)) 0) as [Hb|Hb].
  - exists None. split; [done|]. intros g kv k [j Hj]%list_elem_of_lookup Hkv Hv. destruct (Hvis j g kv k Hj Hkv Hv) as (Hij & K1 & K3 & _).
    assert (icompare (f_smallest f) kv.1 <= 0) as Hle.
    { destruct (decide (i = j)) as [->|]; [by simplify_eq|]. pose proof (Hlater j g kv k ltac:(lia) Hj Hkv Hv). apply (cmp_le_trans _ (f_largest f)); [done..|lia]. }
    apply user_le in Hle. destruct Hv as (_ & V2 & _). pose proof (cmp_lt_le ucompare okp _ _ _ Hu (user_okp _ F1) (user_okp _ K1) Hb Hle) as Hc.
    apply (cmp_flip ucompare okp) in Hc; [lia|done|by apply user_okp].
  - exists (Some f). split; [done|]. split; [by eapply list_elem_of_lookup_2|]. intros [[kv k]|]; simpl.
    + intros (A1 & A2 & A3). split_and!; [exists f; split; [by eapply list_elem_of_lookup_2|done]|done|]. intros g kv' k' [j Hj]%list_elem_of_lookup Hkv' Hv'.
      destruct (Hvis j g kv' k' Hj Hkv' Hv') as (Hij & K1 & _ & _). destruct (decide (i = j)) as [->|]; [simplify_eq; by apply (A3 kv')|].
      pose proof A1 as [m Hm]%list_elem_of_lookup. destruct (holds_entry f m kv Hhf Hm) as (K0 & _ & _ & K4).
      pose proof (Hlater j g kv' k' ltac:(lia) Hj Hkv' Hv') as Hl. pose proof (cmp_le_lt icompare iok _ _ _ K0 F2 K1 K4 Hl).
      destruct A2 as (V1 & V2 & _), Hv' as (V1' & V2' & _). apply (newer_first kv kv' k k'); [done..| |lia].
      apply Z.sgn_null_iff. rewrite (cmp_eq_l ucompare okp (ukey kv.1) u (ukey kv'.1) (user_okp _ K0) Hu (user_okp _ K1) V2).
      by rewrite (cmp_eq_sym ucompare okp _ _ (user_okp _ K1) Hu V2').
    + intros Hno g kv k [j Hj]%list_elem_of_lookup Hkv Hv. destruct (Hvis j g kv k Hj Hkv Hv) as (Hij & K1 & _ & _).
      destruct (decide (i = j)) as [->|]; [simplify_eq; by apply (Hno kv k)|]. pose proof (Hlater j g kv k ltac:(lia) Hj Hkv Hv) as Hl.
      pose proof (hd_last _ Hhf) as (e & He & Ee)%fmap_Some. destruct (holds_entry f _ e Hhf He) as (E1 & [ke Hke] & _ & _). rewrite Ee in Hl.
      assert (ucompare (ukey e.1) u = 0) as Eu.
      { pose proof (seek_user e E1) as Hge. specialize (S3 i f ltac:(lia) Hf). rewrite Ee in S3. specialize (Hge S3). apply Z.lt_le_incl, user_le in Hl.
        destruct Hv as (_ & V2 & _). pose proof (cmp_eq_r ucompare okp (ukey kv.1) u (ukey e.1) (user_okp _ K1) Hu (user_okp _ E1) V2). lia. }
      apply (Hno e ke); [by eapply list_elem_of_lookup_2|]. split_and!; [done|done|]. apply (visible_above e ke); [done..|]. rewrite <- Ee. by apply (S3 i f).
Qed.

(** The files of level 0 that may hold the key, newest first. *)
Lemma strongly_sorted_lookup {A} (R : A -> A -> Prop) l : StronglySorted R l -> ∀ i j x y, (i < j)%nat -> l !! i = Some x -> l !! j = Some y -> R x y.
Proof.
  induction 1 as [|a l _ IH Ha]; intros i j x y Hij Hx Hy; [done|]. destruct i as [|i], j as [|j]; try lia; simpl in *.
  - simplify_eq. by eapply Forall_lookup_1.
  - by apply (IH i j); [lia|..].
Qed.

Lemma level0_files_spec files : Forall holds files -> NoDup ((fun f => f_number f) <$> files) ->
  (∀ f g, f ∈ files -> g ∈ files -> f_number g < f_number f -> precedes f g) ->
  let fs := level0_files ucmp u files in
  fs ⊆ files ∧ (∀ i j f g, (i < j)%nat -> fs !! i = Some f -> fs !! j = Some g -> precedes f g) ∧ ∀ a, files_answer fs a -> files_answer files a.
Proof using ComparatorLaws0 Hbytes Hs Hu.
  intros Hh Hnd Hord. cbv zeta. unfold level0_files. set (P := fun f : File => _). set (fs := merge_sort NewestFirst (base.filter P files)).
  pose proof (merge_sort_Permutation NewestFirst (base.filter P files)) as Hperm. fold fs in Hperm.
  assert (∀ f, f ∈ fs <-> f ∈ files ∧ P f) as Hin by (intros f; rewrite Hperm, list_elem_of_filter; tauto).
  assert (∀ g kv k, g ∈ files -> kv ∈ contents g -> visible kv k -> g ∈ fs) as Hall.
  { intros g kv k Hg [i Hi]%list_elem_of_lookup Hv. apply Hin. split; [done|]. apply (visible_user kv k g i); [|done..]. by apply (proj1 (list.Forall_forall _ _) Hh). }
  split_and!.
  - intros f Hf. by apply Hin.
  - assert (StronglySorted NewestFirst fs) as Hsort.
    { apply Sorted_StronglySorted; [intros a b c; unfold NewestFirst; lia|]. apply Sorted_merge_sort. intros a b. unfold NewestFirst. lia. }
    assert (NoDup ((fun f => f_number f) <$> fs)) as Hnd2.
    { rewrite Hperm. eapply sublist_NoDup; [exact Hnd|]. clear. induction files as [|f files IH]; [done|].
      rewrite filter_cons. case_decide; simpl; [by apply sublist_skip|by apply sublist_cons]. }
    intros i j f g Hij Hf Hg. apply Hord; [by apply Hin; eapply list_elem_of_lookup_2|by apply Hin; eapply list_elem_of_lookup_2|].
    pose proof (strongly_sorted_lookup _ _ Hsort i j f g Hij Hf Hg) as Hle. unfold NewestFirst in Hle.
    assert (f_number f ≠ f_number g); [|lia]. intros Heq. assert (i = j); [|lia]. eapply (NoDup_lookup _ i j (f_number f) Hnd2); rewrite list_lookup_fmap.
    + by rewrite Hf.
    + rewrite Hg. simpl. by rewrite Heq.
  - intros [[kv k]|]; simpl.
    + intros ((f & Hf & Hkv) & Hv & Hmax). split_and!; [exists f; split; [by apply Hin|done]|done|]. intros g kv' k' Hg Hkv' Hv'. by apply (Hmax g kv' k' (Hall g kv' k' Hg Hkv' Hv')).
    + intros Hno g kv k Hg Hkv Hv. by apply (Hno g kv k (Hall g kv k Hg Hkv Hv)).
Qed.

(** *** All levels *)

Context (v : Version) (Hv : version_ok v).
Context (Hholds : ∀ l files f, files_ v !! l = Some files -> f ∈ files -> holds f ∧ reads f).
Context (Hnumbers : ∀ files, files_ v !! 0%nat = Some files -> NoDup ((fun f => f_number f) <$> files)).
Context (Horder : ∀ l l' files files' f g, files_ v !! l = Some files -> files_ v !! l' = Some files' -> f ∈ files -> g ∈ files' ->
  (l < l')%nat ∨ (l = O ∧ l' = O ∧ f_number g < f_number f) -> precedes f g).

Lemma search_level_spec ro n files st : files_ v !! n = Some files -> Tinv (gs_tables st) ->
  ∃ fs a st', files_to_search ucmp (LookupKey_new u s) (Z.of_nat n) files = Some fs ∧
    search_files ucmp ro (LookupKey_new u s) (Z.of_nat n) fs st = Some (reply <$> a, st') ∧ Tinv (gs_tables st') ∧ files_answer files a.
Proof using ComparatorLaws0 Hbytes Hholds Hnumbers Horder Hs Hu Hv.
  intros Hf Ht. unfold files_to_search. rewrite internal_key_lookup, lookup_user_key_new.
  assert (∀ fs, fs ⊆ files -> Forall holds fs ∧ Forall reads fs) as Hall.
  { intros fs Hsub. split; apply list.Forall_forall; intros f Hfs; by apply (Hholds n files), Hsub. }
  destruct (Z.eqb_spec (Z.of_nat n) 0) as [E|Hne].
  - assert (n = O) as -> by lia. destruct (level0_files_spec files) as (Hsub & Hord & Hans).
    + by apply Hall.
    + by apply Hnumbers.
    + intros f g Hff Hgf Hlt. apply (Horder O O files files); auto.
    + destruct (Hall _ Hsub) as [Hh Hr]. destruct (search_files_spec ro (Z.of_nat 0) _ st Hh Hr Hord Ht) as (a & st' & Es & Ht' & Ha).
      exists (level0_files ucmp u files), a, st'. split_and!; auto.
  - destruct (deeper_file_spec files) as (fo & -> & Hfo); [apply (vo_sorted _ Hv n); [lia|done]|by apply Hall|by apply (vo_files _ Hv n)|].
    cbn [mbind option_bind]. destruct fo as [f|]; simpl.
    + destruct Hfo as [Hff Hans]. destruct (Hall [f] ltac:(set_solver)) as [Hh Hr].
      destruct (search_files_spec ro (Z.of_nat n) [f] st Hh Hr) as (a & st' & Es & Ht' & Ha); [|done|].
      { intros i j x y Hij Hx Hy. apply lookup_lt_Some in Hx, Hy. simpl in *. lia. }
      exists [f], a, st'. split_and!; try done. apply Hans. destruct a as [[kv k]|]; simpl in *.
      * destruct Ha as ((g & ->%list_elem_of_singleton & Hkv) & Hvis & Hmax). split_and!; [done|done|]. intros kv' k'. apply Hmax. set_solver.
      * intros kv k. apply Ha. set_solver.
    + exists [], None, st. done.
Qed.

Lemma search_levels_spec ro levels : ∀ n st, drop n (files_ v) = levels -> Tinv (gs_tables st) ->
  ∃ a st', search_levels ucmp ro (LookupKey_new u s) (Z.of_nat n) levels st =
      Some ((default (Status_NotFound [] [], None) (reply <$> a)).1, (default (Status_NotFound [] [], None) (reply <$> a)).2, st') ∧
    Tinv (gs_tables st') ∧ files_answer (concat levels) a.
Proof using ComparatorLaws0 Hbytes Hholds Hnumbers Horder Hs Hu Hv.
  induction levels as [|files levels IH]; intros n st Hd Ht; cbn [search_levels].
  { exists None, st. split_and!; [done|done|by intros g kv k ?%elem_of_nil]. }
  assert (files_ v !! n = Some files) as Hf by (rewrite <- (Nat.add_0_r n), <- lookup_drop, Hd; done).
  assert (drop (S n) (files_ v) = levels) as Hd' by (rewrite <- Nat.add_1_r, <- drop_drop, Hd; done).
  replace (Z.of_nat n + 1) with (Z.of_nat (S n)) by lia. simpl concat. case_bool_decide as Hnil.
  { subst files. by apply IH. }
  destruct (search_level_spec ro n files st Hf Ht) as (fs & a & st1 & -> & Es & Ht1 & Ha). cbn [mbind option_bind]. rewrite Es. cbn [mbind option_bind].
  assert (∀ f g, f ∈ files -> g ∈ concat levels -> precedes f g) as Hprec.
  { intros f g Hff Hg. apply list_elem_of_In, in_concat in Hg as (gs & Hgs & Hg). apply list_elem_of_In in Hg. apply list_elem_of_In, list_elem_of_lookup in Hgs as [j Hj].
    rewrite <- Hd', lookup_drop in Hj. apply (Horder n (S n + j) files gs); try done. left. lia. }
  destruct a as [x|]; cbn [fmap option_fmap option_map].
  - exists (Some x), st1. destruct (IH (S n) st1 Hd' Ht1) as (b & st2 & _ & _ & Hb). split_and!; [cbn [fmap option_fmap option_map]; by destruct (reply x)|done|].
    exact (answer_app files (concat levels) (Some x) b Ha Hb Hprec).
  - destruct (IH (S n) st1 Hd' Ht1) as (b & st2 & E2 & Ht2 & Hb). exists b, st2. split_and!; [done|done|].
    exact (answer_app files (concat levels) None b Ha Hb Hprec).
Qed.

Lemma Version_Get_spec ro t : Tinv t ->
  ∃ a stats t', Version_Get ucmp ro (LookupKey_new u s) v t =
      Some ((default (Status_NotFound [] [], None) (reply <$> a)).1, (default (Status_NotFound [] [], None) (reply <$> a)).2, stats, t') ∧
    Tinv t' ∧ files_answer (concat (files_ v)) a.
Proof using ComparatorLaws0 Hbytes Hholds Hnumbers Horder Hs Hu Hv.
  intros Ht. unfold Version_Get. destruct (search_levels_spec ro (files_ v) 0 (MkGetState (MkGetStats None (-1)) None (-1) t) ltac:(done) Ht) as (a & st & E & Ht' & Ha).
  change (Z.of_nat 0) with 0 in E. rewrite E. cbn [mbind option_bind]. by exists a, (gs_stats st), (gs_tables st).
Qed.

End Get.

End Files.

(** ** Seeks are charged above the last level *)

Section Seeks.

Context (ucmp : Comparator).

Definition in_level (v : Version) (level : Z) (f : File) : Prop := 0 <= level < kNumLevels - 1 ∧ ∃ files, level_files v level = Some files ∧ f ∈ files.

(** A file that is to be compacted because of seeks can be compacted. *)
Definition seek_ok (v : Version) : Prop := ∀ f, file_to_compact_ v = Some f -> in_level v (file_to_compact_level_ v) f.

Definition stats_ok (v : Version) (stats : GetStats) : Prop := ∀ f, seek_file stats = Some f -> in_level v (seek_file_level stats) f.

Lemma UpdateStats_ok stats v seeks b v' seeks' : stats_ok v stats -> seek_ok v -> UpdateStats stats v seeks = Some (b, v', seeks') ->
  seek_ok v' ∧ files_ v' = files_ v.
Proof.
  intros Hst Hv. unfold UpdateStats. destruct (seek_file stats) as [f|] eqn:Ef; [|by intros [= <- <- <-]].
  destruct (seeks !! file_addr f) as [allowed|]; [|done]. cbn [mbind option_bind]. destruct (allowed =? - 2 ^ 31); [done|].
  destruct ((allowed - 1 <=? 0) && bool_decide (file_to_compact_ v = None)); intros [= <- <- <-]; [|done]. split; [|done].
  intros g [= <-]. exact (Hst f Ef).
Qed.

Section Get.

Context {T D : Type} `{!TableCache T D} (v : Version) (Hlen : length (files_ v) = Z.to_nat kNumLevels).

(** The last file read lies in the levels before [level]. *)
Record state_ok (level : Z) (st : GetState (T := T)) : Prop := {
  so_stats : stats_ok v (gs_stats st);
  so_last f : last_file_read st = Some f -> last_file_read_level st < level ∧ ∃ files, 0 <= last_file_read_level st ∧ level_files v (last_file_read_level st) = Some files ∧ f ∈ files;
}.

Lemma search_files_stats ro k level files fs : level_files v level = Some files -> 0 <= level < kNumLevels -> fs ⊆ files -> level = 0 ∨ (length fs <= 1)%nat ->
  ∀ st ans st', state_ok (if decide (level = 0) then 1 else level) st -> search_files ucmp ro k level fs st = Some (ans, st') -> state_ok (level + 1) st'.
Proof.
  intros Hf Hl. induction fs as [|f fs IH]; intros Hsub Hone st ans st' Hst E; cbn [search_files] in E.
  { injection E as <- <-. destruct Hst as [S1 S2]. split; [done|]. intros g Hg. destruct (S2 g Hg) as [H1 H2]. split; [|done]. case_decide; lia. }
  set (stats := match last_file_read st, seek_file (gs_stats st) with Some g, None => _ | _, _ => _ end) in E.
  assert (stats_ok v stats) as Hstats.
  { destruct Hst as [S1 S2]. unfold stats. destruct (last_file_read st) as [g|] eqn:Eg; [|done]. destruct (seek_file (gs_stats st)) eqn:Es; [done|].
    intros g' [= <-]. destruct (S2 g eq_refl) as (H1 & files' & H0 & H2 & H3). split; [simpl; unfold kNumLevels in *; case_decide; lia|by exists files']. }
  destruct (tc_Get ro (f_number f) (f_size f) (internal_key k) (gs_tables st)) as [[[s e] t]|]; [|done]. cbn [mbind option_bind] in E.
  assert (state_ok (level + 1) (MkGetState stats (Some f) level t)) as Hst1.
  { split; [done|]. intros g [= <-]. simpl. split; [lia|]. exists files. split_and!; [lia|done|set_solver]. }
  destruct (negb (ok s)); [by injection E as <- <-|].
  destruct (match e with Some (ikey, v0) => SaveValue ucmp (lookup_user_key k) ikey v0 | None => (kNotFound, None) end) as [[| | |] value];
    try (by injection E as <- <-). destruct Hone as [->|Hone].
  - apply (IH ltac:(set_solver) ltac:(by left) _ ans st') in E; [done|]. by rewrite decide_True.
  - destruct fs as [|g fs]; [|simpl in Hone; lia]. cbn [search_files] in E. by injection E as <- <-.
Qed.

Lemma search_levels_stats ro k levels : ∀ n st s value st', drop n (files_ v) = levels -> (n <= Z.to_nat kNumLevels)%nat -> state_ok (Z.of_nat n) st ->
  search_levels ucmp ro k (Z.of_nat n) levels st = Some (s, value, st') -> stats_ok v (gs_stats st').
Proof using Hlen.
  induction levels as [|files levels IH]; intros n st s value st' Hd Hn Hst E; cbn [search_levels] in E; [injection E as <- <- <-; by destruct Hst|].
  assert (files_ v !! n = Some files) as Hf by (rewrite <- (Nat.add_0_r n), <- lookup_drop, Hd; done).
  assert (drop (S n) (files_ v) = levels) as Hd' by (rewrite <- Nat.add_1_r, <- drop_drop, Hd; done).
  pose proof (lookup_lt_Some _ _ _ Hf) as Hlt. rewrite Hlen in Hlt. replace (Z.of_nat n + 1) with (Z.of_nat (S n)) in E by lia.
  assert (level_files v (Z.of_nat n) = Some files) as Hlf by (unfold level_files; rewrite (proj2 (Z.ltb_ge _ 0)) by lia; by rewrite Nat2Z.id).
  assert (∀ m st, state_ok (Z.of_nat m) st -> state_ok (Z.of_nat (S m)) st) as Hmono.
  { intros m st0 [S1 S2]. split; [done|]. intros f Hf0. destruct (S2 f Hf0) as [? ?]. split; [lia|done]. }
  destruct (bool_decide (files = [])); [apply (IH (S n) st s value st' Hd' ltac:(lia)); [by apply Hmono|done]|].
  destruct (files_to_search ucmp k (Z.of_nat n) files) as [fs|] eqn:Efs; [|done]. cbn [mbind option_bind] in E.
  destruct (search_files ucmp ro k (Z.of_nat n) fs st) as [[ans st1]|] eqn:Es; [|done]. cbn [mbind option_bind] in E.
  assert (state_ok (Z.of_nat (S n)) st1) as Hst1.
  { replace (Z.of_nat (S n)) with (Z.of_nat n + 1) by lia. apply (search_files_stats ro k (Z.of_nat n) files fs Hlf) with (st := st) (ans := ans); [unfold kNumLevels in *; lia|..|done].
    - unfold files_to_search in Efs. destruct (Z.of_nat n =? 0).
      + injection Efs as <-. intros f. unfold level0_files. rewrite (merge_sort_Permutation NewestFirst). by intros [_ ?]%list_elem_of_filter.
      + unfold deeper_file in Efs. destruct (FindFile ucmp files (internal_key k)) as [i|]; [|done]. cbn [mbind option_bind] in Efs.
        destruct (Z.of_nat (length files) <=? u32 i); [injection Efs as <-; set_solver|]. unfold file_at in Efs.
        destruct (files !! Z.to_nat (u32 i)) as [f|] eqn:Ef; [|done]. cbn [mbind option_bind] in Efs. apply list_elem_of_lookup_2 in Ef.
        destruct (_ <? 0); injection Efs as <-; set_solver.
    - unfold files_to_search in Efs. destruct (Z.eqb_spec (Z.of_nat n) 0); [by left|right].
      destruct (deeper_file ucmp (internal_key k) (lookup_user_key k) files) as [[f|]|]; [| |done]; injection Efs as <-; simpl; lia.
    - case_decide as H0; [|done]. assert (n = O) as -> by lia. by apply (Hmono O). }
  destruct ans as [[s0 v0]|]; [injection E as <- <- <-; by destruct Hst1|]. by apply (IH (S n) st1 s value st' Hd' ltac:(lia)).
Qed.

Lemma Version_Get_stats ro k t s value stats t' : Version_Get ucmp ro k v t = Some (s, value, stats, t') -> stats_ok v stats.
Proof using Hlen.
  unfold Version_Get. destruct (search_levels _ _ _ _ _ _) as [[[s0 v0] st]|] eqn:E; [|done]. intros [= <- <- <- <-].
  apply (search_levels_stats ro k (files_ v) 0) in E; [done|done|lia|]. by split.
Qed.

End Get.

Section Sample.

Context (v : Version) (Hlen : length (files_ v) = Z.to_nat kNumLevels).

(** The first match lies below [level]; with a second one it can be charged. *)
Record match_ok (level : Z) (st : GetStats * Z) : Prop := {
  mt_count : 0 <= st.2;
  mt_first f : seek_file st.1 = Some f -> 0 <= seek_file_level st.1 < level ∧ ∃ files, level_files v (seek_file_level st.1) = Some files ∧ f ∈ files;
  mt_second : 2 <= st.2 -> stats_ok v st.1;
}.

Lemma match_mono level level' st : level <= level' -> match_ok level st -> match_ok level' st.
Proof. intros Hl [M1 M2 M3]. split; [done| |done]. intros f Hf. destruct (M2 f Hf). split; [lia|done]. Qed.

Lemma Match_ok level files f st : level_files v level = Some files -> f ∈ files -> 0 <= level < kNumLevels ->
  match_ok (if decide (level = 0) then 1 else level) st -> match_ok (level + 1) (Match level f st).2.
Proof.
  intros Hf Hin Hl [M1 M2 M3]. unfold Match. cbn [snd fst]. destruct (Z.eqb_spec (st.2 + 1) 1) as [E|Hne]; split; cbn [fst snd].
  - lia.
  - intros g [= <-]. split; [simpl; lia|by exists files].
  - lia.
  - lia.
  - intros g Hg. destruct (M2 g Hg) as [H1 H2]. split; [case_decide; lia|done].
  - intros _ g Hg. destruct (M2 g Hg) as [H1 H2]. split; [unfold kNumLevels in *; case_decide; lia|done].
Qed.

Lemma each_file_match files fs : level_files v 0 = Some files -> fs ⊆ files -> ∀ st, match_ok 1 st -> match_ok 1 (each_file Match 0 fs st).2.
Proof.
  intros Hf. induction fs as [|f fs IH]; intros Hsub st Hst; [done|]. cbn [each_file].
  pose proof (Match_ok 0 files f st Hf ltac:(set_solver) ltac:(done) Hst) as Hm. destruct (Match 0 f st) as [[] st1]; [|done]. by apply IH; [set_solver|].
Qed.

Lemma deeper_file_in ikey u files f : deeper_file ucmp ikey u files = Some (Some f) -> f ∈ files.
Proof.
  unfold deeper_file. destruct (FindFile ucmp files ikey) as [i|]; [|done]. cbn [mbind option_bind].
  destruct (Z.of_nat (length files) <=? u32 i); [done|]. unfold file_at. destruct (files !! Z.to_nat (u32 i)) as [g|] eqn:Eg; [|done].
  cbn [mbind option_bind]. destruct (_ <? 0); [done|]. intros [= <-]. by eapply list_elem_of_lookup_2.
Qed.

Lemma each_level_match u ikey levels : ∀ n st st', (0 < n)%nat -> drop n (files_ v) = levels -> match_ok (Z.of_nat n) st ->
  each_level ucmp Match u ikey (Z.of_nat n) levels st = Some st' -> ∃ l, match_ok l st'.
Proof using Hlen.
  induction levels as [|files levels IH]; intros n st st' Hn Hd Hst E; cbn [each_level] in E; [injection E as <-; by eexists|].
  assert (files_ v !! n = Some files) as Hf by (rewrite <- (Nat.add_0_r n), <- lookup_drop, Hd; done).
  assert (drop (S n) (files_ v) = levels) as Hd' by (rewrite <- Nat.add_1_r, <- drop_drop, Hd; done).
  pose proof (lookup_lt_Some _ _ _ Hf) as Hlt. rewrite Hlen in Hlt. replace (Z.of_nat n + 1) with (Z.of_nat (S n)) in E by lia.
  assert (level_files v (Z.of_nat n) = Some files) as Hlf by (unfold level_files; rewrite (proj2 (Z.ltb_ge _ 0)) by lia; by rewrite Nat2Z.id).
  assert (match_ok (Z.of_nat (S n)) st) as Hst1 by (eapply match_mono; [|exact Hst]; lia).
  destruct (bool_decide (files = [])); [by apply (IH (S n) st st'); [lia|..]|].
  destruct (deeper_file ucmp ikey u files) as [[f|]|] eqn:Ed; [| |done]; cbn [mbind option_bind] in E; [|by apply (IH (S n) st st'); [lia|..]].
  pose proof (Match_ok (Z.of_nat n) files f st Hlf (deeper_file_in _ _ _ _ Ed)) as Hm. rewrite decide_False in Hm by lia.
  specialize (Hm ltac:(unfold kNumLevels in *; lia) Hst). replace (Z.of_nat n + 1) with (Z.of_nat (S n)) in Hm by lia.
  destruct (Match (Z.of_nat n) f st) as [[] st1]; [by apply (IH (S n) st1 st'); [lia|..]|]. injection E as <-. by eexists.
Qed.

Lemma RecordReadSample_ok ikey seeks b v' seeks' : seek_ok v -> Version_RecordReadSample ucmp ikey v seeks = Some (b, v', seeks') ->
  seek_ok v' ∧ files_ v' = files_ v.
Proof using Hlen.
  intros Hv. unfold Version_RecordReadSample. destruct (ParseInternalKey ikey) as [k|]; [|by intros [= <- <- <-]].
  destruct (ForEachOverlapping _ _ _ _ _ _) as [[stats m]|] eqn:E; [|done]. cbn [mbind option_bind].
  destruct (Z.leb_spec 2 m); [|by intros [= <- <- <-]]. apply UpdateStats_ok; [|done]. unfold ForEachOverlapping in E.
  destruct (level_files v 0) as [files|] eqn:Hf; [|done]. cbn [mbind option_bind] in E.
  assert (match_ok 1 (MkGetStats None 0, 0)) as H0 by (by split).
  pose proof (each_file_match files (level0_files ucmp (user_key k) files) Hf) as Hm. specialize (Hm ltac:(intros f; unfold level0_files; rewrite (merge_sort_Permutation NewestFirst);
    by intros [_ ?]%list_elem_of_filter) _ H0). destruct (each_file Match 0 _ _) as [[] st1].
  - apply (each_level_match (user_key k) ikey _ 1) in E as [l [_ _ M3]]; [by apply M3|lia|done|done].
  - injection E as ->. by apply Hm.
Qed.

End Sample.

End Seeks.

(** ** Theorems *)

(** C23. Version::Get finds the newest entry of the user key that the snapshot
    sees, wherever it is stored.  Let every file hold sorted internal keys
    from its smallest to its largest, the files of a level above 0 be sorted
    and disjoint, and newer entries lie in upper levels, on level 0 in files
    with larger numbers; let the table cache return for a file the first
    entry at or after the key, or nothing when a filter excludes the key.
    Then [Get] returns the value of the newest visible entry, NotFound if it
    is a deletion, and NotFound if there is none. *)
Theorem version_get_newest {T D : Type} `{!TableCache T D} (ucmp : Comparator) (okp : Slice -> Prop) `{!ComparatorLaws ucmp okp}
    (contents : File -> list (Slice * Slice)) (Tinv : T -> Prop) (v : Version) (ro : ReadOptions) (t : T) (u : Slice) (s : Z) :
  (∀ k, okp k -> Forall is_u8 k) -> version_ok ucmp okp v ->
  (∀ l files f, files_ v !! l = Some files -> f ∈ files -> holds ucmp okp contents f ∧ reads ucmp okp contents Tinv f) ->
  (∀ files, files_ v !! 0%nat = Some files -> NoDup ((fun f => f_number f) <$> files)) ->
  (∀ l l' files files' f g, files_ v !! l = Some files -> files_ v !! l' = Some files' -> f ∈ files -> g ∈ files' ->
    (l < l')%nat ∨ (l = O ∧ l' = O ∧ f_number g < f_number f) -> precedes ucmp contents u s f g) ->
  Tinv t -> okp u -> 0 <= s <= kMaxSequenceNumber ->
  ∃ a stats t', Version_Get ucmp ro (LookupKey_new u s) v t =
      Some ((default (Status_NotFound [] [], None) (reply <$> a)).1, (default (Status_NotFound [] [], None) (reply <$> a)).2, stats, t') ∧
    Tinv t' ∧ files_answer ucmp contents u s (concat (files_ v)) a.
Proof. intros Hb Hv Hh Hn Ho Ht Hu Hs. by apply (Version_Get_spec ucmp okp Hb contents Tinv u s Hu Hs v Hv Hh Hn Ho ro t). Qed.

(** The binary search of SomeFileOverlapsRange over sorted disjoint files
    gives the same answer as looking at every file, for ranges with and
    without ends: some file has a user key range that meets the given one. *)
Lemma overlap_search_exact (ucmp : Comparator) (okp : Slice -> Prop) `{!ComparatorLaws ucmp okp} (files : list File) (small large : option Slice) :
  (∀ k, okp k -> Forall is_u8 k) -> sorted_level ucmp okp files -> end_ok okp small -> end_ok okp large -> Z.of_nat (length files) < 2 ^ 31 ->
  SomeFileOverlapsRange ucmp true files small large = SomeFileOverlapsRange ucmp false files small large.
Proof.
  intros Hb Hs Hsm Hlg Hl. pose proof (sl_ok _ _ _ Hs) as Hok.
  by rewrite !(SomeFileOverlapsRange_exact ucmp okp Hb).
Qed.

(** C33. GetOverlappingInputs ends and returns, in their order, exactly the
    files of the level that belong to the range: above level 0 those whose
    user keys meet it, on level 0 all files connected to it through chains of
    files that share user keys.  The search of level 0 starts again whenever
    a file widens the range; at most twice per file. *)
Theorem overlapping_inputs_exact (ucmp : Comparator) (okp : Slice -> Prop) `{!ComparatorLaws ucmp okp} (v : Version) (level : Z) (files : list File) (b e : option Slice) :
  (∀ k, okp k -> Forall is_u8 k) -> version_ok ucmp okp v -> 0 <= level < kNumLevels -> level_files v level = Some files ->
  end_ok okp (ExtractUserKey <$> b) -> end_ok okp (ExtractUserKey <$> e) ->
  ∃ inputs, GetOverlappingInputs ucmp level b e v = Some inputs ∧ inputs `sublist_of` files ∧
    ∀ f, f ∈ inputs <-> chosen ucmp level files (ExtractUserKey <$> b) (ExtractUserKey <$> e) f.
Proof. intros Hb Hv Hl Hf Hbk Hek. by apply (GetOverlappingInputs_spec ucmp okp Hb). Qed.

(** C25. The compactions that PickCompaction and CompactRange choose are
    complete. Neither of them fails on a version with well-formed files that
    [Finalize] has scored, and their searches end. On level 0 every file that
    shares a user key with an input is an input. On every level no file that is
    left behind continues the last user key of the inputs, that is, starts with
    the user key at which they end but after their largest internal key. And
    every file of the next level whose user keys meet the range of the inputs
    is an input. *)
Theorem compaction_inputs_complete (ucmp : Comparator) (okp : Slice -> Prop) `{!ComparatorLaws ucmp okp} (max_file_size : Z) (v0 : Version) (ptrs : list Slice) :
  (∀ k, okp k -> Forall is_u8 k) -> version_ok ucmp okp v0 -> seek_ok v0 -> length ptrs = Z.to_nat kNumLevels ->
  let v := Finalize v0 in
  (∃ r ptrs', PickCompaction ucmp max_file_size v ptrs = Some (r, ptrs') ∧
    match r with
    | Some c => complete ucmp v c
    | None => SFleb (double_of 1) (compaction_score_ v) = false ∧ file_to_compact_ v = None
    end) ∧
  (∀ level b e, 0 <= level < kNumLevels - 1 -> end_ok okp (ExtractUserKey <$> b) -> end_ok okp (ExtractUserKey <$> e) ->
    ∃ r ptrs', CompactRange ucmp max_file_size level b e v ptrs = Some (r, ptrs') ∧
    match r with
    | Some c => complete ucmp v c ∧ c_level_ c = level
    | None => ∀ files f, level_files v level = Some files -> ¬ chosen ucmp level files (ExtractUserKey <$> b) (ExtractUserKey <$> e) f
    end).
Proof.
  intros Hb Hv0 Hseek Hptrs v. destruct (Finalize_files v0) as (Ef & Efc & Efl). fold v in Ef, Efc, Efl.
  assert (version_ok ucmp okp v) as Hv by by apply (same_files_ok ucmp okp v0).
  assert (∀ l, level_files v l = level_files v0 l) as Elf by (intros l; unfold level_files; by rewrite Ef).
  assert (∀ level files f, 0 <= level < kNumLevels - 1 -> level_files v level = Some files -> f ∈ files ->
    ∃ X c ptrs', (if level =? 0 then
        range ← GetRange ucmp [f]; inputs ← GetOverlappingInputs ucmp 0 (Some range.1) (Some range.2) v; if bool_decide (inputs = []) then None else Some inputs
      else Some [f]) = Some X ∧
      SetupOtherInputs ucmp max_file_size v (set_inputs (Some v) X [] [] VersionEdit_new (Compaction_new max_file_size level)) ptrs = Some (c, ptrs') ∧
      complete ucmp v c) as Hfrom.
  { intros level files f Hl Hf Hin. destruct (start_inputs ucmp okp Hb v level files f Hv Hl Hf Hin) as (X & EX & HX & Hne & Hcl).
    destruct (setup_from ucmp okp Hb max_file_size v level files X ptrs Hv Hl Hf HX Hne Hcl) as (c & ptrs' & Es & Hc & _). by exists X, c, ptrs'. }
  split.
  - unfold PickCompaction. destruct (SFleb (double_of 1) (compaction_score_ v)) eqn:Es.
    + destruct (Finalize_level ucmp okp v0 Hv0 Es) as (Hl & files & Hf & Hne). fold v in Hl, Hf. rewrite <- Elf in Hf.
      rewrite (proj2 (Z.leb_le _ _)), (proj2 (Z.ltb_lt _ _)) by lia. cbn [andb negb]. rewrite Hf. cbn [mbind option_bind].
      destruct (lookup_lt_is_Some_2 ptrs (Z.to_nat (compaction_level_ v))) as [p Hp]; [rewrite Hptrs; unfold kNumLevels in *; lia|].
      rewrite Hp. cbn [mbind option_bind]. destruct (first_after_in ucmp p files Hne) as (f & -> & Hin). cbn [mbind option_bind].
      destruct (Hfrom _ files f Hl Hf Hin) as (X & c & ptrs' & -> & Es2 & Hc). cbn [mbind option_bind]. rewrite Es2. cbn [mbind option_bind].
      by exists (Some c), ptrs'.
    + destruct (file_to_compact_ v) as [f|] eqn:Efv; cbn [mbind option_bind]; [|by exists None, ptrs].
      destruct (Hseek f (eq_sym Efc)) as (Hl & files & Hf & Hin). rewrite <- Efl in Hl, Hf. rewrite <- Elf in Hf.
      destruct (Hfrom _ files f Hl Hf Hin) as (X & c & ptrs' & -> & Es2 & Hc). cbn [mbind option_bind]. rewrite Es2. cbn [mbind option_bind].
      by exists (Some c), ptrs'.
  - intros level b e Hl Hbk Hek. unfold CompactRange. destruct (level_files_some ucmp okp v level Hv ltac:(lia)) as (files & Hf & _).
    destruct (GetOverlappingInputs_spec ucmp okp Hb v level files b e Hv ltac:(lia) Hf Hbk Hek) as (inputs & -> & _ & Hin). cbn [mbind option_bind].
    case_bool_decide as Hnil.
    { exists None, ptrs. split; [done|]. intros files' f Hf' Hc. rewrite Hf in Hf'. injection Hf' as <-. apply Hin in Hc. rewrite Hnil in Hc. by apply elem_of_nil in Hc. }
    set (X := if 0 <? level then limit_inputs (MaxFileSizeForLevel max_file_size level) 0 inputs else inputs).
    assert (X ⊆ inputs ∧ X ≠ []) as [HX Hne] by (unfold X; destruct (0 <? level); [by apply limit_inputs_sub|done]).
    destruct (setup_from ucmp okp Hb max_file_size v level files X ptrs Hv Hl Hf) as (c & ptrs' & Es & Hc & _ & El); [|done| |].
    + intros f HfX. by apply HX, Hin in HfX as [? _].
    + intros ->. unfold X. simpl. apply (chosen_closed ucmp okp files (ExtractUserKey <$> b) (ExtractUserKey <$> e) inputs); [|done].
      by apply (level_oks ucmp okp v Hv 0).
    + rewrite Es. cbn [mbind option_bind]. by exists (Some c), ptrs'.
Qed.

(** A seek is only ever charged to a file that can be compacted: whatever
    the table cache returns, after Version::Get the statistics name a file
    above the last level that the version holds there, and UpdateStats and
    RecordReadSample keep this true of the file to be compacted. *)
Lemma seeks_charge_upper_levels {T D : Type} `{!TableCache T D} (ucmp : Comparator) (v : Version) (ro : ReadOptions) (k : LookupKey) (t : T) :
  length (files_ v) = Z.to_nat kNumLevels -> seek_ok v ->
  (∀ s value stats t' seeks b v' seeks', Version_Get ucmp ro k v t = Some (s, value, stats, t') ->
     UpdateStats stats v seeks = Some (b, v', seeks') -> seek_ok v' ∧ files_ v' = files_ v) ∧
  (∀ ikey seeks b v' seeks', Version_RecordReadSample ucmp ikey v seeks = Some (b, v', seeks') -> seek_ok v' ∧ files_ v' = files_ v).
Proof.
  intros Hl Hv. split.
  - intros s value stats t' seeks b v' seeks' E. apply UpdateStats_ok; [|done]. by eapply Version_Get_stats.
  - intros ikey seeks b v' seeks'. by apply RecordReadSample_ok.
Qed.

(** ** Witnesses *)

Definition w_file (addr : nat) (u1 q1 u2 q2 : Z) : File :=
  MkFile addr (FileMetaData_new (Z.of_nat addr) 100 (InternalKey_new [u1] q1 kTypeValue) (InternalKey_new [u2] q2 kTypeValue)).

Definition w_entry (u q x : Z) : Slice * Slice := (InternalKey_new [u] q kTypeValue, [x]).

(** Key 97 is on level 0 in the files 7 and 5 and on level 1 in the file 3. *)
Definition w_contents (f : File) : list (Slice * Slice) :=
  if f_number f =? 7 then [w_entry 97 9 90]
  else if f_number f =? 5 then [w_entry 97 6 60; w_entry 99 5 50]
  else [w_entry 97 2 20; w_entry 98 1 10].

Definition w_version : Version :=
  MkVersion [[w_file 5 97 6 99 5; w_file 7 97 9 97 9]; [w_file 3 97 2 98 1]; []; []; []; []; []] None (-1) (double_of (-1)) (-1).

#[local] Instance w_tables : TableCache unit unit := {|
  tc_Get _ number _ ikey t :=
    let kvs := w_contents (MkFile 0 (FileMetaData_new number 0 [] [])) in
    Some (Status_OK, kvs !! seek_index (InternalKeyComparator BytewiseComparator) ikey kvs, t);
  tc_NewIterator _ _ _ t := Some (tt, t);
  tc_delete _ t := t;
  tc_Evict _ t := t;
|}.

Definition key_okb (k : Slice) : bool :=
  forallb (fun b => (0 <=? b) && (b <? 256)) k && (8 <=? length k)%nat && bool_decide (is_Some (ParseInternalKey k)).

Lemma key_okb_ok k : key_okb k = true -> ikey_ok (Forall is_u8) k ∧ is_Some (ParseInternalKey k).
Proof.
  unfold key_okb. rewrite !andb_true_iff, bool_decide_eq_true, Nat.leb_le. intros ((H1 & H2) & H3). split; [|done].
  assert (Forall is_u8 k) as Hk.
  { apply list.Forall_forall. intros b Hb. rewrite forallb_forall in H1. specialize (H1 b (proj1 (list_elem_of_In _ _) Hb)). unfold is_u8. lia. }
  split_and!; [done|done|]. unfold ExtractUserKey. by apply Forall_take.
Qed.

Definition file_okb (f : File) : bool :=
  key_okb (f_smallest f) && key_okb (f_largest f) && (InternalCompare BytewiseComparator (f_smallest f) (f_largest f) <=? 0).

Lemma file_okb_ok f : file_okb f = true -> file_ok BytewiseComparator (Forall is_u8) f.
Proof. unfold file_okb. rewrite !andb_true_iff, Z.leb_le. intros ((H1%key_okb_ok & H2%key_okb_ok) & H3). destruct H1, H2. by split. Qed.

Lemma Forall_okb {A} (P : A -> Prop) (b : A -> bool) (l : list A) : (∀ x, b x = true -> P x) -> forallb b l = true -> Forall P l.
Proof. intros H Hl. apply list.Forall_forall. intros x Hx. apply H. rewrite forallb_forall in Hl. by apply Hl, list_elem_of_In. Qed.

Lemma w_version_ok : version_ok BytewiseComparator (Forall is_u8) w_version.
Proof.
  split; [done|..].
  - intros l files Hl. assert (Forall (fun files => Forall (file_ok BytewiseComparator (Forall is_u8)) files ∧ Z.of_nat (length files) < 2 ^ 31) (files_ w_version)) as H.
    { apply (Forall_okb _ (fun files => forallb file_okb files && (Z.of_nat (length files) <? 2 ^ 31))); [|by vm_compute].
      intros fs. rewrite andb_true_iff, Z.ltb_lt. intros [H1 H2]. split; [|done]. apply (Forall_okb _ file_okb); [apply file_okb_ok|done]. }
    exact (Forall_lookup_1 _ _ _ _ H Hl).
  - intros l files Hl Hf. destruct l as [|l]; [lia|]. destruct l as [|l].
    + injection Hf as <-. split; [constructor; [by apply file_okb_ok; vm_compute|constructor]|]. intros i j f g Hij Hi Hj. apply lookup_lt_Some in Hi, Hj. simpl in *. lia.
    + assert (files = []) as -> by (repeat (destruct l as [|l]; [by injection Hf|]); done). split; [constructor|]. intros i j f g Hij Hi. done.
Qed.

Lemma w_holds l files f : files_ w_version !! l = Some files -> f ∈ files ->
  holds BytewiseComparator (Forall is_u8) w_contents f ∧ reads BytewiseComparator (Forall is_u8) w_contents (fun _ : unit => True) f.
Proof.
  intros Hl Hf. split; cycle 1.
  - intros ro ikey t _ Hk. eexists _, t. split; [reflexivity|]. split; [done|]. by left.
  - assert (f ∈ concat (files_ w_version)) as Hin.
    { apply list_elem_of_In, in_concat. exists files. split; apply list_elem_of_In; [by eapply list_elem_of_lookup_2|done]. }
    assert (∀ f, f ∈ concat (files_ w_version) -> keys_sortedb (InternalKeyComparator BytewiseComparator) (w_contents f) &&
      forallb (fun kv => key_okb kv.1) (w_contents f) && bool_decide (fst <$> w_contents f !! 0%nat = Some (f_smallest f)) &&
      bool_decide (fst <$> w_contents f !! (length (w_contents f) - 1)%nat = Some (f_largest f)) = true) as H.
    { intros g Hg. cbn in Hg. repeat (apply elem_of_cons in Hg as [->|Hg]; [by vm_compute|]). by apply elem_of_nil in Hg. }
    specialize (H f Hin). rewrite !andb_true_iff, !bool_decide_eq_true in H. destruct H as (((H1 & H2) & H3) & H4).
    split; [by apply keys_sorted_check|apply (Forall_okb _ (fun kv => key_okb kv.1)); [intros kv; apply key_okb_ok|done]|done|done].
Qed.

Definition w_precedes (f g : File) : bool :=
  forallb (fun kv => forallb (fun kv' =>
    match ParseInternalKey kv.1, ParseInternalKey kv'.1 with
    | Some k, Some k' =>
        negb (Compare BytewiseComparator (ExtractUserKey kv.1) [97] =? 0) || negb (Compare BytewiseComparator (ExtractUserKey kv'.1) [97] =? 0) ||
        (sequence k' <=? sequence k)
    | _, _ => true
    end) (w_contents g)) (w_contents f).

Lemma w_precedes_ok f g s : w_precedes f g = true -> precedes BytewiseComparator w_contents [97] s f g.
Proof.
  unfold w_precedes. intros H kv kv' k k' Hkv Hkv' (P1 & U1 & _) (P2 & U2 & _). rewrite forallb_forall in H. specialize (H kv (proj1 (list_elem_of_In _ _) Hkv)).
  rewrite forallb_forall in H. specialize (H kv' (proj1 (list_elem_of_In _ _) Hkv')). rewrite P1, P2, U1, U2 in H. simpl in H. by apply Z.leb_le.
Qed.

Lemma w_files l files f : files_ w_version !! l = Some files -> f ∈ files ->
  (l = O ∧ (f = w_file 5 97 6 99 5 ∨ f = w_file 7 97 9 97 9)) ∨ (l = 1%nat ∧ f = w_file 3 97 2 98 1).
Proof.
  intros Hl Hf. destruct l as [|[|l]]; [left|right|].
  - injection Hl as <-. split; [done|]. set_solver.
  - injection Hl as <-. split; [done|]. set_solver.
  - assert (files = []) as -> by (repeat (destruct l as [|l]; [by injection Hl|]); done). by apply elem_of_nil in Hf.
Qed.

Lemma version_get_newest_witness :
  ∃ a stats t', Version_Get BytewiseComparator ReadOptions_new (LookupKey_new [97] 7) w_version tt =
      Some ((default (Status_NotFound [] [], None) (reply <$> a)).1, (default (Status_NotFound [] [], None) (reply <$> a)).2, stats, t') ∧
    True ∧ files_answer BytewiseComparator w_contents [97] 7 (concat (files_ w_version)) a.
Proof.
  apply (version_get_newest (T := unit) (D := unit) BytewiseComparator (Forall is_u8) w_contents (fun _ => True)).
  - done.
  - apply w_version_ok.
  - apply w_holds.
  - intros files [= <-]. cbn. repeat (constructor; [set_solver|]). constructor.
  - intros l l' files files' f g Hl Hl' Hf Hg Hord. apply w_precedes_ok.
    destruct (w_files l files f Hl Hf) as [[-> [->| ->]]|[-> ->]], (w_files l' files' g Hl' Hg) as [[-> [->| ->]]|[-> ->]]; try (by vm_compute);
      exfalso; cbn in Hord; lia.
  - done.
  - repeat constructor; unfold is_u8; lia.
  - by split; vm_compute.
Defined.

(** The entry of file 5 answers: file 7 is too new for the snapshot. *)
Lemma w_get : (fun x => (x.1.1.1, x.1.1.2)) <$> Version_Get BytewiseComparator ReadOptions_new (LookupKey_new [97] 7) w_version tt = Some (Status_OK, Some [60]).
Proof. by vm_compute. Qed.

Lemma overlapping_inputs_exact_witness :
  ∃ inputs, GetOverlappingInputs BytewiseComparator 0 (Some (InternalKey_new [98] 5 kTypeValue)) None w_version = Some inputs ∧
    inputs `sublist_of` [w_file 5 97 6 99 5; w_file 7 97 9 97 9] ∧
    ∀ f, f ∈ inputs <-> chosen BytewiseComparator 0 [w_file 5 97 6 99 5; w_file 7 97 9 97 9] (Some [98]) None f.
Proof.
  apply (overlapping_inputs_exact BytewiseComparator (Forall is_u8) w_version 0 _ (Some (InternalKey_new [98] 5 kTypeValue)) None).
  - done.
  - apply w_version_ok.
  - done.
  - done.
  - change (Forall is_u8 [98]). repeat constructor; unfold is_u8; lia.
  - done.
Defined.

(** The file 7 meets the range only through the file 5. *)
Lemma w_overlapping : option_map (map file_addr) (GetOverlappingInputs BytewiseComparator 0 (Some (InternalKey_new [98] 5 kTypeValue)) None w_version) = Some [5%nat; 7%nat].
Proof. by vm_compute. Qed.

(** A seek compaction of the file 5. *)
Definition w_seek_version : Version := MkVersion (files_ w_version) (Some (w_file 5 97 6 99 5)) 0 (double_of (-1)) (-1).

Lemma w_seek_ok : seek_ok w_seek_version.
Proof. intros f [= <-]. split; [done|]. eexists. split; [done|]. set_solver. Qed.

Lemma compaction_inputs_complete_witness :
  ∃ c ptrs', PickCompaction BytewiseComparator 2097152 (Finalize w_seek_version) (replicate 7 []) = Some (Some c, ptrs') ∧
    complete BytewiseComparator (Finalize w_seek_version) c.
Proof.
  destruct (compaction_inputs_complete BytewiseComparator (Forall is_u8) 2097152 w_seek_version (replicate 7 [])) as [(r & ptrs' & E & Hr) _].
  - done.
  - apply (same_files_ok BytewiseComparator (Forall is_u8) w_version); [done|]. apply w_version_ok.
  - apply w_seek_ok.
  - done.
  - destruct r as [c|]; [exists c, ptrs'; exact (conj E Hr)|]. destruct Hr as [_ Hr]. rewrite (proj1 (proj2 (Finalize_files w_seek_version))) in Hr. discriminate.
Defined.

(** ** The iterator over a level *)

Section Level.

Context (ucmp : Comparator) (okp : Slice -> Prop) `{!ComparatorLaws ucmp okp} (Hbytes : ∀ k, okp k -> Forall is_u8 k).
Context (files : list File) (Hsorted : sorted_level ucmp okp files) (Hlen : Z.of_nat (length files) < 2 ^ 31).
Local Abbreviation icmp := (InternalKeyComparator ucmp).
#[local] Existing Instance file_iterator.
#[local] Instance level_iter : Iterator LevelFileNumIterator := level_iterator ucmp.

(** What the index iterator yields. *)
Definition level_entry (f : File) : Slice * Slice := (f_largest f, EncodeFixed64 (f_number f) ++ EncodeFixed64 (f_size f)).

Definition level_at (it : LevelFileNumIterator) (i : nat) : Prop := flist_ it = files ∧ level_index_ it = Z.of_nat i ∧ (i <= length files)%nat.

Lemma seek_index_splits key i : splits ucmp files key i -> seek_index icmp key (level_entry <$> files) = i.
Proof.
  intros [S1 S2 S3]. apply seek_index_eq; [by rewrite length_fmap|..].
  - intros j kv Hj. rewrite list_lookup_fmap. destruct (files !! j) as [f|] eqn:Hf; [|done]. intros [= <-]. by apply (S2 j).
  - intros kv. rewrite list_lookup_fmap. destruct (files !! i) as [f|] eqn:Hf; [|done]. intros [= <-]. by apply (S3 i).
Qed.

#[local] Instance level_cursor : Cursor (Iterator0 := level_iterator ucmp) icmp (ikey_ok okp) (level_entry <$> files) level_at.
Proof using ComparatorLaws0 Hbytes Hlen Hsorted.
  split; rewrite ?length_fmap.
  - intros it i (E1 & E2 & Hi). unfold i_view. simpl. unfold lf_Valid, lf_key, lf_value, lf_file, file_at. rewrite E1, E2, Nat2Z.id, list_lookup_fmap.
    destruct (files !! i) as [f|] eqn:Hf.
    + apply lookup_lt_Some in Hf. by rewrite (proj2 (Z.ltb_lt _ _)) by lia.
    + apply lookup_ge_None in Hf. by rewrite (proj2 (Z.ltb_ge _ _)) by lia.
  - by intros it i (_ & _ & Hi).
  - done.
  - intros it i (E1 & _ & _). eexists. split; [done|]. by split_and!; [|done|lia].
  - intros it i (E1 & _ & _). eexists. split; [done|]. rewrite E1. split_and!; [done| |lia]. simpl. destruct files as [|f fs] eqn:Ef; [done|].
    rewrite u32_small by (simpl in *; lia). simpl. lia.
  - intros it i target (E1 & _ & _) Ht. destruct (FindFile_spec ucmp okp Hbytes files target Hsorted Ht Hlen) as (j & Ej & Hj). simpl. unfold lf_Seek.
    rewrite E1, Ej. cbn [mbind option_bind]. eexists. split; [done|]. pose proof (sp_bound _ _ _ _ Hj) as Hb. rewrite (seek_index_splits _ _ Hj).
    split_and!; [done|simpl; rewrite u32_small; lia|done].
  - intros it i (E1 & E2 & Hi) Hlt. simpl. unfold lf_Next, lf_Valid. rewrite E1, E2, (proj2 (Z.ltb_lt _ _)) by lia. eexists. split; [done|].
    split_and!; [done|simpl; rewrite u32_small; lia|lia].
  - intros it i (E1 & E2 & Hi) Hlt. simpl. unfold lf_Prev, lf_Valid. rewrite E1, E2, (proj2 (Z.ltb_lt _ _)) by lia. eexists. split; [done|].
    destruct i as [|i]; split_and!; try done; try lia; cbn [level_index_].
    + simpl. rewrite u32_small; lia.
    + rewrite (proj2 (Z.eqb_neq _ _)) by lia. lia.
Qed.

Context {T D : Type} `{!Iterator D} `{!TableCache T D} (contents : File -> list (Slice * Slice)) (Tinv : T -> Prop) (ro : ReadOptions).
Context (dat : File -> D -> nat -> Prop).
Context (Hcontents : ∀ f, f ∈ files -> holds ucmp okp contents f ∧ is_u64 (f_number f) ∧ is_u64 (f_size f)).
Context (Hnumbers : NoDup ((fun f => f_number f) <$> files)).
Context (Hopen : ∀ f t, f ∈ files -> Tinv t -> ∃ d t', tc_NewIterator ro (f_number f) (f_size f) t = Some (d, t') ∧ Tinv t' ∧ dat f d (length (contents f))).
Context (Hcur : ∀ f, f ∈ files -> Cursor icmp (ikey_ok okp) (contents f) (dat f)).
Context (Hdel : ∀ d t, Tinv t -> Tinv (tc_delete d t)).

Definition file_dat (j : nat) (it : FileIterator (D := D)) (i : nat) : Prop :=
  match it with FileError _ => False | FileTable d => ∃ f, files !! j = Some f ∧ dat f d i end.

#[local] Instance file_cursor j f : files !! j = Some f -> Cursor (Iterator0 := file_iterator) icmp (ikey_ok okp) (contents f) (file_dat j).
Proof using Hcur.
  intros Hj. pose proof (Hcur f (list_elem_of_lookup_2 _ _ _ Hj)) as Hc.
  assert (∀ it i, file_dat j it i -> ∃ d, it = FileTable d ∧ dat f d i) as Hinv.
  { intros [it|d] i; [done|]. intros (f' & Hf' & Hd). rewrite Hj in Hf'. injection Hf' as <-. by exists d. }
  assert (∀ d i, dat f d i -> file_dat j (FileTable d) i) as Hback by (intros d i Hd; by exists f).
  split.
  - intros it i (d & -> & Hd)%Hinv. exact (cur_view d i Hd).
  - intros it i (d & -> & Hd)%Hinv. exact (cur_bound d i Hd).
  - intros it i (d & -> & Hd)%Hinv. exact (cur_status d i Hd).
  - intros it i (d & -> & Hd)%Hinv. destruct (cur_first d i Hd) as (d' & E & Hd'). exists (FileTable d'). simpl. rewrite E. split; [done|]. by apply Hback.
  - intros it i (d & -> & Hd)%Hinv. destruct (cur_last d i Hd) as (d' & E & Hd'). exists (FileTable d'). simpl. rewrite E. split; [done|]. by apply Hback.
  - intros it i target (d & -> & Hd)%Hinv Ht. destruct (cur_seek d i target Hd Ht) as (d' & E & Hd'). exists (FileTable d'). simpl. rewrite E. split; [done|]. by apply Hback.
  - intros it i (d & -> & Hd)%Hinv Hi. destruct (cur_next d i Hd Hi) as (d' & E & Hd'). exists (FileTable d'). simpl. rewrite E. split; [done|]. by apply Hback.
  - intros it i (d & -> & Hd)%Hinv Hi. destruct (cur_prev d i Hd Hi) as (d' & E & Hd'). exists (FileTable d'). simpl. rewrite E. split; [done|]. by apply Hback.
Qed.

Lemma level_value_decode f : is_u64 (f_number f) -> is_u64 (f_size f) ->
  size (level_entry f).2 = 16 ∧ DecodeFixed64 (level_entry f).2 = f_number f ∧ DecodeFixed64 (drop 8 (level_entry f).2) = f_size f.
Proof.
  intros Hn Hs. unfold level_entry. cbn [snd]. split_and!.
  - unfold size, EncodeFixed64. by rewrite length_app, !length_le_split.
  - by apply DecodeFixed64_encode.
  - rewrite drop_app_length' by (unfold EncodeFixed64; by rewrite length_le_split). rewrite <- (app_nil_r (EncodeFixed64 (f_size f))). by apply DecodeFixed64_encode.
Qed.

Lemma concatenating_cursor : Cursor (Iterator0 := concatenating_iterator ucmp ro files) icmp (ikey_ok okp) (concat (contents <$> files))
  (tl_at (I := LevelFileNumIterator) (D := FileIterator) (level_entry <$> files) level_at (contents <$> files) Tinv file_dat).
Proof using ComparatorLaws0 Hbytes Hlen Hsorted Hcontents Hnumbers Hopen Hcur Hdel.
  pose proof (cmp_total (ComparatorLaws := internal_laws ucmp okp Hbytes)) as Htot.
  assert (∀ j kv, (level_entry <$> files) !! j = Some kv -> ∃ f, files !! j = Some f ∧ kv = level_entry f) as Hidx.
  { intros j kv. rewrite list_lookup_fmap. destruct (files !! j) as [f|]; [|done]. intros [= <-]. by exists f. }
  assert (∀ j blk, (contents <$> files) !! j = Some blk -> ∃ f, files !! j = Some f ∧ blk = contents f) as Hblk.
  { intros j blk. rewrite list_lookup_fmap. destruct (files !! j) as [f|]; [|done]. intros [= <-]. by exists f. }
  refine (two_level_cursor (I := LevelFileNumIterator) (GetFileIterator ro) delete_file_iterator (S (S (length files))) icmp (ikey_ok okp) (level_entry <$> files) level_at
    (contents <$> files) Tinv file_dat _ _ _ _ _ _ _ _ _).
  - by rewrite !length_fmap.
  - intros j kv blk (f & Hf & ->)%Hidx (f' & Hf' & ->)%Hblk. rewrite Hf in Hf'. injection Hf' as <-. pose proof (list_elem_of_lookup_2 _ _ _ Hf) as Hin.
    destruct (Hcontents f Hin) as (_ & Hn & Hs). split; [by apply file_cursor|]. intros t Ht. unfold GetFileIterator.
    destruct (level_value_decode f Hn Hs) as (E1 & E2 & E3). rewrite E1, E2, E3. cbn [Z.eqb Pos.eqb negb].
    destruct (Hopen f t Hin Ht) as (d & t' & -> & Ht' & Hd). cbn [mbind option_bind]. exists (FileTable d), t'. split_and!; [done|done|by exists f].
  - intros [it|d] t Ht; [done|]. by apply Hdel.
  - intros i j a b (f & Hf & ->)%Hidx (g & Hg & ->)%Hidx E. destruct (Hcontents f (list_elem_of_lookup_2 _ _ _ Hf)) as (_ & Hn & Hs).
    destruct (Hcontents g (list_elem_of_lookup_2 _ _ _ Hg)) as (_ & Hn' & Hs'). destruct (level_value_decode f Hn Hs) as (_ & E2 & _).
    destruct (level_value_decode g Hn' Hs') as (_ & E2' & _). rewrite E, E2' in E2. apply (NoDup_lookup _ i j (f_number f) Hnumbers); rewrite list_lookup_fmap.
    + by rewrite Hf.
    + rewrite Hg. simpl. by rewrite E2.
  - apply Forall_lookup. intros j kv (f & Hf & ->)%Hidx. apply (fk_large _ _ _ (sorted_lookup_ok _ _ _ _ _ Hsorted Hf)).
  - intros j blk kv (f & Hf & ->)%Hblk [i Hi]%list_elem_of_lookup. destruct (Hcontents f (list_elem_of_lookup_2 _ _ _ Hf)) as (Hh & _).
    by destruct (holds_entry ucmp okp Hbytes contents f i kv Hh Hi).
  - intros j s blk kv (f & Hf & ->)%Hidx (f' & Hf' & ->)%Hblk [i Hi]%list_elem_of_lookup. rewrite Hf in Hf'. injection Hf' as <-.
    destruct (Hcontents f (list_elem_of_lookup_2 _ _ _ Hf)) as (Hh & _). by destruct (holds_entry ucmp okp Hbytes contents f i kv Hh Hi) as (_ & _ & _ & ?).
  - intros i j s blk kv Hij (f & Hf & ->)%Hidx (g & Hg & ->)%Hblk [n Hn]%list_elem_of_lookup. destruct (Hcontents g (list_elem_of_lookup_2 _ _ _ Hg)) as (Hh & _).
    destruct (holds_entry ucmp okp Hbytes contents g n kv Hh Hn) as (K1 & _ & K3 & _). pose proof (sorted_lookup_ok _ _ _ _ _ Hsorted Hf) as [_ F2 _ _].
    pose proof (sorted_lookup_ok _ _ _ _ _ Hsorted Hg) as [G1 _ _ _]. apply (cmp_lt_le (InternalCompare ucmp) (ikey_ok okp) _ (f_smallest g)); [done..| |done].
    by apply (sl_order _ _ _ Hsorted i j).
  - rewrite length_fmap. lia.
Qed.

Lemma concatenating_run t ops i : Tinv t -> Forall (target_ok (ikey_ok okp)) ops -> cursor_run icmp (concat (contents <$> files)) ops = Some i ->
  ∃ it, iter_run (Iterator0 := concatenating_iterator ucmp ro files) ops (NewTwoLevelIterator (LevelFileNumIterator_new files) t) = Some it ∧
    i_view (Iterator0 := concatenating_iterator ucmp ro files) it = concat (contents <$> files) !! i ∧
    i_status (Iterator := concatenating_iterator ucmp ro files) it = Status_OK.
Proof using ComparatorLaws0 Hbytes Hlen Hsorted Hcontents Hnumbers Hopen Hcur Hdel.
  intros Ht Hops Hrun.
  destruct (run_cursor (Iterator0 := concatenating_iterator ucmp ro files) _ _ _ _ (Cursor0 := concatenating_cursor) ops
    (NewTwoLevelIterator (LevelFileNumIterator_new files) t) i) as (it & E1 & E2 & E3 & _); [|done|done|by exists it].
  apply two_level_new; [|done]. rewrite length_fmap. split_and!; [done| |done]. simpl. rewrite u32_small; lia.
Qed.

End Level.

(** C26. The iterator over a level above 0 (Version::NewConcatenatingIterator: a
    two-level iterator over LevelFileNumIterator whose blocks are the files that
    GetFileIterator opens) is an iterator over the concatenation of the files'
    entries in the order of the level: any program of SeekToFirst, SeekToLast,
    Next, Prev and Seek runs, and leaves it on the entry the same program
    reaches in the list, without an error.  The level is sorted, its files have
    distinct numbers that fit the encoded index value, and the table cache opens
    each of them with an iterator over its entries. *)
Theorem level_iterator_concatenates {T D : Type} `{!Iterator D} `{!TableCache T D} (ucmp : Comparator) (okp : Slice -> Prop) `{!ComparatorLaws ucmp okp}
    (v : Version) (level : Z) (files : list File) (contents : File -> list (Slice * Slice)) (Tinv : T -> Prop) (ro : ReadOptions)
    (dat : File -> D -> nat -> Prop) (t : T) (ops : list cursor_op) (i : nat) :
  (∀ k, okp k -> Forall is_u8 k) -> version_ok ucmp okp v -> 0 < level -> level_files v level = Some files ->
  (∀ f, f ∈ files -> holds ucmp okp contents f ∧ is_u64 (f_number f) ∧ is_u64 (f_size f)) ->
  NoDup ((fun f => f_number f) <$> files) ->
  (∀ f t, f ∈ files -> Tinv t -> ∃ d t', tc_NewIterator ro (f_number f) (f_size f) t = Some (d, t') ∧ Tinv t' ∧ dat f d (length (contents f))) ->
  (∀ f, f ∈ files -> Cursor (InternalKeyComparator ucmp) (ikey_ok okp) (contents f) (dat f)) ->
  (∀ d t, Tinv t -> Tinv (tc_delete d t)) ->
  Tinv t -> Forall (target_ok (ikey_ok okp)) ops ->
  cursor_run (InternalKeyComparator ucmp) (concat (contents <$> files)) ops = Some i ->
  ∃ it it', NewConcatenatingIterator ucmp v level t = Some it ∧
    iter_run (Iterator0 := concatenating_iterator ucmp ro files) ops it = Some it' ∧
    i_view (Iterator0 := concatenating_iterator ucmp ro files) it' = concat (contents <$> files) !! i ∧
    i_status (Iterator := concatenating_iterator ucmp ro files) it' = Status_OK.
Proof.
  intros Hb Hv Hl Hf Hc Hn Ho Hcur Hd Ht Hops Hrun. unfold NewConcatenatingIterator. rewrite Hf. cbn [mbind option_bind].
  unfold level_files in Hf. rewrite (proj2 (Z.ltb_ge _ _)) in Hf by lia. destruct (vo_files _ _ _ Hv _ _ Hf) as [_ Hlen].
  assert (sorted_level ucmp okp files) as Hs by (apply (vo_sorted _ _ _ Hv (Z.to_nat level)); [lia|done]).
  destruct (concatenating_run ucmp okp Hb files Hs Hlen contents Tinv ro dat Hc Hn Ho Hcur Hd t ops i Ht Hops Hrun) as (it' & ?).
  by eexists _, it'.
Qed.

(** Two files on level 1. *)
Definition w_level : list File := [w_file 3 97 2 98 1; w_file 8 99 4 99 4].

Definition w_level_contents (f : File) : list (Slice * Slice) :=
  if f_number f =? 3 then [w_entry 97 2 20; w_entry 98 1 10] else [w_entry 99 4 40].

#[local] Instance w_list_iterator : Iterator ListIterator := list_iterator (InternalKeyComparator BytewiseComparator).

#[local] Instance w_list_tables : TableCache unit ListIterator := {|
  tc_Get _ _ _ _ _ := None;
  tc_NewIterator _ number _ t :=
    let kvs := w_level_contents (MkFile 0 (FileMetaData_new number 0 [] [])) in Some (MkListIter kvs (length kvs), t);
  tc_delete _ t := t;
  tc_Evict _ t := t;
|}.

Lemma w_level_ok : version_ok BytewiseComparator (Forall is_u8) (MkVersion [[]; w_level; []; []; []; []; []] None (-1) (double_of (-1)) (-1)).
Proof.
  assert (Forall (file_ok BytewiseComparator (Forall is_u8)) w_level) as Hw by (apply (Forall_okb _ file_okb); [apply file_okb_ok|by vm_compute]).
  split; [done|..].
  - intros l files Hl. destruct l as [|[|l]]; [by injection Hl as <-|injection Hl as <-; by split|].
    assert (files = []) as -> by (repeat (destruct l as [|l]; [by injection Hl|]); done). by split.
  - intros l files Hl Hf. destruct l as [|[|l]]; [lia|injection Hf as <-|].
    + split; [done|]. intros i j f g Hij Hi Hj. pose proof (lookup_lt_Some _ _ _ Hj). simpl in *. assert (i = 0%nat ∧ j = 1%nat) as [-> ->] by lia.
      injection Hi as <-. injection Hj as <-. by vm_compute.
    + assert (files = []) as -> by (repeat (destruct l as [|l]; [by injection Hf|]); done). split; [constructor|]. intros i j f g Hij Hi. done.
Qed.

Lemma w_level_holds f : f ∈ w_level -> holds BytewiseComparator (Forall is_u8) w_level_contents f ∧ is_u64 (f_number f) ∧ is_u64 (f_size f).
Proof.
  intros Hf. assert (keys_sortedb (InternalKeyComparator BytewiseComparator) (w_level_contents f) &&
      forallb (fun kv => key_okb kv.1) (w_level_contents f) && bool_decide (fst <$> w_level_contents f !! 0%nat = Some (f_smallest f)) &&
      bool_decide (fst <$> w_level_contents f !! (length (w_level_contents f) - 1)%nat = Some (f_largest f)) = true) as H.
  { repeat (apply elem_of_cons in Hf as [->|Hf]; [by vm_compute|]). by apply elem_of_nil in Hf. }
  rewrite !andb_true_iff, !bool_decide_eq_true in H. destruct H as (((H1 & H2) & H3) & H4). split.
  - split; [by apply keys_sorted_check|apply (Forall_okb _ (fun kv => key_okb kv.1)); [intros kv; apply key_okb_ok|done]|done|done].
  - unfold is_u64. repeat (apply elem_of_cons in Hf as [->|Hf]; [simpl; lia|]). by apply elem_of_nil in Hf.
Qed.

Lemma w_level_numbers : NoDup ((fun f => f_number f) <$> w_level).
Proof. apply list.NoDup_cons. split; [cbn; set_solver|apply list.NoDup_singleton]. Qed.

(** From the end, back over the end of the first file. *)
Lemma level_iterator_concatenates_witness :
  let v := MkVersion [[]; w_level; []; []; []; []; []] None (-1) (double_of (-1)) (-1) in
  let iterator := concatenating_iterator (T := unit) (D := ListIterator) BytewiseComparator ReadOptions_new w_level in
  ∃ it it', NewConcatenatingIterator (T := unit) (D := ListIterator) BytewiseComparator v 1 tt = Some it ∧
    iter_run (Iterator0 := iterator) [ToLast; ToPrev] it = Some it' ∧
    i_view (Iterator0 := iterator) it' = Some (w_entry 98 1 10) ∧ i_status (Iterator := iterator) it' = Status_OK.
Proof.
  exact (level_iterator_concatenates BytewiseComparator (Forall is_u8) (MkVersion [[]; w_level; []; []; []; []; []] None (-1) (double_of (-1)) (-1)) 1 w_level
    w_level_contents (fun _ => True) ReadOptions_new (fun f => list_at (w_level_contents f)) tt [ToLast; ToPrev] 1
    (fun k Hk => Hk) w_level_ok eq_refl eq_refl w_level_holds
    w_level_numbers
    (fun f t Hf _ => ex_intro _ _ (ex_intro _ t (conj eq_refl (conj I (conj eq_refl (Nat.le_refl _))))))
    (fun f _ => list_cursor _ _ _) (fun _ _ _ => I) I
    ltac:(repeat constructor) eq_refl).
Defined.
