(* ===== verification/LdbVersionSet.v ===== *)
(** * leveldb: the version set (version_set.h, version_set.cc)

    The live versions of a database, the files they share, the builder that
    applies edits, and the manifest in which the edits are kept.

    A [VersionSet] holds the environment, the counters, the manifest being
    written (the file object and the position in its block, the state of a
    [log::Writer]), the nodes of the list [dummy_versions_] from the oldest to
    the newest, and the reference counts and allowed seeks of the file objects
    by address.  Taking or dropping a reference of an object that is not
    allocated, an index outside an array and a failed assertion are [None]. *)

From Stdlib Require Import SpecFloat.
From S2P Require Import Prelude.
From S2P Require Import LdbSlice.
From S2P Require Import LdbCoding.
From S2P Require Import LdbFormat.
From S2P Require Import LdbLog.
From S2P Require Import LdbVersionEdit.
From S2P Require Import LdbFilename.
From S2P Require Import LdbVersion.

(** A loop that may fail. *)
Fixpoint ofold {A S} (f : A -> S -> option S) (l : list A) (s : S) : option S :=
  match l with [] => Some s | x :: l => s ← f x s; ofold f l s end.

(** ** Objects *)

Record Heap := MkHeap {
  hp_refs : gmap nat Z;
  hp_seeks : gmap nat Z;
  hp_next : nat;
}.

(** [f->refs++] and [f->refs--] with the deletion at zero. *)
Definition file_ref (f : File) (h : Heap) : option Heap :=
  r ← hp_refs h !! file_addr f; Some (MkHeap (<[file_addr f := r + 1]> (hp_refs h)) (hp_seeks h) (hp_next h)).

Definition file_unref (f : File) (h : Heap) : option Heap :=
  r ← hp_refs h !! file_addr f;
  Some (if r - 1 <=? 0 then MkHeap (delete (file_addr f) (hp_refs h)) (delete (file_addr f) (hp_seeks h)) (hp_next h)
        else MkHeap (<[file_addr f := r - 1]> (hp_refs h)) (hp_seeks h) (hp_next h)).

(** A node of the list of versions. *)
Record Node := MkNode { node_id : nat; node_refs : Z; node_version : Version }.

Record Numbers := MkNumbers {
  nm_next_file : Z;
  nm_manifest_file : Z;
  nm_last_sequence : Z;
  nm_log : Z;
  nm_prev_log : Z;
}.

Section VersionSet.

Context (ucmp : Comparator) (max_file_size : Z) (reuse_logs : bool) (dbname_ : Slice) (addr : Slice -> Z).
Context {W : Type} `{!Env W}.
Local Abbreviation icmp := (InternalKeyComparator ucmp).

Record VersionSet := MkVersionSet {
  vs_env : W;
  vs_numbers : Numbers;
  descriptor_file_ : option Z;
  descriptor_log_ : option Z;
  vs_versions : list Node;
  current_ : option nat;
  compact_pointer_ : list Slice;
  vs_heap : Heap;
}.

Definition set_env (w : W) (vs : VersionSet) : VersionSet :=
  MkVersionSet w (vs_numbers vs) (descriptor_file_ vs) (descriptor_log_ vs) (vs_versions vs) (current_ vs) (compact_pointer_ vs) (vs_heap vs).
Definition set_numbers (n : Numbers) (vs : VersionSet) : VersionSet :=
  MkVersionSet (vs_env vs) n (descriptor_file_ vs) (descriptor_log_ vs) (vs_versions vs) (current_ vs) (compact_pointer_ vs) (vs_heap vs).
Definition set_descriptor (f l : option Z) (vs : VersionSet) : VersionSet :=
  MkVersionSet (vs_env vs) (vs_numbers vs) f l (vs_versions vs) (current_ vs) (compact_pointer_ vs) (vs_heap vs).
Definition set_versions (ns : list Node) (c : option nat) (vs : VersionSet) : VersionSet :=
  MkVersionSet (vs_env vs) (vs_numbers vs) (descriptor_file_ vs) (descriptor_log_ vs) ns c (compact_pointer_ vs) (vs_heap vs).
Definition set_pointers (ptrs : list Slice) (vs : VersionSet) : VersionSet :=
  MkVersionSet (vs_env vs) (vs_numbers vs) (descriptor_file_ vs) (descriptor_log_ vs) (vs_versions vs) (current_ vs) ptrs (vs_heap vs).
Definition set_file_heap (h : Heap) (vs : VersionSet) : VersionSet :=
  MkVersionSet (vs_env vs) (vs_numbers vs) (descriptor_file_ vs) (descriptor_log_ vs) (vs_versions vs) (current_ vs) (compact_pointer_ vs) h.

(** ** Counters *)

Definition NewFileNumber (vs : VersionSet) : Z * VersionSet :=
  let n := vs_numbers vs in
  (nm_next_file n, set_numbers (MkNumbers (u64 (nm_next_file n + 1)) (nm_manifest_file n) (nm_last_sequence n) (nm_log n) (nm_prev_log n)) vs).

Definition set_next_file (next : Z) (vs : VersionSet) : VersionSet :=
  let n := vs_numbers vs in set_numbers (MkNumbers next (nm_manifest_file n) (nm_last_sequence n) (nm_log n) (nm_prev_log n)) vs.

Definition ReuseFileNumber (file_number : Z) (vs : VersionSet) : VersionSet :=
  if nm_next_file (vs_numbers vs) =? u64 (file_number + 1) then set_next_file file_number vs else vs.

Definition MarkFileNumberUsed (number : Z) (vs : VersionSet) : VersionSet :=
  if nm_next_file (vs_numbers vs) <=? number then set_next_file (u64 (number + 1)) vs else vs.

Definition VersionSet_SetLastSequence (s : Z) (vs : VersionSet) : option VersionSet :=
  let n := vs_numbers vs in
  if nm_last_sequence n <=? s then Some (set_numbers (MkNumbers (nm_next_file n) (nm_manifest_file n) s (nm_log n) (nm_prev_log n)) vs) else None.

(** ** References to versions *)

Definition find_node (id : nat) (vs : VersionSet) : option Node := find (fun n => (node_id n =? id)%nat) (vs_versions vs).

Definition set_node_refs (id : nat) (refs : Z) (ns : list Node) : list Node :=
  (fun n => if (node_id n =? id)%nat then MkNode id refs (node_version n) else n) <$> ns.

(** The destructor, on an object that is or is not in the list. *)
Definition Version_delete (n : Node) (vs : VersionSet) : option VersionSet :=
  if negb (node_refs n =? 0) then None
  else
    heap ← ofold (ofold (fun f h => r ← hp_refs h !! file_addr f; if negb (0 <? r) then None else file_unref f h)) (files_ (node_version n)) (vs_heap vs);
    Some (set_file_heap heap (set_versions (List.filter (fun m => negb (node_id m =? node_id n)%nat) (vs_versions vs)) (current_ vs) vs)).

Definition Version_Ref (id : nat) (vs : VersionSet) : option VersionSet :=
  n ← find_node id vs; Some (set_versions (set_node_refs id (node_refs n + 1) (vs_versions vs)) (current_ vs) vs).

Definition Version_Unref (id : nat) (vs : VersionSet) : option VersionSet :=
  n ← find_node id vs;
  if negb (1 <=? node_refs n) then None
  else
    let vs := set_versions (set_node_refs id (node_refs n - 1) (vs_versions vs)) (current_ vs) vs in
    if node_refs n - 1 =? 0 then Version_delete (MkNode id 0 (node_version n)) vs else Some vs.

(** [new Version(this)]: its address. *)
Definition new_version (vs : VersionSet) : nat * VersionSet :=
  let h := vs_heap vs in (hp_next h, set_file_heap (MkHeap (hp_refs h) (hp_seeks h) (S (hp_next h))) vs).

Definition AppendVersion (v : Node) (vs : VersionSet) : option VersionSet :=
  if negb (node_refs v =? 0) || bool_decide (current_ vs = Some (node_id v)) then None
  else
    vs ← match current_ vs with Some c => Version_Unref c vs | None => Some vs end;
    Some (set_versions (vs_versions vs ++ [MkNode (node_id v) 1 (node_version v)]) (Some (node_id v)) vs).

Definition current_version (vs : VersionSet) : option Version := c ← current_ vs; n ← find_node c vs; Some (node_version n).

Definition VersionSet_new (env : W) : option VersionSet :=
  let vs := MkVersionSet env (MkNumbers 2 0 0 0 0) None None [] None (replicate (Z.to_nat kNumLevels) []) (MkHeap ∅ ∅ 0) in
  let '(v, vs) := new_version vs in AppendVersion (MkNode v 0 Version_new) vs.

Definition delete_descriptor (vs : VersionSet) : VersionSet :=
  match descriptor_file_ vs with Some h => set_env (delete_writable h (vs_env vs)) vs | None => vs end.

Definition VersionSet_delete (vs : VersionSet) : option W :=
  c ← current_ vs; vs ← Version_Unref c vs;
  if bool_decide (vs_versions vs = []) then Some (vs_env (delete_descriptor vs)) else None.

(** ** [Builder] *)

Definition BySmallestKey (f1 f2 : File) : bool :=
  let r := Compare icmp (f_smallest f1) (f_smallest f2) in
  if negb (r =? 0) then r <? 0 else f_number f1 <? f_number f2.

(** [std::set::insert] with that order: an equivalent element stays. *)
Fixpoint fileset_insert (f : File) (s : list File) : list File :=
  match s with
  | [] => [f]
  | g :: s' => if BySmallestKey f g then f :: s else if BySmallestKey g f then g :: fileset_insert f s' else s
  end.

Record LevelState := MkLevelState { deleted_numbers : gset Z; added_files : list File }.
Record Builder := MkBuilder { base_ : nat; levels_ : list LevelState }.

Definition Builder_new (base : nat) (vs : VersionSet) : option (Builder * VersionSet) :=
  vs ← Version_Ref base vs; Some (MkBuilder base (replicate (Z.to_nat kNumLevels) (MkLevelState ∅ [])), vs).

Definition update_level (level : Z) (f : LevelState -> LevelState) (levels : list LevelState) : option (list LevelState) :=
  if level <? 0 then None else l ← levels !! Z.to_nat level; Some (<[Z.to_nat level := f l]> levels).

Definition set_pointer (p : Z * Slice) (ptrs : list Slice) : option (list Slice) :=
  if (0 <=? p.1) && (p.1 <? kNumLevels) then Some (<[Z.to_nat p.1 := p.2]> ptrs) else None.

Definition delete_file (p : Z * Z) (levels : list LevelState) : option (list LevelState) :=
  update_level p.1 (fun l => MkLevelState ({[p.2]} ∪ deleted_numbers l) (added_files l)) levels.

Definition add_file (p : Z * FileMetaData) (st : list LevelState * Heap) : option (list LevelState * Heap) :=
  let '(levels, h) := st in
  let f := MkFile (hp_next h) p.2 in
  let allowed := s32 (f_size f / 16384) in
  let allowed := if allowed <? 100 then 100 else allowed in
  let h := MkHeap (<[file_addr f := 1]> (hp_refs h)) (<[file_addr f := allowed]> (hp_seeks h)) (S (hp_next h)) in
  levels ← update_level p.1 (fun l => MkLevelState (deleted_numbers l ∖ {[f_number f]}) (fileset_insert f (added_files l))) levels;
  Some (levels, h).

Definition Builder_Apply (edit : VersionEdit) (b : Builder) (vs : VersionSet) : option (Builder * VersionSet) :=
  ptrs ← ofold set_pointer (compact_pointers_ edit) (compact_pointer_ vs);
  levels ← ofold delete_file (deleted_files_ edit) (levels_ b);
  '(levels, heap) ← ofold add_file (new_files_ edit) (levels, vs_heap vs);
  Some (MkBuilder (base_ b) levels, set_file_heap heap (set_pointers ptrs vs)).

(** [files] is [v->files_[level]]. *)
Definition MaybeAddFile (level : Z) (st : LevelState) (f : File) (s : list File * Heap) : option (list File * Heap) :=
  let '(files, h) := s in
  if bool_decide (f_number f ∈ deleted_numbers st) then Some (files, h)
  else
    let overlap := match list.last files with Some g => 0 <=? Compare icmp (f_largest g) (f_smallest f) | None => false end in
    if (0 <? level) && overlap then None
    else h ← file_ref f h; Some (files ++ [f], h).

(** [std::upper_bound] on a sorted range: the number of files before the
    first one that the file comes before. *)
Fixpoint upper_bound (f : File) (files : list File) : nat :=
  match files with [] => O | g :: fs => if BySmallestKey f g then O else S (upper_bound f fs) end.

Fixpoint save_level (level : Z) (st : LevelState) (added base : list File) (s : list File * Heap) : option (list File * Heap) :=
  match added with
  | [] => ofold (MaybeAddFile level st) base s
  | f :: added =>
      let bpos := upper_bound f base in
      s ← ofold (MaybeAddFile level st) (take bpos base) s;
      s ← MaybeAddFile level st f s;
      save_level level st added (drop bpos base) s
  end.

(** The check of a debug build. *)
Fixpoint no_overlap (files : list File) : bool :=
  match files with
  | f :: (g :: _) as fs => (Compare icmp (f_largest f) (f_smallest g) <? 0) && no_overlap fs
  | _ => true
  end.

Definition save_one (base : Version) (levels : list LevelState) (level : nat) (s : list (list File) * Heap) : option (list (list File) * Heap) :=
  let '(out, h) := s in
  base_files ← files_ base !! level; st ← levels !! level;
  '(files, h) ← save_level (Z.of_nat level) st (added_files st) base_files ([], h);
  if (0 <? level)%nat && negb (no_overlap files) then None else Some (out ++ [files], h).

Definition SaveTo (b : Builder) (vs : VersionSet) : option (list (list File) * VersionSet) :=
  n ← find_node (base_ b) vs;
  '(files, h) ← ofold (save_one (node_version n) (levels_ b)) (seq 0 (Z.to_nat kNumLevels)) ([], vs_heap vs);
  Some (files, set_file_heap h vs).

Definition Builder_delete (b : Builder) (vs : VersionSet) : option VersionSet :=
  heap ← ofold (fun st => ofold file_unref (added_files st)) (levels_ b) (vs_heap vs);
  Version_Unref (base_ b) (set_file_heap heap vs).

(** ** The manifest *)

(** The file objects of the environment. *)
#[local] Instance env_writable : WritableFile (Z * W) := {|
  Append x f := let '(s, w) := file_Append f.1 x f.2 in (s, (f.1, w));
  Flush f := let '(s, w) := file_Flush f.1 f.2 in (s, (f.1, w));
|}.

#[local] Instance env_sequential : SequentialFile (Z * W) := {|
  Read n f := let '(s, x, w) := file_Read f.1 n f.2 in (s, x, (f.1, w));
  Skip n f := let '(s, w) := file_Skip f.1 n f.2 in (s, (f.1, w));
|}.

(** [descriptor_log_->AddRecord]. *)
Definition manifest_AddRecord (record : Slice) (vs : VersionSet) : option (Status * VersionSet) :=
  h ← descriptor_file_ vs; off ← descriptor_log_ vs;
  '(s, l) ← AddRecord addr record (MkWriter (h, vs_env vs) off (InitTypeCrc addr));
  Some (s, set_descriptor (Some h) (Some (block_offset_ l)) (set_env (dest_ l).2 vs)).

Fixpoint snapshot_pointers (level : Z) (ptrs : list Slice) (edit : VersionEdit) : VersionEdit :=
  match ptrs with
  | [] => edit
  | p :: ptrs => snapshot_pointers (level + 1) ptrs (if bool_decide (p = []) then edit else SetCompactPointer level p edit)
  end.

Fixpoint snapshot_files (level : Z) (levels : list (list File)) (edit : VersionEdit) : VersionEdit :=
  match levels with
  | [] => edit
  | fs :: levels =>
      snapshot_files (level + 1) levels (foldl (fun e (f : File) => AddFile level (f_number f) (f_size f) (f_smallest f) (f_largest f) e) edit fs)
  end.

Definition snapshot_edit (ptrs : list Slice) (v : Version) : VersionEdit :=
  snapshot_files 0 (files_ v) (snapshot_pointers 0 ptrs (SetComparatorName (ComparatorName ucmp) VersionEdit_new)).

Definition WriteSnapshot (vs : VersionSet) : option (Status * VersionSet) :=
  v ← current_version vs; manifest_AddRecord (EncodeTo (snapshot_edit (compact_pointer_ vs) v) []) vs.

(** ** [LogAndApply]

    The edit is completed in place.  [other] is what the other threads do to
    the version set between [mu->Unlock()] and [mu->Lock()]. *)

Definition complete_edit (edit : VersionEdit) (n : Numbers) : option VersionEdit :=
  edit ← (if has_log_number_ edit then if (nm_log n <=? log_number_ edit) && (log_number_ edit <? nm_next_file n) then Some edit else None
          else Some (SetLogNumber (nm_log n) edit));
  let edit := if has_prev_log_number_ edit then edit else SetPrevLogNumber (nm_prev_log n) edit in
  Some (SetLastSequence (nm_last_sequence n) (SetNextFile (nm_next_file n) edit)).

(** The version the builder makes of the current one. *)
Definition build_version (edit : VersionEdit) (vs : VersionSet) : option (Node * VersionSet) :=
  let '(v, vs) := new_version vs in
  c ← current_ vs;
  '(b, vs) ← Builder_new c vs;
  '(b, vs) ← Builder_Apply edit b vs;
  '(files, vs) ← SaveTo b vs;
  vs ← Builder_delete b vs;
  Some (MkNode v 0 (Finalize (MkVersion files None (-1) (double_of (-1)) (-1))), vs).

(** A new manifest with a snapshot, if none is open: its name, or nothing. *)
Definition open_manifest (vs : VersionSet) : option (Status * Slice * VersionSet) :=
  match descriptor_log_ vs with
  | Some _ => Some (Status_OK, [], vs)
  | None =>
      match descriptor_file_ vs with
      | Some _ => None
      | None =>
          let new_manifest_file := DescriptorFileName dbname_ (nm_manifest_file (vs_numbers vs)) in
          let '(s, h, w) := NewWritableFile new_manifest_file (vs_env vs) in
          if ok s then
            '(s, vs) ← WriteSnapshot (set_descriptor (Some h) (Some 0) (set_env w vs));
            Some (s, new_manifest_file, vs)
          else Some (s, new_manifest_file, set_env w vs)
      end
  end.

(** The record of the edit and, for a new manifest, CURRENT. *)
Definition write_edit (s : Status) (edit : VersionEdit) (new_manifest_file : Slice) (vs : VersionSet) : option (Status * VersionSet) :=
  '(s, vs) ←
    (if ok s then
       '(s, vs) ← manifest_AddRecord (EncodeTo edit []) vs;
       if ok s then h ← descriptor_file_ vs; let '(s, w) := file_Sync h (vs_env vs) in Some (s, set_env w vs)
       else Some (s, vs)
     else Some (s, vs));
  Some (if ok s && negb (bool_decide (new_manifest_file = []))
        then let '(s, w) := SetCurrentFile dbname_ (nm_manifest_file (vs_numbers vs)) (vs_env vs) in (s, set_env w vs)
        else (s, vs)).

Definition LogAndApply (other : VersionSet -> VersionSet) (edit : VersionEdit) (vs : VersionSet) : option (Status * VersionEdit * VersionSet) :=
  edit ← complete_edit edit (vs_numbers vs);
  '(v, vs) ← build_version edit vs;
  '(s, new_manifest_file, vs) ← open_manifest vs;
  let edit := if bool_decide (new_manifest_file = []) then edit else SetNextFile (nm_next_file (vs_numbers vs)) edit in
  let vs := other vs in
  '(s, vs) ← write_edit s edit new_manifest_file vs;
  if ok s then
    vs ← AppendVersion v vs;
    let n := vs_numbers vs in
    Some (s, edit, set_numbers (MkNumbers (nm_next_file n) (nm_manifest_file n) (nm_last_sequence n) (log_number_ edit) (prev_log_number_ edit)) vs)
  else
    vs ← Version_delete v vs;
    let vs :=
      if bool_decide (new_manifest_file = []) then vs
      else
        let vs := set_descriptor None None (delete_descriptor vs) in
        set_env (env_DeleteFile new_manifest_file (vs_env vs)).2 vs in
    Some (s, edit, vs).

(** ** [Recover] *)

Definition ReuseManifest (dscname dscbase : Slice) (vs : VersionSet) : option (bool * VersionSet) :=
  if negb reuse_logs then Some (false, vs)
  else
    match ParseFileName dscbase with
    | Some (manifest_number, kDescriptorFile) =>
        let '(s, manifest_size, w) := GetFileSize dscname (vs_env vs) in
        let vs := set_env w vs in
        if negb (ok s) || (TargetFileSize max_file_size <=? manifest_size) then Some (false, vs)
        else
          match descriptor_file_ vs, descriptor_log_ vs with
          | None, None =>
              let '(r, h, w) := env_NewAppendableFile dscname (vs_env vs) in
              let vs := set_env w vs in
              if negb (ok r) then Some (false, vs)
              else
                let n := vs_numbers vs in
                Some (true, set_numbers (MkNumbers (nm_next_file n) manifest_number (nm_last_sequence n) (nm_log n) (nm_prev_log n))
                              (set_descriptor (Some h) (Some (manifest_size mod kBlockSize)) vs))
          | _, _ => None
          end
    | _ => Some (false, vs)
    end.

(** What the loop over the manifest keeps: the status, and each number with
    its [have_] flag. *)
Record RecoverState := MkRecover {
  rc_status : Status;
  rc_log : option Z;
  rc_prev_log : option Z;
  rc_next_file : option Z;
  rc_last_sequence : option Z;
  rc_builder : Builder;
  rc_set : VersionSet;
}.

Definition keep_number (has : bool) (x : Z) (old : option Z) : option Z := if has then Some x else old.

Definition recover_record (record : Slice) (st : RecoverState) : option RecoverState :=
  let '(s, edit) := DecodeFrom VersionEdit_new record in
  let s :=
    if ok s && has_comparator_ edit && negb (bool_decide (comparator_ edit = ComparatorName ucmp))
    then Status_InvalidArgument (comparator_ edit ++ str " does not match existing comparator ") (ComparatorName ucmp) else s in
  '(b, vs) ← (if ok s then Builder_Apply edit (rc_builder st) (rc_set st) else Some (rc_builder st, rc_set st));
  Some (MkRecover s (keep_number (has_log_number_ edit) (log_number_ edit) (rc_log st))
    (keep_number (has_prev_log_number_ edit) (prev_log_number_ edit) (rc_prev_log st))
    (keep_number (has_next_file_number_ edit) (next_file_number_ edit) (rc_next_file st))
    (keep_number (has_last_sequence_ edit) (last_sequence_ edit) (rc_last_sequence st)) b vs).

(** [LogReporter::Corruption] keeps the first report. *)
Definition reported (r : Reader (Z * W)) (s : Status) : Status :=
  match s, reports_ r with None, (_, e) :: _ => e | _, _ => s end.

Definition set_status (s : Status) (st : RecoverState) : RecoverState :=
  MkRecover s (rc_log st) (rc_prev_log st) (rc_next_file st) (rc_last_sequence st) (rc_builder st) (rc_set st).

(** [rounds] bounds the physical records of a record; the environment is
    inside the reader. *)
Fixpoint recover_loop (n rounds : nat) (r : Reader (Z * W)) (st : RecoverState) : option (Reader (Z * W) * RecoverState) :=
  match n with
  | O => None
  | S n =>
      '(more, record, r) ← ReadRecord addr rounds r;
      let s := reported r (rc_status st) in
      let st := set_status s st in
      if more && ok s then st ← recover_record record st; recover_loop n rounds r st
      else Some (r, st)
  end.

(** The checks after the loop. *)
Definition check_numbers (st : RecoverState) : RecoverState :=
  if ok (rc_status st) then
    let s :=
      match rc_next_file st, rc_log st, rc_last_sequence st with
      | None, _, _ => Status_Corruption "no meta-nextfile entry in descriptor" []
      | _, None, _ => Status_Corruption "no meta-lognumber entry in descriptor" []
      | _, _, None => Status_Corruption "no last-sequence-number entry in descriptor" []
      | _, _, _ => rc_status st
      end in
    let vs := MarkFileNumberUsed (default 0 (rc_log st)) (MarkFileNumberUsed (default 0 (rc_prev_log st)) (rc_set st)) in
    MkRecover s (rc_log st) (rc_prev_log st) (rc_next_file st) (rc_last_sequence st) (rc_builder st) vs
  else st.

(** The recovered version and the manifest; the flag is [*save_manifest]. *)
Definition install_recovered (dscname current : Slice) (save_manifest : bool) (st : RecoverState) : option (bool * VersionSet) :=
  let '(v, vs) := new_version (rc_set st) in
  '(files, vs) ← SaveTo (rc_builder st) vs;
  vs ← AppendVersion (MkNode v 0 (Finalize (MkVersion files None (-1) (double_of (-1)) (-1)))) vs;
  let next_file := default 0 (rc_next_file st) in
  let vs := set_numbers (MkNumbers (u64 (next_file + 1)) next_file (default 0 (rc_last_sequence st)) (default 0 (rc_log st)) (default 0 (rc_prev_log st))) vs in
  '(reused, vs) ← ReuseManifest dscname current vs;
  Some (if reused : bool then save_manifest else true, vs).

Definition Recover (rounds : nat) (save_manifest : bool) (vs : VersionSet) : option (Status * bool * VersionSet) :=
  '(s, current, w) ← ReadFileToString rounds (CurrentFileName dbname_) (vs_env vs);
  let vs := set_env w vs in
  if negb (ok s) then Some (s, save_manifest, vs)
  else if negb (bool_decide (list.last current = Some 10)) then
    Some (Status_Corruption "CURRENT file does not end with newline" [], save_manifest, vs)
  else
    let current := take (length current - 1) current in
    let dscname := dbname_ ++ str "/" ++ current in
    let '(s, file, w) := NewSequentialFile dscname (vs_env vs) in
    let vs := set_env w vs in
    if negb (ok s) then
      Some (if IsNotFound s then Status_Corruption "CURRENT points to a non-existent file" (Status_ToString (fun _ => []) s) else s, save_manifest, vs)
    else
      c ← current_ vs;
      '(b, vs) ← Builder_new c vs;
      '(r, st) ← recover_loop rounds rounds (Reader_new (file, vs_env vs) true true 0) (MkRecover s None None None None b vs);
      let vs := set_env (delete_sequential file (file_ r).2) (rc_set st) in
      let st := check_numbers (MkRecover (rc_status st) (rc_log st) (rc_prev_log st) (rc_next_file st) (rc_last_sequence st) (rc_builder st) vs) in
      '(save_manifest, vs) ← (if ok (rc_status st) then install_recovered dscname current save_manifest st else Some (save_manifest, rc_set st));
      vs ← Builder_delete (rc_builder st) vs;
      Some (rc_status st, save_manifest, vs).

(** ** Queries *)

Definition NumLevelFiles (level : Z) (vs : VersionSet) : option Z := v ← current_version vs; NumFiles v level.

Definition NumLevelBytes (level : Z) (vs : VersionSet) : option Z := v ← current_version vs; files ← level_files v level; Some (TotalFileSize files).

Definition AddLiveFiles (live : gset Z) (vs : VersionSet) : gset Z :=
  foldl (fun live n => foldl (fun live fs => foldl (fun live (f : File) => {[f_number f]} ∪ live) live fs) live (files_ (node_version n))) live (vs_versions vs).

Definition overlap_bytes (v : Version) (level : Z) (f : File) (result : Z) : option Z :=
  overlaps ← GetOverlappingInputs ucmp (level + 1) (Some (f_smallest f)) (Some (f_largest f)) v;
  let sum := TotalFileSize overlaps in Some (if result <? sum then sum else result).

Definition MaxNextLevelOverlappingBytes (vs : VersionSet) : option Z :=
  v ← current_version vs;
  ofold (fun level result => files ← level_files v level; ofold (overlap_bytes v level) files result) (seqZ 1 (kNumLevels - 2)) 0.

Definition NeedsCompaction (vs : VersionSet) : option bool :=
  v ← current_version vs; Some (SFleb (double_of 1) (compaction_score_ v) || negb (bool_decide (file_to_compact_ v = None))).

(** ** Compactions

    With the address of the input version, of which a reference is taken. *)

Definition take_input (c : option Compaction) (ptrs : list Slice) (vs : VersionSet) : option (option (Compaction * nat) * VersionSet) :=
  let vs := set_pointers ptrs vs in
  match c with
  | None => Some (None, vs)
  | Some c => id ← current_ vs; vs ← Version_Ref id vs; Some (Some (c, id), vs)
  end.

Definition VersionSet_PickCompaction (vs : VersionSet) : option (option (Compaction * nat) * VersionSet) :=
  v ← current_version vs; '(c, ptrs) ← PickCompaction ucmp max_file_size v (compact_pointer_ vs); take_input c ptrs vs.

Definition VersionSet_CompactRange (level : Z) (begin end_ : option Slice) (vs : VersionSet) : option (option (Compaction * nat) * VersionSet) :=
  v ← current_version vs; '(c, ptrs) ← CompactRange ucmp max_file_size level begin end_ v (compact_pointer_ vs); take_input c ptrs vs.

(** [ReleaseInputs] and the destructor of [Compaction]: the address is
    [input_version_]. *)
Definition ReleaseInputs (input : option nat) (vs : VersionSet) : option (option nat * VersionSet) :=
  match input with Some id => vs ← Version_Unref id vs; Some (None, vs) | None => Some (None, vs) end.

(** [UpdateStats] and [RecordReadSample] of a version in the list. *)
Definition on_version (f : Version -> gmap nat Z -> option (bool * Version * gmap nat Z)) (id : nat) (vs : VersionSet) : option (bool * VersionSet) :=
  n ← find_node id vs;
  '(b, v, seeks) ← f (node_version n) (hp_seeks (vs_heap vs));
  let ns := (fun m => if (node_id m =? id)%nat then MkNode id (node_refs m) v else m) <$> vs_versions vs in
  Some (b, set_file_heap (MkHeap (hp_refs (vs_heap vs)) seeks (hp_next (vs_heap vs))) (set_versions ns (current_ vs) vs)).

End VersionSet.

Arguments VersionSet W : clear implicits.
