(* ===== verification/LdbVersionSetThms.v ===== *)
(** * leveldb: the version set keeps its versions and its files

    Reference counts of the file objects, the builder against a catalogue of
    file descriptions, and [LogAndApply] on any environment. *)

From Stdlib Require Import SpecFloat.
From stdpp Require Import sorting.
From S2P Require Import Prelude.
From S2P Require Import LdbSlice.
From S2P Require Import LdbCoding.
From S2P Require Import LdbFormat.
From S2P Require Import LdbFormatThms.
From S2P Require Import LdbLog.
From S2P Require Import LdbLogThms.
From S2P Require Import LdbVersionEdit.
From S2P Require Import LdbVersionEditThms.
From S2P Require Import LdbFilename.
From S2P Require Import LdbFilenameThms.
From S2P Require Import LdbVersion.
From S2P Require Import LdbVersionThms.
From S2P Require Import LdbVersionSet.

(** ** Loops *)

Lemma ofold_app {A S} (f : A -> S -> option S) l1 l2 s : ofold f (l1 ++ l2) s = (s' ← ofold f l1 s; ofold f l2 s').
Proof. revert s. induction l1 as [|x l1 IH]; intros s; [done|]. simpl. destruct (f x s) as [s'|]; [apply IH|done]. Qed.

Lemma sublist_in {A} (l l' : list A) x : l' `sublist_of` l -> x ∈ l' -> x ∈ l.
Proof. induction 1; set_solver. Qed.

Lemma sublist_map {A B} (f : A -> B) (l l' : list A) : l' `sublist_of` l -> (f <$> l') `sublist_of` (f <$> l).
Proof. induction 1; simpl; by constructor. Qed.

(** ** Reference counts *)

Local Abbreviation count := (count_occ Nat.eq_dec).

(** [L] lists the owners: an address once for every reference. *)
Record heap_ok (L : list nat) (h : Heap) : Prop := {
  ho_refs a : hp_refs h !! a = if (count L a =? 0)%nat then None else Some (Z.of_nat (count L a));
  ho_seeks a : is_Some (hp_seeks h !! a) <-> a ∈ L;
  ho_next a : a ∈ L -> (a < hp_next h)%nat;
}.

Lemma count_pos L a : a ∈ L <-> (0 < count L a)%nat.
Proof. rewrite list_elem_of_In, (count_occ_In Nat.eq_dec). lia. Qed.

#[export] Instance heap_ok_perm : Proper ((≡ₚ) ==> eq ==> iff) heap_ok.
Proof.
  assert (∀ L L' h, L ≡ₚ L' -> heap_ok L h -> heap_ok L' h) as H.
  { intros L L' h HL [H1 H2 H3]. pose proof (proj1 (Permutation_count_occ Nat.eq_dec L L') HL) as Hc. split; intros a.
    - by rewrite <- Hc.
    - by rewrite <- HL.
    - rewrite <- HL. apply H3. }
  intros L L' HL h h' <-. split; apply H; [done|by symmetry].
Qed.

Lemma file_ref_ok L h f : heap_ok L h -> file_addr f ∈ L -> ∃ h', file_ref f h = Some h' ∧ heap_ok (file_addr f :: L) h' ∧ hp_next h' = hp_next h.
Proof.
  intros [H1 H2 H3] Hf. pose proof (proj1 (count_pos _ _) Hf) as Hc. unfold file_ref. rewrite H1. destruct (Nat.eqb_spec (count L (file_addr f)) 0); [lia|].
  eexists. split; [done|]. split; [|done]. split; simpl; intros a.
  - destruct (Nat.eq_dec (file_addr f) a) as [<-|Hne].
    + rewrite lookup_insert_eq. f_equal. lia.
    + rewrite lookup_insert_ne by done. by rewrite H1.
  - rewrite H2. set_solver.
  - intros [->|?]%elem_of_cons; by apply H3.
Qed.

Lemma file_unref_ok L h f : heap_ok (file_addr f :: L) h -> ∃ h', file_unref f h = Some h' ∧ heap_ok L h' ∧ hp_next h' = hp_next h.
Proof.
  intros [H1 H2 H3]. unfold file_unref. rewrite H1. simpl. destruct (Nat.eq_dec (file_addr f) (file_addr f)) as [_|]; [|done]. cbn [Nat.eqb mbind option_bind].
  eexists. split; [done|]. destruct (Z.leb_spec (Z.of_nat (S (count L (file_addr f))) - 1) 0) as [Hc|Hc]; (split; [|done]); split; simpl; intros a.
  - destruct (Nat.eq_dec (file_addr f) a) as [<-|Hne].
    + rewrite lookup_delete_eq. destruct (Nat.eqb_spec (count L (file_addr f)) 0); [done|lia].
    + rewrite lookup_delete_ne by done. rewrite H1. simpl. by destruct (Nat.eq_dec (file_addr f) a).
  - destruct (Nat.eq_dec (file_addr f) a) as [<-|Hne].
    + rewrite lookup_delete_eq, count_pos. split; [by intros []|lia].
    + rewrite lookup_delete_ne by done. rewrite H2. set_solver.
  - intros Ha. apply H3. set_solver.
  - destruct (Nat.eq_dec (file_addr f) a) as [<-|Hne].
    + rewrite lookup_insert_eq. destruct (Nat.eqb_spec (count L (file_addr f)) 0); [lia|]. f_equal. lia.
    + rewrite lookup_insert_ne by done. rewrite H1. simpl. by destruct (Nat.eq_dec (file_addr f) a).
  - rewrite H2. split; [|set_solver]. intros [->|?]%elem_of_cons; [apply count_pos; lia|done].
  - intros Ha. apply H3. set_solver.
Qed.

(** A new object with one reference. *)
Lemma heap_new L h x : heap_ok L h ->
  heap_ok (hp_next h :: L) (MkHeap (<[hp_next h := 1]> (hp_refs h)) (<[hp_next h := x]> (hp_seeks h)) (S (hp_next h))).
Proof.
  intros [H1 H2 H3]. assert (hp_next h ∉ L) as Hn by (intros Hin%H3; lia). assert (count L (hp_next h) = O) as Hc by (rewrite count_pos in Hn; lia).
  split; simpl; intros a.
  - destruct (Nat.eq_dec (hp_next h) a) as [<-|Hne]; [by rewrite lookup_insert_eq, Hc|]. rewrite lookup_insert_ne by done. apply H1.
  - destruct (Nat.eq_dec (hp_next h) a) as [<-|Hne]; [rewrite lookup_insert_eq; split; [by left|done]|]. rewrite lookup_insert_ne, H2 by done. set_solver.
  - intros [->|Ha%H3]%elem_of_cons; lia.
Qed.

Lemma heap_positive L h a r : heap_ok L h -> hp_refs h !! a = Some r -> 0 < r.
Proof. intros [H1 _ _]. rewrite H1. destruct (Nat.eqb_spec (count L a) 0); [done|]. intros [= <-]. lia. Qed.

Local Abbreviation addrs := (fmap file_addr).

Lemma unref_files L h fs : heap_ok (addrs fs ++ L) h -> ∃ h', ofold file_unref fs h = Some h' ∧ heap_ok L h' ∧ hp_next h' = hp_next h.
Proof.
  revert h. induction fs as [|f fs IH]; intros h Hh; [by exists h|]. simpl. destruct (file_unref_ok _ _ _ Hh) as (h1 & -> & H1 & N1). simpl.
  destruct (IH h1 H1) as (h2 & E & H2 & N2). exists h2. split_and!; [done|done|congruence].
Qed.

Lemma unref_levels L h (levels : list (list File)) : heap_ok (addrs (concat levels) ++ L) h ->
  ∃ h', ofold (ofold file_unref) levels h = Some h' ∧ heap_ok L h' ∧ hp_next h' = hp_next h.
Proof.
  revert h. induction levels as [|fs levels IH]; intros h Hh; [by exists h|]. simpl in *. rewrite fmap_app, <- app_assoc in Hh.
  destruct (unref_files _ _ _ Hh) as (h1 & -> & H1 & N1). destruct (IH h1 H1) as (h2 & E & H2 & N2). exists h2. split_and!; [done|done|congruence].
Qed.

(** The destructor's assertion holds. *)
Lemma unref_checked L h (levels : list (list File)) : heap_ok (addrs (concat levels) ++ L) h ->
  ofold (ofold (fun f h => r ← hp_refs h !! file_addr f; if negb (0 <? r) then None else file_unref f h)) levels h = ofold (ofold file_unref) levels h.
Proof.
  revert h. induction levels as [|fs levels IH]; intros h Hh; [done|]. simpl in *. rewrite fmap_app, <- app_assoc in Hh.
  assert (ofold (fun f h => r ← hp_refs h !! file_addr f; if negb (0 <? r) then None else file_unref f h) fs h = ofold file_unref fs h) as ->.
  { clear IH. revert h Hh. induction fs as [|f fs IH]; intros h Hh; [done|]. simpl in Hh. cbn [ofold]. destruct (file_unref_ok _ _ _ Hh) as (h1 & E1 & H1 & _).
    destruct (hp_refs h !! file_addr f) as [r|] eqn:Hr.
    - pose proof (heap_positive _ _ _ _ Hh Hr). cbn [mbind option_bind]. destruct (Z.ltb_spec 0 r); [|lia]. cbn [negb]. rewrite E1. cbn [mbind option_bind]. by apply IH.
    - unfold file_unref in E1. by rewrite Hr in E1. }
  destruct (unref_files _ _ _ Hh) as (h1 & -> & H1 & _). simpl. by apply IH.
Qed.

(** ** Versions *)

Definition node_addrs (n : Node) : list nat := addrs (concat (files_ (node_version n))).
Definition uses (ns : list Node) : list nat := concat (node_addrs <$> ns).
Local Abbreviation ids := (fmap node_id).

Definition is_node (id : nat) (n : Node) : bool := (node_id n =? id)%nat.

Lemma find_in id ns n : find (is_node id) ns = Some n -> n ∈ ns ∧ node_id n = id.
Proof. intros [H1 H2]%find_some. apply list_elem_of_In in H1. split; [done|]. by apply Nat.eqb_eq. Qed.

Lemma find_unique ns n : NoDup (ids ns) -> n ∈ ns -> find (is_node (node_id n)) ns = Some n.
Proof.
  induction ns as [|m ns IH]; [by intros _ ?%elem_of_nil|]. rewrite fmap_cons, list.NoDup_cons. intros [Hm Hns] [->|Hin]%elem_of_cons; simpl; unfold is_node at 1.
  - by rewrite Nat.eqb_refl.
  - destruct (Nat.eqb_spec (node_id m) (node_id n)) as [E|]; [|by apply IH]. exfalso. apply Hm. rewrite E. by apply list_elem_of_fmap_2.
Qed.

Lemma filter_absent id ns : id ∉ ids ns -> List.filter (fun m => negb (is_node id m)) ns = ns.
Proof.
  intros Hn. induction ns as [|m ns IH]; [done|]. rewrite fmap_cons, elem_of_cons in Hn. simpl. unfold is_node at 1.
  destruct (Nat.eqb_spec (node_id m) id); [naive_solver|]. simpl. rewrite IH; naive_solver.
Qed.

Lemma uses_take ns n : NoDup (ids ns) -> n ∈ ns -> uses ns ≡ₚ node_addrs n ++ uses (List.filter (fun m => negb (is_node (node_id n) m)) ns).
Proof.
  induction ns as [|m ns IH]; [by intros _ ?%elem_of_nil|]. rewrite fmap_cons, list.NoDup_cons. intros [Hm Hns] [->|Hin]%elem_of_cons; simpl; unfold is_node at 1.
  - rewrite Nat.eqb_refl. simpl. by rewrite filter_absent.
  - destruct (Nat.eqb_spec (node_id m) (node_id n)) as [E|]; [exfalso; apply Hm; rewrite E; by apply list_elem_of_fmap_2|].
    simpl. unfold uses in *. simpl. rewrite (IH Hns Hin). rewrite !app_assoc. by rewrite (Permutation_app_comm (node_addrs m)).
Qed.

Lemma ids_set_refs id r ns : ids (set_node_refs id r ns) = ids ns.
Proof. unfold set_node_refs. rewrite <- list_fmap_compose. apply list_fmap_ext. intros i n _. simpl. by destruct (Nat.eqb_spec (node_id n) id). Qed.

Lemma uses_set_refs id r ns : uses (set_node_refs id r ns) = uses ns.
Proof. unfold uses, set_node_refs. rewrite <- list_fmap_compose. f_equal. apply list_fmap_ext. intros i n _. simpl. by destruct (Nat.eqb_spec (node_id n) id). Qed.

Lemma find_set_refs id r ns c : find (is_node c) (set_node_refs id r ns) =
  (fun n => if (node_id n =? id)%nat then MkNode id r (node_version n) else n) <$> find (is_node c) ns.
Proof.
  induction ns as [|n ns IH]; [done|]. cbn [set_node_refs fmap list_fmap find]. fold (set_node_refs id r ns).
  assert (is_node c (if (node_id n =? id)%nat then MkNode id r (node_version n) else n) = is_node c n) as ->.
  { unfold is_node. by destruct (Nat.eqb_spec (node_id n) id) as [<-|]. }
  by destruct (is_node c n).
Qed.

Lemma find_filter id ns c : c ≠ id -> find (is_node c) (List.filter (fun m => negb (is_node id m)) ns) = find (is_node c) ns.
Proof.
  intros Hc. induction ns as [|n ns IH]; [done|]. cbn [List.filter find]. destruct (is_node id n) eqn:E; cbn [negb].
  - apply Nat.eqb_eq in E. destruct (is_node c n) eqn:Ec; [apply Nat.eqb_eq in Ec; congruence|done].
  - cbn [find]. by rewrite IH.
Qed.

Section Refs.

Context {W : Type}.
Implicit Types vs : VersionSet W.

(** What holds of the list and the heap between operations; [extra] are
    references held elsewhere. *)
Record vers_ok (extra : list nat) vs : Prop := {
  vo_heap : heap_ok (uses (vs_versions vs) ++ extra) (vs_heap vs);
  vo_ids : NoDup (ids (vs_versions vs));
  vo_old n : n ∈ vs_versions vs -> (node_id n < hp_next (vs_heap vs))%nat;
  vo_refs n : n ∈ vs_versions vs -> 1 <= node_refs n;
}.

(** The members an operation on references leaves alone. *)
Record same_rest vs vs' : Prop := {
  sr_env : vs_env vs' = vs_env vs;
  sr_numbers : vs_numbers vs' = vs_numbers vs;
  sr_file : descriptor_file_ vs' = descriptor_file_ vs;
  sr_log : descriptor_log_ vs' = descriptor_log_ vs;
  sr_current : current_ vs' = current_ vs;
  sr_pointers : compact_pointer_ vs' = compact_pointer_ vs;
  sr_next : hp_next (vs_heap vs') = hp_next (vs_heap vs);
}.

#[export] Instance same_rest_trans : Transitive same_rest.
Proof. intros a b c [] []. split; congruence. Qed.

#[export] Instance same_rest_refl : Reflexive same_rest.
Proof. by split. Qed.

Lemma Version_Ref_ok extra vs id n : vers_ok extra vs -> find_node id vs = Some n ->
  ∃ vs', Version_Ref id vs = Some vs' ∧ vers_ok extra vs' ∧ same_rest vs vs' ∧ vs_heap vs' = vs_heap vs ∧
    vs_versions vs' = set_node_refs id (node_refs n + 1) (vs_versions vs).
Proof.
  intros [H1 H2 H3 H4] Hn. unfold Version_Ref. rewrite Hn. eexists. split; [done|]. split_and!; [|done..]. pose proof (find_in _ _ _ Hn) as [Hin _]. pose proof (H4 n Hin). split; simpl.
  - by rewrite uses_set_refs.
  - by rewrite ids_set_refs.
  - intros m Hm. apply (list_elem_of_fmap_2 node_id) in Hm. rewrite ids_set_refs in Hm. apply list_elem_of_fmap in Hm as (m' & -> & Hm'). by apply H3.
  - intros m (m' & -> & Hm')%list_elem_of_fmap. destruct (Nat.eqb_spec (node_id m') id); [simpl; lia|by apply H4].
Qed.

(** A version that is not in the list. *)
Lemma Version_delete_ok extra vs n : vers_ok (node_addrs n ++ extra) vs -> node_id n ∉ ids (vs_versions vs) -> node_refs n = 0 ->
  ∃ vs', Version_delete n vs = Some vs' ∧ vers_ok extra vs' ∧ same_rest vs vs' ∧ vs_versions vs' = vs_versions vs.
Proof.
  intros [H1 H2 H3 H4] Hn Hr. unfold Version_delete. rewrite Hr. cbn [Z.eqb negb].
  assert (heap_ok (node_addrs n ++ uses (vs_versions vs) ++ extra) (vs_heap vs)) as Hh.
  { by rewrite app_assoc, (Permutation_app_comm (node_addrs n)), <- app_assoc. }
  rewrite (unref_checked _ _ _ Hh). destruct (unref_levels _ _ _ Hh) as (h & -> & Hh' & Hx). cbn [mbind option_bind]. eexists. split; [done|].
  change (List.filter _ _) with (List.filter (fun m => negb (is_node (node_id n) m)) (vs_versions vs)). rewrite filter_absent by done.
  split_and!; [|by split|done]. split; simpl; [done|done|by rewrite Hx|done].
Qed.

Lemma Version_Unref_ok extra vs id n : vers_ok extra vs -> find_node id vs = Some n ->
  ∃ vs', Version_Unref id vs = Some vs' ∧ vers_ok extra vs' ∧ same_rest vs vs' ∧
    vs_versions vs' = if node_refs n =? 1 then List.filter (fun m => negb (is_node id m)) (vs_versions vs) else set_node_refs id (node_refs n - 1) (vs_versions vs).
Proof.
  intros [H1 H2 H3 H4] Hn. pose proof (find_in _ _ _ Hn) as [Hin Hid]. pose proof (H4 n Hin) as Hr. unfold Version_Unref. rewrite Hn. cbn [mbind option_bind].
  rewrite (proj2 (Z.leb_le _ _)) by lia. cbn [negb]. destruct (Z.eqb_spec (node_refs n) 1) as [E|E]; cycle 1.
  { rewrite (proj2 (Z.eqb_neq _ _)) by lia. eexists. split; [done|]. split_and!; [|by split|done]. split; simpl.
    - by rewrite uses_set_refs.
    - by rewrite ids_set_refs.
    - intros m Hm. apply (list_elem_of_fmap_2 node_id) in Hm. rewrite ids_set_refs in Hm. apply list_elem_of_fmap in Hm as (m' & -> & Hm'). by apply H3.
    - intros m (m' & -> & Hm')%list_elem_of_fmap. destruct (Nat.eqb_spec (node_id m') id); [simpl; lia|by apply H4]. }
  rewrite (proj2 (Z.eqb_eq (node_refs n - 1) 0)) by lia. unfold Version_delete. cbn [node_refs node_version node_id Z.eqb negb vs_heap set_versions].
  assert (heap_ok (node_addrs n ++ uses (List.filter (fun m => negb (is_node id m)) (vs_versions vs)) ++ extra) (vs_heap vs)) as Hh.
  { rewrite app_assoc. rewrite <- Hid, <- uses_take by done. done. }
  rewrite (unref_checked _ _ _ Hh). destruct (unref_levels _ _ _ Hh) as (h & -> & Hh' & Hx). cbn [mbind option_bind]. eexists. split; [done|].
  assert (List.filter (fun m => negb (node_id m =? id)%nat) (set_node_refs id (node_refs n - 1) (vs_versions vs)) = List.filter (fun m => negb (is_node id m)) (vs_versions vs)) as EF.
  { clear. induction (vs_versions vs) as [|m ns IH]; [done|]. simpl. unfold is_node at 1. destruct (Nat.eqb_spec (node_id m) id) as [E|E]; simpl.
    - by rewrite Nat.eqb_refl.
    - destruct (Nat.eqb_spec (node_id m) id); [done|]. simpl. by rewrite IH. }
  split_and!; [|by split|done].
  assert (∀ m, m ∈ List.filter (fun m => negb (is_node id m)) (vs_versions vs) -> m ∈ vs_versions vs) as Hsub by (intros m; rewrite !list_elem_of_In, filter_In; tauto).
  split; simpl; rewrite EF.
  - done.
  - clear -H2. induction (vs_versions vs) as [|m ns IH]; [constructor|]. rewrite fmap_cons, list.NoDup_cons in H2. destruct H2 as [Hm Hns]. simpl.
    destruct (negb (is_node id m)); [|by apply IH]. rewrite fmap_cons, list.NoDup_cons. split; [|by apply IH]. intros (p & Ep & Hp)%list_elem_of_fmap.
    apply Hm. rewrite Ep. apply list_elem_of_fmap_2. apply list_elem_of_In in Hp. apply filter_In in Hp as [Hp _]. by apply list_elem_of_In.
  - intros m Hm. rewrite Hx. auto.
  - auto.
Qed.

End Refs.

(** ** The order of the builder *)

(** The description of a file, which the manifest keeps. *)
Definition Info : Type := Z * Z * Slice * Slice.
Definition finfo (f : FileMetaData) : Info := (file_number f, file_size f, smallest f, largest f).
Abbreviation Catalog := (list (gset Info)).
Definition i_number (i : Info) : Z := i.1.1.1.
Definition i_smallest (i : Info) : Slice := i.1.2.
Definition i_largest (i : Info) : Slice := i.2.
Local Abbreviation infos := (fmap (fun f => finfo (file_meta f))).
Local Abbreviation numbers := (fmap (fun f => file_number (file_meta f))).

Section Build.

Context (ucmp : Comparator) (okp : Slice -> Prop) `{!ComparatorLaws ucmp okp} (Hbytes : ∀ k, okp k -> Forall is_u8 k).
Local Abbreviation icmp := (InternalKeyComparator ucmp).
Local Abbreviation icompare := (InternalCompare ucmp).
Local Abbreviation iok := (ikey_ok okp).

Definition before (f g : File) : Prop := BySmallestKey ucmp f g = true.

Local Lemma itotal : TotalCmp icompare iok.
Proof using ComparatorLaws0 Hbytes. exact (cmp_total (ComparatorLaws := internal_laws ucmp okp Hbytes)). Qed.

Lemma before_spec f g : before f g <-> icompare (f_smallest f) (f_smallest g) < 0 ∨ (icompare (f_smallest f) (f_smallest g) = 0 ∧ f_number f < f_number g).
Proof.
  unfold before, BySmallestKey. change (Compare icmp) with icompare. destruct (Z.eqb_spec (icompare (f_smallest f) (f_smallest g)) 0) as [E|E]; cbn [negb].
  - rewrite Z.ltb_lt. lia.
  - rewrite Z.ltb_lt. lia.
Qed.

Lemma before_le f g : before f g -> icompare (f_smallest f) (f_smallest g) <= 0.
Proof. rewrite before_spec. lia. Qed.

Lemma before_trans f g h : iok (f_smallest f) -> iok (f_smallest g) -> iok (f_smallest h) -> before f g -> before g h -> before f h.
Proof using ComparatorLaws0 Hbytes.
  pose proof itotal as Ht. intros Hf Hg Hh. rewrite !before_spec. intros [H1|[H1 N1]] [H2|[H2 N2]].
  - left. by apply (cmp_lt_trans icompare iok _ (f_smallest g)).
  - left. apply (cmp_lt_le icompare iok _ (f_smallest g)); [done..|lia].
  - left. apply (cmp_le_lt icompare iok _ (f_smallest g)); [done..|lia|done].
  - destruct (Z.eq_dec (icompare (f_smallest f) (f_smallest h)) 0); [right; lia|left].
    assert (icompare (f_smallest f) (f_smallest h) <= 0) by (apply (cmp_le_trans _ (f_smallest g) _ Hf Hg Hh); lia). lia.
Qed.

Lemma before_irrefl f : iok (f_smallest f) -> ~ before f f.
Proof using ComparatorLaws0 Hbytes. pose proof itotal. intros Hf. rewrite before_spec, (cmp_refl icompare iok) by done. lia. Qed.

Lemma before_total f g : iok (f_smallest f) -> iok (f_smallest g) -> f_number f ≠ f_number g -> BySmallestKey ucmp f g = false -> before g f.
Proof using ComparatorLaws0 Hbytes.
  pose proof itotal. intros Hf Hg Hn E. assert (~ before f g) as Hb by (unfold before; by rewrite E). rewrite before_spec in *.
  pose proof (cmp_flip icompare iok _ _ Hg Hf). destruct (Z.lt_trichotomy (icompare (f_smallest f) (f_smallest g)) 0) as [|[E0|]]; [tauto| |tauto].
  right. split; [|lia]. by apply (cmp_eq_sym icompare iok).
Qed.

Local Abbreviation sorted := (StronglySorted before).

Lemma fileset_insert_ok f s : iok (f_smallest f) -> Forall (fun g => iok (f_smallest g)) s -> f_number f ∉ numbers s -> sorted s ->
  fileset_insert ucmp f s ≡ₚ f :: s ∧ sorted (fileset_insert ucmp f s).
Proof using ComparatorLaws0 Hbytes.
  intros Hf Hs Hn Hsort. induction Hsort as [|g s Hsort IH Hg]; [repeat constructor|]. apply Forall_cons_1 in Hs as [Hgk Hs].
  rewrite fmap_cons, not_elem_of_cons in Hn. destruct Hn as [Hn Hns]. destruct (IH Hs Hns) as [IHp IHs]. cbn [fileset_insert].
  destruct (BySmallestKey ucmp f g) eqn:E1.
  - split; [done|]. constructor; [by constructor|]. constructor; [done|]. apply list.Forall_forall. intros h Hh. rewrite list.Forall_forall in Hg, Hs.
    apply (before_trans f g h); auto.
  - pose proof (before_total f g Hf Hgk Hn E1) as E2. unfold before in E2. rewrite E2. split; [rewrite IHp; constructor|].
    constructor; [done|]. rewrite IHp. constructor; done.
Qed.

(** The merge of the two sorted lists that [SaveTo] walks. *)
Fixpoint fmerge (added base : list File) : list File :=
  match added with
  | [] => base
  | f :: added => take (upper_bound ucmp f base) base ++ f :: fmerge added (drop (upper_bound ucmp f base) base)
  end.

Lemma save_level_merge level st added base s : save_level ucmp level st added base s = ofold (MaybeAddFile ucmp level st) (fmerge added base) s.
Proof.
  revert base s. induction added as [|f added IH]; intros base s; [done|]. cbn [save_level fmerge]. rewrite ofold_app. cbn [ofold].
  destruct (ofold _ (take _ _) s) as [s1|]; [|done]. cbn [mbind option_bind]. destruct (MaybeAddFile _ _ _ f s1) as [s2|]; [|done]. apply IH.
Qed.

Lemma fmerge_perm added base : fmerge added base ≡ₚ added ++ base.
Proof.
  revert base. induction added as [|f added IH]; intros base; [done|]. cbn [fmerge]. rewrite IH. rewrite <- Permutation_middle. simpl. constructor.
  rewrite app_assoc, (Permutation_app_comm _ added), <- app_assoc. by rewrite take_drop.
Qed.

Lemma upper_bound_split f base : iok (f_smallest f) -> Forall (fun g => iok (f_smallest g)) base -> f_number f ∉ numbers base -> sorted base ->
  Forall (fun g => before g f) (take (upper_bound ucmp f base) base) ∧ Forall (before f) (drop (upper_bound ucmp f base) base).
Proof using ComparatorLaws0 Hbytes.
  intros Hf Hs Hn Hsort. induction Hsort as [|g s Hsort IH Hg]; [done|]. apply Forall_cons_1 in Hs as [Hgk Hs].
  rewrite fmap_cons, not_elem_of_cons in Hn. destruct Hn as [Hn Hns]. destruct (IH Hs Hns) as [IHa IHb]. cbn [upper_bound].
  destruct (BySmallestKey ucmp f g) eqn:E1; cbn [take drop].
  - split; [constructor|]. constructor; [done|]. apply list.Forall_forall. intros h Hh. rewrite list.Forall_forall in Hg, Hs. apply (before_trans f g h); auto.
  - split; [|done]. constructor; [by apply before_total|done].
Qed.

Lemma sorted_split (l1 l2 : list File) : sorted (l1 ++ l2) <-> sorted l1 ∧ sorted l2 ∧ (∀ x y, x ∈ l1 -> y ∈ l2 -> before x y).
Proof. rewrite StronglySorted_app. naive_solver. Qed.

Lemma fmerge_sorted added base : Forall (fun g => iok (f_smallest g)) (added ++ base) -> NoDup (numbers (added ++ base)) -> sorted added -> sorted base ->
  sorted (fmerge added base).
Proof using ComparatorLaws0 Hbytes.
  revert base. induction added as [|f added IH]; intros base Hk Hn Ha Hb; [done|]. cbn [fmerge]. set (n := upper_bound ucmp f base).
  apply Forall_cons_1 in Hk as [Hf Hk]. pose proof (proj1 (Forall_app _ _ _) Hk) as [Hka Hkb]. cbn [app] in Hn. rewrite fmap_cons, list.NoDup_cons, fmap_app in Hn. destruct Hn as [Hfn Hn].
  inversion Ha as [|? ? Ha' Hfa]; subst. rewrite not_elem_of_app in Hfn. destruct (upper_bound_split f base Hf Hkb (proj2 Hfn) Hb) as [U1 U2]. fold n in U1, U2.
  pose proof Hb as Hb'. rewrite <- (take_drop n base), sorted_split in Hb'. destruct Hb' as (B1 & B2 & B3).
  assert (fmerge added (drop n base) ≡ₚ added ++ drop n base) as Hp by apply fmerge_perm. rewrite list.Forall_forall in U1, U2, Hfa, Hka, Hkb.
  assert (∀ x, x ∈ take n base -> x ∈ base) as Ht by (intros x; apply list_elem_of_take_1 || (rewrite <- (take_drop n base) at 2; set_solver)).
  rewrite sorted_split. split_and!; [done| |].
  - constructor.
    + apply IH; [|rewrite fmap_app| |done]; [apply Forall_app; split; [by apply list.Forall_forall|apply Forall_drop; by apply list.Forall_forall]| |done].
      apply list.NoDup_app. apply list.NoDup_app in Hn as (N1 & N2 & N3). split_and!; [done| |].
      * intros x Hx Hx'. apply (N2 x Hx). rewrite fmap_drop in Hx'. by apply (subseteq_drop n).
      * rewrite fmap_drop. apply (sublist_NoDup _ (numbers base)); [done|apply sublist_drop].
    + rewrite Hp. apply list.Forall_forall. intros x [Hx|Hx]%elem_of_app; auto.
  - intros x y Hx [->|Hy]%elem_of_cons; [auto|]. rewrite Hp in Hy. apply elem_of_app in Hy as [Hy|Hy]; [|auto]. apply (before_trans x f y); auto.
Qed.

(** ** Files that do not overlap *)

Record info_ok (i : Info) : Prop := {
  io_small : iok (i_smallest i);
  io_large : iok (i_largest i);
  io_le : icompare (i_smallest i) (i_largest i) <= 0;
  io_parse : is_Some (ParseInternalKey (i_largest i));
}.

Definition apart (A : gset Info) : Prop :=
  ∀ i j, i ∈ A -> j ∈ A -> i ≠ j -> icompare (i_largest i) (i_smallest j) < 0 ∨ icompare (i_largest j) (i_smallest i) < 0.

Lemma before_apart f g : info_ok (finfo (file_meta f)) -> info_ok (finfo (file_meta g)) -> before f g ->
  icompare (f_largest f) (f_smallest g) < 0 ∨ icompare (f_largest g) (f_smallest f) < 0 -> icompare (f_largest f) (f_smallest g) < 0.
Proof using ComparatorLaws0 Hbytes.
  pose proof itotal as Ht. intros [F1 F2 F3 _] [G1 G2 G3 _] Hb%before_le [|H]; [done|]. cbn in *. exfalso.
  assert (icompare (f_largest g) (f_smallest g) < 0) as Hlt by by apply (cmp_lt_le icompare iok _ (f_smallest f)).
  apply (cmp_flip_le icompare iok) in G3; [|done..]. lia.
Qed.

Lemma sorted_pair (R : list File) i j f g : sorted R -> (i < j)%nat -> R !! i = Some f -> R !! j = Some g -> before f g.
Proof.
  intros Hs Hij Hi Hj. rewrite <- (take_drop (S i) R), sorted_split in Hs. destruct Hs as (_ & _ & H). apply H.
  - apply (list_elem_of_lookup_2 _ i). by rewrite lookup_take_lt by lia.
  - apply (list_elem_of_lookup_2 _ (j - S i)). rewrite lookup_drop. by replace (S i + (j - S i))%nat with j by lia.
Qed.

(** The files of a level of a catalogue. *)
Record lists (R : list File) (A : gset Info) : Prop := {
  ls_sorted : sorted R;
  ls_infos i : i ∈ infos R <-> i ∈ A;
  ls_numbers : NoDup (numbers R);
}.

Lemma lists_apart R A i j f g : lists R A -> apart A -> (∀ x, x ∈ A -> info_ok x) -> (i < j)%nat -> R !! i = Some f -> R !! j = Some g ->
  icompare (f_largest f) (f_smallest g) < 0.
Proof using ComparatorLaws0 Hbytes.
  intros [R1 R2 R3] Ha Hok Hij Hi Hj.
  assert (finfo (file_meta f) ∈ A) as Hf by (apply R2; apply (list_elem_of_fmap_2 (fun f => finfo (file_meta f))); by eapply list_elem_of_lookup_2).
  assert (finfo (file_meta g) ∈ A) as Hg by (apply R2; apply (list_elem_of_fmap_2 (fun f => finfo (file_meta f))); by eapply list_elem_of_lookup_2).
  apply before_apart; [by apply Hok..|by apply (sorted_pair R i j)|]. apply (Ha _ _ Hf Hg). intros E.
  assert (i = j); [|lia]. apply (NoDup_lookup (numbers R) i j (f_number f)); [done|by rewrite list_lookup_fmap, Hi|].
  rewrite list_lookup_fmap, Hj. simpl. f_equal. symmetry. exact (f_equal i_number E).
Qed.

Lemma no_overlap_lookup R : (∀ i f g, R !! i = Some f -> R !! S i = Some g -> icompare (f_largest f) (f_smallest g) < 0) -> no_overlap ucmp R = true.
Proof.
  induction R as [|f [|g R] IH]; intros H; [done..|]. cbn [no_overlap] in *. apply andb_true_iff. split; [apply Z.ltb_lt; by apply (H 0%nat)|].
  apply IH. intros i a b Ha Hb. by apply (H (S i)).
Qed.

Lemma no_overlap_last acc g f rest : no_overlap ucmp (acc ++ f :: rest) = true -> list.last acc = Some g -> icompare (f_largest g) (f_smallest f) < 0.
Proof.
  induction acc as [|a acc IH]; [done|]. intros H Hl. destruct acc as [|b acc].
  - injection Hl as <-. cbn in H. apply andb_true_iff in H as [H _]. by apply Z.ltb_lt.
  - apply IH; [|done]. change ((a :: b :: acc) ++ f :: rest) with (a :: b :: (acc ++ f :: rest)) in H. cbn [no_overlap] in H. by apply andb_true_iff in H as [_ H].
Qed.

(** ** [SaveTo] *)

Definition kept (st : LevelState) (files : list File) : list File := List.filter (fun f => negb (bool_decide (f_number f ∈ deleted_numbers st))) files.

Lemma maybe_add_all level st files acc h L : heap_ok L h -> (∀ f, f ∈ files -> file_addr f ∈ L) ->
  (0 < level -> no_overlap ucmp (acc ++ kept st files) = true) ->
  ∃ h', ofold (MaybeAddFile ucmp level st) files (acc, h) = Some (acc ++ kept st files, h') ∧ heap_ok (addrs (kept st files) ++ L) h' ∧ hp_next h' = hp_next h.
Proof.
  revert acc h L. induction files as [|f files IH]; intros acc h L Hh Hin Hno; [exists h; by rewrite app_nil_r|]. cbn [ofold MaybeAddFile kept List.filter] in *.
  destruct (bool_decide (f_number f ∈ deleted_numbers st)) eqn:Hd; cbn [negb] in *.
  - cbn [mbind option_bind]. apply IH; [done| |done]. intros g Hg. apply Hin. by right.
  - match goal with |- context [(0 <? level) && ?b] => assert ((0 <? level) && b = false) as -> end.
    { destruct (Z.ltb_spec 0 level) as [Hl|]; [|done]. specialize (Hno Hl). simpl. destruct (list.last acc) as [g|] eqn:El; [|done].
      change (Compare icmp) with icompare. pose proof (no_overlap_last _ _ _ _ Hno El). apply Z.leb_gt. lia. }
    destruct (file_ref_ok _ _ f Hh) as (h1 & -> & H1 & N1); [apply Hin; by left|]. cbn [mbind option_bind].
    destruct (IH (acc ++ [f]) h1 (file_addr f :: L) H1) as (h2 & E2 & H2 & N2).
    + intros g Hg. right. apply Hin. by right.
    + intros Hl. rewrite <- app_assoc. by apply Hno.
    + exists h2. rewrite E2, <- app_assoc. split_and!; [done| |congruence]. by rewrite fmap_cons, <- app_comm_cons, Permutation_middle.
Qed.

(** One level of the builder: [B] are the files of the base, [A] what the
    level lists after the edits. *)
Record level_builds (B : list File) (st : LevelState) (A : gset Info) : Prop := {
  lb_base : sorted B;
  lb_added : sorted (added_files st);
  lb_keys : Forall (fun f => iok (f_smallest f)) (added_files st ++ B);
  lb_numbers : NoDup (numbers (added_files st ++ B));
  lb_infos i : i ∈ A <-> i ∈ infos (added_files st ++ B) ∧ i_number i ∉ deleted_numbers st;
}.

Lemma in_infos i (R : list File) : i ∈ infos R <-> ∃ f, f ∈ R ∧ i = finfo (file_meta f).
Proof. rewrite list_elem_of_fmap. naive_solver. Qed.

Lemma in_kept st R f : f ∈ kept st R <-> f ∈ R ∧ f_number f ∉ deleted_numbers st.
Proof. unfold kept. rewrite list_elem_of_In, filter_In, negb_true_iff, bool_decide_eq_false, <- list_elem_of_In. done. Qed.

Lemma kept_sublist st R : kept st R `sublist_of` R.
Proof. induction R as [|f R IH]; [constructor|]. cbn [kept List.filter]. destruct (negb _); by constructor. Qed.

Lemma sorted_sublist R R' : R' `sublist_of` R -> sorted R -> sorted R'.
Proof.
  intros Hsub. induction Hsub as [|f R' R Hsub IH|f R' R Hsub IH]; [done|..]; intros Hs; inversion Hs as [|? ? Hs' Hf]; subst.
  - constructor; [by apply IH|]. rewrite list.Forall_forall in *. intros g Hg. apply Hf. by apply (sublist_in _ R').
  - by apply IH.
Qed.

Lemma save_level_ok level B st A h L : level_builds B st A -> heap_ok L h -> (∀ f, f ∈ added_files st ++ B -> file_addr f ∈ L) ->
  (0 < level -> apart A ∧ ∀ i, i ∈ A -> info_ok i) ->
  ∃ R h', save_level ucmp level st (added_files st) B ([], h) = Some (R, h') ∧ heap_ok (addrs R ++ L) h' ∧ hp_next h' = hp_next h ∧ lists R A ∧
    (0 < level -> no_overlap ucmp R = true).
Proof using ComparatorLaws0 Hbytes.
  intros [B1 B2 B3 B4 B5] Hh Hin Hok. set (M := fmerge (added_files st) B). assert (M ≡ₚ added_files st ++ B) as HM by apply fmerge_perm.
  assert (lists (kept st M) A) as HR.
  { split.
    - apply (sorted_sublist M); [apply kept_sublist|]. by apply fmerge_sorted.
    - intros i. rewrite B5, !in_infos. split.
      + intros (f & [Hf Hd]%in_kept & ->). rewrite HM in Hf. split; [by exists f|done].
      + intros [(f & Hf & ->) Hd]. exists f. rewrite in_kept, HM. done.
    - apply (sublist_NoDup _ (numbers M)); [by rewrite HM|]. apply sublist_map, kept_sublist. }
  assert (0 < level -> no_overlap ucmp (kept st M) = true) as Hno.
  { intros Hl. destruct (Hok Hl) as [Ha Hi]. apply no_overlap_lookup. intros i f g Hf Hg. apply (lists_apart (kept st M) A i (S i)); auto with lia. }
  rewrite save_level_merge. fold M. destruct (maybe_add_all level st M [] h L Hh) as (h' & E & Hh' & Hx).
  - intros f Hf. apply Hin. by rewrite <- HM.
  - done.
  - by exists (kept st M), h'.
Qed.

(** ** The catalogue

    What the manifest says each level holds, and what an edit does to it. *)

Definition cat_delete (p : Z * Z) (c : Catalog) : Catalog := alter (base.filter (fun i => i_number i ≠ p.2)) (Z.to_nat p.1) c.
Definition cat_add (p : Z * FileMetaData) (c : Catalog) : Catalog := alter (union {[finfo p.2]}) (Z.to_nat p.1) c.
Definition cat_apply (e : VersionEdit) (c : Catalog) : Catalog :=
  foldl (fun c p => cat_add p c) (foldl (fun c p => cat_delete p c) c (deleted_files_ e)) (new_files_ e).

Definition catalog_ok (c : Catalog) : Prop := ∀ l A, c !! l = Some A -> (∀ i, i ∈ A -> info_ok i) ∧ ((0 < l)%nat -> apart A).

(** The levels of a version list a catalogue. *)
Record represents (B : list (list File)) (c : Catalog) : Prop := {
  rp_files : length B = Z.to_nat kNumLevels;
  rp_catalog : length c = Z.to_nat kNumLevels;
  rp_lists l b A : B !! l = Some b -> c !! l = Some A -> lists b A;
}.

(** ** [Apply] *)

Local Abbreviation pair := (fun p : Z * FileMetaData => (p.1, file_number p.2)).

(** [S] holds the level and the number of every file seen so far. *)
Record builds (B : list (list File)) (levels : list LevelState) (c : Catalog) (S : gset (Z * Z)) : Prop := {
  bd_base : length B = Z.to_nat kNumLevels;
  bd_levels : length levels = Z.to_nat kNumLevels;
  bd_catalog : length c = Z.to_nat kNumLevels;
  bd_level l b st A : B !! l = Some b -> levels !! l = Some st -> c !! l = Some A -> level_builds b st A;
  bd_seen l b st f : B !! l = Some b -> levels !! l = Some st -> f ∈ added_files st ++ b -> (Z.of_nat l, f_number f) ∈ S;
}.

Definition added_all (levels : list LevelState) : list File := concat (added_files <$> levels).

Lemma update_level_ok level f (levels : list LevelState) : level_ok level -> length levels = Z.to_nat kNumLevels ->
  ∃ st, levels !! Z.to_nat level = Some st ∧ update_level level f levels = Some (<[Z.to_nat level := f st]> levels).
Proof.
  intros Hl Hlen. unfold level_ok in Hl. destruct (lookup_lt_is_Some_2 levels (Z.to_nat level)) as [st Hst]; [unfold kNumLevels in *; lia|].
  exists st. split; [done|]. unfold update_level. rewrite (proj2 (Z.ltb_ge _ _)) by lia. by rewrite Hst.
Qed.

(** A step at one level. *)
Lemma builds_step (B : list (list File)) (levels : list LevelState) (c : Catalog) (S S' : gset (Z * Z)) (level : nat) (st st' : LevelState) (g : gset Info -> gset Info) : builds B levels c S -> S ⊆ S' ->
  levels !! level = Some st ->
  (∀ b A, B !! level = Some b -> level_builds b st A -> (∀ f, f ∈ added_files st ++ b -> (Z.of_nat level, f_number f) ∈ S) ->
     level_builds b st' (g A) ∧ ∀ f, f ∈ added_files st' ++ b -> (Z.of_nat level, f_number f) ∈ S') ->
  builds B (<[level := st']> levels) (alter g level c) S'.
Proof.
  intros [H1 H2 H3 H4 H5] HS Hst Hstep. pose proof (lookup_lt_Some _ _ _ Hst) as Hlt.
  assert (∃ b A, B !! level = Some b ∧ c !! level = Some A) as (b0 & A0 & Hb0 & HA0).
  { destruct (lookup_lt_is_Some_2 B level) as [b ?]; [lia|]. destruct (lookup_lt_is_Some_2 c level) as [A ?]; [lia|]. by exists b, A. }
  destruct (Hstep b0 A0 Hb0 (H4 _ _ _ _ Hb0 Hst HA0) (fun f => H5 _ _ _ _ Hb0 Hst)) as [K1 K2].
  split; [done|by rewrite length_insert|by rewrite length_alter|..].
  - intros l b st1 A Hb Hs HA. destruct (decide (l = level)) as [->|Hne].
    + rewrite list_lookup_insert_eq in Hs by done. rewrite list_lookup_alter_eq, HA0 in HA. rewrite Hb0 in Hb.
      injection Hs as <-. injection HA as <-. injection Hb as <-. exact K1.
    + rewrite list_lookup_insert_ne in Hs by done. rewrite list_lookup_alter_ne in HA by done. by apply (H4 l).
  - intros l b st1 f Hb Hs Hf. destruct (decide (l = level)) as [->|Hne].
    + rewrite list_lookup_insert_eq in Hs by done. rewrite Hb0 in Hb. injection Hs as <-. injection Hb as <-. by apply K2.
    + rewrite list_lookup_insert_ne in Hs by done. apply HS. by apply (H5 l b st1).
Qed.

Lemma delete_file_ok (B : list (list File)) (levels : list LevelState) (c : Catalog) (S : gset (Z * Z)) (p : Z * Z) : builds B levels c S -> level_ok p.1 ->
  ∃ levels', delete_file p levels = Some levels' ∧ builds B levels' (cat_delete p c) S ∧ added_all levels' = added_all levels.
Proof.
  intros HB Hp. unfold delete_file. set (F := fun l => MkLevelState ({[p.2]} ∪ deleted_numbers l) (added_files l)).
  destruct (update_level_ok p.1 F levels Hp (bd_levels _ _ _ _ HB)) as (st & Hst & ->). eexists. split; [done|]. split.
  - apply (builds_step B levels c S S _ st); [done|done|done|]. intros b A _ [K1 K2 K3 K4 K5] Hs. split; [|done].
    split; [done..|]. intros i. cbn [F deleted_numbers added_files]. rewrite elem_of_filter, K5, not_elem_of_union, not_elem_of_singleton. tauto.
  - unfold added_all. rewrite list_fmap_insert. cbn [F added_files]. rewrite list_insert_id; [done|]. by rewrite list_lookup_fmap, Hst.
Qed.

Lemma added_all_insert levels l st f : levels !! l = Some st -> ∀ s', s' ≡ₚ f :: added_files st -> ∀ d,
  added_all (<[l := MkLevelState d s']> levels) ≡ₚ f :: added_all levels.
Proof.
  intros Hl s' Hs d. rewrite (insert_take_drop levels l) by (by eapply lookup_lt_Some).
  transitivity (f :: added_all (take l levels ++ st :: drop (S l) levels)); [|by rewrite (take_drop_middle levels l st Hl)].
  unfold added_all. rewrite !fmap_app, !concat_app. simpl. rewrite Hs, <- app_comm_cons. symmetry. apply Permutation_middle.
Qed.

Lemma add_file_ok (B : list (list File)) (levels : list LevelState) (c : Catalog) (S : gset (Z * Z)) (p : Z * FileMetaData) (h : Heap) (L : list nat) : builds B levels c S -> level_ok p.1 -> iok (smallest p.2) -> pair p ∉ S -> heap_ok (addrs (added_all levels) ++ L) h ->
  ∃ levels' h', add_file ucmp p (levels, h) = Some (levels', h') ∧ builds B levels' (cat_add p c) ({[pair p]} ∪ S) ∧
    heap_ok (addrs (added_all levels') ++ L) h' ∧ hp_next h' = Datatypes.S (hp_next h).
Proof using ComparatorLaws0 Hbytes.
  intros HB Hp Hk Hnew Hh. unfold add_file. set (f := MkFile (hp_next h) p.2). cbn [file_meta].
  set (F := fun l => MkLevelState (deleted_numbers l ∖ {[f_number f]}) (fileset_insert ucmp f (added_files l))).
  destruct (update_level_ok p.1 F levels Hp (bd_levels _ _ _ _ HB)) as (st & Hst & ->). cbn [mbind option_bind]. eexists _, _. split; [done|].
  assert (Z.of_nat (Z.to_nat p.1) = p.1) as Hz by (unfold level_ok in Hp; lia).
  assert (∀ b A, B !! Z.to_nat p.1 = Some b -> level_builds b st A -> (∀ g, g ∈ added_files st ++ b -> (Z.of_nat (Z.to_nat p.1), f_number g) ∈ S) ->
    fileset_insert ucmp f (added_files st) ≡ₚ f :: added_files st ∧ sorted (fileset_insert ucmp f (added_files st)) ∧ f_number f ∉ numbers (added_files st ++ b)) as Hins.
  { intros b A _ [K1 K2 K3 K4 K5] Hs. assert (f_number f ∉ numbers (added_files st ++ b)) as Hn.
    { intros (g & Eg & Hg)%list_elem_of_fmap. apply Hnew. rewrite <- Hz. cbn in Eg. rewrite Eg. by apply Hs. }
    split_and!; [..|done]; apply fileset_insert_ok; try done; try (by apply Forall_app in K3 as [? _]); rewrite fmap_app in Hn; set_solver. }
  split_and!.
  - apply (builds_step B levels c S _ _ st); [done|set_solver|done|]. intros b A Hb HA Hs. destruct (Hins b A Hb HA Hs) as (I1 & I2 & I3). destruct HA as [K1 K2 K3 K4 K5].
    split; [split|]; cbn [F added_files deleted_numbers].
    + done.
    + done.
    + rewrite I1. cbn [app]. by constructor.
    + rewrite I1. cbn [app]. rewrite fmap_cons, list.NoDup_cons. done.
    + intros i. rewrite elem_of_union, elem_of_singleton, K5, I1. cbn [app]. rewrite fmap_cons, elem_of_cons. split.
      * intros [->|[H1 H2]]; [split; [by left|set_solver]|split; [by right|set_solver]].
      * intros [[->|H1] H2]; [by left|right]. split; [done|]. intros Hd. apply H2. apply elem_of_difference. split; [done|]. rewrite elem_of_singleton. intros E.
        apply I3. apply in_infos in H1 as (g & Hg & ->). change (f_number g = f_number f) in E. rewrite <- E. by apply (list_elem_of_fmap_2 (fun f => file_number (file_meta f))).
    + intros g. rewrite I1. cbn [app]. rewrite elem_of_cons, elem_of_union, elem_of_singleton, Hz. intros [->|Hg]; [by left|right]. rewrite <- Hz. by apply Hs.
  - destruct (lookup_lt_is_Some_2 B (Z.to_nat p.1)) as [b Hb]; [rewrite (bd_base _ _ _ _ HB), <- (bd_levels _ _ _ _ HB); by eapply lookup_lt_Some|].
    destruct (lookup_lt_is_Some_2 c (Z.to_nat p.1)) as [A HA]; [rewrite (bd_catalog _ _ _ _ HB), <- (bd_levels _ _ _ _ HB); by eapply lookup_lt_Some|].
    destruct (Hins b A Hb (bd_level _ _ _ _ HB _ _ _ _ Hb Hst HA) (fun g => bd_seen _ _ _ _ HB _ _ _ _ Hb Hst)) as (I1 & _ & _).
    unfold F. cbv beta. rewrite (added_all_insert _ _ _ f Hst _ I1). cbn [fmap list_fmap app]. by apply (heap_new _ h).
  - done.
Qed.

Definition ptr_apply (e : VersionEdit) (ptrs : list Slice) : list Slice := foldl (fun ptrs p => <[Z.to_nat p.1 := p.2]> ptrs) ptrs (compact_pointers_ e).

(** An edit the builder can apply: its levels exist, and its files are new
    at their level. *)
Record edit_fits (S : gset (Z * Z)) (e : VersionEdit) : Prop := {
  ef_pointers : Forall (fun p => level_ok p.1) (compact_pointers_ e);
  ef_deleted : Forall (fun p => level_ok p.1) (deleted_files_ e);
  ef_new : Forall (fun p => level_ok p.1 ∧ iok (smallest p.2) ∧ pair p ∉ S) (new_files_ e);
  ef_distinct : NoDup (pair <$> new_files_ e);
}.

Definition new_pairs (e : VersionEdit) : gset (Z * Z) := list_to_set (pair <$> new_files_ e).

Lemma set_pointers_ok ps ptrs : Forall (fun p => level_ok p.1) ps ->
  ofold set_pointer ps ptrs = Some (foldl (fun ptrs p => <[Z.to_nat p.1 := p.2]> ptrs) ptrs ps).
Proof.
  intros Hp. revert ptrs. induction Hp as [|p ps Hl Hp IH]; intros ptrs; [done|]. unfold level_ok in Hl. cbn [ofold foldl].
  assert (set_pointer p ptrs = Some (<[Z.to_nat p.1 := p.2]> ptrs)) as ->; [|apply IH].
  unfold set_pointer. by rewrite (proj2 (Z.leb_le 0 p.1)), (proj2 (Z.ltb_lt p.1 kNumLevels)) by lia.
Qed.

Lemma delete_files_ok (B : list (list File)) (levels : list LevelState) (c : Catalog) (S : gset (Z * Z)) (ps : list (Z * Z)) : builds B levels c S -> Forall (fun p => level_ok p.1) ps ->
  ∃ levels', ofold delete_file ps levels = Some levels' ∧ builds B levels' (foldl (fun c p => cat_delete p c) c ps) S ∧ added_all levels' = added_all levels.
Proof.
  intros HB Hp. revert levels c HB. induction Hp as [|p ps Hl Hp IH]; intros levels c HB; [by exists levels|]. cbn [ofold foldl].
  destruct (delete_file_ok _ _ _ _ _ HB Hl) as (l1 & -> & B1 & A1). destruct (IH _ _ B1) as (l2 & E & B2 & A2). exists l2. split_and!; [done|done|congruence].
Qed.

Lemma add_files_ok (B : list (list File)) (levels : list LevelState) (c : Catalog) (S : gset (Z * Z)) (ps : list (Z * FileMetaData)) (h : Heap) (L : list nat) : builds B levels c S -> Forall (fun p => level_ok p.1 ∧ iok (smallest p.2) ∧ pair p ∉ S) ps -> NoDup (pair <$> ps) ->
  heap_ok (addrs (added_all levels) ++ L) h ->
  ∃ levels' h', ofold (add_file ucmp) ps (levels, h) = Some (levels', h') ∧ builds B levels' (foldl (fun c p => cat_add p c) c ps) (list_to_set (pair <$> ps) ∪ S) ∧
    heap_ok (addrs (added_all levels') ++ L) h' ∧ (hp_next h <= hp_next h')%nat.
Proof using ComparatorLaws0 Hbytes.
  intros HB Hp. revert levels c S h HB Hp. induction ps as [|p ps IH]; intros levels c S h HB Hp Hn Hh.
  { exists levels, h. split_and!; [done| |done|done]. cbn. by rewrite (left_id_L ∅ (∪)). }
  apply Forall_cons_1 in Hp as [(P1 & P2 & P3) Hp]. rewrite fmap_cons, list.NoDup_cons in Hn. destruct Hn as [N1 N2]. cbn [ofold foldl].
  destruct (add_file_ok _ _ _ _ _ _ _ HB P1 P2 P3 Hh) as (l1 & h1 & -> & B1 & H1 & X1). cbn [mbind option_bind].
  destruct (IH _ _ _ h1 B1) as (l2 & h2 & E & B2 & H2 & X2); [|done|done|].
  - rewrite list.Forall_forall in *. intros q Hq. destruct (Hp q Hq) as (Q1 & Q2 & Q3). split_and!; [done|done|]. rewrite elem_of_union, elem_of_singleton. intros [E|]; [|done].
    apply N1. rewrite <- E. by apply (list_elem_of_fmap_2 pair).
  - exists l2, h2. split_and!; [done| |done|lia]. rewrite fmap_cons, list_to_set_cons. by replace ({[pair p]} ∪ list_to_set (pair <$> ps) ∪ S) with (list_to_set (pair <$> ps) ∪ ({[pair p]} ∪ S)) by set_solver.
Qed.

Section Apply.

Context {W : Type}.
Implicit Types vs : VersionSet W.

Lemma Builder_Apply_ok (B : list (list File)) (b : Builder) (c : Catalog) (S : gset (Z * Z)) (e : VersionEdit) vs (L : list nat) : builds B (levels_ b) c S -> edit_fits S e -> heap_ok (addrs (added_all (levels_ b)) ++ L) (vs_heap vs) ->
  ∃ levels h, Builder_Apply ucmp e b vs = Some (MkBuilder (base_ b) levels, set_file_heap h (set_pointers (ptr_apply e (compact_pointer_ vs)) vs)) ∧
    builds B levels (cat_apply e c) (new_pairs e ∪ S) ∧ heap_ok (addrs (added_all levels) ++ L) h ∧ (hp_next (vs_heap vs) <= hp_next h)%nat.
Proof using ComparatorLaws0 Hbytes.
  intros HB [E1 E2 E3 E4] Hh. unfold Builder_Apply. rewrite set_pointers_ok by done. cbn [mbind option_bind].
  destruct (delete_files_ok _ _ _ _ _ HB E2) as (l1 & -> & B1 & A1). cbn [mbind option_bind]. rewrite <- A1 in Hh.
  destruct (add_files_ok _ _ _ _ _ _ _ B1 E3 E4 Hh) as (l2 & h2 & -> & B2 & H2 & X2). cbn [mbind option_bind]. by exists l2, h2.
Qed.

Lemma builds_new (B : list (list File)) (c : Catalog) (S : gset (Z * Z)) : represents B c -> (∀ l b f, B !! l = Some b -> f ∈ b -> iok (f_smallest f) ∧ (Z.of_nat l, f_number f) ∈ S) ->
  builds B (replicate (Z.to_nat kNumLevels) (MkLevelState ∅ [])) c S.
Proof.
  intros [R1 R2 R3] Hb. split; [done|by rewrite length_replicate|done|..].
  - intros l b st A Hl [-> _]%lookup_replicate HA. destruct (R3 l b A Hl HA) as [L1 L2 L3]. split; cbn [added_files deleted_numbers app].
    + done.
    + constructor.
    + apply list.Forall_forall. intros f Hf. by apply (Hb l b).
    + done.
    + intros i. rewrite L2. set_solver.
  - intros l b st f Hl [-> _]%lookup_replicate Hf. by apply (Hb l b).
Qed.

(** Saving the levels one after the other. *)
Lemma save_all_ok (v : Version) (levels : list LevelState) (c : Catalog) (S : gset (Z * Z)) (h : Heap) (L : list nat) (k : nat) : builds (files_ v) levels c S -> catalog_ok c -> heap_ok L h ->
  (∀ f, f ∈ added_all levels ++ concat (files_ v) -> file_addr f ∈ L) -> (k <= Z.to_nat kNumLevels)%nat ->
  ∃ out h', ofold (save_one ucmp v levels) (seq 0 k) ([], h) = Some (out, h') ∧ length out = k ∧ heap_ok (addrs (concat out) ++ L) h' ∧ hp_next h' = hp_next h ∧
    ∀ l R A, out !! l = Some R -> c !! l = Some A -> lists R A.
Proof using ComparatorLaws0 Hbytes.
  intros [H1 H2 H3 H4 H5] Hc Hh Hin. induction k as [|k IH]; intros Hk; [by exists [], h|].
  destruct IH as (out & h1 & E & Hlen & Hh1 & X1 & Hout); [lia|]. rewrite seq_S, ofold_app, E. cbn [mbind option_bind ofold Nat.add].
  destruct (lookup_lt_is_Some_2 (files_ v) k) as [b Hb]; [lia|]. destruct (lookup_lt_is_Some_2 levels k) as [st Hst]; [lia|].
  destruct (lookup_lt_is_Some_2 c k) as [A HA]; [lia|]. destruct (Hc k A HA) as [Hi Ha]. unfold save_one. rewrite Hb, Hst. cbn [mbind option_bind].
  destruct (save_level_ok (Z.of_nat k) b st A h1 (addrs (concat out) ++ L) (H4 _ _ _ _ Hb Hst HA) Hh1) as (R & h2 & -> & Hh2 & X2 & HR & Hno).
  - intros f Hf. apply elem_of_app. right. apply Hin. apply elem_of_app in Hf as [Hf|Hf]; apply elem_of_app; [left|right]; apply list_elem_of_In, in_concat.
    + exists (added_files st). split; apply list_elem_of_In; [|done]. apply (list_elem_of_fmap_2 added_files). by eapply list_elem_of_lookup_2.
    + exists b. split; apply list_elem_of_In; [|done]. by eapply list_elem_of_lookup_2.
  - intros Hl. split; [apply Ha; lia|done].
  - cbn [mbind option_bind]. assert ((0 <? k)%nat && negb (no_overlap ucmp R) = false) as ->.
    { destruct (Nat.ltb_spec 0 k); [|done]. rewrite Hno by lia. done. }
    eexists _, h2. split; [done|]. split_and!; [rewrite length_app; simpl; lia| |congruence|].
    + rewrite concat_app, fmap_app, <- app_assoc. cbn [concat]. rewrite app_nil_r. by rewrite app_assoc, (Permutation_app_comm (addrs (concat out))), <- app_assoc.
    + intros l R' A' HR' HA'. destruct (decide (l = k)) as [->|Hne].
      * rewrite lookup_app_r in HR' by lia. rewrite <- Hlen, Nat.sub_diag in HR'. cbn in HR'. rewrite HA in HA'. injection HR' as <-. by injection HA' as <-.
      * apply (Hout l); [|done]. pose proof (lookup_lt_Some _ _ _ HR') as Hlt. rewrite length_app in Hlt. simpl in Hlt. rewrite lookup_app_l in HR' by lia. done.
Qed.

(** ** Building a version *)

(** The state between operations: the current version lists the catalogue
    [c], whose files are among [S]. *)
Record set_ok (extra : list nat) (c : Catalog) (S : gset (Z * Z)) vs : Prop := {
  so_vers : vers_ok extra vs;
  so_current : ∃ id n, current_ vs = Some id ∧ find_node id vs = Some n ∧ represents (files_ (node_version n)) c;
  so_catalog : catalog_ok c;
  so_seen l A i : c !! l = Some A -> i ∈ A -> (Z.of_nat l, i_number i) ∈ S;
}.

Lemma heap_ok_next L h k : heap_ok L h -> (hp_next h <= k)%nat -> heap_ok L (MkHeap (hp_refs h) (hp_seeks h) k).
Proof. intros [H1 H2 H3] Hk. split; simpl; [done|done|]. intros a Ha%H3. lia. Qed.

Lemma set_refs_twice id r r' ns : set_node_refs id r (set_node_refs id r' ns) = set_node_refs id r ns.
Proof.
  unfold set_node_refs. rewrite <- list_fmap_compose. apply list_fmap_ext. intros i n _. simpl.
  destruct (Nat.eqb_spec (node_id n) id) as [E|E]; simpl; [by rewrite Nat.eqb_refl|]. by destruct (Nat.eqb_spec (node_id n) id).
Qed.

Lemma set_refs_same id n ns : NoDup (ids ns) -> find (is_node id) ns = Some n -> set_node_refs id (node_refs n) ns = ns.
Proof.
  intros Hn Hf. unfold set_node_refs. rewrite <- (list_fmap_id ns) at 2. apply list_fmap_ext. intros i m Hm. simpl.
  destruct (Nat.eqb_spec (node_id m) id) as [E|E]; [|done]. apply list_elem_of_lookup_2 in Hm. pose proof (find_unique ns m Hn Hm) as Hm'. rewrite E, Hf in Hm'.
  injection Hm' as ->. rewrite <- E. by destruct m.
Qed.

Lemma ofold_added levels h : ofold (fun st => ofold file_unref (added_files st)) levels h = ofold (ofold file_unref) (added_files <$> levels) h.
Proof. revert h. induction levels as [|st levels IH]; intros h; [done|]. simpl. destruct (ofold file_unref (added_files st) h) as [h'|]; [apply IH|done]. Qed.

Lemma added_all_new n : added_all (replicate n (MkLevelState ∅ [])) = [].
Proof. induction n as [|n IH]; [done|]. exact IH. Qed.

Lemma node_files_used ns n f : n ∈ ns -> f ∈ concat (files_ (node_version n)) -> file_addr f ∈ uses ns.
Proof.
  intros Hn Hf. apply list_elem_of_In, in_concat. exists (node_addrs n). split; apply list_elem_of_In; [by apply list_elem_of_fmap_2|by apply (list_elem_of_fmap_2 file_addr)].
Qed.

(** Dropping the builder: its files, then its base. *)
Lemma Builder_delete_ok (b : Builder) (extra : list nat) vs (n : Node) : find_node (base_ b) vs = Some n -> vers_ok (addrs (added_all (levels_ b)) ++ extra) vs ->
  ∃ vs', Builder_delete b vs = Some vs' ∧ vers_ok extra vs' ∧ same_rest vs vs' ∧
    vs_versions vs' = if node_refs n =? 1 then List.filter (fun m => negb (is_node (base_ b) m)) (vs_versions vs) else set_node_refs (base_ b) (node_refs n - 1) (vs_versions vs).
Proof using Type.
  intros Hn [V1 V2 V3 V4]. unfold Builder_delete. rewrite ofold_added.
  assert (heap_ok (addrs (added_all (levels_ b)) ++ uses (vs_versions vs) ++ extra) (vs_heap vs)) as Hh by (by rewrite app_assoc, (Permutation_app_comm (addrs (added_all _))), <- app_assoc).
  destruct (unref_levels _ _ _ Hh) as (h & -> & Hh' & X). cbn [mbind option_bind].
  destruct (Version_Unref_ok extra (set_file_heap h vs) (base_ b) n) as (vs' & E & Hv' & [S1 S2 S3 S4 S5 S6 S7] & HN); [split; simpl; rewrite ?X; done|done|].
  exists vs'. split_and!; [done|done| |done]. split; cbn in *; congruence.
Qed.

(** Saving the builder's version. *)
Lemma SaveTo_ok (b : Builder) (c' : Catalog) (S : gset (Z * Z)) (extra : list nat) vs (n : Node) : find_node (base_ b) vs = Some n -> builds (files_ (node_version n)) (levels_ b) c' S -> catalog_ok c' ->
  vers_ok (addrs (added_all (levels_ b)) ++ extra) vs ->
  ∃ files h, SaveTo ucmp b vs = Some (files, set_file_heap h vs) ∧ represents files c' ∧
    vers_ok (addrs (added_all (levels_ b)) ++ addrs (concat files) ++ extra) (set_file_heap h vs) ∧ hp_next h = hp_next (vs_heap vs).
Proof using ComparatorLaws0 Hbytes.
  intros Hn HB Hc [V1 V2 V3 V4]. unfold SaveTo. rewrite Hn. cbn [mbind option_bind]. destruct (find_in _ _ _ Hn) as [Hin _].
  destruct (save_all_ok (node_version n) (levels_ b) c' S (vs_heap vs) _ (Z.to_nat kNumLevels) HB Hc V1) as (files & h & -> & Hlen & Hh & X & Hl); [|done|].
  { intros f [Hf|Hf]%elem_of_app; rewrite !elem_of_app; [right; left; by apply (list_elem_of_fmap_2 file_addr)|left; by apply (node_files_used _ n)]. }
  cbn [mbind option_bind]. exists files, h. split_and!; [done|split; [done|by apply (bd_catalog _ _ _ _ HB)|done]| |done].
  split; simpl; [|done|by rewrite X|done]. by rewrite !app_assoc, (Permutation_app_comm (uses _ ++ _)), <- !app_assoc.
Qed.

Lemma represents_files (B : list (list File)) (c : Catalog) (l : nat) (b : list File) (f : File) : represents B c -> B !! l = Some b -> f ∈ b -> ∃ A, c !! l = Some A ∧ finfo (file_meta f) ∈ A.
Proof.
  intros [R1 R2 R3] Hb Hf. destruct (lookup_lt_is_Some_2 c l) as [A HA]; [rewrite R2, <- R1; by eapply lookup_lt_Some|]. exists A. split; [done|].
  apply (ls_infos _ _ (R3 _ _ _ Hb HA)). by apply (list_elem_of_fmap_2 (fun f => finfo (file_meta f))).
Qed.

Lemma build_version_ok (extra : list nat) (c : Catalog) (S : gset (Z * Z)) (e : VersionEdit) vs : set_ok extra c S vs -> edit_fits S e -> catalog_ok (cat_apply e c) ->
  ∃ v vs', build_version ucmp e vs = Some (v, vs') ∧ node_refs v = 0 ∧ node_id v = hp_next (vs_heap vs) ∧ represents (files_ (node_version v)) (cat_apply e c) ∧
    vers_ok (node_addrs v ++ extra) vs' ∧ vs_versions vs' = vs_versions vs ∧ vs_env vs' = vs_env vs ∧ vs_numbers vs' = vs_numbers vs ∧
    descriptor_file_ vs' = descriptor_file_ vs ∧ descriptor_log_ vs' = descriptor_log_ vs ∧ current_ vs' = current_ vs ∧
    compact_pointer_ vs' = ptr_apply e (compact_pointer_ vs) ∧ (hp_next (vs_heap vs) < hp_next (vs_heap vs'))%nat.
Proof using ComparatorLaws0 Hbytes.
  intros [Hv (id & n & Hid & Hn & Hrep) Hcat Hseen] He Hcat'. unfold build_version, new_version. cbn [fst snd].
  set (vs1 := set_file_heap _ vs). change (current_ vs1) with (current_ vs). rewrite Hid. cbn [mbind option_bind].
  assert (vers_ok extra vs1) as Hv1.
  { destruct Hv as [V1 V2 V3 V4]. split; simpl; [by apply heap_ok_next; [|lia]|done|intros m Hm%V3; lia|done]. }
  destruct (Version_Ref_ok extra vs1 id n Hv1 Hn) as (vs2 & E2 & Hv2 & Hs2 & Hh2 & HN2). unfold Builder_new. rewrite E2. cbn [mbind option_bind].
  set (b := MkBuilder id _).
  assert (builds (files_ (node_version n)) (levels_ b) c S) as HB.
  { apply builds_new; [done|]. intros l fs f Hl Hf. destruct (represents_files _ _ _ _ _ Hrep Hl Hf) as (A & HA & Hi). split; [exact (io_small _ (proj1 (Hcat l A HA) _ Hi))|exact (Hseen l A _ HA Hi)]. }
  destruct (Builder_Apply_ok (files_ (node_version n)) b c S e vs2 (uses (vs_versions vs2) ++ extra) HB He) as (levels & h3 & -> & HB3 & Hh3 & X3).
  { cbn [levels_ b]. rewrite added_all_new. exact (vo_heap _ _ Hv2). }
  cbn [mbind option_bind]. set (vs3 := set_file_heap h3 _). set (b3 := MkBuilder (base_ b) levels).
  assert (find_node (base_ b3) vs3 = Some (MkNode id (node_refs n + 1) (node_version n))) as Hn3.
  { unfold find_node. cbn [vs3 set_file_heap set_pointers vs_versions b3 base_ b]. rewrite HN2. change (find _ _) with (find (is_node id) (set_node_refs id (node_refs n + 1) (vs_versions vs))).
    rewrite find_set_refs. change (find (is_node id) (vs_versions vs)) with (find_node id vs). rewrite Hn. simpl. destruct (find_in _ _ _ Hn) as [_ ->]. by rewrite Nat.eqb_refl. }
  pose proof (vo_refs _ _ Hv n (proj1 (find_in _ _ _ Hn))) as Hr.
  destruct (SaveTo_ok b3 (cat_apply e c) (new_pairs e ∪ S) extra vs3 _ Hn3 HB3 Hcat') as (files & h4 & -> & Hrep5 & Hv4 & X4).
  { destruct Hv2 as [V1 V2 V3 V4]. split; simpl; [|done| |done].
    - cbn [b3 levels_]. by rewrite app_assoc, (Permutation_app_comm (uses _)), <- app_assoc.
    - intros m Hm%V3. lia. }
  destruct (Builder_delete_ok b3 (addrs (concat files) ++ extra) (set_file_heap h4 vs3) _ Hn3 Hv4) as (vs5 & E5 & Hv5 & Hs5 & HN5).
  rewrite (proj2 (Z.eqb_neq _ _)) in HN5 by (cbn; lia).
  cbn [mbind option_bind]. rewrite E5. cbn [mbind option_bind]. eexists _, vs5. split; [done|]. cbn [node_refs node_id node_version].
  assert (vs_versions vs5 = vs_versions vs) as HNV.
  { rewrite HN5. change (vs_versions (set_file_heap h4 vs3)) with (vs_versions vs2). rewrite HN2. change (base_ b3) with id. change (vs_versions vs1) with (vs_versions vs).
    rewrite set_refs_twice. cbn [node_refs]. replace (node_refs n + 1 - 1) with (node_refs n) by lia. apply set_refs_same; [apply (vo_ids _ _ Hv)|done]. }
  destruct Hs2 as [A1 A2 A3 A4 A5 A6 A7]. destruct Hs5 as [B1 B2 B3 B4 B5 B6 B7]. cbn in *. rewrite (proj1 (Finalize_files _)). cbn [files_].
  split_and!; try congruence; try done.
  - unfold node_addrs. cbn [node_version]. by rewrite (proj1 (Finalize_files _)).
  - rewrite B7. rewrite Hh2 in X3. cbn in X3. lia.
Qed.

End Apply.

(** ** [LogAndApply] on any environment *)

Section Install.

Context {W : Type} `{!Env W} (dbname : Slice) (addr : Slice -> Z).
Implicit Types vs : VersionSet W.

(** The manifest's file and writer are both there or both absent. *)
Definition desc_ok vs : Prop :=
  match descriptor_file_ vs, descriptor_log_ vs with
  | Some _, Some off => 0 <= off <= kBlockSize
  | None, None => True
  | _, _ => False
  end.

(** What the other threads leave as it is while the mutex is released: they
    make no version, and take and drop references in pairs. *)
Record undisturbed vs vs' : Prop := {
  un_current : current_ vs' = current_ vs;
  un_file : descriptor_file_ vs' = descriptor_file_ vs;
  un_log : descriptor_log_ vs' = descriptor_log_ vs;
  un_manifest : nm_manifest_file (vs_numbers vs') = nm_manifest_file (vs_numbers vs);
  un_log_number : nm_log (vs_numbers vs') = nm_log (vs_numbers vs);
  un_prev_log : nm_prev_log (vs_numbers vs') = nm_prev_log (vs_numbers vs);
  un_ids : ids (vs_versions vs') ⊆ ids (vs_versions vs);
  un_next : (hp_next (vs_heap vs) <= hp_next (vs_heap vs'))%nat;
  un_vers extra : vers_ok extra vs -> vers_ok extra vs';
  un_node id n : current_ vs = Some id -> find_node id vs = Some n ->
    ∃ n', find_node id vs' = Some n' ∧ files_ (node_version n') = files_ (node_version n);
}.

(** Only the environment and the position in the manifest change. *)
Definition only_env vs vs' : Prop :=
  vs_numbers vs' = vs_numbers vs ∧ vs_versions vs' = vs_versions vs ∧ current_ vs' = current_ vs ∧ compact_pointer_ vs' = compact_pointer_ vs ∧ vs_heap vs' = vs_heap vs.

Lemma only_env_trans vs1 vs2 vs3 : only_env vs1 vs2 -> only_env vs2 vs3 -> only_env vs1 vs3.
Proof. unfold only_env. intros (?&?&?&?&?) (?&?&?&?&?). split_and!; congruence. Qed.

Lemma only_env_undisturbed vs vs' : only_env vs vs' -> descriptor_file_ vs' = descriptor_file_ vs -> descriptor_log_ vs' = descriptor_log_ vs -> undisturbed vs vs'.
Proof.
  intros (E1 & E2 & E3 & E4 & E5) D1 D2. split; rewrite ?E1, ?E2, ?E5; try done.
  - intros extra [H1 H2 H3 H4]. split; rewrite ?E2, ?E5; done.
  - intros id n Hc Hn. exists n. unfold find_node in *. by rewrite E2.
Qed.

Lemma manifest_AddRecord_ok rec vs : desc_ok vs -> is_Some (descriptor_file_ vs) ->
  ∃ s vs', manifest_AddRecord addr rec vs = Some (s, vs') ∧ only_env vs vs' ∧ desc_ok vs' ∧ descriptor_file_ vs' = descriptor_file_ vs.
Proof.
  unfold desc_ok, manifest_AddRecord. intros Hd [h Hh]. rewrite Hh in *. destruct (descriptor_log_ vs) as [off|]; [|done]. cbn [mbind option_bind].
  destruct (AddRecord_total (F := Z * W) (WritableFile0 := env_writable) addr rec (MkWriter (h, vs_env vs) off (InitTypeCrc addr)) Hd) as (s & w & -> & Hw).
  cbn [mbind option_bind]. by eexists _, _.
Qed.

Lemma open_manifest_ok vs v : desc_ok vs -> current_version vs = Some v ->
  ∃ s name vs', open_manifest ucmp dbname addr vs = Some (s, name, vs') ∧ only_env vs vs' ∧ desc_ok vs' ∧ (ok s = true -> is_Some (descriptor_file_ vs')).
Proof.
  intros Hd Hv. unfold open_manifest. destruct (descriptor_log_ vs) as [off|] eqn:El.
  { eexists _, _, vs. split; [done|]. split_and!; [done|done|]. intros _. unfold desc_ok in Hd. rewrite El in Hd. by destruct (descriptor_file_ vs). }
  destruct (descriptor_file_ vs) as [h|] eqn:Ef; [unfold desc_ok in Hd; by rewrite Ef, El in Hd|].
  destruct (NewWritableFile _ (vs_env vs)) as [[s h] w]. destruct (ok s) eqn:Hs.
  - unfold WriteSnapshot. change (current_version (set_descriptor (Some h) (Some 0) (set_env w vs))) with (current_version vs). rewrite Hv. cbn [mbind option_bind].
    edestruct (manifest_AddRecord_ok) as (s' & vs' & -> & Ho & Hd' & Hf'); cycle 2.
    + cbn [mbind option_bind]. eexists _, _, vs'. split; [done|]. split_and!; [done|done|]. rewrite Hf'. by eexists.
    + cbn. unfold kBlockSize. lia.
    + by eexists.
  - eexists _, _, _. split; [done|]. split_and!; [done| |by rewrite Hs]. unfold desc_ok. cbn. by rewrite El, Ef.
Qed.

Lemma write_edit_ok s e name vs : desc_ok vs -> (ok s = true -> is_Some (descriptor_file_ vs)) ->
  ∃ s' vs', write_edit dbname addr s e name vs = Some (s', vs') ∧ only_env vs vs' ∧ desc_ok vs'.
Proof.
  intros Hd Hf. unfold write_edit.
  assert (∃ s1 vs1, (if ok s then
       '(s, vs) ← manifest_AddRecord addr (EncodeTo e []) vs;
       if ok s then h ← descriptor_file_ vs; let '(s, w) := file_Sync h (vs_env vs) in Some (s, set_env w vs) else Some (s, vs)
     else Some (s, vs)) = Some (s1, vs1) ∧ only_env vs vs1 ∧ desc_ok vs1) as (s1 & vs1 & -> & Ho & Hd1).
  { destruct (ok s); [|by exists s, vs]. destruct (manifest_AddRecord_ok (EncodeTo e []) vs Hd (Hf eq_refl)) as (s1 & vs1 & -> & Ho & Hd1 & Hf1). cbn [mbind option_bind].
    destruct (ok s1); [|by exists s1, vs1]. destruct (Hf eq_refl) as [h Hh]. rewrite Hf1, Hh. cbn [mbind option_bind].
    destruct (file_Sync h (vs_env vs1)) as [s2 w2]. by eexists _, _. }
  cbn [mbind option_bind]. destruct (ok s1 && _); [|by eexists _, _]. destruct (SetCurrentFile _ _ _) as [s2 w2]. by eexists _, _.
Qed.

Lemma find_last id ns (n : Node) : id ∉ ids ns -> node_id n = id -> find (is_node id) (ns ++ [n]) = Some n.
Proof using Type.
  intros Hn Hi. induction ns as [|m ns IH]; simpl; unfold is_node at 1.
  - by rewrite Hi, Nat.eqb_refl.
  - rewrite fmap_cons, not_elem_of_cons in Hn. destruct Hn as [Hm Hn]. destruct (Nat.eqb_spec (node_id m) id); [congruence|]. by apply IH.
Qed.

Lemma find_app_l {A} (f : A -> bool) l l' x : find f l = Some x -> find f (l ++ l') = Some x.
Proof using Type. intros H. induction l as [|y l IH]; [done|]. simpl in *. by destruct (f y); [|apply IH]. Qed.

Lemma AppendVersion_ok extra vs v id n : vers_ok (node_addrs v ++ extra) vs -> node_refs v = 0 -> node_id v ∉ ids (vs_versions vs) ->
  (node_id v < hp_next (vs_heap vs))%nat -> current_ vs = Some id -> find_node id vs = Some n ->
  ∃ vs', AppendVersion v vs = Some vs' ∧ vers_ok extra vs' ∧ current_ vs' = Some (node_id v) ∧
    find_node (node_id v) vs' = Some (MkNode (node_id v) 1 (node_version v)) ∧ vs_numbers vs' = vs_numbers vs ∧
    descriptor_file_ vs' = descriptor_file_ vs ∧ descriptor_log_ vs' = descriptor_log_ vs ∧ vs_env vs' = vs_env vs ∧ compact_pointer_ vs' = compact_pointer_ vs ∧
    (node_refs n ≠ 1 -> find_node id vs' = Some (MkNode id (node_refs n - 1) (node_version n))).
Proof using Type.
  intros Hv Hr Hnew Hlt Hc Hn. unfold AppendVersion. rewrite Hr, Hc. cbn [Z.eqb negb orb]. destruct (find_in _ _ _ Hn) as [Hin Hid].
  rewrite bool_decide_eq_false_2; cycle 1.
  { intros [= E]. apply Hnew. rewrite <- E, <- Hid. by apply list_elem_of_fmap_2. }
  destruct (Version_Unref_ok _ vs id n Hv Hn) as (vs1 & -> & [V1 V2 V3 V4] & [S1 S2 S3 S4 S5 S6 S7] & HN). cbn [mbind option_bind].
  assert (node_id v ∉ ids (vs_versions vs1)) as Hnew1.
  { intros (m & Em & Hm)%list_elem_of_fmap. apply Hnew. rewrite HN in Hm. rewrite Em. destruct (node_refs n =? 1).
    - apply list_elem_of_In, filter_In in Hm as [Hm _]. apply list_elem_of_fmap_2. by apply list_elem_of_In.
    - rewrite <- (ids_set_refs id (node_refs n - 1)). by apply list_elem_of_fmap_2. }
  eexists. split; [done|]. split_and!; try done; cbn.
  - split; cbn.
    + unfold uses. rewrite fmap_app, concat_app. cbn. rewrite app_nil_r, <- app_assoc. exact V1.
    + rewrite fmap_app. apply list.NoDup_app. split_and!; [done| |apply list.NoDup_singleton]. intros x Hx [= ->]%list_elem_of_singleton. by apply Hnew1.
    + intros m [Hm|Hm]%elem_of_app; [by apply V3|]. apply list_elem_of_singleton in Hm as ->. cbn. lia.
    + intros m [Hm|Hm]%elem_of_app; [by apply V4|]. apply list_elem_of_singleton in Hm as ->. done.
  - unfold find_node. cbn. by apply find_last.
  - intros Hne. unfold find_node. cbn. rewrite HN, (proj2 (Z.eqb_neq _ _)) by done. apply find_app_l. change (find (is_node id) (set_node_refs id (node_refs n - 1) (vs_versions vs)) = Some (MkNode id (node_refs n - 1) (node_version n))).
    rewrite find_set_refs. change (find (is_node id) (vs_versions vs)) with (find_node id vs). rewrite Hn. cbn. by rewrite Hid, Nat.eqb_refl.
Qed.

End Install.

End Build.

(** ** Where the files of a catalogue come from *)

Lemma cat_alter_in (g : gset Info -> gset Info) (c : Catalog) (j l : nat) (A : gset Info) (i : Info) : alter g j c !! l = Some A -> i ∈ A ->
  ∃ A0, c !! l = Some A0 ∧ (i ∈ A0 ∨ (l = j ∧ i ∈ g A0)).
Proof.
  intros HA Hi. destruct (decide (l = j)) as [->|Hne].
  - rewrite list_lookup_alter_eq in HA. destruct (c !! j) as [A0|]; [|done]. injection HA as <-. exists A0. split; [done|]. by right.
  - rewrite list_lookup_alter_ne in HA by done. exists A. split; [done|]. by left.
Qed.

Lemma cat_deletes_in (ps : list (Z * Z)) (c : Catalog) (l : nat) (A : gset Info) (i : Info) : foldl (fun c p => cat_delete p c) c ps !! l = Some A -> i ∈ A -> ∃ A0, c !! l = Some A0 ∧ i ∈ A0.
Proof.
  revert c A. induction ps as [|p ps IH]; intros c A; cbn [foldl]; [by intros; exists A|]. intros HA Hi. destruct (IH _ _ HA Hi) as (A1 & H1 & Hi1).
  destruct (cat_alter_in _ _ _ _ _ _ H1 Hi1) as (A0 & H0 & [Hi0|[_ Hi0]]); exists A0; (split; [done|]); [done|]. by apply elem_of_filter in Hi0 as [_ Hi0].
Qed.

Lemma cat_adds_in (ps : list (Z * FileMetaData)) (c : Catalog) (l : nat) (A : gset Info) (i : Info) : foldl (fun c p => cat_add p c) c ps !! l = Some A -> i ∈ A ->
  (∃ A0, c !! l = Some A0 ∧ i ∈ A0) ∨ (∃ p, p ∈ ps ∧ Z.to_nat p.1 = l ∧ i = finfo p.2).
Proof.
  revert c A. induction ps as [|p ps IH]; intros c A; cbn [foldl]; [intros; left; by exists A|]. intros HA Hi.
  destruct (IH _ _ HA Hi) as [(A1 & H1 & Hi1)|(q & Hq & Hl & ->)]; [|right; exists q; split_and!; [by right|done|done]].
  destruct (cat_alter_in _ _ _ _ _ _ H1 Hi1) as (A0 & H0 & [Hi0|[-> Hi0]]); [left; by exists A0|]. apply elem_of_union in Hi0 as [->%elem_of_singleton|Hi0].
  - right. exists p. split_and!; [by left|done|done].
  - left. by exists A0.
Qed.

Lemma cat_apply_seen (okp : Slice -> Prop) (S : gset (Z * Z)) (e : VersionEdit) (c : Catalog) : edit_fits okp S e ->
  (∀ l A i, c !! l = Some A -> i ∈ A -> (Z.of_nat l, i_number i) ∈ S) ->
  ∀ l A i, cat_apply e c !! l = Some A -> i ∈ A -> (Z.of_nat l, i_number i) ∈ new_pairs e ∪ S.
Proof.
  intros [_ _ He _] Hc l A i HA Hi. destruct (cat_adds_in _ _ _ _ _ HA Hi) as [(A1 & H1 & Hi1)|(p & Hp & Hl & ->)].
  - destruct (cat_deletes_in _ _ _ _ _ H1 Hi1) as (A0 & H0 & Hi0). apply elem_of_union. right. by apply (Hc l A0).
  - rewrite list.Forall_forall in He. destruct (He p Hp) as [Hlv _]. unfold level_ok in Hlv. apply elem_of_union. left. unfold new_pairs. apply elem_of_list_to_set.
    apply list_elem_of_fmap. exists p. split; [|done]. f_equal. lia.
Qed.

Lemma complete_edit_ok edit n : (has_log_number_ edit = true -> nm_log n <= log_number_ edit < nm_next_file n) ->
  ∃ e, complete_edit edit n = Some e ∧ compact_pointers_ e = compact_pointers_ edit ∧ deleted_files_ e = deleted_files_ edit ∧ new_files_ e = new_files_ edit.
Proof.
  intros H. unfold complete_edit. destruct (has_log_number_ edit).
  - specialize (H eq_refl). rewrite (proj2 (Z.leb_le _ _)), (proj2 (Z.ltb_lt _ _)) by lia. cbn [andb mbind option_bind]. eexists. split; [done|]. by destruct (has_prev_log_number_ edit).
  - cbn [mbind option_bind]. eexists. split; [done|]. by destruct (has_prev_log_number_ (SetLogNumber (nm_log n) edit)).
Qed.

Lemma same_lists_fits (okp : Slice -> Prop) (S : gset (Z * Z)) (e e' : VersionEdit) : compact_pointers_ e' = compact_pointers_ e -> deleted_files_ e' = deleted_files_ e ->
  new_files_ e' = new_files_ e -> edit_fits okp S e -> edit_fits okp S e'.
Proof. intros E1 E2 E3 [H1 H2 H3 H4]. split; rewrite ?E1, ?E2, ?E3; done. Qed.

(** ** A new version set *)

Definition no_files : Catalog := replicate (Z.to_nat kNumLevels) ∅.

Lemma VersionSet_new_ok {W : Type} (ucmp : Comparator) (okp : Slice -> Prop) (env : W) :
  ∃ vs, VersionSet_new env = Some vs ∧ set_ok ucmp okp [] no_files ∅ vs ∧ desc_ok vs ∧ vs_env vs = env ∧ vs_numbers vs = MkNumbers 2 0 0 0 0 ∧
    compact_pointer_ vs = replicate (Z.to_nat kNumLevels) [] ∧ descriptor_file_ vs = None ∧ descriptor_log_ vs = None.
Proof.
  eexists. split; [reflexivity|]. split_and!; try done. split.
  - split; cbn.
    + split; cbn; [done|intros a; rewrite lookup_empty; split; [by intros []|set_solver]|set_solver].
    + apply list.NoDup_singleton.
    + intros n ->%list_elem_of_singleton. cbn. lia.
    + intros n ->%list_elem_of_singleton. cbn. lia.
  - eexists _, _. split; [done|]. split; [done|]. split; [done|done|]. intros l b A [-> _]%lookup_replicate [-> _]%lookup_replicate. split; [constructor|set_solver|constructor].
  - intros l A [-> _]%lookup_replicate. split; [set_solver|]. intros _ i j. set_solver.
  - intros l A i [-> _]%lookup_replicate. set_solver.
Qed.

(** The steps of a call: what the manifest code was given, and what it left. *)
Definition applied_by {W : Type} `{!Env W} (ucmp : Comparator) (dbname : Slice) (addr : Slice -> Z) (other : VersionSet W -> VersionSet W)
    (edit : VersionEdit) (vs : VersionSet W) (s : Status) (edit' : VersionEdit) (vs' : VersionSet W) : Prop :=
  ∃ e1 vs1 s2 name vs2 vs4, complete_edit edit (vs_numbers vs) = Some e1 ∧
    vs_env vs1 = vs_env vs ∧ vs_numbers vs1 = vs_numbers vs ∧ descriptor_file_ vs1 = descriptor_file_ vs ∧ descriptor_log_ vs1 = descriptor_log_ vs ∧
    current_version vs1 = current_version vs ∧ compact_pointer_ vs1 = ptr_apply edit (compact_pointer_ vs) ∧
    open_manifest ucmp dbname addr vs1 = Some (s2, name, vs2) ∧
    edit' = (if bool_decide (name = []) then e1 else SetNextFile (nm_next_file (vs_numbers vs2)) e1) ∧
    write_edit dbname addr s2 edit' name (other vs2) = Some (s, vs4) ∧
    (ok s = true -> vs_env vs' = vs_env vs4 ∧ descriptor_file_ vs' = descriptor_file_ vs4 ∧ descriptor_log_ vs' = descriptor_log_ vs4 ∧
       compact_pointer_ vs' = compact_pointer_ vs4 ∧
       vs_numbers vs' = let n := vs_numbers vs4 in MkNumbers (nm_next_file n) (nm_manifest_file n) (nm_last_sequence n) (log_number_ edit') (prev_log_number_ edit')).

Lemma LogAndApply_ok {W : Type} `{!Env W} (ucmp : Comparator) (okp : Slice -> Prop) `{!ComparatorLaws ucmp okp} (dbname : Slice) (addr : Slice -> Z)
    (other : VersionSet W -> VersionSet W) (edit : VersionEdit) (vs : VersionSet W) (extra : list nat) (c : Catalog) (S : gset (Z * Z)) :
  (∀ k, okp k -> Forall is_u8 k) -> set_ok ucmp okp extra c S vs -> desc_ok vs ->
  (has_log_number_ edit = true -> nm_log (vs_numbers vs) <= log_number_ edit < nm_next_file (vs_numbers vs)) ->
  edit_fits okp S edit -> catalog_ok ucmp okp (cat_apply edit c) -> (∀ vs, undisturbed vs (other vs)) ->
  ∃ s edit' vs', LogAndApply ucmp dbname addr other edit vs = Some (s, edit', vs') ∧ desc_ok vs' ∧
    applied_by ucmp dbname addr other edit vs s edit' vs' ∧
    if ok s
    then set_ok ucmp okp extra (cat_apply edit c) (new_pairs edit ∪ S) vs' ∧
      nm_log (vs_numbers vs') = log_number_ edit' ∧ nm_prev_log (vs_numbers vs') = prev_log_number_ edit'
    else set_ok ucmp okp extra c S vs' ∧ current_ vs' = current_ vs ∧
      nm_log (vs_numbers vs') = nm_log (vs_numbers vs) ∧ nm_prev_log (vs_numbers vs') = nm_prev_log (vs_numbers vs).
Proof.
  intros Hb Hset Hdesc Hlog Hfit Hcat Hother. unfold LogAndApply. destruct (complete_edit_ok edit (vs_numbers vs) Hlog) as (e1 & Ecomp & P1 & P2 & P3). rewrite Ecomp. cbn [mbind option_bind].
  assert (cat_apply e1 c = cat_apply edit c) as Ec by (unfold cat_apply; by rewrite P2, P3).
  destruct (build_version_ok ucmp okp Hb extra c S e1 vs Hset) as (v & vs1 & -> & R0 & Hvid & Hrep & Hv1 & N1 & W1 & M1 & F1 & L1 & C1 & Y1 & X1);
    [by apply (same_lists_fits okp S edit)|by rewrite Ec|]. cbn [mbind option_bind]. rewrite Ec in Hrep.
  destruct Hset as [Hv (id & n & Hid & Hn & Hrn) Hcat0 Hseen].
  assert (find_node id vs1 = Some n) as Hn1 by (unfold find_node; by rewrite N1).
  assert (current_version vs1 = Some (node_version n)) as Hcv by (unfold current_version; rewrite C1, Hid; cbn [mbind option_bind]; by rewrite Hn1).
  destruct (open_manifest_ok ucmp dbname addr vs1 (node_version n)) as (s2 & name & vs2 & Eopen & (Q1 & Q2 & Q3 & Q4 & Q5) & Hd2 & Hf2); [unfold desc_ok; by rewrite F1, L1|done|].
  rewrite Eopen. cbn [mbind option_bind]. set (e2 := if bool_decide (name = []) then e1 else _). destruct (Hother vs2) as [U1 U2 U3 U4 U5 U6 U7 U8 U9 U10].
  assert (vers_ok (node_addrs v ++ extra) (other vs2)) as Hv3.
  { apply U9. destruct Hv1 as [V1 V2 V3 V4]. split; rewrite ?Q2, ?Q5; done. }
  destruct (U10 id n) as (n3 & Hn3 & Hfiles); [by rewrite Q3, C1|unfold find_node; by rewrite Q2|].
  destruct (write_edit_ok dbname addr s2 e2 name (other vs2)) as (s4 & vs4 & Ewrite & (T1 & T2 & T3 & T4 & T5) & Hd4); [unfold desc_ok; by rewrite U2, U3|by rewrite U2|].
  rewrite Ewrite. cbn [mbind option_bind].
  assert (current_version vs1 = current_version vs) as Hcv0 by (rewrite Hcv; unfold current_version; rewrite Hid; cbn [mbind option_bind]; by rewrite Hn).
  assert (∀ vs', (ok s4 = true -> vs_env vs' = vs_env vs4 ∧ descriptor_file_ vs' = descriptor_file_ vs4 ∧ descriptor_log_ vs' = descriptor_log_ vs4 ∧
       compact_pointer_ vs' = compact_pointer_ vs4 ∧
       vs_numbers vs' = let n := vs_numbers vs4 in MkNumbers (nm_next_file n) (nm_manifest_file n) (nm_last_sequence n) (log_number_ e2) (prev_log_number_ e2)) ->
    applied_by ucmp dbname addr other edit vs s4 e2 vs') as Happ.
  { intros vs' H. exists e1, vs1, s2, name, vs2, vs4. split_and!; try done. rewrite Y1. unfold ptr_apply. by rewrite P1. }
  assert (vers_ok (node_addrs v ++ extra) vs4) as Hv4 by (destruct Hv3 as [V1 V2 V3 V4]; split; rewrite ?T2, ?T5; done).
  assert (node_id v ∉ ids (vs_versions vs4)) as Hfresh.
  { rewrite T2, Hvid. intros Hin%U7. rewrite Q2, N1 in Hin. apply list_elem_of_fmap in Hin as (m & Em & Hm). pose proof (vo_old _ _ Hv m Hm). lia. }
  assert (current_ vs4 = Some id ∧ find_node id vs4 = Some n3) as [Hc4 Hn4] by (split; [congruence|unfold find_node; by rewrite T2]).
  destruct (ok s4) eqn:Hs4.
  - destruct (AppendVersion_ok extra vs4 v id n3 Hv4 R0 Hfresh) as (vs5 & -> & Hv5 & C5 & Hn5 & M5 & F5 & L5 & G5 & K5 & _); [rewrite T5, Hvid; rewrite Q5 in U8; lia|done|done|].
    cbn [mbind option_bind]. eexists s4, e2, _. split; [done|]. split; [unfold desc_ok in *; cbn; by rewrite F5, L5|].
    split; [apply Happ; intros _; cbn; rewrite M5; by split_and!|]. rewrite Hs4. split; [|done].
    split; [|exists (node_id v); eexists; by split_and!|done|by apply (cat_apply_seen okp)]. destruct Hv5 as [V1 V2 V3 V4]. by split.
  - destruct (Version_delete_ok extra vs4 v Hv4 Hfresh R0) as (vs5 & -> & Hv5 & [S1 S2 S3 S4 S5 S6 S7] & N5). cbn [mbind option_bind]. eexists s4, e2, _. split; [done|].
    assert (∀ vs6 : VersionSet W, vs_versions vs6 = vs_versions vs5 -> vs_heap vs6 = vs_heap vs5 -> current_ vs6 = current_ vs5 -> set_ok ucmp okp extra c S vs6) as Hset6.
    { intros vs6 K1 K2 K3. split; [destruct Hv5 as [V1 V2 V3 V4]; split; rewrite ?K1, ?K2; done| |done|done]. exists id, n3.
      split_and!; [congruence|unfold find_node; by rewrite K1, N5|by rewrite Hfiles]. }
    rewrite Hs4. destruct (bool_decide (name = [])); (split; [|split; [by apply Happ|]]).
    + unfold desc_ok. by rewrite S3, S4.
    + split_and!; [by apply Hset6|congruence|congruence|congruence].
    + done.
    + unfold delete_descriptor. destruct (descriptor_file_ vs5); (split_and!; [by apply Hset6|cbn; congruence..]).
Qed.

(** ** Theorems *)

(** C24. [VersionSet::LogAndApply] is atomic in memory, whatever the
    environment answers. While the mutex is released the other threads may
    change the set in any way that leaves the current version, the manifest
    with its file and writer, the manifest's and the log numbers as they are,
    adds no version and keeps the reference counts exact ([undisturbed];
    version_set.h requires that no other thread calls LogAndApply meanwhile).
    Let the current version list the catalogue [c], every file object have as
    many references as there are live versions (and owners in [extra]) that
    hold it, and the edit name existing levels, add only files that are new at
    their level, and leave the levels above 0 without overlap. Then the call
    returns. With an OK status the current version lists the catalogue after
    the edit and the log numbers are the edit's; with any other status the call
    itself has changed neither the current version nor the log numbers. Either
    way the reference counts are exact again, and the manifest's file and
    writer are both open or both closed. *)
Theorem log_and_apply_atomic {W : Type} `{!Env W} (ucmp : Comparator) (okp : Slice -> Prop) `{!ComparatorLaws ucmp okp} (dbname : Slice) (addr : Slice -> Z)
    (other : VersionSet W -> VersionSet W) (edit : VersionEdit) (vs : VersionSet W) (extra : list nat) (c : Catalog) (S : gset (Z * Z)) :
  (∀ k, okp k -> Forall is_u8 k) -> set_ok ucmp okp extra c S vs -> desc_ok vs ->
  (has_log_number_ edit = true -> nm_log (vs_numbers vs) <= log_number_ edit < nm_next_file (vs_numbers vs)) ->
  edit_fits okp S edit -> catalog_ok ucmp okp (cat_apply edit c) -> (∀ vs, undisturbed vs (other vs)) ->
  ∃ s edit' vs', LogAndApply ucmp dbname addr other edit vs = Some (s, edit', vs') ∧ desc_ok vs' ∧
    if ok s
    then set_ok ucmp okp extra (cat_apply edit c) (new_pairs edit ∪ S) vs' ∧
      nm_log (vs_numbers vs') = log_number_ edit' ∧ nm_prev_log (vs_numbers vs') = prev_log_number_ edit'
    else set_ok ucmp okp extra c S vs' ∧ current_ vs' = current_ vs ∧
      nm_log (vs_numbers vs') = nm_log (vs_numbers vs) ∧ nm_prev_log (vs_numbers vs') = nm_prev_log (vs_numbers vs).
Proof.
  intros Hb Hset Hdesc Hlog Hfit Hcat Hother.
  destruct (LogAndApply_ok ucmp okp dbname addr other edit vs extra c S Hb Hset Hdesc Hlog Hfit Hcat Hother) as (s & edit' & vs' & E & Hd & _ & H).
  by exists s, edit', vs'.
Qed.

(** ** Witnesses *)

(** A file at level 1, on a disk with room for the manifest and on one
    without. *)
Definition w_new_edit : VersionEdit := AddFile 1 5 100 (InternalKey_new [97] 6 kTypeValue) (InternalKey_new [99] 5 kTypeValue) VersionEdit_new.

Lemma w_new_edit_fits S : (1, 5) ∉ S -> edit_fits (Forall is_u8) S w_new_edit.
Proof.
  intros HS. split; [constructor|constructor| |apply list.NoDup_singleton]. constructor; [|constructor]. split_and!; [unfold level_ok, kNumLevels; cbn; lia| |done].
  apply key_okb_ok. by vm_compute.
Qed.

Lemma one_file_ok l (i : Info) : info_ok BytewiseComparator (Forall is_u8) i -> catalog_ok BytewiseComparator (Forall is_u8) (alter (union {[i]}) l no_files).
Proof.
  intros Hi l' A HA. assert (∀ j, j ∈ A -> j = i) as Hj.
  { intros j Hj. destruct (cat_alter_in _ _ _ _ _ _ HA Hj) as (A0 & [-> _]%lookup_replicate & [?|[_ ?]]); set_solver. }
  split; [by intros j ->%Hj|]. intros _ j k Hj1%Hj Hk%Hj Hne. congruence.
Qed.

Lemma w_new_edit_catalog : catalog_ok BytewiseComparator (Forall is_u8) (cat_apply w_new_edit no_files).
Proof.
  apply (one_file_ok 1 (finfo (FileMetaData_new 5 100 (InternalKey_new [97] 6 kTypeValue) (InternalKey_new [99] 5 kTypeValue)))).
  destruct (file_okb_ok (MkFile 0 (FileMetaData_new 5 100 (InternalKey_new [97] 6 kTypeValue) (InternalKey_new [99] 5 kTypeValue)))) as [H1 H2 H3 H4]; [by vm_compute|]. by split.
Qed.

Definition w_disk (room : Z) : MemEnv := MkMemEnv ∅ ∅ ∅ 1 (Some room).

Lemma undisturbed_refl {W : Type} (vs : VersionSet W) : undisturbed vs vs.
Proof. by apply only_env_undisturbed. Qed.

Definition w_apply (room : Z) : option (Status * VersionEdit * VersionSet MemEnv) :=
  vs ← VersionSet_new (w_disk room); LogAndApply BytewiseComparator (str "db") (fun _ => 0) (fun vs => vs) w_new_edit vs.

Lemma log_and_apply_atomic_witness :
  (∃ s edit vs, w_apply 1000 = Some (s, edit, vs) ∧ ok s = true ∧ set_ok BytewiseComparator (Forall is_u8) [] (cat_apply w_new_edit no_files) (new_pairs w_new_edit ∪ ∅) vs) ∧
  (∃ s edit vs, w_apply 3 = Some (s, edit, vs) ∧ ok s = false ∧ set_ok BytewiseComparator (Forall is_u8) [] no_files ∅ vs).
Proof.
  split.
  - destruct (VersionSet_new_ok BytewiseComparator (Forall is_u8) (w_disk 1000)) as (vs & E & Hset & Hd & _).
    destruct (log_and_apply_atomic BytewiseComparator (Forall is_u8) (str "db") (fun _ => 0) (fun vs => vs) w_new_edit vs [] no_files ∅ (fun k Hk => Hk) Hset Hd
      ltac:(intros H; discriminate H) (w_new_edit_fits ∅ ltac:(set_solver)) w_new_edit_catalog undisturbed_refl) as (s & e & vs' & E' & _ & H).
    assert (w_apply 1000 = Some (s, e, vs')) as Ew by (unfold w_apply; rewrite E; exact E').
    assert (ok s = true) as Hs. { assert ((fun x => ok x.1.1) <$> w_apply 1000 = Some true) as K by (vm_compute; reflexivity). rewrite Ew in K. by injection K. }
    rewrite Hs in H. exists s, e, vs'. exact (conj Ew (conj Hs (proj1 H))).
  - destruct (VersionSet_new_ok BytewiseComparator (Forall is_u8) (w_disk 3)) as (vs & E & Hset & Hd & _).
    destruct (log_and_apply_atomic BytewiseComparator (Forall is_u8) (str "db") (fun _ => 0) (fun vs => vs) w_new_edit vs [] no_files ∅ (fun k Hk => Hk) Hset Hd
      ltac:(intros H; discriminate H) (w_new_edit_fits ∅ ltac:(set_solver)) w_new_edit_catalog undisturbed_refl) as (s & e & vs' & E' & _ & H).
    assert (w_apply 3 = Some (s, e, vs')) as Ew by (unfold w_apply; rewrite E; exact E').
    assert (ok s = false) as Hs. { assert ((fun x => ok x.1.1) <$> w_apply 3 = Some false) as K by (vm_compute; reflexivity). rewrite Ew in K. by injection K. }
    rewrite Hs in H. exists s, e, vs'. exact (conj Ew (conj Hs (proj1 H))).
Defined.
