(* ===== verification/LdbManifest.v ===== *)
(** * leveldb: what the manifest keeps (version_set.cc)

    The edits that [LogAndApply] appends to the manifest of a working disk,
    and [Recover] on a disk that holds them: the recovered version set lists
    what the edits describe, and a manifest that was cut off describes the
    edits written completely. *)

From Stdlib Require Import SpecFloat.
From stdpp Require Import sorting.
From S2P Require Import Prelude.
From S2P Require Import LdbSlice.
From S2P Require Import LdbCoding.
From S2P Require Import LdbFormat.
From S2P Require Import LdbFormatThms.
From S2P Require Import LdbLog.
From S2P Require Import LdbLogThms.
From S2P Require Import LdbVersionEdit.
From S2P Require Import LdbVersionEditThms.
From S2P Require Import LdbFilename.
From S2P Require Import LdbFilenameThms.
From S2P Require Import LdbVersion.
From S2P Require Import LdbVersionThms.
From S2P Require Import LdbVersionSet.
From S2P Require Import LdbVersionSetThms.

(** ** A disk without failures

    The methods of env.h succeed on a file object that is open, touch no
    other object, and a synced file has its contents on the disk. *)

Definition others {W} `{!EnvView W} (h : Z) (w w' : W) : Prop := ∀ h', h' ≠ h -> pending w' h' = pending w h'.
Definition same_objects {W} `{!EnvView W} (w w' : W) : Prop := ∀ h, pending w' h = pending w h.
Definition same_files {W} `{!EnvView W} (w w' : W) : Prop := ∀ f, contents w' f = contents w f.

Class DiskView (W : Type) := {
  good : W -> Prop;
  unread_of : W -> Z -> option Slice;
}.

Class DiskLaws (W : Type) `{!Env W, !EnvView W, !DiskView W} : Prop := {
  disk_env :: EnvLaws W;
  disk_new f w s h w' : good w -> NewWritableFile f w = (s, h, w') -> s = None ∧ good w' ∧ pending w h = None ∧ others h w w';
  disk_append h x w s w' f d : good w -> pending w h = Some (f, d) -> file_Append h x w = (s, w') -> s = None ∧ good w' ∧ others h w w';
  disk_flush h w s w' f d : good w -> pending w h = Some (f, d) -> file_Flush h w = (s, w') -> s = None ∧ good w' ∧ same_objects w w' ∧ same_but f w w';
  disk_sync h w s w' f d : good w -> pending w h = Some (f, d) -> file_Sync h w = (s, w') -> s = None ∧ good w' ∧ others h w w' ∧ contents w' f = Some d;
  disk_close h w s w' f d : good w -> pending w h = Some (f, d) -> file_Close h w = (s, w') -> s = None ∧ good w' ∧ others h w w';
  disk_delete h w : good w -> good (delete_writable h w) ∧ others h w (delete_writable h w);
  disk_rename a b w s w' : good w -> is_Some (contents w a) -> RenameFile a b w = (s, w') -> s = None ∧ good w' ∧ same_objects w w';
  disk_open f d w s h w' : good w -> contents w f = Some d -> NewSequentialFile f w = (s, h, w') ->
    s = None ∧ good w' ∧ unread_of w' h = Some d ∧ same_files w w' ∧ same_objects w w';
  disk_read h n d w : good w -> 0 <= n -> unread_of w h = Some d ->
    ∃ w', file_Read h n w = (None, take (Z.to_nat n) d, w') ∧ good w' ∧ unread_of w' h = Some (drop (Z.to_nat n) d) ∧ same_files w w' ∧ same_objects w w';
  disk_close_read h w : good w -> good (delete_sequential h w) ∧ same_files w (delete_sequential h w) ∧ same_objects w (delete_sequential h w);
  disk_size f d w : good w -> contents w f = Some d -> ∃ w', GetFileSize f w = (None, LdbSlice.size d, w') ∧ good w' ∧ same_files w w' ∧ same_objects w w';
}.

Section Disk.

Context {W : Type} `{!Env W, !EnvView W, !DiskView W, !DiskLaws W} (addr : Slice -> Z) (dbname : Slice).
Implicit Types (w : W) (vs : VersionSet W).

Lemma others_trans h w1 w2 w3 : others h w1 w2 -> others h w2 w3 -> others h w1 w3.
Proof. intros H1 H2 h' Hh. by rewrite H2, H1. Qed.

(** ** Appending a record *)

(** The open object [h] of the file [f], since the disk [w0]. *)
Definition open_on (f : Slice) (h : Z) (w0 : W) (x : Z * W) : Prop :=
  x.1 = h ∧ good x.2 ∧ (∃ d, pending x.2 h = Some (f, d)) ∧ same_but f w0 x.2 ∧ others h w0 x.2.

Definition data_of (x : Z * W) : Slice := default [] (snd <$> pending x.2 x.1).

#[local] Instance manifest_open (f : Slice) (h : Z) (w0 : W) : OpenFile (WritableFile0 := env_writable) (Z * W).
Proof using DiskLaws0.
  refine {| file_data := data_of; writable := open_on f h w0 |}.
  - intros s [h' w] (Eh & Hg & (d & Hp) & Hs & Ho). cbn in Eh. subst h'. cbn -[pending].
    destruct (file_Append h s w) as [st w'] eqn:E. destruct (disk_append _ _ _ _ _ _ _ Hg Hp E) as (-> & Hg' & Ho').
    destruct (append_law f d s h w None w' Hp E) as (Hs' & _ & Hp'). specialize (Hp' eq_refl). exists (h, w'). split; [done|]. split.
    + unfold data_of. cbn in *. by rewrite Hp, Hp'.
    + split_and!; [done|done|by eexists|by apply (same_but_trans f _ w)|by apply (others_trans h _ w)].
  - intros [h' w] (Eh & Hg & (d & Hp) & Hs & Ho). cbn in Eh. subst h'. cbn -[pending].
    destruct (file_Flush h w) as [st w'] eqn:E. destruct (disk_flush _ _ _ _ _ _ Hg Hp E) as (-> & Hg' & Ho' & Hs'). exists (h, w'). split; [done|]. split.
    + unfold data_of. cbn in *. by rewrite Ho'.
    + split_and!; [done|done|exists d; cbn; by rewrite Ho'|by apply (same_but_trans f _ w)|]. intros h' Hh. cbn. rewrite Ho'. by apply Ho.
Defined.

(** The position of the writer in its block. *)
Definition position (off p : Z) : Prop := 0 <= p ∧ (off = p mod kBlockSize ∨ (off = kBlockSize ∧ p mod kBlockSize = 0)).

Lemma manifest_add rec vs h off p f d : descriptor_file_ vs = Some h -> descriptor_log_ vs = Some off -> good (vs_env vs) ->
  pending (vs_env vs) h = Some (f, d) -> position off p -> Forall is_u8 rec ->
  ∃ w' off' prs, manifest_AddRecord addr rec vs = Some (None, set_descriptor (Some h) (Some off') (set_env w' vs)) ∧ good w' ∧
    pending w' h = Some (f, d ++ layout p prs) ∧ same_but f (vs_env vs) w' ∧ others h (vs_env vs) w' ∧ fragments rec prs ∧ in_blocks p prs ∧ position off' (layout_end p prs).
Proof using DiskLaws0.
  intros Hh Hl Hg Hp [P1 P2] Hr. unfold manifest_AddRecord. rewrite Hh, Hl. cbn [mbind option_bind].
  destruct (AddRecord_spec (F := Z * W) (WritableFile0 := env_writable) (OpenFile0 := manifest_open f h (vs_env vs)) addr rec (MkWriter (h, vs_env vs) off (InitTypeCrc addr)) p)
    as ([[h' w'] off' crc] & prs & -> & Hfr & Hib & Hc & Hw'); [|done|].
  { split_and!; [done|done|done|]. split_and!; [done|done|by eexists|done|done]. }
  destruct Hw' as (_ & Q1 & Q2 & Eh & Hg' & (d' & Hp') & Hs & Ho). cbn in Eh. subst h'. cbn in *. unfold data_of in Hc. cbn in Hc. rewrite Hp, Hp' in Hc. cbn in Hc. subst d'.
  exists w', off', prs. by split_and!.
Qed.

(** ** The edits of a manifest *)

Definition encoded (e : VersionEdit) : Slice := EncodeTo e [].
Definition data (prss : list (list (Z * Slice))) : Slice := layout 0 (concat prss).

Lemma encoded_u8 e : edit_wf e -> Forall is_u8 (encoded e).
Proof. intros He. unfold encoded. rewrite EncodeTo_fields. cbn [app]. apply fields_u8. by apply fields_of_ok. Qed.

(** [prss] are the fragments of the records of [es]. *)
Record holds_edits (es : list VersionEdit) (prss : list (list (Z * Slice))) : Prop := {
  he_fragments : Forall2 fragments (encoded <$> es) prss;
  he_blocks : in_blocks 0 (concat prss);
}.

(** The open manifest. *)
Record manifest_at (f : Slice) (es : list VersionEdit) (prss : list (list (Z * Slice))) (h off : Z) (w : W) : Prop := {
  ma_good : good w;
  ma_pending : pending w h = Some (f, data prss);
  ma_edits : holds_edits es prss;
  ma_position : position off (layout_end 0 (concat prss));
}.

Lemma holds_snoc es prss e prs : holds_edits es prss -> fragments (encoded e) prs -> in_blocks (layout_end 0 (concat prss)) prs ->
  holds_edits (es ++ [e]) (prss ++ [prs]) ∧ data (prss ++ [prs]) = data prss ++ layout (layout_end 0 (concat prss)) prs.
Proof.
  intros [H1 H2] Hf Hb. assert (concat (prss ++ [prs]) = concat prss ++ prs) as Ec by (rewrite concat_app; cbn; by rewrite app_nil_r). split; [split|].
  - rewrite fmap_app. apply Forall2_app; [done|]. by constructor.
  - rewrite Ec. by apply in_blocks_app.
  - unfold data. by rewrite Ec, layout_app.
Qed.

Lemma manifest_append e vs h off f es prss : descriptor_file_ vs = Some h -> descriptor_log_ vs = Some off -> manifest_at f es prss h off (vs_env vs) -> edit_wf e ->
  ∃ w' off' prs, manifest_AddRecord addr (encoded e) vs = Some (None, set_descriptor (Some h) (Some off') (set_env w' vs)) ∧
    manifest_at f (es ++ [e]) (prss ++ [prs]) h off' w' ∧ same_but f (vs_env vs) w' ∧ others h (vs_env vs) w'.
Proof using DiskLaws0.
  intros Hh Hl [M1 M2 M3 M4] He. destruct (manifest_add (encoded e) vs h off _ f _ Hh Hl M1 M2 M4 (encoded_u8 e He)) as (w' & off' & prs & E & Hg & Hp & Hs & Ho & Hf & Hb & Hpos).
  exists w', off', prs. destruct (holds_snoc es prss e prs M3 Hf Hb) as [Hhold Hdata]. split_and!; [done| |done|done]. split; [done|by rewrite Hdata|done|].
  rewrite concat_app. cbn. rewrite app_nil_r. by rewrite layout_end_app.
Qed.

(** ** CURRENT *)

(** Another object stays open while a file is written. *)
Lemma write_string_good dat f w s w' h x : good w -> pending w h = Some x -> DoWriteStringToFile dat f true w = (s, w') ->
  s = None ∧ good w' ∧ pending w' h = Some x.
Proof using DiskLaws0.
  intros Hg Hx. unfold DoWriteStringToFile. destruct (NewWritableFile f w) as [[s0 h2] w0] eqn:E0.
  destruct (disk_new _ _ _ _ _ Hg E0) as (-> & G0 & N0 & O0). destruct (new_law _ _ _ _ _ E0) as [_ P0]. specialize (P0 eq_refl). cbn [ok negb].
  assert (h ≠ h2) as Hne by (intros ->; congruence).
  destruct (file_Append h2 dat w0) as [s1 w1] eqn:E1. destruct (disk_append _ _ _ _ _ _ _ G0 P0 E1) as (-> & G1 & O1).
  destruct (append_law _ _ _ _ _ _ _ P0 E1) as (_ & _ & P1). specialize (P1 eq_refl). cbn [ok andb].
  destruct (file_Sync h2 w1) as [s2 w2] eqn:E2. destruct (disk_sync _ _ _ _ _ _ G1 P1 E2) as (-> & G2 & O2 & _).
  destruct (sync_law _ _ _ _ _ _ P1 E2) as (_ & _ & P2). specialize (P2 eq_refl). cbn [ok].
  destruct (file_Close h2 w2) as [s3 w3] eqn:E3. destruct (disk_close _ _ _ _ _ _ G2 P2 E3) as (-> & G3 & O3). cbn [ok negb].
  destruct (disk_delete h2 w3 G3) as [G4 O4]. intros [= <- <-]. split_and!; [done|done|]. by rewrite O4, O3, O2, O1, O0.
Qed.

Lemma app_cons_head {A} (d : list A) (x y : A) (l1 l2 : list A) : x ≠ y -> d ++ x :: l1 ≠ d ++ y :: l2.
Proof. intros Hne E. apply app_inv_head in E. congruence. Qed.

Lemma descriptor_not_current n : DescriptorFileName dbname n ≠ CurrentFileName dbname.
Proof. intros E. unfold DescriptorFileName, CurrentFileName in E. apply app_inv_head in E. discriminate E. Qed.

Lemma descriptor_not_tmp n m : is_u64 m -> DescriptorFileName dbname n ≠ TempFileName dbname m.
Proof.
  intros Hm E. unfold DescriptorFileName, TempFileName, MakeFileName in E. apply app_inv_head in E. destruct (padded_spec m Hm) as (Hd & _ & Hne).
  destruct (padded m) as [|c r]; [done|]. apply Forall_cons_1 in Hd as [Hd _]. unfold is_digit in Hd.
  change (str "/MANIFEST-") with (47 :: 77 :: str "ANIFEST-") in E. change (str "/") with [47] in E. cbn [app] in E. injection E as E _. lia.
Qed.

Definition current_name (n : Z) : Slice := str "MANIFEST-" ++ padded n ++ [10].

Lemma set_current_good n w s w' h x : good w -> is_u64 n -> pending w h = Some x -> SetCurrentFile dbname n w = (s, w') ->
  s = None ∧ good w' ∧ pending w' h = Some x ∧ contents w' (CurrentFileName dbname) = Some (current_name n) ∧
  contents w' (DescriptorFileName dbname n) = contents w (DescriptorFileName dbname n).
Proof using DiskLaws0.
  intros Hg Hn Hx Hset. pose proof (SetCurrentFile_law dbname n w s w' Hn Hset) as [Hc Hrest].
  assert (s = None ∧ good w' ∧ pending w' h = Some x) as (-> & G & P).
  { unfold SetCurrentFile in Hset. set (dat := remove_prefix _ _ ++ [10]) in *. destruct (WriteStringToFileSync dat _ w) as [s1 w1] eqn:E1.
    destruct (write_string_good _ _ _ _ _ _ _ Hg Hx E1) as (-> & G1 & P1). cbn [ok] in Hset. destruct (write_string_law _ _ _ _ _ _ E1) as [_ D1]. specialize (D1 eq_refl).
    destruct (RenameFile _ _ w1) as [s2 w2] eqn:E2. destruct (disk_rename _ _ _ _ _ G1 ltac:(by rewrite D1) E2) as (-> & G2 & O2). cbn [ok negb] in Hset.
    injection Hset as <- <-. split_and!; [done|done|by rewrite O2]. }
  split_and!; [done|done|done|exact Hc|]. apply Hrest; [apply descriptor_not_current|by apply descriptor_not_tmp].
Qed.

(** ** [LogAndApply] on the disk *)

Record on_disk (n : Z) (es : list VersionEdit) (prss : list (list (Z * Slice))) (w : W) : Prop := {
  od_manifest : contents w (DescriptorFileName dbname n) = Some (data prss);
  od_current : contents w (CurrentFileName dbname) = Some (current_name n);
  od_edits : holds_edits es prss;
}.

(** The manifest [n] is open and synced, and CURRENT names it. *)
Record durable (n : Z) (es : list VersionEdit) (prss : list (list (Z * Slice))) vs : Prop := {
  du_number : nm_manifest_file (vs_numbers vs) = n;
  du_open : ∃ h off, descriptor_file_ vs = Some h ∧ descriptor_log_ vs = Some off ∧ manifest_at (DescriptorFileName dbname n) es prss h off (vs_env vs);
  du_disk : on_disk n es prss (vs_env vs);
}.

(** The other threads stay away from the manifest and CURRENT. *)
Record quiet vs vs' : Prop := {
  qu_rest : undisturbed vs vs';
  qu_good : good (vs_env vs) -> good (vs_env vs');
  qu_manifest h : descriptor_file_ vs = Some h -> pending (vs_env vs') h = pending (vs_env vs) h;
  qu_files f : f = CurrentFileName dbname ∨ f = DescriptorFileName dbname (nm_manifest_file (vs_numbers vs)) -> contents (vs_env vs') f = contents (vs_env vs) f;
}.

Lemma write_edit_durable e n name vs h off es prss : edit_wf e -> is_u64 n -> nm_manifest_file (vs_numbers vs) = n ->
  descriptor_file_ vs = Some h -> descriptor_log_ vs = Some off -> manifest_at (DescriptorFileName dbname n) es prss h off (vs_env vs) ->
  (name = [] -> contents (vs_env vs) (CurrentFileName dbname) = Some (current_name n)) ->
  ∃ vs' prs, write_edit dbname addr None e name vs = Some (None, vs') ∧ durable n (es ++ [e]) (prss ++ [prs]) vs' ∧ vs_numbers vs' = vs_numbers vs.
Proof using DiskLaws0.
  intros He Hn Hnum Hh Hl Hm Hcur. set (f := DescriptorFileName dbname n) in *. unfold write_edit. cbn [ok].
  destruct (manifest_append e vs h off f es prss Hh Hl Hm He) as (w1 & off1 & prs & E1 & [M1 M2 M3 M4] & S1 & O1). unfold encoded in E1. rewrite E1. cbn [mbind option_bind ok].
  cbn [descriptor_file_ set_descriptor mbind option_bind vs_env set_env]. destruct (file_Sync h w1) as [s2 w2] eqn:E2.
  destruct (disk_sync _ _ _ _ _ _ M1 M2 E2) as (-> & G2 & O2 & C2). destruct (sync_law _ _ _ _ _ _ M2 E2) as (S2 & _ & P2). specialize (P2 eq_refl). cbn [mbind option_bind ok andb].
  destruct (bool_decide_reflect (name = [])) as [Hname|Hname]; cbn [negb].
  - eexists _, prs. split; [done|]. split; [|done]. split; [done|exists h, off1; by split_and!|]. cbn. split; [done| |done].
    rewrite S2, S1 by (intros Ef; by apply (descriptor_not_current n)). by apply Hcur.
  - cbn [vs_numbers vs_env set_env set_descriptor]. rewrite Hnum. destruct (SetCurrentFile dbname n w2) as [s3 w3] eqn:E3.
    destruct (set_current_good _ _ _ _ _ _ G2 Hn P2 E3) as (-> & G3 & P3 & C3 & D3). eexists _, prs. split; [done|]. split; [|done].
    split; [done|exists h, off1; split_and!; [done|done|by split]|]. cbn. split; [by rewrite D3|done|done].
Qed.

End Disk.

(** ** Edits that the manifest can hold *)

Record numbers_ok (n : Numbers) : Prop := {
  no_next : is_u64 (nm_next_file n);
  no_manifest : is_u64 (nm_manifest_file n);
  no_last : is_u64 (nm_last_sequence n);
  no_log : is_u64 (nm_log n);
  no_prev : is_u64 (nm_prev_log n);
}.

(** The parts of an edit that describe files. *)
Record same_body (e e' : VersionEdit) : Prop := {
  sb_has : has_comparator_ e' = has_comparator_ e;
  sb_comparator : comparator_ e' = comparator_ e;
  sb_pointers : compact_pointers_ e' = compact_pointers_ e;
  sb_deleted : deleted_files_ e' = deleted_files_ e;
  sb_new : new_files_ e' = new_files_ e;
}.

(** All four numbers are set. *)
Record numbered (e : VersionEdit) : Prop := {
  nb_log : has_log_number_ e = true;
  nb_prev : has_prev_log_number_ e = true;
  nb_next : has_next_file_number_ e = true;
  nb_last : has_last_sequence_ e = true;
}.

Lemma complete_edit_wf edit n e : numbers_ok n -> edit_wf edit -> complete_edit edit n = Some e ->
  edit_wf e ∧ numbered e ∧ same_body edit e ∧ next_file_number_ e = nm_next_file n ∧ last_sequence_ e = nm_last_sequence n.
Proof.
  intros [N1 N2 N3 N4 N5] He. unfold complete_edit.
  destruct (if has_log_number_ edit then _ else _) as [e1|] eqn:E1; [|done]. cbn [mbind option_bind]. intros [= <-].
  assert (edit_wf e1 ∧ has_log_number_ e1 = true ∧ same_body edit e1) as (W1 & H1 & B1).
  { destruct (has_log_number_ edit) eqn:Hl.
    - destruct (_ && _); [|done]. injection E1 as <-. by split_and!.
    - injection E1 as <-. split_and!; [by apply (apply_field_wf edit (FLogNumber (nm_log n)))|done|done]. }
  set (e2 := if has_prev_log_number_ e1 then e1 else SetPrevLogNumber (nm_prev_log n) e1).
  assert (edit_wf e2 ∧ has_log_number_ e2 = true ∧ has_prev_log_number_ e2 = true ∧ same_body e1 e2) as (W2 & H2 & P2 & B2).
  { unfold e2. destruct (has_prev_log_number_ e1) eqn:Hp; [by split_and!|]. split_and!; [by apply (apply_field_wf e1 (FPrevLogNumber (nm_prev_log n)))|done|done|done]. }
  split_and!; [|by split| |done|done].
  - apply (apply_field_wf (SetNextFile (nm_next_file n) e2) (FLastSequence (nm_last_sequence n))); [|done]. by apply (apply_field_wf e2 (FNextFile (nm_next_file n))).
  - destruct B1, B2. split; cbn; congruence.
Qed.

(** A file whose description can be written. *)
Definition info_wf (i : Info) : Prop := is_u64 (i_number i) ∧ is_u64 i.1.1.2 ∧ str_ok (i_smallest i) ∧ str_ok (i_largest i).

Lemma snapshot_pointers_wf ptrs : ∀ level e, edit_wf e -> 0 <= level -> level + Z.of_nat (length ptrs) <= kNumLevels -> Forall str_ok ptrs ->
  edit_wf (snapshot_pointers level ptrs e) ∧ new_files_ (snapshot_pointers level ptrs e) = new_files_ e ∧ deleted_files_ (snapshot_pointers level ptrs e) = deleted_files_ e ∧
  has_comparator_ (snapshot_pointers level ptrs e) = has_comparator_ e ∧ comparator_ (snapshot_pointers level ptrs e) = comparator_ e.
Proof.
  induction ptrs as [|p ptrs IH]; intros level e He Hl Hlen Hp; [done|]. cbn [snapshot_pointers]. apply Forall_cons_1 in Hp as [Hp Hps]. cbn [length] in Hlen.
  set (e1 := if bool_decide (p = []) then e else SetCompactPointer level p e).
  assert (edit_wf e1) as He1.
  { unfold e1. destruct (bool_decide _); [done|]. apply (apply_field_wf e (FCompactPointer level p)); [done|]. split; [|done]. unfold level_ok. lia. }
  destruct (IH (level + 1) e1 He1) as (I1 & I2 & I3 & I4 & I5); [lia|lia|done|]. split_and!; [done|..]; rewrite ?I2, ?I3, ?I4, ?I5; unfold e1; by destruct (bool_decide _).
Qed.

(** The files of the levels from [level] on, as the edit lists them. *)
Fixpoint listed (level : Z) (levels : list (list File)) : list (Z * FileMetaData) :=
  match levels with
  | [] => []
  | fs :: levels => ((fun f => (level, FileMetaData_new (f_number f) (f_size f) (f_smallest f) (f_largest f))) <$> fs) ++ listed (level + 1) levels
  end.

Lemma add_files_wf level (fs : list File) : ∀ e, edit_wf e -> level_ok level -> (∀ f, f ∈ fs -> info_wf (finfo (file_meta f))) ->
  let e' := foldl (fun e (f : File) => AddFile level (f_number f) (f_size f) (f_smallest f) (f_largest f) e) e fs in
  edit_wf e' ∧ new_files_ e' = new_files_ e ++ ((fun f => (level, FileMetaData_new (f_number f) (f_size f) (f_smallest f) (f_largest f))) <$> fs) ∧
  deleted_files_ e' = deleted_files_ e ∧ compact_pointers_ e' = compact_pointers_ e ∧ has_comparator_ e' = has_comparator_ e ∧ comparator_ e' = comparator_ e.
Proof.
  induction fs as [|f fs IH]; intros e He Hl Hf; cbn [foldl]; [by rewrite app_nil_r|].
  destruct (IH (AddFile level (f_number f) (f_size f) (f_smallest f) (f_largest f) e)) as (I1 & I2 & I3 & I4 & I5 & I6); [|done|intros g Hg; apply Hf; by right|].
  - destruct (Hf f) as (F1 & F2 & F3 & F4); [by left|]. by apply (apply_field_wf e (FNewFile level (f_number f) (f_size f) (f_smallest f) (f_largest f))).
  - split_and!; [done| |done|done|done|done]. rewrite I2. cbn. by rewrite <- app_assoc.
Qed.

Lemma snapshot_files_wf levels : ∀ level e, edit_wf e -> 0 <= level -> level + Z.of_nat (length levels) <= kNumLevels ->
  (∀ fs f, fs ∈ levels -> f ∈ fs -> info_wf (finfo (file_meta f))) ->
  let e' := snapshot_files level levels e in
  edit_wf e' ∧ new_files_ e' = new_files_ e ++ listed level levels ∧ deleted_files_ e' = deleted_files_ e ∧ compact_pointers_ e' = compact_pointers_ e ∧
  has_comparator_ e' = has_comparator_ e ∧ comparator_ e' = comparator_ e.
Proof.
  induction levels as [|fs levels IH]; intros level e He Hl Hlen Hf; cbn [snapshot_files listed]; [by rewrite app_nil_r|]. cbn [length] in Hlen.
  destruct (add_files_wf level fs e He) as (A1 & A2 & A3 & A4 & A5 & A6); [unfold level_ok; lia|intros f Hin; apply (Hf fs); [by left|done]|].
  destruct (IH (level + 1) _ A1) as (I1 & I2 & I3 & I4 & I5 & I6); [lia|lia|intros gs f Hgs Hin; apply (Hf gs); [by right|done]|].
  split_and!; [done| |congruence|congruence|congruence|congruence]. rewrite I2, A2. by rewrite <- app_assoc.
Qed.

Lemma in_listed levels : ∀ level p, p ∈ listed level levels <->
  ∃ l fs f, levels !! l = Some fs ∧ f ∈ fs ∧ p = (level + Z.of_nat l, FileMetaData_new (f_number f) (f_size f) (f_smallest f) (f_largest f)).
Proof.
  induction levels as [|fs levels IH]; intros level p; cbn [listed]; [split; [by intros ?%elem_of_nil|by intros (l & fs & f & Hl & _)]|].
  rewrite elem_of_app, IH, list_elem_of_fmap. split.
  - intros [(f & -> & Hf)|(l & gs & f & Hl & Hf & ->)].
    + exists 0%nat, fs, f. split_and!; [done|done|]. f_equal. lia.
    + exists (S l), gs, f. split_and!; [done|done|]. f_equal. lia.
  - intros ([|l] & gs & f & Hl & Hf & ->); [left|right].
    + injection Hl as <-. exists f. split; [|done]. f_equal. lia.
    + exists l, gs, f. split_and!; [done|done|]. f_equal. lia.
Qed.

Lemma snapshot_edit_wf (ucmp : Comparator) (Hname : str_ok (ComparatorName ucmp)) (ptrs : list Slice) (v : Version) : length ptrs = Z.to_nat kNumLevels -> Forall str_ok ptrs -> length (files_ v) = Z.to_nat kNumLevels ->
  (∀ fs f, fs ∈ files_ v -> f ∈ fs -> info_wf (finfo (file_meta f))) ->
  let e := snapshot_edit ucmp ptrs v in
  edit_wf e ∧ new_files_ e = listed 0 (files_ v) ∧ deleted_files_ e = [] ∧ has_comparator_ e = true ∧ comparator_ e = ComparatorName ucmp.
Proof.
  intros Hp Hps Hv Hf. unfold snapshot_edit. unfold kNumLevels in *.
  assert (edit_wf (SetComparatorName (ComparatorName ucmp) VersionEdit_new)) as W0 by (apply (apply_field_wf VersionEdit_new (FComparator (ComparatorName ucmp))); [apply VersionEdit_new_wf|done]).
  destruct (snapshot_pointers_wf ptrs 0 _ W0) as (P1 & P2 & P3 & P4 & P5); [lia|unfold kNumLevels; lia|done|].
  destruct (snapshot_files_wf (files_ v) 0 _ P1) as (F1 & F2 & F3 & F4 & F5 & F6); [lia|unfold kNumLevels; lia|done|].
  split_and!; [done|by rewrite F2, P2|by rewrite F3, P3|by rewrite F5, P4|by rewrite F6, P5].
Qed.

Lemma cat_adds_lookup (ps : list (Z * FileMetaData)) : ∀ (c : Catalog) (l : nat) (A : gset Info), foldl (fun c p => cat_add p c) c ps !! l = Some A ->
  ∃ A0, c !! l = Some A0 ∧ ∀ i, i ∈ A <-> i ∈ A0 ∨ ∃ p, p ∈ ps ∧ Z.to_nat p.1 = l ∧ i = finfo p.2.
Proof.
  induction ps as [|p ps IH]; intros c l A HA; cbn [foldl] in HA.
  - exists A. split; [done|]. set_solver.
  - destruct (IH _ _ _ HA) as (A1 & H1 & Hi). destruct (decide (l = Z.to_nat p.1)) as [->|Hne].
    + unfold cat_add in H1. rewrite list_lookup_alter_eq in H1. destruct (c !! Z.to_nat p.1) as [A0|] eqn:E0; [|done]. injection H1 as <-. exists A0. split; [done|].
      intros i. rewrite Hi. set_solver.
    + unfold cat_add in H1. rewrite list_lookup_alter_ne in H1 by done. exists A1. split; [done|]. intros i. rewrite Hi. split; [set_solver|].
      intros [?|(q & [->|?]%elem_of_cons & ? & ?)]; [by left|congruence|]. right. by exists q.
Qed.

Lemma length_cat_adds (ps : list (Z * FileMetaData)) : ∀ c : Catalog, length (foldl (fun c p => cat_add p c) c ps) = length c.
Proof. induction ps as [|p ps IH]; intros c; cbn [foldl]; [done|]. rewrite IH. unfold cat_add. by rewrite length_alter. Qed.

(** The snapshot of a version describes what the version lists. *)
Lemma snapshot_catalog (ucmp : Comparator) (ptrs : list Slice) (v : Version) (c : Catalog) : represents ucmp (files_ v) c -> new_files_ (snapshot_edit ucmp ptrs v) = listed 0 (files_ v) ->
  deleted_files_ (snapshot_edit ucmp ptrs v) = [] -> cat_apply (snapshot_edit ucmp ptrs v) no_files = c.
Proof.
  intros [R1 R2 R3] Hn Hd. unfold cat_apply. rewrite Hn, Hd. cbn [foldl]. apply list_eq. intros l.
  destruct (foldl (fun c p => cat_add p c) no_files (listed 0 (files_ v)) !! l) as [A|] eqn:EA.
  - destruct (cat_adds_lookup _ _ _ _ EA) as (A0 & [-> Hlt]%lookup_replicate & Hi).
    destruct (lookup_lt_is_Some_2 c l) as [A' HA']; [lia|]. destruct (lookup_lt_is_Some_2 (files_ v) l) as [b Hb]; [lia|]. rewrite HA'. f_equal. apply set_eq. intros i.
    rewrite Hi, <- (ls_infos _ _ _ (R3 _ _ _ Hb HA')), in_infos. split.
    + intros [?%elem_of_empty|(p & Hp & Hpl & ->)]; [done|]. apply in_listed in Hp as (l' & fs & f & Hl' & Hf & ->). cbn in Hpl. assert (l' = l) as -> by lia.
      rewrite Hb in Hl'. injection Hl' as <-. by exists f.
    + intros (f & Hf & ->). right. eexists. split; [apply in_listed; by exists l, b, f|]. split; [cbn; lia|done].
  - symmetry. apply lookup_ge_None. rewrite R2. apply lookup_ge_None in EA. rewrite length_cat_adds in EA. unfold no_files in EA. by rewrite length_replicate in EA.
Qed.

(** ** What a manifest describes *)

(** The catalogue after the edits, and the levels and numbers they add. *)
Definition cat_all (es : list VersionEdit) (c : Catalog) : Catalog := foldl (fun c e => cat_apply e c) c es.
Definition seen_all (es : list VersionEdit) (S : gset (Z * Z)) : gset (Z * Z) := foldl (fun S e => new_pairs e ∪ S) S es.

(** The numbers [Recover] keeps: the log, the previous log, the next file and
    the last sequence. *)
Record Kept := MkKept { k_log : option Z; k_prev : option Z; k_next : option Z; k_last : option Z }.
Definition keep (k : Kept) (e : VersionEdit) : Kept :=
  MkKept (keep_number (has_log_number_ e) (log_number_ e) (k_log k)) (keep_number (has_prev_log_number_ e) (prev_log_number_ e) (k_prev k))
    (keep_number (has_next_file_number_ e) (next_file_number_ e) (k_next k)) (keep_number (has_last_sequence_ e) (last_sequence_ e) (k_last k)).
Definition kept_numbers (es : list VersionEdit) : Kept := foldl keep (MkKept None None None None) es.

(** The edits can be decoded and applied one after the other. *)
Fixpoint replayable (ucmp : Comparator) (okp : Slice -> Prop) (c : Catalog) (S : gset (Z * Z)) (es : list VersionEdit) : Prop :=
  match es with
  | [] => True
  | e :: es => edit_wf e ∧ (has_comparator_ e = true -> comparator_ e = ComparatorName ucmp) ∧ edit_fits okp S e ∧ catalog_ok ucmp okp (cat_apply e c) ∧
      replayable ucmp okp (cat_apply e c) (new_pairs e ∪ S) es
  end.

Lemma replayable_snoc (ucmp : Comparator) (okp : Slice -> Prop) (es : list VersionEdit) (e : VersionEdit) : ∀ (c : Catalog) (S : gset (Z * Z)), replayable ucmp okp c S es -> edit_wf e ->
  (has_comparator_ e = true -> comparator_ e = ComparatorName ucmp) -> edit_fits okp (seen_all es S) e -> catalog_ok ucmp okp (cat_apply e (cat_all es c)) ->
  replayable ucmp okp c S (es ++ [e]).
Proof.
  induction es as [|e1 es IH]; intros c S; cbn [app replayable cat_all seen_all foldl]; [tauto|]. intros (H1 & H2 & H3 & H4 & H5) He Hc Hf Hk. split_and!; auto.
Qed.

Lemma fits_less (okp : Slice -> Prop) (S S' : gset (Z * Z)) (e : VersionEdit) : S' ⊆ S -> edit_fits okp S e -> edit_fits okp S' e.
Proof. intros HS [H1 H2 H3 H4]. split; [done|done| |done]. refine (list.Forall_impl _ _ _ H3 _). intros p (P1 & P2 & P3). split_and!; [done|done|]. set_solver. Qed.

Lemma same_body_fits (okp : Slice -> Prop) (S : gset (Z * Z)) (e e' : VersionEdit) : same_body e e' -> edit_fits okp S e -> edit_fits okp S e'.
Proof. intros [_ _ B3 B4 B5]. by apply same_lists_fits. Qed.

Lemma same_body_cat (e e' : VersionEdit) (c : Catalog) : same_body e e' -> cat_apply e' c = cat_apply e c.
Proof. intros [_ _ _ B4 B5]. unfold cat_apply. by rewrite B4, B5. Qed.

Lemma same_body_pairs (e e' : VersionEdit) : same_body e e' -> new_pairs e' = new_pairs e.
Proof. intros [_ _ _ _ B5]. unfold new_pairs. by rewrite B5. Qed.

Lemma kept_snoc (es : list VersionEdit) (e : VersionEdit) : numbered e ->
  kept_numbers (es ++ [e]) = MkKept (Some (log_number_ e)) (Some (prev_log_number_ e)) (Some (next_file_number_ e)) (Some (last_sequence_ e)).
Proof. intros [N1 N2 N3 N4]. unfold kept_numbers. rewrite foldl_app. cbn [foldl]. unfold keep, keep_number. by rewrite N1, N2, N3, N4. Qed.

(** Every file of the catalogue can be written. *)
Definition cat_wf (c : Catalog) : Prop := ∀ l A i, c !! l = Some A -> i ∈ A -> info_wf i.

Lemma cat_apply_wf (e : VersionEdit) (c : Catalog) : edit_wf e -> cat_wf c -> cat_wf (cat_apply e c).
Proof.
  intros He Hc l A i HA Hi. destruct (cat_adds_in _ _ _ _ _ HA Hi) as [(A1 & H1 & Hi1)|(p & Hp & _ & ->)].
  - destruct (cat_deletes_in _ _ _ _ _ H1 Hi1) as (A0 & H0 & Hi0). by apply (Hc l A0).
  - pose proof (ew_files _ He) as Hf. rewrite list.Forall_forall in Hf. destruct (Hf p Hp) as [(_ & F2 & F3 & F4 & F5) _]. done.
Qed.

(** ** The snapshot as an edit *)

Lemma listed_ge (levels : list (list File)) : ∀ (level : Z) p, p ∈ listed level levels -> level <= p.1.
Proof. intros level p (l & fs & f & _ & _ & ->)%in_listed. cbn. lia. Qed.

Lemma listed_distinct (levels : list (list File)) : ∀ level : Z, (∀ fs, fs ∈ levels -> NoDup ((fun f => file_number (file_meta f)) <$> fs)) ->
  NoDup ((fun p : Z * FileMetaData => (p.1, file_number p.2)) <$> listed level levels).
Proof.
  induction levels as [|fs levels IH]; intros level Hn; cbn [listed]; [constructor|]. rewrite fmap_app. apply list.NoDup_app. split_and!.
  - rewrite <- list_fmap_compose. assert (NoDup ((fun f => file_number (file_meta f)) <$> fs)) as Hfs by (apply Hn; by left).
    apply (NoDup_fmap_2 (fun n => (level, n))) in Hfs. rewrite <- list_fmap_compose in Hfs. exact Hfs.
  - intros q (p & -> & (f & -> & Hf)%list_elem_of_fmap)%list_elem_of_fmap (p' & E & Hp')%list_elem_of_fmap. cbn in E. injection E as E _. apply listed_ge in Hp'. lia.
  - apply IH. intros gs Hgs. apply Hn. by right.
Qed.

Record pointers_ok (ptrs : list Slice) : Prop := {
  po_length : length ptrs = Z.to_nat kNumLevels;
  po_keys : Forall str_ok ptrs;
}.

Lemma ptr_apply_wf (e : VersionEdit) (ptrs : list Slice) : edit_wf e -> pointers_ok ptrs -> pointers_ok (ptr_apply e ptrs).
Proof.
  intros He. pose proof (ew_pointers _ He) as Hp. unfold ptr_apply. revert ptrs. induction Hp as [|p ps [_ Hs] Hp IH]; intros ptrs [P1 P2]; [by split|]. cbn [foldl]. apply IH.
  split; [by rewrite length_insert|by apply Forall_insert].
Qed.

(** What a snapshot says of the pointers and the version, without the code
    that writes it: the comparator, the compaction pointers as a reader that
    starts without any gets them, and all files, none of them twice or
    deleted. *)
Record snapshot_of (ucmp : Comparator) (ptrs : list Slice) (v : Version) (e : VersionEdit) : Prop := {
  sf_comparator : has_comparator_ e = true ∧ comparator_ e = ComparatorName ucmp;
  sf_pointers : ptr_apply e (replicate (Z.to_nat kNumLevels) []) = ptrs;
  sf_files : new_files_ e = listed 0 (files_ v);
  sf_deleted : deleted_files_ e = [];
  sf_numbers : has_log_number_ e = false ∧ has_prev_log_number_ e = false ∧ has_next_file_number_ e = false ∧ has_last_sequence_ e = false;
}.

(** The pointers that are set, with their levels. *)
Fixpoint set_pointers_of (level : Z) (ptrs : list Slice) : list (Z * Slice) :=
  match ptrs with [] => [] | p :: ptrs => (if bool_decide (p = []) then [] else [(level, p)]) ++ set_pointers_of (level + 1) ptrs end.

Lemma snapshot_pointers_fields ptrs : ∀ level e, snapshot_pointers level ptrs e = with_lists e (compact_pointers_ e ++ set_pointers_of level ptrs) (deleted_files_ e) (new_files_ e).
Proof.
  induction ptrs as [|p ptrs IH]; intros level e; cbn [snapshot_pointers set_pointers_of]; [rewrite app_nil_r; by destruct e|]. rewrite IH. destruct (bool_decide _); [done|]. cbn. by rewrite <- app_assoc.
Qed.

Lemma snapshot_files_fields levels : ∀ level e, snapshot_files level levels e = with_lists e (compact_pointers_ e) (deleted_files_ e) (new_files_ e ++ listed level levels).
Proof.
  induction levels as [|fs levels IH]; intros level e; cbn [snapshot_files listed]; [rewrite app_nil_r; by destruct e|]. rewrite IH.
  assert (∀ e, foldl (fun e (f : File) => AddFile level (f_number f) (f_size f) (f_smallest f) (f_largest f) e) e fs =
    with_lists e (compact_pointers_ e) (deleted_files_ e) (new_files_ e ++ ((fun f => (level, FileMetaData_new (f_number f) (f_size f) (f_smallest f) (f_largest f))) <$> fs))) as ->.
  { clear. induction fs as [|f fs IH]; intros e; cbn [foldl fmap list_fmap]; [rewrite app_nil_r; by destruct e|]. rewrite IH. cbn. by rewrite <- app_assoc. }
  cbn. by rewrite <- app_assoc.
Qed.

Lemma set_pointers_restore ptrs : ∀ pre level, level = Z.of_nat (length pre) ->
  foldl (fun ptrs p => <[Z.to_nat p.1 := p.2]> ptrs) (pre ++ replicate (length ptrs) []) (set_pointers_of level ptrs) = pre ++ ptrs.
Proof.
  induction ptrs as [|p ptrs IH]; intros pre level ->; cbn [set_pointers_of length replicate]; [done|]. rewrite foldl_app.
  assert (foldl (fun ptrs p => <[Z.to_nat p.1 := p.2]> ptrs) (pre ++ [] :: replicate (length ptrs) []) (if bool_decide (p = []) then [] else [(Z.of_nat (length pre), p)]) = (pre ++ [p]) ++ replicate (length ptrs) []) as ->.
  { destruct (bool_decide_reflect (p = [])) as [->|]; cbn [foldl fst snd]; [by rewrite <- app_assoc|]. rewrite Nat2Z.id, <- (Nat.add_0_r (length pre)), insert_app_r. cbn. by rewrite <- app_assoc. }
  rewrite IH by (rewrite length_app; cbn; lia). by rewrite <- app_assoc.
Qed.

Lemma snapshot_edit_of (ucmp : Comparator) (ptrs : list Slice) (v : Version) : pointers_ok ptrs -> snapshot_of ucmp ptrs v (snapshot_edit ucmp ptrs v).
Proof.
  intros [Hp _]. unfold snapshot_edit. rewrite snapshot_files_fields, snapshot_pointers_fields. split; try done. unfold ptr_apply. cbn [compact_pointers_ with_lists SetComparatorName VersionEdit_new Clear app].
  rewrite <- Hp. by apply (set_pointers_restore ptrs [] 0).
Qed.

Lemma snapshot_replayable (ucmp : Comparator) (okp : Slice -> Prop) (ptrs : list Slice) (v : Version) (c : Catalog) (S : gset (Z * Z)) : str_ok (ComparatorName ucmp) -> pointers_ok ptrs -> represents ucmp (files_ v) c -> catalog_ok ucmp okp c -> cat_wf c ->
  (∀ l A i, c !! l = Some A -> i ∈ A -> (Z.of_nat l, i_number i) ∈ S) ->
  let e := snapshot_edit ucmp ptrs v in edit_wf e ∧ replayable ucmp okp no_files ∅ [e] ∧ cat_all [e] no_files = c ∧ seen_all [e] ∅ ⊆ S.
Proof.
  intros Hname [P1 P2] Hrep Hcat Hwf Hseen e.
  destruct (snapshot_edit_wf ucmp Hname ptrs v P1 P2 (rp_files _ _ _ Hrep)) as (W & Hnew & Hdel & Hhc & Hc).
  { intros fs f [l Hl]%list_elem_of_lookup Hf. destruct (represents_files ucmp _ _ _ _ _ Hrep Hl Hf) as (A & HA & Hi). by apply (Hwf l A). }
  pose proof (snapshot_catalog ucmp ptrs v c Hrep Hnew Hdel) as Ec.
  assert (∀ p, p ∈ listed 0 (files_ v) -> level_ok p.1 ∧ ikey_ok okp (smallest p.2) ∧ (p.1, file_number p.2) ∈ S) as Hl.
  { intros p (l & fs & f & Hl & Hf & ->)%in_listed. destruct (represents_files ucmp _ _ _ _ _ Hrep Hl Hf) as (A & HA & Hi). cbn.
    pose proof (lookup_lt_Some _ _ _ Hl) as Hlt. rewrite (rp_files _ _ _ Hrep) in Hlt. split_and!.
    - unfold level_ok, kNumLevels in *. lia.
    - exact (io_small _ _ _ (proj1 (Hcat l A HA) _ Hi)).
    - exact (Hseen l A _ HA Hi). }
  split_and!; [done| |exact Ec|].
  - cbn [replayable]. split_and!; [done|done| |by fold e in Ec; rewrite Ec|done]. split; unfold e.
    + refine (list.Forall_impl _ _ _ (ew_pointers _ W) _). by intros p [? _].
    + rewrite Hdel. constructor.
    + rewrite Hnew. apply list.Forall_forall. intros p Hp. destruct (Hl p Hp) as (L1 & L2 & _). split_and!; [done|done|]. set_solver.
    + rewrite Hnew. apply listed_distinct. intros fs [l Hlk]%list_elem_of_lookup.
      destruct (lookup_lt_is_Some_2 c l) as [A HA]; [rewrite (rp_catalog _ _ _ Hrep), <- (rp_files _ _ _ Hrep); by eapply lookup_lt_Some|].
      exact (ls_numbers _ _ _ (rp_lists _ _ _ Hrep l fs A Hlk HA)).
  - cbn [seen_all foldl]. intros q Hq. apply elem_of_union in Hq as [Hq|Hq]; [|set_solver]. unfold new_pairs, e in Hq. rewrite Hnew in Hq.
    apply elem_of_list_to_set, list_elem_of_fmap in Hq as (p & -> & Hp). by apply Hl.
Qed.

(** ** [LogAndApply] on a working disk *)

Section Durable.

Context {W : Type} `{!Env W, !EnvView W, !DiskView W, !DiskLaws W} (ucmp : Comparator) (okp : Slice -> Prop) `{!ComparatorLaws ucmp okp} (dbname : Slice) (addr : Slice -> Z).
Implicit Types (w : W) (vs : VersionSet W).

Definition closed vs : Prop := descriptor_file_ vs = None ∧ descriptor_log_ vs = None.

Lemma open_manifest_durable vs v n : closed vs -> good (vs_env vs) -> nm_manifest_file (vs_numbers vs) = n -> current_version vs = Some v ->
  edit_wf (snapshot_edit ucmp (compact_pointer_ vs) v) ->
  let f := DescriptorFileName dbname n in
  ∃ w' h off prs, open_manifest ucmp dbname addr vs = Some (None, f, set_descriptor (Some h) (Some off) (set_env w' vs)) ∧
    manifest_at f [snapshot_edit ucmp (compact_pointer_ vs) v] [prs] h off w'.
Proof using DiskLaws0.
  intros [C1 C2] Hg Hn Hv He f. unfold open_manifest. rewrite C1, C2, Hn. fold f. destruct (NewWritableFile f (vs_env vs)) as [[s h] w] eqn:E.
  destruct (disk_new _ _ _ _ _ Hg E) as (-> & G1 & _ & _). destruct (new_law _ _ _ _ _ E) as [_ P1]. specialize (P1 eq_refl). cbn [ok].
  unfold WriteSnapshot. change (current_version (set_descriptor (Some h) (Some 0) (set_env w vs))) with (current_version vs). rewrite Hv. cbn [mbind option_bind].
  destruct (manifest_append addr (snapshot_edit ucmp (compact_pointer_ vs) v) (set_descriptor (Some h) (Some 0) (set_env w vs)) h 0 f [] []) as (w' & off & prs & E' & Hm & _ & _);
    [done|done|split; [done|exact P1|split; [constructor|done]|split; [done|by left]]|done|].
  unfold encoded in E'. change (compact_pointer_ (set_descriptor (Some h) (Some 0) (set_env w vs))) with (compact_pointer_ vs). rewrite E'. cbn [mbind option_bind].
  by exists w', h, off, prs.
Qed.

(** The disk holds the edits [es], which describe the catalogue [c] and the
    log numbers. *)
Record recoverable (n : Z) (es : list VersionEdit) (c : Catalog) (S : gset (Z * Z)) vs : Prop := {
  rv_good : good (vs_env vs);
  rv_durable : ∃ prss, durable dbname n es prss vs;
  rv_replay : replayable ucmp okp no_files ∅ es;
  rv_catalog : cat_all es no_files = c;
  rv_seen : seen_all es ∅ ⊆ S;
  rv_numbers : ∃ next last, kept_numbers es = MkKept (Some (nm_log (vs_numbers vs))) (Some (nm_prev_log (vs_numbers vs))) (Some next) (Some last);
}.

(** What the manifest can hold of the state. *)
Record storable (c : Catalog) vs : Prop := {
  st_numbers : numbers_ok (vs_numbers vs);
  st_pointers : pointers_ok (compact_pointer_ vs);
  st_files : cat_wf c;
}.

Definition edits_before (es : list VersionEdit) (edit : VersionEdit) (v : Version) vs : list VersionEdit :=
  match descriptor_log_ vs with Some _ => es | None => [snapshot_edit ucmp (ptr_apply edit (compact_pointer_ vs)) v] end.

Lemma manifest_at_quiet vs vs' f es prss h off : quiet dbname vs vs' -> descriptor_file_ vs = Some h -> manifest_at f es prss h off (vs_env vs) -> manifest_at f es prss h off (vs_env vs').
Proof using Type. intros [_ Q2 Q3 _] Hh [M1 M2 M3 M4]. split; [auto|by rewrite (Q3 h Hh)|done|done]. Qed.

(** The manifest when the edit is appended. *)
Lemma open_or_durable (other : VersionSet W -> VersionSet W) (edit : VersionEdit) vs vs1 v es n name s2 vs2 : (∀ vs, quiet dbname vs (other vs)) ->
  good (vs_env vs) -> closed vs ∨ (∃ prss, durable dbname n es prss vs) -> nm_manifest_file (vs_numbers vs) = n -> current_version vs = Some v ->
  edit_wf (snapshot_edit ucmp (ptr_apply edit (compact_pointer_ vs)) v) ->
  vs_env vs1 = vs_env vs -> vs_numbers vs1 = vs_numbers vs -> descriptor_file_ vs1 = descriptor_file_ vs -> descriptor_log_ vs1 = descriptor_log_ vs ->
  current_version vs1 = current_version vs -> compact_pointer_ vs1 = ptr_apply edit (compact_pointer_ vs) ->
  open_manifest ucmp dbname addr vs1 = Some (s2, name, vs2) ->
  let vs3 := other vs2 in let f := DescriptorFileName dbname n in
  s2 = None ∧ vs_numbers vs2 = vs_numbers vs ∧
  ∃ h off prss, descriptor_file_ vs3 = Some h ∧ descriptor_log_ vs3 = Some off ∧ manifest_at f (edits_before es edit v vs) prss h off (vs_env vs3) ∧
    (name = [] -> contents (vs_env vs3) (CurrentFileName dbname) = Some (current_name n)).
Proof using DiskLaws0.
  intros Hq Hg Hm Hn Hv He W1 N1 F1 L1 C1 P1 Eopen. cbv zeta. set (f := DescriptorFileName dbname n). unfold edits_before. pose proof (Hq vs2) as Q. destruct (qu_rest _ _ _ Q) as [_ U2 U3 _ _ _ _ _ _ _].
  destruct Hm as [[D1 D2]|(prss & [D1 (h & off & D2 & D3 & D4) [D5 D6 D7]])].
  - destruct (open_manifest_durable vs1 v n) as (w' & h & off & prs & E & Hm); [unfold closed; by rewrite F1, L1|by rewrite W1|by rewrite N1|by rewrite C1|by rewrite P1|].
    rewrite E in Eopen. injection Eopen as <- <- <-. rewrite D2. split_and!; [done|by cbn|]. exists h, off, [prs]. split_and!; [by rewrite U2|by rewrite U3| |].
    + rewrite <- P1. by apply (manifest_at_quiet _ _ f _ _ h off Q).
    + intros Hname. by apply (f_equal length) in Hname; unfold DescriptorFileName in Hname; rewrite !length_app in Hname; cbn in Hname; lia.
  - unfold open_manifest in Eopen. rewrite L1, D3 in Eopen. injection Eopen as <- <- <-. rewrite D3. split_and!; [done|done|]. exists h, off, prss.
    split_and!; [by rewrite U2, F1|by rewrite U3, L1, D3| |].
    + apply (manifest_at_quiet vs1 _ f _ _ h off Q); [by rewrite F1|by rewrite W1].
    + intros _. rewrite (qu_files _ _ _ Q) by by left. by rewrite W1.
Qed.

Lemma LogAndApply_durable (other : VersionSet W -> VersionSet W) (edit : VersionEdit) vs (extra : list nat) (c : Catalog) (S : gset (Z * Z)) (es : list VersionEdit) :
  (∀ k, okp k -> Forall is_u8 k) -> str_ok (ComparatorName ucmp) -> set_ok ucmp okp extra c S vs -> storable c vs -> good (vs_env vs) ->
  closed vs ∨ recoverable (nm_manifest_file (vs_numbers vs)) es c S vs ->
  edit_wf edit -> (has_comparator_ edit = true -> comparator_ edit = ComparatorName ucmp) ->
  (has_log_number_ edit = true -> nm_log (vs_numbers vs) <= log_number_ edit < nm_next_file (vs_numbers vs)) ->
  edit_fits okp S edit -> catalog_ok ucmp okp (cat_apply edit c) -> (∀ vs, quiet dbname vs (other vs)) ->
  ∃ edit' vs' es', LogAndApply ucmp dbname addr other edit vs = Some (Status_OK, edit', vs') ∧
    set_ok ucmp okp extra (cat_apply edit c) (new_pairs edit ∪ S) vs' ∧ cat_wf (cat_apply edit c) ∧
    nm_log (vs_numbers vs') = log_number_ edit' ∧ nm_prev_log (vs_numbers vs') = prev_log_number_ edit' ∧
    recoverable (nm_manifest_file (vs_numbers vs)) (es' ++ [edit']) (cat_apply edit c) (new_pairs edit ∪ S) vs' ∧
    (descriptor_log_ vs ≠ None -> es' = es) ∧
    (descriptor_log_ vs = None -> ∃ v e, current_version vs = Some v ∧ es' = [e] ∧ snapshot_of ucmp (ptr_apply edit (compact_pointer_ vs)) v e).
Proof using DiskLaws0 ComparatorLaws0.
  intros Hb Hnm Hset [Hnum Hptr Hwf] Hg Hopen He Hcmp Hlog Hfit Hcat Hq.
  assert (desc_ok vs) as Hdesc.
  { unfold desc_ok. destruct Hopen as [[-> ->]|[_ (prss & [_ (h & off & -> & -> & [_ _ _ [M4 M5]]) _]) _ _ _ _]]; [done|].
    destruct M5 as [->|[-> _]]; unfold kBlockSize; [|lia]. pose proof (Z.mod_pos_bound (layout_end 0 (concat prss)) 32768). lia. }
  destruct (LogAndApply_ok ucmp okp dbname addr other edit vs extra c S Hb Hset Hdesc Hlog Hfit Hcat) as (s & edit' & vs' & E & Hd' & Happ & Hres); [intros vs0; exact (qu_rest _ _ _ (Hq vs0))|].
  destruct Happ as (e1 & vs1 & s2 & name & vs2 & vs4 & A1 & A2 & A3 & A4 & A5 & A6 & A7 & A8 & A9 & A10 & A11).
  destruct (complete_edit_wf edit (vs_numbers vs) e1 Hnum He A1) as (W1 & NB1 & B1 & _ & _).
  destruct (so_current _ _ _ _ _ _ Hset) as (id & nd & Hid & Hnd & Hrep).
  assert (current_version vs = Some (node_version nd)) as Hcv by (unfold current_version; rewrite Hid; cbn [mbind option_bind]; by rewrite Hnd).
  destruct (snapshot_replayable ucmp okp (ptr_apply edit (compact_pointer_ vs)) (node_version nd) c S Hnm) as (R1 & R2 & R3 & R4);
    [by apply ptr_apply_wf|done|by apply (so_catalog _ _ _ _ _ _ Hset)|done|by apply (so_seen _ _ _ _ _ _ Hset)|].
  destruct (open_or_durable other edit vs vs1 (node_version nd) es (nm_manifest_file (vs_numbers vs)) name s2 vs2 Hq Hg) as (-> & N2 & h & off & prss & H1 & H2 & H3 & H4);
    [by destruct Hopen as [?|[]]; [left|right]|done|done|exact R1|done..|].
  assert (edit_wf edit' ∧ numbered edit' ∧ same_body edit edit') as (W2 & NB2 & B2).
  { rewrite A9. destruct (bool_decide (name = [])); [by split_and!|]. rewrite N2. split_and!.
    - apply (apply_field_wf e1 (FNextFile (nm_next_file (vs_numbers vs)))); [done|]. exact (no_next _ Hnum).
    - by destruct NB1.
    - by destruct B1. }
  destruct (qu_rest _ _ _ (Hq vs2)) as [_ _ _ U4 _ _ _ _ _ _].
  destruct (write_edit_durable addr dbname edit' (nm_manifest_file (vs_numbers vs)) name (other vs2) h off (edits_before es edit (node_version nd) vs) prss W2 (no_manifest _ Hnum)) as (vs5 & prs & E5 & [D1 D2 D3] & N5);
    [by rewrite U4, N2|done|done|exact H3|exact H4|].
  rewrite E5 in A10. injection A10 as <- <-. cbn [ok] in Hres, A11. destruct (A11 eq_refl) as (K1 & K2 & K3 & K4 & K5). destruct Hres as (Hset' & L1 & L2).
  assert (replayable ucmp okp no_files ∅ (edits_before es edit (node_version nd) vs) ∧ cat_all (edits_before es edit (node_version nd) vs) no_files = c ∧
    seen_all (edits_before es edit (node_version nd) vs) ∅ ⊆ S) as (T1 & T2 & T3).
  { unfold edits_before. destruct Hopen as [[_ ->]|Hrec]; [by split_and!|]. destruct (rv_durable _ _ _ _ _ Hrec) as (? & [_ (? & ? & _ & -> & _) _]). by destruct Hrec. }
  exists edit', vs', (edits_before es edit (node_version nd) vs). split; [exact E|]. split; [exact Hset'|]. split; [by apply cat_apply_wf|]. split; [exact L1|]. split; [exact L2|]. split.
  - split.
    + rewrite K1. destruct D2 as (h' & off' & _ & _ & [M1 _ _ _]). exact M1.
    + exists (prss ++ [prs]). split.
      * rewrite K5. exact D1.
      * rewrite K1, K2, K3. exact D2.
      * rewrite K1. exact D3.
    + apply replayable_snoc; [done|done| | |].
      * destruct B2 as [B2 B3 _ _ _]. by rewrite B2, B3.
      * apply (same_body_fits okp _ edit); [done|]. by apply (fits_less okp S).
      * rewrite T2, (same_body_cat edit) by done. done.
    + unfold cat_all. rewrite foldl_app. cbn [foldl]. fold (cat_all (edits_before es edit (node_version nd) vs) no_files). rewrite T2. by apply same_body_cat.
    + unfold seen_all. rewrite foldl_app. cbn [foldl]. fold (seen_all (edits_before es edit (node_version nd) vs) ∅). rewrite (same_body_pairs edit) by done. set_solver.
    + eexists _, _. rewrite kept_snoc by done. by rewrite L1, L2.
  - unfold edits_before. split; [by destruct (descriptor_log_ vs)|]. intros ->. eexists _, _. split_and!; [done|done|]. by apply snapshot_edit_of, ptr_apply_wf.
Qed.

End Durable.

(** ** [Recover] *)

Section Replay.

Context {W : Type} `{!Env W, !EnvView W, !DiskView W, !DiskLaws W} (ucmp : Comparator) (okp : Slice -> Prop) `{!ComparatorLaws ucmp okp} (addr : Slice -> Z).
Context (Hbytes : ∀ k, okp k -> Forall is_u8 k).
Implicit Types (w : W) (vs : VersionSet W).

(** What reading leaves as it is, since the disk [w0]. *)
Definition only_reads w0 w : Prop := good w ∧ same_files w0 w ∧ same_objects w0 w.

Lemma only_reads_trans w1 w2 w3 : only_reads w1 w2 -> only_reads w2 w3 -> only_reads w1 w3.
Proof using Type. intros (_ & A1 & A2) (G & B1 & B2). split_and!; [done|intros f; by rewrite B1|intros h; by rewrite B2]. Qed.

#[local] Instance manifest_reads (h : Z) (w0 : W) : OpenReads (SequentialFile0 := env_sequential) (Z * W).
Proof using DiskLaws0.
  refine {| unread := fun x : Z * W => default [] (unread_of x.2 x.1); readable := fun x : Z * W => x.1 = h ∧ only_reads w0 x.2 ∧ is_Some (unread_of x.2 h) |}.
  intros n [h' w] Hn (Eh & (Hg & Hf & Ho) & [d Hd]). cbn in Eh. subst h'. cbn in Hg, Hf, Ho, Hd. destruct (disk_read h n d w Hg Hn Hd) as (w' & E & G' & D' & F' & O').
  exists (h, w'). cbn -[unread_of]. rewrite E. cbn -[unread_of]. rewrite Hd, D'. split_and!; [done|done|done| |by eexists].
  apply (only_reads_trans _ w); [by split_and!|by split_and!].
Defined.

Lemma read_loop_good h n : ∀ d acc w, (length d < n)%nat -> good w -> unread_of w h = Some d ->
  ∃ w', read_loop n h acc w = Some (None, acc ++ d, w') ∧ only_reads w w'.
Proof using DiskLaws0.
  induction n as [|n IH]; intros d acc w Hn Hg Hd; [lia|]. cbn [read_loop].
  destruct (disk_read h kBufferSize d w Hg ltac:(unfold kBufferSize; lia) Hd) as (w1 & -> & G1 & D1 & F1 & O1). cbn [ok negb].
  destruct d as [|x d].
  - rewrite take_nil, bool_decide_eq_true_2 by done. exists w1. by split_and!.
  - rewrite bool_decide_eq_false_2 by done. destruct (IH (drop (Z.to_nat kBufferSize) (x :: d)) (acc ++ take (Z.to_nat kBufferSize) (x :: d)) w1) as (w2 & E2 & R2); [|done|exact D1|].
    + rewrite length_drop. cbn [length] in *. unfold kBufferSize. lia.
    + exists w2. rewrite E2, <- app_assoc, take_drop. split; [done|]. apply (only_reads_trans _ w1); [by split_and!|done].
Qed.

Lemma ReadFileToString_good n f d w : (length d < n)%nat -> good w -> contents w f = Some d ->
  ∃ w', ReadFileToString n f w = Some (None, d, w') ∧ only_reads w w'.
Proof using DiskLaws0.
  intros Hn Hg Hd. unfold ReadFileToString. destruct (NewSequentialFile f w) as [[s h] w1] eqn:E1.
  destruct (disk_open _ _ _ _ _ _ Hg Hd E1) as (-> & G1 & U1 & F1 & O1). cbn [ok negb]. destruct (read_loop_good h n d [] w1 Hn G1 U1) as (w2 & -> & (G2 & F2 & O2)).
  cbn [mbind option_bind app]. destruct (disk_close_read h w2 G2) as (G3 & F3 & O3). eexists. split; [done|].
  apply (only_reads_trans _ w1); [by split_and!|]. apply (only_reads_trans _ w2); by split_and!.
Qed.

(** ** One record *)

(** The loop of [Recover] after some edits. *)
Record replayed (B : list (list File)) (L : list nat) (base : nat) (vs0 : VersionSet W) (c : Catalog) (S : gset (Z * Z)) (k : Kept) (st : RecoverState) : Prop := {
  rd_status : rc_status st = None;
  rd_numbers : MkKept (rc_log st) (rc_prev_log st) (rc_next_file st) (rc_last_sequence st) = k;
  rd_base : base_ (rc_builder st) = base;
  rd_builds : builds ucmp okp B (levels_ (rc_builder st)) c S;
  rd_heap : heap_ok ((file_addr <$> added_all (levels_ (rc_builder st))) ++ L) (vs_heap (rc_set st));
  rd_next : (hp_next (vs_heap vs0) <= hp_next (vs_heap (rc_set st)))%nat;
  rd_set : ∃ ptrs, rc_set st = set_file_heap (vs_heap (rc_set st)) (set_pointers ptrs vs0);
}.

Lemma DecodeFrom_encoded (e : VersionEdit) : edit_wf e -> DecodeFrom VersionEdit_new (encoded e) = (Status_OK, e).
Proof using Type. intros He. unfold encoded. rewrite DecodeFrom_EncodeTo by done. by destruct e. Qed.

Lemma recover_record_ok (B : list (list File)) (L : list nat) (base : nat) (vs0 : VersionSet W) (c : Catalog) (S : gset (Z * Z)) (k : Kept) (st : RecoverState) (e : VersionEdit) :
  replayed B L base vs0 c S k st -> edit_wf e -> (has_comparator_ e = true -> comparator_ e = ComparatorName ucmp) -> edit_fits okp S e ->
  ∃ st', recover_record ucmp (encoded e) st = Some st' ∧ replayed B L base vs0 (cat_apply e c) (new_pairs e ∪ S) (keep k e) st'.
Proof using ComparatorLaws0 Hbytes.
  intros [R1 R2 R3 R4 R5 R6 (ptrs & R7)] He Hc Hf. unfold recover_record. rewrite DecodeFrom_encoded by done. change (ok Status_OK) with true.
  cbn [andb]. match goal with |- context [has_comparator_ e && negb ?b] => assert (has_comparator_ e && negb b = false) as -> end.
  { destruct (has_comparator_ e); [|done]. by rewrite bool_decide_eq_true_2 by auto. }
  change (ok Status_OK) with true. cbn iota. destruct (Builder_Apply_ok ucmp okp Hbytes B (rc_builder st) c S e (rc_set st) L R4 Hf) as (levels & h & -> & HB & Hh & Hx); [exact R5|].
  cbn [mbind option_bind]. eexists. split; [done|]. split; cbn.
  - done.
  - by rewrite <- R2.
  - done.
  - done.
  - done.
  - lia.
  - exists (ptr_apply e (compact_pointer_ (rc_set st))). by rewrite R7.
Qed.

(** ** The loop *)

Lemma recover_loop_ok (h : Z) (w0 : W) (B : list (list File)) (L : list nat) (base : nat) (vs0 : VersionSet W) (es : list VersionEdit) (prss : list (list (Z * Slice))) :
  Forall2 fragments (encoded <$> es) prss -> ∀ (k n : nat) (r : Reader (Z * W)) (p : Z) (m : nat) (c : Catalog) (S : gset (Z * Z)) (ks : Kept) (st : RecoverState),
  (length es < k)%nat -> (length (concat prss) < n)%nat ->
  reader_at (SequentialFile0 := env_sequential) (OpenReads0 := manifest_reads h w0) r p (take m (layout p (concat prss))) -> in_blocks p (concat prss) -> reports_ r = [] ->
  replayable ucmp okp c S es -> replayed B L base vs0 c S ks st ->
  ∃ j r' st', recover_loop ucmp addr k n r st = Some (r', st') ∧ (j <= length es)%nat ∧ layout_end p (concat (take j prss)) - p <= Z.of_nat m ∧
    ((j < length es)%nat -> Z.of_nat m < layout_end p (concat (take (Datatypes.S j) prss)) - p) ∧
    (file_ r').1 = h ∧ only_reads w0 (file_ r').2 ∧
    replayed B L base vs0 (cat_all (take j es) c) (seen_all (take j es) S) (foldl keep ks (take j es)) st'.
Proof using DiskLaws0 ComparatorLaws0 Hbytes.
  revert prss. induction es as [|e es IH]; intros prss Hf; inversion Hf as [|? prs ? prss' Hr Hf']; subst; intros k n r p m c S ks st Hk Hn Hat Hib Hrep Hes Hst;
    (destruct k as [|k]; [simpl in Hk; lia|]); cbn [recover_loop]; pose proof Hat as [Hi _ Hl Hp _ _ _ _ _ _]; rewrite ReadRecord_loop by done.
  - cbn [concat layout] in Hat. rewrite take_nil in Hat. destruct (ReadPhysicalRecord_end (SequentialFile0 := env_sequential) (OpenReads0 := manifest_reads h w0) addr [] r p Hat) as (r' & Hread & Hrep' & He).
    destruct n as [|n]; [simpl in Hn; lia|]. erewrite (loop_eof (SequentialFile0 := env_sequential) (OpenReads0 := manifest_reads h w0) addr n (Locals false 0 [] [])) by done. cbn [mbind option_bind andb].
    exists 0%nat, r', (set_status (reported r' (rc_status st)) st). destruct He as (_ & _ & _ & _ & _ & E1 & E2 & _). split_and!; [done|done|cbn; lia|cbn; lia|done|done|].
    unfold reported. rewrite Hrep', Hrep, (rd_status _ _ _ _ _ _ _ _ Hst). cbn [take cat_all seen_all foldl]. destruct Hst. by split.
  - cbn [concat] in *. rewrite length_app in Hn.
    pose proof (fragments_result (SequentialFile0 := env_sequential) (OpenReads0 := manifest_reads h w0) addr (encoded e) prs (concat prss') n r p m Hr ltac:(lia) Hat Hib) as Hres.
    unfold record_result in Hres. pose proof (layout_end_ge p prs Hp) as Hge.
    destruct (Z.leb_spec (layout_end p prs - p) (Z.of_nat m)) as [Hle|Hgt]; destruct Hres as (r' & -> & Hrep' & Hat'); cbn [mbind option_bind].
    + assert (reported r' (rc_status st) = None) as -> by (unfold reported; by rewrite Hrep', Hrep, (rd_status _ _ _ _ _ _ _ _ Hst)). cbn [ok andb].
      destruct Hes as (E1 & E2 & E3 & E4 & E5).
      destruct (recover_record_ok B L base vs0 c S ks (set_status None st) e) as (st1 & -> & Hst1); [destruct Hst; by split|done..|]. cbn [mbind option_bind].
      apply in_blocks_app in Hib as [_ Hib].
      destruct (IH prss' Hf' k n r' (layout_end p prs) (m - Z.to_nat (layout_end p prs - p))%nat (cat_apply e c) (new_pairs e ∪ S) (keep ks e) st1 ltac:(simpl in Hk; lia) ltac:(lia) Hat' Hib ltac:(congruence) E5 Hst1)
        as (j & r2 & st2 & -> & Hj & Hle2 & Hgt2 & F1 & F2 & Hst2).
      exists (Datatypes.S j), r2, st2. split_and!; [done|simpl; lia| | |done|done|done].
      * cbn [take concat]. rewrite layout_end_app. lia.
      * intros Hlt. simpl in Hlt. specialize (Hgt2 ltac:(lia)).
        change (take (Datatypes.S (Datatypes.S j)) (prs :: prss')) with (prs :: take (Datatypes.S j) prss'). cbn [concat].
        rewrite layout_end_app. lia.
    + cbn [andb]. destruct Hat' as (_ & _ & _ & _ & _ & E1 & E2 & _). exists 0%nat, r', (set_status (reported r' (rc_status st)) st).
      split_and!; [done|lia|cbn; lia| |done|done|].
      * intros _. cbn [take concat]. by rewrite app_nil_r.
      * unfold reported. rewrite Hrep', Hrep, (rd_status _ _ _ _ _ _ _ _ Hst). cbn [take cat_all seen_all foldl]. destruct Hst. by split.
Qed.

End Replay.

(** ** Installing the recovered version *)

Section Install.

Context {W : Type} `{!Env W} (ucmp : Comparator) (okp : Slice -> Prop) `{!ComparatorLaws ucmp okp} (Hbytes : ∀ k, okp k -> Forall is_u8 k) (max_file_size : Z) (reuse_logs : bool).
Implicit Types (vs : VersionSet W).

(** A builder at work on the current version. *)
Record building (b : Builder) (n : Node) (c : Catalog) (S : gset (Z * Z)) vs : Prop := {
  bg_node : find_node (base_ b) vs = Some n;
  bg_current : current_ vs = Some (base_ b);
  bg_refs : 2 <= node_refs n;
  bg_builds : builds ucmp okp (files_ (node_version n)) (levels_ b) c S;
  bg_vers : vers_ok (file_addr <$> added_all (levels_ b)) vs;
}.

Lemma vers_ok_same (extra : list nat) vs vs' : vs_versions vs' = vs_versions vs -> vs_heap vs' = vs_heap vs -> vers_ok extra vs -> vers_ok extra vs'.
Proof using Type. intros E1 E2 [V1 V2 V3 V4]. split; rewrite ?E1, ?E2; done. Qed.

Lemma ReuseManifest_ok (dscname dscbase : Slice) vs : closed vs ->
  ∃ b vs', ReuseManifest max_file_size reuse_logs dscname dscbase vs = Some (b, vs') ∧ desc_ok vs' ∧ vs_versions vs' = vs_versions vs ∧ vs_heap vs' = vs_heap vs ∧
    current_ vs' = current_ vs ∧ (∃ manifest, vs_numbers vs' = let n := vs_numbers vs in MkNumbers (nm_next_file n) manifest (nm_last_sequence n) (nm_log n) (nm_prev_log n)) ∧
    (reuse_logs = false -> b = false ∧ vs' = vs).
Proof using Type.
  intros [C1 C2].
  assert (∀ w, desc_ok (set_env w vs) ∧ ∃ manifest, vs_numbers vs = let n := vs_numbers vs in MkNumbers (nm_next_file n) manifest (nm_last_sequence n) (nm_log n) (nm_prev_log n)) as Hsame.
  { intros w. unfold desc_ok. cbn. rewrite C1, C2. split; [done|]. exists (nm_manifest_file (vs_numbers vs)). by destruct (vs_numbers vs). }
  destruct (Hsame (vs_env vs)) as [H1 H2]. unfold ReuseManifest. destruct reuse_logs; cbn [negb]; [|by exists false, vs].
  destruct (ParseFileName dscbase) as [[number []]|]; try by (exists false, vs).
  destruct (GetFileSize dscname (vs_env vs)) as [[s size] w]. destruct (Hsame w) as [H3 H4].
  destruct (negb (ok s) || _); [by exists false, (set_env w vs)|]. change (descriptor_file_ (set_env w vs)) with (descriptor_file_ vs). change (descriptor_log_ (set_env w vs)) with (descriptor_log_ vs).
  rewrite C1, C2. destruct (env_NewAppendableFile dscname (vs_env (set_env w vs))) as [[r h] w2]. destruct (Hsame w2) as [H5 H6].
  destruct (negb (ok r)); [by exists false, (set_env w2 vs)|]. eexists true, _. split; [done|]. split_and!; try done.
  - unfold desc_ok. cbn. pose proof (Z.mod_pos_bound size kBlockSize). unfold kBlockSize in *. lia.
  - by exists number.
Qed.

Lemma represents_builds (b : Builder) (n : Node) (c : Catalog) (S : gset (Z * Z)) vs (extra : list nat) : building b n c S vs -> catalog_ok ucmp okp c -> vers_ok ((file_addr <$> added_all (levels_ b)) ++ extra) vs ->
  ∃ files h, SaveTo ucmp b vs = Some (files, set_file_heap h vs) ∧ represents ucmp files c ∧
    vers_ok ((file_addr <$> added_all (levels_ b)) ++ (file_addr <$> concat files) ++ extra) (set_file_heap h vs) ∧ hp_next h = hp_next (vs_heap vs).
Proof using ComparatorLaws0 Hbytes. intros [B1 B2 B3 B4 B5] Hc Hv. by apply (SaveTo_ok ucmp okp Hbytes b c S extra vs n). Qed.

Lemma install_recovered_ok (dscname current : Slice) (save : bool) (st : RecoverState) (n : Node) (c : Catalog) (S : gset (Z * Z)) : closed (rc_set st) -> building (rc_builder st) n c S (rc_set st) ->
  catalog_ok ucmp okp c -> (∀ l A i, c !! l = Some A -> i ∈ A -> (Z.of_nat l, i_number i) ∈ S) ->
  ∃ save' vs5 vs6, install_recovered ucmp max_file_size reuse_logs dscname current save st = Some (save', vs5) ∧ Builder_delete (rc_builder st) vs5 = Some vs6 ∧
    set_ok ucmp okp [] c S vs6 ∧ desc_ok vs6 ∧
    (∃ manifest, vs_numbers vs6 = MkNumbers (u64 (default 0 (rc_next_file st) + 1)) manifest (default 0 (rc_last_sequence st)) (default 0 (rc_log st)) (default 0 (rc_prev_log st)) ∧
      (reuse_logs = false -> manifest = default 0 (rc_next_file st))) ∧
    (reuse_logs = false -> save' = true ∧ closed vs6 ∧ vs_env vs6 = vs_env (rc_set st)).
Proof using ComparatorLaws0 Hbytes.
  intros Hcl HB Hc Hseen. pose proof HB as [B1 B2 B3 B4 B5]. set (b := rc_builder st) in *. set (vs := rc_set st) in *. unfold install_recovered. fold vs b. unfold new_version.
  set (vid := hp_next (vs_heap vs)). set (vs1 := set_file_heap _ vs).
  assert (vers_ok ((file_addr <$> added_all (levels_ b)) ++ []) vs1) as V1.
  { rewrite app_nil_r. destruct B5 as [V1 V2 V3 V4]. split; simpl; [by apply heap_ok_next; [|lia]|done|intros m Hm%V3; lia|done]. }
  destruct (represents_builds b n c S vs1 [] ltac:(split; [done|done|done|done|by rewrite app_nil_r in V1]) Hc V1) as (files & h & -> & Hrep & V2 & X2). rewrite app_nil_r in V2. cbn [mbind option_bind].
  set (ver := Finalize (MkVersion files None (-1) (double_of (-1)) (-1))). set (vs2 := set_file_heap h vs1) in *.
  assert (files_ ver = files) as Ef by exact (proj1 (Finalize_files _)). destruct (find_in _ _ _ B1) as [Hin Hid]. pose proof (vo_old _ _ B5 n Hin) as Hold.
  destruct (AppendVersion_ok (file_addr <$> added_all (levels_ b)) vs2 (MkNode vid 0 ver) (base_ b) n) as (vs3 & -> & V3 & C3 & N3 & M3 & F3 & L3 & G3 & K3 & O3).
  { unfold node_addrs. cbn [node_version]. rewrite Ef. destruct V2 as [V2 ? ? ?]. split; [|done..]. by rewrite (Permutation_app_comm (file_addr <$> concat files)). }
  { done. }
  { cbn. intros (m & Em & Hm)%list_elem_of_fmap. pose proof (vo_old _ _ B5 m Hm). unfold vid in Em. lia. }
  { change (vs_heap vs2) with h. rewrite X2. cbn. lia. }
  { exact B2. }
  { exact B1. }
  cbn [mbind option_bind]. set (nums := MkNumbers _ _ _ _ _). set (vs4 := set_numbers nums vs3).
  destruct (ReuseManifest_ok dscname current vs4) as (reused & vs5 & -> & D5 & N5 & H5 & C5 & (manifest & M5) & R5); [split; cbn; [rewrite F3|rewrite L3]; apply Hcl|]. cbn [mbind option_bind].
  assert (find_node (base_ b) vs5 = Some (MkNode (base_ b) (node_refs n - 1) (node_version n))) as O5 by (unfold find_node; rewrite N5; apply O3; lia).
  destruct (Builder_delete_ok b [] vs5 _ O5) as (vs6 & E6 & V6 & [S1 S2 S3 S4 S5 S6 S7] & N6); [rewrite app_nil_r; by apply (vers_ok_same _ vs3)|].
  exists (if reused then save else true), vs5, vs6. split; [done|]. split; [done|]. split_and!.
  - split; [done| |done|done]. exists vid, (MkNode vid 1 ver). split; [by rewrite S5, C5|]. split; [|cbn [node_version]; by rewrite Ef].
    assert (vid ≠ base_ b) as Hne by (unfold vid; rewrite <- Hid; lia). unfold find_node. rewrite N6, N5. change (vs_versions vs4) with (vs_versions vs3). cbn [node_refs].
    destruct (_ =? 1).
    + change (find (is_node vid) (List.filter (fun m => negb (is_node (base_ b) m)) (vs_versions vs3)) = Some (MkNode vid 1 ver)). rewrite find_filter by done. exact N3.
    + change (find (is_node vid) (set_node_refs (base_ b) (node_refs n - 1 - 1) (vs_versions vs3)) = Some (MkNode vid 1 ver)). rewrite find_set_refs.
      change (find (is_node vid) (vs_versions vs3)) with (find_node vid vs3). change vid with (node_id (MkNode vid 0 ver)) at 1. rewrite N3. cbn. by rewrite (proj2 (Nat.eqb_neq _ _)).
  - unfold desc_ok in *. by rewrite S3, S4.
  - exists manifest. rewrite S2, M5. split; [done|]. intros Hr. destruct (R5 Hr) as [_ E]. rewrite E in M5. cbn in M5. by injection M5.
  - intros Hr. destruct (R5 Hr) as [-> E]. split; [done|]. split; [split; [rewrite S3, E; cbn; rewrite F3|rewrite S4, E; cbn; rewrite L3]; apply Hcl|]. rewrite S1, E. cbn. by rewrite G3.
Qed.

Lemma abandon_ok (b : Builder) (n : Node) (c c0 : Catalog) (S S0 : gset (Z * Z)) vs : building b n c S vs -> represents ucmp (files_ (node_version n)) c0 -> catalog_ok ucmp okp c0 ->
  (∀ l A i, c0 !! l = Some A -> i ∈ A -> (Z.of_nat l, i_number i) ∈ S0) ->
  ∃ vs', Builder_delete b vs = Some vs' ∧ set_ok ucmp okp [] c0 S0 vs' ∧ same_rest vs vs'.
Proof using Type.
  intros [B1 B2 B3 B4 B5] Hrep Hc Hs. destruct (Builder_delete_ok b [] vs n B1) as (vs' & E & V & HS & N); [by rewrite app_nil_r|]. exists vs'. split; [done|]. split; [|done].
  split; [done| |done|done]. exists (base_ b), (MkNode (base_ b) (node_refs n - 1) (node_version n)). split; [by rewrite (sr_current _ _ HS)|]. split; [|done].
  unfold find_node. rewrite N, (proj2 (Z.eqb_neq _ _)) by lia. change (find (is_node (base_ b)) (set_node_refs (base_ b) (node_refs n - 1) (vs_versions vs)) = Some (MkNode (base_ b) (node_refs n - 1) (node_version n))).
  rewrite find_set_refs. change (find (is_node (base_ b)) (vs_versions vs)) with (find_node (base_ b) vs). rewrite B1. cbn. destruct (find_in _ _ _ B1) as [_ ->]. by rewrite Nat.eqb_refl.
Qed.

End Install.

(** ** Recovering what the disk holds *)

Lemma replayable_prefix (ucmp : Comparator) (okp : Slice -> Prop) (es : list VersionEdit) (j : nat) : ∀ (c : Catalog) (S : gset (Z * Z)), catalog_ok ucmp okp c ->
  (∀ l A i, c !! l = Some A -> i ∈ A -> (Z.of_nat l, i_number i) ∈ S) -> replayable ucmp okp c S es ->
  catalog_ok ucmp okp (cat_all (take j es) c) ∧ ∀ l A i, cat_all (take j es) c !! l = Some A -> i ∈ A -> (Z.of_nat l, i_number i) ∈ seen_all (take j es) S.
Proof.
  revert j. induction es as [|e es IH]; intros [|j] c S Hc Hs Hr; [done..|]. cbn [take cat_all seen_all foldl]. destruct Hr as (R1 & R2 & R3 & R4 & R5).
  apply (IH j); [done| |done]. by apply (cat_apply_seen okp).
Qed.

Lemma current_name_last n : list.last (current_name n) = Some 10 ∧ take (length (current_name n) - 1) (current_name n) = str "MANIFEST-" ++ padded n.
Proof.
  unfold current_name. rewrite app_assoc, last_snoc. split; [done|]. rewrite length_app. replace (_ + length [10] - 1)%nat with (length (str "MANIFEST-" ++ padded n)) by (cbn; lia).
  apply take_app_length.
Qed.

Lemma descriptor_name dbname n : dbname ++ str "/" ++ str "MANIFEST-" ++ padded n = DescriptorFileName dbname n.
Proof. done. Qed.

Section Recovery.

Context {W : Type} `{!Env W, !EnvView W, !DiskView W, !DiskLaws W} (ucmp : Comparator) (okp : Slice -> Prop) `{!ComparatorLaws ucmp okp} (Hbytes : ∀ k, okp k -> Forall is_u8 k).
Context (max_file_size : Z) (reuse_logs : bool) (dbname : Slice) (addr : Slice -> Z).
Implicit Types (w : W) (vs : VersionSet W).

(** The result of [Recover] for the edits it read. *)
Definition recovered (w : W) (es : list VersionEdit) (s : Status) (save : bool) vs : Prop :=
  desc_ok vs ∧
  match kept_numbers es with
  | MkKept (Some log) prev (Some next) (Some last) =>
      s = Status_OK ∧ set_ok ucmp okp [] (cat_all es no_files) (seen_all es ∅) vs ∧
      (∃ manifest, vs_numbers vs = MkNumbers (u64 (next + 1)) manifest last log (default 0 prev) ∧ (reuse_logs = false -> manifest = next)) ∧
      (reuse_logs = false -> save = true ∧ closed vs ∧ only_reads w (vs_env vs))
  | _ => ok s = false ∧ set_ok ucmp okp [] no_files ∅ vs
  end.

Lemma set_numbers_mark number vs : ∃ n, MarkFileNumberUsed number vs = set_numbers n vs.
Proof using Type. unfold MarkFileNumberUsed, set_next_file. destruct (_ <=? _); [by eexists|]. exists (vs_numbers vs). by destruct vs. Qed.

(** The end of [Recover]. *)
Lemma finish_ok (w : W) (dscname current : Slice) (save : bool) (n : Node) (es : list VersionEdit) (st : RecoverState) : only_reads w (vs_env (rc_set st)) -> closed (rc_set st) ->
  rc_status st = None -> MkKept (rc_log st) (rc_prev_log st) (rc_next_file st) (rc_last_sequence st) = kept_numbers es ->
  building ucmp okp (rc_builder st) n (cat_all es no_files) (seen_all es ∅) (rc_set st) -> represents ucmp (files_ (node_version n)) no_files ->
  catalog_ok ucmp okp (cat_all es no_files) -> (∀ l A i, cat_all es no_files !! l = Some A -> i ∈ A -> (Z.of_nat l, i_number i) ∈ seen_all es ∅) ->
  ∃ s save' vs', (let st := check_numbers st in
    '(save_manifest, vs) ← (if ok (rc_status st) then install_recovered ucmp max_file_size reuse_logs dscname current save st else Some (save, rc_set st));
    vs ← Builder_delete (rc_builder st) vs;
    Some (rc_status st, save_manifest, vs)) = Some (s, save', vs') ∧ recovered w es s save' vs'.
Proof using ComparatorLaws0 Hbytes.
  intros Hw Hcl Hst Hk HB Hrep Hc Hs. unfold check_numbers. rewrite Hst. cbn [ok]. unfold recovered. rewrite <- Hk.
  destruct (set_numbers_mark (default 0 (rc_prev_log st)) (rc_set st)) as (n1 & ->). destruct (set_numbers_mark (default 0 (rc_log st)) (set_numbers n1 (rc_set st))) as (n2 & ->).
  set (vs1 := set_numbers n2 _).
  assert (building ucmp okp (rc_builder st) n (cat_all es no_files) (seen_all es ∅) vs1) as HB1 by (destruct HB as [B1 B2 B3 B4 B5]; split; [done..|by apply (vers_ok_same _ (rc_set st))]).
  assert (∀ s, ok s = false -> ∃ s' save' vs', ('(save_manifest, vs) ← (if ok s then install_recovered ucmp max_file_size reuse_logs dscname current save
        (MkRecover s (rc_log st) (rc_prev_log st) (rc_next_file st) (rc_last_sequence st) (rc_builder st) vs1) else Some (save, vs1));
      vs ← Builder_delete (rc_builder st) vs; Some (s, save_manifest, vs)) = Some (s', save', vs') ∧ desc_ok vs' ∧ ok s' = false ∧ set_ok ucmp okp [] no_files ∅ vs') as Hfail.
  { intros s Hf. rewrite Hf. cbn [mbind option_bind].
    destruct (VersionSet_new_ok ucmp okp w) as (vs0 & _ & [_ _ N1 N2] & _).
    destruct (abandon_ok ucmp okp (rc_builder st) n _ no_files _ ∅ vs1 HB1 Hrep N1 N2) as (vs2 & -> & Hset & [S1 S2 S3 S4 S5 S6 S7]). cbn [mbind option_bind].
    exists s, save, vs2. split_and!; [done| |done|done]. unfold desc_ok. rewrite S3, S4. destruct Hcl as [C1 C2]. cbn. by rewrite C1, C2. }
  cbv zeta. cbn [rc_status rc_builder rc_set].
  destruct (rc_next_file st) as [next|] eqn:E1; [|destruct (rc_log st); by apply Hfail].
  destruct (rc_log st) as [log|] eqn:E2; [|by apply Hfail]. destruct (rc_last_sequence st) as [last|] eqn:E3; [|by apply Hfail]. cbn [ok].
  destruct (install_recovered_ok ucmp okp Hbytes max_file_size reuse_logs dscname current save (MkRecover None (Some log) (rc_prev_log st) (Some next) (Some last) (rc_builder st) vs1) n
    (cat_all es no_files) (seen_all es ∅)) as (save' & vs5 & vs6 & -> & E6 & Hset & D6 & (manifest & M1 & M2) & R6); [exact Hcl|done|done|done|]. cbn [mbind option_bind].
  cbn [rc_builder] in E6. rewrite E6. cbn [mbind option_bind]. eexists _, save', vs6. split; [done|]. split; [done|]. split; [done|]. split; [done|]. split; [by exists manifest|].
  intros Hr. destruct (R6 Hr) as (R7 & R8 & R9). split_and!; [exact R7|exact R8|by rewrite R9].
Qed.

Lemma Recover_ok (rounds : nat) (save : bool) vs (n : Z) (es : list VersionEdit) (prss : list (list (Z * Slice))) (m : nat) : let w := vs_env vs in
  good w -> set_ok ucmp okp [] no_files ∅ vs -> closed vs -> contents w (CurrentFileName dbname) = Some (current_name n) ->
  contents w (DescriptorFileName dbname n) = Some (take m (data prss)) -> holds_edits es prss -> replayable ucmp okp no_files ∅ es ->
  (S (length (data prss)) + length (current_name n) < rounds)%nat ->
  ∃ j s save' vs', Recover ucmp max_file_size reuse_logs dbname addr rounds save vs = Some (s, save', vs') ∧ recovered w (take j es) s save' vs' ∧
    (j <= length es)%nat ∧ (length (data (take j prss)) <= m)%nat ∧ ((j < length es)%nat -> (m < length (data (take (S j) prss)))%nat).
Proof using DiskLaws0 ComparatorLaws0 Hbytes.
  intros w Hg Hset [C1 C2] Hcur Hman [Hfr Hib] Hes Hr. unfold Recover. fold w.
  destruct (ReadFileToString_good rounds (CurrentFileName dbname) (current_name n) w ltac:(lia) Hg Hcur) as (w1 & -> & (G1 & F1 & O1)). cbn [mbind option_bind ok negb].
  destruct (current_name_last n) as [L1 L2]. rewrite L1, bool_decide_eq_true_2, L2 by done. cbn [negb]. rewrite descriptor_name. cbn [vs_env set_env].
  destruct (NewSequentialFile (DescriptorFileName dbname n) w1) as [[s h] w2] eqn:E2. destruct (disk_open _ _ _ _ _ _ G1 ltac:(by rewrite F1) E2) as (-> & G2 & U2 & F2 & O2). cbn [ok negb].
  destruct Hset as [Hv (id & nd & Hid & Hnd & Hrep) Hcat Hseen]. cbn [current_ set_env]. rewrite Hid. cbn [mbind option_bind].
  set (vs2 := set_env w2 (set_env w1 vs)). unfold Builder_new.
  destruct (Version_Ref_ok [] vs2 id nd ltac:(by apply (vers_ok_same [] vs)) Hnd) as (vs3 & -> & V3 & [S1 S2 S3 S4 S5 S6 S7] & H3 & N3). cbn [mbind option_bind].
  set (b := MkBuilder id _). assert (vs_env vs3 = w2) as -> by exact S1.
  pose proof (length_layout_ge 0 (concat prss) ltac:(lia)). pose proof (length_fragments _ _ Hfr) as Hlen. rewrite length_fmap in Hlen. fold (data prss) in *.
  assert (builds ucmp okp (files_ (node_version nd)) (levels_ b) no_files ∅) as HB.
  { apply (builds_new ucmp okp Hbytes); [done|]. intros l fs f Hl Hf. destruct (represents_files ucmp _ _ _ _ _ Hrep Hl Hf) as (A & [-> _]%lookup_replicate & Hi). set_solver. }
  destruct (recover_loop_ok ucmp okp addr Hbytes h w2 (files_ (node_version nd)) (uses (vs_versions vs3)) id vs3 es prss Hfr rounds rounds (Reader_new (h, w2) true true 0) 0 m no_files ∅
    (MkKept None None None None) (MkRecover None None None None None b vs3) ltac:(lia) ltac:(lia))
    as (j & r' & st & -> & Hj & Hle & Hgt & E1 & R1 & [Q1 Q2 Q3 Q4 Q5 Q6 (ptrs & Q7)]).
  { split; cbn -[unread_of take]; [done|done|lia|lia|by rewrite U2|by vm_compute|done|done| |].
    - apply Forall_take, layout_bytes; [lia|done].
    - split_and!; [done|by split_and!|by eexists]. }
  { done. } { done. } { done. }
  { split; cbn [rc_set rc_builder]; [done|done|done|exact HB| |done|].
    - cbn [b levels_]. rewrite added_all_new. pose proof (vo_heap _ _ V3) as Hh. rewrite app_nil_r in Hh. exact Hh.
    - exists (compact_pointer_ vs3). by destruct vs3. }
  cbn [mbind option_bind]. set (st1 := MkRecover _ _ _ _ _ _ _).
  destruct (replayable_prefix ucmp okp es j no_files ∅ Hcat Hseen Hes) as [P1 P2].
  assert (only_reads w (vs_env (rc_set st1))) as Hw.
  { cbn. destruct R1 as (G4 & F4 & O4). destruct (disk_close_read h _ G4) as (G5 & F5 & O5). apply (only_reads_trans w w1); [by split_and!|]. apply (only_reads_trans w1 w2); [by split_and!|].
    apply (only_reads_trans w2 (file_ r').2); by split_and!. }
  destruct (finish_ok w (DescriptorFileName dbname n) (str "MANIFEST-" ++ padded n) save (MkNode id (node_refs nd + 1) (node_version nd)) (take j es) st1 Hw)
    as (s & save' & vs' & E & Hrec).
  { split; cbn; rewrite Q7; cbn; [by rewrite S3|by rewrite S4]. }
  { exact Q1. } { exact Q2. }
  { split; cbn [st1 rc_builder rc_set].
    - rewrite Q3, Q7. unfold find_node. cbn. rewrite N3. change (find (is_node id) (set_node_refs id (node_refs nd + 1) (vs_versions vs2)) = Some (MkNode id (node_refs nd + 1) (node_version nd))).
      rewrite find_set_refs. change (find (is_node id) (vs_versions vs2)) with (find_node id vs). rewrite Hnd. cbn. destruct (find_in _ _ _ Hnd) as [_ ->]. by rewrite Nat.eqb_refl.
    - rewrite Q3, Q7. cbn. by rewrite S5.
    - cbn. pose proof (vo_refs _ _ Hv nd (proj1 (find_in _ _ _ Hnd))). lia.
    - exact Q4.
    - rewrite Q7. destruct V3 as [V3 V4 V5 V6]. split; cbn; [by rewrite Permutation_app_comm|done| |done]. intros m' Hm%V5. rewrite Q7 in Q6. cbn in Q6. lia. }
  { exact Hrep. } { exact P1. } { exact P2. }
  exists j, s, save', vs'. split; [exact E|]. split; [done|]. split; [done|].
  pose proof (size_layout 0 (concat (take j prss)) ltac:(lia)). pose proof (size_layout 0 (concat (take (Datatypes.S j) prss)) ltac:(lia)). unfold data, LdbSlice.size in *.
  split; [lia|]. intros Hlt. specialize (Hgt Hlt). lia.
Qed.

End Recovery.

(** ** Theorems *)

(** C5. On a disk that does not fail, [VersionSet::LogAndApply] succeeds and the
    edit is on the disk when it returns.  Let the reference counts be exact, the
    edit be writable and applicable, and the manifest be either not open yet or
    synced with the edits [es] that describe the current catalogue.  When the
    other threads leave the current version, the manifest, its numbers and
    CURRENT alone and keep the reference counts exact ([quiet]), the call
    returns OK, CURRENT names the manifest, and the manifest holds the edits before it and the completed
    edit, one record each, synced: replayed from nothing they are legal and give
    the catalogue and the log numbers of the new state.  A manifest that was
    already open has the same edits before the new one.  A new manifest has one
    edit before it, a snapshot: the comparator's name, every compaction pointer
    that is set, those of the edit included, and all files of the version that
    was current, level by level, no deleted files and no numbers. *)
Theorem log_and_apply_durable {W : Type} `{!Env W, !EnvView W, !DiskView W, !DiskLaws W} (ucmp : Comparator) (okp : Slice -> Prop) `{!ComparatorLaws ucmp okp}
    (dbname : Slice) (addr : Slice -> Z) (other : VersionSet W -> VersionSet W) (edit : VersionEdit) (vs : VersionSet W) (extra : list nat) (c : Catalog) (S : gset (Z * Z)) (es : list VersionEdit) :
  (∀ k, okp k -> Forall is_u8 k) -> str_ok (ComparatorName ucmp) -> set_ok ucmp okp extra c S vs -> storable c vs -> good (vs_env vs) ->
  closed vs ∨ recoverable ucmp okp dbname (nm_manifest_file (vs_numbers vs)) es c S vs ->
  edit_wf edit -> (has_comparator_ edit = true -> comparator_ edit = ComparatorName ucmp) ->
  (has_log_number_ edit = true -> nm_log (vs_numbers vs) <= log_number_ edit < nm_next_file (vs_numbers vs)) ->
  edit_fits okp S edit -> catalog_ok ucmp okp (cat_apply edit c) -> (∀ vs, quiet dbname vs (other vs)) ->
  ∃ edit' vs' es', LogAndApply ucmp dbname addr other edit vs = Some (Status_OK, edit', vs') ∧
    set_ok ucmp okp extra (cat_apply edit c) (new_pairs edit ∪ S) vs' ∧
    nm_log (vs_numbers vs') = log_number_ edit' ∧ nm_prev_log (vs_numbers vs') = prev_log_number_ edit' ∧
    recoverable ucmp okp dbname (nm_manifest_file (vs_numbers vs)) (es' ++ [edit']) (cat_apply edit c) (new_pairs edit ∪ S) vs' ∧
    (descriptor_log_ vs ≠ None -> es' = es) ∧
    (descriptor_log_ vs = None -> ∃ v e, current_version vs = Some v ∧ es' = [e] ∧ snapshot_of ucmp (ptr_apply edit (compact_pointer_ vs)) v e).
Proof.
  intros Hb Hnm Hset Hst Hg Hop He Hcmp Hlog Hfit Hcat Hq.
  destruct (LogAndApply_durable ucmp okp dbname addr other edit vs extra c S es Hb Hnm Hset Hst Hg Hop He Hcmp Hlog Hfit Hcat Hq) as (e & vs' & es' & E & H1 & _ & H).
  by exists e, vs', es'.
Qed.

Lemma data_prefix (prss : list (list (Z * Slice))) (j : nat) : (length (data (take j prss)) <= length (data prss))%nat.
Proof. rewrite <- (take_drop j prss) at 2. unfold data. rewrite concat_app, layout_app, length_app. lia. Qed.

(** C4. What [LogAndApply] left on the disk, [VersionSet::Recover] gives back.  Let
    a version set have its edits [es] on the disk, and let a new version set be
    recovered on a disk with the same CURRENT and the first [m] bytes of the same
    manifest.  Then [Recover] returns; it has applied exactly the edits whose
    records lie completely in these bytes.  If they set the log number, the next
    file and the last sequence it returns OK, lists the catalogue they describe,
    has exact reference counts and continues from their numbers, and without
    [reuse_logs] the disk is as it was; otherwise it returns an error and lists
    nothing.  When the manifest is whole, it lists the catalogue of the lost
    version set and has its log numbers. *)
Theorem manifest_recovery {W : Type} `{!Env W, !EnvView W, !DiskView W, !DiskLaws W} (ucmp : Comparator) (okp : Slice -> Prop) `{!ComparatorLaws ucmp okp}
    (max_file_size : Z) (reuse_logs : bool) (dbname : Slice) (addr : Slice -> Z) (rounds : nat) (save : bool)
    (vs : VersionSet W) (n : Z) (es : list VersionEdit) (c : Catalog) (S : gset (Z * Z)) (w : W) (m : nat) (d cur : Slice) :
  (∀ k, okp k -> Forall is_u8 k) -> recoverable ucmp okp dbname n es c S vs ->
  contents (vs_env vs) (DescriptorFileName dbname n) = Some d -> contents (vs_env vs) (CurrentFileName dbname) = Some cur ->
  good w -> contents w (DescriptorFileName dbname n) = Some (take m d) -> contents w (CurrentFileName dbname) = Some cur ->
  (1 + length d + length cur < rounds)%nat ->
  ∃ prss j vs0 s save' vs', holds_edits es prss ∧ d = data prss ∧
    VersionSet_new w = Some vs0 ∧ Recover ucmp max_file_size reuse_logs dbname addr rounds save vs0 = Some (s, save', vs') ∧
    recovered ucmp okp reuse_logs w (take j es) s save' vs' ∧
    (j <= length es)%nat ∧ (length (data (take j prss)) <= m)%nat ∧ ((j < length es)%nat -> (m < length (data (take (1 + j) prss)))%nat) ∧
    ((length d <= m)%nat -> s = Status_OK ∧ set_ok ucmp okp [] c (seen_all es ∅) vs' ∧
       nm_log (vs_numbers vs') = nm_log (vs_numbers vs) ∧ nm_prev_log (vs_numbers vs') = nm_prev_log (vs_numbers vs)).
Proof.
  intros Hb [R1 (prss & [_ _ [D1 D2 D3]]) R3 R4 R5 (next & last & R6)] Hd Hcur Hg Hwd Hwc Hr. rewrite D1 in Hd. injection Hd as <-. rewrite D2 in Hcur. injection Hcur as <-.
  destruct (VersionSet_new_ok ucmp okp w) as (vs0 & E0 & Hset & _ & W0 & _ & _ & C1 & C2).
  destruct (Recover_ok ucmp okp Hb max_file_size reuse_logs dbname addr rounds save vs0 n es prss m) as (j & s & save' & vs' & E & Hrec & Hj & Hle & Hgt);
    [by rewrite W0|done|by split|by rewrite W0|by rewrite W0|done|done|done|].
  rewrite W0 in Hrec. exists prss, j, vs0, s, save', vs'. split_and!; try done. intros Hm. assert (j = length es) as ->.
  { destruct (decide (j < length es)%nat) as [Hlt|]; [|lia]. specialize (Hgt Hlt). pose proof (data_prefix prss (Datatypes.S j)). lia. }
  rewrite firstn_all in Hrec. destruct Hrec as [_ Hrec]. rewrite R6, R4 in Hrec. destruct Hrec as (H1 & H2 & (manifest & -> & _) & _). by split_and!.
Qed.

(** ** Witnesses *)

#[export] Instance mem_disk_view : DiskView MemEnv := {|
  good (w : MemEnv) := LdbFilenameThms.room w = None ∧ ∀ h, next_handle w <= h -> open_files w !! h = None;
  unread_of (w : MemEnv) h := open_reads w !! h;
|}.

#[export] Instance mem_disk : DiskLaws MemEnv.
Proof.
  split; unfold others, same_objects, same_but, same_files; cbn.
  - apply _.
  - intros f w s h w' [Hr Hn] [= <- <- <-]. cbn. split_and!; [done|done| |by apply Hn|].
    + intros h Hh. rewrite lookup_insert_ne by lia. apply Hn. lia.
    + intros h Hh. by rewrite lookup_insert_ne.
  - intros h x w s w' f d [Hr Hn] Hp. rewrite Hp, Hr. intros [= <- <-]. cbn. split_and!; [done|done| |].
    + intros h' Hh. rewrite lookup_insert_ne; [by apply Hn|]. intros ->. rewrite Hn in Hp by done. done.
    + intros h' Hh. by rewrite lookup_insert_ne.
  - intros h w s w' f d Hg Hp [= <- <-]. by split_and!; try apply Hg.
  - intros h w s w' f d [Hr Hn] Hp. rewrite Hp. intros [= <- <-]. cbn. split_and!; [done|done|done|done|]. by rewrite lookup_insert_eq.
  - intros h w s w' f d [Hr Hn] Hp. rewrite Hp. intros [= <- <-]. cbn. split_and!; [done|done| |].
    + intros h' Hh. apply lookup_delete_None. right. by apply Hn.
    + intros h' Hh. by rewrite lookup_delete_ne.
  - intros h w [Hr Hn]. cbn. split_and!; [done| |].
    + intros h' Hh. apply lookup_delete_None. right. by apply Hn.
    + intros h' Hh. by rewrite lookup_delete_ne.
  - intros a b w s w' [Hr Hn] [d Hd]. rewrite Hd. intros [= <- <-]. by cbn.
  - intros f d w s h w' [Hr Hn] Hd. rewrite Hd. intros [= <- <- <-]. cbn. split_and!; [done|done| |by rewrite lookup_insert_eq|done|done]. intros h Hh. apply Hn. lia.
  - intros h n d w [Hr Hn] _ Hd. rewrite Hd. eexists. split; [done|]. cbn. split_and!; [done|done|by rewrite lookup_insert_eq|done|done].
  - intros h w [Hr Hn]. by cbn.
  - intros f d w [Hr Hn] Hd. rewrite Hd. exists w. by split_and!.
Qed.

Lemma quiet_refl {W : Type} `{!EnvView W, !DiskView W} (dbname : Slice) (vs : VersionSet W) : quiet dbname vs vs.
Proof. split; [apply undisturbed_refl|done|done|done]. Qed.

(** A database without files that adds the file 5 at level 1. *)
Definition w_empty_disk : MemEnv := MkMemEnv ∅ ∅ ∅ 1 None.

Definition w_run : option (Status * VersionEdit * VersionSet MemEnv) :=
  vs ← VersionSet_new w_empty_disk; LogAndApply BytewiseComparator (str "db") (fun _ => 0) (fun vs => vs) w_new_edit vs.

Lemma w_empty_disk_good : good w_empty_disk.
Proof. split; [done|]. intros h _. exact (lookup_empty h). Qed.

Lemma w_new_edit_wf : edit_wf w_new_edit.
Proof.
  apply (apply_field_wf VersionEdit_new (FNewFile 1 5 100 (InternalKey_new [97] 6 kTypeValue) (InternalKey_new [99] 5 kTypeValue))); [apply VersionEdit_new_wf|].
  split; [by vm_compute|]. split_and!; try (split; vm_compute; congruence); (split; [|by vm_compute]); vm_compute; repeat constructor; vm_compute; congruence.
Qed.

Lemma bytewise_name_ok : str_ok (ComparatorName BytewiseComparator).
Proof. split; [|by vm_compute]. vm_compute. repeat constructor; vm_compute; congruence. Qed.

Lemma w_new_storable (vs : VersionSet MemEnv) : vs_numbers vs = MkNumbers 2 0 0 0 0 -> compact_pointer_ vs = replicate (Z.to_nat kNumLevels) [] -> storable no_files vs.
Proof.
  intros E1 E2. split.
  - rewrite E1. split; cbn; unfold is_u64; lia.
  - rewrite E2. split; [by rewrite length_replicate|]. apply Forall_replicate. split; [constructor|by vm_compute].
  - intros l A i [-> _]%lookup_replicate. set_solver.
Qed.

Lemma log_and_apply_durable_witness : ∃ edit' vs' es', w_run = Some (Status_OK, edit', vs') ∧
  set_ok BytewiseComparator (Forall is_u8) [] (cat_apply w_new_edit no_files) (new_pairs w_new_edit ∪ ∅) vs' ∧
  recoverable BytewiseComparator (Forall is_u8) (str "db") 0 (es' ++ [edit']) (cat_apply w_new_edit no_files) (new_pairs w_new_edit ∪ ∅) vs'.
Proof.
  destruct (VersionSet_new_ok BytewiseComparator (Forall is_u8) w_empty_disk) as (vs & E & Hset & _ & Hw & Hn & Hp & Hf & Hl).
  destruct (log_and_apply_durable BytewiseComparator (Forall is_u8) (str "db") (fun _ => 0) (fun vs => vs) w_new_edit vs [] no_files ∅ [] (fun k Hk => Hk) bytewise_name_ok Hset
    (w_new_storable vs Hn Hp) (eq_ind_r good w_empty_disk_good Hw) (or_introl (conj Hf Hl)) w_new_edit_wf ltac:(intros H; discriminate H) ltac:(intros H; discriminate H)
    (w_new_edit_fits ∅ ltac:(set_solver)) w_new_edit_catalog (quiet_refl (str "db"))) as (e & vs' & es' & E' & H1 & _ & _ & H2 & _).
  rewrite Hn in H2. exists e, vs', es'. split; [unfold w_run; rewrite E; exact E'|]. exact (conj H1 H2).
Defined.

(** The disk after that call, with the manifest whole and cut off: all edits,
    and only the snapshot. *)
Definition w_recover (w : MemEnv) : option (Status * bool * VersionSet MemEnv) :=
  vs ← VersionSet_new w; Recover BytewiseComparator 2097152 false (str "db") (fun _ => 0) 300 false vs.

Definition w_cut (m : nat) (w : MemEnv) : MemEnv :=
  MkMemEnv (alter (take m) (DescriptorFileName (str "db") 0) (files w)) (open_files w) (open_reads w) (next_handle w) (LdbFilenameThms.room w).

Definition w_disk_after : MemEnv := match w_run with Some (_, _, vs) => vs_env vs | None => w_empty_disk end.

Lemma w_run_ok : ∃ vs es, vs_env vs = w_disk_after ∧
  recoverable BytewiseComparator (Forall is_u8) (str "db") 0 es (cat_apply w_new_edit no_files) (new_pairs w_new_edit ∪ ∅) vs.
Proof.
  destruct (VersionSet_new_ok BytewiseComparator (Forall is_u8) w_empty_disk) as (vs & E & Hset & _ & Hw & Hn & Hp & Hf & Hl).
  destruct (LogAndApply_durable BytewiseComparator (Forall is_u8) (str "db") (fun _ => 0) (fun vs => vs) w_new_edit vs [] no_files ∅ [] (fun k Hk => Hk) bytewise_name_ok Hset
    (w_new_storable vs Hn Hp) (eq_ind_r good w_empty_disk_good Hw) (or_introl (conj Hf Hl)) w_new_edit_wf ltac:(intros H; discriminate H) ltac:(intros H; discriminate H)
    (w_new_edit_fits ∅ ltac:(set_solver)) w_new_edit_catalog (quiet_refl (str "db"))) as (e & vs' & es' & E' & _ & _ & _ & _ & H & _).
  rewrite Hn in H. exists vs', (es' ++ [e]). split; [|exact H]. unfold w_disk_after, w_run. rewrite E. cbn [mbind option_bind]. by rewrite E'.
Qed.

(** The two files of that disk. *)
Definition w_file (f : Slice) : Slice := default [] (contents w_disk_after f).
Local Abbreviation w_manifest := (DescriptorFileName (str "db") 0).
Local Abbreviation w_current := (CurrentFileName (str "db")).

Lemma w_disk_files : contents w_disk_after w_manifest = Some (w_file w_manifest) ∧ contents w_disk_after w_current = Some (w_file w_current).
Proof. split; vm_compute; reflexivity. Qed.

Lemma w_cut_files m : good (w_cut m w_disk_after) ∧ contents (w_cut m w_disk_after) w_manifest = Some (take m (w_file w_manifest)) ∧
  contents (w_cut m w_disk_after) w_current = Some (w_file w_current).
Proof.
  destruct w_disk_files as [H1 H2]. destruct w_run_ok as (vs & es & E & [Hg _ _ _ _ _]). rewrite E in Hg. split_and!; [exact Hg| |].
  - cbn. rewrite lookup_alter_eq. cbn in H1. by rewrite H1.
  - cbn. rewrite lookup_alter_ne by (vm_compute; congruence). exact H2.
Qed.

Lemma manifest_recovery_witness :
  (∃ save vs' S, w_recover (w_cut 200 w_disk_after) = Some (Status_OK, save, vs') ∧ set_ok BytewiseComparator (Forall is_u8) [] (cat_apply w_new_edit no_files) S vs') ∧
  (∃ s save vs', w_recover (w_cut 40 w_disk_after) = Some (s, save, vs') ∧ ok s = false ∧ set_ok BytewiseComparator (Forall is_u8) [] no_files ∅ vs').
Proof.
  destruct w_run_ok as (vs & es & Ew & Hrec). destruct w_disk_files as [F1 F2]. rewrite <- Ew in F1, F2.
  assert (1 + length (w_file w_manifest) + length (w_file w_current) < 300)%nat as Hlen by (vm_compute; lia).
  assert (length (w_file w_manifest) <= 200)%nat as Hlen2 by (vm_compute; lia).
  pose proof (fun m => manifest_recovery BytewiseComparator (Forall is_u8) 2097152 false (str "db") (fun _ => 0) 300 false vs 0 es _ _ (w_cut m w_disk_after) m _ _ (fun k Hk => Hk) Hrec F1 F2
    (proj1 (w_cut_files m)) (proj1 (proj2 (w_cut_files m))) (proj2 (proj2 (w_cut_files m))) Hlen) as H. split.
  - destruct (H 200%nat) as (prss & j & vs0 & s & save & vs' & _ & _ & E0 & E & _ & _ & _ & _ & Hall). destruct (Hall Hlen2) as (-> & Hset & _).
    exists save, vs', (seen_all es ∅). split; [unfold w_recover; rewrite E0; exact E|exact Hset].
  - destruct (H 40%nat) as (prss & j & vs0 & s & save & vs' & _ & _ & E0 & E & [_ Hr] & _).
    assert (w_recover (w_cut 40 w_disk_after) = Some (s, save, vs')) as Er by (unfold w_recover; rewrite E0; exact E).
    assert (ok s = false) as Hs. { assert ((fun x => ok x.1.1) <$> w_recover (w_cut 40 w_disk_after) = Some false) as K by (vm_compute; reflexivity). rewrite Er in K. by injection K. }
    exists s, save, vs'. split; [exact Er|]. destruct (kept_numbers (take j es)) as [[log|] prev [next|] [last|]]; try exact Hr. destruct Hr as [-> _]. discriminate Hs.
Defined.
