(* ===== verification/LdbDB.v ===== *)
(** * leveldb: the database (db_impl.h, db_impl.cc, builder.cc, snapshot.h)

    The state of [DBImpl], and its operations as functions of that state: the
    tables written from memtables and by compactions, the collection of
    obsolete files, the background work, the write queue, reads, opening with
    the recovery of the logs, manual compactions, the destructor, properties
    and the clipping of options.

    The mutex is not a value.  Where an operation releases it, or looks at an
    atomic, [others] is what the other threads do to the database meanwhile;
    [others_v] is the same inside [LogAndApply].  [W] is the world outside the
    database: the environment and the table cache.  The statistics, the log of
    messages and condition variables are left out.  [None] is a failed
    assertion, an access outside memory or a loop that ran out of rounds. *)

From Stdlib Require Import SpecFloat.
From stdpp Require Import sorting.
From S2P Require Import Prelude.
From S2P Require Import LdbSlice.
From S2P Require Import LdbCoding.
From S2P Require Import LdbBloom.
From S2P Require Import LdbFormat.
From S2P Require Import LdbIterator.
From S2P Require Import LdbLog.
From S2P Require Import LdbTableFormat.
From S2P Require Import LdbTableBuilder.
From S2P Require Import LdbWriteBatch.
From S2P Require Import LdbArena.
From S2P Require Import LdbMemTable.
From S2P Require Import LdbVersionEdit.
From S2P Require Import LdbFilename.
From S2P Require Import LdbVersion.
From S2P Require Import LdbVersionSet.

(** ** The list of snapshots

    Nodes by address; the head is at 0. *)

Record SnapshotImpl := MkSnapshot { sn_prev : nat; sn_next : nat; sequence_number : Z }.
Record SnapshotList := MkSnapshots { sn_nodes : gmap nat SnapshotImpl; sn_fresh : nat }.

Definition SnapshotList_new : SnapshotList := MkSnapshots {[0%nat := MkSnapshot 0 0 0]} 1.

Definition sn_empty (l : SnapshotList) : option bool := head ← sn_nodes l !! 0%nat; Some (sn_next head =? 0)%nat.
Definition oldest (l : SnapshotList) : option nat := head ← sn_nodes l !! 0%nat; if (sn_next head =? 0)%nat then None else Some (sn_next head).
Definition sn_newest (l : SnapshotList) : option nat := head ← sn_nodes l !! 0%nat; if (sn_next head =? 0)%nat then None else Some (sn_prev head).

Definition set_sn_next (a n : nat) (nodes : gmap nat SnapshotImpl) : option (gmap nat SnapshotImpl) :=
  x ← nodes !! a; Some (<[a := MkSnapshot (sn_prev x) n (sequence_number x)]> nodes).
Definition set_sn_prev (a p : nat) (nodes : gmap nat SnapshotImpl) : option (gmap nat SnapshotImpl) :=
  x ← nodes !! a; Some (<[a := MkSnapshot p (sn_next x) (sequence_number x)]> nodes).

Definition Snapshot_New (seq : Z) (l : SnapshotList) : option (nat * SnapshotList) :=
  empty ← sn_empty l;
  '() ← (if empty : bool then Some tt else a ← sn_newest l; x ← sn_nodes l !! a; if sequence_number x <=? seq then Some tt else None);
  head ← sn_nodes l !! 0%nat;
  let a := sn_fresh l in
  let prev := sn_prev head in
  nodes ← set_sn_next prev a (<[a := MkSnapshot prev 0 seq]> (sn_nodes l));
  nodes ← set_sn_prev 0 a nodes;
  Some (a, MkSnapshots nodes (S a)).

Definition Snapshot_Delete (a : nat) (l : SnapshotList) : option SnapshotList :=
  x ← sn_nodes l !! a;
  nodes ← set_sn_next (sn_prev x) (sn_next x) (sn_nodes l);
  nodes ← set_sn_prev (sn_next x) (sn_prev x) nodes;
  Some (MkSnapshots (delete a nodes) (sn_fresh l)).

(** ** [MemTableIterator] as an iterator *)

Definition MemTableIterator : Type := MemTable * option nat.

Definition NewMemTableIterator (m : MemTable) : MemTableIterator := (m, None).

#[export] Instance mem_iterator (ucmp : Comparator) : Iterator MemTableIterator := {|
  i_Valid it := mem_Valid it.2;
  i_key it := default [] (mem_key it.1 it.2);
  i_value it := default [] (mem_value it.1 it.2);
  i_status _ := Status_OK;
  i_SeekToFirst it := Some (it.1, mem_SeekToFirst it.1);
  i_SeekToLast it := n ← mem_SeekToLast it.1; Some (it.1, n);
  i_Seek k it := n ← mem_Seek ucmp it.1 k; Some (it.1, n);
  i_Next it := if mem_Valid it.2 then Some (it.1, mem_Next it.1 it.2) else None;
  i_Prev it := if mem_Valid it.2 then n ← mem_Prev ucmp it.1 it.2; Some (it.1, n) else None;
|}.

(** ** env.h: directories and locks

    A lock is an object with a number. *)

Class EnvDir (W : Type) := {
  GetChildren : Slice -> W -> Status * list Slice * W;
  FileExists : Slice -> W -> bool;
  CreateDir : Slice -> W -> Status * W;
  DeleteDir : Slice -> W -> Status * W;
  LockFile : Slice -> W -> Status * Z * W;
  UnlockFile : Z -> W -> Status * W;
}.

(** ** builder.cc *)

Section BuildTable.

Context (dbname : Slice) (topts : Options) (addr : Slice -> Z).
Context {W D : Type} `{!Env W} `{!Iterator D} `{!TableCache W D}.
#[local] Existing Instance env_writable.

(** The builder's file in the world [w]. *)
Definition in_world (w : W) (b : TableBuilder (Z * W)) : TableBuilder (Z * W) := set_out ((file b).1, w) (offset b) (tb_status b) b.

(** That a new table can be opened. *)
Definition verify_table (number file_size : Z) (w : W) : option (Status * W) :=
  '(it, w) ← tc_NewIterator ReadOptions_new number file_size w; Some (i_status it, tc_delete it w).

Context {I : Type} `{!Iterator I}.

Fixpoint build_loop (n : nat) (iter : I) (largest : Slice) (b : TableBuilder (Z * W)) : option (I * Slice * TableBuilder (Z * W)) :=
  if i_Valid iter then
    match n with
    | O => None
    | S n =>
        let key := i_key iter in
        let b := TableBuilder_Add addr key (i_value iter) b in
        iter ← i_Next iter; build_loop n iter key b
    end
  else Some (iter, largest, b).

(** The checks at the end. *)
Definition keep_or_delete (fname : Slice) (s : Status) (meta : FileMetaData) (iter : I) (w : W) : Status * FileMetaData * I * W :=
  let s := if ok (i_status iter) then s else i_status iter in
  if ok s && (0 <? file_size meta) then (s, meta, iter, w) else (s, meta, iter, (env_DeleteFile fname w).2).

Definition BuildTable (rounds : nat) (number : Z) (iter : I) (w : W) : option (Status * FileMetaData * I * W) :=
  let fname := TableFileName dbname number in
  iter ← i_SeekToFirst iter;
  if i_Valid iter then
    let '(s, h, w) := NewWritableFile fname w in
    if negb (ok s) then Some (s, FileMetaData_new number 0 [] [], iter, w)
    else
      let small := i_key iter in
      '(iter, large, builder) ← build_loop rounds iter [] (TableBuilder_new topts (h, w));
      '(s, builder) ← TableBuilder_Finish addr builder;
      if ok s && (FileSize builder =? 0) then None
      else
        let size := if ok s then FileSize builder else 0 in
        let w := (file builder).2 in
        let '(s, w) := if ok s then file_Sync h w else (s, w) in
        let '(s, w) := if ok s then file_Close h w else (s, w) in
        let w := delete_writable h w in
        '(s, w) ← (if ok s then verify_table number size w else Some (s, w));
        Some (keep_or_delete fname s (FileMetaData_new number size small large) iter w)
  else Some (keep_or_delete fname Status_OK (FileMetaData_new number 0 [] []) iter w).

End BuildTable.

(** ** [DBImpl] *)

(** A waiting writer; the batch may be null. *)
Record QueuedWriter := MkQueued { qw_id : nat; qw_batch : option WriteBatch; qw_sync : bool; qw_done : bool; qw_status : Status }.

(** The range of a manual compaction, an object [mc_id] of the caller that
    waits for it. *)
Record ManualCompaction := MkManual { mc_id : nat; mc_level : Z; mc_done : bool; mc_begin : option Slice; mc_end : option Slice }.

(** Memtables are objects with addresses. *)
Record DBImpl (W : Type) := MkDB {
  versions_ : VersionSet W;
  mems : gmap nat MemTable;
  mem_fresh : nat;
  mem_ : option nat;
  imm_ : option nat;
  logfile_ : option Z;
  log_ : option Z;
  logfile_number_ : Z;
  pending_outputs_ : gset Z;
  bg_error_ : Status;
  shutting_down_ : bool;
  background_compaction_scheduled_ : bool;
  manual_compaction_ : option ManualCompaction;
  snapshots_ : SnapshotList;
  writers_ : list QueuedWriter;
  tmp_batch_ : WriteBatch;
}.
Arguments MkDB {W}.
Arguments versions_ {W}.
Arguments mems {W}.
Arguments mem_fresh {W}.
Arguments mem_ {W}.
Arguments imm_ {W}.
Arguments logfile_ {W}.
Arguments log_ {W}.
Arguments logfile_number_ {W}.
Arguments pending_outputs_ {W}.
Arguments bg_error_ {W}.
Arguments shutting_down_ {W}.
Arguments background_compaction_scheduled_ {W}.
Arguments manual_compaction_ {W}.
Arguments snapshots_ {W}.
Arguments writers_ {W}.
Arguments tmp_batch_ {W}.

Section DBImpl.

Context (ucmp : Comparator) (topts : Options) (max_file_size write_buffer_size : Z) (dbname : Slice) (addr : Slice -> Z).
Context {W D : Type} `{!Env W} `{!EnvDir W} `{!Iterator D} `{!TableCache W D}.
Context (others : DBImpl W -> DBImpl W) (others_v : VersionSet W -> VersionSet W).
Local Abbreviation DB := (DBImpl W).
Local Abbreviation icmp := (InternalKeyComparator ucmp).
#[local] Existing Instance env_writable.

(** Assignments. *)
Definition with_versions (vs : VersionSet W) (db : DB) : DB :=
  MkDB vs (mems db) (mem_fresh db) (mem_ db) (imm_ db) (logfile_ db) (log_ db) (logfile_number_ db) (pending_outputs_ db) (bg_error_ db)
    (shutting_down_ db) (background_compaction_scheduled_ db) (manual_compaction_ db) (snapshots_ db) (writers_ db) (tmp_batch_ db).
Definition with_mems (ms : gmap nat MemTable) (fresh : nat) (m i : option nat) (db : DB) : DB :=
  MkDB (versions_ db) ms fresh m i (logfile_ db) (log_ db) (logfile_number_ db) (pending_outputs_ db) (bg_error_ db)
    (shutting_down_ db) (background_compaction_scheduled_ db) (manual_compaction_ db) (snapshots_ db) (writers_ db) (tmp_batch_ db).
Definition with_log (h off : option Z) (number : Z) (db : DB) : DB :=
  MkDB (versions_ db) (mems db) (mem_fresh db) (mem_ db) (imm_ db) h off number (pending_outputs_ db) (bg_error_ db)
    (shutting_down_ db) (background_compaction_scheduled_ db) (manual_compaction_ db) (snapshots_ db) (writers_ db) (tmp_batch_ db).
Definition with_pending (p : gset Z) (db : DB) : DB :=
  MkDB (versions_ db) (mems db) (mem_fresh db) (mem_ db) (imm_ db) (logfile_ db) (log_ db) (logfile_number_ db) p (bg_error_ db)
    (shutting_down_ db) (background_compaction_scheduled_ db) (manual_compaction_ db) (snapshots_ db) (writers_ db) (tmp_batch_ db).
Definition with_bg_error (s : Status) (db : DB) : DB :=
  MkDB (versions_ db) (mems db) (mem_fresh db) (mem_ db) (imm_ db) (logfile_ db) (log_ db) (logfile_number_ db) (pending_outputs_ db) s
    (shutting_down_ db) (background_compaction_scheduled_ db) (manual_compaction_ db) (snapshots_ db) (writers_ db) (tmp_batch_ db).
Definition with_scheduled (b : bool) (db : DB) : DB :=
  MkDB (versions_ db) (mems db) (mem_fresh db) (mem_ db) (imm_ db) (logfile_ db) (log_ db) (logfile_number_ db) (pending_outputs_ db) (bg_error_ db)
    (shutting_down_ db) b (manual_compaction_ db) (snapshots_ db) (writers_ db) (tmp_batch_ db).
Definition with_snapshots (l : SnapshotList) (db : DB) : DB :=
  MkDB (versions_ db) (mems db) (mem_fresh db) (mem_ db) (imm_ db) (logfile_ db) (log_ db) (logfile_number_ db) (pending_outputs_ db) (bg_error_ db)
    (shutting_down_ db) (background_compaction_scheduled_ db) (manual_compaction_ db) l (writers_ db) (tmp_batch_ db).
Definition with_writers (ws : list QueuedWriter) (db : DB) : DB :=
  MkDB (versions_ db) (mems db) (mem_fresh db) (mem_ db) (imm_ db) (logfile_ db) (log_ db) (logfile_number_ db) (pending_outputs_ db) (bg_error_ db)
    (shutting_down_ db) (background_compaction_scheduled_ db) (manual_compaction_ db) (snapshots_ db) ws (tmp_batch_ db).
Definition with_manual (m : option ManualCompaction) (db : DB) : DB :=
  MkDB (versions_ db) (mems db) (mem_fresh db) (mem_ db) (imm_ db) (logfile_ db) (log_ db) (logfile_number_ db) (pending_outputs_ db) (bg_error_ db)
    (shutting_down_ db) (background_compaction_scheduled_ db) m (snapshots_ db) (writers_ db) (tmp_batch_ db).
Definition with_tmp_batch (b : WriteBatch) (db : DB) : DB :=
  MkDB (versions_ db) (mems db) (mem_fresh db) (mem_ db) (imm_ db) (logfile_ db) (log_ db) (logfile_number_ db) (pending_outputs_ db) (bg_error_ db)
    (shutting_down_ db) (background_compaction_scheduled_ db) (manual_compaction_ db) (snapshots_ db) (writers_ db) b.

Definition with_shutting_down (b : bool) (db : DB) : DB :=
  MkDB (versions_ db) (mems db) (mem_fresh db) (mem_ db) (imm_ db) (logfile_ db) (log_ db) (logfile_number_ db) (pending_outputs_ db) (bg_error_ db)
    b (background_compaction_scheduled_ db) (manual_compaction_ db) (snapshots_ db) (writers_ db) (tmp_batch_ db).

Definition db_env (db : DB) : W := vs_env (versions_ db).
Definition with_env (w : W) (db : DB) : DB := with_versions (set_env w (versions_ db)) db.

Definition LastSequence (db : DB) : Z := nm_last_sequence (vs_numbers (versions_ db)).

(** [mem->Ref()] and [mem->Unref()], which deletes the object. *)
Definition mem_Ref (a : nat) (db : DB) : option DB :=
  m ← mems db !! a; Some (with_mems (<[a := Ref m]> (mems db)) (mem_fresh db) (mem_ db) (imm_ db) db).
Definition mem_Unref (a : nat) (db : DB) : option DB :=
  m ← mems db !! a;
  let '(gone, m) := Unref m in
  Some (with_mems (if gone : bool then delete a (mems db) else <[a := m]> (mems db)) (mem_fresh db) (mem_ db) (imm_ db) db).

(** ** Background errors and scheduling *)

Definition RecordBackgroundError (s : Status) (db : DB) : DB := if ok (bg_error_ db) then with_bg_error s db else db.

Definition MaybeScheduleCompaction (db : DB) : option DB :=
  if background_compaction_scheduled_ db then Some db
  else if shutting_down_ db then Some db
  else if negb (ok (bg_error_ db)) then Some db
  else
    idle ← (if bool_decide (imm_ db = None) && bool_decide (manual_compaction_ db = None) then needs ← NeedsCompaction (versions_ db); Some (negb needs) else Some false);
    Some (if idle : bool then db else with_scheduled true db).

(** ** [DeleteObsoleteFiles] *)

(** Whether a file of the directory is kept. *)
Definition keep_file (live : gset Z) (n : Numbers) (number : Z) (type : FileType) : bool :=
  match type with
  | kLogFile => (nm_log n <=? number) || (number =? nm_prev_log n)
  | kDescriptorFile => nm_manifest_file n <=? number
  | kTableFile | kTempFile => bool_decide (number ∈ live)
  | kCurrentFile | kDBLockFile | kInfoLogFile => true
  end.

Definition collect_file (live : gset Z) (n : Numbers) (w : W) (filename : Slice) : W :=
  match ParseFileName filename with
  | Some (number, type) =>
      if keep_file live n number type then w
      else
        let w := match type with kTableFile => tc_Evict number w | _ => w end in
        (env_DeleteFile (dbname ++ str "/" ++ filename) w).2
  | None => w
  end.

Definition DeleteObsoleteFiles (db : DB) : DB :=
  if negb (ok (bg_error_ db)) then db
  else
    let live := AddLiveFiles (pending_outputs_ db) (versions_ db) in
    let '(_, filenames, w) := GetChildren dbname (db_env db) in
    with_env (foldl (collect_file live (vs_numbers (versions_ db))) w filenames) db.

(** ** Memtables to tables *)

(** [base] is the address of a version, or null; the edit is changed. *)
Definition WriteLevel0Table (rounds : nat) (mem : nat) (base : option nat) (edit : VersionEdit) (db : DB) : option (Status * VersionEdit * DB) :=
  let '(number, vs) := NewFileNumber (versions_ db) in
  let db := with_pending ({[number]} ∪ pending_outputs_ db) (with_versions vs db) in
  m ← mems db !! mem;
  let db := others db in
  '(s, meta, _, w) ← BuildTable dbname topts addr (Iterator1 := mem_iterator ucmp) rounds number (NewMemTableIterator m) (db_env db);
  let db := with_env w db in
  let db := with_pending (pending_outputs_ db ∖ {[number]}) db in
  if ok s && (0 <? file_size meta) then
    level ← match base with
            | Some id => n ← find_node id (versions_ db); PickLevelForMemTableOutput ucmp max_file_size (ExtractUserKey (smallest meta)) (ExtractUserKey (largest meta)) (node_version n)
            | None => Some 0
            end;
    Some (s, AddFile level number (file_size meta) (smallest meta) (largest meta) edit, db)
  else Some (s, edit, db).

Definition CompactMemTable (rounds : nat) (db : DB) : option DB :=
  imm ← imm_ db;
  base ← current_ (versions_ db);
  vs ← Version_Ref base (versions_ db);
  '(s, edit, db) ← WriteLevel0Table rounds imm (Some base) VersionEdit_new (with_versions vs db);
  vs ← Version_Unref base (versions_ db);
  let db := with_versions vs db in
  let s := if ok s && shutting_down_ db then Status_IOError (str "Deleting DB during memtable compaction") [] else s in
  '(s, db) ←
    (if ok s then
       let edit := SetLogNumber (logfile_number_ db) (SetPrevLogNumber 0 edit) in
       '(s, _, vs) ← LogAndApply ucmp dbname addr others_v edit (versions_ db); Some (s, with_versions vs db)
     else Some (s, db));
  if ok s then
    db ← mem_Unref imm db;
    Some (DeleteObsoleteFiles (with_mems (mems db) (mem_fresh db) (mem_ db) None db))
  else Some (RecordBackgroundError s db).

(** ** Compactions *)

(** [file_size] is not assigned before the output is finished. *)
Record Output := MkOutput { out_number : Z; out_file_size : option Z; out_smallest : Slice; out_largest : Slice }.

Record CompactionState := MkCompactionState {
  compaction : Compaction;
  smallest_snapshot : Z;
  outputs : list Output;
  outfile : option Z;
  builder : option (TableBuilder (Z * W));
  total_bytes : Z;
}.

Definition set_compaction (c : Compaction) (st : CompactionState) : CompactionState :=
  MkCompactionState c (smallest_snapshot st) (outputs st) (outfile st) (builder st) (total_bytes st).
Definition set_builder (b : option (TableBuilder (Z * W))) (st : CompactionState) : CompactionState :=
  MkCompactionState (compaction st) (smallest_snapshot st) (outputs st) (outfile st) b (total_bytes st).
Definition set_outputs (os : list Output) (st : CompactionState) : CompactionState :=
  MkCompactionState (compaction st) (smallest_snapshot st) os (outfile st) (builder st) (total_bytes st).

(** [current_output()] and an assignment to it. *)
Definition current_output (st : CompactionState) : option Output := list.last (outputs st).
Definition update_output (f : Output -> Output) (st : CompactionState) : option CompactionState :=
  o ← current_output st; Some (set_outputs (take (length (outputs st) - 1) (outputs st) ++ [f o]) st).

Definition OpenCompactionOutputFile (st : CompactionState) (db : DB) : option (Status * CompactionState * DB) :=
  match builder st with
  | Some _ => None
  | None =>
      let db := others db in
      let '(file_number, vs) := NewFileNumber (versions_ db) in
      let db := with_pending ({[file_number]} ∪ pending_outputs_ db) (with_versions vs db) in
      let st := set_outputs (outputs st ++ [MkOutput file_number None [] []]) st in
      let '(s, h, w) := NewWritableFile (TableFileName dbname file_number) (db_env db) in
      let db := with_env w db in
      if ok s
      then Some (s, MkCompactionState (compaction st) (smallest_snapshot st) (outputs st) (Some h) (Some (TableBuilder_new topts (h, w))) (total_bytes st), db)
      else Some (s, st, db)
  end.

(** [input_status] is [input->status()]. *)
Definition FinishCompactionOutputFile (input_status : Status) (st : CompactionState) (db : DB) : option (Status * CompactionState * DB) :=
  h ← outfile st; b ← builder st; out ← current_output st;
  if out_number out =? 0 then None
  else
    let b := in_world (db_env db) b in
    let current_entries := NumEntries b in
    '(s, b) ← (if ok input_status then TableBuilder_Finish addr b else Some (input_status, Abandon b));
    let current_bytes := FileSize b in
    let w := (file b).2 in
    st ← update_output (fun o => MkOutput (out_number o) (Some current_bytes) (out_smallest o) (out_largest o)) st;
    let st := MkCompactionState (compaction st) (smallest_snapshot st) (outputs st) None None (u64 (total_bytes st + current_bytes)) in
    let '(s, w) := if ok s then file_Sync h w else (s, w) in
    let '(s, w) := if ok s then file_Close h w else (s, w) in
    let w := delete_writable h w in
    '(s, w) ← (if ok s && (0 <? current_entries) then verify_table (out_number out) current_bytes w else Some (s, w));
    Some (s, st, with_env w db).

(** An output without a size is read before it was assigned. *)
Fixpoint add_outputs (level : Z) (os : list Output) (edit : VersionEdit) : option VersionEdit :=
  match os with
  | [] => Some edit
  | o :: os => size ← out_file_size o; add_outputs level os (AddFile level (out_number o) size (out_smallest o) (out_largest o) edit)
  end.

Definition set_edit (e : VersionEdit) (c : Compaction) : Compaction := set_inputs (input_version_ c) (inputs_0 c) (inputs_1 c) (grandparents_ c) e c.

Definition InstallCompactionResults (st : CompactionState) (db : DB) : option (Status * CompactionState * DB) :=
  let c := compaction st in
  edit ← add_outputs (c_level_ c + 1) (outputs st) (AddInputDeletions c (edit_ c));
  '(s, edit, vs) ← LogAndApply ucmp dbname addr others_v edit (versions_ db);
  Some (s, set_compaction (set_edit edit c) st, with_versions vs db).

(** The locals of the loop. *)
Record KeyState := MkKeyState { current_user_key : Slice; has_current_user_key : bool; last_sequence_for_key : Z }.

Definition KeyState_new : KeyState := MkKeyState [] false kMaxSequenceNumber.

(** Whether the entry is dropped; [IsBaseLevelForKey] moves its pointers. *)
Definition drop_entry (snapshot : Z) (key : Slice) (ks : KeyState) (c : Compaction) : option (bool * KeyState * Compaction) :=
  match ParseInternalKey key with
  | None => Some (false, MkKeyState [] false kMaxSequenceNumber, c)
  | Some ikey =>
      let ks :=
        if negb (has_current_user_key ks) || negb (Compare ucmp (user_key ikey) (current_user_key ks) =? 0)
        then MkKeyState (user_key ikey) true kMaxSequenceNumber else ks in
      '(drop, c) ←
        (if last_sequence_for_key ks <=? snapshot then Some (true, c)
         else if bool_decide (type ikey = kTypeDeletion) && (sequence ikey <=? snapshot) then IsBaseLevelForKey ucmp (user_key ikey) c
         else Some (false, c));
      Some (drop, MkKeyState (current_user_key ks) (has_current_user_key ks) (sequence ikey), c)
  end.

(** An entry that is kept: [input_status] is for [FinishCompactionOutputFile]. *)
Definition output_entry (key value : Slice) (input_status : Status) (st : CompactionState) (db : DB) : option (Status * CompactionState * DB) :=
  '(s, st, db) ← match builder st with Some _ => Some (Status_OK, st, db) | None => OpenCompactionOutputFile st db end;
  if negb (ok s) then Some (s, st, db)
  else
    b ← builder st;
    let b := in_world (db_env db) b in
    let first := NumEntries b =? 0 in
    st ← update_output (fun o => MkOutput (out_number o) (out_file_size o) (if first then key else out_smallest o) key) st;
    let b := TableBuilder_Add addr key value b in
    let st := set_builder (Some b) st in
    let db := with_env (file b).2 db in
    if max_output_file_size_ (compaction st) <=? FileSize b then FinishCompactionOutputFile input_status st db else Some (s, st, db).

Context {I : Type} `{!Iterator I}.

Fixpoint compaction_loop (n rounds : nat) (input : I) (ks : KeyState) (st : CompactionState) (db : DB) : option (Status * I * CompactionState * DB) :=
  let db := others db in
  if i_Valid input && negb (shutting_down_ db) then
    match n with
    | O => None
    | S n =>
        db ← match imm_ db with Some _ => CompactMemTable rounds db | None => Some db end;
        let key := i_key input in
        let '(stop, c) := ShouldStopBefore ucmp max_file_size key (compaction st) in
        let st := set_compaction c st in
        '(s, st, db) ← match stop, builder st with
                       | true, Some _ => FinishCompactionOutputFile (i_status input) st db
                       | _, _ => Some (Status_OK, st, db)
                       end;
        if negb (ok s) then Some (s, input, st, db)
        else
          '(drop, ks, c) ← drop_entry (smallest_snapshot st) key ks (compaction st);
          let st := set_compaction c st in
          '(s, st, db) ← (if drop : bool then Some (s, st, db) else output_entry key (i_value input) (i_status input) st db);
          if negb (ok s) then Some (s, input, st, db)
          else input ← i_Next input; compaction_loop n rounds input ks st db
    end
  else Some (Status_OK, input, st, db).

(** The sequence that the oldest snapshot, or the newest entry, has. *)
Definition oldest_sequence (db : DB) : option Z :=
  empty ← sn_empty (snapshots_ db);
  if empty : bool then Some (LastSequence db) else a ← oldest (snapshots_ db); x ← sn_nodes (snapshots_ db) !! a; Some (sequence_number x).

(** The tables; [input] is what [MakeInputIterator] returns. *)
Definition compact_tables (n rounds : nat) (input : I) (st : CompactionState) (db : DB) : option (Status * CompactionState * DB) :=
  input ← i_SeekToFirst input;
  '(s, input, st, db) ← compaction_loop n rounds input KeyState_new st db;
  let db := others db in
  let s := if ok s && shutting_down_ db then Status_IOError (str "Deleting DB during compaction") [] else s in
  '(s, st, db) ← match ok s, builder st with
                 | true, Some _ => FinishCompactionOutputFile (i_status input) st db
                 | _, _ => Some (s, st, db)
                 end;
  Some (if ok s then i_status input else s, st, db).

Definition DoCompactionWork (n rounds : nat) (input : I) (st : CompactionState) (db : DB) : option (Status * CompactionState * DB) :=
  files ← NumLevelFiles (c_level_ (compaction st)) (versions_ db);
  if negb (0 <? files) || negb (bool_decide (builder st = None) && bool_decide (outfile st = None)) then None
  else
    snapshot ← oldest_sequence db;
    let st := MkCompactionState (compaction st) snapshot (outputs st) (outfile st) (builder st) (total_bytes st) in
    '(s, st, db) ← compact_tables n rounds input st db;
    let db := others db in
    '(s, st, db) ← (if ok s then InstallCompactionResults st db else Some (s, st, db));
    Some (s, st, if ok s then db else RecordBackgroundError s db).

(** [delete compact->outfile] and the outputs that are no longer pending. *)
Definition CleanupCompaction (st : CompactionState) (db : DB) : option DB :=
  if bool_decide (builder st = None) && negb (bool_decide (outfile st = None)) then None
  else
    let db := match outfile st with Some h => with_env (delete_writable h (db_env db)) db | None => db end in
    Some (with_pending (foldl (fun p o => p ∖ {[out_number o]}) (pending_outputs_ db) (outputs st)) db).

End DBImpl.

(** ** Background work *)

Section Background.

Context (ucmp : Comparator) (topts : Options) (max_file_size : Z) (dbname : Slice) (addr : Slice -> Z).
Context {W D I : Type} `{!Env W} `{!EnvDir W} `{!Iterator D} `{!TableCache W D} `{!Iterator I}.
Context (others : DBImpl W -> DBImpl W) (others_v : VersionSet W -> VersionSet W) (make_input : Compaction -> I).
Local Abbreviation DB := (DBImpl W).

Definition CompactionState_new (c : Compaction) : CompactionState (W := W) := MkCompactionState c 0 [] None None 0.

(** A file that moves to the next level. *)
Definition move_file (c : Compaction) (db : DB) : option (Status * DB) :=
  f ← inputs_0 c !! 0%nat;
  let edit := AddFile (c_level_ c + 1) (f_number f) (f_size f) (f_smallest f) (f_largest f) (DeleteFile (c_level_ c) (f_number f) (edit_ c)) in
  '(s, _, vs) ← LogAndApply ucmp dbname addr others_v edit (versions_ db);
  let db := with_versions vs db in
  Some (s, if ok s then db else RecordBackgroundError s db).

(** The work on the compaction that was picked, with the address of its input
    version. *)
Definition run_compaction (n rounds : nat) (is_manual : bool) (c : option (Compaction * nat)) (db : DB) : option (Status * DB) :=
  match c with
  | None => Some (Status_OK, db)
  | Some (c, id) =>
      if negb is_manual && IsTrivialMove max_file_size c then
        if negb (length (inputs_0 c) =? 1)%nat then None
        else
          '(s, db) ← move_file c db;
          '(_, vs) ← ReleaseInputs (Some id) (versions_ db);
          Some (s, with_versions vs db)
      else
        '(s, st, db) ← DoCompactionWork ucmp topts max_file_size dbname addr others others_v n rounds (make_input c) (CompactionState_new c) db;
        let db := if ok s then db else RecordBackgroundError s db in
        db ← CleanupCompaction st db;
        '(_, vs) ← ReleaseInputs (Some id) (versions_ db);
        Some (s, DeleteObsoleteFiles (D := D) dbname (with_versions vs db))
  end.

(** The manual compaction when its work is done, which is given back to the
    caller that waits for it; [manual_compaction_] may have become null. *)
Definition finish_manual (done : bool) (manual_end : option Slice) (s : Status) (db : DB) : option (ManualCompaction * DB) :=
  m ← manual_compaction_ db;
  let done := done || negb (ok s) in
  let begin := if done then mc_begin m else manual_end in
  Some (MkManual (mc_id m) (mc_level m) done begin (mc_end m), with_manual None db).

Definition BackgroundCompaction (n rounds : nat) (db : DB) : option (option ManualCompaction * DB) :=
  match imm_ db with
  | Some _ => db ← CompactMemTable ucmp topts max_file_size dbname addr (D := D) others others_v rounds db; Some (None, db)
  | None =>
      match manual_compaction_ db with
      | Some m =>
          '(c, vs) ← VersionSet_CompactRange ucmp max_file_size (mc_level m) (mc_begin m) (mc_end m) (versions_ db);
          manual_end ← match c with Some (c, _) => f ← list.last (inputs_0 c); Some (Some (f_largest f)) | None => Some None end;
          '(s, db) ← run_compaction n rounds true c (with_versions vs db);
          '(m, db) ← finish_manual (bool_decide (c = None)) manual_end s db;
          Some (Some m, db)
      | None =>
          '(c, vs) ← VersionSet_PickCompaction ucmp max_file_size (versions_ db);
          '(_, db) ← run_compaction n rounds false c (with_versions vs db);
          Some (None, db)
      end
  end.

Definition BackgroundCall (n rounds : nat) (db : DB) : option (option ManualCompaction * DB) :=
  if negb (background_compaction_scheduled_ db) then None
  else
    '(m, db) ← (if shutting_down_ db || negb (ok (bg_error_ db)) then Some (None, db) else BackgroundCompaction n rounds db);
    db ← MaybeScheduleCompaction (with_scheduled false db);
    Some (m, db).

End Background.

(** ** Writes *)

Definition ByteSize (b : WriteBatch) : Z := size b.

(** The writers after the first that join its batch.  [result] is the
    temporary batch once it is used. *)
Fixpoint group_loop (first : QueuedWriter) (first_batch : WriteBatch) (max_size size : Z) (tmp : WriteBatch) (result : option WriteBatch) (last : nat) (ws : list QueuedWriter) :
  option (option WriteBatch * nat) :=
  match ws with
  | [] => Some (result, last)
  | w :: ws =>
      if qw_sync w && negb (qw_sync first) then Some (result, last)
      else
        match qw_batch w with
        | None => group_loop first first_batch max_size size tmp result (qw_id w) ws
        | Some b =>
            let size := u64 (size + ByteSize b) in
            if max_size <? size then Some (result, last)
            else
              result ← match result with
                       | None => if negb (Count tmp =? 0) then None else Some (batch_Append tmp first_batch)
                       | Some r => Some r
                       end;
              group_loop first first_batch max_size size tmp (Some (batch_Append result b)) (qw_id w) ws
        end
  end.

(** The batch, whether it is the temporary one, and the last writer. *)
Definition BuildBatchGroup (tmp : WriteBatch) (ws : list QueuedWriter) : option (WriteBatch * bool * nat) :=
  first ← ws !! 0%nat;
  batch ← qw_batch first;
  let size := ByteSize batch in
  let max_size := if size <=? Z.shiftl 128 10 then u64 (size + Z.shiftl 128 10) else Z.shiftl 1 20 in
  '(result, last) ← group_loop first batch max_size size tmp None (qw_id first) (drop 1 ws);
  Some (default batch result, negb (bool_decide (result = None)), last).

(** The writers up to the last one leave the queue. *)
Fixpoint finish_writers (self last : nat) (s : Status) (ws : list QueuedWriter) : option (list QueuedWriter * list QueuedWriter) :=
  match ws with
  | [] => None
  | ready :: ws =>
      let ready := if (qw_id ready =? self)%nat then ready else MkQueued (qw_id ready) (qw_batch ready) (qw_sync ready) true s in
      if (qw_id ready =? last)%nat then Some ([ready], ws)
      else '(finished, ws) ← finish_writers self last s ws; Some (ready :: finished, ws)
  end.

Section DBWrite.

Context `{NewChar} (regions : list region) (ucmp : Comparator) (topts : Options) (max_file_size write_buffer_size : Z) (dbname : Slice) (addr : Slice -> Z).
Context {W D : Type} `{!Env W} `{!EnvDir W} `{!Iterator D} `{!TableCache W D}.
Context (others : DBImpl W -> DBImpl W) (others_v : VersionSet W -> VersionSet W).
Local Abbreviation DB := (DBImpl W).
#[local] Existing Instance env_writable.
#[local] Existing Instance env_sequential.

(** [new MemTable] and [Ref()]: its address. *)
Definition new_memtable (db : DB) : option (nat * DB) :=
  m ← MemTable_new regions;
  Some (mem_fresh db, with_mems (<[mem_fresh db := Ref m]> (mems db)) (S (mem_fresh db)) (mem_ db) (imm_ db) db).

(** A new log and memtable; the old memtable is to be compacted. *)
Definition switch_memtable (db : DB) : option (Status * DB) :=
  if negb (nm_prev_log (vs_numbers (versions_ db)) =? 0) then None
  else
    let '(new_log_number, vs) := NewFileNumber (versions_ db) in
    let '(s, lfile, w) := NewWritableFile (LogFileName dbname new_log_number) (vs_env vs) in
    let vs := set_env w vs in
    if negb (ok s) then Some (s, with_versions (ReuseFileNumber new_log_number vs) db)
    else
      let vs := match logfile_ db with Some h => set_env (delete_writable h (vs_env vs)) vs | None => vs end in
      let db := with_log (Some lfile) (Some 0) new_log_number (with_versions vs db) in
      '(mem, db) ← new_memtable (with_mems (mems db) (mem_fresh db) (mem_ db) (mem_ db) db);
      db ← MaybeScheduleCompaction (with_mems (mems db) (mem_fresh db) (Some mem) (imm_ db) db);
      Some (s, db).

(** Each round of the loop that waits lets the other threads work. *)
Fixpoint MakeRoomForWrite (rounds : nat) (allow_delay force : bool) (db : DB) : option (Status * DB) :=
  match rounds with
  | O => None
  | S rounds =>
      if negb (ok (bg_error_ db)) then Some (bg_error_ db, db)
      else
        files ← NumLevelFiles 0 (versions_ db);
        a ← mem_ db; m ← mems db !! a;
        if allow_delay && (kL0_SlowdownWritesTrigger <=? files) then MakeRoomForWrite rounds false force (others db)
        else if negb force && (ApproximateMemoryUsage m <=? write_buffer_size) then Some (Status_OK, db)
        else if negb (bool_decide (imm_ db = None)) then MakeRoomForWrite rounds allow_delay force (others db)
        else if kL0_StopWritesTrigger <=? files then MakeRoomForWrite rounds allow_delay force (others db)
        else
          '(s, db) ← switch_memtable db;
          if negb (ok s) then Some (s, db) else MakeRoomForWrite rounds allow_delay false db
  end.

(** The record in the log, synced if the writer asks for it. *)
Definition log_batch (sync : bool) (updates : WriteBatch) (db : DB) : option (Status * bool * DB) :=
  h ← logfile_ db; off ← log_ db;
  '(s, l) ← AddRecord addr updates (MkWriter (h, db_env db) off (InitTypeCrc addr));
  let db := with_log (logfile_ db) (Some (block_offset_ l)) (logfile_number_ db) (with_env (dest_ l).2 db) in
  Some (if ok s && sync then let '(s, w) := file_Sync h (db_env db) in (s, negb (ok s), with_env w db) else (s, false, db)).

(** What is done while the mutex is released, and the error that is recorded
    when it is held again. *)
Definition commit_batch (sync : bool) (updates : WriteBatch) (db : DB) : option (Status * DB) :=
  '(s, sync_error, db) ← log_batch sync updates (others db);
  '(s, db) ←
    (if ok s then
       a ← mem_ db; m ← mems db !! a;
       let '(s, m) := InsertInto regions ucmp updates m in
       m ← m; Some (s, with_mems (<[a := m]> (mems db)) (mem_fresh db) (mem_ db) (imm_ db) db)
     else Some (s, db));
  Some (s, if sync_error : bool then RecordBackgroundError s db else db).

(** An assignment to the batch of the group, which is the temporary one or the
    batch of the caller at the front. *)
Definition assign_batch (is_tmp : bool) (updates : WriteBatch) (db : DB) : DB :=
  if is_tmp then with_tmp_batch updates db
  else match writers_ db with
       | w :: ws => with_writers (MkQueued (qw_id w) (Some updates) (qw_sync w) (qw_done w) (qw_status w) :: ws) db
       | [] => db
       end.

(** [Write] of the writer at the front of the queue, from [MakeRoomForWrite]
    on: the status, and the writers that are finished. *)
Definition Write (rounds : nat) (db : DB) : option (Status * list QueuedWriter * DB) :=
  w ← writers_ db !! 0%nat;
  let force := bool_decide (qw_batch w = None) in
  '(s, db) ← MakeRoomForWrite rounds (negb force) force db;
  let last_sequence := LastSequence db in
  '(s, last_writer, db) ←
    (if ok s && negb force then
       '(updates, is_tmp, last_writer) ← BuildBatchGroup (tmp_batch_ db) (writers_ db);
       let updates := SetSequence updates (u64 (last_sequence + 1)) in
       let last_sequence := u64 (last_sequence + Count updates) in
       '(s, db) ← commit_batch (qw_sync w) updates (assign_batch is_tmp updates db);
       let db := if is_tmp : bool then with_tmp_batch batch_Clear db else db in
       vs ← VersionSet_SetLastSequence last_sequence (versions_ db);
       Some (s, last_writer, with_versions vs db)
     else Some (s, qw_id w, db));
  '(finished, ws) ← finish_writers (qw_id w) last_writer s (writers_ db);
  Some (s, finished, with_writers ws db).

(** The start of [Write]: the writer joins the queue. *)
Definition join_writers (id : nat) (updates : option WriteBatch) (sync : bool) (db : DB) : DB :=
  with_writers (writers_ db ++ [MkQueued id updates sync false Status_OK]) db.

(** What the other threads do until the writer [id] is finished, with its
    status, or at the front of the queue. *)
Context (others_w : nat -> DB -> option Status * DB).

(** The whole of [Write], called by a thread whose writer is the object [id]. *)
Definition DB_Write (rounds : nat) (id : nat) (sync : bool) (updates : option WriteBatch) (db : DB) : option (Status * DB) :=
  let '(done, db) := others_w id (join_writers id updates sync db) in
  match done with
  | Some s => Some (s, db)
  | None =>
      if bool_decide (qw_id <$> head (writers_ db) = Some id) then '(s, _, db) ← Write rounds db; Some (s, db)
      else None
  end.

(** [DB::Put] and [DB::Delete]. *)
Definition DB_Put (rounds : nat) (id : nat) (sync : bool) (key value : Slice) (db : DB) : option (Status * DB) :=
  DB_Write rounds id sync (Some (batch_Put key value batch_Clear)) db.
Definition DB_Delete (rounds : nat) (id : nat) (sync : bool) (key : Slice) (db : DB) : option (Status * DB) :=
  DB_Write rounds id sync (Some (batch_Delete key batch_Clear)) db.

(** ** Reads *)

Definition read_sequence (snapshot : option nat) (db : DB) : option Z :=
  match snapshot with Some a => x ← sn_nodes (snapshots_ db) !! a; Some (sequence_number x) | None => Some (LastSequence db) end.

(** The memtable, the one being compacted, and the version: the statistics are
    of the version. *)
Definition read_sources (ro : ReadOptions) (lkey : LookupKey) (value : Slice) (mem : nat) (imm : option nat) (current : nat) (db : DB) :
  option (Status * Slice * option GetStats * DB) :=
  m ← mems db !! mem;
  '(found, value, s) ← Get ucmp m lkey value Status_OK;
  if found : bool then Some (s, value, None, db)
  else
    '(found, value, s) ← match imm with Some a => m ← mems db !! a; Get ucmp m lkey value s | None => Some (false, value, s) end;
    if found : bool then Some (s, value, None, db)
    else
      n ← find_node current (versions_ db);
      '(s, v, stats, w) ← Version_Get ucmp ro lkey (node_version n) (db_env db);
      Some (s, default value v, Some stats, with_env w db).

Definition opt_mem (f : nat -> DB -> option DB) (a : option nat) (db : DB) : option DB := match a with Some a => f a db | None => Some db end.

Definition DB_Get (ro : ReadOptions) (snapshot : option nat) (key value : Slice) (db : DB) : option (Status * Slice * DB) :=
  sequence ← read_sequence snapshot db;
  mem ← mem_ db;
  let imm := imm_ db in
  current ← current_ (versions_ db);
  db ← mem_Ref mem db;
  db ← opt_mem mem_Ref imm db;
  vs ← Version_Ref current (versions_ db);
  '(s, value, stats, db) ← read_sources ro (LookupKey_new key sequence) value mem imm current (others (with_versions vs db));
  db ← match stats with
       | Some stats =>
           '(b, vs) ← on_version (UpdateStats stats) current (versions_ db);
           if b : bool then MaybeScheduleCompaction (with_versions vs db) else Some (with_versions vs db)
       | None => Some db
       end;
  db ← mem_Unref mem db;
  db ← opt_mem mem_Unref imm db;
  vs ← Version_Unref current (versions_ db);
  Some (s, value, with_versions vs db).

Definition DB_RecordReadSample (key : Slice) (db : DB) : option DB :=
  c ← current_ (versions_ db);
  '(b, vs) ← on_version (Version_RecordReadSample ucmp key) c (versions_ db);
  if b : bool then MaybeScheduleCompaction (with_versions vs db) else Some (with_versions vs db).

Definition GetSnapshot (db : DB) : option (nat * DB) :=
  '(a, l) ← Snapshot_New (LastSequence db) (snapshots_ db); Some (a, with_snapshots l db).

Definition ReleaseSnapshot (a : nat) (db : DB) : option DB :=
  l ← Snapshot_Delete a (snapshots_ db); Some (with_snapshots l db).

(** ** Opening a database *)

(** [paranoid_checks] is read from the options. *)
Definition MaybeIgnoreError (s : Status) : Status := if ok s || paranoid_checks topts then s else Status_OK.

Definition NewDB (w : W) : option (Status * W) :=
  let new_db := SetLastSequence 0 (SetNextFile 2 (SetLogNumber 0 (SetComparatorName (ComparatorName ucmp) VersionEdit_new))) in
  let manifest := DescriptorFileName dbname 1 in
  let '(s, h, w) := NewWritableFile manifest w in
  if negb (ok s) then Some (s, w)
  else
    '(s, l) ← AddRecord addr (EncodeTo new_db []) (Writer_new addr (h, w));
    let w := (dest_ l).2 in
    let '(s, w) := if ok s then file_Close h w else (s, w) in
    let w := delete_writable h w in
    Some (if ok s then SetCurrentFile dbname 1 w else (s, (env_DeleteFile manifest w).2)).

(** The locals of [RecoverLogFile]: the log is read through the object [file_]
    of the reader. *)
Record LogState := MkLogState {
  ls_status : Status;
  ls_reader : Reader (Z * W);
  ls_mem : option nat;
  ls_compactions : Z;
  ls_save : bool;
  ls_edit : VersionEdit;
  ls_max : Z;
}.

Definition ls_set_status (s : Status) (ls : LogState) : LogState :=
  MkLogState s (ls_reader ls) (ls_mem ls) (ls_compactions ls) (ls_save ls) (ls_edit ls) (ls_max ls).

(** [reporter.Corruption] for a record that is too small. *)
Definition report_small (s : Status) : Status := if paranoid_checks topts && ok s then Status_Corruption "log record too small" [] else s.

(** A batch of the log: whether to go on. *)
Definition recover_batch (rounds : nat) (batch : WriteBatch) (ls : LogState) (db : DB) : option (bool * LogState * DB) :=
  '(a, db) ← match ls_mem ls with Some a => Some (a, db) | None => new_memtable db end;
  m ← mems db !! a;
  let '(s, m) := InsertInto regions ucmp batch m in
  m ← m;
  let db := with_mems (<[a := m]> (mems db)) (mem_fresh db) (mem_ db) (imm_ db) db in
  let s := MaybeIgnoreError s in
  let ls := MkLogState s (ls_reader ls) (Some a) (ls_compactions ls) (ls_save ls) (ls_edit ls) (ls_max ls) in
  if negb (ok s) then Some (false, ls, db)
  else
    let last_seq := u64 (Sequence batch + Count batch - 1) in
    let ls := MkLogState s (ls_reader ls) (Some a) (ls_compactions ls) (ls_save ls) (ls_edit ls) (if ls_max ls <? last_seq then last_seq else ls_max ls) in
    if write_buffer_size <? ApproximateMemoryUsage m then
      '(s, edit, db) ← WriteLevel0Table ucmp topts max_file_size dbname addr (D := D) others rounds a None (ls_edit ls) db;
      db ← mem_Unref a db;
      Some (ok s, MkLogState s (ls_reader ls) None (ls_compactions ls + 1) true edit (ls_max ls), db)
    else Some (true, ls, db).

(** [rounds] also bounds the physical records of a record. *)
Fixpoint recover_log_loop (n rounds : nat) (ls : LogState) (db : DB) : option (LogState * DB) :=
  match n with
  | O => None
  | S n =>
      let r := ls_reader ls in
      '(more, record, r) ← ReadRecord addr rounds (set_file ((file_ r).1, db_env db) r);
      let db := with_env (file_ r).2 db in
      let s := if paranoid_checks topts then reported r (ls_status ls) else ls_status ls in
      let ls := MkLogState s r (ls_mem ls) (ls_compactions ls) (ls_save ls) (ls_edit ls) (ls_max ls) in
      if negb (more && ok s) then Some (ls, db)
      else if size record <? 12 then recover_log_loop n rounds (ls_set_status (report_small s) ls) db
      else
        '(go, ls, db) ← recover_batch rounds (SetContents record) ls db;
        if go : bool then recover_log_loop n rounds ls db else Some (ls, db)
  end.

(** Whether the last log is written on; the memtable that is left. *)
Definition reuse_log (reuse_logs last_log : bool) (log_number : Z) (ls : LogState) (db : DB) : option (option nat * DB) :=
  if ok (ls_status ls) && reuse_logs && last_log && (ls_compactions ls =? 0) then
    if negb (bool_decide (logfile_ db = None) && bool_decide (log_ db = None) && bool_decide (mem_ db = None)) then None
    else
      let fname := LogFileName dbname log_number in
      let '(s, lfile_size, w) := GetFileSize fname (db_env db) in
      if negb (ok s) then Some (ls_mem ls, with_env w db)
      else
        let '(s, h, w) := env_NewAppendableFile fname w in
        let db := with_env w db in
        if negb (ok s) then Some (ls_mem ls, db)
        else
          let db := with_log (Some h) (Some (block_offset_ (Writer_at addr (h, w) lfile_size))) log_number db in
          '(a, db) ← match ls_mem ls with Some a => Some (a, db) | None => new_memtable db end;
          Some (None, with_mems (mems db) (mem_fresh db) (Some a) (imm_ db) db)
  else Some (ls_mem ls, db).

Definition RecoverLogFile (rounds : nat) (reuse_logs last_log : bool) (log_number : Z) (save_manifest : bool) (edit : VersionEdit) (max_sequence : Z) (db : DB) :
  option (Status * bool * VersionEdit * Z * DB) :=
  let '(s, h, w) := NewSequentialFile (LogFileName dbname log_number) (db_env db) in
  let db := with_env w db in
  if negb (ok s) then Some (MaybeIgnoreError s, save_manifest, edit, max_sequence, db)
  else
    '(ls, db) ← recover_log_loop rounds rounds (MkLogState s (Reader_new (h, w) true true 0) None 0 save_manifest edit max_sequence) db;
    let db := with_env (delete_sequential h (db_env db)) db in
    '(mem, db) ← reuse_log reuse_logs last_log log_number ls db;
    match mem with
    | None => Some (ls_status ls, ls_save ls, ls_edit ls, ls_max ls, db)
    | Some a =>
        '(s, save, edit, db) ←
          (if ok (ls_status ls) then
             '(s, edit, db) ← WriteLevel0Table ucmp topts max_file_size dbname addr (D := D) others rounds a None (ls_edit ls) db; Some (s, true, edit, db)
           else Some (ls_status ls, ls_save ls, ls_edit ls, db));
        db ← mem_Unref a db;
        Some (s, save, edit, ls_max ls, db)
    end.

(** The logs of the directory that are not older than the manifest says. *)
Definition log_numbers (n : Numbers) (filenames : list Slice) : list Z :=
  omap (fun f => match ParseFileName f with
                 | Some (number, kLogFile) => if (nm_log n <=? number) || (number =? nm_prev_log n) then Some number else None
                 | _ => None
                 end) filenames.

(** The live files that are not in the directory. *)
Definition missing_files (expected : gset Z) (filenames : list Slice) : gset Z :=
  foldl (fun e f => match ParseFileName f with Some (number, _) => e ∖ {[number]} | None => e end) expected filenames.

Fixpoint recover_logs (rounds : nat) (reuse_logs : bool) (logs : list Z) (save_manifest : bool) (edit : VersionEdit) (max_sequence : Z) (db : DB) :
  option (Status * bool * VersionEdit * Z * DB) :=
  match logs with
  | [] => Some (Status_OK, save_manifest, edit, max_sequence, db)
  | log :: logs =>
      '(s, save_manifest, edit, max_sequence, db) ← RecoverLogFile rounds reuse_logs (bool_decide (logs = [])) log save_manifest edit max_sequence db;
      if negb (ok s) then Some (s, save_manifest, edit, max_sequence, db)
      else recover_logs rounds reuse_logs logs save_manifest edit max_sequence (with_versions (MarkFileNumberUsed log (versions_ db)) db)
  end.

(** After the manifest: the logs. *)
Definition recover_contents (rounds : nat) (reuse_logs save_manifest : bool) (edit : VersionEdit) (db : DB) : option (Status * bool * VersionEdit * DB) :=
  let '(s, filenames, w) := GetChildren dbname (db_env db) in
  let db := with_env w db in
  if negb (ok s) then Some (s, save_manifest, edit, db)
  else
    let missing := missing_files (AddLiveFiles ∅ (versions_ db)) filenames in
    match merge_sort Z.le (elements missing) with
    | e :: _ => Some (Status_new kCorruption (decimal (Z.of_nat (length (elements missing))) ++ str " missing files; e.g.") (TableFileName dbname e), save_manifest, edit, db)
    | [] =>
        let logs := merge_sort Z.le (log_numbers (vs_numbers (versions_ db)) filenames) in
        '(s, save_manifest, edit, max_sequence, db) ← recover_logs rounds reuse_logs logs save_manifest edit 0 db;
        if negb (ok s) then Some (s, save_manifest, edit, db)
        else
          vs ← (if LastSequence db <? max_sequence then VersionSet_SetLastSequence max_sequence (versions_ db) else Some (versions_ db));
          Some (Status_OK, save_manifest, edit, with_versions vs db)
    end.

(** [db_lock_] is the number of the lock, if it was taken. *)
Definition DB_Recover (rounds : nat) (create_if_missing error_if_exists reuse_logs : bool) (edit : VersionEdit) (save_manifest : bool) (db : DB) :
  option (Status * option Z * bool * VersionEdit * DB) :=
  let w := (CreateDir dbname (db_env db)).2 in
  let '(s, lock, w) := LockFile (LockFileName dbname) w in
  if negb (ok s) then Some (s, None, save_manifest, edit, with_env w db)
  else
    '(s, w) ←
      (if negb (FileExists (CurrentFileName dbname) w) then
         if create_if_missing then NewDB w else Some (Status_InvalidArgument dbname (str "does not exist (create_if_missing is false)"), w)
       else if error_if_exists then Some (Status_InvalidArgument dbname (str "exists (error_if_exists is true)"), w) else Some (Status_OK, w));
    let db := with_env w db in
    if negb (ok s) then Some (s, Some lock, save_manifest, edit, db)
    else
      '(s, save_manifest, vs) ← LdbVersionSet.Recover ucmp max_file_size reuse_logs dbname addr rounds save_manifest (versions_ db);
      let db := with_versions vs db in
      if negb (ok s) then Some (s, Some lock, save_manifest, edit, db)
      else
        '(s, save_manifest, edit, db) ← recover_contents rounds reuse_logs save_manifest edit db;
        Some (s, Some lock, save_manifest, edit, db).

(** The constructor. *)
Definition DBImpl_new (env : W) : option DB :=
  vs ← VersionSet_new env;
  Some (MkDB vs ∅ 0 None None None None 0 ∅ Status_OK false false None SnapshotList_new [] batch_Clear).

(** A log and a memtable, when none is reused. *)
Definition open_log (edit : VersionEdit) (db : DB) : option (Status * VersionEdit * DB) :=
  let '(new_log_number, vs) := NewFileNumber (versions_ db) in
  let '(s, lfile, w) := NewWritableFile (LogFileName dbname new_log_number) (vs_env vs) in
  let db := with_versions (set_env w vs) db in
  if negb (ok s) then Some (s, edit, db)
  else
    '(a, db) ← new_memtable (with_log (Some lfile) (Some 0) new_log_number db);
    Some (s, SetLogNumber new_log_number edit, with_mems (mems db) (mem_fresh db) (Some a) (imm_ db) db).

(** [DB::Open], up to the deletion of the object when it fails: the lock that
    is held, and the database. *)
Definition Open (rounds : nat) (create_if_missing error_if_exists reuse_logs : bool) (env : W) : option (Status * option Z * DB) :=
  db ← DBImpl_new env;
  '(s, lock, save_manifest, edit, db) ← DB_Recover rounds create_if_missing error_if_exists reuse_logs VersionEdit_new false db;
  '(s, edit, db) ← (if ok s && bool_decide (mem_ db = None) then open_log edit db else Some (s, edit, db));
  '(s, db) ←
    (if ok s && save_manifest then
       '(s, _, vs) ← LogAndApply ucmp dbname addr others_v (SetLogNumber (logfile_number_ db) (SetPrevLogNumber 0 edit)) (versions_ db); Some (s, with_versions vs db)
     else Some (s, db));
  db ← (if ok s then MaybeScheduleCompaction (DeleteObsoleteFiles (D := D) dbname db) else Some db);
  if ok s && bool_decide (mem_ db = None) then None else Some (s, lock, db).

(** [DestroyDB]. *)
Definition destroy_file (st : Status * W) (filename : Slice) : Status * W :=
  match ParseFileName filename with
  | Some (_, kDBLockFile) => st
  | Some _ =>
      let '(del, w) := env_DeleteFile (dbname ++ str "/" ++ filename) st.2 in (if ok st.1 && negb (ok del) then del else st.1, w)
  | None => st
  end.

Definition DestroyDB (w : W) : Status * W :=
  let '(s, filenames, w) := GetChildren dbname w in
  if negb (ok s) then (Status_OK, w)
  else
    let lockname := LockFileName dbname in
    let '(s, lock, w) := LockFile lockname w in
    if negb (ok s) then (s, w)
    else
      let '(s, w) := foldl destroy_file (s, w) filenames in
      let w := (UnlockFile lock w).2 in
      let w := (env_DeleteFile lockname w).2 in
      (s, (DeleteDir dbname w).2).

(** ** Compactions that a caller asks for *)

(** Waiting until the full memtable is written. *)
Fixpoint wait_memtable (rounds : nat) (db : DB) : option (Status * DB) :=
  match imm_ db with
  | None => Some (Status_OK, db)
  | Some _ =>
      if ok (bg_error_ db) then match rounds with O => None | S rounds => wait_memtable rounds (others db) end
      else Some (bg_error_ db, db)
  end.

(** The batch is null. *)
Definition TEST_CompactMemTable (rounds : nat) (id : nat) (db : DB) : option (Status * DB) :=
  '(s, db) ← DB_Write rounds id false None db;
  if ok s then wait_memtable rounds db else Some (s, db).

(** What the other threads do to the caller's object and to the database. *)
Context (others_m : ManualCompaction -> DB -> ManualCompaction * DB).

Fixpoint manual_loop (rounds : nat) (manual : ManualCompaction) (db : DB) : option (ManualCompaction * DB) :=
  if negb (mc_done manual) && negb (shutting_down_ db) && ok (bg_error_ db) then
    match rounds with
    | O => None
    | S rounds =>
        match manual_compaction_ db with
        | None => db ← MaybeScheduleCompaction (with_manual (Some manual) db); manual_loop rounds manual db
        | Some _ => let '(manual, db) := others_m manual db in manual_loop rounds manual db
        end
    end
  else Some (manual, db).

Definition TEST_CompactRange (rounds : nat) (id : nat) (level : Z) (begin end_ : option Slice) (db : DB) : option DB :=
  if negb ((0 <=? level) && (level + 1 <? kNumLevels)) then None
  else
    let manual := MkManual id level false ((fun k => InternalKey_new k kMaxSequenceNumber kValueTypeForSeek) <$> begin) ((fun k => InternalKey_new k 0 kTypeDeletion) <$> end_) in
    '(manual, db) ← manual_loop rounds manual db;
    Some (if bool_decide (mc_id <$> manual_compaction_ db = Some (mc_id manual)) then with_manual None db else db).

(** The deepest level with files of the range, at least 1. *)
Definition max_level_with_files (begin end_ : option Slice) (v : Version) : option Z :=
  ofold (fun level m => b ← OverlapInLevel ucmp level begin end_ v; Some (if b : bool then level else m)) (seqZ 1 (kNumLevels - 1)) 1.

Definition DB_CompactRange (rounds : nat) (id : nat) (begin end_ : option Slice) (db : DB) : option DB :=
  v ← current_version (versions_ db);
  max_level ← max_level_with_files begin end_ v;
  '(_, db) ← TEST_CompactMemTable rounds id db;
  ofold (fun level db => TEST_CompactRange rounds id level begin end_ db) (seqZ 0 max_level) db.

(** ** The destructor *)

Fixpoint wait_background (rounds : nat) (db : DB) : option DB :=
  if background_compaction_scheduled_ db then match rounds with O => None | S rounds => wait_background rounds (others db) end
  else Some db.

(** [lock] is [db_lock_]; the world that is left.  The table cache goes with
    the world. *)
Definition DBImpl_delete (rounds : nat) (lock : option Z) (db : DB) : option W :=
  db ← wait_background rounds (with_shutting_down true db);
  let db := match lock with Some l => with_env (UnlockFile l (db_env db)).2 db | None => db end in
  w ← VersionSet_delete (versions_ db);
  db ← opt_mem mem_Unref (mem_ db) db;
  db ← opt_mem mem_Unref (imm_ db) db;
  Some (match logfile_ db with Some h => delete_writable h w | None => w end).

(** ** [GetProperty]

    The block cache's charge and the table of statistics are given. *)

Definition GetProperty (total_charge : DB -> Z) (stats : DB -> Slice) (property : Slice) (db : DB) : option (option Slice) :=
  let prefix := str "leveldb." in
  if negb (starts_with property prefix) then Some None
  else
    let rest := drop (length prefix) property in
    if starts_with rest (str "num-files-at-level") then
      match ConsumeDecimalNumber (drop (length (str "num-files-at-level")) rest) with
      | (true, [], Some level) => if kNumLevels <=? level then Some None else n ← NumLevelFiles (s32 level) (versions_ db); Some (Some (decimal n))
      | _ => Some None
      end
    else if slice_eqb rest (str "stats") then Some (Some (stats db))
    else if slice_eqb rest (str "sstables") then v ← current_version (versions_ db); Some (Some (Version_DebugString v))
    else if slice_eqb rest (str "approximate-memory-usage") then
      let usage a := match a with Some a => m ← mems db !! a; Some (ApproximateMemoryUsage m) | None => Some 0 end in
      m ← usage (mem_ db); i ← usage (imm_ db);
      Some (Some (decimal (u64 (u64 (total_charge db + m) + i))))
    else Some None.

End DBWrite.

(** ** Options

    [static_cast<V>( *ptr)] is a conversion to [int]; the members of [Options]
    that tables do not depend on are arguments. *)

Definition ClipToRange (x minvalue maxvalue : Z) : Z :=
  let x := if maxvalue <? s32 x then maxvalue else x in
  if s32 x <? minvalue then minvalue else x.

Definition kNumNonTableCacheFiles : Z := 10.

Record DBOptions := MkDBOptions { o_table : Options; o_max_open_files : Z; o_write_buffer_size : Z; o_max_file_size : Z }.

(** The comparator and the filter policy are the internal ones; a missing block
    cache is created.  The logger is left out. *)
Definition SanitizeOptions (ucmp : Comparator) (ipolicy : FilterPolicy) (src : DBOptions) : DBOptions :=
  let t := o_table src in
  MkDBOptions
    (MkOptions (InternalKeyComparator ucmp) (paranoid_checks t) true (ClipToRange (block_size t) (Z.shiftl 1 10) (Z.shiftl 4 20)) (restart_interval t) (compression t)
       (match filter_policy t with Some _ => Some ipolicy | None => None end))
    (ClipToRange (o_max_open_files src) (64 + kNumNonTableCacheFiles) 50000)
    (ClipToRange (o_write_buffer_size src) (Z.shiftl 64 10) (Z.shiftl 1 30))
    (ClipToRange (o_max_file_size src) (Z.shiftl 1 20) (Z.shiftl 1 30)).

Definition TableCacheSize (sanitized : DBOptions) : Z := s32 (o_max_open_files sanitized - kNumNonTableCacheFiles).
