(* ===== verification/LdbDBThms.v ===== *)
(** * leveldb: compactions keep what can be read

    Tables written through the environment hold what was added, a compaction
    drops only entries that no snapshot can see, and its output tables hold
    exactly the entries it keeps. *)

From stdpp Require Import sorting.
From S2P Require Import Prelude.
From S2P Require Import LdbSlice.
From S2P Require Import LdbCoding.
From S2P Require Import LdbFilterBlock.
From S2P Require Import LdbFormat.
From S2P Require Import LdbFormatThms.
From S2P Require Import LdbIterator.
From S2P Require Import LdbBlock.
From S2P Require Import LdbBlockBuild.
From S2P Require Import LdbLog.
From S2P Require Import LdbLogThms.
From S2P Require Import LdbTableFormat.
From S2P Require Import LdbTableBuilder.
From S2P Require Import LdbTableBuild.
From S2P Require Import LdbWriteBatch.
From S2P Require Import LdbMemThms.
From S2P Require Import LdbVersionEdit.
From S2P Require Import LdbFilename.
From S2P Require Import LdbFilenameThms.
From S2P Require Import LdbVersion.
From S2P Require Import LdbVersionThms.
From S2P Require Import LdbVersionSet.
From S2P Require Import LdbVersionSetThms.
From S2P Require Import LdbManifest.
From S2P Require Import LdbDB.

(** ** Building a table in a file of the environment

    The builder does the same as on a file in memory. *)

Definition retarget {F : Type} (d : Slice) (r : TableBuilder F) : TableBuilder Slice :=
  MkTableBuilder (options r) (index_block_options r) d (offset r) (tb_status r) (data_block r) (index_block r) (last_key r) (num_entries r)
    (LdbTableBuilder.closed r) (filter_block_ r) (pending_index_entry r) (pending_handle r).

Section Follow.

Context {F : Type} `{!WritableFile F} `{!OpenFile F} (addr : Slice -> Z).

Record follows (r : TableBuilder F) (r' : TableBuilder Slice) : Prop := {
  fo_same : r' = retarget (file_data (file r)) r;
  fo_open : writable (file r);
  fo_status : tb_status r = Status_OK;
}.

Lemma follows_raw raw t r r' : follows r r' -> (WriteRawBlock addr raw t r').1 = (WriteRawBlock addr raw t r).1 ∧ follows (WriteRawBlock addr raw t r).2 (WriteRawBlock addr raw t r').2.
Proof.
  intros [-> Hw Hs]. unfold WriteRawBlock. destruct (append_open raw (file r) Hw) as (f1 & -> & D1 & W1). cbn [ok].
  match goal with |- context [Append ?x f1] => destruct (append_open x f1 W1) as (f2 & -> & D2 & W2) end. cbn. split; [done|]. split; [|done|done].
  cbn. by rewrite D2, D1.
Qed.

Lemma follows_block b r r' : follows r r' -> (WriteBlock addr b r').1 = (WriteBlock addr b r).1 ∧ follows (WriteBlock addr b r).2 (WriteBlock addr b r').2.
Proof.
  intros Hf. unfold WriteBlock. destruct (BlockBuilder_Finish b) as [raw b']. rewrite (fo_same _ _ Hf). change (compression (options (retarget (file_data (file r)) r))) with (compression (options r)).
  rewrite <- (fo_same _ _ Hf). destruct (match compression (options r) with kNoCompression => _ | kSnappyCompression => _ end) as [c t].
  destruct (follows_raw c t r r' Hf) as [E1 E2]. destruct (WriteRawBlock addr c t r) as [h r1], (WriteRawBlock addr c t r') as [h' r1']. cbn in *. by subst.
Qed.

Lemma follows_flush r r' : follows r r' -> follows (TableBuilder_Flush addr r) (TableBuilder_Flush addr r').
Proof.
  intros Hf. unfold TableBuilder_Flush. assert (builder_ok r' = builder_ok r ∧ data_block r' = data_block r) as [-> ->] by (by rewrite (fo_same _ _ Hf)).
  destruct (negb (builder_ok r)); [done|]. destruct (BlockBuilder_empty (data_block r)); [done|].
  destruct (follows_block (data_block r) r r' Hf) as [E1 E2]. destruct (WriteBlock addr (data_block r) r) as [[h b] r1], (WriteBlock addr (data_block r) r') as [[h' b'] r1'].
  cbn in E1. injection E1 as -> ->. cbn in E2. destruct E2 as [-> Hw Hs].
  change (pending_index_entry (retarget (file_data (file r1)) r1)) with (pending_index_entry r1). set (r2 := set_pending (pending_index_entry r1) h (set_data_block b r1)).
  change (set_pending (pending_index_entry r1) h (set_data_block b (retarget (file_data (file r1)) r1))) with (retarget (file_data (file r1)) r2).
  change (builder_ok (retarget (file_data (file r1)) r2)) with (builder_ok r2). assert (builder_ok r2 = true) as -> by (unfold builder_ok; cbn; by rewrite Hs).
  cbn [file set_pending r2 set_data_block retarget]. destruct (flush_open (file r1) Hw) as (f & -> & D & W). cbn. split; [|done|done]. cbn. by rewrite D.
Qed.

Lemma follows_index k r r' : follows r r' -> follows (add_index_entry k r) (add_index_entry k r').
Proof. intros [-> Hw Hs]. by split. Qed.

Lemma follows_add k v r r' : follows r r' -> follows (TableBuilder_Add addr k v r) (TableBuilder_Add addr k v r').
Proof.
  intros Hf. unfold TableBuilder_Add. assert (builder_ok r' = builder_ok r) as -> by (by rewrite (fo_same _ _ Hf)). destruct (negb (builder_ok r)); [done|].
  set (r1 := if pending_index_entry r then _ else r). set (r1' := if pending_index_entry r' then _ else r').
  assert (follows r1 r1') as [-> Hw Hs].
  { unfold r1, r1'. rewrite (fo_same _ _ Hf). cbn [pending_index_entry retarget last_key options]. rewrite <- (fo_same _ _ Hf). destruct (pending_index_entry r); [by apply follows_index|done]. }
  set (d := file_data (file r1)). set (r2 := set_data_block (BlockBuilder_Add k v (data_block r1)) (set_last_key k (num_entries r1 + 1) (set_filter (on_filter (fun _ fb => AddKey fb k) r1) r1))).
  assert (follows r2 (retarget d r2)) as H2 by (by split). cbv zeta.
  change (follows (if block_size (options r2) <=? CurrentSizeEstimate (data_block r2) then TableBuilder_Flush addr r2 else r2)
    (if block_size (options r2) <=? CurrentSizeEstimate (data_block r2) then TableBuilder_Flush addr (retarget d r2) else retarget d r2)).
  destruct (_ <=? _); [by apply follows_flush|done].
Qed.

Lemma follows_rest hf r r' res : follows r r' -> finish_rest addr hf r' = Some res -> res.1 = Status_OK ->
  ∃ r1, finish_rest addr hf r = Some (Status_OK, r1) ∧ follows r1 res.2.
Proof.
  intros Hf. unfold finish_rest. assert (builder_ok r' = true ∧ builder_ok r = true) as [-> ->] by (rewrite (fo_same _ _ Hf); unfold builder_ok; cbn; by rewrite (fo_status _ _ Hf)).
  assert (meta_index_block hf r' = meta_index_block hf r) as -> by (by rewrite (fo_same _ _ Hf)). destruct (meta_index_block hf r) as [b|]; [|done]. cbn [mbind option_bind].
  destruct (follows_block b r r' Hf) as [E1 E2]. destruct (WriteBlock addr b r) as [[h b1] r1], (WriteBlock addr b r') as [[h' b1'] r1']. cbn in E1. injection E1 as -> ->. cbn in E2.
  cbn [mbind option_bind].
  assert (builder_ok r1' = true ∧ builder_ok r1 = true) as [-> ->] by (rewrite (fo_same _ _ E2); unfold builder_ok; cbn; by rewrite (fo_status _ _ E2)).
  set (r2 := if pending_index_entry r1 then _ else r1). set (r2' := if pending_index_entry r1' then _ else r1').
  assert (follows r2 r2') as F2.
  { unfold r2, r2'. rewrite (fo_same _ _ E2). cbn [pending_index_entry retarget last_key options]. rewrite <- (fo_same _ _ E2). destruct (pending_index_entry r1); [by apply follows_index|done]. }
  clearbody r2 r2'. assert (index_block r2' = index_block r2) as -> by (by rewrite (fo_same _ _ F2)).
  destruct (follows_block (index_block r2) r2 r2' F2) as [E3 E4]. destruct (WriteBlock addr (index_block r2) r2) as [[h3 b3] r3], (WriteBlock addr (index_block r2) r2') as [[h3' b3'] r3'].
  cbn in E3. injection E3 as -> ->. cbn in E4. destruct E4 as [-> W4 S4].
  assert (builder_ok (set_index_block b3 r3) = true) as B3 by (unfold builder_ok; cbn; by rewrite S4).
  change (builder_ok (set_index_block b3 (retarget (file_data (file r3)) r3))) with (builder_ok (set_index_block b3 r3)). rewrite B3. cbn [file set_index_block retarget].
  set (footer := Footer_EncodeTo [] (MkFooter h h3)). destruct (append_open footer (file r3) W4) as (f & -> & D & W). cbn. intros [= <-] _. eexists. split; [done|]. split; [|done|done]. cbn. by rewrite D.
Qed.

Lemma follows_finish r r' res : follows r r' -> TableBuilder_Finish addr r' = Some res -> res.1 = Status_OK ->
  ∃ r1, TableBuilder_Finish addr r = Some (Status_OK, r1) ∧ follows r1 res.2.
Proof.
  intros Hf%follows_flush. unfold TableBuilder_Finish. set (r1 := TableBuilder_Flush addr r) in *. set (r1' := TableBuilder_Flush addr r') in *. clearbody r1 r1'.
  assert (follows (set_closed r1) (set_closed r1')) as Hc by (by destruct Hf as [-> Hw Hs]; split). set (r2 := set_closed r1) in *. set (r2' := set_closed r1') in *. clearbody r2 r2'.
  assert (filter_block_ r2' = filter_block_ r2) as -> by (by rewrite (fo_same _ _ Hc)). destruct (filter_block_ r2) as [[p fb]|].
  - assert (builder_ok r2' = true ∧ builder_ok r2 = true) as [-> ->] by (rewrite (fo_same _ _ Hc); unfold builder_ok; cbn; by rewrite (fo_status _ _ Hc)).
    destruct (follows_raw (Finish p fb) kNoCompression r2 r2' Hc) as [E1 E2]. destruct (WriteRawBlock addr (Finish p fb) kNoCompression r2) as [h r3], (WriteRawBlock addr (Finish p fb) kNoCompression r2') as [h' r3'].
    cbn in E1, E2. subst h'. by apply follows_rest.
  - by apply follows_rest.
Qed.

End Follow.

(** ** What a read sees *)

#[global] Instance entry_eq_dec : EqDecision entry.
Proof. solve_decision. Defined.

(** The entry of an internal key. *)
Definition parsed_entry (kv : Slice * Slice) : option entry :=
  k ← ParseInternalKey kv.1; Some (Entry (sequence k) (type k) (user_key k) kv.2).

Definition value_of (e : option entry) : option Slice :=
  e ← e; match e_type e with kTypeValue => Some (e_value e) | kTypeDeletion => None end.

(** The value of the user key [u] at the sequence number [s]. *)
Definition read (ucmp : Comparator) (u : Slice) (s : Z) (es : list entry) : option Slice := value_of (newest ucmp u s es).

Section Reads.

Context (ucmp : Comparator) (okp : Slice -> Prop) `{!ComparatorLaws ucmp okp}.
Local Abbreviation same e e' := (Compare ucmp (e_key e) (e_key e') = 0).

Local Lemma utotal : TotalCmp (Compare ucmp) okp.
Proof using ComparatorLaws0. exact cmp_total. Qed.

(** A newer entry that every snapshot sees. *)
Definition hidden (snapshot : Z) (es : list entry) (e : entry) : Prop := ∃ e', e' ∈ es ∧ same e' e ∧ e_seq e < e_seq e' <= snapshot.

(** A deletion that every snapshot sees and that deletes nothing in [rest]. *)
Definition spent (snapshot : Z) (rest : list entry) (e : entry) : Prop :=
  e_type e = kTypeDeletion ∧ e_seq e <= snapshot ∧ ∀ r, r ∈ rest -> same r e -> e_seq e < e_seq r.

(** What a compaction of [es] may leave, with [rest] elsewhere. *)
Record compacts (snapshot : Z) (es rest kept : list entry) : Prop := {
  cs_subset : kept ⊆ es;
  cs_dropped e : e ∈ es -> e ∈ kept ∨ hidden snapshot es e ∨ spent snapshot rest e;
  cs_kept e : e ∈ kept -> ¬ hidden snapshot es e;
}.

Lemma same_user (e e' : entry) (u : Slice) : okp (e_key e) -> okp (e_key e') -> okp u -> Compare ucmp (e_key e) u = 0 -> Compare ucmp (e_key e') u = 0 -> same e e'.
Proof using ComparatorLaws0.
  pose proof utotal as Ht. intros He He' Hu H H'. apply (cmp_eq_sym (Compare ucmp) okp) in H'; [|done..].
  pose proof (cmp_eq_r (Compare ucmp) okp u (e_key e') (e_key e) Hu He' He H') as E. rewrite H in E. symmetry in E. by apply Z.sgn_null_iff.
Qed.

Lemma compacts_read (snapshot : Z) (es rest kept : list entry) (u : Slice) (s : Z) : compacts snapshot es rest kept ->
  Forall (fun e => okp (e_key e)) (es ++ rest) -> okp u -> snapshot <= s ->
  (∀ e e', e ∈ es ++ rest -> e' ∈ es ++ rest -> same e e' -> e_seq e = e_seq e' -> e = e') ->
  read ucmp u s (kept ++ rest) = read ucmp u s (es ++ rest).
Proof using ComparatorLaws0.
  pose proof utotal as Ht. intros [C1 C2 C3] Hk Hu Hs Hd. rewrite list.Forall_forall in Hk. unfold read.
  assert (kept ++ rest ⊆ es ++ rest) as Hsub by set_solver.
  assert (∀ e e', e ∈ es ++ rest -> e' ∈ es ++ rest -> LdbMemThms.visible ucmp u s e -> LdbMemThms.visible ucmp u s e' -> same e e') as Hsame.
  { intros e e' H1 H2 [V1 _] [V2 _]. apply (same_user e e' u); auto. }
  assert (∀ e, e ∈ es -> e ∉ kept -> LdbMemThms.visible ucmp u s e -> (∀ e', e' ∈ es ++ rest -> LdbMemThms.visible ucmp u s e' -> e_seq e' <= e_seq e) -> spent snapshot rest e) as Hmax.
  { intros e He Hn [V1 V2] Hm. destruct (C2 e He) as [?|[(e' & H1 & H2 & H3)|?]]; [done| |done]. exfalso.
    assert (e_seq e' <= e_seq e); [|lia]. apply Hm; [set_solver|]. split; [|lia].
    assert (okp (e_key e') ∧ okp (e_key e)) as [? ?] by (split; apply Hk; set_solver).
    pose proof (cmp_eq_l (Compare ucmp) okp (e_key e') (e_key e) u) as E. rewrite V1 in E. apply Z.sgn_null_iff, E; done. }
  pose proof (newest_cases ucmp okp u s (kept ++ rest)) as HA. pose proof (newest_cases ucmp okp u s (es ++ rest)) as HB.
  destruct (newest ucmp u s (es ++ rest)) as [b|] eqn:EB; cycle 1.
  { destruct (newest ucmp u s (kept ++ rest)) as [a|]; [|done]. destruct HA as (A1 & A2 & _). by destruct (HB a (Hsub _ A1)). }
  destruct HB as (B1 & B2 & B3). destruct (decide (b ∈ kept ++ rest)) as [Hin|Hout].
  - destruct (newest ucmp u s (kept ++ rest)) as [a|]; [|by destruct (HA b Hin)]. destruct HA as (A1 & A2 & A3).
    assert (a = b) as ->; [|done]. apply Hd; [by apply Hsub|done|by apply Hsame; auto|]. specialize (A3 b Hin B2). specialize (B3 a (Hsub _ A1) A2). lia.
  - assert (b ∈ es ∧ b ∉ kept) as [Hb1 Hb2] by (rewrite elem_of_app in B1, Hout; tauto). destruct (Hmax b Hb1 Hb2 B2 B3) as (S1 & S2 & S3).
    unfold value_of at 2. cbn [mbind option_bind]. rewrite S1. destruct (newest ucmp u s (kept ++ rest)) as [a|]; [|done]. destruct HA as (A1 & A2 & _). exfalso.
    pose proof (B3 a (Hsub _ A1) A2) as Hle. pose proof (Hsame a b (Hsub _ A1) B1 A2 B2) as Hab. apply elem_of_app in A1 as [A1|A1].
    + destruct (decide (e_seq a = e_seq b)) as [E|E].
      * assert (a = b) as -> by (apply Hd; [set_solver|done|done|done]). done.
      * apply (C3 a A1). exists b. split_and!; [done| |lia|done]. apply (cmp_eq_sym (Compare ucmp) okp); [apply Hk; set_solver..|done].
    + specialize (S3 a A1 Hab). lia.
Qed.

End Reads.

(** ** The entries a compaction drops *)

Section Drop.

Context (ucmp : Comparator) (okp : Slice -> Prop) `{!ComparatorLaws ucmp okp} (Hbytes : ∀ k, okp k -> Forall is_u8 k).
Context (max_file_size : Z) (v : Version) (Hv : version_ok ucmp okp v) (snapshot : Z) (Hsnapshot : snapshot < kMaxSequenceNumber).
Local Abbreviation ucompare := (Compare ucmp).
Local Abbreviation same e e' := (Compare ucmp (e_key e) (e_key e') = 0).
Local Abbreviation fstart f := (ExtractUserKey (f_smallest f)).
Local Abbreviation flimit f := (ExtractUserKey (f_largest f)).

#[local] Instance drop_total : TotalCmp ucompare okp := cmp_total.

(** The user key lies in the range of the file. *)
Definition within (u : Slice) (f : File) : Prop := ucompare (fstart f) u <= 0 ∧ ucompare u (flimit f) <= 0.

Definition passed (u : Slice) (ptr : nat) (files : list File) : Prop := ∀ i f, (i < ptr)%nat -> files !! i = Some f -> 0 < ucompare u (flimit f).

Lemma scan_level_spec u files : okp u -> sorted_level ucmp okp files -> ∀ rest ptr, drop ptr files = rest -> passed u ptr files ->
  passed u (scan_level ucmp u rest ptr).2 files ∧
  if (scan_level ucmp u rest ptr).1 then ∃ f, f ∈ files ∧ within u f else ∀ f, f ∈ files -> ¬ within u f.
Proof using ComparatorLaws0 Hbytes.
  intros Hu Hs. induction rest as [|f rest IH]; intros ptr Hd Hp.
  { split; [done|]. intros f [i Hi]%list_elem_of_lookup [_ W]. assert (i < ptr)%nat as Hlt.
    { apply lookup_lt_Some in Hi. apply (f_equal length) in Hd. rewrite length_drop in Hd. cbn in Hd. lia. }
    specialize (Hp i f Hlt Hi). lia. }
  assert (files !! ptr = Some f) as Hf by (rewrite <- (Nat.add_0_r ptr), <- lookup_drop, Hd; done).
  assert (∀ i g, files !! i = Some g -> okp (fstart g) ∧ okp (flimit g)) as Hok.
  { intros i g Hg. destruct (sorted_lookup_ok ucmp okp files i g Hs Hg) as [(_ & _ & G1) (_ & _ & G2) _ _]. done. }
  cbn [scan_level]. destruct (Z.leb_spec (ucompare u (flimit f)) 0) as [Hle|Hgt]; cycle 1.
  { apply IH; [by rewrite (drop_S files f ptr Hf) in Hd; injection Hd|]. intros i g Hi Hg. destruct (decide (i = ptr)) as [->|]; [by simplify_eq|apply (Hp i); [lia|done]]. }
  cbn [fst snd]. split; [done|]. destruct (Hok ptr f Hf) as [F1 F2]. destruct (Z.leb_spec 0 (ucompare u (fstart f))) as [Hge|Hlt].
  - exists f. split; [by eapply list_elem_of_lookup_2|]. split; [|done]. by apply (cmp_flip_le ucompare okp).
  - intros g [i Hi]%list_elem_of_lookup [W1 W2]. destruct (Hok i g Hi) as [G1 G2]. destruct (decide (i < ptr)%nat) as [Hip|Hip].
    { specialize (Hp i g Hip Hi). lia. }
    destruct (decide (i = ptr)) as [->|]; [simplify_eq; apply (cmp_flip_le ucompare okp) in W1; [lia|done..]|].
    pose proof (sl_order ucmp okp files Hs ptr i f g ltac:(lia) Hf Hi) as Ho. apply Z.lt_le_incl, user_le in Ho.
    pose proof (fk_le _ _ f (sorted_lookup_ok ucmp okp files ptr f Hs Hf)) as Hfl. apply user_le in Hfl.
    assert (ucompare (fstart f) u <= 0) as Hbad; [|apply (cmp_flip_le ucompare okp) in Hbad; [lia|done..]].
    apply (cmp_le_trans _ (flimit f)); [done..|]. by apply (cmp_le_trans _ (fstart g)).
Qed.

(** The pointers: the files before them end before the key. *)
Definition ptrs_ok (u : Slice) (ptrs : list nat) : Prop := length ptrs = Z.to_nat kNumLevels ∧
  ∀ l files ptr, files_ v !! l = Some files -> ptrs !! l = Some ptr -> passed u ptr files.

(** The key lies in the range of a file of [lvl] or below. *)
Definition deeper (lvl : Z) (u : Slice) : Prop := ∃ l files f, lvl <= Z.of_nat l ∧ files_ v !! l = Some files ∧ f ∈ files ∧ within u f.

Lemma base_level_loop_spec u n : okp u -> ∀ lvl ptrs, 0 < lvl -> lvl + Z.of_nat n = kNumLevels -> ptrs_ok u ptrs ->
  ∃ base ptrs', base_level_loop ucmp n lvl u v ptrs = Some (base, ptrs') ∧ ptrs_ok u ptrs' ∧ (base = true -> ¬ deeper lvl u).
Proof using ComparatorLaws0 Hbytes Hv.
  intros Hu. induction n as [|n IH]; intros lvl ptrs Hl Hn [P1 P2].
  { exists true, ptrs. split_and!; [done|done|]. intros _ (l & files & f & L1 & L2 & _). apply lookup_lt_Some in L2. rewrite (vo_levels _ _ _ Hv) in L2. unfold kNumLevels in *. lia. }
  cbn [base_level_loop]. destruct (level_files_some ucmp okp v lvl Hv ltac:(unfold kNumLevels in *; lia)) as (files & -> & Hf). cbn [mbind option_bind].
  destruct (lookup_lt_is_Some_2 ptrs (Z.to_nat lvl)) as [ptr Hptr]; [rewrite P1; unfold kNumLevels in *; lia|]. rewrite Hptr. cbn [mbind option_bind].
  destruct (scan_level_spec u files Hu (vo_sorted _ _ _ Hv (Z.to_nat lvl) files ltac:(lia) Hf) (drop ptr files) ptr eq_refl (P2 _ _ _ Hf Hptr)) as [S1 S2].
  destruct (scan_level ucmp u (drop ptr files) ptr) as [inside ptr']. cbn [fst snd] in S1, S2.
  assert (ptrs_ok u (<[Z.to_nat lvl := ptr']> ptrs)) as Hp.
  { split; [by rewrite length_insert|]. intros l fs p Hfs Hp. destruct (decide (l = Z.to_nat lvl)) as [->|]; [|rewrite list_lookup_insert_ne in Hp by done; by apply (P2 l)].
    rewrite list_lookup_insert_eq in Hp by (rewrite P1; unfold kNumLevels in *; lia). by simplify_eq. }
  destruct inside; [by exists false, (<[Z.to_nat lvl := ptr']> ptrs)|].
  destruct (IH (lvl + 1) _ ltac:(lia) ltac:(lia) Hp) as (base & ptrs' & E1 & E2 & E3). exists base, ptrs'. split_and!; [done|done|].
  intros Hb (l & fs & f & L1 & L2 & L3 & L4). destruct (decide (Z.of_nat l = lvl)) as [<-|]; [|apply (E3 Hb); exists l, fs, f; split_and!; [lia|done..]].
  rewrite Nat2Z.id in Hf. simplify_eq. by apply (S2 f).
Qed.

(** A compaction whose pointers have come to the key. *)
Record compaction_at (u : Slice) (level : Z) (c : Compaction) : Prop := {
  ca_level : c_level_ c = level ∧ 0 <= level < kNumLevels - 1;
  ca_version : input_version_ c = Some v;
  ca_ptrs : ptrs_ok u (level_ptrs_ c);
}.

Lemma IsBaseLevelForKey_spec u level c : okp u -> compaction_at u level c -> ∃ base c', IsBaseLevelForKey ucmp u c = Some (base, c') ∧
  compaction_at u level c' ∧ (base = true -> ¬ deeper (level + 2) u).
Proof using ComparatorLaws0 Hbytes Hv.
  intros Hu [[<- Hl] C2 C3]. unfold IsBaseLevelForKey. rewrite C2. cbn [mbind option_bind].
  destruct (decide (c_level_ c + 2 <= kNumLevels)) as [Hle|]; [|lia].
  destruct (base_level_loop_spec u (Z.to_nat (kNumLevels - (c_level_ c + 2))) Hu (c_level_ c + 2) (level_ptrs_ c) ltac:(lia) ltac:(lia) C3) as (base & ptrs & -> & E2 & E3).
  cbn [mbind option_bind]. eexists _, _. split_and!; [done| |done]. by split.
Qed.

(** The order of the input: by user key, then newest first. *)
Definition after (e e' : entry) : Prop := ucompare (e_key e) (e_key e') < 0 ∨ (same e e' ∧ e_seq e' < e_seq e).

Record input_ok (es : list entry) : Prop := {
  io_order i j e e' : (i < j)%nat -> es !! i = Some e -> es !! j = Some e' -> after e e';
  io_keys e : e ∈ es -> okp (e_key e);
}.

Lemma after_le e e' : after e e' -> ucompare (e_key e) (e_key e') <= 0.
Proof using Type. intros [?|[-> _]]; lia. Qed.

(** The locals and the compaction after the entries [pre]. *)
Record drop_state (pre : list entry) (level : Z) (ks : KeyState) (c : Compaction) : Prop := {
  ds_key : match list.last pre with
           | Some p => has_current_user_key ks = true ∧ okp (current_user_key ks) ∧ ucompare (current_user_key ks) (e_key p) = 0 ∧ last_sequence_for_key ks = e_seq p
           | None => ks = KeyState_new
           end;
  ds_at u : okp u -> (∀ p, p ∈ pre -> ucompare (e_key p) u <= 0) -> compaction_at u level c;
}.

Lemma compaction_at_le u u' level c : okp u -> okp u' -> ucompare u u' <= 0 -> compaction_at u level c -> compaction_at u' level c.
Proof using ComparatorLaws0 Hv.
  intros Hu Hu' Hle [C1 C2 [P1 P2]]. split; [done|done|]. split; [done|]. intros l files ptr Hf Hptr i f Hi Hif. pose proof (P2 l files ptr Hf Hptr i f Hi Hif) as Hp.
  destruct (vo_files _ _ _ Hv l files Hf) as [Hok _]. destruct (Forall_lookup_1 _ _ _ _ Hok Hif) as [_ (_ & _ & F) _ _].
  apply (cmp_flip ucompare okp) in Hp; [|done..]. apply (cmp_flip ucompare okp); [done..|]. by apply (cmp_lt_le ucompare okp _ u).
Qed.

Lemma ShouldStopBefore_at u level k c : compaction_at u level c -> compaction_at u level (ShouldStopBefore ucmp max_file_size k c).2.
Proof using Type. intros [C1 C2 C3]. unfold ShouldStopBefore. destruct (skip_grandparents _ _ _ _ _ _) as [index bytes]. by split. Qed.

(** A key of the entry before it is its user key. *)
Lemma current_same cur p e : okp cur -> okp (e_key p) -> okp (e_key e) -> ucompare cur (e_key p) = 0 -> ucompare (e_key e) cur = 0 <-> same p e.
Proof using ComparatorLaws0.
  intros Hc Hp He E. pose proof (cmp_eq_r ucompare okp cur (e_key p) (e_key e) Hc Hp He E) as R. split.
  - intros E0. rewrite E0 in R. apply (cmp_eq_sym ucompare okp); [done..|]. apply Z.sgn_null_iff. by rewrite <- R.
  - intros E0%(cmp_eq_sym ucompare okp); [|done..]. rewrite E0 in R. by apply Z.sgn_null_iff.
Qed.

Lemma hidden_last pre e suf : input_ok (pre ++ e :: suf) -> hidden ucmp snapshot (pre ++ e :: suf) e <-> ∃ p, list.last pre = Some p ∧ same p e ∧ e_seq p <= snapshot.
Proof using ComparatorLaws0 Hbytes Hv Hsnapshot.
  intros [O1 O2]. assert (∀ q, q ∈ pre ++ e :: suf -> okp (e_key q)) as Hk by done. split.
  - intros (q & [i Hi]%list_elem_of_lookup & Q1 & Q2). assert (i < length pre)%nat as Hlt.
    { destruct (decide (i < length pre)%nat); [done|]. destruct (decide (i = length pre)) as [->|]; [rewrite list_lookup_middle in Hi by done; simplify_eq; lia|].
      pose proof (O1 (length pre) i e q ltac:(lia) (list_lookup_middle _ _ _ _ eq_refl) Hi) as [A|[_ A]]; [|lia]. apply (cmp_flip ucompare okp) in A; [lia|apply Hk; set_solver|apply Hk; by eapply list_elem_of_lookup_2]. }
    destruct (list.last pre) as [p|] eqn:El; [|apply last_None in El; subst; cbn in Hlt; lia]. exists p. split; [done|].
    rewrite last_lookup in El. assert ((pre ++ e :: suf) !! pred (length pre) = Some p) as Hp by (by apply lookup_app_l_Some).
    assert (okp (e_key p) ∧ okp (e_key e) ∧ okp (e_key q)) as (K1 & K2 & K3) by (split_and!; apply Hk; [by eapply list_elem_of_lookup_2|set_solver|by eapply list_elem_of_lookup_2]).
    pose proof (O1 (pred (length pre)) (length pre) p e ltac:(lia) Hp (list_lookup_middle _ _ _ _ eq_refl)) as Ape.
    destruct (decide (i = pred (length pre))) as [->|]; [simplify_eq; lia|]. pose proof (O1 i (pred (length pre)) q p ltac:(lia) Hi Hp) as Aqp.
    destruct Aqp as [A|[A B]]; [pose proof (cmp_lt_le ucompare okp _ _ _ K3 K1 K2 A (after_le _ _ Ape)); lia|].
    split; [|lia]. apply Z.sgn_null_iff. by rewrite <- (cmp_eq_l ucompare okp _ _ _ K3 K1 K2 A), Q1.
  - intros (p & El & P1 & P2). exists p. rewrite last_lookup in El. assert ((pre ++ e :: suf) !! pred (length pre) = Some p) as Hp by (by apply lookup_app_l_Some).
    split_and!; [by eapply list_elem_of_lookup_2|done| |done]. apply lookup_lt_Some in El.
    destruct (O1 (pred (length pre)) (length pre) p e ltac:(lia) Hp (list_lookup_middle _ _ _ _ eq_refl)) as [A|[_ A]]; lia.
Qed.

(** A deletion every snapshot sees, for a key no deeper file can hold. *)
Definition base_deletion (level : Z) (e : entry) : Prop := e_type e = kTypeDeletion ∧ e_seq e <= snapshot ∧ ¬ deeper (level + 2) (e_key e).

Lemma drop_entry_step pre e suf kv level ks c : input_ok (pre ++ e :: suf) -> parsed_entry kv = Some e -> drop_state pre level ks c ->
  ∃ drop ks' c', drop_entry ucmp snapshot kv.1 ks c = Some (drop, ks', c') ∧ drop_state (pre ++ [e]) level ks' c' ∧
    (drop = true -> hidden ucmp snapshot (pre ++ e :: suf) e ∨ base_deletion level e) ∧ (drop = false -> ¬ hidden ucmp snapshot (pre ++ e :: suf) e).
Proof using ComparatorLaws0 Hbytes Hv Hsnapshot.
  intros Hin He [D1 D2]. unfold parsed_entry in He. apply bind_Some in He as (k & Hp & [= <-]). unfold drop_entry. rewrite Hp. cbn [e_key e_seq e_type].
  set (e := Entry (sequence k) (type k) (user_key k) kv.2) in *. assert (okp (user_key k)) as Hu by (apply (io_keys _ Hin e); set_solver).
  set (ks1 := if _ || _ then MkKeyState (user_key k) true kMaxSequenceNumber else ks).
  assert (has_current_user_key ks1 = true ∧ okp (current_user_key ks1) ∧ ucompare (current_user_key ks1) (user_key k) = 0 ∧
    (last_sequence_for_key ks1 <= snapshot <-> hidden ucmp snapshot (pre ++ e :: suf) e)) as (K1 & K2 & K3 & K4).
  { rewrite (hidden_last pre e suf Hin). unfold ks1. destruct (list.last pre) as [p|] eqn:El; cycle 1.
    { rewrite D1. cbn. split_and!; [done|done|by apply (cmp_refl ucompare okp)|]. split; [lia|by intros (? & ? & _)]. }
    destruct D1 as (C0 & C1 & C2 & C3). rewrite C0. cbn [negb orb]. assert (okp (e_key p)) as Hpk by (apply (io_keys _ Hin); apply last_Some_elem_of in El; set_solver).
    pose proof (current_same (current_user_key ks) p e C1 Hpk Hu C2) as Hs. change (e_key e) with (user_key k) in *.
    destruct (Z.eqb_spec (ucompare (user_key k) (current_user_key ks)) 0) as [E|E]; cbn [negb has_current_user_key current_user_key last_sequence_for_key].
    - split_and!; [done|done|by apply (cmp_eq_sym ucompare okp)|]. rewrite C3. split; [intros ?; exists p; split_and!; [done|by apply Hs|done]|by intros (? & [= <-] & _ & ?)].
    - split_and!; [done|done|by apply (cmp_refl ucompare okp)|]. split; [lia|]. intros (? & [= <-] & ?%Hs & _). lia. }
  assert (compaction_at (user_key k) level c) as Hat.
  { apply D2; [done|]. intros p [i Hi]%list_elem_of_lookup. apply (after_le p e), (io_order _ Hin i (length pre)); [by eapply lookup_lt_Some|by apply lookup_app_l_Some|by apply list_lookup_middle]. }
  assert (∀ c', compaction_at (user_key k) level c' -> drop_state (pre ++ [e]) level (MkKeyState (current_user_key ks1) (has_current_user_key ks1) (sequence k)) c') as Hst.
  { intros c' Hc'. split; [by rewrite last_snoc|]. intros u Hu' Hall. apply (compaction_at_le (user_key k)); [done|done| |done]. apply (Hall e). set_solver. }
  destruct (Z.leb_spec (last_sequence_for_key ks1) snapshot) as [Hle|Hgt]; [|destruct (bool_decide (type k = kTypeDeletion) && (sequence k <=? snapshot)) eqn:Hdel]; cbn [mbind option_bind].
  - exists true. eexists _, _. split_and!; [done|by apply Hst|intros _; left; by apply K4|done].
  - apply andb_prop in Hdel as [Hdel1%bool_decide_eq_true Hdel2%Z.leb_le]. destruct (IsBaseLevelForKey_spec (user_key k) level c Hu Hat) as (base & c' & -> & B1 & B2). cbn [mbind option_bind]. exists base. eexists _, _.
    split_and!; [done|by apply Hst|intros Hb; right; split_and!; [done|done|by apply B2]|]. rewrite <- K4. lia.
  - exists false. eexists _, _. split_and!; [done|by apply Hst|done|]. rewrite <- K4. lia.
Qed.

(** The entries that are left. *)
Fixpoint survivors (kvs : list (Slice * Slice)) (ks : KeyState) (c : Compaction) : option (list (Slice * Slice)) :=
  match kvs with
  | [] => Some []
  | kv :: kvs =>
      '(drop, ks, c) ← drop_entry ucmp snapshot kv.1 ks (ShouldStopBefore ucmp max_file_size kv.1 c).2;
      kept ← survivors kvs ks c;
      Some (if drop : bool then kept else kv :: kept)
  end.

Local Abbreviation entries := (Forall2 (fun kv e => parsed_entry kv = Some e)).

Lemma ShouldStopBefore_state pre level ks k c : drop_state pre level ks c -> drop_state pre level ks (ShouldStopBefore ucmp max_file_size k c).2.
Proof using Type. intros [D1 D2]. split; [done|]. intros u Hu Hall. by apply ShouldStopBefore_at, D2. Qed.

Lemma survivors_spec level kvs es : entries kvs es -> ∀ pre ks c, input_ok (pre ++ es) -> drop_state pre level ks c ->
  ∃ kept kes, survivors kvs ks c = Some kept ∧ entries kept kes ∧ kept `sublist_of` kvs ∧ kes ⊆ es ∧
    (∀ e, e ∈ es -> e ∈ kes ∨ hidden ucmp snapshot (pre ++ es) e ∨ base_deletion level e) ∧ (∀ e, e ∈ kes -> ¬ hidden ucmp snapshot (pre ++ es) e).
Proof using ComparatorLaws0 Hbytes Hv Hsnapshot.
  induction 1 as [|kv e kvs es He _ IH]; intros pre ks c Hin Hst; [exists [], []; split_and!; [done|done|done|set_solver..]|].
  cbn [survivors]. destruct (drop_entry_step pre e es kv level ks _ Hin He (ShouldStopBefore_state pre level ks kv.1 c Hst)) as (drop & ks' & c' & -> & S1 & S2 & S3).
  cbn [mbind option_bind]. rewrite (cons_middle e pre es), (app_assoc pre [e] es) in *. destruct (IH (pre ++ [e]) ks' c' Hin S1) as (kept & kes & -> & E1 & E2 & E3 & E4 & E5). cbn [mbind option_bind].
  destruct drop.
  - exists kept, kes. split_and!; [done|done|by apply sublist_cons|set_solver| |done]. intros x [->|Hx]%elem_of_cons; [right; by apply S2|by apply E4].
  - exists (kv :: kept), (e :: kes). split_and!; [done|by constructor|by apply sublist_skip|set_solver| |].
    + intros x [->|Hx]%elem_of_cons; [left; set_solver|]. destruct (E4 x Hx) as [?|?]; [left; set_solver|by right].
    + intros x [->|Hx]%elem_of_cons; [by apply S3|by apply E5].
Qed.

(** What lies outside the compaction: entries in deeper files, and entries
    that are newer than those of the input. *)
Definition outside (level : Z) (es rest : list entry) : Prop := ∀ r e, r ∈ rest -> e ∈ es -> same r e -> deeper (level + 2) (e_key r) ∨ e_seq e < e_seq r.

Lemma deeper_same lvl e r : okp (e_key e) -> okp (e_key r) -> same r e -> deeper lvl (e_key r) -> deeper lvl (e_key e).
Proof using ComparatorLaws0 Hv.
  intros Ke Kr Hs (l & files & f & L1 & L2 & L3 & W1 & W2). exists l, files, f. split_and!; [done|done|done|].
  destruct (vo_files _ _ _ Hv l files L2) as [Hok _]. rewrite list.Forall_forall in Hok. destruct (Hok f L3) as [(_ & _ & F1) (_ & _ & F2) _ _]. split.
  - apply (cmp_le_trans _ (e_key r)); [done..|]. lia.
  - apply (cmp_le_trans _ (e_key r)); [done..| |done]. apply (cmp_eq_sym ucompare okp) in Hs; [lia|done..].
Qed.

Lemma survivors_compacts level kvs es c : entries kvs es -> input_ok es -> (∀ u, okp u -> compaction_at u level c) ->
  ∃ kept kes, survivors kvs KeyState_new c = Some kept ∧ entries kept kes ∧ kept `sublist_of` kvs ∧
    ∀ rest, outside level es rest -> (∀ r, r ∈ rest -> okp (e_key r)) -> compacts ucmp snapshot es rest kes.
Proof using ComparatorLaws0 Hbytes Hv Hsnapshot.
  intros He Hin Hc. destruct (survivors_spec level kvs es He [] KeyState_new c Hin) as (kept & kes & S1 & S2 & S3 & S4 & S5 & S6); [split; [done|auto]|].
  exists kept, kes. split_and!; [done|done|done|]. intros rest Ho Hr. split; [done| |done]. intros e Hes. destruct (S5 e Hes) as [?|[?|(B1 & B2 & B3)]]; [by left|by right; left|]. right; right.
  split_and!; [done|done|]. intros r Hrr Hs. destruct (Ho r e Hrr Hes Hs) as [Hd|?]; [|done]. exfalso. apply B3. apply (deeper_same _ e r); auto. by apply (io_keys _ Hin).
Qed.

(** A sorted input, when no two entries of a user key have one number. *)
Definition numbered (es : list entry) : Prop := ∀ e e', e ∈ es -> e' ∈ es -> same e e' -> e_seq e = e_seq e' -> e = e'.

Lemma sorted_input kvs es : entries kvs es -> keys_sorted (InternalKeyComparator ucmp) kvs -> Forall (fun kv => ikey_ok okp kv.1) kvs -> numbered es -> input_ok es.
Proof using ComparatorLaws0 Hbytes.
  intros He Hs Hk Hd. assert (∀ i e, es !! i = Some e -> ∃ kv k, kvs !! i = Some kv ∧ ikey_ok okp kv.1 ∧ ParseInternalKey kv.1 = Some k ∧ e_key e = ExtractUserKey kv.1 ∧
    key_tag kv.1 = e_seq e * 256 + type_value (e_type e)) as Hat.
  { intros i e Hi. destruct (Forall2_lookup_r _ _ _ _ _ He Hi) as (kv & Hkv & Hp). pose proof (Forall_lookup_1 _ _ _ _ Hk Hkv) as Hok. cbn in Hok.
    apply bind_Some in Hp as (k & Hp & [= <-]). exists kv, k. split_and!; [done|done|done|by apply ParseInternalKey_user|]. apply parsed_tag; [apply Hok|done]. }
  split.
  - intros i j e e' Hij Hi Hj. destruct (Hat i e Hi) as (kv & k & K1 & K2 & K3 & K4 & K5). destruct (Hat j e' Hj) as (kv' & k' & L1 & L2 & L3 & L4 & L5).
    pose proof (Hs i j kv kv' Hij K1 L1) as Hlt. change (InternalCompare ucmp kv.1 kv'.1 < 0) in Hlt. unfold after. rewrite K4, L4.
    destruct (InternalCompare_cases ucmp kv.1 kv'.1) as [[Hne E]|[Eq E]]; [left; by rewrite <- E|]. right. split; [done|]. rewrite (Z.sgn_neg _ Hlt) in E. symmetry in E. apply Z.sgn_neg_iff in E.
    destruct (decide (e_seq e = e_seq e')) as [Es|]; [|rewrite K5, L5 in E; destruct (e_type e), (e_type e'); cbn in E; lia].
    assert (e = e') as -> by (apply Hd; [by eapply list_elem_of_lookup_2|by eapply list_elem_of_lookup_2|by rewrite K4, L4|done]). lia.
  - intros e [i Hi]%list_elem_of_lookup. destruct (Hat i e Hi) as (kv & k & _ & (_ & _ & Hok) & _ & -> & _). done.
Qed.

End Drop.

Lemma num_entries_flush {F : Type} `{!WritableFile F} (addr : Slice -> Z) (r : TableBuilder F) : num_entries (TableBuilder_Flush addr r) = num_entries r.
Proof.
  unfold TableBuilder_Flush. destruct (negb (builder_ok r)); [done|]. destruct (BlockBuilder_empty (data_block r)); [done|].
  destruct (WriteBlock addr (data_block r) r) as [[h b] r1] eqn:E. assert (num_entries r1 = num_entries r) as <-.
  { unfold WriteBlock in E. destruct (BlockBuilder_Finish (data_block r)) as [raw b']. destruct (match compression (options r) with kNoCompression => _ | kSnappyCompression => _ end) as [c t].
    destruct (WriteRawBlock addr c t r) as [h' r'] eqn:E'. injection E as <- <- <-. unfold WriteRawBlock in E'. destruct (Append c (file r)) as [s f]. cbn in E'.
    destruct (ok s); [|by injection E' as <- <-]. match type of E' with context [Append ?x f] => destruct (Append x f) as [s2 f2] end. by injection E' as <- <-. }
  cbv zeta. destruct (builder_ok _); [|done]. cbn [file set_pending set_data_block]. destruct (Flush (file r1)) as [s f]. done.
Qed.

Lemma num_entries_add {F : Type} `{!WritableFile F} (addr : Slice -> Z) (k v : Slice) (r : TableBuilder F) : tb_status r = Status_OK ->
  num_entries (TableBuilder_Add addr k v r) = num_entries r + 1.
Proof.
  intros Hs. unfold TableBuilder_Add. assert (builder_ok r = true) as -> by (unfold builder_ok; by rewrite Hs). cbn [negb].
  destruct (pending_index_entry r); cbv zeta; match goal with |- context [if ?b then TableBuilder_Flush _ _ else _] => destruct b end; by rewrite ?num_entries_flush.
Qed.

Lemma TableFileName_inj (dbname : Slice) (n m : Z) : is_u64 n -> is_u64 m -> TableFileName dbname n = TableFileName dbname m -> n = m.
Proof.
  intros Hn Hm E. pose proof (filename_roundtrip dbname (OTable n) Hn) as R. pose proof (filename_roundtrip dbname (OTable m) Hm) as R'.
  unfold owned_name in R, R'. cbn [owned_path] in R, R'. rewrite E in R. rewrite R' in R. by injection R.
Qed.

(** ** The tables a compaction writes *)

Section Compact.

Context (ucmp : Comparator) (okp : Slice -> Prop) `{!ComparatorLaws ucmp okp} (Hbytes : ∀ k, okp k -> Forall is_u8 k).
Context (topts : Options) (Hcmp : comparator topts = InternalKeyComparator ucmp) (max_file_size : Z) (dbname : Slice) (addr : Slice -> Z).
Context {W D : Type} `{!Env W, !EnvView W, !DiskView W, !DiskLaws W} `{!EnvDir W} `{!Iterator D} `{!TableCache W D}.
Local Abbreviation icmp := (InternalKeyComparator ucmp).
Local Abbreviation table := (TableFileName dbname).
Local Abbreviation next db := (nm_next_file (vs_numbers (versions_ db))).
#[local] Existing Instance env_writable.
#[local] Existing Instance manifest_open.

(** Entries that can be added to tables. *)
Definition fine (kvs : list (Slice * Slice)) : Prop := keys_sorted icmp kvs ∧ Forall (fun kv => ikey_ok okp kv.1) kvs.

(** The bytes and the size of a finished table. *)
Definition is_table (kvs : list (Slice * Slice)) (d : Slice) (size : Z) : Prop :=
  ∃ r, TableBuilder_Finish addr (build_table addr topts ([] : Slice) kvs) = Some (Status_OK, r) ∧ file r = d ∧ FileSize r = size.

(** The builder of the file [n], open as [h], after [cur]. *)
Definition building_on (w : W) (b : TableBuilder (Z * W)) (n h : Z) (cur : list (Slice * Slice)) : Prop :=
  (file b).1 = h ∧ tb_status b = Status_OK ∧ num_entries b = Z.of_nat (length cur) ∧
  ∃ d, pending w h = Some (table n, d) ∧ build_table addr topts ([] : Slice) cur = retarget d b.

Lemma in_world_follows (w : W) (b : TableBuilder (Z * W)) (n h : Z) (cur : list (Slice * Slice)) : good w -> building_on w b n h cur ->
  follows (OpenFile0 := manifest_open (table n) h w) (in_world w b) (build_table addr topts ([] : Slice) cur).
Proof using Type.
  intros Hg (B1 & B2 & _ & d & B3 & B4). split; [|split_and!; [done|done|by exists d|done|done]|done].
  rewrite B4. change (retarget d b = retarget (data_of (in_world w b).(file)) b). unfold data_of. cbn. by rewrite B1, B3.
Qed.

Lemma building_add (w : W) (b : TableBuilder (Z * W)) (n h : Z) (cur : list (Slice * Slice)) (k v : Slice) : good w -> building_on w b n h cur ->
  let b' := TableBuilder_Add addr k v (in_world w b) in let w' := (file b').2 in
  good w' ∧ same_but (table n) w w' ∧ LdbManifest.others h w w' ∧ building_on w' b' n h (cur ++ [(k, v)]).
Proof using DiskLaws0.
  intros Hg Hb b' w'. pose proof (follows_add addr k v _ _ (in_world_follows w b n h cur Hg Hb)) as [F1 (O1 & O2 & (d & O3) & O4 & O5) F3]. fold b' in F1, O1, O2, O3, O4, O5, F3. fold w' in O2, O3, O4, O5.
  split_and!; [done|done|done|]. split_and!; [done|done| |].
  - unfold b'. rewrite num_entries_add by (apply Hb). destruct Hb as (_ & _ & Hn & _). cbn. rewrite Hn, length_app. cbn. lia.
  - exists d. split; [done|]. unfold build_table. rewrite foldl_app. cbn [foldl]. fold (build_table addr topts ([] : Slice) cur). cbn [fst snd]. rewrite F1. f_equal.
    change (data_of (file b') = d). unfold data_of. rewrite O1. fold w'. by rewrite O3.
Qed.

Lemma fine_segment a b c : fine (a ++ b ++ c) -> fine b.
Proof using Type.
  intros [F1 F2]. split; [|by apply Forall_app in F2 as [_ [F2 _]%Forall_app]]. clear addr dbname. intros i j x y Hij Hx Hy. apply (F1 (length a + i)%nat (length a + j)%nat); [lia|..];
    rewrite lookup_app_r, Nat.add_comm, Nat.add_sub by lia; by apply lookup_app_l_Some.
Qed.

Lemma fine_table cur : fine cur -> ∃ r, TableBuilder_Finish addr (build_table addr topts ([] : Slice) cur) = Some (Status_OK, r).
Proof using ComparatorLaws0 Hbytes Hcmp.
  intros [F1 F2]. assert (ComparatorLaws (comparator topts) (ikey_ok okp)) as Hl by (rewrite Hcmp; by apply internal_laws). rewrite <- Hcmp in F1.
  destruct (Adds_spec (F := Slice) addr topts (ikey_ok okp) ([] : Slice) cur) as (blks & last & idx & Hb & E); [reflexivity|done|done|].
  destruct (Finish_spec addr topts (ikey_ok okp) _ _ _ _ Hb) as (r & _ & _ & Hf & _); [by rewrite E|]. by exists r.
Qed.

Lemma building_finish (w : W) (b : TableBuilder (Z * W)) (n h : Z) (cur : list (Slice * Slice)) : good w -> building_on w b n h cur -> fine cur ->
  ∃ h' w' b' d, TableBuilder_Finish addr (in_world w b) = Some (Status_OK, b') ∧ file b' = (h', w') ∧ h' = h ∧ good w' ∧ same_but (table n) w w' ∧ LdbManifest.others h w w' ∧
    pending w' h = Some (table n, d) ∧ is_table cur d (FileSize b').
Proof using ComparatorLaws0 Hbytes Hcmp DiskLaws0.
  intros Hg Hb [r Hr]%fine_table. destruct (follows_finish addr _ _ _ (in_world_follows w b n h cur Hg Hb) Hr eq_refl) as (b' & E & [F1 (O1 & O2 & (d & O3) & O4 & O5) F3]).
  destruct (file b') as [h' w'] eqn:Ef. cbn in O1, O2, O3, O4, O5. subst h'. exists h, w', b', d. split_and!; try done. exists r. cbn in F1. rewrite F1. split_and!; [by rewrite Hr, F1|cbn|done].
  unfold data_of. cbn. by rewrite O3.
Qed.

(** What the table cache does with the environment when it opens a table,
    and when its iterator is deleted. *)
Definition undisturbed_by (w w' : W) : Prop := good w' ∧ same_files w w' ∧ same_objects w w'.

(** A table that was written can be opened. *)
Definition opens_tables : Prop := ∀ w n kvs d size, good w -> LdbFilenameThms.contents w (table n) = Some d -> kvs ≠ [] -> fine kvs -> is_table kvs d size ->
  ∃ it w', tc_NewIterator ReadOptions_new n size w = Some (it, w') ∧ i_status it = Status_OK ∧ undisturbed_by w w' ∧ undisturbed_by w' (tc_delete it w').

(** The other threads, while no memtable is full and the database stays
    open: they leave the open file objects and the pending tables alone. *)
Record steady (db db' : DBImpl W) : Prop := {
  sy_imm : imm_ db = None -> imm_ db' = None;
  sy_run : shutting_down_ db = false -> shutting_down_ db' = false;
  sy_good : good (db_env db) -> good (db_env db');
  sy_next : next db' = next db;
  sy_objects h x : pending (db_env db) h = Some x -> pending (db_env db') h = Some x;
  sy_pending : pending_outputs_ db ⊆ pending_outputs_ db';
  sy_tables n : n ∈ pending_outputs_ db -> LdbFilenameThms.contents (db_env db') (table n) = LdbFilenameThms.contents (db_env db) (table n);
}.

(** The first and the last key of an output. *)
Definition ends (o : Output) (kvs : list (Slice * Slice)) : Prop :=
  (∀ kv, head kvs = Some kv -> out_smallest o = kv.1) ∧ (∀ kv, list.last kvs = Some kv -> out_largest o = kv.1).

(** A finished output on the disk. *)
Definition written (w : W) (o : Output) (kvs : list (Slice * Slice)) : Prop := kvs ≠ [] ∧ ends o kvs ∧
  ∃ d size, out_file_size o = Some size ∧ LdbFilenameThms.contents w (table (out_number o)) = Some d ∧ is_table kvs d size.

(** The outputs: [fin] of the finished ones, [cur] of the open one. *)
Definition progress (w : W) (st : CompactionState) (fin : list (list (Slice * Slice))) (cur : list (Slice * Slice)) : Prop :=
  ∃ os, Forall2 (written w) os fin ∧
    match builder st, outfile st with
    | None, None => outputs st = os ∧ cur = []
    | Some b, Some h => ∃ o, outputs st = os ++ [o] ∧ building_on w b (out_number o) h cur ∧ ends o cur
    | _, _ => False
    end.

Record working (db : DBImpl W) (st : CompactionState) (fin : list (list (Slice * Slice))) (cur : list (Slice * Slice)) : Prop := {
  wk_good : good (db_env db);
  wk_imm : imm_ db = None;
  wk_run : shutting_down_ db = false;
  wk_progress : progress (db_env db) st fin cur;
  wk_numbers : NoDup (out_number <$> outputs st) ∧ 0 < next db < 2 ^ 64;
  wk_pending o : o ∈ outputs st -> out_number o ∈ pending_outputs_ db ∧ 0 < out_number o < next db;
}.

Lemma written_same (w w' : W) (o : Output) (kvs : list (Slice * Slice)) :
  LdbFilenameThms.contents w' (table (out_number o)) = LdbFilenameThms.contents w (table (out_number o)) -> written w o kvs -> written w' o kvs.
Proof using ComparatorLaws0 Hbytes Hcmp DiskLaws0. intros E (H1 & H2 & d & sz & H3 & H4 & H5). split_and!; [done|done|]. exists d, sz. by rewrite E. Qed.

Lemma all_written_same (w w' : W) os fin : (∀ o, o ∈ os -> LdbFilenameThms.contents w' (table (out_number o)) = LdbFilenameThms.contents w (table (out_number o))) ->
  Forall2 (written w) os fin -> Forall2 (written w') os fin.
Proof using ComparatorLaws0 Hbytes Hcmp DiskLaws0. intros E H. induction H as [|o kvs os fin H _ IH]; constructor; [apply (written_same w); [apply E; set_solver|done]|apply IH; intros; apply E; set_solver]. Qed.

Lemma progress_outputs (w : W) st fin cur : progress w st fin cur -> ∃ os tl, outputs st = os ++ tl ∧ Forall2 (written w) os fin.
Proof using ComparatorLaws0 Hbytes Hcmp DiskLaws0.
  intros (os & H1 & H2). exists os. destruct (builder st), (outfile st); try done; [|destruct H2; exists []; by rewrite app_nil_r].
  destruct H2 as (o & ? & _). by exists [o].
Qed.

Lemma working_steady db db' st fin cur : steady db db' -> working db st fin cur -> working db' st fin cur.
Proof using ComparatorLaws0 Hbytes Hcmp DiskLaws0.
  intros [S1 S2 S3 S4 S5 S6 S7] [W1 W2 W3 W4 W5 W6].
  split; [by apply S3|by apply S1|by apply S2| |by rewrite S4|intros o Ho; rewrite S4; destruct (W6 o Ho); split; [by apply S6|done]].
  destruct W4 as (os & H1 & H2). exists os. split.
  - apply (all_written_same (db_env db)); [|done]. intros o Ho. apply S7, W6. destruct (builder st), (outfile st); try done; [|by destruct H2 as [-> _]].
    destruct H2 as (o' & -> & _). set_solver.
  - destruct (builder st) as [b|], (outfile st) as [h|]; try done. destruct H2 as (o & O1 & (B1 & B2 & B3 & d & B4 & B5) & O3). exists o.
    split_and!; [done| |done]. split_and!; [done|done|done|]. exists d. split; [by apply S5|done].
Qed.

(** *** [OpenCompactionOutputFile] *)

Context (interfere : DBImpl W -> DBImpl W) (Hsteady : ∀ db, steady db (interfere db)).

Lemma others_numbers db st fin cur o n : working db st fin cur -> o ∈ outputs st -> n = next db -> table (out_number o) ≠ table n.
Proof using ComparatorLaws0 Hbytes Hcmp DiskLaws0.
  intros [_ _ _ _ [_ W5] W6] Ho -> E. destruct (W6 o Ho) as [_ Hlt]. apply TableFileName_inj in E; [lia|unfold is_u64; lia..].
Qed.

Lemma Open_ok db st fin cur : working db st fin cur -> builder st = None -> next db + 1 < 2 ^ 64 ->
  ∃ st' db', OpenCompactionOutputFile topts dbname interfere st db = Some (Status_OK, st', db') ∧ working db' st' fin [] ∧ cur = [] ∧ is_Some (builder st') ∧
    next db' = next db + 1 ∧ compaction st' = compaction st ∧ smallest_snapshot st' = smallest_snapshot st.
Proof using ComparatorLaws0 Hbytes Hcmp DiskLaws0 Hsteady.
  intros Hw Hb Hn. unfold OpenCompactionOutputFile. rewrite Hb. pose proof (working_steady _ _ _ _ _ (Hsteady db) Hw) as Hw'. set (db1 := interfere db) in *.
  assert (next db1 = next db) as En by apply (Hsteady db). destruct Hw' as [W1 W2 W3 W4 W5 W6] eqn:EW. clear EW. unfold NewFileNumber. cbv zeta. rewrite En.
  set (n := next db) in *. rewrite (u64_small (n + 1)) by lia.
  set (db2 := with_pending _ _). assert (db_env db2 = db_env db1) as -> by done.
  destruct (NewWritableFile (table n) (db_env db1)) as [[s h] w'] eqn:E. destruct (disk_new _ _ _ _ _ W1 E) as (-> & G1 & G2 & G3).
  destruct (new_law _ _ _ _ _ E) as [L1 L2]. specialize (L2 eq_refl). cbn [ok Status_OK]. destruct W4 as (os & P1 & P2). rewrite Hb in P2. destruct (outfile st) eqn:Eo; [done|]. destruct P2 as [P2 ->].
  eexists _, _. split; [done|]. split_and!; [|done|by eexists|done|done|done].
  assert (∀ o, o ∈ os -> table (out_number o) ≠ table n) as Hne.
  { intros o Ho. rewrite <- En. apply (others_numbers db1 st fin []); [|by rewrite P2|done]. split; [done|done|done| |done|done]. exists os. by rewrite Hb, Eo. }
  split; [done|done|done| | |].
  - exists os. cbn [builder outfile outputs]. split; [apply (all_written_same (db_env db1)); [intros o Ho; by apply L1, Hne|done]|].
    eexists. split; [by rewrite P2|]. split; [|done]. split_and!; [done|done|done|]. exists []. by split.
  - cbn [outputs]. cbn. split; [|lia]. rewrite fmap_app, P2. apply list.NoDup_app. rewrite <- P2. split_and!; [apply W5| |apply list.NoDup_singleton].
    intros m (o & -> & Ho)%list_elem_of_fmap Hm. apply list_elem_of_singleton in Hm. cbn in Hm. destruct (W6 o Ho) as [_ ?]. lia.
  - cbn. intros o [Ho|Ho]%elem_of_app; [|apply list_elem_of_singleton in Ho; subst o]; cbn; [destruct (W6 o Ho); split; [set_solver|lia]|split; [set_solver|lia]].
Qed.

(** *** [FinishCompactionOutputFile] *)

Context (Hopens : opens_tables).

(** Sync, close and delete of a file object. *)
Lemma close_file (w : W) (h : Z) (f d : Slice) : good w -> pending w h = Some (f, d) ->
  ∃ w1 w2, file_Sync h w = (Status_OK, w1) ∧ file_Close h w1 = (Status_OK, w2) ∧
    let w3 := delete_writable h w2 in good w3 ∧ same_but f w w3 ∧ LdbFilenameThms.contents w3 f = Some d.
Proof using DiskLaws0.
  intros Hg Hp. destruct (file_Sync h w) as [s1 w1] eqn:E1. destruct (disk_sync _ _ _ _ _ _ Hg Hp E1) as (-> & G1 & _ & _).
  destruct (sync_law _ _ _ _ _ _ Hp E1) as (S1 & _ & P1). specialize (P1 eq_refl).
  destruct (file_Close h w1) as [s2 w2] eqn:E2. destruct (disk_close _ _ _ _ _ _ G1 P1 E2) as (-> & G2 & _).
  destruct (close_law _ _ _ _ _ _ P1 E2) as (S2 & _ & P2). destruct (P2 eq_refl) as [P3 P4].
  exists w1, w2. cbv zeta. split_and!; [done|done|by apply disk_delete| |by rewrite delete_closed_law].
  intros g Hne. rewrite delete_closed_law by done. rewrite S2, S1; done.
Qed.

Lemma verify_ok (w : W) n kvs d size : good w -> LdbFilenameThms.contents w (table n) = Some d -> kvs ≠ [] -> fine kvs -> is_table kvs d size ->
  ∃ w', verify_table n size w = Some (Status_OK, w') ∧ good w' ∧ same_files w w'.
Proof using Hopens.
  intros Hg Hd Hne Hf Ht. destruct (Hopens w n kvs d size Hg Hd Hne Hf Ht) as (it & w' & E1 & E2 & (_ & E3 & _) & E4 & E5 & _).
  unfold verify_table. rewrite E1. cbn [mbind option_bind]. rewrite E2. exists (tc_delete it w'). split_and!; [done|done|]. intros f. by rewrite E5, E3.
Qed.

Lemma Finish_ok db st fin cur : working db st fin cur -> is_Some (builder st) -> cur ≠ [] -> fine cur ->
  ∃ st' db', FinishCompactionOutputFile addr Status_OK st db = Some (Status_OK, st', db') ∧ working db' st' (fin ++ [cur]) [] ∧ builder st' = None ∧
    next db' = next db ∧ compaction st' = compaction st ∧ smallest_snapshot st' = smallest_snapshot st.
Proof using ComparatorLaws0 Hbytes Hcmp DiskLaws0 Hopens Hsteady.
  intros Hw [b Eb] Hne Hf. pose proof Hw as [W1 W2 W3 (os & P1 & P2) W5 W6]. rewrite Eb in P2. destruct (outfile st) as [h|] eqn:Eh; [|done]. destruct P2 as (o & O1 & O2 & O3).
  unfold FinishCompactionOutputFile, current_output. rewrite Eb, Eh, O1, last_snoc. cbn [mbind option_bind].
  destruct (W6 o) as [H1 H2]; [rewrite O1; set_solver|]. rewrite (proj2 (Z.eqb_neq (out_number o) 0)) by lia. change (ok Status_OK) with true. cbn [mbind option_bind].
  destruct (building_finish (db_env db) b (out_number o) h cur W1 O2 Hf) as (h' & w' & b' & d & -> & Ef & -> & G1 & S1 & _ & Hp & Ht). cbn [mbind option_bind].
  rewrite Ef. cbn [snd]. unfold update_output, current_output. rewrite O1, last_snoc. cbn [mbind option_bind]. rewrite length_app, take_app_length' by (cbn; lia). cbn [set_outputs outputs].
  change (ok Status_OK) with true. cbv iota. destruct (close_file w' h _ d G1 Hp) as (w1 & w2 & -> & E2 & G3 & S3 & C3). change (ok Status_OK) with true. cbv iota. rewrite E2.
  assert ((0 <? NumEntries (in_world (db_env db) b)) = true) as ->.
  { destruct O2 as (_ & _ & Hn & _). unfold NumEntries. cbn. rewrite Hn. apply Z.ltb_lt. destruct cur; [done|cbn; lia]. }
  change (ok Status_OK) with true. cbn [andb]. destruct (verify_ok _ _ cur d (FileSize b') G3 C3 Hne Hf Ht) as (w3 & -> & G4 & S4). cbn [mbind option_bind].
  eexists _, _. split; [done|]. split_and!; [|done|done|done|done].
  assert (∀ o', o' ∈ os -> LdbFilenameThms.contents w3 (table (out_number o')) = LdbFilenameThms.contents (db_env db) (table (out_number o'))) as Hsame.
  { intros o' Ho'. assert (table (out_number o') ≠ table (out_number o)) as Hno.
    { intros E. destruct (W6 o') as [_ K]; [rewrite O1; set_solver|]. apply TableFileName_inj in E; [|unfold is_u64; lia..]. destruct W5 as [W5 _]. rewrite O1, fmap_app in W5.
      apply list.NoDup_app in W5 as (_ & W5 & _). apply (W5 (out_number o')); [apply list_elem_of_fmap; by exists o'|rewrite E; cbn; set_solver]. }
    rewrite S4, S3, S1; done. }
  split; [done|done|done| | |].
  - exists (os ++ [MkOutput (out_number o) (Some (FileSize b')) (out_smallest o) (out_largest o)]). split; [|done].
    apply Forall2_app; [by apply (all_written_same (db_env db))|]. constructor; [|constructor]. split_and!; [done|done|]. exists d, (FileSize b'). split_and!; [done| |done]. by rewrite S4.
  - cbn [outputs]. split; [|apply W5]. destruct W5 as [W5 _]. by rewrite O1, fmap_app in W5; rewrite fmap_app.
  - cbn [outputs]. intros o' [Ho|Ho]%elem_of_app; [apply W6; rewrite O1; set_solver|]. apply list_elem_of_singleton in Ho as ->. cbn. done.
Qed.

(** *** One entry *)

(** An open table has entries. *)
Definition busy (st : CompactionState (W := W)) (cur : list (Slice * Slice)) : Prop := is_Some (builder st) -> cur ≠ [].

Lemma output_ready db st fin cur : working db st fin cur -> next db + 1 < 2 ^ 64 ->
  ∃ st' db', match builder st with Some _ => Some (Status_OK, st, db) | None => OpenCompactionOutputFile topts dbname interfere st db end = Some (Status_OK, st', db') ∧
    working db' st' fin cur ∧ is_Some (builder st') ∧ next db' <= next db + 1 ∧ compaction st' = compaction st ∧ smallest_snapshot st' = smallest_snapshot st.
Proof using ComparatorLaws0 Hbytes Hcmp DiskLaws0 Hopens Hsteady.
  intros Hw Hn. destruct (builder st) as [b|] eqn:Eb.
  - exists st, db. split_and!; [done|done|by rewrite Eb|lia|done|done].
  - destruct (Open_ok db st fin cur Hw Eb Hn) as (st' & db' & -> & O1 & -> & O3 & O4 & O5 & O6). exists st', db'. split_and!; try done. lia.
Qed.

Lemma ends_snoc o cur k v size : ends o cur -> ends (MkOutput (out_number o) size (if bool_decide (cur = []) then k else out_smallest o) k) (cur ++ [(k, v)]).
Proof using Type. intros [E1 E2]. split; intros kv; [destruct cur as [|kv' cur]; cbn; [by intros [= <-]|intros [= <-]; by apply E1]|rewrite last_snoc; by intros [= <-]]. Qed.

Lemma output_entry_ok db st fin cur k v : working db st fin cur -> next db + 1 < 2 ^ 64 -> fine (concat fin ++ cur ++ [(k, v)]) ->
  ∃ st' db' fin' cur', output_entry topts dbname addr interfere k v Status_OK st db = Some (Status_OK, st', db') ∧ working db' st' fin' cur' ∧ busy st' cur' ∧
    concat fin' ++ cur' = concat fin ++ cur ++ [(k, v)] ∧ next db' <= next db + 1 ∧ compaction st' = compaction st ∧ smallest_snapshot st' = smallest_snapshot st.
Proof using ComparatorLaws0 Hbytes Hcmp DiskLaws0 Hopens Hsteady.
  intros Hw Hn Hf. unfold output_entry. destruct (output_ready db st fin cur Hw Hn) as (st1 & db1 & -> & Hw1 & [b Eb] & N1 & C1 & C2). cbn [mbind option_bind].
  change (ok Status_OK) with true. cbn [negb]. rewrite Eb. cbn [mbind option_bind].
  pose proof Hw1 as [W1 W2 W3 (os & P1 & P2) W5 W6]. rewrite Eb in P2. destruct (outfile st1) as [h|] eqn:Eh; [|done]. destruct P2 as (o & O1 & O2 & O3).
  unfold update_output, current_output. rewrite O1, last_snoc. cbn [mbind option_bind]. rewrite length_app, take_app_length' by (cbn; lia).
  assert ((NumEntries (in_world (db_env db1) b) =? 0) = bool_decide (cur = [])) as ->.
  { destruct O2 as (_ & _ & E & _). unfold NumEntries. cbn. rewrite E. destruct cur; [done|]. rewrite bool_decide_eq_false_2 by done. apply Z.eqb_neq. cbn. lia. }
  destruct (building_add (db_env db1) b (out_number o) h cur k v W1 O2) as (G1 & S1 & _ & B1). set (b' := TableBuilder_Add addr k v (in_world (db_env db1) b)) in *.
  set (o' := MkOutput _ _ _ _). set (st2 := set_builder _ _). set (db2 := with_env _ db1).
  assert (working db2 st2 fin (cur ++ [(k, v)])) as Hw2.
  { split; [done|done|done| |by cbn; rewrite O1, fmap_app in W5; rewrite fmap_app|].
    - exists os. cbn [builder outfile outputs st2 set_builder set_outputs]. rewrite Eh. split; [|exists o'; split_and!; [done|done|by apply ends_snoc]].
      apply (all_written_same (db_env db1)); [|done]. intros o1 Ho1. apply S1. intros E. destruct (W6 o1) as [_ K1]; [rewrite O1; set_solver|]. destruct (W6 o) as [_ K2]; [rewrite O1; set_solver|].
      apply TableFileName_inj in E; [|unfold is_u64; lia..]. destruct W5 as [W5 _]. rewrite O1, fmap_app in W5. apply list.NoDup_app in W5 as (_ & W5 & _).
      apply (W5 (out_number o1)); [apply list_elem_of_fmap; by exists o1|rewrite E; cbn; set_solver].
    - cbn. intros o1 [Ho|Ho]%elem_of_app; [apply W6; rewrite O1; set_solver|]. apply list_elem_of_singleton in Ho as ->. cbn. apply W6. rewrite O1. set_solver. }
  assert (fine (cur ++ [(k, v)])) as Hf2 by (apply (fine_segment (concat fin) _ []); by rewrite app_nil_r).
  destruct (_ <=? FileSize b').
  - destruct (Finish_ok db2 st2 fin _ Hw2) as (st3 & db3 & E & Hw3 & B3 & N3 & C3 & C4); [by eexists|by destruct cur|done|].
    exists st3, db3, (fin ++ [cur ++ [(k, v)]]), []. split_and!; [exact E|done|intros [? ?]; congruence| |rewrite N3; done|by rewrite C3|by rewrite C4].
    rewrite concat_app. cbn. by rewrite !app_nil_r.
  - exists st2, db2, fin, (cur ++ [(k, v)]). split_and!; [done|done|by intros _; destruct cur|done|done|done|done].
Qed.

(** *** The loop *)

Context (snapshot : Z) {I : Type} `{!Iterator I} (kvs : list (Slice * Slice)) (iat : I -> nat -> Prop).
Context `{!Cursor icmp (ikey_ok okp) kvs iat}.

Lemma stop_ok db st fin cur stop : working db st fin cur -> busy st cur -> fine (concat fin ++ cur) ->
  ∃ st' db' fin' cur', match stop, builder st with
                       | true, Some _ => FinishCompactionOutputFile addr Status_OK st db
                       | _, _ => Some (Status_OK, st, db)
                       end = Some (Status_OK, st', db') ∧ working db' st' fin' cur' ∧ busy st' cur' ∧ concat fin' ++ cur' = concat fin ++ cur ∧
    next db' = next db ∧ compaction st' = compaction st ∧ smallest_snapshot st' = smallest_snapshot st ∧ (stop = true -> builder st' = None).
Proof using ComparatorLaws0 Hbytes Hcmp DiskLaws0 Hopens Hsteady.
  intros Hw Hb Hf. destruct (decide (stop = true ∧ is_Some (builder st))) as [[-> Hs]|Hno].
  - destruct (Finish_ok db st fin cur Hw Hs (Hb Hs)) as (st' & db' & E & F1 & F2 & F3 & F4 & F5); [apply (fine_segment (concat fin) _ []); by rewrite app_nil_r|].
    destruct (builder st); [|by destruct Hs]. exists st', db', (fin ++ [cur]), []. split_and!; [done|done|intros [? ?]; congruence| |done..]. rewrite concat_app. cbn. by rewrite !app_nil_r.
  - exists st, db, fin, cur. split_and!; [|done..|]; [destruct stop, (builder st) eqn:E; try done; destruct Hno; by split|]. intros ->. destruct (builder st); [|done]. destruct Hno. by split.
Qed.

Context (others_v : VersionSet W -> VersionSet W).

Lemma compaction_loop_ok rounds rest : ∀ n i input ks st db fin cur kept, drop i kvs = rest -> iat input i -> (length rest <= n)%nat ->
  working db st fin cur -> busy st cur -> smallest_snapshot st = snapshot -> survivors ucmp max_file_size snapshot rest ks (compaction st) = Some kept ->
  fine (concat fin ++ cur ++ kept) -> next db + Z.of_nat (length rest) < 2 ^ 64 ->
  ∃ input' st' db' fin' cur' j, compaction_loop ucmp topts max_file_size dbname addr interfere others_v n rounds input ks st db = Some (Status_OK, input', st', db') ∧
    iat input' j ∧ working db' st' fin' cur' ∧ busy st' cur' ∧ concat fin' ++ cur' = concat fin ++ cur ++ kept.
Proof using ComparatorLaws0 Hbytes Hcmp DiskLaws0 Hopens Hsteady Cursor0.
  induction rest as [|kv rest IH]; intros n i input ks st db fin cur kept Hd Hi Hn Hw Hb Hsn Hk Hf Hnext;
    pose proof (working_steady _ _ _ _ _ (Hsteady db) Hw) as Hw1; pose proof (sy_next _ _ (Hsteady db)) as N1; pose proof (cur_view input i Hi) as Hv; unfold i_view in Hv.
  { assert (kvs !! i = None) as E by (apply lookup_ge_None; apply (f_equal length) in Hd; rewrite length_drop in Hd; cbn in Hd; lia). rewrite E in Hv.
    assert (i_Valid input = false) as Hinv by (by destruct (i_Valid input)). injection Hk as <-. exists input, st, (interfere db), fin, cur, i.
    destruct n; cbn [compaction_loop]; rewrite Hinv; cbn [andb]; by rewrite app_nil_r. }
  assert (kvs !! i = Some kv) as E by (rewrite <- (Nat.add_0_r i), <- lookup_drop, Hd; done). rewrite E in Hv.
  destruct (i_Valid input) eqn:Hval; [|done]. injection Hv as Hv. destruct n as [|n]; [cbn in Hn; lia|]. cbn [compaction_loop]. rewrite Hval, (wk_run _ _ _ _ Hw1), (wk_imm _ _ _ _ Hw1). cbn [andb negb mbind option_bind].
  rewrite (cur_status input i Hi). assert (i_key input = kv.1 ∧ i_value input = kv.2) as [-> ->] by (by rewrite <- Hv). cbn [survivors] in Hk.
  destruct (ShouldStopBefore ucmp max_file_size kv.1 (compaction st)) as [stop c1]. cbn [snd] in Hk. apply bind_Some in Hk as ([[dropped ks'] c2] & Hdrop & Hk). apply bind_Some in Hk as (kept' & Hk & [= <-]).
  destruct (stop_ok (interfere db) (set_compaction c1 st) fin cur stop) as (st1 & db1 & fin1 & cur1 & -> & Hw2 & Hb2 & E2 & N2 & C2 & C3 & _); [by destruct Hw1 as [? ? ? ? ? ?]; split|done| |].
  { apply (fine_segment [] _ (if dropped then kept' else kv :: kept')). by rewrite app_nil_l, <- app_assoc. }
  cbn [mbind option_bind]. change (ok Status_OK) with true. cbn [negb]. rewrite C2, C3. cbn [compaction set_compaction smallest_snapshot]. rewrite Hsn, Hdrop. cbn [mbind option_bind].
  set (st2 := set_compaction c2 st1). assert (working db1 st2 fin1 cur1) as Hw3 by (by destruct Hw2; split). destruct (cur_next input i Hi ltac:(by eapply lookup_lt_Some)) as (input' & Hinp & Hi').
  assert (drop (S i) kvs = rest) as Hd' by (rewrite (drop_S kvs kv i E) in Hd; by injection Hd). cbn [length] in Hn, Hnext. destruct dropped; cbn [mbind option_bind].
  - change (ok Status_OK) with true. cbn [negb]. rewrite Hinp. cbn [mbind option_bind]. rewrite app_assoc, <- E2, <- app_assoc in Hf.
    destruct (IH n (S i) input' ks' st2 db1 fin1 cur1 kept' Hd' Hi' ltac:(lia) Hw3 Hb2 (eq_trans C3 Hsn) Hk Hf ltac:(lia)) as (input2 & st3 & db3 & fin3 & cur3 & j & ? & ? & ? & ? & E3).
    exists input2, st3, db3, fin3, cur3, j. split_and!; try done. by rewrite E3, !app_assoc, E2.
  - rewrite app_assoc, <- E2, <- app_assoc in Hf. destruct (output_entry_ok db1 st2 fin1 cur1 kv.1 kv.2 Hw3 ltac:(lia)) as (st3 & db3 & fin3 & cur3 & -> & Hw4 & Hb4 & E4 & N4 & C4 & C5).
    { destruct kv. apply (fine_segment [] _ kept'). rewrite app_nil_l. rewrite <- !app_assoc. exact Hf. }
    cbn [mbind option_bind]. change (ok Status_OK) with true. cbn [negb]. rewrite Hinp. cbn [mbind option_bind].
    assert (concat fin3 ++ cur3 ++ kept' = concat fin1 ++ cur1 ++ kv :: kept') as E5 by (rewrite app_assoc, E4, <- !app_assoc; by destruct kv). rewrite <- E5 in Hf.
    destruct (IH n (S i) input' ks' st3 db3 fin3 cur3 kept' Hd' Hi' ltac:(lia) Hw4 Hb4 (eq_trans C5 (eq_trans C3 Hsn)) (eq_trans (f_equal _ C4) Hk) Hf ltac:(lia)) as (input2 & st4 & db4 & fin4 & cur4 & j & ? & ? & ? & ? & E6).
    exists input2, st4, db4, fin4, cur4, j. split_and!; try done. rewrite E6, E5. by rewrite !app_assoc, E2.
Qed.

Lemma compact_tables_ok n rounds i input st db kept : iat input i -> (length kvs <= n)%nat -> working db st [] [] -> builder st = None -> smallest_snapshot st = snapshot ->
  survivors ucmp max_file_size snapshot kvs KeyState_new (compaction st) = Some kept -> fine kept -> next db + Z.of_nat (length kvs) < 2 ^ 64 ->
  ∃ st' db' tables, compact_tables ucmp topts max_file_size dbname addr interfere others_v n rounds input st db = Some (Status_OK, st', db') ∧
    Forall2 (written (db_env db')) (outputs st') tables ∧ concat tables = kept ∧ builder st' = None ∧ working db' st' tables [].
Proof using ComparatorLaws0 Hbytes Hcmp DiskLaws0 Hopens Hsteady Cursor0.
  intros Hi Hn Hw Hb Hsn Hk Hf Hnext. unfold compact_tables. destruct (cur_first input i Hi) as (input0 & -> & Hi0). cbn [mbind option_bind].
  destruct (compaction_loop_ok rounds kvs n 0 input0 KeyState_new st db [] [] kept eq_refl Hi0 Hn Hw) as (input' & st1 & db1 & fin1 & cur1 & j & -> & Hj & Hw1 & Hb1 & E1); [intros [? ?]; congruence|done..|].
  cbn [mbind option_bind]. change (ok Status_OK) with true. pose proof (working_steady _ _ _ _ _ (Hsteady db1) Hw1) as Hw2. rewrite (wk_run _ _ _ _ Hw2), (cur_status input' j Hj). cbn [andb]. change (ok Status_OK) with true.
  destruct (stop_ok (interfere db1) st1 fin1 cur1 true Hw2 Hb1) as (st2 & db2 & fin2 & cur2 & -> & Hw3 & Hb3 & E2 & N2 & _ & _ & B2); [by rewrite E1|]. cbn [mbind option_bind].
  change (ok Status_OK) with true. specialize (B2 eq_refl). pose proof (wk_progress _ _ _ _ Hw3) as (os & P1 & P2). rewrite B2 in P2. destruct (outfile st2); [done|]. destruct P2 as [P2 ->].
  exists st2, db2, fin2. split_and!; [done|by rewrite P2| |done|done]. rewrite app_nil_r in E2. by rewrite E2, E1.
Qed.

Lemma db_sorted_sublist {A} (R : A -> A -> Prop) (l k : list A) : l `sublist_of` k -> StronglySorted R k -> StronglySorted R l.
Proof using Type.
  induction 1 as [|x l k Hs IH|x l k Hs IH]; intros H; [done| |]; inversion H as [|? ? H1 H2]; subst; [|by apply IH].
  constructor; [by apply IH|]. rewrite list.Forall_forall in H2 |- *. intros y Hy. apply H2. eapply elem_of_sublist; done.
Qed.

Lemma fine_sublist (l k : list (Slice * Slice)) : l `sublist_of` k -> fine k -> fine l.
Proof using Type.
  intros Hs [F1 F2]. split.
  - intros i j a b. apply strongly_sorted_lookup with (R := fun a b => Compare icmp a.1 b.1 < 0), (db_sorted_sublist _ l k Hs). by apply lookup_strongly_sorted.
  - rewrite list.Forall_forall in F2 |- *. intros y Hy. apply F2. eapply elem_of_sublist; done.
Qed.

End Compact.

(** A compaction that starts. *)
Record starts {W : Type} `{!DiskView W} (v : Version) (snapshot : Z) (st : CompactionState (W := W)) (db : DBImpl W) : Prop := {
  sr_version : input_version_ (compaction st) = Some v ∧ 0 <= c_level_ (compaction st) < kNumLevels - 1;
  sr_pointers : level_ptrs_ (compaction st) = replicate (Z.to_nat kNumLevels) O;
  sr_outputs : outputs st = [] ∧ builder st = None ∧ outfile st = None;
  sr_snapshot : smallest_snapshot st = snapshot ∧ snapshot < kMaxSequenceNumber;
  sr_database : good (db_env db) ∧ imm_ db = None ∧ shutting_down_ db = false;
}.

(** C12. On a disk without failures, with other threads that leave the state of
    the compaction alone ([steady]) and a table cache that opens every table
    that is completely written ([opens_tables]), the loop of a compaction over
    a sorted input ends with OK, whatever the input iterator: its output files
    are written tables, the entries of which are sorted and are a part of the
    input; and for every key [u] and every snapshot [s] not older than
    [smallest_snapshot], a read over the outputs together with the entries
    elsewhere gives the same answer as before, where the entries elsewhere are
    newer ones, or in files of deeper levels of the input version. *)
Theorem compaction_keeps_reads {W D I : Type} `{!Env W, !EnvView W, !DiskView W, !DiskLaws W} `{!EnvDir W} `{!Iterator D} `{!TableCache W D} `{!Iterator I}
    (ucmp : Comparator) (okp : Slice -> Prop) `{!ComparatorLaws ucmp okp} (topts : Options) (max_file_size : Z) (dbname : Slice) (addr : Slice -> Z)
    (interfere : DBImpl W -> DBImpl W) (others_v : VersionSet W -> VersionSet W) (kvs : list (Slice * Slice)) (iat : I -> nat -> Prop)
    `{!Cursor (InternalKeyComparator ucmp) (ikey_ok okp) kvs iat} (n rounds i : nat) (input : I) (es : list entry) (v : Version) (snapshot : Z)
    (st : CompactionState (W := W)) (db : DBImpl W) :
  (∀ k, okp k -> Forall is_u8 k) -> comparator topts = InternalKeyComparator ucmp -> version_ok ucmp okp v ->
  (∀ db, steady dbname db (interfere db)) -> opens_tables ucmp okp topts dbname addr ->
  iat input i -> fine ucmp okp kvs -> Forall2 (fun kv e => parsed_entry kv = Some e) kvs es -> numbered ucmp es ->
  starts v snapshot st db -> 0 < nm_next_file (vs_numbers (versions_ db)) -> nm_next_file (vs_numbers (versions_ db)) + Z.of_nat (length kvs) < 2 ^ 64 -> (length kvs <= n)%nat ->
  ∃ st' db' tables kes, compact_tables ucmp topts max_file_size dbname addr interfere others_v n rounds input st db = Some (Status_OK, st', db') ∧
    Forall2 (written topts dbname addr (db_env db')) (outputs st') tables ∧ fine ucmp okp (concat tables) ∧ concat tables `sublist_of` kvs ∧ Forall2 (fun kv e => parsed_entry kv = Some e) (concat tables) kes ∧
    ∀ rest u s, outside ucmp v (c_level_ (compaction st)) es rest -> (∀ r, r ∈ rest -> okp (e_key r)) -> numbered ucmp (es ++ rest) -> okp u -> snapshot <= s ->
      read ucmp u s (kes ++ rest) = read ucmp u s (es ++ rest).
Proof.
  intros Hb Hc Hv Hst Ho Hi Hf He Hnum [[S1 S2] S3 (S4 & S5 & S6) [S7 S8] (S9 & S10 & S11)] Hn1 Hn2 Hn.
  pose proof (sorted_input ucmp okp Hb kvs es He (proj1 Hf) (proj2 Hf) Hnum) as Hin.
  destruct (survivors_compacts ucmp okp Hb max_file_size v Hv snapshot S8 (c_level_ (compaction st)) kvs es (compaction st) He Hin) as (kept & kes & K1 & K2 & K3 & K4).
  { intros u Hu. split; [done|done|]. rewrite S3. split; [by rewrite length_replicate|]. intros l files ptr _ [-> _]%lookup_replicate i' f Hi'. lia. }
  pose proof (fine_sublist ucmp okp kept kvs K3 Hf) as Hfk.
  destruct (compact_tables_ok ucmp okp Hb topts Hc max_file_size dbname addr interfere Hst Ho snapshot kvs iat others_v n rounds i input st db kept Hi Hn) as (st' & db' & tables & E & T1 & T2 & _); [|done..|].
  { split; [done|done|done| | |]. - exists []. by rewrite S4, S5, S6. - rewrite S4. split; [apply base.NoDup_nil_2|lia]. - rewrite S4. set_solver. }
  exists st', db', tables, kes. rewrite T2. split_and!; [done|done|done|done|done|]. intros rest u s Hout Hr Hnr Hu Hs.
  apply (compacts_read ucmp okp snapshot); [by apply K4| |done|done|done]. rewrite list.Forall_forall. intros e [He'|He']%elem_of_app; [by apply (io_keys _ _ _ Hin)|by apply Hr].
Qed.

(** *** A compaction in memory *)

#[local] Instance w_mem_tables : TableCache MemEnv EmptyIterator := {|
  tc_Get _ _ _ _ w := Some (Status_OK, None, w);
  tc_NewIterator _ _ _ w := Some (MkEmpty Status_OK, w);
  tc_delete _ w := w;
  tc_Evict _ w := w;
|}.

(** The names of the directory. *)
#[export] Instance mem_dir : EnvDir MemEnv := {|
  GetChildren dir (w : MemEnv) :=
    (Status_OK, omap (fun f => if bool_decide (take (length dir + 1) f = dir ++ str "/") then Some (drop (length dir + 1) f) else None) (elements (dom (files w))), w);
  FileExists f (w : MemEnv) := bool_decide (is_Some (files w !! f));
  CreateDir _ w := (Status_OK, w);
  DeleteDir _ w := (Status_OK, w);
  LockFile _ w := (Status_OK, 0, w);
  UnlockFile _ w := (Status_OK, w);
|}.

Definition w_internal : Options := MkOptions (InternalKeyComparator BytewiseComparator) true true 16 1 kNoCompression None.

Definition w_ik (u q : Z) (t : ValueType) : Slice := AppendInternalKey [] (PIK [u] q t).

(** Key 97 overwritten, key 98 deleted, keys 99 and 100. *)
Definition w_input : list (Slice * Slice) :=
  [(w_ik 97 5 kTypeValue, [50]); (w_ik 97 3 kTypeValue, [30]); (w_ik 98 4 kTypeDeletion, []); (w_ik 98 1 kTypeValue, [10]); (w_ik 99 2 kTypeValue, [20]); (w_ik 100 9 kTypeValue, [90])].

Definition w_entries : list entry :=
  [Entry 5 kTypeValue [97] [50]; Entry 3 kTypeValue [97] [30]; Entry 4 kTypeDeletion [98] []; Entry 1 kTypeValue [98] [10]; Entry 2 kTypeValue [99] [20]; Entry 9 kTypeValue [100] [90]].

Definition w_compaction : Compaction := MkCompaction 0 20 (Some w_version) VersionEdit_new [] [] [] 0 false 0 (replicate (Z.to_nat kNumLevels) O).

Definition w_state : CompactionState (W := MemEnv) := MkCompactionState w_compaction 5 [] None None 0.

Definition w_database (vs : VersionSet MemEnv) : DBImpl MemEnv :=
  MkDB vs ∅ 0 None None None None 0 ∅ Status_OK false false None SnapshotList_new [] batch_Clear.

Definition w_compact (db : DBImpl MemEnv) : option (Status * CompactionState (W := MemEnv) * DBImpl MemEnv) :=
  compact_tables (Iterator1 := list_iterator (InternalKeyComparator BytewiseComparator)) BytewiseComparator w_internal 100 (str "db") (fun _ => 0) (fun db => db) (fun vs => vs)
    6 0 (MkListIter w_input 6) w_state db.

Lemma steady_refl {W : Type} `{!EnvView W, !DiskView W} (dbname : Slice) (db : DBImpl W) : steady dbname db db.
Proof. by split. Qed.

Lemma w_opens : opens_tables BytewiseComparator (Forall is_u8) w_internal (str "db") (fun _ => 0).
Proof. intros w n kvs d size Hg _ _ _ _. exists (MkEmpty Status_OK), w. by split_and!. Qed.

Lemma w_input_fine : fine BytewiseComparator (Forall is_u8) w_input.
Proof.
  split; [apply keys_sorted_check; by vm_compute|]. assert (∀ u q t, 97 <= u <= 100 -> ikey_ok (Forall is_u8) (w_ik u q t)) as Hk.
  { intros u q t Hu. unfold w_ik. rewrite AppendInternalKey_ikey. apply ikey_ok_ikey; repeat constructor; unfold is_u8; cbn; lia. }
  repeat (apply Forall_cons_2; [apply Hk; lia|]). apply Forall_nil_2.
Qed.

Lemma w_numbered : numbered BytewiseComparator w_entries.
Proof.
  assert (forallb (fun e => forallb (fun e' => bool_decide (e = e') || negb (Compare BytewiseComparator (e_key e) (e_key e') =? 0) || negb (e_seq e =? e_seq e')) w_entries) w_entries = true) as H by (by vm_compute).
  intros e e' He He' H1 H2. rewrite forallb_forall in H. specialize (H e (proj1 (list_elem_of_In _ _) He)). rewrite forallb_forall in H. specialize (H e' (proj1 (list_elem_of_In _ _) He')).
  rewrite H1, H2, !Z.eqb_refl in H. cbn in H. rewrite !orb_false_r in H. by apply bool_decide_eq_true in H.
Qed.

Lemma compaction_keeps_reads_witness : ∃ vs st' db' tables kes, VersionSet_new w_empty_disk = Some vs ∧ w_compact (w_database vs) = Some (Status_OK, st', db') ∧
  Forall2 (written w_internal (str "db") (fun _ => 0) (db_env db')) (outputs st') tables ∧ Forall2 (fun kv e => parsed_entry kv = Some e) (concat tables) kes ∧
  read BytewiseComparator [97] 5 kes = Some [50] ∧ read BytewiseComparator [98] 5 kes = None.
Proof.
  destruct (VersionSet_new_ok BytewiseComparator (Forall is_u8) w_empty_disk) as (vs & E & _ & _ & Hw & Hn & _).
  destruct (compaction_keeps_reads (Iterator1 := list_iterator (InternalKeyComparator BytewiseComparator)) BytewiseComparator (Forall is_u8) w_internal 100 (str "db") (fun _ => 0)
    (fun db => db) (fun vs => vs) w_input (list_at w_input) (Cursor0 := list_cursor _ _ w_input) 6 0 6 (MkListIter w_input 6) w_entries w_version 5 w_state (w_database vs))
    as (st' & db' & tables & kes & H1 & H2 & H3 & _ & H4 & H5).
  - done.
  - done.
  - exact w_version_ok.
  - intros db. apply steady_refl.
  - exact w_opens.
  - split; [done|]. cbn. lia.
  - exact w_input_fine.
  - repeat constructor.
  - exact w_numbered.
  - split; [split; [done|split; by vm_compute]|done|done|split; [done|by vm_compute]|]. split_and!; [|done|done]. unfold db_env. cbn. rewrite Hw. exact w_empty_disk_good.
  - cbn. rewrite Hn. by vm_compute.
  - cbn. rewrite Hn. by vm_compute.
  - cbn. lia.
  - exists vs, st', db', tables, kes. split_and!; [done|exact H1|exact H2|exact H4| |].
    + specialize (H5 [] [97] 5). rewrite !app_nil_r in H5. rewrite H5; [by vm_compute|intros r e Hr; by apply not_elem_of_nil in Hr|intros r Hr; by apply not_elem_of_nil in Hr|exact w_numbered|repeat constructor; unfold is_u8; lia|lia].
    + specialize (H5 [] [98] 5). rewrite !app_nil_r in H5. rewrite H5; [by vm_compute|intros r e Hr; by apply not_elem_of_nil in Hr|intros r Hr; by apply not_elem_of_nil in Hr|exact w_numbered|repeat constructor; unfold is_u8; lia|lia].
Defined.

(** ** [DeleteObsoleteFiles] *)

Lemma foldl_union {A} (f : gset Z -> A -> gset Z) (g : A -> gset Z) (l : list A) : (∀ X a, f X a = X ∪ g a) -> ∀ X x, x ∈ foldl f X l <-> x ∈ X ∨ ∃ a, a ∈ l ∧ x ∈ g a.
Proof.
  intros H. induction l as [|a l IH]; intros X x; cbn [foldl]; [set_solver|]. rewrite IH, H, elem_of_union. set_solver.
Qed.

(** The files of all versions, and those that were live before. *)
Lemma AddLiveFiles_spec {W : Type} (X : gset Z) (vs : VersionSet W) x : x ∈ AddLiveFiles X vs <-> x ∈ X ∨ ∃ n fs f, n ∈ vs_versions vs ∧ fs ∈ files_ (node_version n) ∧ f ∈ fs ∧ f_number f = x.
Proof.
  unfold AddLiveFiles. set (of_files := fun fs : list File => list_to_set (C := gset Z) ((fun f => f_number f) <$> fs)).
  assert (∀ X fs, foldl (fun live (f : File) => {[f_number f]} ∪ live) X fs = X ∪ of_files fs) as E1.
  { intros Y fs. apply leibniz_equiv. intros y. rewrite (foldl_union _ (fun f => {[f_number f]})) by (intros; apply (comm_L (∪))). unfold of_files. rewrite elem_of_union, elem_of_list_to_set, list_elem_of_fmap. setoid_rewrite elem_of_singleton. naive_solver. }
  assert (∀ X fss, foldl (fun live fs => foldl (fun live (f : File) => {[f_number f]} ∪ live) live fs) X fss = X ∪ ⋃ (of_files <$> fss)) as E2.
  { intros Y fss. apply leibniz_equiv. intros y. rewrite (foldl_union _ of_files) by (intros; apply E1). rewrite elem_of_union, elem_of_union_list. setoid_rewrite list_elem_of_fmap. naive_solver. }
  rewrite (foldl_union _ (fun n => ⋃ (of_files <$> files_ (node_version n)))) by (intros; apply E2). unfold of_files. setoid_rewrite elem_of_union_list. setoid_rewrite list_elem_of_fmap. split; (intros [?|H]; [by left|right]).
  - destruct H as (n & Hn & Y & (fs & -> & Hfs) & (f & -> & Hf)%elem_of_list_to_set%list_elem_of_fmap). by exists n, fs, f.
  - destruct H as (n & fs & f & Hn & Hfs & Hf & <-). exists n. split; [done|]. eexists. split; [by exists fs|]. apply elem_of_list_to_set, list_elem_of_fmap. by exists f.
Qed.

Section Obsolete.

Context {W D : Type} `{!Env W, !EnvView W, !EnvLaws W} `{!EnvDir W} `{!TableCache W D} (dbname : Slice).
Local Abbreviation contents := LdbFilenameThms.contents.

(** Listing a directory and dropping a table from the cache change no file,
    and a file that is deleted is gone. *)
Record deletes_files : Prop := {
  dl_list dir w : same_files w (GetChildren dir w).2;
  dl_evict n w : same_files w (tc_Evict n w);
  dl_gone f w : contents (env_DeleteFile f w).2 f = None;
}.

Context (Hdel : deletes_files) (live : gset Z) (numbers : Numbers).

Definition kept_name (name : Slice) : bool := match ParseFileName name with Some (n, t) => keep_file live numbers n t | None => true end.

Lemma collect_file_spec (w : W) name f : contents (collect_file dbname live numbers w name) f = if bool_decide (f = dbname ++ str "/" ++ name) && negb (kept_name name) then None else contents w f.
Proof using EnvLaws0 Hdel.
  unfold collect_file, kept_name. destruct (ParseFileName name) as [[n t]|]; [|by rewrite andb_false_r]. destruct (keep_file live numbers n t); [by rewrite andb_false_r|]. rewrite andb_true_r.
  set (w1 := match t with kTableFile => _ | _ => w end). assert (same_files w w1) as H1 by (destruct t; try done; apply (dl_evict Hdel)).
  destruct (bool_decide_reflect (f = dbname ++ str "/" ++ name)) as [->|Hne]; [by apply (dl_gone Hdel)|]. by rewrite delete_law, H1.
Qed.

Lemma collect_files_spec names : ∀ w f, contents (foldl (collect_file dbname live numbers) w names) f =
  if bool_decide (Exists (fun name => f = dbname ++ str "/" ++ name ∧ kept_name name = false) names) then None else contents w f.
Proof using EnvLaws0 Hdel.
  induction names as [|name names IH]; intros w f; cbn [foldl]; [by rewrite bool_decide_eq_false_2 by (intros H; inversion H)|].
  rewrite IH, collect_file_spec. destruct (bool_decide_reflect (Exists (fun name => f = dbname ++ str "/" ++ name ∧ kept_name name = false) names)) as [He|He].
  { by rewrite bool_decide_eq_true_2 by (by apply Exists_cons_tl). }
  destruct (bool_decide_reflect (f = dbname ++ str "/" ++ name)) as [->|Hne], (kept_name name) eqn:Ek; cbn [andb negb].
  - rewrite bool_decide_eq_false_2; [done|]. intros [[_ ?]|?]%Exists_cons; congruence.
  - rewrite bool_decide_eq_true_2; [done|]. apply Exists_cons. left. by split.
  - rewrite bool_decide_eq_false_2; [done|]. intros [[_ ?]|?]%Exists_cons; congruence.
  - rewrite bool_decide_eq_false_2; [done|]. intros [[? _]|?]%Exists_cons; congruence.
Qed.

End Obsolete.

Lemma owned_path_name (dbname : Slice) (o : owned) : owned_path dbname o = dbname ++ str "/" ++ owned_name dbname o.
Proof. unfold owned_name. destruct o; cbn [owned_path]; unfold LogFileName, TableFileName, SSTTableFileName, TempFileName, MakeFileName, DescriptorFileName, CurrentFileName, LockFileName, InfoLogFileName, OldInfoLogFileName;
  rewrite ?remove_dir; try done; [change (str "/MANIFEST-" ++ padded n) with (str "/" ++ (str "MANIFEST-" ++ padded n))|change (str "/CURRENT") with (str "/" ++ str "CURRENT")|change (str "/LOCK") with (str "/" ++ str "LOCK")
    |change (str "/LOG") with (str "/" ++ str "LOG")|change (str "/LOG.old") with (str "/" ++ str "LOG.old")]; by rewrite remove_dir.
Qed.

(** The files a database needs. *)
Definition needs {W : Type} (db : DBImpl W) (o : owned) : Prop :=
  let numbers := vs_numbers (versions_ db) in
  let live n := n ∈ pending_outputs_ db ∨ ∃ node fs f, node ∈ vs_versions (versions_ db) ∧ fs ∈ files_ (node_version node) ∧ f ∈ fs ∧ f_number f = n in
  match o with
  | OTable n | OSSTable n | OTemp n => live n
  | OLog n => nm_log numbers <= n ∨ n = nm_prev_log numbers
  | ODescriptor n => nm_manifest_file numbers <= n
  | OCurrent | OLock | OInfoLog | OOldInfoLog => True
  end.

Lemma keep_file_needed {W : Type} (db : DBImpl W) (o : owned) :
  keep_file (AddLiveFiles (pending_outputs_ db) (versions_ db)) (vs_numbers (versions_ db)) (owned_number o) (owned_type o) = true <-> needs db o.
Proof. destruct o; cbn; rewrite ?bool_decide_eq_true, ?AddLiveFiles_spec, ?orb_true_iff, ?Z.leb_le, ?Z.eqb_eq; done. Qed.

(** C14. Without a background error, and when every file that the environment
    is asked to delete is gone afterwards ([deletes_files]),
    [DeleteObsoleteFiles] leaves the contents of every file that the database
    needs, be it a log or a manifest that is not older than the current one, a
    table of a live version or a file that is being written, and removes every
    other log, manifest, table and temporary file that the directory lists. *)
Theorem obsolete_files_deleted {W D : Type} `{!Env W, !EnvView W, !EnvLaws W} `{!EnvDir W} `{!TableCache W D} (dbname : Slice) (db : DBImpl W) (o : owned) :
  deletes_files (W := W) (D := D) -> bg_error_ db = Status_OK -> is_u64 (owned_number o) ->
  ∃ w', DeleteObsoleteFiles (D := D) dbname db = with_env w' db ∧
    (needs db o -> LdbFilenameThms.contents w' (owned_path dbname o) = LdbFilenameThms.contents (db_env db) (owned_path dbname o)) ∧
    (¬ needs db o -> owned_name dbname o ∈ (GetChildren dbname (db_env db)).1.2 -> LdbFilenameThms.contents w' (owned_path dbname o) = None).
Proof.
  intros Hdel Hbg Hn. unfold DeleteObsoleteFiles. rewrite Hbg. change (ok Status_OK) with true. cbn [negb].
  pose proof (dl_list Hdel dbname (db_env db)) as Hl. destruct (GetChildren dbname (db_env db)) as [[s names] w] eqn:E. cbn [fst snd] in *. eexists. split; [done|].
  set (numbers := vs_numbers (versions_ db)). set (X := AddLiveFiles (pending_outputs_ db) (versions_ db)). rewrite (collect_files_spec dbname Hdel), owned_path_name.
  assert (keep_file X numbers (owned_number o) (owned_type o) = true <-> needs db o) as Hkeep by (by apply keep_file_needed).
  assert (kept_name X numbers (owned_name dbname o) = keep_file X numbers (owned_number o) (owned_type o)) as Hk by (unfold kept_name; by rewrite filename_roundtrip).
  split.
  - intros Hneed. rewrite bool_decide_eq_false_2; [apply Hl|]. intros (name & _ & Hp & Hf)%Exists_exists. apply app_inv_head, app_inv_head in Hp. subst name. apply Hkeep in Hneed. congruence.
  - intros Hneed Hin. rewrite bool_decide_eq_true_2; [done|]. apply Exists_exists. exists (owned_name dbname o). split; [by apply list_elem_of_In|]. split; [done|].
    rewrite Hk. apply not_true_is_false. by rewrite Hkeep.
Qed.

(** Of the tables 5 and 7 the first is being written. *)
Definition w_two_tables : MemEnv :=
  MkMemEnv {[TableFileName (str "db") 5 := [1]; TableFileName (str "db") 7 := [2]; CurrentFileName (str "db") := [3]]} ∅ ∅ 1 None.

Lemma w_deletes : deletes_files (W := MemEnv) (D := EmptyIterator).
Proof. split; [done|done|]. intros f w. cbn. apply lookup_delete_eq. Qed.

Lemma obsolete_files_deleted_witness : ∃ vs w', VersionSet_new w_two_tables = Some vs ∧
  let db := with_pending {[5]} (w_database vs) in DeleteObsoleteFiles (D := EmptyIterator) (str "db") db = with_env w' db ∧
  LdbFilenameThms.contents w' (TableFileName (str "db") 7) = None.
Proof.
  remember (VersionSet_new w_two_tables) as r eqn:E. assert (is_Some r) as [vs ->] by (rewrite E; by eexists). exists vs.
  destruct (obsolete_files_deleted (D := EmptyIterator) (str "db") (with_pending {[5]} (w_database vs)) (OTable 7) w_deletes) as (w' & H1 & _ & H2); [done|done|].
  exists w'. split; [done|]. split; [exact H1|]. apply H2.
  - rewrite <- keep_file_needed. assert ((fun vs => let db := with_pending {[5]} (w_database vs) in
      keep_file (AddLiveFiles (pending_outputs_ db) (versions_ db)) (vs_numbers (versions_ db)) 7 kTableFile) <$> VersionSet_new w_two_tables = Some false) as K by (by vm_compute).
    rewrite <- E in K. apply (inj Some) in K. intros K'. cbv zeta in K. cbn [owned_number owned_type] in K'. congruence.
  - assert ((fun vs => bool_decide (owned_name (str "db") (OTable 7) ∈ (GetChildren (str "db") (db_env (with_pending {[5]} (w_database vs)))).1.2))
      <$> VersionSet_new w_two_tables = Some true) as K by (by vm_compute).
    rewrite <- E in K. apply (inj Some) in K. by apply bool_decide_eq_true in K.
Defined.

Lemma w_collected : (fun vs => let w := db_env (DeleteObsoleteFiles (D := EmptyIterator) (str "db") (with_pending {[5]} (w_database vs))) in
  (LdbFilenameThms.contents w (TableFileName (str "db") 5), LdbFilenameThms.contents w (TableFileName (str "db") 7))) <$> VersionSet_new w_two_tables = Some (Some [1], None).
Proof. by vm_compute. Qed.

(** ** The list of snapshots *)

Section Snapshots.

Implicit Types (nodes : gmap nat SnapshotImpl) (l : SnapshotList) (a b p q : nat) (xs : list (nat * Z)).

Definition linked nodes a b : Prop := sn_next <$> nodes !! a = Some b ∧ sn_prev <$> nodes !! b = Some a.

Fixpoint path nodes (L : list nat) : Prop :=
  match L with
  | a :: (b :: _) as L' => linked nodes a b ∧ path nodes L'
  | _ => True
  end.

(** The snapshots of the list, oldest first, between the head and itself. *)
Record snapshots l xs : Prop := {
  sp_path : path (sn_nodes l) (O :: xs.*1 ++ [O]);
  sp_nodup : NoDup (O :: xs.*1);
  sp_sequence a s : (a, s) ∈ xs -> sequence_number <$> sn_nodes l !! a = Some s;
  sp_fresh a : is_Some (sn_nodes l !! a) -> (a < sn_fresh l)%nat;
  sp_sorted : StronglySorted Z.le xs.*2;
}.

Lemma chain_app nodes A p B : path nodes (A ++ p :: B) <-> path nodes (A ++ [p]) ∧ path nodes (p :: B).
Proof.
  induction A as [|x A IH]; cbn [app]; [cbn; tauto|]. destruct A as [|y A]; cbn [app] in *; [cbn; tauto|].
  change (path nodes (x :: y :: A ++ p :: B)) with (linked nodes x y ∧ path nodes (y :: A ++ p :: B)). rewrite IH. cbn. tauto.
Qed.

Lemma path_same nodes nodes' A p : (∀ d, d ∈ A -> sn_next <$> nodes' !! d = sn_next <$> nodes !! d) ->
  (∀ d, d ∈ tail (A ++ [p]) -> sn_prev <$> nodes' !! d = sn_prev <$> nodes !! d) -> path nodes (A ++ [p]) -> path nodes' (A ++ [p]).
Proof.
  induction A as [|x A IH]; intros H1 H2; [done|]. cbn [app tail] in *. destruct (A ++ [p]) as [|y B] eqn:E; [by destruct A|]. intros [[L1 L2] Hp]. split.
  - split; [rewrite H1; [done|left]|rewrite H2; [done|left]].
  - apply IH; [|intros d Hd; apply H2; by right|done]. intros d Hd. apply H1. by right.
Qed.

Definition same_sequences nodes nodes' : Prop := ∀ d, sequence_number <$> nodes' !! d = sequence_number <$> nodes !! d.

Lemma set_sn_next_spec a n nodes : is_Some (nodes !! a) -> ∃ nodes', set_sn_next a n nodes = Some nodes' ∧
  (∀ d, sn_next <$> nodes' !! d = if decide (d = a) then Some n else sn_next <$> nodes !! d) ∧ (∀ d, sn_prev <$> nodes' !! d = sn_prev <$> nodes !! d) ∧ same_sequences nodes nodes'.
Proof.
  intros [x Hx]. unfold set_sn_next. rewrite Hx. cbn [mbind option_bind]. eexists. split; [done|]. split_and!; intros d; (destruct (decide (d = a)) as [->|]; [rewrite lookup_insert_eq|by rewrite lookup_insert_ne]); [done|by rewrite Hx..].
Qed.

Lemma set_sn_prev_spec a n nodes : is_Some (nodes !! a) -> ∃ nodes', set_sn_prev a n nodes = Some nodes' ∧
  (∀ d, sn_prev <$> nodes' !! d = if decide (d = a) then Some n else sn_prev <$> nodes !! d) ∧ (∀ d, sn_next <$> nodes' !! d = sn_next <$> nodes !! d) ∧ same_sequences nodes nodes'.
Proof.
  intros [x Hx]. unfold set_sn_prev. rewrite Hx. cbn [mbind option_bind]. eexists. split; [done|]. split_and!; intros d; (destruct (decide (d = a)) as [->|]; [rewrite lookup_insert_eq|by rewrite lookup_insert_ne]); [done|by rewrite Hx..].
Qed.

Lemma same_sequences_some nodes nodes' d : same_sequences nodes nodes' -> is_Some (nodes' !! d) <-> is_Some (nodes !! d).
Proof. intros H. rewrite <- !(fmap_is_Some sequence_number). by rewrite H. Qed.

Lemma linked_some nodes a b : linked nodes a b -> is_Some (nodes !! a) ∧ is_Some (nodes !! b).
Proof. intros [H1 H2]. destruct (nodes !! a), (nodes !! b); done || (split; by eexists). Qed.

(** The neighbours of the head. *)
Lemma ring_ends l xs : snapshots l xs -> ∃ head, sn_nodes l !! O = Some head ∧ sn_next head = default O (hd_error xs.*1) ∧ sn_prev head = default O (list.last xs.*1).
Proof.
  intros [H _ _ _ _]. set (as_ := xs.*1) in *. clearbody as_.
  assert (sn_next <$> sn_nodes l !! O = Some (default O (hd_error as_))) as Hn by (destruct as_; apply H).
  assert (sn_prev <$> sn_nodes l !! O = Some (default O (list.last as_))) as Hp.
  { destruct as_ as [|x as_ _] using rev_ind; [apply H|]. rewrite last_snoc. rewrite <- app_assoc in H. change (path (sn_nodes l) ((O :: as_) ++ x :: [O])) in H. apply chain_app in H as [_ [[_ H] _]]. done. }
  destruct (sn_nodes l !! O) as [head|]; [|done]. exists head. injection Hn as ->. injection Hp as ->. done.
Qed.

Lemma SnapshotList_new_ok : snapshots SnapshotList_new [].
Proof.
  split; [by vm_compute|cbn; apply NoDup_singleton|set_solver| |constructor]. intros a [x Hx]. cbn in *. apply lookup_singleton_Some in Hx as [<- _]. lia.
Qed.

Lemma sn_empty_ok l xs : snapshots l xs -> sn_empty l = Some (bool_decide (xs = [])).
Proof.
  intros H. destruct (ring_ends l xs H) as (head & E & Hn & _). unfold sn_empty. rewrite E. cbn [mbind option_bind]. rewrite Hn. f_equal. destruct xs as [|[a s] xs]; [done|].
  rewrite bool_decide_eq_false_2 by done. pose proof (sp_nodup _ _ H) as Hd. cbn in *. apply list.NoDup_cons in Hd as [Hd _]. apply Nat.eqb_neq. set_solver.
Qed.

Lemma oldest_ok l a s xs : snapshots l ((a, s) :: xs) -> oldest l = Some a.
Proof.
  intros H. destruct (ring_ends _ _ H) as (head & E & Hn & _). unfold oldest. rewrite E. cbn [mbind option_bind]. rewrite Hn. pose proof (sp_nodup _ _ H) as Hd. cbn in *.
  apply list.NoDup_cons in Hd as [Hd _]. rewrite (proj2 (Nat.eqb_neq a 0)) by set_solver. done.
Qed.

Lemma sn_newest_ok l a s xs : snapshots l (xs ++ [(a, s)]) -> sn_newest l = Some a.
Proof.
  intros H. destruct (ring_ends _ _ H) as (head & E & Hn & Hp). unfold sn_newest. rewrite E. cbn [mbind option_bind]. rewrite Hn, Hp, fmap_app. cbn. rewrite last_snoc. cbn.
  destruct (_ =? 0)%nat eqn:E0; [|done]. apply Nat.eqb_eq in E0. pose proof (sp_nodup _ _ H) as Hd. rewrite fmap_app in Hd. cbn in Hd. apply list.NoDup_cons in Hd as [Hd _]. exfalso. apply Hd.
  destruct (xs.*1) as [|y ys]; cbn in *; subst; set_solver.
Qed.

Lemma last_split (x : nat) (L : list nat) : ∃ A, x :: L = A ++ [default x (list.last L)].
Proof. destruct L as [|y L _] using rev_ind; [by exists []|]. exists (x :: L). by rewrite last_snoc. Qed.

Lemma Snapshot_New_ok l xs seq : snapshots l xs -> (∀ s, list.last xs.*2 = Some s -> s <= seq) ->
  ∃ l', Snapshot_New seq l = Some (sn_fresh l, l') ∧ snapshots l' (xs ++ [(sn_fresh l, seq)]).
Proof.
  intros H Hseq. unfold Snapshot_New. rewrite (sn_empty_ok l xs H). cbn [mbind option_bind]. destruct (ring_ends _ _ H) as (head & E & _ & Hp). pose proof H as [P1 P2 P3 P4 P5].
  assert ((if bool_decide (xs = []) then Some tt else a ← sn_newest l; x ← sn_nodes l !! a; if sequence_number x <=? seq then Some tt else None) = Some tt) as ->.
  { destruct (bool_decide_reflect (xs = [])) as [|Hne]; [done|]. destruct xs as [|[a s] xs _] using rev_ind; [done|]. rewrite (sn_newest_ok l a s xs H). cbn [mbind option_bind].
    specialize (P3 a s ltac:(set_solver)). destruct (sn_nodes l !! a) as [x|]; [|done]. injection P3 as P3. cbn [mbind option_bind]. rewrite P3. rewrite fmap_app in Hseq. change ([(a, s)].*2) with [s] in Hseq. rewrite last_snoc in Hseq. specialize (Hseq s eq_refl).
    by rewrite (proj2 (Z.leb_le _ _) Hseq). }
  cbn [mbind option_bind]. rewrite E. cbn [mbind option_bind]. set (f := sn_fresh l) in *. rewrite Hp. set (p := default O (list.last xs.*1)).
  destruct (last_split O xs.*1) as [A EA]. fold p in EA. change (path (sn_nodes l) ((O :: xs.*1) ++ [O])) in P1. rewrite EA, <- app_assoc in P1. apply chain_app in P1 as [Q1 [Q2 _]].
  destruct (linked_some _ _ _ Q2) as [Hps _]. assert (∀ d, is_Some (sn_nodes l !! d) -> d ≠ f) as Hf by (intros d Hd ->; apply P4 in Hd; unfold f in Hd; lia).
  set (n0 := <[f := MkSnapshot p O seq]> (sn_nodes l)). assert (∀ d, d ≠ f -> n0 !! d = sn_nodes l !! d) as H0 by (intros d Hd; unfold n0; by rewrite lookup_insert_ne).
  assert (n0 !! f = Some (MkSnapshot p O seq)) as H0f by (apply lookup_insert_eq).
  destruct (set_sn_next_spec p f n0) as (n1 & -> & N1 & N2 & N3); [by rewrite H0 by (by apply Hf)|]. cbn [mbind option_bind].
  destruct (set_sn_prev_spec O f n1) as (n2 & -> & M1 & M2 & M3).
  { apply (same_sequences_some n0 n1 O N3). rewrite H0 by (apply Hf; by eexists). by eexists. }
  cbn [mbind option_bind]. eexists. split; [done|]. assert (p ≠ f ∧ O ≠ f) as [Hpf Hof] by (split; apply Hf; [done|by eexists]).
  assert (f ∉ O :: xs.*1) as Hfx.
  { rewrite EA. intros [Hi|Hi]%elem_of_app; [|set_solver]. apply list_elem_of_split in Hi as (B & C & EB). assert (∃ y, linked (sn_nodes l) f y) as (y & Hy%linked_some); [|by apply (Hf f); [apply Hy|]].
    rewrite EB, <- app_assoc in Q1. cbn [app] in Q1. apply chain_app in Q1 as [_ Q1]. destruct (C ++ [p]) as [|y C'] eqn:EC; [by destruct C|]. exists y. apply Q1. }
  split; cbn [sn_nodes sn_fresh].
  - rewrite fmap_app. change (path n2 ((O :: xs.*1 ++ [f]) ++ [O])). rewrite app_comm_cons, EA, <- !app_assoc. cbn [app]. apply chain_app. split; [|split; [|split; [|done]]].
    + apply (path_same (sn_nodes l)); [| |done].
      * intros d Hd. rewrite M2, N1. rewrite decide_False, H0; [done| |].
        -- intros ->. apply Hfx. rewrite EA. set_solver.
        -- intros ->. rewrite EA in P2. apply list.NoDup_app in P2 as (_ & P2 & _). apply (P2 p Hd). set_solver.
      * rewrite <- EA. cbn [tail]. intros d Hd. apply list.NoDup_cons in P2 as [P2 _]. rewrite M1, decide_False, N2, H0; [done| |].
        -- intros ->. apply Hfx. by right.
        -- by intros ->.
    + split; [rewrite M2, N1, decide_True by done; done|]. rewrite M1, decide_False, N2, H0f by done. done.
    + split; [rewrite M2, N1, decide_False, H0f by done; done|]. by rewrite M1, decide_True by done.
  - rewrite fmap_app, app_comm_cons. change ([(f, seq)].*1) with [f]. apply list.NoDup_app. split_and!; [done| |apply NoDup_singleton]. intros d Hd Hd'. apply list_elem_of_singleton in Hd' as ->. by apply Hfx.
  - intros a s [Ha|Ha]%elem_of_app.
    + rewrite M3, N3, H0; [by apply P3|]. intros ->. apply Hfx. right. apply list_elem_of_fmap. by exists (f, s).
    + apply list_elem_of_singleton in Ha. injection Ha as -> ->. by rewrite M3, N3, H0f.
  - intros d Hd. apply (same_sequences_some _ _ d M3), (same_sequences_some _ _ d N3) in Hd. destruct (decide (d = f)) as [->|]; [lia|]. rewrite H0 in Hd by done. apply P4 in Hd. unfold f. lia.
  - rewrite fmap_app. change ([(f, seq)].*2) with [seq]. apply StronglySorted_app. split_and!; [|done|repeat constructor]. intros x y Hx Hy. apply list_elem_of_singleton in Hy as ->.
    destruct (list.last xs.*2) as [s|] eqn:El; [|apply last_None in El; rewrite El in Hx; set_solver]. specialize (Hseq s eq_refl). enough (x <= s) by (cbn; lia).
    apply last_Some in El as [L EL]. rewrite EL in Hx, P5. apply StronglySorted_app in P5 as (P5 & _ & _). apply elem_of_app in Hx as [Hx|Hx]; [apply P5; set_solver|]. apply list_elem_of_singleton in Hx. lia.
Qed.

Lemma Snapshot_Delete_ok l xs1 a s xs2 : snapshots l (xs1 ++ (a, s) :: xs2) -> ∃ l', Snapshot_Delete a l = Some l' ∧ snapshots l' (xs1 ++ xs2).
Proof.
  intros [P1 P2 P3 P4 P5]. rewrite fmap_app in P1, P2. change (((a, s) :: xs2).*1) with (a :: xs2.*1) in P1, P2. set (l1 := xs1.*1) in *. set (l2 := xs2.*1) in *.
  assert (O :: (l1 ++ a :: l2) ++ [O] = (O :: l1) ++ a :: l2 ++ [O]) as EL by (by rewrite <- app_assoc). rewrite EL in P1.
  destruct (last_split O l1) as [A EA]. set (p := default O (list.last l1)) in *. destruct (l2 ++ [O]) as [|n B] eqn:EB; [by destruct l2|].
  rewrite EA in P1. rewrite <- app_assoc in P1. cbn [app] in P1. apply chain_app in P1 as [Q1 (Q2 & Q3 & Q4)]. rewrite app_comm_cons in P2. apply list.NoDup_app in P2 as (D1 & D2 & D3). apply list.NoDup_cons in D3 as [D3 D4].
  assert (p ∈ O :: l1) as Hp by (rewrite EA; set_solver). assert (n ∈ l2 ++ [O]) as Hn by (rewrite EB; left).
  assert (a ∉ O :: l1) as Ha1 by (intros H; apply (D2 a H); left). assert (a ≠ O) as Ha0 by (intros ->; apply Ha1; left).
  assert (p ≠ a ∧ n ≠ a) as [Hpa Hna] by (split; [by intros ->|intros ->; apply elem_of_app in Hn as [Hn|Hn]; [done|set_solver]]).
  unfold Snapshot_Delete. destruct (linked_some _ _ _ Q2) as [Hps [x Hx]]. destruct (linked_some _ _ _ Q3) as [_ Hns]. rewrite Hx. cbn [mbind option_bind].
  destruct Q2 as [_ Q2]. destruct Q3 as [Q3 _]. rewrite Hx in Q2, Q3. injection Q2 as Q2. injection Q3 as Q3. rewrite Q2, Q3.
  destruct (set_sn_next_spec p n (sn_nodes l) Hps) as (n1 & -> & N1 & N2 & N3). cbn [mbind option_bind].
  destruct (set_sn_prev_spec n p n1) as (n2 & -> & M1 & M2 & M3); [by apply (same_sequences_some _ _ n N3)|]. cbn [mbind option_bind]. eexists. split; [done|].
  assert (∀ d, d ≠ a -> delete a n2 !! d = n2 !! d) as Hdel by (intros d Hd; by rewrite lookup_delete_ne). split; cbn [sn_nodes sn_fresh].
  - rewrite fmap_app. fold l1 l2. rewrite <- app_assoc, app_comm_cons, EA, EB, <- app_assoc. cbn [app]. apply chain_app. split; [|split].
    + apply (path_same (sn_nodes l)); [| |done].
      * intros d Hd. rewrite Hdel, M2, N1, decide_False; [done| |].
        -- intros ->. rewrite EA in D1. apply list.NoDup_app in D1 as (_ & D1 & _). apply (D1 p Hd). set_solver.
        -- intros ->. apply Ha1. rewrite EA. set_solver.
      * rewrite <- EA. cbn [tail]. intros d Hd. rewrite Hdel, M1, decide_False, N2; [done| |].
        -- intros ->. apply elem_of_app in Hn as [Hn|Hn]; [apply (D2 n); [by right|by right]|]. apply list_elem_of_singleton in Hn. rewrite Hn in Hd. apply list.NoDup_cons in D1 as [D1 _]. exact (D1 Hd).
        -- intros ->. apply Ha1. by right.
    + split; [rewrite Hdel, M2, N1, decide_True by done; done|]. rewrite Hdel, M1, decide_True by done. done.
    + rewrite <- EB. apply (path_same (sn_nodes l)); [| |by rewrite EB].
      * intros d Hd. rewrite Hdel, M2, N1, decide_False; [done| |]; [intros ->; apply (D2 p Hp); by right|by intros ->].
      * rewrite EB. cbn [tail]. intros d Hd. rewrite Hdel, M1, decide_False, N2; [done| |].
        -- intros ->. assert (NoDup (n :: B)) as [D5 _]%list.NoDup_cons; [|done]. rewrite <- EB. apply list.NoDup_app. split_and!; [done| |apply NoDup_singleton].
           intros d Hd1 Hd2. apply list_elem_of_singleton in Hd2 as ->. apply (D2 O); [left|by right].
        -- intros ->. assert (a ∈ l2 ++ [O]) as [?|?]%elem_of_app by (rewrite EB; by right); [done|set_solver].
  - rewrite fmap_app. fold l1 l2. rewrite app_comm_cons. apply list.NoDup_app. split_and!; [done| |done]. intros d Hd Hd'. apply (D2 d Hd). by right.
  - intros b t Hb. assert (b ∈ l1 ++ l2) as Hbl by (unfold l1, l2; rewrite <- fmap_app; apply list_elem_of_fmap; by exists (b, t)).
    rewrite Hdel, M3, N3; [apply P3; apply elem_of_app in Hb as [?|?]; apply elem_of_app; [by left|right; by right]|].
    intros ->. apply elem_of_app in Hbl as [?|?]; [apply Ha1; by right|done].
  - intros d [y Hy]. apply lookup_delete_Some in Hy as [_ Hy]. apply P4. apply (same_sequences_some _ _ d N3), (same_sequences_some _ _ d M3). by eexists.
  - rewrite fmap_app in P5 |- *. apply StronglySorted_app in P5 as (S1 & S2 & S3). inversion S3 as [|? ? S4 S5]; subst. apply StronglySorted_app. split_and!; [|done|done].
    intros y z Hy Hz. apply S1; [done|by right].
Qed.

(** The lists that [GetSnapshot] and [ReleaseSnapshot] make, with the
    snapshots that are held. *)
Inductive held : SnapshotList -> list (nat * Z) -> Prop :=
  | held_none : held SnapshotList_new []
  | held_get l xs seq a l' : held l xs -> (∀ s, s ∈ xs.*2 -> s <= seq) -> Snapshot_New seq l = Some (a, l') -> held l' (xs ++ [(a, seq)])
  | held_release l xs1 a s xs2 l' : held l (xs1 ++ (a, s) :: xs2) -> Snapshot_Delete a l = Some l' -> held l' (xs1 ++ xs2).

Lemma snap_last_elem {A} (L : list A) x : list.last L = Some x -> x ∈ L.
Proof. intros [L' ->]%last_Some. set_solver. Qed.

Lemma held_snapshots l xs : held l xs -> snapshots l xs.
Proof.
  induction 1 as [|l xs seq a l' _ IH Hs E|l xs1 a s xs2 l' _ IH E]; [apply SnapshotList_new_ok| |].
  - destruct (Snapshot_New_ok l xs seq IH) as (l1 & E1 & H1); [intros s Hl; by apply Hs, snap_last_elem|]. rewrite E1 in E. injection E as <- <-. done.
  - destruct (Snapshot_Delete_ok l xs1 a s xs2 IH) as (l1 & E1 & H1). rewrite E1 in E. by injection E as <-.
Qed.

End Snapshots.

(** C16. After any sequence of [New] and [Delete], the sequence number from
    which a compaction keeps what is visible is not above any snapshot that is
    held nor above the last sequence, and is one of them; a new snapshot is at
    an address not in use, and every snapshot that is held can be released. *)
Theorem oldest_snapshot_least {W : Type} (db : DBImpl W) (xs : list (nat * Z)) (seq : Z) : held (snapshots_ db) xs -> (∀ s, s ∈ xs.*2 -> s <= seq) ->
  LastSequence db = seq ->
  (∃ s0, oldest_sequence db = Some s0 ∧ s0 <= seq ∧ (∀ s, s ∈ xs.*2 -> s0 <= s) ∧ (xs = [] -> s0 = seq) ∧ (xs ≠ [] -> s0 ∈ xs.*2)) ∧
  (∃ a l', Snapshot_New seq (snapshots_ db) = Some (a, l') ∧ a ∉ xs.*1 ∧ held l' (xs ++ [(a, seq)])) ∧
  (∀ xs1 a s xs2, xs = xs1 ++ (a, s) :: xs2 -> ∃ l', Snapshot_Delete a (snapshots_ db) = Some l' ∧ held l' (xs1 ++ xs2)).
Proof.
  intros Hh Hle Hlast. pose proof (held_snapshots _ _ Hh) as Hs. split_and!.
  - unfold oldest_sequence. rewrite (sn_empty_ok _ _ Hs). cbn [mbind option_bind]. destruct xs as [|[a s] xs]; [exists seq; rewrite Hlast; split_and!; [done|lia|set_solver|done|done]|].
    rewrite bool_decide_eq_false_2 by done. rewrite (oldest_ok _ a s xs Hs). cbn [mbind option_bind]. pose proof (sp_sequence _ _ Hs a s ltac:(left)) as Ha. destruct (sn_nodes (snapshots_ db) !! a) as [x|]; [|done].
    injection Ha as Ha. cbn [mbind option_bind]. exists (sequence_number x). rewrite Ha. split_and!; [done|apply Hle; left| |done|intros _; left]. pose proof (sp_sorted _ _ Hs) as S. cbn in S. inversion S as [|? ? _ S2]; subst.
    intros t [->|Ht]%elem_of_cons; [cbn; lia|]. rewrite list.Forall_forall in S2. by apply S2.
  - destruct (Snapshot_New_ok (snapshots_ db) xs seq Hs) as (l' & E & _); [intros s Hl; by apply Hle, snap_last_elem|]. exists (sn_fresh (snapshots_ db)), l'. split_and!; [done| |by apply (held_get (snapshots_ db))].
    intros (y & Ey & Hy)%list_elem_of_fmap. destruct y as [b t]. cbn in Ey. subst b. pose proof (sp_sequence _ _ Hs _ t Hy) as Hq. assert (is_Some (sn_nodes (snapshots_ db) !! sn_fresh (snapshots_ db))) as Hf%(sp_fresh _ _ Hs) by (destruct (_ !! _); [by eexists|done]). lia.
  - intros xs1 a s xs2 ->. destruct (Snapshot_Delete_ok _ _ _ _ _ Hs) as (l' & E & _). exists l'. split; [done|]. by apply (held_release (snapshots_ db) xs1 a s xs2).
Qed.

(** Snapshots at 3 and at 5 of a database that has come to 7. *)
Definition w_snapshots : SnapshotList := default SnapshotList_new ('(_, l) ← Snapshot_New 3 SnapshotList_new; '(_, l) ← Snapshot_New 5 l; Some l).

Lemma w_held : held w_snapshots [(1%nat, 3); (2%nat, 5)].
Proof.
  apply (held_get (default SnapshotList_new ('(_, l) ← Snapshot_New 3 SnapshotList_new; Some l)) [(1%nat, 3)] 5 2%nat); [|intros s Hs; cbn in Hs; apply list_elem_of_singleton in Hs; lia|by vm_compute].
  apply (held_get SnapshotList_new [] 3 1%nat); [constructor|intros s Hs; by apply not_elem_of_nil in Hs|by vm_compute].
Qed.

Lemma oldest_snapshot_least_witness : ∃ vs s0 l', VersionSet_new w_empty_disk = Some vs ∧
  let db := with_snapshots w_snapshots (with_versions (set_numbers (MkNumbers 2 0 7 0 0) vs) (w_database vs)) in
  oldest_sequence db = Some s0 ∧ s0 = 3 ∧ Snapshot_Delete 1 (snapshots_ db) = Some l' ∧ held l' [(2%nat, 5)].
Proof.
  destruct (VersionSet_new_ok BytewiseComparator (Forall is_u8) w_empty_disk) as (vs & E & _).
  destruct (oldest_snapshot_least (with_snapshots w_snapshots (with_versions (set_numbers (MkNumbers 2 0 7 0 0) vs) (w_database vs))) [(1%nat, 3); (2%nat, 5)] 7 w_held)
    as ((s0 & H1 & _ & H2 & _ & H3) & _ & H4).
  - intros s [->|Hs]%elem_of_cons; [cbn; lia|]. cbn in Hs. apply list_elem_of_singleton in Hs. lia.
  - reflexivity.
  - destruct (H4 [] 1%nat 3 [(2%nat, 5)] eq_refl) as (l' & H5 & H6). exists vs, s0, l'. cbv zeta. split_and!; [done|done| |done|done].
    assert (s0 <= 3) by (apply H2; left). specialize (H3 ltac:(done)). apply elem_of_cons in H3 as [->|H3]; [done|]. cbn in H3. apply list_elem_of_singleton in H3. lia.
Defined.
