(* ===== verification/LdbDBIter.v ===== *)
(** * leveldb: the iterator of a database (db_iter.h, db_iter.cc)

    [DBIter] turns an iterator over internal entries (user key, sequence
    number, type) into one over the user's entries at a sequence number: of
    every user key the newest entry that is not too new, unless it is a
    deletion.  [rounds] bounds the loops over the internal iterator, [W] is
    the database object that reads are reported to. *)

From S2P Require Import Prelude.
From S2P Require Import LdbSlice.
From S2P Require Import LdbFormat.
From S2P Require Import LdbIterator.
From S2P Require Import LdbSkipList.

(** [Random::Uniform], [Random::OneIn] and [Random::Skewed]. *)
Definition Random_Uniform (n rnd : Z) : Z * Z := let rnd := Random_Next rnd in (rnd mod n, rnd).

Definition Random_OneIn (n rnd : Z) : bool * Z := let rnd := Random_Next rnd in (rnd mod n =? 0, rnd).

Definition Random_Skewed (max_log rnd : Z) : Z * Z :=
  let '(base, rnd) := Random_Uniform (max_log + 1) rnd in Random_Uniform (Z.shiftl 1 base) rnd.

Inductive IterDirection := kIterForward | kIterReverse.

Section DBIter.

Context {I W : Type} `{!Iterator I} (user_comparator_ : Comparator) (RecordReadSample : Slice -> W -> W) (rounds : nat).

Record DBIter := MkDBIter {
  di_db : W;
  di_iter : I;
  di_sequence : Z;
  di_status_ : Status;
  di_saved_key : Slice;
  di_saved_value : Slice;
  di_direction : IterDirection;
  di_valid : bool;
  di_rnd : Z;
  bytes_until_read_sampling_ : Z;
}.

Definition di_set_iter (it : I) (d : DBIter) : DBIter :=
  MkDBIter (di_db d) it (di_sequence d) (di_status_ d) (di_saved_key d) (di_saved_value d) (di_direction d) (di_valid d)
    (di_rnd d) (bytes_until_read_sampling_ d).
Definition di_set_status (s : Status) (d : DBIter) : DBIter :=
  MkDBIter (di_db d) (di_iter d) (di_sequence d) s (di_saved_key d) (di_saved_value d) (di_direction d) (di_valid d)
    (di_rnd d) (bytes_until_read_sampling_ d).
Definition SaveKey (k : Slice) (d : DBIter) : DBIter :=
  MkDBIter (di_db d) (di_iter d) (di_sequence d) (di_status_ d) k (di_saved_value d) (di_direction d) (di_valid d)
    (di_rnd d) (bytes_until_read_sampling_ d).
Definition di_set_value (v : Slice) (d : DBIter) : DBIter :=
  MkDBIter (di_db d) (di_iter d) (di_sequence d) (di_status_ d) (di_saved_key d) v (di_direction d) (di_valid d)
    (di_rnd d) (bytes_until_read_sampling_ d).
Definition di_set_direction (dir : IterDirection) (d : DBIter) : DBIter :=
  MkDBIter (di_db d) (di_iter d) (di_sequence d) (di_status_ d) (di_saved_key d) (di_saved_value d) dir (di_valid d)
    (di_rnd d) (bytes_until_read_sampling_ d).
Definition di_set_valid (valid : bool) (d : DBIter) : DBIter :=
  MkDBIter (di_db d) (di_iter d) (di_sequence d) (di_status_ d) (di_saved_key d) (di_saved_value d) (di_direction d) valid
    (di_rnd d) (bytes_until_read_sampling_ d).
Definition di_set_sampling (db : W) (rnd bytes : Z) (d : DBIter) : DBIter :=
  MkDBIter db (di_iter d) (di_sequence d) (di_status_ d) (di_saved_key d) (di_saved_value d) (di_direction d) (di_valid d) rnd bytes.

(** Whether the capacity is given back is not visible. *)
Definition ClearSavedValue (d : DBIter) : DBIter := di_set_value [] d.

Definition RandomCompactionPeriod (rnd : Z) : Z * Z := Random_Uniform (2 * kReadBytesPeriod) rnd.

Definition NewDBIterator (db : W) (internal_iter : I) (sequence seed : Z) : DBIter :=
  let '(period, rnd) := RandomCompactionPeriod (Random_new seed) in
  MkDBIter db internal_iter sequence Status_OK [] [] kIterForward false rnd period.

Definition di_Valid (d : DBIter) : bool := di_valid d.

Definition di_key (d : DBIter) : Slice :=
  match di_direction d with kIterForward => ExtractUserKey (i_key (di_iter d)) | kIterReverse => di_saved_key d end.

Definition di_value (d : DBIter) : Slice :=
  match di_direction d with kIterForward => i_value (di_iter d) | kIterReverse => di_saved_value d end.

Definition di_status (d : DBIter) : Status := if ok (di_status_ d) then i_status (di_iter d) else di_status_ d.

(** [while (bytes_until_read_sampling_ < bytes_read)]: a period can be zero,
    but two in a row cannot, so the loop ends. *)
Fixpoint sample_loop (n : nat) (k : Slice) (bytes_read : Z) (d : DBIter) : option DBIter :=
  match n with
  | O => None
  | S n =>
      if bytes_until_read_sampling_ d <? bytes_read then
        let '(period, rnd) := RandomCompactionPeriod (di_rnd d) in
        sample_loop n k bytes_read
          (di_set_sampling (RecordReadSample k (di_db d)) rnd (u64 (bytes_until_read_sampling_ d + period)) d)
      else Some d
  end.

Definition ParseKey (d : DBIter) : option (option ParsedInternalKey * DBIter) :=
  let k := i_key (di_iter d) in
  let bytes_read := u64 (size k + size (i_value (di_iter d))) in
  d ← sample_loop (S (2 * Z.to_nat bytes_read)) k bytes_read d;
  let d := di_set_sampling (di_db d) (di_rnd d) (bytes_until_read_sampling_ d - bytes_read) d in
  match ParseInternalKey k with
  | None => Some (None, di_set_status (Status_Corruption "corrupted internal key in DBIter" []) d)
  | Some ikey => Some (Some ikey, d)
  end.

(** [ParseKey(&ikey) && ikey.sequence <= sequence_]. *)
Definition parse_visible (d : DBIter) : option (option ParsedInternalKey * DBIter) :=
  '(ikey, d) ← ParseKey d;
  Some (match ikey with Some ikey => if sequence ikey <=? di_sequence d then Some ikey else None | None => None end, d).

(** [skip] is always [&saved_key_]. *)
Fixpoint FindNextUserEntry (n : nat) (skipping : bool) (d : DBIter) : option DBIter :=
  match n with
  | O => None
  | S n =>
      let advance skipping d :=
        it ← i_Next (di_iter d);
        let d := di_set_iter it d in
        if i_Valid it then FindNextUserEntry n skipping d else Some (di_set_valid false (SaveKey [] d)) in
      '(ikey, d) ← parse_visible d;
      match ikey with
      | None => advance skipping d
      | Some ikey =>
          match type ikey with
          | kTypeDeletion => advance true (SaveKey (user_key ikey) d)
          | kTypeValue =>
              if skipping && (Compare user_comparator_ (user_key ikey) (di_saved_key d) <=? 0) then advance skipping d
              else Some (SaveKey [] (di_set_valid true d))
          end
      end
  end.

Definition di_Next (d : DBIter) : option DBIter :=
  match di_direction d with
  | kIterReverse =>
      let d := di_set_direction kIterForward d in
      it ← if negb (i_Valid (di_iter d)) then i_SeekToFirst (di_iter d) else i_Next (di_iter d);
      let d := di_set_iter it d in
      if negb (i_Valid it) then Some (SaveKey [] (di_set_valid false d)) else FindNextUserEntry rounds true d
  | kIterForward => FindNextUserEntry rounds true (SaveKey (ExtractUserKey (i_key (di_iter d))) d)
  end.

(** The loop of [FindPrevUserEntry]; it returns the last [value_type]. *)
Fixpoint find_prev_loop (n : nat) (value_type : ValueType) (d : DBIter) : option (ValueType * DBIter) :=
  match n with
  | O => None
  | S n =>
      let retreat value_type d :=
        it ← i_Prev (di_iter d);
        let d := di_set_iter it d in
        if i_Valid it then find_prev_loop n value_type d else Some (value_type, d) in
      '(ikey, d) ← parse_visible d;
      match ikey with
      | None => retreat value_type d
      | Some ikey =>
          if bool_decide (value_type ≠ kTypeDeletion) && (Compare user_comparator_ (user_key ikey) (di_saved_key d) <? 0)
          then Some (value_type, d)
          else
            match type ikey with
            | kTypeDeletion => retreat kTypeDeletion (ClearSavedValue (SaveKey [] d))
            | kTypeValue =>
                retreat kTypeValue (di_set_value (i_value (di_iter d)) (SaveKey (ExtractUserKey (i_key (di_iter d))) d))
            end
      end
  end.

Definition FindPrevUserEntry (d : DBIter) : option DBIter :=
  '(value_type, d) ← if i_Valid (di_iter d) then find_prev_loop rounds kTypeDeletion d else Some (kTypeDeletion, d);
  match value_type with
  | kTypeDeletion => Some (di_set_direction kIterForward (ClearSavedValue (SaveKey [] (di_set_valid false d))))
  | kTypeValue => Some (di_set_valid true d)
  end.

(** The scan of [Prev] to the entries before the current key; [false] when
    there are none. *)
Fixpoint leave_key_loop (n : nat) (d : DBIter) : option (bool * DBIter) :=
  match n with
  | O => None
  | S n =>
      it ← i_Prev (di_iter d);
      let d := di_set_iter it d in
      if negb (i_Valid it) then Some (false, ClearSavedValue (SaveKey [] (di_set_valid false d)))
      else if Compare user_comparator_ (ExtractUserKey (i_key it)) (di_saved_key d) <? 0 then Some (true, d)
      else leave_key_loop n d
  end.

Definition di_Prev (d : DBIter) : option DBIter :=
  match di_direction d with
  | kIterForward =>
      '(found, d) ← leave_key_loop rounds (SaveKey (ExtractUserKey (i_key (di_iter d))) d);
      if found : bool then FindPrevUserEntry (di_set_direction kIterReverse d) else Some d
  | kIterReverse => FindPrevUserEntry d
  end.

Definition di_Seek (target : Slice) (d : DBIter) : option DBIter :=
  let d := ClearSavedValue (di_set_direction kIterForward d) in
  let d := SaveKey (AppendInternalKey [] (PIK target (di_sequence d) kValueTypeForSeek)) d in
  it ← i_Seek (di_saved_key d) (di_iter d);
  let d := di_set_iter it d in
  if i_Valid it then FindNextUserEntry rounds false d else Some (di_set_valid false d).

Definition di_SeekToFirst (d : DBIter) : option DBIter :=
  let d := ClearSavedValue (di_set_direction kIterForward d) in
  it ← i_SeekToFirst (di_iter d);
  let d := di_set_iter it d in
  if i_Valid it then FindNextUserEntry rounds false d else Some (di_set_valid false d).

Definition di_SeekToLast (d : DBIter) : option DBIter :=
  let d := ClearSavedValue (di_set_direction kIterReverse d) in
  it ← i_SeekToLast (di_iter d);
  FindPrevUserEntry (di_set_iter it d).

Definition db_iterator : Iterator DBIter := {|
  i_Valid := di_Valid;
  i_key := di_key;
  i_value := di_value;
  i_status := di_status;
  i_SeekToFirst := di_SeekToFirst;
  i_SeekToLast := di_SeekToLast;
  i_Seek := di_Seek;
  i_Next := di_Next;
  i_Prev := di_Prev;
|}.

End DBIter.

Arguments DBIter : clear implicits.
