(* ===== verification/LdbDBIterThms.v ===== *)
(** * leveldb: [DBIter] is a cursor over the user's entries *)

From S2P Require Import Prelude.
From S2P Require Import LdbSlice.
From S2P Require Import LdbCoding.
From S2P Require Import LdbFormat.
From S2P Require Import LdbFormatThms.
From S2P Require Import LdbIterator.
From S2P Require Import LdbSkipList.
From S2P Require Import LdbMerger.
From S2P Require Import LdbDBIter.

(** ** The generator, and the loop that samples reads *)

Definition rnd_ok (seed : Z) : Prop := 0 < seed < 2147483647.

Lemma Random_new_ok s : rnd_ok (Random_new s).
Proof.
  unfold Random_new, rnd_ok. change 0x7fffffff with (Z.ones 31). rewrite (Z.land_ones s 31) by lia. change (Z.ones 31) with 2147483647. pose proof (Z.mod_pos_bound s (2 ^ 31)).
  destruct (Z.eqb_spec (s mod 2 ^ 31) 0), (Z.eqb_spec (s mod 2 ^ 31) 2147483647); simpl; lia.
Qed.

(** [Next] multiplies by 16807 modulo 2^31 - 1, and never returns zero. *)
Lemma Random_Next_spec seed : rnd_ok seed -> Random_Next seed = (seed * 16807) mod 2147483647 ∧ rnd_ok (Random_Next seed).
Proof.
  intros Hs. unfold rnd_ok in *. unfold Random_Next. rewrite u64_small by lia.
  set (p := seed * 16807) in *. replace (Z.land p 2147483647) with (p mod 2 ^ 31) by (symmetry; apply (Z.land_ones p 31); lia).
  rewrite Z.shiftr_div_pow2 by lia. pose proof (Z.div_mod p (2 ^ 31) ltac:(lia)) as Hp. pose proof (Z.mod_pos_bound p (2 ^ 31) ltac:(lia)).
  assert (0 <= p / 2 ^ 31 < 16807) by (split; [apply Z.div_pos; lia|apply Z.div_lt_upper_bound; lia]).
  rewrite u32_small by lia.
  assert (∀ x, 0 <= x <= 2147483647 -> p = x + 2147483647 * (p / 2 ^ 31) ∨ p = x + 2147483647 * (p / 2 ^ 31 + 1) ->
    x = p mod 2147483647 ∧ 0 < x < 2147483647) as Hend.
  { intros x Hx Hpx. assert (p mod 2147483647 ≠ 0) as Hn.
    { intros Hz%Z.mod_divide; [|lia]. unfold p in Hz. rewrite Z.mul_comm in Hz. apply Z.gauss in Hz; [|done].
      apply Z.divide_pos_le in Hz; lia. }
    assert (p mod 2147483647 = x mod 2147483647) as E.
    { destruct Hpx as [->| ->]; rewrite (Z.mul_comm 2147483647), Z_mod_plus_full; done. }
    destruct (decide (x = 2147483647)) as [->|]; [rewrite Z_mod_same_full in E; lia|]. rewrite (Z.mod_small x) in E by lia. lia. }
  destruct (Z.ltb_spec 2147483647 (p / 2 ^ 31 + p mod 2 ^ 31)); [rewrite u32_small by lia|]; apply Hend; lia.
Qed.

Lemma Random_Next_ok seed : rnd_ok seed -> rnd_ok (Random_Next seed).
Proof. intros H. by apply Random_Next_spec. Qed.

(** A period of zero is followed by one that is not. *)
Lemma no_two_zero_periods seed : rnd_ok seed -> (RandomCompactionPeriod seed).1 = 0 ->
  (RandomCompactionPeriod (Random_Next seed)).1 ≠ 0.
Proof.
  intros Hs. unfold RandomCompactionPeriod, Random_Uniform, kReadBytesPeriod. cbn [fst].
  pose proof (Random_Next_ok seed Hs) as Hr. generalize dependent (Random_Next seed). intros r Hr Hz. unfold rnd_ok in Hr.
  assert (∃ k, r = k * 2097152 ∧ 1 <= k < 1024) as (k & -> & Hk).
  { exists (r / 2097152). change (2 * 1048576) with 2097152 in Hz. dlia. }
  assert (forallb (fun k => negb (Random_Next (k * 2097152) mod (2 * 1048576) =? 0)) (Z.of_nat <$> seq 1 1023) = true) as Hall by by vm_compute.
  rewrite forallb_forall in Hall. specialize (Hall k). rewrite negb_true_iff, Z.eqb_neq in Hall. apply Hall.
  apply list_elem_of_In, list_elem_of_fmap. exists (Z.to_nat k). rewrite elem_of_seq. lia.
Qed.

Section Sampling.

Context {I W : Type} `{!Iterator I} (RecordReadSample : Slice -> W -> W).

Definition sampling_ok (d : DBIter I W) : Prop := rnd_ok (di_rnd d) ∧ 0 <= bytes_until_read_sampling_ d < 2 ^ 64.

(** Nothing else changes. *)
Definition sampled (d d' : DBIter I W) : Prop :=
  sampling_ok d' ∧ ∃ db rnd bytes, d' = di_set_sampling db rnd bytes d.

Lemma sample_loop_ends n k bytes_read d : sampling_ok d -> 0 <= bytes_read < 2 ^ 63 ->
  (2 * Z.to_nat (bytes_read - bytes_until_read_sampling_ d) < n)%nat ->
  ∃ d', sample_loop RecordReadSample n k bytes_read d = Some d' ∧ sampled d d' ∧ bytes_read <= bytes_until_read_sampling_ d'.
Proof.
  intros Hd Hb. remember (Z.to_nat (bytes_read - bytes_until_read_sampling_ d)) as m eqn:Hm.
  revert n d Hd Hm. induction m as [m IH] using lt_wf_ind. intros n d [Hr Hbs] Hm Hn.
  destruct n as [|n]; [lia|]. cbn [sample_loop].
  destruct (Z.ltb_spec (bytes_until_read_sampling_ d) bytes_read) as [Hlt|Hge]; cycle 1.
  { exists d. split_and!; [done| |done]. split; [done|]. exists (di_db d), (di_rnd d), (bytes_until_read_sampling_ d). by destruct d. }
  assert (∀ d1 n1, sampling_ok d1 -> (∃ db rnd bytes, d1 = di_set_sampling db rnd bytes d) ->
    bytes_until_read_sampling_ d < bytes_until_read_sampling_ d1 -> (2 * m - 2 < n1)%nat ->
    ∃ d', sample_loop RecordReadSample n1 k bytes_read d1 = Some d' ∧ sampled d d' ∧ bytes_read <= bytes_until_read_sampling_ d') as Hgo.
  { intros d1 n1 Hd1 (db & rnd & b & Ed1) Hlt1 Hn1.
    destruct (IH (Z.to_nat (bytes_read - bytes_until_read_sampling_ d1)) ltac:(lia) n1 d1 Hd1 eq_refl ltac:(lia))
      as (d' & E & [Hd' (db' & rnd' & b' & Ed')] & Hge). exists d'. split_and!; [done| |done]. split; [done|].
    exists db', rnd', b'. by rewrite Ed', Ed1. }
  destruct (RandomCompactionPeriod (di_rnd d)) as [p rnd1] eqn:Ep.
  unfold RandomCompactionPeriod, Random_Uniform in Ep. injection Ep as Ep <-. pose proof (Random_Next_ok _ Hr) as Hr1.
  assert (0 <= p < 2097152) as Hp by (rewrite <- Ep; apply Z.mod_pos_bound; done).
  rewrite u64_small by lia. destruct (decide (p = 0)) as [->|Hp0].
  - destruct n as [|n]; [lia|]. cbn [sample_loop di_set_sampling bytes_until_read_sampling_ di_rnd]. rewrite Z.add_0_r.
    rewrite (proj2 (Z.ltb_lt _ _) Hlt). pose proof (no_two_zero_periods _ Hr Ep) as Hnz.
    destruct (RandomCompactionPeriod (Random_Next (di_rnd d))) as [p2 rnd2] eqn:Ep2.
    unfold RandomCompactionPeriod, Random_Uniform in Ep2. injection Ep2 as Ep2 <-.
    assert (0 <= p2 < 2097152) as Hp2 by (rewrite <- Ep2; apply Z.mod_pos_bound; done). simpl in Hnz. rewrite u64_small by lia.
    apply Hgo; [|by repeat eexists|simpl; lia|lia]. split; [by apply Random_Next_ok|simpl; lia].
  - apply Hgo; [|by repeat eexists|simpl; lia|lia]. split; [done|simpl; lia].
Qed.

Lemma ParseKey_ends d : sampling_ok d -> size (i_key (di_iter d)) + size (i_value (di_iter d)) < 2 ^ 63 ->
  ∃ d', sampled d d' ∧
    ParseKey RecordReadSample d = match ParseInternalKey (i_key (di_iter d)) with
      | None => Some (None, di_set_status (Status_Corruption "corrupted internal key in DBIter" []) d')
      | Some ikey => Some (Some ikey, d')
      end.
Proof.
  intros Hd Hs. unfold ParseKey. set (k := i_key (di_iter d)) in *. set (v := i_value (di_iter d)) in *.
  pose proof (size_nonneg k). pose proof (size_nonneg v). rewrite u64_small by lia.
  destruct (sample_loop_ends (S (2 * Z.to_nat (size k + size v))) k (size k + size v) d Hd) as (d' & -> & [Hd' (db & rnd & b & E)] & Hge);
    [lia|destruct Hd; lia|].
  cbn [mbind option_bind]. exists (di_set_sampling (di_db d') (di_rnd d') (bytes_until_read_sampling_ d' - (size k + size v)) d').
  split; [|done]. destruct Hd' as [Hr' Hb']. split; [split; [done|simpl; lia]|]. subst d'. by repeat eexists.
Qed.

End Sampling.

(** ** What the user sees

    An internal entry at sequence number [s]: too new, or a user key with a
    value or a deletion. *)

Definition classify (s : Z) (kv : Slice * Slice) : option (Slice * option Slice) :=
  match ParseInternalKey kv.1 with
  | Some k => if sequence k <=? s then Some (user_key k, match type k with kTypeValue => Some kv.2 | kTypeDeletion => None end) else None
  | None => None
  end.

Section Spec.

Context (ucmp : Comparator).

Definition hidden (last : option Slice) (u : Slice) : bool :=
  match last with Some u' => Compare ucmp u' u =? 0 | None => false end.

Definition contribution (last : option Slice) (e : option (Slice * option Slice)) : list (Slice * Slice) :=
  match e with Some (u, Some v) => if hidden last u then [] else [(u, v)] | _ => [] end.

Definition next_last (last : option Slice) (e : option (Slice * option Slice)) : option Slice :=
  match e with Some (u, _) => Some u | None => last end.

(** The first entry of every user key decides; [last] is the latest key. *)
Fixpoint shown (last : option Slice) (es : list (option (Slice * option Slice))) : list (Slice * Slice) :=
  match es with
  | [] => []
  | e :: es => contribution last e ++ shown (next_last last e) es
  end.

(** The entries of a user at sequence number [s]. *)
Definition user_entries (s : Z) (kvs : list (Slice * Slice)) : list (Slice * Slice) := shown None (classify s <$> kvs).

Lemma shown_app last a b : shown last (a ++ b) = shown last a ++ shown (foldl next_last last a) b.
Proof. revert last; induction a as [|e a IH]; intros last; [done|]. simpl. by rewrite IH, app_assoc. Qed.

(** Nothing shown after an unknown key, nothing shown after a known one. *)
Lemma shown_none_some u es : shown None es = [] -> shown (Some u) es = [].
Proof.
  induction es as [|[[x [v|]]|] es IH]; simpl; [done|done| |done]. done.
Qed.

Context (es : list (option (Slice * option Slice))) (okp : Slice -> Prop) `{!TotalCmp (Compare ucmp) okp}.
Context (Hok : ∀ i u w, es !! i = Some (Some (u, w)) -> okp u).
Context (Hle : ∀ i j u w u' w', (i <= j)%nat -> es !! i = Some (Some (u, w)) -> es !! j = Some (Some (u', w')) -> Compare ucmp u u' <= 0).

Definition out (p : nat) : list (Slice * Slice) := shown None (take p es).
Definition st (p : nat) : option Slice := foldl next_last None (take p es).

Lemma out_S p e : es !! p = Some e -> out (S p) = out p ++ contribution (st p) e.
Proof. intros Hp. unfold out, st. rewrite (take_S_r _ _ e Hp), shown_app. simpl. by rewrite app_nil_r. Qed.

Lemma st_S p e : es !! p = Some e -> st (S p) = next_last (st p) e.
Proof. intros Hp. unfold st. by rewrite (take_S_r _ _ e Hp), foldl_app. Qed.

Lemma out_rest p : shown None es = out p ++ shown (st p) (drop p es).
Proof. unfold out, st. by rewrite <- shown_app, take_drop. Qed.

(** The last key is one seen before. *)
Lemma st_seen p u : st p = Some u -> ∃ j w, (j < p)%nat ∧ es !! j = Some (Some (u, w)).
Proof.
  induction p as [|p IH]; [done|]. destruct (es !! p) as [e|] eqn:Ep.
  - rewrite (st_S p e Ep). destruct e as [[x w]|]; simpl.
    + intros [= <-]. exists p, w. by split; [lia|].
    + intros (j & w & ? & ?)%IH. exists j, w. by split; [lia|].
  - intros H. apply lookup_ge_None in Ep. unfold st in *. rewrite take_ge in H by lia. rewrite take_ge in IH by lia.
    destruct (IH H) as (j & w & ? & ?). exists j, w. by split; [lia|].
Qed.

Definition shows (p : nat) (u v : Slice) : Prop := es !! p = Some (Some (u, Some v)) ∧ hidden (st p) u = false.

Lemma shows_lookup p u v : shows p u v -> shown None es !! length (out p) = Some (u, v).
Proof.
  intros [Hp Hh]. rewrite (out_rest p), lookup_app_r, Nat.sub_diag by lia. rewrite (drop_S _ _ _ Hp). simpl. by rewrite Hh.
Qed.

Lemma shows_S p u v : shows p u v -> length (out (S p)) = S (length (out p)) ∧ st (S p) = Some u.
Proof. intros [Hp Hh]. rewrite (out_S p _ Hp), (st_S p _ Hp). simpl. rewrite Hh, length_app. simpl. by split; [lia|]. Qed.

Lemma out_invisible q p : (q <= p)%nat -> (∀ j, (q <= j < p)%nat -> es !! j = Some None) -> out p = out q ∧ st p = st q.
Proof.
  intros Hqp Hinv. induction Hqp as [|p Hqp IH]; [done|]. destruct IH as [IH1 IH2]; [intros j Hj; apply Hinv; lia|].
  assert (es !! p = Some None) as Hp by (apply Hinv; lia). rewrite (out_S p _ Hp), (st_S p _ Hp). simpl. by rewrite app_nil_r.
Qed.

(** Every entry shown has its place. *)
Lemma shown_place n i x : out n !! i = Some x -> ∃ p, (p < n)%nat ∧ shows p x.1 x.2 ∧ i = length (out p).
Proof.
  induction n as [|n IH]; [done|]. intros Hi. destruct (es !! n) as [e|] eqn:En; cycle 1.
  { apply lookup_ge_None in En. unfold out in Hi, IH. rewrite take_ge in Hi by lia. rewrite take_ge in IH by lia.
    destruct (IH Hi) as (p & ? & ?). exists p. by split; [lia|]. }
  rewrite (out_S n e En) in Hi. apply lookup_app_Some in Hi as [Hi|[Hge Hi]].
  - destruct (IH Hi) as (p & ? & ?). exists p. by split; [lia|].
  - exists n. split; [lia|]. destruct e as [[u [v|]]|]; simpl in Hi; try done. destruct (hidden (st n) u) eqn:Eh; [done|].
    apply list_lookup_singleton_Some in Hi as [Hz <-]. split; [by split|]. lia.
Qed.

Lemma out_prefix p q : (p <= q)%nat -> (length (out p) <= length (out q))%nat.
Proof.
  intros Hpq. unfold out. replace q with (p + (q - p))%nat by lia. rewrite <- take_take_drop, shown_app, length_app. lia.
Qed.

(** The last key seen is the largest so far. *)
Lemma st_latest p j u w : (j < p)%nat -> es !! j = Some (Some (u, w)) -> ∃ u0, st p = Some u0 ∧ Compare ucmp u u0 <= 0.
Proof using Hle Hok TotalCmp0.
  intros Hj Hu. induction Hj as [|p Hj IH].
  - rewrite (st_S j _ Hu). exists u. split; [done|]. by rewrite (cmp_refl (Compare ucmp) okp u (Hok _ _ _ Hu)).
  - destruct IH as (u0 & Hst & Hle0). destruct (es !! p) as [[[x w']|]|] eqn:Ep.
    + rewrite (st_S p _ Ep). exists x. split; [done|]. apply (Hle j p u w x w'); [lia|done|done].
    + rewrite (st_S p _ Ep). by exists u0.
    + exists u0. split; [|done]. apply lookup_ge_None in Ep. unfold st in *. rewrite take_ge in * by lia. done.
Qed.

Lemma shows_lt p u v j u' w' : shows p u v -> (j < p)%nat -> es !! j = Some (Some (u', w')) -> Compare ucmp u' u < 0.
Proof using Hle Hok TotalCmp0.
  intros [Hp Hh] Hj Hu'. destruct (st_latest p j u' w' Hj Hu') as (u0 & Hst & Hle0). rewrite Hst in Hh. simpl in Hh. bool_to_prop.
  destruct (st_seen p u0 Hst) as (i & w0 & Hi & H0). pose proof (Hle i p u0 w0 u _ ltac:(lia) H0 Hp).
  apply (cmp_le_lt (Compare ucmp) okp u' u0 u (Hok _ _ _ Hu') (Hok _ _ _ H0) (Hok _ _ _ Hp)); [done|lia].
Qed.

Lemma shown_sorted : keys_sorted ucmp (shown None es).
Proof using Hle Hok TotalCmp0.
  assert (∀ i x, shown None es !! i = Some x -> ∃ p, shows p x.1 x.2 ∧ i = length (out p)) as Hpl.
  { intros i x Hi. rewrite (out_rest (length es)), drop_all, app_nil_r in Hi. destruct (shown_place _ _ _ Hi) as (p & _ & ?). by exists p. }
  intros i j a b Hij Ha Hb. destruct (Hpl i a Ha) as (p & Hp & ->), (Hpl j b Hb) as (q & Hq & ->).
  apply (shows_lt q b.1 b.2 p a.1 (Some a.2) Hq); [|by destruct Hp]. apply Nat.nle_gt. intros Hle'%out_prefix. lia.
Qed.

(** *** Forwards: what the code skips is what is hidden *)

Definition skip_ok (p : nat) (skipping : bool) (skip : Slice) : Prop :=
  ∀ j u w, (p <= j)%nat -> es !! j = Some (Some (u, w)) -> skipping && (Compare ucmp u skip <=? 0) = hidden (st p) u.

(** After an entry of user key [u], skipping [u] is right. *)
Lemma skip_ok_after p u w : es !! p = Some (Some (u, w)) -> skip_ok (S p) true u.
Proof using Hle Hok TotalCmp0.
  intros Hp j u' w' Hj Hu'. rewrite (st_S p _ Hp). simpl. pose proof (Hle p j u w u' w' ltac:(lia) Hp Hu').
  pose proof (cmp_flip_le (Compare ucmp) okp u u' (Hok _ _ _ Hp) (Hok _ _ _ Hu')).
  pose proof (cmp_flip_le (Compare ucmp) okp u' u (Hok _ _ _ Hu') (Hok _ _ _ Hp)).
  destruct (Z.leb_spec (Compare ucmp u' u) 0), (Z.eqb_spec (Compare ucmp u u') 0); try done; lia.
Qed.

Lemma skip_ok_invisible p skipping skip : es !! p = Some None -> skip_ok p skipping skip -> skip_ok (S p) skipping skip.
Proof. intros Hp Hs j u w Hj Hu. rewrite (st_S p _ Hp). simpl. apply (Hs j u w); [lia|done]. Qed.

Lemma skip_ok_hidden p skipping skip u w : es !! p = Some (Some (u, w)) -> hidden (st p) u = true ->
  skip_ok p skipping skip -> skip_ok (S p) skipping skip.
Proof using Hok TotalCmp0.
  intros Hp Hh Hs j u' w' Hj Hu'. rewrite (st_S p _ Hp). simpl. rewrite (Hs j u' w' ltac:(lia) Hu'). unfold hidden in *.
  destruct (st p) as [u0|] eqn:E0; [|done]. bool_to_prop. destruct (st_seen p u0 E0) as (j0 & w0 & _ & H0).
  pose proof (cmp_eq_l (Compare ucmp) okp u0 u u' (Hok _ _ _ H0) (Hok _ _ _ Hp) (Hok _ _ _ Hu') Hh) as Hsgn.
  destruct (Z.eqb_spec (Compare ucmp u0 u') 0) as [E|E], (Z.eqb_spec (Compare ucmp u u') 0) as [E'|E']; done || lia.
Qed.

(** Skipping nothing is right when every later key is larger. *)
Lemma skip_ok_fresh p skip : (∀ i u w j u' w', (i < p <= j)%nat -> es !! i = Some (Some (u, w)) ->
    es !! j = Some (Some (u', w')) -> Compare ucmp u u' < 0) -> skip_ok p false skip.
Proof.
  intros Hlt j u w Hj Hu. simpl. unfold hidden. destruct (st p) as [u0|] eqn:E0; [|done].
  destruct (st_seen p u0 E0) as (i & w0 & Hi & H0). pose proof (Hlt i u0 w0 j u w ltac:(lia) H0 Hu).
  symmetry. apply Z.eqb_neq. lia.
Qed.

End Spec.

(** ** The cursor *)

Section Cursor.

Context {I W : Type} `{!Iterator I} (ucmp : Comparator) (okp : Slice -> Prop) `{!ComparatorLaws ucmp okp}.
Context (Hbytes : ∀ k, okp k -> Forall is_u8 k).
Context (kvs : list (Slice * Slice)) (iat : I -> nat -> Prop).
Context `{!Cursor (InternalKeyComparator ucmp) (ikey_ok okp) kvs iat}.
Context (Hsort : keys_sorted (InternalKeyComparator ucmp) kvs).
Context (Hkeys : Forall (fun kv => ikey_ok okp kv.1 ∧ is_Some (ParseInternalKey kv.1) ∧ size kv.1 + size kv.2 < 2 ^ 63) kvs).
Context (s : Z) (Hs : 0 <= s <= kMaxSequenceNumber).
Context (RecordReadSample : Slice -> W -> W).

Let es := classify s <$> kvs.
Let vis := user_entries ucmp s kvs.

Lemma entry_key i u w : es !! i = Some (Some (u, w)) -> ∃ kv k, kvs !! i = Some kv ∧ ParseInternalKey kv.1 = Some k ∧
  user_key k = u ∧ u = ExtractUserKey kv.1 ∧ sequence k <= s ∧ (w = match type k with kTypeValue => Some kv.2 | kTypeDeletion => None end) ∧ okp u.
Proof using Hkeys.
  unfold es. rewrite list_lookup_fmap. destruct (kvs !! i) as [kv|] eqn:E; [|done]. simpl. intros [= H].
  pose proof (Forall_lookup_1 _ _ _ _ Hkeys E) as ((_ & _ & Hk) & [k Hp] & _). unfold classify in H. rewrite Hp in H.
  destruct (Z.leb_spec (sequence k) s); [|done]. injection H as <- <-. exists kv, k.
  pose proof (ParseInternalKey_user _ _ Hp) as Eu.
  split_and!; try done. by rewrite Eu.
Qed.

Lemma ikeys_ok : Forall (fun kv => ikey_ok okp kv.1) kvs.
Proof using Hkeys. eapply Forall_impl; [|exact Hkeys]. by intros ? []. Qed.

Lemma es_ok i u w : es !! i = Some (Some (u, w)) -> okp u.
Proof using Hkeys. intros (kv & k & _ & _ & _ & _ & _ & _ & H)%entry_key. done. Qed.

Lemma es_le i j u w u' w' : (i <= j)%nat -> es !! i = Some (Some (u, w)) -> es !! j = Some (Some (u', w')) -> Compare ucmp u u' <= 0.
Proof using ComparatorLaws0 Hkeys Hsort.
  intros Hij H1 H2. destruct (entry_key i u w H1) as (kv & _ & K1 & _ & _ & E1 & _ & _ & O1).
  destruct (entry_key j u' w' H2) as (kv' & _ & K2 & _ & _ & E2 & _ & _ & O2).
  destruct (decide (i = j)) as [->|]; [simplify_eq; by rewrite (cmp_refl (Compare ucmp) okp)|].
  pose proof (Hsort i j kv kv' ltac:(lia) K1 K2) as Hc. simpl in Hc. rewrite E1, E2. apply Z.lt_le_incl in Hc.
  apply InternalCompare_le in Hc. lia.
Qed.

(** What every reachable state has in common. *)
Definition base (d : DBIter I W) : Prop := sampling_ok d ∧ di_status_ d = Status_OK ∧ di_sequence d = s.

Definition di_at (d : DBIter I W) (i : nat) : Prop :=
  base d ∧ ∃ p, iat (di_iter d) p ∧
  ((di_valid d = false ∧ i = length vis) ∨
   (di_valid d = true ∧ ∃ pu u v, shows ucmp es pu u v ∧ i = length (out ucmp es pu) ∧
      match di_direction d with
      | kIterForward => p = pu
      | kIterReverse => di_saved_key d = u ∧ di_saved_value d = v ∧ ∃ q, (q <= pu)%nat ∧ (∀ j, (q <= j < pu)%nat -> es !! j = Some None) ∧
          p = match q with O => length kvs | S q => q end
      end)).

(** [parse_visible] reads the entry under the internal iterator. *)
Lemma parse_visible_spec d p kv : base d -> iat (di_iter d) p -> kvs !! p = Some kv ->
  ∃ d' k, base d' ∧ (∃ db rnd b, d' = di_set_sampling db rnd b d) ∧ parse_visible RecordReadSample d = Some (k, d') ∧
    match k with
    | None => es !! p = Some None
    | Some k => es !! p = Some (Some (user_key k, match type k with kTypeValue => Some kv.2 | kTypeDeletion => None end)) ∧
        user_key k = ExtractUserKey kv.1
    end.
Proof using Cursor0 Hkeys.
  intros (Hd & Hst & Hseq) Hp Hkv. pose proof (Forall_lookup_1 _ _ _ _ Hkeys Hkv) as (_ & [k Hk] & Hsz).
  destruct (cur_entry _ _ _ _ (di_iter d) p kv.1 kv.2 Hp) as (_ & Ek & Ev); [by destruct kv|].
  destruct (ParseKey_ends RecordReadSample d Hd) as (d' & [Hd' (db & rnd & b & E)] & HP); [by rewrite Ek, Ev|].
  rewrite Ek, Hk in HP. unfold parse_visible. rewrite HP. cbn [mbind option_bind].
  pose proof (ParseInternalKey_user _ _ Hk) as Eu.
  exists d'. eexists. assert (di_sequence d' = s) as -> by by rewrite E. split_and!; [|by exists db, rnd, b|done|].
  - split_and!; [done|by rewrite E|by rewrite E].
  - unfold es. rewrite list_lookup_fmap, Hkv. simpl. unfold classify. rewrite Hk. by destruct (sequence k <=? s).
Qed.

Lemma length_es : length es = length kvs.
Proof. unfold es. by rewrite length_fmap. Qed.

Lemma out_end : out ucmp es (length kvs) = vis.
Proof. unfold out. rewrite take_ge; [done|]. by rewrite length_es. Qed.

(** Stepping the internal iterator. *)
Lemma advance_spec d p (f : DBIter I W -> option (DBIter I W)) i : base d -> iat (di_iter d) p -> (p < length kvs)%nat ->
  (∀ it, iat it (S p) -> (S p < length kvs)%nat -> ∃ d', f (di_set_iter it d) = Some d' ∧ di_at d' i) ->
  (S p = length kvs -> i = length vis) ->
  ∃ d', (it ← i_Next (di_iter d);
         let d := di_set_iter it d in
         if i_Valid it then f d else Some (di_set_valid false (SaveKey [] d))) = Some d' ∧ di_at d' i.
Proof using Cursor0.
  intros Hb Hp Hlt Hf Hend. destruct (cur_next (di_iter d) p Hp Hlt) as (it & -> & Hit). cbn [mbind option_bind].
  rewrite (cur_valid _ _ kvs _ it _ Hit). case_bool_decide as Hv; [by apply Hf|].
  eexists. split; [done|]. split; [done|]. exists (S p). split; [done|]. left. split; [done|]. apply Hend. lia.
Qed.

(** [FindNextUserEntry] stops on the first entry shown from here on. *)
Lemma FindNext_at n : ∀ p d skipping, (p < length kvs)%nat -> (length kvs - p <= n)%nat -> base d -> iat (di_iter d) p ->
  di_direction d = kIterForward -> skip_ok ucmp es p skipping (di_saved_key d) ->
  ∃ d', FindNextUserEntry ucmp RecordReadSample n skipping d = Some d' ∧ di_at d' (length (out ucmp es p)).
Proof using ComparatorLaws0 Cursor0 Hkeys Hsort.
  induction n as [|n IH]; intros p d skipping Hlt Hn Hb Hp Hdir Hskip; [lia|]. cbn [FindNextUserEntry].
  destruct (lookup_lt_is_Some_2 kvs p Hlt) as [kv Hkv].
  destruct (parse_visible_spec d p kv Hb Hp Hkv) as (d1 & k & Hb1 & (db & rnd & b & E1) & -> & Hk). cbn [mbind option_bind].
  assert (iat (di_iter d1) p) as Hp1 by by rewrite E1. assert (di_direction d1 = kIterForward) as Hdir1 by by rewrite E1.
  assert (di_saved_key d1 = di_saved_key d) as Hsk by by rewrite E1.
  assert (∀ e d2 skipping', es !! p = Some e -> contribution ucmp (st es p) e = [] -> base d2 -> iat (di_iter d2) p ->
    di_direction d2 = kIterForward -> skip_ok ucmp es (S p) skipping' (di_saved_key d2) ->
    ∃ d', (it ← i_Next (di_iter d2);
           let d := di_set_iter it d2 in
           if i_Valid it then FindNextUserEntry ucmp RecordReadSample n skipping' d else Some (di_set_valid false (SaveKey [] d))) = Some d' ∧
      di_at d' (length (out ucmp es p))) as Hadv.
  { intros e d2 skipping' He Hc Hb2 Hp2 Hdir2 Hs2. assert (out ucmp es p = out ucmp es (S p)) as Ho by by rewrite (out_S _ _ p e He), Hc, app_nil_r.
    rewrite Ho. apply (advance_spec d2 p (FindNextUserEntry ucmp RecordReadSample n skipping')); [done|done|done| |].
    - intros it Hit Hl. apply IH; [done|lia|done|done|done|done].
    - intros Hl. by rewrite Hl, out_end. }
  destruct k as [k|].
  - destruct Hk as [He Eu]. destruct (type k) eqn:Et.
    + apply (Hadv (Some (user_key k, None))); [done|done|done|done|done|]. by apply (skip_ok_after ucmp es okp es_ok es_le p _ None).
    + rewrite Hsk, (Hskip p _ _ ltac:(lia) He). destruct (hidden ucmp (st es p) (user_key k)) eqn:Eh.
      * apply (Hadv (Some (user_key k, Some kv.2))); [done|by simpl; rewrite Eh|done|done|done|].
        rewrite Hsk. by apply (skip_ok_hidden ucmp es okp es_ok p _ _ (user_key k) (Some kv.2)).
      * eexists. split; [done|]. split; [done|]. exists p. split; [done|]. right. split; [done|]. exists p, (user_key k), kv.2.
        split_and!; [done|done|]. cbn. by rewrite Hdir1.
  - apply (Hadv None); [done|done|done|done|done|]. rewrite Hsk. by apply skip_ok_invisible.
Qed.

(** *** [Next] *)

(** From before the entries of the current key: they are all skipped. *)
Lemma FindNext_past n : ∀ q d pu u v, (q <= pu)%nat -> (length kvs - q <= n)%nat -> (∀ j, (q <= j < pu)%nat -> es !! j = Some None) ->
  shows ucmp es pu u v -> base d -> iat (di_iter d) q -> di_direction d = kIterForward -> di_saved_key d = u ->
  ∃ d', FindNextUserEntry ucmp RecordReadSample n true d = Some d' ∧ di_at d' (S (length (out ucmp es pu))).
Proof using ComparatorLaws0 Cursor0 Hkeys Hsort.
  intros q d pu u v Hq Hn Hinv Hsh. pose proof (shows_S _ _ _ _ _ Hsh) as [HoS _]. pose proof Hsh as [Hpu _].
  assert (pu < length kvs)%nat as Hpul by (rewrite <- length_es; by eapply lookup_lt_Some).
  revert q d Hq Hn Hinv. induction n as [|n IH]; intros q d Hq Hn Hinv Hb Hp Hdir Hsk; [lia|]. cbn [FindNextUserEntry].
  destruct (lookup_lt_is_Some_2 kvs q) as [kv Hkv]; [lia|].
  destruct (parse_visible_spec d q kv Hb Hp Hkv) as (d1 & k & Hb1 & (db & rnd & b & E1) & -> & Hk). cbn [mbind option_bind].
  destruct (decide (q = pu)) as [->|Hne].
  - destruct k as [k|]; [|congruence]. destruct Hk as [He _]. rewrite Hpu in He. destruct (type k); [done|]. injection He as -> ->.
    replace (di_saved_key d1) with (user_key k) by by rewrite E1. rewrite (cmp_refl (Compare ucmp) okp) by by eapply es_ok.
    simpl. rewrite <- HoS. apply (advance_spec d1 pu (FindNextUserEntry ucmp RecordReadSample n true)); [done|by rewrite E1|lia| |].
    + intros it Hit Hl. apply FindNext_at; [done|lia|done|done|by rewrite E1|]. rewrite E1. cbn. rewrite Hsk.
      by apply (skip_ok_after ucmp es okp es_ok es_le pu _ (Some kv.2)).
    + intros Hl. by rewrite Hl, out_end.
  - assert (es !! q = Some None) as Hq0 by (apply Hinv; lia). destruct k as [k|]; [destruct Hk; congruence|].
    apply (advance_spec d1 q (FindNextUserEntry ucmp RecordReadSample n true)); [done|by rewrite E1|lia| |lia].
    intros it Hit Hl. apply (IH (S q)); [lia|lia|intros j Hj; apply Hinv; lia|done|done|by rewrite E1|by rewrite E1].
Qed.

(** *** [Prev] *)

(** The position of the internal iterator when entries below [q] remain. *)
Definition before_pos (q : nat) : nat := match q with O => length kvs | S q => q end.

(** What is known of the entries [seg] that were passed. *)
Definition pending (vt : ValueType) (d : DBIter I W) (seg : list (option (Slice * option Slice))) : Prop :=
  match vt with
  | kTypeDeletion => shown ucmp None seg = []
  | kTypeValue => ∃ inv rest u v, seg = inv ++ Some (u, Some v) :: rest ∧ Forall (fun e => e = None) inv ∧
      shown ucmp (Some u) rest = [] ∧ di_saved_key d = u ∧ di_saved_value d = v
  end.

Lemma shown_invisible last inv l : Forall (fun e => e = None) inv -> shown ucmp last (inv ++ l) = shown ucmp last l.
Proof. induction 1 as [|e inv -> _ IH]; done. Qed.

(** The newest entry of a key hides the ones that were passed. *)
Lemma pending_hidden vt d seg x : pending vt d seg -> (vt = kTypeValue -> Compare ucmp x (di_saved_key d) = 0) -> shown ucmp (Some x) seg = [].
Proof.
  destruct vt; simpl; [intros H _; by apply shown_none_some|].
  intros (inv & rest & u & v & -> & Hinv & Hr & <- & _) Hx. rewrite shown_invisible by done. simpl. by rewrite (Hx eq_refl).
Qed.

(** [seg] are the entries of [es] from [q] to [p0]. *)
Definition segment (q p0 : nat) (seg : list (option (Slice * option Slice))) : Prop := take p0 es = take q es ++ seg ∧ (q <= length es)%nat.

Lemma segment_cons q p0 seg e : es !! q = Some e -> segment (S q) p0 seg -> segment q p0 (e :: seg).
Proof. intros He [H1 H2]. split; [|lia]. by rewrite H1, (take_S_r _ _ e He), <- app_assoc. Qed.

Lemma segment_lookup q p0 seg j e : segment q p0 seg -> seg !! j = Some e -> es !! (q + j)%nat = Some e.
Proof.
  intros [H1 H2] Hj. assert ((take p0 es) !! (q + j)%nat = Some e) as H.
  { rewrite H1, lookup_app_r; rewrite length_take_le by done; [|lia]. by replace (q + j - q)%nat with j by lia. }
  by apply lookup_take_Some in H as [H _].
Qed.

Lemma pending_le vt d q p0 seg x w : segment (S q) p0 seg -> pending vt d seg -> vt = kTypeValue -> es !! q = Some (Some (x, w)) ->
  Compare ucmp x (di_saved_key d) <= 0.
Proof using ComparatorLaws0 Hkeys Hsort.
  intros Hseg Hpend -> Hx. destruct Hpend as (inv & rest & u & v & -> & _ & _ & -> & _).
  apply (es_le q (S q + length inv) x w u (Some v)); [lia|done|]. eapply segment_lookup; [done|].
  by rewrite lookup_app_r, Nat.sub_diag by lia.
Qed.

(** The outcome of the search, at [q] entries before those passed. *)
Definition found_prev (p0 : nat) (vt : ValueType) (d : DBIter I W) : Prop :=
  ∃ q seg, base d ∧ di_direction d = kIterReverse ∧ iat (di_iter d) (before_pos q) ∧ segment q p0 seg ∧ pending vt d seg ∧
    (vt = kTypeDeletion -> q = O) ∧ (vt = kTypeValue -> hidden ucmp (st es q) (di_saved_key d) = false).

Lemma find_prev_loop_spec n p0 : ∀ q d vt seg, (q < length kvs)%nat -> (S q <= n)%nat -> base d -> di_direction d = kIterReverse ->
  iat (di_iter d) q -> segment (S q) p0 seg -> pending vt d seg ->
  ∃ vt' d', find_prev_loop ucmp RecordReadSample n vt d = Some (vt', d') ∧ found_prev p0 vt' d'.
Proof using ComparatorLaws0 Cursor0 Hkeys Hsort.
  induction n as [|n IH]; intros q d vt seg Hq Hn Hb Hdir Hp Hseg Hpend; [lia|]. cbn [find_prev_loop].
  destruct (lookup_lt_is_Some_2 kvs q Hq) as [kv Hkv].
  destruct (parse_visible_spec d q kv Hb Hp Hkv) as (d1 & k & Hb1 & (db & rnd & b & E1) & -> & Hk). cbn [mbind option_bind].
  assert (iat (di_iter d1) q) as Hp1 by by rewrite E1.
  destruct (cur_entry _ _ _ _ (di_iter d1) q kv.1 kv.2 Hp1) as (_ & Ek & Ev); [by destruct kv|].
  assert (pending vt d1 seg) as Hpend1 by (rewrite E1; by destruct vt).
  assert (∀ d2 vt2 e, es !! q = Some e -> base d2 -> di_direction d2 = kIterReverse -> iat (di_iter d2) q -> pending vt2 d2 (e :: seg) ->
    ∃ vt' d', (it ← i_Prev (di_iter d2);
               let d := di_set_iter it d2 in
               if i_Valid it then find_prev_loop ucmp RecordReadSample n vt2 d else Some (vt2, d)) = Some (vt', d') ∧ found_prev p0 vt' d') as Hret.
  { intros d2 vt2 e He Hb2 Hdir2 Hp2 Hpend2. pose proof (segment_cons q p0 seg e He Hseg) as Hseg2.
    destruct (cur_prev (di_iter d2) q Hp2 Hq) as (it & -> & Hit). cbn [mbind option_bind].
    rewrite (cur_valid _ _ kvs _ it _ Hit). destruct q as [|q].
    - rewrite bool_decide_eq_false_2 by lia. eexists _, _. split; [done|]. exists O, (e :: seg). split_and!; done || by destruct vt2.
    - rewrite bool_decide_eq_true_2 by lia. apply (IH q _ _ (e :: seg)); [lia|lia|done|done|done|done|]. by destruct vt2. }
  destruct k as [k|].
  - destruct Hk as [He Eu]. assert (∀ x w, vt = kTypeValue -> es !! q = Some (Some (x, w)) -> Compare ucmp x (di_saved_key d1) <= 0) as Hle by (intros x w; by apply (pending_le vt d1 q p0 seg)).
    destruct (bool_decide (vt ≠ kTypeDeletion) && (Compare ucmp (user_key k) (di_saved_key d1) <? 0)) eqn:Estop.
    + apply andb_true_iff in Estop as [Hvt%bool_decide_eq_true Hlt%Z.ltb_lt]. destruct vt; [done|]. eexists _, _. split; [done|].
      exists (S q), seg. split_and!; try done; [by rewrite E1|]. intros _. rewrite (st_S es q _ He). simpl. apply Z.eqb_neq. lia.
    + assert (shown ucmp (Some (user_key k)) seg = []) as Hhid.
      { apply (pending_hidden vt d1); [done|]. intros ->. specialize (Hle _ _ eq_refl He). apply andb_false_iff in Estop as [Hvt|Hlt].
        - apply bool_decide_eq_false in Hvt. by destruct Hvt.
        - bool_to_prop. lia. }
      destruct (type k) eqn:Et.
      * apply (Hret _ _ (Some (user_key k, None))); [done|done|by rewrite E1|done|done].
      * apply (Hret _ _ (Some (user_key k, Some kv.2))); [done|done|by rewrite E1|done|].
        exists [], seg, (user_key k), kv.2. split_and!; [done|done|done| |]; simpl; by rewrite ?Ek, ?Ev.
  - apply (Hret _ _ None); [done|done|by rewrite E1|done|]. destruct vt; [done|].
    destruct Hpend1 as (inv & rest & u & v & -> & Hinv & Hr & Hk1 & Hv1). exists (None :: inv), rest, u, v. split_and!; try done. by constructor.
Qed.

(** The user's position before entry [i]. *)
Definition prev_pos (i : nat) : nat := match i with O => length vis | S j => j end.

Lemma FindPrev_at rounds p0 d : (p0 <= length kvs)%nat -> (p0 <= rounds)%nat -> base d -> di_direction d = kIterReverse ->
  iat (di_iter d) (before_pos p0) ->
  ∃ d', FindPrevUserEntry ucmp RecordReadSample rounds d = Some d' ∧ di_at d' (prev_pos (length (out ucmp es p0))).
Proof using ComparatorLaws0 Cursor0 Hkeys Hsort.
  intros Hp0 Hr Hb Hdir Hp. unfold FindPrevUserEntry.
  assert (∃ vt' d', (if i_Valid (di_iter d) then find_prev_loop ucmp RecordReadSample rounds kTypeDeletion d else Some (kTypeDeletion, d))
    = Some (vt', d') ∧ found_prev p0 vt' d') as (vt & d1 & -> & (q & seg & Hb1 & Hdir1 & Hp1 & Hseg & Hpend & Hdel & Hval)).
  { rewrite (cur_valid _ _ kvs _ _ _ Hp). destruct p0 as [|q]; simpl.
    - rewrite bool_decide_eq_false_2 by lia. eexists _, _. split; [done|]. exists O, []. split_and!; try done. split; [done|lia].
    - rewrite bool_decide_eq_true_2 by lia. apply (find_prev_loop_spec rounds (S q) q d kTypeDeletion []); try done.
      split; [by rewrite app_nil_r|]. rewrite length_es. lia. }
  cbn [mbind option_bind]. assert (out ucmp es p0 = out ucmp es q ++ shown ucmp (st es q) seg) as Ho.
  { unfold out, st. destruct Hseg as [-> _]. apply shown_app. }
  destruct vt; eexists; (split; [done|]); (split; [done|]); exists (before_pos q); (split; [done|]).
  - left. split; [done|]. rewrite Ho, (Hdel eq_refl). unfold out, st. simpl. by rewrite Hpend.
  - right. split; [done|]. specialize (Hval eq_refl). destruct Hpend as (inv & rest & u & v & -> & Hinv & Hrest & Hk & Hv). rewrite Hk in Hval.
    rewrite shown_invisible in Ho by done. simpl in Ho. rewrite Hval, Hrest in Ho. simpl in Ho.
    assert (∀ j, (q <= j < q + length inv)%nat -> es !! j = Some None) as Hnone.
    { intros j Hj. replace j with (q + (j - q))%nat by lia. eapply segment_lookup; [done|]. rewrite lookup_app_l by lia.
      destruct (lookup_lt_is_Some_2 inv (j - q)) as [e He]; [lia|]. rewrite He. by rewrite (Forall_lookup_1 _ _ _ _ Hinv He). }
    destruct (out_invisible ucmp es q (q + length inv) ltac:(lia) Hnone) as [Ho2 Hst2].
    exists (q + length inv)%nat, u, v. split_and!.
    + split; [|by rewrite Hst2]. eapply segment_lookup; [done|]. by rewrite lookup_app_r, Nat.sub_diag by lia.
    + rewrite Ho, length_app, Ho2. simpl. by rewrite Nat.add_1_r.
    + cbn. rewrite Hdir1. split_and!; [done|done|]. exists q. split_and!; [lia|done|done].
Qed.

(** Moving off the entries of the current key. *)
Lemma leave_key_spec n : ∀ p d pu u v, (p <= pu)%nat -> (p < n)%nat -> (∀ j, (p <= j < pu)%nat -> es !! j = Some None) ->
  shows ucmp es pu u v -> base d -> iat (di_iter d) p -> di_saved_key d = u ->
  ∃ found d' q, leave_key_loop ucmp n d = Some (found, d') ∧ base d' ∧ di_direction d' = di_direction d ∧ iat (di_iter d') (before_pos q) ∧
    (q <= pu)%nat ∧ (∀ j, (q <= j < pu)%nat -> es !! j = Some None) ∧
    (found = false -> q = O ∧ di_valid d' = false).
Proof using ComparatorLaws0 Cursor0 Hkeys Hsort.
  induction n as [|n IH]; intros p d pu u v Hp Hn Hinv Hsh Hb Hit Hsk; [lia|]. cbn [leave_key_loop].
  assert (pu < length kvs)%nat as Hpul by (rewrite <- length_es; destruct Hsh; by eapply lookup_lt_Some).
  destruct (cur_prev (di_iter d) p Hit ltac:(lia)) as (it & -> & Hit'). cbn [mbind option_bind].
  rewrite (cur_valid _ _ kvs _ it _ Hit'). destruct p as [|p].
  - rewrite bool_decide_eq_false_2 by lia. simpl. eexists false, _, O. split_and!; done.
  - rewrite bool_decide_eq_true_2 by lia. simpl. destruct (lookup_lt_is_Some_2 kvs p) as [kv Hkv]; [lia|].
    destruct (cur_entry _ _ _ _ it p kv.1 kv.2 Hit') as (_ & Ek & _); [by destruct kv|]. rewrite Ek.
    destruct (Z.ltb_spec (Compare ucmp (ExtractUserKey kv.1) (di_saved_key d)) 0) as [Hlt|Hge].
    + eexists true, _, (S p). split_and!; try done.
    + apply (IH p (di_set_iter it d) pu u v); try done; [lia|lia|]. intros j Hj. destruct (decide (j = p)) as [->|]; [|apply Hinv; lia].
      destruct (es !! p) as [[[x w]|]|] eqn:He; [exfalso|done|]; cycle 1.
      { apply lookup_ge_None in He. rewrite length_es in He. lia. }
      destruct (entry_key p x w He) as (kv' & k & Hkv' & _ & _ & -> & _). simplify_eq.
      destruct Hsh as [Hpu Hh]. pose proof (es_le p pu _ _ _ _ ltac:(lia) He Hpu).
      destruct (out_invisible ucmp es (S p) pu ltac:(lia) Hinv) as [_ Hst]. rewrite Hst, (st_S es p _ He) in Hh. simpl in Hh. bool_to_prop. lia.
Qed.

(** *** [Seek] *)

Definition seek_key (target : Slice) : Slice := AppendInternalKey [] (PIK target s kValueTypeForSeek).

(** A visible entry lies before the key that is sought exactly when its user
    key lies before the target. *)
Lemma seek_key_below target i kv u w : okp target -> kvs !! i = Some kv -> es !! i = Some (Some (u, w)) ->
  InternalCompare ucmp kv.1 (seek_key target) < 0 <-> Compare ucmp u target < 0.
Proof using Hkeys Hs.
  intros Ht Hkv He. destruct (entry_key i u w He) as (kv' & k & Hkv' & Hk & _ & -> & Hseq & _ & _). simplify_eq.
  pose proof (Forall_lookup_1 _ _ _ _ Hkeys Hkv) as ((Hu8 & _) & _).
  assert (seek_key target = ikey target (PackSequenceAndType s kValueTypeForSeek)) as -> by apply AppendInternalKey_ikey.
  destruct (InternalCompare_cases ucmp kv.1 (ikey target (PackSequenceAndType s kValueTypeForSeek))) as [[_ ->]|[E Esg]].
  - by rewrite ExtractUserKey_ikey.
  - rewrite ExtractUserKey_ikey in E. rewrite key_tag_ikey in Esg by by apply PackSequenceAndType_u64.
    pose proof (PackSequenceAndType_value s kValueTypeForSeek Hs) as Ep. change (type_value kValueTypeForSeek) with 1 in Ep.
    rewrite (parsed_tag _ _ Hu8 Hk) in Esg. destruct (type k); cbn [type_value] in Esg; lia.
Qed.

Lemma shown_in last l x : x ∈ shown ucmp last l -> ∃ j, l !! j = Some (Some (x.1, Some x.2)).
Proof.
  revert last; induction l as [|e l IH]; intros last; simpl; [by intros ?%elem_of_nil|]. intros [H|H]%elem_of_app.
  - exists O. destruct e as [[u [v|]]|]; simpl in H; try by apply elem_of_nil in H. destruct (hidden ucmp last u); [by apply elem_of_nil in H|].
    apply list_elem_of_singleton in H as ->. done.
  - destruct (IH _ H) as [j Hj]. by exists (S j).
Qed.

Lemma seek_vis target : okp target ->
  seek_index ucmp target vis = length (out ucmp es (seek_index (InternalKeyComparator ucmp) (seek_key target) kvs)).
Proof using Hbytes ComparatorLaws0 Hkeys Hs Hsort.
  intros Ht. set (p := seek_index _ _ kvs). pose proof (internal_laws ucmp okp Hbytes) as Hlaws.
  assert (ikey_ok okp (seek_key target)) as Hok by (unfold seek_key; rewrite AppendInternalKey_ikey; apply ikey_ok_ikey; auto).
  assert (∀ i u w, es !! i = Some (Some (u, w)) -> (i < p)%nat <-> Compare ucmp u target < 0) as Hside.
  { intros i u w He. destruct (entry_key i u w He) as (kv & k & Hkv & _). rewrite <- (seek_key_below target i kv u w Ht Hkv He).
    by apply (seek_index_below (cmp := InternalKeyComparator ucmp) (ikey_ok okp)); [| |apply ikeys_ok|]. }
  apply seek_index_eq.
  - unfold vis, user_entries. fold es. rewrite (out_rest ucmp es p), length_app. lia.
  - intros j kv Hj Hkv. unfold vis, user_entries in Hkv. fold es in Hkv. rewrite (out_rest ucmp es p), lookup_app_l in Hkv by done.
    apply list_elem_of_lookup_2, shown_in in Hkv as [i Hi]. apply lookup_take_Some in Hi as [Hi Hip]. by apply (Hside i _ _ Hi).
  - intros kv Hkv. unfold vis, user_entries in Hkv. fold es in Hkv. rewrite (out_rest ucmp es p), lookup_app_r, Nat.sub_diag in Hkv by lia.
    apply list_elem_of_lookup_2, shown_in in Hkv as [i Hi]. rewrite lookup_drop in Hi. pose proof (Hside _ _ _ Hi). lia.
Qed.

(** *** The specification, entry by entry *)

Definition parsed (kv : Slice * Slice) (k : ParsedInternalKey) : Prop := kv ∈ kvs ∧ ParseInternalKey kv.1 = Some k.

Lemma parsed_es kv k : parsed kv k -> sequence k <= s -> ∃ i, kvs !! i = Some kv ∧
  es !! i = Some (Some (user_key k, match type k with kTypeValue => Some kv.2 | kTypeDeletion => None end)).
Proof.
  intros [[i Hi]%list_elem_of_lookup Hk] Hle. exists i. split; [done|]. unfold es. rewrite list_lookup_fmap, Hi. simpl. unfold classify.
  rewrite Hk. destruct (Z.leb_spec (sequence k) s); [done|lia].
Qed.

Lemma newest_first i j kv kv' k k' : kvs !! i = Some kv -> kvs !! j = Some kv' -> ParseInternalKey kv.1 = Some k -> ParseInternalKey kv'.1 = Some k' ->
  (i < j)%nat -> Compare ucmp (user_key k) (user_key k') = 0 ->
  sequence k' * 256 + type_value (type k') < sequence k * 256 + type_value (type k).
Proof using Hkeys Hsort.
  intros Hi Hj Hk Hk' Hij Hc. pose proof (Hsort i j kv kv' Hij Hi Hj) as Hlt. simpl in Hlt.
  pose proof (Forall_lookup_1 _ _ _ _ Hkeys Hi) as ((U1 & _) & _). pose proof (Forall_lookup_1 _ _ _ _ Hkeys Hj) as ((U2 & _) & _).
  rewrite <- (parsed_tag _ _ U1 Hk), <- (parsed_tag _ _ U2 Hk'). rewrite (ParseInternalKey_user _ _ Hk), (ParseInternalKey_user _ _ Hk') in Hc.
  destruct (InternalCompare_cases ucmp kv.1 kv'.1) as [[? _]|[_ E]]; [done|]. lia.
Qed.

Lemma user_entries_newest u v : (u, v) ∈ vis <-> ∃ kv k, parsed kv k ∧ user_key k = u ∧ type k = kTypeValue ∧ kv.2 = v ∧ sequence k <= s ∧
  ∀ kv' k', parsed kv' k' -> Compare ucmp (user_key k') u = 0 -> sequence k' <= s -> sequence k' <= sequence k.
Proof using ComparatorLaws0 Hkeys Hsort.
  split.
  - intros [i Hi]%list_elem_of_lookup. rewrite <- out_end in Hi. destruct (shown_place _ _ _ _ _ Hi) as (p & _ & Hsh & _). simpl in Hsh.
    pose proof Hsh as [He _]. destruct (entry_key p u (Some v) He) as (kv & k & Hkv & Hk & Hu & _ & Hseq & Hw & _).
    exists kv, k. split_and!; [by split; [eapply list_elem_of_lookup_2|]|done|by destruct (type k)|by destruct (type k); simplify_eq|done|].
    intros kv' k' Hpk Hc Hseq'. destruct (parsed_es kv' k' Hpk Hseq') as (j & Hj & Hej). destruct (Nat.lt_trichotomy j p) as [Hlt|[->|Hgt]].
    + pose proof (shows_lt ucmp es okp es_ok es_le p u v j _ _ Hsh Hlt Hej). lia.
    + simplify_eq. destruct Hpk as [_ Hk']. by simplify_eq.
    + destruct Hpk as [_ Hk']. pose proof (newest_first p j kv kv' k k' Hkv Hj Hk Hk' Hgt) as Hn.
      assert (Compare ucmp (user_key k) (user_key k') = 0) as Hc'.
      { rewrite Hu. apply (cmp_eq_sym (Compare ucmp) okp); [by eapply es_ok|by eapply es_ok|done]. }
      specialize (Hn Hc'). destruct (type k), (type k'); simpl in Hn; lia.
  - intros (kv & k & Hpk & <- & Ht & <- & Hseq & Hmax). destruct (parsed_es kv k Hpk Hseq) as (i & Hi & He). rewrite Ht in He.
    eapply (list_elem_of_lookup_2 _ (length (out ucmp es i))), (shows_lookup ucmp es). split; [done|].
    destruct (st es i) as [u0|] eqn:Est; [|done]. simpl. apply Z.eqb_neq. intros Hc. destruct (st_seen es i u0 Est) as (j & w & Hj & H0).
    destruct (entry_key j u0 w H0) as (kv' & k' & Hkv' & Hk' & <- & _ & Hseq' & _). destruct Hpk as [_ Hk].
    pose proof (newest_first j i kv' kv k' k Hkv' Hi Hk' Hk Hj Hc) as Hn.
    specialize (Hmax kv' k' (conj (list_elem_of_lookup_2 _ _ _ Hkv') Hk') Hc Hseq'). rewrite Ht in Hn. destruct (type k'); simpl in Hn; lia.
Qed.

(** *** All operations *)

Context (rounds : nat) (Hrounds : (length kvs <= rounds)%nat).

(** After a seek of the internal iterator. *)
Lemma start_forward d it p : base d -> iat it p -> di_direction d = kIterForward -> skip_ok ucmp es p false (di_saved_key d) ->
  ∃ d', (let d := di_set_iter it d in if i_Valid it then FindNextUserEntry ucmp RecordReadSample rounds false d else Some (di_set_valid false d))
    = Some d' ∧ di_at d' (length (out ucmp es p)).
Proof using ComparatorLaws0 Cursor0 Hkeys Hrounds Hsort.
  intros Hb Hit Hdir Hskip. rewrite (cur_valid _ _ kvs _ it _ Hit). cbv zeta. case_bool_decide as Hp.
  - apply FindNext_at; [done|lia|done|done|done|done].
  - eexists. split; [done|]. split; [done|]. exists p. split; [done|]. left. split; [done|].
    pose proof (cur_bound it p Hit). replace p with (length kvs) by lia. by rewrite out_end.
Qed.

#[local] Instance db_cursor : Cursor (I := DBIter I W) (Iterator0 := db_iterator ucmp RecordReadSample rounds) ucmp okp vis di_at.
Proof using Hbytes ComparatorLaws0 Cursor0 Hkeys Hrounds Hs Hsort.
  split.
  - intros d i (Hb & p & Hp & [[Hv ->]|(Hv & pu & u & v & Hsh & -> & Hdir)]); unfold i_view; simpl; unfold di_Valid; rewrite Hv.
    + by rewrite lookup_ge_None_2.
    + unfold vis, user_entries. fold es. rewrite (shows_lookup ucmp es pu u v Hsh). unfold di_key, di_value.
      destruct (di_direction d); [|by destruct Hdir as (-> & -> & _)]. subst p. destruct Hsh as [He _].
      destruct (entry_key pu u (Some v) He) as (kv & k & Hkv & _ & _ & -> & _ & Hw & _).
      destruct (cur_entry _ _ _ _ (di_iter d) pu kv.1 kv.2 Hp) as (_ & -> & ->); [by destruct kv|]. destruct (type k); by simplify_eq.
  - intros d i (_ & p & _ & [[_ ->]|(_ & pu & u & v & Hsh & -> & _)]); [done|]. apply Nat.lt_le_incl.
    eapply lookup_lt_Some. unfold vis, user_entries. fold es. by apply shows_lookup.
  - intros d i ((_ & Hst & _) & p & Hp & _). simpl. unfold di_status. rewrite Hst. simpl. by apply (cur_status _ p).
  - intros d i (Hb & p & Hp & _). simpl. unfold di_SeekToFirst. destruct (cur_first (di_iter d) p Hp) as (it & E & Hit).
    cbn. rewrite E. apply (start_forward (ClearSavedValue (di_set_direction kIterForward d)) it 0 Hb Hit eq_refl).
    apply skip_ok_fresh. intros. lia.
  - intros d i (Hb & p & Hp & _). simpl. unfold di_SeekToLast. destruct (cur_last (di_iter d) p Hp) as (it & E & Hit). cbn. rewrite E.
    destruct (FindPrev_at rounds (length kvs) (di_set_iter it (ClearSavedValue (di_set_direction kIterReverse d)))) as (d' & E' & Hd'); try done.
    + cbn. replace (before_pos (length kvs)) with (length kvs - 1)%nat; [done|]. unfold before_pos. destruct (length kvs); lia.
    + exists d'. split; [exact E'|]. rewrite out_end in Hd'. replace (length vis - 1)%nat with (prev_pos (length vis)); [done|].
      unfold prev_pos. destruct (length vis); lia.
  - intros d i target (Hb & p & Hp & _) Ht. simpl. unfold di_Seek. cbn -[AppendInternalKey]. destruct Hb as (Hb1 & Hb2 & Hseq). rewrite Hseq.
    assert (ikey_ok okp (seek_key target)) as Hok by (unfold seek_key; rewrite AppendInternalKey_ikey; apply ikey_ok_ikey; auto).
    destruct (cur_seek (di_iter d) p (seek_key target) Hp Hok) as (it & E & Hit). unfold seek_key in E. rewrite E.
    rewrite (seek_vis target Ht).
    apply (start_forward (SaveKey (seek_key target) (ClearSavedValue (di_set_direction kIterForward d)))); [done|done|done|].
    apply skip_ok_fresh. intros i1 u w j u' w' Hij H1 H2.
    destruct (entry_key _ _ _ H1) as (kv1 & k1 & Hk1 & _ & _ & _ & _ & _ & O1). destruct (entry_key _ _ _ H2) as (kv2 & k2 & Hk2 & _ & _ & _ & _ & _ & O2).
    pose proof (seek_key_below target i1 kv1 u w Ht Hk1 H1) as B1. pose proof (seek_key_below target j kv2 u' w' Ht Hk2 H2) as B2.
    pose proof (internal_laws ucmp okp Hbytes) as Hlaws.
    rewrite <- (seek_index_below (cmp := InternalKeyComparator ucmp) (ikey_ok okp) kvs i1 kv1 Hok Hsort ikeys_ok Hk1) in B1.
    rewrite <- (seek_index_below (cmp := InternalKeyComparator ucmp) (ikey_ok okp) kvs j kv2 Hok Hsort ikeys_ok Hk2) in B2.
    apply (cmp_lt_le (Compare ucmp) okp u target u' O1 Ht O2); [lia|]. apply (cmp_flip_le (Compare ucmp) okp); [done..|lia].
  - intros d i (Hb & p & Hp & [[_ ->]|(Hv & pu & u & v & Hsh & -> & Hdir)]) Hi; [lia|]. simpl. unfold di_Next.
    assert (pu < length kvs)%nat as Hpul by (rewrite <- length_es; destruct Hsh; by eapply lookup_lt_Some).
    destruct (di_direction d) eqn:Ed.
    + subst p. apply (FindNext_past rounds pu _ pu u v); try done; [lia|intros; lia|]. cbn. destruct Hsh as [He _].
      destruct (entry_key pu u (Some v) He) as (kv & k & Hkv & _ & _ & -> & _).
      by destruct (cur_entry _ _ _ _ (di_iter d) pu kv.1 kv.2 Hp) as (_ & -> & _); [destruct kv|].
    + destruct Hdir as (Hk & Hval & q & Hq & Hinv & Hpq).
      assert (∃ it, (if negb (i_Valid (di_iter d)) then i_SeekToFirst (di_iter d) else i_Next (di_iter d)) = Some it ∧ iat it q) as (it & E & Hit).
      { rewrite (cur_valid _ _ kvs _ _ _ Hp). subst p. destruct q as [|q]; simpl.
        - rewrite bool_decide_eq_false_2 by lia. by apply (cur_first _ (length kvs)).
        - rewrite bool_decide_eq_true_2 by lia. apply cur_next; [done|lia]. }
      cbn. rewrite E. cbn [mbind option_bind]. rewrite (cur_valid _ _ kvs _ it _ Hit), bool_decide_eq_true_2 by lia. simpl.
      apply (FindNext_past rounds q _ pu u v); try done. lia.
  - intros d i (Hb & p & Hp & [[_ ->]|(Hv & pu & u & v & Hsh & -> & Hdir)]) Hi; [lia|]. simpl. unfold di_Prev.
    assert (pu < length kvs)%nat as Hpul by (rewrite <- length_es; destruct Hsh; by eapply lookup_lt_Some).
    destruct (di_direction d) eqn:Ed.
    + subst p. destruct (leave_key_spec rounds pu (SaveKey (ExtractUserKey (i_key (di_iter d))) d) pu u v) as (found & d1 & q & E & Hb1 & Hd1 & Hp1 & Hq & Hinv & Hf);
        try done; [lia|intros; lia| |].
      { cbn. destruct Hsh as [He _]. destruct (entry_key pu u (Some v) He) as (kv & k & Hkv & _ & _ & -> & _).
        by destruct (cur_entry _ _ _ _ (di_iter d) pu kv.1 kv.2 Hp) as (_ & -> & _); [destruct kv|]. }
      rewrite E. cbn [mbind option_bind]. destruct (out_invisible ucmp es q pu Hq Hinv) as [-> _]. destruct found.
      * apply FindPrev_at; [lia|lia|done|done|done].
      * destruct (Hf eq_refl) as [-> Hv1]. exists d1. split; [done|]. split; [done|]. eexists. split; [done|]. by left.
    + destruct Hdir as (Hk & Hval & q & Hq & Hinv & ->). destruct (out_invisible ucmp es q pu Hq Hinv) as [-> _].
      apply FindPrev_at; [lia|lia|done|done|done].
Qed.

Lemma db_iterator_new db it p seed : iat it p -> di_at (NewDBIterator db it s seed) (length vis).
Proof.
  intros Hp. unfold NewDBIterator, RandomCompactionPeriod, Random_Uniform. split; [|exists p; split; [done|by left]].
  split_and!; [|done|done]. split; simpl; [apply Random_Next_ok, Random_new_ok|].
  pose proof (Z.mod_pos_bound (Random_Next (Random_new seed)) (2 * kReadBytesPeriod) ltac:(done)). unfold kReadBytesPeriod in *. lia.
Qed.

End Cursor.

(** C19. A database iterator is a cursor in the user's entries.  Over an
    internal iterator that is a cursor in sorted, well-formed internal keys,
    at any sequence number: after any program of seeks and steps in both
    directions, the iterator stands on the entry of [user_entries] the
    program leads to and reports no error, whatever is sampled on the way;
    and [user_entries] is the sorted list of the user keys whose newest entry
    with a sequence number of at most [s] is a value, with that value. *)
Theorem db_iterator_user_entries {I W : Type} `{!Iterator I} (ucmp : Comparator) (okp : Slice -> Prop) `{!ComparatorLaws ucmp okp}
    (kvs : list (Slice * Slice)) (iat : I -> nat -> Prop) `{!Cursor (InternalKeyComparator ucmp) (ikey_ok okp) kvs iat}
    (RecordReadSample : Slice -> W -> W) (rounds : nat) (db : W) (it : I) (p : nat) (s seed : Z) :
  (∀ k, okp k -> Forall is_u8 k) -> keys_sorted (InternalKeyComparator ucmp) kvs ->
  Forall (fun kv => ikey_ok okp kv.1 ∧ is_Some (ParseInternalKey kv.1) ∧ size kv.1 + size kv.2 < 2 ^ 63) kvs ->
  0 <= s <= kMaxSequenceNumber -> (length kvs <= rounds)%nat -> iat it p ->
  (∀ ops i, Forall (target_ok okp) ops -> cursor_run ucmp (user_entries ucmp s kvs) ops = Some i ->
     ∃ d, iter_run (Iterator0 := db_iterator ucmp RecordReadSample rounds) ops (NewDBIterator db it s seed) = Some d ∧
       i_view (Iterator0 := db_iterator ucmp RecordReadSample rounds) d = user_entries ucmp s kvs !! i ∧
       i_status (Iterator := db_iterator ucmp RecordReadSample rounds) d = Status_OK) ∧
  keys_sorted ucmp (user_entries ucmp s kvs) ∧
  (∀ u v, (u, v) ∈ user_entries ucmp s kvs <-> ∃ kv k, parsed kvs kv k ∧ user_key k = u ∧ type k = kTypeValue ∧ kv.2 = v ∧ sequence k <= s ∧
     ∀ kv' k', parsed kvs kv' k' -> Compare ucmp (user_key k') u = 0 -> sequence k' <= s -> sequence k' <= sequence k).
Proof.
  intros Hbytes Hsort Hkeys Hs Hrounds Hp. split_and!.
  - intros ops i Hops Hrun.
    destruct (run_cursor (Iterator0 := db_iterator ucmp RecordReadSample rounds) ucmp okp (user_entries ucmp s kvs)
      (di_at ucmp kvs iat s) (Cursor0 := db_cursor ucmp okp Hbytes kvs iat Hsort Hkeys s Hs RecordReadSample rounds Hrounds)
      ops (NewDBIterator db it s seed) i) as (d & ? & ? & ? & _); [by eapply db_iterator_new|done|done|by exists d].
  - apply (shown_sorted ucmp _ okp); [by eapply es_ok|by eapply es_le].
  - intros u v. by apply (user_entries_newest ucmp okp).
Qed.

(** Key 97 was written at 1 and overwritten at 3, key 98 written at 2 and
    deleted at 4; read at sequence number 3. *)
Lemma db_iterator_user_entries_witness :
  let ik u q t := AppendInternalKey [] (PIK [u] q t) in
  let kvs := [(ik 97 3 kTypeValue, [30]); (ik 97 1 kTypeValue, [10]); (ik 98 4 kTypeDeletion, []); (ik 98 2 kTypeValue, [20])] in
  let iterator := @db_iterator _ unit (list_iterator (InternalKeyComparator BytewiseComparator)) BytewiseComparator (fun _ w => w) 4 in
  ∃ d, iter_run (Iterator0 := iterator) [ToLast; ToPrev] (NewDBIterator (I := ListIterator) tt (MkListIter kvs 4) 3 0) = Some d ∧
    i_view (Iterator0 := iterator) d = Some ([97], [30]) ∧ i_status (Iterator := iterator) d = Status_OK.
Proof.
  intros ik kvs iterator.
  refine (proj1 (@db_iterator_user_entries _ unit (list_iterator (InternalKeyComparator BytewiseComparator)) BytewiseComparator (Forall is_u8) _ kvs
    (list_at kvs) (list_cursor _ _ kvs) (fun _ w => w) 4 tt (MkListIter kvs 4) 4 3 0 _ _ _ _ _ _) [ToLast; ToPrev] 0%nat _ _).
  - done.
  - apply keys_sorted_check. by vm_compute.
  - assert (∀ k q t v, 97 <= k <= 98 -> 0 <= q <= 4 -> size v <= 1 -> let kv := (ik k q t, v) in
      ikey_ok (Forall is_u8) kv.1 ∧ is_Some (ParseInternalKey kv.1) ∧ size kv.1 + size kv.2 < 2 ^ 63) as Hk.
    { intros k q t v Hk Hq Hv. unfold ik. cbn [fst snd].
      rewrite ParseInternalKey_append by (change kMaxSequenceNumber with (2 ^ 56 - 1); cbn [sequence]; lia).
      rewrite AppendInternalKey_ikey. split_and!; [|done|unfold size in *; cbn [app]; rewrite length_ikey; simpl; lia].
      apply ikey_ok_ikey; repeat constructor; unfold is_u8; simpl; lia. }
    repeat (apply Forall_cons_2; [apply Hk; done || lia|]). apply Forall_nil_2.
  - by split; vm_compute.
  - done.
  - split; [done|]. simpl. lia.
  - repeat constructor.
  - by vm_compute.
Defined.

(** The loop of ParseKey that adds random periods until they cover the
    bytes read ends, although a period may be zero: the generator never gives
    two zero periods in a row, so at most twice as many rounds are needed as
    bytes were read.  This holds for a new iterator and is kept by every
    call; the key is parsed and the iterator stays where it is. *)
Lemma read_sampling_terminates {I W : Type} `{!Iterator I} (RecordReadSample : Slice -> W -> W) (db : W) (it : I) (sequence seed : Z) :
  sampling_ok (NewDBIterator db it sequence seed) ∧
  ∀ d : DBIter I W, sampling_ok d -> size (i_key (di_iter d)) + size (i_value (di_iter d)) < 2 ^ 63 ->
    ∃ d', ParseKey RecordReadSample d = Some (ParseInternalKey (i_key (di_iter d)), d') ∧ sampling_ok d' ∧ di_iter d' = di_iter d ∧
      (ok (di_status_ d) = true -> ok (di_status_ d') = match ParseInternalKey (i_key (di_iter d)) with Some _ => true | None => false end).
Proof.
  split.
  - unfold sampling_ok, NewDBIterator. pose proof (Random_new_ok seed) as Hr. unfold RandomCompactionPeriod, Random_Uniform. simpl.
    split; [by apply Random_Next_ok|]. pose proof (Z.mod_pos_bound (Random_Next (Random_new seed)) (2 * kReadBytesPeriod) ltac:(done)) as Hb.
    change (2 * kReadBytesPeriod) with 2097152 in *. lia.
  - intros d Hd Hs. destruct (ParseKey_ends RecordReadSample d Hd Hs) as (d' & [Hd' (db' & rnd & b & E)] & HP). rewrite HP.
    destruct (ParseInternalKey (i_key (di_iter d))); eexists; split_and!; try done; subst d'; simpl; auto.
Qed.
