(* ===== verification/LdbDBWrite.v ===== *)
(** * leveldb: writes reach the log and the memtable, and are read back

    A write at the front of the queue commits the batches of its group in one
    record of the log and in the memtable, under consecutive sequence
    numbers.  The front writer gets room while the background work advances.
    A full memtable is written to a table.  Replaying the log of a crashed
    database restores its entries in tables and a memtable; the contract of
    the environment that this needs beyond [DiskLaws] is [ReaderLaws]. *)

From S2P Require Import LdbSkipList.
From S2P Require Import LdbSkipListThms.
From S2P Require Import LdbSkipIter.
From S2P Require Import Prelude.
From S2P Require Import LdbSlice.
From S2P Require Import LdbCoding.
From S2P Require Import LdbFormat.
From S2P Require Import LdbFormatThms.
From S2P Require Import LdbLog.
From S2P Require Import LdbLogThms.
From S2P Require Import LdbTableFormat.
From S2P Require Import LdbTableBuilder.
From S2P Require Import LdbTableBuild.
From S2P Require Import LdbArena.
From S2P Require Import LdbWriteBatch.
From S2P Require Import LdbMemTable.
From S2P Require Import LdbMemThms.
From S2P Require Import LdbIterator.
From S2P Require Import LdbVersionEdit.
From S2P Require Import LdbFilename.
From S2P Require Import LdbFilenameThms.
From S2P Require Import LdbVersion.
From S2P Require Import LdbVersionThms.
From S2P Require Import LdbVersionSet.
From S2P Require Import LdbVersionSetThms.
From S2P Require Import LdbManifest.
From S2P Require Import LdbDB.
From S2P Require Import LdbDBThms.

(** ** The group of a write *)

Section Group.

Context (okp : Slice -> Prop).

(** The operations of a waiting writer; a null batch has none. *)
Definition writes (w : QueuedWriter) (ops : list op) : Prop :=
  match qw_batch w with Some b => (∃ seq, holds_ops b seq ops) ∧ Forall (op_fits okp) ops | None => ops = [] end.

Context (first : QueuedWriter) (fb : WriteBatch) (ops0 : list op) (seq0 : Z) (Hfb : holds_ops fb seq0 ops0).

(** The temporary batch, or the batch of the first writer. *)
Definition gathered (result : option WriteBatch) (ops : list op) : Prop := match result with Some r => holds_ops r 0 ops | None => ops = ops0 end.

Lemma group_loop_spec max_size ws opss : Forall2 writes ws opss -> ∀ size result last acc, gathered result acc -> Z.of_nat (length (acc ++ concat opss)) < 2 ^ 31 ->
  ∃ k result', group_loop first fb max_size size batch_Clear result last ws = Some (result', default last (qw_id <$> list.last (take k ws))) ∧
    gathered result' (acc ++ concat (take k opss)) ∧ Forall (fun w => qw_sync w = true -> qw_sync first = true) (take k ws).
Proof using Hfb.
  induction 1 as [|w ops ws opss Hw _ IH]; intros size result last acc Hg Hn; cbn [group_loop].
  { exists O, result. by rewrite app_nil_r. }
  assert (∀ r, gathered r acc -> ∃ k result', Some (r, last) = Some (result', default last (qw_id <$> list.last (take k (w :: ws)))) ∧
    gathered result' (acc ++ concat (take k (ops :: opss))) ∧ Forall (fun w => qw_sync w = true -> qw_sync first = true) (take k (w :: ws))) as Hstop.
  { intros r Hr. exists O, r. by rewrite app_nil_r. }
  destruct (qw_sync w && negb (qw_sync first)) eqn:Esync; [by apply Hstop|]. assert (qw_sync w = true -> qw_sync first = true) as Hsync by (intros E; rewrite E in Esync; by destruct (qw_sync first)).
  cbn [concat] in Hn. rewrite !length_app in Hn.
  assert (∀ k : nat, default (qw_id w) (qw_id <$> list.last (take k ws)) = default last (qw_id <$> list.last (take (S k) (w :: ws)))) as Hlast.
  { intros k. cbn [take]. rewrite last_cons. by destruct (list.last (take k ws)). }
  unfold writes in Hw. destruct (qw_batch w) as [b|].
  - destruct Hw as [[seq Hb] _]. destruct (max_size <? u64 (size + ByteSize b)); [by apply Hstop|].
    assert (∃ r, match result with None => if negb (Count batch_Clear =? 0) then None else Some (batch_Append batch_Clear fb) | Some r => Some r end = Some r ∧ holds_ops r 0 acc) as (r & -> & Hr).
    { destruct result as [r|]; [by exists r|]. cbn in Hg. subst acc. eexists. split; [done|]. apply (append_holds _ _ _ _ [] ops0 batch_Clear_holds Hfb). exact (ho_count _ _ _ Hfb). }
    cbn [mbind option_bind]. destruct (IH (u64 (size + ByteSize b)) (Some (batch_Append r b)) (qw_id w) (acc ++ ops)) as (k & result' & -> & K1 & K2).
    { apply (append_holds _ _ _ _ _ _ Hr Hb). lia. }
    { rewrite !length_app. lia. }
    exists (S k), result'. rewrite Hlast. split_and!; [done| |by constructor]. cbn [take concat]. by rewrite app_assoc.
  - subst ops. destruct (IH size result (qw_id w) acc Hg) as (k & result' & -> & K1 & K2); [rewrite !length_app; cbn in Hn; lia|]. exists (S k), result'. rewrite Hlast. split_and!; [done|done|by constructor].
Qed.

End Group.

(** The writers of a group, when the first has finished their work. *)
Definition finished_as (self : nat) (s : Status) (w : QueuedWriter) : QueuedWriter :=
  if (qw_id w =? self)%nat then w else MkQueued (qw_id w) (qw_batch w) (qw_sync w) true s.

Lemma finish_writers_spec self s grp rest : ∀ w, list.last grp = Some w -> NoDup (qw_id <$> grp) -> finish_writers self (qw_id w) s (grp ++ rest) = Some (finished_as self s <$> grp, rest).
Proof.
  induction grp as [|x grp IH]; intros w Hl Hn; [done|]. cbn [app finish_writers]. change (if (qw_id x =? self)%nat then x else _) with (finished_as self s x).
  assert (qw_id (finished_as self s x) = qw_id x) as -> by (unfold finished_as; by destruct (_ =? self)%nat).
  cbn [fmap list_fmap] in Hn. apply list.NoDup_cons in Hn as [Hx Hn]. destruct grp as [|y grp].
  - injection Hl as ->. by rewrite Nat.eqb_refl.
  - rewrite last_cons_cons in Hl. destruct (Nat.eqb_spec (qw_id x) (qw_id w)) as [E|_]; [|by rewrite (IH w Hl Hn)].
    exfalso. apply Hx. rewrite E. apply list_elem_of_fmap. exists w. split; [done|]. by apply snap_last_elem.
Qed.

(** ** A write *)

(** The batches of a log, and the entries they stand for. *)
Definition batches (okp : Slice -> Prop) (recs : list Slice) (bs : list (Z * list op)) : Prop :=
  Forall2 (fun rec b => holds_ops rec b.1 b.2 ∧ Forall (op_fits okp) b.2) recs bs.
Definition entries_in (bs : list (Z * list op)) : list entry := concat ((fun b => entries_of b.1 b.2) <$> bs).

Section Commit.

Context `{NewChar} (regions : list region) (ucmp : Comparator) (okp : Slice -> Prop) `{!ComparatorLaws ucmp okp}.
Context (write_buffer_size : Z) (dbname : Slice) (addr : Slice -> Z).
Context {W : Type} `{!Env W, !EnvView W, !DiskView W, !DiskLaws W}.
#[local] Existing Instance env_writable.
#[local] Existing Instance manifest_open.

(** The records [recs] in the open log [h]. *)
Record log_holds (f : Slice) (recs : list Slice) (h off : Z) (w : W) : Prop := {
  lh_good : good w;
  lh_data : ∃ prss, pending w h = Some (f, layout 0 (concat prss)) ∧ Forall2 fragments recs prss ∧ in_blocks 0 (concat prss) ∧ position off (layout_end 0 (concat prss));
}.

Lemma log_append f recs h off w rec : log_holds f recs h off w -> Forall is_u8 rec ->
  ∃ l, AddRecord addr rec (MkWriter (h, w) off (InitTypeCrc addr)) = Some (Status_OK, l) ∧ log_holds f (recs ++ [rec]) h (block_offset_ l) (dest_ l).2 ∧
    same_but f w (dest_ l).2 ∧ LdbManifest.others h w (dest_ l).2.
Proof using DiskLaws0.
  intros [Hg (prss & Hp & Hf & Hb & [P1 P2])] Hr.
  destruct (AddRecord_spec (F := Z * W) (WritableFile0 := env_writable) (OpenFile0 := manifest_open f h w) addr rec (MkWriter (h, w) off (InitTypeCrc addr)) (layout_end 0 (concat prss)))
    as ([[h' w'] off' crc] & prs & -> & Hfr & Hib & Hc & Hw'); [|done|].
  { split_and!; [done|done|done|]. split_and!; [done|done|by eexists|done|done]. }
  destruct Hw' as (_ & Q1 & Q2 & Eh & Hg' & (d' & Hp') & Hs & Ho). cbn in Eh. subst h'. cbn in *. unfold data_of in Hc. cbn in Hc. rewrite Hp, Hp' in Hc. cbn in Hc. subst d'.
  eexists. split; [done|]. cbn. split_and!; [|done|done]. split; [done|]. exists (prss ++ [prs]). rewrite !concat_app. cbn [concat]. rewrite !app_nil_r.
  split_and!; [by rewrite layout_app|apply Forall2_app; [done|by constructor]|by apply in_blocks_app|]. rewrite layout_end_app. done.
Qed.

(** The database has a memtable that holds the entries of its log. *)
Record writable_db (recs : list Slice) (bs : list (Z * list op)) (db : DBImpl W) : Prop := {
  wd_log : ∃ h off, logfile_ db = Some h ∧ log_ db = Some off ∧ log_holds (LogFileName dbname (logfile_number_ db)) recs h off (db_env db);
  wd_batches : batches okp recs bs;
  wd_mem : ∃ a m, mem_ db = Some a ∧ mems db !! a = Some m ∧ mem_holds ucmp okp m (entries_in bs);
  wd_below : Forall (fun e => e_seq e <= LastSequence db) (entries_in bs);
  wd_sequence : 0 <= LastSequence db;
}.

(** What the other threads leave alone while the front writer works. *)
Record front_kept (db db' : DBImpl W) : Prop := {
  fk_log : logfile_ db' = logfile_ db ∧ log_ db' = log_ db ∧ logfile_number_ db' = logfile_number_ db;
  fk_mem : mem_ db' = mem_ db ∧ ∀ a, mem_ db = Some a -> mems db' !! a = mems db !! a;
  fk_env : good (db_env db) -> good (db_env db');
  fk_objects h x : pending (db_env db) h = Some x -> pending (db_env db') h = Some x;
  fk_sequence : LastSequence db' = LastSequence db;
  fk_batch : tmp_batch_ db' = tmp_batch_ db;
  fk_writers : ∃ more, writers_ db' = writers_ db ++ more;
}.

Lemma writable_kept recs bs db db' : front_kept db db' -> writable_db recs bs db -> writable_db recs bs db'.
Proof using Type.
  intros [(F1 & F2 & F3) [F4 F5] F6 F7 F8 F9 F10] [(h & off & L1 & L2 & [Hg (prss & L3 & L4)]) W2 (a & m & M1 & M2 & M3) W4 W5]. split.
  - exists h, off. rewrite F1, F2, F3. split_and!; [done|done|]. split; [by apply F6|]. exists prss. split; [by apply F7|done].
  - done.
  - exists a, m. rewrite F4, (F5 a M1). done.
  - by rewrite F8.
  - by rewrite F8.
Qed.

(** The writers and the temporary batch do not matter. *)
Lemma writable_tmp recs bs b db : writable_db recs bs db -> writable_db recs bs (with_tmp_batch b db).
Proof using Type. by intros []; split. Qed.

Lemma writable_writers recs bs ws db : writable_db recs bs db -> writable_db recs bs (with_writers ws db).
Proof using Type. by intros []; split. Qed.

Context (interfere : DBImpl W -> DBImpl W) (Hkept : ∀ db, front_kept db (interfere db)).

Lemma holds_ops_u8 b seq ops : holds_ops b seq ops -> Forall (op_fits okp) ops -> Forall is_u8 b.
Proof using Type.
  intros [-> _ _] Hf. rewrite !Forall_app. split_and!; [apply le_split_bytes|apply le_split_bytes|]. apply records_u8. eapply list.Forall_impl; [done|]. by intros o [? _].
Qed.

Lemma entries_of_bounds seq ops : Forall (fun e => seq <= e_seq e < seq + Z.of_nat (length ops)) (entries_of seq ops).
Proof using Type.
  revert seq. induction ops as [|o ops IH]; intros seq; cbn [entries_of length]; constructor; [destruct o; cbn; lia|]. eapply list.Forall_impl; [apply IH|]. cbn. lia.
Qed.

(** [n] is the number of the log's records that were synced. *)
Lemma commit_ok sync updates seq ops recs bs db : writable_db recs bs db -> holds_ops updates seq ops -> Forall (op_fits okp) ops -> seq = LastSequence db + 1 ->
  LastSequence db + Z.of_nat (length ops) <= kMaxSequenceNumber ->
  match commit_batch regions ucmp addr interfere sync updates db with
  | Some (s, db') => s = Status_OK ∧ bg_error_ db' = bg_error_ (interfere db) ∧ writers_ db' = writers_ (interfere db) ∧ tmp_batch_ db' = tmp_batch_ (interfere db) ∧ versions_ db' = set_env (db_env db') (versions_ (interfere db)) ∧
      (∀ vs', vs_numbers vs' = MkNumbers (nm_next_file (vs_numbers (versions_ db'))) (nm_manifest_file (vs_numbers (versions_ db'))) (LastSequence db + Z.of_nat (length ops))
          (nm_log (vs_numbers (versions_ db'))) (nm_prev_log (vs_numbers (versions_ db'))) -> vs_env vs' = db_env db' ->
        writable_db (recs ++ [updates]) (bs ++ [(seq, ops)]) (with_versions vs' db')) ∧
      (sync = true -> ∃ h d, logfile_ db' = Some h ∧ pending (db_env db') h = Some (LogFileName dbname (logfile_number_ db'), d) ∧
        LdbFilenameThms.contents (db_env db') (LogFileName dbname (logfile_number_ db')) = Some d)
  | None => ∃ live n, new_char live n = None
  end.
Proof using ComparatorLaws0 DiskLaws0 Hkept.
  intros Hw Hb Hf Es Hmax. pose proof (writable_kept _ _ _ _ (Hkept db) Hw) as Hw1. pose proof (fk_sequence _ _ (Hkept db)) as Eseq. unfold commit_batch. set (db1 := interfere db) in *.
  destruct Hw1 as [(h & off & L1 & L2 & L3) W2 (a & m & M1 & M2 & M3) W4 W5]. unfold log_batch. rewrite L1, L2. cbn [mbind option_bind].
  destruct (log_append _ _ _ _ _ updates L3) as (l & E & L4 & S1 & O1); [by eapply holds_ops_u8|]. rewrite E. cbn [mbind option_bind]. change (ok Status_OK) with true. cbn [andb].
  set (db2 := with_log _ _ _ _). assert (db_env db2 = (dest_ l).2) as Ee by done.
  assert (∃ w', (if sync then let '(s, w) := file_Sync h (db_env db2) in (s, negb (ok s), with_env w db2) else (Status_OK, false, db2)) = (Status_OK, false, with_env w' db2) ∧
    log_holds (LogFileName dbname (logfile_number_ db1)) (recs ++ [updates]) h (block_offset_ l) w' ∧
    (sync = true -> ∃ d, pending w' h = Some (LogFileName dbname (logfile_number_ db1), d) ∧ LdbFilenameThms.contents w' (LogFileName dbname (logfile_number_ db1)) = Some d)) as (w' & -> & L5 & L6).
  { destruct sync; [|exists (dest_ l).2; split_and!; [by rewrite <- Ee; destruct db2 as [[]]|done|done]]. destruct L4 as [G4 (prss & P4 & R4)]. rewrite Ee.
    destruct (file_Sync h (dest_ l).2) as [s w'] eqn:Esy. destruct (disk_sync _ _ _ _ _ _ G4 P4 Esy) as (-> & G5 & _ & C5). destruct (sync_law _ _ _ _ _ _ P4 Esy) as (_ & _ & P5). specialize (P5 eq_refl).
    exists w'. split_and!; [done| |intros _; by eexists]. split; [done|]. by exists prss. }
  cbn [mbind option_bind]. change (ok Status_OK) with true. cbv iota. set (db3 := with_env w' db2). change (mem_ db3) with (mem_ db1). rewrite M1. cbn [mbind option_bind].
  change (mems db3) with (mems db1). rewrite M2. cbn [mbind option_bind].
  destruct (InsertInto_holds ucmp okp regions m (entries_in bs) updates seq ops M3) as (mo & -> & Hmo); [|done|done|lia|].
  { eapply list.Forall_impl; [exact W4|]. cbn. rewrite Eseq, Es. lia. }
  destruct mo as [m'|]; [|done]. cbn [mbind option_bind]. split_and!; [done|done|done|done|done| |].
  - intros vs' Hn He. split.
    + exists h, (block_offset_ l). split_and!; [done|done|]. unfold db_env. cbn. rewrite He. exact L5.
    + apply Forall2_app; [done|]. constructor; [done|constructor].
    + exists a, m'. split_and!; [done|apply lookup_insert_eq|]. unfold entries_in. rewrite fmap_app, concat_app. cbn. by rewrite app_nil_r.
    + unfold LastSequence. cbn. rewrite Hn. cbn. unfold entries_in. rewrite fmap_app, concat_app. cbn [fmap list_fmap concat fst snd]. rewrite app_nil_r. apply Forall_app. split.
      * eapply list.Forall_impl; [exact W4|]. cbn. rewrite Eseq. lia.
      * eapply list.Forall_impl; [apply entries_of_bounds|]. cbn. lia.
    + unfold LastSequence. cbn. rewrite Hn. cbn. rewrite Eseq in W5. lia.
  - intros Hsy. destruct (L6 Hsy) as (d & D1 & D2). exists h, d. done.
Qed.

End Commit.

(** ** Replaying a log *)

Section Batches.

Context `{NewChar} (regions : list region) (ucmp : Comparator) (okp : Slice -> Prop).

(** Batches with increasing sequence numbers, all above [lo]. *)
Fixpoint ascending (lo : Z) (bs : list (Z * list op)) : Prop :=
  match bs with
  | [] => True
  | b :: bs => lo < b.1 ∧ b.1 + Z.of_nat (length b.2) - 1 <= kMaxSequenceNumber ∧ ascending (b.1 + Z.of_nat (length b.2) - 1) bs
  end.

Definition top (lo : Z) (bs : list (Z * list op)) : Z := foldl (fun _ b => b.1 + Z.of_nat (length b.2) - 1) lo bs.

(** The memtable of the records. *)
Fixpoint replay (recs : list Slice) (m : MemTable) : option MemTable :=
  match recs with [] => Some m | rec :: recs => m ← (InsertInto regions ucmp rec m).2; replay recs m end.

Lemma replay_app r1 r2 m : replay (r1 ++ r2) m = m ← replay r1 m; replay r2 m.
Proof using Type. revert m. induction r1 as [|r r1 IH]; intros m; [done|]. cbn [app replay]. destruct (InsertInto regions ucmp r m).2; [|done]. cbn [mbind option_bind]. apply IH. Qed.

Lemma mem_holds_ref m h : mem_holds ucmp okp m h -> mem_holds ucmp okp (Ref m) h.
Proof using Type. done. Qed.

Lemma entries_in_app b1 b2 : entries_in (b1 ++ b2) = entries_in b1 ++ entries_in b2.
Proof using Type. unfold entries_in. by rewrite fmap_app, concat_app. Qed.

End Batches.

(** ** Reads *)

Section Reads.

Context {W D : Type} `{!TableCache W D} (ucmp : Comparator) (okp : Slice -> Prop) `{!ComparatorLaws ucmp okp} (Hbytes : ∀ k, okp k -> Forall is_u8 k).
Context (contents : File -> list (Slice * Slice)) (Tinv : W -> Prop).
Local Abbreviation same e e' := (Compare ucmp (e_key e) (e_key e') = 0).

(** The entries in the files of a version. *)
Definition stored_entries (v : Version) : list entry := omap parsed_entry (concat (contents <$> concat (files_ v))).

(** Every entry of [h] is newer than those of [l] on its key. *)
Definition newer_than (h l : list entry) : Prop := ∀ e e', e ∈ h -> e' ∈ l -> same e e' -> e_seq e' < e_seq e.

Lemma newest_none_app u s h l : newest ucmp u s h = None -> newest ucmp u s (h ++ l) = newest ucmp u s l.
Proof using ComparatorLaws0 Hbytes.
  intros E. pose proof (newest_cases ucmp okp u s h) as H. rewrite E in H. unfold newest. rewrite list.filter_app.
  assert (base.filter (LdbMemThms.visible ucmp u s) h = []) as ->; [|done].
  destruct (base.filter (LdbMemThms.visible ucmp u s) h) as [|e f] eqn:Ef; [done|]. assert (e ∈ base.filter (LdbMemThms.visible ucmp u s) h) as [Hv He]%list_elem_of_filter by (rewrite Ef; left). by destruct (H e).
Qed.

Lemma newest_some_app u s h l b : newest ucmp u s h = Some b -> NoDup (e_seq <$> h) -> newer_than h l -> (∀ e, e ∈ h ++ l -> okp (e_key e)) -> okp u ->
  newest ucmp u s (h ++ l) = Some b.
Proof using ComparatorLaws0 Hbytes.
  intros E Hd Hn Hk Hu. pose proof (newest_cases ucmp okp u s h) as H. rewrite E in H. destruct H as (B1 & B2 & B3). pose proof (newest_cases ucmp okp u s (h ++ l)) as H.
  destruct (newest ucmp u s (h ++ l)) as [a|]; [|exfalso; apply (H b); [set_solver|done]]. destruct H as (A1 & A2 & A3). f_equal. pose proof (A3 b ltac:(set_solver) B2) as Hle.
  apply elem_of_app in A1 as [A1|A1].
  - pose proof (B3 a A1 A2). apply list_elem_of_lookup in A1 as [i Hi], B1 as [j Hj]. assert (i = j) as ->; [|congruence].
    apply (NoDup_lookup (e_seq <$> h) i j (e_seq a) Hd); rewrite list_lookup_fmap, ?Hi, ?Hj; cbn; [done|]. f_equal. lia.
  - assert (e_seq a < e_seq b); [|lia]. apply (Hn b a B1 A1). apply (same_user ucmp okp b a u); [apply Hk; set_solver|apply Hk; set_solver|done|apply B2|apply A2].
Qed.

(** The answer of the files is the newest of their entries. *)
Lemma files_newest u s v a : okp u -> (∀ l files f, files_ v !! l = Some files -> f ∈ files -> holds ucmp okp contents f) -> files_answer ucmp contents u s (concat (files_ v)) a ->
  numbered ucmp (stored_entries v) ->
  (fun e => (e_type e, e_value e)) <$> newest ucmp u s (stored_entries v) = (fun x => (type x.2, x.1.2)) <$> a.
Proof using ComparatorLaws0 Hbytes.
  intros Hu Hh Ha Hnum.
  assert (∀ f kv k, f ∈ concat (files_ v) -> kv ∈ contents f -> ParseInternalKey kv.1 = Some k -> Entry (sequence k) (type k) (user_key k) kv.2 ∈ stored_entries v ∧ okp (user_key k) ∧ ExtractUserKey kv.1 = user_key k) as Hto.
  { intros f kv k Hf Hkv Hp. split.
    - apply list_elem_of_omap. exists kv. split; [|unfold parsed_entry; by rewrite Hp]. apply list_elem_of_In, in_concat. exists (contents f). split; [|by apply list_elem_of_In]. apply list_elem_of_In, list_elem_of_fmap. by exists f.
    - apply list_elem_of_In, in_concat in Hf as (fs & Hfs & Hf). apply list_elem_of_In, list_elem_of_lookup in Hfs as [l Hl]. apply list_elem_of_In in Hf.
      pose proof (hd_keys _ _ _ _ (Hh l fs f Hl Hf)) as Hfa. rewrite list.Forall_forall in Hfa. destruct (Hfa kv Hkv) as [(_ & _ & Hok) _]. rewrite <- (ParseInternalKey_user _ _ Hp) in Hok. split; [done|]. by rewrite (ParseInternalKey_user _ _ Hp). }
  assert (∀ e, e ∈ stored_entries v -> ∃ f kv k, f ∈ concat (files_ v) ∧ kv ∈ contents f ∧ ParseInternalKey kv.1 = Some k ∧ e = Entry (sequence k) (type k) (user_key k) kv.2) as Hfrom.
  { intros e (kv & Hkv & He)%list_elem_of_omap. apply list_elem_of_In, in_concat in Hkv as (c & Hc & Hkv). apply list_elem_of_In, list_elem_of_fmap in Hc as (f & -> & Hf). unfold parsed_entry in He.
    apply bind_Some in He as (k & Hk & [= <-]). exists f, kv, k. split_and!; [done|by apply list_elem_of_In|done|done]. }
  pose proof (newest_cases ucmp okp u s (stored_entries v)) as Hn. destruct a as [[kv k]|].
  - destruct Ha as ((f & Hf & Hkv) & (V1 & V2 & V3) & Hmax). destruct (Hto f kv k Hf Hkv V1) as (T1 & T2 & T3). set (e := Entry (sequence k) (type k) (user_key k) kv.2) in *.
    assert (LdbMemThms.visible ucmp u s e) as Hve by (split; [cbn; by rewrite <- T3|done]).
    destruct (newest ucmp u s (stored_entries v)) as [b|]; [|by destruct (Hn e T1)]. destruct Hn as (B1 & B2 & B3).
    assert (b = e) as ->; [|done]. destruct (Hfrom b B1) as (g & kv' & k' & G1 & G2 & G3 & ->). destruct (Hto g kv' k' G1 G2 G3) as (U1 & U2 & U3).
    assert (LdbVersionThms.visible ucmp u s kv' k') as Hvis by (split_and!; [done|rewrite U3; apply B2|apply B2]).
    apply Hnum; [done|done|apply (same_user ucmp okp _ _ u); [done|done|done|apply B2|apply Hve]|]. specialize (B3 e T1 Hve). specialize (Hmax g kv' k' G1 G2 Hvis). cbn in *. lia.
  - destruct (newest ucmp u s (stored_entries v)) as [b|]; [|done]. destruct Hn as (B1 & B2 & _). destruct (Hfrom b B1) as (g & kv' & k' & G1 & G2 & G3 & ->). destruct (Hto g kv' k' G1 G2 G3) as (U1 & U2 & U3).
    exfalso. apply (Ha g kv' k' G1 G2). split_and!; [done|rewrite U3; apply B2|apply B2].
Qed.

End Reads.

(** C6. On a disk without failures ([good], [DiskLaws]), [Write] of the writer
    at the front of the queue either fails to allocate or ends with OK, when no
    background error is recorded, level 0 has fewer than
    [kL0_SlowdownWritesTrigger] files and the memtable has room, so that
    [MakeRoomForWrite] returns at once, and while the other threads leave the
    log and the memtable alone ([front_kept]). With OK it has committed a
    group, the first writers of the queue: the operations of the group are one
    more record of the log and are in the memtable, in order, under the
    sequence numbers after the last one, which is advanced by their number; the
    others of the group are marked done and leave the queue; a writer that asks
    for a sync only joins one that does, and then all of the log is on the
    disk; the temporary batch is empty again. *)
Theorem write_group_commits `{NewChar} {W : Type} `{!Env W, !EnvView W, !DiskView W, !DiskLaws W} (regions : list region) (ucmp : Comparator) (okp : Slice -> Prop) `{!ComparatorLaws ucmp okp}
    (write_buffer_size : Z) (dbname : Slice) (addr : Slice -> Z) (interfere : DBImpl W -> DBImpl W) (rounds : nat) (db : DBImpl W) (recs : list Slice) (bs : list (Z * list op))
    (first : QueuedWriter) (ws : list QueuedWriter) (opss : list (list op)) (files : Z) :
  (∀ db, front_kept db (interfere db)) -> writable_db ucmp okp dbname recs bs db -> tmp_batch_ db = batch_Clear ->
  bg_error_ db = Status_OK -> NumLevelFiles 0 (versions_ db) = Some files -> files < kL0_SlowdownWritesTrigger ->
  (∀ a m, mem_ db = Some a -> mems db !! a = Some m -> ApproximateMemoryUsage m <= write_buffer_size) ->
  writers_ db = first :: ws -> is_Some (qw_batch first) -> Forall2 (writes okp) (first :: ws) opss -> NoDup (qw_id <$> first :: ws) ->
  Z.of_nat (length (concat opss)) < 2 ^ 31 -> LastSequence db + Z.of_nat (length (concat opss)) <= kMaxSequenceNumber ->
  match Write regions ucmp write_buffer_size dbname addr interfere (S rounds) db with
  | Some (s, finished, db') => ∃ k rec, let group := take (S k) (first :: ws) in let ops := concat (take (S k) opss) in
      s = Status_OK ∧ (∃ first', qw_id first' = qw_id first ∧ finished = first' :: (finished_as (qw_id first) Status_OK <$> take k ws)) ∧ (∃ more, writers_ db' = drop k ws ++ more) ∧
      Forall (fun w => qw_sync w = true -> qw_sync first = true) group ∧
      holds_ops rec (LastSequence db + 1) ops ∧ writable_db ucmp okp dbname (recs ++ [rec]) (bs ++ [(LastSequence db + 1, ops)]) db' ∧
      LastSequence db' = LastSequence db + Z.of_nat (length ops) ∧ tmp_batch_ db' = batch_Clear ∧
      (qw_sync first = true -> ∃ h d, logfile_ db' = Some h ∧ pending (db_env db') h = Some (LogFileName dbname (logfile_number_ db'), d) ∧
        LdbFilenameThms.contents (db_env db') (LogFileName dbname (logfile_number_ db')) = Some d)
  | None => ∃ live n, new_char live n = None
  end.
Proof.
  intros Hk Hw Htmp Hbg Hnf Hlt Hroom Hq [fb Efb] Hops Hnd Hn Hmax. unfold Write. rewrite Hq. cbn [lookup list_lookup mbind option_bind]. rewrite Efb, bool_decide_eq_false_2 by done. cbn [negb].
  pose proof (wd_mem _ _ _ _ _ _ Hw) as (a & m & M1 & M2 & _). cbn [MakeRoomForWrite]. rewrite Hbg. change (ok Status_OK) with true. cbn [negb]. rewrite Hnf. cbn [mbind option_bind]. rewrite M1. cbn [mbind option_bind]. rewrite M2. cbn [mbind option_bind].
  rewrite (proj2 (Z.leb_gt kL0_SlowdownWritesTrigger files)) by lia. cbn [andb]. rewrite (proj2 (Z.leb_le _ _) (Hroom a m M1 M2)). cbn [mbind option_bind]. change (ok Status_OK) with true. cbn [andb].
  inversion Hops as [|? ops0 ? opss' H0 Hrest]; subst. unfold writes in H0. rewrite Efb in H0. destruct H0 as [[seq0 Hfb] Hf0].
  unfold BuildBatchGroup. rewrite Hq. cbn [lookup list_lookup mbind option_bind]. rewrite Efb. cbn [mbind option_bind drop]. rewrite drop_0, Htmp.
  set (mx := if _ <=? _ then _ else _). cbn [concat] in Hn, Hmax.
  destruct (group_loop_spec okp first fb ops0 seq0 Hfb mx ws opss' Hrest (ByteSize fb) None (qw_id first) ops0 eq_refl Hn) as (k & result & -> & G1 & G2). cbn [mbind option_bind].
  set (ops := ops0 ++ concat (take k opss')) in *. set (updates := default fb result). assert (∃ q, holds_ops updates q ops) as [q Hu] by (unfold updates; destruct result as [r|]; cbn in G1; [by eexists|rewrite G1; by eexists]).
  set (last := LastSequence db) in *. assert (0 <= last) as Hl0 by apply Hw. assert (kMaxSequenceNumber < 2 ^ 56) as Hk56 by done.
  assert (length ops <= length (ops0 ++ concat opss'))%nat as Hle.
  { unfold ops. rewrite !length_app. rewrite <- (take_drop k opss') at 2. rewrite concat_app, length_app. lia. }
  rewrite (u64_small (last + 1)) by lia. destruct (SetSequence_holds updates q (last + 1) ops Hu) as [Hu1 _]; [unfold is_u64; lia|]. set (u1 := SetSequence updates (last + 1)) in *.
  assert (Count u1 = Z.of_nat (length ops)) as -> by (rewrite (ho_rep _ _ _ Hu1); apply Count_header; pose proof (ho_count _ _ _ Hu1); lia). rewrite (u64_small (last + _)) by lia.
  set (is_tmp := negb (bool_decide (result = None))). set (db1 := assign_batch is_tmp u1 db).
  assert (writable_db ucmp okp dbname recs bs db1 ∧ LastSequence db1 = last ∧ (∃ first', qw_id first' = qw_id first ∧ writers_ db1 = first' :: ws) ∧ (is_tmp = false -> tmp_batch_ db1 = batch_Clear)) as (Hw1 & El & (first' & Ef & Eq1) & Et1).
  { unfold db1, assign_batch. rewrite Hq. destruct is_tmp; (split_and!; [by (apply writable_tmp || apply writable_writers)|done|eexists; (split; [|first [exact Hq|reflexivity]]; done)|done]). }
  assert (Forall (op_fits okp) ops) as Hfo.
  { unfold ops. apply Forall_app. split; [done|]. apply Forall_concat, Forall_take. clear -Hrest. induction Hrest as [|w o ws os Hw _ IH]; constructor; [|done]. unfold writes in Hw. destruct (qw_batch w); [by destruct Hw|subst; constructor]. }
  pose proof (commit_ok regions ucmp okp dbname addr interfere Hk (qw_sync first) u1 (last + 1) ops recs bs db1 Hw1 Hu1 Hfo) as Hc. rewrite El in Hc. specialize (Hc eq_refl ltac:(lia)).
  destruct (commit_batch regions ucmp addr interfere (qw_sync first) u1 db1) as [[s db2]|]; [|done]. cbn [mbind option_bind]. destruct Hc as (-> & _ & Ew & Et & Ev & Hc & Hsy).
  set (db3 := if is_tmp then with_tmp_batch batch_Clear db2 else db2). assert (versions_ db3 = versions_ db2 ∧ writers_ db3 = writers_ db2) as [Ev3 Ew3] by (unfold db3; by destruct is_tmp).
  assert (nm_last_sequence (vs_numbers (versions_ db2)) = last) as Elast by (rewrite Ev; cbn; rewrite <- El; exact (fk_sequence _ _ (Hk db1))).
  unfold VersionSet_SetLastSequence. rewrite Ev3, Elast, (proj2 (Z.leb_le last (last + Z.of_nat (length ops)))) by lia. cbn [mbind option_bind].
  set (vs4 := set_numbers _ (versions_ db2)). destruct (fk_writers _ _ (Hk db1)) as [more Emore]. rewrite Eq1 in Emore.
  assert (∃ w, list.last (take (S k) (first' :: ws)) = Some w ∧ qw_id w = default (qw_id first) (qw_id <$> list.last (take k ws))) as (lw & Hlw & <-).
  { cbn [take]. rewrite last_cons. destruct (list.last (take k ws)) as [w|]; by eexists. }
  assert (writers_ (with_versions vs4 db3) = take (S k) (first' :: ws) ++ (drop k ws ++ more)) as ->.
  { change (writers_ db3 = take (S k) (first' :: ws) ++ (drop k ws ++ more)). rewrite Ew3, Ew, Emore. cbn [take app]. by rewrite app_assoc, take_drop. }
  assert (NoDup (qw_id <$> take (S k) (first' :: ws))) as Hnd'.
  { cbn [take fmap list_fmap]. rewrite Ef. change (NoDup (qw_id <$> take (S k) (first :: ws))). rewrite <- (take_drop (S k) (first :: ws)), fmap_app in Hnd. by apply list.NoDup_app in Hnd as [Hnd _]. }
  rewrite (finish_writers_spec (qw_id first) Status_OK _ (drop k ws ++ more) lw Hlw Hnd'). cbn [mbind option_bind].
  exists k, u1. cbv zeta. split_and!; [done| |by eexists|by constructor|exact Hu1| | | |].
  - exists first'. split; [done|]. cbn [take fmap list_fmap]. f_equal. unfold finished_as at 1. by rewrite Ef, Nat.eqb_refl.
  - apply writable_writers. unfold db3. specialize (Hc vs4 eq_refl eq_refl). destruct is_tmp; [|exact Hc]. exact (writable_tmp _ _ _ _ _ batch_Clear _ Hc).
  - done.
  - change (tmp_batch_ db3 = batch_Clear). unfold db3. destruct is_tmp; [done|]. rewrite Et, (fk_batch _ _ (Hk db1)). by apply Et1.
  - intros Hs. destruct (Hsy Hs) as (h & d & S1 & S2 & S3). exists h, d. unfold db3. destruct is_tmp; done.
Qed.

(** C13. [Get] after the mutex is released: looking in the memtable, then in
    the one being compacted, then in the files of the version gives the value
    of the newest entry for the key that the snapshot sees among the entries of
    all of them, or NotFound where there is none or it is a deletion. It relies
    on the order of the sources: for one user key, the entries of the memtable
    are newer than the others, and those of the one being compacted newer than
    those of the files ([newer_than]). *)
Theorem db_read_newest {W D : Type} `{!TableCache W D} (ucmp : Comparator) (okp : Slice -> Prop) `{!ComparatorLaws ucmp okp} (contents : File -> list (Slice * Slice)) (Tinv : W -> Prop)
    (ro : ReadOptions) (u value : Slice) (s : Z) (mem current : nat) (imm : option nat) (db : DBImpl W) (h1 h2 : list entry) (n : Node) :
  (∀ k, okp k -> Forall is_u8 k) -> okp u -> size u + 8 < 2 ^ 32 -> 0 <= s <= kMaxSequenceNumber ->
  (∃ m, mems db !! mem = Some m ∧ mem_holds ucmp okp m h1) -> NoDup (e_seq <$> h1) ->
  match imm with Some a => ∃ m, mems db !! a = Some m ∧ mem_holds ucmp okp m h2 | None => h2 = [] end -> NoDup (e_seq <$> h2) ->
  find_node current (versions_ db) = Some n -> version_ok ucmp okp (node_version n) -> Tinv (db_env db) ->
  (∀ l files f, files_ (node_version n) !! l = Some files -> f ∈ files -> holds ucmp okp contents f ∧ reads ucmp okp contents Tinv f) ->
  (∀ files, files_ (node_version n) !! 0%nat = Some files -> NoDup ((fun f => f_number f) <$> files)) ->
  (∀ l l' files files' f g, files_ (node_version n) !! l = Some files -> files_ (node_version n) !! l' = Some files' -> f ∈ files -> g ∈ files' ->
    (l < l')%nat ∨ (l = O ∧ l' = O ∧ f_number g < f_number f) -> precedes ucmp contents u s f g) ->
  let stored := stored_entries contents (node_version n) in
  numbered ucmp stored -> (∀ e, e ∈ h1 ++ h2 ++ stored -> okp (e_key e)) -> newer_than ucmp h1 (h2 ++ stored) -> newer_than ucmp h2 stored ->
  ∃ stats db', read_sources (D := D) ucmp ro (LookupKey_new u s) value mem imm current db =
      Some (match read ucmp u s (h1 ++ h2 ++ stored) with Some x => (Status_OK, x) | None => (Status_NotFound [] [], value) end, stats, db') ∧ Tinv (db_env db').
Proof.
  intros Hb Hu Hsz Hs (m1 & E1 & H1) D1 Hi D2 Hn Hv Ht Hh Hnum Hord stored Hst Hk N1 N2. unfold read_sources. rewrite E1. cbn [mbind option_bind].
  rewrite (Get_holds ucmp okp m1 h1 u s value Status_OK H1 D1 Hu (Hb u Hu) Hsz Hs). unfold read. cbn [mbind option_bind].
  destruct (newest ucmp u s h1) as [b|] eqn:Eb.
  { rewrite (newest_some_app ucmp okp Hb u s h1 (h2 ++ stored) b Eb D1 N1 Hk Hu). cbn. destruct (e_type b); cbn; eexists _, _; by split. }
  rewrite (newest_none_app ucmp okp Hb u s h1 (h2 ++ stored) Eb). cbn [answer].
  assert (match imm with Some a => m ← mems db !! a; Get ucmp m (LookupKey_new u s) value Status_OK | None => Some (false, value, Status_OK) end = Some (answer (newest ucmp u s h2) value Status_OK)) as ->.
  { destruct imm as [a|]; [|by subst h2]. destruct Hi as (m2 & E2 & H2). rewrite E2. cbn [mbind option_bind]. apply (Get_holds ucmp okp m2 h2 u s value Status_OK H2 D2 Hu (Hb u Hu) Hsz Hs). }
  cbn [mbind option_bind]. destruct (newest ucmp u s h2) as [b|] eqn:Eb2.
  { rewrite (newest_some_app ucmp okp Hb u s h2 stored b Eb2 D2 N2) by (done || intros e He; apply Hk; set_solver). cbn. destruct (e_type b); cbn; eexists _, _; by split. }
  rewrite (newest_none_app ucmp okp Hb u s h2 stored Eb2). cbn [answer]. rewrite Hn. cbn [mbind option_bind].
  destruct (Version_Get_spec ucmp okp Hb contents Tinv u s Hu Hs (node_version n) Hv Hh Hnum Hord ro (db_env db) Ht) as (a & stats & w & -> & Ht' & Ha). cbn [mbind option_bind].
  pose proof (files_newest ucmp okp Hb contents u s (node_version n) a Hu (fun l fs f Hl Hf => proj1 (Hh l fs f Hl Hf)) Ha Hst) as En. fold stored in En.
  exists (Some stats), (with_env w db). split; [|exact Ht']. destruct (newest ucmp u s stored) as [e|], a as [[kv k]|]; try done; cbn in En |- *. injection En as -> ->. unfold reply. cbn. by destruct (type k).
Qed.

(** *** A database in memory *)

#[local] Existing Instance bump_new.

(** The log 3 is open, the memtable is empty, and three writers wait: a put, a
    null batch, and a put that asks for a sync, which the first does not. *)
Definition w_log_disk : MemEnv := MkMemEnv ∅ {[1 := (LogFileName (str "db") 3, [])]} ∅ 2 None.

Definition w_writers : list QueuedWriter :=
  [MkQueued 1 (Some (batch_Put [97] [1] batch_Clear)) false false Status_OK; MkQueued 2 None false false Status_OK;
   MkQueued 3 (Some (batch_Put [98] [2] batch_Clear)) true false Status_OK].

Definition w_write_db (vs : VersionSet MemEnv) : DBImpl MemEnv :=
  MkDB vs {[0%nat := small_empty]} 1 (Some 0%nat) None (Some 1) (Some 0) 3 ∅ Status_OK false false None SnapshotList_new w_writers batch_Clear.

Definition w_write (vs : VersionSet MemEnv) : option (Status * list QueuedWriter * DBImpl MemEnv) :=
  Write [] BytewiseComparator 4194304 (str "db") (fun _ => 0) (fun db => db) 1 (w_write_db vs).

Lemma front_kept_refl {W : Type} `{!EnvView W, !DiskView W} (db : DBImpl W) : front_kept db db.
Proof. split; try done. exists []. by rewrite app_nil_r. Qed.

Lemma w_write_some : option_map (fun r : Status * list QueuedWriter * DBImpl MemEnv => (r.1.1, map qw_id r.1.2)) (vs ← VersionSet_new w_log_disk; w_write vs) = Some (Status_OK, [1%nat; 2%nat]).
Proof. by vm_compute. Qed.

Lemma w_writable vs : VersionSet_new w_log_disk = Some vs -> writable_db BytewiseComparator (Forall is_u8) (str "db") [] [] (w_write_db vs).
Proof.
  intros E. destruct (VersionSet_new_ok BytewiseComparator (Forall is_u8) w_log_disk) as (vs' & E' & _ & _ & Hw & Hn & _). rewrite E in E'. injection E' as <-. split.
  - exists 1, 0. split_and!; [done|done|]. unfold db_env. cbn. rewrite Hw. split.
    + split; [done|]. intros h Hh. cbn in *. apply lookup_singleton_None. lia.
    + exists []. split_and!; [by vm_compute|constructor|done|]. split; [cbn; lia|by left].
  - constructor.
  - exists 0%nat, small_empty. split_and!; [done|done|]. apply small_empty_holds.
  - constructor.
  - unfold LastSequence. cbn. rewrite Hn. cbn. lia.
Qed.

Lemma w_writes : Forall2 (writes (Forall is_u8)) w_writers [[OpPut [97] [1]]; []; [OpPut [98] [2]]].
Proof.
  assert (∀ k v : Z, is_u8 k -> is_u8 v -> (∃ seq, holds_ops (batch_Put [k] [v] batch_Clear) seq [OpPut [k] [v]]) ∧ Forall (op_fits (Forall is_u8)) [OpPut [k] [v]]) as Hp.
  { intros k v Hk Hv. split; [exists 0; apply (add_op_holds batch_Clear 0 [] (OpPut [k] [v]) batch_Clear_holds); cbn; lia|].
    apply Forall_singleton. split_and!; [split_and!; [by apply Forall_singleton|by apply Forall_singleton|by vm_compute|by vm_compute]|by apply Forall_singleton|by vm_compute]. }
  constructor; [apply Hp; unfold is_u8; lia|]. constructor; [done|]. constructor; [apply Hp; unfold is_u8; lia|constructor].
Qed.

Lemma write_group_commits_witness : ∃ vs finished db' k rec, VersionSet_new w_log_disk = Some vs ∧ w_write vs = Some (Status_OK, finished, db') ∧
  (∃ first', qw_id first' = 1%nat ∧ finished = first' :: (finished_as 1 Status_OK <$> take k (tail w_writers))) ∧ LastSequence db' = Z.of_nat (length (concat (take (S k) [[OpPut [97] [1]]; []; [OpPut [98] [2]]]))) ∧
  writable_db BytewiseComparator (Forall is_u8) (str "db") [rec] [(1, concat (take (S k) [[OpPut [97] [1]]; []; [OpPut [98] [2]]]))] db'.
Proof.
  destruct (VersionSet_new_ok BytewiseComparator (Forall is_u8) w_log_disk) as (vs & E & _ & _ & Hw & Hn & _). exists vs.
  assert (LastSequence (w_write_db vs) = 0) as El by (unfold LastSequence; cbn; by rewrite Hn).
  assert (NumLevelFiles 0 (versions_ (w_write_db vs)) = Some 0) as Ef.
  { assert ((vs ← VersionSet_new w_log_disk; NumLevelFiles 0 vs) = Some 0) as K by (by vm_compute). rewrite E in K. exact K. }
  pose proof (write_group_commits [] BytewiseComparator (Forall is_u8) 4194304 (str "db") (fun _ => 0) (fun db => db) 0 (w_write_db vs) [] []
    (MkQueued 1 (Some (batch_Put [97] [1] batch_Clear)) false false Status_OK) (tail w_writers) [[OpPut [97] [1]]; []; [OpPut [98] [2]]] 0
    front_kept_refl (w_writable vs E) eq_refl eq_refl Ef ltac:(by vm_compute)) as Hthm.
  assert (∃ s f db', w_write vs = Some (s, f, db')) as (s & f & db' & Ew).
  { pose proof w_write_some as K. rewrite E in K. cbn [mbind option_bind] in K. destruct (w_write vs) as [[[s f] db']|]; [by eexists _, _, _|done]. }
  unfold w_write in Ew. rewrite Ew, El in Hthm. destruct Hthm as (k & rec & -> & H1 & _ & _ & _ & H2 & H3 & _).
  - intros a m Ha Hm. injection Ha as <-. injection Hm as <-. by vm_compute.
  - done.
  - by eexists.
  - exact w_writes.
  - apply (bool_decide_unpack _). by vm_compute.
  - by vm_compute.
  - by vm_compute.
  - exists f, db', k, rec. split_and!; [done|exact Ew|exact H1|exact H3|exact H2].
Defined.

(** A log with a put and a delete, cut off after 30 bytes and whole. *)
Definition w_rec1 : WriteBatch := SetSequence (batch_Put [97] [1] batch_Clear) 1.
Definition w_rec2 : WriteBatch := SetSequence (batch_Delete [97] batch_Clear) 2.
Definition w_prss : list (list (Z * Slice)) := [[(1, w_rec1)]; [(1, w_rec2)]].
Definition w_batches : list (Z * list op) := [(1, [OpPut [97] [1]]); (2, [OpDelete [97]])].

Definition w_crashed (cut : nat) : MemEnv := MkMemEnv {[LogFileName (str "db") 3 := take cut (layout 0 (concat w_prss))]} ∅ ∅ 1 None.

Lemma w_batches_ok : batches (Forall is_u8) [w_rec1; w_rec2] w_batches.
Proof.
  assert (is_u64 1 ∧ is_u64 2 ∧ is_u8 97 ∧ is_u8 1) as (? & ? & ? & ?) by (unfold is_u64, is_u8; lia). constructor; [|constructor; [|constructor]]; cbn [fst snd]; (split; [eapply SetSequence_holds; [|done]|]).
  - apply (add_op_holds batch_Clear 0 [] (OpPut [97] [1]) batch_Clear_holds). cbn. lia.
  - apply Forall_singleton. split_and!; [split_and!; [by apply Forall_singleton|by apply Forall_singleton|by vm_compute|by vm_compute]|by apply Forall_singleton|by vm_compute].
  - apply (add_op_holds batch_Clear 0 [] (OpDelete [97]) batch_Clear_holds). cbn. lia.
  - apply Forall_singleton. split_and!; [split_and!; [by apply Forall_singleton|by vm_compute]|by apply Forall_singleton|by vm_compute].
Qed.

Lemma w_blocks : in_blocks 0 (concat w_prss).
Proof.
  assert (∀ d, forallb (fun x => (0 <=? x) && (x <? 256)) d = true -> Forall is_u8 d) as Hu.
  { intros d Hd. rewrite forallb_forall in Hd. apply list.Forall_forall. intros x Hx. specialize (Hd x (proj1 (list_elem_of_In _ _) Hx)). unfold is_u8. lia. }
  cbn [concat w_prss app in_blocks]. split_and!; try (apply Hu; by vm_compute); vm_compute; congruence || done.
Qed.

#[local] Instance w_no_tables : TableCache MemEnv EmptyIterator := {|
  tc_Get _ _ _ _ w := Some (Status_OK, None, w);
  tc_NewIterator _ _ _ w := Some (MkEmpty Status_OK, w);
  tc_delete _ w := w;
  tc_Evict _ w := w;
|}.


(** The memtable has key 97 since number 10; read at 7, a file has it. *)
#[local] Existing Instance w_tables.

Definition w_read_db (vs : VersionSet unit) : DBImpl unit :=
  MkDB (set_versions [MkNode 0 1 w_version] (Some 0%nat) vs) {[0%nat := LdbMemThms.small_table]} 1 (Some 0%nat) None None None 0 ∅ Status_OK false false None SnapshotList_new [] batch_Clear.

Lemma w_check {A B} (P : A -> B -> bool) (l : list A) (l' : list B) : forallb (fun x => forallb (P x) l') l = true -> ∀ x y, x ∈ l -> y ∈ l' -> P x y = true.
Proof. intros Hl x y Hx Hy. rewrite forallb_forall in Hl. specialize (Hl x (proj1 (list_elem_of_In _ _) Hx)). rewrite forallb_forall in Hl. by apply Hl, list_elem_of_In. Qed.

Lemma w_stored_numbered : numbered BytewiseComparator (stored_entries w_contents w_version).
Proof.
  intros e e' He He' H1 H2. pose proof (w_check (fun e e' => bool_decide (e = e') || negb (Compare BytewiseComparator (e_key e) (e_key e') =? 0) || negb (e_seq e =? e_seq e'))
    (stored_entries w_contents w_version) (stored_entries w_contents w_version) ltac:(by vm_compute) e e' He He') as K. cbn beta in K. rewrite H1, H2, !Z.eqb_refl, !orb_false_r in K. by apply bool_decide_eq_true in K.
Qed.

Lemma w_newer : newer_than BytewiseComparator (entries_of 10 small_ops) ([] ++ stored_entries w_contents w_version).
Proof.
  intros e e' He He' _. apply Z.ltb_lt. revert e e' He He'. apply (w_check (fun e e' => e_seq e' <? e_seq e)). by vm_compute.
Qed.

Lemma w_keys_ok e : e ∈ entries_of 10 small_ops ++ [] ++ stored_entries w_contents w_version -> Forall is_u8 (e_key e).
Proof.
  intros He. assert (forallb (fun x => (0 <=? x) && (x <? 256)) (e_key e) = true) as K.
  { apply (w_check (fun (_ : unit) e => forallb (fun x => (0 <=? x) && (x <? 256)) (e_key e)) [tt] (entries_of 10 small_ops ++ [] ++ stored_entries w_contents w_version) ltac:(by vm_compute) tt e); [left|done]. }
  rewrite forallb_forall in K. apply list.Forall_forall. intros x Hx. specialize (K x (proj1 (list_elem_of_In _ _) Hx)). unfold is_u8. lia.
Qed.

Lemma db_read_newest_witness : ∃ vs stats db', VersionSet_new tt = Some vs ∧
  read_sources (D := unit) BytewiseComparator ReadOptions_new (LookupKey_new [97] 7) [] 0 None 0 (w_read_db vs) = Some (Status_OK, [60], stats, db').
Proof.
  destruct (VersionSet_new_ok BytewiseComparator (Forall is_u8) tt) as (vs & E & _). exists vs.
  destruct (db_read_newest (W := unit) (D := unit) BytewiseComparator (Forall is_u8) w_contents (fun _ => True) ReadOptions_new [97] [] 7 0 0 None (w_read_db vs) (entries_of 10 small_ops) [] (MkNode 0 1 w_version))
    as (stats & db' & H1 & _).
  - done.
  - repeat constructor; unfold is_u8; lia.
  - by vm_compute.
  - by split; vm_compute.
  - exists LdbMemThms.small_table. split; [done|]. apply small_table_holds.
  - apply (bool_decide_unpack _). by vm_compute.
  - done.
  - constructor.
  - done.
  - apply w_version_ok.
  - done.
  - apply w_holds.
  - intros files [= <-]. cbn. repeat (constructor; [set_solver|]). constructor.
  - intros l l' files files' f g Hl Hl' Hf Hg Hord. apply w_precedes_ok.
    destruct (w_files l files f Hl Hf) as [[-> [->| ->]]|[-> ->]], (w_files l' files' g Hl' Hg) as [[-> [->| ->]]|[-> ->]]; try (by vm_compute);
      exfalso; cbn in Hord; lia.
  - exact w_stored_numbered.
  - exact w_keys_ok.
  - exact w_newer.
  - intros e e' He. by apply not_elem_of_nil in He.
  - exists stats, db'. split; [done|]. rewrite H1. assert (read BytewiseComparator [97] 7 (entries_of 10 small_ops ++ [] ++ stored_entries w_contents (node_version (MkNode 0 1 w_version))) = Some [60]) as -> by (by vm_compute). done.
Defined.

(** ** Room for a write *)

Section Room.

Context `{NewChar} (regions : list region) (write_buffer_size : Z) (dbname : Slice).
Context {W : Type} `{!Env W} (interfere : DBImpl W -> DBImpl W) (work : DBImpl W -> nat).

(** A database that is open: a memtable, a current version, no older log. *)
Record is_open (db : DBImpl W) : Prop := {
  op_mem : ∃ a m, mem_ db = Some a ∧ mems db !! a = Some m ∧ (a < mem_fresh db)%nat;
  op_files : is_Some (NumLevelFiles 0 (versions_ db));
  op_prev_log : nm_prev_log (vs_numbers (versions_ db)) = 0;
}.

(** The writer has to wait for the background thread. *)
Definition blocked (db : DBImpl W) : Prop := imm_ db ≠ None ∨ ∃ files, NumLevelFiles 0 (versions_ db) = Some files ∧ kL0_StopWritesTrigger <= files.

Definition has_room (db : DBImpl W) : Prop := ∃ a m, mem_ db = Some a ∧ mems db !! a = Some m ∧ ApproximateMemoryUsage m <= write_buffer_size.

(** The other threads: they leave the memtable alone and make progress. *)
Record progresses (db db' : DBImpl W) : Prop := {
  pg_open : is_open db -> is_open db';
  pg_mem : mem_ db' = mem_ db ∧ ∀ a, mem_ db = Some a -> mems db' !! a = mems db !! a;
  pg_work : (work db' <= work db)%nat;
  pg_less : ok (bg_error_ db) = true -> blocked db -> (work db' < work db)%nat;
}.

Context (Hp : ∀ db, progresses db (interfere db)).
Local Abbreviation make_room := (MakeRoomForWrite regions write_buffer_size dbname interfere).

Definition made_room (force : bool) (db : DBImpl W) (r : option (Status * DBImpl W)) : Prop :=
  ∃ s db', r = Some (s, db') ∧ is_open db' ∧ (ok s = true -> has_room db' ∧ (force = true -> mem_ db' ≠ mem_ db)).

Lemma room_kept db : has_room db -> has_room (interfere db).
Proof using Hp. intros (a & m & M1 & M2 & M3). destruct (pg_mem _ _ (Hp db)) as [E1 E2]. exists a, m. by rewrite E1, (E2 a M1). Qed.

(** With room, it returns in two rounds, or one. *)
Lemma room_returns db (allow : bool) rounds : is_open db -> has_room db -> ((if allow then 2 else 1) <= rounds)%nat ->
  ∃ s db', make_room rounds allow false db = Some (s, db') ∧ is_open db' ∧ mem_ db' = mem_ db ∧ (ok s = true -> has_room db').
Proof using Hp.
  revert db allow. induction rounds as [|rounds IH]; intros db allow Ho Hr Hn; [destruct allow; lia|]. cbn [MakeRoomForWrite].
  destruct (ok (bg_error_ db)) eqn:Eb; cbn [negb]; [|eexists _, _; split_and!; [done|done|done|congruence]].
  destruct (op_files _ Ho) as [files ->]. pose proof Hr as (a & m & M1 & M2 & M3). cbn [mbind option_bind]. rewrite M1. cbn [mbind option_bind]. rewrite M2. cbn [mbind option_bind].
  destruct (allow && (kL0_SlowdownWritesTrigger <=? files)) eqn:Ed.
  - destruct allow; [|done]. destruct (IH (interfere db) false) as (s & db' & E & O' & M' & R'); [by apply Hp|by apply room_kept|lia|]. rewrite E. eexists _, _. split_and!; [done|done| |done]. rewrite M', <- M1. exact (proj1 (pg_mem _ _ (Hp db))).
  - cbn [negb andb]. rewrite (proj2 (Z.leb_le _ _) M3). by eexists _, _.
Qed.

Context (m0 : MemTable) (Hm0 : MemTable_new regions = Some m0) (Hsmall : ApproximateMemoryUsage m0 <= write_buffer_size).

Lemma schedule_returns (db : DBImpl W) : is_Some (NumLevelFiles 0 (versions_ db)) -> ∃ b, MaybeScheduleCompaction db = Some (if b : bool then with_scheduled true db else db).
Proof using Type.
  intros [files Hf]. unfold MaybeScheduleCompaction, NeedsCompaction, NumLevelFiles in *. destruct (current_version (versions_ db)) as [v|]; [|done]. cbn [mbind option_bind].
  destruct (background_compaction_scheduled_ db); [by exists false|]. destruct (shutting_down_ db); [by exists false|]. destruct (negb _); [by exists false|].
  set (needs := _ || _). clearbody needs. destruct (_ && _); cbn [mbind option_bind]; [|by exists true]. destruct needs; [by exists true|by exists false].
Qed.

Lemma switch_ok db : is_open db -> ∃ s db', switch_memtable regions dbname db = Some (s, db') ∧ is_open db' ∧ (ok s = true -> has_room db' ∧ mem_ db' ≠ mem_ db).
Proof using Hm0 Hsmall.
  intros [(a & m & M1 & M2 & M3) Hf Hl]. unfold switch_memtable. rewrite Hl. cbn [Z.eqb negb]. unfold NewFileNumber. destruct (NewWritableFile _ _) as [[s h] w].
  destruct (ok s) eqn:Es; cbn [negb].
  - unfold new_memtable. rewrite Hm0. cbn [mbind option_bind]. set (db1 := with_mems _ _ (Some _) _ _).
    assert (is_open db1) as Ho.
    { split; [exists (mem_fresh db), (Ref m0); split_and!; [done|apply lookup_insert_eq|cbn; lia]| |]; unfold db1; by destruct (logfile_ db). }
    destruct (schedule_returns db1) as [b ->]; [apply Ho|]. cbn [mbind option_bind]. eexists _, _. split; [done|].
    assert (has_room db1) as Hr by (exists (mem_fresh db), (Ref m0); split_and!; [done|apply lookup_insert_eq|done]).
    split; [destruct b; [|done]; destruct Ho; by split|]. intros _. split; [by destruct b|]. assert (mem_ db1 ≠ mem_ db) as Hne by (rewrite M1; intros [= ?]; lia). by destruct b.
  - eexists _, _. split; [done|]. split; [|congruence]. split; [by exists a, m| |]; cbn; unfold ReuseFileNumber; by destruct (_ =? _).
Qed.

Lemma room_made rounds db (allow force : bool) : is_open db -> (work db + (if allow then 1 else 0) + 3 <= rounds)%nat -> made_room force db (make_room rounds allow force db).
Proof using Hp Hm0 Hsmall.
  revert db allow. induction rounds as [|rounds IH]; intros db allow Ho Hn; [lia|]. pose proof (Hp db) as [P1 [P2 P3] P4 P5].
  assert (∀ allow' : bool, (work (interfere db) + (if allow' then 1 else 0) + 3 <= rounds)%nat -> made_room force db (make_room rounds allow' force (interfere db))) as Hwait.
  { intros allow' Hle. destruct (IH (interfere db) allow') as (s & db' & E & O' & R'); [by apply P1|done|]. exists s, db'. rewrite P2 in R'. done. }
  pose proof Ho as [(a & m & M1 & M2 & M3) [files Hf] _]. cbn [MakeRoomForWrite]. destruct (ok (bg_error_ db)) eqn:Eb; cbn [negb]; [|eexists _, _; split_and!; [done|done|congruence]].
  rewrite Hf. cbn [mbind option_bind]. rewrite M1. cbn [mbind option_bind]. rewrite M2. cbn [mbind option_bind].
  destruct (allow && _) eqn:Ed; [destruct allow; [apply Hwait; lia|done]|]. destruct (negb force && _) eqn:Er.
  { apply andb_prop in Er as [Ef Er%Z.leb_le]. exists Status_OK, db. split_and!; [done|done|]. intros _. split; [by exists a, m|]. by destruct force. }
  destruct (bool_decide (imm_ db = None)) eqn:Ei; cbn [negb]; [|apply bool_decide_eq_false in Ei; specialize (P5 eq_refl (or_introl Ei)); apply Hwait; lia].
  destruct (Z.leb_spec kL0_StopWritesTrigger files) as [Hst|_]; [specialize (P5 eq_refl (or_intror (ex_intro _ files (conj Hf Hst)))); apply Hwait; lia|].
  destruct (switch_ok db Ho) as (s & db1 & -> & O1 & R1). cbn [mbind option_bind]. destruct (ok s) eqn:Es; cbn [negb]; [|eexists _, _; split_and!; [done|done|congruence]].
  destruct (R1 eq_refl) as [Hr1 Hne]. destruct (room_returns db1 allow rounds O1 Hr1) as (s' & db' & E & O' & M' & R'); [destruct allow; lia|].
  exists s', db'. split_and!; [done|done|]. intros Hs. split; [by apply R'|]. by rewrite M'.
Qed.

End Room.

(** C15. The writer at the front of the queue does not wait for ever: when a new
    memtable can be allocated, and the other threads leave the memtable alone
    and every wait lets the background work advance ([progresses], for any
    measure of the work that is left), [MakeRoomForWrite] returns after at
    most four rounds more than there is work; its status is OK only if the
    memtable has room, and then, if a switch was asked for, it is a new one. *)
Theorem write_gets_room `{NewChar} {W : Type} `{!Env W} (regions : list region) (write_buffer_size : Z) (dbname : Slice) (interfere : DBImpl W -> DBImpl W) (work : DBImpl W -> nat)
    (m0 : MemTable) (rounds : nat) (force : bool) (db : DBImpl W) :
  (∀ db, progresses work db (interfere db)) -> MemTable_new regions = Some m0 -> ApproximateMemoryUsage m0 <= write_buffer_size -> is_open db -> (work db + 4 <= rounds)%nat ->
  ∃ s db', MakeRoomForWrite regions write_buffer_size dbname interfere rounds (negb force) force db = Some (s, db') ∧ is_open db' ∧
    (ok s = true -> has_room write_buffer_size db' ∧ (force = true -> mem_ db' ≠ mem_ db)).
Proof. intros Hp Hm Hs Ho Hr. apply (room_made _ _ _ _ work Hp m0 Hm Hs); [done|]. destruct (negb force); lia. Qed.

(** A background thread that is done with the full memtable at once, and gives
    up when level 0 has too many files. *)
Definition w_files (db : DBImpl MemEnv) : Z := default 0 (NumLevelFiles 0 (versions_ db)).

Definition w_background (db : DBImpl MemEnv) : DBImpl MemEnv :=
  if negb (ok (bg_error_ db)) then db
  else if negb (bool_decide (imm_ db = None)) then with_mems (mems db) (mem_fresh db) (mem_ db) None db
  else if kL0_StopWritesTrigger <=? w_files db then with_bg_error (Status_IOError [] []) db
  else db.

Definition w_work (db : DBImpl MemEnv) : nat :=
  if ok (bg_error_ db) then (if bool_decide (imm_ db = None) then 0 else 1) + (if kL0_StopWritesTrigger <=? w_files db then 1 else 0) else 0.

Lemma w_progresses db : progresses w_work db (w_background db).
Proof.
  assert (w_work (with_bg_error (Status_IOError [] []) db) = 0%nat) as He by done. set (db' := with_mems (mems db) (mem_fresh db) (mem_ db) None db).
  assert (w_work db = if ok (bg_error_ db) then (if bool_decide (imm_ db = None) then 0 else 1) + w_work db' else 0)%nat as Hw by (unfold w_work; cbn; by destruct (ok _)).
  assert (w_work db' = if ok (bg_error_ db) then if (kL0_StopWritesTrigger <=? w_files db)%Z then 1 else 0 else 0)%nat as Hw' by (unfold w_work; cbn; by destruct (ok _)).
  unfold w_background. destruct (ok (bg_error_ db)) eqn:Eb; cbn [negb]; [|by split; try congruence].
  destruct (bool_decide (imm_ db = None)) eqn:Ei; cbn [negb]; [destruct (Z.leb_spec kL0_StopWritesTrigger (w_files db)) as [Hs|Hs]|].
  - split; [by intros []|done|rewrite He; lia|intros; rewrite He; lia].
  - split; [done|done|done|]. intros _ [Hi|(files & Hf & Hl)]; [by apply bool_decide_eq_true in Ei|]. unfold w_files in Hs. rewrite Hf in Hs. cbn in Hs. lia.
  - fold db'. split; [by intros []|done|lia|lia].
Qed.

(** The memtable is full, and so is the one before. *)
Definition w_full_db (vs : VersionSet MemEnv) : option (DBImpl MemEnv) :=
  m ← MemTable_new []; Some (MkDB vs {[0%nat := m; 1%nat := m]} 2 (Some 1%nat) (Some 0%nat) (Some 1) (Some 0) 3 ∅ Status_OK false true None SnapshotList_new [] batch_Clear).

Lemma write_gets_room_witness : ∃ vs db s db', VersionSet_new w_log_disk = Some vs ∧ w_full_db vs = Some db ∧
  MakeRoomForWrite [] 4194304 (str "db") w_background 5 false true db = Some (s, db') ∧ is_open db' ∧ (ok s = true -> mem_ db' ≠ Some 1%nat).
Proof.
  destruct (VersionSet_new_ok BytewiseComparator (Forall is_u8) w_log_disk) as (vs & E & _ & _ & Hw & Hn & _).
  destruct (MemTable_new []) as [m0|] eqn:Em; [|by vm_compute in Em].
  assert (NumLevelFiles 0 vs = Some 0) as Ef.
  { assert ((vs ← VersionSet_new w_log_disk; NumLevelFiles 0 vs) = Some 0) as K by (by vm_compute). rewrite E in K. exact K. }
  assert (ApproximateMemoryUsage m0 <= 4194304) as Hu.
  { assert (option_map (fun m => ApproximateMemoryUsage m <=? 4194304) (MemTable_new []) = Some true) as K by (by vm_compute). rewrite Em in K. injection K as K. by apply Z.leb_le. }
  set (db := MkDB vs {[0%nat := m0; 1%nat := m0]} 2 (Some 1%nat) (Some 0%nat) (Some 1) (Some 0) 3 ∅ Status_OK false true None SnapshotList_new [] batch_Clear).
  destruct (write_gets_room [] 4194304 (str "db") w_background w_work m0 5 true db w_progresses Em Hu) as (s & db' & R & O & K).
  - split; [exists 1%nat, m0; split_and!; [done|done|cbn; lia]|by eexists|cbn; by rewrite Hn].
  - unfold w_work, w_files. cbn [bg_error_ imm_ versions_ db]. rewrite Ef. by vm_compute; lia.
  - exists vs, db, s, db'. split_and!; [done| |exact R|done|intros Hs; by apply K]. unfold w_full_db. by rewrite Em.
Defined.

(** ** Manual compactions and options *)

(** The database keeps no pointer to the caller's object when
    [TEST_CompactRange] returns. *)
Lemma manual_released {W : Type} `{!Env W} (others_m : ManualCompaction -> DBImpl W -> ManualCompaction * DBImpl W) (rounds id : nat) (level : Z) (begin end_ : option Slice) (db db' : DBImpl W) :
  (∀ m db, mc_id (others_m m db).1 = mc_id m) -> TEST_CompactRange others_m rounds id level begin end_ db = Some db' -> mc_id <$> manual_compaction_ db' ≠ Some id.
Proof.
  intros Hid. unfold TEST_CompactRange. destruct (negb _); [done|]. set (manual := MkManual id _ _ _ _). assert (mc_id manual = id) as Em by done. clearbody manual.
  intros (r & Hl & Hr)%bind_Some. assert (mc_id r.1 = id) as Er.
  { clear Hr. revert manual db Em Hl. induction rounds as [|rounds IH]; intros manual db Em; cbn [manual_loop]; destruct (_ && _); try done; try (by intros [= <-]).
    destruct (manual_compaction_ db) as [m|].
    - specialize (Hid manual db). destruct (others_m manual db) as [m' db1]. cbn in Hid. apply IH. congruence.
    - intros (db1 & _ & Hl)%bind_Some. by apply (IH manual db1). }
  destruct r as [m db1]. cbn in Er. injection Hr as <-. rewrite Er. destruct (bool_decide _) eqn:Eb; [done|]. by apply bool_decide_eq_false in Eb.
Qed.

(** A size below 2^31 is clipped to its range; the cast to [int] keeps one
    above the range, or takes it for a negative one. *)
Lemma ClipToRange_spec x lo hi : 0 <= lo <= hi -> hi < 2 ^ 31 -> 0 <= x < 2 ^ 31 -> ClipToRange x lo hi = Z.max lo (Z.min x hi).
Proof.
  intros Hr Hh Hx. assert (∀ y, 0 <= y < 2 ^ 31 -> s32 y = y) as Hs by (intros y Hy; unfold s32, swrap; rewrite Z.mod_small; lia).
  unfold ClipToRange. rewrite (Hs x) by lia. destruct (Z.ltb_spec hi x); [rewrite (Hs hi) by lia|rewrite (Hs x) by lia]; [destruct (Z.ltb_spec hi lo)|destruct (Z.ltb_spec x lo)]; lia.
Qed.

Lemma ClipToRange_wraps : ClipToRange (2 ^ 32 + 2 ^ 20) (2 ^ 16) (2 ^ 30) = 2 ^ 32 + 2 ^ 20 ∧ ClipToRange (3 * 2 ^ 30) (2 ^ 16) (2 ^ 30) = 2 ^ 16.
Proof. by split; vm_compute. Qed.

(** ** A memtable as an iterator *)

Section MemIterator.

Context (ucmp : Comparator) (okp : Slice -> Prop) `{!ComparatorLaws ucmp okp}.
Local Abbreviation icmp := (InternalKeyComparator ucmp).

(** The entries as the iterator shows them, in the order of the skip list. *)
Definition shown_entries (es : list entry) : list (Slice * Slice) := (fun e => (e_ikey e, e_value e)) <$> es.

(** Keys that can be sought: their length is a 32-bit number. *)
Definition seekable (k : Slice) : Prop := ikey_ok okp k ∧ size k < 2 ^ 32.

Context (m : MemTable) (es : list entry) (L : nat -> list nat).
Context (Hinv : skip_inv (KeyComparator ucmp) (mem_ok okp) (table_ m) L) (Hkeys : keys (table_ m) L = enc <$> es) (Hes : Forall (entry_ok okp) es).

Definition mem_at (it : MemTableIterator) (i : nat) : Prop := it = (m, L 0%nat !! i) ∧ (i <= length es)%nat.

Lemma length_nodes : length (L 0%nat) = length es.
Proof using Hinv Hkeys ComparatorLaws0. by rewrite <- (keys_length (KeyComparator ucmp) (mem_ok okp) (table_ m) L Hinv), Hkeys, length_fmap. Qed.

Lemma node_key i : iter_key (table_ m) (L 0%nat !! i) = enc <$> es !! i.
Proof using Hinv Hkeys ComparatorLaws0. by rewrite <- list_lookup_fmap, <- Hkeys, (keys_lookup (KeyComparator ucmp) (mem_ok okp)). Qed.

Lemma mem_entry e : entry_ok okp e -> mem_GetLengthPrefixedSlice (enc e) = e_ikey e ∧
  ('(len, p) ← varint32_at (enc e); Some (mem_GetLengthPrefixedSlice (drop (Z.to_nat len) p))) = Some (e_value e).
Proof using Type.
  intros He. split; [by apply (mem_slice_enc okp)|]. rewrite (varint32_at_enc okp) by done. cbn [mbind option_bind]. unfold LdbSlice.size. by rewrite Nat2Z.id, drop_app_length, (mem_slice_rest okp).
Qed.

Lemma encode_key k : seekable k -> mem_GetLengthPrefixedSlice (EncodeKey k) = k.
Proof using Type.
  intros [(Hu & _) Hs]. unfold EncodeKey, PutVarint32. rewrite <- (app_nil_r k) at 2. cbn [app]. by apply mem_slice_put.
Qed.

Lemma mem_cursor : @Cursor MemTableIterator (mem_iterator ucmp) icmp seekable (shown_entries es) mem_at.
Proof using Hinv Hkeys Hes ComparatorLaws0.
  pose proof length_nodes as Hlen. assert (length (shown_entries es) = length es) as Hls by apply length_fmap.
  assert (∀ i, (i < length es)%nat -> is_Some (L 0%nat !! i)) as Hsome by (intros i Hi; apply lookup_lt_is_Some_2; lia).
  assert (∀ i, (i < length es)%nat -> mem_Valid (L 0%nat !! i) = true) as Hvalid by (intros i [x ->]%Hsome; done).
  split.
  - intros it i [-> Hi]. unfold i_view, shown_entries. cbn [i_Valid i_key i_value mem_iterator fst snd]. unfold mem_key, mem_value. rewrite node_key, list_lookup_fmap. destruct (es !! i) as [e|] eqn:E.
    + rewrite (Hvalid i) by (by eapply lookup_lt_Some). cbn. rewrite list.Forall_lookup in Hes. destruct (mem_entry e (Hes i e E)) as [-> K]. cbn [mbind option_bind] in K. by rewrite K.
    + apply lookup_ge_None in E. by rewrite lookup_ge_None_2 by lia.
  - intros it i [-> Hi]. by rewrite Hls.
  - done.
  - intros it i [-> Hi]. eexists. split; [done|]. cbn. unfold mem_SeekToFirst. rewrite (iter_SeekToFirst_spec (KeyComparator ucmp) (mem_ok okp) _ L) by done. split; [done|lia].
  - intros it i [-> Hi]. cbn. unfold mem_SeekToLast. rewrite (iter_SeekToLast_spec (KeyComparator ucmp) (mem_ok okp) _ L) by done. cbn. eexists. split; [done|]. rewrite Hls. split; [|lia].
    rewrite last_lookup, Hlen. by replace (pred (length es)) with (length es - 1)%nat by lia.
  - intros it i k [-> Hi] Hk. cbn. unfold mem_Seek.
    destruct (iter_Seek_spec (KeyComparator ucmp) (mem_ok okp) (table_ m) L (EncodeKey k) Hinv) as (j & -> & Hj & Hlo & Hhi); [unfold mem_ok; rewrite encode_key by done; apply Hk|].
    rewrite Hkeys in Hj, Hlo, Hhi. rewrite length_fmap in Hj. cbn. eexists. split; [done|]. rewrite (seek_index_eq icmp k (shown_entries es) j); [by split|lia| |].
    + intros x kv Hx Hkv. unfold shown_entries in Hkv. rewrite list_lookup_fmap in Hkv. destruct (es !! x) as [e|] eqn:E; [|done]. injection Hkv as <-. rewrite list.Forall_lookup in Hlo. rewrite list.Forall_lookup in Hes.
      specialize (Hlo x (enc e)). rewrite lookup_take_lt, list_lookup_fmap, E in Hlo by done. specialize (Hlo eq_refl). unfold KeyComparator in Hlo. by rewrite encode_key, (mem_slice_enc okp e (Hes x e E)) in Hlo.
    + intros kv Hkv. unfold shown_entries in Hkv. rewrite list_lookup_fmap in Hkv. destruct (es !! j) as [e|] eqn:E; [|done]. injection Hkv as <-. rewrite list.Forall_lookup in Hhi. rewrite list.Forall_lookup in Hes.
      specialize (Hhi O (enc e)). rewrite lookup_drop, Nat.add_0_r, list_lookup_fmap, E in Hhi. specialize (Hhi eq_refl). unfold KeyComparator in Hhi. rewrite encode_key, (mem_slice_enc okp e (Hes j e E)) in Hhi by done.
      assert (ikey_ok okp (e_ikey e)) as Hik by (apply ikey_ok_ikey; apply (Hes j e E)). pose proof (InternalCompare_antisym ucmp okp (e_ikey e) k Hik (proj1 Hk)). cbn. lia.
  - intros it i [-> Hi] Hlt. rewrite Hls in Hlt. cbn [i_Next mem_iterator fst snd]. rewrite (Hvalid i) by lia. eexists. split; [done|]. unfold mem_Next. rewrite (iter_Next_spec (KeyComparator ucmp) (mem_ok okp)) by (done || lia). split; [done|lia].
  - intros it i [-> Hi] Hlt. rewrite Hls in Hlt. cbn [i_Prev mem_iterator fst snd]. rewrite (Hvalid i) by lia. unfold mem_Prev. rewrite (iter_Prev_spec (KeyComparator ucmp) (mem_ok okp)) by (done || lia). cbn. eexists. split; [done|].
    rewrite Hls. destruct i as [|i]; (split; [|lia]); [by rewrite lookup_ge_None_2 by lia|done].
Qed.

End MemIterator.

(** ** Writing a memtable to a table *)

(** A relation between the states of the disk that holds as long as only the
    file [f] is written: it is kept by everything that is done to an open
    object of [f], and by the table cache, which only reads. *)
Class WritesOnly {W D : Type} `{!Env W, !EnvView W, !DiskView W} `{!Iterator D} `{!TableCache W D} (R : Slice -> W -> W -> Prop) : Prop := {
  wo_order f :: PreOrder (R f);
  wo_new f w s h w' : NewWritableFile f w = (s, h, w') -> R f w w';
  wo_append f d h x w s w' : good w -> pending w h = Some (f, d) -> file_Append h x w = (s, w') -> R f w w';
  wo_flush f d h w s w' : good w -> pending w h = Some (f, d) -> file_Flush h w = (s, w') -> R f w w';
  wo_sync f d h w s w' : good w -> pending w h = Some (f, d) -> file_Sync h w = (s, w') -> R f w w';
  wo_close f d h w s w' : good w -> pending w h = Some (f, d) -> file_Close h w = (s, w') -> R f w w';
  wo_closed f h w : pending w h = None -> R f w (delete_writable h w);
  wo_delete f w : R f w (env_DeleteFile f w).2;
  wo_tables f n size w it w' : tc_NewIterator ReadOptions_new n size w = Some (it, w') -> R f w w' ∧ R f w' (tc_delete it w');
}.

Definition any_state {W : Type} (f : Slice) (w w' : W) : Prop := True.

#[export] Instance any_writes {W D : Type} `{!Env W, !EnvView W, !DiskView W} `{!Iterator D} `{!TableCache W D} : WritesOnly (D := D) (any_state (W := W)).
Proof. by split; [split|..]. Qed.

Section Flush.

Context (ucmp : Comparator) (okp : Slice -> Prop) `{!ComparatorLaws ucmp okp} (Hbytes : ∀ k, okp k -> Forall is_u8 k).
Context (topts : Options) (Hcmp : comparator topts = InternalKeyComparator ucmp) (max_file_size : Z) (dbname : Slice) (addr : Slice -> Z).
Context {W D : Type} `{!Env W, !EnvView W, !DiskView W, !DiskLaws W} `{!EnvDir W} `{!Iterator D} `{!TableCache W D}.
Context (Hopens : opens_tables ucmp okp topts dbname addr (W := W) (D := D)) (R : Slice -> W -> W -> Prop) `{!WritesOnly (D := D) R}.
Local Abbreviation icmp := (InternalKeyComparator ucmp).
Local Abbreviation table := (TableFileName dbname).
Local Abbreviation building_on := (building_on topts dbname addr).
Local Abbreviation is_table := (is_table topts addr).
Local Abbreviation fine := (fine ucmp okp).
#[local] Existing Instance env_writable.

Lemma table_size kvs d size : fine kvs -> is_table kvs d size -> size = u64 (LdbSlice.size d) ∧ 0 < LdbSlice.size d.
Proof using ComparatorLaws0 Hbytes Hcmp.
  intros [F1 F2] (r & Hr & <- & <-). assert (ComparatorLaws (comparator topts) (ikey_ok okp)) as Hl by (rewrite Hcmp; by apply internal_laws). rewrite <- Hcmp in F1.
  destruct (Adds_spec (F := Slice) addr topts (ikey_ok okp) ([] : Slice) kvs) as (blks & last & idx & Hb & E); [reflexivity|done|done|].
  destruct (Finish_spec addr topts (ikey_ok okp) _ _ _ _ Hb) as (r' & blks' & idx' & Hf & _ & _ & _ & Hc & Hs); [by rewrite E|]. rewrite Hf in Hr. injection Hr as <-.
  split; [exact Hs|]. cbn in Hc. rewrite Hc. unfold table_bytes. rewrite size_app, Footer_size. match goal with |- context [LdbSlice.size (area ?a ?r)] => pose proof (size_nonneg (area a r)) end. unfold kEncodedLength, kMaxEncodedLength. lia.
Qed.

Lemma in_world_same (b : TableBuilder (Z * W)) (w : W) : (file b).2 = w -> in_world w b = b.
Proof using Type. destruct b as [? ? [h w0] ?]. cbn. by intros ->. Qed.

(** The open object [h] of [f], while [R] holds since [w0]. *)
#[local] Instance related_open (f : Slice) (h : Z) (w0 : W) : OpenFile (WritableFile0 := env_writable) (Z * W).
Proof using DiskLaws0 WritesOnly0.
  refine {| file_data := data_of; writable x := open_on f h w0 x ∧ R f w0 x.2 |}.
  - intros s [h' w] [Ho Hr]. destruct (append_open (OpenFile := manifest_open f h w0) s (h', w) Ho) as (x' & E & E' & Ho'). exists x'. split_and!; [done|done|done|].
    destruct Ho as (Eh & Hg & (d & Hp) & _). cbn in Eh, Hg, Hp. subst h'. etransitivity; [exact Hr|]. cbn in E |- *. destruct (file_Append h s w) as [st w'] eqn:Ea. injection E as _ <-. by eapply wo_append.
  - intros [h' w] [Ho Hr]. destruct (flush_open (OpenFile := manifest_open f h w0) (h', w) Ho) as (x' & E & E' & Ho'). exists x'. split_and!; [done|done|done|].
    destruct Ho as (Eh & Hg & (d & Hp) & _). cbn in Eh, Hg, Hp. subst h'. etransitivity; [exact Hr|]. cbn in E |- *. destruct (file_Flush h w) as [st w'] eqn:Ea. injection E as _ <-. by eapply wo_flush.
Defined.

Lemma in_world_related w b n h cur : good w -> building_on w b n h cur -> follows (OpenFile0 := related_open (table n) h w) (in_world w b) (build_table addr topts ([] : Slice) cur).
Proof using DiskLaws0 WritesOnly0. intros Hg Hb. destruct (in_world_follows topts dbname addr w b n h cur Hg Hb) as [F1 F2 F3]. split; [done| |done]. by split. Qed.

Lemma add_related w b n h cur k v : good w -> building_on w b n h cur -> R (table n) w (file (TableBuilder_Add addr k v (in_world w b))).2.
Proof using DiskLaws0 WritesOnly0. intros Hg Hb. by destruct (follows_add addr k v _ _ (in_world_related w b n h cur Hg Hb)) as [_ [_ ?] _]. Qed.

Lemma finish_related w b n h cur s b' : good w -> building_on w b n h cur -> fine cur -> TableBuilder_Finish addr (in_world w b) = Some (s, b') -> R (table n) w (file b').2.
Proof using ComparatorLaws0 Hbytes Hcmp DiskLaws0 WritesOnly0.
  intros Hg Hb [r Hr]%(fine_table ucmp okp Hbytes topts Hcmp addr) Hf. destruct (follows_finish addr _ _ _ (in_world_related w b n h cur Hg Hb) Hr eq_refl) as (b1 & E & [_ [_ ?] _]). rewrite E in Hf. by injection Hf as _ <-.
Qed.

Lemma close_related w h f d w1 w2 : good w -> pending w h = Some (f, d) -> file_Sync h w = (Status_OK, w1) -> file_Close h w1 = (Status_OK, w2) -> R f w (delete_writable h w2).
Proof using DiskLaws0 WritesOnly0.
  intros Hg Hp E1 E2. destruct (disk_sync _ _ _ _ _ _ Hg Hp E1) as (_ & G1 & _ & _). destruct (sync_law _ _ _ _ _ _ Hp E1) as (_ & _ & P1). specialize (P1 eq_refl).
  destruct (close_law _ _ _ _ _ _ P1 E2) as (_ & _ & P2). destruct (P2 eq_refl) as [P3 _]. etransitivity; [by eapply wo_sync|]. etransitivity; [by eapply wo_close|]. by apply wo_closed.
Qed.

Lemma verify_related f n size w s w' : verify_table n size w = Some (s, w') -> R f w w'.
Proof using WritesOnly0.
  unfold verify_table. intros ([it w1] & E & [= _ <-])%bind_Some. destruct (wo_tables f n size w it w1 E) as [? ?]. by transitivity w1.
Qed.

Context {I : Type} `{!Iterator I} (P : Slice -> Prop) (kvs : list (Slice * Slice)) (iat : I -> nat -> Prop) `{!Cursor icmp P kvs iat}.

Lemma cursor_valid it i : iat it i -> i_Valid it = bool_decide (i < length kvs)%nat ∧ ∀ kv, kvs !! i = Some kv -> i_key it = kv.1 ∧ i_value it = kv.2.
Proof using Cursor0.
  intros Hi. pose proof (cur_view it i Hi) as Hv. unfold i_view in Hv. destruct (i_Valid it).
  - split; [symmetry; apply bool_decide_eq_true; apply lookup_lt_is_Some; by rewrite <- Hv|]. intros kv Hkv. rewrite Hkv in Hv. injection Hv as <-. done.
  - split; [symmetry; apply bool_decide_eq_false; intros [kv Hkv]%lookup_lt_is_Some; congruence|]. congruence.
Qed.

Lemma build_loop_ok number h rest : ∀ n i it large b w cur, drop i kvs = rest -> iat it i -> (length rest <= n)%nat -> good w -> (file b).2 = w -> building_on w b number h cur ->
  ∃ it' b', build_loop addr n it large b = Some (it', default large (fst <$> list.last rest), b') ∧ iat it' (length kvs) ∧
    let w' := (file b').2 in good w' ∧ same_but (table number) w w' ∧ building_on w' b' number h (cur ++ rest) ∧ R (table number) w w'.
Proof using Cursor0 DiskLaws0 WritesOnly0.
  induction rest as [|[k v] rest IH]; intros n i it large b w cur Hd Hi Hn Hg Hw Hb.
  - assert (i = length kvs) as ->. { pose proof (cur_bound it i Hi). pose proof (length_drop kvs i) as Hl. rewrite Hd in Hl. cbn in Hl. lia. }
    exists it, b. rewrite app_nil_r. destruct (cursor_valid it _ Hi) as [Hv _]. rewrite bool_decide_eq_false_2 in Hv by lia. split; [destruct n; cbn [build_loop]; by rewrite Hv|]. cbv zeta. rewrite Hw. split_and!; [done|done|by intros ? ?|done|done].
  - assert (kvs !! i = Some (k, v)) as Hk by (rewrite <- (Nat.add_0_r i), <- lookup_drop, Hd; done). destruct n as [|n]; cbn [length] in Hn; [lia|].
    destruct (cursor_valid it i Hi) as [Hv Hkv]. destruct (Hkv _ Hk) as [Ek Ev].
    assert (i < length kvs)%nat as Hlt by (by eapply lookup_lt_Some). rewrite bool_decide_eq_true_2 in Hv by done. cbn [build_loop]. rewrite Hv, Ek, Ev.
    destruct (cur_next it i Hi Hlt) as (it1 & -> & Hi1). cbn [mbind option_bind fst snd].
    pose proof (building_add topts dbname addr w b number h cur k v Hg Hb) as (G1 & S1 & _ & B1). pose proof (add_related w b number h cur k v Hg Hb) as R1. rewrite (in_world_same b w Hw) in G1, S1, B1, R1.
    destruct (IH n (S i) it1 k (TableBuilder_Add addr k v b) (file (TableBuilder_Add addr k v b)).2 (cur ++ [(k, v)])) as (it' & b' & E & A1 & G2 & S2 & B2 & R2); [|done|lia|exact G1|done|exact B1|].
    { rewrite <- (Nat.add_1_r i), <- drop_drop, Hd. done. }
    exists it', b'. rewrite E. split_and!; [|done|done| |by rewrite <- app_assoc in B2|].
    + rewrite (last_cons (k, v) rest). by destruct (list.last rest).
    + by apply (same_but_trans _ _ _ _ S1).
    + by etransitivity; [exact R1|].
Qed.

Lemma BuildTable_ok rounds number it i w : iat it i -> kvs ≠ [] -> fine kvs -> (length kvs <= rounds)%nat -> good w -> (∀ d size, is_table kvs d size -> LdbSlice.size d < 2 ^ 64) ->
  ∃ it' w' size d small large, BuildTable dbname topts addr (D := D) rounds number it w = Some (Status_OK, FileMetaData_new number size small large, it', w') ∧
    fst <$> head kvs = Some small ∧ fst <$> list.last kvs = Some large ∧ 0 < size ∧ LdbFilenameThms.contents w' (table number) = Some d ∧ is_table kvs d size ∧
    good w' ∧ same_but (table number) w w' ∧ R (table number) w w'.
Proof using ComparatorLaws0 Hbytes Hcmp DiskLaws0 Hopens Cursor0 WritesOnly0.
  intros Hi Hne Hf Hr Hg Hsz. unfold BuildTable. destruct (cur_first it i Hi) as (it1 & -> & H1). cbn [mbind option_bind].
  assert (0 < length kvs)%nat as Hlen by (by destruct kvs; [|cbn; lia]). destruct (lookup_lt_is_Some_2 kvs 0 Hlen) as [kv H0]. destruct (cursor_valid it1 0 H1) as [-> Hkv]. destruct (Hkv kv H0) as [-> _].
  rewrite bool_decide_eq_true_2 by done. destruct (NewWritableFile (table number) w) as [[s h] w1] eqn:E. destruct (disk_new _ _ _ _ _ Hg E) as (-> & G1 & _ & _).
  destruct (new_law _ _ _ _ _ E) as [L1 L2]. specialize (L2 eq_refl). change (ok None) with true. cbn [negb].
  assert (building_on w1 (TableBuilder_new topts (h, w1)) number h []) as Hb by (split_and!; [done|done|done|by exists []]).
  destruct (build_loop_ok number h kvs rounds 0 it1 [] (TableBuilder_new topts (h, w1)) w1 [] (drop_0 kvs) H1 Hr G1 eq_refl Hb) as (it2 & b2 & -> & H2 & G2 & S2 & B2 & R2). cbn [mbind option_bind app] in *.
  pose proof (building_finish ucmp okp Hbytes topts Hcmp dbname addr _ b2 number h kvs G2 B2 Hf) as (h' & w3 & b3 & d & Efin & Eb3 & -> & G3 & S3 & _ & P3 & T3). pose proof (finish_related _ b2 number h kvs _ _ G2 B2 Hf Efin) as R3. rewrite Eb3 in R3. rewrite (in_world_same b2) in Efin by done.
  rewrite Efin. cbn [mbind option_bind]. destruct (table_size kvs d _ Hf T3) as [Es Hpos]. rewrite u64_small in Es by (pose proof (Hsz d _ T3); lia).
  change (ok Status_OK) with true. rewrite (proj2 (Z.eqb_neq (FileSize b3) 0)) by lia. cbn [andb]. cbv iota. rewrite Eb3. cbn [snd].
  destruct (close_file w3 h _ d G3 P3) as (w4 & w5 & E4 & E5 & G6 & S6 & C6). pose proof (close_related w3 h _ d w4 w5 G3 P3 E4 E5) as R4. rewrite E4. change (ok Status_OK) with true. cbv iota. rewrite E5. change (ok Status_OK) with true. cbv iota.
  destruct (verify_ok ucmp okp topts dbname addr Hopens _ number kvs d (FileSize b3) G6 C6 Hne Hf T3) as (w7 & E7 & G7 & S7). pose proof (verify_related (table number) _ _ _ _ _ E7) as R7. rewrite E7. cbn [mbind option_bind].
  unfold keep_or_delete. rewrite (cur_status it2 _ H2). change (ok Status_OK) with true. cbn [andb file_size FileMetaData_new]. rewrite (proj2 (Z.ltb_lt 0 (FileSize b3))) by lia.
  exists it2, w7, (FileSize b3), d, kv.1, (default [] (fst <$> list.last kvs)). split_and!; [done|by rewrite head_lookup, H0| |lia|by rewrite S7|done|done| |].
  - destruct (list.last kvs) eqn:El; [done|]. by apply last_None in El.
  - intros f Hn. rewrite S7, S6, S3, S2, L1; done.
  - etransitivity; [by apply (wo_new _ _ _ _ _ E)|]. etransitivity; [exact R2|]. etransitivity; [exact R3|]. by etransitivity; [exact R4|].
Qed.

End Flush.

(** ** The level of a new table *)

Section PickLevel.

Context (ucmp : Comparator) (okp : Slice -> Prop) `{!ComparatorLaws ucmp okp} (Hbytes : ∀ k, okp k -> Forall is_u8 k) (max_file_size : Z).
Context (v : Version) (Hv : version_ok ucmp okp v) (small large : Slice) (Hsmall : okp small) (Hlarge : okp large).

(** No file of the level meets the range. *)
Definition level_clear (l : nat) : Prop := ∀ files f, files_ v !! l = Some files -> f ∈ files -> overlaps ucmp (Some small) (Some large) f = false.

Lemma OverlapInLevel_ok level : 0 <= level < kNumLevels -> ∃ b, OverlapInLevel ucmp level (Some small) (Some large) v = Some b ∧ (b = false -> level_clear (Z.to_nat level)).
Proof using ComparatorLaws0 Hbytes Hv Hsmall Hlarge.
  intros Hl. destruct (level_files_some ucmp okp v level Hv Hl) as (files & E & Ef). unfold OverlapInLevel. rewrite E. cbn [mbind option_bind]. destruct (vo_files _ _ _ Hv _ _ Ef) as [Hok Hlen].
  rewrite (SomeFileOverlapsRange_exact ucmp okp Hbytes); [|intros ?%Z.ltb_lt; by apply (vo_sorted _ _ _ Hv (Z.to_nat level)); [lia|]|done|done|done|done].
  eexists. split; [done|]. intros Hx files' f Hf Hin. rewrite Ef in Hf. injection Hf as <-. destruct (overlaps _ _ _ f) eqn:Eo; [|done]. rewrite <- Hx. symmetry. apply existsb_exists. exists f. by rewrite <- list_elem_of_In.
Qed.

Lemma pick_level_ok n : ∀ level, 0 <= level -> level + Z.of_nat n < kNumLevels -> (∀ l, Z.of_nat l <= level -> level_clear l) ->
  ∃ level', pick_level_loop ucmp max_file_size n level small large (InternalKey_new small kMaxSequenceNumber kValueTypeForSeek) (InternalKey_new large 0 kTypeDeletion) v = Some level' ∧
    level <= level' <= level + Z.of_nat n ∧ ∀ l, Z.of_nat l <= level' -> level_clear l.
Proof using ComparatorLaws0 Hbytes Hv Hsmall Hlarge.
  induction n as [|n IH]; intros level Hl Hn Hc; cbn [pick_level_loop]; [exists level; split_and!; [done|lia|lia|done]|].
  destruct (OverlapInLevel_ok (level + 1) ltac:(lia)) as (b & -> & Hb). cbn [mbind option_bind]. destruct b; [exists level; split_and!; [done|lia|lia|done]|].
  set (too_big := if _ <? _ then _ else _). assert (∃ x, too_big = Some x) as [x ->].
  { unfold too_big. destruct (Z.ltb_spec (level + 2) kNumLevels); [|by eexists]. destruct (level_files_some ucmp okp v (level + 2) Hv ltac:(lia)) as (files & E & _).
    assert (∀ k s t, okp k -> end_ok okp (ExtractUserKey <$> Some (InternalKey_new k s t))) as He by (intros k s t Hk; cbn; by apply (InternalKey_new_ok okp Hbytes k s t)).
    destruct (GetOverlappingInputs_spec ucmp okp Hbytes v (level + 2) files (Some (InternalKey_new small kMaxSequenceNumber kValueTypeForSeek)) (Some (InternalKey_new large 0 kTypeDeletion)) Hv ltac:(lia) E) as (inputs & -> & _);
      [by apply He|by apply He|by eexists]. }
  cbn [mbind option_bind]. destruct x; [exists level; split_and!; [done|lia|lia|done]|].
  destruct (IH (level + 1)) as (level' & E & Hr & Hc'); [lia|lia| |exists level'; split_and!; [done|lia|lia|done]].
  intros l Hle. destruct (decide (Z.of_nat l = level + 1)) as [El|]; [|apply Hc; lia]. specialize (Hb eq_refl). by replace (Z.to_nat (level + 1)) with l in Hb by lia.
Qed.

Lemma PickLevel_ok : ∃ level, PickLevelForMemTableOutput ucmp max_file_size small large v = Some level ∧ 0 <= level <= kMaxMemCompactLevel ∧
  (0 < level -> ∀ l, Z.of_nat l <= level -> level_clear l).
Proof using ComparatorLaws0 Hbytes Hv Hsmall Hlarge.
  unfold PickLevelForMemTableOutput. destruct (OverlapInLevel_ok 0 ltac:(done)) as (b & -> & Hb). cbn [mbind option_bind]. destruct b; [exists 0; split_and!; [done|done|done|lia]|].
  destruct (pick_level_ok (Z.to_nat kMaxMemCompactLevel) 0) as (level & E & Hr & Hc); [lia|done| |].
  - intros l Hl. replace l with (Z.to_nat 0) by lia. by apply Hb.
  - exists level. split_and!; [exact E|lia| |done]. unfold kMaxMemCompactLevel in *. lia.
Qed.

End PickLevel.

(** The entries of a memtable are fine for a table, and read back. *)
Lemma shown_fine (ucmp : Comparator) (okp : Slice -> Prop) `{!ComparatorLaws ucmp okp} (m : MemTable) (es : list entry) (L : nat -> list nat) :
  skip_inv (KeyComparator ucmp) (mem_ok okp) (table_ m) L -> keys (table_ m) L = enc <$> es -> Forall (entry_ok okp) es ->
  fine ucmp okp (shown_entries es) ∧ Forall2 (fun kv e => parsed_entry kv = Some e) (shown_entries es) es.
Proof.
  intros Hi Hk He. pose proof He as He'. rewrite list.Forall_forall in He'. split; [split|].
  - intros i j [k1 v1] [k2 v2] Hij H1 H2. unfold shown_entries in *. rewrite list_lookup_fmap in H1, H2. destruct (es !! i) as [e1|] eqn:E1; [|done]. destruct (es !! j) as [e2|] eqn:E2; [|done].
    injection H1 as <- <-. injection H2 as <- <-. pose proof (LdbSkipIter.keys_sorted (KeyComparator ucmp) (mem_ok okp) (table_ m) L Hi) as Hs. rewrite Hk in Hs.
    pose proof (sorted_lookup (KeyComparator ucmp) _ i j (enc e1) (enc e2) Hs Hij ltac:(by rewrite list_lookup_fmap, E1) ltac:(by rewrite list_lookup_fmap, E2)) as Hlt.
    unfold KeyComparator in Hlt. by rewrite !(mem_slice_enc okp) in Hlt by (apply He'; by eapply list_elem_of_lookup_2).
  - apply Forall_fmap. eapply list.Forall_impl; [exact He|]. intros e Hok. apply ikey_ok_ikey; apply Hok.
  - apply Forall2_fmap_l, Forall2_same_length_lookup. split; [done|]. intros i e1 e2 H1 H2. rewrite H1 in H2. injection H2 as <-. destruct (He' e1 ltac:(by eapply list_elem_of_lookup_2)) as [Hsq _ _ _].
    pose proof (ParseInternalKey_append (PIK (e_key e1) (e_seq e1) (e_type e1)) Hsq) as Hp. rewrite AppendInternalKey_ikey in Hp. cbn [app user_key sequence type] in Hp.
    change ((k ← ParseInternalKey (ikey (e_key e1) (PackSequenceAndType (e_seq e1) (e_type e1))); Some (Entry (sequence k) (type k) (user_key k) (e_value e1))) = Some e1). rewrite Hp. by destruct e1.
Qed.

(** The file [number] holds exactly the entries [h], sorted, and [f] is its
    description. *)
Definition holds_table {W : Type} `{!EnvView W} (ucmp : Comparator) (okp : Slice -> Prop) (topts : Options) (dbname : Slice) (addr : Slice -> Z) (w : W) (number : Z) (h : list entry) (f : FileMetaData) : Prop :=
  ∃ es d first last, f = FileMetaData_new number (file_size f) (e_ikey first) (e_ikey last) ∧ es ≡ₚ h ∧ head es = Some first ∧ list.last es = Some last ∧
    fine ucmp okp (shown_entries es) ∧ Forall2 (fun kv e => parsed_entry kv = Some e) (shown_entries es) es ∧
    LdbFilenameThms.contents w (TableFileName dbname number) = Some d ∧ is_table topts addr (shown_entries es) d (file_size f) ∧ 0 < file_size f.

(** A memtable that may be empty is written. *)
Lemma build_memtable {W D : Type} `{!Env W, !EnvView W, !DiskView W, !DiskLaws W} `{!EnvDir W} `{!Iterator D} `{!TableCache W D} (R : Slice -> W -> W -> Prop) `{!WritesOnly (D := D) R}
    (ucmp : Comparator) (okp : Slice -> Prop) `{!ComparatorLaws ucmp okp} (topts : Options) (dbname : Slice) (addr : Slice -> Z) (rounds : nat) (number : Z) (m : MemTable) (h : list entry) (w : W) :
  (∀ k, okp k -> Forall is_u8 k) -> comparator topts = InternalKeyComparator ucmp -> opens_tables (W := W) (D := D) ucmp okp topts dbname addr ->
  mem_holds ucmp okp m h -> (length h <= rounds)%nat -> good w -> (∀ es d size, es ≡ₚ h -> is_table topts addr (shown_entries es) d size -> LdbSlice.size d < 2 ^ 64) ->
  ∃ meta it w', BuildTable dbname topts addr (D := D) (Iterator1 := mem_iterator ucmp) rounds number (NewMemTableIterator m) w = Some (Status_OK, meta, it, w') ∧
    same_but (TableFileName dbname number) w w' ∧ R (TableFileName dbname number) w w' ∧
    if bool_decide (h = []) then file_size meta = 0 ∧ w' = (env_DeleteFile (TableFileName dbname number) w).2
    else good w' ∧ holds_table ucmp okp topts dbname addr w' number h meta.
Proof.
  intros Hbytes Hcmp Hopens (es & (L & Hi & Hkeys & Hes) & Hperm) Hr Hg Hsz. destruct (shown_fine ucmp okp m es L Hi Hkeys Hes) as [Hf Hp]. pose proof (mem_cursor ucmp okp m es L Hi Hkeys Hes) as Hcur.
  assert (mem_at m es L (NewMemTableIterator m) (length es)) as Hat by (split; [|done]; unfold NewMemTableIterator; f_equal; symmetry; apply lookup_ge_None; by rewrite (length_nodes ucmp okp m es L)).
  assert (length (shown_entries es) = length h) as Hlen by (unfold shown_entries; rewrite length_fmap; by apply Permutation_length).
  destruct (bool_decide_reflect (h = [])) as [->|Hne].
  - apply Permutation_nil_r in Hperm as ->. unfold BuildTable. destruct (cur_first (Cursor := Hcur) _ _ Hat) as (it1 & -> & H1). cbn [mbind option_bind].
    pose proof (cur_view (Cursor := Hcur) _ _ H1) as Hv. unfold i_view in Hv. destruct (i_Valid it1); [done|]. unfold keep_or_delete. rewrite (cur_status (Cursor := Hcur) _ _ H1). change (ok Status_OK) with true. cbn [andb file_size FileMetaData_new].
    rewrite Z.ltb_irrefl. eexists _, _, _. split; [done|]. split_and!; [apply delete_law|apply wo_delete|done|done].
  - assert (es ≠ []) as Hne' by (intros ->; by apply Permutation_nil_l in Hperm).
    destruct (BuildTable_ok ucmp okp Hbytes topts Hcmp dbname addr Hopens R (Iterator1 := mem_iterator ucmp) (seekable okp) (shown_entries es) (mem_at m es L) rounds number
      (NewMemTableIterator m) (length es) w Hat) as (it' & w' & size & d & small & large & -> & H1 & H2 & H3 & H4 & H5 & H6 & H7 & H8);
      [intros Hz; apply Hne'; by destruct es|done|lia|done|intros d size; by apply Hsz|].
    destruct (head es) as [first|] eqn:Efirst; [|by destruct es]. destruct (list.last es) as [last|] eqn:Elast; [|by apply last_None in Elast].
    eexists _, _, _. split; [done|]. split_and!; [done|done|done|]. exists es, d, first, last. split_and!; try done. cbn [file_size FileMetaData_new]. f_equal.
    + destruct es as [|e es']; [done|]. injection Efirst as ->. by injection H1.
    + unfold shown_entries in H2. rewrite fmap_last, Elast in H2. by injection H2.
Qed.

(** What the other threads leave alone while a memtable is written. *)
Record flush_kept {W : Type} `{!DiskView W} (base : option nat) (db db' : DBImpl W) : Prop := {
  fl_good : good (db_env db) -> good (db_env db');
  fl_base id n : base = Some id -> find_node id (versions_ db) = Some n -> ∃ n', find_node id (versions_ db') = Some n' ∧ files_ (node_version n') = files_ (node_version n);
}.

(** C8. On a disk without failures, with a table cache that opens what was
    written, [WriteLevel0Table] ends with OK for every memtable that is not
    empty.  It takes the next file number; the file of that number is a table
    that holds exactly the entries of the memtable, sorted, and no other file
    changes.  The edit gets this file with its size and its first and last
    key, at a level of at most two; above level 0 only when no file of the
    base version, at that level or before it, shares a user key with it, so
    that newer entries never come to lie under older ones. *)
Theorem memtable_written {W D : Type} `{!Env W, !EnvView W, !DiskView W, !DiskLaws W} `{!EnvDir W} `{!Iterator D} `{!TableCache W D}
    (ucmp : Comparator) (okp : Slice -> Prop) `{!ComparatorLaws ucmp okp} (topts : Options) (max_file_size : Z) (dbname : Slice) (addr : Slice -> Z)
    (interfere : DBImpl W -> DBImpl W) (rounds mem : nat) (base : option nat) (edit : VersionEdit) (db : DBImpl W) (m : MemTable) (h : list entry) :
  (∀ k, okp k -> Forall is_u8 k) -> comparator topts = InternalKeyComparator ucmp -> opens_tables (W := W) (D := D) ucmp okp topts dbname addr -> (∀ db, flush_kept base db (interfere db)) ->
  good (db_env db) -> mems db !! mem = Some m -> mem_holds ucmp okp m h -> h ≠ [] -> (length h <= rounds)%nat ->
  (∀ es d size, es ≡ₚ h -> is_table topts addr (shown_entries es) d size -> LdbSlice.size d < 2 ^ 64) ->
  (∀ id, base = Some id -> ∃ n, find_node id (versions_ db) = Some n ∧ version_ok ucmp okp (node_version n)) ->
  let number := nm_next_file (vs_numbers (versions_ db)) in
  let db1 := interfere (with_pending ({[number]} ∪ pending_outputs_ db) (with_versions (NewFileNumber (versions_ db)).2 db)) in
  ∃ es d size first last level db', WriteLevel0Table ucmp topts max_file_size dbname addr (D := D) interfere rounds mem base edit db =
      Some (Status_OK, AddFile level number size (e_ikey first) (e_ikey last) edit, db') ∧
    es ≡ₚ h ∧ fine ucmp okp (shown_entries es) ∧ Forall2 (fun kv e => parsed_entry kv = Some e) (shown_entries es) es ∧ head es = Some first ∧ list.last es = Some last ∧
    LdbFilenameThms.contents (db_env db') (TableFileName dbname number) = Some d ∧ is_table topts addr (shown_entries es) d size ∧ 0 < size ∧
    good (db_env db') ∧ same_but (TableFileName dbname number) (db_env db1) (db_env db') ∧ db' = with_pending (pending_outputs_ db1 ∖ {[number]}) (with_env (db_env db') db1) ∧
    0 <= level <= kMaxMemCompactLevel ∧
    match base with
    | None => level = 0
    | Some id => ∀ n, find_node id (versions_ db) = Some n -> 0 < level -> ∀ l, Z.of_nat l <= level -> level_clear ucmp (node_version n) (e_key first) (e_key last) l
    end.
Proof.
  intros Hb Hc Ho Hk Hg Hm Hh Hne Hr Hsz Hbase number db1. unfold WriteLevel0Table. unfold NewFileNumber at 1. fold number. cbv zeta.
  change (mems (with_pending _ _)) with (mems db). rewrite Hm. cbn [mbind option_bind]. change (interfere _) with db1.
  assert (good (db_env db1)) as Hg1 by (by apply (fl_good _ _ _ (Hk _))).
  destruct (build_memtable any_state ucmp okp topts dbname addr rounds number m h (db_env db1) Hb Hc Ho Hh Hr Hg1 Hsz) as (meta & it' & w' & -> & H7 & _ & Hres).
  rewrite bool_decide_eq_false_2 in Hres by done. destruct Hres as [H6 (es & d & first & last & Em & Hperm & Efirst & Elast & Hf & Hp & H4 & H5 & H3)]. set (size := file_size meta) in *. clearbody size. subst meta. cbn [mbind option_bind].
  assert (entry_ok okp first ∧ entry_ok okp last) as [Hfirst Hlast].
  { destruct Hh as (es' & (L & _ & _ & Hes) & Hperm'). rewrite list.Forall_forall in Hes. split; apply Hes; rewrite Hperm', <- Hperm; [by apply head_Some_elem_of|by apply last_Some_elem_of]. }
  change (ok Status_OK) with true. cbn [andb file_size FileMetaData_new smallest largest]. rewrite (proj2 (Z.ltb_lt 0 size)) by done.
  set (db2 := with_env w' db1). assert (∃ level, (match base with
     | Some id => n ← find_node id (versions_ (with_pending (pending_outputs_ db2 ∖ {[number]}) db2)); PickLevelForMemTableOutput ucmp max_file_size (ExtractUserKey (e_ikey first)) (ExtractUserKey (e_ikey last)) (node_version n)
     | None => Some 0 end) = Some level ∧ 0 <= level <= kMaxMemCompactLevel ∧
     match base with None => level = 0 | Some id => ∀ n, find_node id (versions_ db) = Some n -> 0 < level -> ∀ l, Z.of_nat l <= level -> level_clear ucmp (node_version n) (e_key first) (e_key last) l end) as (level & -> & Hl1 & Hl2).
  { destruct base as [id|]; [|by exists 0]. destruct (Hbase id eq_refl) as (n & En & Hv). destruct (fl_base _ _ _ (Hk (with_pending ({[number]} ∪ pending_outputs_ db) (with_versions (NewFileNumber (versions_ db)).2 db))) id n eq_refl En) as (n1 & En1 & Ef1).
    change (find_node id (versions_ db1) = Some n1) in En1. change (find_node id (versions_ (with_pending _ db2))) with (find_node id (versions_ db1)). rewrite En1. cbn [mbind option_bind]. unfold e_ikey. rewrite !ExtractUserKey_ikey.
    assert (version_ok ucmp okp (node_version n1)) as Hv1 by (destruct Hv as [V1 V2 V3]; split; rewrite Ef1; done).
    destruct (PickLevel_ok ucmp okp Hb max_file_size (node_version n1) Hv1 (e_key first) (e_key last)) as (level & E & R1 & R2); [apply Hfirst|apply Hlast|].
    exists level. split_and!; [done|lia|lia|]. intros n' E' Hpos l Hl files f Hff. rewrite En in E'. injection E' as <-. rewrite <- Ef1 in Hff. by apply (R2 Hpos l Hl files). }
  cbn [mbind option_bind]. exists es, d, size, first, last, level. eexists. split; [done|]. change (db_env (with_pending _ db2)) with w'. split_and!; done || apply Hl1.
Qed.

(** A memtable with one entry, over an empty version. *)
#[local] Existing Instance w_mem_tables.

Definition w_one : MemTable := default small_empty (InsertInto [] BytewiseComparator w_rec1 small_empty).2.
Definition w_put : entry := Entry 1 kTypeValue [97] [1].

Lemma w_one_holds : mem_holds BytewiseComparator (Forall is_u8) w_one [w_put].
Proof.
  pose proof w_batches_ok as Hb. unfold batches, w_batches in Hb. inversion Hb as [|? ? ? ? [H1 H2] _]; subst. cbn [fst snd] in *.
  destruct (InsertInto_holds BytewiseComparator (Forall is_u8) [] small_empty [] w_rec1 1 [OpPut [97] [1]]) as (mo & E & Hm); [apply small_empty_holds|constructor|exact H1|exact H2|by vm_compute|].
  unfold w_one. rewrite E. cbn [snd default]. destruct mo as [m|]; [exact Hm|].
  assert (is_Some (InsertInto [] BytewiseComparator w_rec1 small_empty).2) as Hsome by (vm_compute; eauto). rewrite E in Hsome. by destruct Hsome.
Qed.

Lemma w_one_size d size : is_table w_internal (fun _ => 0) (shown_entries [w_put]) d size -> LdbSlice.size d < 2 ^ 64.
Proof.
  intros (r & Hr & <- & _). assert (option_map (fun r => LdbSlice.size (file r.2) <? 2 ^ 64) (TableBuilder_Finish (fun _ => 0) (build_table (fun _ => 0) w_internal ([] : Slice) (shown_entries [w_put]))) = Some true) as K by (by vm_compute).
  rewrite Hr in K. injection K as K. by apply Z.ltb_lt.
Qed.

Lemma w_new_version_ok : version_ok BytewiseComparator (Forall is_u8) Version_new.
Proof.
  split; [done| |].
  - intros l files [-> _]%lookup_replicate. by split.
  - intros l files _ [-> _]%lookup_replicate. split; [constructor|]. intros i j f g _ Hf. by rewrite lookup_nil in Hf.
Qed.

Definition w_flush_db (vs : VersionSet MemEnv) : DBImpl MemEnv :=
  MkDB vs {[0%nat := w_one]} 1 None (Some 0%nat) None None 0 ∅ Status_OK false true None SnapshotList_new [] batch_Clear.

Lemma memtable_written_witness : ∃ vs d size level db' id, VersionSet_new w_empty_disk = Some vs ∧ current_ vs = Some id ∧
  WriteLevel0Table BytewiseComparator w_internal 100 (str "db") (fun _ => 0) (D := EmptyIterator) (fun db => db) 1 0 (Some id) VersionEdit_new (w_flush_db vs) =
    Some (Status_OK, AddFile level 2 size (e_ikey w_put) (e_ikey w_put) VersionEdit_new, db') ∧ LdbFilenameThms.contents (db_env db') (TableFileName (str "db") 2) = Some d ∧ 0 < size.
Proof.
  destruct (VersionSet_new_ok BytewiseComparator (Forall is_u8) w_empty_disk) as (vs & E & _ & _ & Hw & Hn & _).
  assert (∃ id, current_ vs = Some id ∧ ∃ n, find_node id vs = Some n ∧ node_version n = Version_new) as (id & Eid & n & En & Ev) by (vm_compute in E; injection E as <-; by eexists _; split; [|eexists]).
  destruct (memtable_written BytewiseComparator (Forall is_u8) w_internal 100 (str "db") (fun _ => 0) (D := EmptyIterator) (fun db => db) 1 0 (Some id) VersionEdit_new (w_flush_db vs) w_one [w_put])
    as (es & d & size & first & last & level & db' & R & P & _ & _ & F1 & F2 & C & _ & Hs & _).
  - done.
  - done.
  - exact w_opens.
  - intros db. split; [done|]. intros id' n' _ Hn'. by exists n'.
  - unfold db_env. cbn. rewrite Hw. exact w_empty_disk_good.
  - done.
  - exact w_one_holds.
  - done.
  - cbn. lia.
  - intros es d size ->%Permutation_singleton_r. apply w_one_size.
  - intros id' [= <-]. exists n. split; [exact En|]. rewrite Ev. exact w_new_version_ok.
  - apply Permutation_singleton_r in P as ->. injection F1 as <-. injection F2 as <-. change (versions_ (w_flush_db vs)) with vs in R, C. rewrite Hn in R, C. cbn [nm_next_file] in R, C.
    exists vs, d, size, level, db', id. split_and!; [exact E|exact Eid|exact R|exact C|exact Hs].
Defined.

(** ** The log of a crashed database *)

(** The object [h] was opened to read the file [g]. *)
Class ReaderView (W : Type) := reads_from : W -> Z -> Slice -> Prop.

(** Objects that read other files than [f] keep what is left to read. *)
Definition spares {W : Type} `{!DiskView W, !ReaderView W} (f : Slice) (w w' : W) : Prop :=
  ∀ h g d, g ≠ f -> reads_from w h g -> unread_of w h = Some d -> reads_from w' h g ∧ unread_of w' h = Some d.

(** env.h: writing, closing and deleting a file does not disturb the objects
    that read other files. *)
Class ReaderLaws (W : Type) `{!Env W, !EnvView W, !DiskView W, !ReaderView W} : Prop := {
  rl_open f d w s h w' : good w -> contents w f = Some d -> NewSequentialFile f w = (s, h, w') -> reads_from w' h f;
  rl_read h n w g : reads_from w h g -> reads_from (file_Read h n w).2 h g;
  rl_new f w s h w' : NewWritableFile f w = (s, h, w') -> spares f w w';
  rl_append f d h x w s w' : good w -> pending w h = Some (f, d) -> file_Append h x w = (s, w') -> spares f w w';
  rl_flush f d h w s w' : good w -> pending w h = Some (f, d) -> file_Flush h w = (s, w') -> spares f w w';
  rl_sync f d h w s w' : good w -> pending w h = Some (f, d) -> file_Sync h w = (s, w') -> spares f w w';
  rl_close f d h w s w' : good w -> pending w h = Some (f, d) -> file_Close h w = (s, w') -> spares f w w';
  rl_closed f h w : pending w h = None -> spares f w (delete_writable h w);
  rl_delete f w : spares f w (env_DeleteFile f w).2;
  rl_delete_good f w : good w -> good (env_DeleteFile f w).2;
  rl_appendable f d w s h w' : good w -> contents w f = Some d -> env_NewAppendableFile f w = (s, h, w') -> good w' ∧ same_files w w';
}.

(** Opening a table does not either. *)
Definition tables_spare {W D : Type} `{!DiskView W, !ReaderView W} `{!Iterator D} `{!TableCache W D} : Prop :=
  ∀ n size (w w' : W) (it : D), tc_NewIterator ReadOptions_new n size w = Some (it, w') -> (∀ f, spares f w w') ∧ ∀ f, spares f w' (tc_delete it w').

#[export] Instance spares_order {W : Type} `{!DiskView W, !ReaderView W} (f : Slice) : PreOrder (spares (W := W) f).
Proof. split; [by intros w h g d|]. intros w1 w2 w3 H1 H2 h g d Hne Hr Hd. destruct (H1 h g d Hne Hr Hd). by apply H2. Qed.

Lemma spares_writes {W D : Type} `{!Env W, !EnvView W, !DiskView W, !ReaderView W, !ReaderLaws W} `{!Iterator D} `{!TableCache W D} :
  tables_spare (W := W) (D := D) -> WritesOnly (D := D) (spares (W := W)).
Proof.
  intros Ht. split; [apply _|apply rl_new|apply rl_append|apply rl_flush|apply rl_sync|apply rl_close|apply rl_closed|apply rl_delete|].
  intros f n size w it w' E. destruct (Ht n size w w' it E). done.
Qed.

(** The tables of some batches as files of level 0. *)
Definition add_level0 (edit : VersionEdit) (files : list FileMetaData) : VersionEdit :=
  foldl (fun e f => AddFile 0 (file_number f) (file_size f) (smallest f) (largest f) e) edit files.

(** Only the tables with the numbers from [lo] up to [hi] change. *)
Definition tables_only {W : Type} `{!EnvView W} (dbname : Slice) (lo hi : Z) (w w' : W) : Prop :=
  ∀ f, (∀ n, lo <= n < hi -> f ≠ TableFileName dbname n) -> LdbFilenameThms.contents w' f = LdbFilenameThms.contents w f.

(** What the other threads may do before the database is published. *)
Record unpublished {W : Type} `{!EnvView W, !DiskView W, !ReaderView W} (db db' : DBImpl W) : Prop := {
  up_mems : mems db' = mems db;
  up_next : nm_next_file (vs_numbers (versions_ db')) = nm_next_file (vs_numbers (versions_ db));
  up_log : logfile_ db' = logfile_ db ∧ log_ db' = log_ db ∧ mem_ db' = mem_ db;
  up_good : good (db_env db) -> good (db_env db');
  up_files : same_files (db_env db) (db_env db');
  up_readers f : spares f (db_env db) (db_env db');
}.

Section Stored.

Context {W : Type} `{!EnvView W} (ucmp : Comparator) (okp : Slice -> Prop) (topts : Options) (dbname : Slice) (addr : Slice -> Z).
Local Abbreviation table := (TableFileName dbname).
Local Abbreviation contents := LdbFilenameThms.contents.

(** The entries [h] are in the table [n], or there are none. *)
Definition flushed (w : W) (n : Z) (h : list entry) (files : list FileMetaData) : Prop :=
  if bool_decide (h = []) then files = [] else ∃ f, files = [f] ∧ holds_table ucmp okp topts dbname addr w n h f.

(** Every segment of the batches has its table, numbered from [n] on. *)
Fixpoint stored (w : W) (n : Z) (segs : list (list (Z * list op))) (files : list FileMetaData) : Prop :=
  match segs with
  | [] => files = []
  | seg :: segs => ∃ f1 f2, files = f1 ++ f2 ∧ flushed w n (entries_in seg) f1 ∧ stored w (n + 1) segs f2
  end.

Lemma flushed_same w w' n h files : contents w' (table n) = contents w (table n) -> flushed w n h files -> flushed w' n h files.
Proof using Type.
  intros E. unfold flushed. destruct (bool_decide _); [done|]. intros (f & -> & es & d & first & last & H1 & H2 & H3 & H4 & H5 & H6 & H7 & H8 & H9). exists f. split; [done|].
  exists es, d, first, last. by rewrite E.
Qed.

Lemma stored_same w w' segs : ∀ n files, (∀ i, n <= i < n + Z.of_nat (length segs) -> contents w' (table i) = contents w (table i)) -> stored w n segs files -> stored w' n segs files.
Proof using Type.
  induction segs as [|seg segs IH]; intros n files Hs; [done|]. cbn [length] in Hs. intros (f1 & f2 & -> & H1 & H2). exists f1, f2. split_and!; [done| |].
  - apply (flushed_same w); [apply Hs; lia|done].
  - apply IH; [|done]. intros i Hi. apply Hs. lia.
Qed.

Lemma stored_app w a b : ∀ n f g, stored w n a f -> stored w (n + Z.of_nat (length a)) b g -> stored w n (a ++ b) (f ++ g).
Proof using Type.
  induction a as [|seg a IH]; intros n f g; cbn [stored length app].
  - intros ->. by rewrite Z.add_0_r.
  - intros (f1 & f2 & -> & H1 & H2) Hg. exists f1, (f2 ++ g). split_and!; [by rewrite app_assoc|done|]. apply IH; [done|]. by replace (n + 1 + Z.of_nat (length a)) with (n + Z.of_nat (S (length a))) by lia.
Qed.

Lemma add_level0_app edit f g : add_level0 edit (f ++ g) = add_level0 (add_level0 edit f) g.
Proof using Type. apply foldl_app. Qed.

Lemma tables_only_trans lo mid hi w1 w2 w3 : lo <= mid <= hi -> tables_only dbname lo mid w1 w2 -> tables_only dbname mid hi w2 w3 -> tables_only dbname lo hi w1 w3.
Proof using Type. intros Hm H1 H2 f Hf. rewrite H2, H1; [done|..]; intros n Hn; apply Hf; lia. Qed.

Lemma tables_only_same lo hi w1 w2 w3 : same_files w1 w2 -> tables_only dbname lo hi w2 w3 -> tables_only dbname lo hi w1 w3.
Proof using Type. intros H1 H2 f Hf. by rewrite H2, H1. Qed.

Lemma table_only n w w' : same_but (table n) w w' -> tables_only dbname n (n + 1) w w'.
Proof using Type. intros Hs f Hf. apply Hs, Hf. lia. Qed.

(** A table that is not written again. *)
Lemma tables_only_keeps lo hi n w w' : is_u64 n -> 0 <= lo -> hi < 2 ^ 64 -> n < lo -> tables_only dbname lo hi w w' -> contents w' (table n) = contents w (table n).
Proof using Type. intros Hn Hlo Hhi Hlt Ht. apply Ht. intros m Hm E. apply TableFileName_inj in E; [lia|done|unfold is_u64; lia]. Qed.

End Stored.

Section Recover.

Context `{NewChar} {W D : Type} `{!Env W, !EnvView W, !DiskView W, !DiskLaws W} `{!EnvDir W} `{!ReaderView W, !ReaderLaws W} `{!Iterator D} `{!TableCache W D}.
Context (regions : list region) (ucmp : Comparator) (okp : Slice -> Prop) `{!ComparatorLaws ucmp okp} (Hbytes : ∀ k, okp k -> Forall is_u8 k).
Context (topts : Options) (Hcmp : comparator topts = InternalKeyComparator ucmp) (max_file_size write_buffer_size : Z) (dbname : Slice) (addr : Slice -> Z).
Context (Hopens : opens_tables (W := W) (D := D) ucmp okp topts dbname addr) (Hspare : tables_spare (W := W) (D := D)).
Context (others : DBImpl W -> DBImpl W) (Hothers : ∀ db, unpublished db (others db)).
Context (m0 : MemTable) (Hm0 : MemTable_new regions = Some m0).
#[local] Existing Instance env_sequential.
Local Abbreviation table := (TableFileName dbname).
Local Abbreviation next db := (nm_next_file (vs_numbers (versions_ db))).
Local Abbreviation flushed := (flushed ucmp okp topts dbname addr).
Local Abbreviation stored := (stored ucmp okp topts dbname addr).

(** The tables of these entries are not too large to be described. *)
Definition describable (h : list entry) : Prop := ∀ es d size, es ⊆+ h -> is_table topts addr (shown_entries es) d size -> LdbSlice.size d < 2 ^ 64.

Lemma describable_sub h h' : h ⊆+ h' -> describable h' -> describable h.
Proof using Type. intros Hs Hd es d size He. apply Hd. by transitivity h. Qed.

Definition same_log (db db' : DBImpl W) : Prop := logfile_ db' = logfile_ db ∧ log_ db' = log_ db ∧ mem_ db' = mem_ db.

(** A memtable is written to a table and dropped. *)
Lemma flush_ok rounds a m h edit db : good (db_env db) -> mems db !! a = Some m -> mem_holds ucmp okp m h -> (length h <= rounds)%nat -> describable h ->
  ∃ files db1 db2, WriteLevel0Table ucmp topts max_file_size dbname addr (D := D) others rounds a None edit db = Some (Status_OK, add_level0 edit files, db1) ∧ mem_Unref a db1 = Some db2 ∧
    flushed (db_env db2) (next db) h files ∧ good (db_env db2) ∧ same_but (table (next db)) (db_env db) (db_env db2) ∧ spares (table (next db)) (db_env db) (db_env db2) ∧
    next db2 = u64 (next db + 1) ∧ same_log db db2.
Proof using ComparatorLaws0 Hbytes Hcmp DiskLaws0 EnvDir0 ReaderLaws0 Hopens Hspare Hothers.
  intros Hg Hm Hh Hr Hd. unfold WriteLevel0Table, NewFileNumber. set (n := next db). cbv zeta. set (vs1 := set_numbers _ (versions_ db)). set (db0 := with_pending _ (with_versions vs1 db)).
  change (mems db0) with (mems db). rewrite Hm. cbn [mbind option_bind]. destruct (Hothers db0) as [U1 U2 U3 U4 U5 U6]. set (db1 := others db0) in *.
  change (db_env db0) with (db_env db) in *. change (mems db0) with (mems db) in U1. change (next db0) with (u64 (n + 1)) in U2.
  pose proof (spares_writes Hspare) as Hw. destruct (build_memtable spares ucmp okp topts dbname addr rounds n m h (db_env db1) Hbytes Hcmp Hopens Hh Hr (U4 Hg)) as (meta & it & w' & -> & S & R & Hres).
  { intros es d size He. apply Hd. by rewrite He. }
  cbn [mbind option_bind]. change (ok Status_OK) with true. cbn [andb]. set (db2 := with_pending _ (with_env w' db1)).
  assert (∃ mm, mem_Unref a db2 = Some mm ∧ versions_ mm = versions_ db2 ∧ same_log db mm) as (db3 & E3 & V3 & L3).
  { unfold mem_Unref. change (mems db2) with (mems db1). rewrite U1, Hm. cbn [mbind option_bind]. destruct (Unref m) as [gone m']. eexists. by split_and!. }
  assert (db_env db3 = w' ∧ next db3 = u64 (n + 1)) as [E4 E5] by (unfold db_env; rewrite V3; by split).
  assert (same_but (table n) (db_env db) w') as S' by (intros f Hf; by rewrite S, U5).
  assert (spares (table n) (db_env db) w') as R' by (by etransitivity; [apply U6|]).
  unfold LdbDBWrite.flushed. destruct (bool_decide_reflect (h = [])) as [Hh0|Hh0].
  - destruct Hres as [-> ->]. rewrite Z.ltb_irrefl. exists [], db2, db3. rewrite E4, E5. split_and!; try done; try apply L3. by apply rl_delete_good, U4.
  - destruct Hres as [Hg' Hres]. pose proof Hres as (es & d & first & last & Em & Hperm & Efirst & Elast & Hf & Hp & H4 & H5 & H3). rewrite (proj2 (Z.ltb_lt 0 (file_size meta))) by done. cbn [mbind option_bind].
    exists [meta], db2, db3. rewrite E4, E5. split_and!; try done; try apply L3; [|by exists meta]. cbn [add_level0 foldl]. by rewrite Em.
Qed.

(** The memtable since the last flush: the records [rs] with the batches [bs]. *)
Definition unflushed (rs : list Slice) (bs : list (Z * list op)) (ls : LogState (W := W)) (db : DBImpl W) : Prop :=
  match ls_mem ls with
  | Some a => ∃ m, mems db !! a = Some m ∧ replay regions ucmp rs (Ref m0) = Some m ∧ mem_holds ucmp okp m (entries_in bs) ∧ rs ≠ []
  | None => rs = [] ∧ bs = []
  end.

(** The memtable of the records is larger than the write buffer. *)
Definition overfull (rs : list Slice) : Prop := ∃ m, replay regions ucmp rs (Ref m0) = Some m ∧ write_buffer_size < ApproximateMemoryUsage m.

(** No record makes it so. *)
Definition fits (rs : list Slice) : Prop := ∀ r1 r2, rs = r1 ++ r2 -> r1 ≠ [] -> ¬ overfull r1.

(** The last record does. *)
Definition filled (rs : list Slice) : Prop := overfull rs ∧ ∃ init rec, rs = init ++ [rec] ∧ fits init.

Lemma fits_snoc rs rec : fits rs -> ¬ overfull (rs ++ [rec]) -> fits (rs ++ [rec]).
Proof using Type.
  intros Hf Ho r1 r2 E Hne. destruct r2 as [|x r2 _] using rev_ind; [by rewrite app_nil_r in E; subst|]. rewrite app_assoc in E. apply app_inj_tail in E as [-> _]. by apply (Hf r1 r2).
Qed.

(** A batch: it is in the memtable, and that may have been flushed. *)
Lemma recover_batch_ok rounds rec b rs bs ls db : unflushed rs bs ls db -> ls_status ls = Status_OK -> good (db_env db) ->
  Forall (fun e => e_seq e <= ls_max ls) (entries_in bs) -> holds_ops rec b.1 b.2 -> Forall (op_fits okp) b.2 -> 0 <= ls_max ls < b.1 -> b.1 + Z.of_nat (length b.2) - 1 <= kMaxSequenceNumber ->
  is_Some (replay regions ucmp (rs ++ [rec]) (Ref m0)) -> (length (entries_in (bs ++ [b])) <= rounds)%nat -> describable (entries_in (bs ++ [b])) ->
  ∃ ls' db', recover_batch regions ucmp topts max_file_size write_buffer_size dbname addr (D := D) others rounds rec ls db = Some (true, ls', db') ∧ ls_reader ls' = ls_reader ls ∧
    ls_status ls' = Status_OK ∧ ls_max ls' = b.1 + Z.of_nat (length b.2) - 1 ∧ Forall (fun e => e_seq e <= ls_max ls') (entries_in (bs ++ [b])) ∧ same_log db db' ∧
    ((unflushed (rs ++ [rec]) (bs ++ [b]) ls' db' ∧ ls_compactions ls' = ls_compactions ls ∧ ls_save ls' = ls_save ls ∧ ls_edit ls' = ls_edit ls ∧ versions_ db' = versions_ db ∧ ¬ overfull (rs ++ [rec])) ∨
     (ls_mem ls' = None ∧ ls_compactions ls' = ls_compactions ls + 1 ∧ ls_save ls' = true ∧ overfull (rs ++ [rec]) ∧ ∃ files, ls_edit ls' = add_level0 (ls_edit ls) files ∧
       flushed (db_env db') (next db) (entries_in (bs ++ [b])) files ∧ good (db_env db') ∧ same_but (table (next db)) (db_env db) (db_env db') ∧ spares (table (next db)) (db_env db) (db_env db') ∧
       next db' = u64 (next db + 1))).
Proof using ComparatorLaws0 Hbytes Hcmp DiskLaws0 EnvDir0 ReaderLaws0 Hopens Hspare Hothers Hm0.
  intros Hu Hs Hg Hbelow Hb Hf Hlt Hmax [m' Hrep] Hr Hd. unfold recover_batch.
  assert (∃ a db1 m, match ls_mem ls with Some a => Some (a, db) | None => new_memtable regions db end = Some (a, db1) ∧ mems db1 !! a = Some m ∧ versions_ db1 = versions_ db ∧ same_log db db1 ∧
    replay regions ucmp rs (Ref m0) = Some m ∧ mem_holds ucmp okp m (entries_in bs)) as (a & db1 & m & -> & Em & Ev & El1 & Er & Hh).
  { unfold unflushed in Hu. destruct (ls_mem ls) as [a|]; [destruct Hu as (m & ? & ? & ? & ?); by exists a, db, m|]. destruct Hu as [-> ->]. unfold new_memtable. rewrite Hm0. cbn [mbind option_bind].
    eexists _, _, (Ref m0). split_and!; try done; [apply lookup_insert_eq|]. apply mem_holds_ref. by apply (MemTable_new_holds ucmp okp regions). }
  cbn [mbind option_bind]. rewrite Em. cbn [mbind option_bind].
  destruct (InsertInto_holds ucmp okp regions m (entries_in bs) rec b.1 b.2 Hh) as (mo & EI & Hmo); [|done|done|lia|].
  { eapply list.Forall_impl; [exact Hbelow|]. cbn. lia. }
  pose proof Hrep as Hrep'. rewrite replay_app, Er in Hrep. cbn [mbind option_bind replay] in Hrep. rewrite EI in Hrep |- *. cbn [snd] in Hrep. destruct mo as [m1|]; [|done]. cbn [mbind option_bind] in Hrep |- *. injection Hrep as ->.
  change (MaybeIgnoreError topts Status_OK) with Status_OK. change (ok Status_OK) with true. cbn [negb ls_max ls_edit ls_compactions]. assert (kMaxSequenceNumber < 2 ^ 56) by done.
  assert (u64 (Sequence rec + Count rec - 1) = b.1 + Z.of_nat (length b.2) - 1) as El.
  { pose proof (ho_seq _ _ _ Hb). pose proof (ho_count _ _ _ Hb). rewrite (ho_rep _ _ _ Hb), Count_header by lia. unfold Sequence. rewrite DecodeFixed64_encode by done. apply u64_small. lia. }
  assert ((if ls_max ls <? u64 (Sequence rec + Count rec - 1) then u64 (Sequence rec + Count rec - 1) else ls_max ls) = b.1 + Z.of_nat (length b.2) - 1) as -> by (rewrite El; destruct (Z.ltb_spec (ls_max ls) (b.1 + Z.of_nat (length b.2) - 1)); lia).
  assert (entries_in (bs ++ [b]) = entries_in bs ++ entries_of b.1 b.2) as Ee by (rewrite entries_in_app; unfold entries_in at 2; cbn; by rewrite app_nil_r).
  assert (Forall (fun e => e_seq e <= b.1 + Z.of_nat (length b.2) - 1) (entries_in (bs ++ [b]))) as Hbelow'.
  { rewrite Ee. apply Forall_app. split; [eapply list.Forall_impl; [exact Hbelow|]; cbn; lia|]. eapply list.Forall_impl; [apply entries_of_bounds|]. cbn. lia. }
  rewrite <- Ee in Hmo. set (db2 := with_mems _ _ _ _ db1).
  destruct (Z.ltb_spec write_buffer_size (ApproximateMemoryUsage m')) as [Hfull|Hroom].
  - destruct (flush_ok rounds a m' (entries_in (bs ++ [b])) (ls_edit ls) db2) as (files & db3 & db4 & -> & E4 & F1 & F2 & F3 & F4 & F5 & F6); [unfold db_env, db2; cbn; by rewrite Ev|apply lookup_insert_eq|done|done|done|].
    cbn [mbind option_bind]. rewrite E4. cbn [mbind option_bind]. unfold db_env in F1, F3, F4, F5 |- *. cbn [versions_ db2 with_mems] in F1, F3, F4, F5. rewrite Ev in F1, F3, F4, F5.
    assert (same_log db db4) as (? & ? & ?) by (destruct F6 as (? & ? & ?), El1 as (? & ? & ?); cbn in *; split_and!; congruence).
    eexists _, _. split; [done|]. cbn. split_and!; try done.
    right. split_and!; try done; [|by exists files]. by exists m'.
  - eexists _, _. split; [done|]. cbn. split_and!; try done; try apply El1. left. split_and!; try done; [exists m'; split_and!; [apply lookup_insert_eq|done|done|by destruct rs]|]. intros (m2 & E2 & ?). rewrite E2 in Hrep'. injection Hrep' as ->. lia.
Qed.

(** The log is read through the object [h], since the disk [w0]. *)
Context (number : Z) (Hnumber : is_u64 number).
Local Abbreviation log_name := (LogFileName dbname number).

#[local] Instance log_reads (h : Z) (w0 : W) : OpenReads (SequentialFile0 := env_sequential) (Z * W).
Proof using DiskLaws0 ReaderLaws0 dbname number.
  refine {| unread := unread (OpenReads := manifest_reads h w0); readable x := readable (OpenReads := manifest_reads h w0) x ∧ reads_from x.2 h log_name |}.
  intros n x Hn [Ho Hr]. destruct (read_open (OpenReads := manifest_reads h w0) n x Hn Ho) as (x' & E & E' & Ho'). exists x'. split_and!; [done|done|done|].
  destruct x as [h' w], Ho as (Eh & _). cbn in Eh, Hr. subst h'. cbn in E. pose proof (rl_read h n w log_name Hr) as Hr'. destruct (file_Read h n w) as [[st d] w']. injection E as _ _ <-. exact Hr'.
Defined.

Local Abbreviation log_at h w := (LdbLogThms.reader_at (SequentialFile0 := env_sequential) (OpenReads0 := log_reads h w)).

(** The reader goes on in another state of the disk. *)
Lemma log_at_move h w0 r p d w : log_at h w0 r p d -> good w -> unread_of w h = unread_of (file_ r).2 h -> reads_from w h log_name -> log_at h w (set_file (h, w) r) p d.
Proof using Type.
  intros [A1 A2 A3 A4 A5 A6 A7 A8 A9 [(B1 & _ & B2) B3]] Hg Hu Hr. assert (unread (OpenReads := manifest_reads h w0) (file_ r) = unread (OpenReads := manifest_reads h w) (h, w)) as Eu by (cbn; by rewrite B1, Hu).
  split; try done.
  - change (buffer_ r ++ unread (OpenReads := manifest_reads h w) (h, w) = d). by rewrite <- Eu.
  - intros He. change (unread (OpenReads := manifest_reads h w) (h, w) = []). rewrite <- Eu. by apply A7.
  - split; [|done]. cbn. split_and!; [done|by split_and!|by rewrite Hu].
Qed.

Lemma log_not_table n : is_u64 n -> log_name ≠ table n.
Proof using Hnumber.
  intros Hn E. pose proof (filename_roundtrip dbname (OLog number) Hnumber) as R. pose proof (filename_roundtrip dbname (OTable n) Hn) as R'.
  unfold owned_name in R, R'. cbn [owned_path] in R, R'. rewrite E in R. rewrite R' in R. by injection R.
Qed.

(** The loop after the unflushed records [rs] with the batches [cs]. *)
Record replaying (h : Z) (rs : list Slice) (cs : list (Z * list op)) (ls : LogState (W := W)) (db : DBImpl W) : Prop := {
  rp_status : ls_status ls = Status_OK;
  rp_reader : (file_ (ls_reader ls)).1 = h ∧ reports_ (ls_reader ls) = [];
  rp_mem : unflushed rs cs ls db;
  rp_max : 0 <= ls_max ls ∧ Forall (fun e => e_seq e <= ls_max ls) (entries_in cs);
  rp_fits : fits rs ∧ length rs = length cs;
}.

(** What the loop does from a state to its end: the segments [segs] of the
    batches went to tables, [rest] is in the memtable. *)
Record replayed (h : Z) (segs : list (list (Z * list op))) (rs : list Slice) (rest : list (Z * list op)) (files : list FileMetaData) (ls : LogState (W := W)) (db : DBImpl W) (ls' : LogState (W := W)) (db' : DBImpl W) : Prop := {
  rd_end : replaying h rs rest ls' db';
  rd_compactions : ls_compactions ls' = ls_compactions ls + Z.of_nat (length segs);
  rd_save : ls_save ls' = ls_save ls || negb (bool_decide (segs = []));
  rd_edit : ls_edit ls' = add_level0 (ls_edit ls) files;
  rd_good : good (db_env db');
  rd_stored : stored (db_env db') (next db) segs files;
  rd_files : tables_only dbname (next db) (next db + Z.of_nat (length segs)) (db_env db) (db_env db');
  rd_next : next db' = next db + Z.of_nat (length segs);
  rd_log : same_log db db';
}.

Lemma same_log_trans db1 db2 db3 : same_log db1 db2 -> same_log db2 db3 -> same_log db1 db3.
Proof using Type. intros (? & ? & ?) (? & ? & ?). split_and!; congruence. Qed.

(** Only reading happens before. *)
Lemma replayed_after h segs rs rest files ls db ls1 db1 ls' db' : replayed h segs rs rest files ls1 db1 ls' db' ->
  ls_compactions ls1 = ls_compactions ls -> ls_save ls1 = ls_save ls -> ls_edit ls1 = ls_edit ls -> same_files (db_env db) (db_env db1) -> next db1 = next db -> same_log db db1 ->
  replayed h segs rs rest files ls db ls' db'.
Proof using Type.
  intros [R1 R2 R3 R4 R5 R6 R7 R8 R9] E1 E2 E3 E4 E5 E6. rewrite E1, E2, E3, E5 in *. split; try done; [by apply (tables_only_same dbname _ _ _ (db_env db1))|by apply (same_log_trans _ db1)].
Qed.

(** A segment is flushed before. *)
Lemma replayed_flush h seg f1 segs rs rest files ls db ls1 db1 ls' db' : replayed h segs rs rest files ls1 db1 ls' db' ->
  ls_compactions ls1 = ls_compactions ls + 1 -> ls_save ls1 = true -> ls_edit ls1 = add_level0 (ls_edit ls) f1 -> flushed (db_env db1) (next db) (entries_in seg) f1 ->
  same_but (table (next db)) (db_env db) (db_env db1) -> 0 <= next db -> next db + Z.of_nat (S (length segs)) < 2 ^ 64 -> next db1 = u64 (next db + 1) -> same_log db db1 ->
  replayed h (seg :: segs) rs rest (f1 ++ files) ls db ls' db'.
Proof using Type.
  intros [R1 R2 R3 R4 R5 R6 R7 R8 R9] E1 E2 E3 E4 E5 Hn Hlt E6 E7. rewrite u64_small in E6 by lia. rewrite E1, E2, E3, E6 in *. split; try done.
  - cbn [length]. lia.
  - rewrite R3. by rewrite orb_true_r.
  - by rewrite add_level0_app.
  - exists f1, files. split_and!; [done| |done]. apply (flushed_same ucmp okp topts dbname addr (db_env db1)); [|done].
    apply (tables_only_keeps dbname (next db + 1) (next db + 1 + Z.of_nat (length segs))); [unfold is_u64; lia|lia|lia|lia|done].
  - cbn [length]. apply (tables_only_trans dbname _ (next db + 1) _ _ (db_env db1)); [lia|by apply table_only|]. by replace (next db + Z.of_nat (S (length segs))) with (next db + 1 + Z.of_nat (length segs)) by lia.
  - cbn [length]. lia.
  - by apply (same_log_trans _ db1).
Qed.

(** The loop ends. *)
Lemma replayed_end h rs cs ls db r' w' : replaying h rs cs ls db -> good w' -> same_files (db_env db) w' -> (file_ r').1 = h -> reports_ r' = [] ->
  replayed h [] rs cs [] ls db (MkLogState Status_OK r' (ls_mem ls) (ls_compactions ls) (ls_save ls) (ls_edit ls) (ls_max ls)) (with_env w' db).
Proof using Type.
  intros [P1 P2 P3 P4 P5] Hg Hs E1 E2. split; try done; cbn [length]; rewrite ?Z.add_0_r; try done.
  - by rewrite orb_false_r.
  - by intros f _.
Qed.

(** A batch of the log that was read completely. *)
Lemma replay_batch h n rec b rs cs ls db r' : replaying h rs cs ls db -> readable (OpenReads := log_reads h (db_env db)) (file_ r') -> reports_ r' = [] ->
  holds_ops rec b.1 b.2 -> Forall (op_fits okp) b.2 -> ls_max ls < b.1 -> b.1 + Z.of_nat (length b.2) - 1 <= kMaxSequenceNumber ->
  is_Some (replay regions ucmp (rs ++ [rec]) (Ref m0)) -> (length (entries_in (cs ++ [b])) <= n)%nat -> describable (entries_in (cs ++ [b])) -> is_u64 (next db) ->
  let ls1 := MkLogState Status_OK r' (ls_mem ls) (ls_compactions ls) (ls_save ls) (ls_edit ls) (ls_max ls) in
  ∃ ls2 db2, recover_batch regions ucmp topts max_file_size write_buffer_size dbname addr (D := D) others n rec ls1 (with_env (file_ r').2 db) = Some (true, ls2, db2) ∧
    ls_reader ls2 = r' ∧ ls_max ls2 = b.1 + Z.of_nat (length b.2) - 1 ∧ good (db_env db2) ∧ unread_of (db_env db2) h = unread_of (file_ r').2 h ∧ reads_from (db_env db2) h log_name ∧
    ((replaying h (rs ++ [rec]) (cs ++ [b]) ls2 db2 ∧ next db2 = next db ∧
        ∀ segs rs' rest files ls' db', replayed h segs rs' rest files ls2 db2 ls' db' -> replayed h segs rs' rest files ls db ls' db') ∨
     (replaying h [] [] ls2 db2 ∧ next db2 = u64 (next db + 1) ∧ filled (rs ++ [rec]) ∧ ∃ f1,
        ∀ segs rs' rest files ls' db', replayed h segs rs' rest files ls2 db2 ls' db' -> next db + Z.of_nat (S (length segs)) < 2 ^ 64 ->
          replayed h ((cs ++ [b]) :: segs) rs' rest (f1 ++ files) ls db ls' db')).
Proof using ComparatorLaws0 Hbytes Hcmp DiskLaws0 EnvDir0 ReaderLaws0 Hopens Hspare Hothers Hm0 Hnumber.
  intros [P1 P2 P3 [P4 P5] P6] [(Eh & (Hg & Hf & Ho) & [d Hd]) Hr] Erep Hb Hops Hlt Hmax Hrep Hn Hdesc Hnext ls1. cbn [fst snd] in Hr. destruct (file_ r') as [h' w1] eqn:Efile. cbn in Eh, Hg, Hf, Ho, Hd, Hr. subst h'. cbn [snd].
  set (db1 := with_env w1 db).
  destruct (recover_batch_ok n rec b rs cs ls1 db1) as (ls2 & db2 & E & E1 & E2 & E3 & E4 & E5 & Hcase); [done|done|done|done|done|done|done|done|done|done|done|].
  change (db_env db1) with w1 in Hcase. change (next db1) with (next db) in Hcase. exists ls2, db2. assert (reports_ (ls_reader ls2) = [] ∧ (file_ (ls_reader ls2)).1 = h) as [Er Ef] by (rewrite E1; cbn; by rewrite Erep, Efile).
  assert (0 <= ls_max ls2) as Hpos by (rewrite E3; pose proof (Nat2Z.is_nonneg (length b.2)); cbn in *; lia). split_and!; [exact E|done|done|..].
  - destruct Hcase as [(_ & _ & _ & _ & Ev & _)|(_ & _ & _ & _ & ? & _ & _ & ? & _)]; [by unfold db_env; rewrite Ev|done].
  - destruct Hcase as [(_ & _ & _ & _ & Ev & _)|(_ & _ & _ & _ & ? & _ & _ & _ & _ & S & _)]; [by unfold db_env; rewrite Ev|]. rewrite Hd. by apply (S h log_name d (log_not_table _ Hnext)).
  - destruct Hcase as [(_ & _ & _ & _ & Ev & _)|(_ & _ & _ & _ & ? & _ & _ & _ & _ & S & _)]; [by unfold db_env; rewrite Ev|]. by apply (S h log_name d (log_not_table _ Hnext)).
  - destruct Hcase as [(M1 & M2 & M3 & M4 & Ev & Mf)|(M1 & M2 & M3 & Mf & f1 & M4 & M5 & M6 & M7 & M8 & M9)]; [left|right].
    + split_and!; [split; try done; split; [by apply fits_snoc; [apply P6|]|rewrite !length_app; cbn; lia]|by rewrite Ev|]. intros segs rs' rest files ls' db' H1. apply (replayed_after h segs rs' rest files ls db ls2 db2); try done; [by unfold db_env; rewrite Ev|by rewrite Ev].
    + split_and!; [split; [done|done|unfold unflushed; by rewrite M1|split; [done|by apply Forall_nil]|split; [by intros [] ? [=]|done]]|done|by split; [|exists rs, rec; split; [|apply P6]]|]. exists f1. intros segs rs' rest files ls' db' H1 Hsz.
      apply (replayed_flush h (cs ++ [b]) f1 segs rs' rest files ls db ls2 db2); try done; [|unfold is_u64 in Hnext; lia]. intros f Hne. rewrite M7 by done. apply Hf.
Qed.

Lemma recover_log_loop_ok (h : Z) (recs : list Slice) (bs : list (Z * list op)) (prss : list (list (Z * Slice))) : batches okp recs bs -> Forall2 fragments recs prss ->
  ∀ (k n m : nat) (p : Z) (ls : LogState (W := W)) (db : DBImpl W) (rs : list Slice) (cs : list (Z * list op)), (length recs < k)%nat -> (length (concat prss) < n)%nat ->
  log_at h (db_env db) (set_file (h, db_env db) (ls_reader ls)) p (take m (layout p (concat prss))) -> in_blocks p (concat prss) -> replaying h rs cs ls db -> ascending (ls_max ls) bs ->
  (∀ before seg rest, rs ++ recs = before ++ seg ++ rest -> is_Some (replay regions ucmp seg (Ref m0))) -> (length (entries_in (cs ++ bs)) <= n)%nat -> describable (entries_in (cs ++ bs)) ->
  0 <= next db -> next db + Z.of_nat (length recs) < 2 ^ 64 ->
  ∃ j segs rsegs rs' rest files ls' db', recover_log_loop regions ucmp topts max_file_size write_buffer_size dbname addr (D := D) others k n ls db = Some (ls', db') ∧ (j <= length recs)%nat ∧
    layout_end p (concat (take j prss)) - p <= Z.of_nat m ∧ ((j < length recs)%nat -> Z.of_nat m < layout_end p (concat (take (S j) prss)) - p) ∧
    cs ++ take j bs = concat segs ++ rest ∧ rs ++ take j recs = concat rsegs ++ rs' ∧ Forall2 (fun r b => length r = length b) rsegs segs ∧ (length segs <= j)%nat ∧ Forall filled rsegs ∧
    ls_max ls' = top (ls_max ls) (take j bs) ∧ replayed h segs rs' rest files ls db ls' db'.
Proof using ComparatorLaws0 Hbytes Hcmp DiskLaws0 EnvDir0 ReaderLaws0 Hopens Hspare Hothers Hm0 Hnumber.
  intros Hb. revert prss. induction Hb as [|rec b recs bs [Hb1 Hb2] Hb IH]; intros prss Hf; inversion Hf as [|? prs ? prss' Hr Hf']; subst;
    intros k n m p ls db rs cs Hk Hn Hat Hib Hst Hasc Hmem Hlen Hdesc Hn0 Hn1;
    (destruct k as [|k]; [simpl in Hk; lia|]); cbn [recover_log_loop]; pose proof Hat as [Hi _ Hl Hp _ _ _ _ _ _]; destruct (rp_reader _ _ _ _ _ Hst) as [Eh Erep]; rewrite Eh, ReadRecord_loop by done.
  - cbn [concat layout] in Hat. rewrite take_nil in Hat. destruct (ReadPhysicalRecord_end (SequentialFile0 := env_sequential) (OpenReads0 := log_reads h (db_env db)) addr [] _ p Hat) as (r' & Hread & Hrep' & He).
    destruct n as [|n]; [simpl in Hn; lia|]. erewrite (loop_eof (SequentialFile0 := env_sequential) (OpenReads0 := log_reads h (db_env db)) addr n (Locals false 0 [] [])) by done. cbn [mbind option_bind andb negb].
    destruct He as (_ & _ & _ & _ & _ & (E1 & (E2 & E3 & _) & _) & _). exists O, [], [], rs, cs, []. eexists _, _. split; [done|]. split_and!; [done|cbn; lia|cbn; lia|by rewrite app_nil_r|by rewrite app_nil_r|done|done|done|done|].
    rewrite (rp_status _ _ _ _ _ Hst). unfold reported. rewrite Hrep'. cbn [reports_ set_file]. rewrite Erep. destruct (paranoid_checks topts); apply replayed_end; done || by rewrite Hrep'.
  - cbn [concat] in *. rewrite length_app in Hn.
    pose proof (fragments_result (SequentialFile0 := env_sequential) (OpenReads0 := log_reads h (db_env db)) addr rec prs (concat prss') n _ p m Hr ltac:(lia) Hat Hib) as Hres.
    unfold record_result in Hres. pose proof (layout_end_ge p prs Hp) as Hge.
    destruct (Z.leb_spec (layout_end p prs - p) (Z.of_nat m)) as [Hle|Hgt]; destruct Hres as (r' & -> & Hrep' & Hat'); cbn [mbind option_bind]; cbn [reports_ set_file] in Hrep'; rewrite Erep in Hrep';
      (assert ((if paranoid_checks topts then reported r' (ls_status ls) else ls_status ls) = Status_OK) as -> by (rewrite (rp_status _ _ _ _ _ Hst); unfold reported; rewrite Hrep'; by destruct (paranoid_checks topts)));
      change (ok Status_OK) with true; cbn [andb negb].
    + assert (size rec <? 12 = false) as ->. { apply Z.ltb_ge. rewrite (ho_rep _ _ _ Hb1), !size_app, size_EncodeFixed64, size_EncodeFixed32. pose proof (size_nonneg (concat (record_of <$> b.2))). lia. }
      destruct Hasc as (A1 & A2 & A3). apply in_blocks_app in Hib as [_ Hib]. rewrite (cons_middle b cs bs), (app_assoc cs [b] bs) in Hlen, Hdesc. rewrite (cons_middle rec rs recs), (app_assoc rs [rec] recs) in Hmem.
      cbn [length] in Hn1. unfold SetContents.
      destruct (replay_batch h n rec b rs cs ls db r' Hst (at_open _ _ _ Hat') Hrep' Hb1 Hb2 A1 A2) as (ls2 & db2 & -> & E1 & E2 & G2 & U2 & F2 & Hcase);
        [by apply (Hmem [] _ recs)|rewrite entries_in_app, length_app in Hlen; lia|eapply describable_sub; [|exact Hdesc]; rewrite (entries_in_app (cs ++ [b]) bs); by apply submseteq_inserts_r|unfold is_u64; lia|].
      cbn [mbind option_bind]. rewrite <- E2 in A3.
      assert (log_at h (db_env db2) (set_file (h, db_env db2) (ls_reader ls2)) (layout_end p prs) (take (m - Z.to_nat (layout_end p prs - p)) (layout (layout_end p prs) (concat prss')))) as Hat2 by (rewrite E1; by eapply log_at_move).
      assert (∀ j, (j < length recs)%nat -> Z.of_nat (m - Z.to_nat (layout_end p prs - p)) < layout_end (layout_end p prs) (concat (take (S j) prss')) - layout_end p prs ->
        Z.of_nat m < layout_end p (concat (take (S (S j)) (prs :: prss'))) - p) as Hmore.
      { intros j Hj Hx. change (take (S (S j)) (prs :: prss')) with (prs :: take (S j) prss'). cbn [concat]. rewrite layout_end_app. lia. }
      destruct Hcase as [(Hst2 & N2 & Hdone)|(Hst2 & N2 & Hnf & f1 & Hdone)].
      * destruct (IH prss' Hf' k n _ _ ls2 db2 (rs ++ [rec]) (cs ++ [b]) ltac:(simpl in Hk; lia) ltac:(lia) Hat2 Hib Hst2 A3 Hmem Hlen Hdesc ltac:(lia) ltac:(lia)) as (j & segs & rsegs & rs' & rest & files & ls3 & db3 & -> & Hj & Hle2 & Hgt2 & Ec & Er & El & Hs & Hfill & Emax & Hres).
        exists (S j), segs, rsegs, rs', rest, files, ls3, db3. split_and!; [done|cbn; lia| |intros Hlt; cbn [length] in Hlt; apply Hmore; [lia|apply Hgt2; lia]|by rewrite <- Ec, <- app_assoc|by rewrite <- Er, <- app_assoc|done|lia|done|by rewrite Emax, E2|by apply Hdone].
        cbn [take concat]. rewrite layout_end_app. lia.
      * rewrite u64_small in N2 by lia. destruct (IH prss' Hf' k n _ _ ls2 db2 [] [] ltac:(simpl in Hk; lia) ltac:(lia) Hat2 Hib Hst2 A3) as (j & segs & rsegs & rs' & rest & files & ls3 & db3 & -> & Hj & Hle2 & Hgt2 & Ec & Er & El & Hs & Hfill & Emax & Hres).
        -- intros before seg rest E. apply (Hmem ((rs ++ [rec]) ++ before) seg rest). rewrite <- !app_assoc in *. cbn in *. by rewrite E.
        -- rewrite entries_in_app, length_app in Hlen. cbn [app]. lia.
        -- eapply describable_sub; [|exact Hdesc]. rewrite (entries_in_app (cs ++ [b]) bs). cbn [app]. by apply submseteq_inserts_l.
        -- lia.
        -- lia.
        -- exists (S j), ((cs ++ [b]) :: segs), ((rs ++ [rec]) :: rsegs), rs', rest, (f1 ++ files), ls3, db3. cbn [app] in Ec, Er.
           split_and!; [done|cbn; lia| |intros Hlt; cbn [length] in Hlt; apply Hmore; [lia|apply Hgt2; lia]|cbn [take concat]; by rewrite Ec, <- !app_assoc|cbn [take concat]; by rewrite Er, <- !app_assoc| |cbn; lia|by constructor|by rewrite Emax, E2|by apply Hdone; [|lia]].
           ++ cbn [take concat]. rewrite layout_end_app. lia.
           ++ constructor; [|done]. destruct (rp_fits _ _ _ _ _ Hst) as [_ El0]. rewrite !length_app, El0. done.
    + destruct Hat' as (_ & _ & _ & _ & _ & (E1 & (E2 & E3 & _) & _) & _). exists O, [], [], rs, cs, []. eexists _, _. split; [done|]. split_and!; [lia|cbn; lia| |by rewrite app_nil_r|by rewrite app_nil_r|done|done|done|done|by apply replayed_end].
      intros _. cbn [take concat]. by rewrite app_nil_r.
Qed.

(** The records are cut where the write buffer is exceeded, and at the end. *)
Definition cut_when_full (rsegs : list (list Slice)) : Prop := ∀ a r b, rsegs = a ++ r :: b -> filled r ∨ (b = [] ∧ r ≠ [] ∧ fits r).

Lemma cut_filled rsegs : Forall filled rsegs -> cut_when_full rsegs.
Proof using Type. intros Hf a r b ->. apply Forall_app in Hf as [_ [Hr _]%Forall_cons_1]. by left. Qed.

Lemma cut_last rsegs r : Forall filled rsegs -> r ≠ [] -> fits r -> cut_when_full (rsegs ++ [r]).
Proof using Type.
  intros Hf Hne Hr a r' b E. destruct b as [|x b _] using rev_ind.
  - apply app_inj_tail in E as [-> <-]. by right.
  - rewrite app_comm_cons, app_assoc in E. apply app_inj_tail in E as [-> _]. apply Forall_app in Hf as [_ [Hr' _]%Forall_cons_1]. by left.
Qed.

(** The log is written on, with a memtable of what was not flushed. *)
Definition continues (rest : list (Z * list op)) (db : DBImpl W) : Prop :=
  logfile_number_ db = number ∧ is_Some (logfile_ db) ∧ is_Some (log_ db) ∧ ∃ a m, mem_ db = Some a ∧ mems db !! a = Some m ∧ mem_holds ucmp okp m (entries_in rest).

Lemma reuse_log_ok (reuse_logs last_log : bool) rs rest ls db : good (db_env db) -> is_Some (LdbFilenameThms.contents (db_env db) log_name) -> unflushed rs rest ls db ->
  (reuse_logs && last_log = true -> logfile_ db = None ∧ log_ db = None ∧ mem_ db = None) ->
  ∃ mem db', reuse_log regions dbname addr reuse_logs last_log number ls db = Some (mem, db') ∧ good (db_env db') ∧ same_files (db_env db) (db_env db') ∧ next db' = next db ∧
    ((mem = ls_mem ls ∧ mems db' = mems db ∧ same_log db db') ∨ (mem = None ∧ reuse_logs && last_log = true ∧ ls_compactions ls = 0 ∧ continues rest db')).
Proof using ComparatorLaws0 DiskLaws0 ReaderLaws0 Hm0.
  intros Hg [d Hd] Hu Hnone. unfold reuse_log. destruct (ok (ls_status ls) && reuse_logs && last_log && (ls_compactions ls =? 0)) eqn:Ec; [|exists (ls_mem ls), db; split_and!; try done; by left].
  apply andb_prop in Ec as [[[_ Er]%andb_prop El]%andb_prop Ez%Z.eqb_eq]. rewrite Er, El in *. destruct (Hnone eq_refl) as (N1 & N2 & N3). rewrite N1, N2, N3. cbn [bool_decide andb negb].
  destruct (disk_size _ _ _ Hg Hd) as (w1 & -> & G1 & F1 & _). change (ok None) with true. cbn [negb]. destruct (env_NewAppendableFile log_name w1) as [[s h] w2] eqn:E2.
  destruct (rl_appendable log_name d w1 s h w2 G1 ltac:(by rewrite F1) E2) as [G2 F2]. assert (same_files (db_env db) w2) as F3 by (intros f; by rewrite F2, F1).
  destruct (ok s) eqn:Es; cbn [negb]; [|eexists _, _; split_and!; [done|done|done|done|by left]].
  set (db1 := with_log _ _ _ _). unfold unflushed in Hu. destruct (ls_mem ls) as [a|] eqn:Em.
  - destruct Hu as (m & H1 & _ & H2 & _). eexists _, _. split_and!; [done|done|done|done|]. right. split_and!; [done..|]. split_and!; [done|by eexists|by eexists|]. by exists a, m.
  - destruct Hu as [_ ->]. unfold new_memtable. rewrite Hm0. cbn [mbind option_bind]. eexists _, _. split_and!; [done|done|done|done|]. right. split_and!; [done..|]. split_and!; [done|by eexists|by eexists|].
    eexists _, (Ref m0). split_and!; [done|apply lookup_insert_eq|]. apply mem_holds_ref. by apply (MemTable_new_holds ucmp okp regions).
Qed.

(** The memtable that is left goes to a table, unless the log is written on. *)
Lemma recover_rest rounds (reuse_logs last_log : bool) h segs rs rest files ls0 db0 ls db : replayed h segs rs rest files ls0 db0 ls db -> is_Some (LdbFilenameThms.contents (db_env db0) log_name) ->
  (reuse_logs && last_log = true -> logfile_ db0 = None ∧ log_ db0 = None ∧ mem_ db0 = None) -> (length (entries_in rest) <= rounds)%nat -> describable (entries_in rest) ->
  ls_compactions ls0 = 0 -> 0 <= next db0 -> next db0 + Z.of_nat (S (length segs)) < 2 ^ 64 ->
  ∃ segs' rest' files' db', ('(mem, db) ← reuse_log regions dbname addr reuse_logs last_log number ls (with_env (delete_sequential h (db_env db)) db);
      match mem with
      | None => Some (ls_status ls, ls_save ls, ls_edit ls, ls_max ls, db)
      | Some a =>
          '(s, save, edit, db) ←
            (if ok (ls_status ls) then
               '(s, edit, db) ← WriteLevel0Table ucmp topts max_file_size dbname addr (D := D) others rounds a None (ls_edit ls) db; Some (s, true, edit, db)
             else Some (ls_status ls, ls_save ls, ls_edit ls, db));
          db ← mem_Unref a db;
          Some (s, save, edit, ls_max ls, db)
      end) = Some (Status_OK, ls_save ls0 || negb (bool_decide (segs' = [])), add_level0 (ls_edit ls0) files', ls_max ls, db') ∧
    good (db_env db') ∧ stored (db_env db') (next db0) segs' files' ∧ tables_only dbname (next db0) (next db0 + Z.of_nat (length segs')) (db_env db0) (db_env db') ∧ next db' = next db0 + Z.of_nat (length segs') ∧
    ((rest' = [] ∧ same_log db0 db' ∧ ((segs' = segs ++ [rest] ∧ rs ≠ []) ∨ (segs' = segs ∧ rs = [] ∧ rest = []))) ∨
     (reuse_logs && last_log = true ∧ segs' = [] ∧ segs = [] ∧ rest' = rest ∧ continues rest' db')).
Proof using ComparatorLaws0 Hbytes Hcmp DiskLaws0 EnvDir0 ReaderLaws0 Hopens Hspare Hothers Hm0 Hnumber.
  intros [R1 R2 R3 R4 R5 R6 R7 R8 R9] [d Hd] Hnone Hr Hdesc Hz0 Hn0 Hn1. destruct (disk_close_read h (db_env db) R5) as (G1 & F1 & _). set (db1 := with_env _ db).
  assert (LdbFilenameThms.contents (db_env db1) log_name = Some d) as Hd1. { change (db_env db1) with (delete_sequential h (db_env db)). rewrite F1, R7; [done|]. intros n Hn. apply log_not_table. unfold is_u64. lia. }
  destruct (reuse_log_ok reuse_logs last_log rs rest ls db1) as (mem & db2 & -> & G2 & F2 & N2 & Hcase); [done|by eexists|apply R1|by destruct R9 as (L1 & L2 & L3); cbn; rewrite L1, L2, L3|]. cbn [mbind option_bind].
  assert (same_files (db_env db) (db_env db2)) as F3 by (intros f; by rewrite F2, <- F1). change (next db1) with (next db) in N2. rewrite (rp_status _ _ _ _ _ R1). change (ok Status_OK) with true. cbv iota.
  pose proof (rp_mem _ _ _ _ _ R1) as Hu. unfold unflushed in Hu. destruct Hcase as [(-> & Ms & Sl)|(-> & Hre & Hz & Hc)].
  - change (mems db1) with (mems db) in Ms. assert (same_log db0 db2) as Sl2 by (by apply (same_log_trans _ db)). destruct (ls_mem ls) as [a|].
    + destruct Hu as (m & M1 & _ & M2 & M3). rewrite <- Ms in M1.
      destruct (flush_ok rounds a m (entries_in rest) (ls_edit ls) db2 G2 M1 M2 Hr Hdesc) as (f2 & db3 & db4 & -> & E4 & X1 & X2 & X3 & _ & X5 & X6). cbn [mbind option_bind]. rewrite E4. cbn [mbind option_bind].
      rewrite N2, R8 in X1, X3, X5. rewrite u64_small in X5 by lia. exists (segs ++ [rest]), [], (files ++ f2), db4. rewrite length_app. cbn [length].
      rewrite bool_decide_eq_false_2 by (by destruct segs). cbn [negb]. rewrite orb_true_r, add_level0_app, <- R4.
      assert (tables_only dbname (next db0 + Z.of_nat (length segs)) (next db0 + Z.of_nat (length segs) + 1) (db_env db) (db_env db4)) as T by (apply (tables_only_same dbname _ _ _ (db_env db2)); [done|by apply table_only]).
      split_and!; [done|done| | |lia|].
      * apply stored_app; [|by exists f2, []; rewrite app_nil_r]. apply (stored_same ucmp okp topts dbname addr (db_env db)); [|done]. intros i Hi.
        apply (tables_only_keeps dbname _ _ i _ _) in T; [done|unfold is_u64; lia|lia|lia|lia].
      * replace (next db0 + Z.of_nat (length segs + 1)) with (next db0 + Z.of_nat (length segs) + 1) by lia. by apply (tables_only_trans dbname _ (next db0 + Z.of_nat (length segs)) _ _ (db_env db)); [lia| |].
      * left. split_and!; [done|by apply (same_log_trans _ db2)|by left].
    + destruct Hu as [-> ->]. exists segs, [], files, db2. rewrite R3, R4. split_and!; [done|done| | |by rewrite N2, R8|left; split_and!; [done|done|by right]].
      * apply (stored_same ucmp okp topts dbname addr (db_env db)); [|done]. intros i _. apply F3.
      * intros f Hf. by rewrite F3, R7.
  - assert (segs = []) as -> by (destruct segs; [done|cbn [length] in R2; lia]). exists [], rest, files, db2. rewrite R3, R4. split_and!; [done|done| | |by rewrite N2, R8|by right].
    + by apply (stored_same ucmp okp topts dbname addr (db_env db)).
    + intros f Hf. by rewrite F3, R7.
Qed.

End Recover.

(** C7. [RecoverLogFile] restores what a log still has. Let the disk not fail
    ([good], [DiskLaws]), writing a file not disturb the objects that read
    others ([ReaderLaws], [tables_spare]), the table cache open the tables that
    are written, memory be there for the entries, and no other thread use the
    database yet ([unpublished]). For a log of batches with ascending sequence
    numbers, cut off anywhere as by a crash, the call ends with OK, and the
    batches that were completely written are [concat segs ++ rest]. The
    segments end where the memtable has outgrown [write_buffer_size], the last
    one at the end of the log ([cut_when_full]). Each segment was flushed: it
    is in a table of its own, numbered from the next file number on, that holds
    exactly its entries, sorted, and that the edit gets at level 0 (none for a
    segment without entries); the manifest is to be saved when there is a
    segment; the largest sequence number is that of the last batch; no other
    file changes. Nothing is left over ([rest] is empty), unless this is the
    last log, logs are reused, nothing was flushed and the environment can
    append to the log: then it is written on, and the memtable of the database
    holds exactly the entries of all these batches. *)
Theorem log_replay_restores `{NewChar} {W D : Type} `{!Env W, !EnvView W, !DiskView W, !DiskLaws W} `{!EnvDir W} `{!ReaderView W, !ReaderLaws W} `{!Iterator D} `{!TableCache W D}
    (regions : list region) (ucmp : Comparator) (okp : Slice -> Prop) `{!ComparatorLaws ucmp okp} (topts : Options) (max_file_size write_buffer_size : Z) (dbname : Slice) (addr : Slice -> Z)
    (others : DBImpl W -> DBImpl W) (m0 : MemTable) (recs : list Slice) (bs : list (Z * list op)) (prss : list (list (Z * Slice))) (number lo : Z) (cut rounds : nat) (reuse_logs last_log save : bool) (edit : VersionEdit) (db : DBImpl W) :
  let log j := layout 0 (concat (take j prss)) in let next := nm_next_file (vs_numbers (versions_ db)) in
  (∀ k, okp k -> Forall is_u8 k) -> comparator topts = InternalKeyComparator ucmp -> opens_tables (W := W) (D := D) ucmp okp topts dbname addr -> tables_spare (W := W) (D := D) ->
  (∀ db, unpublished db (others db)) -> Forall2 fragments recs prss -> in_blocks 0 (concat prss) -> batches okp recs bs -> 0 <= lo -> ascending lo bs ->
  MemTable_new regions = Some m0 -> (∀ before seg after, recs = before ++ seg ++ after -> is_Some (replay regions ucmp seg (Ref m0))) ->
  describable topts addr (entries_in bs) -> (length (entries_in bs) <= rounds)%nat -> (S (length (log (length recs))) < rounds)%nat ->
  is_u64 number -> 0 <= next -> next + Z.of_nat (S (length recs)) < 2 ^ 64 -> (reuse_logs && last_log = true -> logfile_ db = None ∧ log_ db = None ∧ mem_ db = None) ->
  good (db_env db) -> LdbFilenameThms.contents (db_env db) (LogFileName dbname number) = Some (take cut (log (length recs))) ->
  ∃ j segs rest rsegs rrest files db', (j <= length recs)%nat ∧ (length (log j) <= cut)%nat ∧ ((j < length recs)%nat -> (cut < length (log (S j)))%nat) ∧
    take j bs = concat segs ++ rest ∧ take j recs = concat rsegs ++ rrest ∧ Forall2 (fun r b => length r = length b) rsegs segs ∧
    cut_when_full regions ucmp write_buffer_size m0 rsegs ∧ fits regions ucmp write_buffer_size m0 rrest ∧
    RecoverLogFile regions ucmp topts max_file_size write_buffer_size dbname addr (D := D) others rounds reuse_logs last_log number save edit lo db =
      Some (Status_OK, save || negb (bool_decide (segs = [])), add_level0 edit files, top lo (take j bs), db') ∧
    stored ucmp okp topts dbname addr (db_env db') next segs files ∧ good (db_env db') ∧ tables_only dbname next (next + Z.of_nat (length segs)) (db_env db) (db_env db') ∧
    nm_next_file (vs_numbers (versions_ db')) = next + Z.of_nat (length segs) ∧
    ((rest = [] ∧ rrest = [] ∧ same_log db db') ∨ (reuse_logs && last_log = true ∧ segs = [] ∧ continues ucmp okp number rest db')).
Proof.
  intros log next Hb Hc Ho Hs Hk Hf Hib Hbs Hlo Hasc Hm0 Hmem Hdesc Hlen Hr Hnum Hn0 Hn1 Hnone Hg Hd. unfold RecoverLogFile.
  destruct (NewSequentialFile (LogFileName dbname number) (db_env db)) as [[s h] w] eqn:E. destruct (disk_open _ _ _ _ _ _ Hg Hd E) as (-> & G1 & U1 & F1 & O1). pose proof (rl_open _ _ _ _ _ _ Hg Hd E) as Hreads.
  change (ok None) with true. cbn [negb]. set (db1 := with_env w db). set (ls0 := MkLogState _ _ _ _ _ _ _).
  pose proof (Forall2_length Hf) as Elen. assert (take (length recs) prss = prss) as Etake by (apply take_ge; lia). unfold log in *. rewrite Etake in Hd, Hr, U1. pose proof (length_layout_ge 0 (concat prss) ltac:(lia)). pose proof (length_fragments _ _ Hf).
  destruct (recover_log_loop_ok regions ucmp okp Hb topts Hc max_file_size write_buffer_size dbname addr Ho Hs others Hk m0 Hm0 number Hnum h recs bs prss Hbs Hf rounds rounds cut 0 ls0 db1 [] [])
    as (j & segs & rsegs & rs & rest & files & ls & db2 & -> & Hj & Hle & Hgt & Ec & Er & El & Hsl & Hfill & Emax & Hres); try done; try lia.
  - split; cbn; [done|done|lia|lia|by rewrite U1|by vm_compute|done|done|apply Forall_take, layout_bytes; [lia|done]|]. split; [|done]. split_and!; [done|by split_and!|by eexists].
  - split; try done. split; [by intros [] ? [=]|done].
  - change (nm_next_file (vs_numbers (versions_ db1))) with next. lia.
  - cbn [mbind option_bind]. cbn [app] in Ec. assert (entries_in bs = entries_in (concat segs) ++ entries_in rest ++ entries_in (drop j bs)) as Ees by (by rewrite app_assoc, <- !entries_in_app, <- Ec, take_drop).
    destruct (recover_rest regions ucmp okp Hb topts Hc max_file_size write_buffer_size dbname addr Ho Hs others Hk m0 Hm0 number Hnum rounds reuse_logs last_log h segs rs rest files ls0 db1 ls db2 Hres)
      as (segs' & rest' & files' & db' & -> & X3 & X4 & X5 & X6 & X7); try done; try (change (db_env db1) with w; rewrite F1; by eexists);
      [rewrite Ees, !length_app in Hlen; lia|eapply describable_sub; [|exact Hdesc]; rewrite Ees; by apply submseteq_inserts_l, submseteq_inserts_r|change (nm_next_file (vs_numbers (versions_ db1))) with next; lia|].
    pose proof Hres as [[_ _ _ _ [Hfit Hlrs]] _ _ _ _ _ _ _ _].
    assert (∃ rsegs' rrest', take j bs = concat segs' ++ rest' ∧ take j recs = concat rsegs' ++ rrest' ∧ Forall2 (fun r b => length r = length b) rsegs' segs' ∧
      cut_when_full regions ucmp write_buffer_size m0 rsegs' ∧ fits regions ucmp write_buffer_size m0 rrest' ∧
      ((rest' = [] ∧ rrest' = [] ∧ same_log db db') ∨ (reuse_logs && last_log = true ∧ segs' = [] ∧ continues ucmp okp number rest' db'))) as (rsegs' & rrest' & Z1 & Z2 & Z3 & Z4 & Z5 & Z6).
    { cbn [app] in Er. rewrite Ec, Er. destruct X7 as [(-> & Y2 & [[-> Y3]|(-> & -> & ->)])|(Y1 & -> & -> & -> & Y2)].
      - exists (rsegs ++ [rs]), []. rewrite !concat_app. cbn. rewrite !app_nil_r. split_and!; [done|done|by apply Forall2_app; [|constructor]|by apply cut_last|by intros [] ? [=]|by left].
      - exists rsegs, []. split_and!; [done|done|done|by apply cut_filled|done|by left].
      - exists rsegs, rs. split_and!; [done|done|done|by apply cut_filled|done|by right]. }
    exists j, segs', rest', rsegs', rrest', files', db'. rewrite <- size_layout in Hle by lia. split_and!; try done.
    + unfold size in Hle. lia.
    + intros Hlt. specialize (Hgt Hlt). rewrite <- size_layout in Hgt by lia. unfold size in Hgt. lia.
    + by rewrite Emax.
    + intros f Hne. by rewrite X5, F1.
Qed.

(** In memory, nothing disturbs an object that reads. *)
#[export] Instance mem_reader : ReaderView MemEnv := fun _ _ _ => True.

#[export] Instance mem_reader_laws : ReaderLaws MemEnv.
Proof.
  split; unfold spares; cbn; try done.
  - by intros f w s h w' [= <- <- <-].
  - intros f d h x w s w' _ Hp. rewrite Hp. by case_match; intros [= <- <-].
  - by intros f d h w s w' _ _ [= <- <-].
  - intros f d h w s w' _ Hp. rewrite Hp. by intros [= <- <-].
  - intros f d h w s w' _ Hp. rewrite Hp. by intros [= <- <-].
  - by intros f d w s h w' Hg _ [= <- <- <-].
Qed.

Definition w_finished (kvs : list (Slice * Slice)) : bool :=
  match TableBuilder_Finish (fun _ => 0) (build_table (fun _ => 0) w_internal ([] : Slice) kvs) with Some (_, r) => LdbSlice.size (file r) <? 2 ^ 64 | None => true end.

Lemma w_table_size es d size : es ⊆+ entries_in w_batches -> is_table w_internal (fun _ => 0) (shown_entries es) d size -> LdbSlice.size d < 2 ^ 64.
Proof.
  intros [k Hk]%submseteq_Permutation (r & Hr & <- & _). assert (w_finished (shown_entries es) = true) as K.
  - symmetry in Hk. change (entries_in w_batches) with [Entry 1 kTypeValue [97] [1]; Entry 2 kTypeDeletion [97] []] in Hk.
    apply Permutation_sym, Permutation_length_2_inv in Hk. destruct es as [|x [|y [|z es]]]; destruct Hk as [[=]|[=]]; subst; by vm_compute.
  - unfold w_finished in K. rewrite Hr in K. by apply Z.ltb_lt.
Qed.


Lemma unpublished_refl {W : Type} `{!EnvView W, !DiskView W, !ReaderView W} (db : DBImpl W) : unpublished db db.
Proof. by split. Qed.

Lemma w_replays before seg after : [w_rec1; w_rec2] = before ++ seg ++ after -> is_Some (replay [] BytewiseComparator seg (Ref small_empty)).
Proof.
  assert (∀ l, l ∈ [[]; [w_rec1]; [w_rec2]; [w_rec1; w_rec2]] -> is_Some (replay [] BytewiseComparator l (Ref small_empty))) as K.
  { assert (forallb (fun l => if replay [] BytewiseComparator l (Ref small_empty) then true else false) [[]; [w_rec1]; [w_rec2]; [w_rec1; w_rec2]] = true) as K by (by vm_compute).
    intros l Hl. apply list_elem_of_In in Hl. apply (proj1 (forallb_forall _ _) K) in Hl. destruct (replay _ _ _ _); [by eexists|done]. }
  intros E. apply K. destruct before as [|x [|y [|z before]]]; [|injection E as -> E|injection E as -> -> E|by injection E]; destruct seg as [|x' [|y' [|z' seg]]]; simplify_eq/=; set_solver.
Qed.

(** A write buffer of 100 bytes: the memtable is flushed after the batch. *)
Lemma log_replay_restores_witness : ∃ vs db' segs files, VersionSet_new (w_crashed 30) = Some vs ∧
  RecoverLogFile [] BytewiseComparator w_internal 100 100 (str "db") (fun _ => 0) (D := EmptyIterator) (fun db => db) 100 false true 3 false VersionEdit_new 0 (w_database vs) =
    Some (Status_OK, true, add_level0 VersionEdit_new files, 1, db') ∧
  concat segs = [(1, [OpPut [97] [1]])] ∧ stored BytewiseComparator (Forall is_u8) w_internal (str "db") (fun _ => 0) (db_env db') 2 segs files.
Proof.
  destruct (VersionSet_new_ok BytewiseComparator (Forall is_u8) (w_crashed 30)) as (vs & E & _ & _ & Hw & _). assert (nm_next_file (vs_numbers vs) = 2) as En by (by injection E as <-).
  destruct (log_replay_restores [] BytewiseComparator (Forall is_u8) w_internal 100 100 (str "db") (fun _ => 0) (D := EmptyIterator) (fun db => db) small_empty [w_rec1; w_rec2] w_batches w_prss 3 0 30 100
    false true false VersionEdit_new (w_database vs)) as (j & segs & rest & rsegs & rrest & files & db' & H1 & H2 & H3 & H4 & Hr & Hlen & _ & _ & H5 & H6 & _ & _ & _ & H7).
  - done.
  - done.
  - exact w_opens.
  - by intros n size w w' it [= <- <-].
  - intros db. apply unpublished_refl.
  - constructor; [constructor|constructor; [constructor|constructor]].
  - exact w_blocks.
  - exact w_batches_ok.
  - lia.
  - cbn. split_and!; vm_compute; congruence || done.
  - by vm_compute.
  - exact w_replays.
  - exact w_table_size.
  - apply Nat.leb_le. by vm_compute.
  - apply Nat.ltb_lt. by vm_compute.
  - done.
  - cbn. lia.
  - cbn. lia.
  - done.
  - unfold db_env. cbn. rewrite Hw. split; [done|]. intros h _. exact (lookup_empty h).
  - unfold db_env. cbn. rewrite Hw. by vm_compute.
  - assert (j = 1%nat) as ->.
    { assert (length (layout 0 (concat (take 1 w_prss))) <=? 30 = true)%nat as L1 by (by vm_compute). assert (30 <? length (layout 0 (concat (take 2 w_prss))) = true)%nat as L2 by (by vm_compute).
      apply Nat.leb_le in L1. apply Nat.ltb_lt in L2. cbn [length] in H1, H3. destruct j as [|[|[|j]]]; [|done| |lia]; exfalso; [specialize (H3 ltac:(lia))|]; lia. }
    destruct H7 as [(-> & _ & _)|(H7 & _)]; [|done]. rewrite app_nil_r in H4. assert (segs ≠ []) as Hs by (intros ->; by cbn in H4). rewrite (bool_decide_eq_false_2 (segs = [])) in H5 by done.
    exists vs, db', segs, files. split_and!; [done|exact H5|by rewrite <- H4|]. cbn in H6. by rewrite En in H6.
Defined.
