(* ===== verification/LdbRepair.v ===== *)
(** * leveldb: the repairer (repair.cc)

    [RepairDB] rebuilds the manifest of a database from the other files: logs
    become tables, every table is scanned, and the new manifest lists all
    tables at level 0.  A log that is cut off anywhere becomes a table with
    exactly the entries of its complete batches; a scan finds the first and
    the last key and the largest sequence number of a table and replaces a
    damaged table by the entries that its iterator shows; and the database
    opens again with the new manifest.

    [None] is a failed assertion, memory that cannot be had or a loop that ran
    out of rounds.  Messages are left out. *)

From S2P Require Import Prelude.
From S2P Require Import LdbSlice.
From S2P Require Import LdbCoding.
From S2P Require Import LdbFormat.
From S2P Require Import LdbFormatThms.
From S2P Require Import LdbLog.
From S2P Require Import LdbLogThms.
From S2P Require Import LdbTableFormat.
From S2P Require Import LdbTableBuilder.
From S2P Require Import LdbTableBuild.
From S2P Require Import LdbArena.
From S2P Require Import LdbWriteBatch.
From S2P Require Import LdbMemTable.
From S2P Require Import LdbMemThms.
From S2P Require Import LdbIterator.
From S2P Require Import LdbVersionEdit.
From S2P Require Import LdbVersionEditThms.
From S2P Require Import LdbFilename.
From S2P Require Import LdbFilenameThms.
From S2P Require Import LdbVersion.
From S2P Require Import LdbVersionThms.
From S2P Require Import LdbVersionSet.
From S2P Require Import LdbVersionSetThms.
From S2P Require Import LdbManifest.
From S2P Require Import LdbDB.
From S2P Require Import LdbDBThms.
From S2P Require Import LdbDBWrite.

(** ** The repairer *)

Record TableInfo := MkTableInfo { ti_meta : FileMetaData; ti_max_sequence : Z }.

Record Repairer (W : Type) := MkRepairer {
  rp_env : W;
  rp_edit : VersionEdit;
  manifests_ : list Slice;
  table_numbers_ : list Z;
  logs_ : list Z;
  tables_ : list TableInfo;
  rp_next_file_number : Z;
}.
Arguments MkRepairer {W}.
Arguments rp_env {W}.
Arguments rp_edit {W}.
Arguments manifests_ {W}.
Arguments table_numbers_ {W}.
Arguments logs_ {W}.
Arguments tables_ {W}.
Arguments rp_next_file_number {W}.

(** Names are handed on as C strings: the part before a null byte. *)
Fixpoint c_str (s : Slice) : Slice := match s with [] => [] | c :: s => if c =? 0 then [] else c :: c_str s end.

(** [strrchr(s, '/')]: what is before and after the last slash. *)
Fixpoint last_slash (s : Slice) : option (Slice * Slice) :=
  match s with
  | [] => None
  | c :: s =>
      match last_slash s with
      | Some (a, b) => Some (c :: a, b)
      | None => if c =? 47 then Some ([], s) else None
      end
  end.

(** The directory of the archive and the name in it. *)
Definition archive_name (fname : Slice) : Slice * Slice :=
  let '(dir, base) := default ([], c_str fname) (last_slash (c_str fname)) in
  let new_dir := dir ++ str "/lost" in (new_dir, new_dir ++ str "/" ++ base).

Section Repairer.

Context `{NewChar} (regions : list region) (ucmp : Comparator) (topts : Options) (dbname : Slice) (addr : Slice -> Z).
Context {W D : Type} `{!Env W} `{!EnvDir W} `{!Iterator D} `{!TableCache W D}.
#[local] Existing Instance env_writable.
#[local] Existing Instance env_sequential.

Definition rp_with_env (w : W) (r : Repairer W) : Repairer W :=
  MkRepairer w (rp_edit r) (manifests_ r) (table_numbers_ r) (logs_ r) (tables_ r) (rp_next_file_number r).
Definition push_number (n : Z) (r : Repairer W) : Repairer W :=
  MkRepairer (rp_env r) (rp_edit r) (manifests_ r) (table_numbers_ r ++ [n]) (logs_ r) (tables_ r) (rp_next_file_number r).
Definition push_table (t : TableInfo) (r : Repairer W) : Repairer W :=
  MkRepairer (rp_env r) (rp_edit r) (manifests_ r) (table_numbers_ r) (logs_ r) (tables_ r ++ [t]) (rp_next_file_number r).
(** [next_file_number_++]. *)
Definition take_number (r : Repairer W) : Z * Repairer W :=
  (rp_next_file_number r, MkRepairer (rp_env r) (rp_edit r) (manifests_ r) (table_numbers_ r) (logs_ r) (tables_ r) (u64 (rp_next_file_number r + 1))).

Definition Repairer_new (env : W) : Repairer W := MkRepairer env VersionEdit_new [] [] [] [] 1.

Definition ArchiveFile (fname : Slice) (w : W) : W :=
  let '(new_dir, new_file) := archive_name fname in
  let w := (CreateDir new_dir w).2 in (RenameFile fname new_file w).2.

Definition find_file (r : Repairer W) (filename : Slice) : Repairer W :=
  match ParseFileName filename with
  | None => r
  | Some (_, kDescriptorFile) =>
      MkRepairer (rp_env r) (rp_edit r) (manifests_ r ++ [filename]) (table_numbers_ r) (logs_ r) (tables_ r) (rp_next_file_number r)
  | Some (number, type) =>
      let next := if rp_next_file_number r <? u64 (number + 1) then u64 (number + 1) else rp_next_file_number r in
      MkRepairer (rp_env r) (rp_edit r) (manifests_ r)
        (match type with kTableFile => table_numbers_ r ++ [number] | _ => table_numbers_ r end)
        (match type with kLogFile => logs_ r ++ [number] | _ => logs_ r end) (tables_ r) next
  end.

Definition FindFiles (r : Repairer W) : Status * Repairer W :=
  let '(s, filenames, w) := GetChildren dbname (rp_env r) in
  let r := rp_with_env w r in
  if negb (ok s) then (s, r)
  else if bool_decide (filenames = []) then (Status_IOError dbname (str "repair found no files"), r)
  else (s, foldl find_file r filenames).

(** The records of a log; an error of a batch is ignored.  [rounds] also bounds
    the physical records of a record. *)
Fixpoint convert_loop (n rounds : nat) (reader : Reader (Z * W)) (mem : MemTable) : option (MemTable * Reader (Z * W)) :=
  match n with
  | O => None
  | S n =>
      '(more, record, reader) ← ReadRecord addr rounds reader;
      if negb more then Some (mem, reader)
      else if size record <? 12 then convert_loop n rounds reader mem
      else mem ← (InsertInto regions ucmp (SetContents record) mem).2; convert_loop n rounds reader mem
  end.

Definition ConvertLogToTable (rounds : nat) (log : Z) (r : Repairer W) : option (Status * Repairer W) :=
  let '(s, lfile, w) := NewSequentialFile (LogFileName dbname log) (rp_env r) in
  if negb (ok s) then Some (s, rp_with_env w r)
  else
    m ← MemTable_new regions;
    '(mem, reader) ← convert_loop rounds rounds (Reader_new (lfile, w) true false 0) (Ref m);
    let w := delete_sequential lfile (file_ reader).2 in
    let '(number, r) := take_number r in
    '(s, meta, _, w) ← BuildTable dbname topts addr (Iterator1 := mem_iterator ucmp) rounds number (NewMemTableIterator mem) w;
    let r := rp_with_env w r in
    Some (s, if ok s && (0 <? file_size meta) then push_number number r else r).

Fixpoint convert_logs (rounds : nat) (logs : list Z) (r : Repairer W) : option (Repairer W) :=
  match logs with
  | [] => Some r
  | log :: logs =>
      '(_, r) ← ConvertLogToTable rounds log r;
      convert_logs rounds logs (rp_with_env (ArchiveFile (LogFileName dbname log) (rp_env r)) r)
  end.

Definition ConvertLogFilesToTables (rounds : nat) (r : Repairer W) : option (Repairer W) := convert_logs rounds (logs_ r) r.

Definition NewTableIterator (number size : Z) (w : W) : option (D * W) :=
  tc_NewIterator (MkReadOptions (paranoid_checks topts) (fill_cache ReadOptions_new)) number size w.

(** The keys that can be parsed: the first, the last and the largest sequence
    number. *)
Record ScanState := MkScan { sc_empty : bool; sc_smallest : Slice; sc_largest : Slice; sc_max : Z }.

Definition scan_key (key : Slice) (st : ScanState) : ScanState :=
  match ParseInternalKey key with
  | None => st
  | Some parsed => MkScan false (if sc_empty st then key else sc_smallest st) key (if sc_max st <? sequence parsed then sequence parsed else sc_max st)
  end.

Fixpoint scan_loop (n : nat) (iter : D) (st : ScanState) : option (D * ScanState) :=
  if i_Valid iter then
    match n with
    | O => None
    | S n => let st := scan_key (i_key iter) st in iter ← i_Next iter; scan_loop n iter st
    end
  else Some (iter, st).

Fixpoint copy_entries (n : nat) (iter : D) (counter : Z) (b : TableBuilder (Z * W)) : option (D * Z * TableBuilder (Z * W)) :=
  if i_Valid iter then
    match n with
    | O => None
    | S n => let b := TableBuilder_Add addr (i_key iter) (i_value iter) b in iter ← i_Next iter; copy_entries n iter (counter + 1) b
    end
  else Some (iter, counter, b).

(** The end of [RepairTable], after the copy. *)
Definition finish_copy (counter : Z) (copy : Slice) (h : Z) (b : TableBuilder (Z * W)) (t : TableInfo) (r : Repairer W) : option (Repairer W) :=
  '(s, b) ← (if counter =? 0 then Some (Status_OK, Abandon b) else TableBuilder_Finish addr b);
  let m := ti_meta t in
  let t := if ok s && negb (counter =? 0) then MkTableInfo (FileMetaData_new (file_number m) (FileSize b) (smallest m) (largest m)) (ti_max_sequence t) else t in
  let w := (file b).2 in
  let '(s, w) := if ok s then file_Close h w else (s, w) in
  let w := delete_writable h w in
  let '(s, w) := if (0 <? counter) && ok s then RenameFile copy (TableFileName dbname (file_number m)) w else (s, w) in
  let r := if (0 <? counter) && ok s then push_table t r else r in
  Some (rp_with_env (if ok s then w else (env_DeleteFile copy w).2) r).

Definition RepairTable (rounds : nat) (src : Slice) (t : TableInfo) (r : Repairer W) : option (Repairer W) :=
  let '(number, r) := take_number r in
  let copy := TableFileName dbname number in
  let '(s, h, w) := NewWritableFile copy (rp_env r) in
  if negb (ok s) then Some (rp_with_env w r)
  else
    '(iter, w) ← NewTableIterator (file_number (ti_meta t)) (file_size (ti_meta t)) w;
    iter ← i_SeekToFirst iter;
    '(iter, counter, b) ← copy_entries rounds iter 0 (TableBuilder_new topts (h, w));
    let w := ArchiveFile src (tc_delete iter (file b).2) in
    finish_copy counter copy h (in_world w b) t (rp_with_env w r).

Definition ScanTable (rounds : nat) (number : Z) (r : Repairer W) : option (Repairer W) :=
  let fname := TableFileName dbname number in
  let old_fname := SSTTableFileName dbname number in
  let '(s, size, w) := GetFileSize fname (rp_env r) in
  let '(s, size, fname, w) :=
    if ok s then (s, size, fname, w)
    else let '(s2, size2, w) := GetFileSize old_fname w in (if ok s2 then Status_OK else s, size2, old_fname, w) in
  if negb (ok s) then Some (rp_with_env (ArchiveFile old_fname (ArchiveFile (TableFileName dbname number) w)) r)
  else
    '(iter, w) ← NewTableIterator number size w;
    iter ← i_SeekToFirst iter;
    '(iter, st) ← scan_loop rounds iter (MkScan true [] [] 0);
    let s := if ok (i_status iter) then s else i_status iter in
    let r := rp_with_env (tc_delete iter w) r in
    let t := MkTableInfo (FileMetaData_new number size (sc_smallest st) (sc_largest st)) (sc_max st) in
    if ok s then Some (push_table t r) else RepairTable rounds fname t r.

Fixpoint scan_tables (rounds : nat) (numbers : list Z) (r : Repairer W) : option (Repairer W) :=
  match numbers with [] => Some r | number :: numbers => r ← ScanTable rounds number r; scan_tables rounds numbers r end.

Definition ExtractMetaData (rounds : nat) (r : Repairer W) : option (Repairer W) := scan_tables rounds (table_numbers_ r) r.

(** The edit of the new manifest. *)
Definition max_sequence_of (ts : list TableInfo) : Z := foldl (fun m t => if m <? ti_max_sequence t then ti_max_sequence t else m) 0 ts.

Definition add_table (e : VersionEdit) (t : TableInfo) : VersionEdit :=
  AddFile 0 (file_number (ti_meta t)) (file_size (ti_meta t)) (smallest (ti_meta t)) (largest (ti_meta t)) e.

Definition descriptor_edit (r : Repairer W) : VersionEdit :=
  foldl add_table (SetLastSequence (max_sequence_of (tables_ r)) (SetNextFile (rp_next_file_number r) (SetLogNumber 0 (SetComparatorName (ComparatorName ucmp) (rp_edit r))))) (tables_ r).

(** [Encode] of an internal key that is empty is a failed assertion. *)
Definition keys_set (t : TableInfo) : bool := negb (bool_decide (smallest (ti_meta t) = []) || bool_decide (largest (ti_meta t) = [])).

Definition WriteDescriptor (r : Repairer W) : option (Status * Repairer W) :=
  let tmp := TempFileName dbname 1 in
  let '(s, h, w) := NewWritableFile tmp (rp_env r) in
  if negb (ok s) then Some (s, rp_with_env w r)
  else if negb (forallb keys_set (tables_ r)) then None
  else
    let edit := descriptor_edit r in
    '(s, l) ← AddRecord addr (EncodeTo edit []) (Writer_new addr (h, w));
    let w := (dest_ l).2 in
    let '(s, w) := if ok s then file_Close h w else (s, w) in
    let w := delete_writable h w in
    let '(s, w) :=
      if negb (ok s) then (s, (env_DeleteFile tmp w).2)
      else
        let w := foldl (fun w m => ArchiveFile (dbname ++ str "/" ++ m) w) w (manifests_ r) in
        let '(s, w) := RenameFile tmp (DescriptorFileName dbname 1) w in
        if ok s then SetCurrentFile dbname 1 w else (s, (env_DeleteFile tmp w).2) in
    Some (s, MkRepairer w edit (manifests_ r) (table_numbers_ r) (logs_ r) (tables_ r) (rp_next_file_number r)).

Definition Run (rounds : nat) (r : Repairer W) : option (Status * Repairer W) :=
  let '(s, r) := FindFiles r in
  if negb (ok s) then Some (s, r)
  else
    r ← ConvertLogFilesToTables rounds r;
    r ← ExtractMetaData rounds r;
    WriteDescriptor r.

Definition RepairDB (rounds : nat) (env : W) : option (Status * W) :=
  '(s, r) ← Run rounds (Repairer_new env); Some (s, rp_env r).

End Repairer.

(** ** A log becomes a table *)

Section Convert.

Context `{NewChar} (regions : list region) (ucmp : Comparator) (okp : Slice -> Prop) `{!ComparatorLaws ucmp okp} (Hbytes : ∀ k, okp k -> Forall is_u8 k).
Context (topts : Options) (Hcmp : comparator topts = InternalKeyComparator ucmp) (dbname : Slice) (addr : Slice -> Z).
Context {W D : Type} `{!Env W, !EnvView W, !DiskView W, !DiskLaws W} `{!EnvDir W} `{!Iterator D} `{!TableCache W D}.
Context (Hopens : opens_tables ucmp okp topts dbname addr (W := W) (D := D)).
#[local] Existing Instance env_sequential.
#[local] Existing Instance manifest_reads.

Lemma convert_loop_ok (h : Z) (w0 : W) (recs : list Slice) (bs : list (Z * list op)) (prss : list (list (Z * Slice))) : batches okp recs bs -> Forall2 fragments recs prss ->
  ∀ (k n m : nat) (p lo : Z) (reader : Reader (Z * W)) (mem : MemTable) (es : list entry), (length recs < k)%nat -> (length (concat prss) < n)%nat ->
  reader_at (SequentialFile0 := env_sequential) (OpenReads0 := manifest_reads h w0) reader p (take m (layout p (concat prss))) -> in_blocks p (concat prss) ->
  mem_holds ucmp okp mem es -> Forall (fun e => e_seq e <= lo) es -> ascending lo bs -> 0 <= lo -> is_Some (replay regions ucmp recs mem) ->
  ∃ j mem' reader', convert_loop regions ucmp addr k n reader mem = Some (mem', reader') ∧ (j <= length recs)%nat ∧
    layout_end p (concat (take j prss)) - p <= Z.of_nat m ∧ ((j < length recs)%nat -> Z.of_nat m < layout_end p (concat (take (S j) prss)) - p) ∧
    mem_holds ucmp okp mem' (es ++ entries_in (take j bs)) ∧ (file_ reader').1 = h ∧ only_reads w0 (file_ reader').2.
Proof using ComparatorLaws0 DiskLaws0.
  intros Hb. revert prss. induction Hb as [|rec b recs bs [Hb1 Hb2] Hb IH]; intros prss Hf; inversion Hf as [|? prs ? prss' Hr Hf']; subst;
    intros k n m p lo reader mem es Hk Hn Hat Hib Hm Hlo Hasc Hpos Hrep; (destruct k as [|k]; [simpl in Hk; lia|]); cbn [convert_loop]; pose proof Hat as [Hi _ Hl Hp _ _ _ _ _ _];
    rewrite ReadRecord_loop by done.
  - cbn [concat layout] in Hat. rewrite take_nil in Hat. destruct (ReadPhysicalRecord_end (SequentialFile0 := env_sequential) (OpenReads0 := manifest_reads h w0) addr [] reader p Hat) as (r' & Hread & _ & He).
    destruct n as [|n]; [simpl in Hn; lia|]. erewrite (loop_eof (SequentialFile0 := env_sequential) (OpenReads0 := manifest_reads h w0) addr n (Locals false 0 [] [])) by done. cbn [mbind option_bind negb].
    destruct He as (_ & _ & _ & _ & _ & E1 & E2 & _). exists O, mem, r'. rewrite app_nil_r. split_and!; [done|lia|cbn; lia|cbn; lia|done|done|done].
  - cbn [concat] in *. rewrite length_app in Hn.
    pose proof (fragments_result (SequentialFile0 := env_sequential) (OpenReads0 := manifest_reads h w0) addr rec prs (concat prss') n reader p m Hr ltac:(lia) Hat Hib) as Hres.
    unfold record_result in Hres. pose proof (layout_end_ge p prs Hp) as Hge.
    destruct (Z.leb_spec (layout_end p prs - p) (Z.of_nat m)) as [Hle|Hgt]; destruct Hres as (r' & -> & _ & Hat'); cbn [mbind option_bind negb].
    + assert (size rec <? 12 = false) as ->. { apply Z.ltb_ge. rewrite (ho_rep _ _ _ Hb1), !size_app, size_EncodeFixed64, size_EncodeFixed32. pose proof (size_nonneg (concat (record_of <$> b.2))). lia. }
      destruct Hasc as (A1 & A2 & A3). cbn [replay] in Hrep. unfold SetContents.
      destruct (InsertInto_holds ucmp okp regions mem es rec b.1 b.2 Hm) as (mo & EI & Hmo); [eapply list.Forall_impl; [exact Hlo|]; cbn; lia|done|done|lia|].
      rewrite EI in Hrep |- *. cbn [snd] in Hrep |- *. destruct mo as [m1|]; [|by destruct Hrep]. cbn [mbind option_bind] in Hrep |- *. apply in_blocks_app in Hib as [_ Hib].
      destruct (IH prss' Hf' k n (m - Z.to_nat (layout_end p prs - p))%nat (layout_end p prs) (b.1 + Z.of_nat (length b.2) - 1) r' m1 (es ++ entries_of b.1 b.2)) as (j & mem' & r2 & -> & Hj & Hle2 & Hgt2 & Hm2 & R2);
        [simpl in Hk; lia|lia|exact Hat'|exact Hib|exact Hmo| |done|lia|done|].
      * apply Forall_app. split; [eapply list.Forall_impl; [exact Hlo|]; cbn; lia|]. eapply list.Forall_impl; [apply entries_of_bounds|]. cbn. lia.
      * exists (S j), mem', r2. split_and!; [done|simpl; lia| | |by rewrite <- app_assoc in Hm2|apply R2|apply R2].
        -- cbn [take concat]. rewrite layout_end_app. lia.
        -- intros Hlt. simpl in Hlt. specialize (Hgt2 ltac:(lia)). change (take (S (S j)) (prs :: prss')) with (prs :: take (S j) prss'). cbn [concat]. rewrite layout_end_app. lia.
    + destruct Hat' as (_ & _ & _ & _ & _ & E1 & E2 & _). exists O, mem, r'. rewrite app_nil_r. split_and!; [done|lia|cbn; lia| |done|done|done].
      intros _. cbn [take concat]. by rewrite app_nil_r.
Qed.

End Convert.

(** C9. [ConvertLogToTable] saves what a log still has. On a disk without
    failures ([good], [DiskLaws]), with a table cache that opens the tables
    that are written ([opens_tables]) and memory for the entries, and for a log
    of batches with ascending sequence numbers, cut off anywhere, it ends with
    OK; the next file number is used for a table that holds exactly the entries
    of the batches that were completely written, sorted, and that number is in
    the list of tables to scan; when there is no such entry, no table is
    listed. No other file changes, and the rest of the repairer is as it was.
    *)
Theorem repair_converts_log `{NewChar} {W D : Type} `{!Env W, !EnvView W, !DiskView W, !DiskLaws W} `{!EnvDir W} `{!Iterator D} `{!TableCache W D}
    (regions : list region) (ucmp : Comparator) (okp : Slice -> Prop) `{!ComparatorLaws ucmp okp} (topts : Options) (dbname : Slice) (addr : Slice -> Z)
    (recs : list Slice) (bs : list (Z * list op)) (prss : list (list (Z * Slice))) (log lo : Z) (cut rounds : nat) (m0 : MemTable) (r : Repairer W) :
  let stored j := layout 0 (concat (take j prss)) in let number := rp_next_file_number r in
  (∀ k, okp k -> Forall is_u8 k) -> comparator topts = InternalKeyComparator ucmp -> opens_tables (W := W) (D := D) ucmp okp topts dbname addr ->
  Forall2 fragments recs prss -> in_blocks 0 (concat prss) -> batches okp recs bs -> 0 <= lo -> ascending lo bs ->
  MemTable_new regions = Some m0 -> is_Some (replay regions ucmp recs (Ref m0)) ->
  good (rp_env r) -> LdbFilenameThms.contents (rp_env r) (LogFileName dbname log) = Some (take cut (stored (length recs))) ->
  (S (length (stored (length recs))) < rounds)%nat -> (length (entries_in bs) <= rounds)%nat ->
  (∀ es d size, es ⊆+ entries_in bs -> is_table topts addr (shown_entries es) d size -> LdbSlice.size d < 2 ^ 64) ->
  ∃ j w', (j <= length recs)%nat ∧ (length (stored j) <= cut)%nat ∧ ((j < length recs)%nat -> (cut < length (stored (S j)))%nat) ∧
    let saved := entries_in (take j bs) in
    ConvertLogToTable regions ucmp topts dbname addr (D := D) rounds log r =
      Some (Status_OK, MkRepairer w' (rp_edit r) (manifests_ r) (if bool_decide (saved = []) then table_numbers_ r else table_numbers_ r ++ [number]) (logs_ r) (tables_ r) (u64 (number + 1))) ∧
    same_but (TableFileName dbname number) (rp_env r) w' ∧
    (saved ≠ [] -> good w' ∧ ∃ es d size, es ≡ₚ saved ∧ fine ucmp okp (shown_entries es) ∧ Forall2 (fun kv e => parsed_entry kv = Some e) (shown_entries es) es ∧
      LdbFilenameThms.contents w' (TableFileName dbname number) = Some d ∧ is_table topts addr (shown_entries es) d size ∧ 0 < size).
Proof.
  intros stored number Hb Hc Ho Hf Hib Hbs Hlo Hasc Hm0 Hrep Hg Hcont Hr Hn Hsz. unfold ConvertLogToTable. destruct (NewSequentialFile (LogFileName dbname log) (rp_env r)) as [[s h] w] eqn:E.
  destruct (disk_open _ _ _ _ _ _ Hg Hcont E) as (-> & G1 & U1 & F1 & O1). pose proof (Forall2_length Hf) as Elen. assert (take (length recs) prss = prss) as Etake by (apply take_ge; lia).
  unfold stored in *. rewrite Etake in Hcont, Hr, U1. pose proof (length_layout_ge 0 (concat prss) ltac:(lia)). pose proof (length_fragments _ _ Hf).
  change (negb (ok Status_OK)) with false. change (negb (ok None)) with false. cbv iota. rewrite Hm0. cbn [mbind option_bind].
  destruct (convert_loop_ok regions ucmp okp addr h w recs bs prss Hbs Hf rounds rounds cut 0 lo (Reader_new (h, w) true false 0) (Ref m0) []) as (j & mem & rd & -> & Hj & Hle & Hgt & Hm & Eh & R); [lia|lia| |done| |constructor|done|done|done|].
  { split; cbn; [done|done|lia|lia|by rewrite U1|by vm_compute|done|done|apply Forall_take, layout_bytes; [lia|done]|]. split_and!; [done|by split_and!|by eexists]. }
  { apply mem_holds_ref. by apply (MemTable_new_holds ucmp okp regions). }
  cbn [mbind option_bind app] in *. destruct R as (R1 & R2 & R3). destruct (disk_close_read h _ R1) as (G4 & F4 & O4). unfold take_number. cbn [rp_next_file_number]. fold number.
  assert (entries_in bs = entries_in (take j bs) ++ entries_in (drop j bs)) as Eapp by (unfold entries_in; by rewrite <- concat_app, <- fmap_app, take_drop).
  destruct (build_memtable any_state ucmp okp topts dbname addr rounds number mem (entries_in (take j bs)) (delete_sequential h (file_ rd).2) Hb Hc Ho Hm) as (meta & it & w' & -> & Hsame & _ & Hres);
    [rewrite Eapp, length_app in Hn; lia|done| |].
  { intros es d size Hp. apply Hsz. rewrite Eapp, Hp. apply submseteq_inserts_r. done. }
  cbn [mbind option_bind]. change (ok Status_OK) with true. cbn [andb]. exists j, w'. rewrite <- size_layout in Hle by lia.
  split_and!; [done|unfold LdbSlice.size in Hle; lia| | | |].
  - intros Hlt. specialize (Hgt Hlt). rewrite <- size_layout in Hgt by lia. unfold LdbSlice.size in Hgt. lia.
  - destruct (bool_decide_reflect (entries_in (take j bs) = [])) as [|]; [by rewrite (proj1 Hres)|]. destruct Hres as [_ (es & d & first & last & _ & _ & _ & _ & _ & _ & _ & _ & Hpos)]. by rewrite (proj2 (Z.ltb_lt 0 _)).
  - intros f Hne. by rewrite Hsame, F4, R2, F1.
  - intros Hne. rewrite bool_decide_eq_false_2 in Hres by done. destruct Hres as [? (es & d & first & last & ? & ? & ? & ? & ? & ? & ? & ? & ?)]. split; [done|]. by exists es, d, (file_size meta).
Qed.

(** ** Files that are moved away *)

(** A component of a path. *)
Definition plain (s : Slice) : Prop := Forall (fun c => c ≠ 0 ∧ c ≠ 47) s.

Lemma c_str_id s : Forall (fun c => c ≠ 0) s -> c_str s = s.
Proof. induction 1 as [|c s Hc _ IH]; [done|]. cbn [c_str]. rewrite (proj2 (Z.eqb_neq c 0)) by done. by rewrite IH. Qed.

Lemma last_slash_none s : plain s -> last_slash s = None.
Proof. induction 1 as [|c s [_ Hc] _ IH]; [done|]. cbn [last_slash]. rewrite IH. by rewrite (proj2 (Z.eqb_neq c 47)). Qed.

Lemma last_slash_path dir base : plain base -> last_slash (dir ++ str "/" ++ base) = Some (dir, base).
Proof. intros Hb. induction dir as [|c dir IH]; cbn [app last_slash]; [cbn [str app last_slash]; change (str "/" ++ base) with (47 :: base); cbn [last_slash]; by rewrite (last_slash_none base Hb)|]. by rewrite IH. Qed.

(** The name of [base] in the archive. *)
Definition lost (dir base : Slice) : Slice := dir ++ str "/lost/" ++ base.

Lemma archive_name_path dir base : Forall (fun c => c ≠ 0) dir -> plain base -> archive_name (dir ++ str "/" ++ base) = (dir ++ str "/lost", lost dir base).
Proof.
  intros Hd Hb. unfold archive_name. rewrite c_str_id.
  - rewrite last_slash_path by done. cbn [default]. f_equal. unfold lost. rewrite <- app_assoc. by f_equal.
  - apply Forall_app. split; [done|]. apply Forall_app. split; [by repeat constructor|]. eapply list.Forall_impl; [exact Hb|]. by intros c [].
Qed.

Lemma digits_plain ds : Forall is_digit ds -> plain ds.
Proof. intros H. eapply list.Forall_impl; [exact H|]. unfold is_digit. lia. Qed.

Definition table_base (n : Z) : Slice := padded n ++ str "." ++ str "ldb".

Lemma table_base_plain n : is_u64 n -> plain (table_base n).
Proof. intros Hn. apply Forall_app. split; [by apply digits_plain, padded_spec|]. apply (bool_decide_unpack _). by vm_compute. Qed.

(** A name with a digit after the slash is not in the archive. *)
Lemma lost_not_digit dir base c rest : is_digit c -> dir ++ str "/" ++ c :: rest ≠ lost dir base.
Proof. intros Hc E. unfold lost in E. apply app_inv_head in E. unfold is_digit in Hc. change (str "/lost/" ++ base) with (47 :: 108 :: (str "ost/" ++ base)) in E. cbn [str app] in E. injection E as E _. lia. Qed.

Lemma made_not_lost dir base n suffix : is_u64 n -> MakeFileName dir n suffix ≠ lost dir base.
Proof. intros Hn. unfold MakeFileName. destruct (padded_spec n Hn) as (Hd & _ & Hne). destruct (padded n) as [|c ds]; [done|]. apply Forall_cons_1 in Hd as [Hd _]. by apply lost_not_digit. Qed.

Section Archive.

Context {W : Type} `{!Env W, !EnvView W, !DiskView W, !DiskLaws W} `{!EnvDir W} (dbname : Slice) (Hname : Forall (fun c => c ≠ 0) dbname).

(** Making a directory leaves the files alone. *)
Definition directories_apart : Prop := ∀ d w, good w -> undisturbed_by w (CreateDir d w).2.
Context (Hdirs : directories_apart).

Lemma archive_ok base d w : plain base -> good w -> contents w (dbname ++ str "/" ++ base) = Some d ->
  let w' := ArchiveFile (dbname ++ str "/" ++ base) w in
  good w' ∧ same_objects w w' ∧ contents w' (lost dbname base) = Some d ∧ ∀ g, g ≠ dbname ++ str "/" ++ base -> g ≠ lost dbname base -> contents w' g = contents w g.
Proof using DiskLaws0 Hname Hdirs.
  intros Hb Hg Hd. unfold ArchiveFile. rewrite archive_name_path by done. destruct (Hdirs (dbname ++ str "/lost") w Hg) as (G1 & F1 & O1). set (w1 := (CreateDir _ w).2) in *.
  destruct (RenameFile (dbname ++ str "/" ++ base) (lost dbname base) w1) as [s w2] eqn:E. destruct (disk_rename _ _ _ _ _ G1 ltac:(by rewrite F1, Hd) E) as (-> & G2 & O2).
  destruct (rename_law _ _ _ _ _ E) as [R _]. destruct (R eq_refl) as [R1 R2]. cbn. split_and!; [done|intros h; by rewrite O2|by rewrite R1, F1|]. intros g H1 H2. by rewrite R2, F1.
Qed.

End Archive.

(** ** Scanning a table *)

Section Scan.

Context (ucmp : Comparator) (okp : Slice -> Prop) `{!ComparatorLaws ucmp okp} (Hbytes : ∀ k, okp k -> Forall is_u8 k).
Context (topts : Options) (Hcmp : comparator topts = InternalKeyComparator ucmp) (dbname : Slice) (addr : Slice -> Z).
Context {W D : Type} `{!Env W, !EnvView W, !DiskView W, !DiskLaws W} `{!EnvDir W} `{!Iterator D} `{!TableCache W D}.
Local Abbreviation table := (TableFileName dbname).
Local Abbreviation building_on := (building_on topts dbname addr).
Local Abbreviation is_table := (is_table topts addr).
#[local] Existing Instance env_writable.

(** The iterator shows these entries and ends with the status [s]. *)
Fixpoint shows_entries (s : Status) (kvs : list (Slice * Slice)) (it : D) : Prop :=
  match kvs with
  | [] => i_Valid it = false ∧ i_status it = s ∧ ∀ w, good w -> undisturbed_by w (tc_delete it w)
  | kv :: kvs => i_Valid it = true ∧ i_key it = kv.1 ∧ i_value it = kv.2 ∧ ∃ it', i_Next it = Some it' ∧ shows_entries s kvs it'
  end.

(** What the table cache reads from the file [number] with the contents [d]:
    its iterator shows [kvs] one after the other and is then invalid, with the
    status [s].  Which entries a damaged table shows is left open. *)
Definition reads_table (number : Z) (d : Slice) (kvs : list (Slice * Slice)) (s : Status) : Prop := ∀ w, good w -> contents w (table number) = Some d ->
  ∃ it w' it', NewTableIterator topts number (LdbSlice.size d) w = Some (it, w') ∧ undisturbed_by w w' ∧ i_SeekToFirst it = Some it' ∧ shows_entries s kvs it'.

(** The keys of internal keys among the entries, and their parts. *)
Definition parsable (kvs : list (Slice * Slice)) : list (Slice * ParsedInternalKey) := omap (fun kv => (fun p => (kv.1, p)) <$> ParseInternalKey kv.1) kvs.

(** What the scan is to find. *)
Definition table_found (number size : Z) (kvs : list (Slice * Slice)) : TableInfo :=
  MkTableInfo (FileMetaData_new number size (default [] (fst <$> head (parsable kvs))) (default [] (fst <$> list.last (parsable kvs)))) (foldr Z.max 0 ((fun x => sequence x.2) <$> parsable kvs)).

Lemma scan_loop_ok s kvs : ∀ n it st, shows_entries s kvs it -> (length kvs <= n)%nat -> ∃ it', scan_loop n it st = Some (it', foldl (fun st kv => scan_key kv.1 st) st kvs) ∧ shows_entries s [] it'.
Proof using Type.
  induction kvs as [|kv kvs IH]; intros n it st Hs Hn.
  - exists it. pose proof Hs as (Hv & _). split; [|done]. destruct n; cbn [scan_loop]; by rewrite Hv.
  - destruct Hs as (Hv & Hk & _ & it' & En & Hs). destruct n as [|n]; cbn [length] in Hn; [lia|]. cbn [scan_loop]. rewrite Hv, En, Hk. cbn [mbind option_bind foldl]. apply IH; [done|lia].
Qed.

Lemma scan_fold kvs : ∀ st, foldl (fun st kv => scan_key kv.1 st) st kvs =
  MkScan (sc_empty st && bool_decide (parsable kvs = [])) (if sc_empty st then default (sc_smallest st) (fst <$> head (parsable kvs)) else sc_smallest st)
    (default (sc_largest st) (fst <$> list.last (parsable kvs))) (foldl (fun m x => if m <? sequence x.2 then sequence x.2 else m) (sc_max st) (parsable kvs)).
Proof.
  induction kvs as [|kv kvs IH]; intros st; [destruct st as [[] ? ? ?]; done|]. cbn [foldl]. rewrite IH. unfold scan_key, parsable. cbn [omap list_omap]. destruct (ParseInternalKey kv.1) as [p|]; [|done].
  cbn [fmap option_fmap option_map]. fold (parsable kvs). cbn [sc_empty sc_smallest sc_largest sc_max head fst snd foldl]. rewrite last_cons. rewrite andb_false_r. cbn [andb fmap option_fmap option_map fst default]. destruct (sc_empty st), (list.last (parsable kvs)); done.
Qed.

Lemma max_fold (l : list (Slice * ParsedInternalKey)) : ∀ m, foldl (fun m x => if m <? sequence x.2 then sequence x.2 else m) m l = Z.max m (foldr Z.max m ((fun x => sequence x.2) <$> l)).
Proof.
  induction l as [|x l IH]; intros m; cbn [foldl fmap list_fmap foldr]; [lia|]. rewrite IH.
  assert (∀ a b (l : list Z), Z.max (Z.max a b) (foldr Z.max (Z.max a b) l) = Z.max a (Z.max b (foldr Z.max a l))) as K by (clear; intros a b l; induction l as [|y l IH]; cbn [foldr]; lia).
  replace (if m <? sequence x.2 then sequence x.2 else m) with (Z.max m (sequence x.2)) by (destruct (Z.ltb_spec m (sequence x.2)); lia). apply K.
Qed.

Lemma scan_found number size kvs : let st := foldl (fun st kv => scan_key kv.1 st) (MkScan true [] [] 0) kvs in
  MkTableInfo (FileMetaData_new number size (sc_smallest st) (sc_largest st)) (sc_max st) = table_found number size kvs.
Proof.
  cbv zeta. rewrite scan_fold. cbn [sc_empty sc_smallest sc_largest sc_max]. unfold table_found. f_equal. rewrite max_fold. set (l := _ <$> _). clearbody l. induction l as [|y l IH]; cbn [foldr]; lia.
Qed.

Lemma copy_entries_ok s number h kvs : ∀ n it c b w cur, shows_entries s kvs it -> (length kvs <= n)%nat -> good w -> (file b).2 = w -> building_on w b number h cur ->
  ∃ it' b', copy_entries addr n it c b = Some (it', c + Z.of_nat (length kvs), b') ∧ shows_entries s [] it' ∧
    let w' := (file b').2 in good w' ∧ same_but (table number) w w' ∧ building_on w' b' number h (cur ++ kvs).
Proof using DiskLaws0.
  induction kvs as [|[k v] kvs IH]; intros n it c b w cur Hs Hn Hg Hw Hb.
  - exists it, b. rewrite app_nil_r, Z.add_0_r. pose proof Hs as (Hv & _). split; [destruct n; cbn [copy_entries]; by rewrite Hv|]. cbv zeta. rewrite Hw. split_and!; [done|done|by intros ? ?|done].
  - destruct Hs as (Hv & Hk & Hval & it' & En & Hs). cbn [fst snd] in Hk, Hval. destruct n as [|n]; cbn [length] in Hn; [lia|]. cbn [copy_entries]. rewrite Hv, Hk, Hval, En. cbn [mbind option_bind].
    pose proof (building_add topts dbname addr w b number h cur k v Hg Hb) as (G1 & S1 & _ & B1). rewrite (in_world_same b w Hw) in G1, S1, B1.
    destruct (IH n it' (c + 1) (TableBuilder_Add addr k v b) (file (TableBuilder_Add addr k v b)).2 (cur ++ [(k, v)]) Hs ltac:(lia) G1 eq_refl B1) as (it2 & b' & E & A1 & G2 & S2 & B2).
    exists it2, b'. rewrite E, <- app_assoc in *. split_and!; [|done|done|by apply (same_but_trans _ _ _ _ S1)|done]. cbn [length]. do 3 f_equal. lia.
Qed.

(** A file that is closed and deleted as an object holds what was written. *)
Lemma close_only (w : W) (h : Z) (f d : Slice) : good w -> pending w h = Some (f, d) ->
  ∃ w1, file_Close h w = (Status_OK, w1) ∧ let w2 := delete_writable h w1 in good w2 ∧ same_but f w w2 ∧ contents w2 f = Some d.
Proof using DiskLaws0.
  intros Hg Hp. destruct (file_Close h w) as [s w1] eqn:E. destruct (disk_close _ _ _ _ _ _ Hg Hp E) as (-> & G1 & _). destruct (close_law _ _ _ _ _ _ Hp E) as (S1 & _ & P1). destruct (P1 eq_refl) as [P2 P3].
  exists w1. cbv zeta. split_and!; [done|by apply disk_delete| |by rewrite delete_closed_law]. intros g Hne. rewrite delete_closed_law by done. by apply S1.
Qed.

End Scan.

Section Salvage.

Context (ucmp : Comparator) (okp : Slice -> Prop) `{!ComparatorLaws ucmp okp} (Hbytes : ∀ k, okp k -> Forall is_u8 k).
Context (topts : Options) (Hcmp : comparator topts = InternalKeyComparator ucmp) (dbname : Slice) (Hname : Forall (fun c => c ≠ 0) dbname) (addr : Slice -> Z).
Context {W D : Type} `{!Env W, !EnvView W, !DiskView W, !DiskLaws W} `{!EnvDir W} `{!Iterator D} `{!TableCache W D}.
Context (Hdirs : directories_apart (W := W)).
Local Abbreviation table := (TableFileName dbname).
Local Abbreviation building_on := (building_on topts dbname addr).
Local Abbreviation is_table := (is_table topts addr).
#[local] Existing Instance env_writable.

(** The world after a damaged table was moved away. *)
Definition moved_away (number copy : Z) (d : Slice) (w w' : W) : Prop :=
  contents w' (lost dbname (table_base number)) = Some d ∧ ∀ g, g ≠ table number -> g ≠ table copy -> g ≠ lost dbname (table_base number) -> contents w' g = contents w g.

Lemma building_on_same w w' b n h cur : same_objects w w' -> building_on w b n h cur -> building_on w' (in_world w' b) n h cur.
Proof using Type. intros Ho (B1 & B2 & B3 & d & B4 & B5). split_and!; [done|done|done|]. exists d. by rewrite Ho. Qed.

(** The end, with something to save and with nothing. *)
Lemma finish_copy_saves copy h b t r d0 w0 number kvs (c : Z) : good (rp_env r) -> rp_env r = (file b).2 -> building_on (rp_env r) b copy h kvs -> fine ucmp okp kvs -> 0 < c -> file_number (ti_meta t) = number ->
  is_u64 number -> is_u64 copy -> number ≠ copy -> moved_away number copy d0 w0 (rp_env r) ->
  ∃ w' size d', finish_copy dbname addr c (table copy) h b t r =
      Some (push_table (MkTableInfo (FileMetaData_new number size (smallest (ti_meta t)) (largest (ti_meta t))) (ti_max_sequence t)) (rp_with_env w' r)) ∧
    good w' ∧ moved_away number copy d0 w0 w' ∧ contents w' (table number) = Some d' ∧ is_table kvs d' size.
Proof using DiskLaws0 ComparatorLaws0 Hbytes Hcmp.
  intros Hg Hw Hb Hf Hc Hnum Hn Hcp Hne [M1 M2]. unfold finish_copy. rewrite (proj2 (Z.eqb_neq c 0)), (proj2 (Z.ltb_lt 0 c)) by lia.
  destruct (building_finish ucmp okp Hbytes topts Hcmp dbname addr _ b copy h kvs Hg Hb Hf) as (h' & w1 & b1 & d' & E & Eb & -> & G1 & S1 & _ & P1 & T1). rewrite (in_world_same b (rp_env r)) in E by done. rewrite E. cbn [mbind option_bind].
  change (ok Status_OK) with true. cbn [andb negb]. rewrite Eb. cbn [snd]. destruct (close_only w1 h _ d' G1 P1) as (w2 & E2 & G3 & S3 & C3). rewrite E2. cbn [andb]. change (ok Status_OK) with true. cbv iota. cbn [andb].
  rewrite Hnum. destruct (RenameFile (table copy) (table number) (delete_writable h w2)) as [s4 w4] eqn:E4. destruct (disk_rename _ _ _ _ _ G3 ltac:(by rewrite C3) E4) as (-> & G4 & _).
  destruct (rename_law _ _ _ _ _ E4) as [R _]. destruct (R eq_refl) as [R1 R2]. change (ok None) with true. cbv iota. cbn [andb]. exists w4, (FileSize b1), d'. split_and!; [done|done| |by rewrite R1|done].
  assert (table copy ≠ lost dbname (table_base number)) as Hl1 by (by apply made_not_lost). assert (table number ≠ lost dbname (table_base number)) as Hl2 by (by apply made_not_lost).
  split; [by rewrite R2, S3, S1 by congruence|]. intros g G5 G6 G7. rewrite R2, S3, S1 by done. by apply M2.
Qed.

Lemma finish_copy_empty copy h b t r : good (rp_env r) -> rp_env r = (file b).2 -> building_on (rp_env r) b copy h [] ->
  ∃ w', finish_copy dbname addr 0 (table copy) h b t r = Some (rp_with_env w' r) ∧ good w' ∧ same_but (table copy) (rp_env r) w' ∧ contents w' (table copy) = Some [].
Proof using DiskLaws0.
  intros Hg Hw (_ & _ & _ & d & Hp & Hb). assert (d = []) as -> by (unfold build_table in Hb; cbn in Hb; by injection Hb).
  unfold finish_copy. cbn [Z.eqb Z.ltb Z.compare mbind option_bind andb]. change (ok Status_OK) with true. cbn [negb andb]. change (file (Abandon b)) with (file b). rewrite <- Hw.
  destruct (close_only _ h _ [] Hg Hp) as (w2 & -> & G3 & S3 & C3). cbn [andb]. change (ok Status_OK) with true. cbv iota. by exists (delete_writable h w2).
Qed.

Lemma RepairTable_ok rounds number d kvs s t r : let copy := rp_next_file_number r in good (rp_env r) -> is_u64 number -> number < copy -> is_u64 copy ->
  contents (rp_env r) (table number) = Some d -> reads_table topts dbname number d kvs s -> file_number (ti_meta t) = number -> file_size (ti_meta t) = LdbSlice.size d -> fine ucmp okp kvs -> (length kvs <= rounds)%nat ->
  ∃ r' w', RepairTable topts dbname addr rounds (table number) t r = Some r' ∧ good w' ∧ moved_away number copy d (rp_env r) w' ∧
    if bool_decide (kvs = []) then r' = rp_with_env w' (take_number r).2 ∧ contents w' (table copy) = Some []
    else ∃ size d', r' = push_table (MkTableInfo (FileMetaData_new number size (smallest (ti_meta t)) (largest (ti_meta t))) (ti_max_sequence t)) (rp_with_env w' (take_number r).2) ∧
      contents w' (table number) = Some d' ∧ is_table kvs d' size.
Proof using DiskLaws0 ComparatorLaws0 Hbytes Hcmp Hname Hdirs.
  intros copy Hg Hn Hlt Hcp Hd Hread Hnum Hsize Hf Hr. unfold RepairTable. unfold take_number at 1. fold copy. set (r1 := (take_number r).2).
  assert (table number ≠ table copy) as Hne by (intros E; apply TableFileName_inj in E; [lia|done|done]).
  change (MkRepairer (rp_env r) _ _ _ _ _ _) with r1. change (rp_env r1) with (rp_env r). destruct (NewWritableFile (table copy) (rp_env r)) as [[s1 h] w1] eqn:E1.
  destruct (disk_new _ _ _ _ _ Hg E1) as (-> & G1 & _ & _). destruct (new_law _ _ _ _ _ E1) as [S1 P1]. specialize (P1 eq_refl). change (negb (ok None)) with false. cbv iota. rewrite Hnum, Hsize.
  destruct (Hread w1 G1 ltac:(by rewrite S1)) as (it & w2 & it1 & -> & (G2 & F2 & O2) & E2 & Hs). cbn [mbind option_bind]. rewrite E2. cbn [mbind option_bind].
  assert (building_on w2 (TableBuilder_new topts (h, w2)) copy h []) as Hb by (split_and!; [done|done|done|exists []; by rewrite O2]).
  destruct (copy_entries_ok topts dbname addr s copy h kvs rounds it1 0 (TableBuilder_new topts (h, w2)) w2 [] Hs Hr G2 eq_refl Hb) as (it3 & b3 & -> & (_ & _ & Hdel) & G3 & S3 & B3). cbn [mbind option_bind app Z.add] in *.
  set (w3 := (file b3).2) in *. destruct (Hdel w3 G3) as (G4 & F4 & O4). set (w4 := tc_delete it3 w3) in *.
  assert (contents w4 (dbname ++ str "/" ++ table_base number) = Some d) as C4 by (change (contents w4 (table number) = Some d); rewrite F4, S3, F2, S1 by done; done).
  pose proof (archive_ok dbname Hname Hdirs (table_base number) d w4 (table_base_plain number Hn) G4 C4) as (G5 & O5 & C5 & R5). change (dbname ++ str "/" ++ table_base number) with (table number) in *. set (w5 := ArchiveFile (table number) w4) in *.
  assert (building_on w5 (in_world w5 b3) copy h kvs) as B5 by (apply (building_on_same w3); [intros x; by rewrite O5, O4|done]).
  assert (moved_away number copy d (rp_env r) w5) as M5 by (split; [done|]; intros g H1 H2 H3; rewrite R5, F4, S3, F2, S1 by done; done).
  destruct (bool_decide_reflect (kvs = [])) as [->|Hkvs].
  - destruct (finish_copy_empty copy h (in_world w5 b3) t (rp_with_env w5 r1) G5 eq_refl B5) as (w6 & E6 & G6 & S6 & C6). change (0 + Z.of_nat (length [])) with 0. rewrite E6. eexists _, w6. split_and!; [done|done| |done|done].
    destruct M5 as [M5 M6]. split; [rewrite S6; [done|]; intros Heq; symmetry in Heq; revert Heq; by apply made_not_lost|]. intros g H1 H2 H3. rewrite S6 by done. by apply M6.
  - destruct (finish_copy_saves copy h (in_world w5 b3) t (rp_with_env w5 r1) d (rp_env r) number kvs (Z.of_nat (length kvs)) G5 eq_refl B5 Hf) as (w6 & size & d' & E6 & G6 & M6 & C6 & T6);
      [destruct kvs; [done|cbn; lia]|done|done|done|lia|done|]. change (0 + Z.of_nat (length kvs)) with (Z.of_nat (length kvs)). rewrite E6. eexists _, w6. split_and!; [done|done|done|]. by exists size, d'.
Qed.

Lemma ScanTable_ok rounds number d kvs s r : let copy := rp_next_file_number r in good (rp_env r) -> is_u64 number -> number < copy -> is_u64 copy ->
  contents (rp_env r) (table number) = Some d -> reads_table topts dbname number d kvs s -> (ok s = false -> fine ucmp okp kvs) -> (length kvs <= rounds)%nat ->
  if ok s then ∃ w', ScanTable topts dbname addr rounds number r = Some (push_table (table_found number (LdbSlice.size d) kvs) (rp_with_env w' r)) ∧ undisturbed_by (rp_env r) w'
  else ∃ r' w', ScanTable topts dbname addr rounds number r = Some r' ∧ good w' ∧ moved_away number copy d (rp_env r) w' ∧
    if bool_decide (kvs = []) then r' = rp_with_env w' (take_number r).2 ∧ contents w' (table copy) = Some []
    else ∃ size d', r' = push_table (table_found number size kvs) (rp_with_env w' (take_number r).2) ∧
      contents w' (table number) = Some d' ∧ is_table kvs d' size.
Proof using DiskLaws0 ComparatorLaws0 Hbytes Hcmp Hname Hdirs.
  intros copy Hg Hn Hlt Hcp Hd Hread Hf Hr. unfold ScanTable. destruct (disk_size _ _ _ Hg Hd) as (w1 & -> & G1 & F1 & O1). change (ok None) with true. cbv iota. change (negb (ok None)) with false. cbv iota.
  destruct (Hread w1 G1 ltac:(by rewrite F1)) as (it & w2 & it1 & -> & (G2 & F2 & O2) & E2 & Hs). cbn [mbind option_bind]. rewrite E2. cbn [mbind option_bind].
  destruct (scan_loop_ok s kvs rounds it1 (MkScan true [] [] 0) Hs Hr) as (it3 & -> & (_ & Es & Hdel)). cbn [mbind option_bind]. rewrite scan_found, Es. destruct (Hdel w2 G2) as (G3 & F3 & O3). set (w3 := tc_delete it3 w2) in *.
  assert (undisturbed_by (rp_env r) w3) as (_ & F & O) by (split_and!; [done|intros f; by rewrite F3, F2, F1|intros h; by rewrite O3, O2, O1]).
  destruct (ok s) eqn:Eok; cbv iota; [change (ok None) with true; cbv iota; exists w3; by split_and!|]. rewrite Eok. cbv iota.
  destruct (RepairTable_ok rounds number d kvs s (table_found number (LdbSlice.size d) kvs) (rp_with_env w3 r) G3 Hn Hlt Hcp ltac:(cbn; by rewrite F) Hread eq_refl eq_refl (Hf eq_refl) Hr) as (r' & w' & E & G' & [M1 M2] & R).
  exists r', w'. split_and!; [exact E|done| |exact R]. split; [done|]. intros g H1 H2 H3. rewrite M2 by done. apply F.
Qed.

End Salvage.

(** C10. [ScanTable] reads a table of a disk without failures to its end. [kvs]
    are the entries that the table's iterator shows from its first position
    until it is invalid, and [s] the status it then has ([reads_table]). With
    OK the table is listed with its size, the first and the last key that can
    be parsed and the largest sequence number, and the files stay as they are.
    With an error, and when the entries are in order ([fine]), the damaged file
    is moved to the archive as it is, a new table with exactly the entries
    [kvs] takes its name, and that is listed with its own size; when [kvs] is
    empty, nothing is listed and an empty file stays behind. What a damaged
    table shows is up to its iterator: the one of the code passes over a block
    that it cannot read and goes on with the next, so that [kvs] may have
    entries from behind the damage too. No other file changes. *)
Theorem repair_scans_table {W D : Type} `{!Env W, !EnvView W, !DiskView W, !DiskLaws W} `{!EnvDir W} `{!Iterator D} `{!TableCache W D}
    (ucmp : Comparator) (okp : Slice -> Prop) `{!ComparatorLaws ucmp okp} (topts : Options) (dbname : Slice) (addr : Slice -> Z) (rounds : nat) (number : Z) (d : Slice) (kvs : list (Slice * Slice)) (s : Status) (r : Repairer W) :
  let copy := rp_next_file_number r in let scanned := ScanTable topts dbname addr (D := D) rounds number r in
  (∀ k, okp k -> Forall is_u8 k) -> comparator topts = InternalKeyComparator ucmp -> Forall (fun c => c ≠ 0) dbname -> directories_apart (W := W) ->
  good (rp_env r) -> is_u64 number -> number < copy -> is_u64 copy -> contents (rp_env r) (TableFileName dbname number) = Some d ->
  reads_table (W := W) (D := D) topts dbname number d kvs s -> (ok s = false -> fine ucmp okp kvs) -> (length kvs <= rounds)%nat ->
  if ok s then ∃ w', scanned = Some (push_table (table_found number (LdbSlice.size d) kvs) (rp_with_env w' r)) ∧ undisturbed_by (rp_env r) w'
  else ∃ r' w', scanned = Some r' ∧ good w' ∧ moved_away dbname number copy d (rp_env r) w' ∧
    if bool_decide (kvs = []) then r' = rp_with_env w' (take_number r).2 ∧ contents w' (TableFileName dbname copy) = Some []
    else ∃ size d', r' = push_table (table_found number size kvs) (rp_with_env w' (take_number r).2) ∧
      contents w' (TableFileName dbname number) = Some d' ∧ is_table topts addr kvs d' size.
Proof. intros copy scanned Hb Hc Hn Hdirs. by apply (ScanTable_ok ucmp okp Hb topts Hc dbname Hn addr Hdirs). Qed.

(** ** The new manifest *)

Lemma memcmp_prefix x : ∀ s, (length x <= length s)%nat -> memcmp s x (length x) = 0 -> ∃ r, s = x ++ r.
Proof.
  induction x as [|c x IH]; intros [|d s] Hl Hm; cbn [length memcmp] in *; [by eexists|by eexists|lia|].
  destruct (Z.eqb_spec d c) as [->|]; [|lia]. destruct (IH s ltac:(lia) Hm) as [r ->]. by exists r.
Qed.

Lemma consume_loop_all ds : ∀ v n, consume_loop ds v = Some (n, []) -> Forall is_digit ds.
Proof.
  induction ds as [|c ds IH]; intros v n; cbn [consume_loop]; [by constructor|]. destruct (Z.ltb_spec c 48); [done|]. destruct (Z.ltb_spec 57 c); [done|]. cbn [orb].
  destruct (_ || _); [done|]. intros E. constructor; [unfold is_digit; lia|]. by eapply IH.
Qed.

(** The name of a manifest. *)
Lemma manifest_name m n : ParseFileName m = Some (n, kDescriptorFile) -> ∃ ds, m = str "MANIFEST-" ++ ds ∧ Forall is_digit ds.
Proof.
  unfold ParseFileName. repeat (destruct (slice_eqb m _); [done|]). cbn [orb]. destruct (starts_with m (str "MANIFEST-")) eqn:E.
  - apply andb_prop in E as [E1%Z.leb_le E2%Z.eqb_eq]. destruct (memcmp_prefix (str "MANIFEST-") m) as [ds ->]; [unfold size in E1; lia|done|]. unfold remove_prefix, size. rewrite Nat2Z.id, drop_app_length.
    unfold ConsumeDecimalNumber. destruct (consume_loop ds 0) as [[v rest]|] eqn:Ec; [|done]. destruct (negb _); [|done]. destruct rest; [|done]. intros _. exists ds. split; [done|]. by eapply consume_loop_all.
  - destruct (ConsumeDecimalNumber m) as [[[] suffix] [num|]]; try done. repeat (destruct (slice_eqb suffix _); [done|]). done.
Qed.

Lemma manifest_plain m n : ParseFileName m = Some (n, kDescriptorFile) -> plain m.
Proof. intros (ds & -> & Hd)%manifest_name. apply Forall_app. split; [apply (bool_decide_unpack _); by vm_compute|by apply digits_plain]. Qed.

Lemma manifest_not_digit dir m n c rest : ParseFileName m = Some (n, kDescriptorFile) -> is_digit c -> dir ++ str "/" ++ c :: rest ≠ dir ++ str "/" ++ m.
Proof. intros (ds & -> & _)%manifest_name Hc E. apply app_inv_head in E. unfold is_digit in Hc. vm_compute in E. injection E as E _. lia. Qed.

Lemma manifest_not_made dir m n k suffix : ParseFileName m = Some (n, kDescriptorFile) -> is_u64 k -> MakeFileName dir k suffix ≠ dir ++ str "/" ++ m.
Proof. intros Hm Hk. unfold MakeFileName. destruct (padded_spec k Hk) as (Hd & _ & Hne). destruct (padded k) as [|c ds]; [done|]. apply Forall_cons_1 in Hd as [Hd _]. by apply (manifest_not_digit _ _ n). Qed.

Lemma manifest_not_lost dir m n base : ParseFileName m = Some (n, kDescriptorFile) -> lost dir base ≠ dir ++ str "/" ++ m.
Proof. intros (ds & -> & _)%manifest_name E. unfold lost in E. apply app_inv_head in E. by vm_compute in E. Qed.

(** The edit of the tables. *)
Definition table_file (t : TableInfo) : Z * FileMetaData := (0, FileMetaData_new (file_number (ti_meta t)) (file_size (ti_meta t)) (smallest (ti_meta t)) (largest (ti_meta t))).

Lemma add_tables ts : ∀ e, foldl add_table e ts = MkVersionEdit (comparator_ e) (log_number_ e) (prev_log_number_ e) (next_file_number_ e) (last_sequence_ e)
  (has_comparator_ e) (has_log_number_ e) (has_prev_log_number_ e) (has_next_file_number_ e) (has_last_sequence_ e) (compact_pointers_ e) (deleted_files_ e) (new_files_ e ++ (table_file <$> ts)).
Proof. induction ts as [|t ts IH]; intros e; cbn [foldl fmap list_fmap]; [destruct e; cbn; by rewrite app_nil_r|]. rewrite IH. cbn. by rewrite <- app_assoc. Qed.

(** The tables, all at level 0. *)
Definition tables_catalog (ts : list TableInfo) : Catalog := list_to_set ((fun t => finfo (ti_meta t)) <$> ts) :: replicate (Z.to_nat kNumLevels - 1) ∅.

Lemma tables_added ts : ∀ (A : gset Info) (c : Catalog), foldl (fun c p => cat_add p c) (A :: c) (table_file <$> ts) = (list_to_set ((fun t => finfo (ti_meta t)) <$> ts) ∪ A) :: c.
Proof.
  induction ts as [|t ts IH]; intros A c; cbn [foldl fmap list_fmap list_to_set]; [f_equal; set_solver|].
  change (cat_add (table_file t) (A :: c)) with (({[finfo (ti_meta t)]} ∪ A) :: c). rewrite IH. f_equal. set_solver.
Qed.

(** What is known of a table that was scanned. *)
Record table_fit (ucmp : Comparator) (okp : Slice -> Prop) (t : TableInfo) : Prop := {
  tf_writable : info_wf (finfo (ti_meta t));
  tf_info : info_ok ucmp okp (finfo (ti_meta t));
  tf_sequence : is_u64 (ti_max_sequence t);
}.

Section Descriptor.

Context (ucmp : Comparator) (okp : Slice -> Prop) `{!ComparatorLaws ucmp okp} (Hbytes : ∀ k, okp k -> Forall is_u8 k) (Hcname : str_ok (ComparatorName ucmp)).
Context (dbname : Slice) (Hname : Forall (fun c => c ≠ 0) dbname) (addr : Slice -> Z).
Context {W : Type} `{!Env W, !EnvView W, !DiskView W, !DiskLaws W} `{!EnvDir W} (Hdirs : directories_apart (W := W)).
#[local] Existing Instance env_writable.
#[local] Existing Instance manifest_open.
Implicit Types (w : W) (r : Repairer W).

Lemma max_sequence_u64 ts : Forall (table_fit ucmp okp) ts -> is_u64 (max_sequence_of ts).
Proof using Type.
  intros Hf. unfold max_sequence_of. assert (is_u64 0) as H0 by done. revert H0. generalize 0. induction Hf as [|t ts [_ _ Ht] _ IH]; intros m Hm; cbn [foldl]; [done|]. apply IH. by destruct (_ <? _).
Qed.

Lemma descriptor_edit_ok r : rp_edit r = VersionEdit_new -> is_u64 (rp_next_file_number r) -> Forall (table_fit ucmp okp) (tables_ r) -> NoDup ((fun t => file_number (ti_meta t)) <$> tables_ r) ->
  let e := descriptor_edit ucmp r in replayable ucmp okp no_files ∅ [e] ∧ cat_all [e] no_files = tables_catalog (tables_ r) ∧
  kept_numbers [e] = MkKept (Some 0) None (Some (rp_next_file_number r)) (Some (max_sequence_of (tables_ r))).
Proof using Hcname.
  clear -Hcname. intros He Hn Hf Hd e. assert (e = foldl apply_field VersionEdit_new ([FComparator (ComparatorName ucmp); FLogNumber 0; FNextFile (rp_next_file_number r); FLastSequence (max_sequence_of (tables_ r))] ++
    ((fun t => FNewFile 0 (file_number (ti_meta t)) (file_size (ti_meta t)) (smallest (ti_meta t)) (largest (ti_meta t))) <$> tables_ r))) as Efields.
  { unfold e, descriptor_edit. rewrite He, foldl_app, foldl_fmap. done. }
  assert (e = MkVersionEdit (ComparatorName ucmp) 0 0 (rp_next_file_number r) (max_sequence_of (tables_ r)) true true false true true [] [] (table_file <$> tables_ r)) as Ee by (unfold e, descriptor_edit; by rewrite add_tables, He).
  assert (cat_all [e] no_files = tables_catalog (tables_ r)) as Ecat.
  { rewrite Ee. cbn [cat_all foldl]. unfold cat_apply. cbn [deleted_files_ new_files_ foldl]. change no_files with ((∅ : gset Info) :: replicate (Z.to_nat kNumLevels - 1) ∅). rewrite tables_added. unfold tables_catalog. f_equal. set_solver. }
  split_and!; [|done|by rewrite Ee]. assert (cat_apply e no_files = tables_catalog (tables_ r)) as Ecat' by exact Ecat. cbn [replayable]. rewrite Ecat'. split_and!; [| |split|..]; try done; try (rewrite Ee; done).
  - rewrite Efields. apply apply_fields_wf; [apply VersionEdit_new_wf|]. apply Forall_app. split.
    + apply Forall_cons_2; [exact Hcname|]. apply Forall_cons_2; [done|]. apply Forall_cons_2; [exact Hn|]. apply Forall_cons_2; [by apply max_sequence_u64|constructor].
    + apply Forall_fmap. eapply list.Forall_impl; [exact Hf|]. intros t [(T1 & T2 & T3 & T4) _ _]. by split_and!.
  - rewrite Ee. cbn [new_files_]. apply Forall_fmap. eapply list.Forall_impl; [exact Hf|]. intros t [_ T _]. split_and!; [done|apply T|set_solver].
  - rewrite Ee. cbn [new_files_]. rewrite <- list_fmap_compose. apply (NoDup_fmap_1 snd). rewrite <- list_fmap_compose. exact Hd.
  - intros l A Hl. destruct l as [|l]; cbn in Hl.
    + injection Hl as <-. split; [|lia]. intros i Hi. rewrite elem_of_list_to_set, list_elem_of_fmap in Hi. destruct Hi as (t & -> & Ht). rewrite list.Forall_forall in Hf. by apply Hf.
    + apply lookup_replicate in Hl as [-> _]. split; [set_solver|intros _ i j Hi; set_solver].
Qed.

Lemma keys_set_ok ts : Forall (table_fit ucmp okp) ts -> forallb keys_set ts = true.
Proof using Type.
  intros Hf. apply forallb_forall. intros t Ht%list_elem_of_In. rewrite list.Forall_forall in Hf. destruct (Hf t Ht) as [_ [(_ & L1 & _) (_ & L2 & _) _ _] _]. unfold keys_set. cbn in L1, L2.
  rewrite !bool_decide_eq_false_2; [done|intros E; rewrite E in L2; cbn in L2; lia|intros E; rewrite E in L1; cbn in L1; lia].
Qed.

(** The older manifests are moved away. *)
Lemma archive_manifests ms : ∀ w, good w -> NoDup ms -> (∀ m, m ∈ ms -> (∃ n, ParseFileName m = Some (n, kDescriptorFile)) ∧ is_Some (contents w (dbname ++ str "/" ++ m))) ->
  let w' := foldl (fun w m => ArchiveFile (dbname ++ str "/" ++ m) w) w ms in
  good w' ∧ same_objects w w' ∧ (∀ m, m ∈ ms -> contents w' (lost dbname m) = contents w (dbname ++ str "/" ++ m)) ∧
  ∀ g, (∀ m, m ∈ ms -> g ≠ dbname ++ str "/" ++ m ∧ g ≠ lost dbname m) -> contents w' g = contents w g.
Proof using DiskLaws0 Hname Hdirs.
  induction ms as [|m ms IH]; intros w Hg Hnd Hm; cbn [foldl]; [split_and!; [done|done|by intros ? ?%elem_of_nil|done]|].
  apply list.NoDup_cons in Hnd as [Hnot Hnd]. destruct (Hm m) as [[n Hn] [d Hd]]; [by left|].
  pose proof (archive_ok dbname Hname Hdirs m d w (manifest_plain m n Hn) Hg Hd) as (G1 & O1 & C1 & R1). set (w1 := ArchiveFile _ w) in *.
  assert (∀ m', m' ∈ ms -> contents w1 (dbname ++ str "/" ++ m') = contents w (dbname ++ str "/" ++ m')) as K.
  { intros m' Hin. destruct (Hm m') as [[n' Hn'] _]; [by right|]. apply R1; [|intros E; symmetry in E; revert E; by apply (manifest_not_lost _ _ n')]. intros E. apply app_inv_head, app_inv_head in E. by subst. }
  destruct (IH w1 G1 Hnd) as (G2 & O2 & C2 & R2); [intros m' Hin; rewrite K by done; apply Hm; by right|].
  split_and!; [done|intros h; by rewrite O2, O1| |].
  - intros m' [->|Hin]%elem_of_cons; [|by rewrite C2, K]. rewrite R2, C1, Hd; [done|]. intros m' Hin. destruct (Hm m') as [[n' Hn'] _]; [by right|]. split; [by apply (manifest_not_lost _ _ n')|].
    intros E. unfold lost in E. apply app_inv_head, app_inv_head in E. by subst.
  - intros g Hgm. rewrite R2 by (intros m' Hin; apply Hgm; by right). destruct (Hgm m) as [E1 E2]; [by left|]. by apply R1.
Qed.

Lemma set_current_ok n w s w' : good w -> is_u64 n -> SetCurrentFile dbname n w = (s, w') -> s = None ∧ good w' ∧ contents w' (CurrentFileName dbname) = Some (current_name n) ∧
  ∀ g, g ≠ CurrentFileName dbname -> g ≠ TempFileName dbname n -> contents w' g = contents w g.
Proof using DiskLaws0.
  intros Hg Hn Hset. pose proof (SetCurrentFile_law dbname n w s w' Hn Hset) as [Hc Hrest]. assert (s = None ∧ good w') as [-> G]; [|by split_and!].
  unfold SetCurrentFile in Hset. set (dat := remove_prefix _ _ ++ [10]) in *. unfold WriteStringToFileSync, DoWriteStringToFile in Hset. destruct (NewWritableFile _ w) as [[s0 h] w0] eqn:E0.
  destruct (disk_new _ _ _ _ _ Hg E0) as (-> & G0 & _ & _). destruct (new_law _ _ _ _ _ E0) as [_ P0]. specialize (P0 eq_refl). cbn [ok negb] in Hset.
  destruct (file_Append h dat w0) as [s1 w1] eqn:E1. destruct (disk_append _ _ _ _ _ _ _ G0 P0 E1) as (-> & G1 & _). destruct (append_law _ _ _ _ _ _ _ P0 E1) as (_ & _ & P1). specialize (P1 eq_refl). cbn [ok andb] in Hset.
  destruct (close_file w1 h _ _ G1 P1) as (w2 & w3 & E2 & E3 & G3 & _ & C3). rewrite E2 in Hset. cbn [ok] in Hset. change (ok Status_OK) with true in Hset. cbv iota in Hset. rewrite E3 in Hset. change (ok Status_OK) with true in Hset. cbn [negb] in Hset.
  destruct (RenameFile _ _ _) as [s4 w4] eqn:E4. destruct (disk_rename _ _ _ _ _ G3 ltac:(by rewrite C3) E4) as (-> & G4 & _). cbn [ok negb] in Hset. by injection Hset as <- <-.
Qed.

Lemma WriteDescriptor_ok r : good (rp_env r) -> rp_edit r = VersionEdit_new -> is_u64 (rp_next_file_number r) -> Forall (table_fit ucmp okp) (tables_ r) -> NoDup ((fun t => file_number (ti_meta t)) <$> tables_ r) ->
  NoDup (manifests_ r) -> (∀ m, m ∈ manifests_ r -> (∃ n, ParseFileName m = Some (n, kDescriptorFile)) ∧ is_Some (contents (rp_env r) (dbname ++ str "/" ++ m))) ->
  ∃ w' prss, WriteDescriptor ucmp dbname addr r = Some (Status_OK, MkRepairer w' (descriptor_edit ucmp r) (manifests_ r) (table_numbers_ r) (logs_ r) (tables_ r) (rp_next_file_number r)) ∧
    good w' ∧ on_disk dbname 1 [descriptor_edit ucmp r] prss w' ∧ (∀ m, m ∈ manifests_ r -> contents w' (lost dbname m) = contents (rp_env r) (dbname ++ str "/" ++ m)) ∧
    ∀ n, is_u64 n -> contents w' (TableFileName dbname n) = contents (rp_env r) (TableFileName dbname n).
Proof using DiskLaws0 Hname Hdirs Hcname.
  intros Hg He Hn Hf Hnum Hnd Hm. set (w := rp_env r) in *. unfold WriteDescriptor. fold w. set (tmp := TempFileName dbname 1). set (e := descriptor_edit ucmp r).
  destruct (NewWritableFile tmp w) as [[s h] w1] eqn:E1. destruct (disk_new _ _ _ _ _ Hg E1) as (-> & G1 & _ & _). destruct (new_law _ _ _ _ _ E1) as [S1 P1]. specialize (P1 eq_refl). change (negb (ok None)) with false. cbv iota.
  rewrite keys_set_ok by done. cbn [negb]. destruct (descriptor_edit_ok r He Hn Hf Hnum) as ((Hwf & _) & _). fold e in Hwf.
  destruct (log_append addr tmp [] h 0 w1 (EncodeTo e [])) as (l & El & [G2 (prss & P2 & F2 & B2 & _)] & S2 & _); [|by apply encoded_u8|].
  { split; [done|]. exists []. split; [exact P1|]. split; [constructor|]. split; [done|]. split; [done|by left]. }
  unfold Writer_new. rewrite El. cbn [mbind option_bind app] in *. change (ok Status_OK) with true. cbv iota. destruct (close_only (dest_ l).2 h tmp _ G2 P2) as (w3 & -> & G3 & S3 & C3).
  change (ok Status_OK) with true. cbn [negb]. set (w4 := delete_writable h w3) in *. assert (is_u64 1) as H1 by done.
  assert (∀ m, m ∈ manifests_ r -> contents w4 (dbname ++ str "/" ++ m) = contents w (dbname ++ str "/" ++ m)) as K.
  { intros m Hin. destruct (Hm m Hin) as [[n Hp] _]. assert (dbname ++ str "/" ++ m ≠ tmp) by (intros E; symmetry in E; revert E; by apply (manifest_not_made _ _ n)). by rewrite S3, S2, S1. }
  destruct (archive_manifests (manifests_ r) w4 G3 Hnd) as (G5 & _ & C5 & R5); [intros m Hin; rewrite K by done; by apply Hm|]. set (w5 := foldl _ w4 _) in *.
  assert (∀ n suffix, is_u64 n -> contents w5 (MakeFileName dbname n suffix) = contents w4 (MakeFileName dbname n suffix)) as K5.
  { intros n suffix Hu. apply R5. intros m Hin. destruct (Hm m Hin) as [[n' Hp] _]. split; [by apply (manifest_not_made _ _ n')|by apply made_not_lost]. }
  assert (contents w5 tmp = Some (layout 0 (concat prss))) as C5t by (transitivity (contents w4 tmp); [by apply (K5 1 "dbtmp")|done]).
  destruct (RenameFile tmp (DescriptorFileName dbname 1) w5) as [s6 w6] eqn:E6. destruct (disk_rename _ _ _ _ _ G5 ltac:(by rewrite C5t) E6) as (-> & G6 & _). destruct (rename_law _ _ _ _ _ E6) as [R6 _]. destruct (R6 eq_refl) as [R7 R8].
  change (ok None) with true. cbv iota. destruct (SetCurrentFile dbname 1 w6) as [s7 w7] eqn:E7. destruct (set_current_ok 1 w6 s7 w7 G6 H1 E7) as (-> & G7 & C7 & R9).
  assert (∀ k suffix, is_u64 k -> MakeFileName dbname k suffix ≠ DescriptorFileName dbname 1 ∧ MakeFileName dbname k suffix ≠ CurrentFileName dbname) as Kn.
  { intros k suffix Hk. unfold MakeFileName. destruct (padded_spec k Hk) as (Hd & _ & Hne). destruct (padded k) as [|c ds]; [done|]. apply Forall_cons_1 in Hd as [Hd _]. unfold is_digit in Hd.
    split; intros E; unfold DescriptorFileName, CurrentFileName in E; apply app_inv_head in E; vm_compute in E; injection E as E _; lia. }
  exists w7, prss. split_and!; [done|done| | |].
  - split; [|done|by split]. rewrite R9, R7, C5t; [done|apply descriptor_not_current|by apply descriptor_not_tmp].
  - intros m Hin. rewrite R9, R8, C5, K; [done|done|done| | | |].
    + intros E. symmetry in E. revert E. by apply made_not_lost.
    + intros E. unfold lost, DescriptorFileName in E. apply app_inv_head in E. by vm_compute in E.
    + intros E. unfold lost, CurrentFileName in E. apply app_inv_head in E. by vm_compute in E.
    + intros E. symmetry in E. revert E. by apply made_not_lost.
  - intros n Hu. assert (TableFileName dbname n ≠ tmp) as Ht by (unfold TableFileName, tmp, TempFileName, MakeFileName; intros E%app_inv_head%app_inv_head; assert (list.last (padded n ++ str "." ++ str "ldb") = list.last (padded 1 ++ str "." ++ str "dbtmp")) as L by (by rewrite E); rewrite !last_app in L; by cbn in L).
    destruct (Kn n "ldb" Hu) as [N1 N2]. rewrite R9, R8 by done. transitivity (contents w4 (TableFileName dbname n)); [by apply (K5 n "ldb")|]. by rewrite S3, S2, S1.
Qed.

End Descriptor.

(** C11. [WriteDescriptor] leaves a database that opens.  On a disk without
    failures, with the tables that were scanned (different numbers, keys in
    order), it ends with OK: the older manifests are in the archive, no table
    changes, CURRENT names the manifest 1, and [VersionSet::Recover] on that
    disk returns OK and lists exactly the tables, all at level 0, with exact
    reference counts, log number 0, the largest sequence number of the tables
    as the last one and the repairer's next file number for the new manifest
    it is going to write. *)
Theorem repaired_manifest_recovers {W : Type} `{!Env W, !EnvView W, !DiskView W, !DiskLaws W} `{!EnvDir W} (ucmp : Comparator) (okp : Slice -> Prop) `{!ComparatorLaws ucmp okp}
    (max_file_size : Z) (dbname : Slice) (addr : Slice -> Z) (r : Repairer W) :
  (∀ k, okp k -> Forall is_u8 k) -> str_ok (ComparatorName ucmp) -> Forall (fun c => c ≠ 0) dbname -> directories_apart (W := W) ->
  good (rp_env r) -> rp_edit r = VersionEdit_new -> is_u64 (rp_next_file_number r) -> Forall (table_fit ucmp okp) (tables_ r) -> NoDup ((fun t => file_number (ti_meta t)) <$> tables_ r) ->
  NoDup (manifests_ r) -> (∀ m, m ∈ manifests_ r -> (∃ n, ParseFileName m = Some (n, kDescriptorFile)) ∧ is_Some (contents (rp_env r) (dbname ++ str "/" ++ m))) ->
  ∃ r' d, WriteDescriptor ucmp dbname addr r = Some (Status_OK, r') ∧ good (rp_env r') ∧
    (∀ m, m ∈ manifests_ r -> contents (rp_env r') (lost dbname m) = contents (rp_env r) (dbname ++ str "/" ++ m)) ∧
    (∀ n, is_u64 n -> contents (rp_env r') (TableFileName dbname n) = contents (rp_env r) (TableFileName dbname n)) ∧
    contents (rp_env r') (CurrentFileName dbname) = Some (current_name 1) ∧ contents (rp_env r') (DescriptorFileName dbname 1) = Some d ∧
    ∀ rounds save, (S (length d) + length (current_name 1) < rounds)%nat ->
      ∃ vs0 save' vs', VersionSet_new (rp_env r') = Some vs0 ∧ Recover ucmp max_file_size false dbname addr rounds save vs0 = Some (Status_OK, save', vs') ∧
        set_ok ucmp okp [] (tables_catalog (tables_ r)) (seen_all [descriptor_edit ucmp r] ∅) vs' ∧
        vs_numbers vs' = MkNumbers (u64 (rp_next_file_number r + 1)) (rp_next_file_number r) (max_sequence_of (tables_ r)) 0 0.
Proof.
  intros Hb Hc Hname Hdirs Hg He Hn Hf Hnum Hnd Hm. destruct (WriteDescriptor_ok ucmp okp Hc dbname Hname addr Hdirs r Hg He Hn Hf Hnum Hnd Hm) as (w' & prss & E & G & [D1 D2 D3] & Hl & Ht).
  destruct (descriptor_edit_ok ucmp okp Hc r He Hn Hf Hnum) as (Hrep & Hcat & Hkept). eexists _, (data prss). split; [exact E|]. cbn [rp_env]. split_and!; [done|done|done|done|done|]. intros rounds save Hr.
  destruct (VersionSet_new_ok ucmp okp w') as (vs0 & E0 & Hset & _ & W0 & _ & _ & C1 & C2).
  destruct (Recover_ok ucmp okp Hb max_file_size false dbname addr rounds save vs0 1 [descriptor_edit ucmp r] prss (length (data prss))) as (j & s & save' & vs' & Er & Hrec & Hj & _ & Hgt);
    [by rewrite W0|done|by split|by rewrite W0|by rewrite W0, firstn_all|done|done|done|].
  assert (j = 1%nat) as ->.
  { destruct j as [|[|j]]; [|done|cbn in Hj; lia]. specialize (Hgt ltac:(cbn; lia)). pose proof (data_prefix prss 1). lia. }
  change (take 1 [descriptor_edit ucmp r]) with [descriptor_edit ucmp r] in Hrec. destruct Hrec as [_ Hrec]. rewrite Hkept, Hcat in Hrec. destruct Hrec as (-> & H1 & (manifest & H2 & H3) & _). rewrite H3 in H2 by done.
  by exists vs0, save', vs'.
Qed.

(** ** Witnesses *)

Lemma w_directories : directories_apart (W := MemEnv).
Proof. intros d w Hg. by split_and!. Qed.

Lemma w_plain_name : Forall (fun c => c ≠ 0) (str "db").
Proof. apply (bool_decide_unpack _). by vm_compute. Qed.

(** A log with a put and a delete that was cut off in the second record. *)
Section ConvertWitness.

#[local] Existing Instance w_mem_tables.
#[local] Existing Instance bump_new.

Definition w_repairer (w : MemEnv) (next : Z) (ts : list TableInfo) (ms : list Slice) : Repairer MemEnv := MkRepairer w VersionEdit_new ms [] [] ts next.

Lemma repair_converts_log_witness : ∃ w' d, ConvertLogToTable [] BytewiseComparator w_internal (str "db") (fun _ => 0) (D := EmptyIterator) 100 3 (w_repairer (w_crashed 30) 4 [] []) =
    Some (Status_OK, MkRepairer w' VersionEdit_new [] [4] [] [] 5) ∧ contents w' (TableFileName (str "db") 4) = Some d ∧
    ∃ size, is_table w_internal (fun _ => 0) (shown_entries [Entry 1 kTypeValue [97] [1]]) d size.
Proof.
  destruct (repair_converts_log [] BytewiseComparator (Forall is_u8) w_internal (str "db") (fun _ => 0) (D := EmptyIterator) [w_rec1; w_rec2] w_batches w_prss 3 0 30 100 small_empty
    (w_repairer (w_crashed 30) 4 [] [])) as (j & w' & H1 & H2 & H3 & H4 & _ & H5).
  - done.
  - done.
  - exact w_opens.
  - constructor; [constructor|constructor; [constructor|constructor]].
  - exact w_blocks.
  - exact w_batches_ok.
  - lia.
  - cbn. split_and!; vm_compute; congruence || done.
  - by vm_compute.
  - vm_compute. by eexists.
  - split; [done|]. intros h _. exact (lookup_empty h).
  - by vm_compute.
  - apply Nat.ltb_lt. by vm_compute.
  - apply Nat.leb_le. by vm_compute.
  - exact w_table_size.
  - assert (j = 1%nat) as ->.
    { assert (length (layout 0 (concat (take 1 w_prss))) <=? 30 = true)%nat as L1 by (by vm_compute). assert (30 <? length (layout 0 (concat (take 2 w_prss))) = true)%nat as L2 by (by vm_compute).
      apply Nat.leb_le in L1. apply Nat.ltb_lt in L2. cbn [length] in H1, H3. destruct j as [|[|[|j]]]; [|done| |lia]; exfalso; [specialize (H3 ltac:(lia))|]; lia. }
    destruct (H5 ltac:(by vm_compute)) as (_ & es & d & size & P & _ & _ & C & T & _). change (entries_in (take 1 w_batches)) with [Entry 1 kTypeValue [97] [1]] in P. apply Permutation_singleton_r in P as ->.
    exists w', d. split_and!; [exact H4|exact C|by exists size].
Defined.

End ConvertWitness.

(** A table of three bytes that shows one entry and then an error. *)
Section ScanWitness.

#[local] Instance w_damaged : Iterator (list (Slice * Slice)) := {|
  i_Valid l := match l with [] => false | _ => true end;
  i_key l := match l with kv :: _ => kv.1 | [] => [] end;
  i_value l := match l with kv :: _ => kv.2 | [] => [] end;
  i_status l := match l with [] => Status_IOError [] [] | _ => Status_OK end;
  i_SeekToFirst l := Some l;
  i_SeekToLast l := Some l;
  i_Seek _ l := Some l;
  i_Next l := Some (tail l);
  i_Prev l := Some l;
|}.

Definition w_shown : list (Slice * Slice) := [(w_ik 97 1 kTypeValue, [1])].

#[local] Instance w_damaged_tables : TableCache MemEnv (list (Slice * Slice)) := {|
  tc_Get _ _ _ _ w := Some (Status_OK, None, w);
  tc_NewIterator _ _ _ w := Some (w_shown, w);
  tc_delete _ w := w;
  tc_Evict _ w := w;
|}.

Definition w_damaged_disk : MemEnv := MkMemEnv {[TableFileName (str "db") 5 := [1; 2; 3]]} ∅ ∅ 1 None.

Lemma repair_scans_table_witness : ∃ w' size d', ScanTable w_internal (str "db") (fun _ => 0) (D := list (Slice * Slice)) 1 5 (w_repairer w_damaged_disk 7 [] []) =
    Some (MkRepairer w' VersionEdit_new [] [] [] [MkTableInfo (FileMetaData_new 5 size (w_ik 97 1 kTypeValue) (w_ik 97 1 kTypeValue)) 1] 8) ∧
    contents w' (TableFileName (str "db") 5) = Some d' ∧ contents w' (lost (str "db") (table_base 5)) = Some [1; 2; 3].
Proof.
  pose proof (repair_scans_table BytewiseComparator (Forall is_u8) w_internal (str "db") (fun _ => 0) (D := list (Slice * Slice)) 1 5 [1; 2; 3] w_shown (Status_IOError [] [])
    (w_repairer w_damaged_disk 7 [] [])) as Hthm. cbv zeta in Hthm. change (ok (Status_IOError [] [])) with false in Hthm. cbv iota in Hthm. change (bool_decide (w_shown = [])) with false in Hthm.
  destruct Hthm as (r' & w' & E & _ & [M _] & size & d' & -> & C & _).
  - done.
  - done.
  - exact w_plain_name.
  - exact w_directories.
  - split; [done|]. intros h _. exact (lookup_empty h).
  - by vm_compute.
  - done.
  - by vm_compute.
  - by vm_compute.
  - intros w Hg _. exists w_shown, w, w_shown. split; [done|]. split; [by split_and!|]. split; [done|]. cbn [shows_entries w_shown]. do 3 (split; [done|]). exists []. do 3 (split; [done|]). intros w2 Hg2. by split_and!.
  - intros _. split; [intros [|i] [|j] x y Hij Hx Hy; [lia|done|lia|done]|]. apply Forall_singleton. split_and!; [vm_compute; repeat constructor; vm_compute; congruence|vm_compute; lia|vm_compute; repeat constructor; vm_compute; congruence].
  - cbn. lia.
  - exists w', size, d'. split_and!; [exact E|exact C|exact M].
Defined.

End ScanWitness.

(** A manifest to be archived and one table. *)
Definition w_scanned : TableInfo := MkTableInfo (FileMetaData_new 5 100 (w_ik 97 6 kTypeValue) (w_ik 99 5 kTypeValue)) 6.
Definition w_old_manifest : Slice := str "MANIFEST-000002".
Definition w_repair_disk : MemEnv := MkMemEnv {[str "db/" ++ w_old_manifest := [1; 2; 3]]} ∅ ∅ 1 None.

Lemma w_table_fit : table_fit BytewiseComparator (Forall is_u8) w_scanned.
Proof.
  assert (∀ u q, is_u8 u -> ikey_ok (Forall is_u8) (w_ik u q kTypeValue)) as Hu by (intros u q Hu; apply (InternalKey_new_ok (Forall is_u8) (fun k Hk => Hk) [u] q kTypeValue); by constructor).
  assert (is_u8 97 ∧ is_u8 99) as [H97 H99] by (unfold is_u8; lia). split; [| |by vm_compute].
  - split; [by vm_compute|]. split; [by vm_compute|]. split; (split; [by apply Hu|by vm_compute]).
  - split; [by apply Hu|by apply Hu|vm_compute; congruence|vm_compute; by eexists].
Qed.

Lemma repaired_manifest_recovers_witness : ∃ r' rounds vs0 save' vs', WriteDescriptor BytewiseComparator (str "db") (fun _ => 0) (w_repairer w_repair_disk 7 [w_scanned] [w_old_manifest]) = Some (Status_OK, r') ∧
  contents (rp_env r') (lost (str "db") w_old_manifest) = Some [1; 2; 3] ∧ VersionSet_new (rp_env r') = Some vs0 ∧
  Recover BytewiseComparator 100 false (str "db") (fun _ => 0) rounds false vs0 = Some (Status_OK, save', vs') ∧ vs_numbers vs' = MkNumbers 8 7 6 0 0.
Proof.
  destruct (repaired_manifest_recovers BytewiseComparator (Forall is_u8) 100 (str "db") (fun _ => 0) (w_repairer w_repair_disk 7 [w_scanned] [w_old_manifest])) as (r' & d & E & _ & Hl & _ & _ & _ & Hrec).
  - done.
  - exact bytewise_name_ok.
  - exact w_plain_name.
  - exact w_directories.
  - split; [done|]. intros h _. exact (lookup_empty h).
  - done.
  - by vm_compute.
  - apply Forall_singleton. exact w_table_fit.
  - apply NoDup_singleton.
  - apply NoDup_singleton.
  - intros m ->%list_elem_of_singleton. split; [exists 2; by vm_compute|exists [1; 2; 3]; by vm_compute].
  - destruct (Hrec (S (S (length d) + length (current_name 1))) false) as (vs0 & save' & vs' & E0 & E1 & _ & E2); [lia|].
    eexists r', _, vs0, save', vs'. split_and!; [exact E| |exact E0|exact E1|exact E2]. rewrite Hl by (by left). by vm_compute.
Defined.
